(* ===== verification/_CoqProject ===== *)
-Q . S2P
Prelude.v
ShadowWord.v
Pm.v
GmPm.v
ShadowMap.v
RecordDefs.v
Platform.v
HeapBlockManager.v
ErrorBuffer.v
ShadowMemory.v
ShadowMemoryProofs.v
ShadowTheorems.v
BoundsCheck.v
BoundsTheorems.v
EventDef.v
Convert.v
ConvertProofs.v
AsanAction.v
AddressSanitizer.v
AsanProofs.v
AsanTheorems.v
AsanReports.v
PeerTheorems.v
VectorTime.v
VectorTimeProofs.v
EventContainer.v
PipeLineProofs.v
SyncContainers.v
SyncProofs.v
PipelineReplayer.v
ReplayerProofs.v
AsanReplay.v
MemSeries.v
MemSeriesProofs.v
MemEventChecker.v
Scanline.v
RadixProofs.v
ScanProofs.v
WindowProofs.v
FastProofs.v
RaceProofs.v
RaceTheorems.v
SimtProofs.v
RegisterSanitizer.v
SyncSanitizer.v
SyncTheorems.v
KernelRecords.v
ParseBase.v
ParseSync.v
ParseMove.v
ParseLoad.v
ParseLoad3D.v
ParseCalc.v
ParseMstx.v
RecordParse.v
RecordPreProcess.v
ParseExamples.v
WaitGraphProofs.v
RingTheorems.v
PreProcessTheorems.v
ParseTyping.v
ParseTypes.v
ParseTheorems.v
MaskTheorems.v
RaceAlg.v
CrossNpuAlg.v
RaceSanitizer.v
Causality.v
HappensBefore.v
InnerProofs.v
InnerTheorems.v
SpanTheorems.v
DcciTheorems.v
Wire.v
WireTheorems.v
Scheduler.v
SchedulerTheorems.v
ParsePipeline.v
