(* ===== verification/Prelude.v ===== *)
(** * A verification of mssanitizer

    mssanitizer checks kernels of Ascend NPUs. Instrumented kernels and hooked
    runtime calls produce records, which reach the tool as numbered packets over a
    byte stream; the tool puts the packets of a process in order, pre-processes
    and parses kernel records into events and feeds records and events to four
    tools: the address sanitizer, the race sanitizer, the synchronisation check
    and the register check. This development models the packets and their
    scheduling, the way from a kernel record to an event, the replay of events,
    and the tools, as executable definitions, and proves what each component and
    their compositions promise.

    ** Program parts and files

    Sources are under [csrc/]; [core/framework/] is left out of file names below.

    - Packets. [Wire.v] ([protocol.h], [protocol.cpp], [utility/serializer.h],
      [utility/recv_fd.h], the receiving loop of [command.cpp], the numbering of
      [hooks/hook_report.cpp]) with [WireTheorems.v]; [Scheduler.v]
      ([ordered_packet_scheduler.cpp], the completion marks of [checker.cpp]) with
      [SchedulerTheorems.v]; [ParsePipeline.v] ([parse_pipeline.cpp]: parallel parsing,
      results in order). The receiving threads, the dispatching thread of a
      process and the memory checks are the labels of a transition system; a
      checker is the queue of its memory check.
    - From records to events. [KernelRecords.v] ([record_defs.h],
      [include/sanitizer_report.h]): the structures of the instruction records.
      [ParseBase.v] (the shared part of [record_parse.h] and [record_parse.cpp]: the
      monad of the parse functions, locations, alignment checks), [ParseSync.v]
      (flags, barriers, cross-core synchronisation, control records),
      [ParseMove.v], [ParseLoad.v], [ParseLoad3D.v] (moves and loads),
      [ParseCalc.v] (vector and matrix instructions), [ParseMstx.v] (interfaces of
      the user), [RecordParse.v] (the table of functions, hardware flags, rings of
      flags, [Parse]), [RecordPreProcess.v] ([record_pre_process.cpp]).
      [WaitGraphProofs.v] and [RingTheorems.v] hold the theorems on derived
      synchronisation, [PreProcessTheorems.v] those on the pre-processor,
      [ParseTyping.v], [ParseTypes.v] and [ParseTheorems.v] those on [Parse] as a
      whole, [MaskTheorems.v] counter mode, [ParseExamples.v] a concrete
      environment.
    - Events and replay. [EventDef.v] ([event_def.h], [arch_def.h],
      [format_converter.cpp]); [VectorTime.v] ([vector_time.cpp], [vector_clock.cpp]:
      dense and sparse vector times) with [VectorTimeProofs.v]; [EventContainer.v]
      ([event_container.cpp], [pipe_line.cpp]) with [PipeLineProofs.v];
      [SyncContainers.v] (the containers of flags, barriers, buffers and cross-core
      synchronisation) with [SyncProofs.v]; [PipelineReplayer.v]
      ([pipeline_replayer.cpp]) with [ReplayerProofs.v].
    - Address sanitizer. [ShadowWord.v], [Pm.v], [GmPm.v], [ShadowMap.v]
      ([address_sanitizer/pm.cpp]: the shadow tables and the scans by word);
      [ShadowMemory.v] ([shadow_memory.cpp]) with [ShadowMemoryProofs.v] and
      [ShadowTheorems.v]; [HeapBlockManager.v] ([heap_block_manager.cpp]);
      [BoundsCheck.v], [BoundsTheorems.v] ([bounds_check.cpp]); [ErrorBuffer.v]
      ([error_buffer.cpp]); [Convert.v], [ConvertProofs.v] (events to memory records);
      [AsanAction.v] ([asan_action.cpp], [peer_access_manager.cpp]) with
      [PeerTheorems.v]; [AddressSanitizer.v] ([address_sanitizer.cpp],
      [align_checker.cpp]) with [AsanProofs.v], [AsanTheorems.v], [AsanReports.v], and
      [AsanReplay.v], where the real replayer takes the place of the interface.
    - Race sanitizer. [MemSeries.v] ([race_sanitizer/alg_framework/mem_series.cpp])
      with [MemSeriesProofs.v]; [MemEventChecker.v] and [Scanline.v]
      ([mem_event_checker.cpp]: overlap tests, radix sort, the three scans) with
      [RadixProofs.v], [ScanProofs.v], [WindowProofs.v], [FastProofs.v],
      [RaceProofs.v], [RaceTheorems.v] and [SimtProofs.v]; [RaceAlg.v]
      ([race_alg_base.cpp], [race_alg_impl.cpp], [single_pipe_race_alg_impl.cpp],
      [cross_core_race_alg_impl.cpp]: the algorithms that replay the events of a
      core, of a pipe and of all cores); [CrossNpuAlg.v] ([spans.hpp],
      [device_manager.cpp], [cross_npu_race_alg_impl.cpp]) with [SpanTheorems.v];
      [RaceSanitizer.v] ([race_sanitizer.cpp], [cross_npu_race_sanitizer.cpp]) with
      [DcciTheorems.v]. [Causality.v] is the theory of vector clocks on any system
      of processes, [HappensBefore.v] the order of the events of a core;
      [InnerProofs.v] relates the algorithm to both and [InnerTheorems.v] states
      the result, from the events of a core to the messages.
    - [RegisterSanitizer.v] ([register_sanitizer/register_sanitizer.cpp]) and
      [SyncSanitizer.v] ([sync_sanitizer/sync_sanitizer.cpp]) with [SyncTheorems.v].
    - [RecordDefs.v] ([record_defs.h], [mem_error_def.h], [config.h]) and
      [Platform.v] ([platform_config.h]) hold data and chip tables.
    - This file: machine integers, vectors, sums over ranges, ordered maps, the
      development's tactics and hints.

    ** Correspondence

    A C++ object is a record, a method a function from the object (and arguments)
    to the new object and the result; names are the source's. 64-bit arithmetic is
    written out with [+u], [-u], [*u] (modulo 2^64), narrower fields with [u8], [u16],
    [u32], [i32]; [int] arithmetic that overflows wraps around. [std::map] is [gmap],
    iterated in key order through [ordered]; a hash set or map whose order matters
    is the list of its elements, and theorems do not depend on the order.
    A null dereference, an index out of range, a division by zero or a call of an
    empty [std::function] is [None]. Loops that are not structural take a number of
    iterations computed from their bounds, which the specification lemmas show to
    be enough: the theorems state that the function returns [Some]. The replay loop
    takes [replay_fuel], which [replay_terminates] shows to be enough, the loops of the
    race algorithms [race_fuel], which is enough within a core; the search of
    the graph of waits takes [dfs_fuel], 13 levels for 12 pipes.

    ** Parameters

    - [Securec] ([Pm.v]): [memset_s] of the bounds-checking C library, with its
      documented behaviour for valid arguments; [securec_ref] is an instance.
    - [Replayer] ([AddressSanitizer.v]): what the address sanitizer asks of a
      replayer; [fifo_replayer] and the pipeline replayer are instances.
    - [ParseEnv] ([ParseBase.v]): device and kernel indices, the file-name table, and
      what the storage of a new event holds where a parse function does not assign.
    - [sizeof] and [mmap] ([Wire.v]): the sizes of the structures sent and the mapping
      of a received descriptor. [Callbacks] ([Scheduler.v]): what the scheduler calls
      to handle a packet, and whether the memory check is on.
    - The file-name table, the bounds tables of other devices' checkers and the
      identities of objects are arguments.

    ** What the theorems show

    - Packets: however the stream is cut into messages, the packets sent are
      delivered with their numbers, types and payloads, in order. However packets
      arrive and threads interleave, they are dispatched in the order of their
      numbers, after the earlier checks they depend on; missing packets are
      reported, and the scheduler can always come to its end. Parsed results are
      handed over in the order the tasks were submitted.
    - Parser: [Parse] keeps the events collected so far, appends those of the
      instruction and derived synchronisation, with the serial number of the
      record and the watermark of the pipe, and leaves no set on [PIPE_S]; the watermarks of closed rings and the barriers a wait of [PIPE_S]
      implies are exact; counter mode touches exactly the elements counted,
      overall or per repeat as the instruction has it; the pre-processor hands over exactly the records it should, in order.
    - Replay: it terminates, keeps the order of every block, reports as stuck
      exactly the events that would stall again; vector times are joined exactly.
    - Shadow memory: the table operations equal their flat-map meaning; a load
      reports exactly the uninitialised bytes, a store equals its bytewise
      reference and reports exactly the bytes of other cores.
    - Bounds: histories refine a permission map; an access check counts exactly the
      addresses that are not permitted.
    - Heap: leak and unused reports are exact; double frees are reported.
    - Conversion: records cover exactly the bytes the instructions touch.
    - Address sanitizer: every history of inputs is handled and keeps all
      invariants; the scope refines an abstract machine; illegal accesses of a
      kernel are reported, with exact byte counts, and nothing else is; allocations
      become accessible and inaccessible at the right records.
    - Race check: the scans report exactly the unordered conflicting pairs with a
      common byte, whichever scan is chosen, each race once. Within a core the
      vector times decide happens-before exactly, so that the messages are exactly
      the conflicting accesses that synchronisation leaves unordered. Shared memory
      of a device is the union of the shared ranges; scalar accesses carry the
      distance to the nearest cache maintenance of their line, five records back
      for reads and four ahead for writes.
    - Synchronisation and register checks: unpaired, redundant and stuck
      synchronisation and register values that differ are reported exactly.
    - Limits of the code: slice ends the scans miss, the writes the last slice
      loses, core ids above 63, permission changes that drop a tail, stride
      shortcuts that lose bytes, heaps a free leaves registered, 32-bit HBM sizes
      and range lengths, response packets that block the stream, SIMT accesses the
      redundancy check overlooks, [SyncAll] and cube barriers that never complete, a finished
      device that hides a deadlock.

    ** Domains

    - Packets: a stream below 100 GiB, fewer than 2^64 - 2 packets of a process; the
      dependencies of packets: devices keep their checker and the memory check is
      on.
    - Global memory: requests that end below the last slice (2^48 - (2^36 - 1)), exact
      scans away from a slice end.
    - Replay: total event weight below 2^31, fewer than 256 blocks for [SyncAll],
      12 times the number of blocks below 2^32.
    - Race check: at most 2^32 static events of ranges below 4 GiB, well-formed
      clocks, serial numbers below 2^64 - 16. Within a core: the events of one
      block, accesses and flags only, flags set on their source pipe and awaited on
      their destination pipe, 12 times the number of events below 2^31. Shared
      ranges are not empty; the records of a window have consecutive numbers.
    - Synchronisation check: core ids below 65536, flags below 16.
    - Counter mode: no address of the operation wraps around; the parser's
      derived synchronisation: records between two ends of a kernel or block.

    ** Not modelled

    Text output; the dispatch of records to the tools in the front end; sockets, child processes and the command line; call stacks and
    binaries, which an external symboliser reads; the runtime hooks beyond the
    numbering of reports, whose interfaces are outside the sources; the device
    plugin, compiled for the device. Next in the plan: the recorder and its
    blocks, the dispatch of the checker, the command line, the record stubs of
    the plugin. *)
From stdpp Require Import base numbers list option gmap sorting.
From Stdlib Require Import ZArith Lia.
#[global] Open Scope Z_scope.

(** ** Machine integers

    A [w]-bit unsigned C++ integer is a [Z] in [0 .. 2^w - 1]; arithmetic that
    may leave the range is wrapped explicitly by the functions below. *)

Definition u8 (x : Z) : Z := x `mod` 256.
Definition u16 (x : Z) : Z := x `mod` 65536.
Definition u32 (x : Z) : Z := x `mod` 4294967296.
Definition u64 (x : Z) : Z := x `mod` 18446744073709551616.
Definition UINT64_MAX : Z := 18446744073709551615.

(** Reinterpretation of a wrapped value as a signed 32-bit integer. *)
Definition i32 (x : Z) : Z :=
  let y := u32 x in if y <? 2147483648 then y else y - 4294967296.

Declare Scope u64_scope.
Delimit Scope u64_scope with u64.
Notation "a +u b" := (u64 (a + b)) (at level 50, left associativity).
Notation "a -u b" := (u64 (a - b)) (at level 50, left associativity).
Notation "a *u b" := (u64 (a * b)) (at level 40, left associativity).

Definition is_u64 (x : Z) : Prop := 0 <= x < 18446744073709551616.
Definition is_u8 (x : Z) : Prop := 0 <= x < 256.

Create HintDb san.
Create Rewrite HintDb san.

Lemma u64_small x : is_u64 x → u64 x = x.
Proof. unfold is_u64, u64. intros. by apply Z.mod_small. Qed.

Lemma u64_range x : is_u64 (u64 x).
Proof. unfold is_u64, u64. apply Z.mod_pos_bound. lia. Qed.

Definition is_u32 (x : Z) : Prop := 0 <= x < 4294967296.

Lemma u32_small x : is_u32 x → u32 x = x.
Proof. intros. unfold u32. by apply Z.mod_small. Qed.

Lemma u32_range x : is_u32 (u32 x).
Proof. unfold is_u32, u32. apply Z.mod_pos_bound. lia. Qed.

Lemma u8_small x : is_u8 x → u8 x = x.
Proof. unfold is_u8, u8. intros. by apply Z.mod_small. Qed.

Lemma u8_range x : is_u8 (u8 x).
Proof. unfold is_u8, u8. apply Z.mod_pos_bound. lia. Qed.

#[export] Hint Resolve u64_range u8_range : san.

(** [u64_simpl]: drop the wraps whose argument is provably in range. *)
Ltac u64_simpl :=
  repeat match goal with
  | |- context [u64 ?x] => rewrite (u64_small x) by (unfold is_u64 in *; lia)
  | H : context [u64 ?x] |- _ => rewrite (u64_small x) in H by (unfold is_u64 in *; lia)
  end.

(** Turn boolean comparisons of the code into propositions. *)
Ltac bool_prop :=
  repeat match goal with
  | H : (_ && _)%bool = true |- _ => apply andb_true_iff in H as [? ?]
  | H : (_ || _)%bool = false |- _ => apply orb_false_iff in H as [? ?]
  | H : negb _ = true |- _ => apply negb_true_iff in H
  | H : negb _ = false |- _ => apply negb_false_iff in H
  | H : (_ <? _) = true |- _ => apply Z.ltb_lt in H
  | H : (_ <? _) = false |- _ => apply Z.ltb_ge in H
  | H : (_ <=? _) = true |- _ => apply Z.leb_le in H
  | H : (_ <=? _) = false |- _ => apply Z.leb_gt in H
  | H : (_ =? _) = true |- _ => apply Z.eqb_eq in H
  | H : (_ =? _) = false |- _ => apply Z.eqb_neq in H
  | H : bool_decide _ = true |- _ => apply bool_decide_eq_true in H
  | H : bool_decide _ = false |- _ => apply bool_decide_eq_false in H
  end.

(** Case analysis on the comparison the goal is stuck on. *)
Ltac case_cmp :=
  match goal with
  | |- context [?a <? ?b] => destruct (Z.ltb_spec a b)
  | |- context [?a <=? ?b] => destruct (Z.leb_spec a b)
  | |- context [?a =? ?b] => destruct (Z.eqb_spec a b)
  end.

(** Linear arithmetic with division and modulo by constants. *)
Ltac zdiv := Z.to_euclidean_division_equations; lia.

(** ** Arrays with checked access

    A C array or a [std::vector] that is never resized after construction: a
    size and the cells. [vget] is [None] exactly where the C++ access is out of
    bounds, so undefined behaviour is visible in every model that reads. *)

Record vec (A : Type) := Vec { vsize : Z; vdata : Z → A }.
Arguments Vec {A} _ _.
Arguments vsize {A} _.
Arguments vdata {A} _ _.

Definition vget {A} (v : vec A) (i : Z) : option A :=
  if (0 <=? i) && (i <? vsize v) then Some (vdata v i) else None.

Definition vset {A} (v : vec A) (i : Z) (x : A) : vec A :=
  Vec (vsize v) (λ j, if j =? i then x else vdata v j).

(** [n] cells starting at [lo] overwritten with [x]. *)
Definition vfill {A} (v : vec A) (lo n : Z) (x : A) : vec A :=
  Vec (vsize v) (λ j, if (lo <=? j) && (j <? lo + n) then x else vdata v j).

Definition vmake {A} (n : Z) (x : A) : vec A := Vec n (λ _, x).

Section vec_lemmas.
Context {A : Type}.
Implicit Types (v : vec A) (x : A).

Lemma vget_in v i : 0 <= i < vsize v → vget v i = Some (vdata v i).
Proof. intros. unfold vget. by repeat case_cmp; simpl; try lia. Qed.

Lemma vget_out v i : ¬ (0 <= i < vsize v) → vget v i = None.
Proof. intros. unfold vget. by repeat case_cmp; simpl; try lia. Qed.

Lemma vget_Some v i x : vget v i = Some x ↔ 0 <= i < vsize v ∧ vdata v i = x.
Proof.
  unfold vget. repeat case_cmp; simpl; split; intros; intuition (congruence || lia).
Qed.

Lemma vget_vset v i j x :
  0 <= i < vsize v → vget (vset v i x) j = if j =? i then Some x else vget v j.
Proof.
  intros. unfold vget, vset; simpl. repeat case_cmp; simpl; intuition (congruence || lia).
Qed.

Lemma vget_vfill v lo n j x :
  0 <= lo → lo + n <= vsize v →
  vget (vfill v lo n x) j =
    if (lo <=? j) && (j <? lo + n) then Some x else vget v j.
Proof.
  intros. unfold vget, vfill; simpl. repeat case_cmp; simpl; intuition (congruence || lia).
Qed.

Lemma vget_vmake n i x : 0 <= i < n → vget (vmake n x) i = Some x.
Proof. intros. by rewrite vget_in. Qed.

Lemma vsize_vset v i x : vsize (vset v i x) = vsize v.
Proof. done. Qed.

Lemma vsize_vfill v lo n x : vsize (vfill v lo n x) = vsize v.
Proof. done. Qed.
End vec_lemmas.

#[export] Hint Rewrite @vsize_vset @vsize_vfill : san.

(** ** Powers of two *)

Lemma land_mask_small a n : 0 <= n → 0 <= a < 2 ^ n → Z.land a (2 ^ n - 1) = a.
Proof.
  intros. replace (2 ^ n - 1) with (Z.ones n) by (rewrite Z.ones_equiv; lia).
  rewrite Z.land_ones by done. by apply Z.mod_small.
Qed.

Lemma land_mask_mod a n : 0 <= n → Z.land a (2 ^ n - 1) = a `mod` 2 ^ n.
Proof.
  intros. replace (2 ^ n - 1) with (Z.ones n) by (rewrite Z.ones_equiv; lia).
  by rewrite Z.land_ones.
Qed.

Lemma land_range_r a m n : 0 <= n → 0 <= m < 2 ^ n → 0 <= Z.land a m < 2 ^ n.
Proof.
  intros. rewrite <- (land_mask_small m n), Z.land_assoc, land_mask_mod by done.
  apply Z.mod_pos_bound. by apply Z.pow_pos_nonneg.
Qed.

(** ** Sums over address ranges *)

Fixpoint sum_range (f : Z → Z) (lo : Z) (n : nat) : Z :=
  match n with O => 0 | S n' => f lo + sum_range f (lo + 1) n' end.

Lemma sum_range_app f lo n k :
  sum_range f lo (n + k) = sum_range f lo n + sum_range f (lo + Z.of_nat n) k.
Proof.
  revert lo. induction n as [|n IH]; intros lo; simpl.
  - by rewrite Z.add_0_r.
  - rewrite IH. replace (lo + 1 + Z.of_nat n) with (lo + Z.of_nat (S n)) by lia. lia.
Qed.

Lemma sum_range_ext f g lo n :
  (∀ a, lo <= a < lo + Z.of_nat n → f a = g a) → sum_range f lo n = sum_range g lo n.
Proof.
  revert lo. induction n as [|n IH]; intros lo He; simpl; [done|].
  rewrite He, (IH (lo + 1)) by (intros; try apply He; lia). done.
Qed.

Lemma sum_range_const f lo n c :
  (∀ a, lo <= a < lo + Z.of_nat n → f a = c) → sum_range f lo n = c * Z.of_nat n.
Proof.
  revert lo. induction n as [|n IH]; intros lo He; simpl; [lia|].
  rewrite He, (IH (lo + 1)) by (intros; try apply He; lia). lia.
Qed.

Lemma sum_range_bounds f lo n c :
  (∀ a, 0 <= f a <= c) → 0 <= sum_range f lo n <= c * Z.of_nat n.
Proof.
  intros Hf. revert lo. induction n as [|n IH]; intros lo; simpl; [lia|].
  pose proof (Hf lo). pose proof (IH (lo + 1)). lia.
Qed.

Lemma sum_range_pos f lo n :
  (∀ a, 0 <= f a) → 0 < sum_range f lo n ↔ ∃ a, lo <= a < lo + Z.of_nat n ∧ 0 < f a.
Proof.
  intros Hf. revert lo. induction n as [|n IH]; intros lo; simpl.
  - split; [lia|]. intros (a & ? & _). lia.
  - pose proof (Hf lo). split.
    + intros Hp. destruct (Z.lt_ge_cases 0 (f lo)); [exists lo; split; [lia|done]|].
      destruct (proj1 (IH (lo + 1))) as (a & ? & ?); [lia|]. exists a. split; [lia|done].
    + intros (a & Ha & Hpa). assert (0 <= sum_range f (lo + 1) n).
      { clear -Hf. generalize (lo + 1). induction n as [|n IH]; intros; simpl; [lia|].
        pose proof (Hf z). pose proof (IH (z + 1)). lia. }
      destruct (Z.eq_dec a lo) as [->|]; [lia|].
      assert (0 < sum_range f (lo + 1) n); [|lia]. apply IH. exists a. split; [lia|done].
Qed.

Lemma sum_range_add f g lo n :
  sum_range (λ a, f a + g a) lo n = sum_range f lo n + sum_range g lo n.
Proof. revert lo. induction n as [|n IH]; intros lo; simpl; [done|]. rewrite IH. lia. Qed.

(** The indicator of an interval sums to the length of the intersection. *)
Lemma sum_range_interval L R lo n :
  sum_range (λ a, if (L <=? a) && (a <? R) then 1 else 0) lo n =
    Z.max 0 (Z.min (lo + Z.of_nat n) R - Z.max lo L).
Proof.
  revert lo. induction n as [|n IH]; intros lo; simpl; [lia|]. rewrite IH.
  destruct (Z.leb_spec L lo), (Z.ltb_spec lo R); simpl; lia.
Qed.

(** ** Ordered maps

    A [std::map] is a finite map; its iteration order is the order of the
    keys. *)
Section ordered.
Context {V : Type}.
Implicit Types m : gmap Z V.

Definition key_le (p q : Z * V) : Prop := p.1 <= q.1.
#[global] Instance key_le_dec : RelDecision key_le.
Proof. intros p q. unfold key_le. apply _. Defined.
#[global] Instance key_le_total : Total key_le.
Proof. intros p q. unfold key_le. lia. Qed.
#[global] Instance key_le_trans : Transitive key_le.
Proof. intros p q r. unfold key_le. lia. Qed.

(** The entries in iteration order. *)
Definition ordered m : list (Z * V) := merge_sort key_le (map_to_list m).

Lemma elem_of_ordered m k v : (k, v) ∈ ordered m ↔ m !! k = Some v.
Proof.
  unfold ordered. rewrite merge_sort_Permutation. apply elem_of_map_to_list.
Qed.

Lemma ordered_sorted m : StronglySorted key_le (ordered m).
Proof. apply StronglySorted_merge_sort; apply _. Qed.

Lemma ordered_perm m : ordered m ≡ₚ map_to_list m.
Proof. apply merge_sort_Permutation. Qed.

Lemma length_ordered m : length (ordered m) = size m.
Proof. by rewrite ordered_perm, length_map_to_list. Qed.
End ordered.
