(* ===== verification/ShadowWord.v ===== *)
(** Word-at-a-time inspection of shadow bytes: the helpers at the top of
    [csrc/address_sanitizer/pm.cpp] ([ReadShadowWord], [HasZeroByte] and their
    masks), with the facts that justify reading eight shadow bytes at once. *)
From stdpp Require Import base numbers list option.
From S2P Require Import Prelude.

(** ** Constants *)
Definition STATUS_MASK : Z := 3.
Definition BYTE_ONES : Z := 0x0101010101010101.
Definition BYTE_HIGH_BITS : Z := 0x8080808080808080.
Definition BYTE_STATUS_MASKS : Z := BYTE_ONES *u STATUS_MASK.

(** ** Word-at-a-time helpers *)

(** [n] bytes starting at [p], little endian. *)
Fixpoint read_le (n : nat) (bytes : vec Z) (p : Z) : option Z :=
  match n with
  | O => Some 0
  | S n' => b ← vget bytes p; w ← read_le n' bytes (p + 1); Some (b + 256 * w)
  end.

Definition ReadShadowWord (bytes : vec Z) (p : Z) : option Z := read_le 8 bytes p.

Definition lnot64 (x : Z) : Z := UINT64_MAX - x.

Definition HasZeroByte (word : Z) : bool :=
  negb (Z.land (Z.land (word -u BYTE_ONES) (lnot64 word)) BYTE_HIGH_BITS =? 0).

(** ** Facts on bytes inside words *)

(** Byte [i] of a word. *)
Definition byte_at (w i : Z) : Z := (w / 256 ^ i) `mod` 256.

Lemma byte_at_range w i : is_u8 (byte_at w i).
Proof. unfold byte_at, is_u8. apply Z.mod_pos_bound. lia. Qed.

Lemma testbit7 b : is_u8 b → Z.testbit b 7 = (128 <=? b).
Proof.
  unfold is_u8. intros. rewrite Z.testbit_eqb by lia.
  change (2 ^ 7) with 128. destruct (Z.leb_spec 128 b).
  - apply Z.eqb_eq. replace (b / 128) with 1 by zdiv. done.
  - apply Z.eqb_neq. rewrite Z.div_small by lia. done.
Qed.

Lemma testbit_byte x k j :
  0 <= k → 0 <= j < 8 → Z.testbit (byte_at x k) j = Z.testbit x (8 * k + j).
Proof.
  intros. unfold byte_at. change 256 with (2 ^ 8) at 2.
  rewrite Z.mod_pow2_bits_low by lia.
  change 256 with (2 ^ 8). rewrite <- Z.pow_mul_r by lia.
  rewrite <- Z.shiftr_div_pow2 by lia. rewrite Z.shiftr_spec by lia. f_equal. lia.
Qed.

Lemma byte_at_eq x y k :
  0 <= k → (∀ j, 0 <= j < 8 → Z.testbit x (8 * k + j) = Z.testbit y j) →
  is_u8 y → byte_at x k = y.
Proof.
  intros Hk Hbits Hy. apply Z.bits_inj'. intros j Hj.
  destruct (Z.lt_ge_cases j 8).
  - rewrite testbit_byte by lia. by apply Hbits.
  - unfold is_u8 in *. pose proof (byte_at_range x k) as Hr. unfold is_u8 in Hr.
    rewrite <- (Z.mod_small (byte_at x k) (2 ^ 8)) by lia.
    rewrite <- (Z.mod_small y (2 ^ 8)) by lia.
    by rewrite !Z.mod_pow2_bits_high by lia.
Qed.

Lemma byte_at_land x y k : 0 <= k → byte_at (Z.land x y) k = Z.land (byte_at x k) (byte_at y k).
Proof.
  intros. apply byte_at_eq; [done| |].
  - intros. by rewrite !Z.land_spec, !testbit_byte by lia.
  - pose proof (byte_at_range x k) as [? ?]. pose proof (byte_at_range y k) as [? ?].
    split; [by apply Z.land_nonneg; left|].
    rewrite <- (Z.mod_small (byte_at x k) (2 ^ 8)) by lia.
    rewrite <- (Z.land_ones _ 8) by lia. rewrite <- Z.land_assoc.
    rewrite (Z.land_comm (Z.ones 8)), Z.land_assoc, Z.land_ones by lia.
    apply (Z.mod_pos_bound _ (2 ^ 8)). lia.
Qed.

Lemma log2_u8 b : is_u8 b → Z.log2 b < 8.
Proof.
  intros [? ?]. destruct (Z.eq_dec b 0) as [->|]; [done|]. apply Z.log2_lt_pow2; lia.
Qed.

Lemma byte_at_lxor x y k : 0 <= k → byte_at (Z.lxor x y) k = Z.lxor (byte_at x k) (byte_at y k).
Proof.
  intros. apply byte_at_eq; [done| |].
  - intros. by rewrite !Z.lxor_spec, !testbit_byte by lia.
  - pose proof (byte_at_range x k) as [? ?]. pose proof (byte_at_range y k) as [? ?].
    split; [by apply Z.lxor_nonneg|].
    destruct (Z.eq_dec (Z.lxor (byte_at x k) (byte_at y k)) 0) as [->|]; [lia|].
    apply (Z.log2_lt_pow2 _ 8).
    + pose proof (proj2 (Z.lxor_nonneg (byte_at x k) (byte_at y k))). lia.
    + eapply Z.le_lt_trans; [by apply Z.log2_lxor|].
      apply Z.max_lub_lt; apply log2_u8; done.
Qed.

Lemma lnot64_bits w n : 0 <= n < 64 → Z.testbit (lnot64 w) n = negb (Z.testbit w n) ∨ ¬ is_u64 w.
Proof.
  intros. destruct (Z.lt_ge_cases w 0); [right; unfold is_u64; lia|].
  destruct (Z.lt_ge_cases w (2 ^ 64)); [left|right; unfold is_u64; lia].
  rewrite <- Z.lnot_spec by lia.
  rewrite <- (Z.mod_pow2_bits_low (Z.lnot w) 64) by lia. f_equal.
  unfold lnot64, UINT64_MAX, Z.lnot.
  rewrite <- (Z.mod_add (Z.pred (- w)) 1) by lia.
  rewrite Z.mod_small by lia. lia.
Qed.

Lemma high_bits_spec n :
  0 <= n → Z.testbit BYTE_HIGH_BITS n = true → ∃ k, 0 <= k < 8 ∧ n = 8 * k + 7.
Proof.
  intros Hn Hb. assert (n < 64).
  { destruct (Z.lt_ge_cases n 64); [done|]. rewrite Z.bits_above_log2 in Hb; [done|done|].
    unfold BYTE_HIGH_BITS. simpl. lia. }
  assert (Hin : n ∈ seqZ 0 64) by (apply elem_of_seqZ; lia).
  exists (n / 8). split; [zdiv|].
  enough (Z.eqb (n `mod` 8) 7 = true) by (bool_prop; zdiv).
  revert n Hin Hb Hn H.
  assert (HF : Forall (λ n, Z.testbit BYTE_HIGH_BITS n = true → (n `mod` 8 =? 7) = true) (seqZ 0 64)).
  { unfold seqZ. repeat (constructor; [vm_compute; congruence|]). constructor. }
  intros n Hin Hb _ _. apply list_elem_of_In in Hin. rewrite Forall_forall in HF. by apply HF.
Qed.

Lemma HasZeroByte_bits w :
  is_u64 w →
  HasZeroByte w = true ↔
  ∃ k, 0 <= k < 8 ∧ 128 <= byte_at (w -u BYTE_ONES) k ∧ byte_at w k < 128.
Proof.
  intros Hw. unfold HasZeroByte.
  set (x := w -u BYTE_ONES). rewrite negb_true_iff, Z.eqb_neq. split.
  - intros Hnz. set (z := Z.land _ BYTE_HIGH_BITS) in *.
    assert (0 <= z) by (apply Z.land_nonneg; right; done).
    pose proof (Z.bit_log2 z ltac:(lia)) as Hb. unfold z in Hb at 1.
    rewrite !Z.land_spec in Hb. apply andb_true_iff in Hb as [[Hx Hy]%andb_true_iff Hh].
    apply high_bits_spec in Hh as (k & Hk & Heq); [|apply Z.log2_nonneg].
    rewrite Heq in Hx, Hy. exists k. split; [done|].
    destruct (lnot64_bits w (8 * k + 7)) as [Hl|?]; [lia| |done].
    rewrite Hl in Hy. rewrite <- testbit_byte, testbit7 in Hx, Hy by (try apply byte_at_range; lia).
    bool_prop. lia.
  - intros (k & Hk & Hx & Hy) Hz.
    assert (Hb : Z.testbit (Z.land (Z.land x (lnot64 w)) BYTE_HIGH_BITS) (8 * k + 7) = true).
    { rewrite !Z.land_spec.
      destruct (lnot64_bits w (8 * k + 7)) as [->|?]; [lia| |done].
      rewrite <- !testbit_byte, !testbit7 by (try apply byte_at_range; lia).
      assert (128 <= byte_at BYTE_HIGH_BITS k).
      { assert (k ∈ seqZ 0 8) as Hin by (apply elem_of_seqZ; lia). 
        revert Hin. clear. intros Hin.
        repeat (apply elem_of_cons in Hin as [->|Hin]; [by vm_compute|]).
        by apply elem_of_nil in Hin. }
      repeat case_cmp; simpl; done || lia. }
    rewrite Hz, Z.bits_0 in Hb. done.
Qed.

Lemma byte_at_digits w :
  is_u64 w →
  w = byte_at w 0 + 256 * byte_at w 1 + 256 ^ 2 * byte_at w 2 + 256 ^ 3 * byte_at w 3
      + 256 ^ 4 * byte_at w 4 + 256 ^ 5 * byte_at w 5 + 256 ^ 6 * byte_at w 6
      + 256 ^ 7 * byte_at w 7.
Proof. unfold is_u64, byte_at. intros. zdiv. Qed.

Ltac byte_cases k := 
  assert (k = 0 ∨ k = 1 ∨ k = 2 ∨ k = 3 ∨ k = 4 ∨ k = 5 ∨ k = 6 ∨ k = 7) as Hk8 by lia;
  destruct Hk8 as [ -> | [ -> | [ -> | [ -> | [ -> | [ -> | [ -> | -> ] ] ] ] ] ] ].

Lemma sub_ones_byte w k :
  is_u64 w → 0 <= k < 8 → (∀ j, 0 <= j < k → byte_at w j ≠ 0) →
  byte_at (w -u BYTE_ONES) k = (byte_at w k - 1) `mod` 256.
Proof.
  intros Hw Hk Hnz. pose proof (byte_at_digits w Hw) as Hd.
  pose proof (byte_at_range w) as Hr. unfold is_u8 in Hr.
  pose proof (Hr 0); pose proof (Hr 1); pose proof (Hr 2); pose proof (Hr 3);
  pose proof (Hr 4); pose proof (Hr 5); pose proof (Hr 6); pose proof (Hr 7).
  unfold byte_at at 1, u64, BYTE_ONES.
  byte_cases k;
  try (pose proof (Hnz 0 ltac:(lia))); try (pose proof (Hnz 1 ltac:(lia)));
  try (pose proof (Hnz 2 ltac:(lia))); try (pose proof (Hnz 3 ltac:(lia)));
  try (pose proof (Hnz 4 ltac:(lia))); try (pose proof (Hnz 5 ltac:(lia)));
  try (pose proof (Hnz 6 ltac:(lia))); clear Hnz Hr;
  generalize dependent (byte_at w 0); generalize dependent (byte_at w 1);
  generalize dependent (byte_at w 2); generalize dependent (byte_at w 3);
  generalize dependent (byte_at w 4); generalize dependent (byte_at w 5);
  generalize dependent (byte_at w 6); generalize dependent (byte_at w 7);
  intros; subst w; zdiv.
Qed.

Lemma lowest_zero_byte w k :
  0 <= k → byte_at w k = 0 →
  ∃ i, 0 <= i <= k ∧ byte_at w i = 0 ∧ ∀ j, 0 <= j < i → byte_at w j ≠ 0.
Proof.
  intros Hk. rewrite <- (Z2Nat.id k) by done. clear Hk.
  induction (Z.to_nat k) as [n IH] using lt_wf_ind. intros Hz.
  destruct (decide (Exists (λ j, byte_at w (Z.of_nat j) = 0) (seq 0 n))) as [He|Hne].
  - apply Exists_exists in He as (j & Hj & Hz'). apply list_elem_of_In, elem_of_seq in Hj.
    destruct (IH j ltac:(lia) Hz') as (i & ? & ? & ?). exists i. split_and!; [lia|lia|done|done].
  - exists (Z.of_nat n). split_and!; [lia|lia|done|].
    intros j Hj Hz'. apply Hne, Exists_exists. exists (Z.to_nat j).
    rewrite Z2Nat.id by lia. split; [|done]. apply list_elem_of_In, elem_of_seq. lia.
Qed.

Lemma HasZeroByte_iff w :
  is_u64 w → HasZeroByte w = true ↔ ∃ k, 0 <= k < 8 ∧ byte_at w k = 0.
Proof.
  intros Hw. rewrite HasZeroByte_bits by done. split.
  - intros (k & Hk & Hx & Hy).
    destruct (decide (Exists (λ j, byte_at w (Z.of_nat j) = 0) (seq 0 8))) as [He|Hne].
    + apply Exists_exists in He as (j & Hj & Hz). apply list_elem_of_In, elem_of_seq in Hj.
      exists (Z.of_nat j). split; [lia|done].
    + assert (Hnz : ∀ j, 0 <= j < 8 → byte_at w j ≠ 0).
      { intros j Hj Hz. apply Hne, Exists_exists. exists (Z.to_nat j).
        rewrite Z2Nat.id by lia. split; [|done]. apply list_elem_of_In, elem_of_seq. lia. }
      rewrite sub_ones_byte in Hx by (auto with lia).
      pose proof (Hnz k Hk). pose proof (byte_at_range w k) as [? ?].
      rewrite Z.mod_small in Hx by lia. lia.
  - intros (k & Hk & Hz). destruct (lowest_zero_byte w k) as (i & Hi & Hzi & Hlow); [lia|done|].
    exists i. split_and!; [lia|lia| |lia].
    rewrite sub_ones_byte, Hzi by (auto with lia). done.
Qed.

(** ** Reading words *)

(** Every cell of an array of bytes is a byte. *)
Definition bytes_ok (v : vec Z) : Prop := ∀ i, is_u8 (vdata v i).

(** [n] copies of the byte 1. *)
Fixpoint ones_le (n : nat) : Z :=
  match n with O => 0 | S n' => 1 + 256 * ones_le n' end.

Lemma pow256_pos i : 0 <= i → 0 < 256 ^ i.
Proof. intros. by apply Z.pow_pos_nonneg. Qed.

Lemma byte_at_cons b w i :
  is_u8 b → 0 <= i → byte_at (b + 256 * w) i = if i =? 0 then b else byte_at w (i - 1).
Proof.
  unfold byte_at, is_u8. intros Hb Hi. destruct (Z.eqb_spec i 0) as [->|].
  - rewrite Z.pow_0_r, Z.div_1_r. zdiv.
  - replace (256 ^ i) with (256 * 256 ^ (i - 1)) by (rewrite <- Z.pow_succ_r by lia; f_equal; lia).
    rewrite <- Z.div_div by (try apply pow256_pos; lia).
    replace ((b + 256 * w) / 256) with w by zdiv. done.
Qed.

(** An in-bounds read succeeds and its bytes are the cells read. *)
Lemma read_le_spec n v p :
  bytes_ok v → 0 <= p → p + Z.of_nat n <= vsize v →
  ∃ w, read_le n v p = Some w ∧ 0 <= w < 256 ^ Z.of_nat n ∧
       ∀ i, 0 <= i < Z.of_nat n → byte_at w i = vdata v (p + i).
Proof.
  intros Hb. revert p. induction n as [|n IH]; intros p Hp Hsz.
  - exists 0. simpl. split_and!; try lia. done.
  - destruct (IH (p + 1)) as (w & Hw & Hr & Hbytes); [lia|lia|].
    exists (vdata v p + 256 * w). simpl. rewrite vget_in by lia. simpl. rewrite Hw.
    pose proof (Hb p) as [? ?].
    rewrite Nat2Z.inj_succ, Z.pow_succ_r by lia. split_and!; [done|lia|lia|].
    intros i Hi. rewrite byte_at_cons by (try apply Hb; lia).
    destruct (Z.eqb_spec i 0) as [->|]; [f_equal; lia|].
    rewrite Hbytes by lia. f_equal. lia.
Qed.

(** A word equals [h] replicated exactly when every cell read is [h]. *)
Lemma read_le_const n v p h w :
  bytes_ok v → is_u8 h → read_le n v p = Some w →
  w = h * ones_le n ↔ ∀ i, 0 <= i < Z.of_nat n → vdata v (p + i) = h.
Proof.
  intros Hb Hh. revert p w. induction n as [|n IH]; intros p w Hr.
  - simpl in Hr. simplify_eq. simpl. split; [lia|intros; lia].
  - simpl in Hr. destruct (vget v p) as [b|] eqn:Hg; [|done]. simpl in Hr.
    destruct (read_le n v (p + 1)) as [w'|] eqn:Hw; [|done]. simplify_eq/=.
    apply vget_Some in Hg as [_ Hg]. pose proof (Hb p) as Hbp. rewrite Hg in Hbp.
    specialize (IH (p + 1) w' Hw). unfold is_u8 in *.
    replace (h * (1 + 256 * ones_le n)) with (h + 256 * (h * ones_le n)) by lia.
    split.
    + intros Heq i Hi. assert (b = h ∧ w' = h * ones_le n) as [-> Hw'] by lia.
      destruct (Z.eq_dec i 0) as [->|]; [rewrite Z.add_0_r; done|].
      rewrite <- (proj1 IH Hw' (i - 1)) by lia. f_equal. lia.
    + intros Hall. assert (b = h) as -> by (rewrite <- Hg, <- (Hall 0) by lia; f_equal; lia).
      assert (w' = h * ones_le n); [|lia].
      apply IH. intros i Hi. rewrite <- (Hall (i + 1)) by lia. f_equal. lia.
Qed.

Lemma land_lxor_l a b m : Z.land (Z.lxor a b) m = Z.lxor (Z.land a m) (Z.land b m).
Proof.
  apply Z.bits_inj'. intros n Hn. rewrite !Z.land_spec, !Z.lxor_spec, !Z.land_spec.
  by destruct (Z.testbit a n), (Z.testbit b n), (Z.testbit m n).
Qed.

(** The test of the fast scan: eight shadow bytes contain the status
    [status] exactly when the masked difference has a zero byte. *)
Lemma status_word_hit v p w status :
  bytes_ok v → 0 <= p → p + 8 <= vsize v → 0 <= status < 4 →
  ReadShadowWord v p = Some w →
  HasZeroByte (Z.land (Z.lxor w (status *u BYTE_ONES)) BYTE_STATUS_MASKS) = true ↔
  ∃ i, 0 <= i < 8 ∧ Z.land (vdata v (p + i)) STATUS_MASK = status.
Proof.
  intros Hb Hp Hsz Hs Hread. unfold ReadShadowWord in Hread.
  destruct (read_le_spec 8 v p) as (w' & Hw & Hr & Hbytes); [done|done|lia|].
  rewrite Hread in Hw. simplify_eq.
  rewrite HasZeroByte_iff; last first.
  { by apply (land_range_r _ _ 64). }
  assert (Hk : ∀ i, 0 <= i < 8 →
    byte_at (Z.land (Z.lxor w' (status *u BYTE_ONES)) BYTE_STATUS_MASKS) i = 0 ↔
    Z.land (vdata v (p + i)) STATUS_MASK = status).
  2: { split; intros (i & Hi & He); exists i; split; try done; by apply Hk. }
  intros i Hi. rewrite byte_at_land, byte_at_lxor, Hbytes by lia.
  assert (byte_at BYTE_STATUS_MASKS i = 3) as -> by (byte_cases i; done).
  assert (byte_at (status *u BYTE_ONES) i = status) as ->.
  { assert (status = 0 ∨ status = 1 ∨ status = 2 ∨ status = 3) as [-> | [-> | [-> | ->] ] ] by lia;
    byte_cases i; done. }
  rewrite land_lxor_l.
  assert (Z.land status 3 = status) as ->.
  { by apply (land_mask_small status 2). }
  unfold STATUS_MASK. rewrite Z.lxor_eq_0_iff. done.
Qed.

(** [HasZeroByte], the borrow trick of the fast scan, is exact on every
    64-bit word: it answers true if and only if one of the eight bytes is zero,
    the borrows between bytes notwithstanding. *)
Theorem HasZeroByte_exact w :
  is_u64 w → HasZeroByte w = true ↔ ∃ k, 0 <= k < 8 ∧ byte_at w k = 0.
Proof. apply HasZeroByte_iff. Qed.

Lemma HasZeroByte_exact_witness :
  HasZeroByte 0x0102030400060708 = true ↔ ∃ k, 0 <= k < 8 ∧ byte_at 0x0102030400060708 k = 0.
Proof. apply HasZeroByte_exact. split; done. Defined.
