(* ===== verification/Pm.v ===== *)
(** Shadow memory tables: [csrc/address_sanitizer/pm.h], [pm.cpp].

    [PM] is the two-level table of one on-chip memory (or of one 64 GB slice of
    global memory): a list of secondary maps, each of 64 KB, allocated on
    demand, and one common byte for every block whose bytes all agree. [GmPM]
    adds the third level for the 48-bit global memory. [Range1D] is the view the
    shadow-memory loops iterate over.

    The flat meaning of a table is the function from an address to its shadow
    byte, read with [GetBits]; the theorems relate [Set], [UnifiedSizeAfter] and
    the word-at-a-time scans to that function. *)
From stdpp Require Import base numbers list option.
From S2P Require Import Prelude.
From S2P Require Import ShadowWord.

(** ** The bounds-checking C library

    [memset_s] comes from the libboundscheck submodule, which is not part of
    this repository: it is a parameter, with the documented success case. The
    destination is an array and a start offset inside it; the result is the
    array after the call and the error code (0 is EOK). *)
Definition EOK : Z := 0.
Definition SECUREC_MEM_MAX_LEN : Z := 2147483647.

Class Securec := {
  memset_s (dest : vec Z) (off destMax c count : Z) : vec Z * Z;
  memset_s_ok dest off destMax c count :
    0 <= off → 0 < destMax <= SECUREC_MEM_MAX_LEN → 0 <= count <= destMax →
    off + destMax <= vsize dest →
    memset_s dest off destMax c count = (vfill dest off count c, EOK);
}.

(** A library that meets the contract (used by the concrete examples only). *)
Definition securec_ref : Securec.
Proof. by refine {| memset_s dest off destMax c count := (vfill dest off count c, EOK) |}. Defined.

(** ** Constants *)
Definition GLOBAL_MEM_MASK : Z := 0xFFFFFFFFFFFF.
Definition LOCAL_MEM_MASK : Z := 0xFFFFFFFFF.
Definition ONE_SM_STAND_FOR_BYTE : Z := 65536.

Module PM.
Section PM.
Context `{!Securec}.

(** *** State *)
Record SM := { vabits8 : vec Z }.

Record PM := {
  smList_ : vec (option SM);
  commonBitsList_ : vec Z;
  byteNum_ : Z;
  smNum_ : Z;
}.

Definition blockSize_ : Z := ONE_SM_STAND_FOR_BYTE.

(** [SM(bits8)]: the constructor fills the whole array. *)
Definition new_SM (bits8 : Z) : SM :=
  {| vabits8 := fst (memset_s (vmake ONE_SM_STAND_FOR_BYTE 0) 0 ONE_SM_STAND_FOR_BYTE bits8
                              ONE_SM_STAND_FOR_BYTE) |}.

Definition GetBlockIdx (addr : Z) : Z := Z.land addr LOCAL_MEM_MASK / blockSize_.
Definition GetBlockOffset (addr : Z) : Z := Z.land addr LOCAL_MEM_MASK `mod` blockSize_.

(** [PM(byteNum, memInitVal)] *)
Definition new_PM (byteNum memInitVal : Z) : PM :=
  let smNum := (byteNum +u blockSize_ -u 1) / blockSize_ in
  {| smList_ := if 0 <? byteNum then vmake smNum None else vmake 0 None;
     commonBitsList_ := if 0 <? byteNum then vmake smNum memInitVal else vmake 0 memInitVal;
     byteNum_ := byteNum;
     smNum_ := smNum |}.

Definition Reset (pm : PM) (memInitVal : Z) : PM :=
  {| smList_ := Vec (vsize (smList_ pm)) (λ _, None);
     commonBitsList_ := vmake (smNum_ pm) memInitVal;
     byteNum_ := byteNum_ pm;
     smNum_ := smNum_ pm |}.

Definition GetBits (pm : PM) (addr : Z) : option Z :=
  let blockIndex := GetBlockIdx addr in
  sm ← vget (smList_ pm) blockIndex;
  match sm with
  | None => vget (commonBitsList_ pm) blockIndex
  | Some sm => vget (vabits8 sm) (GetBlockOffset addr)
  end.

Definition with_block (pm : PM) (bi : Z) (sm : option SM) : PM :=
  {| smList_ := vset (smList_ pm) bi sm; commonBitsList_ := commonBitsList_ pm;
     byteNum_ := byteNum_ pm; smNum_ := smNum_ pm |}.

Definition with_common (pm : PM) (bi : Z) (bits : Z) : PM :=
  {| smList_ := smList_ pm; commonBitsList_ := vset (commonBitsList_ pm) bi bits;
     byteNum_ := byteNum_ pm; smNum_ := smNum_ pm |}.

(** One iteration of the loop of [Set] on a block index inside the list: the
    table after it and whether [memset_s] failed. *)
Definition Set_block (pm : PM) (addr size bits blockIndex : Z) : option (PM * bool) :=
  let blockAddrL := blockSize_ *u blockIndex in
  let blockAddrR := blockAddrL +u blockSize_ in
  if (addr <=? blockAddrL) && (blockAddrR <=? addr +u size) then
    Some (with_common (with_block pm blockIndex None) blockIndex bits, false)
  else
    slot ← vget (smList_ pm) blockIndex;
    sm ← match slot with
         | Some sm => Some sm
         | None => new_SM <$> vget (commonBitsList_ pm) blockIndex
         end;
    let pm := with_block pm blockIndex (Some sm) in
    let addrL := Z.max addr blockAddrL in
    let addrR := Z.min (addr +u size) blockAddrR in
    let destMaxSm := ONE_SM_STAND_FOR_BYTE +u blockAddrL -u addrL in
    if addrL =? addrR then Some (pm, false)
    else
      let '(bytes, rc) :=
        memset_s (vabits8 sm) (addrL -u blockAddrL) destMaxSm bits (addrR -u addrL) in
      Some (with_block pm blockIndex (Some {| vabits8 := bytes |}), negb (rc =? 0)).

Fixpoint Set_loop (n : nat) (pm : PM) (addr size bits blockIndex memsetCount : Z)
    : option (PM * Z) :=
  match n with
  | O => Some (pm, memsetCount)
  | S n' =>
      if vsize (smList_ pm) <=? blockIndex then Some (pm, memsetCount) (* break *)
      else
        '(pm, failed) ← Set_block pm addr size bits blockIndex;
        Set_loop n' pm addr size bits (blockIndex + 1)
                 (if failed : bool then memsetCount + 1 else memsetCount)
  end.

(** [Set(addr, size, bits)]; the second component counts the failed
    [memset_s] calls, which the code logs. *)
Definition Set' (pm : PM) (addr size bits : Z) : option (PM * Z) :=
  let blockIndexL := GetBlockIdx addr in
  let remainderSum := GetBlockOffset addr +u GetBlockOffset size in
  let blockIndexR :=
    GetBlockIdx addr +u GetBlockIdx size +u GetBlockIdx (remainderSum +u blockSize_ -u 1) in
  Set_loop (Z.to_nat (blockIndexR - blockIndexL)) pm addr size bits blockIndexL 0.

Definition PM_Set (pm : PM) (addr size bits : Z) : option PM :=
  fst <$> Set' pm addr size bits.

(** *** The run-length scan *)

(** The loop over batches of four words. *)
Fixpoint batch_loop (n : nat) (bytes : vec Z) (base commonSize headBytes offset : Z) : option Z :=
  match n with
  | O => Some offset
  | S n' =>
      if offset + 32 <=? commonSize then
        c0 ← ReadShadowWord bytes (base + offset);
        c1 ← ReadShadowWord bytes (base + offset + 8);
        c2 ← ReadShadowWord bytes (base + offset + 16);
        c3 ← ReadShadowWord bytes (base + offset + 24);
        if negb (c0 =? headBytes) || negb (c1 =? headBytes) || negb (c2 =? headBytes)
           || negb (c3 =? headBytes)
        then Some offset
        else batch_loop n' bytes base commonSize headBytes (offset + 32)
      else Some offset
  end.

(** The loop over single words. *)
Fixpoint word_loop (n : nat) (bytes : vec Z) (base commonSize headBytes offset : Z) : option Z :=
  match n with
  | O => Some offset
  | S n' =>
      if offset + 8 <=? commonSize then
        chunk ← ReadShadowWord bytes (base + offset);
        if negb (chunk =? headBytes) then Some offset
        else word_loop n' bytes base commonSize headBytes (offset + 8)
      else Some offset
  end.

(** The loop over single bytes. *)
Fixpoint byte_loop (n : nat) (bytes : vec Z) (base commonSize head offset : Z) : option Z :=
  match n with
  | O => Some offset
  | S n' =>
      if offset <? commonSize then
        b ← vget bytes (base + offset);
        if b =? head then byte_loop n' bytes base commonSize head (offset + 1) else Some offset
      else Some offset
  end.

Definition UnifiedSizeAfter (pm : PM) (baseAddr size addr : Z) : option Z :=
  let blockIndex := GetBlockIdx addr in
  let blockOffset := GetBlockOffset addr in
  let commonSize := Z.min (baseAddr +u size -u addr) (blockSize_ -u blockOffset) in
  slot ← vget (smList_ pm) blockIndex;
  match slot with
  | Some sm =>
      let fuel := Z.to_nat commonSize in
      head ← vget (vabits8 sm) blockOffset;
      let headBytes := head *u BYTE_ONES in
      offset ← batch_loop fuel (vabits8 sm) blockOffset commonSize headBytes 1;
      offset ← word_loop fuel (vabits8 sm) blockOffset commonSize headBytes offset;
      byte_loop fuel (vabits8 sm) blockOffset commonSize head offset
  | None => Some commonSize
  end.

(** *** The status scan *)

Fixpoint status_word_loop (n : nat) (p : vec Z) (base blockLen status8 i : Z) : option (bool * Z) :=
  match n with
  | O => Some (false, i)
  | S n' =>
      if i + 8 <=? blockLen then
        w ← ReadShadowWord p (base + i);
        let diff := Z.land (Z.lxor w status8) BYTE_STATUS_MASKS in
        if HasZeroByte diff then Some (true, i)
        else status_word_loop n' p base blockLen status8 (i + 8)
      else Some (false, i)
  end.

Fixpoint status_byte_loop (n : nat) (p : vec Z) (base blockLen status i : Z) : option bool :=
  match n with
  | O => Some false
  | S n' =>
      if i <? blockLen then
        b ← vget p (base + i);
        if Z.land b STATUS_MASK =? status then Some true
        else status_byte_loop n' p base blockLen status (i + 1)
      else Some false
  end.

(** One block of [RangeHasStatus]. *)
Definition block_has_status (pm : PM) (bi offsetInBlock blockLen status : Z) : option bool :=
  slot ← vget (smList_ pm) bi;
  match slot with
  | None =>
      c ← vget (commonBitsList_ pm) bi;
      Some (Z.land c STATUS_MASK =? status)
  | Some sm =>
      let status8 := status *u BYTE_ONES in
      let fuel := Z.to_nat blockLen in
      '(hit, i) ← status_word_loop fuel (vabits8 sm) offsetInBlock blockLen status8 0;
      if hit : bool then Some true
      else status_byte_loop fuel (vabits8 sm) offsetInBlock blockLen status i
  end.

Fixpoint RangeHasStatus_loop (n : nat) (pm : PM) (bi offsetInBlock remaining status : Z)
    : option bool :=
  match n with
  | O => Some false
  | S n' =>
      let blockLen := Z.min remaining (blockSize_ - offsetInBlock) in
      hit ← block_has_status pm bi offsetInBlock blockLen status;
      if hit : bool then Some true
      else
        let remaining := remaining - blockLen in
        if remaining =? 0 then Some false
        else RangeHasStatus_loop n' pm (bi + 1) 0 remaining status
  end.

Definition RangeHasStatus (pm : PM) (addr size status : Z) : option bool :=
  if size =? 0 then Some false
  else
    let blockIndexL := GetBlockIdx addr in
    let blockIndexR := GetBlockIdx (addr +u size +u blockSize_ -u 1) in
    RangeHasStatus_loop (Z.to_nat (blockIndexR - blockIndexL)) pm blockIndexL
                        (GetBlockOffset addr) size status.

(** *** Invariant *)

(** A well-formed table: both lists have [smNum_] entries (at most one per 64 KB
    of the 36-bit local space), every secondary map has 65536 bytes. *)
Record pm_ok (pm : PM) : Prop := {
  ok_num : 0 <= smNum_ pm <= 1048576;
  ok_sm : vsize (smList_ pm) = smNum_ pm;
  ok_common : vsize (commonBitsList_ pm) = smNum_ pm;
  ok_cbytes : bytes_ok (commonBitsList_ pm);
  ok_bytes bi sm : vget (smList_ pm) bi = Some (Some sm) →
    vsize (vabits8 sm) = 65536 ∧ bytes_ok (vabits8 sm);
}.

(** Number of addresses the table models. *)
Definition capacity (pm : PM) : Z := smNum_ pm * 65536.

(** *** Address arithmetic *)

Lemma GetBlockIdx_small a : 0 <= a < 2 ^ 36 → GetBlockIdx a = a / 65536.
Proof.
  intros. unfold GetBlockIdx, blockSize_, ONE_SM_STAND_FOR_BYTE.
  change LOCAL_MEM_MASK with (2 ^ 36 - 1). by rewrite land_mask_small.
Qed.

Lemma GetBlockOffset_small a : 0 <= a < 2 ^ 36 → GetBlockOffset a = a `mod` 65536.
Proof.
  intros. unfold GetBlockOffset, blockSize_, ONE_SM_STAND_FOR_BYTE.
  change LOCAL_MEM_MASK with (2 ^ 36 - 1). by rewrite land_mask_small.
Qed.

Lemma capacity_le pm : pm_ok pm → capacity pm <= 2 ^ 36.
Proof. intros []. unfold capacity. lia. Qed.

Lemma new_SM_eq b : new_SM b = {| vabits8 := vfill (vmake 65536 0) 0 65536 b |}.
Proof. unfold new_SM. by rewrite memset_s_ok. Qed.

Lemma new_SM_ok b :
  is_u8 b → vsize (vabits8 (new_SM b)) = 65536 ∧ bytes_ok (vabits8 (new_SM b)).
Proof.
  intros. rewrite new_SM_eq. split; [done|]. intros i. simpl. repeat case_cmp; simpl; done.
Qed.

Lemma new_SM_get b i : 0 <= i < 65536 → vget (vabits8 (new_SM b)) i = Some b.
Proof.
  intros. rewrite new_SM_eq. simpl. rewrite vget_vfill by (simpl; lia).
  repeat case_cmp; simpl; done || lia.
Qed.

(** *** Reading *)

Lemma GetBits_eq pm a :
  0 <= a < 2 ^ 36 →
  GetBits pm a =
    (slot ← vget (smList_ pm) (a / 65536);
     match slot with
     | None => vget (commonBitsList_ pm) (a / 65536)
     | Some sm => vget (vabits8 sm) (a `mod` 65536)
     end).
Proof. intros. unfold GetBits. by rewrite GetBlockIdx_small, GetBlockOffset_small. Qed.

Lemma GetBits_total pm a :
  pm_ok pm → 0 <= a < capacity pm → ∃ b, GetBits pm a = Some b ∧ is_u8 b.
Proof.
  intros Hok Ha. pose proof (capacity_le pm Hok). destruct Hok as [Hn Hsm Hc Hcb Hb].
  unfold capacity in *. rewrite GetBits_eq by lia.
  rewrite (vget_in (smList_ pm)) by (rewrite Hsm; zdiv). simpl.
  destruct (vdata (smList_ pm) (a / 65536)) as [sm|] eqn:He.
  - destruct (Hb (a / 65536) sm) as [Hsz Hby].
    { rewrite vget_in by (rewrite Hsm; zdiv). by rewrite He. }
    rewrite vget_in by (rewrite Hsz; zdiv). eauto.
  - rewrite vget_in by (rewrite Hc; zdiv). eauto.
Qed.

Lemma new_PM_ok byteNum b :
  0 <= byteNum <= 2 ^ 36 → is_u8 b → pm_ok (new_PM byteNum b).
Proof.
  intros Hn Hb. unfold new_PM, blockSize_, ONE_SM_STAND_FOR_BYTE. u64_simpl.
  split; simpl.
  - zdiv.
  - case_cmp; simpl; [done|zdiv].
  - case_cmp; simpl; [done|zdiv].
  - by case_cmp; intros ?.
  - case_cmp; intros bi sm [? ?]%vget_Some; done.
Qed.

Lemma new_PM_capacity byteNum b :
  0 <= byteNum <= 2 ^ 36 → byteNum <= capacity (new_PM byteNum b) <= byteNum + 65535.
Proof.
  intros. unfold capacity, new_PM, blockSize_, ONE_SM_STAND_FOR_BYTE; simpl. u64_simpl. zdiv.
Qed.

Lemma new_PM_GetBits byteNum b a :
  0 <= byteNum <= 2 ^ 36 → 0 <= a < capacity (new_PM byteNum b) →
  GetBits (new_PM byteNum b) a = Some b.
Proof.
  intros Hn Ha. pose proof (new_PM_capacity byteNum b Hn). unfold capacity in *.
  destruct (Z.eq_dec byteNum 0) as [->|].
  { change (smNum_ (new_PM 0 b)) with 0 in Ha. lia. }
  assert (smNum_ (new_PM byteNum b) <= 1048576).
  { unfold new_PM, blockSize_, ONE_SM_STAND_FOR_BYTE; simpl. u64_simpl. zdiv. }
  rewrite GetBits_eq by lia.
  unfold new_PM in *; simpl in *. case_cmp; [|lia].
  rewrite vget_vmake by zdiv. simpl. by rewrite vget_vmake by zdiv.
Qed.

Lemma Reset_ok pm b : pm_ok pm → is_u8 b → pm_ok (Reset pm b).
Proof.
  intros [] Hb. split; simpl; try done.
  - by intros ?.
  - intros bi sm [? ?]%vget_Some; done.
Qed.

Lemma Reset_GetBits pm b a :
  pm_ok pm → 0 <= a < capacity pm → GetBits (Reset pm b) a = Some b.
Proof.
  intros Hok Ha. pose proof (capacity_le pm Hok). destruct Hok. unfold capacity in *.
  rewrite GetBits_eq by lia. simpl.
  rewrite (vget_in (Vec _ _)) by (simpl; rewrite ok_sm0; zdiv). simpl. by rewrite vget_vmake by zdiv.
Qed.

(** *** Writing *)

Lemma with_block_ok pm bi sm :
  pm_ok pm → 0 <= bi < smNum_ pm →
  (∀ s, sm = Some s → vsize (vabits8 s) = 65536 ∧ bytes_ok (vabits8 s)) →
  pm_ok (with_block pm bi sm).
Proof.
  intros [] Hbi Hs. split; simpl; try done.
  intros bj s. rewrite vget_vset by (rewrite ok_sm0; done).
  case_cmp; [intros; simplify_eq; by apply Hs|apply ok_bytes0].
Qed.

Lemma with_common_ok pm bi b :
  pm_ok pm → is_u8 b → pm_ok (with_common pm bi b).
Proof.
  intros [] Hb. split; simpl; try done.
  intros i. simpl. case_cmp; [done|apply ok_cbytes0].
Qed.

Lemma GetBits_with_block_Some pm bi sm a :
  pm_ok pm → 0 <= bi < smNum_ pm → 0 <= a < capacity pm →
  GetBits (with_block pm bi (Some sm)) a =
    if a / 65536 =? bi then vget (vabits8 sm) (a `mod` 65536) else GetBits pm a.
Proof.
  intros Hok Hbi Ha. pose proof (capacity_le pm Hok). destruct Hok. unfold capacity in *.
  rewrite !GetBits_eq by lia. simpl. rewrite vget_vset by (rewrite ok_sm0; done).
  by case_cmp.
Qed.

Lemma GetBits_whole_block pm bi b a :
  pm_ok pm → 0 <= bi < smNum_ pm → 0 <= a < capacity pm →
  GetBits (with_common (with_block pm bi None) bi b) a =
    if a / 65536 =? bi then Some b else GetBits pm a.
Proof.
  intros Hok Hbi Ha. pose proof (capacity_le pm Hok). destruct Hok. unfold capacity in *.
  rewrite !GetBits_eq by lia. simpl. rewrite !vget_vset by (rewrite ?ok_sm0, ?ok_common0; done).
  by case_cmp.
Qed.

(** The materialised block reads as the table did before. *)
Lemma slot_sm pm bi :
  pm_ok pm → 0 <= bi < smNum_ pm →
  ∃ slot sm, vget (smList_ pm) bi = Some slot ∧
    match slot with
    | Some sm => Some sm
    | None => new_SM <$> vget (commonBitsList_ pm) bi
    end = Some sm ∧
    vsize (vabits8 sm) = 65536 ∧ bytes_ok (vabits8 sm) ∧
    ∀ a, 0 <= a < capacity pm → a / 65536 = bi → vget (vabits8 sm) (a `mod` 65536) = GetBits pm a.
Proof.
  intros Hok Hbi. pose proof (capacity_le pm Hok) as Hcap. destruct Hok. unfold capacity in *.
  exists (vdata (smList_ pm) bi). rewrite vget_in by (rewrite ok_sm0; done).
  destruct (vdata (smList_ pm) bi) as [sm|] eqn:He.
  - assert (Hg : vget (smList_ pm) bi = Some (Some sm)) by (by rewrite vget_in, He by (rewrite ok_sm0; done)).
    destruct (ok_bytes0 bi sm Hg). exists sm. split_and!; try done.
    intros a Ha <-. by rewrite GetBits_eq, Hg by lia.
  - assert (Hg : vget (smList_ pm) bi = Some None) by (by rewrite vget_in, He by (rewrite ok_sm0; done)).
    rewrite vget_in by (rewrite ok_common0; done). simpl. eexists. split_and!; [done|done|..].
    1,2: by apply new_SM_ok.
    intros a Ha <-. rewrite GetBits_eq, Hg by lia. simpl.
    rewrite (vget_in (commonBitsList_ pm)) by (rewrite ok_common0; zdiv).
    apply new_SM_get. zdiv.
Qed.

Lemma Set_block_spec pm addr size bits bi :
  pm_ok pm → 0 <= bi < smNum_ pm → is_u8 bits →
  0 <= addr < 2 ^ 36 → 0 <= size < 2 ^ 36 →
  addr / 65536 <= bi → bi * 65536 <= addr + size →
  ∃ pm', Set_block pm addr size bits bi = Some (pm', false) ∧ pm_ok pm' ∧
    smNum_ pm' = smNum_ pm ∧
    ∀ a, 0 <= a < capacity pm →
      GetBits pm' a =
        if (a / 65536 =? bi) && ((addr <=? a) && (a <? addr + size))
        then Some bits else GetBits pm a.
Proof.
  intros Hok Hbi Hbits Haddr Hsize HL HR. pose proof (ok_num _ Hok).
  assert (addr < bi * 65536 + 65536) by zdiv.
  unfold Set_block, blockSize_, ONE_SM_STAND_FOR_BYTE. u64_simpl.
  destruct ((addr <=? 65536 * bi) && (65536 * bi + 65536 <=? addr + size)) eqn:Hfull.
  { bool_prop. eexists. split_and!; [done| |done|].
    - apply with_common_ok; [|done]. by apply with_block_ok.
    - intros a Ha. rewrite GetBits_whole_block by done.
      destruct (Z.eqb_spec (a / 65536) bi); [|done]. repeat case_cmp; simpl; done || zdiv. }
  destruct (slot_sm pm bi Hok Hbi) as (slot & sm & Hslot & Hsm & Hsz & Hby & Hget).
  rewrite Hslot. simpl. rewrite Hsm. simpl.
  set (addrL := Z.max addr (65536 * bi)). set (addrR := Z.min (addr + size) (65536 * bi + 65536)).
  assert (Hok1 : pm_ok (with_block pm bi (Some sm))).
  { apply with_block_ok; [done|done|]. intros; by simplify_eq. }
  destruct (Z.eqb_spec addrL addrR) as [Heq|Hne].
  { eexists. split_and!; [done|done|done|].
    intros a Ha. rewrite GetBits_with_block_Some by done.
    destruct (Z.eqb_spec (a / 65536) bi) as [He|]; [|done]. rewrite Hget by done.
    repeat case_cmp; simpl; done || zdiv. }
  assert (65536 * bi <= addrL < addrR /\ addrR <= 65536 * bi + 65536) by zdiv. u64_simpl.
  rewrite memset_s_ok by (unfold SECUREC_MEM_MAX_LEN; lia). simpl.
  eexists. split_and!; [done| |done|].
  - apply with_block_ok; [done|done|]. intros s [= <-]. split; [done|].
    intros i. simpl. repeat case_cmp; simpl; try done; apply Hby.
  - intros a Ha. rewrite GetBits_with_block_Some by done. simpl.
    rewrite vget_vfill by lia. rewrite GetBits_with_block_Some by done.
    destruct (Z.eqb_spec (a / 65536) bi) as [He|]; [|done]. rewrite Hget by done.
    repeat case_cmp; simpl; done || zdiv.
Qed.

Lemma Set_loop_spec n : ∀ pm addr size bits bi cnt,
  pm_ok pm → 0 <= bi → is_u8 bits → 0 <= addr < 2 ^ 36 → 0 <= size < 2 ^ 36 →
  addr / 65536 <= bi → (bi + Z.of_nat n - 1) * 65536 <= addr + size →
  ∃ pm', Set_loop n pm addr size bits bi cnt = Some (pm', cnt) ∧ pm_ok pm' ∧
    smNum_ pm' = smNum_ pm ∧
    ∀ a, 0 <= a < capacity pm →
      GetBits pm' a =
        if ((bi <=? a / 65536) && (a / 65536 <? bi + Z.of_nat n)) &&
           ((addr <=? a) && (a <? addr + size))
        then Some bits else GetBits pm a.
Proof.
  induction n as [|n IH]; intros pm addr size bits bi cnt Hok Hbi Hbits Ha Hs HL HR.
  - exists pm. split_and!; [done|done|done|]. intros a _. by repeat case_cmp; simpl; try lia.
  - simpl. rewrite (ok_sm _ Hok). destruct (Z.leb_spec (smNum_ pm) bi) as [Hout|Hin].
    + exists pm. split_and!; [done|done|done|]. unfold capacity. intros a Hc.
      repeat case_cmp; simpl; done || zdiv.
    + destruct (Set_block_spec pm addr size bits bi) as (pm1 & -> & Hok1 & Hn1 & Hg1);
        [done|done|done|done|done|done|lia|].
      simpl. destruct (IH pm1 addr size bits (bi + 1) cnt) as (pm2 & -> & Hok2 & Hn2 & Hg2);
        [done|lia|done|done|done|lia|lia|].
      exists pm2. split_and!; [done|done|congruence|].
      intros a Hc. unfold capacity in *. rewrite Hg2, Hg1 by (rewrite ?Hn1; done).
      repeat case_cmp; simpl; done || lia.
Qed.

(** [Set] writes exactly the requested bytes and never accesses a list out of
    bounds; no [memset_s] call of it fails. *)
Lemma Set_spec pm addr size bits :
  pm_ok pm → is_u8 bits → 0 <= addr < 2 ^ 36 → 0 <= size < 2 ^ 36 →
  ∃ pm', Set' pm addr size bits = Some (pm', 0) ∧ pm_ok pm' ∧ smNum_ pm' = smNum_ pm ∧
    ∀ a, 0 <= a < capacity pm →
      GetBits pm' a = if (addr <=? a) && (a <? addr + size) then Some bits else GetBits pm a.
Proof.
  intros Hok Hbits Ha Hs. unfold Set'.
  rewrite (GetBlockIdx_small addr), (GetBlockIdx_small size), (GetBlockOffset_small addr),
    (GetBlockOffset_small size) by done.
  assert (0 <= addr `mod` 65536 < 65536) by zdiv. assert (0 <= size `mod` 65536 < 65536) by zdiv.
  assert (0 <= addr / 65536 < 1048576) by zdiv. assert (0 <= size / 65536 < 1048576) by zdiv.
  unfold blockSize_, ONE_SM_STAND_FOR_BYTE. rewrite (u64_small (_ `mod` _ + _)) by (unfold is_u64; lia).
  u64_simpl. rewrite GetBlockIdx_small by lia.
  set (k := (addr `mod` 65536 + size `mod` 65536 + 65536 - 1) / 65536).
  assert (0 <= k <= 2) by (unfold k; zdiv). u64_simpl.
  set (R := addr / 65536 + size / 65536 + k).
  assert (HR : R = (addr + size + 65535) / 65536) by (unfold R, k; zdiv).
  destruct (Set_loop_spec (Z.to_nat (R - addr / 65536)) pm addr size bits (addr / 65536) 0)
    as (pm' & -> & Hok' & Hn' & Hg); [done|lia|done|done|done|lia|zdiv|].
  exists pm'. split_and!; [done|done|done|]. intros a Hc. rewrite Hg by done.
  repeat case_cmp; simpl; done || zdiv.
Qed.

(** *** The run-length scan finds the maximal run inside the block *)

(** The first [o] bytes from [base] are all [h]. *)
Definition run_of (v : vec Z) (base h o : Z) : Prop :=
  ∀ i, 0 <= i < o → vdata v (base + i) = h.

Lemma word_is_head v p h :
  bytes_ok v → is_u8 h → 0 <= p → p + 8 <= vsize v →
  ∃ w, ReadShadowWord v p = Some w ∧
    (w = h *u BYTE_ONES → ∀ i, 0 <= i < 8 → vdata v (p + i) = h).
Proof.
  intros Hb Hh Hp Hsz. unfold ReadShadowWord.
  destruct (read_le_spec 8 v p) as (w & Hw & _ & _); [done|done|lia|].
  exists w. split; [done|]. intros Heq. unfold is_u8, BYTE_ONES in *. u64_simpl.
  by apply (read_le_const 8 v p h w).
Qed.

Lemma run_of_extend v base h o n :
  run_of v base h o → 0 <= n → (∀ i, 0 <= i < n → vdata v (base + o + i) = h) →
  run_of v base h (o + n).
Proof.
  intros Hr Hn He i Hi. destruct (Z.lt_ge_cases i o); [apply Hr; lia|].
  rewrite <- (He (i - o)) by lia. f_equal. lia.
Qed.

Section scan.
Variables (v : vec Z) (base h commonSize : Z).
Hypotheses (Hb : bytes_ok v) (Hh : is_u8 h) (Hbase : 0 <= base) (Hsz : base + commonSize <= vsize v).

Lemma batch_loop_spec n : ∀ o,
  0 <= o <= commonSize → run_of v base h o →
  ∃ o', batch_loop n v base commonSize (h *u BYTE_ONES) o = Some o' ∧
        o <= o' <= commonSize ∧ run_of v base h o'.
Proof.
  induction n as [|n IH]; intros o Ho Hr; simpl; [by exists o; split_and!; try lia|].
  destruct (Z.leb_spec (o + 32) commonSize); [|by exists o; split_and!; try lia].
  destruct (word_is_head v (base + o) h) as (w0 & -> & HW0); [done|done|lia|lia|].
  destruct (word_is_head v (base + o + 8) h) as (w1 & -> & HW1); [done|done|lia|lia|].
  destruct (word_is_head v (base + o + 16) h) as (w2 & -> & HW2); [done|done|lia|lia|].
  destruct (word_is_head v (base + o + 24) h) as (w3 & -> & HW3); [done|done|lia|lia|].
  simpl. destruct (_ || _) eqn:E; [by exists o; split_and!; try lia|]. bool_prop.
  destruct (IH (o + 32)) as (o' & -> & ? & ?); [lia| |by exists o'; split_and!; try lia].
  replace (o + 32) with (o + 8 + 8 + 8 + 8) by lia.
  repeat (apply run_of_extend; [|lia|]); auto.
  - intros i Hi. rewrite <- (HW1 ltac:(assumption) i) by lia. f_equal. lia.
  - intros i Hi. rewrite <- (HW2 ltac:(assumption) i) by lia. f_equal. lia.
  - intros i Hi. rewrite <- (HW3 ltac:(assumption) i) by lia. f_equal. lia.
Qed.

Lemma word_loop_spec n : ∀ o,
  0 <= o <= commonSize → run_of v base h o →
  ∃ o', word_loop n v base commonSize (h *u BYTE_ONES) o = Some o' ∧
        o <= o' <= commonSize ∧ run_of v base h o'.
Proof.
  induction n as [|n IH]; intros o Ho Hr; simpl; [by exists o; split_and!; try lia|].
  destruct (Z.leb_spec (o + 8) commonSize); [|by exists o; split_and!; try lia].
  destruct (word_is_head v (base + o) h) as (w0 & -> & HW0); [done|done|lia|lia|].
  simpl. destruct (negb _) eqn:E; [by exists o; split_and!; try lia|]. bool_prop.
  destruct (IH (o + 8)) as (o' & -> & ? & ?); [lia| |by exists o'; split_and!; try lia].
  apply run_of_extend; [done|lia|]. by apply HW0.
Qed.

Lemma byte_loop_spec n : ∀ o,
  0 <= o <= commonSize → run_of v base h o → commonSize - o <= Z.of_nat n →
  ∃ o', byte_loop n v base commonSize h o = Some o' ∧ o <= o' <= commonSize ∧
        run_of v base h o' ∧ (o' = commonSize ∨ vdata v (base + o') ≠ h).
Proof.
  induction n as [|n IH]; intros o Ho Hr Hf; simpl.
  { exists o. split_and!; try lia; done || (left; lia). }
  destruct (Z.ltb_spec o commonSize); [|exists o; split_and!; try lia; done || (left; lia)].
  rewrite vget_in by lia. simpl. case_cmp.
  - destruct (IH (o + 1)) as (o' & -> & ? & ? & ?); [lia| |lia|by exists o'; split_and!; try lia].
    apply run_of_extend; [done|lia|]. intros i Hi. replace i with 0 by lia. by rewrite Z.add_0_r.
  - exists o. split_and!; try lia; done || by right.
Qed.
End scan.

(** The scan ends, stays inside the request and the block, covers only bytes
    equal to the first one, and stops early only at a different byte. *)
Lemma UnifiedSizeAfter_spec pm baseAddr size addr b :
  pm_ok pm → 0 <= baseAddr <= addr → addr < baseAddr + size → addr < capacity pm →
  baseAddr + size < 2 ^ 64 → GetBits pm addr = Some b →
  let limit := Z.min (baseAddr + size - addr) (65536 - addr `mod` 65536) in
  ∃ n, UnifiedSizeAfter pm baseAddr size addr = Some n ∧ 1 <= n <= limit ∧
    (∀ i, 0 <= i < n → GetBits pm (addr + i) = Some b) ∧
    (n = limit ∨ GetBits pm (addr + n) ≠ Some b).
Proof.
  intros Hok Hba Has Hac Hbs Hget limit. pose proof (capacity_le pm Hok) as Hcap.
  pose proof (ok_num _ Hok). unfold UnifiedSizeAfter.
  rewrite GetBlockIdx_small, GetBlockOffset_small by lia.
  assert (0 <= addr `mod` 65536 < 65536) by zdiv.
  assert (0 <= addr / 65536 < smNum_ pm) by (unfold capacity in *; zdiv).
  unfold blockSize_, ONE_SM_STAND_FOR_BYTE. u64_simpl. fold limit.
  assert (1 <= limit) by lia.
  assert (Hblk : ∀ i, 0 <= i < limit →
    GetBits pm (addr + i) =
      (slot ← vget (smList_ pm) (addr / 65536);
       match slot with
       | None => vget (commonBitsList_ pm) (addr / 65536)
       | Some sm => vget (vabits8 sm) (addr `mod` 65536 + i)
       end)).
  { intros i Hi. unfold capacity in *. rewrite GetBits_eq by zdiv.
    replace ((addr + i) / 65536) with (addr / 65536) by zdiv.
    by replace ((addr + i) `mod` 65536) with (addr `mod` 65536 + i) by zdiv. }
  pose proof (Hblk 0 ltac:(lia)) as Hb0. rewrite Z.add_0_r, Hget in Hb0.
  destruct (vget (smList_ pm) (addr / 65536)) as [[sm|]|] eqn:Hslot; simpl in *; [| |done].
  - destruct (ok_bytes _ Hok _ _ Hslot) as [Hsz Hby].
    rewrite Z.add_0_r in Hb0. rewrite <- Hb0. simpl.
    assert (Hhead : vdata (vabits8 sm) (addr `mod` 65536) = b).
    { symmetry in Hb0. by apply vget_Some in Hb0 as [_ ?]. }
    assert (is_u8 b) by (rewrite <- Hhead; apply Hby).
    assert (Hr1 : run_of (vabits8 sm) (addr `mod` 65536) b 1).
    { intros i Hi. replace i with 0 by lia. by rewrite Z.add_0_r. }
    destruct (batch_loop_spec (vabits8 sm) (addr `mod` 65536) b limit) with (n := Z.to_nat limit) (o := 1)
      as (o1 & -> & Ho1 & Hr2); [done|done|lia|lia|lia|done|]. simpl.
    destruct (word_loop_spec (vabits8 sm) (addr `mod` 65536) b limit) with (n := Z.to_nat limit) (o := o1)
      as (o2 & -> & Ho2 & Hr3); [done|done|lia|lia|lia|done|]. simpl.
    destruct (byte_loop_spec (vabits8 sm) (addr `mod` 65536) b limit) with (n := Z.to_nat limit) (o := o2)
      as (o3 & -> & Ho3 & Hr4 & Hend); [lia|lia|lia|done|lia|].
    exists o3. split_and!; [done|lia|lia| |].
    + intros i Hi. rewrite Hblk, vget_in, Hr4 by lia. done.
    + destruct Hend as [->|Hne]; [by left|]. destruct (Z.eq_dec o3 limit); [by left|right].
      rewrite Hblk, vget_in by lia. congruence.
  - exists limit. split_and!; [done|lia|lia| |by left].
    intros i Hi. by rewrite Hblk.
Qed.

(** *** The status scan decides whether a status occurs *)

Section status.
Variables (v : vec Z) (base blockLen status : Z).
Hypotheses (Hb : bytes_ok v) (Hst : 0 <= status < 4) (Hbase : 0 <= base)
  (Hsz : base + blockLen <= vsize v).

(** One of the bytes [lo .. hi) has the status. *)
Definition hit_in (lo hi : Z) : Prop :=
  ∃ i, lo <= i < hi ∧ Z.land (vdata v (base + i)) STATUS_MASK = status.

Lemma status_word_loop_spec n : ∀ i,
  0 <= i <= blockLen →
  ∃ hit j, status_word_loop n v base blockLen (status *u BYTE_ONES) i = Some (hit, j) ∧
    i <= j <= blockLen ∧
    if hit : bool then hit_in i blockLen else ¬ hit_in i j.
Proof.
  induction n as [|n IH]; intros i Hi; simpl.
  { exists false, i. split_and!; try lia; try done. intros (k & ? & _). lia. }
  destruct (Z.leb_spec (i + 8) blockLen); last first.
  { exists false, i. split_and!; try lia; try done. intros (k & ? & _). lia. }
  destruct (read_le_spec 8 v (base + i)) as (w & Hw & _); [done|lia|lia|].
  assert (HR : ReadShadowWord v (base + i) = Some w) by done. rewrite HR. simpl.
  pose proof (status_word_hit v (base + i) w status Hb ltac:(lia) ltac:(lia) Hst HR) as Hiff.
  destruct (HasZeroByte _).
  - exists true, i. split_and!; try lia; try done.
    destruct (proj1 Hiff eq_refl) as (k & Hk & He). exists (i + k). split; [lia|].
    by rewrite Z.add_assoc.
  - destruct (IH (i + 8)) as (hit & j & -> & Hj & Hh); [lia|].
    exists hit, j. split_and!; try lia; try done. destruct hit.
    + destruct Hh as (k & ? & ?). exists k. split; [lia|done].
    + intros (k & Hk & He). destruct (Z.lt_ge_cases k (i + 8)).
      * assert (false = true) by (apply Hiff; exists (k - i); split; [lia|];
          replace (base + i + (k - i)) with (base + k) by lia; done). done.
      * apply Hh. exists k. split; [lia|done].
Qed.

Lemma status_byte_loop_spec n : ∀ i,
  0 <= i <= blockLen → blockLen - i <= Z.of_nat n →
  ∃ hit, status_byte_loop n v base blockLen status i = Some hit ∧
    (hit = true ↔ hit_in i blockLen).
Proof.
  induction n as [|n IH]; intros i Hi Hf; simpl.
  { exists false. split; [done|]. split; [done|]. intros (k & ? & _). lia. }
  destruct (Z.ltb_spec i blockLen); last first.
  { exists false. split; [done|]. split; [done|]. intros (k & ? & _). lia. }
  rewrite vget_in by lia. simpl. destruct (Z.eqb_spec (Z.land (vdata v (base + i)) STATUS_MASK) status).
  - exists true. split; [done|]. split; [|done]. intros _. exists i. split; [lia|done].
  - destruct (IH (i + 1)) as (hit & -> & Hh); [lia|lia|]. exists hit. split; [done|].
    rewrite Hh. split; intros (k & ? & ?); exists k; (split; [|done]); [lia|].
    destruct (Z.eq_dec k i) as [->|]; [done|lia].
Qed.
End status.

(** Some address in [lo .. hi) has the status. *)
Definition status_in (pm : PM) (lo hi status : Z) : Prop :=
  ∃ a b, lo <= a < hi ∧ GetBits pm a = Some b ∧ Z.land b STATUS_MASK = status.

Lemma status_in_split pm lo mid hi status :
  lo <= mid <= hi →
  status_in pm lo hi status ↔ status_in pm lo mid status ∨ status_in pm mid hi status.
Proof.
  intros. split.
  - intros (a & b & ? & ? & ?). destruct (Z.lt_ge_cases a mid); [left|right];
      exists a, b; split_and!; done || lia.
  - intros [(a & b & ? & ? & ?)|(a & b & ? & ? & ?)]; exists a, b; split_and!; done || lia.
Qed.

Lemma block_has_status_spec pm bi off blockLen status :
  pm_ok pm → 0 <= bi < smNum_ pm → 0 <= off → 0 < blockLen → off + blockLen <= 65536 →
  0 <= status < 4 →
  ∃ hit, block_has_status pm bi off blockLen status = Some hit ∧
    (hit = true ↔ status_in pm (bi * 65536 + off) (bi * 65536 + off + blockLen) status).
Proof.
  intros Hok Hbi Hoff Hlen Hfit Hst. pose proof (ok_num _ Hok).
  assert (Hg : ∀ i, 0 <= i < blockLen →
    GetBits pm (bi * 65536 + off + i) =
      (slot ← vget (smList_ pm) bi;
       match slot with
       | None => vget (commonBitsList_ pm) bi
       | Some sm => vget (vabits8 sm) (off + i)
       end)).
  { intros i Hi. rewrite GetBits_eq by lia.
    replace ((bi * 65536 + off + i) / 65536) with bi by zdiv.
    by replace ((bi * 65536 + off + i) `mod` 65536) with (off + i) by zdiv. }
  unfold block_has_status.
  destruct (vget (smList_ pm) bi) as [[sm|]|] eqn:Hslot; simpl in *.
  - destruct (ok_bytes _ Hok _ _ Hslot) as [Hsz Hby].
    assert (Hin : ∀ lo hi, 0 <= lo → hi <= blockLen →
      hit_in (vabits8 sm) off status lo hi ↔
      status_in pm (bi * 65536 + off + lo) (bi * 65536 + off + hi) status).
    { intros lo hi Hlo Hhi. split.
      - intros (i & Hi & He). exists (bi * 65536 + off + i), (vdata (vabits8 sm) (off + i)).
        split_and!; [lia|lia| |done]. by rewrite Hg, vget_in by lia.
      - intros (a & b & Ha & Hga & He).
        exists (a - (bi * 65536 + off)). split; [lia|].
        replace a with (bi * 65536 + off + (a - (bi * 65536 + off))) in Hga by lia.
        rewrite Hg, vget_in in Hga by lia. by simplify_eq. }
    destruct (status_word_loop_spec (vabits8 sm) off blockLen status) with (n := Z.to_nat blockLen) (i := 0)
      as (hit & j & -> & Hj & Hh); [done|done|done|lia|lia|]. simpl. destruct hit.
    + exists true. split; [done|]. split; [|done]. intros _. apply Hin in Hh; [|lia|lia].
      by rewrite Z.add_0_r in Hh.
    + destruct (status_byte_loop_spec (vabits8 sm) off blockLen status) with (n := Z.to_nat blockLen) (i := j)
        as (hit & -> & Hh'); [lia|lia|lia|lia|].
      exists hit. split; [done|]. rewrite Hh', Hin by lia.
      rewrite (status_in_split pm (bi * 65536 + off) (bi * 65536 + off + j)) by lia.
      rewrite Hin, Z.add_0_r in Hh by lia. tauto.
  - rewrite vget_in in * by (rewrite ok_common; done). simpl. eexists. split; [done|].
    rewrite Z.eqb_eq. split.
    + intros He. exists (bi * 65536 + off + 0), (vdata (commonBitsList_ pm) bi).
      split_and!; [lia|lia|by rewrite Hg by lia|done].
    + intros (a & b & Ha & Hga & He).
      replace a with (bi * 65536 + off + (a - (bi * 65536 + off))) in Hga by lia.
      rewrite Hg in Hga by lia. by simplify_eq.
  - by rewrite vget_in in Hslot by (rewrite ok_sm; done).
Qed.

Lemma RangeHasStatus_loop_spec n : ∀ pm bi off rem status,
  pm_ok pm → 0 <= bi → 0 <= off < 65536 → 0 < rem →
  bi * 65536 + off + rem <= capacity pm → 0 <= status < 4 →
  off + rem <= Z.of_nat n * 65536 →
  ∃ hit, RangeHasStatus_loop n pm bi off rem status = Some hit ∧
    (hit = true ↔ status_in pm (bi * 65536 + off) (bi * 65536 + off + rem) status).
Proof.
  induction n as [|n IH]; intros pm bi off rem status Hok Hbi Hoff Hrem Hcap Hst Hf; [lia|].
  simpl. unfold blockSize_, ONE_SM_STAND_FOR_BYTE, capacity in *.
  set (blockLen := Z.min rem (65536 - off)).
  destruct (block_has_status_spec pm bi off blockLen status) as (hit & -> & Hh);
    [done|lia|lia|lia|lia|done|]. simpl.
  pose proof (status_in_split pm (bi * 65536 + off) (bi * 65536 + off + blockLen)
    (bi * 65536 + off + rem) status ltac:(lia)) as Hsplit.
  destruct hit; [exists true; tauto|].
  destruct (Z.eqb_spec (rem - blockLen) 0).
  - exists false. split; [done|]. rewrite Hsplit, Hh.
    split; [tauto|]. intros [?|(a & b & ? & _)]; [tauto|lia].
  - destruct (IH pm (bi + 1) 0 (rem - blockLen) status) as (hit & -> & Hh'); try done; try lia.
    exists hit. split; [done|]. rewrite Hsplit, Hh'.
    replace ((bi + 1) * 65536 + 0) with (bi * 65536 + off + blockLen) by lia.
    replace (bi * 65536 + off + blockLen + (rem - blockLen)) with (bi * 65536 + off + rem) by lia.
    split; [tauto|]. intros [Hx|?]; [by apply Hh in Hx|done].
Qed.

(** Away from the top of the 36-bit space, the scan is exact. *)
Lemma RangeHasStatus_spec pm addr size status :
  pm_ok pm → 0 <= addr → 0 <= size → addr + size <= capacity pm →
  addr + size + 65535 < 2 ^ 36 → 0 <= status < 4 →
  ∃ hit, RangeHasStatus pm addr size status = Some hit ∧
    (hit = true ↔ status_in pm addr (addr + size) status).
Proof.
  intros Hok Ha Hs Hcap Htop Hst. unfold RangeHasStatus.
  destruct (Z.eqb_spec size 0) as [->|].
  { exists false. split; [done|]. split; [done|]. intros (a & b & ? & _). lia. }
  unfold blockSize_, ONE_SM_STAND_FOR_BYTE. u64_simpl.
  rewrite !GetBlockIdx_small, GetBlockOffset_small by lia.
  destruct (RangeHasStatus_loop_spec
    (Z.to_nat ((addr + size + 65536 - 1) / 65536 - addr / 65536)) pm (addr / 65536)
    (addr `mod` 65536) size status) as (hit & -> & Hh); try done; try zdiv.
  exists hit. split; [done|]. rewrite Hh.
  by replace (addr / 65536 * 65536 + addr `mod` 65536) with addr by zdiv.
Qed.

(** In the last 64 KB of the 36-bit space the upper block index wraps to zero
    and the scan answers "absent" without reading anything. *)
Lemma RangeHasStatus_top pm addr size status :
  0 <= addr < 2 ^ 36 → 0 <= size → 2 ^ 36 <= addr + size + 65535 < 2 ^ 36 + 65536 →
  RangeHasStatus pm addr size status = Some false.
Proof.
  intros Ha Hs Htop. unfold RangeHasStatus. case_cmp; [done|].
  unfold blockSize_, ONE_SM_STAND_FOR_BYTE. u64_simpl.
  assert (GetBlockIdx (addr + size + 65536 - 1) = 0) as ->.
  { unfold GetBlockIdx, blockSize_, ONE_SM_STAND_FOR_BYTE. change LOCAL_MEM_MASK with (2 ^ 36 - 1).
    rewrite land_mask_mod by done. zdiv. }
  rewrite GetBlockIdx_small by lia. by replace (Z.to_nat (0 - addr / 65536)) with O by zdiv.
Qed.
End PM.
End PM.
