(* ===== verification/GmPm.v ===== *)
(** The three-level table of global memory: class [GmPM] of
    [csrc/address_sanitizer/pm.h], [pm.cpp].

    The 48-bit global space is cut into slices of [LOCAL_MEM_MASK] = 2^36 - 1
    bytes (not a power of two), each a [PM] created on the first write. *)
From stdpp Require Import base numbers list option.
From S2P Require Import Prelude.
From S2P Require Import ShadowWord.
From S2P Require Import Pm.

Module GmPM.
Section GmPM.
Context `{!Securec}.

(** [super] is the inherited [PM] part. *)
Record GmPM := {
  super : PM.PM;
  pmList_ : vec (option PM.PM);
  memInitVal_ : Z;
}.

Definition blockSize_ : Z := LOCAL_MEM_MASK.

Definition new_GmPM (memInitVal : Z) : GmPM :=
  {| super := PM.new_PM LOCAL_MEM_MASK memInitVal;
     pmList_ := vmake ((GLOBAL_MEM_MASK +u blockSize_ -u 1) / blockSize_) None;
     memInitVal_ := memInitVal |}.

Definition with_pmList (gm : GmPM) (l : vec (option PM.PM)) : GmPM :=
  {| super := super gm; pmList_ := l; memInitVal_ := memInitVal_ gm |}.

Definition Reset (gm : GmPM) (memInitVal : Z) : GmPM :=
  with_pmList gm
    (Vec (vsize (pmList_ gm))
         (λ i, (λ pm, PM.Reset pm memInitVal) <$> vdata (pmList_ gm) i)).

Definition GetBlockIdx (addr : Z) : Z := Z.land addr GLOBAL_MEM_MASK / blockSize_.
Definition GetBlockOffset (addr : Z) : Z := Z.land addr GLOBAL_MEM_MASK `mod` blockSize_.

(** [QueryPM]: the slice, or null when absent or past the list. *)
Definition QueryPM (gm : GmPM) (addr : Z) : option PM.PM :=
  let pmIdx := GetBlockIdx addr in
  if vsize (pmList_ gm) <=? pmIdx then None
  else vdata (pmList_ gm) pmIdx.

(** [GetPM]: as [QueryPM], creating the slice when it is absent. *)
Definition GetPM (gm : GmPM) (addr : Z) : GmPM * option PM.PM :=
  let pmIdx := GetBlockIdx addr in
  if vsize (pmList_ gm) <=? pmIdx then (gm, None)
  else
    match vdata (pmList_ gm) pmIdx with
    | None =>
        let pm := PM.new_PM (PM.byteNum_ (super gm)) (memInitVal_ gm) in
        (with_pmList gm (vset (pmList_ gm) pmIdx (Some pm)), Some pm)
    | Some pm => (gm, Some pm)
    end.

Definition GetBits (gm : GmPM) (addr : Z) : option Z :=
  match QueryPM gm addr with
  | None => vget (PM.commonBitsList_ (super gm)) (GetBlockIdx addr)
  | Some pm => PM.GetBits pm (GetBlockOffset addr)
  end.

Fixpoint Set_loop (n : nat) (gm : GmPM) (addr size bits : Z) : option GmPM :=
  match n with
  | O => Some gm
  | S n' =>
      match GetPM gm addr with
      | (gm, None) => Some gm
      | (gm, Some pm) =>
          let pmAddr := GetBlockOffset addr in
          let pmSize := Z.min (blockSize_ -u pmAddr) size in
          pm' ← PM.PM_Set pm pmAddr pmSize bits;
          let gm := with_pmList gm (vset (pmList_ gm) (GetBlockIdx addr) (Some pm')) in
          Set_loop n' gm (addr +u pmSize) (size -u pmSize) bits
      end
  end.

Definition GmPM_Set (gm : GmPM) (addr size bits : Z) : option GmPM :=
  let blockIndexL := GetBlockIdx addr in
  let blockIndexR := GetBlockIdx (addr +u size +u blockSize_ -u 1) in
  Set_loop (Z.to_nat (blockIndexR - blockIndexL)) gm addr size bits.

Definition UnifiedSizeAfter (gm : GmPM) (baseAddr size addr : Z) : option Z :=
  let basePmIdx := GetBlockIdx baseAddr in
  let pmIdx := GetBlockIdx addr in
  let nextPmAddr := (pmIdx +u 1) *u blockSize_ in
  let '(newBaseAddr, curSize) :=
    if basePmIdx <? pmIdx then
      let newBaseAddr := pmIdx *u blockSize_ in
      (newBaseAddr, Z.min blockSize_ (size -u (newBaseAddr -u baseAddr)))
    else (baseAddr, Z.min (nextPmAddr -u baseAddr) size) in
  match QueryPM gm addr with
  | None => PM.UnifiedSizeAfter (super gm) (GetBlockOffset newBaseAddr) curSize (GetBlockOffset addr)
  | Some pm => PM.UnifiedSizeAfter pm (GetBlockOffset newBaseAddr) curSize (GetBlockOffset addr)
  end.

Fixpoint RangeHasStatus_loop (n : nat) (gm : GmPM) (bi offsetInBlock remaining status : Z)
    : option bool :=
  match n with
  | O => Some false
  | S n' =>
      let blockLen := Z.min remaining (blockSize_ -u offsetInBlock) in
      hit ← match QueryPM gm (bi *u blockSize_) with
            | None =>
                if bi <? vsize (PM.commonBitsList_ (super gm)) then
                  c ← vget (PM.commonBitsList_ (super gm)) bi;
                  Some (Z.land c STATUS_MASK =? status)
                else Some false
            | Some pm => PM.RangeHasStatus pm offsetInBlock blockLen status
            end;
      if hit : bool then Some true
      else
        let remaining := remaining -u blockLen in
        if remaining =? 0 then Some false
        else RangeHasStatus_loop n' gm (bi + 1) 0 remaining status
  end.

Definition RangeHasStatus (gm : GmPM) (addr size status : Z) : option bool :=
  if size =? 0 then Some false
  else
    let blockIndexL := GetBlockIdx addr in
    let blockIndexR := GetBlockIdx (addr +u size +u blockSize_ -u 1) in
    RangeHasStatus_loop (Z.to_nat (blockIndexR - blockIndexL)) gm blockIndexL
                        (GetBlockOffset addr) size status.

(** *** Invariant *)

(** The inherited table is the untouched initial one, there are 4097 slices,
    and every slice present is a well-formed table of 2^36 bytes. *)
Record gm_ok (gm : GmPM) : Prop := {
  gok_super : super gm = PM.new_PM LOCAL_MEM_MASK (memInitVal_ gm);
  gok_init : is_u8 (memInitVal_ gm);
  gok_size : vsize (pmList_ gm) = 4097;
  gok_pm i pm : vget (pmList_ gm) i = Some (Some pm) →
    PM.pm_ok pm ∧ PM.smNum_ pm = 1048576;
}.

Lemma new_PM_full b : is_u8 b →
  PM.pm_ok (PM.new_PM LOCAL_MEM_MASK b) ∧ PM.smNum_ (PM.new_PM LOCAL_MEM_MASK b) = 1048576.
Proof. intros. split; [by apply PM.new_PM_ok|done]. Qed.

Lemma new_GmPM_ok b : is_u8 b → gm_ok (new_GmPM b).
Proof. intros. split; try done. intros i pm [? ?]%vget_Some. done. Qed.

(** *** Address arithmetic *)

Lemma gm_GetBlockIdx_small a : 0 <= a < 2 ^ 48 → GetBlockIdx a = a / 68719476735.
Proof.
  intros. unfold GetBlockIdx, blockSize_. change GLOBAL_MEM_MASK with (2 ^ 48 - 1).
  by rewrite land_mask_small.
Qed.

Lemma gm_GetBlockOffset_small a : 0 <= a < 2 ^ 48 → GetBlockOffset a = a `mod` 68719476735.
Proof.
  intros. unfold GetBlockOffset, blockSize_. change GLOBAL_MEM_MASK with (2 ^ 48 - 1).
  by rewrite land_mask_small.
Qed.

Lemma slice_bounds a :
  0 <= a < 2 ^ 48 → 0 <= a / 68719476735 < 4097 ∧ 0 <= a `mod` 68719476735 < 68719476735.
Proof. intros. zdiv. Qed.

Lemma QueryPM_eq gm a :
  gm_ok gm → 0 <= a < 2 ^ 48 → QueryPM gm a = vdata (pmList_ gm) (a / 68719476735).
Proof.
  intros Hok Ha. unfold QueryPM. rewrite gm_GetBlockIdx_small, (gok_size _ Hok) by done.
  pose proof (slice_bounds a Ha). case_cmp; [lia|done].
Qed.

Lemma slice_ok gm a pm :
  gm_ok gm → 0 <= a < 2 ^ 48 → vdata (pmList_ gm) (a / 68719476735) = Some pm →
  PM.pm_ok pm ∧ PM.smNum_ pm = 1048576.
Proof.
  intros Hok Ha He. pose proof (slice_bounds a Ha). apply (gok_pm _ Hok (a / 68719476735)).
  rewrite vget_in by (rewrite (gok_size _ Hok); lia). congruence.
Qed.

(** *** Reading *)

Lemma super_common gm i :
  gm_ok gm → 0 <= i < 4097 → vget (PM.commonBitsList_ (super gm)) i = Some (memInitVal_ gm).
Proof.
  intros Hok Hi. rewrite (gok_super _ Hok).
  change (PM.commonBitsList_ _) with (vmake 1048576 (memInitVal_ gm)). by rewrite vget_vmake by lia.
Qed.

Lemma gm_GetBits_eq gm a :
  gm_ok gm → 0 <= a < 2 ^ 48 →
  GetBits gm a =
    match vdata (pmList_ gm) (a / 68719476735) with
    | None => Some (memInitVal_ gm)
    | Some pm => PM.GetBits pm (a `mod` 68719476735)
    end.
Proof.
  intros Hok Ha. unfold GetBits. rewrite QueryPM_eq by done.
  destruct (vdata _ _); [by rewrite gm_GetBlockOffset_small|].
  rewrite gm_GetBlockIdx_small by done. apply super_common; [done|]. by apply slice_bounds.
Qed.

Lemma gm_GetBits_total gm a :
  gm_ok gm → 0 <= a < 2 ^ 48 → ∃ b, GetBits gm a = Some b ∧ is_u8 b.
Proof.
  intros Hok Ha. pose proof (slice_bounds a Ha). rewrite gm_GetBits_eq by done.
  destruct (vdata _ _) as [pm|] eqn:He; [|exists (memInitVal_ gm); split; [done|apply Hok] ].
  destruct (slice_ok gm a pm Hok Ha He) as [Hpm Hn].
  apply PM.GetBits_total; [done|]. unfold PM.capacity. lia.
Qed.

Lemma gm_Reset_ok gm b : gm_ok gm → is_u8 b → gm_ok (Reset gm b).
Proof.
  intros [] Hb. split; try done. simpl. intros i pm [Hi He]%vget_Some. simpl in *.
  destruct (vdata (pmList_ gm) i) as [q|] eqn:Hq; simplify_eq/=.
  destruct (gok_pm0 i q). { rewrite vget_in, Hq by done. done. }
  split; [by apply PM.Reset_ok|done].
Qed.

(** *** Writing *)

Lemma set_slice_ok gm i pm :
  gm_ok gm → 0 <= i < 4097 → PM.pm_ok pm → PM.smNum_ pm = 1048576 →
  gm_ok (with_pmList gm (vset (pmList_ gm) i (Some pm))).
Proof.
  intros [] Hi Hpm Hn. split; try done. simpl. intros j q.
  rewrite vget_vset by lia. case_cmp; [by intros; simplify_eq|apply gok_pm0].
Qed.

Lemma set_slice_GetBits gm i pm a :
  gm_ok gm → 0 <= i < 4097 → PM.pm_ok pm → PM.smNum_ pm = 1048576 → 0 <= a < 2 ^ 48 →
  GetBits (with_pmList gm (vset (pmList_ gm) i (Some pm))) a =
    if a / 68719476735 =? i then PM.GetBits pm (a `mod` 68719476735) else GetBits gm a.
Proof.
  intros Hok Hi Hpm Hn Ha. rewrite !gm_GetBits_eq by (try apply set_slice_ok; done).
  simpl. by case_cmp.
Qed.

(** [GetPM] on an address of the space returns a slice and leaves the meaning
    of the table as it was. *)
Lemma GetPM_spec gm a :
  gm_ok gm → 0 <= a < 2 ^ 48 →
  ∃ gm' pm, GetPM gm a = (gm', Some pm) ∧ gm_ok gm' ∧ PM.pm_ok pm ∧
    PM.smNum_ pm = 1048576 ∧ memInitVal_ gm' = memInitVal_ gm ∧
    (∀ x, 0 <= x < 2 ^ 48 → GetBits gm' x = GetBits gm x) ∧
    (∀ x, 0 <= x < 2 ^ 48 → x / 68719476735 = a / 68719476735 →
       GetBits gm x = PM.GetBits pm (x `mod` 68719476735)).
Proof.
  intros Hok Ha. pose proof (slice_bounds a Ha) as [Hi _]. unfold GetPM.
  rewrite gm_GetBlockIdx_small, (gok_size _ Hok) by done. case_cmp; [lia|].
  destruct (vdata (pmList_ gm) (a / 68719476735)) as [pm|] eqn:He.
  - destruct (slice_ok gm a pm Hok Ha He). exists gm, pm. split_and!; try done.
    intros x Hx Heq. by rewrite gm_GetBits_eq, Heq, He.
  - destruct (new_PM_full (memInitVal_ gm)) as [Hpm Hn]; [apply Hok|].
    assert (Hbn : PM.byteNum_ (super gm) = LOCAL_MEM_MASK) by (by rewrite (gok_super _ Hok)).
    rewrite Hbn.
    assert (Hsame : ∀ x, 0 <= x < 2 ^ 48 → x / 68719476735 = a / 68719476735 →
      GetBits gm x = PM.GetBits (PM.new_PM LOCAL_MEM_MASK (memInitVal_ gm)) (x `mod` 68719476735)).
    { intros x Hx Heq. rewrite gm_GetBits_eq, Heq, He by done. symmetry.
      apply PM.new_PM_GetBits; [done|]. unfold PM.capacity. rewrite Hn.
      pose proof (slice_bounds x Hx). lia. }
    eexists _, _. split_and!; [done|by apply set_slice_ok|done|done|done| |done].
    intros x Hx. rewrite set_slice_GetBits by done. case_cmp; [|done]. symmetry. by apply Hsame.
Qed.

Lemma gm_Set_loop_spec n : ∀ gm addr size bits,
  gm_ok gm → is_u8 bits → 0 <= addr < 2 ^ 48 → 0 <= size → addr + size < 2 ^ 48 →
  (size = 0 ∨ addr + size <= (addr / 68719476735 + Z.of_nat n) * 68719476735) →
  ∃ gm', Set_loop n gm addr size bits = Some gm' ∧ gm_ok gm' ∧ memInitVal_ gm' = memInitVal_ gm ∧
    ∀ a, 0 <= a < 2 ^ 48 →
      GetBits gm' a = if (addr <=? a) && (a <? addr + size) then Some bits else GetBits gm a.
Proof.
  induction n as [|n IH]; intros gm addr size bits Hok Hb Ha Hs Hend Hfuel.
  { exists gm. split_and!; [done|done|done|]. intros a _. repeat case_cmp; simpl; done || zdiv. }
  simpl. pose proof (slice_bounds addr Ha) as [Hi Ho].
  destruct (GetPM_spec gm addr Hok Ha) as (gm1 & pm & -> & Hok1 & Hpm & Hn & Hinit & Hsame & Hpmg).
  rewrite gm_GetBlockOffset_small, gm_GetBlockIdx_small by done. unfold blockSize_, LOCAL_MEM_MASK. u64_simpl.
  set (off := addr `mod` 68719476735) in *. set (i := addr / 68719476735) in *.
  set (pmSize := Z.min (68719476735 - off) size).
  assert (addr = i * 68719476735 + off) by (unfold i, off; zdiv).
  unfold PM.PM_Set.
  destruct (PM.Set_spec pm off pmSize bits) as (pm' & -> & Hpm' & Hn' & Hg'); [done|done|lia|lia|].
  simpl. u64_simpl.
  destruct (IH (with_pmList gm1 (vset (pmList_ gm1) i (Some pm'))) (addr + pmSize) (size - pmSize) bits)
    as (gm2 & -> & Hok2 & Hi2 & Hg2); try done; try lia.
  { apply set_slice_ok; done || lia. }
  { destruct (Z.lt_ge_cases (size - pmSize) 1); [left; lia|right].
    assert ((addr + pmSize) / 68719476735 = i + 1) as -> by zdiv. lia. }
  exists gm2. split_and!; [done|done|by rewrite Hi2|]. intros a Haa.
  rewrite Hg2, set_slice_GetBits by (done || lia || congruence).
  rewrite Hsame by done. unfold PM.capacity in Hg'. rewrite Hn in Hg'.
  pose proof (slice_bounds a Haa) as [_ ?].
  destruct (Z.eqb_spec (a / 68719476735) i) as [He|Hne].
  - rewrite Hg', (Hpmg a) by (done || lia).
    assert (a = i * 68719476735 + a `mod` 68719476735) by zdiv.
    repeat case_cmp; simpl; done || lia.
  - repeat case_cmp; simpl; done || zdiv.
Qed.

(** Below the last slice's end, [Set] writes exactly the requested bytes,
    across slices. *)
Lemma gm_Set_spec gm addr size bits :
  gm_ok gm → is_u8 bits → 0 <= addr → 0 <= size → addr + size + 68719476734 < 2 ^ 48 →
  ∃ gm', GmPM_Set gm addr size bits = Some gm' ∧ gm_ok gm' ∧ memInitVal_ gm' = memInitVal_ gm ∧
    ∀ a, 0 <= a < 2 ^ 48 →
      GetBits gm' a = if (addr <=? a) && (a <? addr + size) then Some bits else GetBits gm a.
Proof.
  intros Hok Hb Ha Hs Htop. unfold GmPM_Set, blockSize_, LOCAL_MEM_MASK. u64_simpl.
  rewrite !gm_GetBlockIdx_small by lia. apply gm_Set_loop_spec; try done; try lia. right. zdiv.
Qed.

(** In the last slice the upper index wraps to zero: nothing is written. *)
Lemma Set_top gm addr size bits :
  0 <= addr < 2 ^ 48 → 0 <= size → 2 ^ 48 <= addr + size + 68719476734 < 2 ^ 48 + 68719476735 →
  GmPM_Set gm addr size bits = Some gm.
Proof.
  intros Ha Hs Htop. unfold GmPM_Set, blockSize_, LOCAL_MEM_MASK. u64_simpl.
  assert (GetBlockIdx (addr + size + 68719476735 - 1) = 0) as ->.
  { unfold GetBlockIdx, blockSize_. change GLOBAL_MEM_MASK with (2 ^ 48 - 1).
    rewrite land_mask_mod by done. unfold LOCAL_MEM_MASK. zdiv. }
  rewrite gm_GetBlockIdx_small by lia. by replace (Z.to_nat (0 - addr / 68719476735)) with O by zdiv.
Qed.

(** *** Scans *)

Lemma super_ok gm : gm_ok gm → PM.pm_ok (super gm) ∧ PM.smNum_ (super gm) = 1048576.
Proof. intros Hok. rewrite (gok_super _ Hok). apply new_PM_full, Hok. Qed.

(** The table that answers for the slice of [a], present or not. *)
Lemma slice_view gm a :
  gm_ok gm → 0 <= a < 2 ^ 48 →
  ∃ pm, match QueryPM gm a with None => super gm | Some pm => pm end = pm ∧
    PM.pm_ok pm ∧ PM.smNum_ pm = 1048576 ∧
    ∀ x, 0 <= x < 2 ^ 48 → x / 68719476735 = a / 68719476735 →
      GetBits gm x = PM.GetBits pm (x `mod` 68719476735).
Proof.
  intros Hok Ha. rewrite QueryPM_eq by done. eexists. split; [done|].
  destruct (vdata _ _) as [pm|] eqn:He.
  - destruct (slice_ok gm a pm Hok Ha He). split_and!; try done.
    intros x Hx Heq. by rewrite gm_GetBits_eq, Heq, He.
  - destruct (super_ok gm Hok) as [Hs Hn]. split_and!; [done|done|].
    intros x Hx Heq. rewrite gm_GetBits_eq, Heq, He by done.
    rewrite (gok_super _ Hok). symmetry. apply PM.new_PM_GetBits; [done|].
    pose proof (slice_bounds x Hx). unfold PM.capacity.
    rewrite (proj2 (new_PM_full (memInitVal_ gm) (gok_init _ Hok))). lia.
Qed.

Lemma gm_UnifiedSizeAfter_spec gm baseAddr size addr b :
  gm_ok gm → 0 <= baseAddr <= addr → addr < baseAddr + size → baseAddr + size <= 2 ^ 48 →
  GetBits gm addr = Some b →
  ∃ n, UnifiedSizeAfter gm baseAddr size addr = Some n ∧ 1 <= n <= baseAddr + size - addr ∧
    (∀ i, 0 <= i < n → GetBits gm (addr + i) = Some b) ∧
    (n = baseAddr + size - addr ∨ GetBits gm (addr + n) ≠ Some b ∨
     ((addr + n) `mod` 68719476735) `mod` 65536 = 0).
Proof.
  intros Hok Hba Has Hend Hget. assert (Ha : 0 <= addr < 2 ^ 48) by lia.
  assert (Hb : 0 <= baseAddr < 2 ^ 48) by lia.
  unfold UnifiedSizeAfter. rewrite !gm_GetBlockIdx_small by done.
  pose proof (slice_bounds addr Ha) as [Hi Ho]. pose proof (slice_bounds baseAddr Hb) as [Hib Hob].
  set (i := addr / 68719476735) in *. set (off := addr `mod` 68719476735) in *.
  set (ib := baseAddr / 68719476735) in *.
  assert (addr = i * 68719476735 + off) by (unfold i, off; zdiv).
  assert (ib <= i) by (unfold ib, i; zdiv).
  unfold blockSize_, LOCAL_MEM_MASK. u64_simpl.
  (* Both branches cut the request to the slice of [addr]. *)
  set (cut := if ib <? i then _ else _).
  assert (Hcut : ∃ nb cs, cut = (nb, cs) ∧ 0 <= GetBlockOffset nb <= off ∧
    GetBlockOffset nb + cs = Z.min 68719476735 (baseAddr + size - i * 68719476735)).
  { unfold cut. destruct (Z.ltb_spec ib i).
    - assert (i * 68719476735 < 2 ^ 48) by lia.
      assert (baseAddr < i * 68719476735) by (unfold ib in *; zdiv). u64_simpl. eexists _, _. split; [done|].
      rewrite gm_GetBlockOffset_small by lia. split; zdiv.
    - assert (ib = i) as Hii by lia. u64_simpl. eexists _, _. split; [done|].
      rewrite gm_GetBlockOffset_small by lia. unfold ib in *. split; zdiv. }
  destruct Hcut as (nb & cs & -> & Hnb & Hcs).
  destruct (slice_view gm addr Hok Ha) as (pm & Hpm & Hpok & Hn & Hview).
  assert (Hg : PM.GetBits pm off = Some b) by (by rewrite <- Hget, (Hview addr)).
  destruct (PM.UnifiedSizeAfter_spec pm (GetBlockOffset nb) cs off b)
    as (n & Hu & Hr & Hall & Hstop); try done; try lia.
  { unfold PM.capacity. lia. }
  rewrite (gm_GetBlockOffset_small addr) by done. fold off. exists n. split_and!.
  - destruct (QueryPM gm addr); by rewrite Hpm.
  - lia.
  - lia.
  - intros k Hk. rewrite (Hview (addr + k)) by zdiv.
    replace ((addr + k) `mod` 68719476735) with (off + k) by zdiv. by apply Hall.
  - destruct (Z.eq_dec n (baseAddr + size - addr)); [by left|right].
    destruct (Z.eq_dec (off + n) 68719476735).
    { right. replace ((addr + n) `mod` 68719476735) with 0 by zdiv. done. }
    assert (off + n < 68719476735) by lia.
    replace ((addr + n) `mod` 68719476735) with (off + n) by zdiv.
    destruct Hstop as [Hl|Hne]; [right; zdiv|left].
    rewrite (Hview (addr + n)) by zdiv. by replace ((addr + n) `mod` 68719476735) with (off + n) by zdiv.
Qed.

(** Some address in [lo .. hi) has the status. *)
Definition status_in (gm : GmPM) (lo hi status : Z) : Prop :=
  ∃ a b, lo <= a < hi ∧ GetBits gm a = Some b ∧ Z.land b STATUS_MASK = status.

(** The scan is exact for a request that stays away from the last 64 KB of its
    slice and from the last slice of the space. *)
Lemma gm_RangeHasStatus_spec gm addr size status :
  gm_ok gm → 0 <= addr → 0 <= size → addr + size + 68719476734 < 2 ^ 48 →
  addr `mod` 68719476735 + size + 65535 < 2 ^ 36 → 0 <= status < 4 →
  ∃ hit, RangeHasStatus gm addr size status = Some hit ∧
    (hit = true ↔ status_in gm addr (addr + size) status).
Proof.
  intros Hok Ha Hs Htop Hslice Hst. unfold RangeHasStatus.
  destruct (Z.eqb_spec size 0) as [->|].
  { exists false. split; [done|]. split; [done|]. intros (a & b & ? & _). lia. }
  assert (Haddr : 0 <= addr < 2 ^ 48) by lia.
  pose proof (slice_bounds addr Haddr) as [Hi Ho].
  unfold blockSize_, LOCAL_MEM_MASK. u64_simpl.
  rewrite !gm_GetBlockIdx_small, gm_GetBlockOffset_small by lia.
  replace (Z.to_nat _) with 1%nat by zdiv. unfold RangeHasStatus_loop, blockSize_, LOCAL_MEM_MASK.
  set (i := addr / 68719476735) in *. set (off := addr `mod` 68719476735) in *.
  assert (addr = i * 68719476735 + off) by (unfold i, off; zdiv). u64_simpl.
  rewrite Z.min_l by lia. rewrite Z.sub_diag.
  assert (Hii : i * 68719476735 / 68719476735 = i) by (by apply Z.div_mul).
  destruct (slice_view gm (i * 68719476735) Hok) as (pm & Hpm & Hpok & Hn & Hview); [lia|].
  assert (Hin : status_in gm addr (addr + size) status ↔ PM.status_in pm off (off + size) status).
  { split.
    - intros (a & b & Hr & Hg & He). exists (a - i * 68719476735), b. split_and!; [lia|lia| |done].
      rewrite Hview in Hg by zdiv. by replace (a `mod` 68719476735) with (a - i * 68719476735) in Hg by zdiv.
    - intros (a & b & Hr & Hg & He). exists (a + i * 68719476735), b. split_and!; [lia|lia| |done].
      rewrite Hview by zdiv. by replace ((a + i * 68719476735) `mod` 68719476735) with a by zdiv. }
  destruct (QueryPM gm (i * 68719476735)) as [q|] eqn:Hq.
  - subst q. destruct (PM.RangeHasStatus_spec pm off size status) as (hit & -> & Hh); try done; try lia.
    { unfold PM.capacity. lia. }
    simpl. exists hit. split; [by destruct hit|]. by rewrite Hin.
  - subst pm. rewrite super_common by done. rewrite (gok_super _ Hok).
    change (vsize (PM.commonBitsList_ _)) with 1048576. case_cmp; [|lia]. simpl.
    exists (Z.land (memInitVal_ gm) STATUS_MASK =? status). split; [by case_cmp|].
    rewrite Z.eqb_eq, Hin. split.
    + intros He. exists off, (memInitVal_ gm). split_and!; [lia|lia| |done].
      rewrite (gok_super _ Hok). apply PM.new_PM_GetBits; [done|]. unfold PM.capacity.
      rewrite (proj2 (new_PM_full _ (gok_init _ Hok))). lia.
    + intros (a & b & Hr & Hg & He). rewrite (gok_super _ Hok), PM.new_PM_GetBits in Hg; [by simplify_eq|done|].
      unfold PM.capacity. rewrite (proj2 (new_PM_full _ (gok_init _ Hok))). lia.
Qed.
End GmPM.
End GmPM.
