(* ===== verification/ShadowMap.v ===== *)
(** The interface the shadow memory uses of its tables: the virtual methods of
    [PM] (overridden by [GmPM]) and the range view [Range1D] of
    [csrc/address_sanitizer/pm.h], [pm.cpp].

    [ShadowMap] lists the virtual methods, [ShadowMapLaws] what they promise in
    terms of the flat meaning "address to shadow byte". Both table classes
    discharge the laws here; [ShadowMemory] is proved against them only. *)
From stdpp Require Import base numbers list option.
From S2P Require Import Prelude.
From S2P Require Import ShadowWord.
From S2P Require Import Pm.
From S2P Require Import GmPm.

Class ShadowMap (M : Type) := {
  GetBits : M → Z → option Z;
  MapSet : M → Z → Z → Z → option M;
  MapUnifiedSizeAfter : M → Z → Z → Z → option Z;
  RangeHasStatus : M → Z → Z → Z → option bool;
}.

(** Byte of every address below [readable] can be read, ranges ending at or
    below [writable] can be set; [scannable] is the set of requests on which
    the fast status scan answers exactly. *)
Class ShadowMapLaws (M : Type) `{!ShadowMap M} := {
  map_ok : M → Prop;
  readable : M → Z;
  writable : M → Z;
  scannable : M → Z → Z → Prop;
  readable_bound m : map_ok m → readable m <= 2 ^ 48;
  GetBits_law m a : map_ok m → 0 <= a < readable m → ∃ b, GetBits m a = Some b ∧ is_u8 b;
  MapSet_law m addr size bits :
    map_ok m → is_u8 bits → 0 <= addr → 0 <= size → addr + size <= writable m →
    ∃ m', MapSet m addr size bits = Some m' ∧ map_ok m' ∧
      readable m' = readable m ∧ writable m' = writable m ∧
      ∀ a, 0 <= a < readable m →
        GetBits m' a = if (addr <=? a) && (a <? addr + size) then Some bits else GetBits m a;
  UnifiedSizeAfter_law m baseAddr size addr b :
    map_ok m → 0 <= baseAddr <= addr → addr < baseAddr + size → baseAddr + size <= readable m →
    GetBits m addr = Some b →
    ∃ n, MapUnifiedSizeAfter m baseAddr size addr = Some n ∧ 1 <= n <= baseAddr + size - addr ∧
      ∀ i, 0 <= i < n → GetBits m (addr + i) = Some b;
  RangeHasStatus_law m addr size status :
    map_ok m → 0 <= addr → 0 <= size → addr + size <= readable m → scannable m addr size →
    0 <= status < 4 →
    ∃ hit, RangeHasStatus m addr size status = Some hit ∧
      (hit = true ↔ ∃ a b, addr <= a < addr + size ∧ GetBits m a = Some b ∧
                           Z.land b STATUS_MASK = status);
}.

(** ** The two implementations *)

Section instances.
Context `{!Securec}.

#[export] Instance pm_map : ShadowMap PM.PM := {
  GetBits := PM.GetBits;
  MapSet := PM.PM_Set;
  MapUnifiedSizeAfter := PM.UnifiedSizeAfter;
  RangeHasStatus := PM.RangeHasStatus;
}.

#[export, refine] Instance pm_map_laws : ShadowMapLaws PM.PM := {
  map_ok := PM.pm_ok;
  readable := PM.capacity;
  writable pm := Z.min (PM.capacity pm) (2 ^ 36 - 1);
  scannable pm addr size := addr + size + 65535 < 2 ^ 36;
}.
Proof.
  - intros m Hok. pose proof (PM.capacity_le m Hok). lia.
  - apply PM.GetBits_total.
  - intros m addr size bits Hok Hb Ha Hs Hw. simpl. unfold PM.PM_Set.
    destruct (PM.Set_spec m addr size bits) as (m' & -> & Hok' & Hn & Hg); try done; try lia.
    exists m'. unfold PM.capacity in *. rewrite Hn. done.
  - intros m baseAddr size addr b Hok Hba Hs Hr Hg.
    pose proof (PM.capacity_le m Hok). simpl.
    destruct (PM.UnifiedSizeAfter_spec m baseAddr size addr b) as (n & -> & Hn & Hall & _);
      try done; try lia.
    exists n. split_and!; [done|lia|lia|done].
  - intros m addr size status Hok Ha Hs Hr Hsc Hst. by apply PM.RangeHasStatus_spec.
Defined.

#[export] Instance gm_map : ShadowMap GmPM.GmPM := {
  GetBits := GmPM.GetBits;
  MapSet := GmPM.GmPM_Set;
  MapUnifiedSizeAfter := GmPM.UnifiedSizeAfter;
  RangeHasStatus := GmPM.RangeHasStatus;
}.

#[export, refine] Instance gm_map_laws : ShadowMapLaws GmPM.GmPM := {
  map_ok := GmPM.gm_ok;
  readable _ := 2 ^ 48;
  writable _ := 2 ^ 48 - 68719476735;
  scannable _ addr size :=
    addr + size + 68719476734 < 2 ^ 48 ∧ addr `mod` 68719476735 + size + 65535 < 2 ^ 36;
}.
Proof.
  - done.
  - apply GmPM.gm_GetBits_total.
  - intros m addr size bits Hok Hb Ha Hs Hw. simpl.
    destruct (GmPM.gm_Set_spec m addr size bits) as (m' & -> & Hok' & _ & Hg); try done; try lia.
    exists m'. done.
  - intros m baseAddr size addr b Hok Hba Hs Hr Hg. simpl.
    destruct (GmPM.gm_UnifiedSizeAfter_spec m baseAddr size addr b) as (n & -> & Hn & Hall & _);
      try done; try lia. exists n. done.
  - intros m addr size status Hok Ha Hs Hr [Ht Hsl] Hst. by apply GmPM.gm_RangeHasStatus_spec.
Defined.
End instances.

(** ** [Range1D] and the loops over it *)

Module Range1D.
Section range.
Context {M : Type} `{!ShadowMap M}.

(** The [pm_] reference is the table [M] threaded through the operations; an
    iterator is its address. *)
Record Range1D := { addr_ : Z; size_ : Z }.

Definition Begin (r : Range1D) : Z := addr_ r.
Definition End' (r : Range1D) : Z := addr_ r +u size_ r.
Definition At (r : Range1D) (addr : Z) : Z :=
  if (addr <? addr_ r) || (addr_ r +u size_ r <? addr) then End' r else addr.
Definition Range_Set (m : M) (r : Range1D) (bits : Z) : option M :=
  MapSet m (addr_ r) (size_ r) bits.
Definition Size (r : Range1D) : Z := size_ r.
Definition UnifiedSizeAfter (m : M) (r : Range1D) (it : Z) : option Z :=
  MapUnifiedSizeAfter m (addr_ r) (size_ r) it.
Definition UnifiedRangeAfter (m : M) (r : Range1D) (it : Z) : option Range1D :=
  n ← UnifiedSizeAfter m r it; Some {| addr_ := it; size_ := n |}.

(** The loop header shared by the shadow-memory scans:
    [for (it = range.Begin(); it < range.End(); it += unifiedSize)], whose body
    takes the run after [it] and its byte. *)
Fixpoint for_unified {A} (n : nat) (body : M → Range1D → Z → A → option (M * A))
    (m : M) (range : Range1D) (it : Z) (acc : A) : option (M * A) :=
  match n with
  | O => None (* out of fuel *)
  | S n' =>
      if it <? End' range then
        unifiedRange ← UnifiedRangeAfter m range it;
        bits ← GetBits m it;
        '(m, acc) ← body m unifiedRange bits acc;
        for_unified n' body m range (it +u Size unifiedRange) acc
      else Some (m, acc)
  end.

Definition run_unified {A} (body : M → Range1D → Z → A → option (M * A))
    (m : M) (range : Range1D) (acc : A) : option (M * A) :=
  for_unified (S (Z.to_nat (size_ range))) body m range (Begin range) acc.
End range.
End Range1D.
Import Range1D.

(** A preorder every iteration respects relates the table before the loop to
    the one after it. *)
Lemma run_unified_preserves {M : Type} `{!ShadowMap M} {A}
    (R : M → M → Prop) `{!PreOrder R} (body : M → Range1D → Z → A → option (M * A)) m range acc m' acc' :
  (∀ m r b acc m' acc', body m r b acc = Some (m', acc') → R m m') →
  run_unified body m range acc = Some (m', acc') → R m m'.
Proof.
  intros Hstep. unfold run_unified. generalize (Begin range).
  revert m acc. induction (S (Z.to_nat (size_ range))) as [|n IH]; intros m acc it; simpl; [done|].
  case_match; [|by intros; simplify_eq].
  destruct (UnifiedRangeAfter m range it) as [ur|]; simpl; [|done].
  destruct (GetBits m it) as [bits|]; simpl; [|done].
  destruct (body m ur bits acc) as [[m1 acc1]|] eqn:E; simpl; [|done].
  intros Hrest. etrans; [by eapply Hstep|by eapply IH].
Qed.

(** ** The run-length loops are bytewise loops *)

Section loop_rule.
Context {M : Type} `{!ShadowMap M} `{!ShadowMapLaws M}.

(** The byte of an address, 0 outside the table. *)
Definition byte_of (m : M) (a : Z) : Z := default 0 (GetBits m a).

(** A body that treats the bytes of a run uniformly: every byte [b] becomes
    [f b] and the counter grows by [w b] per byte. *)
Definition uniform_body (f w : Z → Z) (body : M → Range1D → Z → Z → option (M * Z)) : Prop :=
  ∀ m r bits acc,
    map_ok m → 0 <= addr_ r → 1 <= size_ r → addr_ r + size_ r <= Z.min (readable m) (writable m) →
    is_u8 bits → 0 <= acc → acc + size_ r < 2 ^ 64 →
    (∀ a, addr_ r <= a < addr_ r + size_ r → GetBits m a = Some bits) →
    ∃ m', body m r bits acc = Some (m', acc + w bits * size_ r) ∧ map_ok m' ∧
      readable m' = readable m ∧ writable m' = writable m ∧
      ∀ a, 0 <= a < readable m →
        GetBits m' a =
          if (addr_ r <=? a) && (a <? addr_ r + size_ r) then Some (f bits) else GetBits m a.

Context (f w : Z → Z) (body : M → Range1D → Z → Z → option (M * Z)).
Hypotheses (Hbody : uniform_body f w body) (Hw : ∀ b, 0 <= w b <= 1).

Lemma for_unified_spec n : ∀ m range it acc,
  map_ok m → 0 <= addr_ range <= it → it <= addr_ range + size_ range →
  addr_ range + size_ range <= Z.min (readable m) (writable m) →
  0 <= acc → acc + (addr_ range + size_ range - it) < 2 ^ 63 →
  addr_ range + size_ range - it < Z.of_nat n →
  ∃ m', for_unified n body m range it acc =
      Some (m', acc + sum_range (λ a, w (byte_of m a)) it (Z.to_nat (addr_ range + size_ range - it))) ∧
    map_ok m' ∧ readable m' = readable m ∧ writable m' = writable m ∧
    ∀ a, 0 <= a < readable m →
      GetBits m' a =
        if (it <=? a) && (a <? addr_ range + size_ range) then f <$> GetBits m a else GetBits m a.
Proof.
  induction n as [|n IH]; intros m range it acc Hok Hit Hend Hcap Hacc Hov Hfuel; [lia|].
  pose proof (readable_bound m Hok). simpl. unfold End'. u64_simpl.
  destruct (Z.ltb_spec it (addr_ range + size_ range)) as [Hlt|Hge]; last first.
  { exists m. replace (Z.to_nat _) with O by lia. simpl. rewrite Z.add_0_r.
    split_and!; [done..|]. intros a _. by repeat case_cmp; simpl; try lia. }
  unfold UnifiedRangeAfter, UnifiedSizeAfter.
  destruct (GetBits_law m it Hok ltac:(lia)) as (bits & Hg & Hbits).
  destruct (UnifiedSizeAfter_law m (addr_ range) (size_ range) it bits) as (k & -> & Hk & Hall);
    try done; try lia.
  simpl. rewrite Hg. simpl.
  assert (Hrun : ∀ a, it <= a < it + k → GetBits m a = Some bits).
  { intros a Ha. rewrite <- (Hall (a - it)) by lia. f_equal. lia. }
  destruct (Hbody m {| addr_ := it; size_ := k |} bits acc)
    as (m1 & -> & Hok1 & Hr1 & Hw1 & Hg1); simpl; try done; try lia.
  u64_simpl. pose proof (Hw bits). assert (0 <= w bits * k <= k) by nia.
  destruct (IH m1 range (it + k) (acc + w bits * k)) as (m2 & -> & Hok2 & Hr2 & Hw2 & Hg2);
    try done; try lia.
  exists m2. simpl in *. split_and!; [|done|congruence|congruence|].
  - f_equal. f_equal.
    replace (Z.to_nat (addr_ range + size_ range - it))
      with (Z.to_nat k + Z.to_nat (addr_ range + size_ range - (it + k)))%nat by lia.
    rewrite sum_range_app, Z2Nat.id by lia.
    rewrite (sum_range_const _ it (Z.to_nat k) (w bits)).
    + rewrite Z2Nat.id, <- Z.add_assoc by lia. do 2 f_equal.
      apply sum_range_ext. intros a Ha. unfold byte_of. rewrite Hg1 by lia.
      by repeat case_cmp; simpl; try lia.
    + intros a Ha. unfold byte_of. by rewrite Hrun by lia.
  - intros a Ha. rewrite Hg2, Hg1 by lia.
    repeat case_cmp; simpl; try done; try lia. by rewrite Hrun by lia.
Qed.

Lemma run_unified_spec m range :
  map_ok m → 0 <= addr_ range → 0 <= size_ range →
  addr_ range + size_ range <= Z.min (readable m) (writable m) →
  ∃ m', run_unified body m range 0 =
      Some (m', sum_range (λ a, w (byte_of m a)) (addr_ range) (Z.to_nat (size_ range))) ∧
    map_ok m' ∧ readable m' = readable m ∧ writable m' = writable m ∧
    ∀ a, 0 <= a < readable m →
      GetBits m' a =
        if (addr_ range <=? a) && (a <? addr_ range + size_ range)
        then f <$> GetBits m a else GetBits m a.
Proof.
  intros Hok Ha Hs Hcap. pose proof (readable_bound m Hok). unfold run_unified, Begin.
  destruct (for_unified_spec (S (Z.to_nat (size_ range))) m range (addr_ range) 0)
    as (m' & -> & ? & ? & ? & ?); try done; try lia.
  exists m'. rewrite Z.add_0_l. by replace (addr_ range + size_ range - addr_ range) with (size_ range) by lia.
Qed.
End loop_rule.
