(* ===== verification/RecordDefs.v ===== *)
(** Data definitions shared by the components: the enumerations and records of
    [csrc/include/sanitizer_report.h], [csrc/core/framework/record_defs.h],
    [arch_def.h], [platform_config.h], [config.h] and
    [csrc/address_sanitizer/mem_error_def.h] that the checkers consume.

    [RecordType] and [InstrName], enumerations with several hundred members, are
    kept as their numeric codes. *)
From stdpp Require Import base numbers list option strings.
From S2P Require Import Prelude.

(** ** Enumerations *)

Inductive AddressSpace :=
  | PRIVATE | GM | L1 | L0A | L0B | L0C | UB | BT | FB | UNKNOWN.

Inductive MemOpType :=
  | MALLOC | FREE | MEMCPY_BLOCKS | LOAD | STORE | GM_ADDR_OUT_OF_BOUND | INVALID_OP.

Inductive AccessType := READ | WRITE | ACCESS_MEMCPY_BLOCKS.

Inductive BlockType := AIVEC | AICUBE | AICORE.

Inductive MemOpSide := HOST | KERNEL.

Inductive MemInfoSrc := BYPASS | HAL | RT | ACL | EXTRA | MANUAL | MSTX_HEAP | MSTX_REGION.

Inductive MemErrorType :=
  | OUT_OF_BOUNDS | ILLEGAL_ADDR_WRITE | ILLEGAL_ADDR_READ | MISALIGNED_ACCESS | MEM_LEAK
  | ILLEGAL_FREE | MEM_UNUSED | UNINITIALIZED_READ | INTERNAL_ERROR | ERR_GM_ADDR_OUT_OF_BOUND
  | NON_DEFAULT_REG | INVALID_ERROR.

#[export] Instance AddressSpace_eq : EqDecision AddressSpace. Proof. solve_decision. Defined.
#[export] Instance MemOpType_eq : EqDecision MemOpType. Proof. solve_decision. Defined.
#[export] Instance AccessType_eq : EqDecision AccessType. Proof. solve_decision. Defined.
#[export] Instance BlockType_eq : EqDecision BlockType. Proof. solve_decision. Defined.
#[export] Instance MemOpSide_eq : EqDecision MemOpSide. Proof. solve_decision. Defined.
#[export] Instance MemInfoSrc_eq : EqDecision MemInfoSrc. Proof. solve_decision. Defined.
#[export] Instance MemErrorType_eq : EqDecision MemErrorType. Proof. solve_decision. Defined.

(** The numeric value of an address space. *)
Definition AddressSpace_code (s : AddressSpace) : Z :=
  match s with
  | PRIVATE => 0 | GM => 1 | L1 => 2 | L0A => 3 | L0B => 4 | L0C => 5
  | UB => 6 | BT => 7 | FB => 8 | UNKNOWN => -1
  end.

Definition INVALID_RECORD_TYPE : Z := 0xFFFFFFFF.

(** ** Error messages *)

Record VectorMask := { mask0 : Z; mask1 : Z }.
Record SimtThreadLocation := { idX : Z; idY : Z; idZ : Z; mainScalarPc_ : Z }.
#[export] Instance VectorMask_eq : EqDecision VectorMask. Proof. solve_decision. Defined.
#[export] Instance SimtThreadLocation_eq : EqDecision SimtThreadLocation.
Proof. solve_decision. Defined.

Definition no_thread : SimtThreadLocation :=
  {| idX := 0; idY := 0; idZ := 0; mainScalarPc_ := 0 |}.

(** [ErrorMsg::AuxData], with a setter per field the code assigns. *)
Module Aux.
Record AuxData := mkAuxData {
  badAddr : Z;
  nBadBytes : Z;
  baseAddr : Z;
  baseSize : Z;
  space : AddressSpace;
  moduleId : Z;
  fileName : string;
  lineNo : Z;
  coreId : Z;
  blockType : BlockType;
  pc : Z;
  serialNo : Z;
  vectorMask : VectorMask;
  maskMode : Z;
  side : MemOpSide;
  threadLoc : SimtThreadLocation;
  conflictedThreadLoc : SimtThreadLocation;
  instrName : Z;
  recordType : Z;
  isSimt : bool;
  displayThread : bool;
}.
Definition set_badAddr (v : Z) (x : AuxData) : AuxData :=
  mkAuxData v (nBadBytes x) (baseAddr x) (baseSize x) (space x) (moduleId x) (fileName x) (lineNo
    x) (coreId x) (blockType x) (pc x) (serialNo x) (vectorMask x) (maskMode x) (side x)
    (threadLoc x) (conflictedThreadLoc x) (instrName x) (recordType x) (isSimt x) (displayThread
    x).
Definition set_nBadBytes (v : Z) (x : AuxData) : AuxData :=
  mkAuxData (badAddr x) v (baseAddr x) (baseSize x) (space x) (moduleId x) (fileName x) (lineNo x)
    (coreId x) (blockType x) (pc x) (serialNo x) (vectorMask x) (maskMode x) (side x) (threadLoc
    x) (conflictedThreadLoc x) (instrName x) (recordType x) (isSimt x) (displayThread x).
Definition set_baseAddr (v : Z) (x : AuxData) : AuxData :=
  mkAuxData (badAddr x) (nBadBytes x) v (baseSize x) (space x) (moduleId x) (fileName x) (lineNo
    x) (coreId x) (blockType x) (pc x) (serialNo x) (vectorMask x) (maskMode x) (side x)
    (threadLoc x) (conflictedThreadLoc x) (instrName x) (recordType x) (isSimt x) (displayThread
    x).
Definition set_baseSize (v : Z) (x : AuxData) : AuxData :=
  mkAuxData (badAddr x) (nBadBytes x) (baseAddr x) v (space x) (moduleId x) (fileName x) (lineNo
    x) (coreId x) (blockType x) (pc x) (serialNo x) (vectorMask x) (maskMode x) (side x)
    (threadLoc x) (conflictedThreadLoc x) (instrName x) (recordType x) (isSimt x) (displayThread
    x).
Definition set_space (v : AddressSpace) (x : AuxData) : AuxData :=
  mkAuxData (badAddr x) (nBadBytes x) (baseAddr x) (baseSize x) v (moduleId x) (fileName x)
    (lineNo x) (coreId x) (blockType x) (pc x) (serialNo x) (vectorMask x) (maskMode x) (side x)
    (threadLoc x) (conflictedThreadLoc x) (instrName x) (recordType x) (isSimt x) (displayThread
    x).
Definition set_moduleId (v : Z) (x : AuxData) : AuxData :=
  mkAuxData (badAddr x) (nBadBytes x) (baseAddr x) (baseSize x) (space x) v (fileName x) (lineNo
    x) (coreId x) (blockType x) (pc x) (serialNo x) (vectorMask x) (maskMode x) (side x)
    (threadLoc x) (conflictedThreadLoc x) (instrName x) (recordType x) (isSimt x) (displayThread
    x).
Definition set_fileName (v : string) (x : AuxData) : AuxData :=
  mkAuxData (badAddr x) (nBadBytes x) (baseAddr x) (baseSize x) (space x) (moduleId x) v (lineNo
    x) (coreId x) (blockType x) (pc x) (serialNo x) (vectorMask x) (maskMode x) (side x)
    (threadLoc x) (conflictedThreadLoc x) (instrName x) (recordType x) (isSimt x) (displayThread
    x).
Definition set_lineNo (v : Z) (x : AuxData) : AuxData :=
  mkAuxData (badAddr x) (nBadBytes x) (baseAddr x) (baseSize x) (space x) (moduleId x) (fileName
    x) v (coreId x) (blockType x) (pc x) (serialNo x) (vectorMask x) (maskMode x) (side x)
    (threadLoc x) (conflictedThreadLoc x) (instrName x) (recordType x) (isSimt x) (displayThread
    x).
Definition set_coreId (v : Z) (x : AuxData) : AuxData :=
  mkAuxData (badAddr x) (nBadBytes x) (baseAddr x) (baseSize x) (space x) (moduleId x) (fileName
    x) (lineNo x) v (blockType x) (pc x) (serialNo x) (vectorMask x) (maskMode x) (side x)
    (threadLoc x) (conflictedThreadLoc x) (instrName x) (recordType x) (isSimt x) (displayThread
    x).
Definition set_blockType (v : BlockType) (x : AuxData) : AuxData :=
  mkAuxData (badAddr x) (nBadBytes x) (baseAddr x) (baseSize x) (space x) (moduleId x) (fileName
    x) (lineNo x) (coreId x) v (pc x) (serialNo x) (vectorMask x) (maskMode x) (side x) (threadLoc
    x) (conflictedThreadLoc x) (instrName x) (recordType x) (isSimt x) (displayThread x).
Definition set_pc (v : Z) (x : AuxData) : AuxData :=
  mkAuxData (badAddr x) (nBadBytes x) (baseAddr x) (baseSize x) (space x) (moduleId x) (fileName
    x) (lineNo x) (coreId x) (blockType x) v (serialNo x) (vectorMask x) (maskMode x) (side x)
    (threadLoc x) (conflictedThreadLoc x) (instrName x) (recordType x) (isSimt x) (displayThread
    x).
Definition set_serialNo (v : Z) (x : AuxData) : AuxData :=
  mkAuxData (badAddr x) (nBadBytes x) (baseAddr x) (baseSize x) (space x) (moduleId x) (fileName
    x) (lineNo x) (coreId x) (blockType x) (pc x) v (vectorMask x) (maskMode x) (side x)
    (threadLoc x) (conflictedThreadLoc x) (instrName x) (recordType x) (isSimt x) (displayThread
    x).
Definition set_vectorMask (v : VectorMask) (x : AuxData) : AuxData :=
  mkAuxData (badAddr x) (nBadBytes x) (baseAddr x) (baseSize x) (space x) (moduleId x) (fileName
    x) (lineNo x) (coreId x) (blockType x) (pc x) (serialNo x) v (maskMode x) (side x) (threadLoc
    x) (conflictedThreadLoc x) (instrName x) (recordType x) (isSimt x) (displayThread x).
Definition set_maskMode (v : Z) (x : AuxData) : AuxData :=
  mkAuxData (badAddr x) (nBadBytes x) (baseAddr x) (baseSize x) (space x) (moduleId x) (fileName
    x) (lineNo x) (coreId x) (blockType x) (pc x) (serialNo x) (vectorMask x) v (side x)
    (threadLoc x) (conflictedThreadLoc x) (instrName x) (recordType x) (isSimt x) (displayThread
    x).
Definition set_side (v : MemOpSide) (x : AuxData) : AuxData :=
  mkAuxData (badAddr x) (nBadBytes x) (baseAddr x) (baseSize x) (space x) (moduleId x) (fileName
    x) (lineNo x) (coreId x) (blockType x) (pc x) (serialNo x) (vectorMask x) (maskMode x) v
    (threadLoc x) (conflictedThreadLoc x) (instrName x) (recordType x) (isSimt x) (displayThread
    x).
Definition set_threadLoc (v : SimtThreadLocation) (x : AuxData) : AuxData :=
  mkAuxData (badAddr x) (nBadBytes x) (baseAddr x) (baseSize x) (space x) (moduleId x) (fileName
    x) (lineNo x) (coreId x) (blockType x) (pc x) (serialNo x) (vectorMask x) (maskMode x) (side
    x) v (conflictedThreadLoc x) (instrName x) (recordType x) (isSimt x) (displayThread x).
Definition set_conflictedThreadLoc (v : SimtThreadLocation) (x : AuxData) : AuxData :=
  mkAuxData (badAddr x) (nBadBytes x) (baseAddr x) (baseSize x) (space x) (moduleId x) (fileName
    x) (lineNo x) (coreId x) (blockType x) (pc x) (serialNo x) (vectorMask x) (maskMode x) (side
    x) (threadLoc x) v (instrName x) (recordType x) (isSimt x) (displayThread x).
Definition set_instrName (v : Z) (x : AuxData) : AuxData :=
  mkAuxData (badAddr x) (nBadBytes x) (baseAddr x) (baseSize x) (space x) (moduleId x) (fileName
    x) (lineNo x) (coreId x) (blockType x) (pc x) (serialNo x) (vectorMask x) (maskMode x) (side
    x) (threadLoc x) (conflictedThreadLoc x) v (recordType x) (isSimt x) (displayThread x).
Definition set_recordType (v : Z) (x : AuxData) : AuxData :=
  mkAuxData (badAddr x) (nBadBytes x) (baseAddr x) (baseSize x) (space x) (moduleId x) (fileName
    x) (lineNo x) (coreId x) (blockType x) (pc x) (serialNo x) (vectorMask x) (maskMode x) (side
    x) (threadLoc x) (conflictedThreadLoc x) (instrName x) v (isSimt x) (displayThread x).
Definition set_isSimt (v : bool) (x : AuxData) : AuxData :=
  mkAuxData (badAddr x) (nBadBytes x) (baseAddr x) (baseSize x) (space x) (moduleId x) (fileName
    x) (lineNo x) (coreId x) (blockType x) (pc x) (serialNo x) (vectorMask x) (maskMode x) (side
    x) (threadLoc x) (conflictedThreadLoc x) (instrName x) (recordType x) v (displayThread x).
Definition set_displayThread (v : bool) (x : AuxData) : AuxData :=
  mkAuxData (badAddr x) (nBadBytes x) (baseAddr x) (baseSize x) (space x) (moduleId x) (fileName
    x) (lineNo x) (coreId x) (blockType x) (pc x) (serialNo x) (vectorMask x) (maskMode x) (side
    x) (threadLoc x) (conflictedThreadLoc x) (instrName x) (recordType x) (isSimt x) v.

Definition default : AuxData :=
  {| badAddr := 0; nBadBytes := 0; baseAddr := 0; baseSize := 0; space := UNKNOWN; moduleId := -1;
     fileName := ""; lineNo := 0; coreId := 0; blockType := AICUBE; pc := 0; serialNo := 0;
     vectorMask := {| mask0 := 0; mask1 := 0 |}; maskMode := 0; side := HOST;
     threadLoc := no_thread; conflictedThreadLoc := no_thread; instrName := 0;
     recordType := INVALID_RECORD_TYPE; isSimt := false; displayThread := false |}.
End Aux.

Module Err.
Record ErrorMsg := mkErrorMsg { type : MemErrorType; isError : bool; auxData : Aux.AuxData }.

(** [ErrorMsg()] *)
Definition no_error : ErrorMsg := mkErrorMsg INVALID_ERROR false Aux.default.

Definition upd_aux (f : Aux.AuxData → Aux.AuxData) (m : ErrorMsg) : ErrorMsg :=
  mkErrorMsg (type m) (isError m) (f (auxData m)).

Definition set_isError (b : bool) (m : ErrorMsg) : ErrorMsg := mkErrorMsg (type m) b (auxData m).

Definition SetType (t : MemErrorType) (space : AddressSpace) (addr : Z) (m : ErrorMsg) : ErrorMsg :=
  mkErrorMsg t true (Aux.set_moduleId (-1) (Aux.set_badAddr addr (Aux.set_space space (auxData m)))).

Definition SetLocInfo (fileName : string) (lineNo pc coreId : Z) (blockType : BlockType)
    (m : ErrorMsg) : ErrorMsg :=
  upd_aux (Aux.set_blockType blockType ∘ Aux.set_coreId coreId ∘ Aux.set_pc pc ∘
           Aux.set_lineNo lineNo ∘ Aux.set_fileName fileName) m.

(** [ErrorMsg::operator==]: two non-errors are equal; errors are compared on
    the fields that identify a report. *)
Definition eqb (a b : ErrorMsg) : bool :=
  if negb (isError a) || negb (isError b) then Bool.eqb (isError a) (isError b)
  else
    let x := auxData a in let y := auxData b in
    Bool.eqb (isError a) (isError b) && bool_decide (type a = type b) &&
    (Aux.badAddr x =? Aux.badAddr y) && (Aux.nBadBytes x =? Aux.nBadBytes y) &&
    bool_decide (Aux.space x = Aux.space y) && (Aux.moduleId x =? Aux.moduleId y) &&
    bool_decide (Aux.fileName x = Aux.fileName y) && (Aux.lineNo x =? Aux.lineNo y) &&
    (Aux.pc x =? Aux.pc y) && Bool.eqb (Aux.isSimt x) (Aux.isSimt y) &&
    Bool.eqb (Aux.displayThread x) (Aux.displayThread y) &&
    bool_decide (Aux.threadLoc x = Aux.threadLoc y).
End Err.

Abbreviation ErrorMsg := Err.ErrorMsg.
Abbreviation ErrorMsgList := (list Err.ErrorMsg).

(** ** Memory operation records *)

Record GMAddrOutOfBoundRecord := { userAddr : Z; userSize : Z; outAddr : Z; outSize : Z }.

Module Mor.
Record MemOpRecord := mkMemOpRecord {
  serialNo : Z;
  type : MemOpType;
  coreId : Z;
  moduleId : Z;
  srcAddr : Z;
  dstAddr : Z;
  srcSpace : AddressSpace;
  dstSpace : AddressSpace;
  memSize : Z;
  lineNo : Z;
  fileName : string;
  blockType : BlockType;
  pc : Z;
  infoSrc : MemInfoSrc;
  infoDesc : Z;
  side : MemOpSide;
  paramsNo : Z;
  rootAddr : Z;
  mainScalarPc : Z;
  ignoreIllegalCheck : bool;
  isSimt : bool;
  recordType : Z;
  gmAddrOutOfBoundsRecord : GMAddrOutOfBoundRecord;
}.
Definition set_serialNo (v : Z) (x : MemOpRecord) : MemOpRecord :=
  mkMemOpRecord v (type x) (coreId x) (moduleId x) (srcAddr x) (dstAddr x) (srcSpace x) (dstSpace
    x) (memSize x) (lineNo x) (fileName x) (blockType x) (pc x) (infoSrc x) (infoDesc x) (side x)
    (paramsNo x) (rootAddr x) (mainScalarPc x) (ignoreIllegalCheck x) (isSimt x) (recordType x)
    (gmAddrOutOfBoundsRecord x).
Definition set_type (v : MemOpType) (x : MemOpRecord) : MemOpRecord :=
  mkMemOpRecord (serialNo x) v (coreId x) (moduleId x) (srcAddr x) (dstAddr x) (srcSpace x)
    (dstSpace x) (memSize x) (lineNo x) (fileName x) (blockType x) (pc x) (infoSrc x) (infoDesc x)
    (side x) (paramsNo x) (rootAddr x) (mainScalarPc x) (ignoreIllegalCheck x) (isSimt x)
    (recordType x) (gmAddrOutOfBoundsRecord x).
Definition set_coreId (v : Z) (x : MemOpRecord) : MemOpRecord :=
  mkMemOpRecord (serialNo x) (type x) v (moduleId x) (srcAddr x) (dstAddr x) (srcSpace x)
    (dstSpace x) (memSize x) (lineNo x) (fileName x) (blockType x) (pc x) (infoSrc x) (infoDesc x)
    (side x) (paramsNo x) (rootAddr x) (mainScalarPc x) (ignoreIllegalCheck x) (isSimt x)
    (recordType x) (gmAddrOutOfBoundsRecord x).
Definition set_moduleId (v : Z) (x : MemOpRecord) : MemOpRecord :=
  mkMemOpRecord (serialNo x) (type x) (coreId x) v (srcAddr x) (dstAddr x) (srcSpace x) (dstSpace
    x) (memSize x) (lineNo x) (fileName x) (blockType x) (pc x) (infoSrc x) (infoDesc x) (side x)
    (paramsNo x) (rootAddr x) (mainScalarPc x) (ignoreIllegalCheck x) (isSimt x) (recordType x)
    (gmAddrOutOfBoundsRecord x).
Definition set_srcAddr (v : Z) (x : MemOpRecord) : MemOpRecord :=
  mkMemOpRecord (serialNo x) (type x) (coreId x) (moduleId x) v (dstAddr x) (srcSpace x) (dstSpace
    x) (memSize x) (lineNo x) (fileName x) (blockType x) (pc x) (infoSrc x) (infoDesc x) (side x)
    (paramsNo x) (rootAddr x) (mainScalarPc x) (ignoreIllegalCheck x) (isSimt x) (recordType x)
    (gmAddrOutOfBoundsRecord x).
Definition set_dstAddr (v : Z) (x : MemOpRecord) : MemOpRecord :=
  mkMemOpRecord (serialNo x) (type x) (coreId x) (moduleId x) (srcAddr x) v (srcSpace x) (dstSpace
    x) (memSize x) (lineNo x) (fileName x) (blockType x) (pc x) (infoSrc x) (infoDesc x) (side x)
    (paramsNo x) (rootAddr x) (mainScalarPc x) (ignoreIllegalCheck x) (isSimt x) (recordType x)
    (gmAddrOutOfBoundsRecord x).
Definition set_srcSpace (v : AddressSpace) (x : MemOpRecord) : MemOpRecord :=
  mkMemOpRecord (serialNo x) (type x) (coreId x) (moduleId x) (srcAddr x) (dstAddr x) v (dstSpace
    x) (memSize x) (lineNo x) (fileName x) (blockType x) (pc x) (infoSrc x) (infoDesc x) (side x)
    (paramsNo x) (rootAddr x) (mainScalarPc x) (ignoreIllegalCheck x) (isSimt x) (recordType x)
    (gmAddrOutOfBoundsRecord x).
Definition set_dstSpace (v : AddressSpace) (x : MemOpRecord) : MemOpRecord :=
  mkMemOpRecord (serialNo x) (type x) (coreId x) (moduleId x) (srcAddr x) (dstAddr x) (srcSpace x)
    v (memSize x) (lineNo x) (fileName x) (blockType x) (pc x) (infoSrc x) (infoDesc x) (side x)
    (paramsNo x) (rootAddr x) (mainScalarPc x) (ignoreIllegalCheck x) (isSimt x) (recordType x)
    (gmAddrOutOfBoundsRecord x).
Definition set_memSize (v : Z) (x : MemOpRecord) : MemOpRecord :=
  mkMemOpRecord (serialNo x) (type x) (coreId x) (moduleId x) (srcAddr x) (dstAddr x) (srcSpace x)
    (dstSpace x) v (lineNo x) (fileName x) (blockType x) (pc x) (infoSrc x) (infoDesc x) (side x)
    (paramsNo x) (rootAddr x) (mainScalarPc x) (ignoreIllegalCheck x) (isSimt x) (recordType x)
    (gmAddrOutOfBoundsRecord x).
Definition set_lineNo (v : Z) (x : MemOpRecord) : MemOpRecord :=
  mkMemOpRecord (serialNo x) (type x) (coreId x) (moduleId x) (srcAddr x) (dstAddr x) (srcSpace x)
    (dstSpace x) (memSize x) v (fileName x) (blockType x) (pc x) (infoSrc x) (infoDesc x) (side x)
    (paramsNo x) (rootAddr x) (mainScalarPc x) (ignoreIllegalCheck x) (isSimt x) (recordType x)
    (gmAddrOutOfBoundsRecord x).
Definition set_fileName (v : string) (x : MemOpRecord) : MemOpRecord :=
  mkMemOpRecord (serialNo x) (type x) (coreId x) (moduleId x) (srcAddr x) (dstAddr x) (srcSpace x)
    (dstSpace x) (memSize x) (lineNo x) v (blockType x) (pc x) (infoSrc x) (infoDesc x) (side x)
    (paramsNo x) (rootAddr x) (mainScalarPc x) (ignoreIllegalCheck x) (isSimt x) (recordType x)
    (gmAddrOutOfBoundsRecord x).
Definition set_blockType (v : BlockType) (x : MemOpRecord) : MemOpRecord :=
  mkMemOpRecord (serialNo x) (type x) (coreId x) (moduleId x) (srcAddr x) (dstAddr x) (srcSpace x)
    (dstSpace x) (memSize x) (lineNo x) (fileName x) v (pc x) (infoSrc x) (infoDesc x) (side x)
    (paramsNo x) (rootAddr x) (mainScalarPc x) (ignoreIllegalCheck x) (isSimt x) (recordType x)
    (gmAddrOutOfBoundsRecord x).
Definition set_pc (v : Z) (x : MemOpRecord) : MemOpRecord :=
  mkMemOpRecord (serialNo x) (type x) (coreId x) (moduleId x) (srcAddr x) (dstAddr x) (srcSpace x)
    (dstSpace x) (memSize x) (lineNo x) (fileName x) (blockType x) v (infoSrc x) (infoDesc x)
    (side x) (paramsNo x) (rootAddr x) (mainScalarPc x) (ignoreIllegalCheck x) (isSimt x)
    (recordType x) (gmAddrOutOfBoundsRecord x).
Definition set_infoSrc (v : MemInfoSrc) (x : MemOpRecord) : MemOpRecord :=
  mkMemOpRecord (serialNo x) (type x) (coreId x) (moduleId x) (srcAddr x) (dstAddr x) (srcSpace x)
    (dstSpace x) (memSize x) (lineNo x) (fileName x) (blockType x) (pc x) v (infoDesc x) (side x)
    (paramsNo x) (rootAddr x) (mainScalarPc x) (ignoreIllegalCheck x) (isSimt x) (recordType x)
    (gmAddrOutOfBoundsRecord x).
Definition set_infoDesc (v : Z) (x : MemOpRecord) : MemOpRecord :=
  mkMemOpRecord (serialNo x) (type x) (coreId x) (moduleId x) (srcAddr x) (dstAddr x) (srcSpace x)
    (dstSpace x) (memSize x) (lineNo x) (fileName x) (blockType x) (pc x) (infoSrc x) v (side x)
    (paramsNo x) (rootAddr x) (mainScalarPc x) (ignoreIllegalCheck x) (isSimt x) (recordType x)
    (gmAddrOutOfBoundsRecord x).
Definition set_side (v : MemOpSide) (x : MemOpRecord) : MemOpRecord :=
  mkMemOpRecord (serialNo x) (type x) (coreId x) (moduleId x) (srcAddr x) (dstAddr x) (srcSpace x)
    (dstSpace x) (memSize x) (lineNo x) (fileName x) (blockType x) (pc x) (infoSrc x) (infoDesc x)
    v (paramsNo x) (rootAddr x) (mainScalarPc x) (ignoreIllegalCheck x) (isSimt x) (recordType x)
    (gmAddrOutOfBoundsRecord x).
Definition set_paramsNo (v : Z) (x : MemOpRecord) : MemOpRecord :=
  mkMemOpRecord (serialNo x) (type x) (coreId x) (moduleId x) (srcAddr x) (dstAddr x) (srcSpace x)
    (dstSpace x) (memSize x) (lineNo x) (fileName x) (blockType x) (pc x) (infoSrc x) (infoDesc x)
    (side x) v (rootAddr x) (mainScalarPc x) (ignoreIllegalCheck x) (isSimt x) (recordType x)
    (gmAddrOutOfBoundsRecord x).
Definition set_rootAddr (v : Z) (x : MemOpRecord) : MemOpRecord :=
  mkMemOpRecord (serialNo x) (type x) (coreId x) (moduleId x) (srcAddr x) (dstAddr x) (srcSpace x)
    (dstSpace x) (memSize x) (lineNo x) (fileName x) (blockType x) (pc x) (infoSrc x) (infoDesc x)
    (side x) (paramsNo x) v (mainScalarPc x) (ignoreIllegalCheck x) (isSimt x) (recordType x)
    (gmAddrOutOfBoundsRecord x).
Definition set_mainScalarPc (v : Z) (x : MemOpRecord) : MemOpRecord :=
  mkMemOpRecord (serialNo x) (type x) (coreId x) (moduleId x) (srcAddr x) (dstAddr x) (srcSpace x)
    (dstSpace x) (memSize x) (lineNo x) (fileName x) (blockType x) (pc x) (infoSrc x) (infoDesc x)
    (side x) (paramsNo x) (rootAddr x) v (ignoreIllegalCheck x) (isSimt x) (recordType x)
    (gmAddrOutOfBoundsRecord x).
Definition set_ignoreIllegalCheck (v : bool) (x : MemOpRecord) : MemOpRecord :=
  mkMemOpRecord (serialNo x) (type x) (coreId x) (moduleId x) (srcAddr x) (dstAddr x) (srcSpace x)
    (dstSpace x) (memSize x) (lineNo x) (fileName x) (blockType x) (pc x) (infoSrc x) (infoDesc x)
    (side x) (paramsNo x) (rootAddr x) (mainScalarPc x) v (isSimt x) (recordType x)
    (gmAddrOutOfBoundsRecord x).
Definition set_isSimt (v : bool) (x : MemOpRecord) : MemOpRecord :=
  mkMemOpRecord (serialNo x) (type x) (coreId x) (moduleId x) (srcAddr x) (dstAddr x) (srcSpace x)
    (dstSpace x) (memSize x) (lineNo x) (fileName x) (blockType x) (pc x) (infoSrc x) (infoDesc x)
    (side x) (paramsNo x) (rootAddr x) (mainScalarPc x) (ignoreIllegalCheck x) v (recordType x)
    (gmAddrOutOfBoundsRecord x).
Definition set_recordType (v : Z) (x : MemOpRecord) : MemOpRecord :=
  mkMemOpRecord (serialNo x) (type x) (coreId x) (moduleId x) (srcAddr x) (dstAddr x) (srcSpace x)
    (dstSpace x) (memSize x) (lineNo x) (fileName x) (blockType x) (pc x) (infoSrc x) (infoDesc x)
    (side x) (paramsNo x) (rootAddr x) (mainScalarPc x) (ignoreIllegalCheck x) (isSimt x) v
    (gmAddrOutOfBoundsRecord x).
Definition set_gmAddrOutOfBoundsRecord (v : GMAddrOutOfBoundRecord) (x : MemOpRecord) : MemOpRecord :=
  mkMemOpRecord (serialNo x) (type x) (coreId x) (moduleId x) (srcAddr x) (dstAddr x) (srcSpace x)
    (dstSpace x) (memSize x) (lineNo x) (fileName x) (blockType x) (pc x) (infoSrc x) (infoDesc x)
    (side x) (paramsNo x) (rootAddr x) (mainScalarPc x) (ignoreIllegalCheck x) (isSimt x)
    (recordType x) v.

(** A zero-initialised record, [MemOpRecord record{}]. *)
Definition zero : MemOpRecord :=
  {| serialNo := 0; type := MALLOC; coreId := 0; moduleId := 0; srcAddr := 0; dstAddr := 0;
     srcSpace := PRIVATE; dstSpace := PRIVATE; memSize := 0; lineNo := 0; fileName := "";
     blockType := AIVEC; pc := 0; infoSrc := BYPASS; infoDesc := 0; side := HOST; paramsNo := 0;
     rootAddr := 0; mainScalarPc := 0; ignoreIllegalCheck := false; isSimt := false;
     recordType := 0;
     gmAddrOutOfBoundsRecord := {| userAddr := 0; userSize := 0; outAddr := 0; outSize := 0 |} |}.
End Mor.
Abbreviation MemOpRecord := Mor.MemOpRecord.

(** Permission flags. *)
Definition MSTX_MEM_PERMISSIONS_REGION_FLAGS_READ : Z := 1.
Definition MSTX_MEM_PERMISSIONS_REGION_FLAGS_WRITE : Z := 2.
Definition MSTX_MEM_PERMISSIONS_REGION_FLAGS_DEFAULT : Z :=
  Z.lor MSTX_MEM_PERMISSIONS_REGION_FLAGS_READ MSTX_MEM_PERMISSIONS_REGION_FLAGS_WRITE.

(** ** Configuration *)

Inductive DemangleMode := FULL_DEMANGLED_NAME | SIMPLE_DEMANGLED_NAME | MANGLED_NAME.

Record Config := {
  defaultCheck : bool; memCheck : bool; raceCheck : bool; initCheck : bool; syncCheck : bool;
  registerCheck : bool; checkDeviceHeap : bool; checkCannHeap : bool; leakCheck : bool;
  checkUnusedMemory : bool; checkCrossNpuRaces : bool; checkDcci : bool; isPrintFullStack : bool;
  outOfBoundCheck : bool; traceNonDefaultSprReg : bool; checkBlockId : Z; cacheSize : Z;
  demangleMode : DemangleMode; pluginPath : string; kernelName : string; dumpPath : string;
  gmBufferGuardSize : Z;
}.

Definition InitcheckAddressSpaceBit (space : AddressSpace) : Z :=
  let c := AddressSpace_code space in
  if (0 <=? c) && (c <=? 8) then u32 (Z.shiftl 1 c) else 0.

Definition INITCHECK_ALL_ADDRESS_SPACES : Z := Z.shiftl 1 9 - 1.

(** ** Chips *)

Record ChipInfo := {
  aiCoreCnt : Z; l0aSize : Z; l0bSize : Z; l0cSize : Z; l1Size : Z; ubSize : Z; ubBlockSize : Z;
  privateSize : Z; hbmSize : Z;
}.
