(* ===== verification/Platform.v ===== *)
(** Chip tables: [csrc/core/framework/platform_config.h] and the device
    enumeration of [arch_def.h], with the facts the shadow memory relies on. *)
From stdpp Require Import base numbers list option strings.
From S2P Require Import Prelude.
From S2P Require Import RecordDefs.

Inductive DeviceType :=
  | ASCEND_910_PREMIUM_A | ASCEND_910B_START | ASCEND_910B1 | ASCEND_910B2 | ASCEND_910B3
  | ASCEND_910B4 | ASCEND_910B_END | ASCEND_310P | ASCEND_950_START | ASCEND_950DT_950x
  | ASCEND_950DT_950y | ASCEND_950DT_9571 | ASCEND_950DT_9572 | ASCEND_950DT_9573
  | ASCEND_950DT_9574 | ASCEND_950DT_9575 | ASCEND_950DT_9576 | ASCEND_950DT_9577
  | ASCEND_950DT_9578 | ASCEND_950DT_9581 | ASCEND_950DT_9582 | ASCEND_950DT_9583
  | ASCEND_950DT_9584 | ASCEND_950DT_9585 | ASCEND_950DT_9586 | ASCEND_950DT_9587
  | ASCEND_950DT_9588 | ASCEND_950DT_9591 | ASCEND_950DT_9592 | ASCEND_950DT_9595
  | ASCEND_950DT_9596 | ASCEND_950DT_95A1 | ASCEND_950DT_95A2 | ASCEND_950PR_950z
  | ASCEND_950PR_9579 | ASCEND_950PR_957b | ASCEND_950PR_957c | ASCEND_950PR_957d
  | ASCEND_950PR_9589 | ASCEND_950PR_958b | ASCEND_950PR_9599 | ASCEND_950_END | DEVICE_INVALID.

#[export] Instance DeviceType_eq : EqDecision DeviceType. Proof. solve_decision. Defined.

(** The numeric value of the enumerator. *)
Definition DeviceType_code (d : DeviceType) : Z :=
  match d with
  | ASCEND_910_PREMIUM_A => 0
  | ASCEND_910B_START => 1
  | ASCEND_910B1 => 2
  | ASCEND_910B2 => 3
  | ASCEND_910B3 => 4
  | ASCEND_910B4 => 5
  | ASCEND_910B_END => 6
  | ASCEND_310P => 7
  | ASCEND_950_START => 10
  | ASCEND_950DT_950x => 11
  | ASCEND_950DT_950y => 12
  | ASCEND_950DT_9571 => 13
  | ASCEND_950DT_9572 => 14
  | ASCEND_950DT_9573 => 15
  | ASCEND_950DT_9574 => 16
  | ASCEND_950DT_9575 => 17
  | ASCEND_950DT_9576 => 18
  | ASCEND_950DT_9577 => 19
  | ASCEND_950DT_9578 => 20
  | ASCEND_950DT_9581 => 21
  | ASCEND_950DT_9582 => 22
  | ASCEND_950DT_9583 => 23
  | ASCEND_950DT_9584 => 24
  | ASCEND_950DT_9585 => 25
  | ASCEND_950DT_9586 => 26
  | ASCEND_950DT_9587 => 27
  | ASCEND_950DT_9588 => 28
  | ASCEND_950DT_9591 => 29
  | ASCEND_950DT_9592 => 30
  | ASCEND_950DT_9595 => 31
  | ASCEND_950DT_9596 => 32
  | ASCEND_950DT_95A1 => 33
  | ASCEND_950DT_95A2 => 34
  | ASCEND_950PR_950z => 35
  | ASCEND_950PR_9579 => 36
  | ASCEND_950PR_957b => 37
  | ASCEND_950PR_957c => 38
  | ASCEND_950PR_957d => 39
  | ASCEND_950PR_9589 => 40
  | ASCEND_950PR_958b => 41
  | ASCEND_950PR_9599 => 42
  | ASCEND_950_END => 43
  | DEVICE_INVALID => 4294967295
  end.

Definition KB_TO_BYTES : Z := 1024.
Definition AI_CORE_STACK_SIZE : Z := u32 (32 * KB_TO_BYTES).
Definition ASCEND_910B_PRIVATE_SIZE : Z := u32 (75 * AI_CORE_STACK_SIZE).
Definition ASCEND_910A_PRIVATE_SIZE : Z := u32 (32 * AI_CORE_STACK_SIZE).
Definition ASCEND_310P_PRIVATE_SIZE : Z := u32 (18 * AI_CORE_STACK_SIZE).
Definition ASCEND_950_PRIVATE_SIZE : Z := u32 (108 * AI_CORE_STACK_SIZE).
Definition GB_TO_BYTES : Z := u32 (1024 * 1024 * 1024).

Definition device_between (lo d hi : DeviceType) : bool :=
  (DeviceType_code lo <? DeviceType_code d) && (DeviceType_code d <? DeviceType_code hi).

Definition HasSubBlocks (deviceType : DeviceType) : bool :=
  if device_between ASCEND_910B_START deviceType ASCEND_910B_END then true
  else if device_between ASCEND_950_START deviceType ASCEND_950_END then true
  else false.

Definition IsAscend95 (deviceType : DeviceType) : bool :=
  device_between ASCEND_950_START deviceType ASCEND_950_END.

(** A table entry. The sizes are 32-bit products, as the literals of the
    source are: [hbmSize] is a 64-bit field holding a 32-bit product. *)
Definition chip (cores l0a l0b l0c l1 ub blk priv hbmGB : Z) : ChipInfo :=
  {| aiCoreCnt := cores; l0aSize := u32 (l0a * KB_TO_BYTES); l0bSize := u32 (l0b * KB_TO_BYTES);
     l0cSize := u32 (l0c * KB_TO_BYTES); l1Size := u32 (l1 * KB_TO_BYTES);
     ubSize := u32 (ub * KB_TO_BYTES); ubBlockSize := blk; privateSize := priv;
     hbmSize := u32 (hbmGB * GB_TO_BYTES) |}.

Definition CHIP_INFO_MAP : list (DeviceType * ChipInfo) :=
  [(ASCEND_910_PREMIUM_A, chip 32 64 64 256 1024 256 32 ASCEND_910A_PRIVATE_SIZE 32);
   (ASCEND_910B1, chip 24 64 64 128 512 192 32 ASCEND_910B_PRIVATE_SIZE 64);
   (ASCEND_910B2, chip 24 64 64 128 512 192 32 ASCEND_910B_PRIVATE_SIZE 64);
   (ASCEND_910B3, chip 20 64 64 128 512 192 32 ASCEND_910B_PRIVATE_SIZE 64);
   (ASCEND_910B4, chip 20 64 64 128 512 192 32 ASCEND_910B_PRIVATE_SIZE 64);
   (ASCEND_310P, chip 8 64 64 256 1024 256 32 ASCEND_310P_PRIVATE_SIZE 32);
   (ASCEND_950DT_950x, chip 8 64 64 256 512 256 32 ASCEND_950_PRIVATE_SIZE 24);
   (ASCEND_950DT_950y, chip 8 64 64 256 512 256 32 ASCEND_950_PRIVATE_SIZE 16);
   (ASCEND_950PR_950z, chip 8 64 64 256 512 256 32 ASCEND_950_PRIVATE_SIZE 24);
   (ASCEND_950DT_9571, chip 28 64 64 256 512 256 32 ASCEND_950_PRIVATE_SIZE 144);
   (ASCEND_950DT_9572, chip 28 64 64 256 512 256 32 ASCEND_950_PRIVATE_SIZE 96);
   (ASCEND_950DT_9573, chip 28 64 64 256 512 256 32 ASCEND_950_PRIVATE_SIZE 126);
   (ASCEND_950DT_9574, chip 28 64 64 256 512 256 32 ASCEND_950_PRIVATE_SIZE 84);
   (ASCEND_950DT_9575, chip 28 64 64 256 512 256 32 ASCEND_950_PRIVATE_SIZE 96);
   (ASCEND_950DT_9576, chip 28 64 64 256 512 256 32 ASCEND_950_PRIVATE_SIZE 64);
   (ASCEND_950DT_9577, chip 28 64 64 256 512 256 32 ASCEND_950_PRIVATE_SIZE 84);
   (ASCEND_950DT_9578, chip 28 64 64 256 512 256 32 ASCEND_950_PRIVATE_SIZE 56);
   (ASCEND_950PR_9579, chip 28 64 64 256 512 256 32 ASCEND_950_PRIVATE_SIZE 128);
   (ASCEND_950PR_957b, chip 28 64 64 256 512 256 32 ASCEND_950_PRIVATE_SIZE 112);
   (ASCEND_950PR_957c, chip 28 64 64 256 512 256 32 ASCEND_950_PRIVATE_SIZE 84);
   (ASCEND_950PR_957d, chip 28 64 64 256 512 256 32 ASCEND_950_PRIVATE_SIZE 96);
   (ASCEND_950DT_9581, chip 32 64 64 256 512 256 32 ASCEND_950_PRIVATE_SIZE 144);
   (ASCEND_950DT_9582, chip 32 64 64 256 512 256 32 ASCEND_950_PRIVATE_SIZE 96);
   (ASCEND_950DT_9583, chip 32 64 64 256 512 256 32 ASCEND_950_PRIVATE_SIZE 126);
   (ASCEND_950DT_9584, chip 32 64 64 256 512 256 32 ASCEND_950_PRIVATE_SIZE 84);
   (ASCEND_950DT_9585, chip 32 64 64 256 512 256 32 ASCEND_950_PRIVATE_SIZE 96);
   (ASCEND_950DT_9586, chip 32 64 64 256 512 256 32 ASCEND_950_PRIVATE_SIZE 64);
   (ASCEND_950DT_9587, chip 32 64 64 256 512 256 32 ASCEND_950_PRIVATE_SIZE 84);
   (ASCEND_950DT_9588, chip 32 64 64 256 512 256 32 ASCEND_950_PRIVATE_SIZE 56);
   (ASCEND_950PR_9589, chip 32 64 64 256 512 256 32 ASCEND_950_PRIVATE_SIZE 128);
   (ASCEND_950PR_958b, chip 32 64 64 256 512 256 32 ASCEND_950_PRIVATE_SIZE 112);
   (ASCEND_950DT_9591, chip 36 64 64 256 512 256 32 ASCEND_950_PRIVATE_SIZE 144);
   (ASCEND_950DT_9592, chip 36 64 64 256 512 256 32 ASCEND_950_PRIVATE_SIZE 96);
   (ASCEND_950DT_9595, chip 36 64 64 256 512 256 32 ASCEND_950_PRIVATE_SIZE 96);
   (ASCEND_950DT_9596, chip 36 64 64 256 512 256 32 ASCEND_950_PRIVATE_SIZE 64);
   (ASCEND_950PR_9599, chip 36 64 64 256 512 256 32 ASCEND_950_PRIVATE_SIZE 128);
   (ASCEND_950DT_95A1, chip 36 64 64 256 512 256 32 ASCEND_950_PRIVATE_SIZE 128);
   (ASCEND_950DT_95A2, chip 36 64 64 256 512 256 32 ASCEND_950_PRIVATE_SIZE 96)].

Definition SOC_VERSION_MAP : list (string * DeviceType) :=
  [("Ascend910PremiumA", ASCEND_910_PREMIUM_A);
   ("Ascend910B1", ASCEND_910B1);
   ("Ascend910B2", ASCEND_910B2);
   ("Ascend910B2C", ASCEND_910B2);
   ("Ascend910B3", ASCEND_910B3);
   ("Ascend910B4", ASCEND_910B4);
   ("Ascend910B4-1", ASCEND_910B4);
   ("Ascend910_9391", ASCEND_910B1);
   ("Ascend910_9392", ASCEND_910B1);
   ("Ascend910_9381", ASCEND_910B2);
   ("Ascend910_9382", ASCEND_910B2);
   ("Ascend910_9372", ASCEND_910B3);
   ("Ascend910_9362", ASCEND_910B4);
   ("Ascend910_9363", ASCEND_910B4);
   ("Ascend950DT_950x", ASCEND_950DT_950x);
   ("Ascend950DT_950y", ASCEND_950DT_950y);
   ("Ascend950DT_9571", ASCEND_950DT_9571);
   ("Ascend950DT_9572", ASCEND_950DT_9572);
   ("Ascend950DT_9573", ASCEND_950DT_9573);
   ("Ascend950DT_9574", ASCEND_950DT_9574);
   ("Ascend950DT_9575", ASCEND_950DT_9575);
   ("Ascend950DT_9576", ASCEND_950DT_9576);
   ("Ascend950DT_9577", ASCEND_950DT_9577);
   ("Ascend950DT_9578", ASCEND_950DT_9578);
   ("Ascend950DT_9581", ASCEND_950DT_9581);
   ("Ascend950DT_9582", ASCEND_950DT_9582);
   ("Ascend950DT_9582x", ASCEND_950DT_9582);
   ("Ascend950DT_9583", ASCEND_950DT_9583);
   ("Ascend950DT_9584", ASCEND_950DT_9584);
   ("Ascend950DT_9585", ASCEND_950DT_9585);
   ("Ascend950DT_9586", ASCEND_950DT_9586);
   ("Ascend950DT_9587", ASCEND_950DT_9587);
   ("Ascend950DT_9588", ASCEND_950DT_9588);
   ("Ascend950DT_9591", ASCEND_950DT_9591);
   ("Ascend950DT_9592", ASCEND_950DT_9592);
   ("Ascend950DT_9595", ASCEND_950DT_9595);
   ("Ascend950DT_9596", ASCEND_950DT_9596);
   ("Ascend950DT_95A1", ASCEND_950DT_95A1);
   ("Ascend950DT_95A2", ASCEND_950DT_95A2);
   ("Ascend950PR_950z", ASCEND_950PR_950z);
   ("Ascend950PR_9579", ASCEND_950PR_9579);
   ("Ascend950PR_957b", ASCEND_950PR_957b);
   ("Ascend950PR_957bx", ASCEND_950PR_957b);
   ("Ascend950PR_957c", ASCEND_950PR_957c);
   ("Ascend950PR_957d", ASCEND_950PR_957d);
   ("Ascend950PR_9589", ASCEND_950PR_9589);
   ("Ascend950PR_958b", ASCEND_950PR_958b);
   ("Ascend950PR_9599", ASCEND_950PR_9599);
   ("Ascend310P1", ASCEND_310P);
   ("Ascend310P3", ASCEND_310P);
   ("Ascend310P5", ASCEND_310P);
   ("Ascend310P7", ASCEND_310P)]%string.

Definition ALIGN_MAP : list (string * Z) :=
  [("UB_NORMAL_ALIGN_SIZE", 32); ("L0A_L0B_L0C_NORMAL_ALIGN_SIZE", 512);
   ("L1_NORMAL_ALIGN_SIZE", 32); ("VMRGSORET4_ALIGN_SIZE", 8)]%string.

(** [std::unordered_map::find] on such a table (its keys are distinct). *)
Fixpoint table_find {K V} `{!EqDecision K} (k : K) (l : list (K * V)) : option V :=
  match l with
  | [] => None
  | (k', v) :: l' => if decide (k = k') then Some v else table_find k l'
  end.

Definition find_chip (d : DeviceType) : option ChipInfo := table_find d CHIP_INFO_MAP.
Definition find_soc (s : string) : option DeviceType := table_find s SOC_VERSION_MAP.

(** ** Facts *)

Lemma table_find_Forall {K V} `{!EqDecision K} (P : V → Prop) k (l : list (K * V)) v :
  Forall (λ p, P p.2) l → table_find k l = Some v → P v.
Proof.
  induction 1 as [|[k' v'] l Hp Hl IH]; simpl; [done|]. case_decide; [by intros; simplify_eq|done].
Qed.

(** Sizes for which one secondary map per 64 KB stays inside the 36-bit local
    space, with the room the word scans need above the last byte. *)
Definition chip_fits (c : ChipInfo) : Prop :=
  Forall (λ s, 0 <= s <= 16777216)
    [l0aSize c; l0bSize c; l0cSize c; l1Size c; ubSize c; privateSize c].

#[export] Instance chip_fits_dec c : Decision (chip_fits c).
Proof. unfold chip_fits. apply _. Defined.

Lemma find_chip_fits d c : find_chip d = Some c → chip_fits c.
Proof.
  apply table_find_Forall. apply (bool_decide_unpack _). by vm_compute.
Qed.

(** Every SoC name the tool accepts is mapped to a device whose chip
    description exists, and that description fits the shadow tables: each
    on-chip memory is at most 16 MB. *)
Theorem soc_supported s d :
  find_soc s = Some d → ∃ c, find_chip d = Some c ∧ chip_fits c.
Proof.
  intros Hs.
  assert (is_Some (find_chip d)) as [c Hc].
  { revert Hs. apply (table_find_Forall (λ d, is_Some (find_chip d))).
    apply (bool_decide_unpack _). by vm_compute. }
  exists c. split; [done|by eapply find_chip_fits].
Qed.

Lemma soc_supported_witness :
  ∃ c, find_chip ASCEND_910B4 = Some c ∧ chip_fits c.
Proof. by apply (soc_supported "Ascend910B4-1"). Defined.

(** The 64-bit [hbmSize] of every chip is computed in 32 bits: it is 0 or
    2 GB in the table, never the tens of gigabytes the entries are written
    with. *)
Theorem hbm_size_truncated d c :
  find_chip d = Some c → hbmSize c = 0 ∨ hbmSize c = 2147483648.
Proof.
  apply (table_find_Forall (λ c, hbmSize c = 0 ∨ hbmSize c = 2147483648)).
  apply (bool_decide_unpack _). by vm_compute.
Qed.

Lemma hbm_size_truncated_witness :
  let c := chip 24 64 64 128 512 192 32 ASCEND_910B_PRIVATE_SIZE 64 in
  find_chip ASCEND_910B1 = Some c ∧ (hbmSize c = 0 ∨ hbmSize c = 2147483648).
Proof. split; [done|by apply (hbm_size_truncated ASCEND_910B1)]. Defined.
