(* ===== verification/HeapBlockManager.v ===== *)
(** Heap blocks: [csrc/address_sanitizer/heap_block_manager.h],
    [heap_block_manager.cpp].

    The manager keeps four tables: blocks reported by the runtime, blocks
    reported by the framework (dfx), and the heaps and regions registered
    through mstx. Every operation of the class is a definition; the tables of
    member functions are the dispatch on the heap type. *)
From stdpp Require Import base numbers list option gmap strings.
From S2P Require Import Prelude.
From S2P Require Import RecordDefs.

Module Hbm.

Record HeapBlock := {
  serialNo : Z; addr : Z; len : Z; moduleId : Z; lineNo : Z; fileName : string; isInvalid : bool;
}.

(** [HeapBlock(record)] *)
Definition of_record (r : MemOpRecord) : HeapBlock :=
  {| serialNo := Mor.serialNo r; addr := Mor.dstAddr r; len := Mor.memSize r;
     moduleId := Mor.moduleId r; lineNo := u32 (Mor.lineNo r); fileName := Mor.fileName r;
     isInvalid := false |}.

Definition invalidate (b : HeapBlock) : HeapBlock :=
  {| serialNo := serialNo b; addr := addr b; len := len b; moduleId := moduleId b;
     lineNo := lineNo b; fileName := fileName b; isInvalid := true |}.

Inductive HeapType := HT_RT | HT_DFX | HT_MSTX_HEAP | HT_MSTX_RIGION | HT_BYPASS | HT_INVALID.

Record HeapBlockManager := {
  heapBlocks_ : gmap Z HeapBlock;
  heapBlocksForDfx_ : gmap Z HeapBlock;
  mstxHeapBlocks_ : gmap Z HeapBlock;
  mstxRegionBlocks_ : gmap Z (list HeapBlock);
}.

Definition empty_manager : HeapBlockManager :=
  {| heapBlocks_ := ∅; heapBlocksForDfx_ := ∅; mstxHeapBlocks_ := ∅; mstxRegionBlocks_ := ∅ |}.

Definition IsAddrInRange (block : HeapBlock) (thresholdAddr thresholdSize : Z) : bool :=
  let a := addr block in
  let size := len block in
  (thresholdAddr <=? a) && (size <=? thresholdSize) &&
  (a -u thresholdAddr <=? thresholdSize -u size).

(** Whether [GetHeapBlocks(infoSrc)] selects the dfx table. *)
Definition uses_dfx (infoSrc : MemInfoSrc) : bool :=
  match infoSrc with EXTRA | MANUAL | BYPASS => true | _ => false end.

Definition GetHeapBlocks (h : HeapBlockManager) (infoSrc : MemInfoSrc) : gmap Z HeapBlock :=
  if uses_dfx infoSrc then heapBlocksForDfx_ h else heapBlocks_ h.

Definition with_heapBlocks (h : HeapBlockManager) (infoSrc : MemInfoSrc) (m : gmap Z HeapBlock)
    : HeapBlockManager :=
  if uses_dfx infoSrc then
    {| heapBlocks_ := heapBlocks_ h; heapBlocksForDfx_ := m;
       mstxHeapBlocks_ := mstxHeapBlocks_ h; mstxRegionBlocks_ := mstxRegionBlocks_ h |}
  else
    {| heapBlocks_ := m; heapBlocksForDfx_ := heapBlocksForDfx_ h;
       mstxHeapBlocks_ := mstxHeapBlocks_ h; mstxRegionBlocks_ := mstxRegionBlocks_ h |}.

Definition with_mstx (h : HeapBlockManager) (heaps : gmap Z HeapBlock)
    (regions : gmap Z (list HeapBlock)) : HeapBlockManager :=
  {| heapBlocks_ := heapBlocks_ h; heapBlocksForDfx_ := heapBlocksForDfx_ h;
     mstxHeapBlocks_ := heaps; mstxRegionBlocks_ := regions |}.

Definition GetHeapType (r : MemOpRecord) : HeapType :=
  match Mor.infoSrc r with
  | HAL | RT | ACL => HT_RT
  | EXTRA | MANUAL => HT_DFX
  | BYPASS => HT_BYPASS
  | MSTX_HEAP => HT_MSTX_HEAP
  | MSTX_REGION => HT_MSTX_RIGION
  end.

(** *** Adding *)

Definition add_if_absent (m : gmap Z HeapBlock) (a : Z) (b : HeapBlock) : gmap Z HeapBlock :=
  match m !! a with None => <[a := b]> m | Some _ => m end.

Definition AddRtDfxBlock (h : HeapBlockManager) (r : MemOpRecord) : HeapBlockManager * bool :=
  let src := Mor.infoSrc r in
  (with_heapBlocks h src (add_if_absent (GetHeapBlocks h src) (Mor.dstAddr r) (of_record r)), true).

Definition AddByPassBlock (h : HeapBlockManager) (r : MemOpRecord) : HeapBlockManager * bool :=
  ({| heapBlocks_ := add_if_absent (heapBlocks_ h) (Mor.dstAddr r) (of_record r);
      heapBlocksForDfx_ := add_if_absent (heapBlocksForDfx_ h) (Mor.dstAddr r) (of_record r);
      mstxHeapBlocks_ := mstxHeapBlocks_ h; mstxRegionBlocks_ := mstxRegionBlocks_ h |}, true).

Definition AddMstxHeapBlock (h : HeapBlockManager) (r : MemOpRecord) : HeapBlockManager * bool :=
  let a := Mor.dstAddr r in
  match mstxHeapBlocks_ h !! a with
  | Some _ => (h, false)
  | None =>
      let block := of_record r in
      if existsb (λ bk, IsAddrInRange block (addr bk.2) (len bk.2)) (ordered (heapBlocks_ h)) then
        (with_mstx h (<[a := block]> (mstxHeapBlocks_ h)) (mstxRegionBlocks_ h), true)
      else
        (with_mstx h (<[a := invalidate block]> (mstxHeapBlocks_ h)) (mstxRegionBlocks_ h), false)
  end.

Definition AddMstxRegionBlock (h : HeapBlockManager) (r : MemOpRecord) : HeapBlockManager * bool :=
  let rootAddr := Mor.rootAddr r in
  let it := mstxHeapBlocks_ h !! rootAddr in
  if negb (rootAddr =? 0) && negb (bool_decide (is_Some it)) then (h, false)
  else
    let regions := default [] (mstxRegionBlocks_ h !! rootAddr) in
    (with_mstx h (mstxHeapBlocks_ h)
       (<[rootAddr := regions ++ [of_record r]]> (mstxRegionBlocks_ h)),
     (rootAddr =? 0) || match it with Some b => negb (isInvalid b) | None => false end).

Definition AddHeapBlock (h : HeapBlockManager) (r : MemOpRecord) : HeapBlockManager * bool :=
  match GetHeapType r with
  | HT_RT | HT_DFX => AddRtDfxBlock h r
  | HT_BYPASS => AddByPassBlock h r
  | HT_MSTX_HEAP => AddMstxHeapBlock h r
  | HT_MSTX_RIGION => AddMstxRegionBlock h r
  | HT_INVALID => (h, false)
  end.

(** *** Freeing: the table, the message and the [size] out-parameter *)

Definition IsRealMalloc (infoSrc : MemInfoSrc) : bool :=
  match infoSrc with HAL | ACL | RT => true | _ => false end.

Definition DeleteMstxInfo (h : HeapBlockManager) (r : MemOpRecord) (freeSize : Z)
    : HeapBlockManager :=
  if negb (IsRealMalloc (Mor.infoSrc r)) then h
  else
    match List.find (λ it, IsAddrInRange it.2 (Mor.dstAddr r) freeSize)
                    (ordered (mstxHeapBlocks_ h)) with
    | Some (k, _) =>
        with_mstx h (delete k (mstxHeapBlocks_ h)) (delete k (mstxRegionBlocks_ h))
    | None => h
    end.

Definition illegal_free (a : Z) : ErrorMsg := Err.SetType ILLEGAL_FREE GM a Err.no_error.

Definition FreeRtDfxBlock (h : HeapBlockManager) (r : MemOpRecord) (size : Z)
    : HeapBlockManager * ErrorMsg * Z :=
  let src := Mor.infoSrc r in
  let a := Mor.dstAddr r in
  match GetHeapBlocks h src !! a with
  | None => (h, illegal_free a, size)
  | Some b =>
      let h := DeleteMstxInfo h r (len b) in
      (with_heapBlocks h src (delete a (GetHeapBlocks h src)), Err.no_error, len b)
  end.

Definition FreeByPassBlock (h : HeapBlockManager) (r : MemOpRecord) (size : Z)
    : HeapBlockManager * ErrorMsg * Z :=
  let a := Mor.dstAddr r in
  match heapBlocks_ h !! a with
  | None => (h, illegal_free a, size)
  | Some b =>
      match heapBlocksForDfx_ h !! a with
      | None => (h, illegal_free a, size)
      | Some _ =>
          ({| heapBlocks_ := delete a (heapBlocks_ h);
              heapBlocksForDfx_ := delete a (heapBlocksForDfx_ h);
              mstxHeapBlocks_ := mstxHeapBlocks_ h; mstxRegionBlocks_ := mstxRegionBlocks_ h |},
           Err.no_error, len b)
      end
  end.

Definition FreeMstxHeapBlock (h : HeapBlockManager) (r : MemOpRecord) (size : Z)
    : HeapBlockManager * ErrorMsg * Z :=
  let a := Mor.dstAddr r in
  match mstxHeapBlocks_ h !! a with
  | None => (h, illegal_free a, size)
  | Some b =>
      (with_mstx h (delete a (mstxHeapBlocks_ h)) (delete a (mstxRegionBlocks_ h)),
       Err.no_error, len b)
  end.

(** The reverse iteration over one vector: the last region at the address and
    the vector without it. *)
Fixpoint erase_last (a : Z) (l : list HeapBlock) : option (HeapBlock * list HeapBlock) :=
  match l with
  | [] => None
  | b :: l' =>
      match erase_last a l' with
      | Some (x, rest) => Some (x, b :: rest)
      | None => if addr b =? a then Some (b, l') else None
      end
  end.

Fixpoint free_region (a : Z) (pairs : list (Z * list HeapBlock)) (m : gmap Z (list HeapBlock))
    : option (HeapBlock * gmap Z (list HeapBlock)) :=
  match pairs with
  | [] => None
  | (root, regionsVec) :: pairs' =>
      match erase_last a regionsVec with
      | Some (b, rest) => Some (b, <[root := rest]> m)
      | None => free_region a pairs' m
      end
  end.

Definition FreeMstxRegionBlock (h : HeapBlockManager) (r : MemOpRecord) (size : Z)
    : HeapBlockManager * ErrorMsg * Z :=
  let a := Mor.dstAddr r in
  match free_region a (ordered (mstxRegionBlocks_ h)) (mstxRegionBlocks_ h) with
  | Some (b, m) => (with_mstx h (mstxHeapBlocks_ h) m, Err.no_error, len b)
  | None => (h, illegal_free a, size)
  end.

Definition FreeHeapBlock (h : HeapBlockManager) (r : MemOpRecord) (size : Z)
    : HeapBlockManager * ErrorMsg * Z :=
  match GetHeapType r with
  | HT_RT | HT_DFX => FreeRtDfxBlock h r size
  | HT_BYPASS => FreeByPassBlock h r size
  | HT_MSTX_HEAP => FreeMstxHeapBlock h r size
  | HT_MSTX_RIGION => FreeMstxRegionBlock h r size
  | HT_INVALID => (h, Err.no_error, size)
  end.

(** *** Queries *)

Definition leak_msg (b : HeapBlock) : ErrorMsg :=
  Err.upd_aux
    (Aux.set_serialNo (serialNo b) ∘ Aux.set_lineNo (lineNo b) ∘ Aux.set_fileName (fileName b) ∘
     Aux.set_moduleId (moduleId b) ∘ Aux.set_nBadBytes (len b))
    (Err.SetType MEM_LEAK GM (addr b) Err.no_error).

Definition DoLeakCheck (h : HeapBlockManager) : ErrorMsgList :=
  (λ p, leak_msg p.2) <$> ordered (heapBlocks_ h).

Definition GetHeapBlockSize (h : HeapBlockManager) (r : MemOpRecord) : Z :=
  match heapBlocks_ h !! Mor.dstAddr r with
  | Some b => len b
  | None =>
      match heapBlocksForDfx_ h !! Mor.dstAddr r with
      | Some b => len b
      | None => 0
      end
  end.

(** *** Range test *)

(** The subtraction-only test is containment of address intervals. *)
Lemma IsAddrInRange_iff b ta ts :
  is_u64 (addr b) → is_u64 (len b) → is_u64 ta → is_u64 ts →
  IsAddrInRange b ta ts = true ↔ ta <= addr b ∧ addr b + len b <= ta + ts.
Proof.
  unfold IsAddrInRange, is_u64. intros. split.
  - intros Ht. bool_prop. u64_simpl. lia.
  - intros [? ?]. destruct (Z.leb_spec ta (addr b)); [|lia].
    destruct (Z.leb_spec (len b) ts); [|lia]. simpl. u64_simpl. apply Z.leb_le. lia.
Qed.

(** *** Invariant *)

(** Blocks are filed under their own address, and a region list belongs to a
    registered heap or to the null root. *)
Record hbm_ok (h : HeapBlockManager) : Prop := {
  hok_rt k b : heapBlocks_ h !! k = Some b → addr b = k;
  hok_dfx k b : heapBlocksForDfx_ h !! k = Some b → addr b = k;
  hok_mstx k b : mstxHeapBlocks_ h !! k = Some b → addr b = k;
  hok_region k l : mstxRegionBlocks_ h !! k = Some l → k = 0 ∨ is_Some (mstxHeapBlocks_ h !! k);
}.

Lemma add_if_absent_addr m a b k v :
  addr b = a → (∀ k v, m !! k = Some v → addr v = k) →
  add_if_absent m a b !! k = Some v → addr v = k.
Proof.
  intros Hb Hm. unfold add_if_absent. destruct (m !! a); [apply Hm|].
  rewrite lookup_insert. case_decide; [by intros; simplify_eq|apply Hm].
Qed.

Lemma delete_addr (m : gmap Z HeapBlock) a k v :
  (∀ k v, m !! k = Some v → addr v = k) → delete a m !! k = Some v → addr v = k.
Proof. intros Hm. rewrite lookup_delete. case_decide; [done|apply Hm]. Qed.

Lemma GetHeapBlocks_addr h src k v :
  hbm_ok h → GetHeapBlocks h src !! k = Some v → addr v = k.
Proof. intros [] . unfold GetHeapBlocks. destruct (uses_dfx src); eauto. Qed.

Lemma with_heapBlocks_ok h src m :
  hbm_ok h → (∀ k v, m !! k = Some v → addr v = k) → hbm_ok (with_heapBlocks h src m).
Proof. intros [] Hm. unfold with_heapBlocks. destruct (uses_dfx src); split; eauto. Qed.

Lemma with_mstx_ok h heaps regions :
  hbm_ok h → (∀ k v, heaps !! k = Some v → addr v = k) →
  (∀ k l, regions !! k = Some l → k = 0 ∨ is_Some (heaps !! k)) →
  hbm_ok (with_mstx h heaps regions).
Proof. intros [] Hh Hr. split; eauto. Qed.

Lemma delete_mstx_ok h k :
  hbm_ok h → hbm_ok (with_mstx h (delete k (mstxHeapBlocks_ h)) (delete k (mstxRegionBlocks_ h))).
Proof.
  intros Hok. apply with_mstx_ok; [done| |].
  - intros k' v. apply delete_addr, Hok.
  - intros k' l. rewrite !lookup_delete. case_decide; [done|]. apply Hok.
Qed.

Lemma insert_heap_ok h k b :
  hbm_ok h → addr b = k →
  hbm_ok (with_mstx h (<[k := b]> (mstxHeapBlocks_ h)) (mstxRegionBlocks_ h)).
Proof.
  intros Hok Hb. apply with_mstx_ok; [done| |].
  - intros k' v. rewrite lookup_insert. case_decide; [by intros; simplify_eq|apply Hok].
  - intros k' l Hl. rewrite lookup_insert. case_decide; [right; eauto|by eapply Hok].
Qed.

Lemma insert_region_ok h k l :
  hbm_ok h → k = 0 ∨ is_Some (mstxHeapBlocks_ h !! k) →
  hbm_ok (with_mstx h (mstxHeapBlocks_ h) (<[k := l]> (mstxRegionBlocks_ h))).
Proof.
  intros Hok Hk. apply with_mstx_ok; [done|apply Hok|].
  intros k' l'. rewrite lookup_insert. case_decide; [by intros; subst|apply Hok].
Qed.

Lemma free_region_Some a pairs m b m' :
  free_region a pairs m = Some (b, m') →
  ∃ root l rest, (root, l) ∈ pairs ∧ erase_last a l = Some (b, rest) ∧ m' = <[root := rest]> m.
Proof.
  induction pairs as [|[root l] pairs IH]; simpl; [done|].
  destruct (erase_last a l) as [[x rest]|] eqn:E.
  - intros. simplify_eq. exists root, l, rest. split_and!; [set_solver|done|done].
  - intros (root' & l' & rest' & ? & ? & ?)%IH. exists root', l', rest'. split_and!; [set_solver|done|done].
Qed.

Lemma DeleteMstxInfo_ok h r n : hbm_ok h → hbm_ok (DeleteMstxInfo h r n).
Proof.
  intros Hok. unfold DeleteMstxInfo. case_match; [done|].
  destruct (List.find _ _) as [[k b]|]; [by apply delete_mstx_ok|done].
Qed.

Lemma AddHeapBlock_ok h r : hbm_ok h → hbm_ok (AddHeapBlock h r).1.
Proof.
  intros Hok. unfold AddHeapBlock. destruct (GetHeapType r); simpl; try done.
  - apply with_heapBlocks_ok; [done|]. intros k v. apply add_if_absent_addr; [done|].
    intros. by eapply GetHeapBlocks_addr.
  - apply with_heapBlocks_ok; [done|]. intros k v. apply add_if_absent_addr; [done|].
    intros. by eapply GetHeapBlocks_addr.
  - unfold AddMstxHeapBlock. destruct (_ !! _); [done|]. case_match; simpl; by apply insert_heap_ok.
  - unfold AddMstxRegionBlock. case_match eqn:E; [done|]. simpl. apply insert_region_ok; [done|].
    destruct (Z.eqb_spec (Mor.rootAddr r) 0); [by left|right]. simpl in E. by bool_prop.
  - destruct Hok. split; simpl; try done; intros k v; by apply add_if_absent_addr.
Qed.

Lemma FreeHeapBlock_ok h r n : hbm_ok h → hbm_ok (FreeHeapBlock h r n).1.1.
Proof.
  intros Hok. unfold FreeHeapBlock.
  assert (Hrt : hbm_ok (FreeRtDfxBlock h r n).1.1).
  { unfold FreeRtDfxBlock. destruct (_ !! _) as [b|]; [|done]. simpl.
    apply with_heapBlocks_ok; [by apply DeleteMstxInfo_ok|]. intros k v.
    apply delete_addr. intros. eapply GetHeapBlocks_addr; [|done]. by apply DeleteMstxInfo_ok. }
  destruct (GetHeapType r); simpl; try done.
  - unfold FreeMstxHeapBlock. destruct (_ !! _); [|done]. by apply delete_mstx_ok.
  - unfold FreeMstxRegionBlock. destruct (free_region _ _ _) as [[b m]|] eqn:E; [|done]. simpl.
    apply free_region_Some in E as (root & l & rest & Hin & _ & ->).
    apply insert_region_ok; [done|]. apply elem_of_ordered in Hin. by eapply Hok.
  - unfold FreeByPassBlock. destruct (heapBlocks_ h !! _); [|done].
    destruct (heapBlocksForDfx_ h !! _); [|done]. destruct Hok.
    split; simpl; try done; intros k v; by apply delete_addr.
Qed.

(** *** Runs of operations *)

Inductive hbm_op := OpAdd (r : MemOpRecord) | OpFree (r : MemOpRecord).

Definition op_record (o : hbm_op) : MemOpRecord := match o with OpAdd r | OpFree r => r end.

Definition hbm_step (h : HeapBlockManager) (o : hbm_op) : HeapBlockManager :=
  match o with OpAdd r => (AddHeapBlock h r).1 | OpFree r => (FreeHeapBlock h r 0).1.1 end.

Definition hbm_run (ops : list hbm_op) : HeapBlockManager := foldl hbm_step empty_manager ops.

(** The allocations that are live after a sequence of runtime operations: the
    first malloc of an address counts until its free. *)
Definition live_step (m : gmap Z Z) (o : hbm_op) : gmap Z Z :=
  let r := op_record o in
  if IsRealMalloc (Mor.infoSrc r) then
    match o with
    | OpAdd _ => match m !! Mor.dstAddr r with None => <[Mor.dstAddr r := Mor.memSize r]> m | Some _ => m end
    | OpFree _ => delete (Mor.dstAddr r) m
    end
  else m.

Definition live (ops : list hbm_op) : gmap Z Z := foldl live_step ∅ ops.

Lemma empty_manager_ok : hbm_ok empty_manager.
Proof. split; simpl; intros ? ?; by rewrite lookup_empty. Qed.

Lemma DeleteMstxInfo_heap h r n :
  heapBlocks_ (DeleteMstxInfo h r n) = heapBlocks_ h ∧
  heapBlocksForDfx_ (DeleteMstxInfo h r n) = heapBlocksForDfx_ h.
Proof.
  unfold DeleteMstxInfo. case_match; [done|]. by destruct (List.find _ _) as [[k b]|].
Qed.

Lemma DeleteMstxInfo_GetHeapBlocks h r n src :
  GetHeapBlocks (DeleteMstxInfo h r n) src = GetHeapBlocks h src.
Proof.
  destruct (DeleteMstxInfo_heap h r n) as [H1 H2]. unfold GetHeapBlocks. by rewrite H1, H2.
Qed.

Lemma real_not_dfx src : IsRealMalloc src = true → uses_dfx src = false.
Proof. by destruct src. Qed.

Lemma GetHeapBlocks_with h src m : GetHeapBlocks (with_heapBlocks h src m) src = m.
Proof. unfold GetHeapBlocks, with_heapBlocks. by destruct (uses_dfx src). Qed.

Lemma with_heapBlocks_mstx h src m :
  mstxHeapBlocks_ (with_heapBlocks h src m) = mstxHeapBlocks_ h.
Proof. unfold with_heapBlocks. by destruct (uses_dfx src). Qed.

(** The runtime table of a manager that sees no bypass records is changed only
    by real mallocs and frees. *)
Lemma live_step_refines h o :
  Mor.infoSrc (op_record o) ≠ BYPASS →
  len <$> heapBlocks_ (hbm_step h o) = live_step (len <$> heapBlocks_ h) o.
Proof.
  intros Hby. unfold hbm_step, live_step.
  destruct o as [r|r]; unfold AddHeapBlock, FreeHeapBlock, GetHeapType; simpl in *.
  - destruct (Mor.infoSrc r) eqn:Hs; try done; unfold AddRtDfxBlock, with_heapBlocks, GetHeapBlocks;
      simpl; rewrite ?Hs; simpl; rewrite ?lookup_fmap.
    1-3: unfold add_if_absent; destruct (heapBlocks_ h !! _); simpl; [done|by rewrite fmap_insert].
    1-2: done.
    + unfold AddMstxHeapBlock. destruct (_ !! _); [done|]. by case_match.
    + unfold AddMstxRegionBlock. by case_match.
  - assert (Hreal : IsRealMalloc (Mor.infoSrc r) = true →
      len <$> heapBlocks_ (FreeRtDfxBlock h r 0).1.1 = delete (Mor.dstAddr r) (len <$> heapBlocks_ h)).
    { intros Hr. unfold FreeRtDfxBlock, GetHeapBlocks, with_heapBlocks.
      rewrite (real_not_dfx _ Hr). destruct (heapBlocks_ h !! _) as [b|] eqn:E; simpl.
      - by rewrite (proj1 (DeleteMstxInfo_heap _ _ _)), fmap_delete.
      - rewrite delete_id; [done|]. by rewrite lookup_fmap, E. }
    destruct (Mor.infoSrc r) eqn:Hs; try done; simpl in *; try by apply Hreal.
    1,2: unfold FreeRtDfxBlock, GetHeapBlocks, with_heapBlocks; rewrite Hs; simpl;
      destruct (heapBlocksForDfx_ h !! _); simpl; [by rewrite (proj1 (DeleteMstxInfo_heap _ _ _))|done].
    + unfold FreeMstxHeapBlock. by destruct (_ !! _).
    + unfold FreeMstxRegionBlock. by destruct (free_region _ _ _) as [[b m]|].
Qed.

Lemma live_refines ops :
  Forall (λ o, Mor.infoSrc (op_record o) ≠ BYPASS) ops → len <$> heapBlocks_ (hbm_run ops) = live ops.
Proof.
  unfold hbm_run, live. intros Hops.
  assert (Hi : len <$> heapBlocks_ empty_manager = (∅ : gmap Z Z)) by apply fmap_empty.
  revert Hi. generalize empty_manager. generalize (∅ : gmap Z Z).
  induction Hops as [|o ops Ho Hops IH]; intros m h Hi; simpl; [done|].
  apply IH. by rewrite live_step_refines, Hi.
Qed.

Lemma hbm_run_ok ops : hbm_ok (hbm_run ops).
Proof.
  unfold hbm_run. generalize empty_manager_ok. generalize empty_manager.
  induction ops as [|o ops IH]; intros h Hok; simpl; [done|]. apply IH.
  destruct o; [by apply AddHeapBlock_ok|by apply FreeHeapBlock_ok].
Qed.

(** *** Properties *)

(** Whatever mallocs, frees and mstx registrations arrive, in any order and
    legal or not, every table files a block under its own address and every
    region list belongs to a registered mstx heap or to the null root. *)
Theorem heap_tables_consistent ops : hbm_ok (hbm_run ops).
Proof. apply hbm_run_ok. Qed.

(** C34: The leak report is exact: after any sequence of non-bypass records it
    lists, as (address, size) pairs, exactly the runtime allocations whose
    first malloc has not been freed. *)
Theorem leak_check_exact ops :
  Forall (λ o, Mor.infoSrc (op_record o) ≠ BYPASS) ops →
  (λ m, (Aux.badAddr (Err.auxData m), Aux.nBadBytes (Err.auxData m))) <$> DoLeakCheck (hbm_run ops)
    ≡ₚ map_to_list (live ops).
Proof.
  intros Hops. rewrite <- live_refines by done. rewrite map_to_list_fmap.
  unfold DoLeakCheck. rewrite ordered_perm, <- list_fmap_compose.
  apply Permutation_refl', list_fmap_ext. intros i [k b] Hk. simpl.
  apply list_elem_of_lookup_2, elem_of_map_to_list in Hk.
  by rewrite (hok_rt _ (hbm_run_ok ops) k b Hk).
Qed.

Lemma leak_check_exact_witness :
  let r := Mor.set_infoSrc RT (Mor.set_dstAddr 4096 (Mor.set_memSize 64 Mor.zero)) in
  let q := Mor.set_infoSrc ACL (Mor.set_dstAddr 8192 (Mor.set_memSize 32 Mor.zero)) in
  (λ m, (Aux.badAddr (Err.auxData m), Aux.nBadBytes (Err.auxData m)))
    <$> DoLeakCheck (hbm_run [OpAdd r; OpAdd q; OpFree r]) ≡ₚ [(8192, 32)].
Proof.
  intros r q. change [(8192, 32)] with (map_to_list (live [OpAdd r; OpAdd q; OpFree r])).
  apply leak_check_exact. repeat constructor; discriminate.
Defined.

(** Malloc then free of the same address through the same source: the free
    is legal, returns the allocated size and restores the table, and a second
    free is reported as illegal and changes nothing. *)
Theorem malloc_free_roundtrip h r n :
  GetHeapType r = HT_RT ∨ GetHeapType r = HT_DFX →
  GetHeapBlocks h (Mor.infoSrc r) !! Mor.dstAddr r = None →
  let '(h1, added) := AddHeapBlock h r in
  let '(h2, msg, size) := FreeHeapBlock h1 r n in
  let '(h3, msg3, size3) := FreeHeapBlock h2 r n in
  added = true ∧ Err.isError msg = false ∧ size = Mor.memSize r ∧
  GetHeapBlocks h2 (Mor.infoSrc r) = GetHeapBlocks h (Mor.infoSrc r) ∧
  Err.isError msg3 = true ∧ Err.type msg3 = ILLEGAL_FREE ∧ h3 = h2 ∧ size3 = n.
Proof.
  intros Ht Hfree. unfold AddHeapBlock, FreeHeapBlock.
  assert (Hadd : add_if_absent (GetHeapBlocks h (Mor.infoSrc r)) (Mor.dstAddr r) (of_record r) =
    <[Mor.dstAddr r := of_record r]> (GetHeapBlocks h (Mor.infoSrc r))).
  { unfold add_if_absent. by rewrite Hfree. }
  assert (Hdel : delete (Mor.dstAddr r) (<[Mor.dstAddr r := of_record r]>
    (GetHeapBlocks h (Mor.infoSrc r))) = GetHeapBlocks h (Mor.infoSrc r)).
  { by apply delete_insert_id. }
  destruct Ht as [-> | ->]; unfold AddRtDfxBlock; rewrite Hadd; unfold FreeRtDfxBlock;
    rewrite GetHeapBlocks_with, lookup_insert_eq, GetHeapBlocks_with,
      DeleteMstxInfo_GetHeapBlocks, GetHeapBlocks_with, Hdel, Hfree; done.
Qed.

Lemma malloc_free_roundtrip_witness :
  let r := Mor.set_infoSrc RT (Mor.set_dstAddr 4096 (Mor.set_memSize 64 Mor.zero)) in
  let '(h1, added) := AddHeapBlock empty_manager r in
  let '(h2, msg, size) := FreeHeapBlock h1 r 0 in
  let '(h3, msg3, size3) := FreeHeapBlock h2 r 0 in
  added = true ∧ Err.isError msg = false ∧ size = 64 ∧
  GetHeapBlocks h2 RT = GetHeapBlocks empty_manager RT ∧
  Err.isError msg3 = true ∧ Err.type msg3 = ILLEGAL_FREE ∧ h3 = h2 ∧ size3 = 0.
Proof.
  intros r. apply (malloc_free_roundtrip empty_manager r 0); [by left|reflexivity].
Defined.

(** Freeing device memory forgets at most one of the mstx heaps
    registered inside it: of two different heaps inside the freed block, one is
    still registered afterwards (the deletion loop returns at its first hit). *)
Theorem free_keeps_second_heap h r n k1 k2 b1 b2 :
  k1 ≠ k2 → mstxHeapBlocks_ h !! k1 = Some b1 → mstxHeapBlocks_ h !! k2 = Some b2 →
  let h' := (FreeRtDfxBlock h r n).1.1 in
  mstxHeapBlocks_ h' !! k1 = Some b1 ∨ mstxHeapBlocks_ h' !! k2 = Some b2.
Proof.
  intros Hne H1 H2. unfold FreeRtDfxBlock. destruct (GetHeapBlocks h (Mor.infoSrc r) !! Mor.dstAddr r) as [b|]; cbv zeta; cbn [fst]; [|by left].
  rewrite with_heapBlocks_mstx. unfold DeleteMstxInfo. case_match; [by left|].
  destruct (List.find _ _) as [[k c]|]; simpl; [|by left].
  destruct (decide (k = k1)) as [->|].
  - right. by rewrite lookup_delete_ne.
  - left. by rewrite lookup_delete_ne.
Qed.

Lemma free_keeps_second_heap_witness :
  let r := Mor.set_infoSrc RT (Mor.set_dstAddr 4096 (Mor.set_memSize 4096 Mor.zero)) in
  let a := Mor.set_infoSrc MSTX_HEAP (Mor.set_dstAddr 4096 (Mor.set_memSize 64 Mor.zero)) in
  let b := Mor.set_infoSrc MSTX_HEAP (Mor.set_dstAddr 6144 (Mor.set_memSize 64 Mor.zero)) in
  let h' := (FreeRtDfxBlock (hbm_run [OpAdd r; OpAdd a; OpAdd b]) r 0).1.1 in
  mstxHeapBlocks_ h' !! 4096 = Some (of_record a) ∨ mstxHeapBlocks_ h' !! 6144 = Some (of_record b).
Proof.
  intros r a b. apply (free_keeps_second_heap (hbm_run [OpAdd r; OpAdd a; OpAdd b]) r 0);
    [discriminate|reflexivity|reflexivity].
Defined.
End Hbm.
