(* ===== verification/ErrorBuffer.v ===== *)
(** Report reduction: [csrc/address_sanitizer/error_buffer.h],
    [error_buffer.cpp] and [ReducedErrorMsg] of [mem_error_def.h].

    Equal errors of different cores are merged into one report that carries the
    sets of cores. The hash set is modelled by the list of its elements; its
    iteration order is unspecified in C++ and no theorem depends on it. *)
From stdpp Require Import base numbers list option gmap strings sorting.
From S2P Require Import Prelude.
From S2P Require Import RecordDefs.

Module ErrBuf.

Record ReducedErrorMsg := {
  errorMsg : ErrorMsg;
  aivBlocks : gset Z;
  aicBlocks : gset Z;
  aicoreBlocks : gset Z;
}.

(** The elements of [errorSet_]. *)
Definition ErrorBuffer := list ReducedErrorMsg.

Definition serial_le (a b : ReducedErrorMsg) : Prop :=
  Aux.serialNo (Err.auxData (errorMsg a)) <= Aux.serialNo (Err.auxData (errorMsg b)).
#[export] Instance serial_le_dec : RelDecision serial_le.
Proof. intros a b. unfold serial_le. apply _. Defined.
#[export] Instance serial_le_total : Total serial_le.
Proof. intros a b. unfold serial_le. lia. Qed.
#[export] Instance serial_le_trans : Transitive serial_le.
Proof. intros a b c. unfold serial_le. lia. Qed.

(** [GetBuffer]: the elements sorted by serial number. *)
Definition GetBuffer (buf : ErrorBuffer) : list ReducedErrorMsg := merge_sort serial_le buf.

Definition Clear (_ : ErrorBuffer) : ErrorBuffer := [].

Definition HasBadByteSemantics (type : MemErrorType) : bool :=
  match type with ILLEGAL_FREE | INTERNAL_ERROR => false | _ => true end.

(** Insert the core of [e] into the block set its block type selects. *)
Definition add_block (e : ErrorMsg) (r : ReducedErrorMsg) : ReducedErrorMsg :=
  let core := u64 (Aux.coreId (Err.auxData e)) in
  match Aux.blockType (Err.auxData e) with
  | AIVEC => {| errorMsg := errorMsg r; aivBlocks := {[core]} ∪ aivBlocks r;
                aicBlocks := aicBlocks r; aicoreBlocks := aicoreBlocks r |}
  | AICUBE => {| errorMsg := errorMsg r; aivBlocks := aivBlocks r;
                 aicBlocks := {[core]} ∪ aicBlocks r; aicoreBlocks := aicoreBlocks r |}
  | AICORE => {| errorMsg := errorMsg r; aivBlocks := aivBlocks r;
                 aicBlocks := aicBlocks r; aicoreBlocks := {[core]} ∪ aicoreBlocks r |}
  end.

Definition new_entry (e : ErrorMsg) : ReducedErrorMsg :=
  add_block e {| errorMsg := e; aivBlocks := ∅; aicBlocks := ∅; aicoreBlocks := ∅ |}.

(** [find] in the set, then insert or extend the element found. *)
Fixpoint insert_or_extend (e : ErrorMsg) (buf : ErrorBuffer) : ErrorBuffer :=
  match buf with
  | [] => [new_entry e]
  | r :: buf' =>
      if Err.eqb (errorMsg r) e then add_block e r :: buf' else r :: insert_or_extend e buf'
  end.

Definition Add (buf : ErrorBuffer) (e : ErrorMsg) : ErrorBuffer :=
  if HasBadByteSemantics (Err.type e) && (Aux.nBadBytes (Err.auxData e) =? 0) then buf
  else insert_or_extend e buf.

(** *** Error equality *)

(** What [operator==] compares. *)
Definition err_key (e : ErrorMsg) :=
  let x := Err.auxData e in
  if Err.isError e then
    Some (Err.type e, Aux.badAddr x, Aux.nBadBytes x, Aux.space x, Aux.moduleId x, Aux.fileName x,
          Aux.lineNo x, Aux.pc x, Aux.isSimt x, Aux.displayThread x, Aux.threadLoc x)
  else None.

Lemma eqb_key a b : Err.eqb a b = true ↔ err_key a = err_key b.
Proof.
  unfold Err.eqb, err_key. destruct (Err.isError a), (Err.isError b); simpl; try done.
  rewrite !andb_true_iff, !bool_decide_eq_true, !Z.eqb_eq, !Bool.eqb_true_iff. split.
  - intros. destruct_and!. congruence.
  - intros. simplify_eq. split_and!; congruence.
Qed.

Lemma eqb_key_false a b : Err.eqb a b = false ↔ err_key a ≠ err_key b.
Proof. rewrite <- eqb_key. by destruct (Err.eqb a b). Qed.

(** *** Invariant and completeness *)

(** No two entries are equal errors. *)
Definition buf_ok (buf : ErrorBuffer) : Prop := NoDup ((λ r, err_key (errorMsg r)) <$> buf).

(** The set of cores an entry holds for a block type. *)
Definition blocks_of (t : BlockType) (r : ReducedErrorMsg) : gset Z :=
  match t with AIVEC => aivBlocks r | AICUBE => aicBlocks r | AICORE => aicoreBlocks r end.

(** Entry [r] reports error [e]: same key, and the core of [e] is listed. *)
Definition reports (r : ReducedErrorMsg) (e : ErrorMsg) : Prop :=
  err_key (errorMsg r) = err_key e ∧
  u64 (Aux.coreId (Err.auxData e)) ∈ blocks_of (Aux.blockType (Err.auxData e)) r.

Definition kept (e : ErrorMsg) : bool :=
  negb (HasBadByteSemantics (Err.type e) && (Aux.nBadBytes (Err.auxData e) =? 0)).

(** An error that must be reported: one that has bad bytes, or of a kind that
    does not count bytes. *)
Definition reportable (e : ErrorMsg) : Prop :=
  Err.type e = ILLEGAL_FREE ∨ Err.type e = INTERNAL_ERROR ∨ Aux.nBadBytes (Err.auxData e) ≠ 0.

Lemma kept_reportable e : kept e = true ↔ reportable e.
Proof.
  unfold kept, reportable. rewrite negb_true_iff, andb_false_iff, Z.eqb_neq.
  destruct (Err.type e); cbn; naive_solver.
Qed.

Lemma add_block_msg e r : errorMsg (add_block e r) = errorMsg r.
Proof. unfold add_block. by destruct (Aux.blockType _). Qed.

Lemma add_block_blocks e r t x :
  x ∈ blocks_of t (add_block e r) ↔
  x ∈ blocks_of t r ∨ (t = Aux.blockType (Err.auxData e) ∧ x = u64 (Aux.coreId (Err.auxData e))).
Proof.
  unfold add_block. destruct (Aux.blockType (Err.auxData e)), t; simpl; set_solver.
Qed.

Lemma insert_or_extend_keys e buf k :
  k ∈ (λ r, err_key (errorMsg r)) <$> insert_or_extend e buf ↔
  k = err_key e ∨ k ∈ (λ r, err_key (errorMsg r)) <$> buf.
Proof.
  induction buf as [|r buf IH]; simpl.
  - unfold new_entry. rewrite add_block_msg. set_solver.
  - destruct (Err.eqb (errorMsg r) e) eqn:E; simpl.
    + apply eqb_key in E. rewrite add_block_msg, E. set_solver.
    + rewrite !elem_of_cons, IH. naive_solver.
Qed.

Lemma insert_or_extend_ok e buf : buf_ok buf → buf_ok (insert_or_extend e buf).
Proof.
  unfold buf_ok. induction buf as [|r buf IH]; simpl; intros Hnd.
  - unfold new_entry. rewrite add_block_msg. apply NoDup_singleton.
  - apply NoDup_cons in Hnd as [Hr Hnd]. destruct (Err.eqb (errorMsg r) e) eqn:E; simpl.
    + rewrite add_block_msg. by apply NoDup_cons.
    + apply NoDup_cons. split; [|by apply IH].
      rewrite insert_or_extend_keys. apply eqb_key_false in E. naive_solver.
Qed.

Lemma insert_or_extend_reports e buf : ∃ r, r ∈ insert_or_extend e buf ∧ reports r e.
Proof.
  induction buf as [|r buf IH]; simpl.
  - exists (new_entry e). split; [set_solver|]. split; [by unfold new_entry; rewrite add_block_msg|].
    apply add_block_blocks. by right.
  - destruct (Err.eqb (errorMsg r) e) eqn:E.
    + exists (add_block e r). split; [set_solver|]. apply eqb_key in E.
      split; [by rewrite add_block_msg|]. apply add_block_blocks. by right.
    + destruct IH as (r' & ? & ?). exists r'. set_solver.
Qed.

Lemma insert_or_extend_keeps e buf r f :
  r ∈ buf → reports r f → ∃ r', r' ∈ insert_or_extend e buf ∧ reports r' f.
Proof.
  intros Hin [Hk Hc]. induction buf as [|q buf IH]; [set_solver|]. simpl.
  destruct (Err.eqb (errorMsg q) e) eqn:E.
  - apply elem_of_cons in Hin as [->|Hin].
    + exists (add_block e q). split; [set_solver|]. split; [by rewrite add_block_msg|].
      apply add_block_blocks. by left.
    + exists r. split; [set_solver|done].
  - apply elem_of_cons in Hin as [->|Hin].
    + exists q. split; [set_solver|done].
    + destruct (IH Hin) as (r' & ? & ?). exists r'. set_solver.
Qed.

Lemma insert_or_extend_sound e buf r t x :
  r ∈ insert_or_extend e buf → x ∈ blocks_of t r →
  (∃ q, q ∈ buf ∧ err_key (errorMsg q) = err_key (errorMsg r) ∧ x ∈ blocks_of t q) ∨
  (err_key (errorMsg r) = err_key e ∧ t = Aux.blockType (Err.auxData e) ∧
   x = u64 (Aux.coreId (Err.auxData e))).
Proof.
  induction buf as [|q buf IH]; simpl.
  - rewrite list_elem_of_singleton. intros ->. unfold new_entry.
    rewrite add_block_msg, add_block_blocks. intros [H|H]; [destruct t; set_solver|by right].
  - destruct (Err.eqb (errorMsg q) e) eqn:E; rewrite elem_of_cons; intros [->|Hin] Hx.
    + rewrite add_block_msg. apply add_block_blocks in Hx as [Hx|Hx].
      * left. exists q. split_and!; [set_solver|done|done].
      * right. by apply eqb_key in E.
    + left. exists r. split_and!; [set_solver|done|done].
    + left. exists q. split_and!; [set_solver|done|done].
    + destruct (IH Hin Hx) as [(q' & ? & ? & ?)|?]; [|by right].
      left. exists q'. split_and!; [set_solver|done|done].
Qed.

Definition add_all (es : list ErrorMsg) : ErrorBuffer := foldl Add [] es.

Lemma add_all_ok es : buf_ok (add_all es).
Proof.
  unfold add_all. assert (H : buf_ok []) by apply NoDup_nil_2. revert H. generalize ([] : ErrorBuffer).
  induction es as [|e es IH]; intros buf H; simpl; [done|]. apply IH. unfold Add.
  case_match; [done|by apply insert_or_extend_ok].
Qed.

Lemma Add_keeps e buf r f :
  r ∈ buf → reports r f → ∃ r', r' ∈ Add buf e ∧ reports r' f.
Proof. intros. unfold Add. case_match; [by exists r|by eapply insert_or_extend_keeps]. Qed.

Lemma foldl_Add_keeps es buf r f :
  r ∈ buf → reports r f → ∃ r', r' ∈ foldl Add buf es ∧ reports r' f.
Proof.
  revert buf r. induction es as [|e es IH]; intros buf r Hin Hr; simpl; [by exists r|].
  destruct (Add_keeps e buf r f Hin Hr) as (r' & ? & ?). by eapply IH.
Qed.

Lemma add_all_reports es e : e ∈ es → kept e = true → ∃ r, r ∈ add_all es ∧ reports r e.
Proof.
  unfold add_all, kept. generalize ([] : ErrorBuffer).
  induction es as [|f es IH]; intros buf Hin Hk; [set_solver|]. simpl.
  apply elem_of_cons in Hin as [->|Hin]; [|by apply IH].
  apply negb_true_iff in Hk. unfold Add at 2. rewrite Hk.
  destruct (insert_or_extend_reports f buf) as (r & ? & ?). by eapply foldl_Add_keeps.
Qed.

Lemma add_all_sound es r t x :
  r ∈ add_all es → x ∈ blocks_of t r →
  ∃ e, e ∈ es ∧ kept e = true ∧ err_key (errorMsg r) = err_key e ∧
       t = Aux.blockType (Err.auxData e) ∧ x = u64 (Aux.coreId (Err.auxData e)).
Proof.
  unfold add_all. revert r t x. induction es as [|e es IH] using rev_ind; intros r t x Hin Hx.
  { set_solver. }
  rewrite foldl_app in Hin. simpl in Hin. unfold Add in Hin at 1. case_match eqn:E.
  { destruct (IH r t x Hin Hx) as (f & ? & ?). exists f. set_solver. }
  destruct (insert_or_extend_sound _ _ _ _ _ Hin Hx) as [(q & Hq & Hk & Hxq)|(? & ? & ?)].
  - destruct (IH q t x Hq Hxq) as (f & ? & ? & ? & ? & ?). exists f.
    split_and!; [set_solver|done|congruence|done|done].
  - exists e. unfold kept. rewrite E. split_and!; [set_solver|done..].
Qed.

(** *** Property *)

(** C35: The reduced report is faithful: entries are pairwise different errors;
    every error added that has bad bytes, and every illegal free and internal
    error whatever its size, is reported with its core listed under its block
    type; every core listed comes from such an added error equal to the entry;
    and the printed order is by serial number. *)
Theorem error_buffer_faithful es :
  let out := GetBuffer (add_all es) in
  NoDup ((λ r, err_key (errorMsg r)) <$> out) ∧
  (∀ e, e ∈ es → reportable e → ∃ r, r ∈ out ∧ reports r e) ∧
  (∀ r t x, r ∈ out → x ∈ blocks_of t r →
     ∃ e, e ∈ es ∧ reportable e ∧ err_key (errorMsg r) = err_key e ∧
          t = Aux.blockType (Err.auxData e) ∧ x = u64 (Aux.coreId (Err.auxData e))) ∧
  StronglySorted serial_le out.
Proof.
  simpl. assert (Hp : GetBuffer (add_all es) ≡ₚ add_all es) by apply merge_sort_Permutation.
  split_and!.
  - rewrite Hp. apply add_all_ok.
  - intros e He Hk%kept_reportable. destruct (add_all_reports es e He Hk) as (r & ? & ?).
    exists r. by rewrite Hp.
  - intros r t x Hr Hx. rewrite Hp in Hr. setoid_rewrite <- kept_reportable. by apply add_all_sound.
  - apply StronglySorted_merge_sort; apply _.
Qed.
End ErrBuf.
