(* ===== verification/ShadowMemory.v ===== *)
(** Shadow memory: [csrc/address_sanitizer/shadow_memory.h],
    [shadow_memory.cpp].

    One shadow byte per byte of device memory: two status bits and, for global
    memory, six bits of owner core. [LoadNBytes] reports reads of uninitialised
    bytes, [StoreNBytes] marks bytes as written and reports cores that overwrite
    each other. Table accesses that C++ would leave undefined are [None]. *)
From stdpp Require Import base numbers list option gmap strings.
From S2P Require Import Prelude.
From S2P Require Import ShadowWord.
From S2P Require Import Pm.
From S2P Require Import GmPm.
From S2P Require Import ShadowMap.
From S2P Require Import RecordDefs.
From S2P Require Import Platform.
From S2P Require Import HeapBlockManager.
Import Range1D.

(** ** Tables behind one pointer type

    [GetMemMap] returns a [PM *]; the dynamic type is one of two classes. *)
Inductive memmap := LocalMap (pm : PM.PM) | GlobalMap (gm : GmPM.GmPM).

Section memmap.
Context `{!Securec}.

#[export] Instance memmap_map : ShadowMap memmap := {
  GetBits m a := match m with LocalMap pm => GetBits pm a | GlobalMap gm => GetBits gm a end;
  MapSet m a n b :=
    match m with
    | LocalMap pm => LocalMap <$> MapSet pm a n b
    | GlobalMap gm => GlobalMap <$> MapSet gm a n b
    end;
  MapUnifiedSizeAfter m b n a :=
    match m with
    | LocalMap pm => MapUnifiedSizeAfter pm b n a
    | GlobalMap gm => MapUnifiedSizeAfter gm b n a
    end;
  RangeHasStatus m a n s :=
    match m with LocalMap pm => RangeHasStatus pm a n s | GlobalMap gm => RangeHasStatus gm a n s end;
}.

#[export, refine] Instance memmap_laws : ShadowMapLaws memmap := {
  map_ok m := match m with LocalMap pm => map_ok pm | GlobalMap gm => map_ok gm end;
  readable m := match m with LocalMap pm => readable pm | GlobalMap gm => readable gm end;
  writable m := match m with LocalMap pm => writable pm | GlobalMap gm => writable gm end;
  scannable m a n :=
    match m with LocalMap pm => scannable pm a n | GlobalMap gm => scannable gm a n end;
}.
Proof.
  - intros [pm|gm] Hok; [by apply (readable_bound pm)|by apply (readable_bound gm)].
  - intros [pm|gm] a Hok Ha; [by apply (GetBits_law pm)|by apply (GetBits_law gm)].
  - intros [pm|gm] addr size bits Hok Hb Ha Hs Hw; cbn [MapSet memmap_map].
    + destruct (MapSet_law pm addr size bits) as (m' & -> & ?); try done. by exists (LocalMap m').
    + destruct (MapSet_law gm addr size bits) as (m' & -> & ?); try done. by exists (GlobalMap m').
  - intros [pm|gm] baseAddr size addr b Hok Hba Hs Hr Hg;
      [by apply (UnifiedSizeAfter_law pm)|by apply (UnifiedSizeAfter_law gm)].
  - intros [pm|gm] addr size status Hok Ha Hs Hr Hsc Hst;
      [by apply (RangeHasStatus_law pm)|by apply (RangeHasStatus_law gm)].
Defined.
End memmap.

Module Shm.
(** ** Shadow bytes *)

Inductive MemStatus := NOACCESS | UNDEFINED | DEFINED | ERROR.
#[export] Instance MemStatus_eq : EqDecision MemStatus. Proof. solve_decision. Defined.

Definition MemStatus_code (s : MemStatus) : Z :=
  match s with NOACCESS => 0 | UNDEFINED => 1 | DEFINED => 2 | ERROR => 3 end.

Definition VA_BITS_SHIFT : Z := 2.
Definition COREID_MASK : Z := 0xFC.
Definition DEFAULT_CORE_ID : Z := 63.
Definition GM_DEFAULT_VALUE : Z :=
  Z.lor (MemStatus_code UNDEFINED) (Z.shiftl DEFAULT_CORE_ID VA_BITS_SHIFT).
Definition CHIPMEM_DEFAULT_VALUE : Z :=
  Z.lor (MemStatus_code UNDEFINED) (Z.shiftl DEFAULT_CORE_ID VA_BITS_SHIFT).
Definition PRIVATE_DEFAULT_VALUE : Z :=
  Z.lor (MemStatus_code UNDEFINED) (Z.shiftl DEFAULT_CORE_ID VA_BITS_SHIFT).

Definition MakeByte (status : MemStatus) (coreId : Z) : Z :=
  Z.lor (Z.land (MemStatus_code status) STATUS_MASK)
        (Z.land (Z.shiftl coreId VA_BITS_SHIFT) COREID_MASK).

Definition GetMemStatus (byte : Z) : MemStatus :=
  match Z.land byte STATUS_MASK with
  | 0 => NOACCESS | 1 => UNDEFINED | 2 => DEFINED | _ => ERROR
  end.

Definition GetCoreId (byte : Z) : Z := Z.shiftr (Z.land byte COREID_MASK) VA_BITS_SHIFT.

Definition SetMemStatus (byte : Z) (status : MemStatus) : Z :=
  Z.lor (Z.land byte COREID_MASK) (Z.land (MemStatus_code status) STATUS_MASK).

Definition SetCoreId (byte coreId : Z) : Z :=
  Z.lor (Z.land byte STATUS_MASK) (Z.land (Z.shiftl coreId VA_BITS_SHIFT) COREID_MASK).

(** ** State *)

Record UnusedHeap := { bytesNotUse : Z; blockNum : Z }.

(** The record a shadow operation needs. *)
Record MemOpRecordForShadow := {
  dstSpace : AddressSpace; dstAddr : Z; memSize : Z; coreId : Z; serialNo : Z; mainScalarPc : Z;
  isSimt : bool;
}.

(** [MemOpRecordForShadow(memOpRecord)]: the core id is cut to eight bits. *)
Definition for_shadow (r : MemOpRecord) : MemOpRecordForShadow :=
  {| dstSpace := Mor.dstSpace r; dstAddr := Mor.dstAddr r; memSize := Mor.memSize r;
     coreId := u8 (Mor.coreId r); serialNo := Mor.serialNo r; mainScalarPc := Mor.mainScalarPc r;
     isSimt := Mor.isSimt r |}.

Record ShadowMemory := {
  l0a_ : option PM.PM; l0b_ : option PM.PM; l0c_ : option PM.PM; l1_ : option PM.PM;
  ub_ : option PM.PM; gm_ : GmPM.GmPM; private_ : option PM.PM;
  heapBlockManager_ : Hbm.HeapBlockManager; heapBlockManagerBypass_ : Hbm.HeapBlockManager;
  unusedHeap_ : UnusedHeap; chipInfo_ : ChipInfo; atomicEnabled_ : bool; deviceType_ : DeviceType;
}.

Section ops.
Context `{!Securec}.

(** [ShadowMemory()] *)
Definition new_ShadowMemory : ShadowMemory :=
  {| l0a_ := None; l0b_ := None; l0c_ := None; l1_ := None; ub_ := None;
     gm_ := GmPM.new_GmPM GM_DEFAULT_VALUE; private_ := None;
     heapBlockManager_ := Hbm.empty_manager; heapBlockManagerBypass_ := Hbm.empty_manager;
     unusedHeap_ := {| bytesNotUse := 0; blockNum := 0 |};
     chipInfo_ := {| aiCoreCnt := 0; l0aSize := 0; l0bSize := 0; l0cSize := 0; l1Size := 0;
                     ubSize := 0; ubBlockSize := 0; privateSize := 0; hbmSize := 0 |};
     atomicEnabled_ := false; deviceType_ := DEVICE_INVALID |}.

Definition IsReady (s : ShadowMemory) : bool :=
  bool_decide (is_Some (l0a_ s)) && bool_decide (is_Some (l0b_ s)) &&
  bool_decide (is_Some (l0c_ s)) && bool_decide (is_Some (l1_ s)) &&
  bool_decide (is_Some (ub_ s)) && bool_decide (is_Some (private_ s)).

Definition Init (s : ShadowMemory) (deviceType : DeviceType) (c : ChipInfo) : ShadowMemory * bool :=
  let s' :=
    {| l0a_ := Some (PM.new_PM (l0aSize c) CHIPMEM_DEFAULT_VALUE);
       l0b_ := Some (PM.new_PM (l0bSize c) CHIPMEM_DEFAULT_VALUE);
       l0c_ := Some (PM.new_PM (l0cSize c) CHIPMEM_DEFAULT_VALUE);
       l1_ := Some (PM.new_PM (l1Size c) CHIPMEM_DEFAULT_VALUE);
       ub_ := Some (PM.new_PM (ubSize c) CHIPMEM_DEFAULT_VALUE);
       gm_ := gm_ s;
       private_ := Some (PM.new_PM (privateSize c) PRIVATE_DEFAULT_VALUE);
       heapBlockManager_ := heapBlockManager_ s; heapBlockManagerBypass_ := heapBlockManagerBypass_ s;
       unusedHeap_ := unusedHeap_ s; chipInfo_ := c; atomicEnabled_ := atomicEnabled_ s;
       deviceType_ := deviceType |} in
  (s', IsReady s').

(** A null table here is a null dereference. *)
Definition ResetChipMemory (s : ShadowMemory) : option ShadowMemory :=
  l0a ← l0a_ s; l0b ← l0b_ s; l0c ← l0c_ s; l1 ← l1_ s; ub ← ub_ s;
  let reset pm := Some (PM.Reset pm CHIPMEM_DEFAULT_VALUE) in
  Some {| l0a_ := reset l0a; l0b_ := reset l0b; l0c_ := reset l0c; l1_ := reset l1; ub_ := reset ub;
          gm_ := gm_ s; private_ := private_ s;
          heapBlockManager_ := heapBlockManager_ s; heapBlockManagerBypass_ := heapBlockManagerBypass_ s;
          unusedHeap_ := unusedHeap_ s; chipInfo_ := chipInfo_ s; atomicEnabled_ := atomicEnabled_ s;
          deviceType_ := deviceType_ s |}.

Definition ResetPrivateMemory (s : ShadowMemory) : option ShadowMemory :=
  p ← private_ s;
  Some {| l0a_ := l0a_ s; l0b_ := l0b_ s; l0c_ := l0c_ s; l1_ := l1_ s; ub_ := ub_ s; gm_ := gm_ s;
          private_ := Some (PM.Reset p PRIVATE_DEFAULT_VALUE);
          heapBlockManager_ := heapBlockManager_ s; heapBlockManagerBypass_ := heapBlockManagerBypass_ s;
          unusedHeap_ := unusedHeap_ s; chipInfo_ := chipInfo_ s; atomicEnabled_ := atomicEnabled_ s;
          deviceType_ := deviceType_ s |}.

Definition SetAtomic (s : ShadowMemory) (enabled : bool) : ShadowMemory :=
  {| l0a_ := l0a_ s; l0b_ := l0b_ s; l0c_ := l0c_ s; l1_ := l1_ s; ub_ := ub_ s; gm_ := gm_ s;
     private_ := private_ s;
     heapBlockManager_ := heapBlockManager_ s; heapBlockManagerBypass_ := heapBlockManagerBypass_ s;
     unusedHeap_ := unusedHeap_ s; chipInfo_ := chipInfo_ s; atomicEnabled_ := enabled;
     deviceType_ := deviceType_ s |}.

Definition GetMemMap (s : ShadowMemory) (space : AddressSpace) : option memmap :=
  match space with
  | GM => Some (GlobalMap (gm_ s))
  | L0A => LocalMap <$> l0a_ s
  | L0B => LocalMap <$> l0b_ s
  | L0C => LocalMap <$> l0c_ s
  | L1 => LocalMap <$> l1_ s
  | UB => LocalMap <$> ub_ s
  | PRIVATE => LocalMap <$> private_ s
  | BT | FB | UNKNOWN => None
  end.

(** The state after the table behind the pointer was modified. *)
Definition put_map (s : ShadowMemory) (space : AddressSpace) (m : memmap) : ShadowMemory :=
  let local old := match m with LocalMap pm => Some pm | GlobalMap _ => old end in
  {| l0a_ := if bool_decide (space = L0A) then local (l0a_ s) else l0a_ s;
     l0b_ := if bool_decide (space = L0B) then local (l0b_ s) else l0b_ s;
     l0c_ := if bool_decide (space = L0C) then local (l0c_ s) else l0c_ s;
     l1_ := if bool_decide (space = L1) then local (l1_ s) else l1_ s;
     ub_ := if bool_decide (space = UB) then local (ub_ s) else ub_ s;
     private_ := if bool_decide (space = PRIVATE) then local (private_ s) else private_ s;
     gm_ := match m with GlobalMap gm => if bool_decide (space = GM) then gm else gm_ s
                       | LocalMap _ => gm_ s end;
     heapBlockManager_ := heapBlockManager_ s; heapBlockManagerBypass_ := heapBlockManagerBypass_ s;
     unusedHeap_ := unusedHeap_ s; chipInfo_ := chipInfo_ s; atomicEnabled_ := atomicEnabled_ s;
     deviceType_ := deviceType_ s |}.

Definition with_managers (s : ShadowMemory) (h b : Hbm.HeapBlockManager) (u : UnusedHeap)
    : ShadowMemory :=
  {| l0a_ := l0a_ s; l0b_ := l0b_ s; l0c_ := l0c_ s; l1_ := l1_ s; ub_ := ub_ s; gm_ := gm_ s;
     private_ := private_ s; heapBlockManager_ := h; heapBlockManagerBypass_ := b;
     unusedHeap_ := u; chipInfo_ := chipInfo_ s; atomicEnabled_ := atomicEnabled_ s;
     deviceType_ := deviceType_ s |}.

(** ** Heap blocks *)

Definition AddHeapBlock (s : ShadowMemory) (r : MemOpRecord) : ShadowMemory * bool :=
  match Mor.infoSrc r with
  | BYPASS =>
      let '(b, ok) := Hbm.AddHeapBlock (heapBlockManagerBypass_ s) r in
      (with_managers s (heapBlockManager_ s) b (unusedHeap_ s), ok)
  | _ =>
      let '(h, ok) := Hbm.AddHeapBlock (heapBlockManager_ s) r in
      (with_managers s h (heapBlockManagerBypass_ s) (unusedHeap_ s), ok)
  end.

Definition FreeHeapBlock (s : ShadowMemory) (r : MemOpRecord) (size : Z)
    : ShadowMemory * ErrorMsg * Z :=
  match Mor.infoSrc r with
  | BYPASS =>
      let '(b, msg, size) := Hbm.FreeHeapBlock (heapBlockManagerBypass_ s) r size in
      (with_managers s (heapBlockManager_ s) b (unusedHeap_ s), msg, size)
  | _ =>
      let '(h, msg, size) := Hbm.FreeHeapBlock (heapBlockManager_ s) r size in
      (with_managers s h (heapBlockManagerBypass_ s) (unusedHeap_ s), msg, size)
  end.

Definition DoLeakCheck (s : ShadowMemory) : ErrorMsgList := Hbm.DoLeakCheck (heapBlockManager_ s).
Definition GetHeapBlockSize (s : ShadowMemory) (r : MemOpRecord) : Z :=
  Hbm.GetHeapBlockSize (heapBlockManager_ s) r.
Definition GetHeapBlockBypassSize (s : ShadowMemory) (r : MemOpRecord) : Z :=
  Hbm.GetHeapBlockSize (heapBlockManagerBypass_ s) r.

(** ** Ranges and messages *)

Definition SkipSpace (space : AddressSpace) : bool := bool_decide (space = UNKNOWN).

(** [MEM_SIZE_MAP] and the global mask. *)
Definition max_size (s : ShadowMemory) (space : AddressSpace) : Z :=
  match space with
  | GM => GLOBAL_MEM_MASK
  | L1 => l1Size (chipInfo_ s)
  | L0A => l0aSize (chipInfo_ s)
  | L0B => l0bSize (chipInfo_ s)
  | L0C => l0cSize (chipInfo_ s)
  | UB => ubSize (chipInfo_ s)
  | PRIVATE => privateSize (chipInfo_ s)
  | BT | FB | UNKNOWN => 0
  end.

(** [ValidateRange]: the clipped address and size. *)
Definition ValidateRange (s : ShadowMemory) (space : AddressSpace) (addr size : Z) : Z * Z :=
  let maxSize := max_size s space in
  let addrR := if UINT64_MAX -u size <? addr then maxSize else Z.min maxSize (addr +u size) in
  let addr := Z.min maxSize addr in
  (addr, addrR -u addr).

Definition MakeBadBytesMsg (error : MemErrorType) (space : AddressSpace) (addr nbytes : Z)
    (isSimt : bool) (mainScalarPc : Z) (displayThread : bool) : ErrorMsg :=
  Err.upd_aux
    (λ a, Aux.set_threadLoc
            {| idX := idX (Aux.threadLoc a); idY := idY (Aux.threadLoc a);
               idZ := idZ (Aux.threadLoc a); mainScalarPc_ := mainScalarPc |}
            (Aux.set_displayThread displayThread
              (Aux.set_isSimt isSimt (Aux.set_nBadBytes nbytes a))))
    (Err.SetType error space addr Err.no_error).

(** ** Loads *)

(** Body of the counting loops of [LoadNBytes] and [CheckUnusedMem]. *)
Definition count_undefined (enabled : bool) (m : memmap) (r : Range1D) (bits acc : Z)
    : option (memmap * Z) :=
  Some (m, if enabled && bool_decide (GetMemStatus bits = UNDEFINED) then acc +u Size r else acc).

Definition LoadNBytes (s : ShadowMemory) (rec : MemOpRecordForShadow) (initCheck : bool)
    : option ErrorMsgList :=
  let space := dstSpace rec in
  if SkipSpace space then Some []
  else if initCheck && bool_decide (space = UB) && IsAscend95 (deviceType_ s) then Some []
  else
    let '(addr, size) := ValidateRange s space (dstAddr rec) (memSize rec) in
    match GetMemMap s space with
    | None => Some []
    | Some memmap =>
        has ← (if initCheck then RangeHasStatus memmap addr size (MemStatus_code UNDEFINED)
               else Some true);
        if negb has then Some []
        else
          '(_, nUninitializedReadBytes) ←
            run_unified (count_undefined initCheck) memmap {| addr_ := addr; size_ := size |} 0;
          Some (if 0 <? nUninitializedReadBytes then
                  [MakeBadBytesMsg UNINITIALIZED_READ space addr nUninitializedReadBytes
                     (isSimt rec) (mainScalarPc rec) false]
                else [])
    end.

(** ** Stores *)

(** Body of [StoreNBytesInRange]. *)
Definition store_body (space : AddressSpace) (core : Z) (atomicEnabled outOfBoundCheck : bool)
    (m : memmap) (unifiedRange : Range1D) (bits nBad : Z) : option (memmap * Z) :=
  if bool_decide (GetMemStatus bits = ERROR) then Some (m, nBad)
  else
    '(m, bits) ← (if bool_decide (GetMemStatus bits = UNDEFINED) then
                    let bits := SetMemStatus bits DEFINED in
                    m ← Range_Set m unifiedRange bits; Some (m, bits)
                  else Some (m, bits));
    if negb (bool_decide (space = GM)) then Some (m, nBad)
    else
      let id := GetCoreId bits in
      if core =? 0xFF then
        m ← Range_Set m unifiedRange (SetCoreId bits DEFAULT_CORE_ID); Some (m, nBad)
      else if id =? DEFAULT_CORE_ID then
        m ← Range_Set m unifiedRange (SetCoreId bits core); Some (m, nBad)
      else if negb (id =? core) then
        if atomicEnabled then Some (m, nBad)
        else if outOfBoundCheck then
          m ← Range_Set m unifiedRange (SetMemStatus bits ERROR);
          Some (m, nBad +u Size unifiedRange)
        else Some (m, nBad)
      else Some (m, nBad).

Definition StoreNBytesInRange (s : ShadowMemory) (m : memmap) (range : Range1D)
    (space : AddressSpace) (core : Z) (outOfBoundCheck : bool) : option (memmap * Z) :=
  run_unified (store_body space core (atomicEnabled_ s) outOfBoundCheck) m range 0.

Definition StoreNBytes (s : ShadowMemory) (rec : MemOpRecordForShadow) (memCheck outOfBoundCheck : bool)
    : option (ShadowMemory * ErrorMsgList) :=
  let space := dstSpace rec in
  if SkipSpace space then Some (s, [])
  else
    let '(addr, size) := ValidateRange s space (dstAddr rec) (memSize rec) in
    match GetMemMap s space with
    | None => Some (s, [])
    | Some memmap =>
        '(memmap, nBadBytesForOverlap) ←
          StoreNBytesInRange s memmap {| addr_ := addr; size_ := size |} space (coreId rec)
                             outOfBoundCheck;
        let s := put_map s space memmap in
        Some (s, if memCheck && (0 <? nBadBytesForOverlap) then
                   [MakeBadBytesMsg OUT_OF_BOUNDS space addr nBadBytesForOverlap
                      (isSimt rec) (mainScalarPc rec) false]
                 else [])
    end.

(** ** Range setting *)

Definition MakeMemUndefined (s : ShadowMemory) (addr size : Z) : option ShadowMemory :=
  let '(addr, size) := ValidateRange s GM addr size in
  match GetMemMap s GM with
  | None => Some s
  | Some m =>
      m ← Range_Set m {| addr_ := addr; size_ := size |} (MakeByte UNDEFINED DEFAULT_CORE_ID);
      Some (put_map s GM m)
  end.

Definition clear_body (m : memmap) (r : Range1D) (bits acc : Z) : option (memmap * Z) :=
  m ← Range_Set m r (SetCoreId bits DEFAULT_CORE_ID); Some (m, acc).

Definition ClearBlockId (s : ShadowMemory) (addr size : Z) : option ShadowMemory :=
  let '(addr, size) := ValidateRange s GM addr size in
  match GetMemMap s GM with
  | None => Some s
  | Some m =>
      '(m, _) ← run_unified clear_body m {| addr_ := addr; size_ := size |} 0;
      Some (put_map s GM m)
  end.

(** ** Unused memory *)

Definition CheckUnusedMem (s : ShadowMemory) (addr size : Z) : option (ShadowMemory * ErrorMsg) :=
  match GetMemMap s GM with
  | None => Some (s, Err.no_error)
  | Some m =>
      '(_, n) ← run_unified (count_undefined true) m {| addr_ := addr; size_ := size |} 0;
      Some (if 0 <? n then
        let u := unusedHeap_ s in
        let s := with_managers s (heapBlockManager_ s) (heapBlockManagerBypass_ s)
                   {| bytesNotUse := bytesNotUse u +u n; blockNum := blockNum u +u 1 |} in
        let msg := MakeBadBytesMsg MEM_UNUSED GM addr n false 0 true in
        (s, match Hbm.heapBlocks_ (heapBlockManager_ s) !! addr with
            | Some b => Err.upd_aux (Aux.set_lineNo (Hbm.lineNo b) ∘ Aux.set_fileName (Hbm.fileName b)) msg
            | None => msg
            end)
      else (s, Err.no_error))
  end.

Fixpoint check_unused_blocks (s : ShadowMemory) (blocks : list (Z * Hbm.HeapBlock))
    : option (ShadowMemory * ErrorMsgList) :=
  match blocks with
  | [] => Some (s, [])
  | (_, b) :: blocks' =>
      '(s, msg) ← CheckUnusedMem s (Hbm.addr b) (Hbm.len b);
      '(s, msgs) ← check_unused_blocks s blocks';
      Some (s, if Err.isError msg
               then Err.upd_aux (Aux.set_serialNo (Hbm.serialNo b)) msg :: msgs else msgs)
  end.

Definition CheckUnusedHeap (s : ShadowMemory) : option (ShadowMemory * ErrorMsgList) :=
  check_unused_blocks s (ordered (Hbm.heapBlocks_ (heapBlockManager_ s))).

Definition GetUnusedHeap (s : ShadowMemory) : UnusedHeap := unusedHeap_ s.
End ops.
End Shm.
