(* ===== verification/ShadowMemoryProofs.v ===== *)
(** Correctness of the shadow memory ([csrc/address_sanitizer/shadow_memory.cpp]).

    The abstract view of the component is [shadow_byte]: the shadow byte of each
    address of each space. The run-length loops are shown equal to bytewise
    reference functions on that view; the detection theorems follow. *)
From stdpp Require Import base numbers list option gmap strings.
From S2P Require Import Prelude.
From S2P Require Import ShadowWord.
From S2P Require Import Pm.
From S2P Require Import GmPm.
From S2P Require Import ShadowMap.
From S2P Require Import RecordDefs.
From S2P Require Import Platform.
From S2P Require Import HeapBlockManager.
From S2P Require Import ShadowMemory.
Import Range1D Shm.
#[local] Arguments Range_Set : simpl never.
#[local] Arguments GetBits : simpl never.
#[local] Arguments SetCoreId : simpl never.
#[local] Arguments SetMemStatus : simpl never.

(** ** Shadow bytes as (status, core) pairs *)

Lemma land3 b : Z.land b 3 = b `mod` 4.
Proof. apply (land_mask_mod b 2). done. Qed.

Lemma land252 b : Z.land b 0xFC = 4 * ((b / 4) `mod` 64).
Proof.
  change 4 with (2 ^ 2) at 1. rewrite Z.mul_comm, <- Z.shiftl_mul_pow2 by done.
  change 4 with (2 ^ 2). rewrite <- Z.shiftr_div_pow2 by done.
  change 64 with (2 ^ 6). rewrite <- (land_mask_mod _ 6) by done.
  change (2 ^ 6 - 1) with 63.
  apply Z.bits_inj'. intros n Hn. rewrite !Z.land_spec.
  change 0xFC with (Z.shiftl 63 2). rewrite !Z.shiftl_spec by done.
  destruct (Z.lt_ge_cases n 2).
  - rewrite !(Z.testbit_neg_r _ (n - 2)) by lia. by rewrite !andb_false_r.
  - rewrite Z.land_spec, Z.shiftr_spec by lia. by replace (n - 2 + 2) with n by lia.
Qed.

Lemma lor_low x y : 0 <= x < 4 → Z.lor x (4 * y) = x + 4 * y.
Proof.
  intros. rewrite <- Z.lxor_lor; [symmetry; apply Z.add_nocarry_lxor|].
  all: apply Z.bits_inj'; intros n Hn; rewrite Z.land_spec, Z.bits_0;
    change 4 with (2 ^ 2); rewrite (Z.mul_comm (2 ^ 2)), <- Z.shiftl_mul_pow2, Z.shiftl_spec by done;
    destruct (Z.lt_ge_cases n 2);
    [rewrite (Z.testbit_neg_r _ (n - 2)) by lia; apply andb_false_r|];
    rewrite <- (Z.mod_small x (2 ^ 2)), Z.mod_pow2_bits_high by lia; done.
Qed.

Lemma GetMemStatus_mod b :
  GetMemStatus b = match b `mod` 4 with 0 => NOACCESS | 1 => UNDEFINED | 2 => DEFINED | _ => ERROR end.
Proof. unfold GetMemStatus, STATUS_MASK. by rewrite land3. Qed.

Lemma GetCoreId_div b : GetCoreId b = (b / 4) `mod` 64.
Proof.
  unfold GetCoreId, COREID_MASK, VA_BITS_SHIFT. rewrite land252, Z.shiftr_div_pow2 by done.
  change (2 ^ 2) with 4. rewrite Z.mul_comm. by apply Z.div_mul.
Qed.

Lemma code_range s : 0 <= MemStatus_code s < 4.
Proof. by destruct s. Qed.

Lemma SetMemStatus_eq b s : SetMemStatus b s = MemStatus_code s + 4 * ((b / 4) `mod` 64).
Proof.
  pose proof (code_range s). unfold SetMemStatus, COREID_MASK, STATUS_MASK.
  rewrite land252, land3, (Z.mod_small (MemStatus_code s)), Z.lor_comm by done. by apply lor_low.
Qed.

Lemma shifted_core c : Z.land (Z.shiftl c VA_BITS_SHIFT) COREID_MASK = 4 * (c `mod` 64).
Proof.
  unfold COREID_MASK, VA_BITS_SHIFT. rewrite land252, Z.shiftl_mul_pow2 by done.
  change (2 ^ 2) with 4. by rewrite Z.div_mul.
Qed.

Lemma SetCoreId_eq b c : SetCoreId b c = b `mod` 4 + 4 * (c `mod` 64).
Proof.
  unfold SetCoreId, STATUS_MASK. rewrite shifted_core, land3. apply lor_low. zdiv.
Qed.

Lemma MakeByte_eq s c : MakeByte s c = MemStatus_code s + 4 * (c `mod` 64).
Proof.
  pose proof (code_range s). unfold MakeByte, STATUS_MASK.
  rewrite shifted_core, land3, (Z.mod_small (MemStatus_code s)) by done. by apply lor_low.
Qed.

Lemma status_of_code s k : GetMemStatus (MemStatus_code s + 4 * k) = s.
Proof.
  pose proof (code_range s). rewrite GetMemStatus_mod.
  replace ((MemStatus_code s + 4 * k) `mod` 4) with (MemStatus_code s) by zdiv. by destruct s.
Qed.

Lemma status_SetMemStatus b s : GetMemStatus (SetMemStatus b s) = s.
Proof. rewrite SetMemStatus_eq. apply status_of_code. Qed.

Lemma core_SetMemStatus b s : GetCoreId (SetMemStatus b s) = GetCoreId b.
Proof. pose proof (code_range s). rewrite !GetCoreId_div, SetMemStatus_eq. zdiv. Qed.

Lemma status_SetCoreId b c : GetMemStatus (SetCoreId b c) = GetMemStatus b.
Proof.
  rewrite !GetMemStatus_mod, SetCoreId_eq.
  by replace ((b `mod` 4 + 4 * (c `mod` 64)) `mod` 4) with (b `mod` 4) by zdiv.
Qed.

Lemma core_SetCoreId b c : GetCoreId (SetCoreId b c) = c `mod` 64.
Proof. rewrite GetCoreId_div, SetCoreId_eq. zdiv. Qed.

Lemma SetMemStatus_u8 b s : is_u8 (SetMemStatus b s).
Proof. pose proof (code_range s). rewrite SetMemStatus_eq. unfold is_u8. zdiv. Qed.

Lemma SetCoreId_u8 b c : is_u8 (SetCoreId b c).
Proof. rewrite SetCoreId_eq. unfold is_u8. zdiv. Qed.

Lemma undefined_iff b : GetMemStatus b = UNDEFINED ↔ Z.land b STATUS_MASK = MemStatus_code UNDEFINED.
Proof.
  unfold STATUS_MASK. rewrite GetMemStatus_mod, land3. simpl.
  assert (b `mod` 4 = 0 ∨ b `mod` 4 = 1 ∨ b `mod` 4 = 2 ∨ b `mod` 4 = 3) as Hb by zdiv.
  destruct Hb as [-> | [-> | [-> | ->] ] ]; done.
Qed.

#[export] Hint Resolve SetMemStatus_u8 SetCoreId_u8 : san.
#[export] Hint Rewrite status_SetMemStatus core_SetMemStatus status_SetCoreId core_SetCoreId : san.

(** ** Reference semantics of one byte *)

(** What a store does to one byte. *)
Definition store_byte (space : AddressSpace) (core : Z) (atomicEnabled outOfBoundCheck : bool) (b : Z) : Z :=
  match GetMemStatus b with
  | ERROR => b
  | st =>
      let b := if bool_decide (st = UNDEFINED) then SetMemStatus b DEFINED else b in
      if negb (bool_decide (space = GM)) then b
      else if core =? 0xFF then SetCoreId b DEFAULT_CORE_ID
      else if GetCoreId b =? DEFAULT_CORE_ID then SetCoreId b core
      else if (GetCoreId b =? core) || atomicEnabled || negb outOfBoundCheck then b
      else SetMemStatus b ERROR
  end.

(** Whether a store to the byte is an overlap between cores. *)
Definition store_bad (space : AddressSpace) (core : Z) (atomicEnabled outOfBoundCheck : bool) (b : Z) : Z :=
  if negb (bool_decide (GetMemStatus b = ERROR)) && bool_decide (space = GM) && negb (core =? 0xFF) &&
     negb (GetCoreId b =? DEFAULT_CORE_ID) && negb (GetCoreId b =? core) && negb atomicEnabled &&
     outOfBoundCheck
  then 1 else 0.

Definition undefined_byte (b : Z) : Z := if bool_decide (GetMemStatus b = UNDEFINED) then 1 else 0.

(** ** The loop bodies are uniform on a run *)

Section bodies.
Context `{!Securec}.

(** [m'] is [m] with the bytes of [r] set to [x]. *)
Definition set_to (m : memmap) (r : Range1D) (x : Z) (m' : memmap) : Prop :=
  map_ok m' ∧ readable m' = readable m ∧ writable m' = writable m ∧
  ∀ a, 0 <= a < readable m →
    GetBits m' a = if (addr_ r <=? a) && (a <? addr_ r + size_ r) then Some x else GetBits m a.

Lemma Range_Set_to m r x :
  map_ok m → 0 <= addr_ r → 0 <= size_ r → addr_ r + size_ r <= writable m → is_u8 x →
  ∃ m', Range_Set m r x = Some m' ∧ set_to m r x m'.
Proof.
  intros. destruct (MapSet_law m (addr_ r) (size_ r) x) as (m' & ? & ? & ? & ? & ?); try done.
  exists m'. done.
Qed.

Lemma set_to_trans m r x m1 y m2 : set_to m r x m1 → set_to m1 r y m2 → set_to m r y m2.
Proof.
  intros (Hok1 & Hr1 & Hw1 & Hg1) (Hok2 & Hr2 & Hw2 & Hg2).
  split_and!; [done|congruence|congruence|]. intros a Ha. rewrite Hg2, Hg1 by lia. by case_match.
Qed.

Lemma set_to_same m r x :
  map_ok m → (∀ a, addr_ r <= a < addr_ r + size_ r → GetBits m a = Some x) → set_to m r x m.
Proof.
  intros Hok Hall. split_and!; [done..|]. intros a Ha. case_match eqn:E; [|done].
  bool_prop. by rewrite Hall by lia.
Qed.

Lemma count_uniform (en : bool) :
  uniform_body (λ b : Z, b) (λ b : Z, if (en : bool) then undefined_byte b else 0) (count_undefined en).
Proof.
  intros m r bits acc Hok Ha Hs Hc Hb Hacc Hov Hall. unfold count_undefined, undefined_byte, Size.
  exists m. split.
  - destruct en; simpl; [|by rewrite Z.add_0_r]. case_bool_decide; [|by rewrite Z.add_0_r].
    u64_simpl. do 2 f_equal. lia.
  - by apply set_to_same.
Qed.

Lemma clear_uniform : uniform_body (λ b, SetCoreId b DEFAULT_CORE_ID) (λ _ : Z, 0) clear_body.
Proof.
  intros m r bits acc Hok Ha Hs Hc Hb Hacc Hov Hall. unfold clear_body.
  destruct (Range_Set_to m r (SetCoreId bits DEFAULT_CORE_ID)) as (m' & -> & Hset);
    try done; try lia; auto with san.
  exists m'. simpl. by rewrite Z.add_0_r.
Qed.

Lemma store_uniform space core (at_ oob : bool) :
  uniform_body (store_byte space core at_ oob) (store_bad space core at_ oob)
    (store_body space core at_ oob).
Proof.
  intros m r bits acc Hok Ha Hs Hc Hb Hacc Hov Hall. unfold store_body.
  destruct (decide (GetMemStatus bits = ERROR)) as [Herr|Herr].
  { exists m. rewrite bool_decide_true by done. unfold store_bad. rewrite bool_decide_true by done.
    simpl. rewrite Z.add_0_r. split; [done|].
    assert (store_byte space core at_ oob bits = bits) as ->
      by (unfold store_byte; rewrite Herr; done).
    by apply set_to_same. }
  rewrite bool_decide_false by done.
  set (bits1 := if bool_decide (GetMemStatus bits = UNDEFINED) then SetMemStatus bits DEFINED else bits).
  (* First step: undefined bytes become defined. *)
  assert (∃ m1, (if bool_decide (GetMemStatus bits = UNDEFINED) then
      m ← Range_Set m r (SetMemStatus bits DEFINED); Some (m, SetMemStatus bits DEFINED)
      else Some (m, bits)) = Some (m1, bits1) ∧ set_to m r bits1 m1 ∧ is_u8 bits1)
    as (m1 & -> & Hset1 & Hb1).
  { unfold bits1. case_bool_decide.
    - destruct (Range_Set_to m r (SetMemStatus bits DEFINED)) as (m1 & -> & Hs1);
        try done; try lia; auto with san. exists m1. simpl. split_and!; auto with san.
    - exists m. split_and!; [done| |done]. by apply set_to_same. }
  assert (Hcore : GetCoreId bits1 = GetCoreId bits).
  { unfold bits1. case_bool_decide; [apply core_SetMemStatus|done]. }
  assert (Hlim : readable m1 = readable m ∧ writable m1 = writable m ∧ map_ok m1) by (by destruct Hset1 as (? & ? & ? & ?)).
  destruct Hlim as (Hr1 & Hw1 & Hok1).
  (* Second step: at most one more write, with the byte the reference gives. *)
  assert (Hwrite : ∀ y, is_u8 y → ∃ m2, Range_Set m1 r y = Some m2 ∧ set_to m r y m2).
  { intros y Hy. destruct (Range_Set_to m1 r y) as (m2 & ? & Hs2); try done; try lia.
    exists m2. split; [done|]. by eapply set_to_trans. }
  assert (Hbyte : store_byte space core at_ oob bits =
    if negb (bool_decide (space = GM)) then bits1
    else if core =? 0xFF then SetCoreId bits1 DEFAULT_CORE_ID
    else if GetCoreId bits1 =? DEFAULT_CORE_ID then SetCoreId bits1 core
    else if (GetCoreId bits1 =? core) || at_ || negb oob then bits1 else SetMemStatus bits1 ERROR).
  { unfold store_byte, bits1. by destruct (GetMemStatus bits). }
  rewrite Hbyte. unfold store_bad. rewrite <- Hcore, (bool_decide_false (GetMemStatus bits = ERROR)) by done.
  simpl. destruct (bool_decide (space = GM)); simpl; [|exists m1; by rewrite Z.add_0_r].
  destruct (core =? 255); simpl.
  { destruct (Hwrite (SetCoreId bits1 DEFAULT_CORE_ID)) as (m2 & -> & ?); auto with san.
    exists m2. by rewrite Z.add_0_r. }
  destruct (GetCoreId bits1 =? DEFAULT_CORE_ID); simpl.
  { destruct (Hwrite (SetCoreId bits1 core)) as (m2 & -> & ?); auto with san.
    exists m2. by rewrite Z.add_0_r. }
  destruct (GetCoreId bits1 =? core); simpl; [exists m1; by rewrite Z.add_0_r|].
  destruct at_; simpl; [exists m1; by rewrite Z.add_0_r|].
  destruct oob; simpl; [|exists m1; by rewrite Z.add_0_r].
  destruct (Hwrite (SetMemStatus bits1 ERROR)) as (m2 & -> & ?); auto with san.
  exists m2. unfold Size. u64_simpl. rewrite Z.mul_1_l. done.
Qed.
End bodies.

(** ** State *)

Section state.
Context `{!Securec}.

(** The abstract view. *)
Definition shadow_byte (s : ShadowMemory) (space : AddressSpace) (a : Z) : option Z :=
  m ← GetMemMap s space; GetBits m a.

(** Spaces with a table. *)
Definition modelled (space : AddressSpace) : bool :=
  match space with BT | FB | UNKNOWN => false | _ => true end.

Definition local_ok (t : option PM.PM) (size : Z) : Prop :=
  ∃ pm, t = Some pm ∧ PM.pm_ok pm ∧ size <= PM.capacity pm <= 33554432.

(** All tables allocated and large enough for their chip memory. *)
Record shm_ok (s : ShadowMemory) : Prop := {
  sok_gm : GmPM.gm_ok (gm_ s);
  sok_chip : chip_fits (chipInfo_ s);
  sok_l0a : local_ok (l0a_ s) (l0aSize (chipInfo_ s));
  sok_l0b : local_ok (l0b_ s) (l0bSize (chipInfo_ s));
  sok_l0c : local_ok (l0c_ s) (l0cSize (chipInfo_ s));
  sok_l1 : local_ok (l1_ s) (l1Size (chipInfo_ s));
  sok_ub : local_ok (ub_ s) (ubSize (chipInfo_ s));
  sok_private : local_ok (private_ s) (privateSize (chipInfo_ s));
}.

Lemma new_local_ok size b : 0 <= size <= 16777216 → is_u8 b → local_ok (Some (PM.new_PM size b)) size.
Proof.
  intros. eexists. split; [done|]. split; [apply PM.new_PM_ok; [lia|done]|].
  pose proof (PM.new_PM_capacity size b). lia.
Qed.

Lemma chip_fits_all c :
  chip_fits c →
  (0 <= l0aSize c <= 16777216 ∧ 0 <= l0bSize c <= 16777216 ∧ 0 <= l0cSize c <= 16777216) ∧
  (0 <= l1Size c <= 16777216 ∧ 0 <= ubSize c <= 16777216 ∧ 0 <= privateSize c <= 16777216).
Proof. unfold chip_fits. rewrite !Forall_cons. naive_solver. Qed.

Lemma Init_ok s d c :
  GmPM.gm_ok (gm_ s) → chip_fits c → shm_ok (Init s d c).1 ∧ (Init s d c).2 = true.
Proof.
  intros Hgm Hc. destruct (chip_fits_all c Hc) as [(? & ? & ?) (? & ? & ?)].
  split; [|done]. split; simpl; try done; by apply new_local_ok.
Qed.

Lemma max_size_local s space :
  shm_ok s → space ≠ GM → 0 <= max_size s space <= 16777216.
Proof.
  intros Hok Hne. destruct (chip_fits_all _ (sok_chip _ Hok)) as [(? & ? & ?) (? & ? & ?)].
  destruct space; simpl; done || lia.
Qed.

(** ** Clipping *)

(** The clipped range is inside the space and has exactly the requested
    addresses that are. *)
Lemma ValidateRange_clip s space addr size :
  0 <= max_size s space < 2 ^ 48 → is_u64 addr → is_u64 size →
  ∃ a n, ValidateRange s space addr size = (a, n) ∧ 0 <= a ∧ 0 <= n ∧ a + n <= max_size s space ∧
    ∀ x, a <= x < a + n ↔ addr <= x < addr + size ∧ x < max_size s space.
Proof.
  intros Hm Ha Hs. unfold ValidateRange. unfold is_u64, UINT64_MAX in *. u64_simpl.
  eexists _, _. split; [done|]. case_cmp; u64_simpl; split_and!; try lia; intros x; lia.
Qed.

(** A clipped range the tables serve without loss: on-chip memory always, and
    global memory below its last slice. *)
Definition in_reach (space : AddressSpace) (a n : Z) : Prop :=
  space = GM → a + n <= 2 ^ 48 - 68719476735.

(** A clipped range on which the fast scan is exact. *)
Definition in_scan (space : AddressSpace) (a n : Z) : Prop :=
  space = GM → a + n <= 2 ^ 48 - 68719476735 ∧ a `mod` 68719476735 + n + 65535 < 2 ^ 36.

Lemma map_serves s space :
  shm_ok s → modelled space = true →
  ∃ m, GetMemMap s space = Some m ∧ map_ok m ∧
    ∀ a n, 0 <= a → 0 <= n → a + n <= max_size s space → in_reach space a n →
      a + n <= Z.min (readable m) (writable m) ∧ (in_scan space a n → scannable m a n).
Proof.
  intros Hok Hsp.
  assert (Hloc : ∀ t size, local_ok t size → 0 <= size <= 16777216 →
    ∃ m, LocalMap <$> t = Some m ∧ map_ok m ∧ ∀ a n, 0 <= a → 0 <= n → a + n <= size →
      a + n <= Z.min (readable m) (writable m) ∧ scannable m a n).
  { intros t size (pm & -> & Hpm & Hcap) Hsz. exists (LocalMap pm). split_and!; [done|done|].
    intros a n Ha Hn Hle. simpl. split; lia. }
  destruct (chip_fits_all _ (sok_chip _ Hok)) as [(? & ? & ?) (? & ? & ?)].
  destruct Hok. destruct space; try done;
    try (match goal with H : local_ok ?t ?n |- context [GetMemMap s ?sp] =>
      change (GetMemMap s sp) with (LocalMap <$> t);
      destruct (Hloc t n H) as (m & Hm & Hmok & Hlim); [done|];
      exists m; split_and!; [exact Hm|exact Hmok|]; intros a k Ha Hk Hle _;
      destruct (Hlim a k Ha Hk Hle); done end).
  exists (GlobalMap (gm_ s)). split_and!; [done|done|].
  intros a n Ha Hn Hle Hr. specialize (Hr eq_refl). unfold max_size, GLOBAL_MEM_MASK in Hle. simpl. split; [lia|].
  intros Hsc. destruct (Hsc eq_refl). split; [lia|done].
Qed.

(** ** Framing *)

Lemma GetMemMap_put s space m sp :
  modelled space = true → (space = GM ↔ ∃ gm, m = GlobalMap gm) →
  GetMemMap (put_map s space m) sp = if decide (sp = space) then Some m else GetMemMap s sp.
Proof.
  intros Hsp Hm. destruct m as [pm|gm].
  - assert (space ≠ GM) by (intros Hg; apply Hm in Hg as [? ?]; done).
    destruct space; try done; destruct sp; done.
  - assert (space = GM) as -> by (apply Hm; eauto). destruct sp; done.
Qed.

Lemma GetMemMap_kind s space m :
  modelled space = true → GetMemMap s space = Some m → space = GM ↔ ∃ gm, m = GlobalMap gm.
Proof.
  intros Hsp Hm. destruct space; simpl in *; try done;
    try (apply fmap_Some in Hm as (? & _ & ->); split; [done|by intros [? ?]]).
  simplify_eq. split; eauto.
Qed.

(** Operations on a table keep its class. *)
Definition same_kind (m m' : memmap) : Prop :=
  match m, m' with
  | LocalMap _, LocalMap _ | GlobalMap _, GlobalMap _ => True
  | _, _ => False
  end.

#[local] Instance same_kind_preorder : PreOrder same_kind.
Proof. split; [by intros []|by intros [] [] []]. Qed.

Lemma Range_Set_kind m r x m' : Range_Set m r x = Some m' → same_kind m m'.
Proof.
  unfold Range_Set. destruct m; simpl; intros (? & _ & ->)%fmap_Some; done.
Qed.

Lemma count_kind en m r b acc m' acc' :
  count_undefined en m r b acc = Some (m', acc') → same_kind m m'.
Proof. unfold count_undefined. intros. by simplify_eq. Qed.

Lemma clear_kind m r b acc m' acc' : clear_body m r b acc = Some (m', acc') → same_kind m m'.
Proof. unfold clear_body. intros (m1 & ? & ?)%bind_Some. simplify_eq. by eapply Range_Set_kind. Qed.

Lemma store_kind space core at_ oob m r b acc m' acc' :
  store_body space core at_ oob m r b acc = Some (m', acc') → same_kind m m'.
Proof.
  unfold store_body. case_match; [by intros; simplify_eq|].
  intros ([m1 b1] & Hfirst & Hrest)%bind_Some.
  assert (same_kind m m1) as Hk.
  { destruct (bool_decide (GetMemStatus b = UNDEFINED)); [|injection Hfirst as -> ->; reflexivity].
    simpl in Hfirst. apply bind_Some in Hfirst as (m2 & ? & ?).
    simplify_eq. by eapply Range_Set_kind. }
  transitivity m1; [done|]. clear Hk Hfirst.
  revert Hrest. repeat case_match; intros Hrest; simplify_eq; try done;
    apply bind_Some in Hrest as (m2 & ? & ?); simplify_eq; by eapply Range_Set_kind.
Qed.

(** Writing a table back keeps the invariant. *)
Lemma put_map_ok s space m m' :
  shm_ok s → GetMemMap s space = Some m → same_kind m m' → map_ok m' → readable m' = readable m →
  shm_ok (put_map s space m').
Proof.
  intros Hok Hm Hk Hok' Hr.
  assert (Hlocal : ∀ pm size, m = LocalMap pm → local_ok (Some pm) size →
    ∃ pm', m' = LocalMap pm' ∧ local_ok (Some pm') size).
  { intros pm size -> (q & [= <-] & Hpm & Hcap). destruct m' as [pm'|]; [|done].
    exists pm'. split; [done|]. exists pm'. split_and!; [done|done|..]; simpl in Hr; lia. }
  destruct Hok. destruct space; simpl in Hm; try done;
    try (apply fmap_Some in Hm as (pm & Ht & Hmp);
      match goal with H : local_ok ?t ?n |- _ =>
        match type of Ht with t = _ =>
          rewrite Ht in H; destruct (Hlocal pm n Hmp H) as (pm' & -> & Hl');
          split; simpl; try done; rewrite ?Ht; done end end).
  simplify_eq. destruct m' as [|gm']; [done|]. split; simpl; done.
Qed.

(** ** Exactness of the operations *)

(** Number of uninitialised bytes in a range. *)
Definition undefined_count (s : ShadowMemory) (space : AddressSpace) (a n : Z) : Z :=
  sum_range (λ x, undefined_byte (default 0 (shadow_byte s space x))) a (Z.to_nat n).

(** Number of bytes on which a store by [core] collides with another core. *)
Definition overlap_count (s : ShadowMemory) (space : AddressSpace) (core : Z) (oob : bool) (a n : Z) : Z :=
  sum_range (λ x, store_bad space core (atomicEnabled_ s) oob (default 0 (shadow_byte s space x)))
    a (Z.to_nat n).

Lemma undefined_byte_bounds b : 0 <= undefined_byte b <= 1.
Proof. unfold undefined_byte. by case_bool_decide. Qed.

Lemma store_bad_bounds space core at_ oob b : 0 <= store_bad space core at_ oob b <= 1.
Proof. unfold store_bad. by case_match. Qed.

Lemma shadow_byte_map s space m x : GetMemMap s space = Some m → shadow_byte s space x = GetBits m x.
Proof. intros Hm. unfold shadow_byte. by rewrite Hm. Qed.

Lemma LoadNBytes_spec s rec a n :
  shm_ok s → modelled (dstSpace rec) = true →
  (dstSpace rec = UB → IsAscend95 (deviceType_ s) = false) →
  is_u64 (dstAddr rec) → is_u64 (memSize rec) →
  ValidateRange s (dstSpace rec) (dstAddr rec) (memSize rec) = (a, n) →
  in_scan (dstSpace rec) a n →
  let c := undefined_count s (dstSpace rec) a n in
  LoadNBytes s rec true =
    Some (if 0 <? c then
            [MakeBadBytesMsg UNINITIALIZED_READ (dstSpace rec) a c (isSimt rec) (mainScalarPc rec) false]
          else []).
Proof.
  intros Hok Hsp Hub Ha Hs Hv Hsc c. unfold LoadNBytes.
  destruct (ValidateRange_clip s (dstSpace rec) (dstAddr rec) (memSize rec)) as (a' & n' & Hv' & Ha' & Hn' & Hle & _);
    [|done|done|].
  { destruct (decide (dstSpace rec = GM)) as [->|]; [done|].
    pose proof (max_size_local s _ Hok n0). lia. }
  rewrite Hv in Hv'. simplify_eq. rewrite Hv.
  destruct (map_serves s (dstSpace rec) Hok Hsp) as (m & Hm & Hmok & Hlim). rewrite Hm.
  destruct (Hlim a' n') as [Hcap Hscan]; try done.
  { intros He. by destruct (Hsc He). }
  specialize (Hscan Hsc).
  assert (SkipSpace (dstSpace rec) = false) as -> by (by destruct (dstSpace rec)).
  assert (bool_decide (dstSpace rec = UB) && IsAscend95 (deviceType_ s) = false) as Hub'.
  { case_bool_decide; [simpl; by apply Hub|done]. }
  rewrite andb_true_l, Hub'.
  destruct (RangeHasStatus_law m a' n' (MemStatus_code UNDEFINED)) as (hit & Hhit & Hiff);
    try done; try lia.
  rewrite Hhit. simpl.
  assert (Hc : c = sum_range (λ x, undefined_byte (byte_of m x)) a' (Z.to_nat n')).
  { apply sum_range_ext. intros x _. unfold byte_of. by rewrite (shadow_byte_map s _ m). }
  assert (Hpos : 0 < c ↔ hit = true).
  { rewrite Hiff, Hc, sum_range_pos by (intros; apply undefined_byte_bounds).
    rewrite Z2Nat.id by done. unfold undefined_byte, byte_of. split.
    - intros (x & Hx & Hpx). destruct (GetBits_law m x Hmok ltac:(lia)) as (b & Hb & _).
      exists x, b. rewrite Hb in Hpx. simpl in Hpx. case_bool_decide as Hst; [|lia].
      split_and!; [lia|lia|done|by apply undefined_iff].
    - intros (x & b & Hx & Hb & Hst). exists x. split; [lia|]. rewrite Hb. simpl.
      rewrite bool_decide_true by (by apply undefined_iff). lia. }
  destruct hit; simpl; last first.
  { case_cmp; [|done]. by apply Hpos in H0. }
  destruct (run_unified_spec _ _ _ (count_uniform true)) with (m := m) (range := {| addr_ := a'; size_ := n' |})
    as (m' & Hrun & _); try done.
  { apply undefined_byte_bounds. }
  rewrite Hrun. simpl. by rewrite <- Hc.
Qed.

(** What changing the bytes of one range of one space does to the state: the
    bytes of the range go through [f]; every other byte, the other tables and
    the heap records stay. *)
Record range_updated (s : ShadowMemory) (space : AddressSpace) (f : Z → Z) (a n : Z)
    (s' : ShadowMemory) : Prop := {
  ru_ok : shm_ok s';
  ru_bytes : ∀ x, 0 <= x < max_size s space →
    shadow_byte s' space x =
      if (a <=? x) && (x <? a + n) then f <$> shadow_byte s space x else shadow_byte s space x;
  ru_frame : ∀ sp x, sp ≠ space → shadow_byte s' sp x = shadow_byte s sp x;
  ru_chip : chipInfo_ s' = chipInfo_ s;
  ru_heap : heapBlockManager_ s' = heapBlockManager_ s;
  ru_bypass : heapBlockManagerBypass_ s' = heapBlockManagerBypass_ s;
  ru_atomic : atomicEnabled_ s' = atomicEnabled_ s;
  ru_device : deviceType_ s' = deviceType_ s;
}.

Lemma max_size_readable s space m :
  shm_ok s → GetMemMap s space = Some m → max_size s space <= readable m.
Proof.
  intros Hok Hm. destruct Hok. destruct space; simpl in *; try done;
    try (apply fmap_Some in Hm as (pm & Ht & ->);
      match goal with H : local_ok ?t _ |- _ =>
        match type of Ht with t = _ =>
          destruct H as (q & Hq & _ & ?); rewrite Ht in Hq; simplify_eq; simpl; lia end end).
  simplify_eq. unfold GLOBAL_MEM_MASK. simpl. lia.
Qed.

(** The table a loop leaves, written back. *)
Lemma put_map_updated s space m f a n m' :
  shm_ok s → modelled space = true → GetMemMap s space = Some m → same_kind m m' → map_ok m' →
  readable m' = readable m →
  (∀ x, 0 <= x < readable m →
    GetBits m' x = if (a <=? x) && (x <? a + n) then f <$> GetBits m x else GetBits m x) →
  range_updated s space f a n (put_map s space m').
Proof.
  intros Hok Hsp Hm Hk Hok' Hr Hg.
  pose proof (GetMemMap_kind s space m Hsp Hm) as Hkind.
  assert (Hkind' : space = GM ↔ ∃ gm, m' = GlobalMap gm).
  { rewrite Hkind. destruct m, m'; try done; split; intros [? ?]; eauto; done. }
  pose proof (max_size_readable s space m Hok Hm).
  split; try done.
  - by eapply put_map_ok.
  - intros x Hx. unfold shadow_byte. rewrite GetMemMap_put, decide_True, Hm by done. simpl.
    apply Hg. lia.
  - intros sp x Hne. unfold shadow_byte. by rewrite GetMemMap_put, decide_False.
Qed.

(** A uniform loop over a clipped range of one space. *)
Lemma run_unified_updated s space f w body a n :
  shm_ok s → modelled space = true → uniform_body f w body → (∀ b, 0 <= w b <= 1) →
  (∀ m r b acc m' acc', body m r b acc = Some (m', acc') → same_kind m m') →
  0 <= a → 0 <= n → a + n <= max_size s space → in_reach space a n →
  ∃ m m', GetMemMap s space = Some m ∧
    run_unified body m {| addr_ := a; size_ := n |} 0 =
      Some (m', sum_range (λ x, w (default 0 (shadow_byte s space x))) a (Z.to_nat n)) ∧
    range_updated s space f a n (put_map s space m').
Proof.
  intros Hok Hsp Hbody Hw Hk Ha Hn Hle Hre.
  destruct (map_serves s space Hok Hsp) as (m & Hm & Hmok & Hlim).
  destruct (Hlim a n Ha Hn Hle Hre) as [Hcap _].
  destruct (run_unified_spec f w body Hbody Hw m {| addr_ := a; size_ := n |})
    as (m' & Hrun & Hok' & Hr' & _ & Hg); try done.
  exists m, m'. split; [done|]. split.
  - rewrite Hrun. do 2 f_equal. simpl. apply sum_range_ext. intros x _. unfold byte_of.
    by rewrite (shadow_byte_map s space m).
  - eapply put_map_updated; try done. by eapply (run_unified_preserves same_kind).
Qed.

Lemma max_size_bound s space : shm_ok s → 0 <= max_size s space < 2 ^ 48.
Proof.
  intros Hok. destruct (decide (space = GM)) as [->|Hne]; [done|].
  pose proof (max_size_local s space Hok Hne). lia.
Qed.

Lemma StoreNBytes_spec s rec memCheck oob a n :
  shm_ok s → modelled (dstSpace rec) = true → is_u64 (dstAddr rec) → is_u64 (memSize rec) →
  ValidateRange s (dstSpace rec) (dstAddr rec) (memSize rec) = (a, n) →
  in_reach (dstSpace rec) a n →
  let c := overlap_count s (dstSpace rec) (coreId rec) oob a n in
  ∃ s', StoreNBytes s rec memCheck oob =
      Some (s', if memCheck && (0 <? c) then
            [MakeBadBytesMsg OUT_OF_BOUNDS (dstSpace rec) a c (isSimt rec) (mainScalarPc rec) false]
            else []) ∧
    range_updated s (dstSpace rec)
      (store_byte (dstSpace rec) (coreId rec) (atomicEnabled_ s) oob) a n s'.
Proof.
  intros Hok Hsp Ha Hs Hv Hre c. unfold StoreNBytes, StoreNBytesInRange.
  destruct (ValidateRange_clip s (dstSpace rec) (dstAddr rec) (memSize rec))
    as (a' & n' & Hv' & Ha' & Hn' & Hle & _); [by apply max_size_bound|done|done|].
  rewrite Hv in Hv'. simplify_eq. rewrite Hv.
  assert (SkipSpace (dstSpace rec) = false) as -> by (by destruct (dstSpace rec)).
  destruct (run_unified_updated s (dstSpace rec) _ _ _ a' n' Hok Hsp
    (store_uniform (dstSpace rec) (coreId rec) (atomicEnabled_ s) oob))
    as (m & m' & -> & -> & Hup); try done.
  { apply store_bad_bounds. }
  { intros. by eapply store_kind. }
  simpl. eauto.
Qed.
End state.
