(* ===== verification/ShadowTheorems.v ===== *)
(** What the shadow memory promises: [csrc/address_sanitizer/shadow_memory.cpp],
    [pm.cpp].

    The table classes against the flat map "address to shadow byte", loads and
    stores against their bytewise reference, and the places where the address
    arithmetic of the tables loses requests. *)
From stdpp Require Import base numbers list option gmap strings.
From S2P Require Import Prelude.
From S2P Require Import ShadowWord.
From S2P Require Import Pm.
From S2P Require Import GmPm.
From S2P Require Import ShadowMap.
From S2P Require Import RecordDefs.
From S2P Require Import Platform.
From S2P Require Import HeapBlockManager.
From S2P Require Import ShadowMemory.
From S2P Require Import ShadowMemoryProofs.
Import Range1D Shm.

(** ** The tables *)

Section tables.
Context `{!Securec}.

(** [PM::Set] on a well-formed table stores the byte at exactly the
    addresses of the request that the table models, leaves every other address
    alone, returns 0 ("no [memset_s] failed"), keeps the table well formed and
    never indexes a list out of bounds, whichever mix of whole-block, partial
    and shared-block updates the request needs. *)
Theorem pm_set_exact pm addr size bits :
  PM.pm_ok pm → is_u8 bits → 0 <= addr < 2 ^ 36 → 0 <= size < 2 ^ 36 →
  ∃ pm', PM.Set' pm addr size bits = Some (pm', 0) ∧ PM.pm_ok pm' ∧
    PM.capacity pm' = PM.capacity pm ∧
    ∀ a, 0 <= a < PM.capacity pm →
      PM.GetBits pm' a = if (addr <=? a) && (a <? addr + size) then Some bits else PM.GetBits pm a.
Proof.
  intros. destruct (PM.Set_spec pm addr size bits) as (pm' & ? & ? & Hn & ?); try done.
  exists pm'. unfold PM.capacity in *. by rewrite Hn.
Qed.

(** The run scan [PM::UnifiedSizeAfter] (four-word batches, words, bytes)
    terminates, stays in the request and in the 64 KB block of [addr], covers
    only bytes equal to the first one, and stops before that limit only at a
    different byte: it is the longest equal run. *)
Theorem pm_unified_size_maximal pm baseAddr size addr b :
  PM.pm_ok pm → 0 <= baseAddr <= addr → addr < baseAddr + size → addr < PM.capacity pm →
  baseAddr + size < 2 ^ 64 → PM.GetBits pm addr = Some b →
  let limit := Z.min (baseAddr + size - addr) (65536 - addr `mod` 65536) in
  ∃ n, PM.UnifiedSizeAfter pm baseAddr size addr = Some n ∧ 1 <= n <= limit ∧
    (∀ i, 0 <= i < n → PM.GetBits pm (addr + i) = Some b) ∧
    (n = limit ∨ PM.GetBits pm (addr + n) ≠ Some b).
Proof. apply PM.UnifiedSizeAfter_spec. Qed.

(** Away from the end of a 2^36-1 byte slice and below the last slice of
    the 48-bit space, [GmPM::RangeHasStatus] (SWAR words over lazily allocated
    blocks over lazily allocated slices) answers "yes" exactly when some byte of
    the range has the status. *)
Theorem gm_status_scan_exact gm addr size status :
  GmPM.gm_ok gm → 0 <= addr → 0 <= size → addr + size + 68719476734 < 2 ^ 48 →
  addr `mod` 68719476735 + size + 65535 < 2 ^ 36 → 0 <= status < 4 →
  ∃ hit, GmPM.RangeHasStatus gm addr size status = Some hit ∧
    (hit = true ↔ ∃ a b, addr <= a < addr + size ∧ GmPM.GetBits gm a = Some b ∧
                         Z.land b STATUS_MASK = status).
Proof. apply GmPM.gm_RangeHasStatus_spec. Qed.

(** [GmPM::Set] below the last slice writes exactly the requested bytes of
    the whole 48-bit space, splitting the request over the slices it allocates
    on demand. *)
Theorem gm_set_exact gm addr size bits :
  GmPM.gm_ok gm → is_u8 bits → 0 <= addr → 0 <= size → addr + size + 68719476734 < 2 ^ 48 →
  ∃ gm', GmPM.GmPM_Set gm addr size bits = Some gm' ∧ GmPM.gm_ok gm' ∧
    ∀ a, 0 <= a < 2 ^ 48 →
      GmPM.GetBits gm' a = if (addr <=? a) && (a <? addr + size) then Some bits else GmPM.GetBits gm a.
Proof.
  intros. destruct (GmPM.gm_Set_spec gm addr size bits) as (gm' & ? & ? & _ & ?); try done. by exists gm'.
Qed.

(** A write that ends in the last slice of the 48-bit space is dropped:
    the upper slice index wraps to zero, the loop never runs and [GmPM::Set]
    returns the table unchanged. *)
Theorem gm_set_drops_last_slice gm addr size bits :
  0 <= addr < 2 ^ 48 → 0 <= size → 2 ^ 48 <= addr + size + 68719476734 < 2 ^ 48 + 68719476735 →
  GmPM.GmPM_Set gm addr size bits = Some gm.
Proof. apply GmPM.Set_top. Qed.
End tables.

Lemma pm_set_exact_witness :
  ∃ pm', PM.Set' (H := securec_ref) (PM.new_PM 200000 5) 65000 70000 9 = Some (pm', 0) ∧
    PM.GetBits pm' 100000 = Some 9 ∧ PM.GetBits pm' 64999 = Some 5.
Proof.
  pose proof (PM.new_PM_ok 200000 5 ltac:(done) ltac:(done)) as Hok.
  destruct (pm_set_exact (H := securec_ref) (PM.new_PM 200000 5) 65000 70000 9)
    as (pm' & Hs & _ & _ & Hg); [done..|].
  exists pm'. split; [done|]. split; rewrite Hg by done; [done|].
  by apply PM.new_PM_GetBits.
Defined.

Lemma pm_unified_size_maximal_witness :
  ∃ n, PM.UnifiedSizeAfter (PM.new_PM 200000 5) 65000 70000 65100 = Some n ∧ 1 <= n <= 436.
Proof.
  pose proof (PM.new_PM_ok 200000 5 ltac:(done) ltac:(done)) as Hok.
  destruct (pm_unified_size_maximal (PM.new_PM 200000 5) 65000 70000 65100 5)
    as (n & Hn & Hl & _); [done..|by apply PM.new_PM_GetBits|].
  exists n. split; [done|]. exact Hl.
Defined.

Lemma gm_status_scan_exact_witness :
  ∃ hit, GmPM.RangeHasStatus (GmPM.new_GmPM 253) 4096 64 1 = Some hit ∧
    (hit = true ↔ ∃ a b, 4096 <= a < 4096 + 64 ∧ GmPM.GetBits (GmPM.new_GmPM 253) a = Some b ∧
                         Z.land b STATUS_MASK = 1).
Proof.
  apply (gm_status_scan_exact (GmPM.new_GmPM 253) 4096 64 1); try done. by apply GmPM.new_GmPM_ok.
Defined.

Lemma gm_set_exact_witness :
  ∃ gm', GmPM.GmPM_Set (H := securec_ref) (GmPM.new_GmPM 253) 68719476000 4096 7 = Some gm' ∧
    GmPM.GetBits gm' 68719477000 = Some 7.
Proof.
  destruct (gm_set_exact (H := securec_ref) (GmPM.new_GmPM 253) 68719476000 4096 7)
    as (gm' & Hs & _ & Hg); [by apply GmPM.new_GmPM_ok|done..|].
  exists gm'. split; [done|]. by rewrite Hg by lia.
Defined.

Lemma gm_set_drops_last_slice_witness :
  GmPM.GmPM_Set (H := securec_ref) (GmPM.new_GmPM 253) 281474976700000 8 7 = Some (GmPM.new_GmPM 253).
Proof. apply (gm_set_drops_last_slice (H := securec_ref)); lia. Defined.

(** ** Loads and stores *)

(** The clipped request of a record. *)
Definition request (s : ShadowMemory) (rec : MemOpRecordForShadow) : Z * Z :=
  ValidateRange s (dstSpace rec) (dstAddr rec) (memSize rec).

(** A request the tables serve: a space with a table, 64-bit fields, and for
    global memory an end below the last slice. *)
Record served (s : ShadowMemory) (rec : MemOpRecordForShadow) : Prop := {
  sv_space : modelled (dstSpace rec) = true;
  sv_addr : is_u64 (dstAddr rec);
  sv_size : is_u64 (memSize rec);
  sv_reach : in_reach (dstSpace rec) (request s rec).1 (request s rec).2;
}.

(** Additionally, the fast scan is exact on it. *)
Definition scanned (s : ShadowMemory) (rec : MemOpRecordForShadow) : Prop :=
  in_scan (dstSpace rec) (request s rec).1 (request s rec).2 ∧
  (dstSpace rec = UB → IsAscend95 (deviceType_ s) = false).

Section accesses.
Context `{!Securec}.

Lemma served_store s rec memCheck oob :
  shm_ok s → served s rec →
  let '(a, n) := request s rec in
  let c := overlap_count s (dstSpace rec) (coreId rec) oob a n in
  ∃ s', StoreNBytes s rec memCheck oob =
      Some (s', if memCheck && (0 <? c) then
            [MakeBadBytesMsg OUT_OF_BOUNDS (dstSpace rec) a c (isSimt rec) (mainScalarPc rec) false]
            else []) ∧
    range_updated s (dstSpace rec)
      (store_byte (dstSpace rec) (coreId rec) (atomicEnabled_ s) oob) a n s'.
Proof.
  intros Hok [Hsp Ha Hs Hre]. destruct (request s rec) as [a n] eqn:E. by apply StoreNBytes_spec.
Qed.

Lemma served_load s rec :
  shm_ok s → served s rec → scanned s rec →
  let '(a, n) := request s rec in
  let c := undefined_count s (dstSpace rec) a n in
  LoadNBytes s rec true =
    Some (if 0 <? c then
            [MakeBadBytesMsg UNINITIALIZED_READ (dstSpace rec) a c (isSimt rec) (mainScalarPc rec) false]
          else []).
Proof.
  intros Hok [Hsp Ha Hs Hre] [Hsc Hub]. destruct (request s rec) as [a n] eqn:E.
  by apply LoadNBytes_spec.
Qed.

Lemma request_bounds s rec a n :
  shm_ok s → is_u64 (dstAddr rec) → is_u64 (memSize rec) → request s rec = (a, n) →
  0 <= a ∧ 0 <= n ∧ a + n <= max_size s (dstSpace rec).
Proof.
  intros Hok Ha Hs E.
  destruct (ValidateRange_clip s (dstSpace rec) (dstAddr rec) (memSize rec))
    as (a' & n' & Hv & ? & ? & ? & _); [by apply max_size_bound|done|done|].
  unfold request in E. rewrite Hv in E. by simplify_eq.
Qed.

(** A byte that exists. *)
Lemma shadow_byte_total s space x :
  shm_ok s → modelled space = true → 0 <= x < max_size s space →
  ∃ b, shadow_byte s space x = Some b ∧ is_u8 b.
Proof.
  intros Hok Hsp Hx. destruct (map_serves s space Hok Hsp) as (m & Hm & Hmok & _).
  pose proof (max_size_readable s space m Hok Hm). rewrite (shadow_byte_map s space m) by done.
  apply GetBits_law; [done|lia].
Qed.

Lemma request_same_chip s s' rec : chipInfo_ s' = chipInfo_ s → request s' rec = request s rec.
Proof. intros Hc. unfold request, ValidateRange, max_size. by rewrite Hc. Qed.

Lemma store_byte_defined space core at_ oob b :
  GetMemStatus b ≠ NOACCESS → GetMemStatus (store_byte space core at_ oob b) ≠ UNDEFINED.
Proof.
  unfold store_byte. intros Hna. destruct (GetMemStatus b) eqn:E; try done; simpl;
    repeat case_match; autorewrite with san; rewrite ?E; done.
Qed.

Lemma store_byte_noaccess space core at_ oob b :
  GetMemStatus b = NOACCESS → GetMemStatus (store_byte space core at_ oob b) ≠ UNDEFINED.
Proof.
  unfold store_byte. intros E. rewrite E. simpl.
  repeat case_match; autorewrite with san; rewrite ?E; done.
Qed.

Lemma store_byte_not_undefined space core at_ oob b :
  undefined_byte (store_byte space core at_ oob b) = 0.
Proof.
  unfold undefined_byte. rewrite bool_decide_false; [done|].
  destruct (decide (GetMemStatus b = NOACCESS)); [by apply store_byte_noaccess|by apply store_byte_defined].
Qed.

Lemma stored_undefined_count s space core at_ oob a n s' :
  shm_ok s → modelled space = true → 0 <= a → 0 <= n → a + n <= max_size s space →
  range_updated s space (store_byte space core at_ oob) a n s' → undefined_count s' space a n = 0.
Proof.
  intros Hok Hsp Ha Hn Hle Hup. unfold undefined_count.
  rewrite (sum_range_const _ a (Z.to_nat n) 0); [done|]. intros x Hx.
  destruct (shadow_byte_total s space x) as (b & Hb & _); [done|done|lia|].
  rewrite (ru_bytes _ _ _ _ _ _ Hup) by lia. rewrite Hb. repeat case_cmp; try lia. simpl.
  apply store_byte_not_undefined.
Qed.

(** C8: a load reports exactly the uninitialised bytes: with the check on,
    [LoadNBytes] returns one [UNINITIALIZED_READ] message at the clipped address
    whose byte count is the number of UNDEFINED shadow bytes of the clipped
    range, and no message when there is none. The run-length loop and the word
    scan that precedes it are equivalent to looking at every byte. *)
Theorem load_reports_uninitialised s rec :
  shm_ok s → served s rec → scanned s rec →
  let '(a, n) := request s rec in
  let c := undefined_count s (dstSpace rec) a n in
  LoadNBytes s rec true =
    Some (if 0 <? c then
            [MakeBadBytesMsg UNINITIALIZED_READ (dstSpace rec) a c (isSimt rec) (mainScalarPc rec) false]
          else []).
Proof. apply served_load. Qed.

(** C9: a store is its bytewise reference: [StoreNBytes] returns a state in
    which every byte of the clipped range went through [store_byte] and every
    other byte of every space is unchanged, and reports the number of bytes
    owned by another core in one [OUT_OF_BOUNDS] message. *)
Theorem store_is_bytewise s rec memCheck oob :
  shm_ok s → served s rec →
  let '(a, n) := request s rec in
  let c := overlap_count s (dstSpace rec) (coreId rec) oob a n in
  ∃ s', StoreNBytes s rec memCheck oob =
      Some (s', if memCheck && (0 <? c) then
            [MakeBadBytesMsg OUT_OF_BOUNDS (dstSpace rec) a c (isSimt rec) (mainScalarPc rec) false]
            else []) ∧
    range_updated s (dstSpace rec)
      (store_byte (dstSpace rec) (coreId rec) (atomicEnabled_ s) oob) a n s'.
Proof. apply served_store. Qed.

(** Memory that was written is never reported as uninitialised: after a
    store, loading the same record reports nothing. *)
Theorem store_then_load_clean s rec memCheck oob :
  shm_ok s → served s rec → scanned s rec →
  ∃ s' msgs, StoreNBytes s rec memCheck oob = Some (s', msgs) ∧ LoadNBytes s' rec true = Some [].
Proof.
  intros Hok Hsv Hsc. pose proof (served_store s rec memCheck oob Hok Hsv) as Hst.
  destruct (request s rec) as [a n] eqn:E. destruct Hst as (s' & Hst & Hup).
  exists s'. eexists. split; [exact Hst|].
  destruct Hsv as [Hsp Ha Hs Hre]. destruct Hsc as [Hsc Hub].
  assert (E' : request s' rec = (a, n)) by (rewrite (request_same_chip s s'); [done|by apply Hup]).
  destruct (request_bounds s rec a n) as (Ha' & Hn' & Hle); [done..|].
  pose proof (served_load s' rec (ru_ok _ _ _ _ _ _ Hup)) as Hl. rewrite E' in Hl.
  rewrite Hl.
  - by rewrite (stored_undefined_count s (dstSpace rec) (coreId rec) (atomicEnabled_ s) oob a n s').
  - rewrite E in Hre. split; rewrite ?E'; done.
  - rewrite E in Hsc. split; rewrite ?E'; [done|]. by rewrite (ru_device _ _ _ _ _ _ Hup).
Qed.

(** *** Cores *)

(** A byte no core owns yet and that no overlap was reported on. *)
Definition unowned (b : Z) : Prop := GetMemStatus b ≠ ERROR ∧ GetCoreId b = DEFAULT_CORE_ID.

Lemma store_unowned core oob b :
  unowned b → core ≠ 0xFF →
  let b' := store_byte GM core false oob b in
  store_bad GM core false oob b = 0 ∧ GetMemStatus b' ≠ ERROR ∧ GetCoreId b' = core `mod` 64.
Proof.
  intros [Hst Hid] Hc. unfold store_bad, store_byte. rewrite Hid, Z.eqb_refl. simpl.
  rewrite !andb_false_r. destruct (Z.eqb_spec core 0xFF); [done|].
  destruct (GetMemStatus b) eqn:E; try done; simpl; autorewrite with san; rewrite ?Hid; simpl;
    autorewrite with san; rewrite ?E; done.
Qed.

Lemma store_bad_owned core b :
  GetMemStatus b ≠ ERROR → core ≠ 0xFF → GetCoreId b ≠ DEFAULT_CORE_ID →
  store_bad GM core false true b = if GetCoreId b =? core then 0 else 1.
Proof.
  intros Hst Hc Hid. unfold store_bad. rewrite bool_decide_false, bool_decide_true by done.
  destruct (Z.eqb_spec core 0xFF); [done|]. destruct (Z.eqb_spec (GetCoreId b) DEFAULT_CORE_ID); [done|].
  simpl. by destruct (GetCoreId b =? core).
Qed.

Lemma overlap_const s core a n c :
  0 <= n → atomicEnabled_ s = false →
  (∀ x, a <= x < a + n → store_bad GM core false true (default 0 (shadow_byte s GM x)) = c) →
  overlap_count s GM core true a n = c * n.
Proof.
  intros Hn Hat Hall. unfold overlap_count. rewrite Hat.
  rewrite (sum_range_const _ a (Z.to_nat n) c), Z2Nat.id by (try done; intros; apply Hall; lia). done.
Qed.

(** Two stores to the same unowned bytes: the first is silent, the second
    collides on every byte exactly when the owner field read back differs from
    its core. *)
Lemma two_stores s rec core2 memCheck a n :
  shm_ok s → served s rec → dstSpace rec = GM → atomicEnabled_ s = false → request s rec = (a, n) →
  (∀ x, a <= x < a + n → ∃ b, shadow_byte s GM x = Some b ∧ unowned b) →
  coreId rec ≠ 0xFF → core2 ≠ 0xFF → coreId rec `mod` 64 ≠ DEFAULT_CORE_ID →
  ∃ s1, StoreNBytes s rec memCheck true = Some (s1, []) ∧ shm_ok s1 ∧ atomicEnabled_ s1 = false ∧
    request s1 rec = (a, n) ∧
    overlap_count s1 GM core2 true a n = if coreId rec `mod` 64 =? core2 then 0 else n.
Proof.
  intros Hok Hsv HGM Hat E Hun Hc1 Hc2 Hmod. pose proof (served_store s rec memCheck true Hok Hsv) as Hst.
  rewrite E, HGM in Hst. destruct Hst as (s1 & Hst & Hup). rewrite Hat in Hup.
  destruct (request_bounds s rec a n) as (Ha' & Hn' & Hle); [done|apply Hsv..|done|]. rewrite HGM in Hle.
  exists s1. split_and!; [|apply Hup|by rewrite (ru_atomic _ _ _ _ _ _ Hup)| |].
  - rewrite Hst. rewrite (overlap_const s (coreId rec) a n 0); [by rewrite andb_false_r|done|done|].
    intros x Hx. destruct (Hun x Hx) as (b & -> & Hb). by apply store_unowned.
  - by rewrite (request_same_chip s s1) by apply Hup.
  - rewrite (overlap_const s1 core2 a n (if coreId rec `mod` 64 =? core2 then 0 else 1)).
    + destruct (coreId rec `mod` 64 =? core2); lia.
    + done.
    + by rewrite (ru_atomic _ _ _ _ _ _ Hup).
    + intros x Hx. destruct (Hun x Hx) as (b & Hb & Hub).
      rewrite (ru_bytes _ _ _ _ _ _ Hup) by lia. rewrite Hb.
      rewrite (proj2 (Z.leb_le a x)), (proj2 (Z.ltb_lt x (a + n))) by lia. simpl.
      destruct (store_unowned (coreId rec) true b) as (_ & Hs1 & Hid); try done.
      rewrite store_bad_owned by (first [exact Hs1|exact Hc2|by rewrite Hid]). by rewrite Hid.
Qed.

(** Overwriting another core's data is reported, and rewriting one's own is
    not: for cores 0 to 62, on global bytes nobody owns, a store by one core is
    silent and a following store of the same record by another core reports
    every byte of the range exactly when the two cores differ. *)
Theorem core_overwrite_reported s rec core2 a n :
  shm_ok s → served s rec → dstSpace rec = GM → atomicEnabled_ s = false → request s rec = (a, n) →
  (∀ x, a <= x < a + n → ∃ b, shadow_byte s GM x = Some b ∧ unowned b) →
  0 <= coreId rec < 63 → 0 <= core2 < 63 →
  ∃ s1, StoreNBytes s rec true true = Some (s1, []) ∧
    overlap_count s1 GM core2 true a n = if coreId rec =? core2 then 0 else n.
Proof.
  intros. destruct (two_stores s rec core2 true a n) as (s1 & Hst & _ & _ & _ & Hov); try done; try lia.
  { rewrite Z.mod_small by lia. unfold DEFAULT_CORE_ID. lia. }
  exists s1. split; [done|]. by rewrite Z.mod_small in Hov by lia.
Qed.

(** A core whose id does not fit the six-bit owner field collides with
    itself: for ids 64 to 254 not congruent to 63, storing the same record
    twice reports every byte of the second store. *)
Theorem big_core_collides_with_itself s rec a n :
  shm_ok s → served s rec → dstSpace rec = GM → atomicEnabled_ s = false → request s rec = (a, n) →
  (∀ x, a <= x < a + n → ∃ b, shadow_byte s GM x = Some b ∧ unowned b) →
  64 <= coreId rec < 0xFF → coreId rec `mod` 64 ≠ DEFAULT_CORE_ID → 0 < n →
  ∃ s1 s2, StoreNBytes s rec true true = Some (s1, []) ∧
    StoreNBytes s1 rec true true =
      Some (s2, [MakeBadBytesMsg OUT_OF_BOUNDS GM a n (isSimt rec) (mainScalarPc rec) false]).
Proof.
  intros Hok Hsv HGM Hat E Hun Hc Hmod Hn.
  destruct (two_stores s rec (coreId rec) true a n) as (s1 & Hst & Hok1 & Hat1 & E1 & Hov); try done; try lia.
  assert (served s1 rec) as Hsv1.
  { destruct Hsv as [? ? ? Hre]. split; [done..|]. by rewrite E1, <- E. }
  pose proof (served_store s1 rec true true Hok1 Hsv1) as Hs2. rewrite E1, HGM in Hs2.
  destruct Hs2 as (s2 & Hs2 & _). exists s1, s2. split; [done|].
  assert (coreId rec `mod` 64 ≠ coreId rec) by zdiv.
  rewrite Hs2, Hov, (proj2 (Z.eqb_neq (coreId rec `mod` 64) (coreId rec))) by done.
  simpl. by rewrite (proj2 (Z.ltb_lt 0 n)).
Qed.

(** *** Setting ranges of global memory *)

(** [MakeMemUndefined] and [ClearBlockId] clip like an access to [GM]. *)
Definition gm_request (s : ShadowMemory) (addr size : Z) : Z * Z := ValidateRange s GM addr size.

Lemma gm_request_bounds s addr size a n :
  shm_ok s → is_u64 addr → is_u64 size → gm_request s addr size = (a, n) →
  0 <= a ∧ 0 <= n ∧ a + n <= max_size s GM.
Proof.
  intros Hok Ha Hs E. destruct (ValidateRange_clip s GM addr size)
    as (a' & n' & Hv & ? & ? & ? & _); [by apply max_size_bound|done|done|].
  unfold gm_request in E. rewrite Hv in E. by simplify_eq.
Qed.

Lemma MakeMemUndefined_spec s addr size a n :
  shm_ok s → is_u64 addr → is_u64 size → gm_request s addr size = (a, n) → in_reach GM a n →
  ∃ s', MakeMemUndefined s addr size = Some s' ∧
    range_updated s GM (λ _, MakeByte UNDEFINED DEFAULT_CORE_ID) a n s'.
Proof.
  intros Hok Ha Hs E Hre. unfold MakeMemUndefined.
  change (ValidateRange s GM addr size) with (gm_request s addr size). rewrite E.
  destruct (gm_request_bounds s addr size a n) as (? & ? & Hle); [done..|].
  destruct (map_serves s GM Hok eq_refl) as (m & Hm & Hmok & Hlim). rewrite Hm.
  destruct (Hlim a n) as [Hcap _]; [done..|].
  destruct (Range_Set_to m {| addr_ := a; size_ := n |} (MakeByte UNDEFINED DEFAULT_CORE_ID))
    as (m' & Hset & Hok' & Hr & _ & Hg); cbn [addr_ size_]; try done; try lia.
  rewrite Hset. simpl. eexists. split; [done|]. eapply put_map_updated; try done.
  - by eapply Range_Set_kind.
  - intros x Hx. rewrite Hg by done. destruct (GetBits_law m x Hmok Hx) as (b & -> & _). done.
Qed.

Lemma ClearBlockId_spec s addr size a n :
  shm_ok s → is_u64 addr → is_u64 size → gm_request s addr size = (a, n) → in_reach GM a n →
  ∃ s', ClearBlockId s addr size = Some s' ∧
    range_updated s GM (λ b, SetCoreId b DEFAULT_CORE_ID) a n s'.
Proof.
  intros Hok Ha Hs E Hre. unfold ClearBlockId.
  change (ValidateRange s GM addr size) with (gm_request s addr size). rewrite E.
  destruct (gm_request_bounds s addr size a n) as (? & ? & Hle); [done..|].
  destruct (run_unified_updated s GM _ _ _ a n Hok eq_refl clear_uniform) as (m & m' & -> & -> & Hup);
    try done.
  { intros. by eapply clear_kind. }
  simpl. eauto.
Qed.

(** After an allocation is marked ([MakeMemUndefined]), a load of any
    record whose clipped range is the marked one reports every byte of it; after
    [ClearBlockId] no core owns a byte of the range, its status bits are kept,
    and neither operation touches anything outside the range. *)
Theorem marking_exact s addr size a n :
  shm_ok s → is_u64 addr → is_u64 size → gm_request s addr size = (a, n) → in_reach GM a n →
  (∃ s', MakeMemUndefined s addr size = Some s' ∧
     range_updated s GM (λ _, MakeByte UNDEFINED DEFAULT_CORE_ID) a n s' ∧
     undefined_count s' GM a n = n) ∧
  (∃ s', ClearBlockId s addr size = Some s' ∧
     range_updated s GM (λ b, SetCoreId b DEFAULT_CORE_ID) a n s' ∧
     ∀ core oob, overlap_count s' GM core oob a n = 0).
Proof.
  intros Hok Ha Hs E Hre. destruct (gm_request_bounds s addr size a n) as (? & ? & Hle); [done..|].
  assert (Hin : ∀ x, a <= x < a + n → (a <=? x) && (x <? a + n) = true)
    by (intros; apply andb_true_intro; lia).
  split.
  - destruct (MakeMemUndefined_spec s addr size a n) as (s' & Hs' & Hup); [done..|].
    exists s'. split_and!; [done..|]. unfold undefined_count.
    rewrite (sum_range_const _ a (Z.to_nat n) 1), Z2Nat.id; [lia|done|].
    intros x Hx. destruct (shadow_byte_total s GM x) as (b & Hb & _); [done|done|lia|].
    rewrite (ru_bytes _ _ _ _ _ _ Hup) by lia. by rewrite Hb, Hin by lia.
  - destruct (ClearBlockId_spec s addr size a n) as (s' & Hs' & Hup); [done..|].
    exists s'. split_and!; [done..|]. intros core oob. unfold overlap_count.
    rewrite (sum_range_const _ a (Z.to_nat n) 0); [done|].
    intros x Hx. destruct (shadow_byte_total s GM x) as (b & Hb & _); [done|done|lia|].
    rewrite (ru_bytes _ _ _ _ _ _ Hup) by lia. rewrite Hb, Hin by lia.
    unfold store_bad. simpl. autorewrite with san. by rewrite !andb_false_r.
Qed.

(** *** The end of a slice *)

(** C40: an uninitialised read in the last 64 KB of a 2^36-1 byte slice that
    has a table is missed: the block index of [PM::RangeHasStatus] wraps, the
    scan answers "no undefined byte" and [LoadNBytes] reports nothing, however
    many bytes of the range are undefined. *)
Theorem load_misses_slice_end s rec a n pm :
  shm_ok s → dstSpace rec = GM → request s rec = (a, n) → 0 <= a → 0 < n →
  a + n + 68719476734 < 2 ^ 48 → GmPM.QueryPM (gm_ s) a = Some pm →
  a `mod` 68719476735 + n <= 68719476735 → 2 ^ 36 <= a `mod` 68719476735 + n + 65535 →
  LoadNBytes s rec true = Some [].
Proof.
  intros Hok HGM E Ha Hn Htop Hq Hin Hend. unfold LoadNBytes. rewrite HGM.
  change (ValidateRange s GM (dstAddr rec) (memSize rec)) with (gm_request s (dstAddr rec) (memSize rec)).
  unfold request in E. rewrite HGM in E. unfold gm_request. rewrite E. simpl.
  assert (Haddr : 0 <= a < 2 ^ 48) by lia. pose proof (GmPM.slice_bounds a Haddr).
  assert (GmPM.RangeHasStatus (gm_ s) a n 1 = Some false) as ->; [|done].
  unfold GmPM.RangeHasStatus. case_cmp; [done|]. unfold GmPM.blockSize_, LOCAL_MEM_MASK. u64_simpl.
  rewrite !GmPM.gm_GetBlockIdx_small, GmPM.gm_GetBlockOffset_small by lia.
  replace (Z.to_nat _) with 1%nat by zdiv. simpl. unfold GmPM.blockSize_, LOCAL_MEM_MASK. u64_simpl.
  rewrite Z.min_l by lia.
  pose proof (sok_gm _ Hok) as Hgm. rewrite GmPM.QueryPM_eq in Hq by done.
  rewrite GmPM.QueryPM_eq by (done || zdiv). rewrite Z.div_mul, Hq by done. simpl.
  rewrite PM.RangeHasStatus_top by lia. simpl. by case_match.
Qed.

(** *** Unused heap memory *)

(** The block, when some byte of it was never written: address and count. *)
Definition unused_report (s : ShadowMemory) (kb : Z * Hbm.HeapBlock) : option (Z * Z) :=
  let c := undefined_count s GM (Hbm.addr kb.2) (Hbm.len kb.2) in
  if 0 <? c then Some (Hbm.addr kb.2, c) else None.

Definition msg_report (m : ErrorMsg) : MemErrorType * Z * Z :=
  (Err.type m, Aux.badAddr (Err.auxData m), Aux.nBadBytes (Err.auxData m)).

Definition block_in_reach (b : Hbm.HeapBlock) : Prop :=
  0 <= Hbm.addr b ∧ 0 <= Hbm.len b ∧ Hbm.addr b + Hbm.len b <= 2 ^ 48 - 68719476735.

(** Only the statistics differ. *)
Definition same_memory (s s' : ShadowMemory) : Prop :=
  s' = with_managers s (heapBlockManager_ s) (heapBlockManagerBypass_ s) (unusedHeap_ s').

Lemma same_memory_ok s s' : same_memory s s' → shm_ok s → shm_ok s'.
Proof. intros -> []. by split. Qed.

Lemma same_memory_trans s1 s2 s3 : same_memory s1 s2 → same_memory s2 s3 → same_memory s1 s3.
Proof. intros -> ->. done. Qed.

Lemma same_memory_count s s' a n : same_memory s s' → undefined_count s' GM a n = undefined_count s GM a n.
Proof. by intros ->. Qed.

Lemma CheckUnusedMem_spec s b :
  shm_ok s → block_in_reach b →
  ∃ s' msg, CheckUnusedMem s (Hbm.addr b) (Hbm.len b) = Some (s', msg) ∧ same_memory s s' ∧
    match unused_report s (0, b) with
    | Some (a, c) => Err.isError msg = true ∧ msg_report msg = (MEM_UNUSED, a, c) ∧
        unusedHeap_ s' = {| bytesNotUse := bytesNotUse (unusedHeap_ s) +u c;
                            blockNum := blockNum (unusedHeap_ s) +u 1 |}
    | None => Err.isError msg = false ∧ unusedHeap_ s' = unusedHeap_ s
    end.
Proof.
  intros Hok (Ha & Hl & Hle). unfold CheckUnusedMem, unused_report. simpl.
  destruct (run_unified_updated s GM _ _ _ (Hbm.addr b) (Hbm.len b) Hok eq_refl (count_uniform true))
    as (m & m' & [= <-] & -> & _); try done.
  { apply undefined_byte_bounds. }
  { intros. by eapply count_kind. }
  { simpl. unfold GLOBAL_MEM_MASK. lia. }
  { intros _. done. }
  simpl. fold (undefined_count s GM (Hbm.addr b) (Hbm.len b)).
  destruct (0 <? undefined_count s GM (Hbm.addr b) (Hbm.len b)).
  - eexists _, _. split; [done|]. split; [done|].
    destruct (Hbm.heapBlocks_ (heapBlockManager_ s) !! Hbm.addr b); done.
  - exists s, Err.no_error. split_and!; [done| |done|done]. by destruct s.
Qed.

Lemma check_unused_blocks_spec l : ∀ s,
  shm_ok s → Forall (λ kb, block_in_reach kb.2) l →
  ∃ s' msgs, check_unused_blocks s l = Some (s', msgs) ∧ same_memory s s' ∧
    msg_report <$> msgs = (λ '(a, c), (MEM_UNUSED, a, c)) <$> omap (unused_report s) l ∧
    blockNum (unusedHeap_ s') = foldl (λ n _, n +u 1) (blockNum (unusedHeap_ s)) msgs.
Proof.
  induction l as [|[k b] l IH]; intros s Hok Hall; simpl.
  { exists s, []. split_and!; try done. by destruct s. }
  apply Forall_cons in Hall as [Hb Hall].
  destruct (CheckUnusedMem_spec s b Hok Hb) as (s1 & msg & -> & Hsm & Hr). simpl.
  destruct (IH s1) as (s2 & msgs & -> & Hsm2 & Hm & Hn); [by eapply same_memory_ok|done|]. simpl.
  assert (Ho : omap (unused_report s1) l = omap (unused_report s) l).
  { assert (∀ kb, unused_report s1 kb = unused_report s kb) as He
      by (intros kb; unfold unused_report; by rewrite (same_memory_count s s1)).
    clear -He. induction l as [|kb l IH]; [done|]. cbn. rewrite He. destruct (unused_report s kb); [|done].
    f_equal. exact IH. }
  rewrite Ho in Hm. change (unused_report s (k, b)) with (unused_report s (0, b)).
  destruct (unused_report s (0, b)) as [[a c]|].
  - destruct Hr as (He & Hrep & Hu). rewrite He. eexists s2, _. split; [done|].
    split; [by eapply same_memory_trans|]. split.
    + simpl. f_equal; [|done]. rewrite <- Hrep. done.
    + rewrite Hn, Hu. done.
  - destruct Hr as [He Hu]. rewrite He. exists s2, msgs. split; [done|].
    split; [by eapply same_memory_trans|]. split; [done|]. by rewrite Hn, Hu.
Qed.

(** The unused-memory check is exact: [CheckUnusedHeap] yields, in address
    order, one [MEM_UNUSED] message for each live heap block with an unwritten
    byte, carrying the block's address and its number of unwritten bytes; it
    counts those blocks and changes nothing but the statistics. *)
Theorem unused_heap_exact s :
  shm_ok s → map_Forall (λ _ b, block_in_reach b) (Hbm.heapBlocks_ (heapBlockManager_ s)) →
  ∃ s' msgs, CheckUnusedHeap s = Some (s', msgs) ∧ same_memory s s' ∧
    msg_report <$> msgs =
      (λ '(a, c), (MEM_UNUSED, a, c)) <$>
        omap (unused_report s) (ordered (Hbm.heapBlocks_ (heapBlockManager_ s))) ∧
    blockNum (unusedHeap_ s') = foldl (λ n _, n +u 1) (blockNum (unusedHeap_ s)) msgs.
Proof.
  intros Hok Hall. apply check_unused_blocks_spec; [done|].
  apply Forall_forall. intros [k b] Hin. simpl. apply (Hall k b).
  apply elem_of_ordered. done.
Qed.
End accesses.

(** ** Concrete instances *)

#[local] Existing Instance securec_ref.

(** Numeric side conditions before computation. *)
Ltac arith_first := first [unfold is_u64; simpl; lia|intros _; lia|reflexivity|done].

(** A freshly initialised shadow memory of an Ascend 910B4. *)
Definition demo_chip : ChipInfo :=
  {| aiCoreCnt := 20; l0aSize := 65536; l0bSize := 65536; l0cSize := 131072; l1Size := 524288;
     ubSize := 196608; ubBlockSize := 32; privateSize := 32768; hbmSize := 0 |}.
Definition demo : ShadowMemory := (Init new_ShadowMemory ASCEND_910B4 demo_chip).1.
Definition demo_rec (space : AddressSpace) (core addr size : Z) : MemOpRecordForShadow :=
  {| dstSpace := space; dstAddr := addr; memSize := size; coreId := core; serialNo := 0;
     mainScalarPc := 0; isSimt := false |}.

Lemma demo_ok : shm_ok demo.
Proof. apply Init_ok; [by apply GmPM.new_GmPM_ok|]. by apply (bool_decide_unpack (chip_fits demo_chip)). Qed.

Lemma demo_gm_byte x : 0 <= x < 2 ^ 48 → shadow_byte demo GM x = Some 253.
Proof.
  intros Hx. unfold shadow_byte, demo. simpl.
  rewrite GmPM.gm_GetBits_eq by (done || by apply GmPM.new_GmPM_ok). simpl. done.
Qed.

Lemma demo_l1_byte x : 0 <= x < 524288 → shadow_byte demo L1 x = Some 253.
Proof.
  intros Hx. pose proof (PM.new_PM_capacity 524288 CHIPMEM_DEFAULT_VALUE ltac:(lia)).
  apply (PM.new_PM_GetBits 524288 CHIPMEM_DEFAULT_VALUE x); lia.
Qed.

Lemma demo_ub_byte x : 0 <= x < 196608 → shadow_byte demo UB x = Some 253.
Proof.
  intros Hx. pose proof (PM.new_PM_capacity 196608 CHIPMEM_DEFAULT_VALUE ltac:(lia)).
  apply (PM.new_PM_GetBits 196608 CHIPMEM_DEFAULT_VALUE x); lia.
Qed.

Lemma local_served s rec :
  dstSpace rec ≠ GM → modelled (dstSpace rec) = true → is_u64 (dstAddr rec) → is_u64 (memSize rec) →
  served s rec.
Proof. intros Hne ???. split; [done..|]. intros ?. done. Qed.

Lemma local_scanned s rec :
  dstSpace rec ≠ GM → IsAscend95 (deviceType_ s) = false → scanned s rec.
Proof. intros Hne ?. split; intros ?; done. Qed.

Lemma demo_unowned a n : 0 <= a → a + n <= 2 ^ 48 →
  ∀ x, a <= x < a + n → ∃ b, shadow_byte demo GM x = Some b ∧ unowned b.
Proof. intros Ha Hn x Hx. exists 253. split; [apply demo_gm_byte; lia|done]. Qed.

Lemma load_reports_uninitialised_witness :
  LoadNBytes demo (demo_rec L1 2 524256 64) true =
    Some [MakeBadBytesMsg UNINITIALIZED_READ L1 524256 32 false 0 false].
Proof.
  pose proof (load_reports_uninitialised demo (demo_rec L1 2 524256 64) demo_ok) as H.
  change (request demo (demo_rec L1 2 524256 64)) with (524256, 32) in H. cbv iota in H.
  etrans; [apply H; [apply local_served; arith_first|by apply local_scanned]|].
  unfold undefined_count. rewrite (sum_range_const _ _ _ 1); [done|].
  intros x Hx. by rewrite demo_l1_byte by lia.
Defined.

Lemma store_is_bytewise_witness :
  ∃ s', StoreNBytes demo (demo_rec UB 2 64 32) true true = Some (s', []) ∧
    shadow_byte s' UB 70 = Some 254.
Proof.
  pose proof (store_is_bytewise demo (demo_rec UB 2 64 32) true true demo_ok) as H.
  change (request demo (demo_rec UB 2 64 32)) with (64, 32) in H. cbv iota in H.
  destruct H as (s' & Hs & Hup); [by apply local_served|].
  exists s'. split.
  - rewrite Hs. unfold overlap_count. rewrite (sum_range_const _ _ _ 0); [done|].
    intros x Hx. change (dstSpace _) with UB. by rewrite demo_ub_byte by (simpl in Hx; lia).
  - rewrite (ru_bytes _ _ _ _ _ _ Hup) by (change (max_size demo _) with 196608; lia).
    change (dstSpace _) with UB. by rewrite demo_ub_byte by lia.
Defined.

Lemma store_then_load_clean_witness :
  ∃ s' msgs, StoreNBytes demo (demo_rec UB 2 64 32) true true = Some (s', msgs) ∧
    LoadNBytes s' (demo_rec UB 2 64 32) true = Some [].
Proof. apply (store_then_load_clean demo (demo_rec UB 2 64 32)); 
  [apply demo_ok|by apply local_served|by apply local_scanned]. Defined.

Lemma core_overwrite_reported_witness :
  ∃ s1, StoreNBytes demo (demo_rec GM 2 4096 32) true true = Some (s1, []) ∧
    overlap_count s1 GM 3 true 4096 32 = 32.
Proof.
  apply (core_overwrite_reported demo (demo_rec GM 2 4096 32) 3 4096 32);
    first [apply demo_ok|apply demo_unowned; lia|by split|done].
Defined.

Lemma big_core_collides_with_itself_witness :
  ∃ s1 s2, StoreNBytes demo (demo_rec GM 70 4096 32) true true = Some (s1, []) ∧
    StoreNBytes s1 (demo_rec GM 70 4096 32) true true =
      Some (s2, [MakeBadBytesMsg OUT_OF_BOUNDS GM 4096 32 false 0 false]).
Proof.
  apply (big_core_collides_with_itself demo (demo_rec GM 70 4096 32) 4096 32);
    first [apply demo_ok|apply demo_unowned; lia|by split|done].
Defined.

Lemma marking_exact_witness :
  ∃ s', MakeMemUndefined demo 4096 32 = Some s' ∧ undefined_count s' GM 4096 32 = 32.
Proof.
  destruct (marking_exact demo 4096 32 4096 32) as [(s' & Hs & _ & Hc) _];
    [apply demo_ok|arith_first..|exists s'; split; [exact Hs|exact Hc] ].
Defined.

(** One byte written at address 0 creates the first slice; an eight-byte read at
    its end is all undefined and not reported. *)
Lemma load_misses_slice_end_witness :
  ∃ s', StoreNBytes demo (demo_rec GM 2 0 1) true true = Some (s', []) ∧
    undefined_count s' GM 68719476720 8 = 8 ∧
    LoadNBytes s' (demo_rec GM 2 68719476720 8) true = Some [].
Proof.
  pose proof (served_store demo (demo_rec GM 2 0 1) true true demo_ok ltac:(by split)) as Hst.
  change (request demo (demo_rec GM 2 0 1)) with (0, 1) in Hst. cbv iota in Hst.
  destruct Hst as (s' & Hst & Hup). exists s'. split_and!.
  - rewrite Hst. unfold overlap_count. rewrite (sum_range_const _ _ _ 0); [done|].
    intros x Hx. change (dstSpace _) with GM. by rewrite demo_gm_byte by (simpl in Hx; lia).
  - unfold undefined_count. rewrite (sum_range_const _ _ _ 1); [done|]. intros x Hx.
    rewrite (ru_bytes _ _ _ _ _ _ Hup) by (simpl; unfold GLOBAL_MEM_MASK; lia).
    rewrite demo_gm_byte by lia. by repeat case_cmp; simpl; try lia.
  - destruct (GmPM.QueryPM (gm_ s') 68719476720) as [pm|] eqn:Hq.
    + apply (load_misses_slice_end s' (demo_rec GM 2 68719476720 8) 68719476720 8 pm);
        first [lia|apply Hup|rewrite (request_same_chip demo s') by apply Hup; reflexivity|done].
    + exfalso. pose proof (ru_bytes _ _ _ _ _ _ Hup 0 ltac:(simpl; unfold GLOBAL_MEM_MASK; lia)) as Hb.
      rewrite demo_gm_byte in Hb by lia. simpl in Hb. unfold shadow_byte in Hb. simpl in Hb.
      pose proof (sok_gm _ (ru_ok _ _ _ _ _ _ Hup)) as Hgm.
      pose proof (ru_bytes _ _ _ _ _ _ Hup 68719476720 ltac:(simpl; unfold GLOBAL_MEM_MASK; lia)) as Hb'.
      rewrite demo_gm_byte in Hb' by lia. simpl in Hb'. unfold shadow_byte in Hb'. simpl in Hb'.
      rewrite GmPM.QueryPM_eq in Hq by (lia || done).
      rewrite GmPM.gm_GetBits_eq in Hb, Hb' by (lia || done).
      change (68719476720 / 68719476735) with 0 in *. change (0 / 68719476735) with 0 in *.
      rewrite Hq in Hb, Hb'. rewrite Hb in Hb'. by injection Hb'.
Defined.

(** One allocation of 32 bytes at 4096, never written. *)
Definition demo_malloc : MemOpRecord :=
  Mor.set_memSize 32 (Mor.set_dstAddr 4096 (Mor.set_type MALLOC (Mor.set_infoSrc RT Mor.zero))).
Definition demo_block : Hbm.HeapBlock := Hbm.of_record demo_malloc.
Definition demo_heap : ShadowMemory := (AddHeapBlock demo demo_malloc).1.

Lemma demo_heap_ok : shm_ok demo_heap.
Proof. destruct demo_ok. by split. Qed.

Lemma unused_heap_exact_witness :
  ∃ s' msgs, CheckUnusedHeap demo_heap = Some (s', msgs) ∧
    msg_report <$> msgs = [(MEM_UNUSED, 4096, 32)].
Proof.
  destruct (unused_heap_exact demo_heap demo_heap_ok) as (s' & msgs & Hs & _ & Hm & _).
  { change (Hbm.heapBlocks_ (heapBlockManager_ demo_heap)) with ({[4096 := demo_block]} : gmap Z Hbm.HeapBlock).
    apply map_Forall_singleton. unfold block_in_reach. simpl. lia. }
  exists s', msgs. split; [exact Hs|]. rewrite Hm.
  change (ordered _) with [(4096, demo_block)].
  simpl. unfold unused_report. simpl.
  assert (undefined_count demo_heap GM 4096 32 = 32) as ->; [|done].
  unfold undefined_count. rewrite (sum_range_const _ _ _ 1); [done|]. intros x Hx.
  change (shadow_byte demo_heap GM x) with (shadow_byte demo GM x).
  by rewrite demo_gm_byte by (simpl in Hx; lia).
Defined.
