(* ===== verification/BoundsCheck.v ===== *)
(** Allocated ranges: [csrc/address_sanitizer/bounds_check.h],
    [bounds_check.cpp].

    A [DiscreteBounds] is a sorted vector of disjoint ranges with a permission
    each; its meaning is the partial map "address to permission" ([perm_at]).
    Adding, removing and re-permissioning ranges are proved against that map, and
    the access check against counting the addresses of the request that the map
    does not permit. *)
From stdpp Require Import base numbers list option gmap.
From S2P Require Import Prelude.
From S2P Require Import RecordDefs.

Module Bounds.
(** ** Operations *)

Record Range := { addrL : Z; addrR : Z; permission : Z }.
Definition set_L (v : Z) (r : Range) : Range := {| addrL := v; addrR := addrR r; permission := permission r |}.
Definition set_R (v : Z) (r : Range) : Range := {| addrL := addrL r; addrR := v; permission := permission r |}.
Definition set_perm (v : Z) (r : Range) : Range := {| addrL := addrL r; addrR := addrR r; permission := v |}.

Definition DEFAULT_PERMISSION : Z := MSTX_MEM_PERMISSIONS_REGION_FLAGS_DEFAULT.

Definition OverlapSize (range : Range) (addr size : Z) : Z :=
  if (addrR range <=? addr) || (addrR range <=? addrL range) then 0
  else if addr <? addrL range then
    let prefix := addrL range -u addr in
    if prefix <? size then Z.min (size -u prefix) (addrR range -u addrL range) else 0
  else Z.min size (addrR range -u addr).

Definition HasPermission (permission : Z) (accessType : AccessType) : bool :=
  let r := negb (Z.land permission MSTX_MEM_PERMISSIONS_REGION_FLAGS_READ =? 0) in
  let w := negb (Z.land permission MSTX_MEM_PERMISSIONS_REGION_FLAGS_WRITE =? 0) in
  match accessType with READ => r | WRITE => w | ACCESS_MEMCPY_BLOCKS => r && w end.

(** [std::upper_bound]: the elements before the first one the predicate holds
    for, and the rest. *)
Fixpoint upper_bound (pred : Range → bool) (l : list Range) : list Range * list Range :=
  match l with
  | [] => ([], [])
  | r :: l' =>
      if pred r then ([], l)
      else let '(pre, post) := upper_bound pred l' in (r :: pre, post)
  end.

Definition bad_msg (addr badBytes : Z) : ErrorMsg :=
  Err.upd_aux (Aux.set_nBadBytes badBytes ∘ Aux.set_badAddr addr) (Err.set_isError true Err.no_error).

Definition globalMemMask : Z := 0xFFFFFFFFFFFF.

(** The line number in the message is the one of the source. *)
Definition CheckOverflow (addr size : Z) : ErrorMsg :=
  let badBytes :=
    if (addr <=? globalMemMask) && (globalMemMask -u addr <? size) then size -u (globalMemMask -u addr)
    else if globalMemMask <? addr then size else 0 in
  if 0 <? badBytes then
    Err.upd_aux (Aux.set_nBadBytes badBytes ∘ Aux.set_lineNo 245)
      (Err.SetType ILLEGAL_ADDR_WRITE GM addr Err.no_error)
  else Err.no_error.

(** The loop of [Add]: the range grown to the right and the ranges kept. *)
Fixpoint merge_right (perm : Z) (it : Range) (post : list Range) : Range * list Range :=
  match post with
  | [] => (it, [])
  | next :: post' =>
      if addrR it <? addrL next then (it, post)
      else if (addrR it <? addrR next) && negb (permission next =? perm)
      then (it, set_L (addrR it) next :: post')
      else merge_right perm (set_R (Z.max (addrR it) (addrR next)) it) post'
  end.

Definition Add (ranges_ : list Range) (addr size perm : Z) : list Range * ErrorMsg :=
  let msg := CheckOverflow addr size in
  if Err.isError msg then (ranges_, msg)
  else
    let '(pre, post) := upper_bound (λ b, addr <? addrL b) ranges_ in
    let fresh := {| addrL := addr; addrR := addr +u size; permission := perm |} in
    let '(lhs, it) :=
      match last pre with
      | Some prev =>
          if addr <=? addrR prev then
            if permission prev =? perm
            then (removelast pre, set_R (Z.max (addrR prev) (addr +u size)) prev)
            else (removelast pre ++ [set_R addr prev], fresh)
          else (pre, fresh)
      | None => (pre, fresh)
      end in
    let '(it, rest) := merge_right perm it post in
    (lhs ++ it :: rest, Err.no_error).

(** The loop of [Remove]. *)
Fixpoint remove_right (addrR_ : Z) (post : list Range) : list Range :=
  match post with
  | [] => []
  | next :: post' =>
      if addrR_ <=? addrL next then post
      else if addrR_ <? addrR next then set_L addrR_ next :: post'
      else remove_right addrR_ post'
  end.

Definition Remove (ranges_ : list Range) (addr size : Z) : list Range * ErrorMsg :=
  let msg := CheckOverflow addr size in
  if Err.isError msg then (ranges_, msg)
  else
    let '(pre, post) := upper_bound (λ b, addr <? addrR b) ranges_ in
    let lhs :=
      match post with
      | it :: _ => if addrL it <? addr
                   then [{| addrL := addrL it; addrR := addr; permission := permission it |}] else []
      | [] => []
      end in
    (pre ++ lhs ++ remove_right (addr +u size) post, Err.no_error).

(** The loop of [SetPermission]. *)
Fixpoint permit_right (addrR_ perm : Z) (post : list Range) : list Range :=
  match post with
  | [] => []
  | it :: post' =>
      if addrR_ <=? addrL it then post
      else if addrR_ <? addrR it
      then {| addrL := addrL it; addrR := addrR_; permission := perm |} :: set_L addrR_ it :: post'
      else set_perm perm it :: permit_right addrR_ perm post'
  end.

Definition SetPermission (ranges_ : list Range) (addr size perm : Z) : list Range * ErrorMsg :=
  let msg := CheckOverflow addr size in
  if Err.isError msg then (ranges_, msg)
  else
    let '(pre, post) := upper_bound (λ b, addr <? addrR b) ranges_ in
    let '(lhs, post) :=
      match post with
      | it :: post' =>
          if (addrL it <? addr) && negb (perm =? permission it)
          then ([{| addrL := addrL it; addrR := addr; permission := permission it |}],
                set_L addr it :: post')
          else ([], post)
      | [] => ([], [])
      end in
    (pre ++ lhs ++ permit_right (addr +u size) perm post, Err.no_error).

Definition CheckAddrOnly (ranges_ : list Range) (addr : Z) : ErrorMsg :=
  match (upper_bound (λ b, addr <? addrR b) ranges_).2 with
  | it :: _ => if (addr <? addrL it) || (addrR it <=? addr) then bad_msg addr 1 else Err.no_error
  | [] => bad_msg addr 1
  end.

(** The loop of [Check]. *)
Fixpoint check_right (addr size : Z) (accessType : AccessType) (post : list Range) (badBytes : Z) : Z :=
  match post with
  | [] => badBytes
  | it :: post' =>
      if (addr <=? addrL it) && (size <=? addrL it -u addr) then badBytes
      else if negb (HasPermission (permission it) accessType)
      then check_right addr size accessType post' badBytes
      else check_right addr size accessType post' (badBytes -u OverlapSize it addr size)
  end.

Definition Check (ranges_ : list Range) (addr size : Z) (accessType : AccessType) : ErrorMsg :=
  if size =? 0 then CheckAddrOnly ranges_ addr
  else
    let '(_, post) := upper_bound (λ b, addr <? addrR b) ranges_ in
    let badBytes := check_right addr size accessType post size in
    if 0 <? badBytes then bad_msg addr badBytes else Err.no_error.

Fixpoint overlap_scan (addr end_ : Z) (l : list Range) : bool :=
  match l with
  | [] => false
  | range :: l' =>
      if end_ <=? addrL range then false
      else if addr <? addrR range then true
      else overlap_scan addr end_ l'
  end.

Definition HasOverlap (ranges_ : list Range) (addr size : Z) : bool :=
  if (size =? 0) || (UINT64_MAX -u size <? addr) then false
  else overlap_scan addr (addr +u size) ranges_.

(** *** [UnionBounds]: one range that never changes *)

Definition new_UnionBounds (addr size : Z) : Range :=
  {| addrL := addr; addrR := addr +u size; permission := DEFAULT_PERMISSION |}.

Definition Union_CheckAddrOnly (range_ : Range) (addr : Z) : ErrorMsg :=
  if (addr <? addrL range_) || (addrR range_ <=? addr) then bad_msg addr 1 else Err.no_error.

Definition Union_Check (range_ : Range) (addr size : Z) (accessType : AccessType) : ErrorMsg :=
  if size =? 0 then Union_CheckAddrOnly range_ addr
  else
    let overlap := OverlapSize range_ addr size in
    let overlap := if negb (HasPermission (permission range_) accessType) then 0 else overlap in
    if overlap <? size then bad_msg addr (size -u overlap) else Err.no_error.

Definition Union_HasOverlap (range_ : Range) (addr size : Z) : bool :=
  negb (size =? 0) && (addr <=? UINT64_MAX -u size) &&
  (addrL range_ <? addr +u size) && (addr <? addrR range_).

(** ** Meaning and invariant *)

Definition in_range (r : Range) (x : Z) : bool := (addrL r <=? x) && (x <? addrR r).

(** The permission of an address, [None] when it is not allocated. *)
Fixpoint perm_at (l : list Range) (x : Z) : option Z :=
  match l with
  | [] => None
  | r :: l' => if in_range r x then Some (permission r) else perm_at l' x
  end.

(** Sorted, disjoint 64-bit ranges, none starting before [lo]. *)
Fixpoint ranges_from (lo : Z) (l : list Range) : Prop :=
  match l with
  | [] => True
  | r :: l' => lo <= addrL r ∧ addrL r <= addrR r ∧ addrR r < 2 ^ 64 ∧ ranges_from (addrR r) l'
  end.

Definition ranges_ok (l : list Range) : Prop := ranges_from 0 l.

(** Right end of a prefix. *)
Fixpoint end_of (lo : Z) (l : list Range) : Z :=
  match l with [] => lo | r :: l' => end_of (addrR r) l' end.

Ltac range_case :=
  unfold in_range; repeat case_cmp; simpl in *; try done; try lia.

Lemma ranges_from_weaken lo lo' l : lo' <= lo → ranges_from lo l → ranges_from lo' l.
Proof. destruct l as [|r l]; simpl; [done|]. intros ? (? & ? & ? & ?). split_and!; [lia|done..]. Qed.

Lemma ranges_from_app lo l1 l2 :
  ranges_from lo (l1 ++ l2) ↔ ranges_from lo l1 ∧ ranges_from (end_of lo l1) l2.
Proof.
  revert lo. induction l1 as [|r l1 IH]; intros lo; simpl; [tauto|]. rewrite IH. tauto.
Qed.

Lemma end_of_app lo l1 l2 : end_of lo (l1 ++ l2) = end_of (end_of lo l1) l2.
Proof. revert lo. induction l1; simpl; auto. Qed.

Lemma end_of_ge lo l : ranges_from lo l → lo <= end_of lo l.
Proof.
  revert lo. induction l as [|r l IH]; intros lo; simpl; [lia|]. intros (? & ? & _ & Hl).
  specialize (IH _ Hl). lia.
Qed.

Lemma perm_at_app l1 l2 x :
  perm_at (l1 ++ l2) x = match perm_at l1 x with Some p => Some p | None => perm_at l2 x end.
Proof. induction l1 as [|r l1 IH]; simpl; [done|]. by destruct (in_range r x). Qed.

Lemma perm_at_before lo l x : ranges_from lo l → x < lo → perm_at l x = None.
Proof.
  revert lo. induction l as [|r l IH]; intros lo; simpl; [done|]. intros (? & ? & _ & Hl) Hx.
  assert (in_range r x = false) as -> by (unfold in_range; lia). apply (IH _ Hl). lia.
Qed.

Lemma perm_at_after lo l x : ranges_from lo l → end_of lo l <= x → perm_at l x = None.
Proof.
  revert lo. induction l as [|r l IH]; intros lo; simpl; [done|]. intros (? & ? & _ & Hl) Hx.
  pose proof (end_of_ge _ _ Hl). assert (in_range r x = false) as -> by (unfold in_range; lia).
  by apply (IH (addrR r)).
Qed.

Lemma upper_bound_split pred l pre post :
  upper_bound pred l = (pre, post) →
  l = pre ++ post ∧ Forall (λ r, pred r = false) pre ∧ match post with r :: _ => pred r = true | [] => True end.
Proof.
  revert pre post. induction l as [|r l IH]; intros pre post; simpl; [by intros [= <- <-]|].
  destruct (pred r) eqn:Hp; [by intros [= <- <-]|].
  destruct (upper_bound pred l) as [pre' post'] eqn:Hu. intros [= <- <-].
  destruct (IH pre' post' eq_refl) as (-> & Hf & Hh). by repeat constructor.
Qed.

Lemma end_of_le lo l b : lo <= b → Forall (λ r, addrR r <= b) l → end_of lo l <= b.
Proof.
  intros Hlo Hl. revert lo Hlo. induction Hl as [|r l Hr Hl IH]; intros lo Hlo; simpl; [done|]. by apply IH.
Qed.

(** The split by right ends: everything before ends at or below the address,
    the first range after ends above it. *)
Lemma split_right addr l pre post :
  0 <= addr → ranges_ok l → upper_bound (λ b, addr <? addrR b) l = (pre, post) →
  l = pre ++ post ∧ ranges_from 0 pre ∧ ranges_from (end_of 0 pre) post ∧ end_of 0 pre <= addr ∧
  match post with r :: _ => addr < addrR r | [] => True end.
Proof.
  intros Ha Hok Hu. apply upper_bound_split in Hu as (-> & Hf & Hh).
  apply ranges_from_app in Hok as [Hpre Hpost]. split_and!; [done..| |].
  - apply end_of_le; [done|]. eapply Forall_impl; [exact Hf|]. simpl. intros r ?. lia.
  - destruct post as [|r post]; [done|]. lia.
Qed.

Lemma CheckOverflow_ok addr size :
  is_u64 addr → is_u64 size → Err.isError (CheckOverflow addr size) = false →
  addr + size < 2 ^ 64 ∧ (size = 0 ∨ addr + size <= globalMemMask).
Proof.
  intros Ha Hs. unfold CheckOverflow, is_u64, globalMemMask in *.
  destruct (Z.leb_spec addr 0xFFFFFFFFFFFF), (Z.ltb_spec 0xFFFFFFFFFFFF addr); try lia; simpl.
  - u64_simpl. destruct (Z.ltb_spec (0xFFFFFFFFFFFF - addr) size); [|simpl; lia]. u64_simpl.
    destruct (Z.ltb_spec 0 (size - (0xFFFFFFFFFFFF - addr))); [done|lia].
  - destruct (Z.ltb_spec 0 size); [done|]. lia.
Qed.

(** ** The operations against the meaning *)

Lemma remove_right_spec E post : ∀ lo,
  ranges_from lo post →
  ranges_from (Z.max lo E) (remove_right E post) ∧
  ∀ x, perm_at (remove_right E post) x = if x <? E then None else perm_at post x.
Proof.
  induction post as [|r post IH]; intros lo; simpl; [intros _; split; [done|]; intros x; by case_cmp|].
  intros (H1 & H2 & H3 & H4).
  destruct (Z.leb_spec E (addrL r)); [|destruct (Z.ltb_spec E (addrR r))].
  - split; [simpl; split_and!; [lia|done..]|]. intros x. case_cmp; [|done].
    by apply (perm_at_before (addrL r)); [simpl; split_and!; [lia|done..]|lia].
  - split; [simpl; split_and!; [lia|lia|done|done]|]. intros x. simpl. unfold in_range; simpl.
    case_cmp; repeat case_cmp; simpl; try lia; try done. by apply (perm_at_before _ _ _ H4); lia.
  - destruct (IH _ H4) as [Hr Hp]. split; [eapply ranges_from_weaken; [|exact Hr]; lia|].
    intros x. rewrite Hp. case_cmp; [done|]. by assert (in_range r x = false) as -> by (unfold in_range; lia).
Qed.

Lemma permit_right_spec E p post : ∀ lo,
  ranges_from lo post → E < 2 ^ 64 →
  ranges_from lo (permit_right E p post) ∧
  ∀ x, perm_at (permit_right E p post) x =
    if x <? E then (λ _, p) <$> perm_at post x else perm_at post x.
Proof.
  induction post as [|r post IH]; intros lo; simpl; [intros _ _; split; [done|]; intros x; by case_cmp|].
  intros (H1 & H2 & H3 & H4) HE.
  destruct (Z.leb_spec E (addrL r)); [|destruct (Z.ltb_spec E (addrR r))].
  - split; [done|]. intros x. case_cmp; [|done].
    assert (perm_at (r :: post) x = None) as Hn; [|simpl in Hn; by rewrite Hn].
    by apply (perm_at_before (addrL r)); [simpl; split_and!; [lia|done..]|lia].
  - split; [simpl; split_and!; (done || lia)|]. intros x. simpl. unfold in_range; simpl.
    case_cmp; repeat case_cmp; simpl; try lia; try done.
    by rewrite (perm_at_before _ _ _ H4) by lia.
  - destruct (IH _ H4 HE) as [Hr Hp]. split; [done|].
    intros x. simpl. change (in_range (set_perm p r) x) with (in_range r x). rewrite Hp.
    destruct (in_range r x) eqn:Hi; [|done]. unfold in_range in Hi. case_cmp; [done|lia].
Qed.

Lemma merge_right_spec p post : ∀ it,
  ranges_from (addrL it) post → addrL it <= addrR it < 2 ^ 64 → permission it = p →
  let '(it', rest) := merge_right p it post in
  addrL it' = addrL it ∧ ranges_from (addrL it) (it' :: rest) ∧
  ∀ x, perm_at (it' :: rest) x = if in_range it x then Some p else perm_at post x.
Proof.
  induction post as [|r post IH]; intros it.
  { simpl. intros _ [? ?] <-. split_and!; (done || lia). }
  intros (H1 & H2 & H3 & H4) [Hit1 Hit2] Hp. cbn [merge_right].
  destruct (Z.ltb_spec (addrR it) (addrL r)).
  { split; [done|]. split; [simpl; split_and!; (done || lia)|]. intros x. simpl. by rewrite Hp. }
  destruct (Z.ltb_spec (addrR it) (addrR r)); simpl; [destruct (Z.eqb_spec (permission r) p) as [Hpr|]|]; simpl.
  - specialize (IH (set_R (Z.max (addrR it) (addrR r)) it)). destruct (merge_right p _ post) as [it' rest].
    destruct IH as (HL & Hr & Hx); simpl in *; [|lia|done|].
    { eapply ranges_from_weaken; [|exact H4]. lia. }
    split; [done|]. split; [exact Hr|]. intros x. rewrite Hx. unfold in_range; simpl.
    repeat case_cmp; simpl; try lia; try done. by rewrite Hpr.
  - split; [done|]. split; [simpl in *; split_and!; (done || lia)|].
    intros x. simpl. rewrite Hp. unfold in_range; simpl.
    repeat case_cmp; simpl; try lia; try done.
  - specialize (IH (set_R (Z.max (addrR it) (addrR r)) it)). destruct (merge_right p _ post) as [it' rest].
    destruct IH as (HL & Hr & Hx); simpl in *; [|lia|done|].
    { eapply ranges_from_weaken; [|exact H4]. lia. }
    split; [done|]. split; [exact Hr|]. intros x. rewrite Hx. unfold in_range; simpl.
    repeat case_cmp; simpl; try lia; try done.
Qed.

Definition inside (addr size x : Z) : bool := (addr <=? x) && (x <? addr + size).

Lemma Remove_spec l addr size :
  ranges_ok l → is_u64 addr → is_u64 size → Err.isError (CheckOverflow addr size) = false →
  ranges_ok (Remove l addr size).1 ∧
  ∀ x, perm_at (Remove l addr size).1 x = if inside addr size x then None else perm_at l x.
Proof.
  intros Hok Ha Hs Hov. unfold Remove. rewrite Hov.
  destruct (CheckOverflow_ok addr size Ha Hs Hov) as [Hsum _]. unfold is_u64 in *.
  destruct (upper_bound _ l) as [pre post] eqn:Hu. u64_simpl. simpl.
  destruct (split_right addr l pre post) as (-> & Hpre & Hpost & Hend & Hhead); [lia|done|done|].
  destruct (remove_right_spec (addr + size) post (end_of 0 pre) Hpost) as [Hr Hp].
  split.
  - apply ranges_from_app. split; [done|]. destruct post as [|it post]; simpl; [done|].
    destruct Hpost as (? & ? & ? & ?). case_cmp; simpl.
    + split_and!; try lia. eapply ranges_from_weaken; [|exact Hr]. lia.
    + eapply ranges_from_weaken; [|exact Hr]. lia.
  - intros x. rewrite !perm_at_app, Hp. unfold inside.
    destruct (Z.leb_spec addr x) as [Hx|Hx]; simpl.
    + rewrite (perm_at_after 0 pre x Hpre) by lia.
      assert (perm_at (match post with
        | it :: _ => if addrL it <? addr
            then [{| addrL := addrL it; addrR := addr; permission := permission it |}] else []
        | [] => [] end) x = None) as ->; [|done].
      destruct post as [|it post]; [done|]. case_cmp; [|done]. simpl. by range_case.
    + case_cmp; [|lia]. destruct (perm_at pre x); [done|]. destruct post as [|it post]; [done|]. simpl.
      destruct Hpost as (? & ? & ? & Hrest). case_cmp; simpl; unfold in_range; simpl;
        repeat case_cmp; simpl; try lia; try done; by rewrite (perm_at_before _ _ _ Hrest) by lia.
Qed.

Lemma SetPermission_spec l addr size p :
  ranges_ok l → is_u64 addr → is_u64 size → Err.isError (CheckOverflow addr size) = false →
  ranges_ok (SetPermission l addr size p).1 ∧
  ∀ x, perm_at (SetPermission l addr size p).1 x =
    if inside addr size x then (λ _, p) <$> perm_at l x else perm_at l x.
Proof.
  intros Hok Ha Hs Hov. unfold SetPermission. rewrite Hov.
  destruct (CheckOverflow_ok addr size Ha Hs Hov) as [Hsum _]. unfold is_u64 in *.
  destruct (upper_bound _ l) as [pre post] eqn:Hu. u64_simpl.
  destruct (split_right addr l pre post) as (-> & Hpre & Hpost & Hend & Hhead); [lia|done|done|].
  assert (Hout : ∀ x, addr <= x → perm_at pre x = None) by (intros; apply (perm_at_after 0); [done|lia]).
  destruct post as [|it post]; simpl.
  { split; [by rewrite app_nil_r|]. intros x. rewrite app_nil_r. unfold inside.
    repeat case_cmp; simpl; try done. by rewrite Hout. }
  pose proof Hpost as (H1 & H2 & H3 & Hrest).
  destruct ((addrL it <? addr) && negb (p =? permission it)) eqn:Hsplit; simpl.
  - bool_prop. destruct (permit_right_spec (addr + size) p (set_L addr it :: post) addr) as [Hr Hp];
      [simpl; split_and!; (done || lia)|lia|].
    split.
    + apply ranges_from_app. split; [done|]. simpl. split_and!; (lia || done).
    + intros x. rewrite !perm_at_app. cbn [perm_at]. rewrite Hp. unfold inside. cbn [perm_at].
      destruct (Z.leb_spec addr x); simpl.
      * rewrite Hout by done. unfold in_range; simpl. by repeat case_cmp; simpl; try lia.
      * destruct (perm_at pre x); [done|]. case_cmp; [|lia]. unfold in_range; simpl.
        repeat case_cmp; simpl; try lia; try done; by rewrite (perm_at_before _ _ _ Hrest) by lia.
  - destruct (permit_right_spec (addr + size) p (it :: post) (end_of 0 pre)) as [Hr Hp]; [done|lia|].
    split; [apply ranges_from_app; done|].
    intros x. rewrite !perm_at_app, Hp. unfold inside.
    destruct (Z.leb_spec addr x); simpl; [by rewrite Hout by done; case_cmp|].
    destruct (perm_at pre x); [done|]. case_cmp; [|lia]. unfold in_range; simpl.
    apply andb_false_iff in Hsplit as [Hs1|Hs1].
    + repeat case_cmp; simpl; try lia; try done; by rewrite (perm_at_before _ _ _ Hrest) by lia.
    + destruct (Z.eqb_spec p (permission it)) as [->|]; [|done].
      repeat case_cmp; simpl; try lia; try done; by rewrite (perm_at_before _ _ _ Hrest) by lia.
Qed.

(** [Add] cuts the range before the new one when it reaches it and has another
    permission. *)
Definition cut_prev (l : list Range) (addr p : Z) : option Range :=
  prev ← last (upper_bound (λ b, addr <? addrL b) l).1;
  if (addr <=? addrR prev) && negb (permission prev =? p) then Some prev else None.

(** The address belonged to the part of the cut range that [Add] drops. *)
Definition dropped (l : list Range) (addr p x : Z) : bool :=
  match cut_prev l addr p with Some prev => (addr <=? x) && (x <? addrR prev) | None => false end.

(** The new range inserted after a prefix that ends at or below it. *)
Lemma insert_fresh lhs post addr size p :
  ranges_from 0 lhs → end_of 0 lhs <= addr → ranges_from addr post → 0 <= size → addr + size < 2 ^ 64 →
  let '(it, rest) := merge_right p {| addrL := addr; addrR := addr + size; permission := p |} post in
  ranges_ok (lhs ++ it :: rest) ∧
  ∀ x, perm_at (lhs ++ it :: rest) x =
    if inside addr size x then Some p else if x <? addr then perm_at lhs x else perm_at post x.
Proof.
  intros Hl He Hpost Hs Hsum.
  set (fresh := {| addrL := addr; addrR := addr + size; permission := p |}).
  pose proof (merge_right_spec p post fresh) as Hm. destruct (merge_right p fresh post) as [it rest].
  destruct Hm as (HL & Hr & Hx); [done|simpl; lia|done|].
  split.
  - apply ranges_from_app. split; [done|]. by eapply ranges_from_weaken; [|exact Hr].
  - intros x. rewrite perm_at_app, Hx. unfold inside, in_range; simpl.
    destruct (Z.ltb_spec x addr), (Z.leb_spec addr x); try lia; simpl.
    + rewrite (perm_at_before addr post) by done. by destruct (perm_at lhs x).
    + rewrite (perm_at_after 0 lhs x) by (done || lia). by repeat case_cmp; try lia.
Qed.

(** The previous range, of the same permission, grown over the new one. *)
Lemma extend_prev pre prev post addr size p :
  ranges_from 0 (pre ++ [prev]) → ranges_from (Z.max (addrR prev) addr) post →
  addrL prev <= addr <= addrR prev → permission prev = p → 0 <= size → addr + size < 2 ^ 64 →
  let '(it, rest) := merge_right p (set_R (Z.max (addrR prev) (addr + size)) prev) post in
  ranges_ok (pre ++ it :: rest) ∧
  ∀ x, perm_at (pre ++ it :: rest) x =
    if inside addr size x then Some p else perm_at ((pre ++ [prev]) ++ post) x.
Proof.
  intros [Hpre (Hp1 & Hp2 & Hp3 & _)]%ranges_from_app Hpost Hin Hperm Hs Hsum.
  pose proof (merge_right_spec p post (set_R (Z.max (addrR prev) (addr + size)) prev)) as Hm.
  destruct (merge_right p _ post) as [it rest].
  destruct Hm as (HL & Hr & Hx); simpl; [|lia|done|].
  { eapply ranges_from_weaken; [|exact Hpost]. lia. }
  split.
  - apply ranges_from_app. split; [done|]. by eapply ranges_from_weaken; [|exact Hr].
  - intros x. rewrite !perm_at_app, Hx. cbn [perm_at]. unfold inside, in_range; simpl. rewrite Hperm.
    destruct (Z.leb_spec addr x); simpl.
    + rewrite (perm_at_after 0 pre x) by (done || lia). repeat case_cmp; simpl; done || lia.
    + destruct (perm_at pre x); [done|]. repeat case_cmp; simpl; done || lia.
Qed.

Lemma Add_spec l addr size p :
  ranges_ok l → is_u64 addr → is_u64 size → Err.isError (CheckOverflow addr size) = false →
  ranges_ok (Add l addr size p).1 ∧
  ∀ x, perm_at (Add l addr size p).1 x =
    if inside addr size x then Some p else if dropped l addr p x then None else perm_at l x.
Proof.
  intros Hok Ha Hs Hov. unfold Add, dropped, cut_prev. rewrite Hov.
  destruct (CheckOverflow_ok addr size Ha Hs Hov) as [Hsum _]. unfold is_u64 in *.
  destruct (upper_bound _ l) as [pre post] eqn:Hu. u64_simpl.
  apply upper_bound_split in Hu as (-> & Hf & Hh). cbn [fst].
  apply ranges_from_app in Hok as [Hpre Hpost].
  assert (Hpost' : ranges_from (Z.max (end_of 0 pre) addr) post).
  { destruct post as [|r post]; [done|]. simpl in *. bool_prop. destruct Hpost as (? & ? & ? & ?).
    split_and!; (lia || done). }
  assert (Hpa : ranges_from addr post) by (eapply ranges_from_weaken; [|exact Hpost']; lia).
  destruct (last pre) as [prev|] eqn:Hlast; cbn [mbind option_bind]; last first.
  { apply last_None in Hlast as ->. pose proof (insert_fresh [] post addr size p) as Hm.
    destruct (merge_right p _ post) as [it rest]. destruct Hm as [Hi Hp]; [done|simpl; lia..|done|lia|lia|].
    split; [done|]. intros x. etrans; [apply Hp|]. destruct (inside addr size x); [done|].
    case_cmp; [|done]. symmetry. by apply (perm_at_before addr). }
  apply last_Some in Hlast as [pre' ->]. rewrite removelast_last.
  apply Forall_app in Hf as [_ Hprev]. apply Forall_cons in Hprev as [Hprev _]. bool_prop.
  rewrite end_of_app in Hpost'. simpl in Hpost'.
  pose proof Hpre as [Hpre' (Hp1 & Hp2 & Hp3 & _)]%ranges_from_app.
  assert (Hgap : ∀ x, addrR prev <= x → perm_at (pre' ++ [prev]) x = None).
  { intros x Hx. apply (perm_at_after 0); [done|]. by rewrite end_of_app. }
  destruct (Z.leb_spec addr (addrR prev)); simpl; last first.
  { pose proof (insert_fresh (pre' ++ [prev]) post addr size p) as Hm.
    destruct (merge_right p _ post) as [it rest].
    destruct Hm as [Hi Hp]; [done|rewrite end_of_app; simpl; lia|done|lia|lia|].
    split; [done|]. intros x. etrans; [apply Hp|]. destruct (inside addr size x); [done|].
    rewrite (perm_at_app (pre' ++ [prev])). case_cmp.
    - rewrite (perm_at_before addr post) by done. by destruct (perm_at _ x).
    - by rewrite Hgap by lia. }
  destruct (Z.eqb_spec (permission prev) p) as [Hperm|Hperm]; simpl.
  { pose proof (extend_prev pre' prev post addr size p) as Hm.
    destruct (merge_right p _ post) as [it rest]. apply Hm; (done || lia). }
  pose proof (insert_fresh (pre' ++ [set_R addr prev]) post addr size p) as Hm.
  destruct (merge_right p _ post) as [it rest]. destruct Hm as [Hi Hp]; [|rewrite end_of_app; simpl; lia|done|lia|lia|].
  { apply ranges_from_app. split; [done|]. simpl. split_and!; (done || lia). }
  split; [done|]. intros x. etrans; [apply Hp|]. destruct (inside addr size x); [done|].
  rewrite (perm_at_app (pre' ++ [prev])). destruct (Z.leb_spec addr x), (Z.ltb_spec x addr); try lia; simpl.
  - destruct (Z.ltb_spec x (addrR prev)); [apply (perm_at_before _ _ _ Hpost'); lia|by rewrite Hgap].
  - rewrite (perm_at_before addr post x), !perm_at_app by done. simpl. unfold in_range; simpl.
    destruct (perm_at pre' x); [done|]. by repeat case_cmp; simpl; try lia.
Qed.

(** *** The access check *)

Definition permits (l : list Range) (accessType : AccessType) (x : Z) : bool :=
  match perm_at l x with Some p => HasPermission p accessType | None => false end.

(** Number of addresses of the request the access is allowed on. *)
Definition permitted_count (l : list Range) (accessType : AccessType) (addr size : Z) : Z :=
  sum_range (λ x, if permits l accessType x then 1 else 0) addr (Z.to_nat size).

Lemma permitted_bounds l t addr size : 0 <= size → 0 <= permitted_count l t addr size <= size.
Proof.
  intros. unfold permitted_count.
  pose proof (sum_range_bounds (λ x, if permits l t x then 1 else 0) addr (Z.to_nat size) 1) as Hb.
  rewrite Z2Nat.id in Hb by done. destruct Hb; [|lia]. intros a. by case_match.
Qed.

(** Addresses of the request the access is not allowed on. *)
Lemma unpermitted_count l t addr size :
  0 <= size →
  size - permitted_count l t addr size =
    sum_range (λ x, if permits l t x then 0 else 1) addr (Z.to_nat size).
Proof.
  intros Hs. unfold permitted_count.
  enough (sum_range (λ x, (if permits l t x then 1 else 0) + (if permits l t x then 0 else 1)) addr
    (Z.to_nat size) = size) as H by (rewrite sum_range_add in H; lia).
  rewrite (sum_range_const _ _ _ 1), Z2Nat.id by (try done; intros; by case_match). lia.
Qed.

Lemma unpermitted_pos l t addr size :
  0 <= size →
  0 < size - permitted_count l t addr size ↔
    ∃ x, addr <= x < addr + size ∧ permits l t x = false.
Proof.
  intros Hs. rewrite unpermitted_count by done.
  rewrite sum_range_pos, Z2Nat.id by (try done; intros; by case_match).
  split; intros (x & Hx & Hp); exists x; (split; [done|]); destruct (permits l t x); done || lia.
Qed.

Lemma OverlapSize_eq r addr size :
  0 <= addrL r <= addrR r → addrR r < 2 ^ 64 → is_u64 addr → is_u64 size →
  OverlapSize r addr size = sum_range (λ x, if in_range r x then 1 else 0) addr (Z.to_nat size).
Proof.
  intros Hr HR Ha Hs. unfold in_range, OverlapSize, is_u64 in *. rewrite sum_range_interval, Z2Nat.id by lia.
  destruct (Z.leb_spec (addrR r) addr), (Z.leb_spec (addrR r) (addrL r)); simpl; try lia.
  destruct (Z.ltb_spec addr (addrL r)); u64_simpl; [|lia].
  destruct (Z.ltb_spec (addrL r - addr) size); u64_simpl; lia.
Qed.

Lemma permitted_cons lo r l t addr size :
  ranges_from lo (r :: l) → 0 <= lo → is_u64 addr → is_u64 size →
  permitted_count (r :: l) t addr size =
    (if HasPermission (permission r) t then OverlapSize r addr size else 0) + permitted_count l t addr size.
Proof.
  intros (H1 & H2 & H3 & H4) Hlo Ha Hs. unfold permitted_count.
  transitivity (sum_range (λ x, (if HasPermission (permission r) t then if in_range r x then 1 else 0 else 0)
    + (if permits l t x then 1 else 0)) addr (Z.to_nat size)).
  - apply sum_range_ext. intros x _. unfold permits. simpl. destruct (in_range r x) eqn:Hi.
    + unfold in_range in Hi. bool_prop. rewrite (perm_at_before _ _ _ H4) by lia.
      by destruct (HasPermission (permission r) t).
    + by destruct (HasPermission (permission r) t).
  - rewrite sum_range_add. f_equal. destruct (HasPermission (permission r) t).
    + symmetry. apply OverlapSize_eq; (done || lia).
    + by rewrite (sum_range_const _ _ _ 0).
Qed.

Lemma permitted_none l t addr size :
  0 <= size → (∀ x, addr <= x < addr + size → perm_at l x = None) → permitted_count l t addr size = 0.
Proof.
  intros Hs Hn. unfold permitted_count. rewrite (sum_range_const _ _ _ 0); [done|].
  intros x Hx. unfold permits. by rewrite Hn by lia.
Qed.

Lemma check_right_spec addr size t post : ∀ lo bad,
  ranges_from lo post → 0 <= lo → is_u64 addr → is_u64 size →
  permitted_count post t addr size <= bad < 2 ^ 64 →
  check_right addr size t post bad = bad - permitted_count post t addr size.
Proof.
  induction post as [|r post IH]; intros lo bad Hr Hlo Ha Hs Hb; simpl.
  { rewrite permitted_none; [lia|apply Hs|done]. }
  assert (Hge : 0 <= OverlapSize r addr size).
  { destruct Hr as (? & ? & ? & _). rewrite OverlapSize_eq by (done || lia).
    apply (sum_range_bounds _ _ _ 1). intros a. by case_match. }
  pose proof (permitted_bounds post t addr size ltac:(apply Hs)) as Hpb.
  rewrite (permitted_cons lo) in Hb by done.
  destruct ((addr <=? addrL r) && (size <=? addrL r -u addr)) eqn:Hbreak.
  { bool_prop. unfold is_u64 in *. pose proof Hr as (? & ? & ? & _). revert H0. u64_simpl. intros H0.
    rewrite permitted_none; [lia|lia|].
    intros x Hx. apply (perm_at_before (addrL r)); [|lia]. simpl in Hr |- *. split; [lia|tauto]. }
  rewrite (permitted_cons lo) by done. destruct Hr as (? & ? & ? & Hrest).
  destruct (HasPermission (permission r) t); simpl.
  - unfold is_u64 in *. u64_simpl. rewrite (IH (addrR r)) by (done || lia). lia.
  - rewrite (IH (addrR r)) by (done || lia). lia.
Qed.

Lemma Check_spec l addr size t :
  ranges_ok l → is_u64 addr → is_u64 size → size ≠ 0 →
  Check l addr size t =
    if 0 <? size - permitted_count l t addr size
    then bad_msg addr (size - permitted_count l t addr size) else Err.no_error.
Proof.
  intros Hok Ha Hs Hne. unfold Check. rewrite (proj2 (Z.eqb_neq size 0)) by done.
  destruct (upper_bound _ l) as [pre post] eqn:Hu.
  destruct (split_right addr l pre post) as (-> & Hpre & Hpost & Hend & _); [apply Ha|done|done|].
  assert (Heq : permitted_count (pre ++ post) t addr size = permitted_count post t addr size).
  { apply sum_range_ext. intros x Hx. unfold permits. rewrite perm_at_app.
    by rewrite (perm_at_after 0 pre x) by (done || lia). }
  rewrite Heq. pose proof (permitted_bounds post t addr size ltac:(apply Hs)). unfold is_u64 in *.
  by rewrite (check_right_spec addr size t post (end_of 0 pre))
    by (try done; try lia; pose proof (end_of_ge 0 pre Hpre); lia).
Qed.

Lemma CheckAddrOnly_spec l addr :
  ranges_ok l → is_u64 addr →
  CheckAddrOnly l addr = if bool_decide (is_Some (perm_at l addr)) then Err.no_error else bad_msg addr 1.
Proof.
  intros Hok Ha. unfold CheckAddrOnly. destruct (upper_bound _ l) as [pre post] eqn:Hu.
  destruct (split_right addr l pre post) as (-> & Hpre & Hpost & Hend & Hhead); [apply Ha|done|done|].
  rewrite perm_at_app, (perm_at_after 0 pre addr) by done. simpl.
  destruct post as [|it post]; simpl; [done|].
  destruct Hpost as (? & ? & ? & Hrest). unfold in_range.
  destruct (Z.ltb_spec addr (addrL it)), (Z.leb_spec (addrR it) addr), (Z.leb_spec (addrL it) addr),
    (Z.ltb_spec addr (addrR it)); simpl; try lia; [|done].
  by rewrite (perm_at_before _ _ _ Hrest) by lia.
Qed.

Lemma overlap_scan_spec addr end_ l lo :
  ranges_from lo l → addr < end_ →
  overlap_scan addr end_ l = true ↔ Exists (λ r, addrL r < end_ ∧ addr < addrR r) l.
Proof.
  revert lo. induction l as [|r l IH]; intros lo Hr He; simpl.
  { split; [done|]. by intros ?%Exists_nil. }
  destruct Hr as (? & ? & ? & Hrest). rewrite Exists_cons.
  destruct (Z.leb_spec end_ (addrL r)).
  - split; [done|]. intros [?|Hex]; [lia|]. exfalso.
    assert (Hall : ∀ lo', end_ <= lo' → ranges_from lo' l → ¬ Exists (λ r, addrL r < end_ ∧ addr < addrR r) l).
    { clear. induction l as [|r l IH]; intros lo' Hlo Hr; simpl; [by intros ?%Exists_nil|].
      destruct Hr as (? & ? & ? & Hrest). intros [?|?]%Exists_cons; [lia|]. apply (IH (addrR r)); (done || lia). }
    apply (Hall (addrR r)); (done || lia).
  - destruct (Z.ltb_spec addr (addrR r)); [split; [left; lia|done]|].
    rewrite (IH (addrR r)) by done. split; [by right|]. intros [?|?]; [lia|done].
Qed.

(** *** Histories of updates *)

Inductive op := OAdd (addr size perm : Z) | ORemove (addr size : Z) | OSetPermission (addr size perm : Z).

Definition op_u64 (o : op) : Prop :=
  match o with OAdd a n _ | ORemove a n | OSetPermission a n _ => is_u64 a ∧ is_u64 n end.

Definition step (l : list Range) (o : op) : list Range :=
  match o with
  | OAdd a n p => (Add l a n p).1
  | ORemove a n => (Remove l a n).1
  | OSetPermission a n p => (SetPermission l a n p).1
  end.

(** The abstract state is the permission map itself. *)
Definition spec_step (f : Z → option Z) (o : op) (x : Z) : option Z :=
  match o with
  | OAdd a n p => if inside a n x && negb (Err.isError (CheckOverflow a n)) then Some p else f x
  | ORemove a n => if inside a n x && negb (Err.isError (CheckOverflow a n)) then None else f x
  | OSetPermission a n p =>
      if inside a n x && negb (Err.isError (CheckOverflow a n)) then (λ _, p) <$> f x else f x
  end.

(** No range of another permission reaches beyond an added one. *)
Definition op_safe (l : list Range) (o : op) : bool :=
  match o with
  | OAdd a n p => match cut_prev l a p with Some prev => addrR prev <=? a + n | None => true end
  | _ => true
  end.

Fixpoint all_safe (l : list Range) (os : list op) : bool :=
  match os with [] => true | o :: os' => op_safe l o && all_safe (step l o) os' end.

Lemma step_ok l o : ranges_ok l → op_u64 o → ranges_ok (step l o).
Proof.
  intros Hok Hu. destruct o as [a n p|a n|a n p]; destruct Hu; simpl;
    destruct (Err.isError (CheckOverflow a n)) eqn:E.
  - unfold Add. by rewrite E.
  - by apply Add_spec.
  - unfold Remove. by rewrite E.
  - by apply Remove_spec.
  - unfold SetPermission. by rewrite E.
  - by apply SetPermission_spec.
Qed.

Lemma step_refines l o x :
  ranges_ok l → op_u64 o → op_safe l o = true → perm_at (step l o) x = spec_step (perm_at l) o x.
Proof.
  intros Hok Hu Hsafe. destruct o as [a n p|a n|a n p]; destruct Hu; simpl;
    destruct (Err.isError (CheckOverflow a n)) eqn:E; simpl; rewrite ?andb_false_r, ?andb_true_r.
  - unfold Add. by rewrite E.
  - destruct (Add_spec l a n p) as [_ ->]; try done. simpl in Hsafe.
    unfold dropped, inside. destruct (cut_prev l a p); [|done]. bool_prop.
    repeat case_cmp; simpl; (done || lia).
  - unfold Remove. by rewrite E.
  - by apply Remove_spec.
  - unfold SetPermission. by rewrite E.
  - by apply SetPermission_spec.
Qed.

Lemma steps_ok os : ∀ l, ranges_ok l → Forall op_u64 os → ranges_ok (foldl step l os).
Proof.
  induction os as [|o os IH]; intros l Hok Hu; simpl; [done|]. apply Forall_cons in Hu as [Ho Hu].
  apply IH; [by apply step_ok|done].
Qed.

Lemma steps_refine os x : ∀ l,
  ranges_ok l → Forall op_u64 os → all_safe l os = true →
  perm_at (foldl step l os) x = foldl spec_step (perm_at l) os x.
Proof.
  induction os as [|o os IH]; intros l Hok Hu Hs; simpl; [done|].
  apply Forall_cons in Hu as [Ho Hu]. simpl in Hs. apply andb_prop in Hs as [Hso Hs].
  rewrite IH by (try done; by apply step_ok). clear IH Hs.
  assert (Heq : ∀ y, perm_at (step l o) y = spec_step (perm_at l) o y) by (intros; by apply step_refines).
  revert Heq. generalize (perm_at (step l o)), (spec_step (perm_at l) o). clear.
  induction os as [|o os IH]; intros f g Heq; simpl; [done|]. apply IH. intros y.
  destruct o; simpl; by rewrite Heq.
Qed.

(** [std::upper_bound] needs its predicate to be monotone along the vector; it
    is, for both predicates used. *)
Lemma ends_partitioned l lo addr :
  ranges_from lo l →
  (∀ pre r post, l = pre ++ r :: post → addr < addrR r → Forall (λ q, addr < addrR q) post) ∧
  (∀ pre r post, l = pre ++ r :: post → addr < addrL r → Forall (λ q, addr < addrL q) post).
Proof.
  intros Hl.
  assert (Hafter : ∀ b m, ranges_from b m → addr < b → Forall (λ q, addr < addrL q ∧ addr < addrR q) m).
  { intros b m. revert b. induction m as [|q m IH]; intros b Hm Hb; [done|].
    destruct Hm as (? & ? & ? & Hm). constructor; [lia|]. apply (IH (addrR q)); (done || lia). }
  split; intros pre r post -> Hr; apply ranges_from_app in Hl as [_ (? & ? & ? & Hpost)];
    (eapply Forall_impl; [apply (Hafter (addrR r)); [done|lia]|]); simpl; tauto.
Qed.
End Bounds.

(** ** [BoundsCheck]: one [Bounds] object per address space *)

#[export] Instance AddressSpace_countable : Countable AddressSpace.
Proof.
  refine (inj_countable AddressSpace_code
    (λ z, List.find (λ s, AddressSpace_code s =? z) [PRIVATE; GM; L1; L0A; L0B; L0C; UB; BT; FB; UNKNOWN]) _).
  by intros [].
Defined.

Module BoundsCheck.
Import Bounds.

(** The two implementations of the abstract class. *)
Inductive Bounds := DiscreteBounds (ranges_ : list Range) | UnionBounds (range_ : Range).

Definition Bounds_Add (b : Bounds) (addr size perm : Z) : Bounds * ErrorMsg :=
  match b with
  | DiscreteBounds l => let '(l, msg) := Bounds.Add l addr size perm in (DiscreteBounds l, msg)
  | UnionBounds _ => (b, Err.no_error)
  end.
Definition Bounds_Remove (b : Bounds) (addr size : Z) : Bounds * ErrorMsg :=
  match b with
  | DiscreteBounds l => let '(l, msg) := Bounds.Remove l addr size in (DiscreteBounds l, msg)
  | UnionBounds _ => (b, Err.no_error)
  end.
Definition Bounds_SetPermission (b : Bounds) (addr size perm : Z) : Bounds * ErrorMsg :=
  match b with
  | DiscreteBounds l => let '(l, msg) := Bounds.SetPermission l addr size perm in (DiscreteBounds l, msg)
  | UnionBounds _ => (b, Err.no_error)
  end.
Definition Bounds_Check (b : Bounds) (addr size : Z) (t : AccessType) : ErrorMsg :=
  match b with
  | DiscreteBounds l => Bounds.Check l addr size t
  | UnionBounds r => Union_Check r addr size t
  end.
Definition Bounds_HasOverlap (b : Bounds) (addr size : Z) : bool :=
  match b with
  | DiscreteBounds l => Bounds.HasOverlap l addr size
  | UnionBounds r => Union_HasOverlap r addr size
  end.

Record BoundsCheck := { localMemoryNeedAlloc_ : bool; bounds_ : gmap AddressSpace Bounds }.

(** [BoundsCheck(localMemoryNeedAlloc)] *)
Definition new_BoundsCheck (localMemoryNeedAlloc : bool) : BoundsCheck :=
  let m : gmap AddressSpace Bounds := {[ GM := DiscreteBounds [] ]} in
  {| localMemoryNeedAlloc_ := localMemoryNeedAlloc;
     bounds_ :=
       if localMemoryNeedAlloc then
         <[UB := DiscreteBounds []]> (<[L0C := DiscreteBounds []]> (<[L0B := DiscreteBounds []]>
           (<[L0A := DiscreteBounds []]> (<[L1 := DiscreteBounds []]> m))))
       else m |}.

Definition Init (b : BoundsCheck) (c : ChipInfo) : BoundsCheck :=
  let u size := UnionBounds (new_UnionBounds 0 size) in
  let m :=
    if negb (localMemoryNeedAlloc_ b) then
      <[UB := u (ubSize c)]> (<[L0C := u (l0cSize c)]> (<[L0B := u (l0bSize c)]>
        (<[L0A := u (l0aSize c)]> (<[L1 := u (l1Size c)]> (bounds_ b)))))
    else bounds_ b in
  {| localMemoryNeedAlloc_ := localMemoryNeedAlloc_ b;
     bounds_ := <[PRIVATE := u (privateSize c)]> m |}.

Definition with_bounds (b : BoundsCheck) (space : AddressSpace) (x : Bounds) : BoundsCheck :=
  {| localMemoryNeedAlloc_ := localMemoryNeedAlloc_ b; bounds_ := <[space := x]> (bounds_ b) |}.

Definition Add (b : BoundsCheck) (space : AddressSpace) (addr size perm : Z) : BoundsCheck * ErrorMsg :=
  match bounds_ b !! space with
  | None => (b, Err.no_error)
  | Some x => let '(x, msg) := Bounds_Add x addr size perm in (with_bounds b space x, msg)
  end.

Definition Remove (b : BoundsCheck) (space : AddressSpace) (addr size : Z) : BoundsCheck * ErrorMsg :=
  match bounds_ b !! space with
  | None => (b, Err.no_error)
  | Some x => let '(x, msg) := Bounds_Remove x addr size in (with_bounds b space x, msg)
  end.

Definition SetPermission (b : BoundsCheck) (space : AddressSpace) (addr size perm : Z)
    : BoundsCheck * ErrorMsg :=
  match bounds_ b !! space with
  | None => (b, Err.no_error)
  | Some x => let '(x, msg) := Bounds_SetPermission x addr size perm in (with_bounds b space x, msg)
  end.

Definition Check (b : BoundsCheck) (space : AddressSpace) (addr size : Z) (t : AccessType) : ErrorMsg :=
  match bounds_ b !! space with
  | None =>
      if bool_decide (space = UNKNOWN) then
        Err.upd_aux (Aux.set_nBadBytes size)
          (Err.SetType (match t with READ => ILLEGAL_ADDR_READ | _ => ILLEGAL_ADDR_WRITE end)
             space addr Err.no_error)
      else Err.no_error
  | Some x => Bounds_Check x addr size t
  end.

Definition HasOverlap (b : BoundsCheck) (space : AddressSpace) (addr size : Z) : bool :=
  match bounds_ b !! space with None => false | Some x => Bounds_HasOverlap x addr size end.

(** *** Meaning of an object of either class *)

Definition bounds_ranges (b : Bounds) : list Range :=
  match b with DiscreteBounds l => l | UnionBounds r => [r] end.
Definition bounds_ok (b : Bounds) : Prop := ranges_ok (bounds_ranges b).

(** The one-range class checks like a vector with that range. *)
Lemma Union_Check_single r addr size t :
  ranges_ok [r] → is_u64 addr → is_u64 size → Union_Check r addr size t = Bounds.Check [r] addr size t.
Proof.
  intros Hok Ha Hs. destruct (Z.eq_dec size 0) as [->|Hne].
  { unfold Union_Check, Bounds.Check. simpl. rewrite CheckAddrOnly_spec by done. simpl.
    unfold Union_CheckAddrOnly, in_range. by repeat case_cmp; simpl; try lia. }
  rewrite Check_spec by done. rewrite (permitted_cons 0) by done.
  rewrite (permitted_none []), Z.add_0_r by (try done; apply Hs).
  unfold Union_Check. rewrite (proj2 (Z.eqb_neq size 0)) by done.
  assert (0 <= (if HasPermission (permission r) t then OverlapSize r addr size else 0) <= size) as Hb.
  { pose proof (permitted_bounds [r] t addr size ltac:(apply Hs)) as Hb.
    rewrite (permitted_cons 0), (permitted_none []), Z.add_0_r in Hb by (try done; apply Hs). done. }
  unfold is_u64 in *. destruct (HasPermission (permission r) t); simpl; u64_simpl;
    repeat case_cmp; try lia; done.
Qed.

Lemma Bounds_Check_spec b addr size t :
  bounds_ok b → is_u64 addr → is_u64 size → size ≠ 0 →
  Bounds_Check b addr size t =
    let bad := size - permitted_count (bounds_ranges b) t addr size in
    if 0 <? bad then bad_msg addr bad else Err.no_error.
Proof.
  intros Hok Ha Hs Hne. destruct b as [l|r]; simpl; [by apply Check_spec|].
  rewrite Union_Check_single by done. by apply Check_spec.
Qed.
End BoundsCheck.
