(* ===== verification/BoundsTheorems.v ===== *)
(** What the bounds checker promises:
    [csrc/address_sanitizer/bounds_check.cpp]. *)
From stdpp Require Import base numbers list option gmap.
From S2P Require Import Prelude.
From S2P Require Import RecordDefs.
From S2P Require Import BoundsCheck.
Import Bounds.

(** C18: the vector of ranges implements a permission map: after any history of
    [Add], [Remove] and [SetPermission] on an empty [DiscreteBounds] it is sorted
    and disjoint, and as long as no [Add] lands inside a larger range of another
    permission, the permission of every address is what the same history does
    to a plain map from addresses to permissions. *)
Theorem bounds_refine_permission_map os :
  Forall op_u64 os →
  ranges_ok (foldl step [] os) ∧
  (all_safe [] os = true → ∀ x, perm_at (foldl step [] os) x = foldl spec_step (λ _, None) os x).
Proof.
  intros Hu. split; [by apply steps_ok|]. intros Hs x. by apply steps_refine.
Qed.

Lemma bounds_refine_permission_map_witness :
  let os := [OAdd 4096 512 3; OAdd 4608 64 1; ORemove 4200 8; OSetPermission 4300 16 2] in
  perm_at (foldl step [] os) 4310 = foldl spec_step (λ _, None) os 4310.
Proof.
  apply (bounds_refine_permission_map
    [OAdd 4096 512 3; OAdd 4608 64 1; ORemove 4200 8; OSetPermission 4300 16 2]).
  - repeat constructor; simpl; unfold is_u64; lia.
  - by vm_compute.
Defined.

(** C23: an access is judged byte by byte: for either bounds class, [Check]
    reports exactly the number of addresses of the request that are not
    allocated with the needed permission, and reports nothing exactly when all
    of them are. *)
Theorem access_check_exact b addr size t :
  BoundsCheck.bounds_ok b → is_u64 addr → is_u64 size → size ≠ 0 →
  let bad := size - permitted_count (BoundsCheck.bounds_ranges b) t addr size in
  BoundsCheck.Bounds_Check b addr size t = (if 0 <? bad then bad_msg addr bad else Err.no_error) ∧
  (Err.isError (BoundsCheck.Bounds_Check b addr size t) = false ↔
   ∀ x, addr <= x < addr + size → permits (BoundsCheck.bounds_ranges b) t x = true).
Proof.
  intros Hok Ha Hs Hne bad. rewrite BoundsCheck.Bounds_Check_spec by done. split; [done|].
  pose proof (unpermitted_pos (BoundsCheck.bounds_ranges b) t addr size ltac:(apply Hs)) as Hpos.
  fold bad in Hpos |- *. cbv zeta. case_cmp; simpl.
  - split; [done|]. intros Hall. apply Hpos in H as (x & Hx & Hp). by rewrite Hall in Hp.
  - split; [|done]. intros _ x Hx. destruct (permits _ _ x) eqn:E; [done|]. exfalso.
    assert (0 < bad) by (apply Hpos; eauto). lia.
Qed.

Lemma access_check_exact_witness :
  let b := BoundsCheck.DiscreteBounds (Bounds.Add [] 4096 512 3).1 in
  BoundsCheck.Bounds_Check b 4600 16 READ = bad_msg 4600 8.
Proof.
  intros b. destruct (access_check_exact b 4600 16 READ) as [-> _].
  - apply (Add_spec [] 4096 512 3); by vm_compute.
  - by vm_compute.
  - by vm_compute.
  - done.
  - by vm_compute.
Defined.

(** Adding inside a larger range of another permission loses memory:
    everything between the end of the request and the end of the enclosing range
    is no longer allocated, so a following access there is reported although
    nothing was freed. *)
Theorem add_drops_tail l addr size p r x :
  ranges_ok l → is_u64 addr → is_u64 size → Err.isError (CheckOverflow addr size) = false →
  cut_prev l addr p = Some r → addr + size <= x < addrR r →
  perm_at l x = Some (permission r) ∧ perm_at (Bounds.Add l addr size p).1 x = None.
Proof.
  intros Hok Ha Hs Hov Hc Hx. destruct (Add_spec l addr size p) as [_ Hp]; try done. unfold is_u64 in *.
  split.
  - unfold cut_prev in Hc. destruct (upper_bound _ l) as [pre post] eqn:Hu.
    apply upper_bound_split in Hu as (-> & Hf & _). simpl in Hc.
    apply bind_Some in Hc as (prev & Hlast & Hif). apply last_Some in Hlast as [pre' ->].
    case_match; simplify_eq. apply Forall_app in Hf as [_ Hr]. apply Forall_cons in Hr as [Hr _]. bool_prop.
    apply ranges_from_app in Hok as [Hpre _]. apply ranges_from_app in Hpre as [Hpre' (? & ? & ? & _)].
    rewrite !perm_at_app, (perm_at_after 0 pre') by (done || lia). simpl.
    unfold in_range. by repeat case_cmp; simpl; try lia.
  - rewrite Hp. unfold dropped, inside. rewrite Hc. repeat case_cmp; simpl; done || lia.
Qed.

Lemma add_drops_tail_witness :
  let l := (Bounds.Add [] 4096 512 1).1 in
  perm_at l 4400 = Some 1 ∧ perm_at (Bounds.Add l 4200 16 3).1 4400 = None.
Proof.
  intros l. apply (add_drops_tail l 4200 16 3 {| addrL := 4096; addrR := 4608; permission := 1 |} 4400);
    by vm_compute.
Defined.

(** [HasOverlap] of a vector answers "yes" exactly when some range shares
    an address interval with the request (and never for an empty request or one
    that leaves the 64-bit space). *)
Theorem overlap_exact l addr size :
  ranges_ok l → is_u64 addr → is_u64 size →
  Bounds.HasOverlap l addr size = true ↔
    size ≠ 0 ∧ addr + size < 2 ^ 64 ∧ Exists (λ r, addrL r < addr + size ∧ addr < addrR r) l.
Proof.
  intros Hok Ha Hs. unfold Bounds.HasOverlap, is_u64, UINT64_MAX in *. u64_simpl.
  destruct (Z.eqb_spec size 0); simpl; [naive_solver lia|].
  destruct (Z.ltb_spec (18446744073709551615 - size) addr); [split; [done|lia]|].
  u64_simpl. rewrite (overlap_scan_spec _ _ l 0) by (done || lia). split; [|tauto].
  intros. split_and!; [done|lia|done].
Qed.

Lemma overlap_exact_witness :
  Bounds.HasOverlap (Bounds.Add [] 4096 512 1).1 4600 16 = true.
Proof.
  apply (overlap_exact (Bounds.Add [] 4096 512 1).1 4600 16);
    [by vm_compute..|].
  split_and!; [done|lia|]. by apply Exists_cons_hd.
Defined.
