(* ===== verification/EventDef.v ===== *)
(** Events: [csrc/core/framework/event_def.h], with the enumerations of
    [record_defs.h] and [arch_def.h] they use, and the conversions of
    [format_converter.cpp].

    A [SanEvent] carries a tag and a union; the model has one constructor per
    union member and [event_type] gives the tag that goes with it. The pointer
    [timeInfo] of a time event is an index into the pool it points into. *)
From stdpp Require Import base numbers list option strings.
From S2P Require Import Prelude.
From S2P Require Import RecordDefs.
From S2P Require Import Platform.

(** ** Record types *)

Module RecordType.
Inductive RecordType :=
  | LOAD | STORE | LD | LD_IO | ST | ST_IO | STP | STI | STI_IO | LDP | ST_ATOMIC | STI_ATOMIC |
  ST_DEV | LD_DEV | DCCI | DMA_MOV | MOV_ALIGN | MOV_ALIGN_V2 | VEC_DUP | LOAD_2D | LOAD_L1_2D |
  LOAD_L1_MX_2D | LOAD_L1_2D_TRANSPOSE | LOAD_B2 | LOAD_A_WINOGRAD | LOAD_B_WINOGRAD | LOAD_3D |
  SET_2D | SET_L1_2D | DMA_MOV_ND2NZ | MOV_BT | LOAD_IMAGE | MOV_FP | LOAD_2D_SPARSE |
  LOAD_2D_TRANSPOSE | DECOMPRESS_HEADER | DMA_MOV_CONV_RELU | LOAD_SMASK | BROADCAST |
  DMA_MOV_DEPTH_WISE | ND_DMA_OUT_TO_UB | DC_PRELOAD | DMA_MOV_ND2NZ_D | DMA_MOV_DN2NZ_D |
  SCALAR_RED | SCALAR_ATOM | LDVA | MOV_L1_TO_UB | MOV_UB_TO_L1 | MOV_UB_TO_UB | MOV_CBUF_TO_BT |
  MOV_CBUF_TO_FB | VMRGSORT4_OP_C220 | VMRGSORT4_OP_M200 | VMRGSORT4_OP_C310 | FIX_L0C_TO_L1 |
  FIX_L0C_TO_UB | LOAD_3D_V2 | SIMD_START | UNARY_OP | VGATHER | ELEMENT | BINARY_OP |
  TERNARY_OP | REDUCE_OP | MATRIX_MUL_OP | MMAD_A5 | VEC_REGPROPCOOR_OP | CMPMASK_OP | VCOPY_OP |
  VREDUCEV2_UNARY | VREDUCEV2_BINARY | VREDUCEV2 | VCONV_DST_S4_OP | VCONV_SRC_S4_OP | VSEL_OP |
  SIMD_END | SET_FLAG | WAIT_FLAG | HSET_FLAG | HWAIT_FLAG | PIPE_BARRIER | FFTS_SYNC |
  WAIT_FLAG_DEV | SET_ATOMIC | IB_SET_STUB | IB_WAIT_STUB | SYNC_ALL_STUB | WAIT_FLAG_DEV_PIPE |
  WAIT_FLAG_DEVI_PIPE | SET_INTRA_BLOCK | WAIT_INTRA_BLOCK | SET_INTRA_BLOCKI |
  WAIT_INTRA_BLOCKI | MSTX_STUB | SCATTERVNCHWCONV | SCATTERVNCHWCONV_A5 | VBS32_A5 | GET_BUF |
  GET_BUFI | RLS_BUF | RLS_BUFI | SET_FLAGI | WAIT_FLAGI | HSET_FLAGI | HWAIT_FLAGI | SET_FLAG_V |
  SET_FLAGI_V | WAIT_FLAG_V | WAIT_FLAGI_V | FFTS_SYNC_V | WAIT_FLAG_DEV_PIPE_V |
  WAIT_FLAG_DEVI_PIPE_V | SET_INTRA_BLOCK_V | SET_INTRA_BLOCKI_V | WAIT_INTRA_BLOCK_V |
  WAIT_INTRA_BLOCKI_V | GET_BUF_V | GET_BUFI_V | RLS_BUF_V | RLS_BUFI_V | DSB | SIMT_START |
  SIMT_LDG | SIMT_STG | SIMT_LDS | SIMT_STS | SIMT_LDK | SIMT_STK | SIMT_LD | SIMT_ST |
  SIMT_ATOM | SIMT_RED | THREAD_BLOCK_BARRIER | SIMT_END | MAIN_SCALAR_EMPTY_START | SIMT_CALL |
  MAIN_SCALAR_EMPTY_END | ONLINE_ERROR | REGISTER_START | SET_VECTOR_MASK_0 | SET_VECTOR_MASK_1 |
  SET_CTRL | SET_FFTS_BASE_ADDR | SET_FPC | SET_QUANT_PRE | SET_QUANT_POST | SET_LRELU_ALPHA |
  DYNAMIC_OP | SIMT_ENTRY | BLOCK_FINISH | KERNEL_FINISH | FINISH.

Definition code (r : RecordType) : Z :=
  match r with
  | LOAD => 0 | STORE => 1 | LD => 2 | LD_IO => 3 | ST => 4 | ST_IO => 5 | STP => 6 | STI => 7
  | STI_IO => 8 | LDP => 9 | ST_ATOMIC => 10 | STI_ATOMIC => 11 | ST_DEV => 12 | LD_DEV => 13
  | DCCI => 14 | DMA_MOV => 100 | MOV_ALIGN => 101 | MOV_ALIGN_V2 => 102 | VEC_DUP => 103
  | LOAD_2D => 104 | LOAD_L1_2D => 105 | LOAD_L1_MX_2D => 106 | LOAD_L1_2D_TRANSPOSE => 107
  | LOAD_B2 => 108 | LOAD_A_WINOGRAD => 109 | LOAD_B_WINOGRAD => 110 | LOAD_3D => 111
  | SET_2D => 112 | SET_L1_2D => 113 | DMA_MOV_ND2NZ => 114 | MOV_BT => 115 | LOAD_IMAGE => 116
  | MOV_FP => 117 | LOAD_2D_SPARSE => 118 | LOAD_2D_TRANSPOSE => 119 | DECOMPRESS_HEADER => 120
  | DMA_MOV_CONV_RELU => 121 | LOAD_SMASK => 122 | BROADCAST => 123 | DMA_MOV_DEPTH_WISE => 124
  | ND_DMA_OUT_TO_UB => 125 | DC_PRELOAD => 126 | DMA_MOV_ND2NZ_D => 127 | DMA_MOV_DN2NZ_D => 128
  | SCALAR_RED => 129 | SCALAR_ATOM => 130 | LDVA => 131 | MOV_L1_TO_UB => 132
  | MOV_UB_TO_L1 => 133 | MOV_UB_TO_UB => 134 | MOV_CBUF_TO_BT => 135 | MOV_CBUF_TO_FB => 136
  | VMRGSORT4_OP_C220 => 137 | VMRGSORT4_OP_M200 => 138 | VMRGSORT4_OP_C310 => 139
  | FIX_L0C_TO_L1 => 140 | FIX_L0C_TO_UB => 141 | LOAD_3D_V2 => 142 | SIMD_START => 9999
  | UNARY_OP => 10000 | VGATHER => 10001 | ELEMENT => 10002 | BINARY_OP => 10003
  | TERNARY_OP => 10004 | REDUCE_OP => 10005 | MATRIX_MUL_OP => 10006 | MMAD_A5 => 10007
  | VEC_REGPROPCOOR_OP => 10008 | CMPMASK_OP => 10009 | VCOPY_OP => 10010
  | VREDUCEV2_UNARY => 10011 | VREDUCEV2_BINARY => 10012 | VREDUCEV2 => 10013
  | VCONV_DST_S4_OP => 10014 | VCONV_SRC_S4_OP => 10015 | VSEL_OP => 10016 | SIMD_END => 19999
  | SET_FLAG => 20000 | WAIT_FLAG => 20001 | HSET_FLAG => 20002 | HWAIT_FLAG => 20003
  | PIPE_BARRIER => 20004 | FFTS_SYNC => 20005 | WAIT_FLAG_DEV => 20006 | SET_ATOMIC => 20007
  | IB_SET_STUB => 20008 | IB_WAIT_STUB => 20009 | SYNC_ALL_STUB => 20010
  | WAIT_FLAG_DEV_PIPE => 20011 | WAIT_FLAG_DEVI_PIPE => 20012 | SET_INTRA_BLOCK => 20013
  | WAIT_INTRA_BLOCK => 20014 | SET_INTRA_BLOCKI => 20015 | WAIT_INTRA_BLOCKI => 20016
  | MSTX_STUB => 20017 | SCATTERVNCHWCONV => 20018 | SCATTERVNCHWCONV_A5 => 20019
  | VBS32_A5 => 20020 | GET_BUF => 20021 | GET_BUFI => 20022 | RLS_BUF => 20023
  | RLS_BUFI => 20024 | SET_FLAGI => 20025 | WAIT_FLAGI => 20026 | HSET_FLAGI => 20027
  | HWAIT_FLAGI => 20028 | SET_FLAG_V => 20029 | SET_FLAGI_V => 20030 | WAIT_FLAG_V => 20031
  | WAIT_FLAGI_V => 20032 | FFTS_SYNC_V => 20033 | WAIT_FLAG_DEV_PIPE_V => 20034
  | WAIT_FLAG_DEVI_PIPE_V => 20035 | SET_INTRA_BLOCK_V => 20036 | SET_INTRA_BLOCKI_V => 20037
  | WAIT_INTRA_BLOCK_V => 20038 | WAIT_INTRA_BLOCKI_V => 20039 | GET_BUF_V => 20040
  | GET_BUFI_V => 20041 | RLS_BUF_V => 20042 | RLS_BUFI_V => 20043 | DSB => 20044
  | SIMT_START => 39999 | SIMT_LDG => 40000 | SIMT_STG => 40001 | SIMT_LDS => 40002
  | SIMT_STS => 40003 | SIMT_LDK => 40004 | SIMT_STK => 40005 | SIMT_LD => 40006
  | SIMT_ST => 40007 | SIMT_ATOM => 40008 | SIMT_RED => 40009 | THREAD_BLOCK_BARRIER => 40010
  | SIMT_END => 50000 | MAIN_SCALAR_EMPTY_START => 51000 | SIMT_CALL => 51001
  | MAIN_SCALAR_EMPTY_END => 52000 | ONLINE_ERROR => 60000 | REGISTER_START => 70000
  | SET_VECTOR_MASK_0 => 70001 | SET_VECTOR_MASK_1 => 70002 | SET_CTRL => 70003
  | SET_FFTS_BASE_ADDR => 70004 | SET_FPC => 70005 | SET_QUANT_PRE => 70006
  | SET_QUANT_POST => 70007 | SET_LRELU_ALPHA => 70008 | DYNAMIC_OP => 79999 | SIMT_ENTRY => 80000
  | BLOCK_FINISH => 100000 | KERNEL_FINISH => 100001 | FINISH => 100002
  end.

(** Comparisons of the source are on the codes. *)
Definition eqb (a b : RecordType) : bool := code a =? code b.
End RecordType.

Definition INVALID_RECORD_TYPE : Z := 0xFFFFFFFF.

Inductive AtomicMode :=
  | AM_NONE | AM_F32 | AM_F16 | AM_S16 | AM_S32 | AM_S8 | AM_BF16 | AM_SUM | AM_MAX | AM_MIN.

Inductive DataType := DATA_B4 | DATA_B8 | DATA_B16 | DATA_B32.
#[export] Instance DataType_eq : EqDecision DataType. Proof. solve_decision. Defined.

Inductive PadMode :=
  | PAD_NONE | PAD_MODE1 | PAD_MODE2 | PAD_MODE3 | PAD_MODE4 | PAD_MODE5 | PAD_MODE6 | PAD_MODE7
  | PAD_MODE8.

(** ** Architecture *)

Module MemType.
Inductive MemType := L1 | L0A | L0B | L0C | UB | BT | GM | PRIVATE | FB | UNKNOWN.
#[global] Instance MemType_eq : EqDecision MemType. Proof. solve_decision. Defined.
End MemType.

Definition MemType_code (m : MemType.MemType) : Z :=
  match m with
  | MemType.L1 => 0 | MemType.L0A => 1 | MemType.L0B => 2 | MemType.L0C => 3 | MemType.UB => 4
  | MemType.BT => 5 | MemType.GM => 6 | MemType.PRIVATE => 7 | MemType.FB => 8 | MemType.UNKNOWN => 9
  end.

Inductive PipeType :=
  | PIPE_S | PIPE_V | PIPE_M | PIPE_MTE1 | PIPE_MTE2 | PIPE_MTE3 | PIPE_ALL | PIPE_MTE4 | PIPE_MTE5
  | PIPE_V2 | PIPE_FIX | PIPE_S_CAL | PIPE_SIZE.
#[export] Instance PipeType_eq : EqDecision PipeType. Proof. solve_decision. Defined.

Definition PipeType_code (p : PipeType) : Z :=
  match p with
  | PIPE_S => 0 | PIPE_V => 1 | PIPE_M => 2 | PIPE_MTE1 => 3 | PIPE_MTE2 => 4 | PIPE_MTE3 => 5
  | PIPE_ALL => 6 | PIPE_MTE4 => 7 | PIPE_MTE5 => 8 | PIPE_V2 => 9 | PIPE_FIX => 10
  | PIPE_S_CAL => 11 | PIPE_SIZE => 12
  end.

Inductive KernelType := KT_AICPU | KT_AIVEC | KT_AICUBE | KT_MIX.
#[export] Instance KernelType_eq : EqDecision KernelType. Proof. solve_decision. Defined.

(** ** Events *)

Inductive EventType :=
  | SANITIZER_CONTROL_EVENT | MEM_EVENT | SYNC_EVENT | TIME_EVENT | CROSS_CORE_SYNC_EVENT
  | CROSS_CORE_SOFT_SYNC_EVENT | MSTX_CROSS_SYNC_EVENT | REGISTER_EVENT | H_SYNC_EVENT
  | BUF_SYNC_EVENT | MSTX_SIGNAL_SET_EVENT | MSTX_SIGNAL_WAIT_EVENT | MSTX_CROSS_CORE_BARRIER
  | MSTX_CROSS_NPU_BARRIER | DYNAMIC_MEM_EVENT.

Inductive SanitizerControlType := CONTROL_KERNEL_FINISH | CONTROL_FINISH.
#[export] Instance SanitizerControlType_eq : EqDecision SanitizerControlType.
Proof. solve_decision. Defined.

Inductive SyncType :=
  | SET_FLAG | WAIT_FLAG | PIPE_BARRIER | FFTS_SYNC | WAIT_FLAG_DEV | IB_SET | IB_WAIT | SYNC_ALL
  | MSTX_SET_CROSS | MSTX_WAIT_CROSS | GET_BUF | RLS_BUF | WAIT_INTRA_BLOCK | HSET_FLAG | HWAIT_FLAG
  | DSB.
#[export] Instance SyncType_eq : EqDecision SyncType. Proof. solve_decision. Defined.

Inductive RaceCheckType := SINGLE_BLOCK_CHECK | SINGLE_PIPE_CHECK | CROSS_BLOCK_CHECK | CROSS_NPU_CHECK.
#[export] Instance RaceCheckType_eq : EqDecision RaceCheckType. Proof. solve_decision. Defined.

Inductive InstrClass := INSTR_UNKNOWN | CUBE_MATMUL.
#[export] Instance InstrClass_eq : EqDecision InstrClass. Proof. solve_decision. Defined.

Inductive BufMode := BLOCK_MODE | NONBLOCK_MODE.
#[export] Instance BufMode_eq : EqDecision BufMode. Proof. solve_decision. Defined.

Record MemOpInfo := {
  memType : MemType.MemType; opType : AccessType; vectorMask : VectorMask; maskMode : Z; instrName : Z;
  dataBits : Z; addr : Z; blockNum : Z; blockSize : Z; blockStride : Z; repeatTimes : Z;
  repeatStride : Z; alignSize : Z; mem_ignoreIllegalCheck : bool; isScalarAtomic : bool;
  dcciDistance : Z; dstCoreId : Z; dstBlockType : BlockType; instrClass : InstrClass; matrixM : Z;
  matrixN : Z;
}.

Record SyncOpInfo := {
  sync_opType : SyncType; sync_srcPipe : PipeType; sync_dstPipe : PipeType; sync_eventId : Z;
  sync_memType : MemType.MemType; sync_isRetrogress : bool; sync_isGenerated : bool;
}.

Record HSyncOpInfo := {
  h_eventId : Z; h_srcPipe : PipeType; h_dstPipe : PipeType; h_opType : SyncType;
  h_memType : MemType.MemType; h_v : Z; h_isReplaced : bool;
}.

Record FftsSyncInfo := {
  ffts_opType : SyncType; ffts_dstPipe : PipeType; ffts_flagId : Z; ffts_mode : Z;
  ffts_vecSubBlockDim : Z;
}.

Record BufSyncInfo := {
  buf_opType : SyncType; buf_pipe : PipeType; buf_bufId : Z; buf_rlsCount : Z; buf_mode : BufMode;
}.

Record SoftSyncInfo := {
  soft_opType : SyncType; soft_eventID : Z; soft_waitCoreID : Z; soft_usedCores : Z; soft_isAIVOnly : bool;
}.

Record MstxCrossInfo := {
  mstx_addr : Z; mstx_flagId : Z; mstx_pipe : PipeType; mstx_isMore : bool; mstx_isMerge : bool;
  mstx_opType : SyncType;
}.

Inductive CompareOp := CMP_EQ | CMP_NE | CMP_GT | CMP_GE | CMP_LT | CMP_LE.

Record MstxSignalSet := { sigset_addr : Z; sigset_value : Z }.
Record MstxSignalWait := { sigwait_addr : Z; sigwait_cmpValue : Z; sigwait_cmpOp : CompareOp }.

(** Pointers to the id arrays are kept as addresses; the algorithms do not read
    through them. *)
Record MstxCrossCoreBarrier := {
  core_usedCoreNum : Z; core_usedCoreId : Z; core_isAIVOnly : bool; core_pipeBarrierAll : bool;
}.
Record MstxCrossNpuBarrier := {
  npu_usedDeviceNum : Z; npu_usedDeviceId : Z; npu_usedCoreNum : Z; npu_usedCoreId : Z;
  npu_isAIVOnly : bool; npu_pipeBarrierAll : bool;
}.

Record Location := { loc_fileNo : Z; loc_lineNo : Z; loc_pc : Z; loc_blockId : Z }.

Record ShadowMemoryRecord := {
  smr_addr : Z; smr_size : Z; smr_location : Location; smr_threadLoc : SimtThreadLocation;
  smr_space : AddressSpace; smr_accessType : AccessType;
}.

(** The buffer is the array of [count] records; [dyn_isSimtEntry] is
    [dynamicType == SIMT_ENTRY]. *)
Record DynamicOpInfo := {
  dyn_minAddr : Z; dyn_maxAddr : Z; dyn_isSimtEntry : bool; dyn_memType : MemType.MemType;
  dyn_buffer : list ShadowMemoryRecord;
}.

Module RegisterType.
Inductive RegisterType :=
  | VECTOR_MASK_0 | VECTOR_MASK_1 | CTRL | FFTS_BASE_ADDR | FPC | QUANT_PRE | QUANT_POST | LRELU_ALPHA
  | MAX.
#[global] Instance RegisterType_eq : EqDecision RegisterType. Proof. solve_decision. Defined.

Definition code (r : RegisterType) : Z :=
  match r with
  | VECTOR_MASK_0 => 0 | VECTOR_MASK_1 => 1 | CTRL => 2 | FFTS_BASE_ADDR => 3 | FPC => 4 | QUANT_PRE => 5
  | QUANT_POST => 6 | LRELU_ALPHA => 7 | MAX => 8
  end.
End RegisterType.

Inductive RegisterValueType := VAL_UINT64 | VAL_HALF | VAL_FLOAT | VAL_INT32.

Record RegisterPayload := mkRegPayload { regValType : RegisterValueType; regVal : Z; regIdx : Z }.
Record RegisterOpInfo := mkRegOp { regType : RegisterType.RegisterType; regPayLoad : RegisterPayload }.

Record LocInfo := {
  fileNo : Z; lineNo : Z; pc : Z; deviceIdx : Z; kernelIdx : Z; deviceId : Z; coreId : Z;
  blockType : BlockType;
}.

Inductive EventInfo :=
  | ControlInfo (i : SanitizerControlType) | SyncInfo (i : SyncOpInfo) | MemInfo (i : MemOpInfo)
  | FftsInfo (i : FftsSyncInfo) | BufInfo (i : BufSyncInfo) | SoftInfo (i : SoftSyncInfo)
  | CrossInfo (i : MstxCrossInfo) | HSyncInfo (i : HSyncOpInfo) | DynamicInfo (i : DynamicOpInfo)
  | TimeInfo (timeInfo : option nat) | RegInfo (i : RegisterOpInfo) | SignalSetInfo (i : MstxSignalSet)
  | SignalWaitInfo (i : MstxSignalWait) | CoreBarrierInfo (i : MstxCrossCoreBarrier)
  | NpuBarrierInfo (i : MstxCrossNpuBarrier).

Record SanEvent := {
  serialNo : Z; pipe : PipeType; eventInfo : EventInfo; loc : LocInfo; isAtomicMode : bool;
  recordType : Z; closedRingStartSerialNo : Z;
}.

Definition event_type (e : SanEvent) : EventType :=
  match eventInfo e with
  | ControlInfo _ => SANITIZER_CONTROL_EVENT | SyncInfo _ => SYNC_EVENT | MemInfo _ => MEM_EVENT
  | FftsInfo _ => CROSS_CORE_SYNC_EVENT | BufInfo _ => BUF_SYNC_EVENT
  | SoftInfo _ => CROSS_CORE_SOFT_SYNC_EVENT | CrossInfo _ => MSTX_CROSS_SYNC_EVENT
  | HSyncInfo _ => H_SYNC_EVENT | DynamicInfo _ => DYNAMIC_MEM_EVENT | TimeInfo _ => TIME_EVENT
  | RegInfo _ => REGISTER_EVENT | SignalSetInfo _ => MSTX_SIGNAL_SET_EVENT
  | SignalWaitInfo _ => MSTX_SIGNAL_WAIT_EVENT | CoreBarrierInfo _ => MSTX_CROSS_CORE_BARRIER
  | NpuBarrierInfo _ => MSTX_CROSS_NPU_BARRIER
  end.

Definition AddrSpaceToMemType (s : AddressSpace) : MemType.MemType :=
  match s with
  | L1 => MemType.L1 | L0A => MemType.L0A | L0B => MemType.L0B | L0C => MemType.L0C
  | UB => MemType.UB | GM => MemType.GM | BT => MemType.BT | FB => MemType.FB
  | UNKNOWN => MemType.UNKNOWN | PRIVATE => MemType.PRIVATE
  end.

(** ** [FormatConverter] *)

Module FormatConverter.
Definition MemTypeToAddrSpace (m : MemType.MemType) : AddressSpace :=
  match m with
  | MemType.L1 => L1 | MemType.L0A => L0A | MemType.L0B => L0B | MemType.L0C => L0C
  | MemType.UB => UB | MemType.BT => BT | MemType.GM => GM | MemType.PRIVATE => PRIVATE
  | MemType.FB => FB | MemType.UNKNOWN => UNKNOWN
  end.

Definition QueryPipeType (src dst : MemType.MemType) : PipeType :=
  match src, dst with
  | MemType.L1, (MemType.L0A | MemType.L0B | MemType.L0C | MemType.UB | MemType.BT) => PIPE_MTE1
  | MemType.L1, MemType.GM => PIPE_MTE3
  | MemType.GM, (MemType.L0A | MemType.L0B | MemType.L1 | MemType.UB) => PIPE_MTE2
  | MemType.UB, (MemType.GM | MemType.L1 | MemType.L0C) => PIPE_MTE3
  | MemType.L0C, MemType.UB => PIPE_V
  | MemType.UB, MemType.UB => PIPE_V
  | MemType.L0C, MemType.L1 => PIPE_FIX
  | MemType.L1, MemType.FB => PIPE_FIX
  | _, _ => PIPE_SIZE
  end.

Definition AccessTypeToMemOpType (t : AccessType) : MemOpType :=
  match t with READ => LOAD | WRITE => STORE | ACCESS_MEMCPY_BLOCKS => MEMCPY_BLOCKS end.

Definition GetDataSizeByType (d : DataType) : Z :=
  match d with DATA_B8 => 1 | DATA_B16 => 2 | DATA_B32 => 4 | DATA_B4 => 1 end.

(** The out-parameter, when the result is [true]. *)
Definition GetDataBitSizeByType (d : DataType) : option Z :=
  Some match d with DATA_B4 => 4 | DATA_B8 => 8 | DATA_B16 => 16 | DATA_B32 => 32 end.

Definition GetDataTypeByDataBits (dataBits : Z) : option DataType :=
  if dataBits =? 4 then Some DATA_B4 else if dataBits =? 8 then Some DATA_B8
  else if dataBits =? 16 then Some DATA_B16 else if dataBits =? 32 then Some DATA_B32 else None.

Definition FindAlignMap (key : string) : Z :=
  match table_find key ALIGN_MAP with Some n => n | None => 1 end.

Definition AlignRecordBySpace (space : AddressSpace) : Z :=
  match space with
  | UB => FindAlignMap "UB_NORMAL_ALIGN_SIZE"
  | L0A | L0B | L0C => FindAlignMap "L0A_L0B_L0C_NORMAL_ALIGN_SIZE"
  | L1 => FindAlignMap "L1_NORMAL_ALIGN_SIZE"
  | GM | BT | FB | PRIVATE | UNKNOWN => 1
  end.

Definition BITS_EACH_BYTE : Z := 8.

(** The out-parameter, when the result is [true]. *)
Definition IsElementAlign (dataBits : Z) (r : RecordType.RecordType) (d : DeviceType) : option Z :=
  if negb (bool_decide (d = ASCEND_310P)) ||
     (RecordType.code r <=? RecordType.code RecordType.SIMD_START) ||
     (RecordType.code RecordType.SIMD_END <=? RecordType.code r)
  then None else Some (dataBits / BITS_EACH_BYTE).

Definition IsSpecialAlign (m : MemOpInfo) (r : RecordType.RecordType) : option Z :=
  match r with
  | RecordType.VMRGSORT4_OP_M200 => Some (dataBits m)
  | RecordType.VMRGSORT4_OP_C220 | RecordType.VMRGSORT4_OP_C310 =>
      Some (if bool_decide (opType m = READ) then 8 else 32)
  | RecordType.LOAD | RecordType.STORE | RecordType.CMPMASK_OP => Some (u16 (blockSize m))
  | RecordType.DECOMPRESS_HEADER => Some 32
  | RecordType.DMA_MOV_CONV_RELU =>
      if bool_decide (memType m = MemType.L0C) && (blockSize m =? 64) then Some 1024 else None
  | RecordType.LOAD_SMASK => if bool_decide (memType m = MemType.GM) then Some 2 else None
  | RecordType.BROADCAST | RecordType.DMA_MOV_DEPTH_WISE =>
      if bool_decide (memType m = MemType.L0C) && (blockSize m =? 1024) then Some 1024 else None
  | _ => None
  end.

Definition GetAlignSize (m : MemOpInfo) (space : AddressSpace) (r : RecordType.RecordType)
    (d : DeviceType) : Z :=
  match IsElementAlign (dataBits m) r d with
  | Some n => n
  | None => match IsSpecialAlign m r with Some n => n | None => AlignRecordBySpace space end
  end.

Definition GetPadModeScaleValue (p : PadMode) : Z :=
  match p with
  | PAD_MODE1 => 32 | PAD_MODE2 => 16 | PAD_MODE3 => 8 | PAD_MODE4 => 4 | PAD_MODE5 => 2
  | PAD_MODE6 => 8 | PAD_MODE7 => 4 | PAD_MODE8 => 2 | PAD_NONE => 1
  end.

Definition CheckChannelSize (d : DataType) (channel : Z) : bool :=
  let '(divisor, remainders) :=
    match d with
    | DATA_B4 => (64, [0; 8; 16; 32]) | DATA_B8 => (32, [0; 4; 8; 16])
    | DATA_B16 => (16, [0; 4; 8]) | DATA_B32 => (8, [0; 4])
    end in
  existsb (Z.eqb (channel `mod` divisor)) remainders.

(** [GetAtomicFlag]: the flag when the record changes it. *)
Definition GetAtomicFlag (r : RecordType.RecordType) (mode : AtomicMode) : option bool :=
  match r with
  | RecordType.SET_ATOMIC =>
      match mode with
      | AM_SUM | AM_MIN | AM_MAX => None
      | AM_F32 | AM_F16 | AM_S16 | AM_S32 | AM_S8 | AM_BF16 => Some true
      | AM_NONE => Some false
      end
  | _ => None
  end.

(** Every memory type has its own address space, and back. *)
Lemma MemType_AddrSpace m : AddrSpaceToMemType (MemTypeToAddrSpace m) = m.
Proof. by destruct m. Qed.
Lemma AddrSpace_MemType s : MemTypeToAddrSpace (AddrSpaceToMemType s) = s.
Proof. by destruct s. Qed.
End FormatConverter.
