(* ===== verification/Convert.v ===== *)
(** From events to memory records: [csrc/address_sanitizer/address_sanitizer.cpp]
    (conversion of [MEM_EVENT]s and SIMT entries, merging of adjacent records).

    A memory event describes [repeatTimes] times [blockNum] blocks of
    [blockSize] bytes with two strides; the checker works on contiguous records.
    The template parameter [Records] of the source is a plain vector or a
    merging sink: a conversion is the list of records it emplaces, in order. *)
From stdpp Require Import base numbers list option strings.
From S2P Require Import Prelude.
From S2P Require Import RecordDefs.
From S2P Require Import EventDef.

Module Convert.
(** ** Conversion *)

Definition SetBasicMemInfo (record : MemOpRecord) (event : SanEvent) (memInfo : MemOpInfo) : MemOpRecord :=
  let space := FormatConverter.MemTypeToAddrSpace (memType memInfo) in
  Mor.set_recordType (recordType event)
    (Mor.set_side KERNEL (Mor.set_pc (pc (loc event)) (Mor.set_blockType (blockType (loc event))
    (Mor.set_lineNo (i32 (lineNo (loc event))) (Mor.set_srcSpace space (Mor.set_dstSpace space
    (Mor.set_moduleId (-1) (Mor.set_coreId (i32 (coreId (loc event)))
    (Mor.set_type (FormatConverter.AccessTypeToMemOpType (opType memInfo))
    (Mor.set_serialNo (serialNo event) record)))))))))).

Definition IsContinuousAddr (lhs rhs : MemOpRecord) : bool :=
  ((Mor.dstAddr lhs +u Mor.memSize lhs) =? Mor.dstAddr rhs) &&
  (negb (bool_decide (Mor.type lhs = MEMCPY_BLOCKS)) ||
   ((Mor.srcAddr lhs +u Mor.memSize lhs) =? Mor.srcAddr rhs)).

Definition IsSameOp (lhs rhs : MemOpRecord) : bool :=
  bool_decide (Mor.type lhs = Mor.type rhs) && bool_decide (Mor.dstSpace lhs = Mor.dstSpace rhs) &&
  (negb (bool_decide (Mor.type lhs = MEMCPY_BLOCKS)) || bool_decide (Mor.srcSpace lhs = Mor.srcSpace rhs)).

(** [MemRecordSink::emplace_back] *)
Definition sink_emplace_back (records_ : list MemOpRecord) (record : MemOpRecord) : list MemOpRecord :=
  match last records_ with
  | Some back =>
      if IsSameOp back record && IsContinuousAddr back record
      then removelast records_ ++ [Mor.set_memSize (Mor.memSize back +u Mor.memSize record) back]
      else records_ ++ [record]
  | None => records_ ++ [record]
  end.

(** One record per entry of the buffer; the fields not set in the loop are
    those of the first assignments. *)
Definition SimtEntryToSingle (event : SanEvent) (varInfo : DynamicOpInfo) : list MemOpRecord :=
  let record :=
    Mor.set_dstSpace (if bool_decide (dyn_memType varInfo = MemType.GM) then GM else UB)
      (Mor.set_side KERNEL (Mor.set_moduleId (-1) (Mor.set_blockType (blockType (loc event))
      (Mor.set_coreId (i32 (coreId (loc event))) (Mor.set_serialNo (serialNo event)
      (Mor.set_isSimt true (Mor.set_ignoreIllegalCheck true Mor.zero))))))) in
  (λ sm : ShadowMemoryRecord,
     Mor.set_type (FormatConverter.AccessTypeToMemOpType (smr_accessType sm))
       (Mor.set_mainScalarPc (mainScalarPc_ (smr_threadLoc sm)) (Mor.set_memSize (smr_size sm)
       (Mor.set_dstAddr (smr_addr sm) (Mor.set_pc (loc_pc (smr_location sm))
       (Mor.set_lineNo (i32 (loc_lineNo (smr_location sm))) record))))))
  <$> dyn_buffer varInfo.

(** [ProcessAndStoreMemOp]: the record that is stored. *)
Definition ProcessAndStoreMemOp (record : MemOpRecord) : MemOpRecord :=
  if bool_decide (Mor.type record = MEMCPY_BLOCKS)
  then Mor.set_srcAddr (Mor.dstAddr record) record else record.

Definition store_at (record : MemOpRecord) (addr size : Z) : MemOpRecord :=
  ProcessAndStoreMemOp (Mor.set_memSize size (Mor.set_dstAddr addr record)).

(** The 32-bit products of the [uint32_t] fields wrap. *)
Definition ConvertSingleRecordRepeats (memInfo : MemOpInfo) (record : MemOpRecord) : list MemOpRecord :=
  let memSize := if blockStride memInfo =? 1 then u32 (blockSize memInfo * blockNum memInfo)
                 else blockSize memInfo in
  let repeatStrideSize := u32 (repeatStride memInfo * blockSize memInfo) in
  if repeatStride memInfo =? 0 then [store_at record (addr memInfo) memSize]
  else if repeatStrideSize <=? memSize then
    [store_at record (addr memInfo)
       ((repeatStrideSize *u u32 (repeatTimes memInfo - 1)) +u memSize)]
  else
    let times := if 0x7FFF <? repeatTimes memInfo then 0x7FFF else repeatTimes memInfo in
    (λ repeatIdx, store_at record (addr memInfo +u (repeatIdx *u repeatStrideSize)) memSize)
    <$> seqZ 0 times.

Definition ConvertMutiRecordRepeats (memInfo : MemOpInfo) (record : MemOpRecord) : list MemOpRecord :=
  let '(a, bn, bs, bstride, rt, rstride) :=
    (addr memInfo, blockNum memInfo, blockSize memInfo, blockStride memInfo, repeatTimes memInfo,
     repeatStride memInfo) in
  if rstride =? 0 then (λ _, store_at record a bs) <$> seqZ 0 bn
  else if (rstride =? 1) && (bstride <=? rt) then
    [store_at record a (u32 (u32 (bn - 1 + rt) * bs))]
  else if (rstride =? 1) && (rt <? bstride) then
    (λ blockIdx, store_at record (a +u (blockIdx *u bs *u bstride)) (u32 (rt * bs))) <$> seqZ 0 bn
  else if rstride =? bstride then
    (λ blockIdx, store_at record (a +u (blockIdx *u bs *u bstride)) bs) <$> seqZ 0 (Z.max bn rt)
  else
    let times := if 0x7FFF <? rt then 0x7FFF else rt in
    seqZ 0 times ≫= λ repeatIdx,
      let repeatAddr := a +u (repeatIdx *u bs *u rstride) in
      (λ blockIdx, store_at record (repeatAddr +u (blockIdx *u bstride *u bs)) bs) <$> seqZ 0 bn.

Definition ConvertMemEventRecords (event : SanEvent) (memInfo : MemOpInfo) : list MemOpRecord :=
  if repeatTimes memInfo =? 0 then []
  else
    let record := SetBasicMemInfo Mor.zero event memInfo in
    if blockStride memInfo <=? 1 then ConvertSingleRecordRepeats memInfo record
    else ConvertMutiRecordRepeats memInfo record.

Definition ConvertEventRecords (event : SanEvent) : list MemOpRecord :=
  match eventInfo event with
  | MemInfo memInfo => ConvertMemEventRecords event memInfo
  | DynamicInfo varInfo => if dyn_isSimtEntry varInfo then SimtEntryToSingle event varInfo else []
  | _ => []
  end.

(** [ConvertSanEventToMemOpRecords] with its two helpers. *)
Definition ConvertDynamicMemEvent (event : SanEvent) (dynamicMemInfo : DynamicOpInfo)
    (records : list MemOpRecord) : list MemOpRecord :=
  if dyn_isSimtEntry dynamicMemInfo then records ++ SimtEntryToSingle event dynamicMemInfo else records.

Definition ConvertSanEventToMemOpRecords (event : SanEvent) (records : list MemOpRecord) : list MemOpRecord :=
  match eventInfo event with
  | MemInfo memInfo => records ++ ConvertMemEventRecords event memInfo
  | DynamicInfo d => ConvertDynamicMemEvent event d records
  | _ => records
  end.

(** ** Merging in place *)

(** The loop of [MergeRecords] from index [i], [n] iterations left. *)
Fixpoint merge_loop (n : nat) (records : list MemOpRecord) (last i : nat) : option (list MemOpRecord * nat) :=
  match n with
  | O => Some (records, last)
  | S n' =>
      l ← records !! last; r ← records !! i;
      if IsSameOp l r && IsContinuousAddr l r
      then merge_loop n' (<[last := Mor.set_memSize (Mor.memSize l +u Mor.memSize r) l]> records) last (S i)
      else merge_loop n' (<[S last := r]> records) (S last) (S i)
  end.

Definition MergeRecords (records : list MemOpRecord) : option (list MemOpRecord) :=
  match records with
  | [] => Some []
  | _ :: _ =>
      '(records, last) ← merge_loop (length records - 1) records 0 1;
      Some (take (S last) records)
  end.

(** [ConvertEventsToRecords]; the reserved capacity has no effect on the
    result. *)
Definition ConvertEventsToRecords (initCheck : bool) (events : list SanEvent) (records : list MemOpRecord)
    : option (list MemOpRecord) :=
  if initCheck then
    records ← MergeRecords records;
    Some (foldl (λ acc e, foldl sink_emplace_back acc (ConvertEventRecords e)) records events)
  else MergeRecords (foldl (λ acc e, ConvertSanEventToMemOpRecords e acc) records events).

Definition GetRecordsNum (events : list SanEvent) : Z :=
  foldl (λ n e,
    match eventInfo e with
    | MemInfo m =>
        if 0x7FFF <? repeatTimes m then n
        else if blockStride m <=? 1 then n +u repeatTimes m
        else n +u u32 (repeatTimes m * blockNum m)
    | DynamicInfo d => if dyn_isSimtEntry d then n +u Z.of_nat (length (dyn_buffer d)) else n
    | _ => n
    end) 0 events.
End Convert.
