(* ===== verification/ConvertProofs.v ===== *)
(** Correctness of the conversion from events to records:
    [csrc/address_sanitizer/address_sanitizer.cpp]. *)
From stdpp Require Import base numbers list option strings.
From S2P Require Import Prelude.
From S2P Require Import RecordDefs.
From S2P Require Import EventDef.
From S2P Require Import Convert.
Import Convert.

(** ** Merging *)

Lemma sink_snoc acc b r :
  sink_emplace_back (acc ++ [b]) r =
    if IsSameOp b r && IsContinuousAddr b r
    then acc ++ [Mor.set_memSize (Mor.memSize b +u Mor.memSize r) b] else acc ++ [b; r].
Proof.
  unfold sink_emplace_back. rewrite last_snoc, removelast_last. case_match; [done|].
  by rewrite <- app_assoc.
Qed.

(** The in-place loop keeps, in front of its write index, what the sink has
    accumulated. *)
Lemma merge_loop_spec orig n : ∀ records last i,
  (last < i)%nat → (i + n = length orig)%nat → length records = length orig →
  take (S last) records = foldl sink_emplace_back [] (take i orig) → drop i records = drop i orig →
  ∃ records' last', merge_loop n records last i = Some (records', last') ∧
    take (S last') records' = foldl sink_emplace_back [] orig.
Proof.
  induction n as [|n IH]; intros records lst i Hli Hn Hlen Htake Hdrop; simpl.
  { exists records, lst. split; [done|]. rewrite Htake, take_ge; [done|lia]. }
  destruct (lookup_lt_is_Some_2 records lst) as [l Hl]; [lia|].
  destruct (lookup_lt_is_Some_2 orig i) as [r Hr]; [lia|].
  assert (Hri : records !! i = Some r).
  { replace i with (i + 0)%nat by lia. rewrite <- lookup_drop, Hdrop, lookup_drop.
    by replace (i + 0)%nat with i by lia. }
  rewrite Hl, Hri. simpl. rewrite (take_S_r _ _ _ Hl) in Htake.
  assert (Hstep : foldl sink_emplace_back [] (take (S i) orig) =
    sink_emplace_back (take lst records ++ [l]) r).
  { by rewrite (take_S_r _ _ _ Hr), foldl_app, <- Htake. }
  rewrite sink_snoc in Hstep.
  assert (Hdrop' : ∀ k x, (k <= i)%nat → drop (S i) (<[k := x]> records) = drop (S i) orig).
  { intros k x Hk. rewrite drop_insert_lt by lia.
    by rewrite <- Nat.add_1_r, <- !drop_drop, Hdrop. }
  destruct (IsSameOp l r && IsContinuousAddr l r).
  - apply IH; [lia|lia|by rewrite length_insert| |apply Hdrop'; lia].
    rewrite Hstep, (take_S_r _ _ (Mor.set_memSize (Mor.memSize l +u Mor.memSize r) l)), take_insert_ge;
      [done|lia|]. apply list_lookup_insert_eq. lia.
  - apply IH; [lia|lia|by rewrite length_insert| |apply Hdrop'; lia].
    rewrite Hstep, (take_S_r _ _ r), take_insert_ge, (take_S_r _ _ l) by
      first [done|lia|apply list_lookup_insert_eq; lia]. by rewrite <- app_assoc.
Qed.

Lemma MergeRecords_sink records : MergeRecords records = Some (foldl sink_emplace_back [] records).
Proof.
  destruct records as [|r0 records]; [done|]. unfold MergeRecords.
  destruct (merge_loop_spec (r0 :: records) (length (r0 :: records) - 1) (r0 :: records) 0 1)
    as (records' & last' & -> & Ht); simpl; [lia|lia|done|by destruct records|done|].
  by rewrite Ht.
Qed.

(** ** Coverage *)

(** The record reads or writes the byte. *)
Definition rec_covers (t : MemOpType) (space : AddressSpace) (x : Z) (r : MemOpRecord) : Prop :=
  Mor.type r = t ∧ Mor.dstSpace r = space ∧ Mor.dstAddr r <= x < Mor.dstAddr r + Mor.memSize r.

(** Some record of the list does. *)
Definition covered (rs : list MemOpRecord) (t : MemOpType) (space : AddressSpace) (x : Z) : Prop :=
  Exists (rec_covers t space x) rs.

(** The record ends inside the 64-bit space. *)
Definition no_wrap (r : MemOpRecord) : Prop :=
  0 <= Mor.dstAddr r ∧ 0 <= Mor.memSize r ∧ Mor.dstAddr r + Mor.memSize r < 2 ^ 64.

Lemma sink_covers acc r t space x :
  Forall no_wrap acc → no_wrap r →
  Forall no_wrap (sink_emplace_back acc r) ∧
  (covered (sink_emplace_back acc r) t space x ↔ covered acc t space x ∨ rec_covers t space x r).
Proof.
  intros Hacc Hr. destruct (decide (acc = [])) as [->|Hne].
  { change (sink_emplace_back [] r) with [r]. unfold covered. rewrite Exists_cons, !Exists_nil. split; [by apply Forall_cons_2; [|apply Forall_nil_2]|tauto]. }
  destruct (exists_last Hne) as (pre & b & ->). rewrite sink_snoc.
  apply Forall_app in Hacc as [Hpre Hb]. apply Forall_cons in Hb as [Hb _].
  unfold covered. destruct (IsSameOp b r && IsContinuousAddr b r) eqn:E.
  - apply andb_prop in E as [Hsame Hcont]. unfold IsSameOp, IsContinuousAddr in *. bool_prop.
    destruct Hb as (Hb1 & Hb2 & Hb3), Hr as (Hr1 & Hr2 & Hr3). rewrite u64_small in * by (unfold is_u64; lia).
    rewrite (u64_small (Mor.memSize b + _)) by (unfold is_u64; lia).
    split; [apply Forall_app; split; [done|]; apply Forall_cons_2; [|by apply Forall_nil_2]; split_and!; simpl; lia|].
    rewrite !Exists_app, !Exists_cons, !Exists_nil. unfold rec_covers. simpl.
    split; [intros [?|[(? & ? & ?)|[] ] ]|intros [ [?|[(? & ? & ?)|[] ] ]|(? & ? & ?)] ];
      first [by left; left|idtac].
    + destruct (Z.lt_ge_cases x (Mor.dstAddr r)); [left; right; left|right]; split_and!; try congruence; lia.
    + by left.
    + right; left. split_and!; (done || lia).
    + right; left. split_and!; try congruence; lia.
  - split; [apply Forall_app; split; [done|]; by repeat apply Forall_cons_2; try apply Forall_nil_2|].
    rewrite !Exists_app, !Exists_cons, !Exists_nil. tauto.
Qed.

Lemma sink_all_covers rs t space x : ∀ acc,
  Forall no_wrap acc → Forall no_wrap rs →
  covered (foldl sink_emplace_back acc rs) t space x ↔ covered acc t space x ∨ covered rs t space x.
Proof.
  induction rs as [|r rs IH]; intros acc Hacc Hrs; simpl.
  { unfold covered at 3. rewrite Exists_nil. tauto. }
  apply Forall_cons in Hrs as [Hr Hrs]. destruct (sink_covers acc r t space x Hacc Hr) as [Hacc' Hc].
  rewrite IH, Hc by done. unfold covered. rewrite Exists_cons. tauto.
Qed.

(** ** Conversion of one event *)

(** The bytes of a memory event: every block of every repeat. *)
Definition block_base (m : MemOpInfo) (i j : Z) : Z :=
  addr m + i * repeatStride m * blockSize m + j * blockStride m * blockSize m.

Definition touched (m : MemOpInfo) (x : Z) : Prop :=
  ∃ i j, 0 <= i < repeatTimes m ∧ 0 <= j < blockNum m ∧
    block_base m i j <= x < block_base m i j + blockSize m.

(** No field product of the event overflows, and its repeats are within the
    limit of the converter. *)
Record event_fits (m : MemOpInfo) : Prop := {
  ef_addr : 0 <= addr m;
  ef_size : 0 <= blockSize m;
  ef_num : 1 <= blockNum m;
  ef_bstride : 0 <= blockStride m;
  ef_times : 1 <= repeatTimes m <= 0x7FFF;
  ef_rstride : 0 <= repeatStride m;
  ef_run : (blockNum m + repeatTimes m) * blockSize m < 2 ^ 32;
  ef_repeat : repeatStride m * blockSize m < 2 ^ 32;
  ef_count : blockNum m + repeatTimes m < 2 ^ 32;
  ef_extent : addr m + (blockNum m + repeatTimes m) * (repeatStride m + blockStride m + 1) * blockSize m < 2 ^ 64;
}.

Lemma covers_store_at r a n x :
  rec_covers (Mor.type r) (Mor.dstSpace r) x (store_at r a n) ↔ a <= x < a + n.
Proof.
  unfold rec_covers, store_at, ProcessAndStoreMemOp. simpl. case_match; simpl; tauto.
Qed.

Lemma covered_map r f g (l : list Z) x :
  covered ((λ k, store_at r (f k) (g k)) <$> l) (Mor.type r) (Mor.dstSpace r) x ↔
    ∃ k, k ∈ l ∧ f k <= x < f k + g k.
Proof.
  unfold covered. rewrite Exists_exists. split.
  - intros (y & Hy & Hc). apply list_elem_of_fmap in Hy as (k & -> & Hk). exists k. split; [done|].
    by apply covers_store_at in Hc.
  - intros (k & Hk & Hx). exists (store_at r (f k) (g k)). split; [apply list_elem_of_fmap; by exists k|].
    by apply covers_store_at.
Qed.

Lemma covered_one r a n x :
  covered [store_at r a n] (Mor.type r) (Mor.dstSpace r) x ↔ a <= x < a + n.
Proof. unfold covered. rewrite Exists_cons, Exists_nil, covers_store_at. tauto. Qed.

(** Overlapping or touching steps of an arithmetic progression fill an interval. *)
Lemma progression a S per n x :
  0 < S <= per → 1 <= n →
  (∃ i, 0 <= i < n ∧ a + i * S <= x < a + i * S + per) ↔ a <= x < a + S * (n - 1) + per.
Proof.
  intros HS Hn. split.
  - intros (i & Hi & Hx). nia.
  - intros Hx. exists (Z.min ((x - a) / S) (n - 1)). pose proof (Z.div_mod (x - a) S ltac:(lia)).
    pose proof (Z.mod_pos_bound (x - a) S ltac:(lia)). assert (0 <= (x - a) / S) by (apply Z.div_pos; lia).
    destruct (Z.le_gt_cases ((x - a) / S) (n - 1)); [rewrite Z.min_l by lia|rewrite Z.min_r by lia]; nia.
Qed.

(** With a block stride of 0 or 1, the blocks of one repeat are one interval. *)
Definition run_length (m : MemOpInfo) : Z :=
  if blockStride m =? 1 then blockSize m * blockNum m else blockSize m.

Lemma touched_runs m x :
  0 <= blockSize m → 1 <= blockNum m → 0 <= blockStride m <= 1 →
  touched m x ↔ ∃ i, 0 <= i < repeatTimes m ∧
    addr m + i * (repeatStride m * blockSize m) <= x < addr m + i * (repeatStride m * blockSize m) + run_length m.
Proof.
  intros Hs Hn Hst. unfold touched, block_base, run_length.
  destruct (Z.eq_dec (blockSize m) 0) as [H0|].
  { rewrite H0. split; [intros (i & j & _ & _ & ?)|intros (i & _ & ?)]; case_match; lia. }
  destruct (Z.eqb_spec (blockStride m) 1) as [H1|H1].
  - rewrite H1. split.
    + intros (i & j & Hi & Hj & Hx). exists i. split; [done|]. nia.
    + intros (i & Hi & Hx).
      destruct (proj2 (progression (addr m + i * (repeatStride m * blockSize m)) (blockSize m) (blockSize m)
        (blockNum m) x ltac:(lia) Hn)) as (j & Hj & Hxj); [lia|].
      exists i, j. split_and!; lia.
  - assert (blockStride m = 0) as -> by lia. split.
    + intros (i & j & Hi & Hj & Hx). exists i. split; [done|]. lia.
    + intros (i & Hi & Hx). exists i, 0. split_and!; lia.
Qed.

Lemma convert_single_exact m r x :
  event_fits m → blockStride m <= 1 →
  covered (ConvertSingleRecordRepeats m r) (Mor.type r) (Mor.dstSpace r) x ↔ touched m x.
Proof.
  intros [Ha Hs Hn Hbs Ht Hrs Hrun Hrep Hcnt Hext] Hst. rewrite touched_runs by lia.
  unfold ConvertSingleRecordRepeats.
  assert (0 <= blockSize m * blockNum m < 2 ^ 32) by nia.
  assert (0 <= repeatStride m * blockSize m < 2 ^ 32) by nia.
  rewrite !u32_small by (unfold is_u32; lia). fold (run_length m).
  assert (Hlen : 0 <= run_length m < 2 ^ 32) by (unfold run_length; case_match; nia).
  set (S := repeatStride m * blockSize m) in *.
  assert (Hbound : addr m + repeatTimes m * S + run_length m < 2 ^ 64).
  { unfold S, run_length. case_match; nia. }
  assert (HS0 : 0 <= S) by lia.
  assert (Hmul : ∀ k, 0 <= k < repeatTimes m → 0 <= k * S <= repeatTimes m * S).
  { intros k Hk. split; [apply Z.mul_nonneg_nonneg; lia|apply Z.mul_le_mono_nonneg_r; lia]. }
  assert (Hk64 : ∀ k, 0 <= k < repeatTimes m → addr m +u (k *u S) = addr m + k * S).
  { intros k Hk. specialize (Hmul k Hk). rewrite (u64_small (k * S)) by (unfold is_u64; lia).
    apply u64_small. unfold is_u64. lia. }
  destruct (Z.eqb_spec (repeatStride m) 0) as [Hr0|Hr0].
  { rewrite covered_one. split; [intros Hx; exists 0; split; lia|].
    intros (i & Hi & Hx). unfold S in Hx. rewrite Hr0 in Hx. lia. }
  destruct (Z.leb_spec S (run_length m)) as [Hle|Hgt].
  - assert (0 <= S * (repeatTimes m - 1) <= repeatTimes m * S) by nia.
    rewrite (u64_small (S * _)) by (unfold is_u64; lia). rewrite u64_small by (unfold is_u64; lia).
    rewrite covered_one.
    destruct (Z.eq_dec S 0) as [HS|].
    { assert (blockSize m = 0) by (unfold S in HS; nia).
      assert (run_length m = 0) as -> by (unfold run_length; case_match; lia). rewrite HS.
      split; [lia|]. intros (i & _ & ?). lia. }
    rewrite progression by lia. lia.
  - destruct (Z.ltb_spec 0x7FFF (repeatTimes m)); [lia|]. rewrite covered_map. split.
    + intros (k & Hk & Hx). apply elem_of_seqZ in Hk. exists k. split; [lia|].
      by rewrite Hk64 in Hx by lia.
    + intros (k & Hk & Hx). exists k. split; [apply elem_of_seqZ; lia|].
      by rewrite Hk64 by lia.
Qed.

(** *** Several blocks per repeat *)

Lemma mul3_le k n b s w :
  0 <= k <= n → 0 <= b → 0 <= s <= w → 0 <= k * b * s ∧ k * b * s <= n * w * b.
Proof.
  intros Hk Hb Hs. split; [repeat apply Z.mul_nonneg_nonneg; lia|].
  replace (k * b * s) with (k * s * b) by ring. apply Z.mul_le_mono_nonneg_r; [done|].
  apply Z.mul_le_mono_nonneg; lia.
Qed.

(** Strided addresses do not wrap. *)
Lemma offset_exact m k s :
  event_fits m → 0 <= k <= blockNum m + repeatTimes m → 0 <= s <= repeatStride m + blockStride m + 1 →
  addr m +u (k *u blockSize m *u s) = addr m + k * blockSize m * s ∧
  0 <= addr m + k * blockSize m * s < 2 ^ 64.
Proof.
  intros [Ha Hs Hn Hbs Ht Hrs Hrun Hrep Hcnt Hext] Hk Hst.
  destruct (mul3_le k (blockNum m + repeatTimes m) (blockSize m) s
    (repeatStride m + blockStride m + 1)) as [Hlo Hhi]; [done..|].
  destruct (mul3_le k (blockNum m + repeatTimes m) (blockSize m) 1
    (repeatStride m + blockStride m + 1)) as [Hlo1 Hhi1]; [lia..|].
  rewrite (u64_small (k * blockSize m)) by (unfold is_u64; lia).
  rewrite (u64_small (k * blockSize m * s)) by (unfold is_u64; lia).
  rewrite u64_small by (unfold is_u64; lia). lia.
Qed.

(** The last branch of the converter enumerates every block. *)
Lemma general_base m i j :
  event_fits m → 0 <= i < repeatTimes m → 0 <= j < blockNum m →
  (addr m +u (i *u blockSize m *u repeatStride m)) +u (j *u blockStride m *u blockSize m) = block_base m i j.
Proof.
  intros Hfit Hi Hj. pose proof Hfit as [Ha Hs Hn Hbs Ht Hrs Hrun Hrep Hcnt Hext].
  destruct (offset_exact m i (repeatStride m)) as [-> Hb]; [done|lia|lia|].
  destruct (mul3_le j (blockNum m) (blockSize m) (blockStride m) (blockStride m)) as [Hl Hh]; [lia..|].
  assert (Hi' : i * blockSize m * repeatStride m <= repeatTimes m * repeatStride m * blockSize m)
    by (apply mul3_le; lia).
  assert (Htot : addr m + i * blockSize m * repeatStride m + j * blockStride m * blockSize m < 2 ^ 64).
  { eapply Z.le_lt_trans; [|exact Hext].
    assert (blockNum m * blockStride m * blockSize m + repeatTimes m * repeatStride m * blockSize m <=
      (blockNum m + repeatTimes m) * (repeatStride m + blockStride m + 1) * blockSize m); [|lia].
    rewrite <- Z.mul_add_distr_r. apply Z.mul_le_mono_nonneg_r; [done|]. nia. }
  assert (Hjb : 0 <= j * blockStride m <= 2 ^ 64 - 1 ∨ blockSize m = 0) by (destruct (Z.eq_dec (blockSize m) 0); nia).
  destruct Hjb as [Hjb|H0].
  - rewrite (u64_small (j * blockStride m)) by (unfold is_u64; lia).
    rewrite (u64_small (j * blockStride m * blockSize m)) by (unfold is_u64; lia).
    rewrite u64_small by (unfold is_u64; lia). unfold block_base. lia.
  - unfold block_base. rewrite H0 in Hb |- *. rewrite !Z.mul_0_r in *. change (u64 0) with 0.
    rewrite !Z.mul_0_l, !Z.add_0_r in *. rewrite u64_small; [done|unfold is_u64; lia].
Qed.

(** On the two branches that enumerate, the records are exactly the blocks. *)
Lemma convert_multi_exact m r x :
  event_fits m → 2 <= blockStride m → repeatStride m ≠ 0 → repeatStride m ≠ blockStride m →
  (repeatStride m = 1 → repeatTimes m < blockStride m) →
  covered (ConvertMutiRecordRepeats m r) (Mor.type r) (Mor.dstSpace r) x ↔ touched m x.
Proof.
  intros Hfit Hst H0 Hne H1. pose proof Hfit as [Ha Hs Hn Hbs Ht Hrs Hrun Hrep Hcnt Hext].
  unfold ConvertMutiRecordRepeats. rewrite (proj2 (Z.eqb_neq _ 0)) by done.
  destruct (Z.eqb_spec (repeatStride m) 1) as [He|He]; simpl.
  - specialize (H1 He). destruct (Z.leb_spec (blockStride m) (repeatTimes m)); [lia|].
    destruct (Z.ltb_spec (repeatTimes m) (blockStride m)); [|lia].
    rewrite u32_small by (unfold is_u32; nia). rewrite covered_map. unfold touched, block_base. rewrite He.
    assert (Hrow : ∀ j, (∃ i, 0 <= i < repeatTimes m ∧
        addr m + j * blockSize m * blockStride m + i * blockSize m <= x <
        addr m + j * blockSize m * blockStride m + i * blockSize m + blockSize m) ↔
      addr m + j * blockSize m * blockStride m <= x <
        addr m + j * blockSize m * blockStride m + repeatTimes m * blockSize m).
    { intros j. destruct (Z.eq_dec (blockSize m) 0) as [->|]; [split; [intros (? & _ & ?)|]; lia|].
      rewrite progression by lia. lia. }
    split.
    + intros (j & Hj & Hx). apply elem_of_seqZ in Hj. rewrite (proj1 (offset_exact m j (blockStride m) Hfit ltac:(lia) ltac:(lia))) in Hx.
      apply Hrow in Hx as (i & Hi & Hx). exists i, j. split_and!; lia.
    + intros (i & j & Hi & Hj & Hx). exists j. split; [apply elem_of_seqZ; lia|].
      rewrite (proj1 (offset_exact m j (blockStride m) Hfit ltac:(lia) ltac:(lia))). apply Hrow. exists i. split; [done|]. lia.
  - rewrite (proj2 (Z.eqb_neq (repeatStride m) (blockStride m))) by done.
    destruct (Z.ltb_spec 0x7FFF (repeatTimes m)); [lia|].
    unfold covered, touched. rewrite Exists_exists. split.
    + intros (y & Hy & Hc). apply list_elem_of_bind in Hy as (i & Hy & Hi).
      apply list_elem_of_fmap in Hy as (j & -> & Hj). apply elem_of_seqZ in Hi, Hj.
      apply covers_store_at in Hc. rewrite general_base in Hc by (done || lia). exists i, j. split_and!; lia.
    + intros (i & j & Hi & Hj & Hx). eexists. split.
      * apply list_elem_of_bind. exists i. split; [|apply elem_of_seqZ; lia].
        apply list_elem_of_fmap. exists j. split; [done|apply elem_of_seqZ; lia].
      * apply covers_store_at. by rewrite general_base by (done || lia).
Qed.

(** Where the converter takes a shortcut. *)
Definition shortcut (m : MemOpInfo) : bool :=
  (1 <? blockStride m) &&
  ((repeatStride m =? 0) || ((repeatStride m =? 1) && (blockStride m <=? repeatTimes m)) ||
   (negb (repeatStride m =? 1) && (repeatStride m =? blockStride m))).

(** The shortcuts never invent an access. *)
Lemma shortcut_sound m r x :
  event_fits m → shortcut m = true →
  covered (ConvertMutiRecordRepeats m r) (Mor.type r) (Mor.dstSpace r) x → touched m x.
Proof.
  intros Hfit Hsh. pose proof Hfit as [Ha Hs Hn Hbs Ht Hrs Hrun Hrep Hcnt Hext].
  unfold shortcut in Hsh. apply andb_prop in Hsh as [Hst Hsh]. bool_prop.
  unfold ConvertMutiRecordRepeats, touched, block_base.
  destruct (Z.eqb_spec (repeatStride m) 0) as [E0|E0].
  { rewrite covered_map. intros (k & Hk & Hx). exists 0, 0. split_and!; lia. }
  destruct (Z.eqb_spec (repeatStride m) 1) as [E1|E1]; simpl in *.
  { destruct (Z.leb_spec (blockStride m) (repeatTimes m)); [|bool_prop; done].
    rewrite (u32_small (_ + _)), u32_small by (unfold is_u32; nia). rewrite covered_one, E1. intros Hx.
    destruct (Z.eq_dec (blockSize m) 0) as [E|]; [rewrite E in Hx; lia|].
    (* the first block row that reaches the byte, then the step inside it *)
    assert (0 < blockStride m * blockSize m) by (apply Z.mul_pos_pos; lia).
    assert (blockStride m * blockSize m <= repeatTimes m * blockSize m) by (apply Z.mul_le_mono_nonneg_r; lia).
    assert (1 * blockSize m <= blockStride m * blockSize m) by (apply Z.mul_le_mono_nonneg_r; lia).
    assert (blockSize m * (blockNum m - 1) <= blockStride m * blockSize m * (blockNum m - 1))
      by (apply Z.mul_le_mono_nonneg_r; lia).
    destruct (proj2 (progression (addr m) (blockStride m * blockSize m) (repeatTimes m * blockSize m)
      (blockNum m) x ltac:(lia) Hn)) as (j & Hj & Hxj); [lia|].
    destruct (proj2 (progression (addr m + j * (blockStride m * blockSize m)) (blockSize m) (blockSize m)
      (repeatTimes m) x ltac:(lia) ltac:(lia))) as (i & Hi & Hxi); [lia|].
    exists i, j. split_and!; lia. }
  destruct (Z.eqb_spec (repeatStride m) (blockStride m)) as [E2|E2]; [|done].
  rewrite covered_map. intros (k & Hk & Hx). apply elem_of_seqZ in Hk.
  rewrite (proj1 (offset_exact m k (blockStride m) Hfit ltac:(lia) ltac:(lia))) in Hx.
  destruct (Z.lt_ge_cases k (blockNum m)).
  - exists 0, k. split_and!; lia.
  - exists k, 0. rewrite E2. split_and!; lia.
Qed.

(** A byte of the event no record of a shortcut covers. *)
Definition missed_byte (m : MemOpInfo) : Z :=
  if repeatStride m =? 0 then block_base m 0 1
  else block_base m (repeatTimes m - 1) (blockNum m - 1).

Lemma shortcut_misses m r :
  event_fits m → shortcut m = true → 2 <= blockNum m → 1 <= blockSize m →
  (repeatStride m = blockStride m → 2 <= repeatTimes m) →
  touched m (missed_byte m) ∧
  ¬ covered (ConvertMutiRecordRepeats m r) (Mor.type r) (Mor.dstSpace r) (missed_byte m).
Proof.
  intros Hfit Hsh Hn2 Hs1 Hrt2. pose proof Hfit as [Ha Hs Hn Hbs Ht Hrs Hrun Hrep Hcnt Hext].
  unfold shortcut in Hsh. apply andb_prop in Hsh as [Hst Hsh]. bool_prop.
  split.
  { unfold missed_byte, touched. case_match; [exists 0, 1|exists (repeatTimes m - 1), (blockNum m - 1)];
      split_and!; lia. }
  unfold ConvertMutiRecordRepeats, missed_byte, block_base.
  destruct (Z.eqb_spec (repeatStride m) 0) as [E0|E0].
  { rewrite covered_map. intros (k & Hk & Hx). nia. }
  destruct (Z.eqb_spec (repeatStride m) 1) as [E1|E1]; simpl in *.
  { destruct (Z.leb_spec (blockStride m) (repeatTimes m)); [|bool_prop; done].
    rewrite (u32_small (_ + _)), u32_small by (unfold is_u32; nia). rewrite covered_one, E1. intros [_ Hx].
    assert ((blockNum m - 1) * 2 <= (blockNum m - 1) * blockStride m) by (apply Z.mul_le_mono_nonneg_l; lia).
    assert (((blockNum m - 1) * 2 + (repeatTimes m - 1)) * blockSize m <=
      ((blockNum m - 1) * blockStride m + (repeatTimes m - 1)) * blockSize m)
      by (apply Z.mul_le_mono_nonneg_r; lia).
    assert ((blockNum m - 1 + repeatTimes m) * blockSize m <=
      ((blockNum m - 1) * 2 + (repeatTimes m - 1)) * blockSize m) by (apply Z.mul_le_mono_nonneg_r; lia).
    lia. }
  destruct (Z.eqb_spec (repeatStride m) (blockStride m)) as [E2|E2]; [|done]. specialize (Hrt2 E2).
  rewrite covered_map. intros (k & Hk & Hx). apply elem_of_seqZ in Hk.
  rewrite (proj1 (offset_exact m k (blockStride m) Hfit ltac:(lia) ltac:(lia))), E2 in Hx.
  assert (k + 1 <= blockNum m + repeatTimes m - 2) by lia.
  assert ((k + 1) * (blockStride m * blockSize m) <=
    (blockNum m + repeatTimes m - 2) * (blockStride m * blockSize m)) by (apply Z.mul_le_mono_nonneg_r; nia).
  assert (1 * blockSize m <= blockStride m * blockSize m) by (apply Z.mul_le_mono_nonneg_r; lia).
  lia.
Qed.

(** *** Whole events *)

Lemma ConvertSan_app e acc : ConvertSanEventToMemOpRecords e acc = acc ++ ConvertEventRecords e.
Proof.
  unfold ConvertSanEventToMemOpRecords, ConvertEventRecords, ConvertDynamicMemEvent.
  destruct (eventInfo e); rewrite ?app_nil_r; try done. by case_match; rewrite ?app_nil_r.
Qed.

Lemma foldl_convert events acc :
  foldl (λ acc e, ConvertSanEventToMemOpRecords e acc) acc events = acc ++ (events ≫= ConvertEventRecords).
Proof.
  revert acc. induction events as [|e events IH]; intros acc; simpl; [by rewrite app_nil_r|].
  rewrite IH, ConvertSan_app. by rewrite <- app_assoc.
Qed.

Lemma foldl_sink_convert events acc :
  foldl (λ acc e, foldl sink_emplace_back acc (ConvertEventRecords e)) acc events =
    foldl sink_emplace_back acc (events ≫= ConvertEventRecords).
Proof.
  revert acc. induction events as [|e events IH]; intros acc; simpl; [done|].
  by rewrite IH, foldl_app.
Qed.

(** Both paths of [ConvertEventsToRecords], from an empty vector. *)
Lemma ConvertEventsToRecords_eq initCheck events :
  ConvertEventsToRecords initCheck events [] =
    Some (foldl sink_emplace_back [] (events ≫= ConvertEventRecords)).
Proof.
  destruct initCheck; simpl.
  - by rewrite foldl_sink_convert.
  - rewrite foldl_convert. apply MergeRecords_sink.
Qed.

(** Every record of a conversion has the kind of the event and a 64-bit start. *)
Definition from_record (r y : MemOpRecord) : Prop :=
  Mor.type y = Mor.type r ∧ Mor.dstSpace y = Mor.dstSpace r ∧ is_u64 (Mor.dstAddr y) ∧ 0 <= Mor.memSize y.

Lemma store_at_from r a n : is_u64 a → 0 <= n → from_record r (store_at r a n).
Proof.
  intros. unfold from_record, store_at, ProcessAndStoreMemOp. simpl. by case_match.
Qed.

Lemma map_from r (f g : Z → Z) (l : list Z) :
  (∀ k, k ∈ l → is_u64 (f k) ∧ 0 <= g k) → Forall (from_record r) ((λ k, store_at r (f k) (g k)) <$> l).
Proof.
  intros Hk. apply Forall_fmap. apply Forall_forall. intros k Hin. simpl. apply store_at_from; by apply Hk.
Qed.

Definition convert_mem (m : MemOpInfo) (r : MemOpRecord) : list MemOpRecord :=
  if blockStride m <=? 1 then ConvertSingleRecordRepeats m r else ConvertMutiRecordRepeats m r.

Lemma convert_from m r : event_fits m → Forall (from_record r) (convert_mem m r).
Proof.
  intros Hfit. pose proof Hfit as [Ha Hs Hn Hbs Ht Hrs Hrun Hrep Hcnt Hext].
  assert (Haddr : is_u64 (addr m)).
  { unfold is_u64. pose proof (mul3_le 0 (blockNum m + repeatTimes m) (blockSize m) 0
      (repeatStride m + blockStride m + 1)) as [_ ?]; lia. }
  assert (Hu32 : ∀ x, 0 <= u32 x) by (intros; apply u32_range).
  unfold convert_mem, ConvertSingleRecordRepeats, ConvertMutiRecordRepeats.
  repeat case_match; try (apply Forall_cons_2; [|apply Forall_nil_2]; apply store_at_from; auto with san;
    apply u64_range);
    try (apply map_from; intros; split; auto with san).
  all: apply Forall_bind, Forall_forall; intros k _; apply map_from; intros; split; auto with san.
Qed.

Lemma touched_bound m x : event_fits m → touched m x → x + 1 < 2 ^ 64.
Proof.
  intros [Ha Hs Hn Hbs Ht Hrs Hrun Hrep Hcnt Hext] (i & j & Hi & Hj & Hx). unfold block_base in Hx.
  assert (i * repeatStride m <= repeatTimes m * repeatStride m) by (apply Z.mul_le_mono_nonneg_r; lia).
  assert (j * blockStride m <= blockNum m * blockStride m) by (apply Z.mul_le_mono_nonneg_r; lia).
  assert ((repeatTimes m * repeatStride m + blockNum m * blockStride m + 1) * blockSize m <=
    (blockNum m + repeatTimes m) * (repeatStride m + blockStride m + 1) * blockSize m)
    by (apply Z.mul_le_mono_nonneg_r; [done|nia]).
  assert ((i * repeatStride m + j * blockStride m + 1) * blockSize m <=
    (repeatTimes m * repeatStride m + blockNum m * blockStride m + 1) * blockSize m)
    by (apply Z.mul_le_mono_nonneg_r; lia).
  lia.
Qed.

Lemma convert_exact m r x :
  event_fits m → shortcut m = false →
  covered (convert_mem m r) (Mor.type r) (Mor.dstSpace r) x ↔ touched m x.
Proof.
  intros Hfit Hsh. unfold convert_mem. destruct (Z.leb_spec (blockStride m) 1).
  - by apply convert_single_exact.
  - unfold shortcut in Hsh. destruct (Z.ltb_spec 1 (blockStride m)); [|lia]. simpl in Hsh.
    apply orb_false_iff in Hsh as [ [Hs1 Hs2]%orb_false_iff Hs3].
    apply convert_multi_exact; try done; [lia|by apply Z.eqb_neq in Hs1|..].
    + intros E. rewrite E, Z.eqb_refl in Hs3. rewrite andb_true_r in Hs3. apply negb_false_iff in Hs3.
      apply Z.eqb_eq in Hs3. lia.
    + intros E. rewrite E in Hs2. simpl in Hs2. apply Z.leb_gt in Hs2. lia.
Qed.

Lemma convert_no_wrap m r : event_fits m → shortcut m = false → Forall no_wrap (convert_mem m r).
Proof.
  intros Hfit Hsh. pose proof (convert_from m r Hfit) as Hf. rewrite Forall_forall in Hf.
  apply Forall_forall. intros y Hy. destruct (Hf y Hy) as (Ht & Hsp & Ha & Hn). unfold is_u64 in Ha.
  split_and!; [lia|done|]. destruct (Z.eq_dec (Mor.memSize y) 0); [lia|].
  assert (touched m (Mor.dstAddr y + Mor.memSize y - 1)) as Htb.
  { apply (convert_exact m r); [done|done|]. apply Exists_exists. exists y. split; [done|].
    split_and!; [done|done|lia|lia]. }
  pose proof (touched_bound m _ Hfit Htb). lia.
Qed.

(** ** Theorems *)

(** The in-place merge loop and the streaming sink produce the same
    records, so converting a batch of events gives the same result with and
    without the initialisation check, and never reads out of range. *)
Theorem merge_equals_sink records events initCheck :
  MergeRecords records = Some (foldl sink_emplace_back [] records) ∧
  ConvertEventsToRecords initCheck events [] = ConvertEventsToRecords (negb initCheck) events [].
Proof. split; [apply MergeRecords_sink|by rewrite !ConvertEventsToRecords_eq]. Qed.

(** The event is a memory event the converter handles without loss, of the
    given kind. *)
Definition exact_event (e : SanEvent) : Prop :=
  match eventInfo e with MemInfo m => event_fits m ∧ shortcut m = false | _ => True end.

Definition is_mem_event (e : SanEvent) : bool :=
  match eventInfo e with MemInfo _ => true | _ => false end.

Definition event_touches (t : MemOpType) (space : AddressSpace) (x : Z) (e : SanEvent) : Prop :=
  match eventInfo e with
  | MemInfo m => FormatConverter.AccessTypeToMemOpType (opType m) = t ∧
                 FormatConverter.MemTypeToAddrSpace (memType m) = space ∧ touched m x
  | _ => False
  end.

Lemma event_records e t space x :
  is_mem_event e = true → exact_event e →
  Forall no_wrap (ConvertEventRecords e) ∧
  (covered (ConvertEventRecords e) t space x ↔ event_touches t space x e).
Proof.
  unfold is_mem_event, exact_event, event_touches, ConvertEventRecords, ConvertMemEventRecords.
  destruct (eventInfo e) as [| |m| | | | | | | | | | | |]; try done. intros _ [Hfit Hsh].
  destruct (Z.eqb_spec (repeatTimes m) 0) as [E0|_]; [destruct Hfit; lia|].
  set (r := SetBasicMemInfo Mor.zero e m). change (if blockStride m <=? 1 then _ else _) with (convert_mem m r).
  split; [by apply convert_no_wrap|].
  pose proof (convert_from m r Hfit) as Hf. split.
  - intros Hc. assert (Mor.type r = t ∧ Mor.dstSpace r = space) as [<- <-].
    { apply Exists_exists in Hc as (y & Hy & <- & <- & _). rewrite Forall_forall in Hf.
      by destruct (Hf y Hy) as (-> & -> & _). }
    split_and!; [done|done|]. by apply (convert_exact m r).
  - intros (<- & <- & Hx). by apply (convert_exact m r).
Qed.

(** C22: end to end, the conversion of a batch of memory events (whose field
    products do not overflow and that take none of the shortcuts) covers, for
    every operation kind and address space, exactly the bytes the events touch:
    no access is lost or invented by the repeat/stride expansion or by merging
    adjacent records. *)
Theorem conversion_exact initCheck events t space x :
  Forall (λ e, is_mem_event e = true ∧ exact_event e) events →
  ∃ rs, ConvertEventsToRecords initCheck events [] = Some rs ∧
    (covered rs t space x ↔ Exists (event_touches t space x) events).
Proof.
  intros Hev. eexists. split; [apply ConvertEventsToRecords_eq|].
  assert (Forall no_wrap (events ≫= ConvertEventRecords) ∧
    (covered (events ≫= ConvertEventRecords) t space x ↔ Exists (event_touches t space x) events)) as [Hnw Hc].
  { induction Hev as [|e events [Hm He] Hev [IH1 IH2] ]; simpl.
    { split; [apply Forall_nil_2|]. unfold covered. by rewrite !Exists_nil. }
    destruct (event_records e t space x Hm He) as [Hn Hc]. split; [by apply Forall_app|].
    unfold covered in *. by rewrite Exists_app, Exists_cons, Hc, IH2. }
  rewrite sink_all_covers, Hc by (done || apply Forall_nil_2). unfold covered. rewrite Exists_nil. tauto.
Qed.

(** The shortcuts of the several-blocks converter lose bytes: with a block
    stride above one and a repeat stride of zero, of one (with at least as many
    repeats as the block stride) or equal to the block stride, the last block
    the event touches is in no record, while no record invents a byte. *)
Theorem stride_shortcuts_lose_bytes m r :
  event_fits m → shortcut m = true → 2 <= blockNum m → 1 <= blockSize m →
  (repeatStride m = blockStride m → 2 <= repeatTimes m) →
  touched m (missed_byte m) ∧
  ¬ covered (ConvertMutiRecordRepeats m r) (Mor.type r) (Mor.dstSpace r) (missed_byte m) ∧
  (∀ x, covered (ConvertMutiRecordRepeats m r) (Mor.type r) (Mor.dstSpace r) x → touched m x).
Proof.
  intros. destruct (shortcut_misses m r) as [? ?]; [done..|]. split_and!; [done..|].
  intros x. by apply shortcut_sound.
Qed.

Definition demo_mem (bn bs bstride rt rstride : Z) : MemOpInfo :=
  {| memType := MemType.UB; opType := READ; vectorMask := {| mask0 := 0; mask1 := 0 |}; maskMode := 0;
     instrName := 0; dataBits := 16; addr := 4096; blockNum := bn; blockSize := bs; blockStride := bstride;
     repeatTimes := rt; repeatStride := rstride; alignSize := 1; mem_ignoreIllegalCheck := false;
     isScalarAtomic := false; dcciDistance := 0; dstCoreId := 0; dstBlockType := AIVEC;
     instrClass := INSTR_UNKNOWN; matrixM := 0; matrixN := 0 |}.

Definition demo_event (m : MemOpInfo) : SanEvent :=
  {| serialNo := 1; pipe := PIPE_V; eventInfo := MemInfo m;
     loc := {| fileNo := 0; lineNo := 7; pc := 64; deviceIdx := 0; kernelIdx := 0; deviceId := 0;
               coreId := 2; blockType := AIVEC |};
     isAtomicMode := false; recordType := 10000; closedRingStartSerialNo := 0 |}.

Lemma conversion_exact_witness :
  ∃ rs, ConvertEventsToRecords true [demo_event (demo_mem 8 32 1 4 8); demo_event (demo_mem 8 32 3 2 40)] []
          = Some rs ∧
    (covered rs LOAD UB 4100 ↔
     Exists (event_touches LOAD UB 4100)
       [demo_event (demo_mem 8 32 1 4 8); demo_event (demo_mem 8 32 3 2 40)]).
Proof.
  apply (conversion_exact true [demo_event (demo_mem 8 32 1 4 8); demo_event (demo_mem 8 32 3 2 40)]).
  repeat apply Forall_cons_2; try apply Forall_nil_2; (split; [done|]; split; [|done]);
    split; simpl; lia.
Defined.

Lemma stride_shortcuts_lose_bytes_witness :
  let m := demo_mem 8 32 2 4 2 in
  missed_byte m = 4096 + 640 ∧ touched m (missed_byte m) ∧
  ¬ covered (ConvertMutiRecordRepeats m Mor.zero) (Mor.type Mor.zero) (Mor.dstSpace Mor.zero) (missed_byte m).
Proof.
  intros m. split; [done|].
  destruct (stride_shortcuts_lose_bytes m Mor.zero) as (H1 & H2 & _); [split; simpl; lia|done|simpl; lia..|].
  split; [exact H1|exact H2].
Defined.
