(* ===== verification/AsanAction.v ===== *)
(** Actions on memory records: [csrc/address_sanitizer/asan_action.h],
    [asan_action.cpp], the masks of
    [csrc/core/framework/initcheck_address_space.h] and the peer-access register
    [csrc/core/framework/peer_access_manager.h], [peer_access_manager.cpp].

    An action runs on the shadow memory and one bounds table and yields the
    messages. The peer register is process-wide and refers to other devices'
    checkers by pointer: pointers are numbers, and the checker behind one answers
    through [CheckExistingGmRange], which the client supplies. *)
From stdpp Require Import base numbers list option gmap strings.
From S2P Require Import Prelude.
From S2P Require Import ShadowWord.
From S2P Require Import Pm.
From S2P Require Import GmPm.
From S2P Require Import ShadowMap.
From S2P Require Import RecordDefs.
From S2P Require Import Platform.
From S2P Require Import HeapBlockManager.
From S2P Require Import ShadowMemory.
From S2P Require Import BoundsCheck.
From S2P Require Import EventDef.

(** ** Address-space masks of the initialisation check *)

Inductive InitcheckFilterScope := SHARED_EVENTS | ADDRESS_SANITIZER_EVENTS | INITIALIZATION_CHECK.
#[export] Instance InitcheckFilterScope_eq : EqDecision InitcheckFilterScope.
Proof. solve_decision. Defined.

Definition GetEffectiveInitcheckAddressSpaceMask (config : Config) (mask : Z)
    (scope : InitcheckFilterScope) : Z :=
  if bool_decide (scope = INITIALIZATION_CHECK) then (if initCheck config then mask else 0)
  else if negb (initCheck config) || memCheck config ||
          (bool_decide (scope = SHARED_EVENTS) &&
           (raceCheck config || syncCheck config || registerCheck config))
  then INITCHECK_ALL_ADDRESS_SPACES else mask.

Definition IsInitcheckAddressSpaceEnabled (mask : Z) (space : AddressSpace) : bool :=
  negb (Z.land mask (InitcheckAddressSpaceBit space) =? 0).

Definition ShouldCollectInitcheckEvent (mask : Z) (event : SanEvent) : bool :=
  if mask =? INITCHECK_ALL_ADDRESS_SPACES then true
  else
    match eventInfo event with
    | MemInfo m => IsInitcheckAddressSpaceEnabled mask (FormatConverter.MemTypeToAddrSpace (memType m))
    | DynamicInfo d =>
        if dyn_isSimtEntry d
        then IsInitcheckAddressSpaceEnabled mask (FormatConverter.MemTypeToAddrSpace (dyn_memType d))
        else true
    | _ => true
    end.

(** ** Peer access *)

Module Peer.
Inductive PeerAccessOp := ENABLE | DISABLE | RESET.
Record PeerAccessRecord := { deviceId : Z; peerDeviceId : Z; operation : PeerAccessOp }.

(** Pointers to checkers and to bounds tables are numbers. *)
Record Source := { src_pid : Z; src_deviceId : Z; src_sanitizer : Z }.
Record ProcessState := { relations : gmap Z (gset Z); devices : gmap Z Z }.
Record PeerAccessManager := { processes_ : gmap Z ProcessState; sources_ : gmap Z Source }.

Definition empty_process : ProcessState := {| relations := ∅; devices := ∅ |}.
Definition empty_manager : PeerAccessManager := {| processes_ := ∅; sources_ := ∅ |}.

(** [processes_[pid]] creates the entry when it is absent. *)
Definition process_of (p : PeerAccessManager) (pid : Z) : ProcessState :=
  default empty_process (processes_ p !! pid).
Definition put_relations (p : PeerAccessManager) (pid : Z) (r : gmap Z (gset Z)) : PeerAccessManager :=
  {| processes_ := <[pid := {| relations := r; devices := devices (process_of p pid) |}]> (processes_ p);
     sources_ := sources_ p |}.

(** A reset device neither accesses nor is accessed. *)
Definition forget_device (dev : Z) (rel : gmap Z (gset Z)) : gmap Z (gset Z) :=
  (λ s : gset Z, s ∖ {[ dev ]}) <$> delete dev rel.

Definition Apply (p : PeerAccessManager) (pid : Z) (record : PeerAccessRecord) : PeerAccessManager * bool :=
  if (pid <? 0) || (deviceId record <? 0) then (p, false)
  else
    let rel := relations (process_of p pid) in
    let peers := default ∅ (rel !! deviceId record) in
    match operation record with
    | ENABLE | DISABLE =>
        if (peerDeviceId record <? 0) || (peerDeviceId record =? deviceId record)
        then (put_relations p pid rel, false)
        else
          let peers :=
            match operation record with
            | ENABLE => {[ peerDeviceId record ]} ∪ peers
            | _ => peers ∖ {[ peerDeviceId record ]}
            end in
          (put_relations p pid (<[deviceId record := peers]> rel), true)
    | RESET =>
        if negb (peerDeviceId record =? -1) then (put_relations p pid rel, false)
        else
          (put_relations p pid (forget_device (deviceId record) rel), true)
    end.

(** A null pointer is 0. *)
Definition RegisterDevice (p : PeerAccessManager) (pid dev sanitizer runtimeBounds dfxBounds : Z)
    : PeerAccessManager :=
  if (pid <? 0) || (dev <? 0) || (sanitizer =? 0) || (runtimeBounds =? 0) || (dfxBounds =? 0) then p
  else
    let ps := process_of p pid in
    let src := {| src_pid := pid; src_deviceId := dev; src_sanitizer := sanitizer |} in
    {| processes_ := <[pid := {| relations := relations ps; devices := <[dev := sanitizer]> (devices ps) |}]>
                       (processes_ p);
       sources_ := <[dfxBounds := src]> (<[runtimeBounds := src]> (sources_ p)) |}.

Definition UnregisterDevice (p : PeerAccessManager) (sanitizer : Z) : PeerAccessManager :=
  {| processes_ := (λ ps, {| relations := relations ps;
                             devices := filter (λ kv, kv.2 ≠ sanitizer) (devices ps) |}) <$> processes_ p;
     sources_ := filter (λ kv, src_sanitizer kv.2 ≠ sanitizer) (sources_ p) |}.

(** [gm_range_ok] is [CheckExistingGmRange] of the checker behind a pointer. *)
Definition CheckRemote (gm_range_ok : Z → Z → Z → AccessType → bool) (p : PeerAccessManager)
    (localBounds addr size : Z) (accessType : AccessType) : bool :=
  if (size =? 0) || (UINT64_MAX -u size <? addr) then false
  else
    match sources_ p !! localBounds with
    | None => false
    | Some source =>
        match processes_ p !! src_pid source with
        | None => false
        | Some process =>
            match relations process !! src_deviceId source with
            | None => false
            | Some peers =>
                existsb (λ peer,
                  match devices process !! peer with
                  | None => false
                  | Some sanitizer => gm_range_ok sanitizer addr size accessType
                  end) (elements peers)
            end
        end
    end.
End Peer.

(** ** Actions *)

Module Asan.
(** What an action sees of the process: the peer register, the other checkers,
    and the mask of the configuration manager. *)
Record Env := {
  peers : Peer.PeerAccessManager;
  gm_range_ok : Z → Z → Z → AccessType → bool;
  initcheckMask : Z;
}.

Section actions.
Context `{!Securec}.

Definition FillErrorLocInfo (record : MemOpRecord) (msg : ErrorMsg) : ErrorMsg :=
  Err.upd_aux
    (Aux.set_recordType (Mor.recordType record) ∘ Aux.set_side (Mor.side record) ∘
     Aux.set_serialNo (Mor.serialNo record) ∘ Aux.set_pc (Mor.pc record) ∘
     Aux.set_blockType (Mor.blockType record) ∘ Aux.set_coreId (Mor.coreId record) ∘
     Aux.set_lineNo (u64 (Mor.lineNo record)) ∘ Aux.set_fileName (Mor.fileName record) ∘
     Aux.set_moduleId (Mor.moduleId record)) msg.

(** [self] is the pointer of the bounds table in use. *)
Definition CheckPeerAccessAddr (env : Env) (self : Z) (record : MemOpRecord)
    (boundsCheck : BoundsCheck.BoundsCheck) (accessType : AccessType) : bool :=
  if negb (bool_decide (Mor.dstSpace record = GM)) then false
  else if BoundsCheck.HasOverlap boundsCheck (Mor.dstSpace record) (Mor.dstAddr record) (Mor.memSize record)
  then false
  else Peer.CheckRemote (gm_range_ok env) (peers env) self (Mor.dstAddr record) (Mor.memSize record) accessType.

(** State after an action: shadow memory, bounds table, messages. *)
Definition result : Type := Shm.ShadowMemory * BoundsCheck.BoundsCheck * ErrorMsgList.

Definition AsanMalloc_doAction (record : MemOpRecord) (s : Shm.ShadowMemory) (b : BoundsCheck.BoundsCheck)
    (ignoreShadowMemory : bool) : result :=
  if negb (bool_decide (Mor.dstSpace record = GM)) then (s, b, [])
  else
    let '(s, added) := if ignoreShadowMemory then (s, true) else Shm.AddHeapBlock s record in
    if negb added then (s, b, [])
    else
      let '(b, errorMsg) :=
        if bool_decide (Mor.infoSrc record = MSTX_HEAP)
        then BoundsCheck.Remove b (Mor.dstSpace record) (Mor.dstAddr record) (Mor.memSize record)
        else BoundsCheck.Add b (Mor.dstSpace record) (Mor.dstAddr record) (Mor.memSize record)
               Bounds.DEFAULT_PERMISSION in
      (s, b, if Err.isError errorMsg then [errorMsg] else []).

Definition AsanFree_doAction (config : Config) (record : MemOpRecord) (s : Shm.ShadowMemory)
    (b : BoundsCheck.BoundsCheck) (ignoreShadowMemory : bool) : option result :=
  if negb (bool_decide (Mor.dstSpace record = GM)) then Some (s, b, [])
  else
    let '(s, size, freeErrors) :=
      if negb ignoreShadowMemory then
        let '(s, msg, size) := Shm.FreeHeapBlock s record 0 in
        (s, size, if Err.isError msg
                  then [FillErrorLocInfo record (Err.upd_aux (Aux.set_badAddr (Mor.dstAddr record)) msg)]
                  else [])
      else (s, match Mor.infoSrc record with
               | BYPASS => Shm.GetHeapBlockBypassSize s record
               | _ => Shm.GetHeapBlockSize s record
               end, []) in
    let '(b, msg) :=
      if bool_decide (Mor.infoSrc record = MSTX_HEAP)
      then BoundsCheck.Add b (Mor.dstSpace record) (Mor.dstAddr record) size Bounds.DEFAULT_PERMISSION
      else BoundsCheck.Remove b (Mor.dstSpace record) (Mor.dstAddr record) size in
    let boundsErrors := if Err.isError msg then [msg] else [] in
    '(s, unusedErrors) ←
      (if memCheck config && checkUnusedMemory config && negb ignoreShadowMemory &&
          negb (bool_decide (Mor.infoSrc record = BYPASS))
       then '(s, msg) ← Shm.CheckUnusedMem s (Mor.dstAddr record) size;
            Some (s, if Err.isError msg
                     then [Err.upd_aux (Aux.set_serialNo (Mor.serialNo record) ∘
                                        Aux.set_side (Mor.side record)) msg]
                     else [])
       else Some (s, []));
    s ← (if ignoreShadowMemory then Some s
         else match Mor.infoSrc record with
              | EXTRA => Shm.ClearBlockId s (Mor.dstAddr record) size
              | _ => Shm.MakeMemUndefined s (Mor.dstAddr record) size
              end);
    Some (s, b, freeErrors ++ boundsErrors ++ unusedErrors).

(** The bounds part shared by loads and stores. *)
Definition bounds_errors (env : Env) (self : Z) (config : Config) (record : MemOpRecord)
    (b : BoundsCheck.BoundsCheck) (accessType : AccessType) (errorType : MemErrorType) : ErrorMsgList :=
  if memCheck config && negb (Mor.ignoreIllegalCheck record) then
    let msg := BoundsCheck.Check b (Mor.dstSpace record) (Mor.dstAddr record) (Mor.memSize record) accessType in
    if Err.isError msg && negb (CheckPeerAccessAddr env self record b accessType)
    then [FillErrorLocInfo record
            (Err.SetType errorType (Mor.dstSpace record) (Aux.badAddr (Err.auxData msg)) msg)]
    else []
  else [].

Definition AsanLoad_doAction (env : Env) (self : Z) (config : Config) (record : MemOpRecord)
    (s : Shm.ShadowMemory) (b : BoundsCheck.BoundsCheck) (ignoreShadowMemory : bool) : option result :=
  let errorMsgs := bounds_errors env self config record b READ ILLEGAL_ADDR_READ in
  let mask := GetEffectiveInitcheckAddressSpaceMask config (initcheckMask env) INITIALIZATION_CHECK in
  if IsInitcheckAddressSpaceEnabled mask (Mor.dstSpace record) && negb ignoreShadowMemory then
    loadErrors ← Shm.LoadNBytes s (Shm.for_shadow record) (initCheck config);
    Some (s, b, errorMsgs ++ (FillErrorLocInfo record <$> loadErrors))
  else Some (s, b, errorMsgs).

Definition AsanStore_doAction (env : Env) (self : Z) (config : Config) (record : MemOpRecord)
    (s : Shm.ShadowMemory) (b : BoundsCheck.BoundsCheck) (ignoreShadowMemory : bool) : option result :=
  let errorMsgs := bounds_errors env self config record b WRITE ILLEGAL_ADDR_WRITE in
  let mask := GetEffectiveInitcheckAddressSpaceMask config (initcheckMask env) INITIALIZATION_CHECK in
  if (IsInitcheckAddressSpaceEnabled mask (Mor.dstSpace record) ||
      (memCheck config && bool_decide (Mor.dstSpace record = GM))) && negb ignoreShadowMemory then
    '(s, storeErrors) ←
      Shm.StoreNBytes s (Shm.for_shadow record) (memCheck config) (outOfBoundCheck config);
    Some (s, b, errorMsgs ++ (FillErrorLocInfo record <$> storeErrors))
  else Some (s, b, errorMsgs).

Definition swap_ends (r : MemOpRecord) : MemOpRecord :=
  Mor.set_srcSpace (Mor.dstSpace r) (Mor.set_dstSpace (Mor.srcSpace r)
    (Mor.set_srcAddr (Mor.dstAddr r) (Mor.set_dstAddr (Mor.srcAddr r) r))).

Definition AsanMemcpyBlocks_doAction (env : Env) (self : Z) (config : Config) (record : MemOpRecord)
    (s : Shm.ShadowMemory) (b : BoundsCheck.BoundsCheck) (ignoreShadowMemory : bool) : option result :=
  '(s, b, readErrorMsgs) ← AsanLoad_doAction env self config (swap_ends record) s b ignoreShadowMemory;
  '(s, b, writeErrorMsgs) ←
    AsanStore_doAction env self config (swap_ends (swap_ends record)) s b ignoreShadowMemory;
  Some (s, b, readErrorMsgs ++ writeErrorMsgs).

(** [CreateAsanAction(record).doAction]: an operation without an action yields
    no message; [IsValid] is whether there is one. *)
Definition IsValid (record : MemOpRecord) : bool :=
  match Mor.type record with MALLOC | FREE | MEMCPY_BLOCKS | LOAD | STORE => true | _ => false end.

Definition doAction (env : Env) (self : Z) (config : Config) (record : MemOpRecord)
    (s : Shm.ShadowMemory) (b : BoundsCheck.BoundsCheck) (ignoreShadowMemory : bool) : option result :=
  match Mor.type record with
  | MALLOC => Some (AsanMalloc_doAction record s b ignoreShadowMemory)
  | FREE => AsanFree_doAction config record s b ignoreShadowMemory
  | MEMCPY_BLOCKS => AsanMemcpyBlocks_doAction env self config record s b ignoreShadowMemory
  | LOAD => AsanLoad_doAction env self config record s b ignoreShadowMemory
  | STORE => AsanStore_doAction env self config record s b ignoreShadowMemory
  | _ => Some (s, b, [])
  end.
End actions.
End Asan.
