(* ===== verification/AddressSanitizer.v ===== *)
(** The address sanitizer: [csrc/address_sanitizer/address_sanitizer.h],
    [address_sanitizer.cpp], with the alignment checker [align_checker.h],
    [align_checker.cpp].

    State as a record, one function per method. Sent notifications are appended
    to a log (their text is not modelled). The pipeline replayer that orders the
    events of a kernel for the initialisation check is an interface. *)
From stdpp Require Import base numbers list option gmap strings.
From S2P Require Import Prelude.
From S2P Require Import ShadowWord.
From S2P Require Import Pm.
From S2P Require Import GmPm.
From S2P Require Import ShadowMap.
From S2P Require Import RecordDefs.
From S2P Require Import Platform.
From S2P Require Import HeapBlockManager.
From S2P Require Import ErrorBuffer.
From S2P Require Import ShadowMemory.
From S2P Require Import BoundsCheck.
From S2P Require Import EventDef.
From S2P Require Import Convert.
From S2P Require Import AsanAction.

Inductive LogLv := LV_DEBUG | LV_INFO | LV_WARN | LV_ERROR.

Definition GetNotifyLv (type : MemErrorType) : LogLv :=
  match type with
  | OUT_OF_BOUNDS => LV_WARN | MISALIGNED_ACCESS => LV_ERROR | MEM_LEAK => LV_ERROR
  | MEM_UNUSED => LV_WARN | _ => LV_ERROR
  end.

(** What a notification is about. *)
Inductive notification :=
  | NReport (lv : LogLv) (report : ErrBuf.ReducedErrorMsg)
  | NUnusedSummary (lv : LogLv) (msgs : ErrorMsgList) (bytesNotUse blockNum : Z)
  | NLeakSummary (lv : LogLv) (msgs : ErrorMsgList) (lenSum count : Z).

(** [ReducedErrorMsg{msg, {}, {}, {}}] *)
Definition single (msg : ErrorMsg) : ErrBuf.ReducedErrorMsg :=
  {| ErrBuf.errorMsg := msg; ErrBuf.aivBlocks := ∅; ErrBuf.aicBlocks := ∅; ErrBuf.aicoreBlocks := ∅ |}.

(** ** Records the sanitizer receives *)

Record MstxTensorDesc := { t_space : AddressSpace; t_addr : Z; t_size : Z; t_dataBits : Z }.

(** The tensors of the interface; [t_src1] is used by binary operations only. *)
Record MstxRecord := {
  interfaceType : Z; t_src : MstxTensorDesc; t_src1 : MstxTensorDesc; t_dst : MstxTensorDesc;
}.
Definition MSTX_VEC_UNARY_OP : Z := 3000.
Definition MSTX_VEC_BINARY_OP : Z := 3001.
Definition MSTX_DATA_COPY : Z := 4001.
Definition MSTX_DATA_COPY_PAD : Z := 4002.
Definition MSTX_DATA_COPY_PAD_V2 : Z := 4003.
Definition MSTX_WITH_TENSOR : Z := 4004.

Record KernelRecord := {
  kr_recordType : RecordType.RecordType; kr_atomicMode : AtomicMode; kr_mstx : MstxRecord;
}.
Record MemRegionPermissionDesc := { p_addr : Z; p_size : Z; p_flags : Z }.

Inductive SanitizerRecord :=
  | MEMORY_RECORD (r : MemOpRecord) | KERNEL_RECORD (r : KernelRecord) | IPC_RECORD
  | REGION_PERMISSION (d : MemRegionPermissionDesc).

Definition IsMstxRecordWithTensor (record : SanitizerRecord) : bool :=
  match record with
  | KERNEL_RECORD k =>
      RecordType.eqb (kr_recordType k) RecordType.MSTX_STUB &&
      (MSTX_VEC_UNARY_OP <=? interfaceType (kr_mstx k)) && (interfaceType (kr_mstx k) <? MSTX_WITH_TENSOR)
  | _ => false
  end.

(** ** Alignment *)

Module AlignChecker.
Record AlignChecker := { registered : bool; errorBuffer_ : ErrBuf.ErrorBuffer; deviceType_ : DeviceType }.

Definition SupportAlign (space : AddressSpace) : bool :=
  match space with PRIVATE | GM | L1 | L0A | L0B | L0C | UB => true | BT | FB | UNKNOWN => false end.

(** [fileName] is the name the file table gives the number of the event. *)
Definition SetBasicMemInfo (fileName : Z → string) (msg : ErrorMsg) (event : SanEvent) : ErrorMsg :=
  Err.SetLocInfo (fileName (fileNo (loc event))) (lineNo (loc event)) (pc (loc event))
    (i32 (coreId (loc event))) (blockType (loc event)) msg.

Definition set_alignSize (n : Z) (m : MemOpInfo) : MemOpInfo :=
  {| memType := memType m; opType := opType m; vectorMask := vectorMask m; maskMode := maskMode m;
     instrName := instrName m; dataBits := dataBits m; addr := addr m; blockNum := blockNum m;
     blockSize := blockSize m; blockStride := blockStride m; repeatTimes := repeatTimes m;
     repeatStride := repeatStride m; alignSize := n; mem_ignoreIllegalCheck := mem_ignoreIllegalCheck m;
     isScalarAtomic := isScalarAtomic m; dcciDistance := dcciDistance m; dstCoreId := dstCoreId m;
     dstBlockType := dstBlockType m; instrClass := instrClass m; matrixM := matrixM m; matrixN := matrixN m |}.
Definition set_eventInfo (i : EventInfo) (e : SanEvent) : SanEvent :=
  {| serialNo := serialNo e; pipe := pipe e; eventInfo := i; loc := loc e; isAtomicMode := isAtomicMode e;
     recordType := recordType e; closedRingStartSerialNo := closedRingStartSerialNo e |}.

(** [CheckAlign(event, alignSize)]: the event is updated in place. *)
Definition CheckAlignSize (fileName : Z → string) (c : AlignChecker) (event : SanEvent) (align : Z)
    : AlignChecker * SanEvent :=
  if negb (registered c) then (c, event)
  else
    match eventInfo event with
    | MemInfo memInfo =>
        let event := set_eventInfo (MemInfo (set_alignSize align memInfo)) event in
        let space := FormatConverter.MemTypeToAddrSpace (memType memInfo) in
        if negb (SupportAlign space) then (c, event)
        else if negb (align =? 0) && negb (addr memInfo `mod` align =? 0) then
          let msg :=
            Err.upd_aux (Aux.set_serialNo (serialNo event) ∘ Aux.set_side KERNEL)
              (SetBasicMemInfo fileName
                (Err.upd_aux (Aux.set_nBadBytes (blockSize memInfo))
                  (Err.SetType MISALIGNED_ACCESS space (addr memInfo) Err.no_error)) event) in
          ({| registered := registered c; errorBuffer_ := ErrBuf.Add (errorBuffer_ c) msg;
              deviceType_ := deviceType_ c |}, event)
        else (c, event)
    | _ => (c, event)
    end.

(** [CheckAlign(event, recordType)] *)
Definition CheckAlign (fileName : Z → string) (c : AlignChecker) (event : SanEvent)
    (r : RecordType.RecordType) : AlignChecker * SanEvent :=
  if negb (registered c) then (c, event)
  else
    match eventInfo event with
    | MemInfo memInfo =>
        if (blockSize memInfo =? 0) || (blockNum memInfo =? 0) || (repeatTimes memInfo =? 0) then (c, event)
        else
          let space := FormatConverter.MemTypeToAddrSpace (memType memInfo) in
          CheckAlignSize fileName c event (FormatConverter.GetAlignSize memInfo space r (deviceType_ c))
    | _ => (c, event)
    end.

Definition SetDeviceType (d : DeviceType) (c : AlignChecker) : AlignChecker :=
  {| registered := registered c; errorBuffer_ := errorBuffer_ c; deviceType_ := d |}.

(** [Notify]: the buffer is handed out and emptied. *)
Definition Notify (c : AlignChecker) : AlignChecker * list notification :=
  if negb (registered c) then (c, [])
  else
    ({| registered := true; errorBuffer_ := ErrBuf.Clear (errorBuffer_ c); deviceType_ := deviceType_ c |},
     NReport LV_ERROR <$> ErrBuf.GetBuffer (errorBuffer_ c)).
End AlignChecker.

(** ** The replayer interface *)

(** [Do] hands over an event and releases the memory events whose turn it is. *)
Class Replayer := {
  rstate : Type;
  r_Init : KernelType → DeviceType → Z → rstate;
  r_Do : rstate → SanEvent → rstate * list SanEvent;
  r_IsFinished : rstate → bool;
}.

Module ASan.
Inductive BoundsCheckScope := RUNTIME | DFX | SCOPE_BYPASS.
#[export] Instance BoundsCheckScope_eq : EqDecision BoundsCheckScope. Proof. solve_decision. Defined.

(** The default function ignores notifications; a null one must not be called. *)
Inductive MsgFunc := MSG_DEFAULT | MSG_REGISTERED | MSG_NULL.

Section sanitizer.
Context `{!Securec} `{!Replayer}.

Record AddressSanitizer := mkAsan {
  shadowMemory_ : Shm.ShadowMemory;
  msgFunc_ : MsgFunc;
  config_ : Config;
  errorBuffer_ : ErrBuf.ErrorBuffer;
  boundsCheckScope_ : BoundsCheckScope;
  historyBoundsCheckScope_ : BoundsCheckScope;
  boundsCheckRuntime_ : BoundsCheck.BoundsCheck;
  boundsCheckDfx_ : BoundsCheck.BoundsCheck;
  mstxHeapCacheMap_ : gmap Z Z;
  pipelineReplayer_ : rstate;
  replayedRecords_ : list MemOpRecord;
  replayedEventCount_ : Z;
  deviceType_ : DeviceType;
  preSerialNo_ : Z;
  pid_ : Z;
  sent : list notification;
}.

(** Field updates. *)
Definition upd_checks (s : Shm.ShadowMemory) (rt dfx : BoundsCheck.BoundsCheck) (a : AddressSanitizer)
    : AddressSanitizer :=
  mkAsan s (msgFunc_ a) (config_ a) (errorBuffer_ a) (boundsCheckScope_ a) (historyBoundsCheckScope_ a)
    rt dfx (mstxHeapCacheMap_ a) (pipelineReplayer_ a) (replayedRecords_ a) (replayedEventCount_ a)
    (deviceType_ a) (preSerialNo_ a) (pid_ a) (sent a).
Definition upd_shadow (s : Shm.ShadowMemory) (a : AddressSanitizer) : AddressSanitizer :=
  upd_checks s (boundsCheckRuntime_ a) (boundsCheckDfx_ a) a.
Definition upd_buffer (b : ErrBuf.ErrorBuffer) (a : AddressSanitizer) : AddressSanitizer :=
  mkAsan (shadowMemory_ a) (msgFunc_ a) (config_ a) b (boundsCheckScope_ a) (historyBoundsCheckScope_ a)
    (boundsCheckRuntime_ a) (boundsCheckDfx_ a) (mstxHeapCacheMap_ a) (pipelineReplayer_ a)
    (replayedRecords_ a) (replayedEventCount_ a) (deviceType_ a) (preSerialNo_ a) (pid_ a) (sent a).
Definition upd_scope (s h : BoundsCheckScope) (m : gmap Z Z) (a : AddressSanitizer) : AddressSanitizer :=
  mkAsan (shadowMemory_ a) (msgFunc_ a) (config_ a) (errorBuffer_ a) s h
    (boundsCheckRuntime_ a) (boundsCheckDfx_ a) m (pipelineReplayer_ a)
    (replayedRecords_ a) (replayedEventCount_ a) (deviceType_ a) (preSerialNo_ a) (pid_ a) (sent a).
Definition upd_replay (r : rstate) (rs : list MemOpRecord) (n : Z) (a : AddressSanitizer) : AddressSanitizer :=
  mkAsan (shadowMemory_ a) (msgFunc_ a) (config_ a) (errorBuffer_ a) (boundsCheckScope_ a)
    (historyBoundsCheckScope_ a) (boundsCheckRuntime_ a) (boundsCheckDfx_ a) (mstxHeapCacheMap_ a) r
    rs n (deviceType_ a) (preSerialNo_ a) (pid_ a) (sent a).
Definition upd_preSerialNo (n : Z) (a : AddressSanitizer) : AddressSanitizer :=
  mkAsan (shadowMemory_ a) (msgFunc_ a) (config_ a) (errorBuffer_ a) (boundsCheckScope_ a)
    (historyBoundsCheckScope_ a) (boundsCheckRuntime_ a) (boundsCheckDfx_ a) (mstxHeapCacheMap_ a)
    (pipelineReplayer_ a) (replayedRecords_ a) (replayedEventCount_ a) (deviceType_ a) n (pid_ a) (sent a).
Definition upd_msg (f : MsgFunc) (l : list notification) (a : AddressSanitizer) : AddressSanitizer :=
  mkAsan (shadowMemory_ a) f (config_ a) (errorBuffer_ a) (boundsCheckScope_ a)
    (historyBoundsCheckScope_ a) (boundsCheckRuntime_ a) (boundsCheckDfx_ a) (mstxHeapCacheMap_ a)
    (pipelineReplayer_ a) (replayedRecords_ a) (replayedEventCount_ a) (deviceType_ a) (preSerialNo_ a)
    (pid_ a) l.

(** A call of [msgFunc_]; calling the null function throws. *)
Definition notify (n : notification) (a : AddressSanitizer) : option AddressSanitizer :=
  match msgFunc_ a with
  | MSG_NULL => None
  | MSG_DEFAULT => Some a
  | MSG_REGISTERED => Some (upd_msg MSG_REGISTERED (sent a ++ [n]) a)
  end.

Fixpoint notify_all (l : list notification) (a : AddressSanitizer) : option AddressSanitizer :=
  match l with [] => Some a | n :: l' => a ← notify n a; notify_all l' a end.

(** *** Construction and device *)

(** [AddressSanitizer()] *)
Definition new_AddressSanitizer (cfg : Config) (r0 : rstate) : AddressSanitizer :=
  mkAsan Shm.new_ShadowMemory MSG_DEFAULT cfg [] RUNTIME RUNTIME (BoundsCheck.new_BoundsCheck false)
    (BoundsCheck.new_BoundsCheck false) ∅ r0 [] 0 DEVICE_INVALID 0 (-1) [].

Record DeviceInfoSummary := { device : DeviceType; info_deviceId : Z }.

(** [SetDeviceInfo]: [self] and the addresses of the two bounds tables identify
    the object in the peer register; [runtimePid] is the process of the runtime
    context. *)
Definition SetDeviceInfo (p : Peer.PeerAccessManager) (self rtPtr dfxPtr runtimePid : Z)
    (info : DeviceInfoSummary) (config : Config) (c : AlignChecker.AlignChecker) (a : AddressSanitizer)
    : Peer.PeerAccessManager * AlignChecker.AlignChecker * AddressSanitizer * bool :=
  let pid := if pid_ a <? 0 then runtimePid else pid_ a in
  let p := if 0 <=? pid then Peer.UnregisterDevice p self else p in
  let with_device s rt dfx d :=
    mkAsan s (msgFunc_ a) config (errorBuffer_ a) (boundsCheckScope_ a) (historyBoundsCheckScope_ a) rt dfx
      (mstxHeapCacheMap_ a) (pipelineReplayer_ a) (replayedRecords_ a) (replayedEventCount_ a) d
      (preSerialNo_ a) pid (sent a) in
  match find_chip (device info) with
  | None =>
      (p, c, with_device (shadowMemory_ a) (boundsCheckRuntime_ a) (boundsCheckDfx_ a) (deviceType_ a), false)
  | Some chipInfo =>
      let '(s, ready) := Shm.Init (shadowMemory_ a) (device info) chipInfo in
      let p := if ready && (0 <=? pid) && (0 <=? info_deviceId info)
               then Peer.RegisterDevice p pid (info_deviceId info) self rtPtr dfxPtr else p in
      (p, AlignChecker.SetDeviceType (device info) c, with_device s (BoundsCheck.Init (boundsCheckRuntime_ a) chipInfo)
            (BoundsCheck.Init (boundsCheckDfx_ a) chipInfo) (device info), ready)
  end.

(** [~AddressSanitizer] *)
Definition Destroy (p : Peer.PeerAccessManager) (self : Z) (a : AddressSanitizer) : Peer.PeerAccessManager :=
  if 0 <=? pid_ a then Peer.UnregisterDevice p self else p.

Definition CheckExistingGmRange (a : AddressSanitizer) (addr size : Z) (accessType : AccessType) : bool :=
  let bounds := if bool_decide (boundsCheckScope_ a = DFX) then boundsCheckDfx_ a else boundsCheckRuntime_ a in
  negb (Err.isError (BoundsCheck.Check bounds GM addr size accessType)).

Definition SetKernelInfo (kernelType : KernelType) (blockDim : Z) (a : AddressSanitizer) : AddressSanitizer :=
  upd_replay (r_Init kernelType (deviceType_ a) blockDim) [] 0 a.

(** The replay callback on a memory event. *)
Definition replay_callback (a : AddressSanitizer) (event : SanEvent) : AddressSanitizer :=
  if initCheck (config_ a) then
    upd_replay (pipelineReplayer_ a)
      (foldl Convert.sink_emplace_back (replayedRecords_ a) (Convert.ConvertEventRecords event))
      (replayedEventCount_ a +u 1) a
  else a.

Definition AlertGMAddrOutOfBoundError (r : MemOpRecord) (a : AddressSanitizer) : option AddressSanitizer :=
  let g := Mor.gmAddrOutOfBoundsRecord r in
  notify (NReport LV_ERROR (single (Err.mkErrorMsg ERR_GM_ADDR_OUT_OF_BOUND false
    (Aux.set_serialNo (Mor.serialNo r) (Aux.set_baseSize (userSize g) (Aux.set_baseAddr (userAddr g)
      (Aux.set_nBadBytes (outSize g) (Aux.set_badAddr (outAddr g) Aux.default)))))))) a.

(** *** Scopes *)

Definition SwitchToScope (scope : BoundsCheckScope) (a : AddressSanitizer) : AddressSanitizer * bool :=
  if bool_decide (scope = boundsCheckScope_ a) then (a, false)
  else (upd_scope scope (historyBoundsCheckScope_ a) (mstxHeapCacheMap_ a) a, true).

Definition MemInfoToScope (infoSrc : MemInfoSrc) : BoundsCheckScope :=
  match infoSrc with EXTRA | MANUAL => DFX | BYPASS => SCOPE_BYPASS | _ => RUNTIME end.

Definition update_heap_cache (record : MemOpRecord) (m : gmap Z Z) : gmap Z Z :=
  if negb (bool_decide (Mor.infoSrc record = MSTX_HEAP)) then m
  else
    match Mor.type record with
    | MALLOC => <[Mor.dstAddr record := default 0 (m !! Mor.dstAddr record) +u 1]> m
    | FREE =>
        match m !! Mor.dstAddr record with
        | Some n => if n <=? 1 then delete (Mor.dstAddr record) m
                    else <[Mor.dstAddr record := n -u 1]> m
        | None => m
        end
    | _ => m
    end.

Definition UpdateHeapInfo (record : MemOpRecord) (a : AddressSanitizer) : AddressSanitizer :=
  upd_scope (boundsCheckScope_ a) (historyBoundsCheckScope_ a)
    (update_heap_cache record (mstxHeapCacheMap_ a)) a.

Definition BeforeScopeSwitch (record : MemOpRecord) (a : AddressSanitizer) : AddressSanitizer :=
  let a := upd_scope (boundsCheckScope_ a) (boundsCheckScope_ a) (mstxHeapCacheMap_ a) a in
  let a := UpdateHeapInfo record a in
  (SwitchToScope (MemInfoToScope (Mor.infoSrc record)) a).1.

Definition AfterScopeSwitch (record : MemOpRecord) (a : AddressSanitizer) : AddressSanitizer :=
  let infoSrc := Mor.infoSrc record in
  let a := if bool_decide (infoSrc = EXTRA) && negb (bool_decide (mstxHeapCacheMap_ a = ∅))
           then (SwitchToScope RUNTIME a).1 else a in
  let a := if (bool_decide (infoSrc = EXTRA) || bool_decide (infoSrc = MANUAL)) &&
              bool_decide (Mor.type record = FREE)
           then (SwitchToScope RUNTIME a).1 else a in
  if bool_decide (infoSrc = BYPASS) then (SwitchToScope (historyBoundsCheckScope_ a) a).1 else a.

(** *** Records *)

Definition ScopeDoAction (env : Asan.Env) (rtPtr dfxPtr : Z) (record : MemOpRecord) (a : AddressSanitizer)
    : option (AddressSanitizer * ErrorMsgList) :=
  match boundsCheckScope_ a with
  | DFX =>
      '(s, b, msgs) ← Asan.doAction env dfxPtr (config_ a) record (shadowMemory_ a) (boundsCheckDfx_ a) false;
      Some (upd_checks s (boundsCheckRuntime_ a) b a, msgs)
  | SCOPE_BYPASS =>
      '(s, dfx, dfxError) ←
        Asan.doAction env dfxPtr (config_ a) record (shadowMemory_ a) (boundsCheckDfx_ a) true;
      '(s, rt, rtError) ←
        Asan.doAction env rtPtr (config_ a) record s (boundsCheckRuntime_ a) false;
      Some (upd_checks s rt dfx a, dfxError ++ rtError)
  | RUNTIME =>
      '(s, b, msgs) ← Asan.doAction env rtPtr (config_ a) record (shadowMemory_ a) (boundsCheckRuntime_ a) false;
      Some (upd_checks s b (boundsCheckDfx_ a) a, msgs)
  end.

Definition DoMemOpRecord (env : Asan.Env) (rtPtr dfxPtr : Z) (record : MemOpRecord) (reduce : bool)
    (a : AddressSanitizer) : option AddressSanitizer :=
  if negb (Asan.IsValid record) then Some a
  else
    '(a, errorTypes) ← ScopeDoAction env rtPtr dfxPtr record a;
    if reduce then Some (upd_buffer (foldl ErrBuf.Add (errorBuffer_ a) errorTypes) a)
    else notify_all ((λ e, NReport (GetNotifyLv (Err.type e)) (single e)) <$> errorTypes) a.

Fixpoint DoMemOpRecords (env : Asan.Env) (rtPtr dfxPtr : Z) (records : list MemOpRecord)
    (a : AddressSanitizer) : option AddressSanitizer :=
  match records with
  | [] => Some a
  | r :: records' =>
      a ← DoMemOpRecord env rtPtr dfxPtr r true a; DoMemOpRecords env rtPtr dfxPtr records' a
  end.

(** The handler of a host memory record: scope, action, scope. *)
Definition do_host_record (env : Asan.Env) (rtPtr dfxPtr : Z) (r : MemOpRecord) (a : AddressSanitizer)
    : option AddressSanitizer :=
  let a := BeforeScopeSwitch r a in
  a ← DoMemOpRecord env rtPtr dfxPtr r false a;
  Some (AfterScopeSwitch r a).

(** [CheckRecordBeforeProcess]: the result tells whether the record goes on. *)
Definition CheckRecordBeforeProcess (env : Asan.Env) (rtPtr dfxPtr : Z) (record : SanitizerRecord)
    (a : AddressSanitizer) : option (AddressSanitizer * bool) :=
  if negb (Shm.IsReady (shadowMemory_ a)) then Some (a, false)
  else
    match record with
    | MEMORY_RECORD r =>
        if bool_decide (Mor.type r = GM_ADDR_OUT_OF_BOUND)
        then a ← AlertGMAddrOutOfBoundError r a; Some (a, false)
        else a ← do_host_record env rtPtr dfxPtr r a; Some (a, false)
    | KERNEL_RECORD k =>
        match kr_recordType k with
        | RecordType.BLOCK_FINISH =>
            s ← Shm.ResetChipMemory (shadowMemory_ a);
            s ← Shm.ResetPrivateMemory s;
            Some (upd_shadow s a, true)
        | rt =>
            match FormatConverter.GetAtomicFlag rt (kr_atomicMode k) with
            | Some enabled => Some (upd_shadow (Shm.SetAtomic (shadowMemory_ a) enabled) a, false)
            | None => Some (a, true)
            end
        end
    | _ => Some (a, true)
    end.

(** *** Reporting *)

Definition uninitCheckSkipInstrs : list RecordType.RecordType := [RecordType.LOAD_L1_2D].

Definition skipped (config : Config) (r : ErrBuf.ReducedErrorMsg) : bool :=
  initCheck config && bool_decide (Err.type (ErrBuf.errorMsg r) = UNINITIALIZED_READ) &&
  existsb (λ t, RecordType.code t =? Aux.recordType (Err.auxData (ErrBuf.errorMsg r))) uninitCheckSkipInstrs.

Definition ReportErrorMsg (a : AddressSanitizer) : option AddressSanitizer :=
  notify_all
    ((λ r, NReport (GetNotifyLv (Err.type (ErrBuf.errorMsg r))) r) <$>
       filter (λ r, skipped (config_ a) r = false) (ErrBuf.GetBuffer (errorBuffer_ a))) a.

(** The alignment checker has its own notification function, the same one. *)
Definition ReportAfterKernelFinish (c : AlignChecker.AlignChecker) (a : AddressSanitizer)
    : option (AlignChecker.AlignChecker * AddressSanitizer) :=
  a ← ReportErrorMsg a;
  let '(c, ns) := AlignChecker.Notify c in
  let a := upd_msg (msgFunc_ a) (sent a ++ ns) a in
  Some (c, upd_buffer (ErrBuf.Clear (errorBuffer_ a)) a).

Definition CheckNonDefaultReg (event : SanEvent) (a : AddressSanitizer) : option AddressSanitizer :=
  match eventInfo event with
  | MemInfo m =>
      if negb (instrName m =? 0) &&
         (negb (mask0 (vectorMask m) =? UINT64_MAX) || negb (mask1 (vectorMask m) =? UINT64_MAX))
      then
        notify (NReport LV_INFO (single (Err.mkErrorMsg NON_DEFAULT_REG false
          (Aux.set_instrName (instrName m) (Aux.set_pc (pc (loc event)) (Aux.set_serialNo (serialNo event)
            (Aux.set_maskMode (maskMode m) (Aux.set_vectorMask (vectorMask m) Aux.default)))))))) a
      else Some a
  | _ => Some a
  end.

Fixpoint check_registers (events : list SanEvent) (a : AddressSanitizer) : option AddressSanitizer :=
  match events with
  | [] => Some a
  | e :: events' =>
      a ← (if traceNonDefaultSprReg (config_ a) && negb (serialNo e =? preSerialNo_ a)
           then CheckNonDefaultReg e a else Some a);
      check_registers events' (upd_preSerialNo (serialNo e) a)
  end.

(** *** Permissions *)

Definition SetPermission (desc : MemRegionPermissionDesc) (a : AddressSanitizer) : AddressSanitizer :=
  let set b := (BoundsCheck.SetPermission b GM (p_addr desc) (p_size desc) (p_flags desc)).1 in
  let rt := match boundsCheckScope_ a with
            | RUNTIME | SCOPE_BYPASS => set (boundsCheckRuntime_ a) | DFX => boundsCheckRuntime_ a end in
  let dfx := match boundsCheckScope_ a with
             | DFX | SCOPE_BYPASS => set (boundsCheckDfx_ a) | RUNTIME => boundsCheckDfx_ a end in
  upd_checks (shadowMemory_ a) rt dfx a.

(** *** Local tensors *)

Definition AddLocalTensorBound (b : BoundsCheck.BoundsCheck) (tensor : MstxTensorDesc)
    : BoundsCheck.BoundsCheck :=
  if bool_decide (t_space tensor = GM) then b
  else (BoundsCheck.Add b (t_space tensor) (t_addr tensor)
          ((t_size tensor *u t_dataBits tensor) / FormatConverter.BITS_EACH_BYTE) Bounds.DEFAULT_PERMISSION).1.

(** The bounds of the read and of the written tensors. *)
Definition tensor_bounds (record : MstxRecord) : BoundsCheck.BoundsCheck * BoundsCheck.BoundsCheck :=
  let b := BoundsCheck.new_BoundsCheck true in
  let i := interfaceType record in
  if i =? MSTX_VEC_BINARY_OP then
    (AddLocalTensorBound (AddLocalTensorBound b (t_src record)) (t_src1 record),
     AddLocalTensorBound b (t_dst record))
  else if (i =? MSTX_VEC_UNARY_OP) || (i =? MSTX_DATA_COPY) || (i =? MSTX_DATA_COPY_PAD) ||
          (i =? MSTX_DATA_COPY_PAD_V2) then
    (AddLocalTensorBound b (t_src record), AddLocalTensorBound b (t_dst record))
  else (b, b).

(** These tables are local objects: no peer entry refers to them. *)
Fixpoint tensor_records (env : Asan.Env) (bR bW : BoundsCheck.BoundsCheck) (records : list MemOpRecord)
    (a : AddressSanitizer) : option AddressSanitizer :=
  match records with
  | [] => Some a
  | r :: records' =>
      if negb (bool_decide (Mor.type r = LOAD)) && negb (bool_decide (Mor.type r = STORE))
      then tensor_records env bR bW records' a
      else if bool_decide (Mor.dstSpace r = GM) then tensor_records env bR bW records' a
      else
        let load := bool_decide (Mor.type r = LOAD) in
        '(s, b, errors) ←
          Asan.doAction env 0 (config_ a) r (shadowMemory_ a) (if load then bR else bW) true;
        let a := upd_buffer (foldl ErrBuf.Add (errorBuffer_ a) errors) (upd_shadow s a) in
        tensor_records env (if load then b else bR) (if load then bW else b) records' a
  end.

Definition DoWithLocalTensor (env : Asan.Env) (record : MstxRecord) (records : list MemOpRecord)
    (a : AddressSanitizer) : option AddressSanitizer :=
  let '(bR, bW) := tensor_bounds record in tensor_records env bR bW records a.

(** *** Events *)

Fixpoint replay_events (mask : Z) (events : list SanEvent) (a : AddressSanitizer) : AddressSanitizer :=
  match events with
  | [] => a
  | e :: events' =>
      if negb (ShouldCollectInitcheckEvent mask e) then replay_events mask events' a
      else
        let '(r, released) := r_Do (pipelineReplayer_ a) e in
        let a := upd_replay r (replayedRecords_ a) (replayedEventCount_ a) a in
        replay_events mask events' (foldl replay_callback a released)
  end.

Definition is_kernel_finish (record : SanitizerRecord) : bool :=
  match record with
  | KERNEL_RECORD k => RecordType.eqb (kr_recordType k) RecordType.KERNEL_FINISH
  | _ => false
  end.

Definition DoEvents (env : Asan.Env) (rtPtr dfxPtr : Z) (record : SanitizerRecord) (events : list SanEvent)
    (st : AlignChecker.AlignChecker * AddressSanitizer)
    : option (AlignChecker.AlignChecker * AddressSanitizer) :=
  let '(c, a) := st in
  match record with
  | REGION_PERMISSION desc => Some (c, SetPermission desc a)
  | _ =>
      if bool_decide (events = []) then Some (c, a)
      else if IsMstxRecordWithTensor record then
        records ← Convert.ConvertEventsToRecords (initCheck (config_ a)) events [];
        a ← match record with
            | KERNEL_RECORD k => DoWithLocalTensor env (kr_mstx k) records a
            | _ => Some a
            end;
        if is_kernel_finish record then ReportAfterKernelFinish c a else Some (c, a)
      else
        a ← check_registers events a;
        if initCheck (config_ a) then
          let mask := GetEffectiveInitcheckAddressSpaceMask (config_ a) (Asan.initcheckMask env)
                        ADDRESS_SANITIZER_EVENTS in
          let a := replay_events mask events a in
          if r_IsFinished (pipelineReplayer_ a) then
            a ← DoMemOpRecords env rtPtr dfxPtr (replayedRecords_ a) a;
            ReportAfterKernelFinish c a
          else Some (c, a)
        else
          records ← Convert.ConvertEventsToRecords false events [];
          a ← DoMemOpRecords env rtPtr dfxPtr records a;
          if is_kernel_finish record then ReportAfterKernelFinish c a else Some (c, a)
  end.

(** *** Errors found on the device *)

Definition KE_ILLEGAL_ADDR_WRITE : Z := 0.
Definition KE_ILLEGAL_ADDR_READ : Z := 1.
Definition KE_MISALIGNED_ACCESS : Z := 2.
Definition KE_THREAD_OVERLAP : Z := 3.
Definition KE_MAX : Z := 9.

(** The payload union: the fields the address sanitizer reads. *)
Record KernelErrorDesc := {
  ke_location : Location; ke_threadLoc : SimtThreadLocation; ke_space : AddressSpace; ke_errorType : Z;
  ke_addr : Z; ke_size : Z; ke_conflictedThreadLoc : SimtThreadLocation;
}.

(** One iteration: the message object is reused by the next one. *)
Definition online_error (fileName : Z → string) (st : ErrBuf.ErrorBuffer * ErrorMsg) (d : KernelErrorDesc)
    : ErrBuf.ErrorBuffer * ErrorMsg :=
  let '(buf, error) := st in
  let t := ke_errorType d in
  if KE_MAX <=? t then st
  else
    let l := ke_location d in
    let error := Err.upd_aux
      (Aux.set_threadLoc (ke_threadLoc d) ∘ Aux.set_coreId (loc_blockId l) ∘ Aux.set_pc (loc_pc l) ∘
       Aux.set_space (ke_space d) ∘ Aux.set_fileName (fileName (loc_fileNo l)) ∘
       Aux.set_lineNo (loc_lineNo l)) error in
    let filled type e :=
      Err.mkErrorMsg type (Err.isError e)
        (Aux.set_nBadBytes (ke_size d) (Aux.set_badAddr (ke_addr d) (Err.auxData e))) in
    if (t =? KE_ILLEGAL_ADDR_READ) || (t =? KE_ILLEGAL_ADDR_WRITE) then
      let e := filled (if t =? KE_ILLEGAL_ADDR_READ then ILLEGAL_ADDR_READ else ILLEGAL_ADDR_WRITE) error in
      (ErrBuf.Add buf e, e)
    else if t =? KE_MISALIGNED_ACCESS then
      let e := filled MISALIGNED_ACCESS error in (ErrBuf.Add buf e, e)
    else if t =? KE_THREAD_OVERLAP then
      let e := Err.upd_aux (Aux.set_conflictedThreadLoc (ke_conflictedThreadLoc d))
                 (filled OUT_OF_BOUNDS error) in
      (ErrBuf.Add buf e, e)
    else (buf, error).

(** [None] stands for the null descriptor array. *)
Definition ParseOnlineError (fileName : Z → string) (descs : option (list KernelErrorDesc))
    (blockType : BlockType) (serialNo : Z) (a : AddressSanitizer) : AddressSanitizer :=
  match descs with
  | None => a
  | Some l =>
      let error := Err.mkErrorMsg INVALID_ERROR true
        (Aux.set_displayThread true (Aux.set_isSimt true (Aux.set_side KERNEL
          (Aux.set_serialNo serialNo (Aux.set_blockType blockType Aux.default))))) in
      upd_buffer (foldl (online_error fileName) (errorBuffer_ a, error) l).1 a
  end.

(** *** End of the run *)

Definition RegisterNotifyFunc (c : AlignChecker.AlignChecker) (a : AddressSanitizer)
    : AlignChecker.AlignChecker * AddressSanitizer :=
  ({| AlignChecker.registered := true; AlignChecker.errorBuffer_ := AlignChecker.errorBuffer_ c;
      AlignChecker.deviceType_ := AlignChecker.deviceType_ c |}, upd_msg MSG_REGISTERED (sent a) a).

Definition SummaryUnusedHeapCheck (a : AddressSanitizer) : option AddressSanitizer :=
  '(s, errNoUse) ← Shm.CheckUnusedHeap (shadowMemory_ a);
  let a := upd_shadow s a in
  let badHeap := Shm.GetUnusedHeap s in
  match msgFunc_ a with
  | MSG_NULL => Some a
  | _ => if 0 <? Shm.blockNum badHeap
         then notify (NUnusedSummary LV_WARN errNoUse (Shm.bytesNotUse badHeap) (Shm.blockNum badHeap)) a
         else Some a
  end.

Definition SummaryLeakCheck (a : AddressSanitizer) : option AddressSanitizer :=
  let msgs := Shm.DoLeakCheck (shadowMemory_ a) in
  match msgs with
  | [] => Some a
  | _ :: _ =>
      let lenSum := foldl (λ n m, n +u Aux.nBadBytes (Err.auxData m)) 0 msgs in
      match msgFunc_ a with
      | MSG_NULL => Some a
      | _ =>
          a ← notify (NLeakSummary (GetNotifyLv MEM_LEAK) msgs lenSum (Z.of_nat (length msgs))) a;
          Some (upd_msg MSG_NULL (sent a) a)
      end
  end.

(** [Exit]; the guard object runs last and drops both notification functions. *)
Definition Exit (c : AlignChecker.AlignChecker) (a : AddressSanitizer)
    : option (AlignChecker.AlignChecker * AddressSanitizer) :=
  a ← (if memCheck (config_ a) && checkUnusedMemory (config_ a) then SummaryUnusedHeapCheck a else Some a);
  a ← (if leakCheck (config_ a) then SummaryLeakCheck a else Some a);
  Some (match msgFunc_ a with
        | MSG_NULL => (c, a)
        | _ =>
            ({| AlignChecker.registered := false; AlignChecker.errorBuffer_ := AlignChecker.errorBuffer_ c;
                AlignChecker.deviceType_ := AlignChecker.deviceType_ c |}, upd_msg MSG_NULL (sent a) a)
        end).
End sanitizer.
End ASan.
