(* ===== verification/AsanProofs.v ===== *)
(** Invariants of the address sanitizer's components under its actions:
    [csrc/address_sanitizer/asan_action.cpp], [address_sanitizer.cpp]. *)
From stdpp Require Import base numbers list option gmap strings.
From S2P Require Import Prelude.
From S2P Require Import ShadowWord.
From S2P Require Import Pm.
From S2P Require Import GmPm.
From S2P Require Import ShadowMap.
From S2P Require Import RecordDefs.
From S2P Require Import Platform.
From S2P Require Import HeapBlockManager.
From S2P Require Import ErrorBuffer.
From S2P Require Import ShadowMemory.
From S2P Require Import ShadowMemoryProofs.
From S2P Require Import ShadowTheorems.
From S2P Require Import BoundsCheck.
From S2P Require Import EventDef.
From S2P Require Import Convert.
From S2P Require Import AsanAction.
From S2P Require Import AddressSanitizer.
Import Range1D Shm.

(** ** Heap records *)

(** Every recorded block is filed under its address and satisfies [Q] of its
    address and length. *)
Record hbm_all (Q : Z → Z → Prop) (h : Hbm.HeapBlockManager) : Prop := {
  ha_rt k b : Hbm.heapBlocks_ h !! k = Some b → Hbm.addr b = k ∧ Q k (Hbm.len b);
  ha_dfx k b : Hbm.heapBlocksForDfx_ h !! k = Some b → Hbm.addr b = k ∧ Q k (Hbm.len b);
  ha_mstx k b : Hbm.mstxHeapBlocks_ h !! k = Some b → Hbm.addr b = k ∧ Q k (Hbm.len b);
  ha_region k l : Hbm.mstxRegionBlocks_ h !! k = Some l → Forall (λ b, Q (Hbm.addr b) (Hbm.len b)) l;
}.

Section heap.
Context (Q : Z → Z → Prop).

Lemma empty_all : hbm_all Q Hbm.empty_manager.
Proof. split; simpl; intros ??; by rewrite lookup_empty. Qed.

Lemma add_if_absent_all (m : gmap Z Hbm.HeapBlock) r :
  (∀ k b, m !! k = Some b → Hbm.addr b = k ∧ Q k (Hbm.len b)) → Q (Mor.dstAddr r) (Mor.memSize r) →
  ∀ k b, Hbm.add_if_absent m (Mor.dstAddr r) (Hbm.of_record r) !! k = Some b →
    Hbm.addr b = k ∧ Q k (Hbm.len b).
Proof.
  intros Hm Hr k b. unfold Hbm.add_if_absent. case_match; [apply Hm|].
  rewrite lookup_insert_Some. intros [ [<- <-]|[_ ?] ]; [done|by apply Hm].
Qed.

Lemma delete_all (m : gmap Z Hbm.HeapBlock) a :
  (∀ k b, m !! k = Some b → Hbm.addr b = k ∧ Q k (Hbm.len b)) →
  ∀ k b, delete a m !! k = Some b → Hbm.addr b = k ∧ Q k (Hbm.len b).
Proof. intros Hm k b [_ ?]%lookup_delete_Some. by apply Hm. Qed.

Lemma with_heapBlocks_all h src m :
  hbm_all Q h → (∀ k b, m !! k = Some b → Hbm.addr b = k ∧ Q k (Hbm.len b)) →
  hbm_all Q (Hbm.with_heapBlocks h src m).
Proof. intros [] Hm. unfold Hbm.with_heapBlocks. by case_match; split. Qed.

Lemma GetHeapBlocks_all h src k b :
  hbm_all Q h → Hbm.GetHeapBlocks h src !! k = Some b → Hbm.addr b = k ∧ Q k (Hbm.len b).
Proof. intros []. unfold Hbm.GetHeapBlocks. case_match; auto. Qed.

Lemma AddHeapBlock_all h r :
  hbm_all Q h → Q (Mor.dstAddr r) (Mor.memSize r) → hbm_all Q (Hbm.AddHeapBlock h r).1.
Proof.
  intros Hh Hr. pose proof Hh as [Hrt Hdfx Hmstx Hreg]. unfold Hbm.AddHeapBlock. case_match; simpl.
  - apply with_heapBlocks_all; [done|]. apply add_if_absent_all; [|done].
    intros k b. by apply GetHeapBlocks_all.
  - apply with_heapBlocks_all; [done|]. apply add_if_absent_all; [|done].
    intros k b. by apply GetHeapBlocks_all.
  - unfold Hbm.AddMstxHeapBlock. destruct (Hbm.mstxHeapBlocks_ h !! Mor.dstAddr r); [done|].
    case_match; (split; simpl; try done; intros k b; rewrite lookup_insert_Some;
      intros [ [<- <-]|[_ ?] ]; [done|auto]).
  - unfold Hbm.AddMstxRegionBlock. case_match; [done|]. split; simpl; try done.
    intros k l. rewrite lookup_insert_Some. intros [ [<- <-]|[_ ?] ]; [|by eapply Hreg].
    apply Forall_app. split; [|by apply Forall_cons_2; [|apply Forall_nil_2] ].
    destruct (Hbm.mstxRegionBlocks_ h !! Mor.rootAddr r) eqn:E; simpl; [by eapply Hreg|apply Forall_nil_2].
  - split; simpl; try done; by apply add_if_absent_all.
  - done.
Qed.

Lemma DeleteMstxInfo_all h r n : hbm_all Q h → hbm_all Q (Hbm.DeleteMstxInfo h r n).
Proof.
  intros Hh. pose proof Hh as [Hrt Hdfx Hmstx Hreg]. unfold Hbm.DeleteMstxInfo. case_match; [done|].
  destruct (List.find _ _) as [[k b]|]; [|done]. split; simpl; try done.
  - by apply delete_all.
  - intros k' l [_ ?]%lookup_delete_Some. by eapply Hreg.
Qed.

Lemma erase_last_all a l x rest (P : Hbm.HeapBlock → Prop) :
  Forall P l → Hbm.erase_last a l = Some (x, rest) → P x ∧ Hbm.addr x = a ∧ Forall P rest.
Proof.
  intros Hl. revert x rest. induction Hl as [|b l Hb Hl IH]; intros x rest; simpl; [done|].
  destruct (Hbm.erase_last a l) as [[y r']|].
  - intros [= <- <-]. destruct (IH y r') as (? & ? & ?); [done|]. split_and!; [done..|]. by apply Forall_cons_2.
  - case_cmp; [|done]. by intros [= <- <-].
Qed.

Lemma free_region_all a pairs m b m' :
  (∀ k l, (k, l) ∈ pairs → Forall (λ b, Q (Hbm.addr b) (Hbm.len b)) l) →
  (∀ k l, m !! k = Some l → Forall (λ b, Q (Hbm.addr b) (Hbm.len b)) l) →
  Hbm.free_region a pairs m = Some (b, m') →
  Q a (Hbm.len b) ∧ ∀ k l, m' !! k = Some l → Forall (λ b, Q (Hbm.addr b) (Hbm.len b)) l.
Proof.
  intros Hp Hm. induction pairs as [|[root v] pairs IH]; simpl; [done|].
  destruct (Hbm.erase_last a v) as [[x rest]|] eqn:E.
  - intros [= <- <-]. destruct (erase_last_all a v x rest _ (Hp root v ltac:(by left)) E) as (Hx & <- & Hrest).
    split; [done|]. intros k l. rewrite lookup_insert_Some. intros [ [<- <-]|[_ ?] ]; [done|by eapply Hm].
  - apply IH. intros k l Hin. eapply Hp. by right.
Qed.

(** Freeing keeps the records and returns a recorded size, or the one passed. *)
Lemma FreeHeapBlock_all h r n :
  hbm_all Q h →
  hbm_all Q (Hbm.FreeHeapBlock h r n).1.1 ∧
  ((Hbm.FreeHeapBlock h r n).2 = n ∨ Q (Mor.dstAddr r) (Hbm.FreeHeapBlock h r n).2).
Proof.
  intros Hh. pose proof Hh as [Hrt Hdfx Hmstx Hreg].
  assert (Hrd : hbm_all Q (Hbm.FreeRtDfxBlock h r n).1.1 ∧
    ((Hbm.FreeRtDfxBlock h r n).2 = n ∨ Q (Mor.dstAddr r) (Hbm.FreeRtDfxBlock h r n).2)).
  { unfold Hbm.FreeRtDfxBlock. destruct (Hbm.GetHeapBlocks h _ !! _) as [b|] eqn:E; simpl; [|by split; [|left] ].
    destruct (GetHeapBlocks_all h _ _ _ Hh E). pose proof (DeleteMstxInfo_all h r (Hbm.len b) Hh) as Hd.
    split; [|by right]. apply with_heapBlocks_all; [done|]. apply delete_all.
    intros k x. by apply GetHeapBlocks_all. }
  unfold Hbm.FreeHeapBlock. destruct (Hbm.GetHeapType r); try done.
  - unfold Hbm.FreeMstxHeapBlock. destruct (Hbm.mstxHeapBlocks_ h !! _) as [b|] eqn:E; simpl; [|by split; [|left] ].
    split; [|right; by apply (Hmstx _ b)]. split; simpl; try done; [by apply delete_all|].
    intros k l [_ ?]%lookup_delete_Some. by eapply Hreg.
  - unfold Hbm.FreeMstxRegionBlock.
    destruct (Hbm.free_region _ _ _) as [[b m]|] eqn:E; simpl; [|by split; [|left] ].
    apply free_region_all in E as [Hb Hm]; [split; [by split|by right]| |done].
    intros k l Hin. by apply (Hreg k), elem_of_ordered.
  - unfold Hbm.FreeByPassBlock. destruct (Hbm.heapBlocks_ h !! _) as [b|] eqn:E; simpl; [|by split; [|left] ].
    destruct (Hbm.heapBlocksForDfx_ h !! _) as [b'|]; simpl; [|by split; [|left] ].
    split; [|right; by apply (Hrt _ b)]. split; simpl; try done; by apply delete_all.
  - simpl. by split; [|left].
Qed.

Lemma GetHeapBlockSize_all h r :
  hbm_all Q h → Hbm.GetHeapBlockSize h r = 0 ∨ Q (Mor.dstAddr r) (Hbm.GetHeapBlockSize h r).
Proof.
  intros [Hrt Hdfx _ _]. unfold Hbm.GetHeapBlockSize.
  destruct (Hbm.heapBlocks_ h !! _) eqn:E; [right; by apply (Hrt _ h0)|].
  destruct (Hbm.heapBlocksForDfx_ h !! _) eqn:E'; [right; by apply (Hdfx _ h0)|by left].
Qed.
End heap.

(** ** Bounds tables *)

Definition bc_ok (b : BoundsCheck.BoundsCheck) : Prop :=
  map_Forall (λ _ x, BoundsCheck.bounds_ok x) (BoundsCheck.bounds_ b).

Lemma with_bounds_ok b space x : bc_ok b → BoundsCheck.bounds_ok x → bc_ok (BoundsCheck.with_bounds b space x).
Proof. intros Hb Hx. by apply map_Forall_insert_2. Qed.

Lemma bc_step_ok b space o :
  bc_ok b → Bounds.op_u64 o →
  bc_ok match o with
        | Bounds.OAdd a n p => (BoundsCheck.Add b space a n p).1
        | Bounds.ORemove a n => (BoundsCheck.Remove b space a n).1
        | Bounds.OSetPermission a n p => (BoundsCheck.SetPermission b space a n p).1
        end.
Proof.
  intros Hb Ho.
  assert (Hl : ∀ l, BoundsCheck.bounds_ b !! space = Some (BoundsCheck.DiscreteBounds l) →
    BoundsCheck.bounds_ok (BoundsCheck.DiscreteBounds (Bounds.step l o))).
  { intros l Hl. apply Bounds.step_ok; [apply (Hb _ _ Hl)|done]. }
  destruct o; simpl in *; unfold BoundsCheck.Add, BoundsCheck.Remove, BoundsCheck.SetPermission;
    (destruct (BoundsCheck.bounds_ b !! space) as [[l|u]|] eqn:E; simpl; [|by apply with_bounds_ok; [|apply (Hb _ _ E)]|done]);
    specialize (Hl l eq_refl).
  - destruct (Bounds.Add l addr size perm) eqn:Ea. simpl in *. by apply with_bounds_ok.
  - destruct (Bounds.Remove l addr size) eqn:Ea. simpl in *. by apply with_bounds_ok.
  - destruct (Bounds.SetPermission l addr size perm) eqn:Ea. simpl in *. by apply with_bounds_ok.
Qed.

Lemma bc_Add_ok b space a n p : bc_ok b → is_u64 a → is_u64 n → bc_ok (BoundsCheck.Add b space a n p).1.
Proof. intros. by apply (bc_step_ok b space (Bounds.OAdd a n p)). Qed.
Lemma bc_Remove_ok b space a n : bc_ok b → is_u64 a → is_u64 n → bc_ok (BoundsCheck.Remove b space a n).1.
Proof. intros. by apply (bc_step_ok b space (Bounds.ORemove a n)). Qed.
Lemma bc_SetPermission_ok b space a n p :
  bc_ok b → is_u64 a → is_u64 n → bc_ok (BoundsCheck.SetPermission b space a n p).1.
Proof. intros. by apply (bc_step_ok b space (Bounds.OSetPermission a n p)). Qed.

(** ** Actions keep the invariants and never fail *)

Definition gm_limit : Z := 2 ^ 48 - 68719476735.

(** Heap blocks below the last slice of the shadow table. *)
Definition reach (a n : Z) : Prop := 0 <= a ∧ 0 <= n ∧ a + n <= gm_limit.

Record shadow_ok (s : ShadowMemory) : Prop := {
  so_shm : shm_ok s;
  so_heap : hbm_all reach (heapBlockManager_ s);
  so_bypass : hbm_all reach (heapBlockManagerBypass_ s);
}.

(** An access end the tables serve exactly. *)
Definition end_ok (space : AddressSpace) (a n : Z) : Prop :=
  is_u64 a ∧ is_u64 n ∧
  (space = GM → a + n <= gm_limit ∧ a `mod` 68719476735 + n + 65535 < 2 ^ 36).

Definition rec_ok (r : MemOpRecord) : Prop :=
  match Mor.type r with
  | MALLOC => is_u64 (Mor.dstAddr r) ∧ is_u64 (Mor.memSize r) ∧ reach (Mor.dstAddr r) (Mor.memSize r)
  | FREE => reach (Mor.dstAddr r) 0
  | MEMCPY_BLOCKS =>
      end_ok (Mor.dstSpace r) (Mor.dstAddr r) (Mor.memSize r) ∧
      end_ok (Mor.srcSpace r) (Mor.srcAddr r) (Mor.memSize r)
  | LOAD | STORE => end_ok (Mor.dstSpace r) (Mor.dstAddr r) (Mor.memSize r)
  | _ => True
  end.

Lemma reach_u64 a n : reach a n → is_u64 a ∧ is_u64 n.
Proof. unfold reach, is_u64, gm_limit. lia. Qed.

Lemma gm_request_id s a n : reach a n → gm_request s a n = (a, n).
Proof.
  intros (Ha & Hn & Hle). unfold gm_request, ValidateRange, max_size, GLOBAL_MEM_MASK, UINT64_MAX, gm_limit in *.
  u64_simpl. case_cmp; [lia|]. u64_simpl. rewrite (Z.min_r _ (a + n)), (Z.min_r _ a) by lia. u64_simpl.
  f_equal. lia.
Qed.

Lemma reach_in_reach a n : reach a n → in_reach GM a n.
Proof. intros (? & ? & ?) _. done. Qed.

Lemma with_managers_ok s h b u : shm_ok s → shm_ok (with_managers s h b u).
Proof. intros []. by split. Qed.

Section actions.
Context `{!Securec}.

Lemma range_updated_ok s space f a n s' : shadow_ok s → range_updated s space f a n s' → shadow_ok s'.
Proof.
  intros [Hs Hh Hb] Hup. split; [apply Hup|by rewrite (ru_heap _ _ _ _ _ _ Hup)|by rewrite (ru_bypass _ _ _ _ _ _ Hup)].
Qed.

Lemma unmodelled_map s space : modelled space = false → GetMemMap s space = None.
Proof. by destruct space. Qed.

Lemma end_request s r :
  end_ok (Mor.dstSpace r) (Mor.dstAddr r) (Mor.memSize r) →
  (dstSpace (for_shadow r) = GM →
   request s (for_shadow r) = (Mor.dstAddr r, Mor.memSize r) ∧ reach (Mor.dstAddr r) (Mor.memSize r)).
Proof.
  intros (Ha & Hn & Hgm) HGM. simpl in HGM. destruct (Hgm HGM) as [Hle _].
  assert (reach (Mor.dstAddr r) (Mor.memSize r)) as Hr by (unfold reach, is_u64 in *; lia).
  split; [|done]. unfold request. simpl. rewrite HGM. by apply gm_request_id.
Qed.

Lemma end_served s r :
  end_ok (Mor.dstSpace r) (Mor.dstAddr r) (Mor.memSize r) → modelled (Mor.dstSpace r) = true →
  served s (for_shadow r) ∧
  in_scan (dstSpace (for_shadow r)) (request s (for_shadow r)).1 (request s (for_shadow r)).2.
Proof.
  intros Hend Hm. pose proof (end_request s r Hend) as Hreq. destruct Hend as (Ha & Hn & Hgm).
  split; [split; try done|]; intros HGM; destruct (Hreq HGM) as [Hr Hreach]; rewrite Hr; simpl;
    destruct (Hgm HGM); unfold gm_limit in *; [apply Hreach|done].
Qed.

Lemma LoadNBytes_total s r :
  shm_ok s → end_ok (Mor.dstSpace r) (Mor.dstAddr r) (Mor.memSize r) →
  is_Some (LoadNBytes s (for_shadow r) true).
Proof.
  intros Hok Hend. destruct (modelled (Mor.dstSpace r)) eqn:Hm.
  - destruct (end_served s r Hend Hm) as [Hsv Hsc].
    destruct (decide (dstSpace (for_shadow r) = UB ∧ IsAscend95 (deviceType_ s) = true)) as [ [H1 H2]|Hn].
    { unfold LoadNBytes. rewrite H1, H2. by eexists. }
    pose proof (served_load s (for_shadow r) Hok Hsv) as Hl.
    destruct (request s (for_shadow r)) as [a n] eqn:E. rewrite Hl; [by eexists|]. split; [by rewrite E|].
    intros Hub. destruct (IsAscend95 (deviceType_ s)); [|done]. exfalso. by apply Hn.
  - unfold LoadNBytes. simpl. rewrite unmodelled_map by done. repeat case_match; by eexists.
Qed.

Lemma StoreNBytes_total s r memCheck oob :
  shadow_ok s → end_ok (Mor.dstSpace r) (Mor.dstAddr r) (Mor.memSize r) →
  ∃ s' msgs, StoreNBytes s (for_shadow r) memCheck oob = Some (s', msgs) ∧ shadow_ok s'.
Proof.
  intros Hok Hend. destruct (modelled (Mor.dstSpace r)) eqn:Hm.
  - destruct (end_served s r Hend Hm) as [Hsv _].
    pose proof (served_store s (for_shadow r) memCheck oob (so_shm _ Hok) Hsv) as Hst.
    destruct (request s (for_shadow r)) as [a n]. destruct Hst as (s' & Hst & Hup).
    eexists s', _. split; [exact Hst|]. by eapply range_updated_ok.
  - unfold StoreNBytes. simpl. rewrite unmodelled_map by done.
    exists s, []. by repeat case_match.
Qed.

Lemma AddHeapBlock_shadow s r :
  shadow_ok s → reach (Mor.dstAddr r) (Mor.memSize r) → shadow_ok (AddHeapBlock s r).1.
Proof.
  intros [Hs Hh Hb] Hr. unfold AddHeapBlock.
  pose proof (AddHeapBlock_all reach (heapBlockManager_ s) r Hh Hr).
  pose proof (AddHeapBlock_all reach (heapBlockManagerBypass_ s) r Hb Hr).
  destruct (Hbm.AddHeapBlock (heapBlockManager_ s) r), (Hbm.AddHeapBlock (heapBlockManagerBypass_ s) r).
  case_match; split; simpl in *; try done; by apply with_managers_ok.
Qed.

Lemma FreeHeapBlock_shadow s r :
  shadow_ok s → reach (Mor.dstAddr r) 0 →
  shadow_ok (FreeHeapBlock s r 0).1.1 ∧ reach (Mor.dstAddr r) (FreeHeapBlock s r 0).2.
Proof.
  intros [Hs Hh Hb] Hr. unfold FreeHeapBlock.
  pose proof (FreeHeapBlock_all reach (heapBlockManager_ s) r 0 Hh) as [H1 H2].
  pose proof (FreeHeapBlock_all reach (heapBlockManagerBypass_ s) r 0 Hb) as [H3 H4].
  destruct (Hbm.FreeHeapBlock (heapBlockManager_ s) r 0) as [[? ?] n1],
    (Hbm.FreeHeapBlock (heapBlockManagerBypass_ s) r 0) as [[? ?] n2]. simpl in *.
  case_match; (split; [split; simpl; try done; by apply with_managers_ok|]); simpl;
    first [by destruct H2 as [->|?]|by destruct H4 as [->|?] ].
Qed.

Lemma CheckUnusedMem_total s a n :
  shadow_ok s → reach a n →
  ∃ s' msg, CheckUnusedMem s a n = Some (s', msg) ∧ shadow_ok s' ∧ heapBlockManager_ s' = heapBlockManager_ s.
Proof.
  intros Hok Hr.
  destruct (CheckUnusedMem_spec s {| Hbm.serialNo := 0; Hbm.addr := a; Hbm.len := n; Hbm.moduleId := 0;
    Hbm.lineNo := 0; Hbm.fileName := ""; Hbm.isInvalid := false |}) as (s' & msg & Hc & Hsm & _);
    [apply Hok|done|].
  exists s', msg. split; [exact Hc|]. pose proof (same_memory_ok _ _ Hsm (so_shm _ Hok)).
  destruct Hok as [_ Hh Hb]. split; [split; [done|by rewrite Hsm..]|by rewrite Hsm].
Qed.

(** The two last steps of a free. *)
Lemma free_unused config r s size (ign : bool) :
  shadow_ok s → reach (Mor.dstAddr r) size →
  ∃ s' errs,
    (if memCheck config && checkUnusedMemory config && negb ign && negb (bool_decide (Mor.infoSrc r = BYPASS))
     then '(s, msg) ← CheckUnusedMem s (Mor.dstAddr r) size;
          Some (s, if Err.isError msg
                   then [Err.upd_aux (Aux.set_serialNo (Mor.serialNo r) ∘ Aux.set_side (Mor.side r)) msg]
                   else [])
     else Some (s, [])) = Some (s', errs) ∧ shadow_ok s' ∧ heapBlockManager_ s' = heapBlockManager_ s.
Proof.
  intros Hs Hr. case_match; [|by eexists _, _].
  destruct (CheckUnusedMem_total s _ _ Hs Hr) as (s' & msg & -> & ? & ?). by eexists _, _.
Qed.

Lemma free_marks s r n (ign : bool) :
  shadow_ok s → reach (Mor.dstAddr r) n →
  ∃ s', (if ign then Some s
         else match Mor.infoSrc r with
              | EXTRA => ClearBlockId s (Mor.dstAddr r) n
              | _ => MakeMemUndefined s (Mor.dstAddr r) n
              end) = Some s' ∧ shadow_ok s' ∧ heapBlockManager_ s' = heapBlockManager_ s.
Proof.
  intros Hok Hr. destruct (reach_u64 _ n Hr). destruct ign; [by eexists|].
  destruct (ClearBlockId_spec s (Mor.dstAddr r) n (Mor.dstAddr r) n) as (s1 & Hs1 & Hup1);
    [apply Hok|done|done|by apply gm_request_id|by apply reach_in_reach|].
  destruct (MakeMemUndefined_spec s (Mor.dstAddr r) n (Mor.dstAddr r) n) as (s2 & Hs2 & Hup2);
    [apply Hok|done|done|by apply gm_request_id|by apply reach_in_reach|].
  destruct (Mor.infoSrc r); eauto 6 using range_updated_ok, ru_heap.
Qed.

(** An action that succeeded and left well-formed state. *)
Definition good (res : option Asan.result) : Prop :=
  ∃ s b msgs, res = Some (s, b, msgs) ∧ shadow_ok s ∧ bc_ok b.

Lemma malloc_good r s b ign :
  shadow_ok s → bc_ok b → is_u64 (Mor.dstAddr r) → is_u64 (Mor.memSize r) →
  reach (Mor.dstAddr r) (Mor.memSize r) → good (Some (Asan.AsanMalloc_doAction r s b ign)).
Proof.
  intros Hs Hb Ha Hn Hr. unfold Asan.AsanMalloc_doAction. case_match; [by eexists _, _, _|].
  assert (∃ s' added, (if ign then (s, true) else AddHeapBlock s r) = (s', added) ∧ shadow_ok s')
    as (s' & added & -> & Hs').
  { destruct ign; [by eexists _, _|]. pose proof (AddHeapBlock_shadow s r Hs Hr).
    destruct (AddHeapBlock s r). by eexists _, _. }
  destruct added; simpl; [|by eexists _, _, _].
  pose proof (bc_Remove_ok b (Mor.dstSpace r) _ _ Hb Ha Hn).
  pose proof (bc_Add_ok b (Mor.dstSpace r) _ _ Bounds.DEFAULT_PERMISSION Hb Ha Hn).
  destruct (BoundsCheck.Remove _ _ _ _), (BoundsCheck.Add _ _ _ _ _). destruct (bool_decide (_ = MSTX_HEAP)); by eexists _, _, _.
Qed.

(** What a free does to the bounds and reports. *)
Lemma free_detail config r s b (ign : bool) :
  shadow_ok s → bc_ok b → reach (Mor.dstAddr r) 0 → Mor.dstSpace r = GM →
  ∃ s1 msg size s' errs,
    (if ign then (s, Err.no_error, match Mor.infoSrc r with
                                   | BYPASS => GetHeapBlockBypassSize s r | _ => GetHeapBlockSize s r end)
     else FreeHeapBlock s r 0) = (s1, msg, size) ∧
    let res := if bool_decide (Mor.infoSrc r = MSTX_HEAP)
               then BoundsCheck.Add b GM (Mor.dstAddr r) size Bounds.DEFAULT_PERMISSION
               else BoundsCheck.Remove b GM (Mor.dstAddr r) size in
    Asan.AsanFree_doAction config r s b ign = Some (s', res.1, errs) ∧
    shadow_ok s' ∧ bc_ok res.1 ∧ heapBlockManager_ s' = heapBlockManager_ s1 ∧
    (Err.isError msg = true → ∃ e, e ∈ errs ∧ Err.type e = Err.type msg ∧
       Aux.badAddr (Err.auxData e) = Mor.dstAddr r).
Proof.
  intros Hs Hb Hr HGM. unfold Asan.AsanFree_doAction. rewrite HGM, bool_decide_true by done. simpl.
  destruct (if ign then _ else _) as [[s1 msg] size] eqn:E1. exists s1, msg, size.
  assert (shadow_ok s1 ∧ reach (Mor.dstAddr r) size) as [Hs1 Hsize].
  { destruct ign; simpl in E1.
    - simplify_eq. split; [done|]. destruct Hs as [_ Hh Hby].
      destruct (GetHeapBlockSize_all reach _ r Hh) as [He|He], (GetHeapBlockSize_all reach _ r Hby) as [He'|He'];
        unfold GetHeapBlockSize, GetHeapBlockBypassSize; destruct (Mor.infoSrc r); by rewrite ?He, ?He'.
    - destruct (FreeHeapBlock_shadow s r Hs Hr). by rewrite E1 in *. }
  destruct (reach_u64 _ _ Hsize) as [Ha Hn].
  assert (∃ errs0, (if negb ign then
      let '(s0, msg0, size0) := FreeHeapBlock s r 0 in
      (s0, size0, if Err.isError msg0
         then [Asan.FillErrorLocInfo r (Err.upd_aux (Aux.set_badAddr (Mor.dstAddr r)) msg0)] else [])
      else (s, match Mor.infoSrc r with
               | BYPASS => GetHeapBlockBypassSize s r | _ => GetHeapBlockSize s r end, [])) = (s1, size, errs0) ∧
      (Err.isError msg = true → ∃ e, e ∈ errs0 ∧ Err.type e = Err.type msg ∧
         Aux.badAddr (Err.auxData e) = Mor.dstAddr r)) as (errs0 & -> & Herr).
  { destruct ign; simpl in *.
    - simplify_eq. by eexists.
    - rewrite E1. eexists. split; [done|]. intros ->. eexists. split; [by apply list_elem_of_singleton|done]. }
  pose proof (bc_Remove_ok b GM _ _ Hb Ha Hn). pose proof (bc_Add_ok b GM _ _ Bounds.DEFAULT_PERMISSION Hb Ha Hn).
  destruct (if bool_decide (_ = MSTX_HEAP) then _ else _) as [b1 m] eqn:E2.
  assert (bc_ok b1) as Hb1.
  { destruct (BoundsCheck.Remove _ _ _ _), (BoundsCheck.Add _ _ _ _ _).
    destruct (bool_decide (_ = MSTX_HEAP)); by simplify_eq/=. }
  destruct (free_unused config r s1 size ign Hs1 Hsize) as (s2 & errs2 & -> & Hs2 & Hh2). cbn [mbind option_bind].
  destruct (free_marks s2 r size ign Hs2 Hsize) as (s3 & -> & Hs3 & Hh3). cbn [mbind option_bind].
  eexists s3, _. split; [done|]. split; [done|]. split; [done|]. split; [done|]. split; [congruence|].
  intros Hm. destruct (Herr Hm) as (e & ? & ?). exists e. split; [set_solver|done].
Qed.

Lemma free_good config r s b ign :
  shadow_ok s → bc_ok b → reach (Mor.dstAddr r) 0 → good (Asan.AsanFree_doAction config r s b ign).
Proof.
  intros Hs Hb Hr. destruct (decide (Mor.dstSpace r = GM)) as [HGM|HGM].
  - destruct (free_detail config r s b ign Hs Hb Hr HGM) as (? & ? & ? & s' & errs & _ & Hres).
    simpl in Hres. destruct Hres as (-> & ? & ? & _). by eexists _, _, _.
  - unfold Asan.AsanFree_doAction. rewrite bool_decide_false by done. by eexists _, _, _.
Qed.

Lemma load_good env self config r s b ign :
  shadow_ok s → bc_ok b → end_ok (Mor.dstSpace r) (Mor.dstAddr r) (Mor.memSize r) →
  good (Asan.AsanLoad_doAction env self config r s b ign).
Proof.
  intros Hs Hb Hend. unfold Asan.AsanLoad_doAction. case_match eqn:E; [|by eexists _, _, _].
  assert (initCheck config = true) as ->.
  { unfold GetEffectiveInitcheckAddressSpaceMask in E. simpl in E. by destruct (initCheck config). }
  destruct (LoadNBytes_total s r (so_shm _ Hs) Hend) as [msgs ->]. by eexists _, _, _.
Qed.

Lemma store_good env self config r s b ign :
  shadow_ok s → bc_ok b → end_ok (Mor.dstSpace r) (Mor.dstAddr r) (Mor.memSize r) →
  good (Asan.AsanStore_doAction env self config r s b ign).
Proof.
  intros Hs Hb Hend. unfold Asan.AsanStore_doAction. case_match; [|by eexists _, _, _].
  destruct (StoreNBytes_total s r (memCheck config) (outOfBoundCheck config) Hs Hend) as (s' & msgs & -> & Hs').
  by eexists _, _, _.
Qed.

Lemma swap_swap r : Asan.swap_ends (Asan.swap_ends r) = r.
Proof. by destruct r. Qed.

Lemma doAction_good env self config r s b ign :
  shadow_ok s → bc_ok b → rec_ok r → good (Asan.doAction env self config r s b ign).
Proof.
  intros Hs Hb Hr. unfold Asan.doAction, rec_ok in *. destruct (Mor.type r).
  - destruct Hr as (? & ? & ?). by apply malloc_good.
  - by apply free_good.
  - destruct Hr as [Hd Hsrc]. unfold Asan.AsanMemcpyBlocks_doAction. rewrite swap_swap.
    destruct (load_good env self config (Asan.swap_ends r) s b ign) as (s1 & b1 & m1 & -> & Hs1 & Hb1); [done..|].
    destruct (store_good env self config r s1 b1 ign) as (s2 & b2 & m2 & Hst & Hs2 & Hb2); [done..|].
    cbn [mbind option_bind]. rewrite Hst. by eexists _, _, _.
  - by apply load_good.
  - by apply store_good.
  - by eexists _, _, _.
  - by eexists _, _, _.
Qed.
End actions.
