(* ===== verification/AsanTheorems.v ===== *)
(** What the address sanitizer promises:
    [csrc/address_sanitizer/address_sanitizer.cpp], [asan_action.cpp],
    [csrc/core/framework/peer_access_manager.cpp].

    The handlers are total and keep the component invariants, the bounds table
    in use follows the scope machine, every illegal access of a kernel is
    buffered, and the peer register behaves as a relation between devices. *)
From stdpp Require Import base numbers list option gmap gmultiset strings.
From S2P Require Import Prelude.
From S2P Require Import ShadowWord.
From S2P Require Import Pm.
From S2P Require Import GmPm.
From S2P Require Import ShadowMap.
From S2P Require Import RecordDefs.
From S2P Require Import Platform.
From S2P Require Import HeapBlockManager.
From S2P Require Import ErrorBuffer.
From S2P Require Import ShadowMemory.
From S2P Require Import ShadowMemoryProofs.
From S2P Require Import ShadowTheorems.
From S2P Require Import BoundsCheck.
From S2P Require Import EventDef.
From S2P Require Import Convert.
From S2P Require Import AsanAction.
From S2P Require Import AddressSanitizer.
From S2P Require Import AsanProofs.
Import Shm ASan.

Section sanitizer.
Context `{!Securec} `{!Replayer}.

(** ** Invariant of the object *)

Record asan_ok (a : AddressSanitizer) : Prop := {
  ao_shadow : shadow_ok (shadowMemory_ a);
  ao_rt : bc_ok (boundsCheckRuntime_ a);
  ao_dfx : bc_ok (boundsCheckDfx_ a);
  ao_func : msgFunc_ a ≠ MSG_NULL;
}.

(** Only the checked state, the buffer and the log differ. *)
Record same_scope (a a' : AddressSanitizer) : Prop := {
  ss_scope : boundsCheckScope_ a' = boundsCheckScope_ a;
  ss_history : historyBoundsCheckScope_ a' = historyBoundsCheckScope_ a;
  ss_cache : mstxHeapCacheMap_ a' = mstxHeapCacheMap_ a;
  ss_config : config_ a' = config_ a;
}.

Lemma notify_spec n a :
  msgFunc_ a ≠ MSG_NULL →
  notify n a = Some (upd_msg (msgFunc_ a)
    (match msgFunc_ a with MSG_REGISTERED => sent a ++ [n] | _ => sent a end) a).
Proof. intros. destruct a as [? []]; done. Qed.

Lemma notify_all_spec l : ∀ a,
  msgFunc_ a ≠ MSG_NULL →
  notify_all l a = Some (upd_msg (msgFunc_ a)
    (match msgFunc_ a with MSG_REGISTERED => sent a ++ l | _ => sent a end) a).
Proof.
  induction l as [|n l IH]; intros a Ha; simpl.
  - destruct a as [? []]; simpl; unfold upd_msg; simpl; by rewrite ?app_nil_r.
  - rewrite notify_spec by done. simpl. rewrite IH by done. destruct a as [? []]; try done.
    unfold upd_msg. simpl. by rewrite <- app_assoc.
Qed.

Lemma upd_msg_ok f l a : asan_ok a → f ≠ MSG_NULL → asan_ok (upd_msg f l a).
Proof. intros []. by split. Qed.
Lemma upd_msg_same f l a : same_scope a (upd_msg f l a).
Proof. by split. Qed.

Lemma ScopeDoAction_total env rt dfx r a :
  asan_ok a → rec_ok r →
  ∃ a' msgs, ScopeDoAction env rt dfx r a = Some (a', msgs) ∧ asan_ok a' ∧ same_scope a a' ∧
    msgFunc_ a' = msgFunc_ a ∧ sent a' = sent a ∧ errorBuffer_ a' = errorBuffer_ a.
Proof.
  intros [Hs Hrt Hdfx Hf] Hr. unfold ScopeDoAction.
  destruct (boundsCheckScope_ a).
  - destruct (doAction_good env rt (config_ a) r (shadowMemory_ a) (boundsCheckRuntime_ a) false)
      as (s & b & msgs & -> & ? & ?); [done..|]. by eexists _, _.
  - destruct (doAction_good env dfx (config_ a) r (shadowMemory_ a) (boundsCheckDfx_ a) false)
      as (s & b & msgs & -> & ? & ?); [done..|]. by eexists _, _.
  - destruct (doAction_good env dfx (config_ a) r (shadowMemory_ a) (boundsCheckDfx_ a) true)
      as (s & b & msgs & -> & ? & ?); [done..|]. cbn [mbind option_bind].
    destruct (doAction_good env rt (config_ a) r s (boundsCheckRuntime_ a) false)
      as (s' & b' & msgs' & -> & ? & ?); [done..|]. by eexists _, _.
Qed.

Lemma DoMemOpRecord_total env rt dfx r reduce a :
  asan_ok a → rec_ok r →
  ∃ a', DoMemOpRecord env rt dfx r reduce a = Some a' ∧ asan_ok a' ∧ same_scope a a'.
Proof.
  intros Ha Hr. unfold DoMemOpRecord. case_match; [by exists a|].
  destruct (ScopeDoAction_total env rt dfx r a Ha Hr) as (a' & msgs & -> & Ha' & Hss & Hf & _).
  cbn [mbind option_bind]. destruct reduce.
  - eexists. split; [done|]. split; [|by destruct Hss]. by destruct Ha'.
  - rewrite notify_all_spec by apply Ha'. eexists. split; [done|]. split; [|by destruct Hss].
    apply upd_msg_ok; [done|apply Ha'].
Qed.

Lemma DoMemOpRecords_total env rt dfx rs : ∀ a,
  asan_ok a → Forall rec_ok rs →
  ∃ a', DoMemOpRecords env rt dfx rs a = Some a' ∧ asan_ok a' ∧ same_scope a a'.
Proof.
  induction rs as [|r rs IH]; intros a Ha Hrs; simpl; [by exists a|].
  apply Forall_cons in Hrs as [Hr Hrs].
  destruct (DoMemOpRecord_total env rt dfx r true a Ha Hr) as (a1 & -> & Ha1 & Hss1).
  cbn [mbind option_bind]. destruct (IH a1 Ha1 Hrs) as (a2 & -> & Ha2 & []). exists a2. split; [done|]. split; [done|].
  destruct Hss1. split; congruence.
Qed.

(** ** The scope machine *)

(** The bounds table that judges the accesses after a host record. *)
Definition next_scope (scope : BoundsCheckScope) (no_heap : bool) (r : MemOpRecord) : BoundsCheckScope :=
  match Mor.infoSrc r, Mor.type r with
  | BYPASS, _ => scope
  | EXTRA, FREE | MANUAL, FREE => RUNTIME
  | EXTRA, _ => if no_heap then DFX else RUNTIME
  | MANUAL, _ => DFX
  | _, _ => RUNTIME
  end.

Lemma SwitchToScope_scope scope a :
  (SwitchToScope scope a).1 = upd_scope scope (historyBoundsCheckScope_ a) (mstxHeapCacheMap_ a) a.
Proof. unfold SwitchToScope. case_bool_decide; [|done]. subst. by destruct a. Qed.

Lemma BeforeScopeSwitch_spec r a :
  BeforeScopeSwitch r a =
    upd_scope (MemInfoToScope (Mor.infoSrc r)) (boundsCheckScope_ a)
      (update_heap_cache r (mstxHeapCacheMap_ a)) a.
Proof. unfold BeforeScopeSwitch. rewrite SwitchToScope_scope. done. Qed.

Lemma AfterScopeSwitch_spec r a :
  boundsCheckScope_ a = MemInfoToScope (Mor.infoSrc r) →
  AfterScopeSwitch r a =
    upd_scope (next_scope (historyBoundsCheckScope_ a) (bool_decide (mstxHeapCacheMap_ a = ∅)) r)
      (historyBoundsCheckScope_ a) (mstxHeapCacheMap_ a) a.
Proof.
  intros Hs. unfold AfterScopeSwitch, next_scope. destruct a; simpl in *. subst.
  destruct (Mor.infoSrc r) eqn:Hi; simpl; rewrite ?SwitchToScope_scope; simpl;
    destruct (Mor.type r); simpl; rewrite ?SwitchToScope_scope; try done;
    repeat case_bool_decide; simpl; rewrite ?SwitchToScope_scope; done.
Qed.

Lemma upd_scope_ok s h m a : asan_ok a → asan_ok (upd_scope s h m a).
Proof. intros []. by split. Qed.

Lemma do_host_record_total env rt dfx r a :
  asan_ok a → rec_ok r →
  ∃ a', do_host_record env rt dfx r a = Some a' ∧ asan_ok a' ∧
    mstxHeapCacheMap_ a' = update_heap_cache r (mstxHeapCacheMap_ a) ∧
    boundsCheckScope_ a' = next_scope (boundsCheckScope_ a) (bool_decide (mstxHeapCacheMap_ a' = ∅)) r ∧
    config_ a' = config_ a.
Proof.
  intros Ha Hr. unfold do_host_record. rewrite BeforeScopeSwitch_spec.
  destruct (DoMemOpRecord_total env rt dfx r false (upd_scope (MemInfoToScope (Mor.infoSrc r))
    (boundsCheckScope_ a) (update_heap_cache r (mstxHeapCacheMap_ a)) a)) as (a' & -> & Ha' & []);
    [by apply upd_scope_ok|done|]. simpl in *. rewrite AfterScopeSwitch_spec by done.
  eexists. split; [done|]. split; [by apply upd_scope_ok|]. simpl. split; [done|]. split; [congruence|done].
Qed.

(** ** Whole runs *)

Lemma reset_local_ok t size b :
  local_ok t size → is_u8 b → local_ok ((λ pm, PM.Reset pm b) <$> t) size.
Proof. intros (pm & -> & Hpm & Hc) Hb. eexists. split; [done|]. split; [by apply PM.Reset_ok|done]. Qed.

Lemma reset_total s :
  shadow_ok s →
  ∃ s', (s1 ← ResetChipMemory s; ResetPrivateMemory s1) = Some s' ∧ shadow_ok s'.
Proof.
  intros [ [Hgm Hc Ha Hb Hl0c Hl1 Hub Hp] Hh Hby].
  pose proof (reset_local_ok _ _ CHIPMEM_DEFAULT_VALUE Ha ltac:(done)) as Ha'.
  pose proof (reset_local_ok _ _ CHIPMEM_DEFAULT_VALUE Hb ltac:(done)) as Hb'.
  pose proof (reset_local_ok _ _ CHIPMEM_DEFAULT_VALUE Hl0c ltac:(done)) as Hl0c'.
  pose proof (reset_local_ok _ _ CHIPMEM_DEFAULT_VALUE Hl1 ltac:(done)) as Hl1'.
  pose proof (reset_local_ok _ _ CHIPMEM_DEFAULT_VALUE Hub ltac:(done)) as Hub'.
  pose proof (reset_local_ok _ _ PRIVATE_DEFAULT_VALUE Hp ltac:(done)) as Hp'.
  destruct Ha as (? & Ha & _), Hb as (? & Hb & _), Hl0c as (? & Hl0c & _), Hl1 as (? & Hl1 & _),
    Hub as (? & Hub & _), Hp as (? & Hp & _).
  unfold ResetChipMemory, ResetPrivateMemory. rewrite Ha, Hb, Hl0c, Hl1, Hub. simpl. rewrite Hp. simpl.
  rewrite Ha, Hb, Hl0c, Hl1, Hub, Hp in *. eexists. split; [done|]. split; [by split|done|done].
Qed.

Lemma SetAtomic_ok s e : shadow_ok s → shadow_ok (SetAtomic s e).
Proof. intros [ [] ? ?]. split; [by split|done|done]. Qed.

Lemma CheckRecordBeforeProcess_total env rt dfx record a :
  asan_ok a → (match record with MEMORY_RECORD r => rec_ok r | _ => True end) →
  ∃ a' go, CheckRecordBeforeProcess env rt dfx record a = Some (a', go) ∧ asan_ok a' ∧
    (boundsCheckScope_ a ≠ SCOPE_BYPASS → boundsCheckScope_ a' ≠ SCOPE_BYPASS).
Proof.
  intros Ha Hr. unfold CheckRecordBeforeProcess. destruct (IsReady _); simpl; [|by eexists _, _].
  destruct record as [r|k| |]; [| |by eexists _, _..].
  - case_bool_decide.
    + unfold AlertGMAddrOutOfBoundError. rewrite notify_spec by apply Ha. eexists _, _. split; [done|].
      split; [|done]. apply upd_msg_ok; [done|apply Ha].
    + destruct (do_host_record_total env rt dfx r a Ha Hr) as (a' & -> & Ha' & _ & Hsc & _).
      eexists _, _. split; [done|]. split; [done|]. rewrite Hsc. unfold next_scope.
      destruct (Mor.infoSrc r), (Mor.type r); try done; by case_bool_decide.
  - destruct (reset_total (shadowMemory_ a)) as (s' & Hs & Hs'); [apply Ha|].
    assert (∀ s, shadow_ok s → asan_ok (upd_shadow s a)) as Hup by (intros; destruct Ha; by split).
    assert (∀ go, ∃ a' go', (match FormatConverter.GetAtomicFlag (kr_recordType k) (kr_atomicMode k) with
      | Some enabled => Some (upd_shadow (SetAtomic (shadowMemory_ a) enabled) a, false)
      | None => Some (a, go) end) = Some (a', go') ∧ asan_ok a' ∧
      (boundsCheckScope_ a ≠ SCOPE_BYPASS → boundsCheckScope_ a' ≠ SCOPE_BYPASS)) as Hat.
    { intros go. case_match; eexists _, _; (split; [done|]); [|done]. split; [|done].
      apply Hup, SetAtomic_ok, Ha. }
    destruct (kr_recordType k); try apply (Hat true).
    destruct (ResetChipMemory _); [|done]. cbn [mbind option_bind] in *. rewrite Hs.
    eexists _, _. split; [done|]. split; [by apply Hup|done].
Qed.

(** What reaches the object: a record, a permission change, the memory records
    of a kernel. *)
Inductive input :=
  | IRecord (record : SanitizerRecord) | IPermission (d : MemRegionPermissionDesc)
  | IKernel (records : list MemOpRecord).

Definition input_ok (i : input) : Prop :=
  match i with
  | IRecord (MEMORY_RECORD r) => rec_ok r
  | IRecord _ => True
  | IPermission d => is_u64 (p_addr d) ∧ is_u64 (p_size d)
  | IKernel rs => Forall rec_ok rs
  end.

Definition handle (env : Asan.Env) (rt dfx : Z) (i : input) (a : AddressSanitizer) : option AddressSanitizer :=
  match i with
  | IRecord record => fst <$> CheckRecordBeforeProcess env rt dfx record a
  | IPermission d => Some (SetPermission d a)
  | IKernel rs => DoMemOpRecords env rt dfx rs a
  end.

Fixpoint handle_all (env : Asan.Env) (rt dfx : Z) (l : list input) (a : AddressSanitizer)
    : option AddressSanitizer :=
  match l with [] => Some a | i :: l' => a ← handle env rt dfx i a; handle_all env rt dfx l' a end.

Lemma handle_total env rt dfx i a :
  asan_ok a → boundsCheckScope_ a ≠ SCOPE_BYPASS → input_ok i →
  ∃ a', handle env rt dfx i a = Some a' ∧ asan_ok a' ∧ boundsCheckScope_ a' ≠ SCOPE_BYPASS.
Proof.
  intros Ha Hs Hi. destruct i as [record|d|rs]; simpl in *.
  - destruct (CheckRecordBeforeProcess_total env rt dfx record a) as (a' & go & -> & ? & ?);
      [done|by destruct record|]. exists a'. auto.
  - eexists. split; [done|]. split; [|done]. destruct Ha, Hi as [Hi1 Hi2].
    unfold SetPermission. split; simpl; [done| | |done];
      destruct (boundsCheckScope_ a); try done; by apply bc_SetPermission_ok.
  - destruct (DoMemOpRecords_total env rt dfx rs a) as (a' & ? & ? & []); [done..|].
    exists a'. split; [done|]. split; [done|]. congruence.
Qed.

(** C7: the sanitizer survives every history: whatever records, permission
    changes and kernels arrive, each is handled (no table is indexed out of
    bounds, no null table or null notification function is used), the shadow
    tables, the heap records and both bounds tables stay well formed, and
    between two inputs the object is never left in the BYPASS scope. *)
Theorem sanitizer_runs_safely env rt dfx l a :
  asan_ok a → boundsCheckScope_ a ≠ SCOPE_BYPASS → Forall input_ok l →
  ∃ a', handle_all env rt dfx l a = Some a' ∧ asan_ok a' ∧ boundsCheckScope_ a' ≠ SCOPE_BYPASS.
Proof.
  revert a. induction l as [|i l IH]; intros a Ha Hs Hl; simpl; [by exists a|].
  apply Forall_cons in Hl as [Hi Hl].
  destruct (handle_total env rt dfx i a Ha Hs Hi) as (a1 & -> & Ha1 & Hs1). by apply IH.
Qed.

(** ** Scopes along a run *)

Fixpoint host_run (env : Asan.Env) (rt dfx : Z) (rs : list MemOpRecord) (a : AddressSanitizer)
    : option AddressSanitizer :=
  match rs with [] => Some a | r :: rs' => a ← do_host_record env rt dfx r a; host_run env rt dfx rs' a end.

(** The abstract machine: the scope and the multiset of registered heaps. *)
Definition heaps_step (m : gmultiset Z) (r : MemOpRecord) : gmultiset Z :=
  match Mor.infoSrc r, Mor.type r with
  | MSTX_HEAP, MALLOC => m ⊎ {[+ Mor.dstAddr r +]}
  | MSTX_HEAP, FREE => m ∖ {[+ Mor.dstAddr r +]}
  | _, _ => m
  end.
Definition scope_step (st : BoundsCheckScope * gmultiset Z) (r : MemOpRecord)
    : BoundsCheckScope * gmultiset Z :=
  let m := heaps_step st.2 r in (next_scope st.1 (bool_decide (m = ∅)) r, m).

(** The reference counts represent the multiset. *)
Definition cache_rep (cache : gmap Z Z) (m : gmultiset Z) : Prop :=
  ∀ x, cache !! x = match multiplicity x m with O => None | S n => Some (Z.of_nat (S n)) end.

Lemma cache_rep_empty cache m : cache_rep cache m → bool_decide (cache = ∅) = bool_decide (m = ∅).
Proof.
  intros Hrep. apply bool_decide_ext. split.
  - intros ->. apply gmultiset_eq. intros x. specialize (Hrep x). rewrite lookup_empty in Hrep.
    rewrite multiplicity_empty. by destruct (multiplicity x m).
  - intros ->. apply map_eq. intros x. rewrite Hrep, multiplicity_empty. by rewrite lookup_empty.
Qed.

Lemma multiplicity_size x (m : gmultiset Z) : (multiplicity x m <= size m)%nat.
Proof.
  rewrite <- (Nat.mul_1_r (multiplicity x m)), <- (gmultiset_size_singleton (A := Z) x),
    <- gmultiset_size_scalar_mul.
  apply gmultiset_subseteq_size. intros y. rewrite multiplicity_scalar_mul, multiplicity_singleton.
  case_decide; subst; lia.
Qed.

Lemma cache_rep_step cache m r :
  cache_rep cache m → Z.of_nat (size m) + 1 < 2 ^ 64 →
  cache_rep (update_heap_cache r cache) (heaps_step m r).
Proof.
  intros Hrep Hsz. pose proof (multiplicity_size (Mor.dstAddr r) m) as Hm. unfold update_heap_cache, heaps_step.
  destruct (Mor.infoSrc r); simpl; try done. destruct (Mor.type r); try done.
  - intros x. rewrite multiplicity_disj_union, multiplicity_singleton. case_decide.
    + subst. rewrite lookup_insert_eq, Hrep. rewrite Nat.add_1_r. f_equal.
      destruct (multiplicity (Mor.dstAddr r) m); simpl; u64_simpl; lia.
    + rewrite lookup_insert_ne by done. by rewrite Nat.add_0_r.
  - intros x. rewrite multiplicity_difference, multiplicity_singleton. pose proof (Hrep (Mor.dstAddr r)) as Hr.
    destruct (multiplicity (Mor.dstAddr r) m) as [|n] eqn:E; rewrite Hr.
    + case_decide; [subst; by rewrite E, Hr|]. by rewrite Nat.sub_0_r.
    + destruct (Z.leb_spec (Z.of_nat (S n)) 1); case_decide.
      * subst. rewrite lookup_delete_eq, E. by destruct n; [|lia].
      * rewrite lookup_delete_ne by done. by rewrite Nat.sub_0_r.
      * subst. rewrite lookup_insert_eq, E. destruct n as [|n]; [lia|]. simpl. f_equal. u64_simpl. lia.
      * rewrite lookup_insert_ne by done. by rewrite Nat.sub_0_r.
Qed.

Lemma heaps_step_size m r : (size (heaps_step m r) <= S (size m))%nat.
Proof.
  unfold heaps_step. destruct (Mor.infoSrc r); try lia. destruct (Mor.type r); try lia.
  - rewrite gmultiset_size_disj_union, gmultiset_size_singleton. lia.
  - assert (m ∖ {[+ Mor.dstAddr r +]} ⊆ m) as ?%gmultiset_subseteq_size by multiset_solver. lia.
Qed.

Lemma host_run_refines env rt dfx rs : ∀ a m,
  asan_ok a → Forall rec_ok rs → cache_rep (mstxHeapCacheMap_ a) m →
  Z.of_nat (size m + length rs) + 1 < 2 ^ 64 →
  ∃ a', host_run env rt dfx rs a = Some a' ∧ asan_ok a' ∧
    boundsCheckScope_ a' = (foldl scope_step (boundsCheckScope_ a, m) rs).1 ∧
    cache_rep (mstxHeapCacheMap_ a') (foldl scope_step (boundsCheckScope_ a, m) rs).2.
Proof.
  induction rs as [|r rs IH]; intros a m Ha Hrs Hrep Hsz; simpl in *; [by exists a|].
  apply Forall_cons in Hrs as [Hr Hrs]. pose proof (heaps_step_size m r).
  destruct (do_host_record_total env rt dfx r a Ha Hr) as (a1 & -> & Ha1 & Hc & Hs & _).
  cbn [mbind option_bind]. assert (Hrep1 : cache_rep (mstxHeapCacheMap_ a1) (heaps_step m r)).
  { rewrite Hc. apply cache_rep_step; [done|lia]. }
  destruct (IH a1 (heaps_step m r)) as (a' & ? & ? & Hs' & Hrep'); [done|done|done|lia|].
  exists a'. unfold scope_step at 2 4. simpl. rewrite (cache_rep_empty _ _ Hrep1) in Hs.
  rewrite Hs in Hs', Hrep'. done.
Qed.

(** C21: the bounds table in use is the one the scope machine prescribes: after
    any sequence of host records the scope of the object is that of the abstract
    machine, which keeps the multiset of mstx heaps that are registered and not
    yet unregistered; the reference counts of [mstxHeapCacheMap_] are exactly
    its multiplicities. *)
Theorem scope_machine_refined env rt dfx rs a :
  asan_ok a → Forall rec_ok rs → mstxHeapCacheMap_ a = ∅ → Z.of_nat (length rs) + 1 < 2 ^ 64 →
  ∃ a', host_run env rt dfx rs a = Some a' ∧
    let st := foldl scope_step (boundsCheckScope_ a, ∅) rs in
    boundsCheckScope_ a' = st.1 ∧ cache_rep (mstxHeapCacheMap_ a') st.2.
Proof.
  intros Ha Hrs Hc Hlen. destruct (host_run_refines env rt dfx rs a ∅) as (a' & ? & _ & ? & ?); [done|done| | |].
  - intros x. by rewrite Hc, lookup_empty, multiplicity_empty.
  - by rewrite gmultiset_size_empty.
  - by exists a'.
Qed.

(** ** Illegal accesses of a kernel *)

Definition active (a : AddressSanitizer) : BoundsCheck.BoundsCheck :=
  match boundsCheckScope_ a with DFX => boundsCheckDfx_ a | _ => boundsCheckRuntime_ a end.
Definition active_ptr (rt dfx : Z) (a : AddressSanitizer) : Z :=
  match boundsCheckScope_ a with DFX => dfx | _ => rt end.

Definition access_of (r : MemOpRecord) : AccessType :=
  if bool_decide (Mor.type r = LOAD) then READ else WRITE.
Definition illegal_type (r : MemOpRecord) : MemErrorType :=
  if bool_decide (Mor.type r = LOAD) then ILLEGAL_ADDR_READ else ILLEGAL_ADDR_WRITE.

(** An access record of a kernel, in a space with bounds. *)
Record kernel_access (b : BoundsCheck.BoundsCheck) (r : MemOpRecord) (x : BoundsCheck.Bounds) : Prop := {
  ka_type : Mor.type r = LOAD ∨ Mor.type r = STORE;
  ka_ok : rec_ok r;
  ka_size : Mor.memSize r ≠ 0;
  ka_checked : Mor.ignoreIllegalCheck r = false;
  ka_bounds : BoundsCheck.bounds_ b !! Mor.dstSpace r = Some x;
}.

(** Addresses of the access the table does not permit. *)
Definition bad_bytes (r : MemOpRecord) (x : BoundsCheck.Bounds) : Z :=
  Mor.memSize r -
  Bounds.permitted_count (BoundsCheck.bounds_ranges x) (access_of r) (Mor.dstAddr r) (Mor.memSize r).

(** Some address is not permitted, and no peer device grants the access. *)
Definition illegal (env : Asan.Env) (self : Z) (b : BoundsCheck.BoundsCheck) (r : MemOpRecord)
    (x : BoundsCheck.Bounds) : Prop :=
  (∃ y, Mor.dstAddr r <= y < Mor.dstAddr r + Mor.memSize r ∧
        Bounds.permits (BoundsCheck.bounds_ranges x) (access_of r) y = false) ∧
  Asan.CheckPeerAccessAddr env self r b (access_of r) = false.

Definition is_illegal_report (e : ErrorMsg) : Prop :=
  Err.type e = ILLEGAL_ADDR_READ ∨ Err.type e = ILLEGAL_ADDR_WRITE.

(** The report of record [r]. *)
Definition report_of (r : MemOpRecord) (x : BoundsCheck.Bounds) (e : ErrorMsg) : Prop :=
  Err.type e = illegal_type r ∧ Err.isError e = true ∧ Aux.badAddr (Err.auxData e) = Mor.dstAddr r ∧
  Aux.nBadBytes (Err.auxData e) = bad_bytes r x ∧ Aux.pc (Err.auxData e) = Mor.pc r ∧
  Aux.coreId (Err.auxData e) = Mor.coreId r.

Lemma kernel_access_u64 b r x :
  kernel_access b r x → is_u64 (Mor.dstAddr r) ∧ is_u64 (Mor.memSize r).
Proof. intros [Ht Hok _ _ _]. unfold rec_ok in Hok. destruct Ht as [Ht|Ht]; rewrite Ht in Hok; by destruct Hok as (? & ? & _). Qed.

(** The bounds part of an access, both directions. *)
Lemma bounds_errors_exact env self config b r x :
  bc_ok b → kernel_access b r x → memCheck config = true →
  let errs := Asan.bounds_errors env self config r b (access_of r) (illegal_type r) in
  (illegal env self b r x → ∃ e, e ∈ errs ∧ report_of r x e) ∧
  (∀ e, e ∈ errs → illegal env self b r x ∧ report_of r x e).
Proof.
  intros Hb Hk Hm errs. destruct (kernel_access_u64 b r x Hk) as [Ha Hn]. destruct Hk as [_ _ Hne Hig Hx].
  unfold errs, Asan.bounds_errors. rewrite Hm, Hig. simpl. unfold BoundsCheck.Check. rewrite Hx.
  rewrite BoundsCheck.Bounds_Check_spec by (try done; by apply (Hb _ _ Hx)). fold (bad_bytes r x).
  pose proof (Bounds.unpermitted_pos (BoundsCheck.bounds_ranges x) (access_of r) (Mor.dstAddr r)
    (Mor.memSize r) ltac:(apply Hn)) as Hpos. fold (bad_bytes r x) in Hpos. unfold illegal.
  cbv zeta. destruct (Z.ltb_spec 0 (bad_bytes r x)); simpl.
  - destruct (Asan.CheckPeerAccessAddr _ _ _ _ _); simpl; [split; [naive_solver|set_solver]|].
    split.
    + intros _. eexists. split; [by apply list_elem_of_singleton|]. unfold report_of. by split_and!.
    + intros e ->%list_elem_of_singleton. split; [by rewrite <- Hpos|]. unfold report_of. by split_and!.
  - split; [|set_solver]. rewrite <- Hpos. lia.
Qed.

Lemma LoadNBytes_types s rec ic l e : LoadNBytes s rec ic = Some l → e ∈ l → Err.type e = UNINITIALIZED_READ.
Proof.
  unfold LoadNBytes. intros Hl He. destruct (SkipSpace _); [simplify_eq; set_solver|].
  destruct (_ && _ && _); [simplify_eq; set_solver|]. destruct (ValidateRange _ _ _ _).
  destruct (GetMemMap _ _); [|simplify_eq; set_solver].
  apply bind_Some in Hl as (hit & _ & Hl). destruct hit; simpl in Hl; [|simplify_eq; set_solver].
  apply bind_Some in Hl as ([] & _ & Hl). simplify_eq. case_match; [|set_solver].
  by apply list_elem_of_singleton in He as ->.
Qed.

Lemma StoreNBytes_types s rec mc oob s' l e :
  StoreNBytes s rec mc oob = Some (s', l) → e ∈ l → Err.type e = OUT_OF_BOUNDS.
Proof.
  unfold StoreNBytes. intros Hl He. destruct (SkipSpace _); [simplify_eq; set_solver|].
  destruct (ValidateRange _ _ _ _). destruct (GetMemMap _ _); [|simplify_eq; set_solver].
  apply bind_Some in Hl as ([] & _ & Hl). simplify_eq. case_match; [|set_solver].
  by apply list_elem_of_singleton in He as ->.
Qed.

(** One access: the tables stay, and among its messages the illegal-access
    reports are those of the bounds part. *)
Lemma access_action env self config r s b x :
  shadow_ok s → bc_ok b → kernel_access b r x →
  ∃ s' errs, Asan.doAction env self config r s b false = Some (s', b, errs) ∧ shadow_ok s' ∧
    ∀ e, is_illegal_report e →
      e ∈ errs ↔ e ∈ Asan.bounds_errors env self config r b (access_of r) (illegal_type r).
Proof.
  intros Hs Hb [Ht Hr _ _ _]. unfold Asan.doAction, access_of, illegal_type. unfold rec_ok in Hr.
  assert (Hfill : ∀ (l : ErrorMsgList) t, (∀ m, m ∈ l → Err.type m = t) → t ≠ ILLEGAL_ADDR_READ → t ≠ ILLEGAL_ADDR_WRITE →
    ∀ e, is_illegal_report e → e ∈ Asan.FillErrorLocInfo r <$> l → False).
  { intros l t Hl H1 H2 e Hill (m & -> & Hm)%list_elem_of_fmap. apply Hl in Hm.
    unfold is_illegal_report in Hill. simpl in Hill. destruct Hill; congruence. }
  destruct Ht as [Ht|Ht]; rewrite Ht in *; simpl.
  - unfold Asan.AsanLoad_doAction. case_match eqn:E; [|by eexists _, _].
    assert (initCheck config = true) as ->.
    { unfold GetEffectiveInitcheckAddressSpaceMask in E. simpl in E. by destruct (initCheck config). }
    destruct (LoadNBytes_total s r (so_shm _ Hs) Hr) as [l Hl]. rewrite Hl. simpl. eexists _, _.
    split; [done|]. split; [done|]. intros e Hill. rewrite elem_of_app. split; [|by left].
    intros [?|He]; [done|]. exfalso.
    refine (Hfill l UNINITIALIZED_READ (λ m, LoadNBytes_types _ _ _ _ m Hl) _ _ e Hill He); done.
  - unfold Asan.AsanStore_doAction. case_match; [|by eexists _, _].
    destruct (StoreNBytes_total s r (memCheck config) (outOfBoundCheck config) Hs Hr) as (s' & l & Hl & Hs').
    rewrite Hl. simpl. eexists _, _. split; [done|]. split; [done|]. intros e Hill. rewrite elem_of_app.
    split; [|by left]. intros [?|He]; [done|]. exfalso.
    refine (Hfill l OUT_OF_BOUNDS (λ m, StoreNBytes_types _ _ _ _ _ _ m Hl) _ _ e Hill He); done.
Qed.

Definition has_access (b : BoundsCheck.BoundsCheck) (r : MemOpRecord) : Prop := ∃ x, kernel_access b r x.

Lemma access_record env rt dfx r a :
  asan_ok a → boundsCheckScope_ a ≠ SCOPE_BYPASS → has_access (active a) r →
  ∃ a' errs, DoMemOpRecord env rt dfx r true a = Some a' ∧ asan_ok a' ∧ same_scope a a' ∧
    active a' = active a ∧ msgFunc_ a' = msgFunc_ a ∧
    errorBuffer_ a' = foldl ErrBuf.Add (errorBuffer_ a) errs ∧
    ∀ e, is_illegal_report e →
      e ∈ errs ↔ e ∈ Asan.bounds_errors env (active_ptr rt dfx a) (config_ a) r (active a)
                       (access_of r) (illegal_type r).
Proof.
  intros [Hs Hrt Hdfx Hf] Hsc [x Hk]. unfold DoMemOpRecord.
  assert (Asan.IsValid r = true) as ->.
  { unfold Asan.IsValid. by destruct (ka_type _ _ _ Hk) as [-> | ->]. }
  unfold ScopeDoAction, active, active_ptr in *. simpl.
  destruct (boundsCheckScope_ a) eqn:Esc; [| |done].
  - destruct (access_action env rt (config_ a) r (shadowMemory_ a) _ x Hs Hrt Hk) as (s' & errs & -> & Hs' & He).
    eexists _, errs. split; [done|]. split; [by split|]. split; [by split|]. simpl. by rewrite Esc.
  - destruct (access_action env dfx (config_ a) r (shadowMemory_ a) _ x Hs Hdfx Hk) as (s' & errs & -> & Hs' & He).
    eexists _, errs. split; [done|]. split; [by split|]. split; [by split|]. simpl. by rewrite Esc.
Qed.

Lemma access_records env rt dfx rs : ∀ a,
  asan_ok a → boundsCheckScope_ a ≠ SCOPE_BYPASS → Forall (has_access (active a)) rs →
  ∃ a' errs, DoMemOpRecords env rt dfx rs a = Some a' ∧ config_ a' = config_ a ∧ msgFunc_ a' = msgFunc_ a ∧
    errorBuffer_ a' = foldl ErrBuf.Add (errorBuffer_ a) errs ∧
    ∀ e, is_illegal_report e →
      e ∈ errs ↔ ∃ r, r ∈ rs ∧ e ∈ Asan.bounds_errors env (active_ptr rt dfx a) (config_ a) r (active a)
                                    (access_of r) (illegal_type r).
Proof.
  induction rs as [|r rs IH]; intros a Ha Hsc Hrs; simpl.
  { exists a, []. do 4 (split; [done|]). set_solver. }
  apply Forall_cons in Hrs as [Hr Hrs].
  destruct (access_record env rt dfx r a Ha Hsc Hr) as (a1 & e1 & -> & Ha1 & [Hs1 _ _ Hc1] & Hact & Hm1 & Hb1 & He1).
  cbn [mbind option_bind]. destruct (IH a1) as (a2 & e2 & -> & Hc2 & Hm2 & Hb2 & He2);
    [done|by rewrite Hs1|by rewrite Hact|].
  exists a2, (e1 ++ e2). split; [done|]. split; [congruence|]. split; [congruence|]. split; [by rewrite Hb2, Hb1, foldl_app|].
  assert (active_ptr rt dfx a1 = active_ptr rt dfx a) as Hp by (unfold active_ptr; by rewrite Hs1).
  rewrite Hc1, Hact, Hp in He2. intros e Hill. rewrite elem_of_app, He1, He2 by done. set_solver.
Qed.

(** C5: illegal accesses of a kernel are reported exactly. With the memory
    check on, handling the loads and stores of a kernel appends messages [errs]
    to the error buffer such that every access with an address the table in use
    does not permit, and which no peer device grants, has a report with its
    address, program counter, core and the exact number of bad bytes; and every
    illegal-access report belongs to such an access. *)
Theorem illegal_access_exact env rt dfx rs a :
  asan_ok a → boundsCheckScope_ a ≠ SCOPE_BYPASS → memCheck (config_ a) = true →
  Forall (has_access (active a)) rs →
  ∃ a' errs, DoMemOpRecords env rt dfx rs a = Some a' ∧
    errorBuffer_ a' = foldl ErrBuf.Add (errorBuffer_ a) errs ∧
    (∀ r x, r ∈ rs → kernel_access (active a) r x → illegal env (active_ptr rt dfx a) (active a) r x →
       ∃ e, e ∈ errs ∧ report_of r x e) ∧
    (∀ e, e ∈ errs → is_illegal_report e →
       ∃ r x, r ∈ rs ∧ illegal env (active_ptr rt dfx a) (active a) r x ∧ report_of r x e).
Proof.
  intros Ha Hsc Hm Hrs. assert (bc_ok (active a)) as Hb.
  { unfold active. destruct Ha. by destruct (boundsCheckScope_ a). }
  destruct (access_records env rt dfx rs a Ha Hsc Hrs) as (a' & errs & Hdo & _ & _ & Hbuf & He).
  exists a', errs. split; [done|]. split; [done|]. split.
  - intros r x Hr Hk Hill. destruct (bounds_errors_exact env (active_ptr rt dfx a) (config_ a) _ r x Hb Hk Hm)
      as [(e & Hin & Hrep) _]; [done|]. exists e. split; [|done]. apply He; [|by eauto].
    destruct Hrep as [Ht _]. unfold is_illegal_report. rewrite Ht. unfold illegal_type. case_bool_decide; tauto.
  - intros e Hin Hill. apply He in Hin as (r & Hr & Hin); [|done].
    pose proof Hrs as Hrs'. rewrite Forall_forall in Hrs'. destruct (Hrs' r Hr) as [x Hk].
    destruct (bounds_errors_exact env (active_ptr rt dfx a) (config_ a) _ r x Hb Hk Hm) as [_ Hex].
    destruct (Hex e Hin). by exists r, x.
Qed.

(** ** Life of a device allocation *)

(** The runtime table of global memory. *)
Definition gm_ranges (a : AddressSanitizer) (l : list Bounds.Range) : Prop :=
  BoundsCheck.bounds_ (boundsCheckRuntime_ a) !! GM = Some (BoundsCheck.DiscreteBounds l).
Definition rt_blocks (a : AddressSanitizer) : gmap Z Hbm.HeapBlock :=
  Hbm.heapBlocks_ (heapBlockManager_ (shadowMemory_ a)).

(** A malloc or free of the runtime, the driver or the ACL interface. *)
Record device_op (t : MemOpType) (r : MemOpRecord) : Prop := {
  do_type : Mor.type r = t;
  do_ok : rec_ok r;
  do_space : Mor.dstSpace r = GM;
  do_src : Hbm.IsRealMalloc (Mor.infoSrc r) = true;
}.

(** Handling such a record is its action on the runtime table. *)
Lemma device_record env rt dfx t r a s b errs :
  device_op t r → Asan.IsValid r = true → msgFunc_ a ≠ MSG_NULL →
  Asan.doAction env rt (config_ a) r (shadowMemory_ a) (boundsCheckRuntime_ a) false = Some (s, b, errs) →
  ∃ a', do_host_record env rt dfx r a = Some a' ∧ shadowMemory_ a' = s ∧ boundsCheckRuntime_ a' = b ∧
    boundsCheckScope_ a' = RUNTIME ∧ config_ a' = config_ a ∧ boundsCheckDfx_ a' = boundsCheckDfx_ a ∧
    msgFunc_ a' = msgFunc_ a ∧
    sent a' = match msgFunc_ a with
              | MSG_REGISTERED => sent a ++ ((λ e, NReport (GetNotifyLv (Err.type e)) (single e)) <$> errs)
              | _ => sent a
              end.
Proof.
  intros Hop Hv Hf Hact. unfold do_host_record. rewrite BeforeScopeSwitch_spec.
  assert (MemInfoToScope (Mor.infoSrc r) = RUNTIME) as Hsc.
  { pose proof (do_src _ _ Hop). by destruct (Mor.infoSrc r). }
  rewrite Hsc. unfold DoMemOpRecord, ScopeDoAction. rewrite Hv. simpl. rewrite Hact.
  cbn [mbind option_bind]. rewrite notify_all_spec by done. cbn [mbind option_bind].
  eexists. split; [done|]. rewrite AfterScopeSwitch_spec by done. simpl.
  split; [done|]. split; [done|]. split.
  { unfold next_scope. pose proof (do_src _ _ Hop). by destruct (Mor.infoSrc r). }
  done.
Qed.

Lemma real_not_heap src : Hbm.IsRealMalloc src = true → bool_decide (src = MSTX_HEAP) = false.
Proof. by destruct src. Qed.

Lemma reach_no_overflow a n : reach a n → Err.isError (Bounds.CheckOverflow a n) = false.
Proof.
  intros (Ha & Hn & Hle). unfold Bounds.CheckOverflow, gm_limit, Bounds.globalMemMask in *. u64_simpl.
  destruct (Z.leb_spec a 0xFFFFFFFFFFFF), (Z.ltb_spec (0xFFFFFFFFFFFF - a) n),
    (Z.ltb_spec 0xFFFFFFFFFFFF a); simpl; try lia; done.
Qed.

Lemma Add_no_error l a n p :
  Err.isError (Bounds.CheckOverflow a n) = false → (Bounds.Add l a n p).2 = Err.no_error.
Proof. intros Ho. unfold Bounds.Add. rewrite Ho. by repeat case_match. Qed.

Lemma doAction_malloc env self config r s b ign res :
  Mor.type r = MALLOC → Some (Asan.AsanMalloc_doAction r s b ign) = res →
  Asan.doAction env self config r s b ign = res.
Proof. unfold Asan.doAction. by intros ->. Qed.

Lemma malloc_record env rt dfx r a l :
  asan_ok a → device_op MALLOC r → gm_ranges a l → rt_blocks a !! Mor.dstAddr r = None →
  ∃ a' l', do_host_record env rt dfx r a = Some a' ∧ asan_ok a' ∧ boundsCheckScope_ a' = RUNTIME ∧
    msgFunc_ a' = msgFunc_ a ∧ sent a' = sent a ∧
    gm_ranges a' l' ∧ l' = (Bounds.Add l (Mor.dstAddr r) (Mor.memSize r) Bounds.DEFAULT_PERMISSION).1 ∧
    rt_blocks a' = <[Mor.dstAddr r := Hbm.of_record r]> (rt_blocks a).
Proof.
  intros Ha Hop Hl Hnone. pose proof Hop as [Ht Hr HGM Hsrc]. unfold rec_ok in Hr. rewrite Ht in Hr.
  destruct Hr as (Hu & Hn & Hreach).
  destruct (malloc_good r (shadowMemory_ a) (boundsCheckRuntime_ a) false) as (s & b & errs & E & Hs & Hb);
    [apply Ha|apply Ha|done..|].
  assert (s = (AddHeapBlock (shadowMemory_ a) r).1 ∧
    b = (BoundsCheck.Add (boundsCheckRuntime_ a) GM (Mor.dstAddr r) (Mor.memSize r) Bounds.DEFAULT_PERMISSION).1 ∧
    errs = []) as (-> & -> & ->).
  { revert E. unfold Asan.AsanMalloc_doAction. rewrite HGM, (real_not_heap _ Hsrc). simpl.
    assert ((AddHeapBlock (shadowMemory_ a) r).2 = true) as Hadd.
    { unfold AddHeapBlock, Hbm.AddHeapBlock, Hbm.GetHeapType. by destruct (Mor.infoSrc r). }
    destruct (AddHeapBlock (shadowMemory_ a) r) as [s1 added]. simpl in Hadd. subst. simpl.
    unfold BoundsCheck.Add. rewrite Hl. simpl.
    pose proof (Add_no_error l _ _ Bounds.DEFAULT_PERMISSION (reach_no_overflow _ _ Hreach)) as Hmsg.
    destruct (Bounds.Add l _ _ _) as [l' msg]. simpl in *. subst. by intros [= <- <- <-]. }
  assert (Asan.IsValid r = true) as Hv by (unfold Asan.IsValid; by rewrite Ht).
  apply (doAction_malloc env rt (config_ a)) in E; [|done].
  destruct (device_record env rt dfx MALLOC r a _ _ [] Hop Hv (ao_func _ Ha) E)
    as (a' & Hdo & Hsh & Hrt & Hsc & _ & Hdfx & Hmf & Hsent).
  exists a', (Bounds.Add l (Mor.dstAddr r) (Mor.memSize r) Bounds.DEFAULT_PERMISSION).1.
  split; [done|]. split; [split; rewrite ?Hsh, ?Hrt, ?Hdfx, ?Hmf; [done|done|apply Ha|apply Ha]|].
  split; [done|]. split; [done|]. split.
  { rewrite Hsent. simpl. rewrite app_nil_r. by destruct (msgFunc_ a). }
  split.
  { unfold gm_ranges. rewrite Hrt. unfold BoundsCheck.Add. rewrite Hl. simpl.
    destruct (Bounds.Add l _ _ _) eqn:Ea. simpl. rewrite lookup_insert_eq. done. }
  split; [done|]. unfold rt_blocks in *. rewrite Hsh. unfold AddHeapBlock, Hbm.AddHeapBlock, Hbm.GetHeapType.
  destruct (Mor.infoSrc r) eqn:Es; try done; simpl; unfold Hbm.with_heapBlocks, Hbm.GetHeapBlocks, Hbm.add_if_absent;
    rewrite ?Es; simpl; by rewrite Hnone.
Qed.

(** A free of the runtime: the recorded length, or the report. *)
Lemma free_real s f s1 msg size :
  Hbm.IsRealMalloc (Mor.infoSrc f) = true → FreeHeapBlock s f 0 = (s1, msg, size) →
  Hbm.heapBlocks_ (heapBlockManager_ s1) = delete (Mor.dstAddr f) (Hbm.heapBlocks_ (heapBlockManager_ s)) ∧
  match Hbm.heapBlocks_ (heapBlockManager_ s) !! Mor.dstAddr f with
  | Some b => size = Hbm.len b
  | None => msg = Hbm.illegal_free (Mor.dstAddr f)
  end.
Proof.
  intros Hsrc. set (h := heapBlockManager_ s).
  assert (FreeHeapBlock s f 0 = let '(h', m, n) := Hbm.FreeRtDfxBlock h f 0 in
    (with_managers s h' (heapBlockManagerBypass_ s) (unusedHeap_ s), m, n)) as ->.
  { unfold FreeHeapBlock, Hbm.FreeHeapBlock, Hbm.GetHeapType. by destruct (Mor.infoSrc f). }
  unfold Hbm.FreeRtDfxBlock, Hbm.with_heapBlocks, Hbm.GetHeapBlocks. rewrite (Hbm.real_not_dfx _ Hsrc).
  destruct (Hbm.heapBlocks_ h !! Mor.dstAddr f) as [b|] eqn:E; intros [= <- <- <-]; simpl.
  - by rewrite (proj1 (Hbm.DeleteMstxInfo_heap _ _ _)).
  - by rewrite delete_id.
Qed.

Lemma free_record env rt dfx f a l :
  asan_ok a → device_op FREE f → gm_ranges a l →
  ∃ a' errs, do_host_record env rt dfx f a = Some a' ∧ asan_ok a' ∧ boundsCheckScope_ a' = RUNTIME ∧
    msgFunc_ a' = msgFunc_ a ∧
    sent a' = match msgFunc_ a with
              | MSG_REGISTERED => sent a ++ ((λ e, NReport (GetNotifyLv (Err.type e)) (single e)) <$> errs)
              | _ => sent a
              end ∧
    rt_blocks a' = delete (Mor.dstAddr f) (rt_blocks a) ∧
    match rt_blocks a !! Mor.dstAddr f with
    | Some b => gm_ranges a' (Bounds.Remove l (Mor.dstAddr f) (Hbm.len b)).1
    | None => ∃ e, e ∈ errs ∧ Err.type e = ILLEGAL_FREE ∧ Aux.badAddr (Err.auxData e) = Mor.dstAddr f
    end.
Proof.
  intros Ha Hop Hl. pose proof Hop as [Ht Hr HGM Hsrc]. unfold rec_ok in Hr. rewrite Ht in Hr.
  destruct (free_detail (config_ a) f (shadowMemory_ a) (boundsCheckRuntime_ a) false) as
    (s1 & msg & size & s' & errs & Hfree & Hres); [apply Ha|apply Ha|done|done|].
  rewrite (real_not_heap _ Hsrc) in Hres. cbv zeta in Hres. destruct Hres as (Hact & Hs' & Hb' & Hh & Herr).
  assert (Asan.IsValid f = true) as Hv by (unfold Asan.IsValid; by rewrite Ht).
  destruct (device_record env rt dfx FREE f a _ _ errs Hop Hv (ao_func _ Ha)
    ltac:(unfold Asan.doAction; rewrite Ht; exact Hact))
    as (a' & Hdo & Hsh & Hrt & Hsc & _ & Hdfx & Hmf & Hsent).
  exists a', errs. split; [done|]. split; [split; rewrite ?Hsh, ?Hrt, ?Hdfx, ?Hmf; [done|done|apply Ha|apply Ha]|].
  split; [done|]. split; [done|]. split; [done|].
  destruct (free_real (shadowMemory_ a) f s1 msg size Hsrc Hfree) as [Hblocks Hcase].
  unfold rt_blocks. rewrite Hsh, Hh. split; [done|].
  destruct (Hbm.heapBlocks_ (heapBlockManager_ (shadowMemory_ a)) !! Mor.dstAddr f) as [b|].
  - subst size. unfold gm_ranges. rewrite Hrt. unfold BoundsCheck.Remove. rewrite Hl. simpl.
    destruct (Bounds.Remove l _ _). simpl. by rewrite lookup_insert_eq.
  - subst msg. by apply Herr.
Qed.

(** C19: the life of a device allocation. After the malloc of a fresh block
    every address of it has the default permission in the runtime table, which
    is the one in use; after its free no address of it is permitted, so a later
    access is illegal; and a second free is notified as an illegal free. *)
Theorem allocation_lifecycle env rt dfx r f a l :
  asan_ok a → device_op MALLOC r → device_op FREE f → Mor.dstAddr f = Mor.dstAddr r →
  gm_ranges a l → Bounds.ranges_ok l → rt_blocks a !! Mor.dstAddr r = None → msgFunc_ a = MSG_REGISTERED →
  let inside x := Mor.dstAddr r <= x < Mor.dstAddr r + Mor.memSize r in
  ∃ a1 l1 a2 l2 a3 n,
    (do_host_record env rt dfx r a = Some a1 ∧ gm_ranges a1 l1 ∧ boundsCheckScope_ a1 = RUNTIME ∧
     ∀ x, inside x → Bounds.perm_at l1 x = Some Bounds.DEFAULT_PERMISSION) ∧
    (do_host_record env rt dfx f a1 = Some a2 ∧ gm_ranges a2 l2 ∧ boundsCheckScope_ a2 = RUNTIME ∧
     ∀ x, inside x → Bounds.perm_at l2 x = None) ∧
    (do_host_record env rt dfx f a2 = Some a3 ∧ n ∈ sent a3 ∧
     ∃ e, n = NReport LV_ERROR (single e) ∧ Err.type e = ILLEGAL_FREE ∧
          Aux.badAddr (Err.auxData e) = Mor.dstAddr r).
Proof.
  intros Ha Hr Hf Haddr Hl Hok Hnone Hreg inside. pose proof (do_ok _ _ Hr) as Hrec. unfold rec_ok in Hrec.
  rewrite (do_type _ _ Hr) in Hrec. destruct Hrec as (Hu & Hn & Hreach).
  pose proof (reach_no_overflow _ _ Hreach) as Hov.
  destruct (Bounds.Add_spec l (Mor.dstAddr r) (Mor.memSize r) Bounds.DEFAULT_PERMISSION) as [Hok1 Hp1]; [done..|].
  destruct (malloc_record env rt dfx r a l) as (a1 & l1 & H1 & Ha1 & Hs1 & Hm1 & _ & Hl1 & -> & Hb1); [done..|].
  destruct (free_record env rt dfx f a1 _ Ha1 Hf Hl1) as (a2 & errs & H2 & Ha2 & Hs2 & Hm2 & _ & Hb2 & Hl2).
  rewrite Hb1, Haddr, lookup_insert_eq in Hl2. simpl in Hl2.
  destruct (free_record env rt dfx f a2 _ Ha2 Hf Hl2) as (a3 & errs3 & H3 & _ & _ & _ & Hsent & _ & He).
  rewrite Hb2, lookup_delete_eq in He. destruct He as (e & Hin & Hty & Hbad).
  rewrite Hm2, Hm1, Hreg in Hsent.
  destruct (Bounds.Remove_spec _ (Mor.dstAddr r) (Mor.memSize r) Hok1 Hu Hn Hov) as [_ Hp2].
  eexists a1, _, a2, _, a3, _. split; [|split].
  - split; [done|]. split; [done|]. split; [done|]. intros x Hx. rewrite Hp1. unfold Bounds.inside.
    by rewrite (proj2 (Z.leb_le _ _)), (proj2 (Z.ltb_lt _ _)) by (unfold inside in Hx; lia).
  - split; [done|]. split; [done|]. split; [done|]. intros x Hx. rewrite Hp2. unfold Bounds.inside.
    by rewrite (proj2 (Z.leb_le _ _)), (proj2 (Z.ltb_lt _ _)) by (unfold inside in Hx; lia).
  - split; [done|]. split; [rewrite Hsent; apply elem_of_app; right; by apply (list_elem_of_fmap_2 _ _ e)|].
    exists e. split; [by rewrite Hty|]. split; [done|congruence].
Qed.
End sanitizer.
