(* ===== verification/AsanReports.v ===== *)
(** From the first device to the end of the run:
    [SetDeviceInfo], [ReportAfterKernelFinish] and [Exit] of
    [csrc/address_sanitizer/address_sanitizer.cpp], with the notifications they
    send. *)
From stdpp Require Import base numbers list option gmap strings sorting.
From S2P Require Import Prelude.
From S2P Require Import ShadowWord.
From S2P Require Import Pm.
From S2P Require Import GmPm.
From S2P Require Import ShadowMap.
From S2P Require Import RecordDefs.
From S2P Require Import Platform.
From S2P Require Import HeapBlockManager.
From S2P Require Import ErrorBuffer.
From S2P Require Import ShadowMemory.
From S2P Require Import ShadowMemoryProofs.
From S2P Require Import ShadowTheorems.
From S2P Require Import BoundsCheck.
From S2P Require Import EventDef.
From S2P Require Import Convert.
From S2P Require Import AsanAction.
From S2P Require Import AddressSanitizer.
From S2P Require Import AsanProofs.
From S2P Require Import AsanTheorems.
Import Shm ASan.

Section reports.
Context `{!Securec} `{!Replayer}.

(** ** The report of a kernel *)

Lemma sent_reports (f : MsgFunc) (l : list notification) config (buf : ErrBuf.ErrorBuffer) n :
  n ∈ match f with
      | MSG_REGISTERED => l ++ ((λ r, NReport (GetNotifyLv (Err.type (ErrBuf.errorMsg r))) r) <$>
                                filter (λ r, skipped config r = false) (ErrBuf.GetBuffer buf))
      | _ => l
      end ↔
  n ∈ l ∨ (f = MSG_REGISTERED ∧ ∃ r, r ∈ buf ∧ skipped config r = false ∧
             n = NReport (GetNotifyLv (Err.type (ErrBuf.errorMsg r))) r).
Proof.
  destruct f; [naive_solver| |naive_solver]. rewrite elem_of_app, list_elem_of_fmap.
  unfold ErrBuf.GetBuffer. setoid_rewrite list_elem_of_filter. setoid_rewrite merge_sort_Permutation.
  naive_solver.
Qed.

Lemma ReportAfterKernelFinish_spec c a :
  msgFunc_ a ≠ MSG_NULL →
  ∃ c' a', ReportAfterKernelFinish c a = Some (c', a') ∧ errorBuffer_ a' = [] ∧
    (AlignChecker.registered c = true → AlignChecker.errorBuffer_ c' = []) ∧
    ∀ n, n ∈ sent a' ↔
      n ∈ sent a ∨
      (msgFunc_ a = MSG_REGISTERED ∧ ∃ r, r ∈ errorBuffer_ a ∧ skipped (config_ a) r = false ∧
         n = NReport (GetNotifyLv (Err.type (ErrBuf.errorMsg r))) r) ∨
      (AlignChecker.registered c = true ∧ ∃ r, r ∈ AlignChecker.errorBuffer_ c ∧ n = NReport LV_ERROR r).
Proof.
  intros Hf. unfold ReportAfterKernelFinish, ReportErrorMsg. rewrite notify_all_spec by done.
  cbn [mbind option_bind]. unfold AlignChecker.Notify.
  destruct (AlignChecker.registered c); simpl; eexists _, _; (split; [done|]); simpl; (split; [done|]);
    (split; [done|]); intros n; rewrite elem_of_app.
  - assert (n ∈ NReport LV_ERROR <$> ErrBuf.GetBuffer (AlignChecker.errorBuffer_ c) ↔
      ∃ r, r ∈ AlignChecker.errorBuffer_ c ∧ n = NReport LV_ERROR r) as ->.
    { rewrite list_elem_of_fmap. unfold ErrBuf.GetBuffer. setoid_rewrite merge_sort_Permutation. naive_solver. }
    rewrite sent_reports. naive_solver.
  - rewrite sent_reports. set_solver.
Qed.

Lemma Add_reports buf es e :
  e ∈ es → ErrBuf.kept e = true → ∃ r, r ∈ foldl ErrBuf.Add buf es ∧ ErrBuf.reports r e.
Proof.
  revert buf. unfold ErrBuf.kept. induction es as [|f es IH]; intros buf Hin Hk; [set_solver|]. simpl.
  apply elem_of_cons in Hin as [<-|Hin]; [|by apply IH].
  apply negb_true_iff in Hk. unfold ErrBuf.Add at 2. rewrite Hk.
  destruct (ErrBuf.insert_or_extend_reports e buf) as (r & ? & ?). by eapply ErrBuf.foldl_Add_keeps.
Qed.

(** Equal errors have the same type. *)
Lemma reports_type r e :
  ErrBuf.reports r e → Err.isError e = true → Err.type (ErrBuf.errorMsg r) = Err.type e.
Proof.
  intros [Hk _] He. unfold ErrBuf.err_key in Hk. rewrite He in Hk.
  destruct (Err.isError (ErrBuf.errorMsg r)); [|done]. by simplify_eq.
Qed.

(** C4: every illegal access of a kernel reaches the user. Handling the
    kernel's loads and stores and then its end sends, for each access with an
    address that is neither permitted nor granted by a peer, an error
    notification whose entry equals the access's report and lists its core; the
    buffer is empty for the next kernel. *)
Theorem illegal_access_notified env rt dfx rs c a :
  asan_ok a → boundsCheckScope_ a ≠ SCOPE_BYPASS → memCheck (config_ a) = true →
  msgFunc_ a = MSG_REGISTERED → Forall (has_access (active a)) rs →
  ∃ a1 c2 a2, DoMemOpRecords env rt dfx rs a = Some a1 ∧
    ReportAfterKernelFinish c a1 = Some (c2, a2) ∧ errorBuffer_ a2 = [] ∧
    ∀ r x, r ∈ rs → kernel_access (active a) r x → illegal env (active_ptr rt dfx a) (active a) r x →
      ∃ red e, NReport LV_ERROR red ∈ sent a2 ∧ report_of r x e ∧ ErrBuf.reports red e.
Proof.
  intros Ha Hsc Hm Hreg Hrs.
  assert (bc_ok (active a)) as Hb by (unfold active; destruct Ha; by destruct (boundsCheckScope_ a)).
  destruct (access_records env rt dfx rs a Ha Hsc Hrs) as (a1 & errs & Hdo & Hc1 & Hm1 & Hbuf & He).
  destruct (ReportAfterKernelFinish_spec c a1) as (c2 & a2 & Hrep & Hempty & _ & Hsent); [by rewrite Hm1, Hreg|].
  exists a1, c2, a2. split; [done|]. split; [done|]. split; [done|]. intros r x Hr Hk Hill.
  destruct (bounds_errors_exact env (active_ptr rt dfx a) (config_ a) _ r x Hb Hk Hm) as [(e & Hin & Hre) _];
    [done|]. pose proof Hre as (Ht & Hie & _ & Hbad & _).
  assert (Htype : Err.type e = ILLEGAL_ADDR_READ ∨ Err.type e = ILLEGAL_ADDR_WRITE).
  { rewrite Ht. unfold illegal_type. case_bool_decide; tauto. }
  destruct (kernel_access_u64 _ _ _ Hk) as [_ Hn].
  assert (0 < bad_bytes r x) by (apply Bounds.unpermitted_pos; [apply Hn|apply Hill]).
  destruct (Add_reports (errorBuffer_ a) errs e) as (red & Hred & Hreds); [apply He; eauto| |].
  { unfold ErrBuf.kept. rewrite Hbad. by rewrite (proj2 (Z.eqb_neq _ _)), andb_false_r by lia. }
  exists red, e. split; [|done]. apply Hsent. right. left. split; [by rewrite Hm1|]. exists red.
  rewrite Hbuf. split; [done|]. pose proof (reports_type _ _ Hreds Hie) as Hty. unfold skipped. rewrite Hty.
  split; [|by destruct Htype as [-> | ->] ].
  rewrite (bool_decide_false (Err.type e = UNINITIALIZED_READ)) by (destruct Htype; congruence).
  by rewrite andb_false_r.
Qed.

(** ** The end of the run *)

Lemma CheckUnusedHeap_total s : shadow_ok s →
  ∃ s' msgs, CheckUnusedHeap s = Some (s', msgs) ∧ same_memory s s'.
Proof.
  intros [Hs Hh _]. destruct (check_unused_blocks_spec (ordered (Hbm.heapBlocks_ (heapBlockManager_ s))) s)
    as (s' & msgs & ? & ? & _); [done| |by exists s', msgs].
  apply Forall_forall. intros [k b] Hin. apply elem_of_ordered in Hin.
  destruct (ha_rt _ _ Hh _ _ Hin) as [Hk Hreach]. simpl. unfold block_in_reach. rewrite Hk.
  destruct Hreach as (? & ? & ?). by unfold gm_limit in *.
Qed.

(** [Exit] always completes and leaves no notification function in the
    sanitizer, and the alignment checker is unregistered exactly when no leak
    was reported: after a leak report the guard at the end of [Exit] finds the
    function already dropped and skips the alignment checker. *)
Theorem exit_outcome c a :
  asan_ok a →
  ∃ c' a', Exit c a = Some (c', a') ∧ msgFunc_ a' = MSG_NULL ∧
    AlignChecker.registered c' =
      if leakCheck (config_ a) && negb (bool_decide (DoLeakCheck (shadowMemory_ a) = []))
      then AlignChecker.registered c else false.
Proof.
  intros Ha. unfold Exit.
  assert (∃ a1, (if memCheck (config_ a) && checkUnusedMemory (config_ a) then SummaryUnusedHeapCheck a
    else Some a) = Some a1 ∧ msgFunc_ a1 ≠ MSG_NULL ∧ config_ a1 = config_ a ∧
    DoLeakCheck (shadowMemory_ a1) = DoLeakCheck (shadowMemory_ a)) as (a1 & -> & Hf1 & Hc1 & Hl1).
  { case_match; [|exists a; by destruct Ha]. unfold SummaryUnusedHeapCheck.
    destruct (CheckUnusedHeap_total (shadowMemory_ a) (ao_shadow _ Ha)) as (s' & msgs & -> & Hsame).
    cbn [mbind option_bind]. pose proof (ao_func _ Ha) as Hf.
    assert (DoLeakCheck s' = DoLeakCheck (shadowMemory_ a)) by (by rewrite Hsame).
    simpl. destruct (msgFunc_ a) eqn:Em; [| |done];
      (case_match; [rewrite notify_spec by (simpl; congruence)|]); eexists; (split; [done|]); simpl;
      rewrite ?Em; done. }
  cbn [mbind option_bind]. rewrite Hc1. destruct (leakCheck (config_ a)); simpl.
  - unfold SummaryLeakCheck. rewrite Hl1. destruct (DoLeakCheck (shadowMemory_ a)) as [|m ms].
    + rewrite bool_decide_true by done. cbn [mbind option_bind]. destruct (msgFunc_ a1); [| |done]; by eexists _, _.
    + rewrite bool_decide_false by done. destruct (msgFunc_ a1) eqn:Em; [| |done];
        rewrite notify_spec by congruence; by eexists _, _.
  - destruct (msgFunc_ a1); [| |done]; by eexists _, _.
Qed.

(** ** Setting the device *)

Lemma unions_ok c b : chip_fits c → bc_ok b → bc_ok (BoundsCheck.Init b c).
Proof.
  intros Hc Hb. destruct (chip_fits_all c Hc) as [(? & ? & ?) (? & ? & ?)].
  assert (Hu : ∀ n, 0 <= n <= 16777216 →
    BoundsCheck.bounds_ok (BoundsCheck.UnionBounds (Bounds.new_UnionBounds 0 n))).
  { intros n Hn. unfold BoundsCheck.bounds_ok, Bounds.new_UnionBounds, Bounds.ranges_ok. simpl. u64_simpl. lia. }
  unfold BoundsCheck.Init, bc_ok. simpl. case_match;
    repeat (apply map_Forall_insert_2; [by apply Hu|]); done.
Qed.

Lemma SetDeviceInfo_spec p self rt dfx pid info config r0 f c env record :
  f ≠ MSG_NULL →
  let new := upd_msg f [] (new_AddressSanitizer config r0) in
  let '(p', c', a, ok) := SetDeviceInfo p self rt dfx pid info config c new in
  match find_chip (device info) with
  | Some _ => ok = true ∧ AlignChecker.deviceType_ c' = device info ∧ asan_ok a ∧ IsReady (shadowMemory_ a) = true ∧ boundsCheckScope_ a = RUNTIME ∧
              mstxHeapCacheMap_ a = ∅ ∧ config_ a = config ∧ gm_ranges a []
  | None => ok = false ∧ c' = c ∧ CheckRecordBeforeProcess env rt dfx record a = Some (a, false)
  end.
Proof.
  intros Hf new. unfold SetDeviceInfo. destruct (find_chip (device info)) as [chip|] eqn:Ec; [|done].
  pose proof (find_chip_fits _ _ Ec) as Hfit.
  destruct (Init_ok (shadowMemory_ new) (device info) chip) as [Hok Hready]; [by apply GmPM.new_GmPM_ok|done|].
  assert (bc_ok (BoundsCheck.new_BoundsCheck false)) as Hb.
  { unfold bc_ok. simpl. by apply map_Forall_singleton. }
  destruct (Init (shadowMemory_ new) (device info) chip) as [s ready] eqn:Ei. simpl in Hready, Hok.
  subst. split; [done|]. split; [done|]. split.
  - split; simpl; [|by apply unions_ok..|done]. injection Ei as <-. split; [done|apply empty_all|apply empty_all].
  - injection Ei as <-. done.
Qed.
(** Choosing a device establishes the invariant every other theorem
    starts from. For a device with a chip description, [SetDeviceInfo] on a new
    object succeeds with all tables ready; for any other it fails and the object
    keeps refusing records. *)
Theorem device_setup p self rt dfx pid info config r0 f c env record :
  f ≠ MSG_NULL →
  let new := upd_msg f [] (new_AddressSanitizer config r0) in
  let '(p', c', a, ok) := SetDeviceInfo p self rt dfx pid info config c new in
  match find_chip (device info) with
  | Some _ => ok = true ∧ AlignChecker.deviceType_ c' = device info ∧ asan_ok a ∧ IsReady (shadowMemory_ a) = true ∧ boundsCheckScope_ a = RUNTIME ∧
              mstxHeapCacheMap_ a = ∅ ∧ config_ a = config ∧ gm_ranges a []
  | None => ok = false ∧ c' = c ∧ CheckRecordBeforeProcess env rt dfx record a = Some (a, false)
  end.
Proof. apply SetDeviceInfo_spec. Qed.
End reports.

(** ** Witnesses *)

(** A replayer that releases every memory event at once. *)
#[global] Instance fifo_replayer : Replayer := {
  rstate := unit;
  r_Init _ _ _ := tt;
  r_Do s e := (s, match eventInfo e with MemInfo _ => [e] | _ => [] end);
  r_IsFinished _ := true;
}.

Definition demo_r0 : @rstate fifo_replayer := tt.

Definition demo_config : Config :=
  {| defaultCheck := false; memCheck := true; raceCheck := false; initCheck := false; syncCheck := false;
     registerCheck := false; checkDeviceHeap := false; checkCannHeap := false; leakCheck := true;
     checkUnusedMemory := true; checkCrossNpuRaces := false; checkDcci := false; isPrintFullStack := false;
     outOfBoundCheck := true; traceNonDefaultSprReg := false; checkBlockId := 0; cacheSize := 100;
     demangleMode := FULL_DEMANGLED_NAME; pluginPath := ""; kernelName := ""; dumpPath := "";
     gmBufferGuardSize := 0 |}.

Definition demo_env : Asan.Env :=
  {| Asan.peers := Peer.empty_manager; Asan.gm_range_ok _ _ _ _ := false; Asan.initcheckMask := 0 |}.
Definition demo_device : DeviceInfoSummary := {| device := ASCEND_910B4; info_deviceId := 0 |}.
Definition demo_align : AlignChecker.AlignChecker :=
  {| AlignChecker.registered := true; AlignChecker.errorBuffer_ := [];
     AlignChecker.deviceType_ := ASCEND_910B4 |}.
Definition demo_asan : AddressSanitizer :=
  (SetDeviceInfo Peer.empty_manager 10 11 12 7 demo_device demo_config demo_align
     (upd_msg MSG_REGISTERED [] (new_AddressSanitizer demo_config demo_r0))).1.2.

Lemma demo_asan_ok :
  asan_ok demo_asan ∧ boundsCheckScope_ demo_asan = RUNTIME ∧ mstxHeapCacheMap_ demo_asan = ∅ ∧
  gm_ranges demo_asan [].
Proof.
  destruct (SetDeviceInfo_spec (H := securec_ref) Peer.empty_manager 10 11 12 7 demo_device demo_config demo_r0 MSG_REGISTERED demo_align demo_env
    IPC_RECORD ltac:(done)) as (_ & _ & ? & _ & ? & ? & _ & ?). done.
Qed.

(** Records of the host: a heap registered by the framework, a device malloc. *)
Definition demo_record (t : MemOpType) (src : MemInfoSrc) (addr size : Z) : MemOpRecord :=
  Mor.set_type t (Mor.set_infoSrc src (Mor.set_dstSpace GM (Mor.set_dstAddr addr (Mor.set_memSize size Mor.zero)))).

Lemma demo_malloc_ok src : rec_ok (demo_record MALLOC src 4096 512).
Proof. unfold rec_ok, reach, is_u64, gm_limit. simpl. lia. Qed.
Lemma demo_free_ok src : rec_ok (demo_record FREE src 4096 0).
Proof. unfold rec_ok, reach, gm_limit. simpl. lia. Qed.
Lemma demo_access_ok t : t = LOAD ∨ t = STORE →
  kernel_access (active demo_asan) (demo_record t RT 4096 8) (BoundsCheck.DiscreteBounds []).
Proof.
  intros Ht. assert (end_ok GM 4096 8).
  { unfold end_ok, is_u64, gm_limit. split; [lia|]. split; [lia|]. intros _. split; [lia|by vm_compute]. }
  split; [done| |done..]. by destruct Ht as [-> | ->].
Qed.

Lemma sanitizer_runs_safely_witness :
  ∃ a', handle_all (H := securec_ref) demo_env 11 12
    [IRecord (MEMORY_RECORD (demo_record MALLOC RT 4096 512));
     IPermission {| p_addr := 4096; p_size := 64; p_flags := 1 |};
     IKernel [demo_record LOAD RT 4096 8; demo_record STORE RT 4096 8];
     IRecord (MEMORY_RECORD (demo_record FREE RT 4096 0))] demo_asan = Some a' ∧ asan_ok a' ∧
    boundsCheckScope_ a' ≠ SCOPE_BYPASS.
Proof.
  destruct demo_asan_ok as (Hok & Hs & _). apply (sanitizer_runs_safely (H := securec_ref)); [done|by rewrite Hs|].
  apply Forall_cons_2; [apply demo_malloc_ok|]. apply Forall_cons_2; [unfold input_ok, is_u64; simpl; lia|].
  apply Forall_cons_2; [|apply Forall_cons_2; [apply demo_free_ok|done] ].
  repeat apply Forall_cons_2; [apply (ka_ok _ _ _ (demo_access_ok LOAD ltac:(by left)))|
    apply (ka_ok _ _ _ (demo_access_ok STORE ltac:(by right)))|done].
Defined.

Lemma scope_machine_refined_witness :
  ∃ a', host_run (H := securec_ref) demo_env 11 12
      [demo_record MALLOC MSTX_HEAP 4096 512; demo_record MALLOC EXTRA 4096 512;
       demo_record FREE MSTX_HEAP 4096 0; demo_record MALLOC MANUAL 4096 512] demo_asan = Some a' ∧
    boundsCheckScope_ a' = DFX.
Proof.
  destruct demo_asan_ok as (Hok & Hs & Hc & _).
  destruct (scope_machine_refined (H := securec_ref) demo_env 11 12
      [demo_record MALLOC MSTX_HEAP 4096 512; demo_record MALLOC EXTRA 4096 512;
       demo_record FREE MSTX_HEAP 4096 0; demo_record MALLOC MANUAL 4096 512] demo_asan) as (a' & Hrun & Hsc & _);
    [done| |done|done|].
  { repeat apply Forall_cons_2; try apply demo_malloc_ok; [apply demo_free_ok|done]. }
  exists a'. split; [done|]. rewrite Hsc. done.
Defined.

Lemma demo_illegal :
  illegal demo_env 11 (active demo_asan) (demo_record STORE RT 4096 8) (BoundsCheck.DiscreteBounds []).
Proof. split; [|done]. exists 4096. simpl. split; [lia|done]. Qed.

Lemma illegal_access_exact_witness :
  ∃ a' errs e, DoMemOpRecords (H := securec_ref) demo_env 11 12 [demo_record STORE RT 4096 8] demo_asan = Some a' ∧
    errorBuffer_ a' = foldl ErrBuf.Add (errorBuffer_ demo_asan) errs ∧ e ∈ errs ∧
    report_of (demo_record STORE RT 4096 8) (BoundsCheck.DiscreteBounds []) e.
Proof.
  destruct demo_asan_ok as (Hok & Hs & _). pose proof (demo_access_ok STORE ltac:(by right)) as Hk.
  destruct (illegal_access_exact (H := securec_ref) demo_env 11 12 [demo_record STORE RT 4096 8] demo_asan)
    as (a' & errs & Hdo & Hbuf & Hex & _); [done|by rewrite Hs|done|by apply Forall_cons_2; [eexists|]|].
  destruct (Hex _ _ ltac:(by left) Hk demo_illegal) as (e & ? & ?). exists a', errs, e. tauto.
Defined.

Lemma illegal_access_notified_witness :
  let c := demo_align in
  ∃ a1 c2 a2 red, DoMemOpRecords (H := securec_ref) demo_env 11 12 [demo_record STORE RT 4096 8] demo_asan = Some a1 ∧
    ReportAfterKernelFinish c a1 = Some (c2, a2) ∧ NReport LV_ERROR red ∈ sent a2.
Proof.
  intros c. destruct demo_asan_ok as (Hok & Hs & _). pose proof (demo_access_ok STORE ltac:(by right)) as Hk.
  destruct (illegal_access_notified (H := securec_ref) demo_env 11 12 [demo_record STORE RT 4096 8] c demo_asan)
    as (a1 & c2 & a2 & Hdo & Hrep & _ & Hex); [done|by rewrite Hs|done|done|by apply Forall_cons_2; [eexists|]|].
  destruct (Hex _ _ ltac:(by left) Hk demo_illegal) as (red & e & ? & _). exists a1, c2, a2, red. tauto.
Defined.

Lemma allocation_lifecycle_witness :
  ∃ a1 l1, do_host_record (H := securec_ref) demo_env 11 12 (demo_record MALLOC RT 4096 512) demo_asan = Some a1 ∧
    gm_ranges a1 l1 ∧ Bounds.perm_at l1 4100 = Some Bounds.DEFAULT_PERMISSION.
Proof.
  destruct demo_asan_ok as (Hok & _ & _ & Hl).
  destruct (allocation_lifecycle (H := securec_ref) demo_env 11 12 (demo_record MALLOC RT 4096 512)
    (demo_record FREE RT 4096 0) demo_asan []) as (a1 & l1 & _ & _ & _ & _ & (Hdo & Hg & _ & Hp) & _);
    [done|split; [done|apply demo_malloc_ok|done|done]|split; [done|apply demo_free_ok|done|done]|done|done|
     done|done|done|].
  exists a1, l1. split; [done|]. split; [done|]. apply Hp. simpl. lia.
Defined.

Lemma exit_outcome_witness :
  let c := demo_align in
  ∃ c' a', Exit (H := securec_ref) c demo_asan = Some (c', a') ∧ AlignChecker.registered c' = false.
Proof.
  intros c. destruct demo_asan_ok as (Hok & _).
  destruct (exit_outcome (H := securec_ref) c demo_asan Hok) as (c' & a' & He & _ & Hr).
  exists c', a'. split; [done|]. by rewrite Hr.
Defined.

Lemma device_setup_witness :
  let '(p', _, a, ok) := SetDeviceInfo Peer.empty_manager 10 11 12 7 demo_device demo_config demo_align
    (upd_msg MSG_REGISTERED [] (new_AddressSanitizer demo_config demo_r0)) in ok = true ∧ asan_ok a.
Proof.
  pose proof (device_setup (H := securec_ref) Peer.empty_manager 10 11 12 7 demo_device demo_config demo_r0 MSG_REGISTERED
    demo_align demo_env IPC_RECORD ltac:(done)) as H. simpl in H. destruct H as (? & _ & ? & _). done.
Defined.
