(* ===== verification/PeerTheorems.v ===== *)
(** What the peer-access register promises:
    [csrc/core/framework/peer_access_manager.cpp].

    The nested maps implement a relation "device may access device" per process
    and a set of live checkers. *)
From stdpp Require Import base numbers list option gmap.
From S2P Require Import Prelude.
From S2P Require Import RecordDefs.
From S2P Require Import AsanAction.
Import Peer.

(** Device [d] of process [pid] may access the memory of device [q]. *)
Definition granted (p : PeerAccessManager) (pid d q : Z) : Prop :=
  q ∈ default ∅ (relations (process_of p pid) !! d).

Definition checker_of (p : PeerAccessManager) (pid q : Z) : option Z := devices (process_of p pid) !! q.

Lemma process_of_put p pid r pid' :
  process_of (put_relations p pid r) pid' =
    if decide (pid' = pid) then {| relations := r; devices := devices (process_of p pid) |}
    else process_of p pid'.
Proof.
  unfold process_of at 1, put_relations. simpl. case_decide.
  - subst. by rewrite lookup_insert_eq.
  - by rewrite lookup_insert_ne by done.
Qed.

(** The records [Apply] accepts. *)
Definition accepted (pid : Z) (r : PeerAccessRecord) : bool :=
  (0 <=? pid) && (0 <=? deviceId r) &&
  match operation r with
  | ENABLE | DISABLE => (0 <=? peerDeviceId r) && negb (peerDeviceId r =? deviceId r)
  | RESET => peerDeviceId r =? -1
  end.

(** What an accepted record does to the relation. *)
Definition relation_after (r : PeerAccessRecord) (rel : Z → Z → Prop) (d q : Z) : Prop :=
  match operation r with
  | ENABLE => rel d q ∨ (d = deviceId r ∧ q = peerDeviceId r)
  | DISABLE => rel d q ∧ ¬ (d = deviceId r ∧ q = peerDeviceId r)
  | RESET => rel d q ∧ d ≠ deviceId r ∧ q ≠ deviceId r
  end.

Lemma forget_device_spec dev rel d q :
  q ∈ default ∅ (forget_device dev rel !! d) ↔ q ∈ default ∅ (rel !! d) ∧ d ≠ dev ∧ q ≠ dev.
Proof.
  unfold forget_device. rewrite lookup_fmap. destruct (decide (d = dev)) as [->|].
  - rewrite lookup_delete_eq. simpl. set_solver.
  - rewrite lookup_delete_ne by done. destruct (rel !! d); simpl; set_solver.
Qed.

Lemma update_peers_spec (rel : gmap Z (gset Z)) dev s d q :
  q ∈ default ∅ (<[dev := s]> rel !! d) ↔ if decide (d = dev) then q ∈ s else q ∈ default ∅ (rel !! d).
Proof.
  case_decide; [subst; by rewrite lookup_insert_eq|by rewrite lookup_insert_ne].
Qed.

Lemma put_relations_granted p pid r pid' d q :
  granted (put_relations p pid r) pid' d q ↔
    if decide (pid' = pid) then q ∈ default ∅ (r !! d) else granted p pid' d q.
Proof. unfold granted. rewrite process_of_put. by case_decide. Qed.

Lemma put_relations_checkers p pid r pid' q :
  checker_of (put_relations p pid r) pid' q = checker_of p pid' q.
Proof. unfold checker_of. rewrite process_of_put. case_decide; by subst. Qed.

(** One entry of the relation of a process. *)
Lemma put_peers_granted p pid dev s pid' d q :
  granted (put_relations p pid (<[dev := s]> (relations (process_of p pid)))) pid' d q ↔
    if decide (pid' = pid ∧ d = dev) then q ∈ s else granted p pid' d q.
Proof.
  rewrite put_relations_granted. destruct (decide (pid' = pid)) as [->|].
  - rewrite update_peers_spec. destruct (decide (d = dev)) as [->|].
    + by rewrite decide_True.
    + rewrite decide_False by naive_solver. reflexivity.
  - by rewrite decide_False by naive_solver.
Qed.

Definition exact_update (p : PeerAccessManager) (pid : Z) (r : PeerAccessRecord)
    (p' : PeerAccessManager) (ok : bool) : Prop :=
  sources_ p' = sources_ p ∧
  (∀ pid' q, checker_of p' pid' q = checker_of p pid' q) ∧
  (∀ pid' d q, granted p' pid' d q ↔
     if decide (pid' = pid ∧ ok = true) then relation_after r (granted p pid) d q else granted p pid' d q).

Lemma rejected_update p pid r : exact_update p pid r (put_relations p pid (relations (process_of p pid))) false.
Proof.
  split; [done|]. split; [intros; apply put_relations_checkers|]. intros pid' d q.
  rewrite put_relations_granted, (decide_False (P := pid' = pid ∧ _)) by naive_solver.
  case_decide; [subst|]; reflexivity.
Qed.

Lemma peers_update p pid r s :
  (∀ q, q ∈ s ↔ relation_after r (granted p pid) (deviceId r) q) → operation r ≠ RESET →
  exact_update p pid r (put_relations p pid (<[deviceId r := s]> (relations (process_of p pid)))) true.
Proof.
  intros Hs Hop. split; [done|]. split; [intros; apply put_relations_checkers|]. intros pid' d q.
  rewrite put_peers_granted. destruct (decide (pid' = pid)) as [->|].
  - rewrite (decide_True (P := pid = pid ∧ true = true)) by done. case_decide as Hd; [destruct Hd as [_ ->]; apply Hs|].
    unfold relation_after. destruct (operation r); [|tauto..]. naive_solver.
  - by rewrite !decide_False by naive_solver.
Qed.

Lemma peer_apply_frame p pid r :
  sources_ (Apply p pid r).1 = sources_ p ∧
  ∀ pid' q, checker_of (Apply p pid r).1 pid' q = checker_of p pid' q.
Proof.
  unfold Apply. repeat (case_match; simpl); (split; [done|]); intros; done || apply put_relations_checkers.
Qed.

(** [Apply] updates the relation exactly. It accepts a record when the
    process and device are valid and the peer fits the operation; an accepted
    ENABLE adds the one pair, DISABLE removes the one pair, RESET removes every
    pair that mentions the device on either side; the pairs of other processes,
    rejected records and the registered checkers change nothing. *)
Theorem peer_apply_exact p pid r :
  let '(p', ok) := Apply p pid r in
  ok = accepted pid r ∧ sources_ p' = sources_ p ∧
  (∀ pid' q, checker_of p' pid' q = checker_of p pid' q) ∧
  (∀ pid' d q, granted p' pid' d q ↔
     if decide (pid' = pid ∧ ok = true) then relation_after r (granted p pid) d q else granted p pid' d q).
Proof.
  unfold Apply, accepted. pose proof (rejected_update p pid r) as Hrej.
  destruct (Z.ltb_spec pid 0), (Z.ltb_spec (deviceId r) 0), (Z.leb_spec 0 pid), (Z.leb_spec 0 (deviceId r));
    try lia; simpl;
    try (split; [done|]; split; [done|]; split; [done|]; intros; rewrite decide_False by naive_solver; done).
  destruct (operation r) eqn:Hop; simpl.
  - destruct (Z.ltb_spec (peerDeviceId r) 0), (Z.leb_spec 0 (peerDeviceId r)),
      (Z.eqb_spec (peerDeviceId r) (deviceId r)); try lia; simpl; try (by split).
    split; [done|]. apply peers_update; [|by rewrite Hop]. intros q. unfold relation_after, granted.
    rewrite Hop. set_solver.
  - destruct (Z.ltb_spec (peerDeviceId r) 0), (Z.leb_spec 0 (peerDeviceId r)),
      (Z.eqb_spec (peerDeviceId r) (deviceId r)); try lia; simpl; try (by split).
    split; [done|]. apply peers_update; [|by rewrite Hop]. intros q. unfold relation_after, granted.
    rewrite Hop. set_solver.
  - destruct (Z.eqb_spec (peerDeviceId r) (-1)); simpl; [|by split].
    split; [done|]. split; [done|]. split; [intros; apply put_relations_checkers|]. intros pid' d q.
    rewrite put_relations_granted. unfold relation_after. rewrite Hop.
    destruct (decide (pid' = pid)) as [->|].
    + rewrite forget_device_spec, decide_True by done. reflexivity.
    + rewrite decide_False by naive_solver. reflexivity.
Qed.

(** C36: a remote access is allowed exactly when the request is non-empty and
    does not leave the 64-bit space, the bounds table that asks belongs to a
    registered device, and some device that this one may access has a checker
    that knows the whole range with the needed permission. *)
Theorem remote_access_exact gm_range_ok p localBounds addr size t :
  is_u64 addr → is_u64 size →
  CheckRemote gm_range_ok p localBounds addr size t = true ↔
    size ≠ 0 ∧ addr + size < 2 ^ 64 ∧
    ∃ src q checker, sources_ p !! localBounds = Some src ∧
      granted p (src_pid src) (src_deviceId src) q ∧
      checker_of p (src_pid src) q = Some checker ∧ gm_range_ok checker addr size t = true.
Proof.
  intros Ha Hs. unfold CheckRemote, is_u64, UINT64_MAX, granted, checker_of, process_of in *. u64_simpl.
  destruct (Z.eqb_spec size 0); simpl; [naive_solver|].
  destruct (Z.ltb_spec (18446744073709551615 - size) addr); [split; [done|lia]|].
  destruct (sources_ p !! localBounds) as [src|]; [|naive_solver].
  destruct (processes_ p !! src_pid src) as [ps|] eqn:Ep.
  2: { split; [done|]. intros (_ & _ & src' & q & c & [= <-] & Hq & _). rewrite Ep in Hq. simpl in Hq. set_solver. }
  destruct (relations ps !! src_deviceId src) as [peers|] eqn:Er.
  2: { split; [done|]. intros (_ & _ & src' & q & c & [= <-] & Hq & _). rewrite Ep in Hq. simpl in Hq.
       rewrite Er in Hq. set_solver. }
  rewrite existsb_exists. split.
  - intros (q & Hq & Hx). split; [done|]. split; [lia|]. destruct (devices ps !! q) as [c|] eqn:Ed; [|done].
    exists src, q, c. rewrite Ep. simpl. rewrite Er. split; [done|]. split; [|done].
    by apply elem_of_elements, list_elem_of_In.
  - intros (_ & _ & src' & q & c & [= <-] & Hq & Hd & Hx). rewrite Ep in Hq, Hd. simpl in *. rewrite Er in Hq.
    exists q. split; [by apply list_elem_of_In, elem_of_elements|]. by rewrite Hd.
Qed.

(** ** No dangling checkers *)

Inductive peer_op :=
  | PApply (pid : Z) (r : PeerAccessRecord)
  | PRegister (pid dev sanitizer runtimeBounds dfxBounds : Z)
  | PUnregister (sanitizer : Z).

Definition peer_step (p : PeerAccessManager) (o : peer_op) : PeerAccessManager :=
  match o with
  | PApply pid r => (Apply p pid r).1
  | PRegister pid dev s rt dfx => RegisterDevice p pid dev s rt dfx
  | PUnregister s => UnregisterDevice p s
  end.

(** The checkers registered since they were last unregistered. *)
Definition live_checkers (l : gset Z) (o : peer_op) : gset Z :=
  match o with PApply _ _ => l | PRegister _ _ s _ _ => {[ s ]} ∪ l | PUnregister s => l ∖ {[ s ]} end.

Record refers_only (l : gset Z) (p : PeerAccessManager) : Prop := {
  ro_sources b src : sources_ p !! b = Some src → src_sanitizer src ∈ l;
  ro_devices pid q c : checker_of p pid q = Some c → c ∈ l;
}.

Lemma peer_step_refers l p o : refers_only l p → refers_only (live_checkers l o) (peer_step p o).
Proof.
  intros [Hs Hd]. destruct o as [pid r|pid dev s rt dfx|s]; simpl.
  - pose proof (peer_apply_frame p pid r) as [Hso Hch]. split; [by rewrite Hso|].
    intros pid' q c. rewrite Hch. apply Hd.
  - unfold RegisterDevice. case_match; [split; set_solver|]. split; simpl.
    + intros b src. rewrite !lookup_insert_Some. intros [ [_ <-]|[_ [ [_ <-]|[_ ?] ] ] ]; set_solver.
    + intros pid' q c. unfold checker_of, process_of. simpl. destruct (decide (pid' = pid)) as [->|].
      * rewrite lookup_insert_eq. simpl. rewrite lookup_insert_Some.
        intros [ [_ <-]|[_ Hc] ]; [set_solver|]. specialize (Hd pid q c Hc). set_solver.
      * rewrite lookup_insert_ne by done. intros Hc. specialize (Hd pid' q c Hc). set_solver.
  - split; simpl.
    + intros b src [Hb Hne]%map_lookup_filter_Some. specialize (Hs _ _ Hb). simpl in Hne. set_solver.
    + intros pid q c. unfold checker_of, process_of. simpl. rewrite lookup_fmap.
      specialize (Hd pid q c). unfold checker_of, process_of in Hd.
      destruct (processes_ p !! pid); simpl in *; [|by rewrite lookup_empty].
      intros [Hc Hne]%map_lookup_filter_Some. simpl in Hne. set_solver.
Qed.

(** The register never refers to a checker that was destroyed: after any
    history of peer records, registrations and unregistrations, every pointer
    in it, and so every pointer [CheckRemote] follows, is of a checker that was
    registered and not unregistered since. *)
Theorem peer_register_no_dangling ops :
  refers_only (foldl live_checkers ∅ ops) (foldl peer_step empty_manager ops).
Proof.
  assert (Hgen : ∀ l p, refers_only l p → refers_only (foldl live_checkers l ops) (foldl peer_step p ops)).
  { induction ops as [|o ops IH]; intros l p Hp; simpl; [done|]. by apply IH, peer_step_refers. }
  apply Hgen. split; intros *; unfold checker_of, process_of; simpl; by rewrite !lookup_empty.
Qed.

(** *** Witness *)

Definition demo_peers : PeerAccessManager :=
  foldl peer_step empty_manager
    [PRegister 7 0 100 1 2; PRegister 7 1 200 3 4;
     PApply 7 {| deviceId := 0; peerDeviceId := 1; operation := ENABLE |}].

Lemma remote_access_exact_witness :
  let ok c a n (_ : AccessType) := (c =? 200) && (4096 <=? a) && (a + n <=? 8192) in
  CheckRemote ok demo_peers 1 4096 64 READ = true ∧ CheckRemote ok demo_peers 3 4096 64 READ = false.
Proof.
  intros ok. split; [|by vm_compute].
  apply (remote_access_exact ok demo_peers 1 4096 64 READ); [by vm_compute..|].
  split; [done|]. split; [done|]. by exists {| src_pid := 7; src_deviceId := 0; src_sanitizer := 100 |}, 1, 200.
Defined.
