(* ===== verification/VectorTimeProofs.v ===== *)
(** The stored entries of a vector time denote a function from pipe indices to
    times; every operation is characterised by its effect on that function. *)
From stdpp Require Import base numbers list option sorting sets.
From S2P Require Import Prelude.
From S2P Require Import VectorTime.
Import VT.

(** ** Sorted entry lists *)

(** The component [i] of the vector an entry list stands for. *)
Fixpoint den (l : list (Z * Z)) (i : Z) : Z :=
  match l with [] => 1 | e :: l' => if e.1 =? i then e.2 else den l' i end.

Definition key_lt (p q : Z * Z) : Prop := p.1 < q.1.
#[export] Instance key_lt_trans : Transitive key_lt.
Proof. intros p q r. unfold key_lt. lia. Qed.

Definition ok_entry (e : Z * Z) : Prop := is_u32 e.1 ∧ 1 < e.2 < 4294967296.

Definition ok (l : list (Z * Z)) : Prop := StronglySorted key_lt l ∧ Forall ok_entry l.

Lemma sorted_lookup l a b x y :
  StronglySorted key_lt l → l !! a = Some x → l !! b = Some y → (a < b)%nat → x.1 < y.1.
Proof.
  intros Hs Ha Hb Hab. rewrite <- (take_drop b l) in Hs.
  refine (StronglySorted_app_1_elem_of _ _ _ _ _ Hs _ _).
  - apply (list_elem_of_lookup_2 _ a). by rewrite lookup_take_lt by done.
  - apply (list_elem_of_lookup_2 _ 0). by rewrite lookup_drop, Nat.add_0_r.
Qed.

Lemma ok_app l1 l2 :
  ok (l1 ++ l2) ↔ (∀ x y, x ∈ l1 → y ∈ l2 → x.1 < y.1) ∧ ok l1 ∧ ok l2.
Proof. unfold ok. rewrite StronglySorted_app, Forall_app. unfold key_lt. naive_solver. Qed.

Lemma ok_cons e l : ok (e :: l) ↔ ok_entry e ∧ (∀ y, y ∈ l → e.1 < y.1) ∧ ok l.
Proof.
  unfold ok. rewrite StronglySorted_cons, Forall_cons, (Forall_forall (key_lt e)). unfold key_lt. naive_solver.
Qed.

Lemma ok_nil : ok [].
Proof. split; constructor. Qed.

Lemma ok_singleton e : ok_entry e → ok [e].
Proof. intros. apply ok_cons. split; [done|]. split; [|apply ok_nil]. set_solver. Qed.

Lemma ok_take l k : ok l → ok (take k l).
Proof. rewrite <- (take_drop k l) at 1. rewrite ok_app. tauto. Qed.

Lemma ok_drop l k : ok l → ok (drop k l).
Proof. rewrite <- (take_drop k l) at 1. rewrite ok_app. tauto. Qed.

Lemma den_app l1 l2 i : den (l1 ++ l2) i = if bool_decide (i ∈ l1.*1) then den l1 i else den l2 i.
Proof.
  induction l1 as [|e l1 IH]; [done|]. rewrite fmap_cons, <- app_comm_cons. cbn [den].
  destruct (Z.eqb_spec e.1 i) as [<-|Hne].
  - rewrite bool_decide_true by set_solver. done.
  - rewrite IH. repeat case_bool_decide; set_solver.
Qed.

Lemma den_notin l i : i ∉ l.*1 → den l i = 1.
Proof.
  induction l as [|e l IH]; simpl; intros Hi; [done|].
  destruct (Z.eqb_spec e.1 i); set_solver.
Qed.

Lemma den_elem l e : StronglySorted key_lt l → e ∈ l → den l e.1 = e.2.
Proof.
  induction l as [|x l IH]; simpl; intros Hs Hin; [set_solver|].
  apply StronglySorted_cons in Hs as [Hx Hs].
  apply elem_of_cons in Hin as [->|Hin]; [by rewrite Z.eqb_refl|].
  rewrite Forall_forall in Hx. pose proof (Hx _ Hin) as Hlt. unfold key_lt in Hlt.
  destruct (Z.eqb_spec x.1 e.1); [lia|auto].
Qed.

Lemma den_lookup l k e : ok l → l !! k = Some e → den l e.1 = e.2.
Proof. intros [Hs _] Hk. apply den_elem; [done|]. by eapply list_elem_of_lookup_2. Qed.

Lemma den_range l i : ok l → 1 <= den l i < 4294967296.
Proof.
  intros [_ Hf]. induction Hf as [|e l He Hf IH]; simpl; [lia|].
  destruct (e.1 =? i); [destruct He; lia|done].
Qed.

(** A component other than 1 is stored. *)
Lemma den_stored l i : ok l → den l i ≠ 1 ↔ i ∈ l.*1.
Proof.
  intros Hok. split; [intros Hd; apply dec_stable; intros ?; by apply Hd, den_notin|].
  intros (e & -> & Hin)%list_elem_of_fmap. destruct Hok as [Hs Hf].
  rewrite den_elem by done. rewrite Forall_forall in Hf. destruct (Hf _ Hin). lia.
Qed.

(** The representation is canonical. *)
Lemma ok_unique l1 l2 : ok l1 → ok l2 → (∀ i, den l1 i = den l2 i) → l1 = l2.
Proof.
  revert l2. induction l1 as [|x l1 IH]; intros [|y l2] H1 H2 Hd; [done| | |].
  - apply ok_cons in H2 as [Hy _]. specialize (Hd y.1). simpl in Hd. rewrite Z.eqb_refl in Hd.
    destruct Hy; lia.
  - apply ok_cons in H1 as [Hx _]. specialize (Hd x.1). simpl in Hd. rewrite Z.eqb_refl in Hd.
    destruct Hx; lia.
  - assert (∀ e l i, ok (e :: l) → i ∈ l.*1 → e.1 < i) as Hlow.
    { intros e l i (_ & Hlt & _)%ok_cons (z & -> & Hz)%list_elem_of_fmap. auto. }
    assert (x.1 = y.1) as Hk.
    { pose proof (proj2 (den_stored (x :: l1) x.1 H1) ltac:(set_solver)) as Hx.
      pose proof (proj2 (den_stored (y :: l2) y.1 H2) ltac:(set_solver)) as Hy.
      rewrite Hd in Hx. rewrite <- Hd in Hy.
      apply den_stored in Hx, Hy; [|done..]. rewrite fmap_cons in Hx, Hy.
      apply elem_of_cons in Hx as [?|Hx]; [done|]. apply elem_of_cons in Hy as [?|Hy]; [done|].
      apply (Hlow _ _ _ H2) in Hx. apply (Hlow _ _ _ H1) in Hy. lia. }
    assert (x = y) as ->.
    { pose proof (Hd x.1) as E. simpl in E. rewrite <- Hk, Z.eqb_refl in E.
      destruct x, y; simpl in *; congruence. }
    f_equal. apply ok_cons in H1 as (? & L1 & H1'). apply ok_cons in H2 as (? & L2 & H2').
    apply IH; [done..|]. intros i. pose proof (Hd i) as E. simpl in E.
    destruct (Z.eqb_spec y.1 i) as [Hi|]; [|done].
    rewrite !den_notin; [done|intros (z & ? & Hz)%list_elem_of_fmap; apply L2 in Hz; lia
                        |intros (z & ? & Hz)%list_elem_of_fmap; apply L1 in Hz; lia].
Qed.

(** ** Inserting and updating *)

Definition below (l : list (Z * Z)) (i : Z) : Prop := ∀ x, x ∈ l → x.1 < i.
Definition above (l : list (Z * Z)) (i : Z) : Prop := ∀ x, x ∈ l → i < x.1.

Lemma below_notin l i : below l i → i ∉ l.*1.
Proof. intros H (x & -> & Hx)%list_elem_of_fmap. apply H in Hx. lia. Qed.

Lemma above_notin l i : above l i → i ∉ l.*1.
Proof. intros H (x & -> & Hx)%list_elem_of_fmap. apply H in Hx. lia. Qed.

Lemma ok_middle a e b : ok (a ++ e :: b) ↔ ok a ∧ ok b ∧ ok_entry e ∧ below a e.1 ∧ above b e.1 ∧
  (∀ x y, x ∈ a → y ∈ b → x.1 < y.1).
Proof.
  rewrite ok_app, ok_cons. unfold below, above. split.
  - intros (H & Ha & He & Hl & Hb). split_and!; auto; intros; apply H; set_solver.
  - intros (Ha & Hb & He & Hl & Hg & Hab). split_and!; auto.
    intros x y Hx [->|Hy]%elem_of_cons; auto.
Qed.

Lemma den_middle a e b j :
  below a e.1 → den (a ++ e :: b) j = if j =? e.1 then e.2 else den (a ++ b) j.
Proof.
  intros Hb. rewrite !den_app. cbn [den]. destruct (Z.eqb_spec j e.1) as [->|Hj].
  - rewrite bool_decide_false by by apply below_notin. by rewrite Z.eqb_refl.
  - destruct (Z.eqb_spec e.1 j); [lia|done].
Qed.

(** A new entry at its place. *)
Lemma insert_ok l pos e :
  ok l → ok_entry e → below (take pos l) e.1 → above (drop pos l) e.1 →
  ok (take pos l ++ e :: drop pos l) ∧
  den l e.1 = 1 ∧ ∀ j, den (take pos l ++ e :: drop pos l) j = if j =? e.1 then e.2 else den l j.
Proof.
  intros Hok He Hb Ha. rewrite <- (take_drop pos l) in Hok.
  apply ok_app in Hok as (Hab & H1 & H2). split_and!.
  - apply ok_middle. split_and!; auto.
  - rewrite <- (take_drop pos l). apply den_notin. rewrite fmap_app, not_elem_of_app.
    split; [by apply below_notin|by apply above_notin].
  - intros j. rewrite den_middle by done. by rewrite take_drop.
Qed.

(** A new time for a stored component. *)
Lemma update_ok l k e v :
  ok l → l !! k = Some e → 1 < v < 4294967296 →
  ok (<[k := (e.1, v)]> l) ∧ den l e.1 = e.2 ∧
  ∀ j, den (<[k := (e.1, v)]> l) j = if j =? e.1 then v else den l j.
Proof.
  intros Hok Hk Hv. pose proof (lookup_lt_Some _ _ _ Hk) as Hlen.
  split_and!; [|by eapply den_lookup|].
  - rewrite <- (take_drop_middle _ _ _ Hk) in Hok. rewrite insert_take_drop by done.
    apply ok_middle in Hok as (? & ? & [Hi ?] & ? & ? & ?). apply ok_middle. split_and!; done.
  - intros j. pose proof Hok as Hok'. rewrite <- (take_drop_middle _ _ _ Hk) in Hok'.
    apply ok_middle in Hok' as (_ & _ & _ & Hb & _).
    rewrite <- (take_drop_middle _ _ _ Hk) at 2. rewrite insert_take_drop by done.
    rewrite !den_middle by done. simpl. by destruct (j =? e.1).
Qed.

Lemma below_take l pos i :
  (∀ k x, l !! k = Some x → (k < pos)%nat → x.1 < i) → below (take pos l) i.
Proof.
  intros H x (k & Hk)%list_elem_of_lookup. apply lookup_take_Some in Hk as [Hk Hlt]. eauto.
Qed.

Lemma above_drop l pos i :
  (∀ k x, l !! k = Some x → (pos <= k)%nat → i < x.1) → above (drop pos l) i.
Proof.
  intros H x (k & Hk)%list_elem_of_lookup. rewrite lookup_drop in Hk. eapply H; [done|lia].
Qed.

(** ** Searching *)

Lemma lower_bound_split l i :
  (lower_bound l i <= length l)%nat ∧ below (take (lower_bound l i) l) i ∧
  ∀ e, l !! lower_bound l i = Some e → i <= e.1.
Proof.
  induction l as [|x l (IH1 & IH2 & IH3)]; simpl; [split_and!; [lia|set_solver|done]|].
  destruct (Z.ltb_spec x.1 i); simpl; split_and!; [lia| |done|lia|set_solver|].
  - intros y [->|Hy]%elem_of_cons; [done|by apply IH2].
  - intros e [= <-]. lia.
Qed.

(** Nothing at the lower bound: the place to insert. *)
Lemma lower_bound_absent l i :
  ok l → (∀ e, l !! lower_bound l i = Some e → e.1 ≠ i) → above (drop (lower_bound l i) l) i.
Proof.
  intros [Hs _] Hne. destruct (lower_bound_split l i) as (_ & _ & Hge).
  apply above_drop. intros k x Hk Hle.
  destruct (l !! lower_bound l i) as [e|] eqn:He; [|apply lookup_ge_None in He;
    apply lookup_lt_Some in Hk; lia].
  pose proof (Hge _ eq_refl). pose proof (Hne _ eq_refl).
  destruct (decide (k = lower_bound l i)) as [->|].
  - rewrite He in Hk. injection Hk as ->. lia.
  - pose proof (sorted_lookup _ _ _ _ _ Hs He Hk ltac:(lia)). lia.
Qed.

Record wf (t : VectorTime) : Prop := {
  wf_cells : length (cells t) = Z.to_nat INLINE_CAP;
  wf_n : 0 <= n t <= INLINE_CAP;
  wf_ok : ok (entries t);
  wf_inline : heap t = false → heapEntries t = [] ∧ Forall (λ e : Z * Z, e.1 <= UINT16_MAX) (entries t);
  wf_heap : heap t = true → n t = 0;
}.

(** The vector of times a vector time stands for. *)
Definition time (t : VectorTime) (i : Z) : Z := den (entries t) i.

Lemma time_range t i : wf t → 1 <= time t i < 4294967296.
Proof. intros Hw. apply den_range, Hw. Qed.

Section inline.
Context (t : VectorTime) (Hw : wf t) (Hh : heap t = false).

Lemma inline_entries : entries t = take (Z.to_nat (n t)) (cells t).
Proof. unfold entries. by rewrite Hh. Qed.

Lemma inline_length : length (entries t) = Z.to_nat (n t).
Proof.
  rewrite inline_entries, length_take, (wf_cells _ Hw). pose proof (wf_n _ Hw). unfold INLINE_CAP in *. lia.
Qed.

Lemma inline_cell m : 0 <= m < n t → ∃ e, cell t m = Some e ∧ entries t !! Z.to_nat m = Some e.
Proof.
  intros Hm. destruct (lookup_lt_is_Some_2 (entries t) (Z.to_nat m)) as [e He];
    [rewrite inline_length; lia|].
  exists e. split; [|done]. rewrite inline_entries in He. apply lookup_take_Some in He as [He _].
  pose proof (wf_n _ Hw). unfold cell, INLINE_CAP in *. rewrite He.
  by destruct (Z.leb_spec 0 m), (Z.ltb_spec m 48); try lia.
Qed.

(** What the search returns. *)
Definition found (i : Z) (r : Z + Z) : Prop :=
  match r with
  | inl m => 0 <= m < n t ∧ ∃ e, cell t m = Some e ∧ entries t !! Z.to_nat m = Some e ∧ e.1 = i
  | inr p => 0 <= p <= n t ∧ below (take (Z.to_nat p) (entries t)) i ∧ above (drop (Z.to_nat p) (entries t)) i
  end.

Lemma bsearch_spec fuel i lo hi :
  0 <= lo → lo <= hi + 1 → hi < n t → hi - lo + 1 < Z.of_nat fuel →
  (∀ k x, entries t !! k = Some x → Z.of_nat k < lo → x.1 < i) →
  (∀ k x, entries t !! k = Some x → hi < Z.of_nat k → i < x.1) →
  ∃ r, bsearch fuel t i lo hi = Some r ∧ found i r.
Proof.
  revert lo hi. induction fuel as [|fuel IH]; intros lo hi Hlo Hle Hhi Hf Hb Ha; [lia|]. simpl.
  destruct (Z.leb_spec lo hi) as [Hc|Hc].
  - rewrite Z.shiftr_div_pow2 by lia. change (2 ^ 1) with 2.
    set (m := (lo + hi) / 2). assert (lo <= m <= hi) as Hm by (unfold m; zdiv).
    destruct (inline_cell m ltac:(lia)) as (e & He & Hl). rewrite He. cbn [mbind option_bind].
    pose proof (wf_ok _ Hw) as [Hs _].
    destruct (Z.eqb_spec e.1 i) as [Hi|Hi].
    { exists (inl m). split; [done|]. split; [lia|]. by exists e. }
    destruct (Z.ltb_spec e.1 i); apply IH; try lia; try done; intros k x Hk Hcmp.
    + destruct (decide (k = Z.to_nat m)); [assert (x = e) as -> by congruence; done|].
      pose proof (sorted_lookup _ _ _ _ _ Hs Hk Hl ltac:(lia)). lia.
    + destruct (decide (k = Z.to_nat m)); [assert (x = e) as -> by congruence; lia|].
      pose proof (sorted_lookup _ _ _ _ _ Hs Hl Hk ltac:(lia)). lia.
  - exists (inr lo). split; [done|]. split; [lia|]. split.
    + apply below_take. intros k x Hk ?. eapply Hb; [done|lia].
    + apply above_drop. intros k x Hk ?. eapply Ha; [done|lia].
Qed.

Lemma bsearch_total i : ∃ r, bsearch search_fuel t i 0 (n t - 1) = Some r ∧ found i r.
Proof.
  pose proof (wf_n _ Hw) as Hn. unfold INLINE_CAP in Hn.
  assert (Z.of_nat search_fuel = 49) as Hfuel by reflexivity.
  apply bsearch_spec; [lia..|rewrite Hfuel; lia|intros; lia|].
  intros k x Hk Hlt. apply lookup_lt_Some in Hk. rewrite inline_length in Hk. lia.
Qed.
End inline.

(** [Get] reads the component. *)
Lemma Get_time t i : wf t → Get t i = Some (time t i).
Proof.
  intros Hw. unfold Get, time. destruct (heap t) eqn:Hh; cbn [negb].
  - unfold entries. rewrite Hh. set (h := heapEntries t).
    assert (ok h) as Hok by (pose proof (wf_ok _ Hw) as H; unfold entries in H; by rewrite Hh in H).
    destruct (lower_bound_split h i) as (_ & Hb & _).
    assert ((∀ e, h !! lower_bound h i = Some e → e.1 ≠ i) → den h i = 1) as Habs.
    { intros Hne. apply (lower_bound_absent h i Hok) in Hne as Ha.
      rewrite <- (take_drop (lower_bound h i) h). apply den_notin.
      rewrite fmap_app, not_elem_of_app. split; [by apply below_notin|by apply above_notin]. }
    destruct (h !! lower_bound h i) as [e|] eqn:He; [|by rewrite Habs].
    destruct (Z.eqb_spec e.1 i) as [<-|]; [by rewrite (den_lookup _ _ _ Hok He)|].
    rewrite Habs; [done|]. by intros ? [= <-].
  - destruct (Z.ltb_spec UINT16_MAX i) as [Hi|Hi].
    + rewrite den_notin; [done|]. intros (e & -> & He)%list_elem_of_fmap.
      destruct (wf_inline _ Hw Hh) as [_ Hf]. rewrite Forall_forall in Hf. apply Hf in He. lia.
    + destruct (bsearch_total t Hw Hh i) as ([m|p] & -> & Hr); cbn [mbind option_bind].
      * destruct Hr as (_ & e & Hc & He & <-). rewrite Hc. simpl.
        by rewrite (den_lookup _ _ _ (wf_ok _ Hw) He).
      * destruct Hr as (_ & Hb & Ha). rewrite <- (take_drop (Z.to_nat p) (entries t)).
        rewrite den_notin; [done|]. rewrite fmap_app, not_elem_of_app.
        split; [by apply below_notin|by apply above_notin].
Qed.

(** ** [Set] *)

(** The state after [Set]: the component becomes the maximum. *)
Definition raised (t t' : VectorTime) (i v : Z) : Prop :=
  wf t' ∧ ∀ j, time t' j = if j =? i then Z.max (time t i) v else time t j.

Lemma migrate_entries t : wf t → entries (MigrateToHeap t) = entries t.
Proof.
  intros Hw. unfold MigrateToHeap. destruct (heap t) eqn:Hh; [done|].
  unfold entries. rewrite Hh. simpl. by destruct (wf_inline _ Hw Hh) as [-> _].
Qed.

Lemma migrate_heap t : heap (MigrateToHeap t) = true.
Proof. unfold MigrateToHeap. by destruct (heap t) eqn:Hh. Qed.

Lemma migrate_wf t : wf t → wf (MigrateToHeap t).
Proof.
  intros Hw. pose proof (migrate_entries t Hw) as He. pose proof (migrate_heap t) as Hh.
  assert (cells (MigrateToHeap t) = cells t) as Hc by (unfold MigrateToHeap; by destruct (heap t)).
  assert (n (MigrateToHeap t) = 0) as Hn
    by (unfold MigrateToHeap; destruct (heap t) eqn:E; [by apply (wf_heap _ Hw)|done]).
  split; [by rewrite Hc, (wf_cells _ Hw)|rewrite Hn; unfold INLINE_CAP; lia|rewrite He; apply Hw
         |by rewrite Hh|done].
Qed.

Lemma wf_with_heap t h : wf t → heap t = true → ok h → wf (mkVT (n t) (heap t) (cells t) h).
Proof.
  intros Hw Hh Hok. split; simpl; [apply Hw|apply Hw|by unfold entries; simpl; rewrite Hh|by rewrite Hh|apply Hw].
Qed.

Lemma heap_set_raised t i v :
  wf t → heap t = true → is_u32 i → 1 < v < 4294967296 → raised t (heap_set i v t) i v.
Proof.
  intros Hw Hh Hi Hv. unfold heap_set, raised. set (h := heapEntries t).
  assert (entries t = h) as Hent by (unfold entries; by rewrite Hh).
  assert (ok h) as Hok by (rewrite <- Hent; apply Hw).
  assert (∀ h', ok h' → (∀ j, den h' j = if j =? i then Z.max (den h i) v else den h j) →
    raised t (mkVT (n t) (heap t) (cells t) h') i v) as Hdone.
  { intros h' Hok' Hd. split; [by apply wf_with_heap|].
    intros j. unfold time, entries. simpl. rewrite Hh. by rewrite Hd. }
  destruct (lower_bound_split h i) as (_ & Hb & _).
  assert ((∀ e, h !! lower_bound h i = Some e → e.1 ≠ i) →
    raised t (mkVT (n t) (heap t) (cells t)
      (take (lower_bound h i) h ++ (i, v) :: drop (lower_bound h i) h)) i v) as Habs.
  { intros Hne. apply (lower_bound_absent h i Hok) in Hne as Ha.
    destruct (insert_ok h (lower_bound h i) (i, v)) as (H1 & H2 & H3); [done|split; done|done..|].
    apply Hdone; [done|]. intros j. rewrite H3. simpl in *. rewrite H2. destruct (j =? i); [lia|done]. }
  destruct (h !! lower_bound h i) as [e|] eqn:He; [|by apply Habs].
  destruct (Z.eqb_spec e.1 i) as [<-|]; [|apply Habs; by intros ? [= <-]].
  pose proof (den_lookup _ _ _ Hok He) as Hde. destruct (Z.ltb_spec e.2 v).
  - destruct (update_ok h _ e v Hok He Hv) as (H1 & _ & H3). apply Hdone; [done|].
    intros j. rewrite H3, Hde. destruct (j =? e.1); [lia|done].
  - apply Hdone; [done|]. intros j. rewrite Hde. destruct (Z.eqb_spec j e.1) as [->|]; [lia|done].
Qed.

Lemma shift_up_spec count k c :
  (count <= k)%nat → (k < length c)%nat →
  ∃ c', shift_up count k c = Some c' ∧ length c' = length c ∧
    ∀ j, c' !! j = if bool_decide (k - count < j ∧ j <= k)%nat then c !! pred j else c !! j.
Proof.
  revert k c. induction count as [|count IH]; intros k c Hk Hl; simpl.
  - exists c. split_and!; [done..|]. intros j. rewrite bool_decide_false by lia. done.
  - destruct (lookup_lt_is_Some_2 c (pred k)) as [e He]; [lia|].
    destruct (lookup_lt_is_Some_2 c k) as [e' He']; [lia|]. rewrite He, He'. simpl.
    destruct (IH (pred k) (<[k := e]> c)) as (c' & -> & Hlen & Hlk); [lia|rewrite length_insert; lia|].
    exists c'. split_and!; [done|by rewrite Hlen, length_insert|]. intros j. rewrite Hlk.
    destruct (decide (j = k)) as [->|Hjk].
    + rewrite bool_decide_false by lia. rewrite bool_decide_true by lia.
      by rewrite list_lookup_insert_eq.
    + repeat case_bool_decide; rewrite list_lookup_insert_ne by lia; done || lia.
Qed.

(** The cells after opening a gap and filling it. *)
Lemma shift_insert c m pos e :
  (pos <= m)%nat → (m < length c)%nat →
  ∃ c', shift_up (m - pos) m c = Some c' ∧ length c' = length c ∧
    take (S m) (<[pos := e]> c') = take pos (take m c) ++ e :: drop pos (take m c).
Proof.
  intros Hp Hm. destruct (shift_up_spec (m - pos) m c) as (c' & H1 & H2 & H3); [lia..|].
  exists c'. split_and!; [done..|]. apply list_eq. intros j.
  rewrite take_take, Nat.min_l by lia.
  destruct (decide (j < S m)%nat) as [Hj|Hj].
  - rewrite lookup_take_lt by done. destruct (decide (j = pos)) as [->|Hjp].
    + rewrite list_lookup_insert_eq by lia.
      rewrite lookup_app_r by (rewrite length_take; lia). rewrite length_take.
      replace (pos - _)%nat with 0%nat by lia. done.
    + rewrite list_lookup_insert_ne by done. rewrite H3.
      destruct (decide (j < pos)%nat).
      * rewrite bool_decide_false by lia. rewrite lookup_app_l by (rewrite length_take; lia).
        by rewrite lookup_take_lt.
      * rewrite bool_decide_true by lia. rewrite lookup_app_r by (rewrite length_take; lia).
        rewrite length_take. replace (j - _)%nat with (S (pred j - pos))%nat by lia. simpl.
        rewrite lookup_drop, lookup_take_lt by lia. f_equal. lia.
  - rewrite lookup_take_ge by lia. symmetry. apply lookup_ge_None.
    rewrite length_app, length_take. simpl. rewrite length_drop, length_take. lia.
Qed.

Lemma Set_raised t i v :
  wf t → is_u32 i → v < 4294967296 → ∃ t', Set' i v t = Some t' ∧ raised t t' i v.
Proof.
  intros Hw Hi Hv. unfold Set'. destruct (Z.leb_spec v 1) as [Hv1|Hv1].
  { exists t. split; [done|]. split; [done|]. intros j. pose proof (time_range t i Hw).
    destruct (Z.eqb_spec j i) as [->|]; [lia|done]. }
  assert (raised t (heap_set i v (MigrateToHeap t)) i v) as Hmig.
  { destruct (heap_set_raised (MigrateToHeap t) i v) as [H1 H2];
      [by apply migrate_wf|apply migrate_heap|done|lia|].
    split; [done|]. intros j. rewrite H2. unfold time. by rewrite migrate_entries. }
  destruct (heap t) eqn:Hh; cbn [negb andb].
  { rewrite Hh. cbn [negb]. eexists. split; [done|].
    assert (MigrateToHeap t = t) as Hm by (unfold MigrateToHeap; by rewrite Hh). by rewrite Hm in Hmig. }
  destruct (Z.ltb_spec UINT16_MAX i) as [Hbig|Hbig].
  { rewrite migrate_heap. cbn [negb]. by eexists. }
  rewrite Hh. cbn [negb].
  destruct (bsearch_total t Hw Hh i) as ([m|p] & -> & Hr); cbn [mbind option_bind].
  - destruct Hr as (Hm & e & Hc & He & <-). rewrite Hc. simpl. eexists. split; [done|].
    pose proof (den_lookup _ _ _ (wf_ok _ Hw) He) as Hd. fold (time t e.1) in Hd.
    destruct (Z.ltb_spec e.2 v) as [Hlt|Hge];
      [|split; [done|]; intros j; destruct (Z.eqb_spec j e.1) as [->|]; [lia|done] ].
    destruct (update_ok (entries t) _ e v (wf_ok _ Hw) He ltac:(lia)) as (H1 & _ & H3).
    set (t' := mkVT _ _ _ _).
    assert (entries t' = <[Z.to_nat m := (e.1, v)]> (entries t)) as Hent.
    { unfold entries, t'. simpl. rewrite Hh. by rewrite take_insert_lt by lia. }
    split.
    + split; [unfold t'; simpl; rewrite length_insert; exact (wf_cells _ Hw)|exact (wf_n _ Hw)
             |by rewrite Hent| |done].
      intros _. destruct (wf_inline _ Hw Hh) as [Hn Hf]. split; [done|]. rewrite Hent.
      apply Forall_insert; [done|]. simpl. lia.
    + intros j. unfold time at 1. rewrite Hent, H3. fold (time t j).
      destruct (j =? e.1); [lia|done].
  - destruct Hr as (Hp & Hb & Ha). destruct (Z.ltb_spec (n t) INLINE_CAP) as [Hn|Hn]; [|by eexists].
    unfold INLINE_CAP in Hn. pose proof (wf_cells _ Hw) as Hlen. change (Z.to_nat INLINE_CAP) with 48%nat in Hlen.
    assert (u16 i = i) as -> by (unfold u16, UINT16_MAX, is_u32 in *; apply Z.mod_small; lia).
    destruct (shift_insert (cells t) (Z.to_nat (n t)) (Z.to_nat p) (i, v)) as (c' & Hs & Hl & Ht); [lia..|].
    replace (Z.to_nat (n t - p)) with (Z.to_nat (n t) - Z.to_nat p)%nat by lia. rewrite Hs. simpl.
    eexists. split; [done|]. set (t' := mkVT _ _ _ _).
    rewrite <- (inline_entries t Hh) in Ht.
    assert (entries t' = take (Z.to_nat p) (entries t) ++ (i, v) :: drop (Z.to_nat p) (entries t)) as Hent.
    { unfold entries at 1. unfold t'. simpl.
      by replace (Z.to_nat (n t + 1)) with (S (Z.to_nat (n t))) by lia. }
    destruct (insert_ok (entries t) (Z.to_nat p) (i, v) (wf_ok _ Hw)) as (H1 & H2 & H3);
      [split; simpl; [done|lia]|done..|]. simpl in H2, H3.
    split.
    + split; [by unfold t'; simpl; rewrite length_insert, Hl, Hlen|unfold t', INLINE_CAP; simpl; lia
             |by rewrite Hent| |done].
      intros _. destruct (wf_inline _ Hw Hh) as [Hn' Hf]. split; [done|]. rewrite Hent.
      apply Forall_app. split; [by apply Forall_take|]. constructor; [done|by apply Forall_drop].
    + intros j. unfold time at 1. rewrite Hent, H3. unfold time. rewrite H2.
      destruct (j =? i); [lia|done].
Qed.

(** ** Merging *)

(** The reference merge of two sorted entry lists. *)
Fixpoint merge (l1 : list (Z * Z)) : list (Z * Z) → list (Z * Z) :=
  fix go (l2 : list (Z * Z)) :=
    match l1, l2 with
    | [], _ => l2
    | _, [] => l1
    | x :: l1', y :: l2' =>
        if x.1 <? y.1 then x :: merge l1' l2
        else if y.1 <? x.1 then y :: go l2'
        else (x.1, Z.max x.2 y.2) :: merge l1' l2'
    end.

Lemma merge_nil_l l : merge [] l = l.
Proof. by destruct l. Qed.

Lemma merge_nil_r l : merge l [] = l.
Proof. by destruct l. Qed.

Lemma merge_cons x l1 y l2 :
  merge (x :: l1) (y :: l2) =
    if x.1 <? y.1 then x :: merge l1 (y :: l2)
    else if y.1 <? x.1 then y :: merge (x :: l1) l2
    else (x.1, Z.max x.2 y.2) :: merge l1 l2.
Proof. done. Qed.

Lemma merge_keys l1 l2 i : i ∈ (merge l1 l2).*1 ↔ i ∈ l1.*1 ∨ i ∈ l2.*1.
Proof.
  revert l2. induction l1 as [|x l1 IH]; intros l2; [rewrite merge_nil_l; set_solver|].
  induction l2 as [|y l2 IH2]; [rewrite merge_nil_r; set_solver|]. rewrite merge_cons.
  destruct (Z.ltb_spec x.1 y.1); [|destruct (Z.ltb_spec y.1 x.1)]; rewrite !fmap_cons, !elem_of_cons.
  - rewrite IH, fmap_cons, elem_of_cons. tauto.
  - rewrite IH2, fmap_cons, elem_of_cons. tauto.
  - rewrite IH. simpl. assert (x.1 = y.1) as -> by lia. tauto.
Qed.

Lemma merge_elem_key l1 l2 z : z ∈ merge l1 l2 → (∃ x, x ∈ l1 ∧ x.1 = z.1) ∨ (∃ x, x ∈ l2 ∧ x.1 = z.1).
Proof.
  intros Hz. assert (z.1 ∈ (merge l1 l2).*1) as Hk by (apply list_elem_of_fmap; eauto).
  apply merge_keys in Hk as [(x & ? & ?)%list_elem_of_fmap|(x & ? & ?)%list_elem_of_fmap]; eauto.
Qed.

Lemma merge_above l1 l2 i : above l1 i → above l2 i → above (merge l1 l2) i.
Proof.
  intros H1 H2 z [ (x & Hx & <-) | (x & Hx & <-) ]%merge_elem_key; auto.
Qed.

Lemma merge_below l1 l2 i : below l1 i → below l2 i → below (merge l1 l2) i.
Proof.
  intros H1 H2 z [ (x & Hx & <-) | (x & Hx & <-) ]%merge_elem_key; auto.
Qed.

Lemma above_cons_le e l i : ok (e :: l) → i < e.1 → above (e :: l) i.
Proof. intros (_ & Hl & _)%ok_cons Hi x [->|Hx]%elem_of_cons; [done|]. apply Hl in Hx. lia. Qed.

Lemma merge_ok l1 l2 : ok l1 → ok l2 → ok (merge l1 l2).
Proof.
  revert l2. induction l1 as [|x l1 IH]; intros l2 H1 H2; [by rewrite merge_nil_l|].
  induction l2 as [|y l2 IH2]; [by rewrite merge_nil_r|]. rewrite merge_cons.
  pose proof H1 as (Hx & Hxl & H1')%ok_cons. pose proof H2 as (Hy & Hyl & H2')%ok_cons.
  destruct (Z.ltb_spec x.1 y.1); [|destruct (Z.ltb_spec y.1 x.1)]; apply ok_cons.
  - split_and!; [done| |by apply IH]. apply merge_above; [done|by apply above_cons_le].
  - split_and!; [done| |by apply IH2]. apply merge_above; [by apply above_cons_le|done].
  - split_and!; [destruct Hx, Hy; split; simpl; [done|lia]| |by apply IH].
    apply merge_above; [done|]. assert (x.1 = y.1) as -> by lia. done.
Qed.

Lemma merge_den l1 l2 i : ok l1 → ok l2 → den (merge l1 l2) i = Z.max (den l1 i) (den l2 i).
Proof.
  revert l2. induction l1 as [|x l1 IH]; intros l2 H1 H2.
  { rewrite merge_nil_l. simpl. pose proof (den_range l2 i H2). lia. }
  induction l2 as [|y l2 IH2].
  { rewrite merge_nil_r. cbn [den]. pose proof (den_range (x :: l1) i H1). cbn [den] in *. lia. }
  pose proof H1 as (Hx & Hxl & H1')%ok_cons. pose proof H2 as (Hy & Hyl & H2')%ok_cons.
  assert (∀ e l, ok (e :: l) → i < e.1 → den (e :: l) i = 1) as Hlow.
  { intros e l Hok Hi. by apply den_notin, above_notin, above_cons_le. }
  rewrite merge_cons. destruct (Z.ltb_spec x.1 y.1); [|destruct (Z.ltb_spec y.1 x.1)]; cbn [den].
  - rewrite IH by done. destruct (Z.eqb_spec x.1 i) as [<-|]; [|done].
    pose proof (Hlow y l2 H2 ltac:(done)) as E. cbn [den] in E. rewrite E. destruct Hx; lia.
  - rewrite IH2 by done. destruct (Z.eqb_spec y.1 i) as [<-|]; [|done].
    pose proof (Hlow x l1 H1 ltac:(done)) as E. cbn [den] in E. rewrite E. destruct Hy; lia.
  - assert (x.1 = y.1) as Hxy by lia. rewrite <- Hxy. simpl. destruct (x.1 =? i); [done|by apply IH].
Qed.

Lemma merge_length_l l1 l2 : (length l1 <= length (merge l1 l2))%nat.
Proof.
  revert l2. induction l1 as [|x l1 IH]; intros l2; [simpl; lia|].
  induction l2 as [|y l2 IH2]; [by rewrite merge_nil_r|]. rewrite merge_cons.
  destruct (x.1 <? y.1); [|destruct (y.1 <? x.1)]; simpl in *.
  - pose proof (IH (y :: l2)). lia.
  - lia.
  - pose proof (IH l2). lia.
Qed.

Lemma below_snoc l (e : Z * Z) i : below l e.1 → e.1 < i → below (l ++ [e]) i.
Proof.
  intros Hb He z [Hz|Hz]%elem_of_app; [apply Hb in Hz; lia|]. by apply list_elem_of_singleton in Hz as ->.
Qed.

Lemma snoc_ok l e :
  ok l → ok_entry e → below l e.1 →
  ok (l ++ [e]) ∧ ∀ i, den (l ++ [e]) i = if i =? e.1 then e.2 else den l i.
Proof.
  intros Hl He Hb. split.
  - apply ok_middle. split_and!; try done; [apply ok_nil|set_solver|set_solver].
  - intros i. rewrite den_middle by done. by rewrite app_nil_r.
Qed.

(** The last entry of a merge. *)
Lemma merge_snoc l1 x l2 y :
  ok (l1 ++ [x]) → ok (l2 ++ [y]) →
  merge (l1 ++ [x]) (l2 ++ [y]) =
    if y.1 <? x.1 then merge l1 (l2 ++ [y]) ++ [x]
    else if x.1 <? y.1 then merge (l1 ++ [x]) l2 ++ [y]
    else merge l1 l2 ++ [(x.1, Z.max x.2 y.2)].
Proof.
  intros H1 H2. pose proof H1 as (B1 & O1 & X1)%ok_app. pose proof H2 as (B2 & O2 & Y2)%ok_app.
  apply ok_cons in X1 as [Hx _]. apply ok_cons in Y2 as [Hy _].
  assert (below l1 x.1) as Bx by (intros z Hz; apply B1; set_solver).
  assert (below l2 y.1) as By by (intros z Hz; apply B2; set_solver).
  assert (∀ i, den (l1 ++ [x]) i = if i =? x.1 then x.2 else den l1 i) as D1 by by apply snoc_ok.
  assert (∀ i, den (l2 ++ [y]) i = if i =? y.1 then y.2 else den l2 i) as D2 by by apply snoc_ok.
  pose proof (den_notin l1 x.1 (below_notin _ _ Bx)) as N1.
  pose proof (den_notin l2 y.1 (below_notin _ _ By)) as N2.
  destruct (Z.ltb_spec y.1 x.1); [|destruct (Z.ltb_spec x.1 y.1)].
  - destruct (snoc_ok (merge l1 (l2 ++ [y])) x) as [Ho Hd]; [by apply merge_ok|done| |].
    { apply merge_below; [done|by apply below_snoc]. }
    apply ok_unique; [by apply merge_ok|done|]. intros i. rewrite Hd, !merge_den by done.
    rewrite D1, D2. destruct (Z.eqb_spec i x.1) as [->|]; [|done].
    destruct (Z.eqb_spec x.1 y.1); [lia|]. rewrite (den_notin l2).
    { destruct Hx; lia. } { apply below_notin. intros z Hz. apply By in Hz. lia. }
  - destruct (snoc_ok (merge (l1 ++ [x]) l2) y) as [Ho Hd]; [by apply merge_ok|done| |].
    { apply merge_below; [by apply below_snoc|done]. }
    apply ok_unique; [by apply merge_ok|done|]. intros i. rewrite Hd, !merge_den by done.
    rewrite D1, D2. destruct (Z.eqb_spec i y.1) as [->|]; [|done].
    destruct (Z.eqb_spec y.1 x.1); [lia|]. rewrite (den_notin l1).
    { destruct Hy; lia. } { apply below_notin. intros z Hz. apply Bx in Hz. lia. }
  - assert (x.1 = y.1) as Hxy by lia.
    destruct (snoc_ok (merge l1 l2) (x.1, Z.max x.2 y.2)) as [Ho Hd];
      [by apply merge_ok|destruct Hx, Hy; split; simpl; [done|lia]|simpl..|].
    { apply merge_below; [done|by rewrite Hxy]. }
    apply ok_unique; [by apply merge_ok|done|]. intros i. rewrite Hd, !merge_den by done.
    simpl. rewrite D1, D2, <- Hxy. by destruct (i =? x.1).
Qed.

Lemma merge_forward_spec fuel a b i j acc :
  (i <= length a)%nat → (j <= length b)%nat → (length a - i + (length b - j) < fuel)%nat →
  merge_forward fuel a b i j acc = Some (acc ++ merge (drop i a) (drop j b)).
Proof.
  revert i j acc. induction fuel as [|fuel IH]; intros i j acc Hi Hj Hf; [lia|]. simpl.
  destruct (decide (i < length a)%nat) as [Hia|Hia];
    [|rewrite (bool_decide_false (i < length a)%nat) by done; simpl;
      by rewrite (drop_ge a), merge_nil_l by lia].
  destruct (decide (j < length b)%nat) as [Hjb|Hjb];
    [|rewrite (bool_decide_false (j < length b)%nat), andb_false_r by done;
      by rewrite (drop_ge b), merge_nil_r, app_nil_r by lia].
  rewrite !bool_decide_true by done. simpl.
  destruct (lookup_lt_is_Some_2 a i Hia) as [x Hx]. destruct (lookup_lt_is_Some_2 b j Hjb) as [y Hy].
  rewrite Hx, Hy. simpl. rewrite (drop_S a x i Hx), (drop_S b y j Hy), merge_cons.
  destruct (x.1 <? y.1); [|destruct (y.1 <? x.1)]; rewrite IH by lia; rewrite <- app_assoc; simpl;
    by rewrite ?(drop_S a x i Hx), ?(drop_S b y j Hy).
Qed.

Lemma count_merged_spec fuel a b i j c :
  (i <= length a)%nat → (j <= length b)%nat → (length a - i + (length b - j) < fuel)%nat →
  count_merged fuel a b i j c = Some (c + length (merge (drop i a) (drop j b)))%nat.
Proof.
  revert i j c. induction fuel as [|fuel IH]; intros i j c Hi Hj Hf; [lia|]. simpl.
  destruct (decide (i < length a)%nat) as [Hia|Hia];
    [|rewrite (bool_decide_false (i < length a)%nat) by done; simpl;
      rewrite (drop_ge a), merge_nil_l, length_drop by lia; f_equal; lia].
  destruct (decide (j < length b)%nat) as [Hjb|Hjb];
    [|rewrite (bool_decide_false (j < length b)%nat), andb_false_r by done;
      rewrite (drop_ge b), merge_nil_r, length_drop by lia; f_equal; lia].
  rewrite !bool_decide_true by done. simpl.
  destruct (lookup_lt_is_Some_2 a i Hia) as [x Hx]. destruct (lookup_lt_is_Some_2 b j Hjb) as [y Hy].
  rewrite Hx, Hy. simpl. rewrite (drop_S a x i Hx), (drop_S b y j Hy), merge_cons.
  destruct (Z.ltb_spec x.1 y.1), (Z.ltb_spec y.1 x.1), (Z.leb_spec x.1 y.1), (Z.leb_spec y.1 x.1); try lia;
    rewrite IH by lia; rewrite ?(drop_S a x i Hx), ?(drop_S b y j Hy); simpl; f_equal; lia.
Qed.

Lemma take_keep (h a : list (Z * Z)) i k z :
  take (S i) h = take (S i) a → (i <= k)%nat → take i (<[k := z]> h) = take i a.
Proof.
  intros Ht Hle. rewrite take_insert_ge by done. apply (f_equal (take i)) in Ht.
  rewrite !take_take, Nat.min_l in Ht by lia. done.
Qed.

Lemma write_in {A} (h : list A) k z : (k < length h)%nat → write h k z = Some (<[k := z]> h).
Proof. intros Hk. unfold write. by destruct (lookup_lt_is_Some_2 h k Hk) as [? ->]. Qed.

Lemma drop_written {A} (h : list A) k z : (k < length h)%nat → drop k (<[k := z]> h) = z :: drop (S k) h.
Proof.
  intros Hk. rewrite (drop_S _ z) by by rewrite list_lookup_insert_eq. by rewrite drop_insert_lt by lia.
Qed.

Lemma lookup_unchanged (h a : list (Z * Z)) i x :
  take (S i) h = take (S i) a → a !! i = Some x → h !! i = Some x.
Proof. intros Ht Hx. rewrite <- (lookup_take_lt h (S i)), Ht, lookup_take_lt by lia. done. Qed.

(** The in-place merge: below [i] the array still holds the entries of [out],
    from [k] on it holds the result. *)
Lemma merge_backward_spec fuel a b i j k h :
  ok a → ok b → (i <= length a)%nat → (j <= length b)%nat → (i + j < fuel)%nat →
  k = length (merge (take i a) (take j b)) → (k <= length h)%nat → take i h = take i a →
  merge_backward fuel b i j k h = Some (merge (take i a) (take j b) ++ drop k h).
Proof.
  intros Ha Hb. revert i j k h.
  induction fuel as [|fuel IH]; intros i j k h Hi Hj Hf Hk Hlen Ht; [lia|]. simpl.
  destruct i as [|i], j as [|j].
  - simpl in *. subst k. by rewrite drop_0.
  - destruct (lookup_lt_is_Some_2 b j) as [y Hy]; [lia|]. rewrite Hy.
    rewrite (take_S_r b _ y) in * by done. rewrite merge_nil_l in *. rewrite length_app in Hk. simpl in *.
    assert (pred k = length (take j b)) as Hk' by lia.
    rewrite write_in by lia. simpl. rewrite IH by (rewrite ?merge_nil_l, ?length_insert; done || lia).
    rewrite merge_nil_l, drop_written, <- app_assoc by lia. simpl. by replace (S (pred k)) with k by lia.
  - destruct (lookup_lt_is_Some_2 a i) as [x Hx]; [lia|].
    rewrite (lookup_unchanged _ _ _ _ Ht Hx). rewrite (take_S_r a _ x Hx) in Hk |- *. rewrite !merge_nil_r in *. rewrite length_app in Hk.
    simpl in *. assert (pred k = length (take i a)) as Hk' by lia.
    assert (i <= pred k)%nat by (rewrite Hk', length_take; lia).
    rewrite write_in by lia. simpl. rewrite IH; [|lia..|by rewrite merge_nil_r|rewrite length_insert; lia|by apply take_keep].
    rewrite merge_nil_r, drop_written, <- app_assoc by lia. simpl. by replace (S (pred k)) with k by lia.
  - destruct (lookup_lt_is_Some_2 b j) as [y Hy]; [lia|]. rewrite Hy.
    destruct (lookup_lt_is_Some_2 a i) as [x Hx]; [lia|].
    rewrite (lookup_unchanged _ _ _ _ Ht Hx). simpl.
    assert (ok (take i a ++ [x]) ∧ ok (take j b ++ [y])) as [Oa Ob].
    { rewrite <- !take_S_r by done. split; by apply ok_take. }
    rewrite (take_S_r a _ x Hx), (take_S_r b _ y Hy), merge_snoc in Hk |- * by done.
    destruct (Z.ltb_spec y.1 x.1); [|destruct (Z.ltb_spec x.1 y.1)];
      rewrite length_app in Hk; simpl in Hk; rewrite write_in by lia; simpl.
    + pose proof (merge_length_l (take i a) (take j b ++ [y])) as Hl. rewrite length_take in Hl.
      rewrite IH; [|lia..|rewrite (take_S_r b _ y Hy); lia|rewrite length_insert; lia|apply take_keep; [done|lia]].
      rewrite (take_S_r b _ y Hy), drop_written, <- app_assoc by lia. simpl. by replace (S (pred k)) with k by lia.
    + pose proof (merge_length_l (take i a ++ [x]) (take j b)) as Hl.
      rewrite length_app, length_take in Hl. simpl in Hl.
      rewrite IH; [|lia..|rewrite (take_S_r a _ x Hx); lia|rewrite length_insert; lia
                  |rewrite take_insert_ge by lia; by rewrite Ht].
      rewrite (take_S_r a _ x Hx), drop_written, <- app_assoc by lia. simpl. by replace (S (pred k)) with k by lia.
    + pose proof (merge_length_l (take i a) (take j b)) as Hl. rewrite length_take in Hl.
      rewrite IH; [|lia..|rewrite length_insert; lia|apply take_keep; [done|lia]].
      rewrite drop_written, <- app_assoc by lia. simpl. by replace (S (pred k)) with k by lia.
Qed.

(** The state after a merge: the pointwise maximum. *)
Definition joined (out inp t : VectorTime) : Prop :=
  wf t ∧ ∀ i, time t i = Z.max (time out i) (time inp i).

Lemma merge_length_ub l1 l2 : (length (merge l1 l2) <= length l1 + length l2)%nat.
Proof.
  revert l2. induction l1 as [|x l1 IH]; intros l2; [by rewrite merge_nil_l|].
  induction l2 as [|y l2 IH2]; [rewrite merge_nil_r; simpl; lia|]. rewrite merge_cons.
  destruct (x.1 <? y.1); [|destruct (y.1 <? x.1)]; simpl in *.
  - pose proof (IH (y :: l2)). simpl in *. lia.
  - lia.
  - pose proof (IH l2). lia.
Qed.

Lemma MergeInline_spec out inp :
  wf out → wf inp →
  MergeInline out inp (stored inp) = Some None ∨
  ∃ t, MergeInline out inp (stored inp) = Some (Some t) ∧ joined out inp t.
Proof.
  intros Ho Hi. unfold MergeInline, stored. destruct (heap out) eqn:Eo; [by left|].
  destruct (heap inp) eqn:Ei; [by left|]. cbn [orb].
  destruct (Z.ltb_spec INLINE_CAP (n out + n inp)) as [|Hc]; [by left|]. right.
  pose proof (inline_entries out Eo) as Lo. pose proof (inline_entries inp Ei) as Li.
  rewrite <- Lo, <- Li. rewrite merge_forward_spec by lia. rewrite !drop_0, app_nil_l. cbn [mbind option_bind].
  set (l := merge (entries out) (entries inp)).
  assert (length l <= 48)%nat as Hl.
  { unfold l. pose proof (merge_length_ub (entries out) (entries inp)) as H.
    rewrite !inline_length in H by done. pose proof (wf_n _ Ho). pose proof (wf_n _ Hi).
    unfold INLINE_CAP in *. lia. }
  eexists. split; [done|]. set (t := mkVT _ _ _ _).
  pose proof (wf_cells _ Ho) as Hcells. change (Z.to_nat INLINE_CAP) with 48%nat in Hcells.
  assert (entries t = l) as Hent by (unfold entries, t; simpl; by rewrite Nat2Z.id, take_app_length).
  assert (ok l) as Hok by (apply merge_ok; apply wf_ok; done).
  split; [split|].
  - unfold t. simpl. rewrite length_app, length_drop, Hcells. change (Z.to_nat INLINE_CAP) with 48%nat. lia.
  - unfold t, INLINE_CAP. simpl. lia.
  - by rewrite Hent.
  - intros _. split; [by apply (wf_inline _ Ho)|]. rewrite Hent. apply Forall_forall. intros z Hz.
    destruct (wf_inline _ Ho Eo) as [_ Fo]. destruct (wf_inline _ Hi Ei) as [_ Fi].
    rewrite Forall_forall in Fo, Fi. apply merge_elem_key in Hz as [ (x & Hx & <-) | (x & Hx & <-) ]; auto.
  - done.
  - intros i. unfold time. rewrite Hent. apply merge_den; apply wf_ok; done.
Qed.

Lemma MergeHeap_spec out inp :
  wf out → heap out = true → wf inp → ∃ t, MergeHeap out inp = Some t ∧ joined out inp t.
Proof.
  intros Ho Hh Hi. unfold MergeHeap.
  assert (entries out = heapEntries out) as Ea by (unfold entries; by rewrite Hh).
  set (a := heapEntries out) in *. set (b := entries inp).
  assert (ok a) as Ha by (rewrite <- Ea; apply Ho). assert (ok b) as Hb by apply Hi.
  rewrite count_merged_spec by lia. rewrite !drop_0. cbn [mbind option_bind Nat.add].
  pose proof (merge_length_l a b) as Hl. set (m := merge a b) in *.
  assert (take (length m) (a ++ replicate (length m - length a) (0, 0)) =
          a ++ replicate (length m - length a) (0, 0)) as Htk.
  { apply take_ge. rewrite length_app, length_replicate. lia. }
  rewrite Htk. rewrite (merge_backward_spec _ a); [|done|done|lia|lia|lia| | |].
  - rewrite (take_ge a), (take_ge b) by lia. fold m. simpl. eexists. split; [done|].
    rewrite drop_ge, app_nil_r by (rewrite length_app, length_replicate; lia).
    split; [apply wf_with_heap; [done|done|by apply merge_ok]|].
    intros i. unfold time at 1. unfold entries. simpl. rewrite Hh. unfold time. rewrite Ea.
    by apply merge_den.
  - by rewrite (take_ge a), (take_ge b) by lia.
  - rewrite length_app, length_replicate. lia.
  - by rewrite take_app_length, (take_ge a) by lia.
Qed.

Lemma MergeMax_joined out inp :
  wf out → wf inp → ∃ t, MergeMax false out inp = Some t ∧ joined out inp t.
Proof.
  intros Ho Hi. unfold MergeMax. simpl. destruct (empty inp) eqn:He.
  - exists out. split; [done|]. split; [done|]. intros i. unfold empty in He. bool_prop.
    assert (time inp i = 1) as ->.
    { unfold time, entries. destruct (heap inp); [by rewrite H0|]. rewrite H. done. }
    pose proof (time_range out i Ho). lia.
  - destruct (MergeInline_spec out inp Ho Hi) as [->|(t & -> & Ht)]; simpl; [|by exists t].
    destruct (MergeHeap_spec (MigrateToHeap out) inp) as (t & -> & Hw & Ht);
      [by apply migrate_wf|apply migrate_heap|done|].
    exists t. split; [done|]. split; [done|]. intros i. rewrite Ht. unfold time. by rewrite migrate_entries.
Qed.

Lemma set_entries_joined l out :
  ok l → wf out →
  ∃ t, VectorClock.set_entries l out = Some t ∧ wf t ∧ ∀ i, time t i = Z.max (time out i) (den l i).
Proof.
  revert out. induction l as [|e l IH]; intros out Hl Ho; simpl.
  - exists out. split_and!; [done..|]. intros i. pose proof (time_range out i Ho). lia.
  - apply ok_cons in Hl as ([Hi Hv] & Ha & Hl).
    destruct (Set_raised out e.1 e.2 Ho Hi ltac:(lia)) as (t & -> & Hw & Ht). simpl.
    destruct (IH t Hl Hw) as (t' & -> & Hw' & Ht'). exists t'. split_and!; [done..|].
    intros i. rewrite Ht', Ht. destruct (Z.eqb_spec i e.1) as [->|]; [|destruct (Z.eqb_spec e.1 i); [lia|done] ].
    rewrite (den_notin l) by by apply above_notin. rewrite Z.eqb_refl. lia.
Qed.

Lemma UpdateVectorTime_joined inp out :
  wf inp → wf out → ∃ t, VectorClock.UpdateVectorTime inp out = Some t ∧ joined out inp t.
Proof.
  intros Hi Ho. unfold VectorClock.UpdateVectorTime.
  destruct (VectorClock.kLinearMergeMin <=? stored inp); [by apply MergeMax_joined|].
  apply set_entries_joined; [apply Hi|done].
Qed.

Lemma UpdateLogicTime_spec t p :
  wf t → is_u32 p →
  ∃ t', VectorClock.UpdateLogicTime p t = Some t' ∧ wf t' ∧
    ∀ i, time t' i = if (i =? p) && (time t p <? 4294967295) then time t p + 1 else time t i.
Proof.
  intros Hw Hp. unfold VectorClock.UpdateLogicTime. rewrite Get_time by done. simpl.
  pose proof (time_range t p Hw) as Hr. pose proof (u32_range (time t p + 1)) as Hu.
  destruct (Set_raised t p (u32 (time t p + 1)) Hw Hp) as (t' & -> & Hw' & Ht); [apply Hu|].
  exists t'. split_and!; [done..|]. intros i. rewrite Ht.
  destruct (Z.eqb_spec i p) as [->|]; [|done]. simpl. unfold u32, is_u32 in *.
  destruct (Z.ltb_spec (time t p) 4294967295).
  - rewrite Z.mod_small by lia. lia.
  - assert (time t p = 4294967295) as -> by lia. done.
Qed.

Lemma new_wf : wf new_VectorTime.
Proof. split; simpl; try done. apply ok_nil. Qed.

Lemma new_time i : time new_VectorTime i = 1.
Proof. done. Qed.

Lemma clear_wf t : wf t → wf (clear t).
Proof.
  intros Hw. split; simpl; [apply Hw|unfold INLINE_CAP; lia|apply ok_nil|done|done].
Qed.

#[export] Hint Resolve new_wf clear_wf migrate_wf : san.

(** ** Equality and dense vectors *)

Lemma all_equal_spec l o :
  wf o → ∃ b, all_equal l o = Some b ∧ (b = true ↔ ∀ e, e ∈ l → time o e.1 = e.2).
Proof.
  intros Ho. induction l as [|e l (b & Hb & IH)]; simpl.
  - exists true. split; [done|]. set_solver.
  - rewrite Get_time by done. cbn [mbind option_bind]. destruct (Z.eqb_spec (time o e.1) e.2) as [He|He]; simpl.
    + exists b. split; [done|]. rewrite IH. setoid_rewrite elem_of_cons. naive_solver.
    + exists false. split; [done|]. split; [done|]. intros H. exfalso. apply He, H. set_solver.
Qed.

Lemma eqb_spec t1 t2 :
  wf t1 → wf t2 → ∃ b, eqb t1 t2 = Some b ∧ (b = true ↔ ∀ i, time t1 i = time t2 i).
Proof.
  intros H1 H2. unfold eqb, EqualTo.
  destruct (all_equal_spec (entries t1) t2 H2) as (b1 & -> & B1).
  destruct (all_equal_spec (entries t2) t1 H1) as (b2 & E2 & B2). cbn [mbind option_bind].
  assert ((∀ i, time t1 i = time t2 i) ↔ b1 = true ∧ b2 = true) as Hiff.
  - rewrite B1, B2. split.
    + intros H. split; intros e He.
      * rewrite <- H. apply den_elem; [apply (wf_ok _ H1)|done].
      * rewrite H. apply den_elem; [apply (wf_ok _ H2)|done].
    + intros [S1 S2] i. unfold time.
      destruct (decide (i ∈ (entries t1).*1)) as [(e & -> & He)%list_elem_of_fmap|N1].
      { rewrite (den_elem _ e) by (apply (wf_ok _ H1) || done). symmetry. by apply S1. }
      destruct (decide (i ∈ (entries t2).*1)) as [(e & -> & He)%list_elem_of_fmap|N2].
      { rewrite (den_elem (entries t2) e) by (apply (wf_ok _ H2) || done). by apply S2. }
      by rewrite !den_notin.
  - setoid_rewrite Hiff. destruct b1; [exists b2; split; [done|tauto]|exists false; split; [done|]; naive_solver].
Qed.

(** The component of a dense vector. *)
Definition dense (full : list Z) (i : Z) : Z := if 0 <=? i then nth (Z.to_nat i) full 1 else 1.

Lemma sparse_spec full k :
  0 <= k → k + Z.of_nat (length full) <= 4294967296 → Forall (λ v, 1 <= v < 4294967296) full →
  ok (sparse k full) ∧ (∀ e, e ∈ sparse k full → k <= e.1) ∧ ∀ i, den (sparse k full) i = dense full (i - k).
Proof.
  revert k. induction full as [|v full IH]; intros k Hk Hl Hf; simpl.
  { split_and!; [apply ok_nil|set_solver|]. intros i. unfold dense. by destruct (0 <=? i - k), (Z.to_nat (i - k)). }
  inversion_clear Hf as [|? ? Hv Hf']. simpl in Hl.
  destruct (IH (k + 1)) as (H1 & H2 & H3); [lia|lia|done|].
  assert (∀ i, dense (v :: full) (i - k) = if i =? k then v else dense full (i - (k + 1))) as Hd.
  { intros i. unfold dense. destruct (Z.eqb_spec i k) as [->|]; [by rewrite Z.sub_diag|].
    destruct (Z.leb_spec 0 (i - k)), (Z.leb_spec 0 (i - (k + 1))); try lia; try done.
    replace (Z.to_nat (i - k)) with (S (Z.to_nat (i - (k + 1)))) by lia. done. }
  destruct (Z.eqb_spec v 1) as [->|Hne]; simpl.
  - split_and!; [done| |].
    + intros e He. apply H2 in He. lia.
    + intros i. rewrite Hd, H3. destruct (Z.eqb_spec i k) as [->|]; [|done]. unfold dense.
      destruct (Z.leb_spec 0 (k - (k + 1))); [lia|done].
  - split_and!.
    + apply ok_cons. split_and!; [split; simpl; unfold is_u32; lia| |done]. intros y Hy. apply H2 in Hy. simpl. lia.
    + intros e [->|He]%elem_of_cons; [done|]. apply H2 in He. lia.
    + intros i. rewrite Hd, H3. rewrite Z.eqb_sym. done.
Qed.

Lemma FromFull_spec full :
  Z.of_nat (length full) <= 4294967296 → Forall (λ v, 1 <= v < 4294967296) full →
  wf (FromFull full) ∧ ∀ i, time (FromFull full) i = dense full i.
Proof.
  intros Hl Hf. destruct (sparse_spec full 0) as (Hok & _ & Hd); [lia|lia|done|].
  unfold FromFull. assert (length (cells new_VectorTime) = 48%nat) as Hlen by reflexivity.
  set (c := cells new_VectorTime) in *. set (l := sparse 0 full) in *. clearbody c l.
  assert (∀ t, wf t → entries t = l → wf t ∧ ∀ i, time t i = dense full i) as Hdone.
  { intros t Hw He. split; [done|]. intros i. unfold time. by rewrite He, Hd, Z.sub_0_r. }
  assert (wf (mkVT 0 true c l)) as Hheap by (split; unfold INLINE_CAP; simpl; done || lia).
  destruct (Z.leb_spec (Z.of_nat (length l)) INLINE_CAP) as [Hc|Hc]; [|by apply Hdone].
  destruct (existsb _ _) eqn:He; [by apply Hdone|]. cbn [andb negb]. unfold INLINE_CAP in Hc.
  assert (entries (mkVT (Z.of_nat (length l)) false (l ++ drop (length l) c) []) = l) as Hent
    by (unfold entries; simpl; by rewrite Nat2Z.id, take_app_length).
  apply Hdone; [|done]. split; [|simpl; unfold INLINE_CAP; lia|by rewrite Hent| |done].
  - simpl. rewrite length_app, length_drop, Hlen. change (Z.to_nat INLINE_CAP) with 48%nat. lia.
  - intros _. split; [done|]. rewrite Hent. apply Forall_forall. intros e Hin.
    destruct (Z.le_gt_cases e.1 UINT16_MAX) as [|Hgt]; [done|]. exfalso.
    apply not_true_iff_false in He. apply He, existsb_exists. exists e.
    split; [by apply list_elem_of_In|]. apply Z.ltb_lt. lia.
Qed.

(** ** The properties *)

(** On a well-formed vector time, [Get] is total and [Set(i, v)] raises the
    component [i] to at least [v] and changes no other component; the binary
    searches terminate, all array accesses are in bounds, and the migration to
    the heap changes no component. *)
Theorem clock_set_exact t i v :
  wf t → is_u32 i → is_u32 v →
  ∃ t', Set' i v t = Some t' ∧ wf t' ∧
    ∀ j, Get t' j = Some (if j =? i then Z.max (time t i) v else time t j).
Proof.
  intros Hw Hi Hv. destruct (Set_raised t i v Hw Hi ltac:(apply Hv)) as (t' & H1 & H2 & H3).
  exists t'. split_and!; [done..|]. intros j. by rewrite Get_time, H3.
Qed.

(** C17: [UpdateVectorTime] computes the pointwise maximum of the two vectors, and
    the linear merges it uses for long vectors (on the stack, and in place from
    the back in the heap vector) give a vector equal to the one of the
    component-wise path. *)
Theorem clock_join_exact inp out :
  wf inp → wf out →
  ∃ t t', VectorClock.UpdateVectorTime inp out = Some t ∧ MergeMax false out inp = Some t' ∧
    wf t ∧ (∀ i, Get t i = Some (Z.max (time out i) (time inp i))) ∧ eqb t t' = Some true.
Proof.
  intros Hi Ho. destruct (UpdateVectorTime_joined inp out Hi Ho) as (t & H1 & Hw & Ht).
  destruct (MergeMax_joined out inp Ho Hi) as (t' & H2 & Hw' & Ht').
  exists t, t'. split_and!; [done..| |].
  - intros i. by rewrite Get_time, Ht.
  - destruct (eqb_spec t t' Hw Hw') as (b & Hb & Hiff). rewrite Hb. f_equal. apply Hiff.
    intros i. by rewrite Ht, Ht'.
Qed.

(** C37: A dense vector is represented exactly (component [i] of [FromFull(full)] is
    [full[i]], absent components are 1), and [operator==] of two such vector times
    is equality of all components. *)
Theorem dense_roundtrip full full' :
  Z.of_nat (length full) <= 4294967296 → Forall (λ v, 1 <= v < 4294967296) full →
  Z.of_nat (length full') <= 4294967296 → Forall (λ v, 1 <= v < 4294967296) full' →
  (∀ i, Get (FromFull full) i = Some (dense full i)) ∧
  ∃ b, eqb (FromFull full) (FromFull full') = Some b ∧ (b = true ↔ ∀ i, dense full i = dense full' i).
Proof.
  intros H1 H2 H3 H4. destruct (FromFull_spec full H1 H2) as [Hw Ht].
  destruct (FromFull_spec full' H3 H4) as [Hw' Ht']. split; [intros i; by rewrite Get_time, Ht|].
  destruct (eqb_spec _ _ Hw Hw') as (b & Hb & Hiff). exists b. split; [done|]. rewrite Hiff.
  split; intros H i; [rewrite <- Ht, <- Ht'|rewrite Ht, Ht']; apply H.
Qed.

Lemma dense_roundtrip_witness :
  (∀ i, Get (FromFull [1; 5; 1; 7]) i = Some (dense [1; 5; 1; 7] i)) ∧
  ∃ b, eqb (FromFull [1; 5; 1; 7]) (FromFull [1; 5]) = Some b ∧
    (b = true ↔ ∀ i, dense [1; 5; 1; 7] i = dense [1; 5] i).
Proof. apply (dense_roundtrip [1; 5; 1; 7] [1; 5]); simpl; [lia|repeat constructor; lia|lia|repeat constructor; lia]. Defined.

Lemma clock_set_exact_witness :
  ∃ t', Set' 70000 9 (FromFull [1; 5]) = Some t' ∧ wf t' ∧
    ∀ j, Get t' j = Some (if j =? 70000 then Z.max (time (FromFull [1; 5]) 70000) 9 else time (FromFull [1; 5]) j).
Proof.
  apply (clock_set_exact (FromFull [1; 5]) 70000 9); [|unfold is_u32; lia|unfold is_u32; lia].
  apply FromFull_spec; [simpl; lia|repeat constructor; lia].
Defined.

(** Seventy stored components: the linear merge in the heap vector. *)
Lemma clock_join_exact_witness :
  ∃ t t', VectorClock.UpdateVectorTime (FromFull (replicate 70 3)) (FromFull [1; 5]) = Some t ∧
    MergeMax false (FromFull [1; 5]) (FromFull (replicate 70 3)) = Some t' ∧ wf t ∧
    (∀ i, Get t i = Some (Z.max (time (FromFull [1; 5]) i) (time (FromFull (replicate 70 3)) i))) ∧
    eqb t t' = Some true.
Proof.
  apply (clock_join_exact (FromFull (replicate 70 3)) (FromFull [1; 5])); apply FromFull_spec.
  - rewrite length_replicate. lia.
  - apply Forall_replicate. lia.
  - simpl; lia.
  - repeat constructor; lia.
Defined.
