(* ===== verification/EventContainer.v ===== *)
(** Event queues: [csrc/core/framework/event_container.h] and
    [event_container.cpp].

    [SanEventQueue] is a FIFO of chunks of 64 events; [EventContainer] has one
    queue per device, block and pipe, the position of the simulation, and the
    counters with which it notices that a block or a device makes no progress.
    An access outside a container is [None]. *)
From stdpp Require Import base numbers option list.
From S2P Require Import Prelude.
From S2P Require Import RecordDefs.
From S2P Require Import Platform.
From S2P Require Import EventDef.

(** [v[i]] *)
Definition at_index {A} (l : list A) (i : Z) : option A := if 0 <=? i then l !! Z.to_nat i else None.
Definition set_index {A} (l : list A) (i : Z) (x : A) : list A := <[Z.to_nat i := x]> l.

Lemma at_index_in {A} (l : list A) i x : at_index l i = Some x → 0 <= i < Z.of_nat (length l).
Proof.
  unfold at_index. destruct (Z.leb_spec 0 i); [|done]. intros Hl. apply lookup_lt_Some in Hl. lia.
Qed.

Lemma at_index_some {A} (l : list A) i : 0 <= i < Z.of_nat (length l) → ∃ x, at_index l i = Some x.
Proof.
  intros Hi. unfold at_index. destruct (Z.leb_spec 0 i); [|lia]. apply lookup_lt_is_Some_2. lia.
Qed.

Lemma at_set_index {A} (l : list A) i j x y :
  at_index l i = Some y → at_index (set_index l i x) j = if j =? i then Some x else at_index l j.
Proof.
  intros Hi. pose proof (at_index_in _ _ _ Hi). unfold at_index, set_index.
  destruct (Z.eqb_spec j i) as [->|Hne].
  - destruct (Z.leb_spec 0 i); [|lia]. rewrite list_lookup_insert_eq; [done|lia].
  - destruct (Z.leb_spec 0 j); [|done]. rewrite list_lookup_insert_ne by lia. done.
Qed.

(** ** [SanEventQueue] *)
Module Que.
Section queue.
Context {A : Type}.

Definition CHUNK_CAP : nat := 64.

Record SanEventQueue := mkQue { chunks_ : list (list A); head_ : nat; size_ : Z }.

Definition new_SanEventQueue : SanEventQueue := mkQue [] 0 0.

Definition EnsureChunk (q : SanEventQueue) : SanEventQueue :=
  match last (chunks_ q) with
  | None => mkQue (chunks_ q ++ [[]]) (head_ q) (size_ q)
  | Some c => if bool_decide (length c = CHUNK_CAP) then mkQue (chunks_ q ++ [[]]) (head_ q) (size_ q) else q
  end.

Definition Push (e : A) (q : SanEventQueue) : option SanEventQueue :=
  let q := EnsureChunk q in
  c ← last (chunks_ q);
  Some (mkQue (removelast (chunks_ q) ++ [c ++ [e]]) (head_ q) (u32 (size_ q + 1))).

Definition Front (q : SanEventQueue) : option A := c ← head (chunks_ q); c !! head_ q.

Definition Pop (q : SanEventQueue) : option SanEventQueue :=
  c ← head (chunks_ q);
  let head' := S (head_ q) in
  let size' := u32 (size_ q - 1) in
  Some (if bool_decide (head' = length c) then mkQue (tail (chunks_ q)) 0 size'
        else mkQue (chunks_ q) head' size').

Definition Empty (q : SanEventQueue) : bool := size_ q =? 0.
Definition Size (q : SanEventQueue) : Z := size_ q.
Definition Clear (q : SanEventQueue) : SanEventQueue := mkQue [] 0 0.

(** *** The queue is a list *)

Definition contents (q : SanEventQueue) : list A := drop (head_ q) (concat (chunks_ q)).

Record queue_ok (q : SanEventQueue) : Prop := {
  q_chunks : Forall (λ c, c ≠ []) (chunks_ q);
  q_head : match chunks_ q with [] => head_ q = 0%nat | c :: _ => (head_ q < length c)%nat end;
  q_size : size_ q = Z.of_nat (length (contents q));
  q_bound : size_ q < 4294967296;
}.

Lemma new_ok : queue_ok new_SanEventQueue.
Proof. split; simpl; done || constructor. Qed.

Lemma concat_snoc (l : list (list A)) c : concat (l ++ [c]) = concat l ++ c.
Proof. rewrite concat_app. simpl. by rewrite app_nil_r. Qed.

Lemma Push_ok e q :
  queue_ok q → size_ q + 1 < 4294967296 →
  ∃ q', Push e q = Some q' ∧ queue_ok q' ∧ contents q' = contents q ++ [e].
Proof.
  intros [Hc Hh Hs Hb] Hlt. unfold Push.
  assert (∃ l c, chunks_ (EnsureChunk q) = l ++ [c] ∧ concat (l ++ [c]) = concat (chunks_ q) ∧
    head_ (EnsureChunk q) = head_ q ∧ size_ (EnsureChunk q) = size_ q ∧ Forall (λ c, c ≠ []) l ∧
    (l = [] → chunks_ q = [] ∨ chunks_ q = [c])) as (l & c & E1 & E2 & E3 & E4 & E5 & E6).
  { unfold EnsureChunk. destruct (last (chunks_ q)) as [c|] eqn:Hl.
    - apply last_Some in Hl as [l Hl]. case_bool_decide; simpl.
      + exists (chunks_ q), []. rewrite concat_snoc, app_nil_r. split_and!; auto.
      + exists l, c. rewrite Hl in Hc |- *. apply Forall_app in Hc as [? _]. split_and!; auto.
        intros ->. by right.
    - apply last_None in Hl. rewrite Hl. exists [], []. split_and!; auto. }
  rewrite E1, last_snoc. cbn [mbind option_bind]. rewrite removelast_last, E3, E4.
  eexists. split; [done|].
  assert (contents (mkQue (l ++ [c ++ [e] ]) (head_ q) (u32 (size_ q + 1))) = contents q ++ [e]) as Hcont.
  { unfold contents. simpl. rewrite concat_snoc, app_assoc, <- concat_snoc, E2.
    apply drop_app_le. destruct (chunks_ q) as [|c0 r]; simpl; [lia|]. rewrite length_app. lia. }
  split; [|done]. split; [|simpl| |].
  - simpl. apply Forall_app. split; [done|]. constructor; [|constructor]. by destruct c.
  - destruct l as [|c0 l]; simpl in *.
    + destruct (E6 eq_refl) as [Hq|Hq]; rewrite Hq in Hh; [rewrite Hh, length_app; simpl; lia|].
      rewrite length_app. lia.
    + destruct (chunks_ q) as [|c1 r] eqn:Hq; [|unfold EnsureChunk in E1; rewrite Hq in E1].
      * inversion_clear E5. by destruct c0.
      * simpl in E1. destruct (last (c1 :: r)) eqn:Hl; [case_bool_decide|]; simpl in E1;
          rewrite ?Hq in E1; simplify_eq/=; done.
  - rewrite Hcont, length_app. simpl. rewrite u32_small by (unfold is_u32; lia). lia.
  - simpl. rewrite u32_small by (unfold is_u32; lia). lia.
Qed.

Lemma Empty_spec q : queue_ok q → Empty q = bool_decide (contents q = []).
Proof.
  intros [_ _ Hs _]. unfold Empty. rewrite Hs. by destruct (contents q).
Qed.

Lemma contents_cons q c l :
  queue_ok q → chunks_ q = c :: l → contents q = drop (head_ q) c ++ concat l ∧ (head_ q < length c)%nat.
Proof.
  intros [_ Hh _ _] Hq. rewrite Hq in Hh. split; [|done]. unfold contents. rewrite Hq. simpl.
  by rewrite drop_app_le by lia.
Qed.

Lemma Front_spec q : queue_ok q → Front q = head (contents q).
Proof.
  intros Hok. unfold Front. destruct (chunks_ q) as [|c l] eqn:Hq.
  - unfold contents. rewrite Hq. simpl. by rewrite drop_nil.
  - destruct (contents_cons q c l Hok Hq) as [-> Hlt]. simpl.
    destruct (lookup_lt_is_Some_2 c _ Hlt) as [e He]. by rewrite He, (drop_S _ _ _ He).
Qed.

Lemma Pop_ok e rest q :
  queue_ok q → contents q = e :: rest → ∃ q', Pop q = Some q' ∧ queue_ok q' ∧ contents q' = rest.
Proof.
  intros Hok He. pose proof Hok as [Hc Hh Hs Hb]. unfold Pop.
  destruct (chunks_ q) as [|c l] eqn:Hq; [unfold contents in He; rewrite Hq in He; simpl in He; by rewrite drop_nil in He|].
  destruct (contents_cons q c l Hok Hq) as [Hcont Hlt]. rewrite He in *. simpl in Hs. simpl.
  destruct (lookup_lt_is_Some_2 c _ Hlt) as [x Hx]. rewrite (drop_S _ _ _ Hx) in Hcont. simpl in Hcont.
  injection Hcont as -> Hrest. inversion_clear Hc as [|? ? Hc0 Hcl].
  assert (u32 (size_ q - 1) = Z.of_nat (length rest)) as Hsize.
  { rewrite u32_small; [lia|unfold is_u32; lia]. }
  case_bool_decide as Hend; (eexists; split; [done|]).
  - assert (contents (mkQue l 0 (u32 (size_ q - 1))) = rest) as E.
    { unfold contents. simpl. rewrite Hrest, drop_0, drop_ge by lia. done. }
    split; [|done]. split; simpl; [done| |by rewrite E|lia].
    destruct l as [|c1 l]; [done|]. inversion_clear Hcl. destruct c1; [done|simpl; lia].
  - assert (contents (mkQue (c :: l) (S (head_ q)) (u32 (size_ q - 1))) = rest) as E.
    { unfold contents. simpl. rewrite Hrest, drop_app_le by lia. done. }
    split; [|done]. split; simpl; [by constructor|lia|by rewrite E|lia].
Qed.
End queue.
Arguments SanEventQueue : clear implicits.
End Que.

(** ** [EventContainer] *)
Module Cont.
Import Que.

Definition PIPE_NUM : Z := PipeType_code PIPE_SIZE.

Record EventContainer := mkCont {
  ques_ : list (SanEventQueue SanEvent);
  deviceNum_ : Z; maxBlockNum_ : Z;
  blockPopCount_ : Z; devicePopCount_ : Z;
  isBlockStuck_ : bool; isDeviceStuck_ : bool; stuckDeviceNum_ : Z;
  pipeIndex_ : Z; blockIndex_ : Z; deviceIndex_ : Z;
}.

Definition with_ques (q : list (SanEventQueue SanEvent)) (c : EventContainer) : EventContainer :=
  mkCont q (deviceNum_ c) (maxBlockNum_ c) (blockPopCount_ c) (devicePopCount_ c) (isBlockStuck_ c)
    (isDeviceStuck_ c) (stuckDeviceNum_ c) (pipeIndex_ c) (blockIndex_ c) (deviceIndex_ c).

Definition Init (blockNum deviceNum : Z) : EventContainer :=
  mkCont (replicate (Z.to_nat (u32 (u32 (deviceNum * blockNum) * PIPE_NUM))) new_SanEventQueue)
    deviceNum blockNum 0 0 false false 0 0 0 0.

Definition FlattenPipeIdx (c : EventContainer) (pipeIdx blockIdx deviceIdx : Z) : Z :=
  u32 (u32 (u32 (u32 (deviceIdx * maxBlockNum_ c) * PIPE_NUM) + u32 (blockIdx * PIPE_NUM)) + pipeIdx).

(** [event.eventInfo.memInfo.opType = t] *)
Definition set_opType (t : AccessType) (m : MemOpInfo) : MemOpInfo :=
  {| memType := memType m; opType := t; vectorMask := vectorMask m; maskMode := maskMode m;
     instrName := instrName m; dataBits := dataBits m; addr := addr m; blockNum := blockNum m;
     blockSize := blockSize m; blockStride := blockStride m; repeatTimes := repeatTimes m;
     repeatStride := repeatStride m; alignSize := alignSize m;
     mem_ignoreIllegalCheck := mem_ignoreIllegalCheck m; isScalarAtomic := isScalarAtomic m;
     dcciDistance := dcciDistance m; dstCoreId := dstCoreId m; dstBlockType := dstBlockType m;
     instrClass := instrClass m; matrixM := matrixM m; matrixN := matrixN m |}.

Definition set_eventInfo (i : EventInfo) (e : SanEvent) : SanEvent :=
  {| serialNo := serialNo e; pipe := pipe e; eventInfo := i; loc := loc e; isAtomicMode := isAtomicMode e;
     recordType := recordType e; closedRingStartSerialNo := closedRingStartSerialNo e |}.

(** What [Push] enqueues: a block copy becomes its read and its write. *)
Definition split_copy (e : SanEvent) : list SanEvent :=
  match eventInfo e with
  | MemInfo m =>
      if bool_decide (opType m = ACCESS_MEMCPY_BLOCKS)
      then [set_eventInfo (MemInfo (set_opType READ m)) e; set_eventInfo (MemInfo (set_opType WRITE m)) e]
      else [e]
  | _ => [e]
  end.

Fixpoint push_all (l : list SanEvent) (q : SanEventQueue SanEvent) : option (SanEventQueue SanEvent) :=
  match l with [] => Some q | e :: l' => q ← Que.Push e q; push_all l' q end.

Definition Push (e : SanEvent) (pipe : PipeType) (blockIdx deviceIdx : Z) (c : EventContainer)
    : option EventContainer :=
  if maxBlockNum_ c <=? blockIdx then Some c
  else if deviceNum_ c <=? deviceIdx then Some c
  else
    let pipeIndex := FlattenPipeIdx c (PipeType_code pipe) blockIdx deviceIdx in
    q ← at_index (ques_ c) pipeIndex;
    q ← push_all (split_copy e) q;
    Some (with_ques (set_index (ques_ c) pipeIndex q) c).

Definition GetQueIndex (c : EventContainer) : Z := FlattenPipeIdx c (pipeIndex_ c) (blockIndex_ c) (deviceIndex_ c).

Definition Front (c : EventContainer) : option SanEvent := q ← at_index (ques_ c) (GetQueIndex c); Que.Front q.

Definition Pop (c : EventContainer) : option EventContainer :=
  q ← at_index (ques_ c) (GetQueIndex c);
  q ← Que.Pop q;
  Some (mkCont (set_index (ques_ c) (GetQueIndex c) q) (deviceNum_ c) (maxBlockNum_ c)
    (u32 (blockPopCount_ c + 1)) (u32 (devicePopCount_ c + 1)) (isBlockStuck_ c) (isDeviceStuck_ c)
    (stuckDeviceNum_ c) (pipeIndex_ c) (blockIndex_ c) (deviceIndex_ c)).

Definition IsCurQueEmpty (c : EventContainer) : option bool :=
  q ← at_index (ques_ c) (GetQueIndex c); Some (Que.Empty q).

Fixpoint range_empty (count : nat) (i : Z) (qs : list (SanEventQueue SanEvent)) : option bool :=
  match count with
  | O => Some true
  | S count => q ← at_index qs i; if negb (Que.Empty q) then Some false else range_empty count (u32 (i + 1)) qs
  end.

Definition IsCurBlockEmpty (c : EventContainer) : option bool :=
  let startIdx := FlattenPipeIdx c 0 (blockIndex_ c) (deviceIndex_ c) in
  let endIdx := u32 (startIdx + PIPE_NUM) in
  range_empty (Z.to_nat (endIdx - startIdx)) startIdx (ques_ c).

Definition IsCurDeviceEmpty (c : EventContainer) : option bool :=
  let startIdx := FlattenPipeIdx c 0 0 (deviceIndex_ c) in
  let endIdx := u32 (startIdx + u32 (maxBlockNum_ c * PIPE_NUM)) in
  range_empty (Z.to_nat (endIdx - startIdx)) startIdx (ques_ c).

Definition IsNeedSwitchNextBlock (c : EventContainer) : option bool :=
  if isBlockStuck_ c then Some true else IsCurBlockEmpty c.

Definition IsNeedSwitchNextDevice (c : EventContainer) : option bool :=
  if isDeviceStuck_ c then Some true else IsCurDeviceEmpty c.

Definition IsEmpty (c : EventContainer) : bool := forallb Que.Empty (ques_ c).

Definition CheckCurDeviceStuck (c : EventContainer) : EventContainer :=
  mkCont (ques_ c) (deviceNum_ c) (maxBlockNum_ c) (blockPopCount_ c) (devicePopCount_ c) (isBlockStuck_ c)
    (isDeviceStuck_ c) (if isDeviceStuck_ c then u32 (stuckDeviceNum_ c + 1) else 0)
    (pipeIndex_ c) (blockIndex_ c) (deviceIndex_ c).

Definition IsAllDeviceStuck (c : EventContainer) : bool := stuckDeviceNum_ c =? deviceNum_ c.

(** [ForEachFrontEvent]: the events the callback is called with, in order. *)
Fixpoint front_events (qs : list (SanEventQueue SanEvent)) : option (list SanEvent) :=
  match qs with
  | [] => Some []
  | q :: qs' =>
      rest ← front_events qs';
      if negb (Que.Empty q) then e ← Que.Front q; Some (e :: rest) else Some rest
  end.

Definition ForEachFrontEvent (c : EventContainer) : option (list SanEvent) := front_events (ques_ c).

Definition SwitchToNextDevice (c : EventContainer) : EventContainer :=
  mkCont (ques_ c) (deviceNum_ c) (maxBlockNum_ c) 0 0 false false (stuckDeviceNum_ c) 0 0
    (u32 (deviceIndex_ c + 1) `mod` deviceNum_ c).

Definition SwitchToNextBlock (c : EventContainer) : EventContainer :=
  let blockIndex := u32 (blockIndex_ c + 1) `mod` maxBlockNum_ c in
  if blockIndex =? 0 then
    let stuck := devicePopCount_ c =? 0 in
    mkCont (ques_ c) (deviceNum_ c) (maxBlockNum_ c) 0 0 false stuck
      (if negb stuck then 0 else stuckDeviceNum_ c) 0 blockIndex (deviceIndex_ c)
  else
    mkCont (ques_ c) (deviceNum_ c) (maxBlockNum_ c) 0 (devicePopCount_ c) false (isDeviceStuck_ c)
      (stuckDeviceNum_ c) 0 blockIndex (deviceIndex_ c).

Definition SwitchToNextPipe (c : EventContainer) : EventContainer :=
  let pipeIndex := u32 (pipeIndex_ c + 1) `mod` PIPE_NUM in
  if pipeIndex =? PipeType_code PIPE_S then
    mkCont (ques_ c) (deviceNum_ c) (maxBlockNum_ c) 0 (devicePopCount_ c) (blockPopCount_ c =? 0)
      (isDeviceStuck_ c) (stuckDeviceNum_ c) pipeIndex (blockIndex_ c) (deviceIndex_ c)
  else
    mkCont (ques_ c) (deviceNum_ c) (maxBlockNum_ c) (blockPopCount_ c) (devicePopCount_ c) (isBlockStuck_ c)
      (isDeviceStuck_ c) (stuckDeviceNum_ c) pipeIndex (blockIndex_ c) (deviceIndex_ c).

(** [GetPipeIndex]: the enumeration value is the index. *)
Definition GetPipeIndex (c : EventContainer) : Z := pipeIndex_ c.
Definition GetBlockIndex (c : EventContainer) : Z := blockIndex_ c.
Definition GetCurQueSize (c : EventContainer) : option Z :=
  q ← at_index (ques_ c) (u32 (u32 (blockIndex_ c * PIPE_NUM) + pipeIndex_ c)); Some (Que.Size q).
Definition SetQueIndex (pipe : PipeType) (c : EventContainer) : EventContainer :=
  mkCont (ques_ c) (deviceNum_ c) (maxBlockNum_ c) (blockPopCount_ c) (devicePopCount_ c) (isBlockStuck_ c)
    (isDeviceStuck_ c) (stuckDeviceNum_ c) (PipeType_code pipe) (blockIndex_ c) (deviceIndex_ c).
Definition GetAllQueSize (c : EventContainer) : Z := foldl (λ s q, u32 (s + Que.Size q)) 0 (ques_ c).
End Cont.

(** ** [PipeLine]: [csrc/core/framework/pipe_line.cpp] *)
Module Pipe.
Import Cont.

Inductive ReturnType := PROCESS_OK | PROCESS_STALLED.
Inductive PipeState :=
  | CHECK_ALL_DEVICE | CHECK_CUR_DEVICE | CHECK_CUR_BLOCK | CHECK_CUR_PIPE | PROCESS_EVENT | EXIT | EXCEPTION.

Section pipeline.
(** The event function of the client works on the container and the client's
    own state; [None] is an undefined behaviour in it. *)
Context {X : Type} (func : option (EventContainer * X → SanEvent → option (EventContainer * X * ReturnType))).

Definition state : Type := PipeState * (EventContainer * X).

Definition CheckAllDevice (s : EventContainer * X) : option state :=
  Some (if IsEmpty s.1 then EXIT else CHECK_CUR_DEVICE, s).

Definition CheckCurDevice (s : EventContainer * X) : option state :=
  need ← IsNeedSwitchNextDevice s.1;
  if negb need then Some (CHECK_CUR_BLOCK, s)
  else
    let c := CheckCurDeviceStuck s.1 in
    if IsAllDeviceStuck c then Some (EXCEPTION, (c, s.2))
    else Some (CHECK_ALL_DEVICE, (SwitchToNextDevice c, s.2)).

Definition CheckCurBlock (s : EventContainer * X) : option state :=
  need ← IsNeedSwitchNextBlock s.1;
  if negb need then Some (CHECK_CUR_PIPE, s) else Some (CHECK_CUR_DEVICE, (SwitchToNextBlock s.1, s.2)).

Definition CheckCurPipe (s : EventContainer * X) : option state :=
  e ← IsCurQueEmpty s.1;
  if (e : bool) then Some (CHECK_CUR_BLOCK, (SwitchToNextPipe s.1, s.2)) else Some (PROCESS_EVENT, s).

Definition Process (s : EventContainer * X) : option state :=
  event ← Front s.1;
  match func with
  | None => Some (EXCEPTION, s)
  | Some f =>
      r ← f s event;
      match r with
      | (s, PROCESS_OK) => c ← Pop s.1; Some (CHECK_CUR_PIPE, (c, s.2))
      | (s, PROCESS_STALLED) => Some (CHECK_CUR_BLOCK, (SwitchToNextPipe s.1, s.2))
      end
  end.

Definition stopped (p : PipeState) : bool := match p with EXIT | EXCEPTION => true | _ => false end.

(** One iteration of the loop of [Run]. *)
Definition step (s : state) : option state :=
  match s.1 with
  | CHECK_ALL_DEVICE => CheckAllDevice s.2
  | CHECK_CUR_DEVICE => CheckCurDevice s.2
  | CHECK_CUR_BLOCK => CheckCurBlock s.2
  | CHECK_CUR_PIPE => CheckCurPipe s.2
  | PROCESS_EVENT => Process s.2
  | EXIT | EXCEPTION => Some (EXCEPTION, s.2)
  end.

(** [Run]: [None] is an undefined behaviour or a loop longer than the fuel. *)
Fixpoint Run (fuel : nat) (s : state) : option state :=
  if stopped s.1 then Some s
  else match fuel with O => None | S fuel => s ← step s; Run fuel s end.
End pipeline.
End Pipe.
