(* ===== verification/PipeLineProofs.v ===== *)
(** The replay loop of [PipeLine] for one device: it terminates, it leaves no
    event behind unless every remaining queue is blocked, and with two devices
    it may run forever. The loop is proved against an interface to the event
    function of its client. *)
From stdpp Require Import base numbers option list.
From S2P Require Import Prelude.
From S2P Require Import RecordDefs.
From S2P Require Import Platform.
From S2P Require Import EventDef.
From S2P Require Import EventContainer.
Import Que Cont Pipe.

(** ** The container as a list of queues *)

Definition conts (c : EventContainer) : list (list SanEvent) := contents <$> ques_ c.

Record cont_ok (c : EventContainer) : Prop := {
  c_dev : 1 <= deviceNum_ c;
  c_blk : 1 <= maxBlockNum_ c;
  c_fit : deviceNum_ c * maxBlockNum_ c * 12 < 4294967296;
  c_len : Z.of_nat (length (ques_ c)) = deviceNum_ c * maxBlockNum_ c * 12;
  c_ques : Forall queue_ok (ques_ c);
  c_pipe : 0 <= pipeIndex_ c < 12;
  c_block : 0 <= blockIndex_ c < maxBlockNum_ c;
  c_device : 0 <= deviceIndex_ c < deviceNum_ c;
}.

Lemma length_conts c : length (conts c) = length (ques_ c).
Proof. apply length_fmap. Qed.

Section container.
Context (c : EventContainer) (Hc : cont_ok c).

Lemma flatten_eq p b d :
  0 <= p < 12 → 0 <= b < maxBlockNum_ c → 0 <= d < deviceNum_ c →
  FlattenPipeIdx c p b d = (d * maxBlockNum_ c + b) * 12 + p ∧
  0 <= (d * maxBlockNum_ c + b) * 12 + p < Z.of_nat (length (ques_ c)).
Proof.
  intros Hp Hb Hd. pose proof (c_fit _ Hc) as Hf. pose proof (c_len _ Hc) as Hl. unfold FlattenPipeIdx.
  change PIPE_NUM with 12. set (B := maxBlockNum_ c) in *. set (D := deviceNum_ c) in *.
  assert (0 <= d * B) by nia. assert (d * B + b < D * B) by nia. generalize dependent (d * B). intros k ? ?.
  assert (k * 12 + b * 12 + p < D * B * 12) by lia. generalize dependent (D * B * 12). intros m Hm Hl Hlt.
  rewrite (u32_small k), (u32_small (k * 12)), (u32_small (b * 12)) by (unfold is_u32; lia).
  rewrite (u32_small (k * 12 + b * 12)), u32_small by (unfold is_u32; lia). lia.
Qed.

Lemma cur_eq :
  GetQueIndex c = (deviceIndex_ c * maxBlockNum_ c + blockIndex_ c) * 12 + pipeIndex_ c ∧
  0 <= GetQueIndex c < Z.of_nat (length (ques_ c)).
Proof.
  unfold GetQueIndex. destruct (flatten_eq (pipeIndex_ c) (blockIndex_ c) (deviceIndex_ c)) as [-> H];
    [apply Hc..|]. done.
Qed.

Lemma que_at i :
  0 <= i < Z.of_nat (length (ques_ c)) →
  ∃ q, at_index (ques_ c) i = Some q ∧ queue_ok q ∧ conts c !! Z.to_nat i = Some (contents q).
Proof.
  intros Hi. destruct (at_index_some _ _ Hi) as [q Hq]. exists q. split; [done|].
  unfold at_index in Hq. destruct (Z.leb_spec 0 i); [|done]. split.
  - apply (Forall_lookup_1 _ _ _ _ (c_ques _ Hc) Hq).
  - unfold conts. by rewrite list_lookup_fmap, Hq.
Qed.

(** The contents of the current queue. *)
Definition cur : nat := Z.to_nat (GetQueIndex c).

Lemma cur_que : ∃ q, at_index (ques_ c) (GetQueIndex c) = Some q ∧ queue_ok q ∧ conts c !! cur = Some (contents q).
Proof. apply que_at, cur_eq. Qed.

Lemma cur_lookup : ∃ l, conts c !! cur = Some l.
Proof. destruct cur_que as (q & _ & _ & H). eauto. Qed.

Lemma IsCurQueEmpty_spec l : conts c !! cur = Some l → IsCurQueEmpty c = Some (bool_decide (l = [])).
Proof.
  intros Hl. unfold IsCurQueEmpty. destruct cur_que as (q & -> & Hok & Hq). simpl.
  rewrite Empty_spec by done. rewrite Hq in Hl. by injection Hl as ->.
Qed.

Lemma Front_cont e rest : conts c !! cur = Some (e :: rest) → Front c = Some e.
Proof.
  intros Hl. unfold Front. destruct cur_que as (q & -> & Hok & Hq). simpl.
  rewrite Front_spec by done. assert (contents q = e :: rest) as -> by congruence. done.
Qed.

Lemma range_empty_spec count i :
  0 <= i → i + Z.of_nat count <= Z.of_nat (length (ques_ c)) →
  ∃ b, range_empty count i (ques_ c) = Some b ∧
    (b = true ↔ ∀ k, i <= k < i + Z.of_nat count → conts c !! Z.to_nat k = Some []).
Proof.
  pose proof (c_fit _ Hc) as Hf. pose proof (c_len _ Hc) as Hlen.
  revert i. induction count as [|count IH]; intros i Hi Hl; simpl.
  - exists true. split; [done|]. split; [|done]. intros _ k Hk. lia.
  - destruct (que_at i) as (q & -> & Hok & Hq); [lia|]. simpl. rewrite Empty_spec by done.
    case_bool_decide as He; simpl.
    + rewrite u32_small by (unfold is_u32; lia). destruct (IH (i + 1)) as (b & -> & Hb); [lia|lia|].
      exists b. split; [done|]. rewrite Hb. split; intros H k Hk.
      * destruct (decide (k = i)) as [->|]; [by rewrite Hq, He|apply H; lia].
      * apply H. lia.
    + exists false. split; [done|]. split; [done|]. intros H. exfalso. apply He.
      specialize (H i ltac:(lia)). congruence.
Qed.

Lemma IsCurBlockEmpty_spec :
  ∃ b, IsCurBlockEmpty c = Some b ∧
    (b = true ↔ ∀ p, 0 <= p < 12 →
       conts c !! Z.to_nat ((deviceIndex_ c * maxBlockNum_ c + blockIndex_ c) * 12 + p) = Some []).
Proof.
  unfold IsCurBlockEmpty. change PIPE_NUM with 12.
  destruct (flatten_eq 0 (blockIndex_ c) (deviceIndex_ c)) as [-> H0]; [lia|apply Hc..|].
  destruct (flatten_eq 11 (blockIndex_ c) (deviceIndex_ c)) as [_ H11]; [lia|apply Hc..|].
  pose proof (c_fit _ Hc) as Hf. pose proof (c_len _ Hc) as Hl.
  set (s := _ * 12 + 0) in *. rewrite u32_small.
  - replace (Z.to_nat (s + 12 - s)) with 12%nat by lia.
    destruct (range_empty_spec 12 s) as (b & -> & Hb); [lia|lia|]. exists b. split; [done|]. rewrite Hb.
    split; intros H p Hp.
    + apply H. lia.
    + specialize (H (p - s) ltac:(lia)). by replace (_ + (p - s)) with p in H by lia.
  - unfold is_u32. lia.
Qed.

Lemma IsCurDeviceEmpty_spec :
  deviceNum_ c = 1 → ∃ b, IsCurDeviceEmpty c = Some b ∧ (b = true ↔ Forall (λ l, l = []) (conts c)).
Proof.
  intros Hd. unfold IsCurDeviceEmpty. change PIPE_NUM with 12.
  assert (deviceIndex_ c = 0) as Hi by (pose proof (c_device _ Hc); lia).
  destruct (flatten_eq 0 0 (deviceIndex_ c)) as [-> H0]; [lia|pose proof (c_blk _ Hc); lia|apply Hc|].
  pose proof (c_fit _ Hc) as Hf. pose proof (c_len _ Hc) as Hl. pose proof (c_blk _ Hc) as Hblk.
  rewrite Hi, Hd in *. replace ((0 * maxBlockNum_ c + 0) * 12 + 0) with 0 by lia.
  rewrite (u32_small (maxBlockNum_ c * 12)) by (unfold is_u32; lia).
  rewrite u32_small by (unfold is_u32; lia).
  destruct (range_empty_spec (Z.to_nat (0 + maxBlockNum_ c * 12 - 0)) 0) as (b & -> & Hb); [lia|lia|].
  exists b. split; [done|]. rewrite Hb, Forall_lookup. split.
  - intros H i l Hl'. pose proof (lookup_lt_Some _ _ _ Hl') as Hlt. rewrite length_conts in Hlt.
    specialize (H (Z.of_nat i) ltac:(lia)). rewrite Nat2Z.id in H. congruence.
  - intros H k Hk. destruct (que_at k) as (q & _ & _ & Hq); [lia|]. rewrite Hq. f_equal. by eapply H.
Qed.

Lemma IsEmpty_spec : IsEmpty c = true ↔ Forall (λ l, l = []) (conts c).
Proof.
  unfold IsEmpty, conts. rewrite forallb_forall, Forall_fmap, Forall_forall.
  pose proof (c_ques _ Hc) as Hq. rewrite Forall_forall in Hq.
  split; intros H q Hin.
  - apply list_elem_of_In in Hin as Hin'. apply H in Hin'. rewrite Empty_spec in Hin' by auto.
    by apply bool_decide_eq_true in Hin'.
  - apply list_elem_of_In in Hin as Hin'. rewrite Empty_spec by auto. apply bool_decide_eq_true. by apply H.
Qed.
End container.

(** ** Weights *)

Definition pipe_of (i : nat) : Z := Z.of_nat i `mod` 12.

Section weights.
Context (w : Z → SanEvent → nat).

Definition qweight (i : nat) (l : list SanEvent) : nat := sum_list (w (pipe_of i) <$> l).

Fixpoint total_from (i : nat) (Q : list (list SanEvent)) : nat :=
  match Q with [] => 0 | l :: Q' => qweight i l + total_from (S i) Q' end.

Definition total : list (list SanEvent) → nat := total_from 0.

Lemma qweight_cons i e l : qweight i (e :: l) = (w (pipe_of i) e + qweight i l)%nat.
Proof. done. Qed.

Lemma qweight_app i l1 l2 : qweight i (l1 ++ l2) = (qweight i l1 + qweight i l2)%nat.
Proof. induction l1 as [|e l1 IH]; [done|]. rewrite <- app_comm_cons, !qweight_cons, IH. lia. Qed.

Lemma total_from_insert k Q i l l' :
  Q !! i = Some l → (total_from k (<[i := l']> Q) + qweight (k + i) l = total_from k Q + qweight (k + i) l')%nat.
Proof.
  revert k i. induction Q as [|x Q IH]; intros k [|i] Hl; simplify_eq/=; [rewrite Nat.add_0_r; lia|].
  specialize (IH (S k) i Hl). replace (k + S i)%nat with (S k + i)%nat by lia. lia.
Qed.

Lemma total_insert Q i l l' :
  Q !! i = Some l → (total (<[i := l']> Q) + qweight i l = total Q + qweight i l')%nat.
Proof. apply (total_from_insert 0). Qed.

Lemma total_from_queue k Q i l : Q !! i = Some l → (qweight (k + i) l <= total_from k Q)%nat.
Proof.
  revert k i. induction Q as [|x Q IH]; intros k [|i] Hl; simplify_eq/=; [rewrite Nat.add_0_r; lia|].
  specialize (IH (S k) i Hl). replace (k + S i)%nat with (S k + i)%nat by lia. lia.
Qed.

Context (Hw : ∀ p e, (1 <= w p e)%nat).

Lemma qweight_length i l : (length l <= qweight i l)%nat.
Proof. induction l as [|e l IH]; [simpl; lia|]. rewrite qweight_cons. simpl. pose proof (Hw (pipe_of i) e). lia. Qed.

Lemma total_queue_length Q i l : Q !! i = Some l → (length l <= total Q)%nat.
Proof. intros Hl. pose proof (total_from_queue 0 Q i l Hl). pose proof (qweight_length i l). unfold total. simpl in *. lia. Qed.

Lemma total_empty Q : total Q = 0%nat ↔ Forall (λ l, l = []) Q.
Proof.
  unfold total. cut (∀ k, total_from k Q = 0%nat ↔ Forall (λ l, l = []) Q); [done|].
  induction Q as [|l Q IH]; intros k; simpl; [by split; intros; constructor|].
  rewrite Forall_cons, <- (IH (S k)). pose proof (qweight_length k l) as Hq. split.
  - intros H0. split; [|lia]. apply length_zero_iff_nil. lia.
  - intros [-> H0]. rewrite H0. done.
Qed.
End weights.

(** ** Effect of the operations *)

Lemma conts_update c i q q' :
  at_index (ques_ c) i = Some q → contents <$> set_index (ques_ c) i q' = <[Z.to_nat i := contents q']> (conts c).
Proof. intros _. unfold set_index, conts. by rewrite list_fmap_insert. Qed.

Lemma ok_with_ques c i q q' :
  cont_ok c → at_index (ques_ c) i = Some q → queue_ok q' → cont_ok (with_ques (set_index (ques_ c) i q') c).
Proof.
  intros [? ? ? ? ? ? ? ?] Hq Hok. split; try done; simpl.
  - unfold set_index. by rewrite length_insert.
  - by apply Forall_insert.
Qed.

(** Everything but the queues is the same. *)
Definition same_pos (c c' : EventContainer) : Prop := c' = with_ques (ques_ c') c.

Lemma same_pos_refl c : same_pos c c.
Proof. by destruct c. Qed.

Lemma same_pos_trans c1 c2 c3 : same_pos c1 c2 → same_pos c2 c3 → same_pos c1 c3.
Proof. unfold same_pos. intros -> ->. done. Qed.

Lemma same_pos_cur c c' : same_pos c c' → cur c' = cur c.
Proof. by intros ->. Qed.

Lemma push_all_ok l q :
  queue_ok q → size_ q + Z.of_nat (length l) < 4294967296 →
  ∃ q', push_all l q = Some q' ∧ queue_ok q' ∧ contents q' = contents q ++ l.
Proof.
  revert q. induction l as [|e l IH]; intros q Hok Hlt; simpl in *.
  - exists q. by rewrite app_nil_r.
  - destruct (Push_ok e q Hok) as (q1 & -> & Hok1 & Hc1); [lia|]. simpl.
    pose proof (q_size _ Hok1) as Hs. rewrite Hc1, length_app in Hs. simpl in Hs.
    pose proof (q_size _ Hok). destruct (IH q1 Hok1) as (q2 & -> & Hok2 & Hc2); [lia|].
    exists q2. split_and!; [done..|]. by rewrite Hc2, Hc1, <- app_assoc.
Qed.

Lemma split_copy_length e : (length (split_copy e) <= 2)%nat.
Proof. unfold split_copy. destruct (eventInfo e); simpl; try lia. case_bool_decide; simpl; lia. Qed.

(** [Push] appends to the queue of its pipe and block. *)
Lemma Push_cont e p b c l :
  cont_ok c → 0 <= PipeType_code p < 12 → 0 <= b < maxBlockNum_ c → deviceNum_ c = 1 →
  conts c !! Z.to_nat (b * 12 + PipeType_code p) = Some l →
  Z.of_nat (length l) + 2 < 4294967296 →
  ∃ c', Push e p b 0 c = Some c' ∧ cont_ok c' ∧ same_pos c c' ∧
    conts c' = <[Z.to_nat (b * 12 + PipeType_code p) := l ++ split_copy e]> (conts c).
Proof.
  intros Hc Hp Hb Hd Hl Hlt. unfold Push. rewrite Hd.
  destruct (Z.leb_spec (maxBlockNum_ c) b); [lia|]. cbn [Z.leb Z.compare].
  destruct (flatten_eq c Hc (PipeType_code p) b 0) as [Hfl Hr]; [lia|lia|lia|].
  rewrite Hfl. replace ((0 * maxBlockNum_ c + b) * 12 + PipeType_code p) with (b * 12 + PipeType_code p) in * by lia.
  set (i := b * 12 + PipeType_code p) in *.
  destruct (que_at c Hc i Hr) as (q & Hq & Hok & Hq'). rewrite Hq. cbn [mbind option_bind].
  assert (contents q = l) as Hcont by congruence.
  pose proof (split_copy_length e). pose proof (q_size _ Hok) as Hs. rewrite Hcont in Hs.
  destruct (push_all_ok (split_copy e) q Hok) as (q' & -> & Hok' & Hc'); [lia|]. cbn [mbind option_bind].
  eexists. split; [done|]. split_and!; [by eapply ok_with_ques|done|].
  unfold conts. simpl. rewrite (conts_update c i q q' Hq). by rewrite Hc', Hcont.
Qed.

(** A push to a block that does not exist is dropped. *)
Lemma Push_out e p b c : maxBlockNum_ c <= b → Push e p b 0 c = Some c.
Proof. intros Hb. unfold Push. by destruct (Z.leb_spec (maxBlockNum_ c) b); [|lia]. Qed.

Lemma Pop_cont c e rest :
  cont_ok c → conts c !! cur c = Some (e :: rest) →
  ∃ c', Pop c = Some c' ∧ cont_ok c' ∧ conts c' = <[cur c := rest]> (conts c) ∧
    deviceNum_ c' = deviceNum_ c ∧ maxBlockNum_ c' = maxBlockNum_ c ∧
    blockPopCount_ c' = u32 (blockPopCount_ c + 1) ∧ devicePopCount_ c' = u32 (devicePopCount_ c + 1) ∧
    isBlockStuck_ c' = isBlockStuck_ c ∧ isDeviceStuck_ c' = isDeviceStuck_ c ∧
    stuckDeviceNum_ c' = stuckDeviceNum_ c ∧ pipeIndex_ c' = pipeIndex_ c ∧ blockIndex_ c' = blockIndex_ c ∧
    deviceIndex_ c' = deviceIndex_ c.
Proof.
  intros Hc Hl. unfold Pop. destruct (cur_que c Hc) as (q & Hq & Hok & Hq'). rewrite Hq. simpl.
  assert (contents q = e :: rest) as Hcont by congruence.
  destruct (Pop_ok e rest q Hok Hcont) as (q' & -> & Hok' & Hc'). simpl. eexists. split; [done|].
  split_and!; try done.
  - pose proof (ok_with_ques c _ q q' Hc Hq Hok') as H. destruct H, Hc. by split.
  - unfold conts at 1. simpl. rewrite (conts_update c _ q q' Hq), Hc'. done.
Qed.

(** ** The interface of the event function

    [weight p e] bounds the work left for an event in a queue of pipe [p];
    [HInv] is the invariant of the client over the queue contents and its own
    state; [Blocked x i e] says that the event [e] at the front of queue [i]
    cannot be processed. A processed event leaves less work; a stalled one is
    blocked and unblocks no other. *)
Class Handler {X} (f : EventContainer * X → SanEvent → option (EventContainer * X * ReturnType)) := {
  weight : Z → SanEvent → nat;
  HInv : list (list SanEvent) → X → Prop;
  Blocked : X → nat → SanEvent → Prop;
  weight_pos p e : (1 <= weight p e)%nat;
  h_step c x e rest :
    cont_ok c → deviceNum_ c = 1 → HInv (conts c) x → Z.of_nat (total weight (conts c)) < 2147483648 →
    conts c !! cur c = Some (e :: rest) →
    ∃ c' x' r, f (c, x) e = Some (c', x', r) ∧
      match r with
      | PROCESS_OK =>
          cont_ok c' ∧ same_pos c c' ∧ ∃ rest', conts c' !! cur c = Some (e :: rest') ∧
            HInv (<[cur c := rest']> (conts c')) x' ∧
            (total weight (<[cur c := rest']> (conts c')) < total weight (conts c))%nat
      | PROCESS_STALLED =>
          c' = c ∧ HInv (conts c) x' ∧ Blocked x' (cur c) e ∧ ∀ i e', Blocked x i e' → Blocked x' i e'
      end;
  h_blocked c x e rest :
    cont_ok c → deviceNum_ c = 1 → HInv (conts c) x → conts c !! cur c = Some (e :: rest) →
    Blocked x (cur c) e → ∃ x', f (c, x) e = Some (c, x', PROCESS_STALLED);
}.

Section run.
Context {X : Type} (f : EventContainer * X → SanEvent → option (EventContainer * X * ReturnType)) `{!Handler f}.

Definition stuck (x : X) (Q : list (list SanEvent)) (i : nat) : Prop :=
  ∀ e rest, Q !! i = Some (e :: rest) → Blocked x i e.

Definition block_stuck (x : X) (Q : list (list SanEvent)) (b : Z) : Prop :=
  ∀ p, 0 <= p < 12 → stuck x Q (Z.to_nat (b * 12 + p)).

Definition tot (c : EventContainer) : Z := Z.of_nat (total weight (conts c)).

(** What holds between two iterations; [T] is the initial weight. *)
Record loop_ok (T : Z) (st : PipeState) (c : EventContainer) (x : X) : Prop := {
  l_ok : cont_ok c;
  l_dev : deviceNum_ c = 1;
  l_inv : HInv (conts c) x;
  l_T : T < 2147483648;
  l_bpop : 0 <= blockPopCount_ c ∧ blockPopCount_ c + tot c <= T;
  l_dpop : 0 <= devicePopCount_ c ∧ devicePopCount_ c + tot c <= T;
  l_num : stopped st = false → stuckDeviceNum_ c = 0;
  l_before : devicePopCount_ c = 0 → ∀ b, 0 <= b < blockIndex_ c → block_stuck x (conts c) b;
  l_pipes : blockPopCount_ c = 0 → ∀ p, 0 <= p < pipeIndex_ c →
              stuck x (conts c) (Z.to_nat (blockIndex_ c * 12 + p));
  l_block : isBlockStuck_ c = true → block_stuck x (conts c) (blockIndex_ c);
  l_all : isDeviceStuck_ c = true → tot c ≠ 0 ∧ ∀ i, stuck x (conts c) i;
  l_state :
    match st with
    | PROCESS_EVENT => isBlockStuck_ c = false ∧ isDeviceStuck_ c = false ∧ tot c ≠ 0 ∧
                       ∃ e rest, conts c !! cur c = Some (e :: rest)
    | CHECK_CUR_PIPE => isBlockStuck_ c = false ∧ isDeviceStuck_ c = false ∧ (devicePopCount_ c = 0 → tot c ≠ 0)
    | CHECK_CUR_BLOCK => isDeviceStuck_ c = false ∧ (devicePopCount_ c = 0 → tot c ≠ 0)
    | CHECK_CUR_DEVICE => isBlockStuck_ c = false
    | CHECK_ALL_DEVICE => isBlockStuck_ c = false ∧ isDeviceStuck_ c = false
    | EXIT => tot c = 0
    | EXCEPTION => tot c ≠ 0 ∧ ∀ i, stuck x (conts c) i
    end;
}.

(** *** The measure *)

Definition K (c : EventContainer) : Z :=
  if isDeviceStuck_ c then 0
  else (if devicePopCount_ c =? 0 then 0 else maxBlockNum_ c) + (maxBlockNum_ c - blockIndex_ c).

Definition R (c : EventContainer) : Z :=
  if isBlockStuck_ c then 0 else (if blockPopCount_ c =? 0 then 0 else 12) + (12 - pipeIndex_ c).

Definition measure (st : PipeState) (c : EventContainer) : Z :=
  if tot c =? 0 then
    match st with PROCESS_EVENT => 6 | CHECK_CUR_PIPE => 5 | CHECK_CUR_BLOCK => 4 | CHECK_CUR_DEVICE => 3
             | CHECK_ALL_DEVICE => 2 | _ => 0 end
  else
    match st with
    | EXIT | EXCEPTION => 0
    | _ => 8 + tot c * (200 * maxBlockNum_ c + 200) + K c * 100 + R c * 4 +
           match st with CHECK_ALL_DEVICE => 4 | CHECK_CUR_DEVICE => 3 | CHECK_CUR_BLOCK => 2
                    | CHECK_CUR_PIPE => 1 | _ => 0 end
    end.

Lemma K_range c : cont_ok c → 0 <= K c <= 2 * maxBlockNum_ c.
Proof.
  intros Hc. pose proof (c_block _ Hc). unfold K. destruct (isDeviceStuck_ c); [lia|].
  destruct (devicePopCount_ c =? 0); lia.
Qed.

Lemma R_range c : cont_ok c → 0 <= R c <= 24.
Proof.
  intros Hc. pose proof (c_pipe _ Hc). unfold R. destruct (isBlockStuck_ c); [lia|].
  destruct (blockPopCount_ c =? 0); lia.
Qed.

Lemma tot_nonneg c : 0 <= tot c.
Proof. unfold tot. lia. Qed.

Lemma measure_nonneg st c : cont_ok c → 0 <= measure st c.
Proof.
  intros Hc. pose proof (K_range c Hc). pose proof (R_range c Hc). pose proof (tot_nonneg c).
  pose proof (c_blk _ Hc). unfold measure. destruct (tot c =? 0); destruct st; nia.
Qed.

Lemma tot_empty c : tot c = 0 ↔ Forall (λ l, l = []) (conts c).
Proof. unfold tot. rewrite <- (total_empty weight weight_pos). lia. Qed.

Definition progress (T : Z) (s : PipeState * (EventContainer * X)) : Prop :=
  ∃ st c x, step (Some f) s = Some (st, (c, x)) ∧ loop_ok T st c x ∧ measure st c < measure s.1 s.2.1.

(** Moving the position keeps the queues. *)
Definition moved (c : EventContainer) (bp dp : Z) (bs ds : bool) (sn p b : Z) : EventContainer :=
  mkCont (ques_ c) (deviceNum_ c) (maxBlockNum_ c) bp dp bs ds sn p b (deviceIndex_ c).

Lemma ok_moved c bp dp bs ds sn p b :
  cont_ok c → 0 <= p < 12 → 0 <= b < maxBlockNum_ c → cont_ok (moved c bp dp bs ds sn p b).
Proof. intros [] ? ?. by split. Qed.

Lemma tot_moved c bp dp bs ds sn p b : tot (moved c bp dp bs ds sn p b) = tot c.
Proof. done. Qed.

Lemma step_all T c x : loop_ok T CHECK_ALL_DEVICE c x → progress T (CHECK_ALL_DEVICE, (c, x)).
Proof.
  intros H. pose proof (l_ok _ _ _ _ H) as Hc. destruct (l_state _ _ _ _ H) as [Hb Hd].
  unfold progress, step. cbn [fst snd]. unfold CheckAllDevice. cbn [fst snd].
  pose proof (IsEmpty_spec c Hc) as He. rewrite <- tot_empty in He.
  pose proof (K_range c Hc). pose proof (R_range c Hc). pose proof (tot_nonneg c). pose proof (c_blk _ Hc).
  destruct (IsEmpty c).
  - exists EXIT, c, x. split; [done|]. assert (tot c = 0) as Ht by by apply He.
    split; [destruct H; split; done|]. unfold measure. rewrite Ht. simpl. lia.
  - exists CHECK_CUR_DEVICE, c, x. split; [done|].
    assert (tot c ≠ 0) as Ht by (intros E; apply He in E; done).
    split; [destruct H; split; done|]. unfold measure. destruct (Z.eqb_spec (tot c) 0); [done|]. lia.
Qed.

Lemma step_device T c x : loop_ok T CHECK_CUR_DEVICE c x → progress T (CHECK_CUR_DEVICE, (c, x)).
Proof.
  intros H. pose proof (l_ok _ _ _ _ H) as Hc. pose proof (l_state _ _ _ _ H) as Hb. simpl in Hb.
  pose proof (l_dev _ _ _ _ H) as Hdev. pose proof (l_num _ _ _ _ H eq_refl) as Hnum.
  pose proof (tot_nonneg c) as Htn. pose proof (c_blk _ Hc).
  pose proof (K_range c Hc). pose proof (R_range c Hc).
  unfold progress, step. cbn [fst snd]. unfold CheckCurDevice, IsNeedSwitchNextDevice. cbn [fst snd].
  destruct (isDeviceStuck_ c) eqn:Hds; simpl.
  - (* all blocked *)
    assert (CheckCurDeviceStuck c = moved c (blockPopCount_ c) (devicePopCount_ c) (isBlockStuck_ c) true 1
      (pipeIndex_ c) (blockIndex_ c)) as ->.
    { unfold CheckCurDeviceStuck, moved. by rewrite Hds, Hnum. }
    assert (IsAllDeviceStuck (moved c (blockPopCount_ c) (devicePopCount_ c) (isBlockStuck_ c) true 1
      (pipeIndex_ c) (blockIndex_ c)) = true) as -> by (unfold IsAllDeviceStuck; simpl; by rewrite Hdev).
    destruct (l_all _ _ _ _ H Hds) as [Ht Hst].
    eexists EXCEPTION, _, x. split; [done|]. split.
    + split; rewrite ?tot_moved; simpl; try done; try apply H. by apply ok_moved; apply Hc.
    + unfold measure. rewrite tot_moved. destruct (Z.eqb_spec (tot c) 0); [done|]. nia.
  - destruct (IsCurDeviceEmpty_spec c Hc Hdev) as (b & -> & He). simpl. rewrite <- tot_empty in He.
    destruct b; simpl.
    + (* no event left *)
      assert (tot c = 0) as Ht by by apply He.
      assert (SwitchToNextDevice (CheckCurDeviceStuck c) = moved c 0 0 false false 0 0 0) as ->.
      { unfold SwitchToNextDevice, CheckCurDeviceStuck, moved. simpl. rewrite Hds, Hdev, Zmod_1_r.
        pose proof (c_device _ Hc). f_equal. lia. }
      assert (IsAllDeviceStuck (CheckCurDeviceStuck c) = false) as ->.
      { unfold IsAllDeviceStuck, CheckCurDeviceStuck. simpl. by rewrite Hds, Hdev. }
      eexists CHECK_ALL_DEVICE, _, x. split; [done|]. pose proof (l_T _ _ _ _ H). pose proof (l_dpop _ _ _ _ H).
      split; [split; rewrite ?tot_moved; simpl; try done; try lia; [apply ok_moved; [done|lia|lia]|apply H]|].
      unfold measure. rewrite tot_moved, Ht. simpl. lia.
    + assert (tot c ≠ 0) as Ht by (intros E; apply He in E; done).
      exists CHECK_CUR_BLOCK, c, x. split; [done|]. split; [destruct H; split; done|].
      unfold measure. destruct (Z.eqb_spec (tot c) 0); [done|]. lia.
Qed.

Lemma switch_block c :
  cont_ok c →
  (blockIndex_ c + 1 < maxBlockNum_ c ∧
   SwitchToNextBlock c = moved c 0 (devicePopCount_ c) false (isDeviceStuck_ c) (stuckDeviceNum_ c) 0
                           (blockIndex_ c + 1)) ∨
  (blockIndex_ c + 1 = maxBlockNum_ c ∧
   SwitchToNextBlock c = moved c 0 0 false (devicePopCount_ c =? 0)
                           (if devicePopCount_ c =? 0 then stuckDeviceNum_ c else 0) 0 0).
Proof.
  intros Hc. pose proof (c_block _ Hc). pose proof (c_fit _ Hc). pose proof (c_dev _ Hc).
  assert (maxBlockNum_ c < 4294967296) by nia. unfold SwitchToNextBlock.
  rewrite u32_small by (unfold is_u32; lia).
  destruct (decide (blockIndex_ c + 1 = maxBlockNum_ c)) as [E|].
  - right. split; [done|]. rewrite E, Z_mod_same_full. simpl. unfold moved. f_equal.
    by destruct (devicePopCount_ c =? 0).
  - left. split; [lia|]. rewrite Z.mod_small by lia. by destruct (Z.eqb_spec (blockIndex_ c + 1) 0); [lia|].
Qed.

Lemma switch_pipe c :
  cont_ok c →
  (pipeIndex_ c + 1 < 12 ∧
   SwitchToNextPipe c = moved c (blockPopCount_ c) (devicePopCount_ c) (isBlockStuck_ c) (isDeviceStuck_ c)
                          (stuckDeviceNum_ c) (pipeIndex_ c + 1) (blockIndex_ c)) ∨
  (pipeIndex_ c = 11 ∧
   SwitchToNextPipe c = moved c 0 (devicePopCount_ c) (blockPopCount_ c =? 0) (isDeviceStuck_ c)
                          (stuckDeviceNum_ c) 0 (blockIndex_ c)).
Proof.
  intros Hc. pose proof (c_pipe _ Hc). unfold SwitchToNextPipe. change PIPE_NUM with 12.
  rewrite u32_small by (unfold is_u32; lia). destruct (decide (pipeIndex_ c = 11)) as [E|].
  - right. split; [done|]. by rewrite E.
  - left. split; [lia|]. rewrite Z.mod_small by lia. simpl.
    by destruct (Z.eqb_spec (pipeIndex_ c + 1) 0); [lia|].
Qed.

Lemma stuck_empty x Q i : Q !! i = Some [] → stuck x Q i.
Proof. intros E e rest Hl. congruence. Qed.

Lemma stuck_range (Q : list (list SanEvent)) (B : Z) x :
  Z.of_nat (length Q) = B * 12 → (∀ b, 0 <= b < B → block_stuck x Q b) → ∀ i, stuck x Q i.
Proof.
  intros Hl H i e rest Hi. pose proof (lookup_lt_Some _ _ _ Hi) as Hlt.
  specialize (H (Z.of_nat i / 12) ltac:(zdiv) (Z.of_nat i `mod` 12) ltac:(zdiv)).
  replace (Z.to_nat (Z.of_nat i / 12 * 12 + Z.of_nat i `mod` 12)) with i in H by zdiv. by eapply H.
Qed.

(** Leaving a block that is blocked or empty. *)
Lemma step_next_block T c x :
  loop_ok T CHECK_CUR_BLOCK c x → block_stuck x (conts c) (blockIndex_ c) →
  loop_ok T CHECK_CUR_DEVICE (SwitchToNextBlock c) x ∧
  measure CHECK_CUR_DEVICE (SwitchToNextBlock c) < measure CHECK_CUR_BLOCK c.
Proof.
  intros H Hst. pose proof (l_ok _ _ _ _ H) as Hc. destruct (l_state _ _ _ _ H) as [Hds Hne].
  pose proof (l_dev _ _ _ _ H) as Hdev. pose proof (l_num _ _ _ _ H eq_refl) as Hnum.
  pose proof (l_dpop _ _ _ _ H) as Hdp. pose proof (l_bpop _ _ _ _ H) as Hbp.
  pose proof (c_block _ Hc) as Hb. pose proof (l_T _ _ _ _ H) as HT. pose proof (R_range c Hc) as HR.
  pose proof (tot_nonneg c) as Htn. pose proof (c_blk _ Hc) as HB.
  assert (∀ b, devicePopCount_ c = 0 → 0 <= b < blockIndex_ c + 1 → block_stuck x (conts c) b) as Hall.
  { intros b H0 Hb'. destruct (decide (b = blockIndex_ c)) as [->|]; [done|].
    apply (l_before _ _ _ _ H H0). lia. }
  destruct (switch_block c Hc) as [ [Hlt ->]|[Hlt ->] ].
  - split.
    + split; rewrite ?tot_moved; simpl; try done; try lia; [by apply ok_moved; try lia|apply H|
        intros E b Hb'; by apply Hall; [|lia]|by rewrite Hds].
    + unfold measure, K, R. rewrite tot_moved. simpl. rewrite Hds.
      destruct (tot c =? 0); [lia|]. destruct (devicePopCount_ c =? 0), (isBlockStuck_ c), (blockPopCount_ c =? 0);
        pose proof (c_pipe _ Hc); lia.
  - split.
    + split; rewrite ?tot_moved; simpl; try done; try lia; [by apply ok_moved; try lia|apply H| |].
      * intros _. by destruct (devicePopCount_ c =? 0).
      * intros E. bool_prop. split; [by apply Hne|]. apply (stuck_range _ (maxBlockNum_ c)).
        { change (Z.of_nat (length (conts c)) = maxBlockNum_ c * 12).
          rewrite length_conts, (c_len _ Hc), Hdev. lia. } { intros b Hb'. apply Hall; [done|lia]. }
    + unfold measure, K, R. rewrite tot_moved. simpl. rewrite Hds.
      destruct (Z.eqb_spec (tot c) 0); [lia|].
      destruct (devicePopCount_ c =? 0), (isBlockStuck_ c), (blockPopCount_ c =? 0); simpl;
        pose proof (c_pipe _ Hc); lia.
Qed.

Lemma step_block T c x : loop_ok T CHECK_CUR_BLOCK c x → progress T (CHECK_CUR_BLOCK, (c, x)).
Proof.
  intros H. pose proof (l_ok _ _ _ _ H) as Hc. destruct (l_state _ _ _ _ H) as [Hds Hne].
  pose proof (l_dev _ _ _ _ H) as Hdev.
  unfold progress, step. cbn [fst snd]. unfold CheckCurBlock, IsNeedSwitchNextBlock. cbn [fst snd].
  assert (block_stuck x (conts c) (blockIndex_ c) → ∃ st c' x', Some (CHECK_CUR_DEVICE, (SwitchToNextBlock c, x)) =
    Some (st, (c', x')) ∧ loop_ok T st c' x' ∧ measure st c' < measure CHECK_CUR_BLOCK c) as Hnext.
  { intros Hst. destruct (step_next_block T c x H Hst) as [H1 H2].
    exists CHECK_CUR_DEVICE, (SwitchToNextBlock c), x. done. }
  destruct (isBlockStuck_ c) eqn:Hbs; simpl; [by apply Hnext, (l_block _ _ _ _ H)|].
  destruct (IsCurBlockEmpty_spec c Hc) as (b & -> & He). simpl.
  assert (deviceIndex_ c = 0) as Hdi by (pose proof (c_device _ Hc); lia). rewrite Hdi in He.
  destruct b; simpl.
  - apply Hnext. intros p Hp. apply stuck_empty. apply (proj1 He eq_refl p) in Hp. exact Hp.
  - assert (tot c ≠ 0) as Ht.
    { intros Ht. apply tot_empty in Ht. rewrite Forall_lookup in Ht. enough (false = true) by done. apply He.
      intros p Hp. destruct (que_at c Hc ((0 * maxBlockNum_ c + blockIndex_ c) * 12 + p)) as (q & _ & _ & Hq).
      { pose proof (c_block _ Hc). rewrite (c_len _ Hc), Hdev. lia. }
      rewrite Hq. f_equal. by eapply Ht. }
    exists CHECK_CUR_PIPE, c, x. split; [done|]. split; [destruct H; split; done|].
    unfold measure. destruct (Z.eqb_spec (tot c) 0); lia.
Qed.

Lemma cur_block c :
  cont_ok c → deviceNum_ c = 1 → cur c = Z.to_nat (blockIndex_ c * 12 + pipeIndex_ c).
Proof.
  intros Hc Hd. unfold cur. destruct (cur_eq c Hc) as [-> _]. pose proof (c_device _ Hc).
  assert (deviceIndex_ c = 0) as -> by lia. f_equal.
Qed.

(** Leaving a queue that is blocked or empty. *)
Lemma step_next_pipe T st c x :
  st = CHECK_CUR_PIPE ∨ st = PROCESS_EVENT → loop_ok T st c x → stuck x (conts c) (cur c) →
  (devicePopCount_ c = 0 → tot c ≠ 0) →
  loop_ok T CHECK_CUR_BLOCK (SwitchToNextPipe c) x ∧
  measure CHECK_CUR_BLOCK (SwitchToNextPipe c) < measure st c.
Proof.
  intros Hcase H Hst Hne. pose proof (l_ok _ _ _ _ H) as Hc. pose proof (c_pipe _ Hc) as Hp.
  assert (isBlockStuck_ c = false ∧ isDeviceStuck_ c = false) as [Hbs Hds].
  { destruct Hcase as [-> | ->]; destruct (l_state _ _ _ _ H) as (? & ? & _); done. }
  assert (stuckDeviceNum_ c = 0) as Hnum by (apply (l_num _ _ _ _ H); by destruct Hcase as [-> | ->]).
  rewrite (cur_block c Hc (l_dev _ _ _ _ H)) in Hst.
  pose proof (l_bpop _ _ _ _ H) as Hbp. pose proof (l_dpop _ _ _ _ H) as Hdp.
  assert (∀ p, blockPopCount_ c = 0 → 0 <= p < pipeIndex_ c + 1 →
    stuck x (conts c) (Z.to_nat (blockIndex_ c * 12 + p))) as Hall.
  { intros p H0 Hp'. destruct (decide (p = pipeIndex_ c)) as [->|]; [done|].
    apply (l_pipes _ _ _ _ H H0). lia. }
  destruct (switch_pipe c Hc) as [ [Hlt ->]|[Hlt ->] ].
  - split.
    + split; rewrite ?tot_moved; simpl; try done; try apply H; [by apply ok_moved; try lia; apply Hc|].
      intros E p Hp'. apply Hall; [done|lia].
    + unfold measure, K, R. rewrite tot_moved. simpl. rewrite Hbs, Hds.
      destruct (tot c =? 0); [destruct Hcase as [-> | ->]; lia|].
      destruct Hcase as [-> | ->]; destruct (blockPopCount_ c =? 0); lia.
  - split.
    + split; rewrite ?tot_moved; simpl; try done; try apply H; try lia; [by apply ok_moved; try lia; apply Hc|].
      intros E. bool_prop. intros p Hp'. apply Hall; [done|lia].
    + unfold measure, K, R. rewrite tot_moved. simpl. rewrite Hbs, Hds.
      destruct (tot c =? 0); [destruct Hcase as [-> | ->]; lia|].
      destruct Hcase as [-> | ->]; destruct (blockPopCount_ c =? 0); lia.
Qed.

Lemma step_pipe T c x : loop_ok T CHECK_CUR_PIPE c x → progress T (CHECK_CUR_PIPE, (c, x)).
Proof.
  intros H. pose proof (l_ok _ _ _ _ H) as Hc. destruct (l_state _ _ _ _ H) as (Hbs & Hds & Hne).
  unfold progress, step. cbn [fst snd]. unfold CheckCurPipe. cbn [fst snd].
  destruct (cur_lookup c Hc) as [l Hl]. rewrite (IsCurQueEmpty_spec c Hc l Hl). cbn [mbind option_bind].
  case_bool_decide as E.
  - subst l. destruct (step_next_pipe T CHECK_CUR_PIPE c x) as [H1 H2]; [by left|done|by apply stuck_empty|done|].
    by exists CHECK_CUR_BLOCK, (SwitchToNextPipe c), x.
  - destruct l as [|e rest]; [done|].
    assert (tot c ≠ 0) as Ht.
    { intros Ht. apply tot_empty in Ht. rewrite Forall_lookup in Ht. by apply Ht in Hl. }
    exists PROCESS_EVENT, c, x. split; [done|]. split; [destruct H; split; try done; split_and!; eauto|].
    unfold measure. destruct (Z.eqb_spec (tot c) 0); [done|lia].
Qed.

(** A stalled event changes only what is known to be blocked. *)
Lemma loop_ok_stall T c x x' :
  loop_ok T PROCESS_EVENT c x → HInv (conts c) x' → (∀ i e', Blocked x i e' → Blocked x' i e') →
  loop_ok T PROCESS_EVENT c x'.
Proof.
  intros H Hi Hm.
  assert (∀ i, stuck x (conts c) i → stuck x' (conts c) i) as Hs by (intros i Hst e rest He; eauto).
  destruct H. split; try done.
  - intros E b Hb p Hp. apply Hs. by apply l_before0.
  - intros E p Hp. apply Hs. by apply l_pipes0.
  - intros E p Hp. apply Hs. by apply l_block0.
  - intros E. destruct (l_all0 E). split; auto.
Qed.

Lemma step_process T c x : loop_ok T PROCESS_EVENT c x → progress T (PROCESS_EVENT, (c, x)).
Proof.
  intros H. pose proof (l_ok _ _ _ _ H) as Hc. pose proof (l_dev _ _ _ _ H) as Hdev.
  destruct (l_state _ _ _ _ H) as (Hbs & Hds & Ht & e & rest & Hl). pose proof (l_T _ _ _ _ H) as HT.
  pose proof (l_bpop _ _ _ _ H) as Hbp. pose proof (l_dpop _ _ _ _ H) as Hdp.
  unfold progress, step. cbn [fst snd]. unfold Process. cbn [fst snd].
  rewrite (Front_cont c Hc e rest Hl). cbn [mbind option_bind].
  destruct (h_step c x e rest Hc Hdev (l_inv _ _ _ _ H)) as (c' & x' & r & -> & Hr); [fold (tot c); lia|done|].
  cbn [mbind option_bind]. destruct r; cbn [fst snd].
  - destruct Hr as (Hc' & Hsame & rest' & Hl' & Hinv & Hlt).
    rewrite <- (same_pos_cur c c' Hsame) in Hl', Hinv, Hlt.
    destruct (Pop_cont c' e rest' Hc' Hl') as (c2 & -> & Hc2 & Hconts & P1 & P2 & P3 & P4 & P5 & P6 & P7 & P8 & P9 & P10).
    cbn [mbind option_bind]. rewrite Hsame in P1, P2, P3, P4, P5, P6, P7, P8, P9, P10. simpl in *.
    assert (tot c2 < tot c) as Hdec by (unfold tot; rewrite Hconts; lia).
    pose proof (tot_nonneg c2). rewrite u32_small in P3, P4 by (unfold is_u32; lia).
    exists CHECK_CUR_PIPE, c2, x'. split; [done|]. split.
    + split; try done; try lia; rewrite ?Hconts; try done; try congruence.
      * intros _. rewrite P7. by apply (l_num _ _ _ _ H).
      * split_and!; [congruence..|lia].
    + unfold measure. rewrite P2. destruct (Z.eqb_spec (tot c) 0); [done|].
      pose proof (K_range c2 Hc2) as HK2. pose proof (R_range c2 Hc2). rewrite P2 in HK2.
      pose proof (K_range c Hc). pose proof (R_range c Hc). pose proof (c_blk _ Hc).
      destruct (tot c2 =? 0); [nia|].
      assert (tot c2 * (200 * maxBlockNum_ c + 200) + (200 * maxBlockNum_ c + 200) <=
              tot c * (200 * maxBlockNum_ c + 200)) by nia. lia.
  - destruct Hr as (-> & Hinv & Hbl & Hmono).
    pose proof (loop_ok_stall T c x x' H Hinv Hmono) as H'.
    destruct (step_next_pipe T PROCESS_EVENT c x') as [H1 H2]; [by right|done| |done|].
    { intros e0 r0 E. rewrite E in Hl. by injection Hl as -> ->. }
    by exists CHECK_CUR_BLOCK, (SwitchToNextPipe c), x'.
Qed.

Lemma loop_step T st c x : stopped st = false → loop_ok T st c x → progress T (st, (c, x)).
Proof.
  destruct st; intros Hs H; try done;
    [by apply step_all|by apply step_device|by apply step_block|by apply step_pipe|by apply step_process].
Qed.

Lemma run_loop T n st c x :
  loop_ok T st c x → measure st c <= Z.of_nat n →
  ∃ st' c' x', (∀ fuel, (n <= fuel)%nat → Run (Some f) fuel (st, (c, x)) = Some (st', (c', x'))) ∧
    stopped st' = true ∧ loop_ok T st' c' x'.
Proof.
  revert st c x. induction n as [|n IH]; intros st c x H Hm.
  - destruct (stopped st) eqn:Hs.
    + exists st, c, x. split; [|done]. intros fuel _. destruct fuel; simpl; by rewrite Hs.
    + destruct (loop_step T st c x Hs H) as (st' & c' & x' & _ & H' & Hlt).
      pose proof (measure_nonneg st' c' (l_ok _ _ _ _ H')). simpl in Hlt. lia.
  - destruct (stopped st) eqn:Hs.
    + exists st, c, x. split; [|done]. intros fuel _. destruct fuel; simpl; by rewrite Hs.
    + destruct (loop_step T st c x Hs H) as (st1 & c1 & x1 & E & H1 & Hlt). simpl in Hlt.
      destruct (IH st1 c1 x1 H1 ltac:(lia)) as (st2 & c2 & x2 & Hrun & Hs2 & H2).
      exists st2, c2, x2. split; [|done]. intros [|fuel] Hf; [lia|]. simpl. rewrite Hs, E. simpl.
      apply Hrun. lia.
Qed.

(** The start of a replay: the container as [Init] leaves it, with events. *)
Definition start (c : EventContainer) : Prop :=
  cont_ok c ∧ deviceNum_ c = 1 ∧ blockPopCount_ c = 0 ∧ devicePopCount_ c = 0 ∧ isBlockStuck_ c = false ∧
  isDeviceStuck_ c = false ∧ stuckDeviceNum_ c = 0 ∧ pipeIndex_ c = 0 ∧ blockIndex_ c = 0.

Lemma start_loop c x :
  start c → HInv (conts c) x → tot c < 2147483648 → loop_ok (tot c) CHECK_ALL_DEVICE c x.
Proof.
  intros (Hc & Hd & Hb & Hp & Hbs & Hds & Hn & Hpi & Hbi) Hi Ht.
  split; try done; rewrite ?Hb, ?Hp, ?Hbs, ?Hds, ?Hpi, ?Hbi; try done; try lia; try (split; done || lia).
Qed.

(** Steps that suffice for a replay. *)
Definition run_bound (c : EventContainer) : nat :=
  Z.to_nat (tot c * (200 * maxBlockNum_ c + 200) + 200 * maxBlockNum_ c + 200).

Lemma pipeline_run c x :
  start c → HInv (conts c) x → tot c < 2147483648 →
  ∃ st c' x', (∀ fuel, (run_bound c <= fuel)%nat → Run (Some f) fuel (CHECK_ALL_DEVICE, (c, x)) = Some (st, (c', x'))) ∧
    cont_ok c' ∧ HInv (conts c') x' ∧
    ((st = EXIT ∧ Forall (λ l, l = []) (conts c')) ∨
     (st = EXCEPTION ∧ ¬ Forall (λ l, l = []) (conts c') ∧
      ∀ i e rest, conts c' !! i = Some (e :: rest) → Blocked x' i e)).
Proof.
  intros Hs Hi Ht. pose proof (start_loop c x Hs Hi Ht) as H. destruct Hs as (Hc & _).
  destruct (run_loop (tot c) (run_bound c) CHECK_ALL_DEVICE c x H) as (st & c' & x' & Hrun & Hst & H').
  { unfold run_bound, measure. pose proof (K_range c Hc). pose proof (R_range c Hc). pose proof (tot_nonneg c).
    pose proof (c_blk _ Hc). rewrite Z2Nat.id by nia. destruct (tot c =? 0); nia. }
  exists st, c', x'. split; [done|]. split; [apply H'|]. split; [apply H'|].
  pose proof (l_state _ _ _ _ H') as Hfin. destruct st; try done.
  - left. split; [done|]. by apply tot_empty.
  - right. destruct Hfin as [H1 H2]. split; [done|]. split; [by rewrite <- tot_empty|]. intros i e rest. apply H2.
Qed.
End run.

(** ** Two devices *)

Section forever.
Context {X : Type} (func : option (EventContainer * X → SanEvent → option (EventContainer * X * ReturnType))).

(** [n] iterations of the loop, none of them in a final state. *)
Fixpoint steps (n : nat) (s : PipeState * (EventContainer * X)) : option (PipeState * (EventContainer * X)) :=
  match n with
  | O => Some s
  | S n => if stopped s.1 then None else s ← step func s; steps n s
  end.

Lemma run_steps n fuel s s' : steps n s = Some s' → (n <= fuel)%nat → Run func fuel s = Run func (fuel - n) s'.
Proof.
  revert fuel s. induction n as [|n IH]; intros fuel s Hs Hf; simpl in Hs.
  - injection Hs as ->. by rewrite Nat.sub_0_r.
  - destruct fuel as [|fuel]; [lia|]. simpl. destruct (stopped s.1); [done|].
    destruct (step func s) as [s1|]; [|done]. simpl in *. apply IH; [done|lia].
Qed.

Lemma steps_before n m s s' : steps n s = Some s' → (m < n)%nat → ∃ s1, steps m s = Some s1 ∧ stopped s1.1 = false.
Proof.
  revert m s. induction n as [|n IH]; intros m s Hs Hm; [lia|]. simpl in Hs.
  destruct (stopped s.1) eqn:E; [done|]. destruct m as [|m]; simpl; [eauto|]. rewrite E.
  destruct (step func s) as [s1|]; [|done]. simpl in *. apply (IH m s1 Hs). lia.
Qed.

(** A loop that comes back to a state never stops. *)
Lemma run_cycle n s fuel : (0 < n)%nat → steps n s = Some s → Run func fuel s = None.
Proof.
  intros Hn Hs. induction fuel as [fuel IH] using lt_wf_ind.
  destruct (decide (n <= fuel)%nat) as [Hle|Hlt].
  - rewrite (run_steps n fuel s s Hs Hle). apply IH. lia.
  - destruct (steps_before n fuel s s Hs ltac:(lia)) as (s1 & H1 & H2).
    rewrite (run_steps fuel fuel s s1 H1 ltac:(lia)), Nat.sub_diag. simpl. by rewrite H2.
Qed.
End forever.

(** An event function that cannot process any event. *)
Definition stalls (s : EventContainer * unit) (_ : SanEvent) : option (EventContainer * unit * ReturnType) :=
  Some (s, PROCESS_STALLED).

(** Two devices of one block: the first has one waiting event, the second none. *)
Definition stuck_pair (e : SanEvent) : EventContainer :=
  with_ques (<[0%nat := mkQue [ [e] ] 0 1]> (ques_ (Init 1 2))) (Init 1 2).

(** With two devices, one finished and one blocked, [PipeLine::Run] loops
    forever: the finished device resets the count of stuck devices, so the test
    that is meant to leave the loop never succeeds. With the same event and one
    device the loop stops with an exception. *)
Theorem finished_device_hides_deadlock (e : SanEvent) :
  (∀ fuel, Run (Some stalls) fuel (CHECK_ALL_DEVICE, (stuck_pair e, tt)) = None) ∧
  ∃ fuel s, Run (Some stalls) fuel
    (CHECK_ALL_DEVICE, (with_ques (<[0%nat := mkQue [ [e] ] 0 1]> (ques_ (Init 1 1))) (Init 1 1), tt)) =
    Some (EXCEPTION, s).
Proof.
  split.
  - intros fuel. apply (run_cycle _ 31); [lia|]. vm_compute. reflexivity.
  - exists 100%nat. eexists. vm_compute. reflexivity.
Qed.
