(* ===== verification/SyncContainers.v ===== *)
(** The containers through which pipes, blocks and devices synchronise:
    [sync_event_data_base.cpp], [barrier_database.h/.hpp],
    [cross_core_sync_info_container.cpp] (all in [csrc/core/framework]) and
    [csrc/race_sanitizer/alg_framework/signal_database.cpp].

    Every container stores vector times. A [std::queue] is a list, its front
    first. [None] is an access outside a vector or array. *)
From stdpp Require Import base numbers option gmap sets list.
From S2P Require Import Prelude.
From S2P Require Import RecordDefs.
From S2P Require Import Platform.
From S2P Require Import EventDef.
From S2P Require Import VectorTime.
From S2P Require Import EventContainer.
Import VT.

(** ** [SyncEventDataBase] *)
Module SyncDb.
Record SyncEvent := mkSyncEvent { srcPipe : Z; dstPipe : Z; eventId : Z; memType : Z; isRetrogress : bool }.
#[global] Instance SyncEvent_eq : EqDecision SyncEvent. Proof. solve_decision. Defined.
#[global] Instance SyncEvent_countable : Countable SyncEvent.
Proof.
  refine (inj_countable' (λ e, (srcPipe e, dstPipe e, eventId e, memType e, isRetrogress e))
            (λ '(a, b, c, d, r), mkSyncEvent a b c d r) _).
  by intros [].
Defined.

Definition SyncEventDataBase : Type := gmap SyncEvent (list VectorTime).

Definition Set' (event : SyncEvent) (vt : VectorTime) (db : SyncEventDataBase) : SyncEventDataBase :=
  <[event := default [] (db !! event) ++ [vt]]> db.

(** [Get]: the vector time, when the result is [true]. *)
Definition Get (event : SyncEvent) (db : SyncEventDataBase) : SyncEventDataBase * option VectorTime :=
  match db !! event with
  | None => (db, None)
  | Some [] => (db, None)
  | Some (vt :: q) => (<[event := q]> db, Some vt)
  end.
End SyncDb.

(** ** [BarrierEvent] and [BarrierDatabase] *)
Module Barrier.
Record BarrierEvent := mkBarrier { allReachBarrier_ : bool; vtGlobal_ : VectorTime; reachedWorkers_ : gset Z }.

Definition new_BarrierEvent : BarrierEvent := mkBarrier false new_VectorTime ∅.

Definition IsAllReachBarrier (rank : Z) (b : BarrierEvent) : bool := rank <=? Z.of_nat (size (reachedWorkers_ b)).
Definition IsAllConsumeBarrier (b : BarrierEvent) : bool := bool_decide (reachedWorkers_ b = ∅).

(** The arrival part of [Wait]: the barrier, and whether the call returns
    [false] at once. *)
Definition arrive (rank worker : Z) (vtSelf : VectorTime) (b : BarrierEvent) : option (BarrierEvent * bool) :=
  if allReachBarrier_ b then Some (b, false)
  else
    vt ← (if empty (vtGlobal_ b) then Some vtSelf else VectorClock.UpdateVectorTime vtSelf (vtGlobal_ b));
    let b := mkBarrier false vt ({[worker]} ∪ reachedWorkers_ b) in
    if IsAllReachBarrier rank b then Some (mkBarrier true (vtGlobal_ b) (reachedWorkers_ b), false)
    else Some (b, true).

(** [Wait]: the global time, when the result is [true]. *)
Definition Wait (rank worker : Z) (vtSelf : VectorTime) (b : BarrierEvent)
    : option (BarrierEvent * option VectorTime) :=
  r ← arrive rank worker vtSelf b;
  match r with
  | (b, true) => Some (b, None)
  | (b, false) =>
      if bool_decide (worker ∈ reachedWorkers_ b) then
        let vt := vtGlobal_ b in
        let b := mkBarrier (allReachBarrier_ b) vt (reachedWorkers_ b ∖ {[worker]}) in
        Some (if IsAllConsumeBarrier b then mkBarrier false (clear vt) ∅ else b, Some vt)
      else Some (b, None)
  end.

(** [CrossNpuBarrierConf] *)
Definition Conf : Type := bool * Z * Z.
Definition BarrierDatabase : Type := gmap Conf BarrierEvent.

(** [operator[]] *)
Definition at_conf (conf : Conf) (d : BarrierDatabase) : BarrierEvent := default new_BarrierEvent (d !! conf).
End Barrier.

(** ** [SignalDatabase] *)
Module Signal.
Record Value := mkValue { value : Z; vt : VectorTime }.
Definition SignalDatabase : Type := gmap Z Value.

Definition Set' (event : MstxSignalSet) (t : VectorTime) (d : SignalDatabase) : SignalDatabase :=
  <[sigset_addr event := mkValue (sigset_value event) t]> d.

Definition Accumulate (event : MstxSignalSet) (t : VectorTime) (d : SignalDatabase) : option SignalDatabase :=
  match d !! sigset_addr event with
  | None => Some (<[sigset_addr event := mkValue (sigset_value event) t]> d)
  | Some v =>
      t' ← VectorClock.UpdateVectorTime t (vt v);
      Some (<[sigset_addr event := mkValue (Z.max (value v) (sigset_value event)) t']> d)
  end.

Definition compare (op : CompareOp) (a b : Z) : bool :=
  match op with
  | CMP_EQ => a =? b | CMP_NE => negb (a =? b) | CMP_GT => b <? a | CMP_GE => b <=? a
  | CMP_LT => a <? b | CMP_LE => a <=? b
  end.

(** [Wait]: the vector time, when the result is [true]. *)
Definition Wait (event : MstxSignalWait) (d : SignalDatabase) : option VectorTime :=
  match d !! sigwait_addr event with
  | None => None
  | Some v => if compare (sigwait_cmpOp event) (value v) (sigwait_cmpValue event) then Some (vt v) else None
  end.
End Signal.

(** ** [CrossCoreSyncInfoContainer] *)

Definition C220_VEC_SUB_BLOCKDIM : Z := 2.
Definition C220_MIX_SUB_BLOCKDIM : Z := 3.

(** [static_cast<FftsSyncMode>] of the mode byte: other values are no enumerator. *)
Inductive FftsSyncMode := MODE0 | MODE1 | MODE2 | MODE3 | MODE4 | MODE_OTHER.
Definition to_FftsSyncMode (m : Z) : FftsSyncMode :=
  if m =? 0 then MODE0 else if m =? 1 then MODE1 else if m =? 2 then MODE2 else if m =? 3 then MODE3
  else if m =? 4 then MODE4 else MODE_OTHER.

Module SemCores.
Record SemCores := mkSem { cores_ : Z; semSync_ : Z; semAfterSync_ : Z }.
Definition new_SemCores : SemCores := mkSem 0 0 0.
Definition Wait (s : SemCores) : SemCores * bool :=
  if semSync_ s =? 0 then (mkSem (cores_ s) 0 (u32 (semAfterSync_ s - 1)), true)
  else
    let n := u32 (semSync_ s - 1) in
    if n =? 0 then (mkSem (cores_ s) n (u32 (semAfterSync_ s - 1)), true)
    else (mkSem (cores_ s) n (semAfterSync_ s), false).
Definition GetCores (s : SemCores) : Z := cores_ s.
Definition RemainSyncAllCount (s : SemCores) : Z := u8 (semSync_ s).
Definition IsFinished (s : SemCores) : bool := (semSync_ s =? 0) && (semAfterSync_ s =? 0).
Definition Reset (cores : Z) : SemCores := mkSem cores (u32 cores) (u32 cores).
End SemCores.

Module Cross.
Record BlockSyncInfo := mkInfo {
  setVec0 : list VectorTime; setVec1 : list VectorTime; setVec2 : list VectorTime; setVec4 : list VectorTime;
  waitVec : list VectorTime; intrablockwaitVec : list VectorTime;
}.
Definition new_BlockSyncInfo : BlockSyncInfo := mkInfo [] [] [] [] [] [].

Definition push0 (v : VectorTime) (i : BlockSyncInfo) : BlockSyncInfo :=
  mkInfo (setVec0 i ++ [v]) (setVec1 i) (setVec2 i) (setVec4 i) (waitVec i) (intrablockwaitVec i).
Definition push1 (v : VectorTime) (i : BlockSyncInfo) : BlockSyncInfo :=
  mkInfo (setVec0 i) (setVec1 i ++ [v]) (setVec2 i) (setVec4 i) (waitVec i) (intrablockwaitVec i).
Definition push2 (v : VectorTime) (i : BlockSyncInfo) : BlockSyncInfo :=
  mkInfo (setVec0 i) (setVec1 i) (setVec2 i ++ [v]) (setVec4 i) (waitVec i) (intrablockwaitVec i).
Definition push4 (v : VectorTime) (i : BlockSyncInfo) : BlockSyncInfo :=
  mkInfo (setVec0 i) (setVec1 i) (setVec2 i) (setVec4 i ++ [v]) (waitVec i) (intrablockwaitVec i).
Definition pushWait (v : VectorTime) (i : BlockSyncInfo) : BlockSyncInfo :=
  mkInfo (setVec0 i) (setVec1 i) (setVec2 i) (setVec4 i) (waitVec i ++ [v]) (intrablockwaitVec i).
Definition pushIntra (v : VectorTime) (i : BlockSyncInfo) : BlockSyncInfo :=
  mkInfo (setVec0 i) (setVec1 i) (setVec2 i) (setVec4 i) (waitVec i) (intrablockwaitVec i ++ [v]).
Definition pop0 (i : BlockSyncInfo) : BlockSyncInfo :=
  mkInfo (tail (setVec0 i)) (setVec1 i) (setVec2 i) (setVec4 i) (waitVec i) (intrablockwaitVec i).
Definition pop1 (i : BlockSyncInfo) : BlockSyncInfo :=
  mkInfo (setVec0 i) (tail (setVec1 i)) (setVec2 i) (setVec4 i) (waitVec i) (intrablockwaitVec i).
Definition pop2 (i : BlockSyncInfo) : BlockSyncInfo :=
  mkInfo (setVec0 i) (setVec1 i) (tail (setVec2 i)) (setVec4 i) (waitVec i) (intrablockwaitVec i).
Definition pop4 (i : BlockSyncInfo) : BlockSyncInfo :=
  mkInfo (setVec0 i) (setVec1 i) (setVec2 i) (tail (setVec4 i)) (waitVec i) (intrablockwaitVec i).
Definition popWait (i : BlockSyncInfo) : BlockSyncInfo :=
  mkInfo (setVec0 i) (setVec1 i) (setVec2 i) (setVec4 i) (tail (waitVec i)) (intrablockwaitVec i).
Definition popIntra (i : BlockSyncInfo) : BlockSyncInfo :=
  mkInfo (setVec0 i) (setVec1 i) (setVec2 i) (setVec4 i) (waitVec i) (tail (intrablockwaitVec i)).

Record BlockSoftSyncInfo := mkSoft { mapVectorTime : gmap Z VectorTime; syncAll : bool; pipeIdx : Z }.
Definition new_BlockSoftSyncInfo : BlockSoftSyncInfo := mkSoft ∅ false 0.

(** [CrossCoreSyncWarnInfo]: the fields that are filled in. *)
Record CrossCoreSyncWarnInfo := mkWarn {
  warn_flagId : Z; warn_serialNo : Z; warn_deviceId : Z; warn_kernelIdx : Z; warn_coreId : Z;
  warn_blockType : BlockType; warn_pc : Z; warn_fileNo : Z; warn_lineNo : Z;
}.

Definition MAX_FLAG_ID : Z := 32.

Record CrossCoreSyncInfoContainer := mkCross {
  maxBlockNum_ : Z; kernelType_ : KernelType; vecSubBlockDim_ : Z;
  blockSyncEvent_ : list (list BlockSyncInfo);
  blockSoftSyncInfo_ : list BlockSoftSyncInfo;
  mstxCrossSetMap_ : gmap (Z * Z) (list VectorTime);
  semCores_ : SemCores.SemCores;
  flagIdWarnInfo_ : list CrossCoreSyncWarnInfo;
}.

Definition with_events (l : list (list BlockSyncInfo)) (c : CrossCoreSyncInfoContainer) : CrossCoreSyncInfoContainer :=
  mkCross (maxBlockNum_ c) (kernelType_ c) (vecSubBlockDim_ c) l (blockSoftSyncInfo_ c) (mstxCrossSetMap_ c)
    (semCores_ c) (flagIdWarnInfo_ c).
Definition with_soft (l : list BlockSoftSyncInfo) (s : SemCores.SemCores) (c : CrossCoreSyncInfoContainer) : CrossCoreSyncInfoContainer :=
  mkCross (maxBlockNum_ c) (kernelType_ c) (vecSubBlockDim_ c) (blockSyncEvent_ c) l (mstxCrossSetMap_ c)
    s (flagIdWarnInfo_ c).
Definition with_mstx (m : gmap (Z * Z) (list VectorTime)) (c : CrossCoreSyncInfoContainer) : CrossCoreSyncInfoContainer :=
  mkCross (maxBlockNum_ c) (kernelType_ c) (vecSubBlockDim_ c) (blockSyncEvent_ c) (blockSoftSyncInfo_ c) m
    (semCores_ c) (flagIdWarnInfo_ c).
Definition with_warn (w : list CrossCoreSyncWarnInfo) (c : CrossCoreSyncInfoContainer) : CrossCoreSyncInfoContainer :=
  mkCross (maxBlockNum_ c) (kernelType_ c) (vecSubBlockDim_ c) (blockSyncEvent_ c) (blockSoftSyncInfo_ c)
    (mstxCrossSetMap_ c) (semCores_ c) w.

Definition Init (blockNum : Z) (kernelType : KernelType) : CrossCoreSyncInfoContainer :=
  mkCross blockNum kernelType C220_VEC_SUB_BLOCKDIM
    (replicate (Z.to_nat blockNum) (replicate (Z.to_nat MAX_FLAG_ID) new_BlockSyncInfo))
    (replicate (Z.to_nat blockNum) new_BlockSoftSyncInfo) ∅ (SemCores.Reset 0) [].

Definition SetVecSubBlockDim (v : Z) (c : CrossCoreSyncInfoContainer) : CrossCoreSyncInfoContainer :=
  mkCross (maxBlockNum_ c) (kernelType_ c) v (blockSyncEvent_ c) (blockSoftSyncInfo_ c) (mstxCrossSetMap_ c)
    (semCores_ c) (flagIdWarnInfo_ c).

Definition IsAIC (blockIndex : Z) (kernelType : KernelType) : bool :=
  match kernelType with
  | KT_AICUBE => true
  | KT_MIX => blockIndex `mod` C220_MIX_SUB_BLOCKDIM =? C220_VEC_SUB_BLOCKDIM
  | _ => false
  end.

Definition GetAIVCount (c : CrossCoreSyncInfoContainer) : Z :=
  match kernelType_ c with
  | KT_MIX => u32 (maxBlockNum_ c / C220_MIX_SUB_BLOCKDIM * vecSubBlockDim_ c)
  | _ => maxBlockNum_ c
  end.

Definition GetAICCount (c : CrossCoreSyncInfoContainer) : Z :=
  match kernelType_ c with KT_MIX => maxBlockNum_ c / C220_MIX_SUB_BLOCKDIM | _ => maxBlockNum_ c end.

(** [blockSyncEvent_[block][flagId]] *)
Definition info (c : CrossCoreSyncInfoContainer) (block flagId : Z) : option BlockSyncInfo :=
  l ← at_index (blockSyncEvent_ c) block; at_index l flagId.

Definition update (block flagId : Z) (f : BlockSyncInfo → BlockSyncInfo) (c : CrossCoreSyncInfoContainer) : option CrossCoreSyncInfoContainer :=
  l ← at_index (blockSyncEvent_ c) block;
  i ← at_index l flagId;
  Some (with_events (set_index (blockSyncEvent_ c) block (set_index l flagId (f i))) c).

(** The indices of [for (i = from; i < max; i += by)]. *)
Fixpoint indices (fuel : nat) (from by_ max : Z) : list Z :=
  match fuel with
  | O => []
  | S fuel => if from <? max then from :: indices fuel (from + by_) by_ max else []
  end.

Definition all_blocks (c : CrossCoreSyncInfoContainer) : list Z := indices (Z.to_nat (maxBlockNum_ c)) 0 1 (maxBlockNum_ c).
Definition aic_blocks (c : CrossCoreSyncInfoContainer) : list Z :=
  indices (Z.to_nat (maxBlockNum_ c)) C220_VEC_SUB_BLOCKDIM C220_MIX_SUB_BLOCKDIM (maxBlockNum_ c).
Definition aiv_blocks (c : CrossCoreSyncInfoContainer) : list Z :=
  filter (λ i, IsAIC i (kernelType_ c) = false) (all_blocks c).

(** Collect and drop the front times of the blocks. *)
Fixpoint collect (blocks : list Z) (flagId : Z) (vt : VectorTime) (c : CrossCoreSyncInfoContainer)
    : option (VectorTime * CrossCoreSyncInfoContainer) :=
  match blocks with
  | [] => Some (vt, c)
  | i :: blocks' =>
      b ← info c i flagId;
      match setVec0 b with
      | [] => collect blocks' flagId vt c
      | v :: _ =>
          vt ← VectorClock.UpdateVectorTime v vt;
          c ← update i flagId pop0 c;
          collect blocks' flagId vt c
      end
  end.

Fixpoint broadcast (blocks : list Z) (flagId : Z) (vt : VectorTime) (c : CrossCoreSyncInfoContainer) : option CrossCoreSyncInfoContainer :=
  match blocks with
  | [] => Some c
  | i :: blocks' => c ← update i flagId (pushWait vt) c; broadcast blocks' flagId vt c
  end.

Definition UpdateSyncInfoInMode0 (aic : bool) (flagId : Z) (c : CrossCoreSyncInfoContainer) : option CrossCoreSyncInfoContainer :=
  let blocks := if aic then aic_blocks c else aiv_blocks c in
  r ← collect blocks flagId new_VectorTime c;
  let '(vt, c) := r in broadcast blocks flagId vt c.

Fixpoint count_set (blocks : list Z) (flagId : Z) (c : CrossCoreSyncInfoContainer) : option Z :=
  match blocks with
  | [] => Some 0
  | i :: blocks' =>
      b ← info c i flagId;
      n ← count_set blocks' flagId c;
      Some (n + if bool_decide (setVec0 b = []) then 0 else 1)
  end.

Definition SetMode0SyncInfo (flagId blockIdx : Z) (vectorTime : VectorTime) (c : CrossCoreSyncInfoContainer) : option CrossCoreSyncInfoContainer :=
  c ← update blockIdx flagId (push0 vectorTime) c;
  if IsAIC blockIdx (kernelType_ c) then
    setCount ← count_set (aic_blocks c) flagId c;
    if setCount =? GetAICCount c then UpdateSyncInfoInMode0 true flagId c else Some c
  else
    setCount ← count_set (aiv_blocks c) flagId c;
    if setCount =? GetAIVCount c then UpdateSyncInfoInMode0 false flagId c else Some c.

(** The other vector core of the group. *)
Definition aiv_peer (blockIdx : Z) : Z :=
  u32 (u32 (C220_VEC_SUB_BLOCKDIM - blockIdx `mod` C220_MIX_SUB_BLOCKDIM - 1) +
       blockIdx / C220_MIX_SUB_BLOCKDIM * C220_MIX_SUB_BLOCKDIM).

Definition SetMode1SyncInfo (flagId blockIdx : Z) (vectorTime : VectorTime) (c : CrossCoreSyncInfoContainer) : option CrossCoreSyncInfoContainer :=
  if IsAIC blockIdx (kernelType_ c) then Some c
  else
    let aivInGroup := aiv_peer blockIdx in
    b ← info c aivInGroup flagId;
    match setVec1 b with
    | v :: _ =>
        blv ← VectorClock.UpdateVectorTime vectorTime v;
        c ← update aivInGroup flagId pop1 c;
        c ← update blockIdx flagId (pushWait blv) c;
        update aivInGroup flagId (pushWait blv) c
    | [] => update blockIdx flagId (push1 vectorTime) c
    end.

(** The vector core paired with a cube core, and the cube core paired with a
    vector core, when there is one vector core per cube core. *)
Definition aiv_of_aic (blockIdx : Z) : Z :=
  blockIdx / C220_MIX_SUB_BLOCKDIM / C220_VEC_SUB_BLOCKDIM * C220_MIX_SUB_BLOCKDIM +
  (blockIdx / C220_MIX_SUB_BLOCKDIM) `mod` C220_VEC_SUB_BLOCKDIM.
Definition aic_of_aiv (blockIdx : Z) : Z :=
  u32 (C220_MIX_SUB_BLOCKDIM * (blockIdx / C220_MIX_SUB_BLOCKDIM * C220_VEC_SUB_BLOCKDIM +
                                blockIdx `mod` C220_MIX_SUB_BLOCKDIM) + C220_VEC_SUB_BLOCKDIM).

Definition SetMode2SyncInfo (flagId blockIdx : Z) (vectorTime : VectorTime) (vecSubBlockDim : Z) (c : CrossCoreSyncInfoContainer)
    : option CrossCoreSyncInfoContainer :=
  if vecSubBlockDim =? 0 then Some c
  else
    c ← update blockIdx flagId (push2 vectorTime) c;
    if vecSubBlockDim =? 1 then
      if IsAIC blockIdx (kernelType_ c) then
        c ← update (aiv_of_aic blockIdx) flagId (pushWait vectorTime) c;
        update blockIdx flagId pop2 c
      else
        c ← update (aic_of_aiv blockIdx) flagId (pushWait vectorTime) c;
        update blockIdx flagId pop2 c
    else if IsAIC blockIdx (kernelType_ c) then
      c ← update (u32 (blockIdx - 1)) flagId (pushWait vectorTime) c;
      c ← update (u32 (blockIdx - 2)) flagId (pushWait vectorTime) c;
      update blockIdx flagId pop2 c
    else
      let aivInGroup := aiv_peer blockIdx in
      b ← info c aivInGroup flagId;
      match setVec2 b with
      | [] => Some c
      | v :: _ =>
          let aicInGroup := 2 + blockIdx / C220_MIX_SUB_BLOCKDIM * C220_MIX_SUB_BLOCKDIM in
          vt ← VectorClock.UpdateVectorTime vectorTime v;
          c ← update aicInGroup flagId (pushWait vt) c;
          c ← update blockIdx flagId pop2 c;
          update aivInGroup flagId pop2 c
      end.

Definition AddFlagIdWarnInfo (flagId : Z) (loc : LocInfo) (serialNo : Z) (c : CrossCoreSyncInfoContainer) : CrossCoreSyncInfoContainer :=
  with_warn (flagIdWarnInfo_ c ++ [mkWarn flagId serialNo (deviceId loc) (kernelIdx loc) (coreId loc)
    (blockType loc) (pc loc) (fileNo loc) (lineNo loc)]) c.

Definition GetFlagIdWarnInfo (c : CrossCoreSyncInfoContainer) : list CrossCoreSyncWarnInfo := flagIdWarnInfo_ c.
Definition ClearFlagIdWarnInfo (c : CrossCoreSyncInfoContainer) : CrossCoreSyncInfoContainer := with_warn [] c.

Definition SetMode4SyncInfo (syncId blockIdx : Z) (vectorTime : VectorTime) (vecSubBlockDim : Z)
    (loc : LocInfo) (serialNo : Z) (c : CrossCoreSyncInfoContainer) : option CrossCoreSyncInfoContainer :=
  if vecSubBlockDim =? 0 then Some c
  else
    let illegal := negb (IsAIC blockIdx (kernelType_ c)) && (16 <=? syncId) in
    let c := if illegal then AddFlagIdWarnInfo syncId loc serialNo c else c in
    let syncId := if illegal then Z.land syncId 0xF else syncId in
    c ← update blockIdx syncId (push4 vectorTime) c;
    c ← (if vecSubBlockDim =? 1 then
           if IsAIC blockIdx (kernelType_ c)
           then update (aiv_of_aic blockIdx) syncId (pushIntra vectorTime) c
           else update (aic_of_aiv blockIdx) syncId (pushIntra vectorTime) c
         else if IsAIC blockIdx (kernelType_ c) then
           if syncId <=? 15 then update (u32 (blockIdx - 2)) syncId (pushIntra vectorTime) c
           else if (16 <=? syncId) && (syncId <=? 31)
           then update (u32 (blockIdx - 1)) (syncId - 16) (pushIntra vectorTime) c
           else Some c
         else
           let aicInGroup := 2 + blockIdx / C220_MIX_SUB_BLOCKDIM * C220_MIX_SUB_BLOCKDIM in
           let aiv0InGroup := blockIdx / C220_MIX_SUB_BLOCKDIM * C220_MIX_SUB_BLOCKDIM in
           if blockIdx =? aiv0InGroup then update aicInGroup syncId (pushIntra vectorTime) c
           else update aicInGroup (syncId + 16) (pushIntra vectorTime) c);
    update blockIdx syncId pop4 c.

Definition SetBlockSyncInfo (flagId : Z) (mode : FftsSyncMode) (blockIdx : Z) (vectorTime : VectorTime)
    (vecSubBlockDim : Z) (loc : LocInfo) (serialNo : Z) (c : CrossCoreSyncInfoContainer) : option CrossCoreSyncInfoContainer :=
  if MAX_FLAG_ID <? flagId then Some c
  else if maxBlockNum_ c <=? blockIdx then Some c
  else
    match mode with
    | MODE0 => SetMode0SyncInfo flagId blockIdx vectorTime c
    | MODE1 => SetMode1SyncInfo flagId blockIdx vectorTime c
    | MODE2 => SetMode2SyncInfo flagId blockIdx vectorTime vecSubBlockDim c
    | MODE4 => SetMode4SyncInfo flagId blockIdx vectorTime vecSubBlockDim loc serialNo c
    | _ => Some c
    end.

(** [GetBlockSyncInfo]: the new local time, when the result is [true]. *)
Definition GetBlockSyncInfo (flagId blockIdx : Z) (vectorTime : VectorTime) (c : CrossCoreSyncInfoContainer)
    : option (CrossCoreSyncInfoContainer * option VectorTime) :=
  if maxBlockNum_ c <=? blockIdx then Some (c, None)
  else
    b ← info c blockIdx flagId;
    match waitVec b with
    | [] => Some (c, None)
    | v :: _ =>
        t ← VectorClock.UpdateVectorTime v vectorTime;
        c ← update blockIdx flagId popWait c;
        Some (c, Some t)
    end.

Definition GetIntraBlockSyncInfo (syncId blockIdx : Z) (vectorTime : VectorTime) (c : CrossCoreSyncInfoContainer)
    : option (CrossCoreSyncInfoContainer * option VectorTime) :=
  if maxBlockNum_ c <=? blockIdx then Some (c, None)
  else
    let syncId := if negb (IsAIC blockIdx (kernelType_ c)) && (16 <=? syncId) then Z.land syncId 0xF else syncId in
    b ← info c blockIdx syncId;
    match intrablockwaitVec b with
    | [] => Some (c, None)
    | v :: _ =>
        t ← VectorClock.UpdateVectorTime v vectorTime;
        c ← update blockIdx syncId popIntra c;
        Some (c, Some t)
    end.

(** *** Soft synchronisation *)

Definition SetBlockSoftSyncInfo (eventID blockIdx : Z) (vectorTime : VectorTime) (c : CrossCoreSyncInfoContainer) : option CrossCoreSyncInfoContainer :=
  if maxBlockNum_ c <=? blockIdx then Some c
  else
    i ← at_index (blockSoftSyncInfo_ c) blockIdx;
    Some (with_soft (set_index (blockSoftSyncInfo_ c) blockIdx
            (mkSoft (<[eventID := vectorTime]> (mapVectorTime i)) (syncAll i) (pipeIdx i))) (semCores_ c) c).

Definition ConsumeBlockSoftSyncInfo (eventID blockIdx : Z) (vectorTime : VectorTime) (c : CrossCoreSyncInfoContainer)
    : option (CrossCoreSyncInfoContainer * option VectorTime) :=
  i ← at_index (blockSoftSyncInfo_ c) blockIdx;
  match mapVectorTime i !! eventID with
  | None => Some (c, None)
  | Some v =>
      t ← VectorClock.UpdateVectorTime v vectorTime;
      Some (with_soft (set_index (blockSoftSyncInfo_ c) blockIdx
              (mkSoft (delete eventID (mapVectorTime i)) (syncAll i) (pipeIdx i))) (semCores_ c) c, Some t)
  end.

Fixpoint consume_any (blocks : list Z) (eventID : Z) (vectorTime : VectorTime) (c : CrossCoreSyncInfoContainer)
    : option (CrossCoreSyncInfoContainer * option VectorTime) :=
  match blocks with
  | [] => Some (c, None)
  | b :: blocks' =>
      r ← ConsumeBlockSoftSyncInfo eventID b vectorTime c;
      match r with
      | (c, Some t) => Some (c, Some t)
      | (c, None) => consume_any blocks' eventID vectorTime c
      end
  end.

Definition GetBlockSoftSyncInfo (eventID peerCoreId : Z) (vectorTime : VectorTime) (c : CrossCoreSyncInfoContainer)
    : option (CrossCoreSyncInfoContainer * option VectorTime) :=
  if 0 <=? peerCoreId then
    if maxBlockNum_ c <=? peerCoreId then Some (c, None)
    else ConsumeBlockSoftSyncInfo eventID peerCoreId vectorTime c
  else consume_any (all_blocks c) eventID vectorTime c.

(** [SyncAll]: the container, the local time and the result. *)
Definition SyncAll (blockIdx usedCores pipeIdx_ : Z) (vecTime : VectorTime) (c : CrossCoreSyncInfoContainer)
    : option (CrossCoreSyncInfoContainer * VectorTime * bool) :=
  if (usedCores <? 0) || (i32 (maxBlockNum_ c) <? usedCores) then Some (c, vecTime, false)
  else
    let usedCores := if usedCores =? 0 then i32 (GetAIVCount c) else usedCores in
    if negb (SemCores.IsFinished (semCores_ c)) && negb (SemCores.GetCores (semCores_ c) =? usedCores)
    then Some (c, vecTime, false)
    else
      let c :=
        if SemCores.IsFinished (semCores_ c)
        then with_soft ((λ i, mkSoft (mapVectorTime i) false (pipeIdx i)) <$> blockSoftSyncInfo_ c)
               (SemCores.Reset usedCores) c
        else c in
      i ← at_index (blockSoftSyncInfo_ c) blockIdx;
      r ← (if negb (syncAll i) then
             t ← VectorClock.UpdateLogicTime pipeIdx_ vecTime;
             Some (with_soft (set_index (blockSoftSyncInfo_ c) blockIdx (mkSoft (mapVectorTime i) true pipeIdx_))
                     (semCores_ c) c, t)
           else Some (c, vecTime));
      let '(c, t) := r in
      i ← at_index (blockSoftSyncInfo_ c) blockIdx;
      if syncAll i && negb (SemCores.RemainSyncAllCount (semCores_ c) =? 0) then Some (c, t, false)
      else
        let '(s, b) := SemCores.Wait (semCores_ c) in
        Some (with_soft (blockSoftSyncInfo_ c) s c, t, b).

(** [UpdateSyncAllVectorTime]: the pipes of the blocks in the barrier take the
    times of each other, in order, in place. *)
Fixpoint sync_from (infos : list BlockSoftSyncInfo) (self : Z) (vec : list VectorTime) : option (list VectorTime) :=
  match infos with
  | [] => Some vec
  | o :: infos' =>
      if (self =? pipeIdx o) || negb (syncAll o) then sync_from infos' self vec
      else
        v ← at_index vec (pipeIdx o);
        t ← at_index vec self;
        t ← VectorClock.UpdateVectorTime v t;
        sync_from infos' self (set_index vec self t)
  end.

Fixpoint sync_each (infos all : list BlockSoftSyncInfo) (vec : list VectorTime) : option (list VectorTime) :=
  match infos with
  | [] => Some vec
  | i :: infos' =>
      if negb (syncAll i) then sync_each infos' all vec
      else _ ← at_index vec (pipeIdx i); vec ← sync_from all (pipeIdx i) vec; sync_each infos' all vec
  end.

Definition UpdateSyncAllVectorTime (vec : list VectorTime) (c : CrossCoreSyncInfoContainer) : option (list VectorTime) :=
  sync_each (blockSoftSyncInfo_ c) (blockSoftSyncInfo_ c) vec.

(** *** User-reported synchronisation *)

Definition SetMstxCrossInfo (stub : MstxCrossInfo) (vectorTime : VectorTime) (c : CrossCoreSyncInfoContainer) : CrossCoreSyncInfoContainer :=
  let key := (mstx_addr stub, mstx_flagId stub) in
  with_mstx (<[key := default [] (mstxCrossSetMap_ c !! key) ++ [vectorTime]]> (mstxCrossSetMap_ c)) c.

Definition GetMstxCrossInfo (stub : MstxCrossInfo) (localBlockTime : VectorTime) (c : CrossCoreSyncInfoContainer)
    : option (CrossCoreSyncInfoContainer * option VectorTime) :=
  let key := (mstx_addr stub, mstx_flagId stub) in
  match mstxCrossSetMap_ c !! key with
  | None => Some (c, None)
  | Some [] => Some (c, Some localBlockTime)
  | Some (v :: q) =>
      t ← VectorClock.UpdateVectorTime v localBlockTime;
      Some (with_mstx (if bool_decide (q = []) then delete key (mstxCrossSetMap_ c)
                       else <[key := q]> (mstxCrossSetMap_ c)) c, Some t)
  end.
End Cross.
