(* ===== verification/SyncProofs.v ===== *)
(** The synchronisation containers: what they promise to the replay and to the
    race check, and where they break. *)
From stdpp Require Import base numbers option gmap sets list.
From S2P Require Import Prelude.
From S2P Require Import RecordDefs.
From S2P Require Import Platform.
From S2P Require Import EventDef.
From S2P Require Import VectorTime.
From S2P Require Import VectorTimeProofs.
From S2P Require Import EventContainer.
From S2P Require Import SyncContainers.
Import VT Cross.

(** ** Well-formed containers *)

Record info_ok (i : BlockSyncInfo) : Prop := {
  i_0 : Forall wf (setVec0 i); i_1 : Forall wf (setVec1 i); i_2 : Forall wf (setVec2 i);
  i_4 : Forall wf (setVec4 i); i_w : Forall wf (waitVec i); i_b : Forall wf (intrablockwaitVec i);
}.

Lemma Forall_tail {A} (P : A → Prop) l : Forall P l → Forall P (tail l).
Proof. by intros []. Qed.

Lemma Forall_snoc {A} (P : A → Prop) l x : Forall P l → P x → Forall P (l ++ [x]).
Proof. intros. apply Forall_app. auto. Qed.

Create HintDb sync.
#[local] Hint Resolve Forall_tail Forall_snoc i_0 i_1 i_2 i_4 i_w i_b : sync.

(** Updates that keep the times of a cell well formed. *)
Definition keeps (f : BlockSyncInfo → BlockSyncInfo) : Prop := ∀ i, info_ok i → info_ok (f i).

Lemma keeps_push v : wf v →
  keeps (push0 v) ∧ keeps (push1 v) ∧ keeps (push2 v) ∧ keeps (push4 v) ∧ keeps (pushWait v) ∧ keeps (pushIntra v).
Proof. intros Hv. split_and!; intros i Hi; split; simpl; eauto with sync. Qed.

Lemma keeps_pop : keeps pop0 ∧ keeps pop1 ∧ keeps pop2 ∧ keeps pop4 ∧ keeps popWait ∧ keeps popIntra.
Proof. split_and!; intros i Hi; split; simpl; eauto with sync. Qed.

Record cross_ok (c : CrossCoreSyncInfoContainer) : Prop := {
  x_len : Z.of_nat (length (blockSyncEvent_ c)) = maxBlockNum_ c;
  x_flags : Forall (λ l, length l = 32%nat ∧ Forall info_ok l) (blockSyncEvent_ c);
  x_soft : Z.of_nat (length (blockSoftSyncInfo_ c)) = maxBlockNum_ c;
  x_softvt : Forall (λ i, map_Forall (λ _ v, wf v) (mapVectorTime i)) (blockSoftSyncInfo_ c);
  x_mstx : map_Forall (λ _ q, q ≠ [] ∧ Forall wf q) (mstxCrossSetMap_ c);
}.

(** The members that a hardware synchronisation does not change. *)
Definition same_rest (c c' : CrossCoreSyncInfoContainer) : Prop :=
  maxBlockNum_ c' = maxBlockNum_ c ∧ kernelType_ c' = kernelType_ c ∧ vecSubBlockDim_ c' = vecSubBlockDim_ c ∧
  blockSoftSyncInfo_ c' = blockSoftSyncInfo_ c ∧ mstxCrossSetMap_ c' = mstxCrossSetMap_ c ∧ semCores_ c' = semCores_ c.

Lemma same_rest_refl c : same_rest c c.
Proof. by split_and!. Qed.
#[local] Hint Resolve same_rest_refl : sync.

Lemma same_rest_trans c1 c2 c3 : same_rest c1 c2 → same_rest c2 c3 → same_rest c1 c3.
Proof. unfold same_rest. intros. destruct_and!. split_and!; congruence. Qed.

Definition step_ok (c : CrossCoreSyncInfoContainer) (r : option CrossCoreSyncInfoContainer) : Prop :=
  ∃ c', r = Some c' ∧ cross_ok c' ∧ same_rest c c'.

Lemma step_ret c : cross_ok c → step_ok c (Some c).
Proof. intros. exists c. eauto with sync. Qed.

Lemma step_bind c r (k : CrossCoreSyncInfoContainer → option CrossCoreSyncInfoContainer) :
  step_ok c r → (∀ c', cross_ok c' → same_rest c c' → step_ok c' (k c')) → step_ok c (c' ← r; k c').
Proof.
  intros (c1 & -> & H1 & S1) Hk. destruct (Hk c1 H1 S1) as (c2 & E & H2 & S2). exists c2. simpl.
  eauto using same_rest_trans.
Qed.

Lemma init_info_ok : info_ok new_BlockSyncInfo.
Proof. split; constructor. Qed.

Lemma init_cross_ok n k : 0 <= n → cross_ok (Init n k).
Proof.
  intros Hn. split; simpl; rewrite ?length_replicate; try lia.
  - apply Forall_replicate. split; [reflexivity|].
    apply (Forall_replicate _ (Z.to_nat MAX_FLAG_ID)), init_info_ok.
  - apply Forall_replicate, map_Forall_empty.
  - apply map_Forall_empty.
Qed.

Section access.
Context (c : CrossCoreSyncInfoContainer) (Hc : cross_ok c).

Lemma info_at b f :
  0 <= b < maxBlockNum_ c → 0 <= f < 32 → ∃ i, info c b f = Some i ∧ info_ok i.
Proof.
  intros Hb Hf. unfold info. rewrite <- (x_len _ Hc) in Hb.
  destruct (at_index_some _ _ Hb) as [l Hl]. rewrite Hl. simpl.
  unfold at_index in Hl. destruct (Z.leb_spec 0 b); [|lia].
  destruct (Forall_lookup_1 _ _ _ _ (x_flags _ Hc) Hl) as [Hlen Hok].
  destruct (at_index_some l f ltac:(lia)) as [i Hi]. exists i. split; [done|].
  unfold at_index in Hi. destruct (Z.leb_spec 0 f); [|lia]. by eapply Forall_lookup_1.
Qed.

Lemma info_update_ok b f g :
  0 <= b < maxBlockNum_ c → 0 <= f < 32 → keeps g → step_ok c (update b f g c).
Proof.
  intros Hb Hf Hg. unfold update. pose proof Hb as Hb'. rewrite <- (x_len _ Hc) in Hb'.
  destruct (at_index_some _ _ Hb') as [l Hl]. rewrite Hl. simpl.
  pose proof Hl as Hl'. unfold at_index in Hl'. destruct (Z.leb_spec 0 b); [|lia].
  destruct (Forall_lookup_1 _ _ _ _ (x_flags _ Hc) Hl') as [Hlen Hok].
  destruct (at_index_some l f ltac:(lia)) as [i Hi]. rewrite Hi. simpl.
  unfold at_index in Hi. destruct (Z.leb_spec 0 f); [|lia].
  pose proof (Forall_lookup_1 _ _ _ _ Hok Hi) as Hiok.
  eexists. split; [done|]. split; [|by split_and!].
  destruct Hc. split; simpl; try done; unfold set_index; rewrite ?length_insert; try done.
  apply Forall_insert; [done|]. rewrite length_insert. split; [done|]. by apply Forall_insert; [|apply Hg].
Qed.
End access.

(** ** Hardware synchronisation *)

Lemma indices_range fuel from by_ max i : 0 <= from → 0 <= by_ → i ∈ indices fuel from by_ max → 0 <= i < max.
Proof.
  revert from. induction fuel as [|fuel IH]; intros from H0 Hb Hi; simpl in *; [set_solver|].
  destruct (Z.ltb_spec from max); [|set_solver]. apply elem_of_cons in Hi as [->|Hi]; [lia|].
  apply (IH (from + by_)); [lia|done..].
Qed.

Definition in_range (c : CrossCoreSyncInfoContainer) (l : list Z) : Prop := Forall (λ b, 0 <= b < maxBlockNum_ c) l.

Lemma all_blocks_range c : in_range c (all_blocks c).
Proof. apply Forall_forall. intros i. by apply indices_range. Qed.
Lemma aic_blocks_range c : in_range c (aic_blocks c).
Proof. apply Forall_forall. intros i. by apply indices_range. Qed.
Lemma aiv_blocks_range c : in_range c (aiv_blocks c).
Proof.
  apply Forall_forall. intros i [_ Hi]%list_elem_of_filter. by eapply indices_range in Hi.
Qed.

Lemma update_keep b f v :
  wf v → ∀ c, cross_ok c → 0 <= b < maxBlockNum_ c → 0 <= f < 32 →
  step_ok c (update b f (push0 v) c) ∧ step_ok c (update b f (push1 v) c) ∧ step_ok c (update b f (push2 v) c) ∧
  step_ok c (update b f (push4 v) c) ∧ step_ok c (update b f (pushWait v) c) ∧ step_ok c (update b f (pushIntra v) c).
Proof.
  intros Hv c Hc Hb Hf. destruct (keeps_push v Hv) as (? & ? & ? & ? & ? & ?).
  split_and!; by apply info_update_ok.
Qed.

Lemma update_drop b f c :
  cross_ok c → 0 <= b < maxBlockNum_ c → 0 <= f < 32 →
  step_ok c (update b f pop0 c) ∧ step_ok c (update b f pop1 c) ∧ step_ok c (update b f pop2 c) ∧
  step_ok c (update b f pop4 c) ∧ step_ok c (update b f popWait c) ∧ step_ok c (update b f popIntra c).
Proof.
  intros Hc Hb Hf. destruct keeps_pop as (? & ? & ? & ? & ? & ?). split_and!; by apply info_update_ok.
Qed.

Lemma collect_ok blocks f vt c :
  cross_ok c → in_range c blocks → 0 <= f < 32 → wf vt →
  ∃ vt' c', collect blocks f vt c = Some (vt', c') ∧ wf vt' ∧ cross_ok c' ∧ same_rest c c'.
Proof.
  revert vt c. induction blocks as [|b blocks IH]; intros vt c Hc Hr Hf Hv; simpl.
  { exists vt, c. eauto with sync. }
  inversion_clear Hr as [|? ? Hb Hr']. destruct (info_at c Hc b f Hb Hf) as (i & -> & Hi). simpl.
  destruct (setVec0 i) as [|v q] eqn:Hq; [by apply IH|].
  assert (wf v) as Hwv by (pose proof (i_0 _ Hi) as H; rewrite Hq in H; by inversion H).
  destruct (UpdateVectorTime_joined v vt Hwv Hv) as (vt1 & -> & Hv1 & _). simpl.
  destruct (update_drop b f c Hc Hb Hf) as ((c1 & -> & Hc1 & S1) & _). simpl.
  destruct (IH vt1 c1 Hc1) as (vt2 & c2 & -> & ? & ? & ?); [|done|done|].
  { destruct S1 as (Hm & _). unfold in_range. by rewrite Hm. }
  exists vt2, c2. eauto using same_rest_trans.
Qed.

Lemma broadcast_ok blocks f vt c :
  cross_ok c → in_range c blocks → 0 <= f < 32 → wf vt → step_ok c (broadcast blocks f vt c).
Proof.
  revert c. induction blocks as [|b blocks IH]; intros c Hc Hr Hf Hv; simpl; [by apply step_ret|].
  inversion_clear Hr as [|? ? Hb Hr']. apply step_bind; [by apply update_keep|].
  intros c' Hc' (Hm & _). apply IH; try done. unfold in_range. by rewrite Hm.
Qed.

Lemma count_set_ok blocks f c :
  cross_ok c → in_range c blocks → 0 <= f < 32 →
  ∃ n, count_set blocks f c = Some n ∧ 0 <= n <= Z.of_nat (length blocks).
Proof.
  intros Hc Hr Hf. induction Hr as [|b blocks Hb Hr IH]; [by exists 0|]. cbn [count_set].
  destruct (info_at c Hc b f Hb Hf) as (i & -> & Hi). cbn [mbind option_bind].
  destruct IH as (n & -> & Hn). cbn [mbind option_bind]. eexists. split; [done|].
  cbn [length]. case_bool_decide; lia.
Qed.

Lemma mode0_ok f b vt c :
  cross_ok c → 0 <= b < maxBlockNum_ c → 0 <= f < 32 → wf vt → step_ok c (SetMode0SyncInfo f b vt c).
Proof.
  intros Hc Hb Hf Hv. unfold SetMode0SyncInfo. apply step_bind; [by apply update_keep|].
  intros c' Hc' Hs.
  assert (∀ aic, step_ok c' (UpdateSyncInfoInMode0 aic f c')) as Hup.
  { intros aic. unfold UpdateSyncInfoInMode0. set (bl := if aic then _ else _).
    assert (in_range c' bl) as Hr by (unfold bl; destruct aic; [apply aic_blocks_range|apply aiv_blocks_range]).
    destruct (collect_ok bl f new_VectorTime c' Hc' Hr Hf new_wf) as (t & c2 & -> & Ht & Hc2 & S2). simpl.
    destruct (broadcast_ok bl f t c2 Hc2) as (c3 & -> & ? & ?); [|done..|exists c3; eauto using same_rest_trans].
    destruct S2 as (Hm & _). unfold in_range. by rewrite Hm. }
  destruct (IsAIC b (kernelType_ c')).
  - destruct (count_set_ok (aic_blocks c') f c' Hc') as (n & -> & _); [apply aic_blocks_range|done|]. simpl.
    destruct (n =? GetAICCount c'); [apply Hup|by apply step_ret].
  - destruct (count_set_ok (aiv_blocks c') f c' Hc') as (n & -> & _); [apply aiv_blocks_range|done|]. simpl.
    destruct (n =? GetAIVCount c'); [apply Hup|by apply step_ret].
Qed.

(** The blocks a set signals exist. *)
Definition partners_exist (c : CrossCoreSyncInfoContainer) (mode : FftsSyncMode) (dim b : Z) : bool :=
  let aic := IsAIC b (kernelType_ c) in
  let ok x := x <? maxBlockNum_ c in
  match mode with
  | MODE1 => aic || ok (aiv_peer b)
  | MODE2 =>
      (dim =? 0) || (if dim =? 1 then ok (if aic then aiv_of_aic b else aic_of_aiv b)
                     else if aic then 2 <=? b else ok (aiv_peer b) && ok (2 + b / 3 * 3))
  | MODE4 =>
      (dim =? 0) || (if dim =? 1 then ok (if aic then aiv_of_aic b else aic_of_aiv b)
                     else if aic then 2 <=? b else ok (2 + b / 3 * 3))
  | _ => true
  end.

Lemma partners_same c c' mode dim b :
  same_rest c c' → partners_exist c' mode dim b = partners_exist c mode dim b.
Proof. intros (Hm & Hk & _). unfold partners_exist. by rewrite Hm, Hk. Qed.

Lemma peer_nonneg b : 0 <= aiv_peer b ∧ 0 <= aic_of_aiv b.
Proof. split; apply u32_range. Qed.

Lemma aiv_of_aic_nonneg b : 0 <= b → 0 <= aiv_of_aic b.
Proof.
  intros. unfold aiv_of_aic, C220_MIX_SUB_BLOCKDIM, C220_VEC_SUB_BLOCKDIM. assert (0 <= b / 3) by zdiv.
  generalize dependent (b / 3). intros q Hq. zdiv.
Qed.

Lemma mode1_ok f b vt c :
  cross_ok c → 0 <= b < maxBlockNum_ c → 0 <= f < 32 → wf vt → partners_exist c MODE1 0 b = true →
  step_ok c (SetMode1SyncInfo f b vt c).
Proof.
  intros Hc Hb Hf Hv Hp. unfold SetMode1SyncInfo. simpl in Hp.
  destruct (IsAIC b (kernelType_ c)); [by apply step_ret|]. simpl in Hp. bool_prop.
  pose proof (peer_nonneg b) as [Hn _]. assert (0 <= aiv_peer b < maxBlockNum_ c) as Hpr by lia.
  destruct (info_at c Hc (aiv_peer b) f Hpr Hf) as (i & -> & Hi). simpl.
  destruct (setVec1 i) as [|v q] eqn:Hq; [by apply update_keep|].
  assert (wf v) as Hwv by (pose proof (i_1 _ Hi) as H1; rewrite Hq in H1; by inversion H1).
  destruct (UpdateVectorTime_joined vt v Hv Hwv) as (blv & -> & Hblv & _). cbn [mbind option_bind].
  apply step_bind; [by apply update_drop|]. intros c1 H1 (M1 & _).
  apply step_bind; [apply update_keep; try done; by rewrite M1|]. intros c2 H2 (M2 & _).
  apply update_keep; try done. by rewrite M2, M1.
Qed.

Lemma mode2_ok f b vt dim c :
  cross_ok c → maxBlockNum_ c < 4294967296 → 0 <= b < maxBlockNum_ c → 0 <= f < 32 → wf vt →
  partners_exist c MODE2 dim b = true → step_ok c (SetMode2SyncInfo f b vt dim c).
Proof.
  intros Hc Hmax Hb Hf Hv Hp. unfold SetMode2SyncInfo. cbn [partners_exist] in Hp.
  destruct (dim =? 0); [by apply step_ret|]. cbn [orb] in Hp.
  pose proof (peer_nonneg b) as [Hn1 Hn2]. pose proof (aiv_of_aic_nonneg b ltac:(lia)) as Hn3.
  apply step_bind; [by apply update_keep|]. intros c1 H1 (M1 & K1 & _). rewrite K1.
  assert (∀ x g1 g2 c', cross_ok c' → maxBlockNum_ c' = maxBlockNum_ c → 0 <= x < maxBlockNum_ c → keeps g1 → keeps g2 →
    step_ok c' (c'' ← update x f g1 c'; update b f g2 c'')) as Htwo.
  { intros x g1 g2 c' Hc' Hm Hx Hg1 Hg2. apply step_bind; [apply info_update_ok; try done; by rewrite Hm|].
    intros c'' Hc'' (M'' & _). apply info_update_ok; try done. by rewrite M'', Hm. }
  destruct (keeps_push vt Hv) as (_ & _ & _ & _ & Kw & _). destruct keeps_pop as (_ & _ & Kp & _ & _ & _).
  destruct (dim =? 1), (IsAIC b (kernelType_ c)); bool_prop.
  - apply Htwo; try done; lia.
  - apply Htwo; try done; lia.
  - rewrite !u32_small by (unfold is_u32; lia).
    apply step_bind; [apply info_update_ok; try done; rewrite M1; lia|]. intros c2 H2 (M2 & _).
    apply Htwo; try done; [by rewrite M2, M1|lia].
  - unfold C220_MIX_SUB_BLOCKDIM.
    destruct (info_at c1 H1 (aiv_peer b) f ltac:(lia) Hf) as (i & -> & Hi). cbn [mbind option_bind].
    destruct (setVec2 i) as [|v q] eqn:Hq; [by apply step_ret|].
    assert (wf v) as Hwv by (pose proof (i_2 _ Hi) as H2; rewrite Hq in H2; by inversion H2).
    destruct (UpdateVectorTime_joined vt v Hv Hwv) as (t & -> & Ht & _). cbn [mbind option_bind].
    destruct (keeps_push t Ht) as (_ & _ & _ & _ & Kt & _).
    apply step_bind; [apply info_update_ok; try done; rewrite M1; zdiv|]. intros c2 H2 (M2 & _).
    apply step_bind; [apply info_update_ok; try done; rewrite M2, M1; lia|]. intros c3 H3 (M3 & _).
    apply info_update_ok; try done. rewrite M3, M2, M1. lia.
Qed.

Lemma land_15 x : 0 <= Z.land x 15 < 16.
Proof. change 15 with (2 ^ 4 - 1). rewrite land_mask_mod by lia. zdiv. Qed.

Lemma mode4_ok f b vt dim loc sn c :
  cross_ok c → maxBlockNum_ c < 4294967296 → 0 <= b < maxBlockNum_ c → 0 <= f < 32 → wf vt →
  partners_exist c MODE4 dim b = true → step_ok c (SetMode4SyncInfo f b vt dim loc sn c).
Proof.
  intros Hc Hmax Hb Hf Hv Hp. unfold SetMode4SyncInfo. cbn [partners_exist] in Hp.
  destruct (dim =? 0); [by apply step_ret|]. cbn [orb] in Hp.
  pose proof (peer_nonneg b) as [Hn1 Hn2]. pose proof (aiv_of_aic_nonneg b ltac:(lia)) as Hn3.
  pose proof (land_15 f) as Hl. destruct (keeps_push vt Hv) as (_ & _ & _ & K4 & _ & Ki).
  destruct keeps_pop as (_ & _ & _ & Kp & _ & _).
  set (illegal := negb (IsAIC b (kernelType_ c)) && (16 <=? f)).
  set (c0 := if illegal then AddFlagIdWarnInfo f loc sn c else c).
  assert (cross_ok c0 ∧ same_rest c c0) as [H0 S0].
  { unfold c0. destruct illegal; [|eauto with sync]. split; [|by split_and!]. destruct Hc. by split. }
  set (s := if illegal then Z.land f 15 else f).
  assert (0 <= s < 32 ∧ (IsAIC b (kernelType_ c) = false → s < 16)) as [Hs Hs'].
  { unfold s, illegal. destruct (IsAIC b (kernelType_ c)); simpl; [split; [lia|done]|].
    destruct (Z.leb_spec 16 f); split; lia. }
  clearbody illegal c0 s. destruct S0 as (M0 & K0 & S0).
  assert (∀ r, step_ok c0 r → step_ok c r) as Hlift.
  { intros r (c' & -> & ? & ?). exists c'. split; [done|]. split; [done|]. eapply same_rest_trans; [|done].
    exact (conj M0 (conj K0 S0)). }
  apply Hlift, step_bind; [apply info_update_ok; try done; by rewrite M0|]. intros c1 H1 (M1 & K1 & _).
  rewrite K1, K0. apply step_bind; [|intros c2 H2 (M2 & _); apply info_update_ok; try done; by rewrite M2, M1, M0].
  destruct (dim =? 1), (IsAIC b (kernelType_ c)) eqn:Ha; bool_prop.
  - apply info_update_ok; try done. rewrite M1, M0. lia.
  - apply info_update_ok; try done. rewrite M1, M0. lia.
  - rewrite !u32_small by (unfold is_u32; lia). destruct (Z.leb_spec s 15).
    + apply info_update_ok; try done; rewrite M1, M0; lia.
    + destruct (Z.leb_spec 16 s), (Z.leb_spec s 31); simpl; try lia. apply info_update_ok; try done; rewrite ?M1, ?M0; lia.
  - specialize (Hs' eq_refl). unfold C220_MIX_SUB_BLOCKDIM. destruct (b =? b / 3 * 3).
    + apply info_update_ok; try done. rewrite M1, M0. zdiv.
    + apply info_update_ok; try done; [rewrite M1, M0; zdiv|lia].
Qed.

(** A set of a legal flag whose partners exist succeeds. *)
Lemma SetBlockSyncInfo_ok f mode b vt dim loc sn c :
  cross_ok c → maxBlockNum_ c < 4294967296 → 0 <= b → 0 <= f → f ≠ 32 → wf vt →
  partners_exist c mode dim b = true → step_ok c (SetBlockSyncInfo f mode b vt dim loc sn c).
Proof.
  intros Hc Hm Hb Hf Hf' Hv Hp. unfold SetBlockSyncInfo.
  destruct (Z.ltb_spec MAX_FLAG_ID f) as [|Hle]; [by apply step_ret|]. unfold MAX_FLAG_ID in Hle.
  destruct (Z.leb_spec (maxBlockNum_ c) b); [by apply step_ret|].
  destruct mode; try by apply step_ret.
  - apply mode0_ok; done || lia.
  - apply mode1_ok; done || lia.
  - apply mode2_ok; done || lia.
  - apply mode4_ok; done || lia.
Qed.

(** In a kernel with groups of one cube and two vector cores all partners exist. *)
Lemma groups_have_partners c mode dim b N :
  kernelType_ c = KT_MIX → maxBlockNum_ c = 3 * N → 0 <= b < maxBlockNum_ c → maxBlockNum_ c < 4294967296 →
  dim ≠ 1 → partners_exist c mode dim b = true.
Proof.
  intros Hk Hm Hb Hmax Hd. unfold partners_exist, IsAIC, aiv_peer, C220_MIX_SUB_BLOCKDIM, C220_VEC_SUB_BLOCKDIM.
  rewrite Hk, Hm in *. destruct (Z.eqb_spec dim 1); [done|].
  destruct (Z.eqb_spec (b `mod` 3) 2) as [E|E]; destruct mode; simpl; try done.
  - destruct (dim =? 0); [done|]. apply Z.leb_le. zdiv.
  - destruct (dim =? 0); [done|]. apply Z.leb_le. zdiv.
  - apply Z.ltb_lt. rewrite !u32_small; unfold is_u32; rewrite ?u32_small; unfold is_u32; zdiv.
  - destruct (dim =? 0); [done|]. simpl. apply andb_true_iff. rewrite !Z.ltb_lt. split.
    + rewrite !u32_small; unfold is_u32; rewrite ?u32_small; unfold is_u32; zdiv.
    + zdiv.
  - destruct (dim =? 0); [done|]. simpl. apply Z.ltb_lt. zdiv.
Qed.

(** The waits: [None] when there is nothing to wait for, and then nothing changes. *)
Definition wait_ok (c : CrossCoreSyncInfoContainer) (r : option (CrossCoreSyncInfoContainer * option VectorTime)) : Prop :=
  r = Some (c, None) ∨ ∃ c' t, r = Some (c', Some t) ∧ cross_ok c' ∧ wf t ∧
    maxBlockNum_ c' = maxBlockNum_ c ∧ kernelType_ c' = kernelType_ c ∧ vecSubBlockDim_ c' = vecSubBlockDim_ c ∧
    semCores_ c' = semCores_ c.

Lemma GetBlockSyncInfo_ok f b vt c :
  cross_ok c → 0 <= b → 0 <= f < 32 → wf vt → wait_ok c (GetBlockSyncInfo f b vt c).
Proof.
  intros Hc Hb Hf Hv. unfold GetBlockSyncInfo. destruct (Z.leb_spec (maxBlockNum_ c) b); [by left|].
  destruct (info_at c Hc b f ltac:(lia) Hf) as (i & -> & Hi). simpl.
  destruct (waitVec i) as [|v q] eqn:Hq; [by left|]. right.
  assert (wf v) as Hwv by (pose proof (i_w _ Hi) as Hw; rewrite Hq in Hw; by inversion Hw).
  destruct (UpdateVectorTime_joined v vt Hwv Hv) as (t & -> & Ht & _). simpl.
  destruct (update_drop b f c Hc ltac:(lia) Hf) as (_ & _ & _ & _ & (c' & -> & Hc' & Hs) & _). simpl.
  unfold same_rest in Hs. destruct_and!. exists c', t. split_and!; done.
Qed.

Lemma GetIntraBlockSyncInfo_ok f b vt c :
  cross_ok c → 0 <= b → 0 <= f < 32 → wf vt → wait_ok c (GetIntraBlockSyncInfo f b vt c).
Proof.
  intros Hc Hb Hf Hv. unfold GetIntraBlockSyncInfo. destruct (Z.leb_spec (maxBlockNum_ c) b); [by left|].
  set (s := if _ && _ then _ else f).
  assert (0 <= s < 32) as Hs by (unfold s; pose proof (land_15 f); destruct (_ && _); lia).
  clearbody s. destruct (info_at c Hc b s ltac:(lia) Hs) as (i & -> & Hi). simpl.
  destruct (intrablockwaitVec i) as [|v q] eqn:Hq; [by left|]. right.
  assert (wf v) as Hwv by (pose proof (i_b _ Hi) as Hw; rewrite Hq in Hw; by inversion Hw).
  destruct (UpdateVectorTime_joined v vt Hwv Hv) as (t & -> & Ht & _). simpl.
  destruct (update_drop b s c Hc ltac:(lia) Hs) as (_ & _ & _ & _ & _ & (c' & -> & Hc' & Hs')). simpl.
  unfold same_rest in Hs'. destruct_and!. exists c', t. split_and!; done.
Qed.

(** ** Soft synchronisation *)

Lemma soft_at c b :
  cross_ok c → 0 <= b < maxBlockNum_ c →
  ∃ i, at_index (blockSoftSyncInfo_ c) b = Some i ∧ map_Forall (λ _ v, wf v) (mapVectorTime i).
Proof.
  intros Hc Hb. rewrite <- (x_soft _ Hc) in Hb. destruct (at_index_some _ _ Hb) as [i Hi]. exists i. split; [done|].
  unfold at_index in Hi. destruct (Z.leb_spec 0 b); [|lia]. apply (Forall_lookup_1 _ _ _ _ (x_softvt _ Hc) Hi).
Qed.

Lemma with_soft_ok c l s :
  cross_ok c → length l = length (blockSoftSyncInfo_ c) → Forall (λ i, map_Forall (λ _ v, wf v) (mapVectorTime i)) l →
  cross_ok (with_soft l s c).
Proof. intros [] Hl Hf. split; simpl; try done. by rewrite Hl. Qed.

Lemma SetBlockSoftSyncInfo_ok id b vt c :
  cross_ok c → 0 <= b → wf vt →
  ∃ c', SetBlockSoftSyncInfo id b vt c = Some c' ∧ cross_ok c' ∧ maxBlockNum_ c' = maxBlockNum_ c ∧
    kernelType_ c' = kernelType_ c ∧ vecSubBlockDim_ c' = vecSubBlockDim_ c ∧ semCores_ c' = semCores_ c.
Proof.
  intros Hc Hb Hv. unfold SetBlockSoftSyncInfo. destruct (Z.leb_spec (maxBlockNum_ c) b); [by exists c|].
  destruct (soft_at c b Hc ltac:(lia)) as (i & -> & Hi). simpl. eexists. split; [done|]. split; [|done].
  apply with_soft_ok; [done|apply length_insert|]. apply Forall_insert; [apply Hc|]. simpl.
  by apply map_Forall_insert_2.
Qed.

Lemma Consume_ok id b vt c :
  cross_ok c → 0 <= b < maxBlockNum_ c → wf vt → wait_ok c (ConsumeBlockSoftSyncInfo id b vt c).
Proof.
  intros Hc Hb Hv. unfold ConsumeBlockSoftSyncInfo. destruct (soft_at c b Hc Hb) as (i & -> & Hi). simpl.
  destruct (mapVectorTime i !! id) as [v|] eqn:Hl; [|by left]. right.
  destruct (UpdateVectorTime_joined v vt) as (t & -> & Ht & _); [by eapply map_Forall_lookup_1 in Hi|done|]. simpl.
  eexists _, t. split; [done|]. split_and!; try done.
  apply with_soft_ok; [done|apply length_insert|]. apply Forall_insert; [apply Hc|]. simpl. by apply map_Forall_delete.
Qed.

Lemma consume_any_ok blocks id vt c :
  cross_ok c → in_range c blocks → wf vt → wait_ok c (consume_any blocks id vt c).
Proof.
  intros Hc Hr Hv. induction Hr as [|b blocks Hb Hr IH]; simpl; [by left|].
  destruct (Consume_ok id b vt c Hc Hb Hv) as [-> |(c' & t & -> & H)]; simpl; [done|]. right. by exists c', t.
Qed.

Lemma GetBlockSoftSyncInfo_ok id p vt c :
  cross_ok c → wf vt → wait_ok c (GetBlockSoftSyncInfo id p vt c).
Proof.
  intros Hc Hv. unfold GetBlockSoftSyncInfo. destruct (Z.leb_spec 0 p).
  - destruct (Z.leb_spec (maxBlockNum_ c) p); [by left|]. by apply Consume_ok; [|lia|].
  - apply consume_any_ok; [done|apply all_blocks_range|done].
Qed.

(** ** User-reported synchronisation *)

Lemma SetMstxCrossInfo_ok i vt c : cross_ok c → wf vt → cross_ok (SetMstxCrossInfo i vt c).
Proof.
  intros [] Hv. split; simpl; try done. apply map_Forall_insert_2; [|done]. split; [by destruct (default _ _)|].
  apply Forall_snoc; [|done]. destruct (mstxCrossSetMap_ c !! _) as [q|] eqn:Hl; simpl; [|constructor].
  by apply (map_Forall_lookup_1 _ _ _ _ x_mstx0) in Hl as [_ ?].
Qed.

Lemma GetMstxCrossInfo_ok i vt c : cross_ok c → wf vt → wait_ok c (GetMstxCrossInfo i vt c).
Proof.
  intros Hc Hv. unfold GetMstxCrossInfo. destruct (mstxCrossSetMap_ c !! _) as [q|] eqn:Hl; [|by left].
  pose proof (map_Forall_lookup_1 _ _ _ _ (x_mstx _ Hc) Hl) as [Hne Hf]. destruct q as [|v q]; [done|].
  inversion_clear Hf as [|? ? Hw Hf']. right.
  destruct (UpdateVectorTime_joined v vt Hw Hv) as (t & -> & Ht & _). simpl. eexists _, t. split; [done|].
  split_and!; try done. destruct Hc. split; simpl; try done. case_bool_decide.
  - by apply map_Forall_delete.
  - by apply map_Forall_insert_2.
Qed.

(** ** The barrier *)

(** The maximum of the component [i] over the workers. *)
Definition max_time (t : Z → VectorTime) (ws : list Z) (i : Z) : Z := foldr (λ w m, Z.max (time (t w) i) m) 1 ws.

(** Calls of [Wait] in sequence, with their results. *)
Fixpoint waits (rank : Z) (t : Z → VectorTime) (ws : list Z) (b : Barrier.BarrierEvent)
    : option (Barrier.BarrierEvent * list (option VectorTime)) :=
  match ws with
  | [] => Some (b, [])
  | w :: ws' => r ← Barrier.Wait rank w (t w) b; r' ← waits rank t ws' r.1; Some (r'.1, r.2 :: r'.2)
  end.

(** Between rounds, or while the workers [ws] have arrived. *)
Definition arriving (t : Z → VectorTime) (ws : list Z) (b : Barrier.BarrierEvent) : Prop :=
  Barrier.allReachBarrier_ b = false ∧ Barrier.reachedWorkers_ b = list_to_set ws ∧
  wf (Barrier.vtGlobal_ b) ∧ ∀ i, time (Barrier.vtGlobal_ b) i = max_time t ws i.

(** While the workers [ws] still have to pass. *)
Definition passing (vt : VectorTime) (ws : list Z) (b : Barrier.BarrierEvent) : Prop :=
  Barrier.allReachBarrier_ b = true ∧ Barrier.reachedWorkers_ b = list_to_set ws ∧ Barrier.vtGlobal_ b = vt.

Lemma empty_time v i : wf v → empty v = true → time v i = 1.
Proof.
  intros Hw He. unfold empty in He. bool_prop. unfold time, entries. destruct (heap v); [by rewrite H0|]. by rewrite H.
Qed.

Section barrier.
Context (t : Z → VectorTime) (Ht : ∀ w, wf (t w)).

Lemma arrive_spec rank w ws b :
  arriving t ws b → w ∉ ws → NoDup ws →
  ∃ b', Barrier.arrive rank w (t w) b = Some (b', negb (rank <=? Z.of_nat (S (length ws)))) ∧
    Barrier.allReachBarrier_ b' = (rank <=? Z.of_nat (S (length ws))) ∧
    Barrier.reachedWorkers_ b' = list_to_set (w :: ws) ∧ wf (Barrier.vtGlobal_ b') ∧
    ∀ i, time (Barrier.vtGlobal_ b') i = max_time t (w :: ws) i.
Proof.
  intros (Ha & Hr & Hw & Hv) Hn Hd. unfold Barrier.arrive. rewrite Ha.
  assert (∃ vt, (if empty (Barrier.vtGlobal_ b) then Some (t w)
                 else VectorClock.UpdateVectorTime (t w) (Barrier.vtGlobal_ b)) = Some vt ∧ wf vt ∧
    ∀ i, time vt i = max_time t (w :: ws) i) as (vt & -> & Hwv & Hvt).
  { destruct (empty (Barrier.vtGlobal_ b)) eqn:He.
    - exists (t w). split_and!; auto. intros i. simpl. fold (max_time t ws i).
      rewrite <- Hv, (empty_time (Barrier.vtGlobal_ b)) by done. pose proof (time_range (t w) i (Ht w)). lia.
    - destruct (UpdateVectorTime_joined (t w) (Barrier.vtGlobal_ b)) as (vt & H1 & H2 & H3); [auto..|].
      exists vt. split_and!; auto. intros i. rewrite H3, Hv. simpl. fold (max_time t ws i). lia. }
  cbn [mbind option_bind]. unfold Barrier.IsAllReachBarrier. simpl.
  assert (size ({[w]} ∪ Barrier.reachedWorkers_ b) = S (length ws)) as ->.
  { rewrite Hr, size_union by set_solver. rewrite size_singleton, size_list_to_set by done. lia. }
  destruct (rank <=? Z.of_nat (S (length ws))); eexists; (split; [done|]); simpl; rewrite Hr; split_and!; done.
Qed.

Lemma wait_arrive rank w ws b :
  arriving t ws b → w ∉ ws → NoDup ws → Z.of_nat (S (length ws)) < rank →
  ∃ b', Barrier.Wait rank w (t w) b = Some (b', None) ∧ arriving t (w :: ws) b'.
Proof.
  intros Hb Hn Hd Hlt. destruct (arrive_spec rank w ws b Hb Hn Hd) as (b' & E & H1 & H2 & H3 & H4).
  unfold Barrier.Wait. rewrite E. simpl. destruct (Z.leb_spec rank (Z.of_nat (S (length ws)))); [lia|].
  exists b'. split; [done|]. split_and!; done.
Qed.

(** A worker passes. *)
Lemma wait_pass rank w vt ws b :
  passing vt (w :: ws) b → NoDup (w :: ws) → wf vt →
  ∃ b', Barrier.Wait rank w (t w) b = Some (b', Some vt) ∧ if ws is [] then arriving t [] b' else passing vt ws b'.
Proof.
  intros (Ha & Hr & Hv) Hd Hw. unfold Barrier.Wait, Barrier.arrive. rewrite Ha. simpl.
  rewrite bool_decide_true by (rewrite Hr; set_solver). apply NoDup_cons in Hd as [Hn Hd].
  assert (Barrier.reachedWorkers_ b ∖ {[w]} = list_to_set ws) as Hdiff by (rewrite Hr; set_solver).
  unfold Barrier.IsAllConsumeBarrier. simpl. rewrite Hdiff. destruct ws as [|w' ws].
  - rewrite bool_decide_true by done. eexists. split; [by rewrite Hv|]. split_and!; try done.
    simpl. apply clear_wf. by rewrite ?Hv.
  - rewrite bool_decide_false by set_solver. eexists. split; [by rewrite Hv|]. by split_and!.
Qed.

(** The same worker may pass in any order. *)
Lemma passing_perm vt ws ws' b : passing vt ws b → ws ≡ₚ ws' → passing vt ws' b.
Proof. intros (Ha & Hr & Hv) Hp. split_and!; [done| |done]. rewrite Hr. by apply list_to_set_perm_L. Qed.

Lemma wait_last rank w ws b :
  arriving t ws b → w ∉ ws → NoDup ws → rank = Z.of_nat (S (length ws)) →
  ∃ b' vt, Barrier.Wait rank w (t w) b = Some (b', Some vt) ∧ wf vt ∧ (∀ i, time vt i = max_time t (w :: ws) i) ∧
    if ws is [] then arriving t [] b' else passing vt ws b'.
Proof.
  intros Hb Hn Hd ->. destruct (arrive_spec (Z.of_nat (S (length ws))) w ws b Hb Hn Hd) as (b1 & E & H1 & H2 & H3 & H4).
  rewrite Z.leb_refl in E, H1.
  assert (passing (Barrier.vtGlobal_ b1) (w :: ws) b1) as Hpass by by split_and!.
  destruct (wait_pass (Z.of_nat (S (length ws))) w _ ws b1 Hpass) as (b2 & E2 & Hb2); [by constructor|done|].
  exists b2, (Barrier.vtGlobal_ b1). split_and!; try done.
  unfold Barrier.Wait in E2 |- *. rewrite E. simpl. unfold Barrier.arrive in E2. rewrite H1 in E2. exact E2.
Qed.

Lemma arrivals_block rank ws done_ b :
  arriving t done_ b → NoDup (ws ++ done_) → Z.of_nat (length ws + length done_) < rank →
  ∃ b', waits rank t ws b = Some (b', replicate (length ws) None) ∧ arriving t (reverse ws ++ done_) b'.
Proof.
  revert done_ b. induction ws as [|w ws IH]; intros dn b Hb Hd Hlt; [by exists b|]. cbn [waits length] in *.
  apply NoDup_cons in Hd as [Hw Hd]. apply NoDup_app in Hd as (Hd1 & Hd2 & Hd3).
  destruct (wait_arrive rank w dn b Hb) as (b1 & -> & Hb1); [set_solver|done|simpl; lia|]. simpl.
  destruct (IH (w :: dn) b1 Hb1) as (b2 & -> & Hb2).
  - apply NoDup_app. split_and!; [done|set_solver|]. constructor; [set_solver|done].
  - simpl. lia.
  - exists b2. split; [done|]. by rewrite reverse_cons, <- app_assoc.
Qed.

Lemma all_pass rank ws vt b :
  passing vt ws b → NoDup ws → wf vt → ws ≠ [] →
  ∃ b', waits rank t ws b = Some (b', replicate (length ws) (Some vt)) ∧ arriving t [] b'.
Proof.
  intros Hb Hd Hw Hne. revert b Hb Hd Hne. induction ws as [|w ws IH]; intros b Hb Hd Hne; [done|].
  cbn [waits]. destruct (wait_pass rank w vt ws b Hb Hd Hw) as (b1 & -> & Hb1). simpl.
  apply NoDup_cons in Hd as [_ Hd]. destruct ws as [|w' ws]; [by exists b1|].
  destruct (IH b1 Hb1 Hd) as (b2 & -> & Hb2); [done|]. by exists b2.
Qed.
End barrier.

Lemma waits_app rank t ws1 ws2 b b1 l1 b2 l2 :
  waits rank t ws1 b = Some (b1, l1) → waits rank t ws2 b1 = Some (b2, l2) →
  waits rank t (ws1 ++ ws2) b = Some (b2, l1 ++ l2).
Proof.
  revert b l1. induction ws1 as [|w ws1 IH]; intros b l1 H1 H2; simpl in *; [by simplify_eq|].
  destruct (Barrier.Wait rank w (t w) b) as [ [b' r]|]; [|done]. simpl in *.
  destruct (waits rank t ws1 b') as [ [b3 l3]|] eqn:E; [|done]. simpl in *. simplify_eq.
  rewrite (IH b' l3 E H2). done.
Qed.

(** C29: A barrier round is exact: when [rank] different workers arrive, all but
    the last are blocked, the last passes at once and the others pass when they
    ask again, in any order; every one of them gets the pointwise maximum of all
    their times, and afterwards the barrier is ready for the next round. *)
Theorem barrier_round t front w order b :
  (∀ v, wf (t v)) → NoDup (front ++ [w]) → front ≡ₚ order → arriving t [] b →
  let rank := Z.of_nat (length (front ++ [w])) in
  ∃ b' vt, waits rank t (front ++ [w] ++ order) b =
      Some (b', replicate (length front) None ++ replicate (S (length order)) (Some vt)) ∧
    wf vt ∧ (∀ i, time vt i = max_time t (w :: reverse front) i) ∧ arriving t [] b'.
Proof.
  intros Ht Hd Hp Hb rank. apply NoDup_app in Hd as (Hd1 & Hd2 & _).
  destruct (arrivals_block t Ht rank front [] b Hb) as (b1 & E1 & Hb1).
  { by rewrite app_nil_r. } { unfold rank. rewrite length_app. simpl. lia. }
  rewrite app_nil_r in Hb1.
  destruct (wait_last t Ht rank w (reverse front) b1 Hb1) as (b2 & vt & E2 & Hw & Hv & Hb2).
  { rewrite elem_of_reverse. set_solver. } { by rewrite reverse_Permutation. }
  { unfold rank. rewrite length_app, length_reverse. simpl. lia. }
  assert (∃ b', waits rank t order b2 = Some (b', replicate (length order) (Some vt)) ∧ arriving t [] b')
    as (b3 & E3 & Hb3).
  { destruct (reverse front) as [|x rs] eqn:Hrev.
    - assert (front = []) as -> by (apply (f_equal length) in Hrev; rewrite length_reverse in Hrev; by destruct front).
      apply Permutation_nil_l in Hp as <-. by exists b2.
    - apply (all_pass t Ht); [|by rewrite <- Hp|done|].
      + eapply passing_perm; [exact Hb2|]. by rewrite <- Hrev, reverse_Permutation.
      + intros ->. apply Permutation_nil_r in Hp as ->. done. }
  exists b3, vt. split; [|done].
  apply (waits_app rank t front _ b b1 _ b3 (Some vt :: replicate (length order) (Some vt)) E1).
  cbn [app waits]. rewrite E2. simpl. by rewrite E3.
Qed.

(** ** [SyncAll] *)

(** The semaphore between calls: no round, or a round that nobody has left. *)
Definition sem_ok (s : SemCores.SemCores) : Prop :=
  (SemCores.semSync_ s = 0 ∧ SemCores.semAfterSync_ s = 0) ∨
  (SemCores.semSync_ s = SemCores.cores_ s ∧ SemCores.semAfterSync_ s = SemCores.cores_ s ∧
   1 <= SemCores.cores_ s < 256).

Definition aiv_ok (c : CrossCoreSyncInfoContainer) : Prop := 1 <= maxBlockNum_ c < 256 ∧ 1 <= GetAIVCount c < 256.

Lemma SyncAll_stalls b used p vt c :
  cross_ok c → sem_ok (semCores_ c) → aiv_ok c → 0 <= b < maxBlockNum_ c → is_u32 p → wf vt →
  ∃ c' t, SyncAll b used p vt c = Some (c', t, false) ∧ cross_ok c' ∧ sem_ok (semCores_ c') ∧ wf t ∧
    maxBlockNum_ c' = maxBlockNum_ c ∧ kernelType_ c' = kernelType_ c ∧ vecSubBlockDim_ c' = vecSubBlockDim_ c ∧
    blockSyncEvent_ c' = blockSyncEvent_ c ∧ mstxCrossSetMap_ c' = mstxCrossSetMap_ c ∧
    mapVectorTime <$> blockSoftSyncInfo_ c' = mapVectorTime <$> blockSoftSyncInfo_ c.
Proof.
  intros Hc Hs [Hm Ha] Hb Hp Hv. unfold SyncAll.
  assert (∀ x, 0 <= x < 256 → i32 x = x) as Hi32.
  { intros x Hx. unfold i32. rewrite u32_small by (unfold is_u32; lia). by destruct (Z.ltb_spec x 2147483648); [|lia]. }
  rewrite (Hi32 (maxBlockNum_ c)) by lia.
  destruct (Z.ltb_spec used 0) as [|Hu0]; [by exists c, vt|].
  destruct (Z.ltb_spec (maxBlockNum_ c) used) as [|Hu1]; [by exists c, vt|].
  cbn [orb]. set (n := if used =? 0 then i32 (GetAIVCount c) else used).
  assert (1 <= n < 256) as Hn by (unfold n; destruct (Z.eqb_spec used 0); [rewrite Hi32; lia|lia]). clearbody n.
  destruct (negb (SemCores.IsFinished (semCores_ c)) && _) eqn:Hdiff; [by exists c, vt|].
  set (c0 := if SemCores.IsFinished (semCores_ c) then _ else c).
  assert (cross_ok c0 ∧ sem_ok (semCores_ c0) ∧ 1 <= SemCores.semSync_ (semCores_ c0) < 256 ∧
    maxBlockNum_ c0 = maxBlockNum_ c ∧ kernelType_ c0 = kernelType_ c ∧ vecSubBlockDim_ c0 = vecSubBlockDim_ c ∧
    blockSyncEvent_ c0 = blockSyncEvent_ c ∧ mstxCrossSetMap_ c0 = mstxCrossSetMap_ c ∧
    mapVectorTime <$> blockSoftSyncInfo_ c0 = mapVectorTime <$> blockSoftSyncInfo_ c)
    as (H0 & S0 & N0 & M0 & K0 & V0 & B0 & X0 & F0).
  { unfold c0. unfold SemCores.IsFinished in *. destruct ((SemCores.semSync_ (semCores_ c) =? 0) && _) eqn:Hfin.
    - unfold with_soft, SemCores.Reset. simpl. rewrite u32_small by (unfold is_u32; lia).
      split; [apply (with_soft_ok c); [done|apply length_fmap|]; apply Forall_fmap; eapply Forall_impl; [apply Hc|done]|].
      split; [by right; simpl; lia|]. split; [simpl; lia|]. split_and!; try done. simpl. by rewrite <- list_fmap_compose.
    - split_and!; try done; destruct Hs as [ [E1 E2]|(E1 & E2 & E3)]; try (by rewrite E1, E2 in Hfin); lia. }
  clearbody c0. rewrite <- M0 in Hb. destruct (soft_at c0 b H0 Hb) as (i & Hi & Hmap). rewrite Hi. cbn [mbind option_bind].
  assert (∃ c1 t, (if negb (syncAll i) then
             t ← VectorClock.UpdateLogicTime p vt;
             Some (with_soft (set_index (blockSoftSyncInfo_ c0) b (mkSoft (mapVectorTime i) true p)) (semCores_ c0) c0, t)
           else Some (c0, vt)) = Some (c1, t) ∧ wf t ∧ cross_ok c1 ∧ semCores_ c1 = semCores_ c0 ∧
    (∃ i', at_index (blockSoftSyncInfo_ c1) b = Some i' ∧ syncAll i' = true) ∧
    maxBlockNum_ c1 = maxBlockNum_ c ∧ kernelType_ c1 = kernelType_ c ∧ vecSubBlockDim_ c1 = vecSubBlockDim_ c ∧
    blockSyncEvent_ c1 = blockSyncEvent_ c ∧ mstxCrossSetMap_ c1 = mstxCrossSetMap_ c ∧
    mapVectorTime <$> blockSoftSyncInfo_ c1 = mapVectorTime <$> blockSoftSyncInfo_ c)
    as (c1 & t & -> & Ht & H1 & S1 & (i' & Hi' & Hsa) & Hrest).
  { destruct (syncAll i) eqn:Hsi; cbn [negb]; [exists c0, vt; split_and!; eauto|].
    destruct (UpdateLogicTime_spec vt p Hv Hp) as (t & -> & Ht & _). cbn [mbind option_bind].
    eexists _, t. split; [done|]. split_and!; try done.
    - apply with_soft_ok; [done|apply length_insert|]. apply Forall_insert; [apply H0|done].
    - simpl. eexists. rewrite (at_set_index _ _ _ _ _ Hi), Z.eqb_refl. done.
    - simpl. unfold set_index. rewrite list_fmap_insert, F0. simpl. apply list_insert_id.
      unfold at_index in Hi. destruct (0 <=? b); [|done]. rewrite <- F0, list_lookup_fmap, Hi. done. }
  cbn [mbind option_bind]. rewrite Hi'. cbn [mbind option_bind]. rewrite Hsa, S1. cbn [andb].
  assert ((SemCores.RemainSyncAllCount (semCores_ c0) =? 0) = false) as ->.
  { unfold SemCores.RemainSyncAllCount. rewrite u8_small by (unfold is_u8; lia). apply Z.eqb_neq. lia. }
  cbn [negb]. exists c1, t. split_and!; try done; [by rewrite S1|apply Hrest..].
Qed.

(** Calls of [SyncAll], as block, used cores and pipe, with their results. *)
Fixpoint sync_alls (calls : list (Z * Z * Z)) (c : CrossCoreSyncInfoContainer)
    : option (CrossCoreSyncInfoContainer * list bool) :=
  match calls with
  | [] => Some (c, [])
  | (b, used, p) :: calls' =>
      r ← SyncAll b used p new_VectorTime c;
      let '(c, _, ok) := r in
      r' ← sync_alls calls' c; Some (r'.1, ok :: r'.2)
  end.

(** C39: [SyncAll] can never let anybody pass: whatever calls are made, for as many
    cores as there are blocks and as often as one likes, every one of them
    answers "blocked", because the test for missing cores comes before the only
    decrement of the counter it tests. *)
Theorem syncall_never_completes blockNum kernelType calls :
  aiv_ok (Init blockNum kernelType) → Forall (λ '(b, _, p), 0 <= b < blockNum ∧ is_u32 p) calls →
  ∃ c, sync_alls calls (Init blockNum kernelType) = Some (c, replicate (length calls) false).
Proof.
  intros Ha Hf.
  assert (∀ c, cross_ok c → sem_ok (semCores_ c) → aiv_ok c → maxBlockNum_ c = blockNum →
    ∃ c', sync_alls calls c = Some (c', replicate (length calls) false)) as H.
  { induction Hf as [|[ [b u] p] calls [Hb Hp] Hf IH]; intros c Hc Hs Hac Hm; [by exists c|]. cbn [sync_alls length].
    destruct (SyncAll_stalls b u p new_VectorTime c Hc Hs Hac) as (c1 & t & -> & H1 & S1 & _ & M1 & K1 & V1 & _);
      [by rewrite Hm|done|apply new_wf|]. cbn [mbind option_bind].
    destruct (IH c1 H1 S1) as (c2 & ->); [|by rewrite M1|by exists c2].
    unfold aiv_ok, GetAIVCount in *. by rewrite M1, K1, V1. }
  destruct Ha as [Hm Ha]. simpl in Hm. apply H; [apply init_cross_ok; lia|by left|done|done].
Qed.

(** ** The barrier of cube cores *)

Lemma indices_length fuel from max :
  0 <= from → 3 * Z.of_nat (length (indices fuel from 3 max)) <= Z.max 0 (max - from + 2).
Proof.
  revert from. induction fuel as [|fuel IH]; intros from Hf; simpl; [lia|].
  destruct (Z.ltb_spec from max); cbn [length]; [|lia]. specialize (IH (from + 3) ltac:(lia)). lia.
Qed.

Lemma update_info c b f g c' b' f' :
  update b f g c = Some c' →
  info c' b' f' = if (b' =? b) && (f' =? f) then g <$> info c b f else info c b' f'.
Proof.
  unfold update, info. destruct (at_index (blockSyncEvent_ c) b) as [l|] eqn:Hl; [|done].
  cbn [mbind option_bind]. destruct (at_index l f) as [i|] eqn:Hi; [|done]. cbn [mbind option_bind].
  intros [= <-]. simpl. rewrite (at_set_index _ _ _ _ _ Hl).
  destruct (Z.eqb_spec b' b) as [->|]; [|done]. cbn [mbind option_bind andb].
  rewrite (at_set_index _ _ _ _ _ Hi), Hl. cbn [mbind option_bind].
  destruct (Z.eqb_spec f' f) as [->|]; [done|done].
Qed.

Fixpoint set_mode0 (f : Z) (blocks : list Z) (vt : VectorTime) (c : CrossCoreSyncInfoContainer)
    : option CrossCoreSyncInfoContainer :=
  match blocks with
  | [] => Some c
  | b :: blocks' => c ← SetBlockSyncInfo f MODE0 b vt 2 (Build_LocInfo 0 0 0 0 0 0 0 AICUBE) 0 c; set_mode0 f blocks' vt c
  end.

(** In a kernel of cube cores only, a barrier of mode 0 never completes: after
    any sets of a flag by any blocks, all of them included, every block still
    waits. The sets are counted over every third block, but compared with the
    number of all blocks. *)
Theorem cube_barrier_never_completes blockNum flagId blocks vt :
  1 <= blockNum < 4294967296 → 0 <= flagId < 32 → wf vt → Forall (λ b, 0 <= b < blockNum) blocks →
  ∃ c, set_mode0 flagId blocks vt (Init blockNum KT_AICUBE) = Some c ∧
    ∀ b t, 0 <= b < blockNum → GetBlockSyncInfo flagId b t c = Some (c, None).
Proof.
  intros Hn Hf Hv Hb.
  assert (∀ c, cross_ok c → maxBlockNum_ c = blockNum → kernelType_ c = KT_AICUBE →
    (∀ b i, info c b flagId = Some i → waitVec i = []) →
    ∃ c', set_mode0 flagId blocks vt c = Some c' ∧ cross_ok c' ∧ maxBlockNum_ c' = blockNum ∧
      ∀ b i, info c' b flagId = Some i → waitVec i = []) as H.
  { induction Hb as [|b blocks Hb Hbs IH]; intros c Hc Hm Hk Hw; [by exists c|]. cbn [set_mode0].
    unfold SetBlockSyncInfo, MAX_FLAG_ID. destruct (Z.ltb_spec 32 flagId); [lia|].
    destruct (Z.leb_spec (maxBlockNum_ c) b); [lia|]. unfold SetMode0SyncInfo.
    destruct (keeps_push vt Hv) as (K0 & _).
    destruct (info_update_ok c Hc b flagId (push0 vt) ltac:(lia) Hf K0) as (c1 & E & H1 & (M1 & K1 & _)).
    rewrite E. cbn [mbind option_bind]. rewrite K1, Hk. cbn [IsAIC].
    destruct (count_set_ok (aic_blocks c1) flagId c1 H1 (aic_blocks_range c1) Hf) as (n & -> & Hcnt).
    cbn [mbind option_bind].
    assert ((n =? GetAICCount c1) = false) as ->.
    { apply Z.eqb_neq. unfold GetAICCount. rewrite K1, Hk, M1, Hm.
      pose proof (indices_length (Z.to_nat (maxBlockNum_ c1)) 2 (maxBlockNum_ c1) ltac:(lia)) as Hlen.
      unfold aic_blocks, C220_VEC_SUB_BLOCKDIM, C220_MIX_SUB_BLOCKDIM in Hcnt. lia. }
    apply IH; [done|by rewrite M1|by rewrite K1|]. intros b' i Hi. rewrite (update_info _ _ _ _ _ _ _ E) in Hi.
    destruct (_ && _); [|by eapply Hw]. destruct (info c b flagId) as [i0|] eqn:Hi0; [|done].
    simpl in Hi. injection Hi as <-. by eapply Hw in Hi0. }
  destruct (H (Init blockNum KT_AICUBE)) as (c & E & Hc & Hm & Hw); [apply init_cross_ok; lia|done|done| |].
  { intros b i Hi. unfold info in Hi. destruct (at_index (blockSyncEvent_ _) b) as [l|] eqn:Hl; [|done].
    unfold at_index in Hl. destruct (0 <=? b); [|done]. apply lookup_replicate in Hl as [-> _].
    cbn [mbind option_bind] in Hi. unfold at_index in Hi. destruct (0 <=? flagId); [|done].
    by apply lookup_replicate in Hi as [-> _]. }
  exists c. split; [done|]. intros b t Hb'. unfold GetBlockSyncInfo. destruct (Z.leb_spec (maxBlockNum_ c) b); [lia|].
  destruct (info_at c Hc b flagId ltac:(lia) Hf) as (i & Hi & _). rewrite Hi. cbn [mbind option_bind].
  by rewrite (Hw b i Hi).
Qed.

(** ** Flags out of range *)

(** The guard of [SetBlockSyncInfo] lets flag 32 through, one past the end of
    the array of 32 flags, and [GetBlockSyncInfo] has no guard: both then access
    memory outside the array. Larger flags are rejected by the set only. *)
Theorem flag_guard_off_by_one c b vt dim loc sn f :
  cross_ok c → 0 <= b < maxBlockNum_ c → 32 <= f →
  SetBlockSyncInfo 32 MODE0 b vt dim loc sn c = None ∧ GetBlockSyncInfo f b vt c = None ∧
  (32 < f → SetBlockSyncInfo f MODE0 b vt dim loc sn c = Some c).
Proof.
  intros Hc Hb Hf.
  assert (∃ l, at_index (blockSyncEvent_ c) b = Some l ∧ ∀ k, 32 <= k → at_index l k = None) as (l & Hl & Hout).
  { rewrite <- (x_len _ Hc) in Hb. destruct (at_index_some _ _ Hb) as [l Hl]. exists l. split; [done|].
    intros k Hk. unfold at_index in Hl |- *. destruct (Z.leb_spec 0 b), (Z.leb_spec 0 k); try lia.
    destruct (Forall_lookup_1 _ _ _ _ (x_flags _ Hc) Hl) as [Hlen _]. apply lookup_ge_None. lia. }
  split_and!.
  - unfold SetBlockSyncInfo, MAX_FLAG_ID. simpl. destruct (Z.leb_spec (maxBlockNum_ c) b); [lia|].
    unfold SetMode0SyncInfo, update. rewrite Hl. cbn [mbind option_bind]. by rewrite Hout by lia.
  - unfold GetBlockSyncInfo. destruct (Z.leb_spec (maxBlockNum_ c) b); [lia|]. unfold info. rewrite Hl.
    cbn [mbind option_bind]. by rewrite Hout by lia.
  - intros Hlt. unfold SetBlockSyncInfo, MAX_FLAG_ID. by destruct (Z.ltb_spec 32 f); [|lia].
Qed.

(** ** Witnesses *)

(** Three workers; the two that wait ask again in the opposite order. *)
Lemma barrier_round_witness :
  let t := λ v, if v =? 1 then FromFull [2; 7] else FromFull [4; 1] in
  ∃ b' vt, waits 3 t ([0; 1] ++ [2] ++ [1; 0]) Barrier.new_BarrierEvent =
      Some (b', replicate 2 None ++ replicate 3 (Some vt)) ∧
    wf vt ∧ (∀ i, time vt i = max_time t [2; 1; 0] i) ∧ arriving t [] b'.
Proof.
  intros t. apply (barrier_round t [0; 1] 2 [1; 0] Barrier.new_BarrierEvent).
  - intros v. unfold t. destruct (v =? 1); apply FromFull_spec; simpl; [lia|repeat constructor; lia..].
  - vm_compute. repeat constructor; set_solver.
  - apply Permutation_swap.
  - split_and!; [done|done|apply new_wf|done].
Defined.

Lemma syncall_never_completes_witness :
  ∃ c, sync_alls [(0, 0, 0); (1, 0, 12); (2, 0, 24); (0, 0, 0)] (Init 3 KT_AIVEC) =
    Some (c, [false; false; false; false]).
Proof.
  apply (syncall_never_completes 3 KT_AIVEC [(0, 0, 0); (1, 0, 12); (2, 0, 24); (0, 0, 0)]).
  - unfold aiv_ok, GetAIVCount. cbn [maxBlockNum_ kernelType_ Init]. lia.
  - repeat constructor; unfold is_u32; lia.
Defined.

Lemma cube_barrier_never_completes_witness :
  ∃ c, set_mode0 5 [0; 1; 2; 3] new_VectorTime (Init 4 KT_AICUBE) = Some c ∧
    ∀ b t, 0 <= b < 4 → GetBlockSyncInfo 5 b t c = Some (c, None).
Proof. apply (cube_barrier_never_completes 4 5 [0; 1; 2; 3] new_VectorTime); [lia|lia|apply new_wf|repeat constructor; lia]. Defined.

Lemma flag_guard_off_by_one_witness :
  let c := Init 2 KT_AIVEC in let l := Build_LocInfo 0 0 0 0 0 0 0 AIVEC in
  SetBlockSyncInfo 32 MODE0 1 new_VectorTime 2 l 0 c = None ∧ GetBlockSyncInfo 40 1 new_VectorTime c = None ∧
  (32 < 40 → SetBlockSyncInfo 40 MODE0 1 new_VectorTime 2 l 0 c = Some c).
Proof.
  intros c l. apply (flag_guard_off_by_one c 1 new_VectorTime 2 l 0 40); [apply init_cross_ok; lia|simpl; lia|lia].
Defined.
