(* ===== verification/PipelineReplayer.v ===== *)
(** [PipelineReplayer]: [csrc/core/framework/pipeline_replayer.h] and
    [pipeline_replayer.cpp].

    The replayer collects the events of a kernel per block and, at the end of
    the kernel, replays them in an order that respects the synchronisation
    instructions; memory events are handed to a callback. The callback is
    modelled by the list of the calls it received. *)
From stdpp Require Import base numbers option gmap list.
From S2P Require Import Prelude.
From S2P Require Import RecordDefs.
From S2P Require Import Platform.
From S2P Require Import EventDef.
From S2P Require Import VectorTime.
From S2P Require Import EventContainer.
From S2P Require Import SyncContainers.
Import VT Cont Pipe.

(** ** Block indices, shared with the race check *)

Definition NeedExpandBlockDim (kernelType : KernelType) (deviceType : DeviceType) : bool :=
  bool_decide (kernelType = KT_MIX) && HasSubBlocks deviceType.

Definition GetEventExpandBlockIndexByLoc (loc : LocInfo) : Z :=
  let aicoreIndex :=
    if bool_decide (blockType loc = AIVEC) then coreId loc / C220_VEC_SUB_BLOCKDIM else coreId loc in
  let subBlockIndex :=
    if bool_decide (blockType loc = AIVEC) then coreId loc `mod` C220_VEC_SUB_BLOCKDIM else C220_VEC_SUB_BLOCKDIM in
  u32 (u32 (aicoreIndex * C220_MIX_SUB_BLOCKDIM) + subBlockIndex).

Definition GetEventExpandBlockIndex (event : SanEvent) : Z := GetEventExpandBlockIndexByLoc (loc event).

Definition GetEventBlockIndexByLoc (loc : LocInfo) (kernelType : KernelType) (deviceType : DeviceType)
    (checkType : RaceCheckType) : Z :=
  if negb (NeedExpandBlockDim kernelType deviceType) then
    if bool_decide (checkType = SINGLE_BLOCK_CHECK) then 0 else coreId loc
  else GetEventExpandBlockIndexByLoc loc.

Definition GetEventBlockIndex3 (event : SanEvent) (kernelType : KernelType) (deviceType : DeviceType) : Z :=
  if negb (NeedExpandBlockDim kernelType deviceType) then coreId (loc event) else GetEventExpandBlockIndex event.

Definition GetEventBlockIndex (event : SanEvent) (kernelType : KernelType) (deviceType : DeviceType)
    (checkType : RaceCheckType) : Z :=
  if negb (NeedExpandBlockDim kernelType deviceType) then
    if bool_decide (checkType = SINGLE_BLOCK_CHECK) then 0 else coreId (loc event)
  else GetEventExpandBlockIndex event.

(** ** The replayer *)
Module Replay.

Inductive ReplayerCallbackType := MEMORY_EVENT | ALL_DEVICE_STUCK.
#[global] Instance ReplayerCallbackType_eq : EqDecision ReplayerCallbackType. Proof. solve_decision. Defined.

(** The members other than the event container. *)
Record Members := mkMembers {
  syncDB_ : list SyncDb.SyncEventDataBase;
  cross_ : Cross.CrossCoreSyncInfoContainer;
  memEventCount_ : Z;
  crossCoreBarrier_ : Barrier.BarrierDatabase;
  mstxSetCrossMap_ : gmap (Z * Z) Z;
  getRlsBufMap_ : gmap (Z * Z) (list VectorTime);
  getBufCount_ : gmap (Z * Z) Z;
  kernelType_ : KernelType; deviceType_ : DeviceType; blockDim_ : Z;
  isFinished_ : bool;
  hasCallback : bool;
  called : list (ReplayerCallbackType * SanEvent);
}.

Definition upd_sync (d : list SyncDb.SyncEventDataBase) (m : Members) : Members :=
  mkMembers d (cross_ m) (memEventCount_ m) (crossCoreBarrier_ m) (mstxSetCrossMap_ m) (getRlsBufMap_ m)
    (getBufCount_ m) (kernelType_ m) (deviceType_ m) (blockDim_ m) (isFinished_ m) (hasCallback m) (called m).
Definition upd_cross (c : Cross.CrossCoreSyncInfoContainer) (m : Members) : Members :=
  mkMembers (syncDB_ m) c (memEventCount_ m) (crossCoreBarrier_ m) (mstxSetCrossMap_ m) (getRlsBufMap_ m)
    (getBufCount_ m) (kernelType_ m) (deviceType_ m) (blockDim_ m) (isFinished_ m) (hasCallback m) (called m).
Definition upd_count (n : Z) (m : Members) : Members :=
  mkMembers (syncDB_ m) (cross_ m) n (crossCoreBarrier_ m) (mstxSetCrossMap_ m) (getRlsBufMap_ m)
    (getBufCount_ m) (kernelType_ m) (deviceType_ m) (blockDim_ m) (isFinished_ m) (hasCallback m) (called m).
Definition upd_barrier (b : Barrier.BarrierDatabase) (m : Members) : Members :=
  mkMembers (syncDB_ m) (cross_ m) (memEventCount_ m) b (mstxSetCrossMap_ m) (getRlsBufMap_ m)
    (getBufCount_ m) (kernelType_ m) (deviceType_ m) (blockDim_ m) (isFinished_ m) (hasCallback m) (called m).
Definition upd_mstx (s : gmap (Z * Z) Z) (m : Members) : Members :=
  mkMembers (syncDB_ m) (cross_ m) (memEventCount_ m) (crossCoreBarrier_ m) s (getRlsBufMap_ m)
    (getBufCount_ m) (kernelType_ m) (deviceType_ m) (blockDim_ m) (isFinished_ m) (hasCallback m) (called m).
Definition upd_bufs (r : gmap (Z * Z) (list VectorTime)) (g : gmap (Z * Z) Z) (m : Members) : Members :=
  mkMembers (syncDB_ m) (cross_ m) (memEventCount_ m) (crossCoreBarrier_ m) (mstxSetCrossMap_ m) r g
    (kernelType_ m) (deviceType_ m) (blockDim_ m) (isFinished_ m) (hasCallback m) (called m).
Definition upd_called (f : bool) (l : list (ReplayerCallbackType * SanEvent)) (m : Members) : Members :=
  mkMembers (syncDB_ m) (cross_ m) (memEventCount_ m) (crossCoreBarrier_ m) (mstxSetCrossMap_ m) (getRlsBufMap_ m)
    (getBufCount_ m) (kernelType_ m) (deviceType_ m) (blockDim_ m) f (hasCallback m) l.

Definition PipelineReplayer : Type := EventContainer * Members.

Definition total_blocks (kernelType : KernelType) (deviceType : DeviceType) (blockDim : Z) : Z :=
  if NeedExpandBlockDim kernelType deviceType then u32 (blockDim * C220_MIX_SUB_BLOCKDIM) else blockDim.

(** [Init]; the callback of the object stays registered. *)
Definition Init (kernelType : KernelType) (deviceType : DeviceType) (blockDim : Z) (callback : bool)
    : PipelineReplayer :=
  let totalBlockNum := total_blocks kernelType deviceType blockDim in
  (Cont.Init totalBlockNum 1,
   mkMembers (replicate (Z.to_nat totalBlockNum) ∅) (Cross.Init totalBlockNum kernelType) 0 ∅ ∅ ∅ ∅
     kernelType deviceType blockDim false callback []).

Definition CacheMstxCrossSet (event : SanEvent) (m : Members) : Members :=
  match eventInfo event with
  | CrossInfo i =>
      if bool_decide (mstx_opType i = MSTX_SET_CROSS) then
        let key := (mstx_addr i, mstx_flagId i) in
        upd_mstx (<[key := match mstxSetCrossMap_ m !! key with Some n => u64 (n + 1) | None => 1 end]>
                    (mstxSetCrossMap_ m)) m
      else m
  | _ => m
  end.

Definition is_mem_event (event : SanEvent) : bool :=
  match eventInfo event with MemInfo _ | DynamicInfo _ => true | _ => false end.

Definition ProcessMemEvent (event : SanEvent) (m : Members) : Members * ReturnType :=
  (if hasCallback m then upd_called (isFinished_ m) (called m ++ [(MEMORY_EVENT, event)]) m else m, PROCESS_OK).

Definition block_of (event : SanEvent) (m : Members) : Z := GetEventBlockIndex3 event (kernelType_ m) (deviceType_ m).

(** The key of a set or wait: the fields are narrowed to 8 bits. *)
Definition sync_key (i : SyncOpInfo) : SyncDb.SyncEvent :=
  SyncDb.mkSyncEvent (u8 (PipeType_code (sync_srcPipe i))) (u8 (PipeType_code (sync_dstPipe i)))
    (u8 (sync_eventId i)) (u8 (MemType_code (sync_memType i))) (sync_isRetrogress i).

Definition ProcessSyncEvent (event : SanEvent) (i : SyncOpInfo) (m : Members) : option (Members * ReturnType) :=
  let blockIdx := block_of event m in
  match sync_opType i with
  | SET_FLAG =>
      db ← at_index (syncDB_ m) blockIdx;
      Some (upd_sync (set_index (syncDB_ m) blockIdx (SyncDb.Set' (sync_key i) new_VectorTime db)) m, PROCESS_OK)
  | WAIT_FLAG =>
      db ← at_index (syncDB_ m) blockIdx;
      let '(db, vt) := SyncDb.Get (sync_key i) db in
      Some (upd_sync (set_index (syncDB_ m) blockIdx db) m,
            match vt with Some _ => PROCESS_OK | None => PROCESS_STALLED end)
  | _ => Some (m, PROCESS_OK)
  end.

Definition ProcessBlockSyncEvent (event : SanEvent) (i : FftsSyncInfo) (m : Members) : option (Members * ReturnType) :=
  let blockIndex := block_of event m in
  let vt := new_VectorTime in
  let c := if (1 <=? ffts_vecSubBlockDim i) && (ffts_vecSubBlockDim i <=? C220_VEC_SUB_BLOCKDIM)
           then Cross.SetVecSubBlockDim (ffts_vecSubBlockDim i) (cross_ m) else cross_ m in
  let m := upd_cross c m in
  match ffts_opType i with
  | FFTS_SYNC =>
      c ← Cross.SetBlockSyncInfo (ffts_flagId i) (to_FftsSyncMode (ffts_mode i)) blockIndex vt
            (ffts_vecSubBlockDim i) (loc event) (serialNo event) c;
      Some (upd_cross c m, PROCESS_OK)
  | WAIT_FLAG_DEV =>
      r ← Cross.GetBlockSyncInfo (ffts_flagId i) blockIndex vt c;
      let '(c, t) := r in
      Some (upd_cross c m, match t with Some _ => PROCESS_OK | None => PROCESS_STALLED end)
  | WAIT_INTRA_BLOCK =>
      r ← Cross.GetIntraBlockSyncInfo (ffts_flagId i) blockIndex vt c;
      let '(c, t) := r in
      Some (upd_cross c m, match t with Some _ => PROCESS_OK | None => PROCESS_STALLED end)
  | _ => Some (m, PROCESS_STALLED)
  end.

Definition ProcessBlockSoftSyncEvent (curPipe : Z) (event : SanEvent) (i : SoftSyncInfo) (m : Members)
    : option (Members * ReturnType) :=
  let blockIndex := block_of event m in
  let vt := new_VectorTime in
  match soft_opType i with
  | SYNC_ALL =>
      r ← Cross.SyncAll blockIndex (soft_usedCores i) curPipe vt (cross_ m);
      let '(c, _, ok) := r in
      Some (upd_cross c m, if ok : bool then PROCESS_OK else PROCESS_STALLED)
  | IB_SET =>
      c ← Cross.SetBlockSoftSyncInfo (soft_eventID i) blockIndex vt (cross_ m);
      Some (upd_cross c m, PROCESS_OK)
  | IB_WAIT =>
      r ← Cross.GetBlockSoftSyncInfo (soft_eventID i) (soft_waitCoreID i) vt (cross_ m);
      let '(c, t) := r in
      Some (upd_cross c m, match t with Some _ => PROCESS_OK | None => PROCESS_STALLED end)
  | _ => Some (m, PROCESS_STALLED)
  end.

Definition ProcessMstxCrossSyncEvent (event : SanEvent) (i : MstxCrossInfo) (m : Members)
    : option (Members * ReturnType) :=
  let vt := new_VectorTime in
  match mstx_opType i with
  | MSTX_SET_CROSS => Some (upd_cross (Cross.SetMstxCrossInfo i vt (cross_ m)) m, PROCESS_OK)
  | MSTX_WAIT_CROSS =>
      let key := (mstx_addr i, mstx_flagId i) in
      let n := mstxSetCrossMap_ m !! key in
      if mstx_isMore i && (match n with None => true | Some n => n =? 0 end) then Some (m, PROCESS_OK)
      else
        r ← Cross.GetMstxCrossInfo i vt (cross_ m);
        let '(c, t) := r in
        let m := upd_cross c m in
        match t with
        | Some _ =>
            Some (match n with Some n => upd_mstx (<[key := u64 (n - 1)]> (mstxSetCrossMap_ m)) m | None => m end,
                  PROCESS_OK)
        | None => Some (m, PROCESS_STALLED)
        end
  | _ => Some (m, PROCESS_STALLED)
  end.

Definition barrier_conf (i : MstxCrossCoreBarrier) : Barrier.Conf := (core_isAIVOnly i, 1, core_usedCoreNum i).

Definition ProcessMstxCrossCoreBarrier (event : SanEvent) (i : MstxCrossCoreBarrier) (m : Members)
    : option (Members * ReturnType) :=
  let conf := barrier_conf i in
  r ← Barrier.Wait (core_usedCoreNum i) (coreId (loc event)) new_VectorTime (Barrier.at_conf conf (crossCoreBarrier_ m));
  let '(b, vt) := r in
  Some (upd_barrier (<[conf := b]> (crossCoreBarrier_ m)) m,
        match vt with Some _ => PROCESS_OK | None => PROCESS_STALLED end).

(** The barrier between devices decays to the one between cores. *)
Definition ProcessMstxCrossNpuBarrier (event : SanEvent) (i : MstxCrossNpuBarrier) (m : Members)
    : option (Members * ReturnType) :=
  let core := {| core_usedCoreNum := npu_usedCoreNum i; core_usedCoreId := npu_usedCoreId i;
                 core_isAIVOnly := npu_isAIVOnly i; core_pipeBarrierAll := npu_pipeBarrierAll i |} in
  ProcessMstxCrossCoreBarrier (set_eventInfo (CoreBarrierInfo core) event) core m.

Definition ProcessGetRlsBufSyncEvent (event : SanEvent) (i : BufSyncInfo) (m : Members) : Members * ReturnType :=
  let bufKey := (block_of event m, buf_bufId i) in
  if bool_decide (buf_opType i = GET_BUF) && bool_decide (buf_mode i = BLOCK_MODE) then
    let it := getRlsBufMap_ m !! bufKey in
    let consumed := default 0 (getBufCount_ m !! bufKey) in
    let m := upd_bufs (getRlsBufMap_ m) (<[bufKey := consumed]> (getBufCount_ m)) m in
    let available := u64 (match it with None => 0 | Some l => Z.of_nat (length l) end + 1) in
    let taken := upd_bufs (getRlsBufMap_ m) (<[bufKey := u64 (consumed + 1)]> (getBufCount_ m)) m in
    if buf_rlsCount i =? 0 then
      if available <? u64 (consumed + 1) then (m, PROCESS_STALLED) else (taken, PROCESS_OK)
    else
      match it with
      | None => (m, PROCESS_STALLED)
      | Some l =>
          if (Z.of_nat (length l) <? buf_rlsCount i) || (available <? u64 (consumed + 1))
          then (m, PROCESS_STALLED) else (taken, PROCESS_OK)
      end
  else if bool_decide (buf_opType i = RLS_BUF) then
    (upd_bufs (<[bufKey := default [] (getRlsBufMap_ m !! bufKey) ++ [new_VectorTime]]> (getRlsBufMap_ m))
       (getBufCount_ m) m, PROCESS_OK)
  else (m, PROCESS_OK).

(** The dispatch on the type of the event; [curPipe] is the queue it is in. *)
Definition dispatch (curPipe : Z) (event : SanEvent) (m : Members) : option (Members * ReturnType) :=
  match eventInfo event with
  | SyncInfo i => ProcessSyncEvent event i m
  | FftsInfo i => ProcessBlockSyncEvent event i m
  | SoftInfo i => ProcessBlockSoftSyncEvent curPipe event i m
  | CrossInfo i => ProcessMstxCrossSyncEvent event i m
  | CoreBarrierInfo i => ProcessMstxCrossCoreBarrier event i m
  | NpuBarrierInfo i => ProcessMstxCrossNpuBarrier event i m
  | BufInfo i => Some (ProcessGetRlsBufSyncEvent event i m)
  | MemInfo _ | DynamicInfo _ => Some (ProcessMemEvent event m)
  | _ => Some (m, PROCESS_OK)
  end.

(** Whether [ProcessEvent] moves an event from the queue of pipe [curPipe] to
    the queue of its own pipe. *)
Definition migrates (curPipe : Z) (event : SanEvent) : bool :=
  negb (is_mem_event event) && negb (curPipe =? PipeType_code (pipe event)) &&
  (PipeType_code (pipe event) <? PIPE_NUM).

Definition ProcessEvent (r : PipelineReplayer) (event : SanEvent) : option (PipelineReplayer * ReturnType) :=
  let '(c, m) := r in
  if migrates (GetPipeIndex c) event then
    c ← Push event (pipe event) (block_of event m) 0 c;
    Some ((c, m), PROCESS_OK)
  else
    d ← dispatch (GetQueIndex c) event m;
    let '(m, ret) := d in Some ((c, m), ret).

Definition is_finish (event : SanEvent) : bool :=
  match eventInfo event with ControlInfo CONTROL_KERNEL_FINISH => true | _ => false end.

(** [Do]; [fuel] bounds the replay loop. *)
Definition Do (fuel : nat) (event : SanEvent) (r : PipelineReplayer) : option PipelineReplayer :=
  let '(c, m) := r in
  if negb (is_finish event) then
    let m := CacheMstxCrossSet event m in
    let m := if is_mem_event event then upd_count (u64 (memEventCount_ m + 1)) m else m in
    c ← Push event PIPE_S (block_of event m) 0 c;
    Some (c, m)
  else
    s ← Run (Some ProcessEvent) fuel (CHECK_ALL_DEVICE, (c, m));
    let '(_, (c, m)) := s in
    m ← (if hasCallback m && negb (IsEmpty c) then
           l ← ForEachFrontEvent c;
           Some (upd_called (isFinished_ m) (called m ++ ((λ e, (ALL_DEVICE_STUCK, e)) <$> l)) m)
         else Some m);
    Some (c, upd_called true (called m) m).

Definition IsFinished (r : PipelineReplayer) : bool := isFinished_ r.2.
Definition GetMemEventCount (r : PipelineReplayer) : Z := memEventCount_ r.2.
Definition RegisterCallback (r : PipelineReplayer) : PipelineReplayer :=
  let '(c, m) := r in
  (c, mkMembers (syncDB_ m) (cross_ m) (memEventCount_ m) (crossCoreBarrier_ m) (mstxSetCrossMap_ m)
        (getRlsBufMap_ m) (getBufCount_ m) (kernelType_ m) (deviceType_ m) (blockDim_ m) (isFinished_ m) true
        (called m)).
End Replay.
