(* ===== verification/ReplayerProofs.v ===== *)
(** The replay of a kernel by [PipelineReplayer]: every replay of legal events
    ends, releases the memory events of each block in the order in which they
    were recorded, and leaves events behind only when none of them can go on. *)
From stdpp Require Import base numbers option gmap sets list.
From S2P Require Import Prelude.
From S2P Require Import RecordDefs.
From S2P Require Import Platform.
From S2P Require Import EventDef.
From S2P Require Import VectorTime.
From S2P Require Import VectorTimeProofs.
From S2P Require Import EventContainer.
From S2P Require Import PipeLineProofs.
From S2P Require Import SyncContainers.
From S2P Require Import SyncProofs.
From S2P Require Import PipelineReplayer.
Import VT Cont Pipe Replay.

Lemma at_index_fmap {A C} (g : A → C) l i : at_index (g <$> l) i = g <$> at_index l i.
Proof. unfold at_index. destruct (0 <=? i); [|done]. apply list_lookup_fmap. Qed.

Section replay.
Context (kt : KernelType) (dt : DeviceType) (B : Z).

Definition blk (e : SanEvent) : Z := GetEventBlockIndex3 e kt dt.

(** Events that the instruments produce: flags within the array, partner blocks
    that exist, and fewer than 256 blocks for a synchronisation of all cores. *)
Definition legal (e : SanEvent) : bool :=
  match eventInfo e with
  | FftsInfo i =>
      match ffts_opType i with
      | FFTS_SYNC => (0 <=? ffts_flagId i) && negb (ffts_flagId i =? 32) &&
          partners_exist (Cross.Init B kt) (to_FftsSyncMode (ffts_mode i)) (ffts_vecSubBlockDim i) (blk e)
      | WAIT_FLAG_DEV | WAIT_INTRA_BLOCK => (0 <=? ffts_flagId i) && (ffts_flagId i <? 32)
      | _ => true
      end
  | SoftInfo i => match soft_opType i with SYNC_ALL => (B <? 256) && (negb (bool_decide (kt = KT_MIX)) || (3 <=? B)) | _ => true end
  | _ => true
  end.

Record members_ok (m : Members) : Prop := {
  m_kt : kernelType_ m = kt;
  m_dt : deviceType_ m = dt;
  m_sync : Z.of_nat (length (syncDB_ m)) = B;
  m_cross : cross_ok (cross_ m);
  m_max : Cross.maxBlockNum_ (cross_ m) = B;
  m_ckt : Cross.kernelType_ (cross_ m) = kt;
  m_dim : 1 <= Cross.vecSubBlockDim_ (cross_ m) <= 2;
  m_sem : sem_ok (Cross.semCores_ (cross_ m));
  m_bar : map_Forall (λ _ b, wf (Barrier.vtGlobal_ b)) (crossCoreBarrier_ m);
}.

(** What the outside sees. *)
Definition same_out (m m' : Members) : Prop :=
  hasCallback m' = hasCallback m ∧ isFinished_ m' = isFinished_ m ∧ called m' = called m ∧
  memEventCount_ m' = memEventCount_ m.

(** Changes that unblock nobody. *)
Definition barrier_quiet (rank : Z) (b b' : Barrier.BarrierEvent) : Prop :=
  if Barrier.allReachBarrier_ b then b' = b
  else Barrier.allReachBarrier_ b' = false ∧ Barrier.reachedWorkers_ b ⊆ Barrier.reachedWorkers_ b' ∧
       (Barrier.reachedWorkers_ b' = Barrier.reachedWorkers_ b ∨
        Z.of_nat (size (Barrier.reachedWorkers_ b')) < rank).

Record quiet (m m' : Members) : Prop := {
  q_sync : syncDB_ m' = syncDB_ m;
  q_mstx : mstxSetCrossMap_ m' = mstxSetCrossMap_ m;
  q_rls : getRlsBufMap_ m' = getRlsBufMap_ m;
  q_get k : default 0 (getBufCount_ m' !! k) = default 0 (getBufCount_ m !! k);
  q_events : Cross.blockSyncEvent_ (cross_ m') = Cross.blockSyncEvent_ (cross_ m);
  q_cmstx : Cross.mstxCrossSetMap_ (cross_ m') = Cross.mstxCrossSetMap_ (cross_ m);
  q_soft : Cross.mapVectorTime <$> Cross.blockSoftSyncInfo_ (cross_ m') =
           Cross.mapVectorTime <$> Cross.blockSoftSyncInfo_ (cross_ m);
  q_bar conf : barrier_quiet conf.2 (Barrier.at_conf conf (crossCoreBarrier_ m))
                                    (Barrier.at_conf conf (crossCoreBarrier_ m'));
}.

Lemma barrier_quiet_refl rank b : barrier_quiet rank b b.
Proof. unfold barrier_quiet. destruct (Barrier.allReachBarrier_ b); [done|]. split_and!; auto. Qed.

Lemma quiet_refl m : quiet m m.
Proof. split; try done. intros conf. apply barrier_quiet_refl. Qed.

(** The barrier an event waits at, and its worker. *)
Definition barrier_of (e : SanEvent) : option (Barrier.Conf * Z) :=
  match eventInfo e with
  | CoreBarrierInfo i => Some (barrier_conf i, coreId (loc e))
  | NpuBarrierInfo i => Some ((npu_isAIVOnly i, 1, npu_usedCoreNum i), coreId (loc e))
  | _ => None
  end.

(** The worker of a barrier event is counted, or the round is over. *)
Definition settled (m : Members) (e : SanEvent) : Prop :=
  match barrier_of e with
  | Some (conf, w) =>
      let b := Barrier.at_conf conf (crossCoreBarrier_ m) in
      Barrier.allReachBarrier_ b = true ∨ w ∈ Barrier.reachedWorkers_ b
  | None => True
  end.

Lemma settled_mono m m' e : quiet m m' → settled m e → settled m' e.
Proof.
  intros Hq. unfold settled. destruct (barrier_of e) as [ [conf w]|]; [|done].
  pose proof (q_bar _ _ Hq conf) as H. unfold barrier_quiet in H.
  destruct (Barrier.allReachBarrier_ (Barrier.at_conf conf (crossCoreBarrier_ m))) eqn:E.
  - rewrite H, E. by left.
  - intros [|Hw]; [done|]. right. set_solver.
Qed.

(** The outcome of a handler. *)
Definition good (m : Members) (e : SanEvent) (r : option (Members * ReturnType)) : Prop :=
  ∃ m' ret, r = Some (m', ret) ∧ members_ok m' ∧ same_out m m' ∧
    (ret = PROCESS_STALLED → quiet m m' ∧ settled m' e).

Definition stalls_in (h : Members → option (Members * ReturnType)) (m : Members) : Prop :=
  ∃ m', h m = Some (m', PROCESS_STALLED).

(** A stalled event stays stalled. *)
Definition stays (h : Members → option (Members * ReturnType)) (e : SanEvent) : Prop :=
  ∀ m m', members_ok m → members_ok m' → quiet m m' → settled m' e → stalls_in h m → stalls_in h m'.

Lemma good_ok m e m' : members_ok m' → same_out m m' → good m e (Some (m', PROCESS_OK)).
Proof. intros. exists m', PROCESS_OK. split_and!; done. Qed.

Lemma good_stall m e : members_ok m → settled m e → good m e (Some (m, PROCESS_STALLED)).
Proof. intros. exists m, PROCESS_STALLED. split_and!; auto using quiet_refl. by split_and!. Qed.

(** Changes of the containers of cores that keep the shape. *)
Lemma ok_cross m c :
  members_ok m → cross_ok c → Cross.maxBlockNum_ c = B → Cross.kernelType_ c = kt →
  1 <= Cross.vecSubBlockDim_ c <= 2 → sem_ok (Cross.semCores_ c) → members_ok (upd_cross c m).
Proof. intros [] ? ? ? ? ?. by split. Qed.

Lemma ok_wait m c :
  members_ok m → cross_ok c → Cross.maxBlockNum_ c = Cross.maxBlockNum_ (cross_ m) →
  Cross.kernelType_ c = Cross.kernelType_ (cross_ m) → Cross.vecSubBlockDim_ c = Cross.vecSubBlockDim_ (cross_ m) →
  Cross.semCores_ c = Cross.semCores_ (cross_ m) → members_ok (upd_cross c m).
Proof. intros [] ? E1 E2 E3 E4. apply ok_cross; rewrite ?E1, ?E2, ?E3, ?E4; done. Qed.

Lemma good_wait m e (r : option (Cross.CrossCoreSyncInfoContainer * option VectorTime)) :
  members_ok m → settled m e → wait_ok (cross_ m) r →
  good m e (r ← r; let '(c, t) := r in
    Some (upd_cross c m, match t with Some _ => PROCESS_OK | None => PROCESS_STALLED end)).
Proof.
  intros Hm Hs [-> |(c & t & -> & Hc & _ & ? & ? & ? & ?)]; simpl.
  - assert (upd_cross (cross_ m) m = m) as -> by by destruct m. by apply good_stall.
  - apply good_ok; [by apply ok_wait|done].
Qed.

(** *** Flags between the pipes of a block *)

Lemma sync_db m e : members_ok m → 0 <= blk e < B → ∃ db, at_index (syncDB_ m) (block_of e m) = Some db.
Proof.
  intros Hm Hb. apply at_index_some. rewrite (m_sync _ Hm). unfold block_of. by rewrite (m_kt _ Hm), (m_dt _ Hm).
Qed.

Lemma ok_sync m d : members_ok m → length d = length (syncDB_ m) → members_ok (upd_sync d m).
Proof. intros [] Hl. split; try done. simpl. by rewrite Hl. Qed.

Lemma sync_good m e i :
  eventInfo e = SyncInfo i → members_ok m → 0 <= blk e < B → good m e (ProcessSyncEvent e i m).
Proof.
  intros He Hm Hb. unfold ProcessSyncEvent. destruct (sync_db m e Hm Hb) as [db Hdb].
  destruct (sync_opType i); try (apply good_ok; [done|by split_and!]); rewrite Hdb; simpl.
  - apply good_ok; [|done]. apply ok_sync; [done|apply length_insert].
  - unfold SyncDb.Get. destruct (db !! sync_key i) as [ [|v q]|] eqn:Hl.
    2: { apply good_ok; [|done]. apply ok_sync; [done|apply length_insert]. }
    all: assert (upd_sync (set_index (syncDB_ m) (block_of e m) db) m = m) as ->.
    1, 3: unfold at_index in Hdb; destruct (0 <=? block_of e m); [|done]; unfold set_index;
      rewrite list_insert_id by done; by destruct m.
    all: apply good_stall; [done|]; unfold settled, barrier_of; by rewrite He.
Qed.

Lemma sync_stays e i : stays (ProcessSyncEvent e i) e.
Proof.
  intros m m' Hm Hm' Hq _ [m1 H]. unfold stalls_in, ProcessSyncEvent, block_of in *.
  rewrite (q_sync _ _ Hq), (m_kt _ Hm'), (m_dt _ Hm'). rewrite (m_kt _ Hm), (m_dt _ Hm) in H.
  destruct (sync_opType i); try done.
  - destruct (at_index _ _); [|done]. done.
  - destruct (at_index _ _) as [db|]; [|done]. simpl in *. destruct (SyncDb.Get (sync_key i) db) as [d [v|] ]; [done|].
    by eexists.
Qed.

(** *** Flags between cores *)

Context (HB : 1 <= B) (HBmax : B * 12 < 4294967296).

Lemma ffts_dim m d :
  members_ok m →
  let c := if (1 <=? d) && (d <=? Cross.vecSubBlockDim_ (Cross.Init B kt)) then Cross.SetVecSubBlockDim d (cross_ m)
           else cross_ m in
  members_ok (upd_cross c m) ∧ quiet m (upd_cross c m).
Proof.
  intros Hm c. split.
  - apply ok_cross; [done|unfold c; destruct (_ && _) eqn:E..]; try apply Hm.
    + destruct (m_cross _ Hm). by split.
    + simpl in *. bool_prop. unfold C220_VEC_SUB_BLOCKDIM in *. simpl. lia.
  - split; try done; unfold c; destruct (_ && _); try done; simpl; intros; apply barrier_quiet_refl.
Qed.

Lemma good_trans m m1 e r :
  quiet m m1 → same_out m m1 → (∀ m2, quiet m1 m2 → quiet m m2) → good m1 e r → good m e r.
Proof.
  intros Hq (O1 & O2 & O3 & O4) Ht (m' & ret & -> & Hm' & (O1' & O2' & O3' & O4') & Hs). exists m', ret.
  split_and!; try done; [split_and!; congruence|]. intros Hr. destruct (Hs Hr). auto.
Qed.

Lemma ffts_good m e i :
  eventInfo e = FftsInfo i → members_ok m → 0 <= blk e < B → legal e = true → good m e (ProcessBlockSyncEvent e i m).
Proof.
  intros He Hm Hb Hl. unfold ProcessBlockSyncEvent.
  change C220_VEC_SUB_BLOCKDIM with (Cross.vecSubBlockDim_ (Cross.Init B kt)).
  destruct (ffts_dim m (ffts_vecSubBlockDim i) Hm) as [Hm1 Hq1]. revert Hm1 Hq1. set (c := if _ && _ then _ else _).
  intros Hm1 Hq1. assert (block_of e m = blk e) as -> by (unfold block_of; by rewrite (m_kt _ Hm), (m_dt _ Hm)).
  unfold legal in Hl. rewrite He in Hl. assert (settled (upd_cross c m) e) as Hs by (unfold settled, barrier_of; by rewrite He).
  assert (∀ m2, quiet (upd_cross c m) m2 → quiet m m2) as Ht.
  { intros m2 [X1 X2 X3 X4 X5 X6 X7 X8]. split; try done; simpl in *; rewrite ?X5, ?X6, ?X7; apply Hq1. }
  apply (good_trans m (upd_cross c m)); [done|by split_and!|done|].
  pose proof (m_cross _ Hm1) as Hc. pose proof (m_max _ Hm1) as Hmax. simpl in Hc, Hmax.
  destruct (ffts_opType i); try by apply good_stall.
  - bool_prop. destruct (SetBlockSyncInfo_ok (ffts_flagId i) (to_FftsSyncMode (ffts_mode i)) (blk e) new_VectorTime
      (ffts_vecSubBlockDim i) (loc e) (serialNo e) c) as (c' & -> & Hc' & (S1 & S2 & S3 & S4 & S5 & S6)); try done; try lia.
    + apply new_wf.
    + rewrite <- H0. unfold partners_exist. rewrite Hmax. pose proof (m_ckt _ Hm1) as Hk. simpl in *. by rewrite Hk.
    + simpl. apply good_ok; [|done]. by apply (ok_wait (upd_cross c m)).
  - bool_prop. pose proof (GetBlockSyncInfo_ok (ffts_flagId i) (blk e) new_VectorTime c Hc ltac:(lia) ltac:(lia) new_wf) as Hw.
    apply (good_wait (upd_cross c m) e _ Hm1 Hs Hw).
  - bool_prop. pose proof (GetIntraBlockSyncInfo_ok (ffts_flagId i) (blk e) new_VectorTime c Hc ltac:(lia) ltac:(lia) new_wf) as Hw.
    apply (good_wait (upd_cross c m) e _ Hm1 Hs Hw).
Qed.

Lemma wait_stalls (r : option (Cross.CrossCoreSyncInfoContainer * option VectorTime)) m m1 :
  (r ← r; let '(c, t) := r in
     Some (upd_cross c m, match t with Some _ => PROCESS_OK | None => PROCESS_STALLED end)) = Some (m1, PROCESS_STALLED) →
  ∃ c, r = Some (c, None).
Proof. destruct r as [ [c [t|] ]|]; simpl; [done|eauto|done]. Qed.

Lemma stalls_wait (r : option (Cross.CrossCoreSyncInfoContainer * option VectorTime)) m c :
  r = Some (c, None) →
  ∃ m1, (r ← r; let '(c, t) := r in
     Some (upd_cross c m, match t with Some _ => PROCESS_OK | None => PROCESS_STALLED end)) = Some (m1, PROCESS_STALLED).
Proof. intros ->. simpl. eauto. Qed.

(** A wait that finds nothing finds nothing in a container with the same sets. *)
Lemma info_same c c' b f : Cross.blockSyncEvent_ c' = Cross.blockSyncEvent_ c → Cross.info c' b f = Cross.info c b f.
Proof. intros E. unfold Cross.info. by rewrite E. Qed.

Lemma GetBlockSyncInfo_none f b vt c c' c1 :
  Cross.maxBlockNum_ c' = Cross.maxBlockNum_ c → Cross.blockSyncEvent_ c' = Cross.blockSyncEvent_ c →
  Cross.GetBlockSyncInfo f b vt c = Some (c1, None) → Cross.GetBlockSyncInfo f b vt c' = Some (c', None).
Proof.
  intros E1 E2. unfold Cross.GetBlockSyncInfo. rewrite E1, (info_same c c') by done. destruct (_ <=? _); [done|].
  destruct (Cross.info c b _) as [i|]; [|done]. simpl. destruct (Cross.waitVec i); [done|].
  destruct (VectorClock.UpdateVectorTime _ _); [|done]. simpl. by destruct (Cross.update _ _ _ c).
Qed.

Lemma GetIntraBlockSyncInfo_none f b vt c c' c1 :
  Cross.maxBlockNum_ c' = Cross.maxBlockNum_ c → Cross.blockSyncEvent_ c' = Cross.blockSyncEvent_ c →
  Cross.kernelType_ c' = Cross.kernelType_ c →
  Cross.GetIntraBlockSyncInfo f b vt c = Some (c1, None) → Cross.GetIntraBlockSyncInfo f b vt c' = Some (c', None).
Proof.
  intros E1 E2 E3. unfold Cross.GetIntraBlockSyncInfo. rewrite E1, E3, (info_same c c') by done.
  destruct (_ <=? _); [done|]. destruct (Cross.info c b _) as [i|]; [|done]. simpl. destruct (Cross.intrablockwaitVec i); [done|].
  destruct (VectorClock.UpdateVectorTime _ _); [|done]. simpl. by destruct (Cross.update _ _ _ c).
Qed.

Lemma ffts_stays e i : stays (ProcessBlockSyncEvent e i) e.
Proof.
  intros m m' Hm Hm' Hq _ [m1 H]. unfold stalls_in, ProcessBlockSyncEvent, block_of in *.
  rewrite (m_kt _ Hm'), (m_dt _ Hm'). rewrite (m_kt _ Hm), (m_dt _ Hm) in H.
  revert H. set (c := if _ && _ then _ else cross_ m). set (c' := if _ && _ then _ else cross_ m'). intros H.
  assert (Cross.maxBlockNum_ c' = Cross.maxBlockNum_ c ∧ Cross.blockSyncEvent_ c' = Cross.blockSyncEvent_ c ∧
    Cross.kernelType_ c' = Cross.kernelType_ c) as (E1 & E2 & E3).
  { pose proof (q_events _ _ Hq). destruct Hm, Hm'. subst c c'.
    destruct (_ && _); simpl; split_and!; congruence. }
  destruct (ffts_opType i); try by eexists.
  - by destruct (Cross.SetBlockSyncInfo _ _ _ _ _ _ _ _).
  - apply wait_stalls in H as [c1 H]. by eapply stalls_wait, GetBlockSyncInfo_none.
  - apply wait_stalls in H as [c1 H]. by eapply stalls_wait, GetIntraBlockSyncInfo_none.
Qed.

(** *** Soft synchronisation *)

Lemma sync_all_stalls m e i p :
  eventInfo e = SoftInfo i → soft_opType i = SYNC_ALL → members_ok m → 0 <= blk e < B → legal e = true → is_u32 p →
  ∃ m', ProcessBlockSoftSyncEvent p e i m = Some (m', PROCESS_STALLED) ∧ members_ok m' ∧ same_out m m' ∧ quiet m m'.
Proof.
  intros He Ho Hm Hb Hl Hp. unfold legal in Hl. rewrite He, Ho in Hl. unfold ProcessBlockSoftSyncEvent. rewrite Ho.
  assert (block_of e m = blk e) as -> by (unfold block_of; by rewrite (m_kt _ Hm), (m_dt _ Hm)).
  destruct (SyncAll_stalls (blk e) (soft_usedCores i) p new_VectorTime (cross_ m)) as
    (c & t & -> & Hc & Hs & _ & M & K & V & E1 & E2 & E3); try done; try apply Hm.
  - unfold aiv_ok, Cross.GetAIVCount. rewrite (m_max _ Hm), (m_ckt _ Hm). pose proof (m_dim _ Hm) as Hd.
    unfold C220_MIX_SUB_BLOCKDIM. destruct (Z.ltb_spec B 256); [|done]. split; [lia|].
    destruct kt; try lia. simpl in Hl. bool_prop.
    assert (1 <= B / 3 <= 85) as Hq by zdiv. rewrite u32_small by (unfold is_u32; nia). nia.
  - by rewrite (m_max _ Hm).
  - apply new_wf.
  - simpl. eexists. split; [done|]. split; [|split; [done|]].
    + destruct Hm. apply ok_cross; rewrite ?M, ?K, ?V; done.
    + split; try done. intros conf. apply barrier_quiet_refl.
Qed.

Lemma soft_good m e i p :
  eventInfo e = SoftInfo i → members_ok m → 0 <= blk e < B → legal e = true → is_u32 p →
  good m e (ProcessBlockSoftSyncEvent p e i m).
Proof.
  intros He Hm Hb Hl Hp. assert (∀ m, settled m e) as Hs by (intros; unfold settled, barrier_of; by rewrite He).
  destruct (decide (soft_opType i = SYNC_ALL)) as [Ho|Ho].
  - destruct (sync_all_stalls m e i p He Ho Hm Hb Hl Hp) as (m' & -> & H1 & H2 & H3).
    exists m', PROCESS_STALLED. split_and!; try done.
  - unfold ProcessBlockSoftSyncEvent.
    assert (block_of e m = blk e) as -> by (unfold block_of; by rewrite (m_kt _ Hm), (m_dt _ Hm)).
    destruct (soft_opType i); try (by apply good_stall); try done.
    + destruct (SetBlockSoftSyncInfo_ok (soft_eventID i) (blk e) new_VectorTime (cross_ m) (m_cross _ Hm) ltac:(lia) new_wf)
        as (c & -> & Hc & ? & ? & ? & ?). simpl. apply good_ok; [by apply ok_wait|done].
    + apply good_wait; [done..|]. apply GetBlockSoftSyncInfo_ok; [apply Hm|apply new_wf].
Qed.

Lemma Consume_none id b vt c c' c1 :
  Cross.mapVectorTime <$> Cross.blockSoftSyncInfo_ c' = Cross.mapVectorTime <$> Cross.blockSoftSyncInfo_ c →
  Cross.ConsumeBlockSoftSyncInfo id b vt c = Some (c1, None) →
  c1 = c ∧ Cross.ConsumeBlockSoftSyncInfo id b vt c' = Some (c', None).
Proof.
  intros E. apply (f_equal (λ l, at_index l b)) in E. rewrite !at_index_fmap in E.
  unfold Cross.ConsumeBlockSoftSyncInfo.
  destruct (at_index (Cross.blockSoftSyncInfo_ c) b) as [i|], (at_index (Cross.blockSoftSyncInfo_ c') b) as [i'|];
    simpl in *; try done. injection E as ->.
  destruct (Cross.mapVectorTime i !! id); [by destruct (VectorClock.UpdateVectorTime _ _)|]. by intros [= ->].
Qed.

Lemma consume_any_none blocks id vt c c' c1 :
  Cross.mapVectorTime <$> Cross.blockSoftSyncInfo_ c' = Cross.mapVectorTime <$> Cross.blockSoftSyncInfo_ c →
  Cross.consume_any blocks id vt c = Some (c1, None) → Cross.consume_any blocks id vt c' = Some (c', None).
Proof.
  intros E. induction blocks as [|b blocks IH]; simpl; [done|].
  destruct (Cross.ConsumeBlockSoftSyncInfo id b vt c) as [ [c2 [t|] ]|] eqn:Hc; [done| |done]. simpl.
  destruct (Consume_none _ _ _ _ _ _ E Hc) as [-> ->]. simpl. apply IH.
Qed.

Lemma soft_stays e i p :
  eventInfo e = SoftInfo i → 0 <= blk e < B → legal e = true → is_u32 p → stays (ProcessBlockSoftSyncEvent p e i) e.
Proof.
  intros He Hb Hl Hp m m' Hm Hm' Hq _ [m1 H]. unfold stalls_in.
  destruct (decide (soft_opType i = SYNC_ALL)) as [Ho|Ho].
  - destruct (sync_all_stalls m' e i p He Ho Hm' Hb Hl Hp) as (m2 & -> & _). eauto.
  - unfold ProcessBlockSoftSyncEvent in *. pose proof (q_soft _ _ Hq) as E.
    destruct (soft_opType i); try done; try by eexists.
    + by destruct (Cross.SetBlockSoftSyncInfo _ _ _ _).
    + apply wait_stalls in H as [c1 H]. apply (stalls_wait _ m' (cross_ m')). revert H.
      unfold Cross.GetBlockSoftSyncInfo, Cross.all_blocks. rewrite (m_max _ Hm), (m_max _ Hm').
      destruct (0 <=? soft_waitCoreID i).
      * destruct (B <=? soft_waitCoreID i); [done|]. intros H. by eapply Consume_none.
      * by apply consume_any_none.
Qed.

(** *** User-reported synchronisation *)

Lemma ok_mstx m s : members_ok m → members_ok (upd_mstx s m).
Proof. intros []. by split. Qed.

Lemma mstx_good m e i :
  eventInfo e = CrossInfo i → members_ok m → good m e (ProcessMstxCrossSyncEvent e i m).
Proof.
  intros He Hm. assert (∀ m, settled m e) as Hs by (intros; unfold settled, barrier_of; by rewrite He).
  unfold ProcessMstxCrossSyncEvent. destruct (mstx_opType i); try by apply good_stall.
  - apply good_ok; [|done]. apply ok_wait; try done. apply SetMstxCrossInfo_ok; [apply Hm|apply new_wf].
  - destruct (mstx_isMore i && _); [by apply good_ok; [|by split_and!]|].
    destruct (GetMstxCrossInfo_ok i new_VectorTime (cross_ m) (m_cross _ Hm) new_wf)
      as [-> |(c & t & -> & Hc & _ & ? & ? & ? & ?)]; simpl.
    + assert (upd_cross (cross_ m) m = m) as -> by by destruct m. by apply good_stall.
    + assert (members_ok (upd_cross c m)) as H' by by apply ok_wait.
      destruct (mstxSetCrossMap_ m !! _); (apply good_ok; [|done]); [by apply ok_mstx|done].
Qed.

Lemma mstx_stays e i : stays (ProcessMstxCrossSyncEvent e i) e.
Proof.
  intros m m' Hm Hm' Hq _ [m1 H]. unfold stalls_in, ProcessMstxCrossSyncEvent, Cross.GetMstxCrossInfo in *.
  rewrite (q_mstx _ _ Hq), (q_cmstx _ _ Hq). destruct (mstx_opType i); try discriminate;
    try (eexists; reflexivity).
  destruct (_ && _); [done|]. destruct (Cross.mstxCrossSetMap_ (cross_ m) !! _) as [ [|v q]|].
  - simpl in *. by destruct (mstxSetCrossMap_ m !! _).
  - destruct (VectorClock.UpdateVectorTime _ _); [|done]. simpl in *. by destruct (mstxSetCrossMap_ m !! _).
  - simpl. by eexists.
Qed.

(** *** Barriers *)

Lemma at_conf_wf m conf : members_ok m → wf (Barrier.vtGlobal_ (Barrier.at_conf conf (crossCoreBarrier_ m))).
Proof.
  intros Hm. unfold Barrier.at_conf. destruct (crossCoreBarrier_ m !! conf) as [b|] eqn:Hb; [|apply new_wf].
  by apply (map_Forall_lookup_1 _ _ _ _ (m_bar _ Hm) Hb).
Qed.

Lemma at_conf_insert conf conf' b d :
  Barrier.at_conf conf' (<[conf := b]> d) = if decide (conf' = conf) then b else Barrier.at_conf conf' d.
Proof.
  unfold Barrier.at_conf. destruct (decide (conf' = conf)) as [->|].
  - exact (f_equal (default _) (lookup_insert_eq (M := gmap Barrier.Conf) d conf b)).
  - apply (f_equal (default _)), (lookup_insert_ne (M := gmap Barrier.Conf) d conf conf' b). congruence.
Qed.

(** One call of [Wait]: it stalls while workers are missing, and in a finished
    round for those who have left it. *)
Lemma Wait_cases rank w b :
  wf (Barrier.vtGlobal_ b) →
  ∃ b' r, Barrier.Wait rank w new_VectorTime b = Some (b', r) ∧ wf (Barrier.vtGlobal_ b') ∧
    (r = None ↔ if Barrier.allReachBarrier_ b then w ∉ Barrier.reachedWorkers_ b
                else Z.of_nat (size ({[w]} ∪ Barrier.reachedWorkers_ b)) < rank) ∧
    (r = None → barrier_quiet rank b b' ∧ (Barrier.allReachBarrier_ b' = true ∨ w ∈ Barrier.reachedWorkers_ b')).
Proof.
  intros Hw. unfold Barrier.Wait, Barrier.arrive.
  destruct (Barrier.allReachBarrier_ b) eqn:Ha; cbn [mbind option_bind].
  - case_bool_decide as Hin; (eexists _, _; split; [done|]).
    + split; [destruct (Barrier.IsAllConsumeBarrier _); simpl; eauto with san|]. split; done.
    + split; [done|]. split; [done|]. intros _. unfold barrier_quiet. rewrite Ha. auto.
  - assert (∃ vt, (if empty (Barrier.vtGlobal_ b) then Some new_VectorTime
      else VectorClock.UpdateVectorTime new_VectorTime (Barrier.vtGlobal_ b)) = Some vt ∧ wf vt) as (vt & -> & Hvt).
    { destruct (empty _); [eauto using new_wf|].
      destruct (UpdateVectorTime_joined new_VectorTime _ new_wf Hw) as (vt & E & ? & _). eauto. }
    cbn [mbind option_bind]. unfold Barrier.IsAllReachBarrier. simpl.
    destruct (Z.leb_spec rank (Z.of_nat (size ({[w]} ∪ Barrier.reachedWorkers_ b)))); simpl.
    + rewrite bool_decide_eq_true_2 by set_solver. eexists _, _. split; [done|].
      split; [destruct (Barrier.IsAllConsumeBarrier _); simpl; eauto with san|]. split; [|done]. split; [done|lia].
    + eexists _, _. split; [done|]. split; [done|]. split; [done|]. intros _. unfold barrier_quiet. rewrite Ha. simpl.
      split; [|right; set_solver]. split_and!; [done|set_solver|by right].
Qed.

Lemma barrier_good m e e' i :
  barrier_of e = Some (barrier_conf i, coreId (loc e')) → members_ok m → good m e (ProcessMstxCrossCoreBarrier e' i m).
Proof.
  intros He Hm. unfold ProcessMstxCrossCoreBarrier.
  destruct (Wait_cases (core_usedCoreNum i) (coreId (loc e')) _ (at_conf_wf m (barrier_conf i) Hm))
    as (b' & r & -> & Hw & _ & Hn). cbn [mbind option_bind].
  assert (members_ok (upd_barrier (<[barrier_conf i := b']> (crossCoreBarrier_ m)) m)) as Hm'.
  { destruct Hm. split; try done. by apply map_Forall_insert_2. }
  eexists _, _. split; [done|]. split; [done|]. split; [done|]. destruct r; [done|]. intros _.
  destruct (Hn eq_refl) as [Hq Hs]. split.
  - split; try done. intros conf. simpl. rewrite at_conf_insert.
    case_decide; [by subst conf|apply barrier_quiet_refl].
  - unfold settled. rewrite He. simpl. rewrite at_conf_insert, decide_True by done. done.
Qed.

Lemma barrier_stays e e' i :
  barrier_of e = Some (barrier_conf i, coreId (loc e')) → stays (ProcessMstxCrossCoreBarrier e' i) e.
Proof.
  intros He m m' Hm Hm' Hq Hs [m1 H]. unfold stalls_in, ProcessMstxCrossCoreBarrier in *.
  destruct (Wait_cases (core_usedCoreNum i) (coreId (loc e')) _ (at_conf_wf m (barrier_conf i) Hm))
    as (b1 & r1 & E1 & _ & Hn1 & _). rewrite E1 in H. cbn [mbind option_bind] in H.
  destruct (Wait_cases (core_usedCoreNum i) (coreId (loc e')) _ (at_conf_wf m' (barrier_conf i) Hm'))
    as (b2 & r2 & -> & _ & Hn2 & _). cbn [mbind option_bind].
  assert (r2 = None) as ->; [|by eexists]. apply Hn2. destruct r1; [done|]. pose proof (proj1 Hn1 eq_refl) as Hb1.
  pose proof (q_bar _ _ Hq (barrier_conf i)) as Hqb. unfold settled in Hs. rewrite He in Hs. revert Hb1 Hqb Hs.
  unfold barrier_quiet. simpl. set (b := Barrier.at_conf _ (crossCoreBarrier_ m)). set (b' := Barrier.at_conf _ _).
  destruct (Barrier.allReachBarrier_ b) eqn:Ea; [by intros ? ->; rewrite Ea|].
  intros Hb1 (-> & Hsub & Hcase) [|Hin]; [done|].
  destruct Hcase as [->|Hlt]; [done|]. by replace ({[coreId (loc e')]} ∪ Barrier.reachedWorkers_ b') with
    (Barrier.reachedWorkers_ b') by set_solver.
Qed.

(** *** Buffers *)

Lemma buf_good m e i :
  eventInfo e = BufInfo i → members_ok m → good m e (Some (ProcessGetRlsBufSyncEvent e i m)).
Proof.
  intros He Hm. assert (∀ m, settled m e) as Hs by (intros; unfold settled, barrier_of; by rewrite He).
  assert (∀ r g, members_ok (upd_bufs r g m) ∧ same_out m (upd_bufs r g m)) as Hok by (intros; destruct Hm; by split).
  assert (∀ k, good m e (Some (upd_bufs (getRlsBufMap_ m) (<[k := default 0 (getBufCount_ m !! k)]> (getBufCount_ m)) m,
    PROCESS_STALLED))) as Hst.
  { intros k. eexists _, _. split; [done|]. split; [apply Hok|]. split; [apply Hok|]. intros _. split; [|done].
    split; try done; [|intros; apply barrier_quiet_refl]. intros k'. simpl. rewrite lookup_insert.
    by case_decide; subst. }
  assert (∀ r g, good m e (Some (upd_bufs r g m, PROCESS_OK))) as Hgo by (intros; apply good_ok; apply Hok).
  unfold ProcessGetRlsBufSyncEvent. simpl. repeat (case_match; try apply Hst; try apply Hgo).
  apply good_ok; [done|by split_and!].
Qed.

Lemma buf_stays e i : stays (λ m, Some (ProcessGetRlsBufSyncEvent e i m)) e.
Proof.
  intros m m' Hm Hm' Hq _ [m1 H]. unfold stalls_in, ProcessGetRlsBufSyncEvent, block_of in *.
  rewrite (m_kt _ Hm'), (m_dt _ Hm'), (q_rls _ _ Hq), (q_get _ _ Hq). rewrite (m_kt _ Hm), (m_dt _ Hm) in H.
  destruct (_ && _); [|by destruct (bool_decide _)]. destruct (buf_rlsCount i =? 0).
  - destruct (_ <? _); [by eexists|done].
  - destruct (getRlsBufMap_ m !! _); [|by eexists]. destruct (_ || _); [by eexists|done].
Qed.

(** *** All events *)

Lemma dispatch_good p e m :
  members_ok m → 0 <= blk e < B → legal e = true → is_u32 p → is_mem_event e = false → good m e (dispatch p e m).
Proof.
  intros Hm Hb Hl Hp Hmem. unfold dispatch. unfold is_mem_event in Hmem.
  destruct (eventInfo e) eqn:He; try done; try (apply good_ok; [done|by split_and!]);
    eauto using sync_good, ffts_good, soft_good, mstx_good, buf_good;
    apply barrier_good; try done; unfold barrier_of; by rewrite He.
Qed.

Lemma dispatch_stays p e : 0 <= blk e < B → legal e = true → is_u32 p → stays (dispatch p e) e.
Proof.
  intros Hb Hl Hp m m' Hm Hm' Hq Hs. unfold stalls_in, dispatch. destruct (eventInfo e) eqn:He; try by intros [? ?].
  all: first [by apply (sync_stays e) | by apply (ffts_stays e) | by apply (soft_stays e _ _ He Hb Hl Hp)
    | by apply (mstx_stays e) | by apply (buf_stays e) | unfold ProcessMstxCrossNpuBarrier; apply (barrier_stays e)];
    try done; unfold barrier_of; by rewrite He.
Qed.

(** ** The interface of the replay loop *)

Lemma pipe_code_range p : 0 <= PipeType_code p <= 12.
Proof. destruct p; simpl; lia. Qed.

(** An event that still has to move to the queue of its pipe counts twice. *)
Definition event_weight (p : Z) (e : SanEvent) : nat := if migrates p e then 2 else 1.

Definition mems (l : list SanEvent) : list SanEvent := filter (λ e, is_mem_event e = true) l.

(** The events of block [b] among the released ones. *)
Definition released (b : Z) (l : list (ReplayerCallbackType * SanEvent)) : list SanEvent :=
  filter (λ e, blk e = b) (snd <$> filter (λ c, c.1 = MEMORY_EVENT) l).

(** An event in queue [i] belongs there. *)
Record placed (i : nat) (e : SanEvent) : Prop := {
  p_block : blk e = Z.of_nat i / 12;
  p_legal : legal e = true;
  p_mem : is_mem_event e = true → pipe_of i = 0;
}.

Section order.
(** The memory events that were recorded for each block. *)
Context (rec : Z → list SanEvent).

Record replay_inv (Q : list (list SanEvent)) (m : Members) : Prop := {
  r_ok : members_ok m;
  r_callback : hasCallback m = true;
  r_len : Z.of_nat (length Q) = B * 12;
  r_placed i l e : Q !! i = Some l → e ∈ l → placed i e;
  r_calls : Forall (λ c, c.1 = MEMORY_EVENT) (called m);
  r_order b l : 0 <= b < B → Q !! Z.to_nat (b * 12) = Some l → released b (called m) ++ mems l = rec b;
}.

Definition replay_blocked (m : Members) (i : nat) (e : SanEvent) : Prop :=
  0 <= blk e < B ∧ legal e = true ∧ is_u32 (Z.of_nat i) ∧ migrates (pipe_of i) e = false ∧ settled m e ∧
  stalls_in (dispatch (Z.of_nat i) e) m.

Lemma event_weight_pos p e : (1 <= event_weight p e)%nat.
Proof. unfold event_weight. destruct (migrates p e); lia. Qed.

Lemma cur_facts c :
  cont_ok c → deviceNum_ c = 1 → GetPipeIndex c = pipe_of (cur c) ∧ GetQueIndex c = Z.of_nat (cur c) ∧
    is_u32 (GetQueIndex c).
Proof.
  intros Hc Hd. destruct (cur_eq c Hc) as [E Hr]. pose proof (c_fit _ Hc). pose proof (c_len _ Hc).
  pose proof (c_device _ Hc). pose proof (c_pipe _ Hc). assert (deviceIndex_ c = 0) as Hi by lia. rewrite Hi in E.
  unfold pipe_of, cur, GetPipeIndex, is_u32. rewrite Z2Nat.id by lia.
  split_and!; [rewrite E; zdiv|done|lia|lia].
Qed.

(** Popping an event. *)
Lemma inv_pop Q m m' i e rest :
  replay_inv Q m → Q !! i = Some (e :: rest) → members_ok m' → hasCallback m' = true →
  called m' = called m ++ (if is_mem_event e then [(MEMORY_EVENT, e)] else []) →
  replay_inv (<[i := rest]> Q) m'.
Proof.
  intros [R1 R2 R3 R4 R5 R6] Hl Hm' Hcb Hcall. pose proof (lookup_lt_Some _ _ _ Hl) as Hlt.
  pose proof (R4 i _ e Hl ltac:(by left)) as [P1 P2 P3]. split; try done.
  - by rewrite length_insert.
  - intros j l e' Hj He'. rewrite list_lookup_insert in Hj. case_decide as E; [|by eapply R4].
    destruct E as [-> _]. simplify_eq. eapply R4; [exact Hl|by right].
  - rewrite Hcall. apply Forall_app. split; [done|]. destruct (is_mem_event e); by repeat constructor.
  - intros b l Hb Hj. rewrite Hcall. unfold released. rewrite filter_app, fmap_app, filter_app.
    fold (released b (called m)). rewrite list_lookup_insert in Hj. case_decide as E.
    + destruct E as [-> _]. simplify_eq. specialize (R6 b _ Hb Hl). rewrite <- R6. unfold mems. rewrite filter_cons.
      rewrite Z2Nat.id in P1 by lia. destruct (is_mem_event e); simpl.
      * rewrite filter_cons_True by (rewrite P1; zdiv). by rewrite <- app_assoc.
      * by rewrite app_nil_r.
    + specialize (R6 b l Hb Hj). rewrite <- R6. destruct (is_mem_event e); simpl; [|by rewrite app_nil_r].
      rewrite filter_cons_False; [by rewrite app_nil_r|]. rewrite P1. intros <-. apply E.
      specialize (P3 eq_refl). unfold pipe_of in P3. split; [|done]. zdiv.
Qed.

(** Moving an event to the queue of its pipe. *)
Lemma inv_push Q m i l e :
  replay_inv Q m → 0 <= blk e < B → legal e = true → is_mem_event e = false → PipeType_code (pipe e) < 12 →
  i = Z.to_nat (blk e * 12 + PipeType_code (pipe e)) → Q !! i = Some l → replay_inv (<[i := l ++ [e]]> Q) m.
Proof.
  intros [R1 R2 R3 R4 R5 R6] Hb Hl Hmem Hp Hi Hq. pose proof (pipe_code_range (pipe e)) as Hcode.
  pose proof (lookup_lt_Some _ _ _ Hq) as Hlt. split; try done.
  - by rewrite length_insert.
  - intros j l' e' Hj He'. rewrite list_lookup_insert in Hj. case_decide as E; [|by eapply R4].
    destruct E as [-> _]. simplify_eq. apply elem_of_app in He' as [He'|He']; [by eapply R4|].
    apply list_elem_of_singleton in He' as ->. split; [|done|by rewrite Hmem]. rewrite Z2Nat.id by lia. zdiv.
  - intros b l' Hb' Hj. rewrite list_lookup_insert in Hj. case_decide as E; [|by eapply R6].
    destruct E as [E _]. simplify_eq. rewrite E in Hq. rewrite <- (R6 b l Hb' Hq). unfold mems. rewrite filter_app.
    rewrite (filter_cons_False _ e) by (by rewrite Hmem). by rewrite app_nil_r.
Qed.

Lemma migrate_step c m e rest :
  cont_ok c → deviceNum_ c = 1 → replay_inv (conts c) m → Z.of_nat (total event_weight (conts c)) < 2147483648 →
  conts c !! cur c = Some (e :: rest) → migrates (GetPipeIndex c) e = true →
  ∃ c', Push e (pipe e) (block_of e m) 0 c = Some c' ∧ cont_ok c' ∧ same_pos c c' ∧
    conts c' !! cur c = Some (e :: rest) ∧ replay_inv (<[cur c := rest]> (conts c')) m ∧
    (total event_weight (<[cur c := rest]> (conts c')) < total event_weight (conts c))%nat.
Proof.
  intros Hc Hd Hinv Ht Hl Hmig. destruct (cur_facts c Hc Hd) as (Hpi & Hqi & Hu). rewrite Hpi in Hmig.
  pose proof Hmig as Hmig'. unfold migrates in Hmig'. bool_prop. change PIPE_NUM with 12 in *.
  pose proof (r_placed _ _ Hinv _ _ e Hl ltac:(by left)) as [P1 P2 _]. pose proof (pipe_code_range (pipe e)) as Hcode.
  pose proof (r_ok _ _ Hinv) as Hm. pose proof (lookup_lt_Some _ _ _ Hl) as Hlt.
  assert (Z.of_nat (length (conts c)) = B * 12) as Hlen by apply Hinv.
  assert (maxBlockNum_ c = B) as Hmax by (rewrite length_conts, (c_len _ Hc), Hd in Hlen; lia).
  assert (0 <= blk e < B) as Hb by (rewrite P1; zdiv).
  assert (block_of e m = blk e) as -> by (unfold block_of; by rewrite (m_kt _ Hm), (m_dt _ Hm)).
  set (i := Z.to_nat (blk e * 12 + PipeType_code (pipe e))).
  destruct (lookup_lt_is_Some_2 (conts c) i) as [l Hi]; [unfold i; lia|].
  assert (i ≠ cur c) as Hne.
  { intros E. apply H1. rewrite <- E. unfold pipe_of, i. rewrite Z2Nat.id by lia. zdiv. }
  pose proof (total_queue_length event_weight event_weight_pos _ _ _ Hi) as Hll.
  destruct (Push_cont e (pipe e) (blk e) c l Hc ltac:(lia) ltac:(lia) Hd Hi ltac:(lia)) as (c' & -> & Hc' & Hs & Hq).
  fold i in Hq. assert (split_copy e = [e]) as Hsp.
  { unfold is_mem_event in H. unfold split_copy. by destruct (eventInfo e). } rewrite Hsp in Hq.
  assert (conts c' !! cur c = Some (e :: rest)) as Hl' by (rewrite Hq, list_lookup_insert_ne by done; done).
  exists c'. split_and!; try done.
  - eapply inv_pop; [|exact Hl'|done|apply Hinv|by rewrite H, app_nil_r]. rewrite Hq. by eapply inv_push.
  - pose proof (total_insert event_weight _ _ _ rest Hl') as T1. rewrite Hq in *.
    pose proof (total_insert event_weight _ _ _ (l ++ [e]) Hi) as T2. rewrite qweight_cons in T1.
    rewrite qweight_app, qweight_cons in T2.
    assert (event_weight (pipe_of (cur c)) e = 2%nat) as W1 by (unfold event_weight; by rewrite Hmig).
    assert (event_weight (pipe_of i) e = 1%nat) as W2.
    { unfold event_weight, migrates, pipe_of, i. rewrite Z2Nat.id by lia.
      replace ((blk e * 12 + PipeType_code (pipe e)) `mod` 12) with (PipeType_code (pipe e)) by zdiv.
      by rewrite Z.eqb_refl, andb_false_r. }
    rewrite W1 in T1. rewrite W2 in T2. unfold qweight at 3 in T2. simpl in T2. lia.
Qed.

Lemma dispatch_step c m e rest :
  cont_ok c → deviceNum_ c = 1 → replay_inv (conts c) m →
  conts c !! cur c = Some (e :: rest) → migrates (GetPipeIndex c) e = false →
  ∃ m' r, dispatch (GetQueIndex c) e m = Some (m', r) ∧
    match r with
    | PROCESS_OK => replay_inv (<[cur c := rest]> (conts c)) m'
    | PROCESS_STALLED => replay_inv (conts c) m' ∧ replay_blocked m' (cur c) e ∧
        ∀ i e', replay_blocked m i e' → replay_blocked m' i e'
    end.
Proof.
  intros Hc Hd Hinv Hl Hmig. destruct (cur_facts c Hc Hd) as (Hpi & Hqi & Hu). rewrite Hpi in Hmig.
  pose proof (r_placed _ _ Hinv _ _ e Hl ltac:(by left)) as [P1 P2 _].
  pose proof (r_ok _ _ Hinv) as Hm. pose proof (lookup_lt_Some _ _ _ Hl) as Hlt.
  assert (0 <= blk e < B) as Hb by (pose proof (r_len _ _ Hinv); rewrite P1; zdiv).
  destruct (is_mem_event e) eqn:Hmem.
  - assert (dispatch (GetQueIndex c) e m = Some (ProcessMemEvent e m)) as ->.
    { unfold is_mem_event in Hmem. unfold dispatch. by destruct (eventInfo e). }
    unfold ProcessMemEvent. rewrite (r_callback _ _ Hinv). eexists _, _. split; [done|]. cbn beta iota.
    eapply inv_pop; [done..| | |by rewrite Hmem]; [destruct Hm; by split|apply Hinv].
  - destruct (dispatch_good (GetQueIndex c) e m Hm Hb P2 Hu Hmem) as (m' & r & E & Hm' & (O1 & O2 & O3 & O4) & Hst).
    exists m', r. split; [done|]. destruct r.
    + eapply inv_pop; [done..|by rewrite O1; apply Hinv|by rewrite Hmem, app_nil_r].
    + destruct (Hst eq_refl) as [Hq Hset]. split_and!.
      * destruct Hinv as [R1 R2 R3 R4 R5 R6]. split; rewrite ?O1, ?O3; done.
      * split_and!; try done; try apply Hb; [rewrite <- Hqi; exact Hu|].
        rewrite <- Hqi. apply (dispatch_stays _ e Hb P2 Hu m m'); try done. by eexists.
      * intros i e' (B1 & B2 & B3 & B4 & B5 & B6). pose proof (settled_mono _ _ _ Hq B5) as B5'.
        split_and!; try done; try apply B1. by apply (dispatch_stays _ e' B1 B2 B3 m m').
Qed.

Lemma replay_step c m e rest :
  cont_ok c → deviceNum_ c = 1 → replay_inv (conts c) m → Z.of_nat (total event_weight (conts c)) < 2147483648 →
  conts c !! cur c = Some (e :: rest) →
  ∃ c' m' r, ProcessEvent (c, m) e = Some (c', m', r) ∧
    match r with
    | PROCESS_OK =>
        cont_ok c' ∧ same_pos c c' ∧ ∃ rest', conts c' !! cur c = Some (e :: rest') ∧
          replay_inv (<[cur c := rest']> (conts c')) m' ∧
          (total event_weight (<[cur c := rest']> (conts c')) < total event_weight (conts c))%nat
    | PROCESS_STALLED =>
        c' = c ∧ replay_inv (conts c) m' ∧ replay_blocked m' (cur c) e ∧
        ∀ i e', replay_blocked m i e' → replay_blocked m' i e'
    end.
Proof.
  intros Hc Hd Hinv Ht Hl. unfold ProcessEvent. destruct (migrates (GetPipeIndex c) e) eqn:Hmig.
  - destruct (migrate_step c m e rest Hc Hd Hinv Ht Hl Hmig) as (c' & -> & Hc' & Hs & Hl' & Hi & Hw).
    cbn [mbind option_bind]. exists c', m, PROCESS_OK. eauto 10.
  - destruct (dispatch_step c m e rest Hc Hd Hinv Hl Hmig) as (m' & r & -> & Hr). cbn [mbind option_bind].
    exists c, m', r. split; [done|]. destruct r; [|done].
    split_and!; [done|apply same_pos_refl|]. exists rest. split_and!; try done.
    pose proof (total_insert event_weight _ _ _ rest Hl) as T1. rewrite qweight_cons in T1.
    pose proof (event_weight_pos (pipe_of (cur c)) e). lia.
Qed.

Lemma blocked_stalls c m e rest :
  cont_ok c → deviceNum_ c = 1 → replay_inv (conts c) m → conts c !! cur c = Some (e :: rest) →
  replay_blocked m (cur c) e → ∃ m', ProcessEvent (c, m) e = Some (c, m', PROCESS_STALLED).
Proof.
  intros Hc Hd Hinv Hl (_ & _ & _ & B4 & _ & m' & B6). destruct (cur_facts c Hc Hd) as (Hpi & Hqi & _).
  exists m'. unfold ProcessEvent. by rewrite Hpi, B4, Hqi, B6.
Qed.

#[local] Instance replay_handler : Handler ProcessEvent :=
  {| weight := event_weight; HInv := replay_inv; Blocked := replay_blocked; weight_pos := event_weight_pos;
     h_step := replay_step; h_blocked := blocked_stalls |}.
End order.

(** ** Recording *)

(** What a block is expected to release: its memory events in order, a block
    copy as its read and its write. *)
Definition expected (b : Z) (evs : list SanEvent) : list SanEvent :=
  evs ≫= λ e, if is_mem_event e && (blk e =? b) then split_copy e else [].

Lemma expected_snoc b evs e :
  expected b (evs ++ [e]) = expected b evs ++ if is_mem_event e && (blk e =? b) then split_copy e else [].
Proof. unfold expected. rewrite bind_app. simpl. by rewrite app_nil_r. Qed.

Lemma split_copy_in e e' :
  e' ∈ split_copy e → blk e' = blk e ∧ legal e' = legal e ∧ is_mem_event e' = is_mem_event e.
Proof.
  unfold split_copy, legal, is_mem_event. destruct (eventInfo e) eqn:He; simpl;
    try (intros ->%list_elem_of_singleton; by rewrite He).
  case_bool_decide; [|intros ->%list_elem_of_singleton; by rewrite He].
  intros [-> | ->%list_elem_of_singleton]%elem_of_cons; done.
Qed.

Lemma mems_split e : mems (split_copy e) = if is_mem_event e then split_copy e else [].
Proof.
  assert (Forall (λ e', is_mem_event e' = is_mem_event e) (split_copy e)) as H.
  { apply Forall_forall. intros e' He'. by apply split_copy_in in He' as (_ & _ & ?). }
  destruct (is_mem_event e); induction H as [|e' l He' _ IH]; try done; unfold mems;
    [rewrite filter_cons_True by done|rewrite filter_cons_False by (by rewrite He')]; [f_equal|]; exact IH.
Qed.

(** The replayer after recording [evs]. *)
Record recorded (evs : list SanEvent) (c : EventContainer) (m : Members) : Prop := {
  d_start : start c;
  d_inv : replay_inv (λ b, expected b evs) (conts c) m;
  d_called : called m = [];
  d_weight : (total event_weight (conts c) <= 4 * length evs)%nat;
}.

Lemma qweight_split i e : (qweight event_weight i (split_copy e) <= 4)%nat.
Proof.
  pose proof (split_copy_length e). unfold qweight.
  assert (∀ l, (sum_list (event_weight (pipe_of i) <$> l) <= 2 * length l)%nat) as H'.
  { induction l as [|x l IH]; [simpl; lia|]. rewrite fmap_cons. cbn [length sum_list sum_list_with id].
    change (sum_list_with id ?l) with (sum_list l).
    assert (event_weight (pipe_of i) x <= 2)%nat by (unfold event_weight; destruct (migrates _ x); lia). lia. }
  specialize (H' (split_copy e)). lia.
Qed.

Lemma inv_record rec rec' Q m m' i l e :
  replay_inv rec Q m → members_ok m' → hasCallback m' = true → called m' = called m →
  0 <= blk e < B → legal e = true → i = Z.to_nat (blk e * 12) → Q !! i = Some l →
  (∀ b, rec' b = rec b ++ if is_mem_event e && (blk e =? b) then split_copy e else []) →
  replay_inv rec' (<[i := l ++ split_copy e]> Q) m'.
Proof.
  intros [R1 R2 R3 R4 R5 R6] Hm' Hcb Hcall Hb Hl Hi Hq Hrec. pose proof (lookup_lt_Some _ _ _ Hq) as Hlt.
  split; try done.
  - by rewrite length_insert.
  - intros j l' e' Hj He'. rewrite list_lookup_insert in Hj. case_decide as E; [|by eapply R4].
    destruct E as [-> _]. simplify_eq. apply elem_of_app in He' as [He'|He']; [by eapply R4|].
    apply split_copy_in in He' as (E1 & E2 & _). split; [rewrite E1, Z2Nat.id by lia; zdiv|by rewrite E2|].
    intros _. unfold pipe_of. rewrite Z2Nat.id by lia. zdiv.
  - by rewrite Hcall.
  - intros b l' Hb' Hj. rewrite Hcall, Hrec. rewrite list_lookup_insert in Hj. case_decide as E.
    + destruct E as [E _]. assert (blk e = b) as Hbe by lia. simplify_eq. rewrite <- (R6 (blk e) l Hb' Hq).
      unfold mems. rewrite filter_app. fold (mems (split_copy e)). rewrite mems_split, Z.eqb_refl, andb_true_r.
      by rewrite <- app_assoc.
    + assert ((blk e =? b) = false) as -> by (apply Z.eqb_neq; intros <-; apply E; split; [lia|done]).
      rewrite andb_false_r, app_nil_r. by apply R6.
Qed.

Lemma record_step evs c m e fuel :
  recorded evs c m → is_finish e = false → 0 <= blk e → legal e = true → Z.of_nat (4 * length evs) < 2147483648 →
  ∃ c' m', Do fuel e (c, m) = Some (c', m') ∧ recorded (evs ++ [e]) c' m'.
Proof.
  intros [D1 D2 D3 D4] Hfin Hb Hl Hlen. unfold Do. rewrite Hfin. cbn [negb].
  set (m1 := if is_mem_event e then _ else _).
  assert (members_ok m1 ∧ hasCallback m1 = true ∧ called m1 = called m) as (Hm1 & Hcb & Hcall).
  { assert (members_ok (CacheMstxCrossSet e m) ∧ hasCallback (CacheMstxCrossSet e m) = true ∧
      called (CacheMstxCrossSet e m) = called m) as (H1 & H2 & H3).
    { unfold CacheMstxCrossSet. pose proof (r_ok _ _ _ D2). pose proof (r_callback _ _ _ D2).
      destruct (eventInfo e); try done. case_bool_decide; [|done]. split; [by apply ok_mstx|done]. }
    unfold m1. destruct (is_mem_event e); [|done]. split; [|done]. destruct H1. by split. }
  assert (block_of e m1 = blk e) as -> by (unfold block_of; by rewrite (m_kt _ Hm1), (m_dt _ Hm1)).
  clearbody m1. pose proof D1 as (Hc & Hd & Hrest). pose proof (r_len _ _ _ D2) as Hq.
  assert (maxBlockNum_ c = B) as Hmax by (rewrite length_conts, (c_len _ Hc), Hd in Hq; lia).
  destruct (decide (B <= blk e)) as [Hout|Hin].
  - rewrite Push_out by lia. cbn [mbind option_bind]. exists c, m1. split; [done|].
    split; [done| |by rewrite Hcall|rewrite length_app; lia]. destruct D2 as [R1 R2 R3 R4 R5 R6].
    split; rewrite ?Hcall; try done. intros b l Hb' Hl'. rewrite expected_snoc.
    assert ((blk e =? b) = false) as -> by (apply Z.eqb_neq; lia). rewrite andb_false_r, app_nil_r. by apply R6.
  - destruct (lookup_lt_is_Some_2 (conts c) (Z.to_nat (blk e * 12))) as [l Hll]; [lia|].
    pose proof (total_queue_length event_weight event_weight_pos _ _ _ Hll) as Hlw.
    destruct (Push_cont e PIPE_S (blk e) c l Hc) as (c' & -> & Hc' & Hs & Hcq); simpl; rewrite ?Z.add_0_r; try done; try lia.
    simpl in Hcq. rewrite Z.add_0_r in Hcq. cbn [mbind option_bind]. exists c', m1. split; [done|]. split.
    + split; [done|]. rewrite Hs. simpl. split; [done|]. apply Hrest.
    + rewrite Hcq. eapply inv_record; try done; [lia|]. intros b. apply expected_snoc.
    + by rewrite Hcall.
    + rewrite Hcq, length_app. pose proof (total_insert event_weight _ _ _ (l ++ split_copy e) Hll) as T.
      rewrite qweight_app in T. pose proof (qweight_split (Z.to_nat (blk e * 12)) e). simpl. lia.
Qed.

Fixpoint record_all (evs : list SanEvent) (r : PipelineReplayer) : option PipelineReplayer :=
  match evs with [] => Some r | e :: evs' => r ← Do 0 e r; record_all evs' r end.

(** The events between the start and the end of a kernel. *)
Definition replayable (e : SanEvent) : bool := negb (is_finish e) && (0 <=? blk e) && legal e.

Lemma record_all_ok evs done c m :
  recorded done c m → Forall (λ e, replayable e = true) evs → Z.of_nat (4 * length (done ++ evs)) < 2147483648 →
  ∃ c' m', record_all evs (c, m) = Some (c', m') ∧ recorded (done ++ evs) c' m'.
Proof.
  intros Hr Hf. revert done c m Hr. induction Hf as [|e evs He Hf IH]; intros done c m Hr Hlen; cbn [record_all].
  - rewrite app_nil_r. by exists c, m.
  - unfold replayable in He. bool_prop. rewrite length_app in Hlen. simpl in Hlen.
    destruct (record_step done c m e 0 Hr) as (c1 & m1 & -> & R1); [done..|lia|]. cbn [mbind option_bind].
    destruct (IH (done ++ [e]) c1 m1 R1) as (c2 & m2 & -> & R2); [rewrite !length_app; simpl; lia|].
    exists c2, m2. by rewrite <- app_assoc in R2.
Qed.

Lemma conts_init : B * 12 < 4294967296 → conts (Cont.Init B 1) = replicate (Z.to_nat (B * 12)) [].
Proof.
  intros Hf. unfold conts, Cont.Init. cbn [ques_]. change PIPE_NUM with 12.
  rewrite (u32_small (1 * B)), u32_small by (unfold is_u32; lia). rewrite fmap_replicate. f_equal; lia.
Qed.

Lemma init_recorded blockDim :
  total_blocks kt dt blockDim = B → let r := Replay.Init kt dt blockDim true in recorded [] r.1 r.2.
Proof.
  intros Htb. unfold Replay.Init. rewrite Htb. simpl.
  assert (cont_ok (Cont.Init B 1)) as Hc.
  { split; simpl; try lia.
    - rewrite length_replicate. change PIPE_NUM with 12. rewrite (u32_small (1 * B)) by (unfold is_u32; lia).
      rewrite u32_small by (unfold is_u32; lia). lia.
    - apply Forall_replicate. by split. }
  split; [by split_and!| |done|].
  - rewrite conts_init by done. split; try done; simpl.
    + split; simpl; try done; [rewrite length_replicate; lia|apply init_cross_ok; lia|by left].
    + rewrite length_replicate. lia.
    + intros i l e Hi He. apply lookup_replicate in Hi as [-> _]. by apply elem_of_nil in He.
    + intros b l Hb Hi. apply lookup_replicate in Hi as [-> _]. done.
  - rewrite conts_init by done. rewrite (proj2 (total_empty event_weight event_weight_pos _)); [simpl; lia|].
    by apply Forall_replicate.
Qed.

(** ** Replaying *)

Lemma front_events_spec qs :
  Forall Que.queue_ok qs → front_events qs = Some (omap head (Que.contents <$> qs)).
Proof.
  induction 1 as [|q qs Hq _ IH]; [done|]. simpl. rewrite IH. simpl. rewrite Que.Empty_spec, Que.Front_spec by done.
  by destruct (Que.contents q).
Qed.

Lemma stuck_events c : cont_ok c → ForEachFrontEvent c = Some (omap head (conts c)).
Proof. intros Hc. apply front_events_spec, Hc. Qed.

(** Iterations of the loop that suffice for the queued events, and for [n] events. *)
Definition fuel_of (c : EventContainer) : nat :=
  Z.to_nat (Z.of_nat (total event_weight (conts c)) * (200 * maxBlockNum_ c + 200) + 200 * maxBlockNum_ c + 200).
Definition replay_fuel (n : nat) : nat := Z.to_nat (Z.of_nat (4 * n) * (200 * B + 200) + 200 * B + 200).

Lemma ok_called m f l : members_ok m → members_ok (upd_called f l m).
Proof. intros []. by split. Qed.

Lemma blocked_called m f l i e :
  members_ok m → replay_blocked m i e → replay_blocked (upd_called f l m) i e.
Proof.
  intros Hm (B1 & B2 & B3 & B4 & B5 & B6). split_and!; try done; try apply B1.
  apply (dispatch_stays _ e B1 B2 B3 m); try done; [by apply ok_called|].
  split; try done. intros conf. apply barrier_quiet_refl.
Qed.

Lemma released_app b l1 l2 : released b (l1 ++ l2) = released b l1 ++ released b l2.
Proof. unfold released. by rewrite filter_app, fmap_app, filter_app. Qed.

Lemma released_stuck b (l : list SanEvent) : released b ((λ e, (ALL_DEVICE_STUCK, e)) <$> l) = [].
Proof. induction l as [|e l IH]; [done|]. exact IH. Qed.

(** The state after the replay. *)
Record replayed (evs : list SanEvent) (c : EventContainer) (m : Members) : Prop := {
  f_finished : isFinished_ m = true;
  f_calls : ∃ l, called m = l ++ ((λ e, (ALL_DEVICE_STUCK, e)) <$> omap head (conts c)) ∧
              Forall (λ x, x.1 = MEMORY_EVENT) l;
  f_order b l : 0 <= b < B → conts c !! Z.to_nat (b * 12) = Some l → released b (called m) ++ mems l = expected b evs;
  f_len : Z.of_nat (length (conts c)) = B * 12;
  f_blocked i e rest : conts c !! i = Some (e :: rest) → replay_blocked m i e;
}.

Lemma run_replayed evs c m fin :
  recorded evs c m → is_finish fin = true → Z.of_nat (4 * length evs) < 2147483648 →
  ∃ c' m', (∀ fuel, (fuel_of c <= fuel)%nat → Do fuel fin (c, m) = Some (c', m')) ∧ replayed evs c' m'.
Proof.
  intros [D1 D2 D3 D4] Hfin Hlen.
  destruct (@pipeline_run _ _ (replay_handler (λ b, expected b evs)) c m D1 D2) as (st & c1 & m1 & Hrun & Hc1 & Hinv & Hst).
  { unfold tot. cbn [weight replay_handler]. lia. }
  cbn [HInv Blocked replay_handler] in Hinv, Hst.
  set (stuck := omap head (conts c1)).
  exists c1, (upd_called true (called m1 ++ ((λ e, (ALL_DEVICE_STUCK, e)) <$> stuck)) m1). split.
  - intros fuel Hf. unfold Do. rewrite Hfin. cbn [negb]. rewrite Hrun by exact Hf.
    cbn [mbind option_bind]. rewrite (r_callback _ _ _ Hinv), stuck_events by done. cbn [andb].
    destruct (IsEmpty c1) eqn:He; cbn [negb mbind option_bind]; [|done].
    assert (stuck = []) as ->; [|by rewrite fmap_nil, app_nil_r].
    apply IsEmpty_spec in He; [|done]. unfold stuck. clear -He. by induction He as [|l Q -> _ IH].
  - split; simpl; [done|exists (called m1); split; [done|apply Hinv]| |apply Hinv|].
    + intros b l Hb Hl. rewrite released_app, released_stuck, app_nil_r. by apply (r_order _ _ _ Hinv).
    + intros i e rest Hi. apply blocked_called; [apply Hinv|]. destruct Hst as [ [_ Hall]|(_ & _ & Hall)].
      * by apply (Forall_lookup_1 _ _ _ _ Hall) in Hi.
      * by eapply Hall.
Qed.

Lemma fuel_enough evs c m : recorded evs c m → (fuel_of c <= replay_fuel (length evs))%nat.
Proof.
  intros [ (Hc & Hd & _) D2 _ D4]. pose proof (r_len _ _ _ D2) as Hq. unfold fuel_of, replay_fuel.
  assert (maxBlockNum_ c = B) as -> by (rewrite length_conts, (c_len _ Hc), Hd in Hq; lia). nia.
Qed.
End replay.

(** ** Theorems *)

(** A whole kernel: the start, the events, and the finish event. *)
Definition replay (fuel : nat) (kt : KernelType) (dt : DeviceType) (blockDim : Z) (evs : list SanEvent)
    (fin : SanEvent) : option PipelineReplayer :=
  r ← record_all evs (Replay.Init kt dt blockDim true); Do fuel fin r.

(** Kernels whose queues fit into 32-bit indices and whose events are legal. *)
Definition kernel_ok (kt : KernelType) (dt : DeviceType) (blockDim : Z) (evs : list SanEvent) : bool :=
  let B := total_blocks kt dt blockDim in
  (1 <=? B) && (B * 12 <? 4294967296) && forallb (replayable kt dt B) evs &&
  (Z.of_nat (4 * length evs) <? 2147483648).

Definition enough (kt : KernelType) (dt : DeviceType) (blockDim : Z) (evs : list SanEvent) (fuel : nat) : Prop :=
  (replay_fuel (total_blocks kt dt blockDim) (length evs) <= fuel)%nat.

Lemma kernel_ok_parts kt dt blockDim evs :
  kernel_ok kt dt blockDim evs = true →
  1 <= total_blocks kt dt blockDim ∧ total_blocks kt dt blockDim * 12 < 4294967296 ∧
  Forall (λ e, replayable kt dt (total_blocks kt dt blockDim) e = true) evs ∧ Z.of_nat (4 * length evs) < 2147483648.
Proof.
  unfold kernel_ok. cbn zeta. intros Hk. bool_prop. split_and!; try done.
  apply Forall_forall. intros e He. by apply (proj1 (forallb_forall _ _) H1), list_elem_of_In.
Qed.

Lemma replay_spec kt dt blockDim evs fin :
  kernel_ok kt dt blockDim evs = true → is_finish fin = true →
  ∃ r, (∀ fuel, enough kt dt blockDim evs fuel → replay fuel kt dt blockDim evs fin = Some r) ∧
    replayed kt dt (total_blocks kt dt blockDim) evs r.1 r.2.
Proof.
  intros Hk Hf. destruct (kernel_ok_parts _ _ _ _ Hk) as (HB & Hfit & Hall & H0).
  set (B := total_blocks kt dt blockDim) in *.
  pose proof (init_recorded kt dt B ltac:(lia) ltac:(lia) blockDim eq_refl) as Hi.
  destruct (Replay.Init kt dt blockDim true) as [c m] eqn:Hinit.
  destruct (record_all_ok kt dt B ltac:(lia) evs [] c m Hi Hall H0) as (c1 & m1 & Hrec & Hr).
  destruct (run_replayed kt dt B ltac:(lia) ltac:(lia) evs c1 m1 fin Hr Hf ltac:(lia)) as (c2 & m2 & Hrun & Hd).
  exists (c2, m2). split; [|done]. intros fuel Hfuel. unfold replay. rewrite Hinit, Hrec. apply Hrun.
  etrans; [|exact Hfuel]. by eapply fuel_enough.
Qed.

(** C6: The replay of a kernel terminates, whatever its synchronisation instructions
    do: the loop needs at most the given number of iterations, accesses nothing
    outside a container, and leaves the replayer finished. *)
Theorem replay_terminates kt dt blockDim evs fin :
  kernel_ok kt dt blockDim evs = true → is_finish fin = true →
  ∃ r, IsFinished r = true ∧ ∀ fuel, enough kt dt blockDim evs fuel → replay fuel kt dt blockDim evs fin = Some r.
Proof. intros Hk Hf. destruct (replay_spec kt dt blockDim evs fin Hk Hf) as (r & Hr & Hd). exists r. split; [apply Hd|done]. Qed.

Definition is_stuck (c : ReplayerCallbackType * SanEvent) : Prop := c.1 = ALL_DEVICE_STUCK.
#[local] Instance is_stuck_dec c : Decision (is_stuck c) := decide_rel (=) c.1 ALL_DEVICE_STUCK.

(** C11: The callback receives the memory events of each block in the order in
    which they were recorded, a block copy as its read and its write; when no
    stuck event is reported it has received all of them, each exactly once. *)
Theorem replay_keeps_order kt dt blockDim evs fin :
  kernel_ok kt dt blockDim evs = true → is_finish fin = true →
  ∃ r, (∀ fuel, enough kt dt blockDim evs fuel → replay fuel kt dt blockDim evs fin = Some r) ∧
    ∀ b, 0 <= b < total_blocks kt dt blockDim →
      released kt dt b (called r.2) `prefix_of` expected kt dt b evs ∧
      (Forall (λ x, ¬ is_stuck x) (called r.2) → released kt dt b (called r.2) = expected kt dt b evs).
Proof.
  intros Hk Hf. destruct (replay_spec kt dt blockDim evs fin Hk Hf) as (r & Hr & [_ (l & Hl & _) Hord Hlen _]).
  exists r. split; [done|]. intros b Hb.
  destruct (lookup_lt_is_Some_2 (conts r.1) (Z.to_nat (b * 12))) as [q Hq]; [lia|].
  rewrite <- (Hord b q Hb Hq). split; [by eexists|]. intros Hs. rewrite Hl in Hs.
  apply Forall_app in Hs as [_ Hs]. destruct q as [|e q]; [by rewrite app_nil_r|].
  exfalso. rewrite Forall_forall in Hs. apply (Hs (ALL_DEVICE_STUCK, e)); [|done].
  apply (list_elem_of_fmap_2 (λ e, (ALL_DEVICE_STUCK, e))), list_elem_of_omap. exists (e :: q).
  split; [|done]. by eapply list_elem_of_lookup_2.
Qed.

(** C28: Events are left behind only when nothing can go on: the first event of
    every non-empty queue is reported as stuck, nothing else is, and processing
    it once more would stall again. *)
Theorem replay_stuck_exact kt dt blockDim evs fin :
  kernel_ok kt dt blockDim evs = true → is_finish fin = true →
  ∃ r, (∀ fuel, enough kt dt blockDim evs fuel → replay fuel kt dt blockDim evs fin = Some r) ∧
    snd <$> filter is_stuck (called r.2) = omap head (conts r.1) ∧
    ∀ i e rest, conts r.1 !! i = Some (e :: rest) → ∃ m', dispatch (Z.of_nat i) e r.2 = Some (m', PROCESS_STALLED).
Proof.
  intros Hk Hf. destruct (replay_spec kt dt blockDim evs fin Hk Hf) as (r & Hr & [_ (l & Hl & Hm) _ _ Hb]).
  exists r. split; [done|]. split.
  - rewrite Hl, filter_app. clear -Hm. induction Hm as [|x l Hx _ IH]; simpl.
    + induction (omap head (conts r.1)) as [|e es IH]; [done|]. simpl. by f_equal.
    + rewrite filter_cons_False; [exact IH|]. unfold is_stuck. by rewrite Hx.
  - intros i e rest Hi. by destruct (Hb i e rest Hi) as (_ & _ & _ & _ & _ & ?).
Qed.

(** ** Witnesses *)

Definition ex_loc (core : Z) : LocInfo := Build_LocInfo 0 0 0 0 0 0 core AIVEC.
Definition ex_event (core : Z) (p : PipeType) (i : EventInfo) : SanEvent :=
  {| serialNo := 0; pipe := p; eventInfo := i; loc := ex_loc core; isAtomicMode := false; recordType := 0;
     closedRingStartSerialNo := 0 |}.
Definition ex_mem (a : Z) (t : AccessType) : EventInfo :=
  MemInfo {| memType := MemType.GM; opType := t; vectorMask := {| mask0 := 0; mask1 := 0 |}; maskMode := 0;
     instrName := 0; dataBits := 0; addr := a; blockNum := 1; blockSize := 32; blockStride := 0; repeatTimes := 1;
     repeatStride := 0; alignSize := 1; mem_ignoreIllegalCheck := false; isScalarAtomic := false; dcciDistance := 0;
     dstCoreId := 0; dstBlockType := AIVEC; instrClass := INSTR_UNKNOWN; matrixM := 0; matrixN := 0 |}.
Definition ex_sync (t : SyncType) (src dst : PipeType) : EventInfo :=
  SyncInfo {| sync_opType := t; sync_srcPipe := src; sync_dstPipe := dst; sync_eventId := 0;
              sync_memType := MemType.GM; sync_isRetrogress := false; sync_isGenerated := false |}.
Definition ex_finish : SanEvent := ex_event 0 PIPE_S (ControlInfo CONTROL_KERNEL_FINISH).

(** Block 0 copies, sets a flag and writes; block 1 reads, waits for a flag that
    nobody sets, and writes. *)
Definition ex_kernel : list SanEvent :=
  [ex_event 0 PIPE_MTE2 (ex_mem 0 ACCESS_MEMCPY_BLOCKS); ex_event 1 PIPE_V (ex_mem 64 READ);
   ex_event 0 PIPE_MTE2 (ex_sync SET_FLAG PIPE_MTE2 PIPE_V); ex_event 0 PIPE_V (ex_sync WAIT_FLAG PIPE_MTE2 PIPE_V);
   ex_event 1 PIPE_S (ex_sync WAIT_FLAG PIPE_MTE2 PIPE_S); ex_event 0 PIPE_V (ex_mem 96 WRITE);
   ex_event 1 PIPE_V (ex_mem 128 WRITE)].

(** The write of block 1 after the wait is not released; the wait is reported. *)
Example ex_replay :
  (λ r : PipelineReplayer, (λ c : ReplayerCallbackType * SanEvent, (c.1, event_type c.2, coreId (loc c.2))) <$> called r.2) <$>
    replay 2000 KT_AIVEC ASCEND_910B1 2 ex_kernel ex_finish =
  Some [(MEMORY_EVENT, MEM_EVENT, 0); (MEMORY_EVENT, MEM_EVENT, 0); (MEMORY_EVENT, MEM_EVENT, 0);
        (MEMORY_EVENT, MEM_EVENT, 1); (ALL_DEVICE_STUCK, SYNC_EVENT, 1)].
Proof. vm_compute. reflexivity. Qed.

Lemma replay_terminates_witness :
  ∃ r, IsFinished r = true ∧
    ∀ fuel, enough KT_AIVEC ASCEND_910B1 2 ex_kernel fuel →
      replay fuel KT_AIVEC ASCEND_910B1 2 ex_kernel ex_finish = Some r.
Proof. apply (replay_terminates KT_AIVEC ASCEND_910B1 2 ex_kernel ex_finish); vm_compute; reflexivity. Defined.

Lemma replay_keeps_order_witness :
  ∃ r, (∀ fuel, enough KT_AIVEC ASCEND_910B1 2 ex_kernel fuel →
      replay fuel KT_AIVEC ASCEND_910B1 2 ex_kernel ex_finish = Some r) ∧
    ∀ b, 0 <= b < 2 →
      released KT_AIVEC ASCEND_910B1 b (called r.2) `prefix_of` expected KT_AIVEC ASCEND_910B1 b ex_kernel ∧
      (Forall (λ x, ¬ is_stuck x) (called r.2) →
       released KT_AIVEC ASCEND_910B1 b (called r.2) = expected KT_AIVEC ASCEND_910B1 b ex_kernel).
Proof. apply (replay_keeps_order KT_AIVEC ASCEND_910B1 2 ex_kernel ex_finish); vm_compute; reflexivity. Defined.

Lemma replay_stuck_exact_witness :
  ∃ r, (∀ fuel, enough KT_AIVEC ASCEND_910B1 2 ex_kernel fuel →
      replay fuel KT_AIVEC ASCEND_910B1 2 ex_kernel ex_finish = Some r) ∧
    snd <$> filter is_stuck (called r.2) = omap head (conts r.1) ∧
    ∀ i e rest, conts r.1 !! i = Some (e :: rest) → ∃ m', dispatch (Z.of_nat i) e r.2 = Some (m', PROCESS_STALLED).
Proof. apply (replay_stuck_exact KT_AIVEC ASCEND_910B1 2 ex_kernel ex_finish); vm_compute; reflexivity. Defined.
