(* ===== verification/AsanReplay.v ===== *)
(** The address sanitizer on top of the real replayer: [PipelineReplayer]
    implements the interface against which [AddressSanitizer] is modelled, and
    the memory events of a kernel reach the sanitizer in the recorded order. *)
From stdpp Require Import base numbers option gmap sets strings list.
From S2P Require Import Prelude.
From S2P Require Import Pm.
From S2P Require Import RecordDefs.
From S2P Require Import Platform.
From S2P Require Import EventDef.
From S2P Require Import Convert.
From S2P Require Import AsanAction.
From S2P Require Import AddressSanitizer.
From S2P Require Import EventContainer.
From S2P Require Import PipeLineProofs.
From S2P Require Import PipelineReplayer.
From S2P Require Import ReplayerProofs.
Import Pipe Replay.

(** The events a call of [Do] hands to the callback as memory events. *)
Definition new_releases (r r' : PipelineReplayer) : list SanEvent :=
  snd <$> filter (λ c, c.1 = MEMORY_EVENT) (drop (length (called r.2)) (called r'.2)).

(** [None] is a replay that was left with an access outside a container. *)
#[local] Instance pipeline_replayer : Replayer := {
  rstate := option PipelineReplayer;
  r_Init kt dt blockDim := Some (Replay.Init kt dt blockDim true);
  r_Do s e :=
    match s with
    | None => (None, [])
    | Some r => match Do (fuel_of r.1) e r with None => (None, []) | Some r' => (Some r', new_releases r r') end
    end;
  r_IsFinished s := match s with Some r => IsFinished r | None => false end;
}.

Definition collects (mask : Z) (e : SanEvent) : Prop := ShouldCollectInitcheckEvent mask e = true.
#[local] Instance collects_dec mask e : Decision (collects mask e) := decide_rel (=) _ _.

Section kernel.
Context `{!Securec} (kt : KernelType) (dt : DeviceType) (B : Z) (HB : 1 <= B) (HBmax : B * 12 < 4294967296).

Lemma record_quiet done c m e :
  recorded kt dt B done c m → replayable kt dt B e = true → Z.of_nat (4 * length done) < 2147483648 →
  ∃ c' m', r_Do (Some (c, m)) e = (Some (c', m'), []) ∧ recorded kt dt B (done ++ [e]) c' m'.
Proof.
  intros Hr He Hlen. unfold replayable in He. bool_prop.
  destruct (record_step kt dt B HB done c m e (fuel_of c) Hr) as (c' & m' & E & Hr'); [done..|].
  exists c', m'. split; [|done]. cbn [r_Do pipeline_replayer fst]. rewrite E. unfold new_releases. simpl.
  by rewrite (d_called _ _ _ _ _ _ Hr), (d_called _ _ _ _ _ _ Hr').
Qed.

Context (mask : Z).

Lemma record_events evs done c m a rest :
  recorded kt dt B done c m → ASan.pipelineReplayer_ a = Some (c, m) →
  Forall (λ e, replayable kt dt B e = true) (filter (collects mask) evs) →
  Z.of_nat (4 * length (done ++ filter (collects mask) evs)) < 2147483648 →
  ∃ c' m', recorded kt dt B (done ++ filter (collects mask) evs) c' m' ∧
    ASan.replay_events mask (evs ++ rest) a =
    ASan.replay_events mask rest
      (ASan.upd_replay (Some (c', m')) (ASan.replayedRecords_ a) (ASan.replayedEventCount_ a) a).
Proof.
  revert done c m a. induction evs as [|e evs IH]; intros done c m a Hr Ha Hf Hlen.
  - rewrite app_nil_r. exists c, m. split; [done|]. f_equal. destruct a; simpl in *. by subst.
  - cbn [app ASan.replay_events]. rewrite filter_cons in *.
    destruct (decide (collects mask e)) as [Hc|Hc].
    + unfold collects in Hc. rewrite Hc. cbn [negb]. apply Forall_cons in Hf as [He Hf]. rewrite Ha.
      rewrite length_app in Hlen. cbn [length] in Hlen.
      destruct (record_quiet done c m e Hr He ltac:(lia)) as (c1 & m1 & -> & Hr1). cbn [foldl].
      edestruct (IH (done ++ [e]) c1 m1) as (c2 & m2 & Hr2 & ->); [done|reflexivity|done| |].
      { rewrite !length_app. simpl. lia. }
      exists c2, m2. rewrite <- app_assoc in Hr2. done.
    + apply not_true_is_false in Hc. rewrite Hc. cbn [negb]. by apply IH with (c := c) (m := m).
Qed.
End kernel.

(** With the real replayer the address sanitizer processes, at the end of the
    kernel, the memory events it collected: for each block those that the replay
    released, in the order in which they were recorded, followed by those still
    in the queue of the block are all of them; when the replay does not get stuck
    nothing is left. The replayer then is finished. *)
Theorem asan_replays_in_order `{!Securec} kt dt blockDim mask evs fin (a : ASan.AddressSanitizer) :
  ASan.pipelineReplayer_ a = r_Init kt dt blockDim → is_finish fin = true → collects mask fin →
  kernel_ok kt dt blockDim (filter (collects mask) evs) = true →
  ∃ r out, ASan.replay_events mask (evs ++ [fin]) a =
      foldl ASan.replay_callback (ASan.upd_replay (Some r) (ASan.replayedRecords_ a) (ASan.replayedEventCount_ a) a) out ∧
    r_IsFinished (Some r) = true ∧
    ∀ b, 0 <= b < total_blocks kt dt blockDim →
      ∃ q, conts r.1 !! Z.to_nat (b * 12) = Some q ∧
        expected kt dt b (filter (collects mask) evs) = filter (λ e, blk kt dt e = b) out ++ mems q.
Proof.
  intros Ha Hfin Hcol Hk. destruct (kernel_ok_parts _ _ _ _ Hk) as (HB & Hfit & Hall & Hlen).
  set (B := total_blocks kt dt blockDim) in *.
  pose proof (init_recorded kt dt B ltac:(lia) ltac:(lia) blockDim eq_refl) as Hi.
  destruct (Replay.Init kt dt blockDim true) as [c m] eqn:Hinit. cbn [r_Init pipeline_replayer] in Ha. rewrite Hinit in Ha.
  destruct (record_events kt dt B ltac:(lia) mask evs [] c m a [fin] Hi Ha Hall Hlen) as (c1 & m1 & Hr & ->).
  destruct (run_replayed kt dt B ltac:(lia) ltac:(lia) _ c1 m1 fin Hr Hfin Hlen) as (c2 & m2 & Hrun & Hd).
  cbn [ASan.replay_events]. unfold collects in Hcol. rewrite Hcol. cbn [negb ASan.pipelineReplayer_ ASan.upd_replay].
  cbn [r_Do pipeline_replayer fst]. rewrite Hrun by done.
  exists (c2, m2), (new_releases (c1, m1) (c2, m2)). split; [done|]. split; [apply Hd|].
  intros b Hb. destruct (lookup_lt_is_Some_2 (conts c2) (Z.to_nat (b * 12))) as [q Hq].
  { pose proof (f_len _ _ _ _ _ _ Hd). lia. }
  exists q. split; [done|].
  pose proof (f_order _ _ _ _ _ _ Hd b q Hb Hq) as Ho. simpl in Ho. rewrite <- Ho. f_equal.
  unfold new_releases. simpl. by rewrite (d_called _ _ _ _ _ _ Hr).
Qed.
