(* ===== verification/MemSeries.v ===== *)
(** The bytes of a memory operation as merged intervals:
    [csrc/race_sanitizer/alg_framework/mem_series.h] and [mem_series.cpp].

    An operation is a number of repeats of a number of blocks. [BlkSeries]
    walks through the blocks of one repeat, [MemSeries] through the intervals
    that remain after merging the blocks of all repeats, with a priority queue
    of the next block of each repeat. The queue is a list; its top is a least
    element, and equal intervals are interchangeable. *)
From stdpp Require Import base numbers option list.
From S2P Require Import Prelude.
From S2P Require Import RecordDefs.
From S2P Require Import EventDef.
From S2P Require Import EventContainer.

Module Series.
Record Interval := mkItv { start : Z; end_ : Z }.
Record IndexedInterval := mkIdx { idx : Z; interval : Interval }.

(** [Greater] *)
Definition greater (lhs rhs : IndexedInterval) : bool :=
  (start (interval rhs) <? start (interval lhs)) ||
  ((start (interval rhs) =? start (interval lhs)) && (end_ (interval rhs) <? end_ (interval lhs))).

Record BlkSeries := mkBlk {
  addr_ : Z; blockSize_ : Z; lastBlockSize_ : Z; blockStride_ : Z; blockNum_ : Z; curBlockIdx_ : Z;
  curInterval_ : Interval;
}.

Definition UpdateCurItv (b : BlkSeries) : BlkSeries :=
  let s := u64 (addr_ b + u64 (u64 (curBlockIdx_ b * blockSize_ b) * blockStride_ b)) in
  let e := u64 (s + (if curBlockIdx_ b =? u64 (blockNum_ b - 1) then lastBlockSize_ b else blockSize_ b)) in
  mkBlk (addr_ b) (blockSize_ b) (lastBlockSize_ b) (blockStride_ b) (blockNum_ b) (curBlockIdx_ b) (mkItv s e).

Definition new_BlkSeries (addr blockSize lastBlockSize blockStride blockNum : Z) : BlkSeries :=
  UpdateCurItv (mkBlk addr blockSize lastBlockSize blockStride blockNum 0 (mkItv 0 0)).

Definition GetCurItv (b : BlkSeries) : Interval := curInterval_ b.

(** [None] when there is no next block. *)
Definition Move2NextItv (b : BlkSeries) : option BlkSeries :=
  if blockNum_ b <=? u64 (curBlockIdx_ b + 1) then None
  else Some (UpdateCurItv (mkBlk (addr_ b) (blockSize_ b) (lastBlockSize_ b) (blockStride_ b) (blockNum_ b)
               (u64 (curBlockIdx_ b + 1)) (curInterval_ b))).

Record MemSeries := mkSeries { repeatSeries_ : list BlkSeries; leftMostIntervals_ : list IndexedInterval }.

(** The loop of the constructor; the step of the address is a 32-bit product. *)
Fixpoint repeats (n : nat) (m : MemOpInfo) (addr : Z) : list BlkSeries :=
  match n with
  | O => [new_BlkSeries addr (blockSize m) (blockSize m) (blockStride m) (blockNum m)]
  | S n => new_BlkSeries addr (blockSize m) (blockSize m) (blockStride m) (blockNum m) ::
           repeats n m (u64 (addr + u32 (repeatStride m * blockSize m)))
  end.

Definition new_MemSeries (m : MemOpInfo) : MemSeries :=
  let series := repeats (Z.to_nat (repeatTimes m - 1)) m (addr m) in
  mkSeries series (imap (λ i b, mkIdx (Z.of_nat i) (GetCurItv b)) (take (Z.to_nat (repeatTimes m)) series)).

(** The top of the queue and the rest. *)
Fixpoint top (q : list IndexedInterval) : option (IndexedInterval * list IndexedInterval) :=
  match q with
  | [] => None
  | x :: q' =>
      match top q' with
      | None => Some (x, [])
      | Some (y, r) => if greater x y then Some (y, x :: r) else Some (x, q')
      end
  end.

(** The loop that extends the current interval. *)
Fixpoint extend (fuel : nat) (extEnd : Z) (s : MemSeries) : option (Z * MemSeries) :=
  match fuel with
  | O => None
  | S fuel =>
      match top (leftMostIntervals_ s) with
      | None => Some (extEnd, s)
      | Some (cur, rest) =>
          if start (interval cur) <=? extEnd then
            b ← at_index (repeatSeries_ s) (idx cur);
            match Move2NextItv b with
            | Some b' =>
                extend fuel (end_ (interval cur))
                  (mkSeries (set_index (repeatSeries_ s) (idx cur) b') (mkIdx (idx cur) (GetCurItv b') :: rest))
            | None => extend fuel (end_ (interval cur)) (mkSeries (repeatSeries_ s) rest)
            end
          else Some (extEnd, s)
      end
  end.

(** [GetNextItv]: the interval when there is one. *)
Definition GetNextItv (fuel : nat) (s : MemSeries) : option (option Interval * MemSeries) :=
  match top (leftMostIntervals_ s) with
  | None => Some (None, s)
  | Some (x, _) =>
      let leftMostAddr := start (interval x) in
      r ← extend fuel leftMostAddr s;
      let '(extEnd, s) := r in Some (Some (mkItv leftMostAddr extEnd), s)
  end.

(** The two-pointer loop of [IsMemoryOverlap] on two operations. *)
Fixpoint overlap_loop (fuel f : nat) (i1 i2 : Interval) (s1 s2 : MemSeries) : option bool :=
  match fuel with
  | O => None
  | S fuel =>
      if (start i1 <? end_ i2) && (start i2 <? end_ i1) then Some true
      else if end_ i1 <? end_ i2 then
        r ← GetNextItv f s1;
        match r with (None, _) => Some false | (Some i1, s1) => overlap_loop fuel f i1 i2 s1 s2 end
      else
        r ← GetNextItv f s2;
        match r with (None, _) => Some false | (Some i2, s2) => overlap_loop fuel f i1 i2 s1 s2 end
  end.

(** Steps that suffice: the blocks of both operations. *)
Definition blocks_of (m : MemOpInfo) : nat := Z.to_nat (repeatTimes m * Z.max 1 (blockNum m)).

Definition IsMemoryOverlap (op1 op2 : MemOpInfo) : option bool :=
  if negb (bool_decide (memType op1 = memType op2)) then Some false
  else
    let f := S (blocks_of op1 + blocks_of op2) in
    r1 ← GetNextItv f (new_MemSeries op1);
    match r1 with
    | (None, _) => Some false
    | (Some i1, s1) =>
        r2 ← GetNextItv f (new_MemSeries op2);
        match r2 with
        | (None, _) => Some false
        | (Some i2, s2) => overlap_loop f f i1 i2 s1 s2
        end
    end.
End Series.
