(* ===== verification/MemSeriesProofs.v ===== *)
(** Exactness of the interval walk and of the overlap test of two memory
    operations: they work on the bytes the operations touch. *)
From stdpp Require Import base numbers option sets list.
From S2P Require Import Prelude.
From S2P Require Import RecordDefs.
From S2P Require Import EventDef.
From S2P Require Import ConvertProofs.
From S2P Require Import EventContainer.
From S2P Require Import MemSeries.
Import Series.

(** ** The blocks of one repeat *)

Definition base (b : BlkSeries) (j : Z) : Z := addr_ b + j * blockSize_ b * blockStride_ b.

(** A series of blocks of size [sz] whose addresses do not wrap. *)
Record blk_ok (sz : Z) (b : BlkSeries) : Prop := {
  b_addr : 0 <= addr_ b;
  b_size : blockSize_ b = sz;
  b_last : lastBlockSize_ b = sz;
  b_pos : 0 < sz;
  b_stride : 0 <= blockStride_ b;
  b_cur : 0 <= curBlockIdx_ b < blockNum_ b;
  b_num : blockNum_ b < 4294967296;
  b_fit : base b (blockNum_ b - 1) + sz < 18446744073709551616;
  b_itv : curInterval_ b = mkItv (base b (curBlockIdx_ b)) (base b (curBlockIdx_ b) + sz);
}.

(** The bytes of the current block and the later ones. *)
Definition covered (b : BlkSeries) (x : Z) : Prop :=
  ∃ j, curBlockIdx_ b <= j < blockNum_ b ∧ base b j <= x < base b j + blockSize_ b.

Lemma base_mono b j k : 0 <= blockSize_ b → 0 <= blockStride_ b → j <= k → base b j <= base b k.
Proof.
  intros Hs Ht Hjk. unfold base. assert (0 <= blockSize_ b * blockStride_ b) by nia.
  rewrite <- !Z.mul_assoc. nia.
Qed.

Lemma update_ok_blk sz b i :
  0 <= addr_ b → blockSize_ b = sz → lastBlockSize_ b = sz → 0 < sz → 0 <= blockStride_ b → blockNum_ b < 4294967296 →
  base b (blockNum_ b - 1) + sz < 18446744073709551616 → curBlockIdx_ b = i → 0 <= i < blockNum_ b →
  blk_ok sz (UpdateCurItv b).
Proof.
  intros H1 H2 H3 H4 H5 H6 H7 H8 H9.
  assert (0 <= i * sz * blockStride_ b ∧ base b i + sz < 18446744073709551616 ∧ i * sz <= base b i ∨ blockStride_ b = 0) as Hb.
  { pose proof (base_mono b i (blockNum_ b - 1)) as Hm. unfold base in *. rewrite H2 in *. nia. }
  assert (u64 (addr_ b + u64 (u64 (i * sz) * blockStride_ b)) = base b i ∧ base b i + sz < 18446744073709551616) as [E Hfit].
  { unfold base in *. rewrite H2 in *. destruct Hb as [(Hp & Hf & Hle)|Hz].
    - rewrite (u64_small (i * sz)), (u64_small (i * sz * blockStride_ b)), u64_small by (unfold is_u64; nia). done.
    - rewrite Hz in *. rewrite !Z.mul_0_r, Z.add_0_r in *. change (u64 0) with 0.
      rewrite Z.add_0_r, u64_small by (unfold is_u64; lia). split; lia. }
  split; simpl; try done; rewrite ?H8; try lia. rewrite H2, H3, E. unfold base at 3 4. simpl. fold (base b i).
  replace (addr_ b + i * blockSize_ b * blockStride_ b) with (base b i) by done.
  assert (0 <= base b i) by (unfold base; rewrite H2; nia).
  f_equal. destruct (i =? u64 (blockNum_ b - 1)); rewrite u64_small by (unfold is_u64; lia); done.
Qed.

Lemma covered_first sz b x :
  blk_ok sz b → base b (curBlockIdx_ b) <= x < base b (curBlockIdx_ b) + sz → covered b x.
Proof. intros H Hx. exists (curBlockIdx_ b). rewrite (b_size _ _ H). split; [|done]. pose proof (b_cur _ _ H). lia. Qed.

Lemma covered_from sz b x : blk_ok sz b → covered b x → base b (curBlockIdx_ b) <= x.
Proof.
  intros H (j & Hj & Hx). pose proof (base_mono b (curBlockIdx_ b) j).
  pose proof (b_size _ _ H). pose proof (b_pos _ _ H). pose proof (b_stride _ _ H). lia.
Qed.

(** Moving on drops exactly the current block. *)
Lemma move_spec sz b :
  blk_ok sz b →
  match Move2NextItv b with
  | Some b' => blk_ok sz b' ∧ blockNum_ b' = blockNum_ b ∧ curBlockIdx_ b' = curBlockIdx_ b + 1 ∧
      base b (curBlockIdx_ b) <= base b' (curBlockIdx_ b') ∧
      ∀ x, covered b x ↔ base b (curBlockIdx_ b) <= x < base b (curBlockIdx_ b) + sz ∨ covered b' x
  | None => blockNum_ b = curBlockIdx_ b + 1 ∧
      ∀ x, covered b x ↔ base b (curBlockIdx_ b) <= x < base b (curBlockIdx_ b) + sz
  end.
Proof.
  intros H. pose proof H as [H1 H2 H3 H4 H5 H6 H7 H8 H9]. unfold Move2NextItv.
  rewrite u64_small by (unfold is_u64; lia).
  destruct (Z.leb_spec (blockNum_ b) (curBlockIdx_ b + 1)) as [Hle|Hlt].
  - split; [lia|]. intros x. split; [|by apply covered_first].
    intros (j & Hj & Hx). replace j with (curBlockIdx_ b) in Hx by lia. by rewrite <- H2.
  - set (b' := mkBlk _ _ _ _ _ (curBlockIdx_ b + 1) _).
    assert (blk_ok sz (UpdateCurItv b')) as Hok by (apply (update_ok_blk sz b' (curBlockIdx_ b + 1)); simpl; done || lia).
    split; [done|]. split; [done|]. split; [done|]. split.
    + apply (base_mono b); simpl; lia.
    + intros x. split.
      * intros (j & Hj & Hx). destruct (decide (j = curBlockIdx_ b)) as [->|]; [left; by rewrite <- H2|].
        right. exists j. split; [simpl; lia|done].
      * intros [Hx|(j & Hj & Hx)]; [by apply (covered_first sz)|]. exists j. split; [simpl in Hj; lia|done].
Qed.

(** ** The queue *)

Lemma top_spec q :
  match top q with
  | None => q = []
  | Some (x, r) => q ≡ₚ x :: r ∧ ∀ y, y ∈ r → start (interval x) <= start (interval y)
  end.
Proof.
  induction q as [|x q IH]; [done|]. simpl. destruct (top q) as [ [y r]|]; [|subst; split; [done|set_solver]].
  destruct IH as [Hp Hle]. unfold greater.
  destruct (Z.ltb_spec (start (interval y)) (start (interval x))); simpl.
  - split; [rewrite Hp; apply Permutation_swap|]. intros z [->|Hz]%elem_of_cons; [lia|by apply Hle].
  - destruct (_ && _) eqn:E; bool_prop.
    + split; [rewrite Hp; apply Permutation_swap|]. intros z [->|Hz]%elem_of_cons; [lia|by apply Hle].
    + split; [done|]. intros z Hz. rewrite Hp in Hz. apply elem_of_cons in Hz as [->|Hz]; [lia|].
      specialize (Hle z Hz). lia.
Qed.

(** The entry of a queue belongs to its series. *)
Definition entry_ok (sz : Z) (s : MemSeries) (e : IndexedInterval) : Prop :=
  ∃ b, at_index (repeatSeries_ s) (idx e) = Some b ∧ blk_ok sz b ∧ interval e = curInterval_ b.

Record series_ok (sz : Z) (s : MemSeries) : Prop := {
  s_entries : Forall (entry_ok sz s) (leftMostIntervals_ s);
  s_nodup : NoDup (idx <$> leftMostIntervals_ s);
}.

(** The bytes still to come. *)
Definition to_come (s : MemSeries) (x : Z) : Prop :=
  ∃ e b, e ∈ leftMostIntervals_ s ∧ at_index (repeatSeries_ s) (idx e) = Some b ∧ covered b x.

(** The number of blocks still to come. *)
Definition left_in (s : MemSeries) (e : IndexedInterval) : nat :=
  match at_index (repeatSeries_ s) (idx e) with
  | Some b => Z.to_nat (blockNum_ b - curBlockIdx_ b)
  | None => 0
  end.
Definition left_blocks (s : MemSeries) : nat := sum_list (left_in s <$> leftMostIntervals_ s).

Lemma to_come_from sz s x e :
  series_ok sz s → (∀ e', e' ∈ leftMostIntervals_ s → e <= start (interval e')) → to_come s x → e <= x.
Proof.
  intros Hs Hall (e' & b & He' & Hb & Hc). pose proof (s_entries _ _ Hs) as Hf. rewrite Forall_forall in Hf.
  destruct (Hf e' He') as (b' & Hb' & Hok & Hi). simplify_eq. specialize (Hall e' He').
  rewrite Hi, (b_itv _ _ Hok) in Hall. simpl in Hall. pose proof (covered_from sz b x Hok Hc). lia.
Qed.

(** One round of the loop: the first interval is taken out. *)
Lemma series_pop sz s cur rest :
  series_ok sz s → top (leftMostIntervals_ s) = Some (cur, rest) →
  ∃ b s', at_index (repeatSeries_ s) (idx cur) = Some b ∧
    s' = match Move2NextItv b with
         | Some b' => mkSeries (set_index (repeatSeries_ s) (idx cur) b') (mkIdx (idx cur) (GetCurItv b') :: rest)
         | None => mkSeries (repeatSeries_ s) rest
         end ∧
    end_ (interval cur) = start (interval cur) + sz ∧ 0 < sz ∧ series_ok sz s' ∧
    (∀ e, e ∈ leftMostIntervals_ s' → start (interval cur) <= start (interval e)) ∧
    (∀ x, to_come s x ↔ start (interval cur) <= x < start (interval cur) + sz ∨ to_come s' x) ∧
    (left_blocks s' < left_blocks s)%nat.
Proof.
  intros Hs Ht. pose proof (top_spec (leftMostIntervals_ s)) as Htop. rewrite Ht in Htop. destruct Htop as [Hp Hle].
  pose proof (s_entries _ _ Hs) as Hf. rewrite Hp in Hf. apply Forall_cons in Hf as [ (b & Hb & Hok & Hi) Hf].
  pose proof (s_nodup _ _ Hs) as Hnd. rewrite Hp in Hnd. apply NoDup_cons in Hnd as [Hni Hnd].
  assert (start (interval cur) = base b (curBlockIdx_ b)) as Hstart by by rewrite Hi, (b_itv _ _ Hok).
  pose proof (move_spec sz b Hok) as Hmove. rewrite Forall_forall in Hf.
  assert (∀ e, e ∈ rest → idx e ≠ idx cur) as Hne.
  { intros e He Heq. apply Hni. rewrite <- Heq. by apply list_elem_of_fmap_2. }
  assert (∀ x, to_come s x ↔ covered b x ∨ ∃ e b', e ∈ rest ∧ at_index (repeatSeries_ s) (idx e) = Some b' ∧ covered b' x) as Hto.
  { intros x. unfold to_come. split.
    - intros (e & b' & He & Hb' & Hc). rewrite Hp in He. apply elem_of_cons in He as [->|He]; [left; by simplify_eq|].
      right. eauto.
    - intros [Hc|(e & b' & He & Hb' & Hc)]; [exists cur, b|exists e, b']; rewrite Hp; set_solver. }
  assert (left_blocks s = left_in s cur + sum_list (left_in s <$> rest))%nat as Hleft.
  { unfold left_blocks. by rewrite Hp. }
  assert (left_in s cur = Z.to_nat (blockNum_ b - curBlockIdx_ b)) as Hlc by (unfold left_in; by rewrite Hb).
  pose proof (b_cur _ _ Hok) as Hcur.
  assert (end_ (interval cur) = start (interval cur) + sz) as Hend by by rewrite Hi, (b_itv _ _ Hok).
  exists b. destruct (Move2NextItv b) as [b'|].
  - destruct Hmove as (Hok' & Hn & Hc' & Hmono & Hcov). set (s' := mkSeries _ (_ :: rest)).
    assert (∀ e, e ∈ rest → at_index (repeatSeries_ s') (idx e) = at_index (repeatSeries_ s) (idx e)) as Hsame.
    { intros e He. simpl. rewrite (at_set_index _ _ _ _ _ Hb). by destruct (Z.eqb_spec (idx e) (idx cur)); [exfalso; eapply Hne|]. }
    assert (at_index (repeatSeries_ s') (idx cur) = Some b') as Hat.
    { simpl. by rewrite (at_set_index _ _ _ _ _ Hb), Z.eqb_refl. }
    exists s'. split_and!; try done; try apply Hok.
    + split.
      * apply Forall_cons. split; [by exists b'|]. apply Forall_forall. intros e He.
        destruct (Hf e He) as (b2 & Hb2 & ?). exists b2. by rewrite Hsame.
      * simpl. by apply NoDup_cons.
    + intros e [->|He]%elem_of_cons; [|by apply Hle]. simpl. unfold GetCurItv. rewrite (b_itv _ _ Hok'). simpl. lia.
    + intros x. rewrite Hto, Hcov, Hstart. unfold to_come. split.
      * intros [ [Hx|Hc]|(e & b2 & He & Hb2 & Hc)]; [by left|right; exists (mkIdx (idx cur) (GetCurItv b')), b'; split; [by left|done]|].
        right. exists e, b2. split; [by right|]. by rewrite Hsame.
      * intros [Hx|(e & b2 & [->|He]%elem_of_cons & Hb2 & Hc)]; [by left; left|left; right; simpl in *; congruence|].
        right. exists e, b2. by rewrite Hsame in Hb2.
    + assert (left_blocks s' = left_in s' cur + sum_list (left_in s' <$> rest))%nat as -> by done.
      rewrite (list_fmap_ext (left_in s') (left_in s) rest).
      * rewrite Hleft, Hlc. unfold left_in at 1. rewrite Hat. lia.
      * intros i e He. unfold left_in. rewrite Hsame; [done|by eapply list_elem_of_lookup_2].
  - destruct Hmove as (Hn & Hcov). exists (mkSeries (repeatSeries_ s) rest). split_and!; try done; try apply Hok.
    + split; [apply Forall_forall; intros e He; by apply Hf|done].
    + intros x. rewrite Hto, Hcov, Hstart. done.
    + rewrite Hleft, Hlc. change (left_blocks _) with (sum_list (left_in s <$> rest)). lia.
Qed.

Lemma extend_spec sz fuel L ext s :
  series_ok sz s → (left_blocks s < fuel)%nat → L <= ext →
  (∀ e, e ∈ leftMostIntervals_ s → L <= start (interval e) ∧ ext <= start (interval e) + sz) →
  ∃ E s', extend fuel ext s = Some (E, s') ∧ series_ok sz s' ∧ ext <= E ∧
    (∀ x, L <= x < ext ∨ to_come s x ↔ L <= x < E ∨ to_come s' x) ∧
    (∀ e, e ∈ leftMostIntervals_ s' → E < start (interval e)) ∧
    (left_blocks s' <= left_blocks s)%nat ∧
    (∀ cur rest, top (leftMostIntervals_ s) = Some (cur, rest) → start (interval cur) <= ext →
       start (interval cur) < E ∧ (left_blocks s' < left_blocks s)%nat).
Proof.
  revert ext s. induction fuel as [|fuel IH]; intros ext s Hs Hf HL Hall; [lia|]. simpl.
  pose proof (top_spec (leftMostIntervals_ s)) as Htop.
  destruct (top (leftMostIntervals_ s)) as [ [cur rest]|] eqn:Ht.
  - destruct Htop as [Hp Hle]. destruct (Hall cur) as [HLc Hec]; [rewrite Hp; by left|].
    destruct (Z.leb_spec (start (interval cur)) ext) as [Hin|Hout].
    + destruct (series_pop sz s cur rest Hs Ht) as (b & s1 & Hb & Es1 & Hend & Hpos & Hs1 & Hge & Hcov & Hlt).
      rewrite Hb. cbn [mbind option_bind].
      replace (match Move2NextItv b with Some b' => _ | None => _ end) with (extend fuel (end_ (interval cur)) s1)
        by (subst s1; by destruct (Move2NextItv b)).
      destruct (IH (end_ (interval cur)) s1 Hs1) as (E & s2 & -> & Hs2 & HE & Hcov2 & Hgap & Hl2 & _); [lia|lia| |].
      { intros e He. specialize (Hge e He). lia. }
      exists E, s2. split; [done|]. split; [done|]. split; [lia|]. split; [|split; [done|split; [lia|]]].
      * intros x. rewrite <- Hcov2, Hcov, Hend.
        assert (L <= x < start (interval cur) + sz ↔ L <= x < ext ∨ start (interval cur) <= x < start (interval cur) + sz)
          as -> by lia. tauto.
      * intros c r [= -> ->] _. split; [lia|lia].
    + exists ext, s. split; [done|]. split; [done|]. split; [lia|]. split; [done|]. split; [|split; [lia|]].
      * intros e He. rewrite Hp in He. apply elem_of_cons in He as [->|He]; [lia|]. specialize (Hle e He). lia.
      * intros c r [= -> ->] ?. lia.
  - exists ext, s. split; [done|]. split; [done|]. split; [lia|]. split; [done|]. rewrite Htop.
    split; [set_solver|]. split; [lia|done].
Qed.

Lemma next_spec sz fuel s :
  series_ok sz s → (left_blocks s < fuel)%nat →
  ∃ r s', GetNextItv fuel s = Some (r, s') ∧ series_ok sz s' ∧
    match r with
    | None => ∀ x, ¬ to_come s x
    | Some i => start i < end_ i ∧ (∀ x, to_come s x ↔ start i <= x < end_ i ∨ to_come s' x) ∧
        (∀ x, to_come s' x → end_ i < x) ∧ (left_blocks s' < left_blocks s)%nat
    end.
Proof.
  intros Hs Hf. unfold GetNextItv. pose proof (top_spec (leftMostIntervals_ s)) as Htop.
  destruct (top (leftMostIntervals_ s)) as [ [cur rest]|] eqn:Ht.
  - destruct Htop as [Hp Hle]. set (L := start (interval cur)).
    assert (∀ e, e ∈ leftMostIntervals_ s → L <= start (interval e)) as Hmin.
    { intros e He. rewrite Hp in He. apply elem_of_cons in He as [->|He]; [lia|]. by apply Hle. }
    destruct (series_pop sz s cur rest Hs Ht) as (b & _ & _ & _ & _ & Hpos & _).
    destruct (extend_spec sz fuel L L s Hs Hf) as (E & s' & -> & Hs' & HE & Hcov & Hgap & Hl & Htop); [lia| |].
    { intros e He. specialize (Hmin e He). lia. }
    cbn [mbind option_bind]. eexists _, s'. split; [done|]. split; [done|]. simpl.
    destruct (Htop cur rest Ht) as [HLE Hlt]; [lia|]. split; [done|]. split; [|split; [|done]].
    + intros x. rewrite <- Hcov. split; [tauto|]. intros [?|?]; [lia|done].
    + intros x Hx. apply (to_come_from sz s' x (E + 1)) in Hx; [lia|done|].
      intros e He. specialize (Hgap e He). lia.
  - exists None, s. split; [done|]. split; [done|]. intros x (e & b & He & _). rewrite Htop in He. by apply elem_of_nil in He.
Qed.

(** ** The overlap test *)

(** The current interval and what comes after it. *)
Definition ahead (i : Interval) (s : MemSeries) (x : Z) : Prop := start i <= x < end_ i ∨ to_come s x.

Lemma overlap_spec sz1 sz2 f fuel i1 i2 s1 s2 :
  series_ok sz1 s1 → series_ok sz2 s2 → start i1 < end_ i1 → start i2 < end_ i2 →
  (∀ x, to_come s1 x → end_ i1 < x) → (∀ x, to_come s2 x → end_ i2 < x) →
  (left_blocks s1 + left_blocks s2 < fuel)%nat → (left_blocks s1 < f)%nat → (left_blocks s2 < f)%nat →
  ∃ b, overlap_loop fuel f i1 i2 s1 s2 = Some b ∧ (b = true ↔ ∃ x, ahead i1 s1 x ∧ ahead i2 s2 x).
Proof.
  revert i1 i2 s1 s2. induction fuel as [|fuel IH]; intros i1 i2 s1 s2 Hs1 Hs2 H1 H2 G1 G2 Hf Hf1 Hf2; [lia|].
  cbn [overlap_loop]. destruct ((start i1 <? end_ i2) && (start i2 <? end_ i1)) eqn:Ho.
  - bool_prop. exists true. split; [done|]. split; [|done]. intros _. exists (Z.max (start i1) (start i2)).
    split; left; lia.
  - assert (end_ i2 <= start i1 ∨ end_ i1 <= start i2) as Hd.
    { apply andb_false_iff in Ho as [?|?]; bool_prop; lia. }
    destruct (Z.ltb_spec (end_ i1) (end_ i2)) as [Hlt|Hge].
    + assert (∀ x, ahead i2 s2 x → end_ i1 <= x) as Hout by (intros x [?|Hx]; [lia|apply G2 in Hx; lia]).
      destruct (next_spec sz1 f s1 Hs1 Hf1) as (r & s1' & -> & Hs1' & Hr). cbn [mbind option_bind].
      destruct r as [i|].
      * destruct Hr as (Hi & Hcov & Hgap & Hl).
        destruct (IH i i2 s1' s2) as (b & -> & Hb); try done; try lia. exists b. split; [done|]. rewrite Hb.
        unfold ahead. split; intros (x & Hx1 & Hx2); exists x.
        -- split; [|done]. right. by apply Hcov.
        -- split; [|done]. destruct Hx1 as [Hx1|Hx1]; [specialize (Hout x Hx2); lia|by apply Hcov].
      * exists false. split; [done|]. split; [done|]. intros (x & [Hx1|Hx1] & Hx2); [specialize (Hout x Hx2); lia|].
        by apply Hr in Hx1.
    + assert (∀ x, ahead i1 s1 x → end_ i2 <= x) as Hout by (intros x [?|Hx]; [lia|apply G1 in Hx; lia]).
      destruct (next_spec sz2 f s2 Hs2 Hf2) as (r & s2' & -> & Hs2' & Hr). cbn [mbind option_bind].
      destruct r as [i|].
      * destruct Hr as (Hi & Hcov & Hgap & Hl).
        destruct (IH i1 i s1 s2') as (b & -> & Hb); try done; try lia. exists b. split; [done|]. rewrite Hb.
        unfold ahead. split; intros (x & Hx1 & Hx2); exists x.
        -- split; [done|]. right. by apply Hcov.
        -- split; [done|]. destruct Hx2 as [Hx2|Hx2]; [specialize (Hout x Hx1); lia|by apply Hcov].
      * exists false. split; [done|]. split; [done|]. intros (x & Hx1 & [Hx2|Hx2]); [specialize (Hout x Hx1); lia|].
        by apply Hr in Hx2.
Qed.

(** ** The series of an operation *)

(** Operations whose addresses do not wrap; the distance of two repeats is
    computed at 32 bits. *)
Record op_fits (m : MemOpInfo) : Prop := {
  o_addr : 0 <= addr m;
  o_times : 1 <= repeatTimes m < 4294967296;
  o_num : 1 <= blockNum m < 4294967296;
  o_size : 1 <= blockSize m < 4294967296;
  o_bstride : 0 <= blockStride m;
  o_rstride : 0 <= repeatStride m;
  o_step : repeatStride m * blockSize m < 4294967296;
  o_end : block_base m (repeatTimes m - 1) (blockNum m - 1) + blockSize m < 18446744073709551616;
}.

Definition repeat_addr (m : MemOpInfo) (i : Z) : Z := addr m + i * (repeatStride m * blockSize m).

Definition blk_of (m : MemOpInfo) (i : Z) : BlkSeries :=
  new_BlkSeries (repeat_addr m i) (blockSize m) (blockSize m) (blockStride m) (blockNum m).

Lemma blk_of_ok m i : op_fits m → 0 <= i < repeatTimes m → blk_ok (blockSize m) (blk_of m i).
Proof.
  intros [H1 H2 H3 H4 H5 H6 H7 H8] Hi. unfold blk_of, new_BlkSeries, repeat_addr.
  apply (update_ok_blk _ _ 0); simpl; try done; try lia.
  unfold base, block_base in *. simpl. rewrite <- (Z.mul_assoc (repeatTimes m - 1)) in H8.
  assert (0 <= repeatStride m * blockSize m) by nia.
  assert (i * (repeatStride m * blockSize m) <= (repeatTimes m - 1) * (repeatStride m * blockSize m)) by nia. nia.
Qed.

Lemma repeats_lookup m n k i :
  op_fits m → 0 <= i → i + Z.of_nat n < repeatTimes m → (k <= n)%nat →
  repeats n m (repeat_addr m i) !! k = Some (blk_of m (i + Z.of_nat k)).
Proof.
  intros Hm. revert k i. induction n as [|n IH]; intros k i Hi Hn Hk; simpl.
  - assert (k = 0%nat) as -> by lia. simpl. by rewrite Z.add_0_r.
  - destruct k as [|k]; simpl; [by rewrite Z.add_0_r|].
    assert (u64 (repeat_addr m i + u32 (repeatStride m * blockSize m)) = repeat_addr m (i + 1)) as ->.
    { pose proof (blk_of_ok m (i + 1) Hm ltac:(lia)) as Hb. pose proof (b_fit _ _ Hb) as Hfit.
      pose proof (b_addr _ _ Hb) as Hpos. pose proof (b_num _ _ Hb). destruct Hm.
      unfold base in Hfit. simpl in Hfit, Hpos. rewrite u32_small by (unfold is_u32; nia). rewrite u64_small.
      - unfold repeat_addr. lia.
      - assert (0 <= (blockNum m - 1) * blockSize m * blockStride m) by nia. unfold is_u64, repeat_addr in *.
        assert (0 <= i * (repeatStride m * blockSize m)) by nia. assert (0 <= repeatStride m * blockSize m) by nia. lia. }
    rewrite IH by lia. f_equal. f_equal. lia.
Qed.

Lemma repeats_length n m a : length (repeats n m a) = S n.
Proof. revert a. induction n as [|n IH]; intros a; simpl; [done|]. by rewrite IH. Qed.

Lemma new_at m i :
  op_fits m → 0 <= i < repeatTimes m → at_index (repeatSeries_ (new_MemSeries m)) i = Some (blk_of m i).
Proof.
  intros Hm Hi. unfold at_index, new_MemSeries. cbn [repeatSeries_]. destruct (Z.leb_spec 0 i); [|lia].
  replace (addr m) with (repeat_addr m 0) by (unfold repeat_addr; lia).
  rewrite repeats_lookup by (done || lia). f_equal. f_equal. lia.
Qed.

Lemma new_queue m :
  op_fits m →
  leftMostIntervals_ (new_MemSeries m) =
    (λ i, mkIdx i (curInterval_ (blk_of m i))) <$> (Z.of_nat <$> seq 0 (Z.to_nat (repeatTimes m))).
Proof.
  intros Hm. pose proof (o_times _ Hm) as Ht. apply list_eq. intros k. unfold new_MemSeries. cbn [leftMostIntervals_].
  rewrite list_lookup_imap, !list_lookup_fmap.
  destruct (decide (k < Z.to_nat (repeatTimes m))%nat) as [Hk|Hk].
  - rewrite lookup_take_lt by done. rewrite lookup_seq_lt by done. simpl.
    replace (addr m) with (repeat_addr m 0) by (unfold repeat_addr; lia). rewrite repeats_lookup by (done || lia). done.
  - rewrite lookup_take_ge by lia. rewrite (proj2 (lookup_seq _ _ _)) || rewrite lookup_seq_ge by lia. done.
Qed.

Lemma in_new_queue m e :
  op_fits m → e ∈ leftMostIntervals_ (new_MemSeries m) ↔
  ∃ i, 0 <= i < repeatTimes m ∧ e = mkIdx i (curInterval_ (blk_of m i)).
Proof.
  intros Hm. rewrite new_queue by done. rewrite list_elem_of_fmap. pose proof (o_times _ Hm). split.
  - intros (i & -> & Hi). apply list_elem_of_fmap in Hi as (k & -> & Hk). apply elem_of_seq in Hk.
    exists (Z.of_nat k). split; [lia|done].
  - intros (i & Hi & ->). exists i. split; [done|]. apply list_elem_of_fmap. exists (Z.to_nat i).
    split; [lia|]. apply elem_of_seq. lia.
Qed.

Lemma sum_const {A} (g : A → nat) l n : (∀ x, x ∈ l → g x = n) → sum_list (g <$> l) = (length l * n)%nat.
Proof.
  induction l as [|x l IH]; intros H; [done|]. rewrite fmap_cons. change (g x + sum_list (g <$> l) = S (length l) * n)%nat.
  rewrite IH by (intros; apply H; by right). rewrite (H x) by by left. lia.
Qed.

(** The walk of an operation goes through exactly the bytes it touches. *)
Lemma new_series m :
  op_fits m → series_ok (blockSize m) (new_MemSeries m) ∧ (left_blocks (new_MemSeries m) <= blocks_of m)%nat ∧
    ∀ x, to_come (new_MemSeries m) x ↔ touched m x.
Proof.
  intros Hm. split; [|split].
  - split.
    + apply Forall_forall. intros e He. apply in_new_queue in He as (i & Hi & ->); [|done]. exists (blk_of m i).
      split; [by apply new_at|]. split; [by apply blk_of_ok|done].
    + rewrite new_queue by done. rewrite <- list_fmap_compose. apply NoDup_fmap_2; [intros ? ? ?; simpl in *; done|].
      apply NoDup_fmap_2; [apply _|apply NoDup_seq].
  - unfold left_blocks. rewrite (sum_const _ _ (Z.to_nat (blockNum m))).
    + rewrite new_queue, !length_fmap, length_seq by done. unfold blocks_of. destruct Hm. nia.
    + intros e He. apply in_new_queue in He as (i & Hi & ->); [|done]. unfold left_in. simpl idx.
      rewrite new_at by done. simpl. by rewrite Z.sub_0_r.
  - intros x. unfold to_come, touched. split.
    + intros (e & b & He & Hb & j & Hj & Hx). apply in_new_queue in He as (i & Hi & ->); [|done]. cbn [idx] in Hb.
      rewrite new_at in Hb by done. simplify_eq. exists i, j. split; [done|]. simpl in Hj. split; [done|].
      unfold base in Hx. simpl in Hx. unfold repeat_addr, block_base in *. lia.
    + intros (i & j & Hi & Hj & Hx). exists (mkIdx i (curInterval_ (blk_of m i))), (blk_of m i).
      split; [apply in_new_queue; eauto|]. split; [by apply new_at|]. exists j. simpl. split; [done|].
      unfold base. simpl. unfold repeat_addr, block_base in *. lia.
Qed.

Lemma memory_overlap_spec op1 op2 :
  op_fits op1 → op_fits op2 →
  ∃ b, IsMemoryOverlap op1 op2 = Some b ∧
    (b = true ↔ memType op1 = memType op2 ∧ ∃ x, touched op1 x ∧ touched op2 x).
Proof.
  intros H1 H2. unfold IsMemoryOverlap. case_bool_decide as Ht; cbn [negb]; [|exists false; split; [done|naive_solver]].
  destruct (new_series op1 H1) as (S1 & L1 & T1). destruct (new_series op2 H2) as (S2 & L2 & T2).
  assert (∃ b, (b = true ↔ ∃ x, touched op1 x ∧ touched op2 x) ∧ IsMemoryOverlap op1 op2 = Some b) as (b & Hb & E).
  2: { unfold IsMemoryOverlap in E. rewrite bool_decide_eq_true_2 in E by done. cbn [negb] in E. exists b. split; [done|].
       rewrite Hb. tauto. }
  unfold IsMemoryOverlap. rewrite bool_decide_eq_true_2 by done. cbn [negb]. set (f := S _).
  destruct (next_spec _ f _ S1 ltac:(unfold f; lia)) as (r1 & s1 & -> & Hs1 & Hr1). cbn [mbind option_bind].
  destruct r1 as [i1|]; [|exists false; split; [|done]; split; [done|]; intros (x & Hx & _); by apply T1, Hr1 in Hx].
  destruct Hr1 as (Hi1 & C1 & G1 & F1).
  destruct (next_spec _ f _ S2 ltac:(unfold f; lia)) as (r2 & s2 & -> & Hs2 & Hr2). cbn [mbind option_bind].
  destruct r2 as [i2|]; [|exists false; split; [|done]; split; [done|]; intros (x & _ & Hx); by apply T2, Hr2 in Hx].
  destruct Hr2 as (Hi2 & C2 & G2 & F2).
  destruct (overlap_spec _ _ f f i1 i2 s1 s2 Hs1 Hs2) as (b & E & Hb); try done; try (unfold f; lia).
  exists b. split; [|done]. rewrite Hb. unfold ahead. setoid_rewrite <- C1. setoid_rewrite <- C2.
  setoid_rewrite T1. by setoid_rewrite T2.
Qed.
