(* ===== verification/MemEventChecker.v ===== *)
(** The comparison of memory events:
    [csrc/race_sanitizer/alg_framework/mem_event_checker.h] and
    [mem_event_checker.cpp], with the message types of
    [csrc/core/framework/event_def.h].

    The checker collects memory events with their vector times; the scan line
    sorts their ends by address and compares each event with those that are
    open where it starts. Hash sets are lists without duplicates: their order is
    not specified. [None] is an access outside a container. *)
From stdpp Require Import base numbers option gmap sets strings sorting list.
From S2P Require Import Prelude.
From S2P Require Import RecordDefs.
From S2P Require Import Platform.
From S2P Require Import EventDef.
From S2P Require Import VectorTime.
From S2P Require Import EventContainer.
From S2P Require Import SyncContainers.
From S2P Require Import PipelineReplayer.
From S2P Require Import MemSeries.

(** ** [KernelManager]: [csrc/core/framework/kernel_manager.cpp] *)
Module KernelManager.
Record KernelSummary := mkSummary {
  pcStartAddr : Z; blockDim : Z; kernelType : KernelType; isKernelWithDBI : bool; hasDebugLine : bool;
  kernelName : string;
}.
Definition KernelManager : Type := gmap Z (list KernelSummary).

Definition Add (deviceId : Z) (s : KernelSummary) (k : KernelManager) : KernelManager * Z :=
  let kernels := default [] (k !! deviceId) in
  (<[deviceId := kernels ++ [s]]> k, Z.of_nat (length kernels)).
Definition GetKernelCount (deviceId : Z) (k : KernelManager) : option Z := (λ l, Z.of_nat (length l)) <$> k !! deviceId.
Definition Get (deviceId kernelIdx : Z) (k : KernelManager) : option KernelSummary :=
  kernels ← k !! deviceId; at_index kernels kernelIdx.
End KernelManager.

(** ** Events and messages *)
Module Race.
Record MemEvent := mkMem {
  serialNo : Z; barrierNo : Z; pipeSerialNo : Z; closedRingStartSerialNo : Z; vt : VT.VectorTime;
  memInfo : MemOpInfo; dynamicMemInfo : DynamicOpInfo; loc : LocInfo; pipe : PipeType; isAtomicMode : bool;
  isDynamic : bool;
}.

Definition new_DynamicOpInfo : DynamicOpInfo :=
  {| dyn_minAddr := 0; dyn_maxAddr := 0; dyn_isSimtEntry := false; dyn_memType := MemType.L1; dyn_buffer := [] |}.

(** The constructor. The memory information of a dynamic event keeps the values
    [junk] that the storage happens to hold, but for the members with a default. *)
Definition of_SanEvent (junk : MemOpInfo) (e : SanEvent) : MemEvent :=
  let mem := match eventInfo e with
             | MemInfo m => m
             | _ => {| memType := memType junk; opType := opType junk; vectorMask := vectorMask junk;
                       maskMode := maskMode junk; instrName := instrName junk; dataBits := dataBits junk;
                       addr := addr junk; blockNum := blockNum junk; blockSize := blockSize junk;
                       blockStride := blockStride junk; repeatTimes := repeatTimes junk;
                       repeatStride := repeatStride junk; alignSize := alignSize junk;
                       mem_ignoreIllegalCheck := mem_ignoreIllegalCheck junk; isScalarAtomic := false;
                       dcciDistance := dcciDistance junk; dstCoreId := 0; dstBlockType := AIVEC;
                       instrClass := INSTR_UNKNOWN; matrixM := 0; matrixN := 0 |}
             end in
  let dyn := match eventInfo e with DynamicInfo d => d | _ => new_DynamicOpInfo end in
  mkMem (EventDef.serialNo e) 0 0 (EventDef.closedRingStartSerialNo e) VT.new_VectorTime mem dyn
    (EventDef.loc e) (EventDef.pipe e) (EventDef.isAtomicMode e)
    (match eventInfo e with DynamicInfo _ => true | _ => false end).

Definition AccessType_code (t : AccessType) : Z := match t with READ => 0 | WRITE => 1 | ACCESS_MEMCPY_BLOCKS => 2 end.

(** The name of the instruction, text for the display, is left out. *)
Record ErrorEvent := mkErr {
  err_serialNo : Z; err_deviceId : Z; err_kernelIdx : Z; err_coreId : Z; err_addr : Z; err_fileNo : Z;
  err_lineNo : Z; err_pc : Z; err_accessType : Z; err_memType : Z; err_pipeType : Z; err_blockType : BlockType;
  err_threadLoc : SimtThreadLocation; err_isSimt : bool;
}.

(** [ErrorEvent::Init] *)
Definition ErrorEvent_Init (e : MemEvent) (dynamicErrIdx : Z) : ErrorEvent :=
  let fill a p t acc mt simt :=
    mkErr (serialNo e) (deviceId (loc e)) (kernelIdx (loc e)) (coreId (loc e)) a (fileNo (loc e)) (lineNo (loc e)) p
      acc mt (PipeType_code (pipe e)) (blockType (loc e)) t simt in
  let plain := fill (addr (memInfo e)) (pc (loc e)) no_thread (AccessType_code (opType (memInfo e)))
                 (MemType_code (memType (memInfo e))) false in
  if isDynamic e && dyn_isSimtEntry (dynamicMemInfo e) then
    match at_index (dyn_buffer (dynamicMemInfo e)) dynamicErrIdx with
    | Some r => fill (smr_addr r) (loc_pc (smr_location r)) (smr_threadLoc r) (AccessType_code (smr_accessType r))
                  (MemType_code (AddrSpaceToMemType (smr_space r))) true
    | None => plain
    end
  else plain.

Definition ErrorEvent_eqb (a b : ErrorEvent) : bool :=
  (err_accessType a =? err_accessType b) && (err_memType a =? err_memType b) && (err_addr a =? err_addr b) &&
  (err_fileNo a =? err_fileNo b) && (err_lineNo a =? err_lineNo b) && (err_pc a =? err_pc b) &&
  (err_pipeType a =? err_pipeType b) && (err_coreId a =? err_coreId b) &&
  bool_decide (err_threadLoc a = err_threadLoc b) && eqb (err_isSimt a) (err_isSimt b).

Record RaceDispInfo := mkDisp { p1 : ErrorEvent; p2 : ErrorEvent; isMissDcci : bool; isOnlineError : bool }.

(** [ErrorEventEqual] *)
Definition same_race (a b : RaceDispInfo) : bool :=
  eqb (isMissDcci a) (isMissDcci b) &&
  ((ErrorEvent_eqb (p1 a) (p1 b) && ErrorEvent_eqb (p2 a) (p2 b)) ||
   (ErrorEvent_eqb (p1 a) (p2 b) && ErrorEvent_eqb (p2 a) (p1 b))).

Definition FillRaceDispInfo (miss : bool) (e1 e2 : MemEvent) (d1 d2 : Z) : RaceDispInfo :=
  mkDisp (ErrorEvent_Init e1 d1) (ErrorEvent_Init e2 d2) miss false.
End Race.

(** ** Overlap of operations *)
Module Overlap.
Import Race.

Record EventIdxInfo := mkIdxInfo { eventIdx : Z; dynamicErrorIdx : Z }.
Definition set_err (k : Z) (i : EventIdxInfo) : EventIdxInfo := mkIdxInfo (eventIdx i) k.

Record CompareShadowMemoryRecord := mkCmp { record : ShadowMemoryRecord; idx : Z }.

(** [CompareSmRecord], as a total order. *)
Definition sm_le (a b : CompareShadowMemoryRecord) : Prop :=
  smr_addr (record a) < smr_addr (record b) ∨
  (smr_addr (record a) = smr_addr (record b) ∧
   (smr_size (record a) < smr_size (record b) ∨
    (smr_size (record a) = smr_size (record b) ∧ idx a <= idx b))).
#[global] Instance sm_le_dec : RelDecision sm_le.
Proof. intros a b. unfold sm_le. apply _. Defined.

Definition TransToRecords (buffer : list ShadowMemoryRecord) : list CompareShadowMemoryRecord :=
  merge_sort sm_le (imap (λ i r, mkCmp r (Z.of_nat i)) buffer).

Definition rec_end (r : CompareShadowMemoryRecord) : Z := u64 (smr_addr (record r) + smr_size (record r)).
Definition is_read (t : AccessType) : bool := bool_decide (t = READ).
Definition rec_read (r : CompareShadowMemoryRecord) : bool := is_read (smr_accessType (record r)).

(** The operations have records. *)
Definition has_records (d : DynamicOpInfo) : bool := dyn_isSimtEntry d && negb (bool_decide (dyn_buffer d = [])).

(** The loop over the records of two dynamic operations. *)
Fixpoint dyn_dyn_loop (fuel : nat) (l1 l2 : list CompareShadowMemoryRecord) (existRace : bool)
    (i1 i2 : EventIdxInfo) : bool * EventIdxInfo * EventIdxInfo :=
  match fuel, l1, l2 with
  | S fuel, r1 :: l1', r2 :: l2' =>
      let start1 := smr_addr (record r1) in let end1 := rec_end r1 in
      let start2 := smr_addr (record r2) in let end2 := rec_end r2 in
      let hit := (start1 <? end2) && (start2 <? end1) && negb (rec_read r1 && rec_read r2) in
      let i1 := if hit then set_err (idx r1) i1 else i1 in
      let i2 := if hit then set_err (idx r2) i2 else i2 in
      if hit && negb (loc_pc (smr_location (record r1)) =? loc_pc (smr_location (record r2))) then (true, i1, i2)
      else
        let existRace := existRace || hit in
        if end1 <? end2 then dyn_dyn_loop fuel l1' l2 existRace i1 i2
        else if end1 =? end2 then dyn_dyn_loop fuel l1' l2' existRace i1 i2
        else dyn_dyn_loop fuel l1 l2' existRace i1 i2
  | _, _, _ => (existRace, i1, i2)
  end.

Definition IsMemoryOverlap_dyn (op1 op2 : DynamicOpInfo) (i1 i2 : EventIdxInfo) : bool * EventIdxInfo * EventIdxInfo :=
  if has_records op1 && has_records op2 then
    dyn_dyn_loop (length (dyn_buffer op1) + length (dyn_buffer op2)) (TransToRecords (dyn_buffer op1))
      (TransToRecords (dyn_buffer op2)) false i1 i2
  else (false, i1, i2).

(** [SplitMem] *)
Definition SplitMem (op : MemOpInfo) : list (Z * Z) :=
  r ← seqZ 0 (repeatTimes op);
  let repeatAddr := u64 (addr op + u64 (u64 (r * repeatStride op) * blockSize op)) in
  b ← seqZ 0 (blockNum op);
  let startAddr := u64 (repeatAddr + u64 (u64 (b * blockStride op) * blockSize op)) in
  [(startAddr, u64 (startAddr + blockSize op))].

Definition pair_le (a b : Z * Z) : Prop := a.1 < b.1 ∨ (a.1 = b.1 ∧ a.2 <= b.2).
#[global] Instance pair_le_dec : RelDecision pair_le.
Proof. intros a b. unfold pair_le. apply _. Defined.

Fixpoint mem_dyn_loop (fuel : nat) (read : bool) (l1 : list (Z * Z)) (l2 : list CompareShadowMemoryRecord)
    (i2 : EventIdxInfo) : bool * EventIdxInfo :=
  match fuel, l1, l2 with
  | S fuel, (start1, end1) :: l1', r2 :: l2' =>
      let start2 := smr_addr (record r2) in let end2 := rec_end r2 in
      if (start1 <? end2) && (start2 <? end1) && negb (rec_read r2 && read) then (true, set_err (idx r2) i2)
      else if end1 <? end2 then mem_dyn_loop fuel read l1' l2 i2
      else if end1 =? end2 then mem_dyn_loop fuel read l1' l2' i2
      else mem_dyn_loop fuel read l1 l2' i2
  | _, _, _ => (false, i2)
  end.

Definition IsMemoryOverlap_mem_dyn (op1 : MemOpInfo) (op2 : DynamicOpInfo) (i2 : EventIdxInfo) : bool * EventIdxInfo :=
  if has_records op2 then
    let l1 := merge_sort pair_le (SplitMem op1) in
    mem_dyn_loop (length l1 + length (dyn_buffer op2)) (is_read (opType op1)) l1 (TransToRecords (dyn_buffer op2)) i2
  else (false, i2).
End Overlap.

(** ** The checker *)
Module Checker.
Import Race Overlap.

Record MemEventChecker := mkChecker {
  events_ : list MemEvent; raceCnt_ : Z; blockNum_ : Z; kernelType_ : KernelType; deviceType_ : DeviceType;
  checkType_ : RaceCheckType; vecSubBlockDim_ : Z; result_ : list RaceDispInfo; raceSet_ : list RaceDispInfo;
  checkTypeMap_ : list RaceCheckType;
}.

Definition new_MemEventChecker : MemEventChecker :=
  mkChecker [] 0 0 KT_AICPU ASCEND_910_PREMIUM_A SINGLE_BLOCK_CHECK C220_VEC_SUB_BLOCKDIM [] [] [].

Definition Init (kt : KernelType) (dt : DeviceType) (ct : RaceCheckType) (c : MemEventChecker) : MemEventChecker :=
  mkChecker (events_ c) (raceCnt_ c) (blockNum_ c) kt dt ct (vecSubBlockDim_ c) [] (raceSet_ c)
    (SINGLE_BLOCK_CHECK :: SINGLE_PIPE_CHECK :: CROSS_BLOCK_CHECK :: checkTypeMap_ c).
Definition Init_npu (blockNum : Z) (c : MemEventChecker) : MemEventChecker :=
  mkChecker (events_ c) (raceCnt_ c) blockNum (kernelType_ c) (deviceType_ c) CROSS_NPU_CHECK (vecSubBlockDim_ c) []
    (raceSet_ c) (CROSS_NPU_CHECK :: checkTypeMap_ c).
Definition SetVecSubBlockDim (v : Z) (c : MemEventChecker) : MemEventChecker :=
  mkChecker (events_ c) (raceCnt_ c) (blockNum_ c) (kernelType_ c) (deviceType_ c) (checkType_ c) v (result_ c)
    (raceSet_ c) (checkTypeMap_ c).
Definition PushEvent (e : MemEvent) (c : MemEventChecker) : MemEventChecker :=
  mkChecker (events_ c ++ [e]) (raceCnt_ c) (blockNum_ c) (kernelType_ c) (deviceType_ c) (checkType_ c)
    (vecSubBlockDim_ c) (result_ c) (raceSet_ c) (checkTypeMap_ c).
Definition GetResult (c : MemEventChecker) : list RaceDispInfo := result_ c.
Definition GetRaceCount (c : MemEventChecker) : Z := raceCnt_ c.

Definition GetPipeIdxByMemEvent (ct : RaceCheckType) (e : MemEvent) (kt : KernelType) (dt : DeviceType) : Z :=
  u32 (u32 (GetEventBlockIndexByLoc (loc e) kt dt ct * Cont.PIPE_NUM) + PipeType_code (pipe e)).

Definition GetExpandPipeIdx (e : MemEvent) (blockNum : Z) : Z :=
  u32 (u32 (u32 (u32 (deviceIdx (loc e) * blockNum) * Cont.PIPE_NUM) +
            u32 (GetEventExpandBlockIndexByLoc (loc e) * Cont.PIPE_NUM)) + PipeType_code (pipe e)).

(** *** Comparing two events *)

Definition MASK_COUNT : Z := 1.

(** The products and sums are computed at 32 bits. *)
Definition GetMemMaxLength (e : MemEvent) : Z :=
  if isDynamic e then u64 (dyn_maxAddr (dynamicMemInfo e) - dyn_minAddr (dynamicMemInfo e))
  else
    let op := memInfo e in
    if (maskMode op =? MASK_COUNT) && ((mask0 (vectorMask op) =? 0) || (dataBits op =? 0)) then 0
    else if (repeatTimes op =? 0) || (blockNum op =? 0) || (blockSize op =? 0) then 0
    else u32 (u32 (u32 (u32 (u32 (repeatTimes op - 1) * repeatStride op) * blockSize op) +
                   u32 (u32 (u32 (blockNum op - 1) * blockStride op) * blockSize op)) + blockSize op).

Definition MMAD_FRACTAL_SIZE : Z := 16.
Definition MMAD_K_ACCUM_MIN_FRACTAL_NUM : Z := 10.

Definition IsLargeMatmulAccess (e : MemEvent) : bool :=
  let op := memInfo e in
  bool_decide (instrClass op = CUBE_MATMUL) &&
  (MMAD_K_ACCUM_MIN_FRACTAL_NUM <=? (matrixM op / MMAD_FRACTAL_SIZE) * (matrixN op / MMAD_FRACTAL_SIZE)).

Definition serial_diff (e1 e2 : MemEvent) : Z :=
  if pipeSerialNo e2 <? pipeSerialNo e1 then pipeSerialNo e1 - pipeSerialNo e2 else pipeSerialNo e2 - pipeSerialNo e1.

Definition IsMatmulAccumOrderedByHardware (e1 e2 : MemEvent) : bool :=
  if negb (serial_diff e1 e2 =? 1) then false else IsLargeMatmulAccess e1 && IsLargeMatmulAccess e2.

Definition EffOpType (e : MemEvent) : AccessType := if isDynamic e then WRITE else opType (memInfo e).
Definition eff_type (e : MemEvent) : MemType.MemType :=
  if isDynamic e then dyn_memType (dynamicMemInfo e) else memType (memInfo e).
Definition EffMemType (e : MemEvent) : Z := MemType_code (eff_type e).
Definition kMemTypeCount : nat := 10.

Definition is_atomic (e : MemEvent) : bool :=
  isScalarAtomic (memInfo e) ||
  (isAtomicMode e && bool_decide (opType (memInfo e) = WRITE) && negb (bool_decide (pipe e = PIPE_S))).
Definition IsAtomicAgainst (e1 e2 : MemEvent) : bool := is_atomic e1 && is_atomic e2.

Definition same_core (e1 e2 : MemEvent) : bool :=
  (coreId (loc e1) =? coreId (loc e2)) && bool_decide (blockType (loc e1) = blockType (loc e2)).

Definition NeedCrossCoreCheck (dt : DeviceType) (e1 e2 : MemEvent) : bool :=
  if same_core e1 e2 then false
  else if negb (IsAscend95 dt) then true
  else if negb (bool_decide (eff_type e1 = MemType.UB)) || negb (bool_decide (eff_type e2 = MemType.UB)) then true
  else if bool_decide (blockType (loc e1) = blockType (loc e2)) then false
  else if bool_decide (blockType (loc e1) = AIVEC) && bool_decide (blockType (loc e2) = AICUBE) &&
          negb (coreId (loc e1) =? dstCoreId (memInfo e2)) then false
  else if bool_decide (blockType (loc e1) = AICUBE) && bool_decide (blockType (loc e2) = AIVEC) &&
          negb (dstCoreId (memInfo e1) =? coreId (loc e2)) then false
  else true.

(** The result of a comparison, with the indices it may fill in. *)
Definition verdict : Type := bool * EventIdxInfo * EventIdxInfo.

Definition IsMemSpaceOverlap (op1 op2 : MemEvent) (i1 i2 : EventIdxInfo) : option verdict :=
  match isDynamic op1, isDynamic op2 with
  | false, false => b ← Series.IsMemoryOverlap (memInfo op1) (memInfo op2); Some (b, i1, i2)
  | false, true => let '(b, i2) := IsMemoryOverlap_mem_dyn (memInfo op1) (dynamicMemInfo op2) i2 in Some (b, i1, i2)
  | true, false => let '(b, i1) := IsMemoryOverlap_mem_dyn (memInfo op2) (dynamicMemInfo op1) i1 in Some (b, i1, i2)
  | true, true => Some (IsMemoryOverlap_dyn (dynamicMemInfo op1) (dynamicMemInfo op2) i1 i2)
  end.

Definition IsInnerCoreRaceCandidate (e1 e2 : MemEvent) (pipeIdx1 ownTime1 pipeIdx2 ownTime2 : Z) : option bool :=
  a2 ← VT.Get (vt e2) pipeIdx1;
  if ownTime1 =? a2 then Some false
  else
    b1 ← VT.Get (vt e1) pipeIdx2;
    if negb (VectorClock.IsNotHappensBefore4 ownTime1 a2 b1 ownTime2) then Some false
    else Some (negb (IsAtomicAgainst e1 e2)).

Section compare.
Context (c : MemEventChecker) (kernels : KernelManager.KernelManager).

Definition event_at (i : EventIdxInfo) : option MemEvent := at_index (events_ c) (eventIdx i).

Definition IsInnerCoreRaceEvent (i1 i2 : EventIdxInfo) : option verdict :=
  e1 ← event_at i1; e2 ← event_at i2;
  if bool_decide (pipe e1 = pipe e2) then Some (false, i1, i2)
  else
    let pipeIdx1 := GetPipeIdxByMemEvent SINGLE_BLOCK_CHECK e1 (kernelType_ c) (deviceType_ c) in
    let pipeIdx2 := GetPipeIdxByMemEvent SINGLE_BLOCK_CHECK e2 (kernelType_ c) (deviceType_ c) in
    t1 ← VT.Get (vt e1) pipeIdx1;
    t2 ← VT.Get (vt e2) pipeIdx2;
    cand ← IsInnerCoreRaceCandidate e1 e2 pipeIdx1 t1 pipeIdx2 t2;
    if negb cand then Some (false, i1, i2) else IsMemSpaceOverlap e1 e2 i1 i2.

Definition MAX_SERIAL_NUMBER_DIFF : Z := 16.

Definition IsSinglePipeRaceEvent (i1 i2 : EventIdxInfo) : option verdict :=
  e1 ← event_at i1; e2 ← event_at i2;
  if negb (bool_decide (memType (memInfo e1) = memType (memInfo e2))) then Some (false, i1, i2)
  else if negb (bool_decide (pipe e1 = pipe e2)) then Some (false, i1, i2)
  else if serialNo e1 =? serialNo e2 then Some (false, i1, i2)
  else if IsAtomicAgainst e1 e2 then Some (false, i1, i2)
  else if MAX_SERIAL_NUMBER_DIFF <? serial_diff e1 e2 then Some (false, i1, i2)
  else if negb (barrierNo e1 =? barrierNo e2) then Some (false, i1, i2)
  else if IsMatmulAccumOrderedByHardware e1 e2 then Some (false, i1, i2)
  else if (serialNo e1 <=? closedRingStartSerialNo e2) || (serialNo e2 <=? closedRingStartSerialNo e1)
  then Some (false, i1, i2)
  else IsMemSpaceOverlap e1 e2 i1 i2.

Definition IsCrossCoreRaceEvent (i1 i2 : EventIdxInfo) : option verdict :=
  e1 ← event_at i1; e2 ← event_at i2;
  if negb (NeedCrossCoreCheck (deviceType_ c) e1 e2) then Some (false, i1, i2)
  else
    n ← VectorClock.IsNotHappensBefore (vt e1) (vt e2)
          (GetPipeIdxByMemEvent CROSS_BLOCK_CHECK e1 (kernelType_ c) (deviceType_ c))
          (GetPipeIdxByMemEvent CROSS_BLOCK_CHECK e2 (kernelType_ c) (deviceType_ c));
    if negb n then Some (false, i1, i2)
    else if IsAtomicAgainst e1 e2 then Some (false, i1, i2)
    else IsMemSpaceOverlap e1 e2 i1 i2.

Definition IsCrossNpuRaceEvent (i1 i2 : EventIdxInfo) : option verdict :=
  e1 ← event_at i1; e2 ← event_at i2;
  if deviceId (loc e1) =? deviceId (loc e2) then Some (false, i1, i2)
  else
    n ← VectorClock.IsNotHappensBefore (vt e1) (vt e2) (GetExpandPipeIdx e1 (blockNum_ c))
          (GetExpandPipeIdx e2 (blockNum_ c));
    if negb n then Some (false, i1, i2)
    else
      match KernelManager.Get (deviceId (loc e1)) (kernelIdx (loc e1)) kernels,
            KernelManager.Get (deviceId (loc e2)) (kernelIdx (loc e2)) kernels with
      | Some k1, Some k2 =>
          if negb (bool_decide (KernelManager.kernelName k1 = KernelManager.kernelName k2)) then Some (false, i1, i2)
          else IsMemSpaceOverlap e1 e2 i1 i2
      | _, _ => Some (false, i1, i2)
      end.

Definition DCCI_WINDOW_THRESHOLD : Z := 1.

(** A scalar access with a cache maintenance close enough, or no scalar access. *)
Definition dcci_ok (e : MemEvent) : bool :=
  negb (bool_decide (pipe e = PIPE_S_CAL)) ||
  ((0 <? dcciDistance (memInfo e)) && (dcciDistance (memInfo e) <=? DCCI_WINDOW_THRESHOLD)).

Definition IsMissDcciEvent (i1 i2 : EventIdxInfo) : option verdict :=
  e1 ← event_at i1; e2 ← event_at i2;
  if same_core e1 e2 then Some (false, i1, i2)
  else if negb (bool_decide (memType (memInfo e1) = MemType.GM)) && negb (bool_decide (memType (memInfo e2) = MemType.GM))
  then Some (false, i1, i2)
  else if negb (bool_decide (pipe e1 = PIPE_S_CAL)) && negb (bool_decide (pipe e2 = PIPE_S_CAL))
  then Some (false, i1, i2)
  else
    match (match opType (memInfo e1), opType (memInfo e2) with
           | READ, WRITE => Some (e2, e1) | WRITE, READ => Some (e1, e2) | _, _ => None
           end) with
    | None => Some (false, i1, i2)
    | Some (pWrite, pRead) =>
        let pipeIdx1 := GetPipeIdxByMemEvent CROSS_BLOCK_CHECK pWrite (kernelType_ c) (deviceType_ c) in
        let pipeIdx2 := GetPipeIdxByMemEvent CROSS_BLOCK_CHECK pRead (kernelType_ c) (deviceType_ c) in
        h ← VectorClock.IsHappensBefore (vt pRead) (vt pWrite) pipeIdx2 pipeIdx1;
        if (h : bool) then Some (false, i1, i2)
        else if dcci_ok pWrite && dcci_ok pRead then Some (false, i1, i2)
        else IsMemSpaceOverlap e1 e2 i1 i2
    end.

Definition check_func (t : RaceCheckType) : EventIdxInfo → EventIdxInfo → option verdict :=
  match t with
  | SINGLE_BLOCK_CHECK => IsInnerCoreRaceEvent
  | SINGLE_PIPE_CHECK => IsSinglePipeRaceEvent
  | CROSS_BLOCK_CHECK => IsCrossCoreRaceEvent
  | CROSS_NPU_CHECK => IsCrossNpuRaceEvent
  end.
End compare.
End Checker.
