(* ===== verification/Scanline.v ===== *)
(** The scan line of [MemEventChecker]:
    [csrc/race_sanitizer/alg_framework/mem_event_checker.cpp].

    The start and end points of all events are sorted by address with a radix
    sort; three scans compare each event with those open at its start. *)
From stdpp Require Import base numbers option gmap sets list.
From S2P Require Import Prelude.
From S2P Require Import RecordDefs.
From S2P Require Import Platform.
From S2P Require Import EventDef.
From S2P Require Import VectorTime.
From S2P Require Import EventContainer.
From S2P Require Import MemEventChecker.
Import Race Overlap Checker.

Module Scan.
Record SortMetaData := mkMeta { m_addr : Z; m_eventIdx : Z; m_isStart : bool }.

(** [CompareEvent] *)
Definition CompareEvent (lhs rhs : SortMetaData) : bool :=
  if m_addr lhs =? m_addr rhs then
    if eqb (m_isStart lhs) (m_isStart rhs) then m_eventIdx lhs <? m_eventIdx rhs
    else negb (m_isStart lhs) && m_isStart rhs
  else m_addr lhs <? m_addr rhs.

(** *** [RadixSortByAddr] *)
Definition kRadixBits : Z := 16.
Definition kRadixMask : Z := 65535.
Definition digit (shift : Z) (x : SortMetaData) : Z := Z.land (Z.shiftr (m_addr x) shift) kRadixMask.

Fixpoint count_digits (shift : Z) (data : list SortMetaData) (count : list Z) : option (list Z) :=
  match data with
  | [] => Some count
  | x :: data' =>
      n ← at_index count (digit shift x + 1);
      count_digits shift data' (set_index count (digit shift x + 1) (n + 1))
  end.

(** [for (i = 1; i < count.size(); ++i) count[i] += count[i - 1]] *)
Fixpoint prefix_sums (acc : Z) (count : list Z) : list Z :=
  match count with [] => [] | n :: count' => (acc + n) :: prefix_sums (acc + n) count' end.

Fixpoint scatter (shift : Z) (data : list SortMetaData) (count : list Z) (tmp : list SortMetaData)
    : option (list SortMetaData) :=
  match data with
  | [] => Some tmp
  | x :: data' =>
      p ← at_index count (digit shift x);
      _ ← at_index tmp p;
      scatter shift data' (set_index count (digit shift x) (p + 1)) (set_index tmp p x)
  end.

Definition radix_pass (shift : Z) (data tmp : list SortMetaData) : option (list SortMetaData) :=
  count ← count_digits shift data (replicate (Z.to_nat 65537) 0);
  scatter shift data (prefix_sums 0 count) tmp.

(** The passes; [data.swap(tmp)] exchanges the vectors. *)
Fixpoint radix_passes (shifts : list Z) (data tmp : list SortMetaData) : option (list SortMetaData) :=
  match shifts with
  | [] => Some data
  | s :: shifts' => out ← radix_pass s data tmp; radix_passes shifts' out data
  end.

Definition RadixSortByAddr (data : list SortMetaData) : option (list SortMetaData) :=
  if (length data <? 2)%nat then Some data
  else radix_passes [0; 16; 32; 48] data (replicate (length data) (mkMeta 0 0 false)).

(** *** [BuildScanlineMetaData] *)
Definition end_addr (e : MemEvent) : Z :=
  if isDynamic e then dyn_maxAddr (dynamicMemInfo e) else u64 (addr (memInfo e) + GetMemMaxLength e).
Definition start_addr (e : MemEvent) : Z := if isDynamic e then dyn_minAddr (dynamicMemInfo e) else addr (memInfo e).

Fixpoint metas (isStart : bool) (i : Z) (events : list MemEvent) : list SortMetaData :=
  match events with
  | [] => []
  | e :: events' =>
      (if GetMemMaxLength e =? 0 then []
       else [mkMeta (if isStart then start_addr e else end_addr e) (u32 i) isStart]) ++ metas isStart (i + 1) events'
  end.

Definition BuildScanlineMetaData (events : list MemEvent) : option (list SortMetaData) :=
  RadixSortByAddr (metas false 0 events ++ metas true 0 events).

Definition hasAnyDynamic (events : list MemEvent) : bool := existsb isDynamic events.

(** *** Sets of open events *)
Definition pairs : Type := list (EventIdxInfo * EventIdxInfo).

(** [std::unordered_set] *)
Definition insert_idx (i : Z) (s : list Z) : list Z := if bool_decide (i ∈ s) then s else s ++ [i].
Definition erase_idx (i : Z) (s : list Z) : list Z := filter (λ j, j ≠ i) s.

Section scans.
Context (c : MemEventChecker) (kernels : KernelManager.KernelManager).

(** [CheckExistRaceEvents]: both index records live through the whole loop. *)
Fixpoint check_history (check : EventIdxInfo → EventIdxInfo → option verdict) (history : list Z)
    (i1 i2 : EventIdxInfo) (found : pairs) : option pairs :=
  match history with
  | [] => Some found
  | j :: history' =>
      r ← check i1 (mkIdxInfo j (dynamicErrorIdx i2));
      let '(b, i1, i2) := r in
      check_history check history' i1 i2 (if b : bool then found ++ [(i1, i2)] else found)
  end.

Definition CheckExistRaceEvents (history : list Z) (check : EventIdxInfo → EventIdxInfo → option verdict) (cur : Z)
    (found : pairs) : option pairs :=
  check_history check history (mkIdxInfo cur 0) (mkIdxInfo 0 0) found.

(** The state of [ScanGeneric]; histories are indexed by the memory type. *)
Record GenericState := mkGeneric { hw : list (list Z); hr : list (list Z); races : pairs; dcci : pairs }.

Definition scan_generic_step (checkDcci : bool) (check : EventIdxInfo → EventIdxInfo → option verdict)
    (s : GenericState) (m : SortMetaData) : option GenericState :=
  let cur := m_eventIdx m in
  e ← at_index (events_ c) cur;
  let mt := EffMemType e in
  w ← at_index (hw s) mt;
  r ← at_index (hr s) mt;
  if m_isStart m then
    let compare history s :=
      if checkDcci : bool
      then f ← CheckExistRaceEvents history (IsMissDcciEvent c) cur (dcci s); Some (mkGeneric (hw s) (hr s) (races s) f)
      else f ← CheckExistRaceEvents history check cur (races s); Some (mkGeneric (hw s) (hr s) f (dcci s)) in
    s ← compare w s;
    if bool_decide (EffOpType e = WRITE) then
      s ← compare r s;
      Some (mkGeneric (set_index (hw s) mt (insert_idx cur w)) (hr s) (races s) (dcci s))
    else Some (mkGeneric (hw s) (set_index (hr s) mt (insert_idx cur r)) (races s) (dcci s))
  else
    Some (mkGeneric (set_index (hw s) mt (erase_idx cur w)) (set_index (hr s) mt (erase_idx cur r)) (races s) (dcci s)).

Fixpoint scan {S} (step : S → SortMetaData → option S) (s : S) (ms : list SortMetaData) : option S :=
  match ms with [] => Some s | m :: ms' => s ← step s m; scan step s ms' end.

Definition new_Generic : GenericState := mkGeneric (replicate kMemTypeCount []) (replicate kMemTypeCount []) [] [].

Definition ScanGeneric (checkDcci : bool) (check : EventIdxInfo → EventIdxInfo → option verdict)
    (ms : list SortMetaData) : option (pairs * pairs) :=
  s ← scan (scan_generic_step checkDcci check) new_Generic ms; Some (races s, dcci s).

(** *** [ScanSinglePipeWindow] *)

(** [std::set] of serial number and index. *)
Definition pair_ltb (a b : Z * Z) : bool := (a.1 <? b.1) || ((a.1 =? b.1) && (a.2 <? b.2)).
Fixpoint set_insert (x : Z * Z) (s : list (Z * Z)) : list (Z * Z) :=
  match s with
  | [] => [x]
  | y :: s' => if pair_ltb x y then x :: s else if pair_ltb y x then y :: set_insert x s' else s
  end.
Definition set_erase (x : Z * Z) (s : list (Z * Z)) : list (Z * Z) := filter (λ y, y ≠ x) s.
Fixpoint from_lower (x : Z * Z) (s : list (Z * Z)) : list (Z * Z) :=
  match s with [] => [] | y :: s' => if pair_ltb y x then from_lower x s' else s end.
Fixpoint while_le (hi : Z) (s : list (Z * Z)) : list (Z * Z) :=
  match s with [] => [] | y :: s' => if y.1 <=? hi then y :: while_le hi s' else [] end.

Definition WINDOW : Z := 16.

(** Keyed by the memory type and the pipe. *)
Record WindowState := mkWindow { wSet : gmap (Z * Z) (list (Z * Z)); rSet : gmap (Z * Z) (list (Z * Z)); wraces : pairs }.

(** The loop over one window: the index records live through both passes. *)
Fixpoint check_window (check : EventIdxInfo → EventIdxInfo → option verdict) (l : list (Z * Z)) (i1 i2 : EventIdxInfo)
    (found : pairs) : option (EventIdxInfo * EventIdxInfo * pairs) :=
  match l with
  | [] => Some (i1, i2, found)
  | y :: l' =>
      r ← check i1 (mkIdxInfo y.2 (dynamicErrorIdx i2));
      let '(b, i1, i2) := r in
      check_window check l' i1 i2 (if b : bool then found ++ [(i1, i2)] else found)
  end.

Definition window_step (check : EventIdxInfo → EventIdxInfo → option verdict) (s : WindowState) (m : SortMetaData)
    : option WindowState :=
  let cur := m_eventIdx m in
  e ← at_index (events_ c) cur;
  let key := (EffMemType e, PipeType_code (pipe e)) in
  let n := pipeSerialNo e in
  let ws := default [] (wSet s !! key) in
  let rs := default [] (rSet s !! key) in
  if m_isStart m then
    let lo := if WINDOW <? n then n - WINDOW else 0 in
    let hi := u64 (n + WINDOW) in
    let curWrite := bool_decide (EffOpType e = WRITE) in
    r ← check_window check (while_le hi (from_lower (lo, 0) ws)) (mkIdxInfo cur 0) (mkIdxInfo 0 0) (wraces s);
    let '(i1, i2, found) := r in
    found ← (if curWrite then
               r ← check_window check (while_le hi (from_lower (lo, 0) rs)) i1 i2 found;
               Some r.2
             else Some found);
    Some (if curWrite then mkWindow (<[key := set_insert (n, cur) ws]> (wSet s)) (<[key := rs]> (rSet s)) found
          else mkWindow (<[key := ws]> (wSet s)) (<[key := set_insert (n, cur) rs]> (rSet s)) found)
  else
    Some (mkWindow (<[key := set_erase (n, cur) ws]> (wSet s)) (<[key := set_erase (n, cur) rs]> (rSet s)) (wraces s)).

Definition ScanSinglePipeWindow (check : EventIdxInfo → EventIdxInfo → option verdict) (ms : list SortMetaData)
    : option pairs :=
  s ← scan (window_step check) (mkWindow ∅ ∅ []) ms; Some (wraces s).

(** *** [ScanSingleBlockFast] *)

Definition pipe_idx (e : MemEvent) : Z := GetPipeIdxByMemEvent SINGLE_BLOCK_CHECK e (kernelType_ c) (deviceType_ c).

Fixpoint own_times (events : list MemEvent) : option (list Z) :=
  match events with
  | [] => Some []
  | e :: events' => t ← VT.Get (vt e) (pipe_idx e); ts ← own_times events'; Some (t :: ts)
  end.

Definition table : Type := list (list (list Z)).
Definition new_table : table := replicate kMemTypeCount (replicate 12 []).
Definition bucket_at (t : table) (mt q : Z) : option (list Z) := row ← at_index t mt; at_index row q.
Definition set_bucket (t : table) (mt q : Z) (b : list Z) : option table :=
  row ← at_index t mt; _ ← at_index row q; Some (set_index t mt (set_index row q b)).

Record FastState := mkFast { wB : table; rB : table; posInBucket : list Z; fraces : pairs }.

(** The comparisons with one bucket. *)
Fixpoint check_bucket (pipeIdx ownTime : list Z) (cur : Z) (ce : MemEvent) (t1Pipe a1 : Z) (bucket : list Z)
    (found : pairs) : option pairs :=
  match bucket with
  | [] => Some found
  | h :: bucket' =>
      he ← at_index (events_ c) h;
      p ← at_index pipeIdx h;
      t ← at_index ownTime h;
      cand ← IsInnerCoreRaceCandidate ce he t1Pipe a1 p t;
      if negb cand then check_bucket pipeIdx ownTime cur ce t1Pipe a1 bucket' found
      else
        r ← IsMemSpaceOverlap ce he (mkIdxInfo cur 0) (mkIdxInfo h 0);
        let '(b, i1, i2) := r in
        check_bucket pipeIdx ownTime cur ce t1Pipe a1 bucket' (if b : bool then found ++ [(i1, i2)] else found)
  end.

(** The comparisons with the buckets [qs] of the other pipes. *)
Fixpoint check_slots (pipeIdx ownTime : list Z) (cur : Z) (ce : MemEvent) (t1Pipe a1 sub : Z) (slots : table) (mt : Z)
    (qs : list Z) (found : pairs) : option pairs :=
  match qs with
  | [] => Some found
  | q :: qs' =>
      if q =? sub then check_slots pipeIdx ownTime cur ce t1Pipe a1 sub slots mt qs' found
      else
        bucket ← bucket_at slots mt q;
        found ← check_bucket pipeIdx ownTime cur ce t1Pipe a1 bucket found;
        check_slots pipeIdx ownTime cur ce t1Pipe a1 sub slots mt qs' found
  end.

Definition all_pipes : list Z := seqZ 0 12.

Definition fast_step (pipeIdx ownTime : list Z) (s : FastState) (m : SortMetaData) : option FastState :=
  let cur := m_eventIdx m in
  ce ← at_index (events_ c) cur;
  let mt := EffMemType ce in
  let sub := PipeType_code (pipe ce) in
  let curWrite := bool_decide (EffOpType ce = WRITE) in
  bucket ← bucket_at (if curWrite then wB s else rB s) mt sub;
  let with_bucket b pos found :=
    t ← set_bucket (if curWrite then wB s else rB s) mt sub b;
    Some (if curWrite then mkFast t (rB s) pos found else mkFast (wB s) t pos found) in
  if negb (m_isStart m) then
    pos ← at_index (posInBucket s) cur;
    moved ← last bucket;
    _ ← at_index bucket pos;
    _ ← at_index (posInBucket s) moved;
    with_bucket (removelast (set_index bucket pos moved)) (set_index (posInBucket s) moved pos) (fraces s)
  else
    t1Pipe ← at_index pipeIdx cur;
    a1 ← at_index ownTime cur;
    found ← check_slots pipeIdx ownTime cur ce t1Pipe a1 sub (wB s) mt all_pipes (fraces s);
    found ← (if curWrite then check_slots pipeIdx ownTime cur ce t1Pipe a1 sub (rB s) mt all_pipes found else Some found);
    _ ← at_index (posInBucket s) cur;
    with_bucket (bucket ++ [cur]) (set_index (posInBucket s) cur (Z.of_nat (length bucket))) found.

Definition ScanSingleBlockFast (ms : list SortMetaData) : option pairs :=
  let pipeIdx := pipe_idx <$> events_ c in
  ownTime ← own_times (events_ c);
  s ← scan (fast_step pipeIdx ownTime)
        (mkFast new_table new_table (replicate (length (events_ c)) 0) []) ms;
  Some (fraces s).

(** *** [ScanlineAlgorithm] and [RunAlgorithm] *)

Definition ScanlineAlgorithm (checkDcci : bool) : option (pairs * pairs) :=
  ms ← BuildScanlineMetaData (events_ c);
  if negb (bool_decide (checkType_ c ∈ checkTypeMap_ c)) then Some ([], [])
  else
    let check := check_func c kernels (checkType_ c) in
    match checkDcci || hasAnyDynamic (events_ c), checkType_ c with
    | true, _ | _, CROSS_NPU_CHECK | _, CROSS_BLOCK_CHECK => ScanGeneric checkDcci check ms
    | false, SINGLE_PIPE_CHECK => r ← ScanSinglePipeWindow check ms; Some (r, [])
    | false, SINGLE_BLOCK_CHECK => r ← ScanSingleBlockFast ms; Some (r, [])
    end.
End scans.

Fixpoint add_results (miss : bool) (l : pairs) (c : MemEventChecker) : option MemEventChecker :=
  match l with
  | [] => Some c
  | (i1, i2) :: l' =>
      e1 ← event_at c i1; e2 ← event_at c i2;
      let info := FillRaceDispInfo miss e1 e2 (dynamicErrorIdx i1) (dynamicErrorIdx i2) in
      add_results miss l'
        (if existsb (same_race info) (raceSet_ c) then c
         else mkChecker (events_ c) (u32 (raceCnt_ c + 1)) (blockNum_ c) (kernelType_ c) (deviceType_ c) (checkType_ c)
                (vecSubBlockDim_ c) (result_ c ++ [info]) (raceSet_ c ++ [info]) (checkTypeMap_ c))
  end.

Definition RunAlgorithm (kernels : KernelManager.KernelManager) (checkDcci : bool) (c : MemEventChecker)
    : option MemEventChecker :=
  r ← ScanlineAlgorithm c kernels checkDcci;
  c ← add_results false r.1 c;
  add_results true r.2 c.
End Scan.
