(* ===== verification/RadixProofs.v ===== *)
(** The radix sort of the scan line is a sort by [CompareEvent]. *)
From stdpp Require Import base numbers option sets sorting list.
From S2P Require Import Prelude.
From S2P Require Import EventContainer.
From S2P Require Import MemEventChecker.
From S2P Require Import Scanline.
Import Scan.

(** ** Counting *)

Section pass.
Context (shift : Z).

Definition g (x : SortMetaData) : Z := digit shift x.

Lemma digit_range x : 0 <= g x < 65536.
Proof.
  unfold g, digit, kRadixMask. change 65535 with (2 ^ 16 - 1). rewrite land_mask_mod by lia.
  apply Z.mod_pos_bound. lia.
Qed.

Definition bucket (d : Z) (l : list SortMetaData) : list SortMetaData := filter (λ x, g x = d) l.
Definition eqd (d : Z) (l : list SortMetaData) : Z := Z.of_nat (length (bucket d l)).
Definition ltd (d : Z) (l : list SortMetaData) : Z := Z.of_nat (length (filter (λ x, g x < d) l)).

Lemma eqd_cons d x l : eqd d (x :: l) = (if decide (g x = d) then 1 else 0) + eqd d l.
Proof. unfold eqd, bucket. rewrite filter_cons. destruct (decide (g x = d)); cbn [length]; lia. Qed.

Lemma ltd_succ d l : ltd (d + 1) l = ltd d l + eqd d l.
Proof.
  unfold ltd, eqd, bucket. induction l as [|x l IH]; [done|]. rewrite !filter_cons.
  repeat case_decide; cbn [length]; try lia.
Qed.

Lemma ltd_0 l : ltd 0 l = 0.
Proof.
  unfold ltd. induction l as [|x l IH]; [done|]. rewrite filter_cons. pose proof (digit_range x).
  case_decide; [lia|done].
Qed.

Lemma ltd_all l : ltd 65536 l = Z.of_nat (length l).
Proof.
  unfold ltd. induction l as [|x l IH]; [done|]. rewrite filter_cons. pose proof (digit_range x).
  case_decide; [cbn [length]; lia|lia].
Qed.

Lemma ltd_mono d d' l : 0 <= d <= d' → ltd d l <= ltd d' l.
Proof.
  intros [Hd Hd']. replace d' with (d + Z.of_nat (Z.to_nat (d' - d))) by lia.
  generalize (Z.to_nat (d' - d)). intros k. induction k as [|k IH]; [by rewrite Z.add_0_r|]. replace (d + Z.of_nat (S k)) with (d + Z.of_nat k + 1) by lia.
  rewrite ltd_succ. unfold eqd. lia.
Qed.

Lemma count_digits_spec data count :
  length count = Z.to_nat 65537 →
  ∃ count', count_digits shift data count = Some count' ∧ length count' = Z.to_nat 65537 ∧
    ∀ k n, at_index count k = Some n → at_index count' k = Some (n + eqd (k - 1) data).
Proof.
  revert count. induction data as [|x data IH]; intros count Hl; cbn [count_digits].
  - exists count. split; [done|]. split; [done|]. intros k n ->. unfold eqd. simpl. by rewrite Z.add_0_r.
  - pose proof (digit_range x) as Hd. unfold g in Hd.
    destruct (at_index_some count (digit shift x + 1)) as [n Hn]; [lia|]. rewrite Hn. cbn [mbind option_bind].
    destruct (IH (set_index count (digit shift x + 1) (n + 1))) as (count' & -> & Hl' & Hc).
    { unfold set_index. by rewrite length_insert. }
    exists count'. split; [done|]. split; [done|]. intros k m Hk. rewrite eqd_cons.
    pose proof (at_set_index count (digit shift x + 1) k (n + 1) n Hn) as Hs.
    destruct (Z.eqb_spec k (digit shift x + 1)) as [->|Hne].
    + simplify_eq. rewrite (Hc _ _ Hs). rewrite decide_True by (unfold g; lia). f_equal. lia.
    + rewrite Hk in Hs. rewrite (Hc _ _ Hs). rewrite decide_False by (unfold g; lia). f_equal.
Qed.

Lemma prefix_sums_length acc l : length (prefix_sums acc l) = length l.
Proof. revert acc. induction l as [|n l IH]; intros acc; simpl; [done|]. by rewrite IH. Qed.

(** With the counts of [data], the sums are the start positions of the buckets. *)
Lemma prefix_sums_spec data l k0 acc :
  (∀ k n, l !! k = Some n → n = eqd (k0 + Z.of_nat k - 1) data) → acc = ltd (k0 - 1) data →
  ∀ k n, prefix_sums acc l !! k = Some n → n = ltd (k0 + Z.of_nat k) data.
Proof.
  revert k0 acc. induction l as [|x l IH]; intros k0 acc Hl Hacc k n Hk; simpl in Hk; [done|].
  assert (acc + x = ltd k0 data) as Hx.
  { rewrite (Hl 0%nat x eq_refl), Hacc. replace k0 with (k0 - 1 + 1) at 3 by lia. rewrite ltd_succ.
    f_equal. f_equal. lia. }
  destruct k as [|k]; simpl in Hk; [simplify_eq; by rewrite Z.add_0_r|].
  rewrite (IH (k0 + 1) (acc + x)) with (k := k) (n := n); [f_equal; lia| | |done].
  - intros k' n' Hk'. rewrite (Hl (S k') n' Hk'). f_equal. lia.
  - rewrite Hx. f_equal. lia.
Qed.

(** ** Placing *)

Lemma eqd_app d l1 l2 : eqd d (l1 ++ l2) = eqd d l1 + eqd d l2.
Proof. unfold eqd, bucket. rewrite filter_app, length_app. lia. Qed.

Lemma bucket_snoc d l x : bucket d (l ++ [x]) = bucket d l ++ (if decide (g x = d) then [x] else []).
Proof. unfold bucket. by rewrite filter_app, filter_cons, filter_nil. Qed.

Lemma eqd_nonneg d l : 0 <= eqd d l.
Proof. unfold eqd. lia. Qed.

(** The bucket of digit [d] in the output. *)
Definition placed (tmp data P : list SortMetaData) (d : Z) : Prop :=
  take (Z.to_nat (eqd d P)) (drop (Z.to_nat (ltd d data)) tmp) = bucket d P.

Lemma scatter_spec data P R count tmp :
  data = P ++ R → length count = Z.to_nat 65537 → length tmp = length data →
  (∀ d, 0 <= d < 65536 → at_index count d = Some (ltd d data + eqd d P)) →
  (∀ d, 0 <= d < 65536 → placed tmp data P d) →
  ∃ tmp', scatter shift R count tmp = Some tmp' ∧ length tmp' = length data ∧
    ∀ d, 0 <= d < 65536 → placed tmp' data data d.
Proof.
  intros Hdata. revert P count tmp Hdata.
  induction R as [|x R IH]; intros P count tmp Hdata Hlc Hlt Hc Hp; cbn [scatter].
  - exists tmp. split; [done|]. split; [done|]. rewrite app_nil_r in Hdata. by subst P.
  - pose proof (digit_range x) as Hd. fold (g x). set (d := g x) in *. rewrite (Hc d Hd). cbn [mbind option_bind].
    set (p := ltd d data + eqd d P).
    assert (eqd d data = eqd d P + 1 + eqd d R) as Hed.
    { rewrite Hdata, eqd_app, eqd_cons, decide_True by done. lia. }
    pose proof (eqd_nonneg d R). pose proof (eqd_nonneg d P).
    assert (0 <= ltd d data) by (unfold ltd; lia).
    assert (p < Z.of_nat (length tmp)) as Hplt.
    { rewrite Hlt, <- ltd_all. pose proof (ltd_mono (d + 1) 65536 data ltac:(lia)) as Hm. rewrite ltd_succ in Hm. unfold p. lia. }
    destruct (at_index_some tmp p) as [y Hy]; [unfold p; lia|]. rewrite Hy. cbn [mbind option_bind].
    apply (IH (P ++ [x])).
    + by rewrite <- app_assoc.
    + unfold set_index. by rewrite length_insert.
    + unfold set_index. by rewrite length_insert.
    + intros d' Hd'. rewrite (at_set_index _ _ _ _ _ (Hc d Hd)), eqd_app, eqd_cons.
      replace (eqd d' []) with 0 by done. fold d. destruct (Z.eqb_spec d' d) as [->|].
      * rewrite decide_True by done. unfold p. f_equal. lia.
      * rewrite decide_False by congruence. rewrite (Hc d' Hd'). f_equal. lia.
    + intros d' Hd'. unfold placed in *. specialize (Hp d' Hd'). unfold set_index.
      rewrite bucket_snoc. fold d.
      rewrite eqd_app, eqd_cons. replace (eqd d' []) with 0 by done. fold d.
      assert (0 <= ltd d' data) by (unfold ltd; lia). pose proof (eqd_nonneg d' P).
      case_decide as E.
      * subst d'. rewrite drop_insert_ge by (unfold p; lia).
        replace (Z.to_nat (eqd d P + (1 + 0))) with (S (Z.to_nat (eqd d P))) by lia.
        replace (Z.to_nat p - Z.to_nat (ltd d data))%nat with (Z.to_nat (eqd d P)) by (unfold p; lia).
        rewrite take_S_r with (x := x).
        -- rewrite take_insert_ge by lia. by rewrite Hp.
        -- apply list_lookup_insert_eq. rewrite length_drop. unfold p in Hplt. lia.
      * rewrite app_nil_r. replace (Z.to_nat (eqd d' P + (0 + 0))) with (Z.to_nat (eqd d' P)) by lia.
        destruct (decide (d' < d)) as [Hlt'|].
        -- assert (ltd d' data + eqd d' P <= p) as Hle.
           { pose proof (ltd_mono (d' + 1) d data ltac:(lia)) as Hm. rewrite ltd_succ in Hm.
             assert (eqd d' data = eqd d' P + eqd d' (x :: R)) by (rewrite Hdata; apply eqd_app).
             pose proof (eqd_nonneg d' (x :: R)). unfold p. lia. }
           rewrite drop_insert_ge by lia. rewrite take_insert_ge by lia. done.
        -- assert (p < ltd d' data) as Hle.
           { pose proof (ltd_mono (d + 1) d' data ltac:(lia)) as Hm. rewrite ltd_succ in Hm. unfold p. lia. }
           rewrite drop_insert_lt by lia. done.
Qed.

Definition buckets (n : Z) (data : list SortMetaData) : list SortMetaData := seqZ 0 n ≫= λ d, bucket d data.

Lemma buckets_succ n data : 0 <= n → buckets (n + 1) data = buckets n data ++ bucket n data.
Proof.
  intros Hn. unfold buckets. rewrite seqZ_app by lia. rewrite bind_app. f_equal.
  rewrite seqZ_cons by lia. simpl. by rewrite app_nil_r.
Qed.

Lemma placed_buckets tmp data n :
  0 <= n <= 65536 → (∀ d, 0 <= d < 65536 → placed tmp data data d) →
  take (Z.to_nat (ltd n data)) tmp = buckets n data.
Proof.
  intros Hn Hp. replace n with (Z.of_nat (Z.to_nat n)) in * by lia. revert Hn. generalize (Z.to_nat n). intros k.
  induction k as [|k IH]; intros Hn; [by rewrite ltd_0|].
  replace (Z.of_nat (S k)) with (Z.of_nat k + 1) in * by lia. rewrite buckets_succ, ltd_succ by lia.
  rewrite <- IH by lia. rewrite <- (Hp (Z.of_nat k)) by lia. pose proof (eqd_nonneg (Z.of_nat k) data).
  assert (0 <= ltd (Z.of_nat k) data) by (unfold ltd; lia).
  rewrite Z2Nat.inj_add by lia. by rewrite take_take_drop.
Qed.

Lemma radix_pass_spec data tmp :
  length tmp = length data → radix_pass shift data tmp = Some (buckets 65536 data).
Proof.
  intros Hl. unfold radix_pass.
  destruct (count_digits_spec data (replicate (Z.to_nat 65537) 0)) as (count & -> & Hlc & Hc); [apply length_replicate|].
  cbn [mbind option_bind].
  destruct (scatter_spec data [] data (prefix_sums 0 count) tmp) as (tmp' & -> & Hl' & Hp); try done.
  - by rewrite prefix_sums_length.
  - intros d Hd. destruct (at_index_some (prefix_sums 0 count) d) as [n Hn]; [rewrite prefix_sums_length; lia|].
    rewrite Hn. unfold at_index in Hn. destruct (Z.leb_spec 0 d); [|lia].
    apply (prefix_sums_spec data count 0 0) in Hn.
    + rewrite Hn. replace (eqd d []) with 0 by done. rewrite Z.add_0_r. do 2 f_equal. lia.
    + intros k n' Hk. pose proof (lookup_lt_Some _ _ _ Hk) as Hlt. specialize (Hc (Z.of_nat k) 0).
      unfold at_index in Hc. destruct (Z.leb_spec 0 (Z.of_nat k)); [|lia]. rewrite Nat2Z.id in Hc.
      rewrite lookup_replicate_2 in Hc by lia. specialize (Hc eq_refl). rewrite Hk in Hc. injection Hc as ->. by rewrite !Z.add_0_l.
    + unfold ltd. symmetry. apply (f_equal Z.of_nat (y := 0%nat)). apply length_zero_iff_nil. clear.
      induction data as [|x l IH]; [done|]. rewrite filter_cons_False; [done|]. pose proof (digit_range x). lia.
  - rewrite <- (placed_buckets tmp' data 65536) by (done || lia). rewrite ltd_all, Nat2Z.id, <- Hl'. by rewrite take_ge.
Qed.

(** ** Stability *)

Lemma buckets_filter n data : 0 <= n → buckets n data ≡ₚ filter (λ x, g x < n) data.
Proof.
  intros Hn. replace n with (Z.of_nat (Z.to_nat n)) by lia. generalize (Z.to_nat n). intros k.
  induction k as [|k IH].
  - change (buckets (Z.of_nat 0) data) with (@nil SortMetaData). induction data as [|x l IHl]; [done|].
    rewrite filter_cons_False; [done|]. pose proof (digit_range x). lia.
  - replace (Z.of_nat (S k)) with (Z.of_nat k + 1) by lia. rewrite buckets_succ, IH by lia. clear IH.
    unfold bucket. induction data as [|x l IHl]; [done|]. rewrite !filter_cons.
    repeat case_decide; try lia; rewrite <- IHl; try done; by rewrite Permutation_middle.
Qed.

Lemma buckets_perm data : buckets 65536 data ≡ₚ data.
Proof.
  rewrite buckets_filter by lia. induction data as [|x l IH]; [done|]. pose proof (digit_range x).
  rewrite filter_cons_True by lia. by rewrite IH.
Qed.

Lemma elem_of_buckets x n data : 0 <= n → x ∈ buckets n data ↔ g x < n ∧ x ∈ data.
Proof. intros Hn. by rewrite (buckets_filter n data Hn), list_elem_of_filter. Qed.

Lemma StronglySorted_filter {A} (R : A → A → Prop) (P : A → Prop) `{∀ x, Decision (P x)} l :
  StronglySorted R l → StronglySorted R (filter P l).
Proof.
  induction 1 as [|x l Hl IH Hx]; [constructor|]. rewrite filter_cons. case_decide; [|done].
  constructor; [done|]. apply Forall_forall. intros y [_ Hy]%list_elem_of_filter. by eapply Forall_forall in Hx.
Qed.

Lemma StronglySorted_weaken {A} (R Q : A → A → Prop) l :
  (∀ x y, x ∈ l → y ∈ l → R x y → Q x y) → StronglySorted R l → StronglySorted Q l.
Proof.
  intros HRQ Hl. induction Hl as [|x l Hl IH Hx]; [constructor|]. constructor.
  - apply IH. intros a b Ha Hb. apply HRQ; set_solver.
  - apply Forall_forall. intros y Hy. eapply Forall_forall in Hx; [|done]. apply HRQ; [set_solver|set_solver|done].
Qed.

Lemma buckets_sorted R data n :
  0 <= n → StronglySorted R data → StronglySorted (λ x y, g x < g y ∨ g x = g y ∧ R x y) (buckets n data).
Proof.
  intros Hn HR. replace n with (Z.of_nat (Z.to_nat n)) by lia. generalize (Z.to_nat n). intros k.
  induction k as [|k IH]; [constructor|].
  replace (Z.of_nat (S k)) with (Z.of_nat k + 1) by lia. rewrite buckets_succ by lia. apply StronglySorted_app_2; [|done|].
  - intros x y Hx Hy. apply elem_of_buckets in Hx; [|lia]. unfold bucket in Hy. apply list_elem_of_filter in Hy. lia.
  - apply StronglySorted_weaken with (R := R); [|by apply StronglySorted_filter].
    intros x y Hx Hy HRxy. unfold bucket in *. apply list_elem_of_filter in Hx, Hy. right. split; [lia|done].
Qed.
End pass.

(** ** The four passes *)

(** The order of points that share their address. *)
Definition same_addr_order (x y : SortMetaData) : Prop :=
  (m_isStart x = false ∧ m_isStart y = true) ∨ (m_isStart x = m_isStart y ∧ m_eventIdx x < m_eventIdx y).

(** Sorted on the lowest [k] bits of the address. *)
Definition low_order (k : Z) (x y : SortMetaData) : Prop :=
  m_addr x mod 2 ^ k < m_addr y mod 2 ^ k ∨ (m_addr x mod 2 ^ k = m_addr y mod 2 ^ k ∧ same_addr_order x y).

Lemma digit_split k x : 0 <= k → m_addr x mod 2 ^ (k + 16) = m_addr x mod 2 ^ k + 2 ^ k * digit k x.
Proof.
  intros Hk. unfold digit, kRadixMask. change 65535 with (2 ^ 16 - 1). rewrite land_mask_mod by lia.
  rewrite Z.shiftr_div_pow2, Z.pow_add_r by lia. apply Z.rem_mul_r; lia.
Qed.

Lemma low_order_step k x y :
  0 <= k → (digit k x < digit k y ∨ digit k x = digit k y ∧ low_order k x y) → low_order (k + 16) x y.
Proof.
  intros Hk H. unfold low_order. rewrite !digit_split by done.
  pose proof (Z.mod_pos_bound (m_addr x) (2 ^ k) ltac:(lia)). pose proof (Z.mod_pos_bound (m_addr y) (2 ^ k) ltac:(lia)).
  destruct H as [H|[H [H'|[H' HT] ] ] ].
  - left. nia.
  - left. rewrite H. lia.
  - right. rewrite H. split; [lia|done].
Qed.

Lemma radix_pass_sorted k data tmp :
  0 <= k → length tmp = length data → StronglySorted (low_order k) data →
  ∃ out, radix_pass k data tmp = Some out ∧ out ≡ₚ data ∧ StronglySorted (low_order (k + 16)) out.
Proof.
  intros Hk Hl Hs. exists (buckets k 65536 data). split; [by apply radix_pass_spec|]. split; [apply buckets_perm|].
  eapply StronglySorted_weaken; [|by apply buckets_sorted].
  intros x y _ _ H. by apply low_order_step.
Qed.

Definition CompareEvent_lt (x y : SortMetaData) : Prop := CompareEvent x y = true.

Lemma CompareEvent_spec x y :
  CompareEvent_lt x y ↔ m_addr x < m_addr y ∨ (m_addr x = m_addr y ∧ same_addr_order x y).
Proof.
  unfold CompareEvent_lt, CompareEvent, same_addr_order. destruct (Z.eqb_spec (m_addr x) (m_addr y)).
  - destruct (m_isStart x), (m_isStart y); simpl; rewrite ?Z.ltb_lt; split; intros; try (naive_solver lia); naive_solver.
  - rewrite Z.ltb_lt. naive_solver lia.
Qed.

Lemma RadixSortByAddr_spec data :
  StronglySorted same_addr_order data → Forall (λ x, 0 <= m_addr x < 2 ^ 64) data →
  ∃ out, RadixSortByAddr data = Some out ∧ out ≡ₚ data ∧ StronglySorted CompareEvent_lt out.
Proof.
  intros Hs Ha. unfold RadixSortByAddr. destruct (Nat.ltb_spec (length data) 2) as [Hl|Hl].
  { exists data. split; [done|]. split; [done|].
    destruct data as [|x [|y data] ]; [constructor|repeat constructor|simpl in Hl; lia]. }
  assert (StronglySorted (low_order 0) data) as H0.
  { eapply StronglySorted_weaken; [|done]. intros x y _ _ H. right. by rewrite !Z.mod_1_r. }
  cbn [radix_passes].
  destruct (radix_pass_sorted 0 data (replicate (length data) (mkMeta 0 0 false))) as (o0 & -> & P0 & S0); [lia|apply length_replicate|done|].
  cbn [mbind option_bind].
  destruct (radix_pass_sorted 16 o0 data) as (o1 & -> & P1 & S1); [lia|by rewrite P0|done|]. cbn [mbind option_bind].
  destruct (radix_pass_sorted 32 o1 o0) as (o2 & -> & P2 & S2); [lia|by rewrite P1|done|]. cbn [mbind option_bind].
  destruct (radix_pass_sorted 48 o2 o1) as (o3 & -> & P3 & S3); [lia|by rewrite P2|done|]. cbn [mbind option_bind].
  assert (o3 ≡ₚ data) as P by (by rewrite P3, P2, P1). exists o3. split; [done|]. split; [done|].
  eapply StronglySorted_weaken; [|exact S3]. intros x y Hx Hy. rewrite P in Hx, Hy.
  rewrite Forall_forall in Ha. pose proof (Ha x Hx). pose proof (Ha y Hy).
  unfold low_order. change (48 + 16) with 64. rewrite !Z.mod_small by lia. by rewrite CompareEvent_spec.
Qed.
