(* ===== verification/ScanProofs.v ===== *)
(** The scan line reports exactly the pairs of events whose address ranges
    intersect and that pass the comparison: the points are sorted, and each of
    the three scans keeps the set of open events. *)
From stdpp Require Import base numbers option gmap sets sorting list.
From S2P Require Import Prelude.
From S2P Require Import RecordDefs.
From S2P Require Import Platform.
From S2P Require Import EventDef.
From S2P Require Import EventContainer.
From S2P Require Import MemEventChecker.
From S2P Require Import Scanline.
From S2P Require Import RadixProofs.
Import Race Overlap Checker Scan.

(** ** Any scan that tracks the open events

    [L] are the indices, [Sa] and [Ea] the ends of their ranges, [Q] the pairs to
    report; [repr s O F] says that the state [s] stands for the set [O] of open
    events and the reports [F]. *)
Section abstract.
Context (L : Z → Prop) (Sa Ea : Z → Z) (Q : Z → Z → Prop).
Context {St : Type} (step : St → SortMetaData → option St) (repr : St → (Z → Prop) → (Z → Z → Prop) → Prop).

Definition start_of (i : Z) : SortMetaData := mkMeta (Sa i) i true.
Definition end_of (i : Z) : SortMetaData := mkMeta (Ea i) i false.

(** [j] starts before [i]. *)
Definition starts_before (j i : Z) : Prop := Sa j < Sa i ∨ (Sa j = Sa i ∧ j < i).

(** [j] is open where [i] starts. *)
Definition open_at (j i : Z) : Prop := starts_before j i ∧ Sa i < Ea j.

Definition is_points (ms : list SortMetaData) : Prop :=
  StronglySorted CompareEvent_lt ms ∧ ∀ m, m ∈ ms ↔ ∃ i, L i ∧ (m = start_of i ∨ m = end_of i).

Lemma start_lt j i : CompareEvent_lt (start_of j) (start_of i) ↔ starts_before j i.
Proof. rewrite CompareEvent_spec. unfold starts_before, same_addr_order. simpl. naive_solver. Qed.
Lemma end_start_lt j i : CompareEvent_lt (end_of j) (start_of i) ↔ Ea j <= Sa i.
Proof.
  rewrite CompareEvent_spec. unfold same_addr_order. simpl. split; [lia|]. intros H.
  destruct (decide (Ea j = Sa i)); [right; split; [done|by left]|left; lia].
Qed.
Lemma start_end_lt j i : CompareEvent_lt (start_of j) (end_of i) ↔ Sa j < Ea i.
Proof.
  rewrite CompareEvent_spec. unfold same_addr_order. simpl. split; [|by left].
  intros [?|[_ [[? _]|[? _] ] ] ]; done.
Qed.

Lemma CompareEvent_irrefl m : ¬ CompareEvent_lt m m.
Proof. rewrite CompareEvent_spec. unfold same_addr_order. intros [?|[_ [[E E']|[_ ?] ] ] ]; [lia|congruence|lia]. Qed.
Lemma CompareEvent_asym m m' : CompareEvent_lt m m' → ¬ CompareEvent_lt m' m.
Proof.
  rewrite !CompareEvent_spec. unfold same_addr_order.
  intros [?|[? [[? ?]|[? ?] ] ] ] [?|[? [[? ?]|[? ?] ] ] ]; lia || congruence.
Qed.

Lemma sorted_split P m R :
  StronglySorted CompareEvent_lt (P ++ m :: R) →
  ∀ x, x ∈ P ++ m :: R → (x ∈ P ↔ CompareEvent_lt x m).
Proof.
  intros Hs. apply StronglySorted_app in Hs as (H12 & _ & [_ HR]%StronglySorted_inv). intros x Hx. split.
  - intros HxP. apply H12; [done|set_solver].
  - intros Hlt. apply elem_of_app in Hx as [?|Hx]; [done|]. apply elem_of_cons in Hx as [->|Hx].
    + by apply CompareEvent_irrefl in Hlt.
    + eapply Forall_forall in HR; [|done]. by apply CompareEvent_asym in HR.
Qed.

Context (Hne : ∀ i, L i → Sa i < Ea i).
Context (Hext : ∀ s O F O' F', repr s O F → (∀ i, O i ↔ O' i) → (∀ i j, F i j ↔ F' i j) → repr s O' F').
Context (Hstart : ∀ s O F i, repr s O F → L i → ¬ O i → (∀ j, O j → L j) →
  ∃ s', step s (start_of i) = Some s' ∧ repr s' (λ j, O j ∨ j = i) (λ a b, F a b ∨ (a = i ∧ O b ∧ Q i b))).
Context (Hend : ∀ s O F i, repr s O F → L i → O i →
  ∃ s', step s (end_of i) = Some s' ∧ repr s' (λ j, O j ∧ j ≠ i) F).

(** What the state stands for after the points [P]. *)
Definition open_after (P : list SortMetaData) (j : Z) : Prop := L j ∧ start_of j ∈ P ∧ end_of j ∉ P.
Definition found_after (P : list SortMetaData) (i j : Z) : Prop :=
  L i ∧ L j ∧ start_of i ∈ P ∧ open_at j i ∧ Q i j.

Lemma scan_abstract R P s :
  is_points (P ++ R) → repr s (open_after P) (found_after P) →
  ∃ s', scan step s R = Some s' ∧ repr s' (open_after (P ++ R)) (found_after (P ++ R)).
Proof.
  revert P s. induction R as [|m R IH]; intros P s Hp Hr; cbn [scan].
  { exists s. by rewrite app_nil_r. }
  pose proof (sorted_split P m R (proj1 Hp)) as Hsplit.
  assert (∀ i, L i → start_of i ∈ P ++ m :: R) as HS by (intros i Hi; apply Hp; eauto).
  assert (∀ i, L i → end_of i ∈ P ++ m :: R) as HE by (intros i Hi; apply Hp; eauto).
  assert (m ∉ P) as HmP by (intros Hin; apply Hsplit in Hin; [by apply CompareEvent_irrefl in Hin|set_solver]).
  assert (∀ x, x ∈ P ++ [m] ↔ x ∈ P ∨ x = m) as Hsnoc by set_solver.
  replace (P ++ m :: R) with ((P ++ [m]) ++ R) in Hp |- * by (by rewrite <- app_assoc).
  assert (∃ i, L i ∧ (m = start_of i ∨ m = end_of i)) as (i & Hi & [->| ->]) by (apply Hp; set_solver).
  - destruct (Hstart s _ _ i Hr Hi) as (s' & -> & Hr').
    { intros (_ & HP & _). done. } { by intros j (? & _). }
    cbn [mbind option_bind]. apply (IH _ _ Hp). eapply Hext; [exact Hr'| |].
    + intros j. unfold open_after. rewrite !Hsnoc. split.
      * intros [(HLj & H1 & H2)| ->]; [naive_solver discriminate|]. split; [done|]. split; [by right|].
        intros [HeP|?]; [|discriminate]. apply Hsplit in HeP; [|by apply HE]. apply end_start_lt in HeP.
        specialize (Hne i Hi). lia.
      * intros (HLj & [H1|[= ? ->] ] & H2); [left; naive_solver|by right].
    + intros a b. unfold found_after, open_after. rewrite !Hsnoc. split.
      * intros [(?&?&?&?&?)|(-> & (HLb & H1 & H2) & HQ)]; [naive_solver|].
        split; [done|]. split; [done|]. split; [by right|]. split; [|done]. split.
        -- apply start_lt. by apply Hsplit; [apply HS|].
        -- destruct (decide (Ea b <= Sa i)) as [Hle|]; [|lia]. destruct H2. apply Hsplit; [by apply HE|]. by apply end_start_lt.
      * intros (HLa & HLb & [H1|[= ? ->] ] & [Ho1 Ho2] & HQ); [left; unfold open_at; naive_solver|]. right.
        split; [done|]. split; [|done]. split; [done|]. split.
        -- apply Hsplit; [by apply HS|]. by apply start_lt.
        -- intros HeP. apply Hsplit in HeP; [|by apply HE]. apply end_start_lt in HeP. lia.
  - destruct (Hend s _ _ i Hr Hi) as (s' & -> & Hr').
    { split; [done|]. split; [|done]. apply Hsplit; [by apply HS|]. apply start_end_lt. by apply Hne. }
    cbn [mbind option_bind]. apply (IH _ _ Hp). eapply Hext; [exact Hr'| |].
    + intros j. unfold open_after. rewrite !Hsnoc. split.
      * intros [(HLj & H1 & H2) Hj]. split; [done|]. split; [by left|]. intros [?|[= ? ?] ]; done.
      * intros (HLj & [H1|?] & H2); [|discriminate]. naive_solver.
    + intros a b. unfold found_after. rewrite !Hsnoc. split; [naive_solver|].
      intros (HLa & HLb & [H1|?] & Ho & HQ); [done|discriminate].
Qed.

Lemma scan_abstract_all ms s :
  is_points ms → repr s (λ _, False) (λ _ _, False) →
  ∃ s', scan step s ms = Some s' ∧ repr s' (λ _, False) (λ i j, L i ∧ L j ∧ open_at j i ∧ Q i j).
Proof.
  intros Hp Hr. destruct (scan_abstract ms [] s) as (s' & E & Hr'); [done| |].
  { eapply Hext; [exact Hr| |]; unfold open_after, found_after; set_solver. }
  exists s'. split; [done|]. eapply Hext; [exact Hr'| |].
  - intros i. unfold open_after. simpl. split; [|done]. intros (Hi & _ & He). destruct He. apply Hp. eauto.
  - intros i j. unfold found_after. simpl. split; [naive_solver|]. intros (? & ? & ? & ?).
    repeat (split; [done|]). split; [|done]. apply Hp. eauto.
Qed.
End abstract.

(** ** The points of a list of events *)

(** The events that take part: those that touch memory. *)
Definition live (events : list MemEvent) (i : Z) : Prop := ∃ e, at_index events i = Some e ∧ GetMemMaxLength e ≠ 0.
Definition first_byte (events : list MemEvent) (i : Z) : Z := default 0 (start_addr <$> at_index events i).
Definition past_byte (events : list MemEvent) (i : Z) : Z := default 0 (end_addr <$> at_index events i).

(** The ranges are not empty and lie in the 64-bit address space, and the
    indices fit in 32 bits. *)
Record events_ok (events : list MemEvent) : Prop := {
  ev_count : Z.of_nat (length events) <= 2 ^ 32;
  ev_range : Forall (λ e, GetMemMaxLength e ≠ 0 → 0 <= start_addr e < end_addr e ∧ end_addr e < 2 ^ 64) events;
}.

Lemma elem_of_metas b k events m :
  m ∈ metas b k events ↔ ∃ n e, events !! n = Some e ∧ GetMemMaxLength e ≠ 0 ∧
    m = mkMeta (if b then start_addr e else end_addr e) (u32 (k + Z.of_nat n)) b.
Proof.
  revert k. induction events as [|e events IH]; intros k; cbn [metas].
  - split; [by intros ?%elem_of_nil|]. intros (n & e & H & _). done.
  - rewrite elem_of_app, IH. split.
    + intros [H|(n & e' & H)].
      * exists 0%nat, e. rewrite Z.add_0_r. destruct (Z.eqb_spec (GetMemMaxLength e) 0); [by apply elem_of_nil in H|].
        apply list_elem_of_singleton in H. done.
      * exists (S n), e'. replace (k + Z.of_nat (S n)) with (k + 1 + Z.of_nat n) by lia. done.
    + intros ([|n] & e' & H1 & H2 & H3); simpl in H1.
      * left. simplify_eq. rewrite Z.add_0_r. destruct (Z.eqb_spec (GetMemMaxLength e') 0); [done|]. set_solver.
      * right. exists n, e'. replace (k + 1 + Z.of_nat n) with (k + Z.of_nat (S n)) by lia. done.
Qed.

Lemma metas_sorted b k events :
  0 <= k → k + Z.of_nat (length events) <= 2 ^ 32 → StronglySorted same_addr_order (metas b k events).
Proof.
  revert k. induction events as [|e events IH]; intros k Hk Hl; cbn [metas length] in *; [constructor|].
  apply StronglySorted_app_2; [| |apply IH; lia].
  - intros x y Hx Hy. apply elem_of_metas in Hy as (n & e' & Hn & _ & ->). apply lookup_lt_Some in Hn.
    destruct (_ =? _); [by apply elem_of_nil in Hx|]. apply list_elem_of_singleton in Hx as ->. right. split; [done|].
    simpl. rewrite !u32_small by (unfold is_u32; lia). lia.
  - destruct (_ =? _); repeat constructor.
Qed.

Lemma points_order events :
  Z.of_nat (length events) <= 2 ^ 32 → StronglySorted same_addr_order (metas false 0 events ++ metas true 0 events).
Proof.
  intros Hl. apply StronglySorted_app_2; [|apply metas_sorted; lia|apply metas_sorted; lia].
  intros x y Hx Hy. apply elem_of_metas in Hx as (n & e & _ & _ & ->), Hy as (n' & e' & _ & _ & ->). by left.
Qed.

Lemma at_index_lookup {A} (l : list A) n x : l !! n = Some x ↔ at_index l (Z.of_nat n) = Some x.
Proof. unfold at_index. rewrite (proj2 (Z.leb_le _ _)) by lia. by rewrite Nat2Z.id. Qed.

Lemma elem_of_points events m :
  Z.of_nat (length events) <= 2 ^ 32 →
  m ∈ metas false 0 events ++ metas true 0 events ↔
  ∃ i, live events i ∧ (m = start_of (first_byte events) i ∨ m = end_of (past_byte events) i).
Proof.
  intros Hl. rewrite elem_of_app, !elem_of_metas. unfold live, start_of, end_of, first_byte, past_byte. split.
  - intros [(n & e & H1 & H2 & ->)|(n & e & H1 & H2 & ->)]; pose proof (lookup_lt_Some _ _ _ H1);
      apply at_index_lookup in H1; exists (Z.of_nat n); rewrite H1, u32_small by (unfold is_u32; lia); eauto.
  - intros (i & (e & H1 & H2) & H). rewrite H1 in H. simpl in H. pose proof (at_index_in _ _ _ H1).
    assert (events !! Z.to_nat i = Some e) by (apply at_index_lookup; by rewrite Z2Nat.id by lia).
    destruct H as [->| ->]; [right|left]; exists (Z.to_nat i), e; rewrite Z2Nat.id, u32_small by (unfold is_u32; lia); done.
Qed.

Lemma build_points events :
  events_ok events →
  ∃ ms, BuildScanlineMetaData events = Some ms ∧ ms ≡ₚ metas false 0 events ++ metas true 0 events ∧
    is_points (live events) (first_byte events) (past_byte events) ms.
Proof.
  intros [Hl Hr]. rewrite Forall_forall in Hr. unfold BuildScanlineMetaData.
  destruct (RadixSortByAddr_spec (metas false 0 events ++ metas true 0 events)) as (ms & -> & Hp & Hs).
  - by apply points_order.
  - apply Forall_forall. intros m [Hm|Hm]%elem_of_app; apply elem_of_metas in Hm as (n & e & H1 & H2 & ->); simpl;
      apply list_elem_of_lookup_2 in H1; specialize (Hr e H1 H2); lia.
  - exists ms. split; [done|]. split; [done|]. split; [done|]. intros m. rewrite Hp. by apply elem_of_points.
Qed.

Lemma live_range events i : events_ok events → live events i → first_byte events i < past_byte events i.
Proof.
  intros [_ Hr] (e & H1 & H2). unfold first_byte, past_byte. rewrite H1. simpl. rewrite Forall_forall in Hr.
  apply Hr; [|done]. pose proof (at_index_in _ _ _ H1). apply list_elem_of_lookup. exists (Z.to_nat i).
  apply at_index_lookup. by rewrite Z2Nat.id by lia.
Qed.

(** ** The generic scan *)

Lemma EffMemType_range e : 0 <= EffMemType e < 10.
Proof. unfold EffMemType. destruct (eff_type e); simpl; lia. Qed.

Definition reported (l : pairs) : list (Z * Z) := (λ p, (eventIdx p.1, eventIdx p.2)) <$> l.

Lemma reported_snoc l i1 i2 a b :
  (a, b) ∈ reported (l ++ [(i1, i2)]) ↔ (a, b) ∈ reported l ∨ (a = eventIdx i1 ∧ b = eventIdx i2).
Proof. unfold reported. rewrite fmap_app. simpl. set_solver. Qed.

Section compare.
Context (events : list MemEvent) (check : EventIdxInfo → EventIdxInfo → option verdict) (C : Z → Z → bool).

Definition ev_type (i : Z) : Z := default 0 (EffMemType <$> at_index events i).
Definition ev_write (i : Z) : bool := default false ((λ e, bool_decide (EffOpType e = WRITE)) <$> at_index events i).
Definition valid (i : Z) : Prop := is_Some (at_index events i).

(** The pairs a scan reports: the second event is open where the first starts. *)
Definition racing (i j : Z) : Prop :=
  ev_type i = ev_type j ∧ (ev_write i = true ∨ ev_write j = true) ∧ C i j = true.

(** The comparison decides [C] on the indices and keeps them. *)
Definition decides : Prop := ∀ i1 i2, valid (eventIdx i1) → valid (eventIdx i2) →
  ∃ i1' i2', check i1 i2 = Some (C (eventIdx i1) (eventIdx i2), i1', i2') ∧
    eventIdx i1' = eventIdx i1 ∧ eventIdx i2' = eventIdx i2.

Context (Hcheck : decides).

Lemma check_window_spec l i1 i2 found :
  valid (eventIdx i1) → (∀ y, y ∈ l → valid y.2) →
  ∃ i1' i2' found', check_window check l i1 i2 found = Some (i1', i2', found') ∧ eventIdx i1' = eventIdx i1 ∧
    ∀ a b, (a, b) ∈ reported found' ↔ (a, b) ∈ reported found ∨ (a = eventIdx i1 ∧ b ∈ l.*2 ∧ C a b = true).
Proof.
  revert i1 i2 found. induction l as [|y l IH]; intros i1 i2 found H1 Hl; cbn [check_window].
  { exists i1, i2, found. split; [done|]. split; [done|]. set_solver. }
  destruct (Hcheck i1 (mkIdxInfo y.2 (dynamicErrorIdx i2))) as (i1' & i2' & -> & E1 & E2); [done|apply Hl; set_solver|].
  cbn [mbind option_bind eventIdx] in *. 
  destruct (IH i1' i2' (if C (eventIdx i1) y.2 then found ++ [(i1', i2')] else found)) as (j1 & j2 & found' & -> & E & Hf).
  { by rewrite E1. } { intros z Hz. apply Hl. set_solver. }
  exists j1, j2, found'. split; [done|]. split; [congruence|]. intros a b. rewrite Hf, E1. cbn [fmap list_fmap].
  rewrite elem_of_cons. destruct (C (eventIdx i1) y.2) eqn:EC; [rewrite reported_snoc, E1, E2|].
  - split; [intros [[?|[-> ->] ]|(-> & ? & ?)]|intros [?|(-> & [->|?] & ?)]]; tauto.
  - split; [intros [?|(-> & ? & ?)]|intros [?|(-> & [->|?] & ?)]]; try congruence; tauto.
Qed.

Lemma check_history_spec l i1 i2 found :
  valid (eventIdx i1) → (∀ y, y ∈ l → valid y) →
  ∃ found', check_history check l i1 i2 found = Some found' ∧
    ∀ a b, (a, b) ∈ reported found' ↔ (a, b) ∈ reported found ∨ (a = eventIdx i1 ∧ b ∈ l ∧ C a b = true).
Proof.
  intros H1 Hl. destruct (check_window_spec ((λ j, (0, j)) <$> l) i1 i2 found H1) as (i1' & i2' & found' & E & _ & Hf).
  { intros y (j & -> & Hj)%list_elem_of_fmap. by apply Hl. }
  exists found'. split.
  - clear Hf. revert i1 i2 found H1 E. induction l as [|j l IH]; intros i1 i2 found H1 E; cbn [check_window fmap list_fmap] in *.
    { cbn in *. congruence. }
    cbn [check_history]. destruct (Hcheck i1 (mkIdxInfo j (dynamicErrorIdx i2))) as (j1 & j2 & E' & F1 & F2); [done|apply Hl; set_solver|].
    cbn [snd] in E. rewrite E' in E |- *. cbn [mbind option_bind] in *. apply IH; [|by rewrite F1|done].
    intros y Hy. apply Hl. set_solver.
  - intros a b. rewrite Hf. rewrite <- list_fmap_compose. cbn. by rewrite list_fmap_id.
Qed.
End compare.

Lemma valid_live events i : live events i → valid events i.
Proof. intros (e & H & _). by exists e. Qed.

Section generic.
Context (c : MemEventChecker) (dc : bool) (check : EventIdxInfo → EventIdxInfo → option verdict) (C : Z → Z → bool).
Let events := events_ c.
Context (Hcheck : decides events (if dc then IsMissDcciEvent c else check) C).

(** The histories [h] of the events whose [EffOpType] is a write, or is not. *)
Definition history_of (O : Z → Prop) (w : bool) (h : list (list Z)) : Prop :=
  length h = kMemTypeCount ∧
  ∀ mt l, at_index h mt = Some l → ∀ j, j ∈ l ↔ O j ∧ ev_type events j = mt ∧ ev_write events j = w.

Definition generic_repr (s : GenericState) (O : Z → Prop) (F : Z → Z → Prop) : Prop :=
  history_of O true (hw s) ∧ history_of O false (hr s) ∧
  (∀ a b, (a, b) ∈ reported (if dc then dcci s else races s) ↔ F a b) ∧ (if dc then races s else dcci s) = [].

Lemma history_at O w h mt : history_of O w h → 0 <= mt < 10 → ∃ l, at_index h mt = Some l.
Proof. intros [Hl _] Hmt. apply at_index_some. rewrite Hl. unfold kMemTypeCount. lia. Qed.

Lemma elem_insert_idx i j l : j ∈ insert_idx i l ↔ j ∈ l ∨ j = i.
Proof. unfold insert_idx. case_bool_decide; set_solver. Qed.
Lemma elem_erase_idx i j l : j ∈ erase_idx i l ↔ j ∈ l ∧ j ≠ i.
Proof. unfold erase_idx. rewrite list_elem_of_filter. tauto. Qed.

(** Changing the entry of an event's memory type. *)
Lemma history_set O O' w h i l l' :
  history_of O w h → at_index h (ev_type events i) = Some l →
  (∀ j, j ∈ l' ↔ O' j ∧ ev_type events j = ev_type events i ∧ ev_write events j = w) →
  (∀ j, ev_type events j ≠ ev_type events i → O j ↔ O' j) →
  history_of O' w (set_index h (ev_type events i) l').
Proof.
  intros [Hl Hh] Hi Hl' Hother. split; [unfold set_index; by rewrite length_insert|]. intros mt k Hk j.
  rewrite (at_set_index _ _ _ _ _ Hi) in Hk. destruct (Z.eqb_spec mt (ev_type events i)) as [->|Hne].
  - simplify_eq. apply Hl'.
  - rewrite (Hh _ _ Hk j). split; intros (? & <- & ?); (split; [by apply Hother|done]).
Qed.

Lemma history_keep O w h i :
  history_of O w h → ev_write events i ≠ w → history_of (λ j, O j ∨ j = i) w h.
Proof.
  intros [Hl Hh] Hi. split; [done|]. intros mt k Hk j. rewrite (Hh _ _ Hk j). split; [naive_solver|].
  intros ([?| ->] & ? & ?); done.
Qed.

Lemma generic_start s O F i :
  generic_repr s O F → live events i → ¬ O i → (∀ j, O j → live events j) →
  ∃ s', scan_generic_step c dc check s (start_of (first_byte events) i) = Some s' ∧
    generic_repr s' (λ j, O j ∨ j = i) (λ a b, F a b ∨ (a = i ∧ O b ∧ racing events C i b)).
Proof.
  intros (HW & HR & HF & He) Hi HOi HO. pose proof (valid_live _ _ Hi) as Hv. destruct Hi as (e & Hei & _).
  unfold scan_generic_step. cbn [m_eventIdx m_isStart start_of]. fold events. rewrite Hei. cbn [mbind option_bind].
  pose proof (EffMemType_range e) as Hmt.
  assert (ev_type events i = EffMemType e) as Ht by (unfold ev_type; by rewrite Hei). rewrite <- Ht in *.
  assert (ev_write events i = bool_decide (EffOpType e = WRITE)) as Hw by (unfold ev_write; by rewrite Hei). rewrite <- Hw.
  destruct (history_at _ _ _ _ HW Hmt) as [w Ew], (history_at _ _ _ _ HR Hmt) as [r Er].
  pose proof (proj2 HW _ _ Ew) as Hw'. pose proof (proj2 HR _ _ Er) as Hr'. rewrite Ew, Er. cbn [mbind option_bind].
  unfold CheckExistRaceEvents.
  destruct (check_history_spec events _ C Hcheck w (mkIdxInfo i 0) (mkIdxInfo 0 0) (if dc then dcci s else races s))
    as (f1 & E1 & Hf1); [done|intros y Hy; apply Hw' in Hy as (? & _); by apply valid_live, HO|].
  destruct (check_history_spec events _ C Hcheck r (mkIdxInfo i 0) (mkIdxInfo 0 0) f1)
    as (f2 & E2 & Hf2); [done|intros y Hy; apply Hr' in Hy as (? & _); by apply valid_live, HO|].
  cbn [eventIdx] in *.
  assert (history_of (λ j, O j ∨ j = i) (ev_write events i)
    (set_index (if ev_write events i then hw s else hr s) (ev_type events i)
       (insert_idx i (if ev_write events i then w else r)))) as Hset.
  { destruct (ev_write events i) eqn:E; (eapply history_set; [done|done| |naive_solver]);
      intros j; rewrite elem_insert_idx, ?Hw', ?Hr'; naive_solver. }
  assert (∀ a b, (a, b) ∈ reported (if ev_write events i then f2 else f1) ↔ F a b ∨ (a = i ∧ O b ∧ racing events C i b)) as Hfound.
  { intros a b. unfold racing. destruct (ev_write events i); [rewrite Hf2, Hr'|]; rewrite Hf1, Hw', HF.
    - clear. split; [intros [[?|(-> & (? & ? & ?) & ?)]|(-> & (? & ? & ?) & ?)]|intros [?|(-> & ? & ? & _ & ?)]]; auto 7.
      destruct (ev_write events b); auto 8.
    - clear. split; [intros [?|(-> & (? & ? & ?) & ?)]|intros [?|(-> & ? & ? & [?|?] & ?)]]; auto 7; done. }
  assert (history_of (λ j, O j ∨ j = i) (negb (ev_write events i)) (if ev_write events i then hr s else hw s)) as Hkeep.
  { destruct (ev_write events i) eqn:E; apply history_keep; try done; by rewrite E. }
  clear HF Hf1 Hf2 Hw' Hr' HO. unfold generic_repr. destruct dc; rewrite E1; cbn [mbind option_bind hw hr races dcci];
    destruct (ev_write events i); rewrite ?E2; cbn [mbind option_bind]; eexists; (split; [reflexivity|]); done.
Qed.

Lemma generic_end s O F i :
  generic_repr s O F → live events i → O i →
  ∃ s', scan_generic_step c dc check s (end_of (past_byte events) i) = Some s' ∧ generic_repr s' (λ j, O j ∧ j ≠ i) F.
Proof.
  intros (HW & HR & HF & He) (e & Hei & _) HOi.
  unfold scan_generic_step. cbn [m_eventIdx m_isStart end_of]. fold events. rewrite Hei. cbn [mbind option_bind].
  pose proof (EffMemType_range e) as Hmt.
  assert (ev_type events i = EffMemType e) as Ht by (unfold ev_type; by rewrite Hei). rewrite <- Ht in *.
  destruct (history_at _ _ _ _ HW Hmt) as [w Ew], (history_at _ _ _ _ HR Hmt) as [r Er].
  rewrite Ew, Er. cbn [mbind option_bind]. eexists. split; [reflexivity|]. split; [|split; [|done] ].
  all: eapply history_set; [done|done| |].
  all: try (intros j Hj; split; [intros HOj; split; [done|by intros ->]|by intros [? _] ]).
  all: intros j; rewrite elem_erase_idx, ?(proj2 HW _ _ Ew), ?(proj2 HR _ _ Er); tauto.
Qed.

Lemma generic_ext s O F O' F' :
  generic_repr s O F → (∀ i, O i ↔ O' i) → (∀ i j, F i j ↔ F' i j) → generic_repr s O' F'.
Proof.
  intros ((HWl & HW) & (HRl & HR) & HF & He) HO HFF. split; [|split; [|split; [|done] ] ].
  - split; [done|]. intros mt l Hl j. by rewrite (HW _ _ Hl j), HO.
  - split; [done|]. intros mt l Hl j. by rewrite (HR _ _ Hl j), HO.
  - intros a b. by rewrite HF, HFF.
Qed.

Lemma generic_new : generic_repr new_Generic (λ _, False) (λ _ _, False).
Proof.
  assert (∀ w, history_of (λ _, False) w (replicate kMemTypeCount [])) as H.
  { intros w. split; [done|]. intros mt l Hl j. unfold at_index in Hl. destruct (0 <=? mt); [|done].
    apply lookup_replicate in Hl as [-> _]. set_solver. }
  split; [apply H|]. split; [apply H|]. destruct dc; (split; [|done]); set_solver.
Qed.

(** The pairs the generic scan reports. *)
Definition pairs_of (i j : Z) : Prop :=
  live events i ∧ live events j ∧ open_at (first_byte events) (past_byte events) j i ∧ racing events C i j.

Lemma ScanGeneric_spec ms :
  events_ok events → is_points (live events) (first_byte events) (past_byte events) ms →
  ∃ r d, ScanGeneric c dc check ms = Some (r, d) ∧
    (∀ i j, (i, j) ∈ reported (if dc then d else r) ↔ pairs_of i j) ∧ (if dc then r else d) = [].
Proof.
  intros Hok Hms. unfold ScanGeneric.
  destruct (scan_abstract_all (live events) (first_byte events) (past_byte events) (racing events C)
    (scan_generic_step c dc check) generic_repr) with (ms := ms) (s := new_Generic) as (s' & -> & _ & _ & HF & He).
  - intros i. by apply live_range.
  - apply generic_ext.
  - apply generic_start.
  - apply generic_end.
  - done.
  - apply generic_new.
  - cbn [mbind option_bind]. eexists _, _. split; [reflexivity|]. done.
Qed.
End generic.
