(* ===== verification/WindowProofs.v ===== *)
(** The scan of one pipe only looks at the events whose serial numbers are
    within the window, and still reports the pairs of the generic scan. *)
From stdpp Require Import base numbers option gmap sets sorting list.
From S2P Require Import Prelude.
From S2P Require Import RecordDefs.
From S2P Require Import Platform.
From S2P Require Import EventDef.
From S2P Require Import EventContainer.
From S2P Require Import MemEventChecker.
From S2P Require Import Scanline.
From S2P Require Import RadixProofs.
From S2P Require Import ScanProofs.
Import Race Overlap Checker Scan.

(** ** The ordered set *)

Definition pair_lt (a b : Z * Z) : Prop := a.1 < b.1 ∨ (a.1 = b.1 ∧ a.2 < b.2).

Lemma pair_ltb_spec a b : pair_ltb a b = true ↔ pair_lt a b.
Proof. unfold pair_ltb, pair_lt. rewrite orb_true_iff, andb_true_iff, !Z.ltb_lt, Z.eqb_eq. done. Qed.
Lemma pair_ltb_false a b : pair_ltb a b = false ↔ ¬ pair_lt a b.
Proof. rewrite <- pair_ltb_spec. by destruct (pair_ltb a b). Qed.
Lemma pair_lt_total a b : ¬ pair_lt a b → ¬ pair_lt b a → a = b.
Proof. destruct a, b. unfold pair_lt. simpl. intros. f_equal; lia. Qed.
Lemma pair_lt_trans a b c : pair_lt a b → pair_lt b c → pair_lt a c.
Proof. unfold pair_lt. lia. Qed.

Definition ordered (s : list (Z * Z)) : Prop := StronglySorted pair_lt s.

Lemma elem_set_insert x y s : ordered s → y ∈ set_insert x s ↔ y = x ∨ y ∈ s.
Proof.
  induction 1 as [|z s Hs IH Hz]; cbn [set_insert]; [set_solver|].
  destruct (pair_ltb x z) eqn:E1; [set_solver|]. destruct (pair_ltb z x) eqn:E2.
  - rewrite !elem_of_cons, IH. tauto.
  - apply pair_ltb_false in E1, E2. rewrite (pair_lt_total x z) by done. set_solver.
Qed.

Lemma set_insert_ordered x s : ordered s → ordered (set_insert x s).
Proof.
  induction 1 as [|z s Hs IH Hz]; cbn [set_insert]; [repeat constructor|].
  destruct (pair_ltb x z) eqn:E1.
  - apply pair_ltb_spec in E1. constructor; [by constructor|]. constructor; [done|].
    eapply Forall_impl; [exact Hz|]. intros y. by apply pair_lt_trans.
  - destruct (pair_ltb z x) eqn:E2; [|by constructor]. apply pair_ltb_spec in E2. constructor; [done|].
    apply Forall_forall. intros y Hy. apply elem_set_insert in Hy; [|done]. destruct Hy as [->|Hy]; [done|]. by eapply Forall_forall in Hz.
Qed.

Lemma elem_from_lower x y s : ordered s → y ∈ from_lower x s ↔ y ∈ s ∧ ¬ pair_lt y x.
Proof.
  induction 1 as [|z s Hs IH Hz]; cbn [from_lower]; [set_solver|]. destruct (pair_ltb z x) eqn:E.
  - apply pair_ltb_spec in E. rewrite IH, elem_of_cons. split; [tauto|]. intros [[->|?] ?]; tauto.
  - apply pair_ltb_false in E. split; [|tauto]. intros Hy. split; [done|]. apply elem_of_cons in Hy as [->|Hy]; [done|].
    eapply Forall_forall in Hz; [|done]. intros Hlt. destruct E. by eapply pair_lt_trans.
Qed.

Lemma from_lower_ordered x s : ordered s → ordered (from_lower x s).
Proof. induction 1 as [|z s Hs IH Hz]; cbn [from_lower]; [constructor|]. destruct (pair_ltb z x); [done|by constructor]. Qed.

Lemma elem_while_le hi y s : ordered s → y ∈ while_le hi s ↔ y ∈ s ∧ y.1 <= hi.
Proof.
  induction 1 as [|z s Hs IH Hz]; cbn [while_le]; [set_solver|]. destruct (Z.leb_spec z.1 hi).
  - rewrite !elem_of_cons, IH. split; [intros [->|?]; tauto|tauto].
  - split; [by intros ?%elem_of_nil|]. intros [Hy Hle]. apply elem_of_cons in Hy as [->|Hy]; [lia|].
    eapply Forall_forall in Hz; [|done]. unfold pair_lt in Hz. lia.
Qed.

(** The entries of the window. *)
Lemma elem_window lo hi y s :
  ordered s → 0 <= y.2 → y ∈ while_le hi (from_lower (lo, 0) s) ↔ y ∈ s ∧ lo <= y.1 <= hi.
Proof.
  intros Hs Hy. rewrite elem_while_le, elem_from_lower by (try apply from_lower_ordered; done).
  unfold pair_lt. simpl. split; [intros [[? ?] ?]|intros [? ?]]; (repeat split; try done); lia.
Qed.

(** ** The scan *)

Section window.
Context (c : MemEventChecker) (check : EventIdxInfo → EventIdxInfo → option verdict) (C : Z → Z → bool).
Let events := events_ c.

Definition ev_pipe (i : Z) : Z := default 0 ((λ e, PipeType_code (pipe e)) <$> at_index events i).
Definition ev_serial (i : Z) : Z := default 0 (pipeSerialNo <$> at_index events i).

Context (Hcheck : decides events check C).
Context (Hserial : ∀ i, 0 <= ev_serial i < 18446744073709551600).
Context (HC : ∀ i j, C i j = true → ev_pipe i = ev_pipe j ∧ Z.abs (ev_serial i - ev_serial j) <= WINDOW).

(** The entries under one key. *)
Definition entries_of (O : Z → Prop) (w : bool) (key : Z * Z) (s : list (Z * Z)) : Prop :=
  ordered s ∧
  ∀ y, y ∈ s ↔ O y.2 ∧ (ev_type events y.2, ev_pipe y.2) = key ∧ ev_write events y.2 = w ∧ y.1 = ev_serial y.2.

Definition sets_of (O : Z → Prop) (w : bool) (m : gmap (Z * Z) (list (Z * Z))) : Prop :=
  ∀ key, entries_of O w key (default [] (m !! key)).

Definition window_repr (s : WindowState) (O : Z → Prop) (F : Z → Z → Prop) : Prop :=
  sets_of O true (wSet s) ∧ sets_of O false (rSet s) ∧ ∀ a b, (a, b) ∈ reported (wraces s) ↔ F a b.

Definition key_of (i : Z) : Z * Z := (ev_type events i, ev_pipe i).

Lemma sets_set O O' w m i s' :
  sets_of O w m → entries_of O' w (key_of i) s' → (∀ j, key_of j ≠ key_of i → O j ↔ O' j) →
  sets_of O' w (<[key_of i := s']> m).
Proof.
  intros Hm Hs' Hother key. destruct (decide (key = key_of i)) as [->|Hne]; [by rewrite lookup_insert_eq|].
  rewrite lookup_insert_ne by done. destruct (Hm key) as [Ho He]. split; [done|]. intros y. rewrite He.
  split; intros (? & Hk & ? & ?); (split; [|done]); (apply (Hother y.2); [|done]); intros E;
    apply Hne; by rewrite <- Hk.
Qed.

Lemma entries_keep O w key s i :
  entries_of O w key s → (key_of i ≠ key ∨ ev_write events i ≠ w) → entries_of (λ j, O j ∨ j = i) w key s.
Proof.
  intros [Ho He] Hi. split; [done|]. intros y. rewrite He. unfold key_of in Hi. split; [tauto|].
  intros ([?| ->] & ? & ? & ?); [tauto|]. destruct Hi; congruence.
Qed.

Lemma entries_insert O w i s :
  entries_of O w (key_of i) s → ev_write events i = w →
  entries_of (λ j, O j ∨ j = i) w (key_of i) (set_insert (ev_serial i, i) s).
Proof.
  intros [Ho He] Hi. split; [by apply set_insert_ordered|]. intros y. rewrite elem_set_insert, He by done. split.
  - intros [->|?]; [|tauto]. simpl. unfold key_of. tauto.
  - intros ([?|Ei] & ? & ? & Hy); [tauto|]. left. destruct y as [z k]. simpl in *. by subst.
Qed.

Lemma entries_erase O w i s :
  entries_of O w (key_of i) s → entries_of (λ j, O j ∧ j ≠ i) w (key_of i) (set_erase (ev_serial i, i) s).
Proof.
  intros [Ho He]. split; [by apply StronglySorted_filter|]. intros y. unfold set_erase. rewrite list_elem_of_filter, He.
  split.
  - intros [Hy (? & ? & ? & E)]. split; [|done]. split; [done|]. intros Ei. apply Hy. destruct y as [z k]. simpl in *. by subst.
  - intros ([? Hn] & ? & ? & E). split; [|done]. intros ->. by destruct Hn.
Qed.

Lemma window_ext s O F O' F' :
  window_repr s O F → (∀ i, O i ↔ O' i) → (∀ i j, F i j ↔ F' i j) → window_repr s O' F'.
Proof.
  intros (HW & HR & HF) HO HFF. split; [|split].
  - intros key. destruct (HW key) as [? He]. split; [done|]. intros y. by rewrite He, HO.
  - intros key. destruct (HR key) as [? He]. split; [done|]. intros y. by rewrite He, HO.
  - intros a b. by rewrite HF, HFF.
Qed.

Lemma window_new : window_repr (mkWindow ∅ ∅ []) (λ _, False) (λ _ _, False).
Proof.
  split; [|split; [|set_solver] ]; intros key; simpl; rewrite lookup_empty; simpl; (split; [constructor|]); set_solver.
Qed.

(** The window of an event holds the open events that can race with it. *)
Lemma window_cover O w i s j :
  entries_of O w (key_of i) s → (∀ j, O j → live events j) →
  let n := ev_serial i in
  j ∈ (while_le (u64 (n + WINDOW)) (from_lower (if WINDOW <? n then n - WINDOW else 0, 0) s)).*2 ∧ C i j = true ↔
  O j ∧ ev_type events i = ev_type events j ∧ ev_write events j = w ∧ C i j = true.
Proof.
  intros [Ho He] HO n. pose proof (Hserial i) as Hn. fold n in Hn. unfold WINDOW in *.
  rewrite u64_small by (unfold is_u64; lia). rewrite list_elem_of_fmap. split.
  - intros [(y & -> & Hy) HCi].
    assert (y ∈ s) as Hin.
    { apply elem_while_le in Hy as [Hy _]; [|by apply from_lower_ordered]. by apply elem_from_lower in Hy as [Hy _]. }
    apply He in Hin as (? & Hk & ? & ?). unfold key_of in Hk. by simplify_eq.
  - intros (HOj & Ht & Hw & HCi). split; [|done]. destruct (HC _ _ HCi) as [Hp Hd]. exists (ev_serial j, j). split; [done|].
    destruct (HO j HOj) as (e & Hj & _). pose proof (at_index_in _ _ _ Hj). apply elem_window; [done|simpl; lia|].
    split; [apply He; simpl; unfold key_of; by rewrite Ht, Hp|]. simpl. pose proof (Hserial j). unfold n in *.
    destruct (Z.ltb_spec 16 (ev_serial i)); lia.
Qed.

Lemma open_more O i j : key_of j ≠ key_of i → O j ↔ O j ∨ j = i.
Proof. intros Hj. split; [by left|]. intros [?| ->]; done. Qed.

Lemma window_start s O F i :
  window_repr s O F → live events i → ¬ O i → (∀ j, O j → live events j) →
  ∃ s', window_step c check s (start_of (first_byte events) i) = Some s' ∧
    window_repr s' (λ j, O j ∨ j = i) (λ a b, F a b ∨ (a = i ∧ O b ∧ racing events C i b)).
Proof.
  intros (HW & HR & HF) Hi HOi HO. pose proof (valid_live _ _ Hi) as Hv. destruct Hi as (e & Hei & _).
  unfold window_step. cbn [m_eventIdx m_isStart start_of]. fold events. rewrite Hei. cbn [mbind option_bind].
  assert ((EffMemType e, PipeType_code (pipe e)) = key_of i) as -> by (unfold key_of, ev_type, ev_pipe; by rewrite Hei).
  assert (pipeSerialNo e = ev_serial i) as -> by (unfold ev_serial; by rewrite Hei).
  assert (ev_write events i = bool_decide (EffOpType e = WRITE)) as Hw by (unfold ev_write; by rewrite Hei). rewrite <- Hw.
  set (ws := default [] (wSet s !! key_of i)). set (rs := default [] (rSet s !! key_of i)).
  set (win := λ l, while_le (u64 (ev_serial i + WINDOW)) (from_lower (if WINDOW <? ev_serial i then ev_serial i - WINDOW else 0, 0) l)).
  pose proof (HW (key_of i)) as Ews. pose proof (HR (key_of i)) as Ers. fold ws in Ews. fold rs in Ers.
  assert (∀ w l, entries_of O w (key_of i) l → ∀ y, y ∈ win l → valid events y.2) as Hval.
  { intros w l [Ho He] y Hy. unfold win in Hy. apply elem_while_le in Hy as [Hy _]; [|by apply from_lower_ordered].
    apply elem_from_lower in Hy as [Hy _]; [|done]. apply He in Hy as (? & _). by apply valid_live, HO. }
  destruct (check_window_spec events check C Hcheck (win ws) (mkIdxInfo i 0) (mkIdxInfo 0 0) (wraces s))
    as (i1 & i2 & f1 & E1 & Ei1 & Hf1); [done|by eapply Hval|]. fold (win ws). rewrite E1. cbn [mbind option_bind eventIdx] in *.
  destruct (check_window_spec events check C Hcheck (win rs) i1 i2 f1)
    as (i3 & i4 & f2 & E2 & _ & Hf2); [by rewrite Ei1|by eapply Hval|]. fold (win rs). rewrite E2. rewrite Ei1 in Hf2.
  assert (∀ a b, (a, b) ∈ reported (if ev_write events i then f2 else f1) ↔ F a b ∨ (a = i ∧ O b ∧ racing events C i b)) as Hfound.
  { pose proof (λ j, window_cover O true i ws j Ews HO) as Kw. pose proof (λ j, window_cover O false i rs j Ers HO) as Kr.
    cbn zeta in Kw, Kr. fold (win ws) in Kw. fold (win rs) in Kr. intros a b. unfold racing. specialize (Kw b). specialize (Kr b).
    rewrite <- HF. destruct (ev_write events i); [rewrite Hf2|]; rewrite Hf1; clear - Kw Kr.
    - split; [intros [[?|(-> & K)]|(-> & K)]|intros [?|(-> & ? & ? & _ & ?)]]; auto; try (apply Kw in K || apply Kr in K; tauto).
      destruct (ev_write events b); tauto.
    - split; [intros [?|(-> & K)]|intros [?|(-> & ? & ? & [?|?] & ?)]]; auto; try done; [apply Kw in K; tauto|tauto]. }
  destruct (ev_write events i) eqn:Ewi; cbn [mbind option_bind]; eexists; (split; [reflexivity|]); (split; [|split; [|done] ]).
  all: try (eapply sets_set; [done|by apply entries_insert|by apply open_more]).
  all: eapply sets_set; [done|apply entries_keep; [done|right; by rewrite Ewi]|by apply open_more].
Qed.

Lemma window_end s O F i :
  window_repr s O F → live events i → O i →
  ∃ s', window_step c check s (end_of (past_byte events) i) = Some s' ∧ window_repr s' (λ j, O j ∧ j ≠ i) F.
Proof.
  intros (HW & HR & HF) (e & Hei & _) HOi.
  unfold window_step. cbn [m_eventIdx m_isStart end_of]. fold events. rewrite Hei. cbn [mbind option_bind].
  assert ((EffMemType e, PipeType_code (pipe e)) = key_of i) as -> by (unfold key_of, ev_type, ev_pipe; by rewrite Hei).
  assert (pipeSerialNo e = ev_serial i) as -> by (unfold ev_serial; by rewrite Hei).
  eexists. split; [reflexivity|]. split; [|split; [|done] ].
  all: eapply sets_set; [done|by apply entries_erase|].
  all: intros j Hj; split; [intros HOj; split; [done|by intros ->]|by intros [? _] ].
Qed.

Lemma ScanSinglePipeWindow_spec ms :
  events_ok events → is_points (live events) (first_byte events) (past_byte events) ms →
  ∃ r, ScanSinglePipeWindow c check ms = Some r ∧ ∀ i j, (i, j) ∈ reported r ↔ pairs_of c C i j.
Proof.
  intros Hok Hms. unfold ScanSinglePipeWindow.
  destruct (scan_abstract_all (live events) (first_byte events) (past_byte events) (racing events C)
    (window_step c check) window_repr) with (ms := ms) (s := mkWindow ∅ ∅ []) as (s' & -> & _ & _ & HF).
  - intros i. by apply live_range.
  - apply window_ext.
  - apply window_start.
  - apply window_end.
  - done.
  - apply window_new.
  - cbn [mbind option_bind]. eexists. split; [reflexivity|]. done.
Qed.
End window.
