(* ===== verification/FastProofs.v ===== *)
(** The scan of one block inlines the comparison, keeps its open events in
    buckets with constant-time removal, and reports the pairs of the generic
    scan. *)
From stdpp Require Import base numbers option gmap sets sorting list.
From S2P Require Import Prelude.
From S2P Require Import RecordDefs.
From S2P Require Import Platform.
From S2P Require Import EventDef.
From S2P Require Import VectorTime.
From S2P Require Import EventContainer.
From S2P Require Import PipelineReplayer.
From S2P Require Import MemEventChecker.
From S2P Require Import Scanline.
From S2P Require Import RadixProofs.
From S2P Require Import ScanProofs.
From S2P Require Import WindowProofs.
Import Race Overlap Checker Scan.

(** ** Removal by moving the last element *)

Lemma swap_pop (b : list Z) p cur moved :
  NoDup b → b !! p = Some cur → last b = Some moved →
  let b' := removelast (<[p := moved]> b) in
  NoDup b' ∧ (∀ j, j ∈ b' ↔ j ∈ b ∧ j ≠ cur) ∧
  ∀ k j, b' !! k = Some j → (j = moved ∧ k = p) ∨ (j ≠ moved ∧ b !! k = Some j).
Proof.
  intros Hnd Hp Hlast. apply last_Some in Hlast as [l ->]. pose proof (lookup_lt_Some _ _ _ Hp) as Hlt.
  rewrite length_app in Hlt. simpl in Hlt. apply NoDup_app in Hnd as (Hl & Hdis & _).
  assert (moved ∉ l) as Hm by (intros ?; by apply (Hdis moved); [|set_solver]).
  destruct (decide (p < length l)%nat) as [Hpl|Hpl]; cbn zeta.
  - rewrite insert_app_l by done. rewrite removelast_last. rewrite lookup_app_l in Hp by done.
    assert (∀ k j, <[p:=moved]> l !! k = Some j → (j = moved ∧ k = p) ∨ (j ≠ moved ∧ k ≠ p ∧ l !! k = Some j)) as Hk.
    { intros k j Hkj. apply list_lookup_insert_Some in Hkj as [(-> & -> & _)|[Hne Hkj] ]; [by left|right].
      split; [|done]. intros ->. destruct Hm. by eapply list_elem_of_lookup_2. }
    split; [|split].
    + apply NoDup_alt. intros k k' j H1 H2. apply Hk in H1, H2. rewrite NoDup_alt in Hl. naive_solver.
    + intros j. rewrite elem_of_app, list_elem_of_singleton. split.
      * intros [k Hkj]%list_elem_of_lookup. apply Hk in Hkj as [[-> ->]|(Hj & Hkp & Hkj)].
        -- split; [by right|]. intros ->. destruct Hm. by eapply list_elem_of_lookup_2.
        -- split; [left; by eapply list_elem_of_lookup_2|]. intros ->. destruct Hkp. by eapply NoDup_lookup.
      * intros [[[k Hkj]%list_elem_of_lookup| ->] Hj]; apply list_elem_of_lookup.
        -- exists k. rewrite list_lookup_insert_ne; [done|]. intros ->. congruence.
        -- exists p. by apply list_lookup_insert_eq.
    + intros k j Hkj. apply Hk in Hkj as [?|(? & ? & Hkj)]; [by left|right]. split; [done|]. by apply lookup_app_l_Some.
  - assert (p = length l) as -> by lia. rewrite list_lookup_middle in Hp by done. simplify_eq.
    rewrite insert_app_r_alt, Nat.sub_diag by lia. simpl. rewrite removelast_last. split; [done|]. split.
    + intros j. rewrite elem_of_app, list_elem_of_singleton. split; [|tauto]. intros Hj. split; [by left|]. by intros ->.
    + intros k j Hkj. right. split; [|by apply lookup_app_l_Some]. intros ->. destruct Hm. by eapply list_elem_of_lookup_2.
Qed.

(** ** The tables *)

Definition table_dims (t : table) : Prop := length t = kMemTypeCount ∧ ∀ mt row, at_index t mt = Some row → length row = 12%nat.

Lemma bucket_some t mt q : table_dims t → 0 <= mt < 10 → 0 <= q < 12 → ∃ b, bucket_at t mt q = Some b.
Proof.
  intros [Hl Hr] Hmt Hq. unfold bucket_at. destruct (at_index_some t mt) as [row Er]; [rewrite Hl; unfold kMemTypeCount; lia|].
  rewrite Er. cbn [mbind option_bind]. apply at_index_some. rewrite (Hr _ _ Er). lia.
Qed.

Lemma set_bucket_some t mt q b b' :
  table_dims t → bucket_at t mt q = Some b →
  ∃ t', set_bucket t mt q b' = Some t' ∧ table_dims t' ∧
    ∀ mt2 q2, bucket_at t' mt2 q2 = if (mt2 =? mt) && (q2 =? q) then Some b' else bucket_at t mt2 q2.
Proof.
  intros [Hl Hr] Hb. unfold bucket_at, set_bucket in *. destruct (at_index t mt) as [row|] eqn:Er; [|done].
  cbn [mbind option_bind] in *. rewrite Hb. cbn [mbind option_bind]. eexists. split; [reflexivity|].
  split; [split; [unfold set_index; by rewrite length_insert|]|].
  - intros mt2 row2 E2. rewrite (at_set_index _ _ _ _ _ Er) in E2. destruct (mt2 =? mt); [|by eapply Hr].
    simplify_eq. unfold set_index. rewrite length_insert. by eapply Hr.
  - intros mt2 q2. rewrite (at_set_index _ _ _ _ _ Er). destruct (Z.eqb_spec mt2 mt) as [->|]; cbn [andb mbind option_bind]; [|done].
    rewrite (at_set_index _ _ _ _ _ Hb), Er. by destruct (q2 =? q).
Qed.

Lemma own_times_at c events ts i e :
  own_times c events = Some ts → at_index events i = Some e →
  ∃ t, VT.Get (vt e) (pipe_idx c e) = Some t ∧ at_index ts i = Some t.
Proof.
  unfold at_index. destruct (0 <=? i); [|done]. generalize (Z.to_nat i). intros n. clear i. revert ts n.
  induction events as [|x events IH]; intros ts n Hts Hn; [done|]. cbn [own_times] in Hts.
  destruct (VT.Get (vt x) (pipe_idx c x)) as [t|] eqn:Et; [|done]. destruct (own_times c events) as [ts'|]; [|done].
  cbn [mbind option_bind] in Hts. simplify_eq. destruct n as [|n]; simpl in *; [simplify_eq; eauto|]. by apply IH.
Qed.

Lemma PipeType_code_inj p q : PipeType_code p = PipeType_code q → p = q.
Proof. destruct p, q; simpl; lia || done. Qed.
Lemma PipeType_code_range p : p ≠ PIPE_SIZE → 0 <= PipeType_code p < 12.
Proof. destruct p; simpl; lia || done. Qed.

Section fast.
Context (c : MemEventChecker) (C : Z → Z → bool) (ts : list Z).
Let events := events_ c.
Let pidx := pipe_idx c <$> events.

Context (Hcheck : decides events (IsInnerCoreRaceEvent c) C).
Context (Hown : own_times c events = Some ts).
Context (Hpipes : Forall (λ e, pipe e ≠ PIPE_SIZE) events).

Lemma at_pidx i e : at_index events i = Some e → at_index pidx i = Some (pipe_idx c e).
Proof. unfold pidx, at_index. destruct (0 <=? i); [|done]. rewrite list_lookup_fmap. by intros ->. Qed.

Lemma decides_pipe i j : valid events i → valid events j → C i j = true → ev_pipe c i ≠ ev_pipe c j.
Proof.
  intros [ei Hi] [ej Hj] HC. unfold ev_pipe. fold events. rewrite Hi, Hj. simpl. intros E%PipeType_code_inj.
  destruct (Hcheck (mkIdxInfo i 0) (mkIdxInfo j 0)) as (i1 & i2 & E' & _); [by exists ei|by exists ej|].
  unfold IsInnerCoreRaceEvent, event_at in E'. cbn [eventIdx] in E'. fold events in E'. rewrite Hi, Hj in E'.
  cbn [mbind option_bind] in E'. rewrite bool_decide_eq_true_2 in E' by done. congruence.
Qed.

Lemma check_bucket_spec cur ce a1 b found :
  at_index events cur = Some ce → at_index ts cur = Some a1 →
  (∀ j, j ∈ b → valid events j ∧ ev_pipe c j ≠ ev_pipe c cur) →
  ∃ found', check_bucket c pidx ts cur ce (pipe_idx c ce) a1 b found = Some found' ∧
    ∀ x y, (x, y) ∈ reported found' ↔ (x, y) ∈ reported found ∨ (x = cur ∧ y ∈ b ∧ C x y = true).
Proof.
  intros Hcur Ha1. revert found. induction b as [|h b IH]; intros found Hb; cbn [check_bucket].
  { exists found. split; [done|]. set_solver. }
  destruct (Hb h) as [Hv Hp]; [set_solver|]. pose proof Hv as [he Hh]. fold events. rewrite Hh. cbn [mbind option_bind].
  rewrite (at_pidx _ _ Hh). cbn [mbind option_bind]. destruct (own_times_at _ _ _ _ _ Hown Hh) as (t & Et & ->).
  cbn [mbind option_bind]. destruct (own_times_at _ _ _ _ _ Hown Hcur) as (t' & Et' & E'). rewrite Ha1 in E'. simplify_eq.
  destruct (Hcheck (mkIdxInfo cur 0) (mkIdxInfo h 0)) as (i1 & i2 & E & E1 & E2); [by exists ce|done|].
  unfold IsInnerCoreRaceEvent, event_at in E. cbn [eventIdx] in *. fold events in E. rewrite Hcur, Hh in E.
  cbn [mbind option_bind] in E. rewrite bool_decide_eq_false_2 in E.
  2: { intros Ep. apply Hp. unfold ev_pipe. fold events. rewrite Hcur, Hh. simpl. by rewrite Ep. }
  cbn zeta in E. fold (pipe_idx c ce) (pipe_idx c he) in E. rewrite Et, Et' in E. cbn [mbind option_bind] in E.
  destruct (IsInnerCoreRaceCandidate ce he (pipe_idx c ce) t' (pipe_idx c he) t) as [cand|] eqn:Ec; [|done].
  cbn [mbind option_bind] in E |- *.
  assert (∀ j, j ∈ b → valid events j ∧ ev_pipe c j ≠ ev_pipe c cur) as Hb' by (intros j Hj; apply Hb; set_solver).
  assert (∃ f, (if negb cand then check_bucket c pidx ts cur ce (pipe_idx c ce) t' b found
      else r ← IsMemSpaceOverlap ce he (mkIdxInfo cur 0) (mkIdxInfo h 0);
        let '(b0, i1, i2) := r in
        check_bucket c pidx ts cur ce (pipe_idx c ce) t' b (if b0 : bool then found ++ [(i1, i2)] else found)) =
      check_bucket c pidx ts cur ce (pipe_idx c ce) t' b f ∧
      ∀ x y, (x, y) ∈ reported f ↔ (x, y) ∈ reported found ∨ (x = cur ∧ y = h ∧ C x y = true)) as (f & -> & Hf).
  { destruct cand; cbn [negb] in *.
    - rewrite E. cbn [mbind option_bind]. eexists. split; [reflexivity|]. intros x y.
      destruct (C cur h) eqn:ECc; [rewrite reported_snoc, E1, E2|].
      + split; [intros [?|[-> ->] ]; tauto|tauto].
      + split; [tauto|]. intros [?|(-> & -> & ?)]; [done|congruence].
    - eexists. split; [reflexivity|]. injection E as ECc _ _. intros x y. split; [tauto|].
      intros [?|(-> & -> & ?)]; [done|congruence]. }
  destruct (IH f Hb') as (found' & -> & Hf'). exists found'. split; [done|]. intros x y.
  rewrite Hf', Hf, elem_of_cons. clear. tauto.
Qed.

Lemma check_slots_spec cur ce a1 slots mt qs found :
  at_index events cur = Some ce → at_index ts cur = Some a1 → table_dims slots → 0 <= mt < 10 →
  (∀ q, q ∈ qs → 0 <= q < 12) →
  (∀ q b j, bucket_at slots mt q = Some b → j ∈ b → valid events j ∧ ev_pipe c j = q) →
  ∃ found', check_slots c pidx ts cur ce (pipe_idx c ce) a1 (ev_pipe c cur) slots mt qs found = Some found' ∧
    ∀ x y, (x, y) ∈ reported found' ↔ (x, y) ∈ reported found ∨
      (x = cur ∧ (∃ q b, q ∈ qs ∧ q ≠ ev_pipe c cur ∧ bucket_at slots mt q = Some b ∧ y ∈ b) ∧ C x y = true).
Proof.
  intros Hcur Ha1 Hdim Hmt Hq Hs. revert found Hq. induction qs as [|q qs IH]; intros found Hq; cbn [check_slots].
  { exists found. split; [done|]. intros x y. split; [tauto|]. intros [?|(_ & (q & b & ?%elem_of_nil & _) & _)]; done. }
  assert (∀ q, q ∈ qs → 0 <= q < 12) as Hq' by (intros; apply Hq; set_solver).
  destruct (Z.eqb_spec q (ev_pipe c cur)) as [->|Hne].
  - destruct (IH found Hq') as (found' & -> & Hf). exists found'. split; [done|]. intros x y. rewrite Hf.
    apply or_iff_compat_l, and_iff_compat_l, and_iff_compat_r. setoid_rewrite elem_of_cons. clear. naive_solver.
  - destruct (bucket_some slots mt q Hdim Hmt) as [b Eb]; [apply Hq; set_solver|]. rewrite Eb. cbn [mbind option_bind].
    destruct (check_bucket_spec cur ce a1 b found Hcur Ha1) as (f1 & -> & Hf1).
    { intros j Hj. destruct (Hs q b j Eb Hj) as [? ->]. done. }
    cbn [mbind option_bind]. destruct (IH f1 Hq') as (found' & -> & Hf). exists found'. split; [done|]. intros x y.
    rewrite Hf, Hf1. setoid_rewrite elem_of_cons. clear - Eb Hne. split.
    + intros [[?|(-> & ? & ?)]|(-> & (q' & b' & ?) & ?)]; [by left|right; eauto 10|right; naive_solver].
    + intros [?|(-> & (q' & b' & [->|?] & ? & E & ?) & ?)]; [tauto| |right; eauto 10].
      rewrite Eb in E. simplify_eq. tauto.
Qed.

(** Each bucket holds the open events of its type and pipe, and every event
    knows its position. *)
Definition buckets_of (O : Z → Prop) (w : bool) (t : table) (pos : list Z) : Prop :=
  table_dims t ∧ ∀ mt q b, bucket_at t mt q = Some b →
    NoDup b ∧ (∀ j, j ∈ b ↔ O j ∧ ev_type events j = mt ∧ ev_pipe c j = q ∧ ev_write events j = w) ∧
    ∀ k j, b !! k = Some j → at_index pos j = Some (Z.of_nat k).

Definition fast_repr (s : FastState) (O : Z → Prop) (F : Z → Z → Prop) : Prop :=
  buckets_of O true (wB s) (posInBucket s) ∧ buckets_of O false (rB s) (posInBucket s) ∧
  length (posInBucket s) = length events ∧ (∀ j, O j → valid events j) ∧ ∀ a b, (a, b) ∈ reported (fraces s) ↔ F a b.

Lemma fast_ext s O F O' F' :
  fast_repr s O F → (∀ i, O i ↔ O' i) → (∀ i j, F i j ↔ F' i j) → fast_repr s O' F'.
Proof.
  intros ([HWl HW] & [HRl HR] & Hp & Hv & HF) HO HFF. split; [|split; [|split; [done|split] ] ].
  - split; [done|]. intros mt q b Hb. destruct (HW _ _ _ Hb) as (? & He & ?). split; [done|]. split; [|done].
    intros j. by rewrite He, HO.
  - split; [done|]. intros mt q b Hb. destruct (HR _ _ _ Hb) as (? & He & ?). split; [done|]. split; [|done].
    intros j. by rewrite He, HO.
  - intros j Hj. by apply Hv, HO.
  - intros a b. by rewrite HF, HFF.
Qed.

Lemma fast_new : fast_repr (mkFast new_table new_table (replicate (length events) 0) []) (λ _, False) (λ _ _, False).
Proof.
  assert (∀ mt row, at_index new_table mt = Some row → row = replicate 12 []) as Hrow.
  { intros mt row Hr. unfold at_index in Hr. destruct (0 <=? mt); [|done]. by apply lookup_replicate in Hr as [-> _]. }
  assert (∀ w pos, buckets_of (λ _, False) w new_table pos) as H.
  { intros w pos. split; [split; [done|by intros mt row ->%Hrow]|]. intros mt q b Hb. unfold bucket_at in Hb.
    destruct (at_index new_table mt) as [row|] eqn:Er; [|done]. cbn [mbind option_bind] in Hb. rewrite (Hrow _ _ Er) in Hb.
    unfold at_index in Hb. destruct (0 <=? q); [|done]. apply lookup_replicate in Hb as [-> _].
    split; [constructor|]. split; [set_solver|]. intros k j Hk. by rewrite lookup_nil in Hk. }
  split; [apply H|]. split; [apply H|]. split; [apply length_replicate|]. split; [done|]. set_solver.
Qed.

(** An event with position [p] added or moved. *)
Lemma buckets_other O O' w t pos i p n0 :
  buckets_of O w t pos → at_index pos i = Some n0 → (∀ j, ev_write events j = w → O j ↔ O' j) →
  (O i → ev_write events i ≠ w) → buckets_of O' w t (set_index pos i p).
Proof.
  intros [Hd Ht] Hi HO Hw. split; [done|]. intros mt q b Hb. destruct (Ht _ _ _ Hb) as (Hnd & Hj & Hk). split; [done|].
  split; [intros j; rewrite Hj; split; intros (? & ? & ? & ?); (split; [by apply HO|done])|].
  intros k j Hkj. rewrite (at_set_index _ _ _ _ _ Hi). destruct (Z.eqb_spec j i) as [->|]; [|by apply Hk].
  apply list_elem_of_lookup_2, Hj in Hkj as (? & _ & _ & ?). by destruct Hw.
Qed.

Lemma buckets_push O w t pos i b n0 :
  buckets_of O w t pos → at_index pos i = Some n0 → ¬ O i → ev_write events i = w →
  bucket_at t (ev_type events i) (ev_pipe c i) = Some b →
  ∃ t', set_bucket t (ev_type events i) (ev_pipe c i) (b ++ [i]) = Some t' ∧
    buckets_of (λ j, O j ∨ j = i) w t' (set_index pos i (Z.of_nat (length b))).
Proof.
  intros [Hd Ht] Hi HO Hw Hb. destruct (set_bucket_some _ _ _ _ (b ++ [i]) Hd Hb) as (t' & E & Hd' & Ht'). exists t'.
  split; [done|]. split; [done|]. intros mt q b2 Hb2. rewrite Ht' in Hb2.
  destruct (Ht _ _ _ Hb) as (Hnd & Hj & Hk). assert (i ∉ b) as Hib by (by intros (? & _)%Hj).
  destruct ((mt =? ev_type events i) && (q =? ev_pipe c i)) eqn:Eq.
  - apply andb_true_iff in Eq as [->%Z.eqb_eq ->%Z.eqb_eq]. simplify_eq. split; [|split].
    + apply NoDup_app. split; [done|]. split; [set_solver|apply NoDup_singleton].
    + intros j. rewrite elem_of_app, Hj, list_elem_of_singleton. split; [intros [?| ->]; tauto|]. intros ([?| ->] & ?); tauto.
    + intros k j Hkj. rewrite (at_set_index _ _ _ _ _ Hi). apply lookup_snoc_Some in Hkj as [[_ Hkj]|[-> <-] ].
      * destruct (Z.eqb_spec j i) as [->|]; [|by apply Hk]. by apply list_elem_of_lookup_2 in Hkj.
      * by rewrite Z.eqb_refl.
  - destruct (Ht _ _ _ Hb2) as (Hnd2 & Hj2 & Hk2). split; [done|]. split.
    + intros j. rewrite Hj2. split; [tauto|]. intros ([?| ->] & <- & <- & ?); [tauto|]. by rewrite !Z.eqb_refl in Eq.
    + intros k j Hkj. rewrite (at_set_index _ _ _ _ _ Hi). destruct (Z.eqb_spec j i) as [->|]; [|by apply Hk2].
      by apply list_elem_of_lookup_2, Hj2 in Hkj as (? & _).
Qed.

Lemma buckets_pop O w t pos i b moved p n0 :
  buckets_of O w t pos → bucket_at t (ev_type events i) (ev_pipe c i) = Some b → b !! p = Some i → last b = Some moved →
  at_index pos moved = Some n0 →
  ∃ t', set_bucket t (ev_type events i) (ev_pipe c i) (removelast (<[p := moved]> b)) = Some t' ∧
    buckets_of (λ j, O j ∧ j ≠ i) w t' (set_index pos moved (Z.of_nat p)).
Proof.
  intros [Hd Ht] Hb Hp Hlast Hm. destruct (set_bucket_some _ _ _ _ (removelast (<[p := moved]> b)) Hd Hb) as (t' & E & Hd' & Ht').
  exists t'. split; [done|]. split; [done|]. intros mt q b2 Hb2. rewrite Ht' in Hb2.
  destruct (Ht _ _ _ Hb) as (Hnd & Hj & Hk). destruct (swap_pop b p i moved Hnd Hp Hlast) as (Hnd' & Hj' & Hk').
  destruct ((mt =? ev_type events i) && (q =? ev_pipe c i)) eqn:Eq.
  - apply andb_true_iff in Eq as [->%Z.eqb_eq ->%Z.eqb_eq]. simplify_eq. split; [done|]. split.
    + intros j. rewrite Hj', Hj. tauto.
    + intros k j Hkj. rewrite (at_set_index _ _ _ _ _ Hm). apply Hk' in Hkj as [[-> ->]|[Hne Hkj] ]; [by rewrite Z.eqb_refl|].
      rewrite (proj2 (Z.eqb_neq _ _)) by done. by apply Hk.
  - destruct (Ht _ _ _ Hb2) as (Hnd2 & Hj2 & Hk2). split; [done|]. split.
    + intros j. rewrite Hj2. split; [|tauto]. intros (? & <- & <- & ?). split; [|done]. split; [done|]. intros ->.
      by rewrite !Z.eqb_refl in Eq.
    + intros k j Hkj. rewrite (at_set_index _ _ _ _ _ Hm). destruct (Z.eqb_spec j moved) as [->|]; [|by apply Hk2].
      apply list_elem_of_lookup_2, Hj2 in Hkj as (_ & <- & <- & _). apply last_Some in Hlast as [l ->].
      destruct (proj1 (Hj moved)) as (_ & E1 & E2 & _); [set_solver|]. by rewrite E1, E2, !Z.eqb_refl in Eq.
Qed.

Lemma ev_pipe_range i e : at_index events i = Some e → 0 <= ev_pipe c i < 12.
Proof.
  intros Hi. unfold ev_pipe. fold events. rewrite Hi. simpl. apply PipeType_code_range. rewrite Forall_forall in Hpipes.
  apply Hpipes. apply list_elem_of_lookup. exists (Z.to_nat i). apply at_index_lookup.
  pose proof (at_index_in _ _ _ Hi). by rewrite Z2Nat.id by lia.
Qed.

Lemma slots_found O w t pos i b :
  buckets_of O w t pos → (∀ j, O j → valid events j) → valid events i →
  (∃ q b', q ∈ all_pipes ∧ q ≠ ev_pipe c i ∧ bucket_at t (ev_type events i) q = Some b' ∧ b ∈ b') ∧ C i b = true ↔
  O b ∧ ev_type events i = ev_type events b ∧ ev_write events b = w ∧ C i b = true.
Proof.
  intros [Hd Ht] HO Hi. split.
  - intros [(q & b' & _ & _ & Hb & Hin) HC]. apply (Ht _ _ _ Hb) in Hin. naive_solver.
  - intros (HOb & E & Hw & HC). split; [|done]. pose proof (HO b HOb) as Hvb. pose proof Hvb as [e He].
    pose proof (ev_pipe_range b e He) as Hr. exists (ev_pipe c b).
    destruct (bucket_some t (ev_type events i) (ev_pipe c b) Hd) as [b' Eb'].
    { rewrite E. unfold ev_type. rewrite He. apply EffMemType_range. } { done. }
    exists b'. split; [apply elem_of_seqZ; lia|]. split; [by apply not_eq_sym, decides_pipe|].
    split; [done|]. by apply (Ht _ _ _ Eb').
Qed.

Lemma fast_start s O F i :
  fast_repr s O F → live events i → ¬ O i → (∀ j, O j → live events j) →
  ∃ s', fast_step c pidx ts s (start_of (first_byte events) i) = Some s' ∧
    fast_repr s' (λ j, O j ∨ j = i) (λ a b, F a b ∨ (a = i ∧ O b ∧ racing events C i b)).
Proof.
  intros (HW & HR & Hlp & HOv & HF) Hi HOi HO. pose proof (valid_live _ _ Hi) as Hv. destruct Hi as (e & Hei & _).
  unfold fast_step. cbn [m_eventIdx m_isStart start_of negb]. fold events. rewrite Hei. cbn [mbind option_bind].
  pose proof (EffMemType_range e) as Hmt. pose proof (ev_pipe_range _ _ Hei) as Hq.
  assert (ev_type events i = EffMemType e) as Ht by (unfold ev_type; by rewrite Hei).
  assert (ev_pipe c i = PipeType_code (pipe e)) as Hp by (unfold ev_pipe; fold events; by rewrite Hei).
  assert (ev_write events i = bool_decide (EffOpType e = WRITE)) as Hw by (unfold ev_write; by rewrite Hei).
  rewrite <- Hw, <- Hp, <- Ht in *.
  destruct (bucket_some (if ev_write events i then wB s else rB s) (ev_type events i) (ev_pipe c i)) as [b Eb];
    [by destruct (ev_write events i); [apply HW|apply HR]|done|done|]. rewrite Eb. cbn [mbind option_bind].
  rewrite (at_pidx _ _ Hei). cbn [mbind option_bind]. destruct (own_times_at _ _ _ _ _ Hown Hei) as (a1 & _ & Ha1). rewrite Ha1.
  cbn [mbind option_bind].
  assert (∀ q, q ∈ all_pipes → 0 <= q < 12) as Hall by (intros q ?%elem_of_seqZ; lia).
  destruct (check_slots_spec i e a1 (wB s) (ev_type events i) all_pipes (fraces s) Hei Ha1) as (f1 & -> & Hf1);
    [apply HW|done|done|intros q b' j Hb' Hj; apply (proj2 HW _ _ _ Hb') in Hj as (? & ? & ? & ?); auto|].
  cbn [mbind option_bind].
  destruct (check_slots_spec i e a1 (rB s) (ev_type events i) all_pipes f1 Hei Ha1) as (f2 & E2 & Hf2);
    [apply HR|done|done|intros q b' j Hb' Hj; apply (proj2 HR _ _ _ Hb') in Hj as (? & ? & ? & ?); auto|]. rewrite E2.
  assert (∀ a b, (a, b) ∈ reported (if ev_write events i then f2 else f1) ↔ F a b ∨ (a = i ∧ O b ∧ racing events C i b)) as Hfound.
  { intros a d. pose proof (slots_found _ _ _ _ i d HW HOv Hv) as Kw. pose proof (slots_found _ _ _ _ i d HR HOv Hv) as Kr.
    unfold racing. rewrite <- HF. destruct (ev_write events i); [rewrite Hf2|]; rewrite Hf1; clear - Kw Kr.
    - split; [intros [[?|(-> & K)]|(-> & K)]|intros [?|(-> & ? & ? & _ & ?)]]; auto; try (apply Kw in K || apply Kr in K; tauto).
      destruct (ev_write events d); tauto.
    - split; [intros [?|(-> & K)]|intros [?|(-> & ? & ? & [?|?] & ?)]]; auto; try done; [apply Kw in K; tauto|tauto]. }
  destruct (at_index_some (posInBucket s) i) as [n0 En0]; [rewrite Hlp; by eapply at_index_in|].
  assert (∀ j, O j ∨ j = i → valid events j) as HOv' by (intros j [?| ->]; auto).
  assert (length (set_index (posInBucket s) i (Z.of_nat (length b))) = length events) by (unfold set_index; by rewrite length_insert).
  destruct (ev_write events i) eqn:Ewi; cbn [mbind option_bind]; rewrite En0; cbn [mbind option_bind].
  - destruct (buckets_push O true (wB s) (posInBucket s) i b n0) as (t' & -> & Ht'); try done. cbn [mbind option_bind].
    eexists. split; [reflexivity|]. split; [done|]. split; [|done]. eapply buckets_other; [done|done| |done].
    intros j Hj. split; [by left|]. intros [?| ->]; [done|congruence].
  - destruct (buckets_push O false (rB s) (posInBucket s) i b n0) as (t' & -> & Ht'); try done. cbn [mbind option_bind].
    eexists. split; [reflexivity|]. split; [|done]. eapply buckets_other; [done|done| |done].
    intros j Hj. split; [by left|]. intros [?| ->]; [done|congruence].
Qed.

Lemma fast_end s O F i :
  fast_repr s O F → live events i → O i →
  ∃ s', fast_step c pidx ts s (end_of (past_byte events) i) = Some s' ∧ fast_repr s' (λ j, O j ∧ j ≠ i) F.
Proof.
  intros (HW & HR & Hlp & HOv & HF) (e & Hei & _) HOi.
  unfold fast_step. cbn [m_eventIdx m_isStart end_of negb]. fold events. rewrite Hei. cbn [mbind option_bind].
  pose proof (EffMemType_range e) as Hmt. pose proof (ev_pipe_range _ _ Hei) as Hq.
  assert (ev_type events i = EffMemType e) as Ht by (unfold ev_type; by rewrite Hei).
  assert (ev_pipe c i = PipeType_code (pipe e)) as Hp by (unfold ev_pipe; fold events; by rewrite Hei).
  assert (ev_write events i = bool_decide (EffOpType e = WRITE)) as Hw by (unfold ev_write; by rewrite Hei).
  rewrite <- Hw, <- Hp, <- Ht in *.
  assert (buckets_of O (ev_write events i) (if ev_write events i then wB s else rB s) (posInBucket s)) as HB
    by (by destruct (ev_write events i)).
  destruct (bucket_some (if ev_write events i then wB s else rB s) (ev_type events i) (ev_pipe c i)) as [b Eb];
    [apply HB|done|done|]. rewrite Eb. cbn [mbind option_bind].
  destruct (proj2 HB _ _ _ Eb) as (Hnd & Hj & Hk).
  assert (i ∈ b) as [k Hki]%list_elem_of_lookup by (by apply Hj).
  destruct (last b) as [moved|] eqn:El; [|apply last_None in El; subst; by rewrite lookup_nil in Hki].
  pose proof El as El'. rewrite last_lookup in El'. pose proof (Hk _ _ El') as Hpm. rewrite (Hk _ _ Hki). cbn [mbind option_bind].
  rewrite (proj1 (at_index_lookup _ _ _) Hki), Hpm. cbn [mbind option_bind]. cbn beta zeta.
  change (set_index b (Z.of_nat k) moved) with (<[Z.to_nat (Z.of_nat k) := moved]> b). rewrite Nat2Z.id.
  assert (∀ j, O j ∧ j ≠ i → valid events j) as HOv' by (intros j [? _]; auto).
  assert (length (set_index (posInBucket s) moved (Z.of_nat k)) = length events) by (unfold set_index; by rewrite length_insert).
  assert (ev_write events moved = ev_write events i) as Hwm.
  { apply list_elem_of_lookup_2, Hj in El'. tauto. }
  destruct (buckets_pop O (ev_write events i) (if ev_write events i then wB s else rB s) (posInBucket s) i b moved k
    (Z.of_nat (pred (length b)))) as (t' & -> & Ht'); try done. cbn [mbind option_bind].
  destruct (ev_write events i) eqn:Ewi; eexists; (split; [reflexivity|]); cbn.
  - split; [done|]. split; [|done]. eapply buckets_other; [done|done| |congruence].
    intros j Hj'. split; [intros; split; [done|by intros ->; congruence]|tauto].
  - split; [|done]. eapply buckets_other; [done|done| |congruence].
    intros j Hj'. split; [intros; split; [done|by intros ->; congruence]|tauto].
Qed.

Lemma ScanSingleBlockFast_spec ms :
  events_ok events → is_points (live events) (first_byte events) (past_byte events) ms →
  ∃ r, ScanSingleBlockFast c ms = Some r ∧ ∀ i j, (i, j) ∈ reported r ↔ pairs_of c C i j.
Proof.
  intros Hok Hms. unfold ScanSingleBlockFast. fold events. rewrite Hown. cbn [mbind option_bind].
  destruct (scan_abstract_all (live events) (first_byte events) (past_byte events) (racing events C)
    (fast_step c pidx ts) fast_repr) with (ms := ms) (s := mkFast new_table new_table (replicate (length events) 0) [])
    as (s' & E & _ & _ & _ & _ & HF).
  - intros i. by apply live_range.
  - apply fast_ext.
  - apply fast_start.
  - apply fast_end.
  - done.
  - apply fast_new.
  - fold pidx. rewrite E. cbn [mbind option_bind]. eexists. split; [reflexivity|]. done.
Qed.
End fast.
