(* ===== verification/RaceProofs.v ===== *)
(** The comparison functions decide a relation on events, and the scan line
    reports the intersecting pairs in that relation whatever scan it picks. *)
From stdpp Require Import base numbers option gmap sets strings sorting list.
From S2P Require Import Prelude.
From S2P Require Import RecordDefs.
From S2P Require Import Platform.
From S2P Require Import EventDef.
From S2P Require Import ConvertProofs.
From S2P Require Import VectorTime.
From S2P Require Import VectorTimeProofs.
From S2P Require Import EventContainer.
From S2P Require Import PipelineReplayer.
From S2P Require Import MemSeries.
From S2P Require Import MemSeriesProofs.
From S2P Require Import MemEventChecker.
From S2P Require Import Scanline.
From S2P Require Import RadixProofs.
From S2P Require Import ScanProofs.
From S2P Require Import WindowProofs.
From S2P Require Import FastProofs.
Import Race Overlap Checker Scan.

(** ** Verdicts that depend on the events alone *)

(** A comparison that gives [b] and keeps the event indices. *)
Definition gives (r : option verdict) (b : bool) (i1 i2 : EventIdxInfo) : Prop :=
  ∃ i1' i2', r = Some (b, i1', i2') ∧ eventIdx i1' = eventIdx i1 ∧ eventIdx i2' = eventIdx i2.

Lemma gives_refl b i1 i2 : gives (Some (b, i1, i2)) b i1 i2.
Proof. by exists i1, i2. Qed.

Lemma dyn_dyn_gives fuel l1 l2 e :
  ∃ b, ∀ j1 j2, gives (Some (dyn_dyn_loop fuel l1 l2 e j1 j2)) b j1 j2.
Proof.
  revert l1 l2 e. induction fuel as [|fuel IH]; intros l1 l2 e; cbn [dyn_dyn_loop].
  { exists e. apply gives_refl. }
  destruct l1 as [|r1 l1]; [exists e; apply gives_refl|]. destruct l2 as [|r2 l2]; [exists e; apply gives_refl|]. cbn zeta.
  set (hit := (_ <? _) && (_ <? _) && negb _).
  destruct (hit && negb (loc_pc (smr_location (record r1)) =? loc_pc (smr_location (record r2)))).
  { exists true. intros j1 j2. unfold gives. destruct hit; eexists _, _; split; reflexivity || done. }
  destruct (rec_end r1 <? rec_end r2); [|destruct (rec_end r1 =? rec_end r2)].
  all: match goal with |- ∃ b, ∀ j1 j2, gives (Some (dyn_dyn_loop _ ?a ?b' ?e' _ _)) _ _ _ => destruct (IH a b' e') as [b Hb] end.
  all: exists b; intros j1 j2;
    match goal with |- gives (Some (dyn_dyn_loop _ _ _ _ ?x ?y)) _ _ _ => destruct (Hb x y) as (k1 & k2 & -> & E1 & E2) end.
  all: exists k1, k2; rewrite E1, E2; destruct hit; done.
Qed.

Lemma mem_dyn_gives fuel rd l1 l2 :
  ∃ b, ∀ i2, (mem_dyn_loop fuel rd l1 l2 i2).1 = b ∧ eventIdx (mem_dyn_loop fuel rd l1 l2 i2).2 = eventIdx i2.
Proof.
  revert l1 l2. induction fuel as [|fuel IH]; intros l1 l2; cbn [mem_dyn_loop]; [by exists false|].
  destruct l1 as [|[s1 e1] l1]; [by exists false|]. destruct l2 as [|r2 l2]; [by exists false|].
  destruct ((_ <? _) && (_ <? _) && negb _); [by exists true|]. destruct (e1 <? rec_end r2); [apply IH|].
  destruct (e1 =? rec_end r2); apply IH.
Qed.

(** What a static event must satisfy for its intervals to be walked. *)
Definition walkable (e : MemEvent) : Prop := isDynamic e = false → op_fits (memInfo e).

Lemma space_gives e1 e2 :
  walkable e1 → walkable e2 → ∃ b, ∀ i1 i2, gives (IsMemSpaceOverlap e1 e2 i1 i2) b i1 i2.
Proof.
  unfold walkable, IsMemSpaceOverlap. intros H1 H2. destruct (isDynamic e1), (isDynamic e2).
  - unfold IsMemoryOverlap_dyn. destruct (has_records _ && has_records _); [|exists false; apply gives_refl].
    apply dyn_dyn_gives.
  - unfold IsMemoryOverlap_mem_dyn. destruct (has_records _); [|exists false; apply gives_refl]. cbn zeta.
    match goal with |- context [mem_dyn_loop ?f ?r ?l1 ?l2 _] => destruct (mem_dyn_gives f r l1 l2) as [b Hb] end. exists b. intros i1 i2. specialize (Hb i1). unfold gives.
    destruct (mem_dyn_loop _ _ _ _ _) as [b' j]. cbn in Hb. destruct Hb as [-> E]. eauto.
  - unfold IsMemoryOverlap_mem_dyn. destruct (has_records _); [|exists false; apply gives_refl]. cbn zeta.
    match goal with |- context [mem_dyn_loop ?f ?r ?l1 ?l2 _] => destruct (mem_dyn_gives f r l1 l2) as [b Hb] end. exists b. intros i1 i2. specialize (Hb i2). unfold gives.
    destruct (mem_dyn_loop _ _ _ _ _) as [b' j]. cbn in Hb. destruct Hb as [-> E]. eauto.
  - destruct (memory_overlap_spec (memInfo e1) (memInfo e2)) as (b & -> & _); [by apply H1|by apply H2|].
    cbn [mbind option_bind]. exists b. apply gives_refl.
Qed.

(** The verdict on two events by their indices. *)
Definition verdict_of (check : EventIdxInfo → EventIdxInfo → option verdict) (i j : Z) : bool :=
  default false ((λ r : verdict, r.1.1) <$> check (mkIdxInfo i 0) (mkIdxInfo j 0)).

Definition uniform (events : list MemEvent) (check : EventIdxInfo → EventIdxInfo → option verdict) : Prop :=
  ∀ i j, valid events i → valid events j →
    ∃ b, ∀ i1 i2, eventIdx i1 = i → eventIdx i2 = j → gives (check i1 i2) b i1 i2.

Lemma uniform_decides events check : uniform events check → decides events check (verdict_of check).
Proof.
  intros H i1 i2 H1 H2. destruct (H _ _ H1 H2) as [b Hb].
  destruct (Hb (mkIdxInfo (eventIdx i1) 0) (mkIdxInfo (eventIdx i2) 0)) as (j1 & j2 & E & _); [done|done|].
  destruct (Hb i1 i2 eq_refl eq_refl) as (k1 & k2 & E' & Hk). exists k1, k2. unfold verdict_of. rewrite E. done.
Qed.

Section uniform.
Context (c : MemEventChecker) (kernels : KernelManager.KernelManager).

(** The events can be compared. *)
Definition comparable : Prop := Forall (λ e, walkable e ∧ wf (vt e)) (events_ c).
Context (Hcmp : comparable).

Lemma comparable_at i e : at_index (events_ c) i = Some e → walkable e ∧ wf (vt e).
Proof.
  intros Hi. unfold comparable in Hcmp. rewrite Forall_forall in Hcmp. apply Hcmp. pose proof (at_index_in _ _ _ Hi).
  apply list_elem_of_lookup. exists (Z.to_nat i). apply at_index_lookup. by rewrite Z2Nat.id by lia.
Qed.

(** Neither event has seen the other's time on its pipe. *)
Definition concurrent (t1 : VT.VectorTime) (q1 : Z) (t2 : VT.VectorTime) (q2 : Z) : bool :=
  VectorClock.IsNotHappensBefore4 (time t1 q1) (time t2 q1) (time t1 q2) (time t2 q2).

Definition block_pipe (ct : RaceCheckType) (e : MemEvent) : Z := GetPipeIdxByMemEvent ct e (kernelType_ c) (deviceType_ c).

Definition same_kernel (e1 e2 : MemEvent) : bool :=
  match KernelManager.Get (deviceId (loc e1)) (kernelIdx (loc e1)) kernels,
        KernelManager.Get (deviceId (loc e2)) (kernelIdx (loc e2)) kernels with
  | Some k1, Some k2 => bool_decide (KernelManager.kernelName k1 = KernelManager.kernelName k2)
  | _, _ => false
  end.

(** The events may run in either order, and that order matters. *)
Definition unordered (ct : RaceCheckType) (e1 e2 : MemEvent) : bool :=
  match ct with
  | SINGLE_BLOCK_CHECK =>
      negb (bool_decide (pipe e1 = pipe e2)) && concurrent (vt e1) (block_pipe ct e1) (vt e2) (block_pipe ct e2) &&
      negb (IsAtomicAgainst e1 e2)
  | SINGLE_PIPE_CHECK =>
      bool_decide (memType (memInfo e1) = memType (memInfo e2)) && bool_decide (pipe e1 = pipe e2) &&
      negb (serialNo e1 =? serialNo e2) && negb (IsAtomicAgainst e1 e2) && (serial_diff e1 e2 <=? 16) &&
      (barrierNo e1 =? barrierNo e2) && negb (IsMatmulAccumOrderedByHardware e1 e2) &&
      (closedRingStartSerialNo e2 <? serialNo e1) && (closedRingStartSerialNo e1 <? serialNo e2)
  | CROSS_BLOCK_CHECK =>
      NeedCrossCoreCheck (deviceType_ c) e1 e2 &&
      concurrent (vt e1) (block_pipe ct e1) (vt e2) (block_pipe ct e2) && negb (IsAtomicAgainst e1 e2)
  | CROSS_NPU_CHECK =>
      negb (deviceId (loc e1) =? deviceId (loc e2)) &&
      concurrent (vt e1) (GetExpandPipeIdx e1 (blockNum_ c)) (vt e2) (GetExpandPipeIdx e2 (blockNum_ c)) && same_kernel e1 e2
  end.

Lemma concurrent_eq t1 q1 t2 q2 : (time t1 q1 =? time t2 q1) = true → concurrent t1 q1 t2 q2 = false.
Proof. unfold concurrent, VectorClock.IsNotHappensBefore4. by intros ->. Qed.

Lemma IsNotHappensBefore_concurrent t1 t2 q1 q2 :
  wf t1 → wf t2 → VectorClock.IsNotHappensBefore t1 t2 q1 q2 = Some (concurrent t1 q1 t2 q2).
Proof.
  intros H1 H2. unfold VectorClock.IsNotHappensBefore. rewrite !Get_time by done. cbn [mbind option_bind].
  destruct (_ =? _) eqn:E; [|done]. by rewrite concurrent_eq.
Qed.

(** Every comparison is the ordering test followed by the overlap test. *)
Lemma check_func_spec ct i1 i2 e1 e2 :
  event_at c i1 = Some e1 → event_at c i2 = Some e2 →
  check_func c kernels ct i1 i2 = if unordered ct e1 e2 then IsMemSpaceOverlap e1 e2 i1 i2 else Some (false, i1, i2).
Proof.
  intros H1 H2. destruct (comparable_at _ _ H1) as [_ T1], (comparable_at _ _ H2) as [_ T2].
  destruct ct; cbn [check_func unordered].
  - unfold IsInnerCoreRaceEvent. rewrite H1, H2. cbn [mbind option_bind]. destruct (bool_decide (pipe e1 = pipe e2)); [done|].
    cbn zeta. fold (block_pipe SINGLE_BLOCK_CHECK e1) (block_pipe SINGLE_BLOCK_CHECK e2). unfold IsInnerCoreRaceCandidate.
    rewrite !Get_time by done. cbn [mbind option_bind negb andb].
    destruct (_ =? _) eqn:E; [by rewrite concurrent_eq|]. fold (concurrent (vt e1) (block_pipe SINGLE_BLOCK_CHECK e1) (vt e2) (block_pipe SINGLE_BLOCK_CHECK e2)).
    destruct (concurrent _ _ _ _); [|done]. cbn [mbind option_bind negb andb]. by destruct (IsAtomicAgainst e1 e2).
  - unfold IsSinglePipeRaceEvent, MAX_SERIAL_NUMBER_DIFF. rewrite H1, H2. cbn [mbind option_bind].
    assert ((serial_diff e1 e2 <=? 16) = negb (16 <? serial_diff e1 e2)) as -> by (rewrite Z.ltb_antisym; by rewrite negb_involutive).
    rewrite (Z.ltb_antisym (serialNo e1)), (Z.ltb_antisym (serialNo e2)).
    destruct (bool_decide (memType _ = memType _)); [|done]. destruct (bool_decide (pipe e1 = pipe e2)); [|done].
    destruct (serialNo e1 =? serialNo e2); [done|]. destruct (IsAtomicAgainst e1 e2); [done|].
    destruct (16 <? serial_diff e1 e2); [done|]. destruct (barrierNo e1 =? barrierNo e2); [|done].
    destruct (IsMatmulAccumOrderedByHardware e1 e2); [done|]. cbn [negb andb].
    by destruct (serialNo e1 <=? closedRingStartSerialNo e2), (serialNo e2 <=? closedRingStartSerialNo e1).
  - unfold IsCrossCoreRaceEvent. rewrite H1, H2. cbn [mbind option_bind]. destruct (NeedCrossCoreCheck _ e1 e2); [|done].
    rewrite IsNotHappensBefore_concurrent by done. cbn [mbind option_bind negb andb]. fold (block_pipe CROSS_BLOCK_CHECK e1) (block_pipe CROSS_BLOCK_CHECK e2).
    destruct (concurrent _ _ _ _); [|done]. by destruct (IsAtomicAgainst e1 e2).
  - unfold IsCrossNpuRaceEvent. rewrite H1, H2. cbn [mbind option_bind]. destruct (deviceId (loc e1) =? deviceId (loc e2)); [done|].
    rewrite IsNotHappensBefore_concurrent by done. cbn [mbind option_bind negb andb]. destruct (concurrent _ _ _ _); [|done].
    cbn [negb andb]. unfold same_kernel. destruct (KernelManager.Get _ _ _); [|done]. destruct (KernelManager.Get _ _ _); [|done].
    by destruct (bool_decide _).
Qed.

Lemma check_func_uniform ct : uniform (events_ c) (check_func c kernels ct).
Proof.
  intros i j [e1 H1] [e2 H2]. destruct (comparable_at _ _ H1) as [W1 _], (comparable_at _ _ H2) as [W2 _].
  destruct (space_gives e1 e2 W1 W2) as [b Hb]. exists (unordered ct e1 e2 && b). intros i1 i2 <- <-.
  rewrite (check_func_spec ct i1 i2 e1 e2) by done. destruct (unordered ct e1 e2); [apply Hb|apply gives_refl].
Qed.

(** The write and the read of a pair. *)
Definition write_read (e1 e2 : MemEvent) : option (MemEvent * MemEvent) :=
  match opType (memInfo e1), opType (memInfo e2) with
  | READ, WRITE => Some (e2, e1) | WRITE, READ => Some (e1, e2) | _, _ => None
  end.

Definition happens_before (t1 : VT.VectorTime) (q1 : Z) (t2 : VT.VectorTime) (q2 : Z) : bool :=
  (time t1 q1 <=? time t2 q1) && (time t1 q2 <=? time t2 q2).

Definition misses_dcci (e1 e2 : MemEvent) : bool :=
  negb (same_core e1 e2) &&
  (bool_decide (memType (memInfo e1) = MemType.GM) || bool_decide (memType (memInfo e2) = MemType.GM)) &&
  (bool_decide (pipe e1 = PIPE_S_CAL) || bool_decide (pipe e2 = PIPE_S_CAL)) &&
  match write_read e1 e2 with
  | None => false
  | Some (w, r) =>
      negb (happens_before (vt r) (block_pipe CROSS_BLOCK_CHECK r) (vt w) (block_pipe CROSS_BLOCK_CHECK w)) &&
      negb (dcci_ok w && dcci_ok r)
  end.

Lemma IsMissDcciEvent_spec i1 i2 e1 e2 :
  event_at c i1 = Some e1 → event_at c i2 = Some e2 →
  IsMissDcciEvent c i1 i2 = if misses_dcci e1 e2 then IsMemSpaceOverlap e1 e2 i1 i2 else Some (false, i1, i2).
Proof.
  intros H1 H2. destruct (comparable_at _ _ H1) as [_ T1], (comparable_at _ _ H2) as [_ T2].
  assert (∀ w r, write_read e1 e2 = Some (w, r) → wf (vt w) ∧ wf (vt r)) as Hwr.
  { intros w r. unfold write_read. destruct (opType (memInfo e1)), (opType (memInfo e2)); naive_solver. }
  unfold IsMissDcciEvent, misses_dcci. rewrite H1, H2. cbn [mbind option_bind]. destruct (same_core e1 e2); [done|].
  destruct (bool_decide (memType (memInfo e1) = MemType.GM)), (bool_decide (memType (memInfo e2) = MemType.GM)); try done.
  all: destruct (bool_decide (pipe e1 = PIPE_S_CAL)), (bool_decide (pipe e2 = PIPE_S_CAL)); try done; cbn [negb andb orb].
  all: fold (write_read e1 e2); destruct (write_read e1 e2) as [[w r]|] eqn:E; [|done]; destruct (Hwr _ _ eq_refl) as [Tw Tr].
  all: cbn zeta; fold (block_pipe CROSS_BLOCK_CHECK w) (block_pipe CROSS_BLOCK_CHECK r);
    unfold VectorClock.IsHappensBefore, happens_before; rewrite !Get_time by done; cbn [mbind option_bind];
    rewrite (Z.leb_antisym _ (time (vt r) (block_pipe CROSS_BLOCK_CHECK r))); destruct (_ <? _); cbn [mbind option_bind negb andb];
    [by destruct (dcci_ok w && dcci_ok r)|]; destruct (_ <=? _); [done|]; by destruct (dcci_ok w && dcci_ok r).
Qed.

Lemma dcci_uniform : uniform (events_ c) (IsMissDcciEvent c).
Proof.
  intros i j [e1 H1] [e2 H2]. destruct (comparable_at _ _ H1) as [W1 _], (comparable_at _ _ H2) as [W2 _].
  destruct (space_gives e1 e2 W1 W2) as [b Hb]. exists (misses_dcci e1 e2 && b). intros i1 i2 <- <-.
  rewrite (IsMissDcciEvent_spec i1 i2 e1 e2) by done. destruct (misses_dcci e1 e2); [apply Hb|apply gives_refl].
Qed.
End uniform.

(** ** The scan line *)

Record scannable (c : MemEventChecker) : Prop := {
  sc_type : checkType_ c ∈ checkTypeMap_ c;
  sc_events : events_ok (events_ c);
  sc_cmp : comparable c;
  sc_pipes : Forall (λ e, pipe e ≠ PIPE_SIZE) (events_ c);
  sc_serial : Forall (λ e, 0 <= pipeSerialNo e < 18446744073709551600) (events_ c);
}.

(** The comparison a run uses. *)
Definition comparison (c : MemEventChecker) (kernels : KernelManager.KernelManager) (dc : bool)
    : EventIdxInfo → EventIdxInfo → option verdict :=
  if dc then IsMissDcciEvent c else check_func c kernels (checkType_ c).

Lemma comparison_decides c kernels dc :
  comparable c → decides (events_ c) (comparison c kernels dc) (verdict_of (comparison c kernels dc)).
Proof.
  intros Hc. apply uniform_decides. unfold comparison. destruct dc; [by apply dcci_uniform|by apply check_func_uniform].
Qed.

Lemma at_index_elem {A} (l : list A) i x : at_index l i = Some x → x ∈ l.
Proof.
  intros H. pose proof (at_index_in _ _ _ H). apply list_elem_of_lookup. exists (Z.to_nat i).
  apply at_index_lookup. by rewrite Z2Nat.id by lia.
Qed.

Lemma own_times_total c events : Forall (λ e, wf (vt e)) events → ∃ ts, own_times c events = Some ts.
Proof.
  induction 1 as [|e events He _ [ts IH] ]; cbn [own_times]; [by eexists|].
  rewrite Get_time by done. cbn [mbind option_bind]. rewrite IH. by eexists.
Qed.

Lemma single_verdict c kernels i j :
  comparable c → verdict_of (check_func c kernels SINGLE_PIPE_CHECK) i j = true →
  ev_pipe c i = ev_pipe c j ∧ Z.abs (ev_serial c i - ev_serial c j) <= WINDOW.
Proof.
  intros Hc. unfold verdict_of. destruct (event_at c (mkIdxInfo i 0)) as [e1|] eqn:E1.
  2: { cbn [check_func]. unfold IsSinglePipeRaceEvent. by rewrite E1. }
  destruct (event_at c (mkIdxInfo j 0)) as [e2|] eqn:E2.
  2: { cbn [check_func]. unfold IsSinglePipeRaceEvent. by rewrite E1, E2. }
  rewrite (check_func_spec c kernels Hc _ _ _ e1 e2) by done. destruct (unordered _ _ _ _ _) eqn:E; [|done]. intros _.
  unfold event_at in E1, E2. cbn [eventIdx] in *. unfold ev_pipe, ev_serial. rewrite E1, E2. cbn in *. unfold WINDOW.
  rewrite !andb_true_iff, !bool_decide_eq_true, Z.leb_le in E. destruct E as ((((((((_ & ->) & _) & _) & Hd) & _) & _) & _) & _).
  split; [done|]. unfold serial_diff in Hd. destruct (Z.ltb_spec (pipeSerialNo e2) (pipeSerialNo e1)); lia.
Qed.

Lemma scanline_spec c kernels dc :
  scannable c →
  ∃ r d, ScanlineAlgorithm c kernels dc = Some (r, d) ∧ (if dc then r else d) = [] ∧
    ∀ i j, (i, j) ∈ reported (if dc then d else r) ↔ pairs_of c (verdict_of (comparison c kernels dc)) i j.
Proof.
  intros [Ht He Hc Hp Hs]. unfold ScanlineAlgorithm. destruct (build_points _ He) as (ms & -> & _ & Hms). cbn [mbind option_bind].
  rewrite (bool_decide_eq_true_2 _ Ht). cbn [negb]. pose proof (comparison_decides c kernels dc Hc) as Hd.
  assert (∃ r d, ScanGeneric c dc (check_func c kernels (checkType_ c)) ms = Some (r, d) ∧ (if dc then r else d) = [] ∧
    ∀ i j, (i, j) ∈ reported (if dc then d else r) ↔ pairs_of c (verdict_of (comparison c kernels dc)) i j) as Hgen.
  { destruct (ScanGeneric_spec c dc (check_func c kernels (checkType_ c)) (verdict_of (comparison c kernels dc))) with (ms := ms)
      as (r & d & -> & HF & E); [|done|done|by eexists _, _]. by destruct dc. }
  destruct (dc || hasAnyDynamic (events_ c)) eqn:Ed; [done|]. apply orb_false_iff in Ed as [-> _].
  destruct (checkType_ c) eqn:Ect; [| |done|done]; unfold comparison in *; rewrite Ect in *.
  - destruct (own_times_total c (events_ c)) as [ts Hts]; [eapply Forall_impl; [exact Hc|by intros e [_ ?] ]|].
    destruct (ScanSingleBlockFast_spec c (verdict_of (check_func c kernels SINGLE_BLOCK_CHECK)) ts) with (ms := ms)
      as (r & -> & HF); try done. by eexists _, _.
  - destruct (ScanSinglePipeWindow_spec c (check_func c kernels SINGLE_PIPE_CHECK) (verdict_of (check_func c kernels SINGLE_PIPE_CHECK)))
      with (ms := ms) as (r & -> & HF); try done.
    + intros i. unfold ev_serial. destruct (at_index (events_ c) i) as [e|] eqn:E; simpl; [|lia].
      rewrite Forall_forall in Hs. by apply Hs, (at_index_elem _ i).
    + intros i j. by apply single_verdict.
    + by eexists _, _.
Qed.
