(* ===== verification/RaceTheorems.v ===== *)
(** What the race checker reports, in terms of the bytes the events touch. *)
From stdpp Require Import base numbers option gmap sets strings sorting list.
From S2P Require Import Prelude.
From S2P Require Import RecordDefs.
From S2P Require Import Platform.
From S2P Require Import EventDef.
From S2P Require Import ConvertProofs.
From S2P Require Import VectorTime.
From S2P Require Import VectorTimeProofs.
From S2P Require Import EventContainer.
From S2P Require Import PipelineReplayer.
From S2P Require Import MemSeries.
From S2P Require Import MemSeriesProofs.
From S2P Require Import MemEventChecker.
From S2P Require Import Scanline.
From S2P Require Import RadixProofs.
From S2P Require Import ScanProofs.
From S2P Require Import WindowProofs.
From S2P Require Import RaceProofs.
Import Race Overlap Checker Scan.

(** ** Symmetry *)

Lemma concurrent_sym t1 q1 t2 q2 : concurrent t1 q1 t2 q2 = concurrent t2 q2 t1 q1.
Proof.
  unfold concurrent, VectorClock.IsNotHappensBefore4.
  generalize (time t1 q1) (time t2 q1) (time t1 q2) (time t2 q2). intros a b d e.
  repeat match goal with
  | |- context [?x =? ?y] => destruct (Z.eqb_spec x y)
  | |- context [?x <? ?y] => destruct (Z.ltb_spec x y)
  end; lia || done.
Qed.

Lemma IsAtomicAgainst_sym e1 e2 : IsAtomicAgainst e1 e2 = IsAtomicAgainst e2 e1.
Proof. unfold IsAtomicAgainst. apply andb_comm. Qed.

Lemma serial_diff_sym e1 e2 : serial_diff e1 e2 = serial_diff e2 e1.
Proof.
  unfold serial_diff. destruct (Z.ltb_spec (pipeSerialNo e2) (pipeSerialNo e1)), (Z.ltb_spec (pipeSerialNo e1) (pipeSerialNo e2)); lia.
Qed.

Lemma IsMatmul_sym e1 e2 : IsMatmulAccumOrderedByHardware e1 e2 = IsMatmulAccumOrderedByHardware e2 e1.
Proof. unfold IsMatmulAccumOrderedByHardware. rewrite serial_diff_sym, (andb_comm (IsLargeMatmulAccess e1)). done. Qed.

Lemma bool_decide_sym {A} `{EqDecision A} (x y : A) : bool_decide (x = y) = bool_decide (y = x).
Proof. apply bool_decide_ext. done. Qed.

Lemma same_core_sym e1 e2 : same_core e1 e2 = same_core e2 e1.
Proof. unfold same_core. by rewrite Z.eqb_sym, bool_decide_sym. Qed.

Lemma NeedCrossCoreCheck_sym dt e1 e2 : NeedCrossCoreCheck dt e1 e2 = NeedCrossCoreCheck dt e2 e1.
Proof.
  unfold NeedCrossCoreCheck. rewrite same_core_sym, (orb_comm (negb (bool_decide (eff_type e1 = _)))).
  destruct (same_core e2 e1); [done|]. destruct (negb (IsAscend95 dt)); [done|]. destruct (_ || _); [done|].
  rewrite (bool_decide_sym (blockType (loc e1))), (Z.eqb_sym (dstCoreId (memInfo e1))), (Z.eqb_sym (coreId (loc e1))).
  destruct (blockType (loc e1)), (blockType (loc e2)); try done; cbn;
    by destruct (_ =? _).
Qed.

Lemma unordered_sym c kernels ct e1 e2 : unordered c kernels ct e1 e2 = unordered c kernels ct e2 e1.
Proof.
  destruct ct; cbn [unordered].
  - by rewrite bool_decide_sym, concurrent_sym, IsAtomicAgainst_sym.
  - rewrite (bool_decide_sym (memType (memInfo e1))), (bool_decide_sym (pipe e1)), IsAtomicAgainst_sym, serial_diff_sym, IsMatmul_sym,
      (Z.eqb_sym (serialNo e1)), (Z.eqb_sym (barrierNo e1)). rewrite <- !andb_assoc. do 7 f_equal. apply andb_comm.
  - by rewrite NeedCrossCoreCheck_sym, concurrent_sym, IsAtomicAgainst_sym.
  - rewrite Z.eqb_sym, concurrent_sym. f_equal. unfold same_kernel.
    destruct (KernelManager.Get (deviceId (loc e1)) _ _), (KernelManager.Get (deviceId (loc e2)) _ _); try done. apply bool_decide_sym.
Qed.

(** ** Ranges *)

(** A static event whose range is shorter than 4 GiB and whose mask selects
    something. *)
Record static_fits (e : MemEvent) : Prop := {
  st_static : isDynamic e = false;
  st_op : op_fits (memInfo e);
  st_mask : ¬ (maskMode (memInfo e) = MASK_COUNT ∧ (mask0 (vectorMask (memInfo e)) = 0 ∨ dataBits (memInfo e) = 0));
  st_len : block_base (memInfo e) (repeatTimes (memInfo e) - 1) (blockNum (memInfo e) - 1) + blockSize (memInfo e) -
           addr (memInfo e) < 4294967296;
}.

Definition last_byte (m : MemOpInfo) : Z := block_base m (repeatTimes m - 1) (blockNum m - 1) + blockSize m.

Lemma static_length e : static_fits e → GetMemMaxLength e = last_byte (memInfo e) - addr (memInfo e).
Proof.
  intros [Hst Hop Hm Hl]. unfold GetMemMaxLength, last_byte. rewrite Hst. destruct Hop as [H1 H2 H3 H4 H5 H6 H7 H8].
  generalize dependent (memInfo e). intros m. intros.
  assert ((maskMode m =? MASK_COUNT) && ((mask0 (vectorMask m) =? 0) || (dataBits m =? 0)) = false) as ->.
  { apply not_true_iff_false. intros [?%Z.eqb_eq Hor]%andb_true_iff. apply Hm. split; [done|].
    apply orb_true_iff in Hor as [?%Z.eqb_eq|?%Z.eqb_eq]; auto. }
  assert ((repeatTimes m =? 0) || (blockNum m =? 0) || (blockSize m =? 0) = false) as ->.
  { rewrite !orb_false_iff, !Z.eqb_neq. lia. }
  unfold block_base in *. set (a := (repeatTimes m - 1) * repeatStride m) in *. set (b := (blockNum m - 1) * blockStride m) in *.
  assert (0 <= a ∧ 0 <= b) by (unfold a, b; split; nia). assert (a <= a * blockSize m ∧ b <= b * blockSize m) by nia.
  rewrite (u32_small (repeatTimes m - 1)), (u32_small (blockNum m - 1)) by (unfold is_u32; lia). fold a b.
  rewrite (u32_small a), (u32_small b) by (unfold is_u32; lia).
  rewrite (u32_small (a * blockSize m)), (u32_small (b * blockSize m)) by (unfold is_u32; lia).
  rewrite (u32_small (a * blockSize m + b * blockSize m)), u32_small by (unfold is_u32; lia). lia.
Qed.

Lemma block_base_mono m i j i' j' :
  op_fits m → 0 <= i <= i' → 0 <= j <= j' → block_base m i j <= block_base m i' j'.
Proof. intros [H1 H2 H3 H4 H5 H6 H7 H8] Hi Hj. unfold block_base. rewrite <- !Z.mul_assoc. assert (0 <= repeatStride m * blockSize m) by nia. assert (0 <= blockStride m * blockSize m) by nia. nia. Qed.

Lemma touched_range m x : op_fits m → touched m x → addr m <= x < last_byte m.
Proof.
  intros Hm (i & j & Hi & Hj & Hx). unfold last_byte.
  pose proof (block_base_mono m 0 0 i j Hm ltac:(lia) ltac:(lia)) as Hlo.
  pose proof (block_base_mono m i j (repeatTimes m - 1) (blockNum m - 1) Hm ltac:(lia) ltac:(lia)).
  unfold block_base at 1 in Hlo. lia.
Qed.

Lemma last_byte_bounds m : op_fits m → addr m < last_byte m < 18446744073709551616.
Proof.
  intros Hm. pose proof (o_size _ Hm). pose proof (o_times _ Hm). pose proof (o_num _ Hm). pose proof (o_end _ Hm).
  pose proof (block_base_mono m 0 0 (repeatTimes m - 1) (blockNum m - 1) Hm ltac:(lia) ltac:(lia)) as Hlo.
  unfold block_base at 1 in Hlo. unfold last_byte. lia.
Qed.

Lemma static_ends e : static_fits e → start_addr e = addr (memInfo e) ∧ end_addr e = last_byte (memInfo e).
Proof.
  intros He. pose proof (last_byte_bounds _ (st_op _ He)). pose proof (o_addr _ (st_op _ He)).
  unfold start_addr, end_addr. rewrite (st_static _ He), (static_length e He). split; [done|].
  replace (addr (memInfo e) + _) with (last_byte (memInfo e)) by lia. apply u64_small. unfold is_u64. lia.
Qed.

(** ** Races *)

(** A checker over static events, ready to run. *)
Record static_run (c : MemEventChecker) : Prop := {
  sr_type : checkType_ c ∈ checkTypeMap_ c;
  sr_count : Z.of_nat (length (events_ c)) <= 4294967296;
  sr_events : Forall (λ e, static_fits e ∧ wf (vt e) ∧ pipe e ≠ PIPE_SIZE ∧ 0 <= pipeSerialNo e < 18446744073709551600) (events_ c);
}.

Lemma static_scannable c : static_run c → scannable c.
Proof.
  intros [Ht Hn He]. split; [done| | | |].
  - split; [change (2 ^ 32) with 4294967296; lia|]. eapply Forall_impl; [exact He|]. intros e (Hs & _) _.
    destruct (static_ends e Hs) as [-> ->]. pose proof (last_byte_bounds _ (st_op _ Hs)). pose proof (o_addr _ (st_op _ Hs)).
    change (2 ^ 64) with 18446744073709551616. lia.
  - eapply Forall_impl; [exact He|]. intros e (Hs & Hw & _). split; [|done]. intros _. apply Hs.
  - eapply Forall_impl; [exact He|]. by intros e (_ & _ & ? & _).
  - eapply Forall_impl; [exact He|]. by intros e (_ & _ & _ & ?).
Qed.

Lemma static_at c i e : static_run c → at_index (events_ c) i = Some e → static_fits e ∧ wf (vt e).
Proof. intros [_ _ He] Hi. rewrite Forall_forall in He. by destruct (He e (at_index_elem _ _ _ Hi)) as (? & ? & _). Qed.

(** The events [e1] and [e2] race. *)
Definition races_with (c : MemEventChecker) (kernels : KernelManager.KernelManager) (e1 e2 : MemEvent) : Prop :=
  unordered c kernels (checkType_ c) e1 e2 = true ∧ memType (memInfo e1) = memType (memInfo e2) ∧
  (opType (memInfo e1) = WRITE ∨ opType (memInfo e2) = WRITE) ∧
  ∃ x, touched (memInfo e1) x ∧ touched (memInfo e2) x.

Lemma races_with_sym c kernels e1 e2 : races_with c kernels e1 e2 → races_with c kernels e2 e1.
Proof. unfold races_with. rewrite unordered_sym. intros (? & ? & ? & x & ? & ?). naive_solver. Qed.

Lemma MemType_code_inj t1 t2 : MemType_code t1 = MemType_code t2 → t1 = t2.
Proof. destruct t1, t2; simpl; lia || done. Qed.

Lemma static_pair c kernels i j e1 e2 :
  static_run c → at_index (events_ c) i = Some e1 → at_index (events_ c) j = Some e2 →
  pairs_of c (verdict_of (comparison c kernels false)) i j ↔
  starts_before (first_byte (events_ c)) j i ∧ races_with c kernels e1 e2.
Proof.
  intros Hc Hi Hj. destruct (static_at _ _ _ Hc Hi) as [S1 T1], (static_at _ _ _ Hc Hj) as [S2 T2].
  assert (∀ i e, at_index (events_ c) i = Some e → static_fits e → live (events_ c) i) as Hlive.
  { intros k e Hk Hs. exists e. split; [done|]. rewrite static_length by done. pose proof (last_byte_bounds _ (st_op _ Hs)). lia. }
  unfold pairs_of, open_at, racing, races_with, ev_type, ev_write, verdict_of, comparison.
  rewrite (check_func_spec c kernels (sc_cmp _ (static_scannable _ Hc)) _ _ _ e1 e2) by done.
  rewrite Hi, Hj. cbn [fmap option_fmap option_map default from_option id]. unfold EffMemType, eff_type, EffOpType, IsMemSpaceOverlap.
  rewrite (st_static _ S1), (st_static _ S2). destruct (memory_overlap_spec _ _ (st_op _ S1) (st_op _ S2)) as (b & -> & Hb).
  cbn [mbind option_bind]. rewrite !bool_decide_eq_true.
  assert (first_byte (events_ c) i = addr (memInfo e1)) as E1 by (unfold first_byte; rewrite Hi; by apply static_ends).
  assert (past_byte (events_ c) j = last_byte (memInfo e2)) as E2 by (unfold past_byte; rewrite Hj; by apply static_ends).
  rewrite E1, E2. destruct (unordered c kernels (checkType_ c) e1 e2); cbn.
  - split.
    + intros (_ & _ & (Hsb & _) & HT & HW & ->). split; [done|]. split; [done|]. destruct (proj1 Hb eq_refl). done.
    + intros (Hsb & _ & HT & HW & x & Hx1 & Hx2). split; [by eapply Hlive|]. split; [by eapply Hlive|]. split.
      * split; [done|]. apply touched_range in Hx1, Hx2; [lia|apply S2|apply S1].
      * split; [by rewrite HT|]. split; [done|]. apply Hb. eauto.
  - split; [intros (_ & _ & _ & _ & _ & ?); done|]. by intros (_ & ? & _).
Qed.

(** C3: the scan of a run over static events succeeds and reports, in one order
    or the other, exactly the pairs of different events that are not ordered,
    lie in one kind of memory, include a write and touch a common byte. *)
Theorem races_exact c kernels :
  static_run c →
  ∃ r, ScanlineAlgorithm c kernels false = Some (r, []) ∧
    ∀ i j e1 e2, at_index (events_ c) i = Some e1 → at_index (events_ c) j = Some e2 →
      ((i, j) ∈ reported r ∨ (j, i) ∈ reported r) ↔ i ≠ j ∧ races_with c kernels e1 e2.
Proof.
  intros Hc. destruct (scanline_spec c kernels false (static_scannable c Hc)) as (r & d & -> & Hd & HF). simpl in Hd. subst d.
  exists r. split; [done|]. intros i j e1 e2 Hi Hj. simpl in HF. rewrite !HF.
  rewrite (static_pair c kernels i j e1 e2), (static_pair c kernels j i e2 e1) by done. split.
  - intros [ [Hs Hr] | [Hs Hr] ]; (split; [|by eauto using races_with_sym]); intros ->; unfold starts_before in Hs; lia.
  - intros [Hne Hr]. destruct (decide (starts_before (first_byte (events_ c)) j i)) as [|Hn]; [by left|right].
    split; [|by apply races_with_sym]. unfold starts_before in *. lia.
Qed.

(** *** An example *)

Definition tick (q : Z) : VT.VectorTime := VT.mkVT 1 false ((q, 2) :: replicate 47 (0, 0)) [].

Lemma tick_wf q : 0 <= q <= 65535 → wf (tick q).
Proof.
  intros Hq. split; simpl.
  - done.
  - unfold VT.INLINE_CAP. lia.
  - split; [repeat constructor|]. apply Forall_cons. split; [|constructor]. unfold ok_entry, is_u32. simpl. lia.
  - intros _. split; [done|]. apply Forall_cons. split; [|constructor]. unfold VT.UINT16_MAX. simpl. lia.
  - done.
Qed.

Definition demo_op (t : AccessType) (a rt rstride : Z) : MemOpInfo :=
  {| memType := MemType.UB; opType := t; vectorMask := {| mask0 := 0; mask1 := 0 |}; maskMode := 0; instrName := 0;
     dataBits := 8; addr := a; blockNum := 1; blockSize := 32; blockStride := 1; repeatTimes := rt;
     repeatStride := rstride; alignSize := 1; mem_ignoreIllegalCheck := false; isScalarAtomic := false;
     dcciDistance := 0; dstCoreId := 0; dstBlockType := AIVEC; instrClass := INSTR_UNKNOWN; matrixM := 0; matrixN := 0 |}.

Definition demo_loc : LocInfo :=
  {| fileNo := 0; lineNo := 0; pc := 0; deviceIdx := 0; kernelIdx := 0; deviceId := 0; coreId := 0; blockType := AIVEC |}.

Definition demo_event (n : Z) (p : PipeType) (m : MemOpInfo) : MemEvent :=
  mkMem n 0 n 0 (tick (PipeType_code p)) m new_DynamicOpInfo demo_loc p false false.

Definition demo_checker (l : list MemEvent) : MemEventChecker :=
  foldl (λ c e, PushEvent e c) (Init KT_AIVEC ASCEND_910_PREMIUM_A SINGLE_BLOCK_CHECK new_MemEventChecker) l.

(** A write on one pipe, an overlapping read on another and a read elsewhere. *)
Definition demo_run : MemEventChecker :=
  demo_checker [demo_event 1 PIPE_V (demo_op WRITE 0 2 4); demo_event 2 PIPE_MTE3 (demo_op READ 144 1 0);
                demo_event 3 PIPE_MTE3 (demo_op READ 64 1 0)].

Example demo_run_races : ScanlineAlgorithm demo_run ∅ false = Some ([(mkIdxInfo 1 0, mkIdxInfo 0 0)], []).
Proof. vm_compute. reflexivity. Qed.

Lemma demo_static n p t a rt rs :
  0 <= a < 1000 → 1 <= rt < 1000 → 0 <= rs < 1000 → 0 <= n < 1000 → p ≠ PIPE_SIZE →
  static_fits (demo_event n p (demo_op t a rt rs)) ∧ wf (vt (demo_event n p (demo_op t a rt rs))) ∧
  pipe (demo_event n p (demo_op t a rt rs)) ≠ PIPE_SIZE ∧
  0 <= pipeSerialNo (demo_event n p (demo_op t a rt rs)) < 18446744073709551600.
Proof.
  intros Ha Hr Hs Hn Hp. split; [|split; [apply tick_wf; destruct p; simpl; lia|split; [done|simpl; lia] ] ].
  split; simpl; try done.
  - split; simpl; unfold block_base; simpl; try lia; nia.
  - by intros [? _].
  - unfold block_base. simpl. nia.
Qed.

Lemma races_exact_witness :
  static_run demo_run ∧ ∃ r, ScanlineAlgorithm demo_run ∅ false = Some (r, []) ∧
    ∀ i j e1 e2, at_index (events_ demo_run) i = Some e1 → at_index (events_ demo_run) j = Some e2 →
      ((i, j) ∈ reported r ∨ (j, i) ∈ reported r) ↔ i ≠ j ∧ races_with demo_run ∅ e1 e2.
Proof.
  assert (static_run demo_run) as H.
  { split; [vm_compute; set_solver|simpl; lia|]. repeat (apply Forall_cons; split; [apply demo_static; lia || done|]). constructor. }
  split; [exact H|exact (races_exact demo_run ∅ H)].
Defined.

(** ** Ranges of 4 GiB *)

Lemma u32_mul3 x y z : u32 (u32 (u32 x * y) * z) = u32 (x * y * z).
Proof. unfold u32. by rewrite Z.mul_mod_idemp_l, <- Z.mul_assoc, Z.mul_mod_idemp_l, Z.mul_assoc by lia. Qed.
Lemma u32_add3 a b d : u32 (u32 (u32 a + u32 b) + d) = u32 (a + b + d).
Proof. unfold u32. by rewrite <- Z.add_mod, Z.add_mod_idemp_l by lia. Qed.

Lemma GetMemMaxLength_mod e :
  isDynamic e = false → op_fits (memInfo e) →
  GetMemMaxLength e = 0 ∨ GetMemMaxLength e = (last_byte (memInfo e) - addr (memInfo e)) mod 4294967296.
Proof.
  intros Hst Hop. unfold GetMemMaxLength. rewrite Hst. cbn zeta. destruct (_ && _); [by left|].
  destruct Hop as [H1 H2 H3 H4 H5 H6 H7 H8]. assert ((repeatTimes (memInfo e) =? 0) || (blockNum (memInfo e) =? 0) || (blockSize (memInfo e) =? 0) = false) as ->.
  { rewrite !orb_false_iff, !Z.eqb_neq. lia. }
  right. rewrite !u32_mul3, u32_add3. unfold last_byte, block_base, u32. change (2 ^ 32) with 4294967296. f_equal. lia.
Qed.

(** An event whose range is a multiple of 4 GiB has length 0 in 32 bits: it
    gets no points, and no pair with it is reported. *)
Theorem long_range_unreported c kernels i e k :
  scannable c → at_index (events_ c) i = Some e → isDynamic e = false → op_fits (memInfo e) →
  last_byte (memInfo e) - addr (memInfo e) = 4294967296 * k →
  ∃ r d, ScanlineAlgorithm c kernels false = Some (r, d) ∧ ∀ j, ((i, j) ∉ reported r) ∧ ((j, i) ∉ reported r).
Proof.
  intros Hc Hi Hst Hop Hk. destruct (scanline_spec c kernels false Hc) as (r & d & -> & _ & HF). exists r, d. split; [done|].
  assert (¬ live (events_ c) i) as Hl.
  { intros (e' & He' & Hne). rewrite Hi in He'. simplify_eq. apply Hne.
    destruct (GetMemMaxLength_mod e' Hst Hop) as [E|E]; [done|]. rewrite E, Hk, Z.mul_comm. apply Z.mod_mul. lia. }
  intros j. simpl in HF. rewrite !HF. unfold pairs_of. tauto.
Qed.

(** The second block of the write is 4 GiB - 32 bytes away. *)
Definition long_write : MemEvent := demo_event 1 PIPE_V (demo_op WRITE 0 2 134217727).
Definition long_read : MemEvent := demo_event 2 PIPE_MTE3 (demo_op READ 4294967264 1 0).

Lemma long_range_unreported_witness :
  races_with (demo_checker [long_write; long_read]) ∅ long_write long_read ∧
  ∃ r d, ScanlineAlgorithm (demo_checker [long_write; long_read]) ∅ false = Some (r, d) ∧
    ∀ j, ((0, j) ∉ reported r) ∧ ((j, 0) ∉ reported r).
Proof.
  assert (op_fits (memInfo long_write) ∧ op_fits (memInfo long_read)) as [H1 H2].
  { split; split; simpl; unfold block_base; simpl; lia. }
  split.
  - split; [reflexivity|]. split; [done|]. split; [by left|]. exists 4294967264. split.
    + exists 1, 0. unfold block_base. simpl. lia.
    + exists 0, 0. unfold block_base. simpl. lia.
  - apply (long_range_unreported (demo_checker [long_write; long_read]) ∅ 0 long_write 1); [|done|done|done|reflexivity].
    split; [vm_compute; set_solver| | | |].
    + split; [simpl; lia|]. repeat (apply Forall_cons; split; [intros Hn|]); [by destruct Hn|vm_compute; naive_solver|constructor].
    + repeat (apply Forall_cons; split; [split; [done|apply tick_wf; simpl; lia]|]). constructor.
    + repeat (apply Forall_cons; split; [done|]). constructor.
    + repeat (apply Forall_cons; split; [simpl; lia|]). constructor.
Defined.

(** ** Equivalence of the scans *)

(** C10: whichever scan the checker picks, the pairs of events it reports are
    those of the generic scan over the same points. *)
Theorem scans_equivalent c kernels dc :
  scannable c →
  ∃ ms r d gr gd, BuildScanlineMetaData (events_ c) = Some ms ∧ ScanlineAlgorithm c kernels dc = Some (r, d) ∧
    ScanGeneric c dc (check_func c kernels (checkType_ c)) ms = Some (gr, gd) ∧
    ∀ p, (p ∈ reported r ↔ p ∈ reported gr) ∧ (p ∈ reported d ↔ p ∈ reported gd).
Proof.
  intros Hc. pose proof Hc as [_ He Hcmp _ _]. destruct (build_points _ He) as (ms & Hms & _ & Hp).
  destruct (scanline_spec c kernels dc Hc) as (r & d & E & Hn & HF).
  destruct (ScanGeneric_spec c dc (check_func c kernels (checkType_ c)) (verdict_of (comparison c kernels dc))) with (ms := ms)
    as (gr & gd & Eg & HFg & Hng); [|done|done|].
  { pose proof (comparison_decides c kernels dc Hcmp) as Hd. by destruct dc. }
  exists ms, r, d, gr, gd. split_and!; [done..|]. intros [i j]. specialize (HF i j). specialize (HFg i j).
  destruct dc; subst; by rewrite HF, HFg.
Qed.

(** C33: the four counting passes leave the points of the events in the order of
    [CompareEvent]: by address, ends before starts, then by index. *)
Theorem points_sorted events :
  events_ok events →
  ∃ ms, BuildScanlineMetaData events = Some ms ∧ ms ≡ₚ metas false 0 events ++ metas true 0 events ∧
    StronglySorted (λ x y, CompareEvent x y = true) ms.
Proof. intros He. destruct (build_points _ He) as (ms & -> & Hp & Hs & _). eauto. Qed.

(** ** Reporting *)

Lemma ErrorEvent_eqb_refl a : ErrorEvent_eqb a a = true.
Proof. unfold ErrorEvent_eqb. rewrite !Z.eqb_refl, bool_decide_eq_true_2 by done. by destruct (err_isSimt a). Qed.

Lemma same_race_refl x : same_race x x = true.
Proof. unfold same_race. rewrite !ErrorEvent_eqb_refl. by destruct (isMissDcci x). Qed.

(** The message of a reported pair. *)
Definition message_of (c : MemEventChecker) (miss : bool) (p : EventIdxInfo * EventIdxInfo) (x : RaceDispInfo) : Prop :=
  ∃ e1 e2, event_at c p.1 = Some e1 ∧ event_at c p.2 = Some e2 ∧
    x = FillRaceDispInfo miss e1 e2 (dynamicErrorIdx p.1) (dynamicErrorIdx p.2).

(** The messages reported so far: [raceSet_] and [result_] agree, and no two are the same race. *)
Record reports_ok (c : MemEventChecker) (n : Z) : Prop := {
  rp_set : raceSet_ c = result_ c;
  rp_cnt : raceCnt_ c = u32 (n + Z.of_nat (length (result_ c)));
  rp_diff : ∀ i j x y, result_ c !! i = Some x → result_ c !! j = Some y → i ≠ j → same_race x y = false;
}.

Lemma ErrorEvent_eqb_sym a b : ErrorEvent_eqb a b = ErrorEvent_eqb b a.
Proof.
  unfold ErrorEvent_eqb. rewrite (bool_decide_sym (err_threadLoc a)).
  rewrite (Z.eqb_sym (err_accessType a)), (Z.eqb_sym (err_memType a)), (Z.eqb_sym (err_addr a)), (Z.eqb_sym (err_fileNo a)),
    (Z.eqb_sym (err_lineNo a)), (Z.eqb_sym (err_pc a)), (Z.eqb_sym (err_pipeType a)), (Z.eqb_sym (err_coreId a)).
  by destruct (err_isSimt a), (err_isSimt b).
Qed.

Lemma same_race_sym x y : same_race x y = same_race y x.
Proof.
  unfold same_race. rewrite (ErrorEvent_eqb_sym (p1 y)), (ErrorEvent_eqb_sym (p2 y)), (ErrorEvent_eqb_sym (p1 y) (p2 x)), (ErrorEvent_eqb_sym (p2 y) (p1 x)).
  rewrite (andb_comm (ErrorEvent_eqb (p2 x) (p1 y))). by destruct (isMissDcci x), (isMissDcci y).
Qed.

Lemma add_results_spec n miss l c :
  reports_ok c n → (∀ p, p ∈ l → is_Some (event_at c p.1) ∧ is_Some (event_at c p.2)) →
  ∃ c', add_results miss l c = Some c' ∧ reports_ok c' n ∧ events_ c' = events_ c ∧ result_ c `prefix_of` result_ c' ∧
    (∀ p x, p ∈ l → message_of c miss p x → ∃ y, y ∈ result_ c' ∧ same_race x y = true) ∧
    (∀ y, y ∈ result_ c' → y ∈ result_ c ∨ ∃ p, p ∈ l ∧ message_of c miss p y).
Proof.
  revert c. induction l as [|[i1 i2] l IH]; intros c Hr Hv; cbn [add_results].
  { exists c. split; [done|]. split; [done|]. split; [done|]. split; [done|]. split; [|auto]. intros p x ?%elem_of_nil. done. }
  destruct (Hv (i1, i2)) as [[e1 H1] [e2 H2] ]; [apply elem_of_cons; by left|]. simpl in H1, H2. rewrite H1, H2. cbn [mbind option_bind].
  set (info := FillRaceDispInfo _ _ _ _ _). set (c1 := if existsb _ _ then c else _).
  assert (reports_ok c1 n ∧ events_ c1 = events_ c ∧ result_ c `prefix_of` result_ c1 ∧
    (∃ y, y ∈ result_ c1 ∧ same_race info y = true) ∧ ∀ y, y ∈ result_ c1 → y ∈ result_ c ∨ y = info) as (Hr1 & He1 & Hp1 & (y0 & Hy0 & Hs0) & Hin1).
  { unfold c1. destruct Hr as [Hset Hcnt Hdiff]. destruct (existsb _ _) eqn:Ex.
    - split; [done|]. split; [done|]. split; [done|]. split; [|auto]. apply existsb_exists in Ex as (y & Hy & Hs).
      rewrite Hset in Hy. exists y. split; [by apply list_elem_of_In|done].
    - assert (∀ y, y ∈ result_ c → same_race info y = false) as Hno.
      { intros y Hy. rewrite <- Hset in Hy. apply not_true_iff_false. intros Hs. apply not_true_iff_false in Ex. apply Ex.
        apply existsb_exists. exists y. split; [by apply list_elem_of_In|done]. }
      split; [split; cbn|].
      + by rewrite Hset.
      + rewrite Hcnt, length_app. unfold u32. rewrite Z.add_mod_idemp_l by lia. f_equal. simpl. lia.
      + intros i j x y Hi Hj Hne. apply lookup_snoc_Some in Hi as [[_ Hi]|[-> <-] ], Hj as [[_ Hj]|[-> <-] ]; try done.
        * by apply (Hdiff i j).
        * rewrite same_race_sym. apply Hno. by eapply list_elem_of_lookup_2.
        * apply Hno. by eapply list_elem_of_lookup_2.
      + split; [done|]. split; [by apply prefix_app_r|]. split; [exists info; split; [set_solver|apply same_race_refl]|].
        cbn. set_solver. }
  assert (∀ m p x, message_of c1 m p x ↔ message_of c m p x) as Hmsg by (intros; unfold message_of, event_at; by rewrite He1).
  destruct (IH c1 Hr1) as (c' & -> & Hr' & He' & Hp' & Hall & Honly).
  { intros p Hp. unfold event_at. rewrite He1. apply Hv. apply elem_of_cons. by right. }
  exists c'. split; [done|]. split; [done|]. split; [congruence|]. split; [by etrans|]. split.
  - intros p x [->|Hp]%elem_of_cons Hm.
    + destruct Hm as (e1' & e2' & H1' & H2' & ->). simpl in *. rewrite H1 in H1'. rewrite H2 in H2'. simplify_eq. exists y0. split; [|done].
      destruct Hp' as [k ->]. apply elem_of_app. by left.
    + apply (Hall p); [done|]. by apply Hmsg.
  - intros y Hy. apply Honly in Hy as [Hy|(p & Hp & Hm)].
    + apply Hin1 in Hy as [?| ->]; [by left|]. right. exists (i1, i2). split; [apply elem_of_cons; by left|]. exists e1, e2. done.
    + right. exists p. split; [apply elem_of_cons; by right|]. by apply Hmsg.
Qed.

Lemma scanline_valid c kernels dc r d p :
  scannable c → ScanlineAlgorithm c kernels dc = Some (r, d) → p ∈ r ++ d →
  is_Some (event_at c p.1) ∧ is_Some (event_at c p.2).
Proof.
  intros Hc E Hp. destruct (scanline_spec c kernels dc Hc) as (r' & d' & E' & Hn & HF). rewrite E in E'. simplify_eq.
  assert ((eventIdx p.1, eventIdx p.2) ∈ reported (if dc then d' else r')) as Hin.
  { unfold reported. apply list_elem_of_fmap. exists p. split; [done|]. destruct dc; subst; set_solver. }
  apply HF in Hin as (Hi & Hj & _). by split; apply valid_live.
Qed.

(** C20: a run on a fresh checker stores one message for each different race of
    the pairs the scan reports, nothing else, and counts them. *)
Theorem run_reports_once c kernels dc :
  scannable c → raceSet_ c = [] → result_ c = [] → raceCnt_ c = 0 →
  ∃ r d c', ScanlineAlgorithm c kernels dc = Some (r, d) ∧ RunAlgorithm kernels dc c = Some c' ∧
    GetRaceCount c' = u32 (Z.of_nat (length (GetResult c'))) ∧
    (∀ i j x y, GetResult c' !! i = Some x → GetResult c' !! j = Some y → i ≠ j → same_race x y = false) ∧
    (∀ p x, (p ∈ r ∧ message_of c false p x) ∨ (p ∈ d ∧ message_of c true p x) →
       ∃ y, y ∈ GetResult c' ∧ same_race x y = true) ∧
    (∀ y, y ∈ GetResult c' → ∃ p, (p ∈ r ∧ message_of c false p y) ∨ (p ∈ d ∧ message_of c true p y)).
Proof.
  intros Hc H1 H2 H3. destruct (scanline_spec c kernels dc Hc) as (r & d & E & _ & _).
  assert (∀ p, p ∈ r ++ d → is_Some (event_at c p.1) ∧ is_Some (event_at c p.2)) as Hv by (intros p; by eapply scanline_valid).
  exists r, d. unfold RunAlgorithm. rewrite E. cbn [mbind option_bind fst snd].
  destruct (add_results_spec 0 false r c) as (c1 & E1 & R1 & V1 & P1 & A1 & O1).
  { split; [congruence|by rewrite H2, H3|]. intros i j x y Hi. by rewrite H2, lookup_nil in Hi. }
  { intros p Hp. apply Hv. set_solver. }
  assert (∀ m p x, message_of c1 m p x ↔ message_of c m p x) as Hmsg by (intros; unfold message_of, event_at; by rewrite V1).
  destruct (add_results_spec 0 true d c1 R1) as (c2 & E2 & R2 & V2 & P2 & A2 & O2).
  { intros p Hp. unfold event_at. rewrite V1. apply Hv. set_solver. }
  exists c2. split; [done|]. rewrite E1. cbn [mbind option_bind]. split; [done|]. split; [apply R2|]. split; [apply R2|]. split.
  - intros p x [[Hp Hm]|[Hp Hm] ].
    + destruct (A1 p x Hp Hm) as (y & Hy & Hs). exists y. split; [|done]. destruct P2 as [k Ek]. unfold GetResult. rewrite Ek. set_solver.
    + apply (A2 p); [done|]. by apply Hmsg.
  - intros y Hy. apply O2 in Hy as [Hy|(p & Hp & Hm)].
    + apply O1 in Hy as [Hy|(p & Hp & Hm)]; [rewrite H2 in Hy; by apply elem_of_nil in Hy|]. exists p. auto.
    + exists p. right. split; [done|]. by apply Hmsg.
Qed.

Lemma demo_scannable : scannable demo_run.
Proof.
  apply static_scannable. split; [vm_compute; set_solver|simpl; lia|].
  repeat (apply Forall_cons; split; [apply demo_static; lia || done|]). constructor.
Defined.

Lemma scans_equivalent_witness :
  ∃ ms r d gr gd, BuildScanlineMetaData (events_ demo_run) = Some ms ∧ ScanlineAlgorithm demo_run ∅ false = Some (r, d) ∧
    ScanGeneric demo_run false (check_func demo_run ∅ SINGLE_BLOCK_CHECK) ms = Some (gr, gd) ∧
    ∀ p, (p ∈ reported r ↔ p ∈ reported gr) ∧ (p ∈ reported d ↔ p ∈ reported gd).
Proof. exact (scans_equivalent demo_run ∅ false demo_scannable). Defined.

Lemma points_sorted_witness :
  ∃ ms, BuildScanlineMetaData (events_ demo_run) = Some ms ∧
    ms ≡ₚ metas false 0 (events_ demo_run) ++ metas true 0 (events_ demo_run) ∧ StronglySorted (λ x y, CompareEvent x y = true) ms.
Proof. exact (points_sorted (events_ demo_run) (sc_events _ demo_scannable)). Defined.

Lemma run_reports_once_witness :
  ∃ r d c', ScanlineAlgorithm demo_run ∅ false = Some (r, d) ∧ RunAlgorithm ∅ false demo_run = Some c' ∧
    GetRaceCount c' = u32 (Z.of_nat (length (GetResult c'))).
Proof.
  destruct (run_reports_once demo_run ∅ false demo_scannable) as (r & d & c' & H1 & H2 & H3 & _); [reflexivity..|].
  exists r, d, c'. exact (conj H1 (conj H2 H3)).
Defined.
