(* ===== verification/SimtProofs.v ===== *)
(** The overlap sweep between a static event and the records of a SIMT entry:
    exact when the pair cannot be two reads, and what it misses otherwise. *)
From stdpp Require Import base numbers option gmap sets strings sorting list.
From S2P Require Import Prelude.
From S2P Require Import RecordDefs.
From S2P Require Import Platform.
From S2P Require Import EventDef.
From S2P Require Import ConvertProofs.
From S2P Require Import EventContainer.
From S2P Require Import MemSeriesProofs.
From S2P Require Import MemEventChecker.
From S2P Require Import RadixProofs.
From S2P Require Import RaceTheorems.
Import Race Overlap Checker.

(** ** Sorted inputs *)

#[global] Instance sm_le_trans : Transitive sm_le.
Proof. intros a b c. unfold sm_le. lia. Qed.
#[global] Instance sm_le_total : Total sm_le.
Proof. intros a b. unfold sm_le. lia. Qed.
#[global] Instance pair_le_trans : Transitive pair_le.
Proof. intros a b c. unfold pair_le. lia. Qed.
#[global] Instance pair_le_total : Total pair_le.
Proof. intros a b. unfold pair_le. lia. Qed.

(** A record of bytes in the address space. *)
Definition record_ok (r : ShadowMemoryRecord) : Prop :=
  0 <= smr_addr r ∧ 0 < smr_size r ∧ smr_addr r + smr_size r < 18446744073709551616.

Lemma elem_of_records r buffer : r ∈ TransToRecords buffer → record r ∈ buffer.
Proof.
  unfold TransToRecords. rewrite merge_sort_Permutation. intros (i & y & -> & Hi)%elem_of_lookup_imap_1.
  by eapply list_elem_of_lookup_2.
Qed.

Lemma records_elem x buffer : x ∈ buffer → ∃ r, r ∈ TransToRecords buffer ∧ record r = x.
Proof.
  intros [i Hi]%list_elem_of_lookup. exists (mkCmp x (Z.of_nat i)). split; [|done]. unfold TransToRecords.
  rewrite merge_sort_Permutation. apply elem_of_lookup_imap. eauto.
Qed.

Lemma rec_end_ok r : record_ok (record r) → rec_end r = smr_addr (record r) + smr_size (record r).
Proof. intros (? & ? & ?). unfold rec_end. apply u64_small. unfold is_u64. lia. Qed.

Lemma elem_of_SplitMem op p :
  op_fits op →
  p ∈ SplitMem op ↔ ∃ i j, 0 <= i < repeatTimes op ∧ 0 <= j < blockNum op ∧
    p = (block_base op i j, block_base op i j + blockSize op).
Proof.
  intros Hop. assert (∀ i j, 0 <= i < repeatTimes op → 0 <= j < blockNum op →
    (u64 (u64 (addr op + u64 (u64 (i * repeatStride op) * blockSize op)) + u64 (u64 (j * blockStride op) * blockSize op)),
     u64 (u64 (u64 (addr op + u64 (u64 (i * repeatStride op) * blockSize op)) + u64 (u64 (j * blockStride op) * blockSize op)) + blockSize op))
    = (block_base op i j, block_base op i j + blockSize op)) as Hu.
  { intros i j Hi Hj. pose proof (block_base_mono op i j (repeatTimes op - 1) (blockNum op - 1) Hop ltac:(lia) ltac:(lia)) as Hm.
    destruct Hop as [H1 H2 H3 H4 H5 H6 H7 H8]. unfold block_base in *. set (a := i * repeatStride op) in *. set (b := j * blockStride op) in *.
    assert (0 <= a ∧ 0 <= b) by (unfold a, b; split; nia). assert (a <= a * blockSize op ∧ b <= b * blockSize op) by nia.
    rewrite (u64_small a), (u64_small b) by (unfold is_u64; lia).
    rewrite (u64_small (a * blockSize op)), (u64_small (b * blockSize op)) by (unfold is_u64; lia).
    rewrite (u64_small (addr op + a * blockSize op)) by (unfold is_u64; lia).
    rewrite (u64_small (addr op + a * blockSize op + b * blockSize op)) by (unfold is_u64; lia).
    rewrite u64_small by (unfold is_u64; lia). done. }
  unfold SplitMem. rewrite list_elem_of_bind. setoid_rewrite list_elem_of_bind. setoid_rewrite list_elem_of_singleton.
  setoid_rewrite elem_of_seqZ. split.
  - intros (i & (j & -> & Hj) & Hi). exists i, j. rewrite Hu by lia. repeat split; lia || done.
  - intros (i & j & Hi & Hj & ->). exists i. split; [|lia]. exists j. split; [|lia]. by rewrite Hu.
Qed.

(** ** The sweep *)

Definition meets (p : Z * Z) (r : CompareShadowMemoryRecord) : Prop :=
  p.1 < smr_addr (record r) + smr_size (record r) ∧ smr_addr (record r) < p.2.

Lemma sweep_exact fuel rd l1 l2 i2 :
  (length l1 + length l2 <= fuel)%nat →
  StronglySorted (λ a b : Z * Z, a.1 <= b.1) l1 → Forall (λ p : Z * Z, p.1 < p.2) l1 →
  StronglySorted (λ a b, smr_addr (record a) <= smr_addr (record b)) l2 → Forall (λ r, record_ok (record r)) l2 →
  Forall (λ r, rec_read r && rd = false) l2 →
  (mem_dyn_loop fuel rd l1 l2 i2).1 = true ↔ ∃ p r, p ∈ l1 ∧ r ∈ l2 ∧ meets p r.
Proof.
  revert l1 l2. induction fuel as [|fuel IH]; intros l1 l2 Hf S1 N1 S2 N2 R2; cbn [mem_dyn_loop].
  { destruct l1; [|simpl in Hf; lia]. split; [done|]. intros (p & r & ?%elem_of_nil & _). done. }
  destruct l1 as [|[s1 e1] l1]; [split; [done|]; intros (p & r & ?%elem_of_nil & _); done|].
  destruct l2 as [|r2 l2]; [split; [done|]; intros (p & r & _ & ?%elem_of_nil & _); done|].
  apply StronglySorted_inv in S1 as [S1 L1], S2 as [S2 L2]. apply Forall_cons in N1 as [N1 N1'], N2 as [N2 N2'], R2 as [R2 R2'].
  rewrite (rec_end_ok r2) by done. rewrite R2. cbn [negb]. rewrite andb_true_r. simpl in N1, Hf. set (s2 := smr_addr (record r2)) in *.
  set (e2 := s2 + smr_size (record r2)) in *. assert (s2 < e2) by (unfold e2, s2; destruct N2; lia).
  rewrite Forall_forall in L1. rewrite Forall_forall in L2. destruct ((s1 <? e2) && (s2 <? e1)) eqn:Eo.
  { rewrite andb_true_iff, !Z.ltb_lt in Eo. split; [|done]. intros _. exists (s1, e1), r2.
    split; [apply elem_of_cons; by left|]. split; [apply elem_of_cons; by left|]. unfold meets. by fold s2 e2. }
  rewrite andb_false_iff, !Z.ltb_ge in Eo. destruct (Z.ltb_spec e1 e2).
  - rewrite IH by (done || (simpl; lia) || (constructor; [done|by apply Forall_forall]) || by constructor). split; [intros (p & r & ? & ? & ?); exists p, r; (split; [apply elem_of_cons; by right|done])|].
    intros (p & r & [->|Hp]%elem_of_cons & Hr & Hm); [|eauto 10]. exfalso. unfold meets in Hm. simpl in Hm.
    apply elem_of_cons in Hr as [->|Hr]; [fold s2 in Hm; lia|]. specialize (L2 r Hr). fold s2 in L2. lia.
  - destruct (Z.eqb_spec e1 e2); [lia|]. rewrite IH by (done || (simpl; lia) || (constructor; [done|by apply Forall_forall]) || by constructor).
    split; [intros (p & r & ? & ? & ?); exists p, r; (split; [done|split; [apply elem_of_cons; by right|done] ])|].
    intros (p & r & Hp & [->|Hr]%elem_of_cons & Hm); [|eauto 10]. exfalso. unfold meets in Hm. fold s2 in Hm. fold e2 in Hm.
    apply elem_of_cons in Hp as [->|Hp]; [simpl in Hm; lia|]. specialize (L1 p Hp). simpl in L1. lia.
Qed.

Lemma sorted_starts op : StronglySorted (λ a b : Z * Z, a.1 <= b.1) (merge_sort pair_le (SplitMem op)).
Proof.
  eapply StronglySorted_weaken; [|apply (StronglySorted_merge_sort pair_le)]. intros a b _ _. unfold pair_le. lia.
Qed.

Lemma sorted_records buffer :
  StronglySorted (λ a b, smr_addr (record a) <= smr_addr (record b)) (TransToRecords buffer).
Proof.
  eapply StronglySorted_weaken; [|apply (StronglySorted_merge_sort sm_le)]. intros a b _ _. unfold sm_le. lia.
Qed.

(** The operation and the record access a common byte. *)
Definition touches_record (op : MemOpInfo) (r : ShadowMemoryRecord) : Prop :=
  ∃ x, touched op x ∧ smr_addr r <= x < smr_addr r + smr_size r.

Lemma meets_touches op r :
  op_fits op → record_ok (record r) → (∃ p, p ∈ SplitMem op ∧ meets p r) ↔ touches_record op (record r).
Proof.
  intros Hop (Ha & Hs & Hf). pose proof (o_size _ Hop). unfold meets, touches_record, touched. split.
  - intros (p & Hp & H1 & H2). apply elem_of_SplitMem in Hp as (i & j & Hi & Hj & ->); [|done]. simpl in *.
    exists (Z.max (block_base op i j) (smr_addr (record r))). split; [|lia]. exists i, j. lia.
  - intros (x & (i & j & Hi & Hj & Hx) & Hr). exists (block_base op i j, block_base op i j + blockSize op). simpl.
    split; [apply elem_of_SplitMem; eauto|lia].
Qed.

(** C38: unless both sides are reads, the overlap test of a static event with a
    SIMT entry finds an overlap exactly when a byte of the event lies in one of
    the entry's records. *)
Theorem write_sweep_exact op d i2 :
  op_fits op → dyn_isSimtEntry d = true → Forall record_ok (dyn_buffer d) →
  opType op ≠ READ ∨ Forall (λ r, smr_accessType r ≠ READ) (dyn_buffer d) →
  (IsMemoryOverlap_mem_dyn op d i2).1 = true ↔ ∃ r, r ∈ dyn_buffer d ∧ touches_record op r.
Proof.
  intros Hop Hd Hr Hw. unfold IsMemoryOverlap_mem_dyn, has_records. rewrite Hd. case_bool_decide as Eb; cbn [andb negb].
  { rewrite Eb. split; [done|]. intros (r & ?%elem_of_nil & _). done. }
  assert (∀ r, r ∈ TransToRecords (dyn_buffer d) → record_ok (record r)) as Hok.
  { intros r ?%elem_of_records. rewrite Forall_forall in Hr. auto. }
  rewrite sweep_exact.
  - split.
    + intros (p & r & Hp & Hin & Hm). exists (record r). split; [by apply elem_of_records|].
      apply meets_touches; [done|auto|]. exists p. by rewrite merge_sort_Permutation in Hp.
    + intros (x & Hx & Ht). destruct (records_elem _ _ Hx) as (r & Hin & <-). apply meets_touches in Ht as (p & Hp & Hm); [|done|auto].
      exists p, r. by rewrite merge_sort_Permutation.
  - unfold TransToRecords. rewrite (merge_sort_Permutation sm_le), length_imap. lia.
  - apply sorted_starts.
  - apply Forall_forall. intros p Hp. rewrite merge_sort_Permutation in Hp. apply elem_of_SplitMem in Hp as (i & j & _ & _ & ->); [|done].
    simpl. pose proof (o_size _ Hop). lia.
  - apply sorted_records.
  - by apply Forall_forall.
  - apply Forall_forall. intros r Hin. unfold rec_read, is_read. destruct Hw as [Hw|Hw].
    + rewrite (bool_decide_eq_false_2 (opType op = READ)) by done. by rewrite andb_false_r.
    + apply elem_of_records in Hin. rewrite Forall_forall in Hw. by rewrite (bool_decide_eq_false_2 (smr_accessType _ = READ)) by auto.
Qed.

(** *** Examples *)

Definition demo_record (a n : Z) (t : AccessType) : ShadowMemoryRecord :=
  {| smr_addr := a; smr_size := n; smr_location := {| loc_fileNo := 0; loc_lineNo := 0; loc_pc := 0; loc_blockId := 0 |};
     smr_threadLoc := no_thread; smr_space := UB; smr_accessType := t |}.

Definition demo_simt (l : list ShadowMemoryRecord) : DynamicOpInfo :=
  {| dyn_minAddr := 0; dyn_maxAddr := 64; dyn_isSimtEntry := true; dyn_memType := MemType.UB; dyn_buffer := l |}.

Lemma demo_op_fits t a : 0 <= a < 1000 → op_fits (demo_op t a 1 0).
Proof. intros Ha. by destruct (demo_static 0 PIPE_V t a 1 0) as ([] & _); try lia. Qed.

Lemma write_sweep_exact_witness :
  (IsMemoryOverlap_mem_dyn (demo_op WRITE 0 1 0) (demo_simt [demo_record 24 16 READ; demo_record 28 4 WRITE]) (mkIdxInfo 1 0)).1 = true
  ↔ ∃ r, r ∈ [demo_record 24 16 READ; demo_record 28 4 WRITE] ∧ touches_record (demo_op WRITE 0 1 0) r.
Proof.
  apply (write_sweep_exact (demo_op WRITE 0 1 0) (demo_simt [demo_record 24 16 READ; demo_record 28 4 WRITE])).
  - apply demo_op_fits. lia.
  - done.
  - repeat (apply Forall_cons; split; [unfold record_ok; simpl; lia|]). constructor.
  - by left.
Defined.

(** When both the static event and the first record it meets are reads, the
    sweep passes over the block for good: here the read of 32 bytes meets a
    wider read record and is dropped before the write inside it is looked at, so
    the overlap with that write is not found. *)
Theorem read_sweep_misses_write :
  let op := demo_op READ 0 1 0 in
  let w := demo_record 28 4 WRITE in
  (∀ i2, IsMemoryOverlap_mem_dyn op (demo_simt [demo_record 24 16 READ; w]) i2 = (false, i2)) ∧
  (∀ i2, (IsMemoryOverlap_mem_dyn op (demo_simt [w]) i2).1 = true) ∧ touches_record op w.
Proof.
  cbn zeta. split; [reflexivity|]. split; [reflexivity|]. exists 28. split; [|simpl; lia]. exists 0, 0. unfold block_base. simpl. lia.
Qed.
