(* ===== verification/RegisterSanitizer.v ===== *)
(** The register check: [csrc/register_sanitizer/register_sanitizer.h] and
    [register_sanitizer.cpp], with the escaping of names
    ([csrc/core/framework/utility/ustring.cpp]) and the index under which a core
    records its registers ([csrc/plugin/online_check.h]).

    The sanitizer keeps the last value each core wrote to each register; at the
    end of a kernel it reports the registers that were not put back to their
    default. [None] is an access outside the table, or the call of an empty
    notification function. *)
From stdpp Require Import base numbers option gmap sets strings sorting list.
From S2P Require Import Prelude.
From S2P Require Import RecordDefs.
From S2P Require Import Platform.
From S2P Require Import EventDef.
From S2P Require Import AddressSanitizer.
From S2P Require Import EventContainer.
From S2P Require Import PipelineReplayer.
From S2P Require Import MemEventChecker.
Import KernelManager.

(** ** [Utility::ReplaceInvalidChar] *)
Module Ustring.

(** The characters of a name. *)
Definition chars : string → list Ascii.ascii := String.list_ascii_of_string.
Definition text (c : Z) : Ascii.ascii := Ascii.ascii_of_N (Z.to_N c).

(** The table; its keys are single characters. It is a hash map, so the order of
    the iteration is not specified. *)
Definition INVALID_CHAR : list (Ascii.ascii * list Ascii.ascii) :=
  [(text 10, chars "\n"); (text 12, chars "\f"); (text 13, chars "\r"); (text 8, chars "\b");
   (text 9, chars "\t"); (text 11, chars "\v"); (text 127, chars "\u007F")].

(** [std::string::find] of one character, from a position. *)
Fixpoint find (c : Ascii.ascii) (s : list Ascii.ascii) : option nat :=
  match s with
  | [] => None
  | x :: s => if bool_decide (x = c) then Some 0%nat else S <$> find c s
  end.
Definition find_from (c : Ascii.ascii) (s : list Ascii.ascii) (pos : nat) : option nat :=
  Nat.add pos <$> find c (drop pos s).

(** The inner loop; every round replaces one character of the name. *)
Fixpoint replace_loop (fuel : nat) (c : Ascii.ascii) (by_ s : list Ascii.ascii) (pos : nat) : list Ascii.ascii :=
  match fuel with
  | O => s
  | S fuel =>
      match find_from c s pos with
      | None => s
      | Some p => replace_loop fuel c by_ (take p s ++ by_ ++ drop (S p) s) (p + length by_)
      end
  end.

Definition replace_item (s : list Ascii.ascii) (item : Ascii.ascii * list Ascii.ascii) : list Ascii.ascii :=
  replace_loop (S (length s)) item.1 item.2 s 0.

(** [order] is the order in which the table is traversed. *)
Definition ReplaceInvalidChar (order : list (Ascii.ascii * list Ascii.ascii)) (input : string) : string :=
  String.string_of_list_ascii (foldl replace_item (chars input) order).

(** *** Reference: one pass over the characters *)

Definition escape1 (item : Ascii.ascii * list Ascii.ascii) (c : Ascii.ascii) : list Ascii.ascii :=
  if bool_decide (c = item.1) then item.2 else [c].
Definition escape (table : list (Ascii.ascii * list Ascii.ascii)) (c : Ascii.ascii) : list Ascii.ascii :=
  default [c] ((list_to_map table : gmap Ascii.ascii _) !! c).

Lemma bind_one {A B} (f : A → list B) x l : (x :: l) ≫= f = f x ++ (l ≫= f).
Proof. done. Qed.

Lemma find_None c s : find c s = None → c ∉ s.
Proof.
  induction s as [|x s IH]; [set_solver|]. simpl. case_bool_decide; [done|]. intros H'%fmap_None. set_solver.
Qed.

Lemma find_Some c s p : find c s = Some p → (c ∉ take p s) ∧ (p < length s)%nat ∧ s = take p s ++ c :: drop (S p) s.
Proof.
  revert p. induction s as [|x s IH]; intros p; simpl; [done|]. case_bool_decide as E.
  - intros [= <-]. subst. split_and!; [set_solver|lia|done].
  - intros (q & (Hn & Hq & Hs)%IH & ->)%fmap_Some. simpl. split_and!; [set_solver|lia|]. congruence.
Qed.

Lemma escape1_absent item s : item.1 ∉ s → s ≫= escape1 item = s.
Proof.
  induction s as [|x s IH]; [done|]. intros Hn. rewrite bind_one, IH by set_solver. unfold escape1.
  case_bool_decide; [set_solver|done].
Qed.

Lemma replace_loop_exact fuel item pre s :
  (length s < fuel)%nat →
  replace_loop fuel item.1 item.2 (pre ++ s) (length pre) = pre ++ (s ≫= escape1 item).
Proof.
  revert pre s. induction fuel as [|fuel IH]; intros pre s Hf; [lia|]. cbn [replace_loop]. unfold find_from.
  rewrite drop_app_length. destruct (find item.1 s) as [p|] eqn:E; simpl.
  - apply find_Some in E as (Hn & Hp & Hs). set (u := take p s) in *. set (v := drop (S p) s) in *.
    assert (Hu : length u = p) by (unfold u; rewrite length_take; lia).
    assert (Hv : (length v < fuel)%nat). { unfold v. rewrite length_drop. lia. }
    rewrite take_app_add, drop_app_ge by lia. replace (S (length pre + p) - length pre)%nat with (S p) by lia.
    fold u v. replace (length pre + p + length item.2)%nat with (length (pre ++ u ++ item.2)).
    2: { rewrite !length_app. lia. }
    replace ((pre ++ u) ++ item.2 ++ v) with ((pre ++ u ++ item.2) ++ v) by (by rewrite !app_assoc).
    rewrite IH by done. rewrite Hs, bind_app, bind_one, (escape1_absent item u Hn). unfold escape1 at 2.
    rewrite bool_decide_true by done. by rewrite !app_assoc.
  - by rewrite escape1_absent by (by apply find_None).
Qed.

Lemma replace_item_exact s item : replace_item s item = s ≫= escape1 item.
Proof. apply (replace_loop_exact (S (length s)) item [] s). lia. Qed.

(** No replacement text holds a character of the table. *)
Definition table_ok (table : list (Ascii.ascii * list Ascii.ascii)) : Prop :=
  ∀ item k, item ∈ table → k ∈ table.*1 → k ∉ item.2.

Lemma escape_none table c : c ∉ table.*1 → escape table c = [c].
Proof. intros Hc. unfold escape. by rewrite not_elem_of_list_to_map_1. Qed.

Lemma escape_absent table s : (∀ k, k ∈ table.*1 → k ∉ s) → s ≫= escape table = s.
Proof.
  induction s as [|x s IH]; [done|]. intros Hn. rewrite bind_one, IH by set_solver.
  rewrite escape_none; [done|]. intros Hx. apply (Hn x Hx). set_solver.
Qed.

Lemma replace_all_exact table s : table_ok table → foldl replace_item s table = s ≫= escape table.
Proof.
  revert s. induction table as [|item table IH]; intros s Hok; simpl.
  - symmetry. apply escape_absent. set_solver.
  - rewrite replace_item_exact, IH by (intros i k Hi Hk; apply (Hok i k); simpl; set_solver).
    induction s as [|c s IHs]; [done|]. rewrite !bind_one, bind_app, IHs. f_equal.
    unfold escape1. case_bool_decide as E.
    + rewrite escape_absent by (intros k Hk; apply (Hok item k); simpl; set_solver).
      unfold escape. destruct item as [k v]. simpl in *. subst. by rewrite lookup_insert_eq.
    + unfold escape. destruct item as [k v]. simpl in *. rewrite lookup_insert_ne by done.
      by rewrite app_nil_r.
Qed.

Lemma escape_perm t t' c : t ≡ₚ t' → NoDup t.*1 → escape t c = escape t' c.
Proof. intros Ht Hnd. unfold escape. by rewrite (list_to_map_proper t t' Hnd Ht). Qed.

Lemma table_nodup : NoDup INVALID_CHAR.*1.
Proof. by apply (bool_decide_unpack _). Qed.

Lemma table_replacements : table_ok INVALID_CHAR.
Proof.
  assert (H : Forall (λ item, Forall (λ k, k ∉ item.2) INVALID_CHAR.*1) INVALID_CHAR) by by apply (bool_decide_unpack _).
  intros item k Hi Hk. rewrite Forall_forall in H. specialize (H _ Hi). rewrite Forall_forall in H. by apply H.
Qed.

(** Whatever the order of the table, the name is escaped character by character,
    and no character of the table is left. *)
Theorem escaping_exact order input :
  order ≡ₚ INVALID_CHAR →
  chars (ReplaceInvalidChar order input) = chars input ≫= escape INVALID_CHAR ∧
  ∀ k, k ∈ INVALID_CHAR.*1 → k ∉ chars (ReplaceInvalidChar order input).
Proof.
  intros Hp. unfold ReplaceInvalidChar, chars. rewrite String.list_ascii_of_string_of_list_ascii.
  assert (Hok : table_ok order).
  { intros i k Hi Hk. rewrite Hp in Hi. rewrite Hp in Hk. by apply table_replacements. }
  rewrite replace_all_exact by done.
  assert (He : ∀ s, s ≫= escape order = s ≫= escape INVALID_CHAR).
  { intros s. induction s as [|c s IH]; [done|]. rewrite !bind_one, IH. f_equal. symmetry.
    apply escape_perm; [done|apply table_nodup]. }
  rewrite He. split; [done|]. intros k Hk (c & Hin & _)%list_elem_of_bind.
  unfold escape in Hin. destruct (list_to_map INVALID_CHAR !! c) as [v|] eqn:E; simpl in Hin.
  - apply elem_of_list_to_map_2 in E. by apply (table_replacements (c, v) k).
  - apply list_elem_of_singleton in Hin as <-. by apply not_elem_of_list_to_map_2 in E.
Qed.
End Ustring.

(** ** The index of a core, on the device *)
Module RegIdx.
Definition C220_A2_OR_A3_EVEN_DEVICE_VEC_PHYS_CORE_END_IDS : Z := 74.
Definition C220_A3_ODD_DEVICE_VEC_CUBE_CORE_START_IDS : Z := 32768.
Definition C220_A3_ODD_DEVICE_VEC_PHYS_CORE_END_IDS : Z := 32842.
Definition C310_A5_MAXCORE_NUM : Z := 108.
Definition MAX_AICORE_NUM : Z := C310_A5_MAXCORE_NUM.

(** [isC310] is the choice of the preprocessor. *)
Definition CheckRegIdxValid (isC310 : bool) (regIdx : Z) : bool :=
  if isC310 then (0 <=? regIdx) && (regIdx <? C310_A5_MAXCORE_NUM)
  else (0 <=? regIdx) && (regIdx <=? C220_A2_OR_A3_EVEN_DEVICE_VEC_PHYS_CORE_END_IDS).

(** On a core; [coreId] is what the instruction answers. *)
Definition GetRegisterIdx (coreId : Z) : Z :=
  if (0 <=? coreId) && (coreId <=? C220_A2_OR_A3_EVEN_DEVICE_VEC_PHYS_CORE_END_IDS) then coreId
  else if (C220_A3_ODD_DEVICE_VEC_CUBE_CORE_START_IDS <=? coreId) &&
          (coreId <=? C220_A3_ODD_DEVICE_VEC_PHYS_CORE_END_IDS)
  then coreId - C220_A3_ODD_DEVICE_VEC_CUBE_CORE_START_IDS
  else coreId.

(** The cores the comments of the code document: A2 and even A3 devices, odd A3
    devices, A5 devices. *)
Definition even_core (c : Z) : Prop := 0 <= c <= 74.
Definition odd_core (c : Z) : Prop := 32768 <= c <= 32842.
Definition a5_core (c : Z) : Prop := 0 <= c < 108.

Lemma idx_in_table c : even_core c ∨ odd_core c ∨ a5_core c → 0 <= GetRegisterIdx c < MAX_AICORE_NUM.
Proof.
  unfold even_core, odd_core, a5_core, GetRegisterIdx, MAX_AICORE_NUM, C310_A5_MAXCORE_NUM,
    C220_A2_OR_A3_EVEN_DEVICE_VEC_PHYS_CORE_END_IDS, C220_A3_ODD_DEVICE_VEC_CUBE_CORE_START_IDS,
    C220_A3_ODD_DEVICE_VEC_PHYS_CORE_END_IDS.
  intros H. repeat case_match; bool_prop; lia.
Qed.

(** The cores of one device have different indices. *)
Lemma idx_injective (P : Z → Prop) c c' :
  P = even_core ∨ P = odd_core ∨ P = a5_core → P c → P c' → GetRegisterIdx c = GetRegisterIdx c' → c = c'.
Proof.
  unfold GetRegisterIdx, C220_A2_OR_A3_EVEN_DEVICE_VEC_PHYS_CORE_END_IDS,
    C220_A3_ODD_DEVICE_VEC_CUBE_CORE_START_IDS, C220_A3_ODD_DEVICE_VEC_PHYS_CORE_END_IDS.
  intros [->|[->| ->] ]; unfold even_core, odd_core, a5_core; intros; repeat case_match; bool_prop; lia.
Qed.
End RegIdx.

(** ** The sanitizer *)
Module Reg.
Import RegIdx.

Record RegValStore := mkStore { st_regVal : Z; st_blockType : BlockType; st_blockId : Z }.

Record CheckedRegInfo := mkChecked {
  c_regType : RegisterType.RegisterType; regNameStr : string; regDftVal : Z; check : bool;
}.

Definition ALL_ONES : Z := u64 (-1).

Definition g_regInfoTbl : list CheckedRegInfo :=
  [mkChecked RegisterType.VECTOR_MASK_0 "VECTOR_MASK_0" ALL_ONES true;
   mkChecked RegisterType.VECTOR_MASK_1 "VECTOR_MASK_1" ALL_ONES true;
   mkChecked RegisterType.CTRL "CTRL[56]" 0 true;
   mkChecked RegisterType.FFTS_BASE_ADDR "FFTS_BASE_ADDR" 0 true;
   mkChecked RegisterType.FPC "FPC" 0 true;
   mkChecked RegisterType.QUANT_PRE "QUANT_PRE" 0 true;
   mkChecked RegisterType.QUANT_POST "QUANT_POST" 0 false;
   mkChecked RegisterType.LRELU_ALPHA "LRELU_ALPHA" 0 true].

(** What a warning says: the core, the kernel, the register and its values. The
    other members of the event stay zero. *)
Record RegisterDispInfo := mkRegDisp {
  d_coreId : Z; d_blockType : BlockType; d_kernelName : string; d_regType : Z; d_exp : Z; d_act : Z;
}.

Record RegisterSanitizer := mkReg {
  checkBlockId_ : Z; registered : bool; regValActual_ : list (list RegValStore); kernelName_ : string;
  sent : list (LogLv * RegisterDispInfo);
}.

Definition REG_NUM : Z := RegisterType.code RegisterType.MAX.
Definition MAX_BLOCKDIM_NUMS : Z := 100.

Definition SetDeviceInfo (config : Config) (a : RegisterSanitizer) : RegisterSanitizer * bool :=
  (mkReg (checkBlockId config) (registered a) (regValActual_ a) (kernelName_ a) (sent a), false).

(** Every core starts from the defaults. *)
Definition default_row : list RegValStore := (λ info, mkStore (regDftVal info) AIVEC 0) <$> g_regInfoTbl.

Definition Init (a : RegisterSanitizer) : RegisterSanitizer :=
  mkReg (checkBlockId_ a) (registered a) (replicate (Z.to_nat MAX_AICORE_NUM) default_row) "" (sent a).

Definition SetKernelInfo (order : list (Ascii.ascii * list Ascii.ascii)) (k : KernelSummary) (a : RegisterSanitizer)
    : RegisterSanitizer * bool :=
  let a := Init a in
  if bool_decide (kernelType k = KT_AICPU) then (a, false)
  else if MAX_BLOCKDIM_NUMS <=? blockDim k then (a, false)
  else (mkReg (checkBlockId_ a) (registered a) (regValActual_ a)
          (Ustring.ReplaceInvalidChar order (kernelName k)) (sent a), true).

Definition CheckRecordBeforeProcess (record : SanitizerRecord) : bool :=
  match record with KERNEL_RECORD _ => true | _ => false end.

Definition RegisterNotifyFunc (a : RegisterSanitizer) : RegisterSanitizer :=
  mkReg (checkBlockId_ a) true (regValActual_ a) (kernelName_ a) (sent a).

(** The message for one entry of the table, when there is one. *)
Definition check_entry (a : RegisterSanitizer) (i r : Z) : option (list RegisterDispInfo) :=
  row ← at_index (regValActual_ a) i;
  v ← at_index row r;
  info ← at_index g_regInfoTbl r;
  Some (if negb (st_regVal v =? regDftVal info) && check info
        then [mkRegDisp (st_blockId v) (st_blockType v) (kernelName_ a) r (regDftVal info) (st_regVal v)] else []).

(** The indices of the two loops. *)
Definition entries : list (Z * Z) := i ← seqZ 0 MAX_AICORE_NUM; r ← seqZ 0 REG_NUM; [(i, r)].

(** [ReportRegisterInfo] for each message. *)
Definition report (l : list RegisterDispInfo) (a : RegisterSanitizer) : option RegisterSanitizer :=
  if negb (registered a) && negb (bool_decide (l = [])) then None
  else Some (mkReg (checkBlockId_ a) (registered a) (regValActual_ a) (kernelName_ a)
               (sent a ++ (pair LV_WARN <$> l))).

Definition kernel_finish (a : RegisterSanitizer) : option RegisterSanitizer :=
  l ← mapM (λ ir, check_entry a ir.1 ir.2) entries; report (mjoin l) a.

Definition checked_value (t : RegisterType.RegisterType) (v : Z) : Z :=
  if bool_decide (t = RegisterType.CTRL) then Z.land (Z.shiftr v 56) 1 else v.

Definition store (e : SanEvent) (i : RegisterOpInfo) (a : RegisterSanitizer) : option RegisterSanitizer :=
  let idx := regIdx (regPayLoad i) in
  let r := RegisterType.code (regType i) in
  row ← at_index (regValActual_ a) idx;
  _ ← at_index row r;
  Some (mkReg (checkBlockId_ a) (registered a)
          (set_index (regValActual_ a) idx
             (set_index row r (mkStore (checked_value (regType i) (regVal (regPayLoad i))) (blockType (loc e))
                                 (coreId (loc e)))))
          (kernelName_ a) (sent a)).

(** One iteration of the loop of [DoEvents]. *)
Definition do_event (a : RegisterSanitizer) (e : SanEvent) : option RegisterSanitizer :=
  a ← (if Replay.is_finish e then kernel_finish a else Some a);
  match eventInfo e with RegInfo i => store e i a | _ => Some a end.

Fixpoint DoEvents (events : list SanEvent) (a : RegisterSanitizer) : option RegisterSanitizer :=
  match events with
  | [] => Some a
  | e :: events => a ← do_event a e; DoEvents events a
  end.
End Reg.

(** ** What is reported *)
Module RegTheorems.
Import RegIdx Reg.

(** What event [e] writes to register [r] of core [i]. *)
Definition writes (i r : Z) (e : SanEvent) : option RegValStore :=
  match eventInfo e with
  | RegInfo k =>
      if (regIdx (regPayLoad k) =? i) && (RegisterType.code (regType k) =? r)
      then Some (mkStore (checked_value (regType k) (regVal (regPayLoad k))) (blockType (loc e)) (coreId (loc e)))
      else None
  | _ => None
  end.
Definition initial (r : Z) : RegValStore := default (mkStore 0 AIVEC 0) (at_index default_row r).
(** The last write of the events, or the value the kernel starts with. *)
Definition final (evs : list SanEvent) (i r : Z) : RegValStore := default (initial r) (last (omap (writes i r) evs)).

(** The warnings the register check promises: one per core and checked register
    whose last value is not the default. *)
Definition expected (name : string) (evs : list SanEvent) : list RegisterDispInfo :=
  ir ← entries;
  let '(i, r) := ir in
  let v := final evs i r in
  match at_index g_regInfoTbl r with
  | Some info =>
      if check info && negb (st_regVal v =? regDftVal info)
      then [mkRegDisp (st_blockId v) (st_blockType v) name r (regDftVal info) (st_regVal v)] else []
  | None => []
  end.

(** The index and the register of an event are those of the table. *)
Definition in_table (e : SanEvent) : bool :=
  match eventInfo e with
  | RegInfo k => (0 <=? regIdx (regPayLoad k)) && (regIdx (regPayLoad k) <? MAX_AICORE_NUM) &&
                 negb (bool_decide (regType k = RegisterType.MAX))
  | _ => true
  end.

(** The table holds [f]. *)
Definition holds (f : Z → Z → RegValStore) (a : RegisterSanitizer) : Prop :=
  ∀ i r, 0 <= i < MAX_AICORE_NUM → 0 <= r < REG_NUM →
    ∃ row, at_index (regValActual_ a) i = Some row ∧ at_index row r = Some (f i r).

Lemma initial_holds a : holds (final []) (Init a).
Proof.
  intros i r Hi Hr. exists default_row. unfold at_index. rewrite (proj2 (Z.leb_le 0 i)) by lia.
  split; [apply lookup_replicate_2; unfold MAX_AICORE_NUM, C310_A5_MAXCORE_NUM in *; lia|].
  unfold final, initial, at_index. simpl. rewrite (proj2 (Z.leb_le 0 r)) by lia.
  destruct (default_row !! Z.to_nat r) eqn:E; [done|]. apply lookup_ge_None in E.
  change (length default_row) with 8%nat in E. unfold REG_NUM in Hr. simpl in Hr. lia.
Qed.

Lemma at_set {A} (l : list A) i j x y :
  at_index l i = Some x → 0 <= j → at_index (set_index l i y) j = if j =? i then Some y else at_index l j.
Proof.
  intros Hi Hj. pose proof (at_index_in _ _ _ Hi) as Hin. unfold at_index, set_index.
  rewrite (proj2 (Z.leb_le 0 j)) by lia. destruct (Z.eqb_spec j i) as [->|Hne].
  - apply list_lookup_insert_eq. lia.
  - apply list_lookup_insert_ne. lia.
Qed.

Lemma reg_code_range t : t ≠ RegisterType.MAX → 0 <= RegisterType.code t < REG_NUM.
Proof. unfold REG_NUM. destruct t; simpl; try lia. done. Qed.

Lemma final_snoc evs e i r : final (evs ++ [e]) i r = default (final evs i r) (writes i r e).
Proof.
  unfold final. rewrite omap_app. simpl. destruct (writes i r e); simpl; [by rewrite last_snoc|by rewrite app_nil_r].
Qed.

Lemma store_holds evs e a :
  holds (final evs) a → in_table e = true → Replay.is_finish e = false →
  ∃ a', do_event a e = Some a' ∧ holds (final (evs ++ [e])) a' ∧ registered a' = registered a ∧
    kernelName_ a' = kernelName_ a ∧ sent a' = sent a.
Proof.
  intros Ha He Hf. unfold do_event. rewrite Hf. cbn [mbind option_bind]. unfold in_table in He.
  destruct (eventInfo e) as [| | | | | | | | | |k| | | |] eqn:Ee;
    try (exists a; split; [done|]; split; [|done]; intros x y Hi Hr; rewrite final_snoc; unfold writes; rewrite Ee;
         by apply Ha).
  apply andb_true_iff in He as [ [H0%Z.leb_le H1%Z.ltb_lt]%andb_true_iff Hm%negb_true_iff%bool_decide_eq_false].
  pose proof (reg_code_range _ Hm) as Hc. destruct (Ha _ _ (conj H0 H1) Hc) as (row & Hrow & Hv).
  unfold store. rewrite Hrow. cbn [mbind option_bind]. rewrite Hv. cbn [mbind option_bind].
  eexists. split; [done|]. split; [|done]. intros i r Hi Hr. cbn [regValActual_].
  rewrite (at_set _ _ i _ _ Hrow) by lia. rewrite final_snoc. unfold writes. rewrite Ee.
  destruct (Z.eqb_spec i (regIdx (regPayLoad k))) as [->|Hne].
  - eexists. split; [done|]. rewrite (at_set _ _ r _ _ Hv) by lia. rewrite Z.eqb_refl. cbn [andb].
    rewrite (Z.eqb_sym (RegisterType.code _)). destruct (r =? _); [done|]. simpl.
    destruct (Ha _ _ (conj H0 H1) Hr) as (row' & Hrow' & Hr'). congruence.
  - rewrite (proj2 (Z.eqb_neq _ i)) by done. cbn [andb default]. by apply Ha.
Qed.

Lemma mapM_concat {A B} (f : A → option (list B)) (g : A → list B) l :
  (∀ x, x ∈ l → f x = Some (g x)) → mjoin <$> mapM f l = Some (l ≫= g).
Proof.
  induction l as [|x l IH]; intros H; [done|]. cbn [mapM]. rewrite H by set_solver. cbn [mbind option_bind].
  specialize (IH ltac:(set_solver)). destruct (mapM f l); [|done]. cbn [fmap option_fmap option_map mbind option_bind] in *. injection IH as IH. simpl. f_equal. f_equal. exact IH.
Qed.

Lemma finish_holds evs a :
  holds (final evs) a → registered a = true →
  kernel_finish a = Some (mkReg (checkBlockId_ a) (registered a) (regValActual_ a) (kernelName_ a)
                            (sent a ++ (pair LV_WARN <$> expected (kernelName_ a) evs))).
Proof.
  intros Ha Hreg. unfold kernel_finish.
  assert (H : mjoin <$> mapM (λ ir, check_entry a ir.1 ir.2) entries = Some (expected (kernelName_ a) evs)).
  { apply mapM_concat. intros [i r] Hin. unfold entries in Hin.
    apply list_elem_of_bind in Hin as (i' & Hin & Hi%elem_of_seqZ).
    apply list_elem_of_bind in Hin as (r' & [= -> ->]%list_elem_of_singleton & Hr%elem_of_seqZ).
    destruct (Ha i' r' ltac:(lia) ltac:(lia)) as (row & Hrow & Hv). unfold check_entry. cbn [fst snd].
    rewrite Hrow. cbn [mbind option_bind]. rewrite Hv. cbn [mbind option_bind].
    destruct (at_index g_regInfoTbl r') as [info|] eqn:Et.
    - cbn [mbind option_bind]. rewrite andb_comm. done.
    - exfalso. unfold at_index in Et. rewrite (proj2 (Z.leb_le 0 r')) in Et by lia.
      apply lookup_ge_None in Et. change (length g_regInfoTbl) with 8%nat in Et. unfold REG_NUM in Hr. simpl in Hr. lia. }
  destruct (mapM _ _) as [l|]; [|done]. cbn [mbind option_bind]. simpl in H. injection H as ->.
  unfold report. by rewrite Hreg.
Qed.

Lemma DoEvents_app l1 l2 a : DoEvents (l1 ++ l2) a = DoEvents l1 a ≫= DoEvents l2.
Proof.
  revert a. induction l1 as [|e l1 IH]; intros a; [done|]. cbn [DoEvents app]. destruct (do_event a e); [|done].
  simpl. apply IH.
Qed.

Lemma calls_flat calls s :
  foldl (λ s evs, s ≫= DoEvents evs) s calls = s ≫= DoEvents (mjoin calls).
Proof.
  revert s. induction calls as [|c calls IH]; intros s; simpl; [by destruct s|]. rewrite IH. destruct s; [|done]. simpl.
  by rewrite DoEvents_app.
Qed.

Lemma events_hold done evs a :
  holds (final done) a → Forall (λ e, in_table e = true ∧ Replay.is_finish e = false) evs →
  ∃ a', DoEvents evs a = Some a' ∧ holds (final (done ++ evs)) a' ∧ registered a' = registered a ∧
    kernelName_ a' = kernelName_ a ∧ sent a' = sent a.
Proof.
  revert done a. induction evs as [|e evs IH]; intros done a Ha Hf.
  - exists a. rewrite app_nil_r. done.
  - apply Forall_cons in Hf as [ [Ht Hn] Hf]. destruct (store_holds done e a Ha Ht Hn) as (a1 & E1 & H1 & R1 & N1 & S1).
    destruct (IH _ _ H1 Hf) as (a2 & E2 & H2 & R2 & N2 & S2). exists a2. cbn [DoEvents]. rewrite E1. simpl.
    split; [done|]. rewrite <- app_assoc in H2. split; [done|]. split_and!; congruence.
Qed.

(** C32: The register check reports, at the end of a kernel, exactly the checked
    registers of a core whose last value differs from the default, with the core
    that wrote it; registers nobody wrote are not reported, whatever an earlier
    kernel left, and the values do not depend on how the events are split into
    calls. *)
Theorem register_reports_exact order k a a0 calls evs fin :
  SetKernelInfo order k a = (a0, true) → registered a = true → mjoin calls = evs ++ [fin] →
  Replay.is_finish fin = true → Forall (λ e, in_table e = true ∧ Replay.is_finish e = false) evs →
  ∃ a', foldl (λ s evs, s ≫= DoEvents evs) (Some a0) calls = Some a' ∧
    sent a' = sent a ++ (pair LV_WARN <$> expected (Ustring.ReplaceInvalidChar order (kernelName k)) evs).
Proof.
  intros Hk Hreg Hc Hfin Hev. rewrite calls_flat, Hc. unfold SetKernelInfo in Hk.
  case_bool_decide; [done|]. case_match; [done|]. injection Hk as <-. cbn [mbind option_bind].
  rewrite DoEvents_app. set (a0 := mkReg _ _ _ _ _).
  destruct (events_hold [] evs a0) as (a1 & -> & H1 & R1 & N1 & S1); [apply (initial_holds a)|done|].
  cbn [mbind option_bind DoEvents]. unfold do_event. rewrite Hfin, (finish_holds _ _ H1) by (rewrite R1; done).
  cbn [mbind option_bind]. unfold Replay.is_finish in Hfin.
  destruct (eventInfo fin); try done. eexists. split; [done|]. cbn [sent]. rewrite S1, N1. done.
Qed.

(** An index outside the table is used without a check. *)
Theorem register_index_unchecked a e k :
  eventInfo e = RegInfo k → length (regValActual_ a) = Z.to_nat MAX_AICORE_NUM →
  ¬ (0 <= regIdx (regPayLoad k) < MAX_AICORE_NUM) → do_event a e = None.
Proof.
  intros He Hl Hn. unfold do_event, Replay.is_finish. rewrite He. cbn [mbind option_bind]. unfold store.
  destruct (at_index _ _) as [row|] eqn:E; [|done]. apply at_index_in in E. exfalso. apply Hn.
  unfold MAX_AICORE_NUM, C310_A5_MAXCORE_NUM in *. lia.
Qed.

(** *** Witness: core 3 leaves [FPC] and bit 55 of [CTRL] set, core 4 restores a mask *)

Definition ex_loc (core : Z) : LocInfo :=
  {| fileNo := 1; lineNo := 7; pc := 0; deviceIdx := 0; kernelIdx := 0; deviceId := 0; coreId := core;
     blockType := AIVEC |}.
Definition ex_event (core : Z) (i : EventInfo) : SanEvent :=
  {| serialNo := 1; pipe := PIPE_S; eventInfo := i; loc := ex_loc core; isAtomicMode := false; recordType := 0;
     closedRingStartSerialNo := 0 |}.
Definition ex_write (core : Z) (t : RegisterType.RegisterType) (v : Z) : SanEvent :=
  ex_event core (RegInfo (mkRegOp t (mkRegPayload VAL_UINT64 v (GetRegisterIdx core)))).
Definition ex_events : list SanEvent :=
  [ex_write 3 RegisterType.FPC 9; ex_write 3 RegisterType.CTRL (2 ^ 55); ex_write 4 RegisterType.VECTOR_MASK_0 0;
   ex_write 3 RegisterType.QUANT_POST 1; ex_write 4 RegisterType.VECTOR_MASK_0 ALL_ONES].
Definition ex_fin : SanEvent := ex_event 0 (ControlInfo CONTROL_KERNEL_FINISH).
Definition ex_kernel : KernelSummary := mkSummary 0 8 KT_AIVEC false false "add".
Definition ex_reg : RegisterSanitizer := mkReg 0 true [] "" [].

Lemma register_reports_exact_witness :
  ∃ a', foldl (λ s evs, s ≫= DoEvents evs) (Some (SetKernelInfo Ustring.INVALID_CHAR ex_kernel ex_reg).1)
          [ex_events; []; [ex_fin] ] = Some a' ∧
    sent a' = [(LV_WARN, mkRegDisp 3 AIVEC "add" (RegisterType.code RegisterType.FPC) 0 9)].
Proof.
  destruct (register_reports_exact Ustring.INVALID_CHAR ex_kernel ex_reg
              (SetKernelInfo Ustring.INVALID_CHAR ex_kernel ex_reg).1 [ex_events; []; [ex_fin] ] ex_events ex_fin)
    as (a' & E & Hs); [vm_compute; reflexivity|reflexivity|reflexivity|reflexivity| |].
  - unfold ex_events. repeat constructor.
  - exists a'. split; [exact E|]. rewrite Hs. vm_compute. reflexivity.
Defined.
End RegTheorems.
