(* ===== verification/SyncSanitizer.v ===== *)
(** The synchronisation check: [csrc/sync_sanitizer/sync_sanitizer.h] and
    [sync_sanitizer.cpp], with the message types of
    [csrc/core/framework/event_def.h].

    Three checks run over the events of a kernel: [set_flag] and [wait_flag] that
    have no partner, consecutive identical ones, and pipes that can never go on
    (with the pipeline replayer). Messages are appended to a log. [None] is an
    access outside a container or the call of an empty notification function. *)
From stdpp Require Import base numbers option gmap sets strings sorting list.
From S2P Require Import Prelude.
From S2P Require Import RecordDefs.
From S2P Require Import Platform.
From S2P Require Import EventDef.
From S2P Require Import AddressSanitizer.
From S2P Require Import EventContainer.
From S2P Require Import PipeLineProofs.
From S2P Require Import PipelineReplayer.
From S2P Require Import ReplayerProofs.
From S2P Require Import MemEventChecker.
Import KernelManager.

Definition BlockType_code (b : BlockType) : Z := match b with AIVEC => 0 | AICUBE => 1 | AICORE => 2 end.

Module Sync.

(** ** Messages *)

Inductive SyncCheckType := MATCH_CHECK | REDUMTAMCY_CHECK | CHECK_SIZE.
#[global] Instance SyncCheckType_eq : EqDecision SyncCheckType. Proof. solve_decision. Defined.

Record SyncDispInfo := mkSyncDisp {
  baseEvent : Race.ErrorEvent; srcPipe : PipeType; dstPipe : PipeType; eventId : Z; opType : SyncType;
  checkType : SyncCheckType;
}.

(** [SyncDispInfo::operator==] *)
Definition SyncDispInfo_eqb (a b : SyncDispInfo) : bool :=
  (Race.err_coreId (baseEvent a) =? Race.err_coreId (baseEvent b)) &&
  bool_decide (Race.err_blockType (baseEvent a) = Race.err_blockType (baseEvent b)) &&
  bool_decide (srcPipe a = srcPipe b) && bool_decide (dstPipe a = dstPipe b) && (eventId a =? eventId b) &&
  bool_decide (opType a = opType b) && bool_decide (checkType a = checkType b).

Definition zero_ErrorEvent : Race.ErrorEvent :=
  Race.mkErr 0 0 0 0 0 0 0 0 0 0 0 AIVEC no_thread false.
(** [SyncDispInfo {}] *)
Definition zero_SyncDispInfo : SyncDispInfo := mkSyncDisp zero_ErrorEvent PIPE_S PIPE_S 0 SET_FLAG MATCH_CHECK.

(** The events of a stuck kernel, with the name of the instruction. *)
Definition SyncStuckDspInfo : Type := list (Race.ErrorEvent * string).

Inductive message :=
  | MUnpaired (i : SyncDispInfo) | MRedundant (i : SyncDispInfo) | MThreads (e : Race.ErrorEvent)
  | MStuck (i : SyncStuckDspInfo) | MRecordLoss.

(** *** Names *)

Definition SyncTypeToStr (t : SyncType) : string :=
  match t with
  | SET_FLAG => "SET_FLAG" | WAIT_FLAG => "WAIT_FLAG" | PIPE_BARRIER => "PIPE_BARRIER" | FFTS_SYNC => "FFTS_SYNC"
  | WAIT_FLAG_DEV => "WAIT_FLAG_DEV" | IB_SET => "IB_SET" | IB_WAIT => "IB_WAIT" | SYNC_ALL => "SYNC_ALL"
  | MSTX_SET_CROSS => "MSTX_SET_CROSS" | MSTX_WAIT_CROSS => "MSTX_WAIT_CROSS" | GET_BUF => "GET_BUF"
  | RLS_BUF => "RLS_BUF" | WAIT_INTRA_BLOCK => "WAIT_INTRA_BLOCK" | HSET_FLAG => "HSET_FLAG"
  | HWAIT_FLAG => "HWAIT_FLAG" | DSB => "UNKNOWN_SYNC_TYPE"
  end.

Definition ERROR_EVENT_INSTRUCT_NAME_MAX_LEN : Z := 40.

Definition stuck_name (event : SanEvent) : string :=
  match eventInfo event with
  | SyncInfo i => SyncTypeToStr (sync_opType i)
  | FftsInfo i => SyncTypeToStr (ffts_opType i)
  | SoftInfo i => SyncTypeToStr (soft_opType i)
  | CrossInfo i => SyncTypeToStr (mstx_opType i)
  | BufInfo i => SyncTypeToStr (buf_opType i)
  | HSyncInfo i => SyncTypeToStr (h_opType i)
  | CoreBarrierInfo _ => "MSTX_CROSS_CORE_BARRIER"
  | NpuBarrierInfo _ => "MSTX_CROSS_NPU_BARRIER"
  | _ => "UNKNOWN"
  end.

(** The copy into the array of the event, which is zero before. *)
Definition FillStuckInstructName (event : SanEvent) : string :=
  String.substring 0 (Z.to_nat (ERROR_EVENT_INSTRUCT_NAME_MAX_LEN - 1)) (stuck_name event).

(** ** The object *)

Record SyncSanitizer := mkSync {
  kernelType_ : KernelType; deviceType_ : DeviceType; pipelineReplayer_ : Replay.PipelineReplayer;
  checkBlockId_ : Z; registered : bool;
  syncEvents_ : gmap Z (list SyncDispInfo);
  pipeRedundancyEvents_ : gmap Z SyncDispInfo;
  redundancyInfo_ : list SyncDispInfo;
  syncThreadsInfo_ : list Race.ErrorEvent;
  stuckEvents_ : SyncStuckDspInfo;
  isFinished_ : bool;
  (** a static variable of [ParseOnlineError] *)
  hasWarnedSyncIndexOutOfBounds : bool;
  sent : list (LogLv * message);
}.

Definition upd_match (m : gmap Z (list SyncDispInfo)) (s : SyncSanitizer) : SyncSanitizer :=
  mkSync (kernelType_ s) (deviceType_ s) (pipelineReplayer_ s) (checkBlockId_ s) (registered s) m
    (pipeRedundancyEvents_ s) (redundancyInfo_ s) (syncThreadsInfo_ s) (stuckEvents_ s) (isFinished_ s)
    (hasWarnedSyncIndexOutOfBounds s) (sent s).
Definition upd_redundancy (p : gmap Z SyncDispInfo) (l : list SyncDispInfo) (s : SyncSanitizer) : SyncSanitizer :=
  mkSync (kernelType_ s) (deviceType_ s) (pipelineReplayer_ s) (checkBlockId_ s) (registered s) (syncEvents_ s)
    p l (syncThreadsInfo_ s) (stuckEvents_ s) (isFinished_ s) (hasWarnedSyncIndexOutOfBounds s) (sent s).
Definition upd_stuck (r : Replay.PipelineReplayer) (l : SyncStuckDspInfo) (s : SyncSanitizer) : SyncSanitizer :=
  mkSync (kernelType_ s) (deviceType_ s) r (checkBlockId_ s) (registered s) (syncEvents_ s)
    (pipeRedundancyEvents_ s) (redundancyInfo_ s) (syncThreadsInfo_ s) l (isFinished_ s)
    (hasWarnedSyncIndexOutOfBounds s) (sent s).
Definition upd_finished (b : bool) (s : SyncSanitizer) : SyncSanitizer :=
  mkSync (kernelType_ s) (deviceType_ s) (pipelineReplayer_ s) (checkBlockId_ s) (registered s) (syncEvents_ s)
    (pipeRedundancyEvents_ s) (redundancyInfo_ s) (syncThreadsInfo_ s) (stuckEvents_ s) b
    (hasWarnedSyncIndexOutOfBounds s) (sent s).
Definition upd_threads (l : list Race.ErrorEvent) (w : bool) (out : list (LogLv * message)) (s : SyncSanitizer)
    : SyncSanitizer :=
  mkSync (kernelType_ s) (deviceType_ s) (pipelineReplayer_ s) (checkBlockId_ s) (registered s) (syncEvents_ s)
    (pipeRedundancyEvents_ s) (redundancyInfo_ s) l (stuckEvents_ s) (isFinished_ s) w out.

(** Calls of [msgFunc_]. *)
Definition notify (l : list (LogLv * message)) (s : SyncSanitizer) : option SyncSanitizer :=
  if negb (registered s) && negb (bool_decide (length l = 0%nat)) then None
  else Some (upd_threads (syncThreadsInfo_ s) (hasWarnedSyncIndexOutOfBounds s) (sent s ++ l) s).

Definition CHECK_ALL_BLOCK : Z := -1.
Definition MAX_BLOCKDIM_NUMS : Z := 100.

Definition SetDeviceInfo (device : DeviceType) (config : Config) (s : SyncSanitizer) : SyncSanitizer * bool :=
  (mkSync (kernelType_ s) device (pipelineReplayer_ s) (checkBlockId config) (registered s) (syncEvents_ s)
     (pipeRedundancyEvents_ s) (redundancyInfo_ s) (syncThreadsInfo_ s) (stuckEvents_ s) (isFinished_ s)
     (hasWarnedSyncIndexOutOfBounds s) (sent s), false).

Definition Init (k : KernelSummary) (s : SyncSanitizer) : SyncSanitizer :=
  let r := Replay.Init (kernelType k) (deviceType_ s) (blockDim k) (Replay.hasCallback (pipelineReplayer_ s).2) in
  mkSync (kernelType_ s) (deviceType_ s) (Replay.RegisterCallback r) (checkBlockId_ s) (registered s) ∅ ∅ []
    (syncThreadsInfo_ s) [] false (hasWarnedSyncIndexOutOfBounds s) (sent s).

Definition SetKernelInfo (k : KernelSummary) (s : SyncSanitizer) : SyncSanitizer * bool :=
  let s := mkSync (kernelType k) (deviceType_ s) (pipelineReplayer_ s) (checkBlockId_ s) (registered s)
             (syncEvents_ s) (pipeRedundancyEvents_ s) (redundancyInfo_ s) (syncThreadsInfo_ s) (stuckEvents_ s)
             (isFinished_ s) (hasWarnedSyncIndexOutOfBounds s) (sent s) in
  let s := Init k s in
  if bool_decide (kernelType k = KT_AICPU) then (s, false)
  else if MAX_BLOCKDIM_NUMS <=? blockDim k then (s, false)
  else (s, true).

Definition CheckRecordBeforeProcess (record : SanitizerRecord) : bool :=
  match record with KERNEL_RECORD _ => true | _ => false end.

Definition RegisterNotifyFunc (s : SyncSanitizer) : SyncSanitizer :=
  mkSync (kernelType_ s) (deviceType_ s) (pipelineReplayer_ s) (checkBlockId_ s) true (syncEvents_ s)
    (pipeRedundancyEvents_ s) (redundancyInfo_ s) (syncThreadsInfo_ s) (stuckEvents_ s) (isFinished_ s)
    (hasWarnedSyncIndexOutOfBounds s) (sent s).

Definition IsTargetBlockId (checkBlockId blockId : Z) : bool :=
  (checkBlockId =? CHECK_ALL_BLOCK) || (blockId =? u32 checkBlockId).

Definition CalcSetFlagSyncID (event : SanEvent) (i : SyncOpInfo) : Z :=
  Z.lor (Z.lor (Z.lor (Z.lor
    (Z.shiftl (Z.land (coreId (loc event)) 0xFFFF) 20)
    (Z.shiftl (Z.land (BlockType_code (blockType (loc event))) 0xF) 16))
    (Z.shiftl (Z.land (PipeType_code (sync_srcPipe i)) 0xF) 12))
    (Z.shiftl (Z.land (PipeType_code (sync_dstPipe i)) 0xF) 8))
    (Z.shiftl (Z.land (u64 (sync_eventId i)) 0xF) 4).
Definition CalcWaitFlagSyncID (event : SanEvent) (i : SyncOpInfo) : Z := u64 (CalcSetFlagSyncID event i + 1).

Section checks.
(** What the bytes of the union are as a memory operation, for events of another
    type; they reach the address, the space and the access kind of a message. *)
Context (bytes : SanEvent → MemOpInfo).

(** [MemEvent(event)] *)
Definition MemEvent_of (e : SanEvent) : Race.MemEvent :=
  match eventInfo e with
  | MemInfo _ | DynamicInfo _ => Race.of_SanEvent (bytes e) e
  | _ => Race.mkMem (serialNo e) 0 0 (closedRingStartSerialNo e) VectorTime.VT.new_VectorTime (bytes e)
           Race.new_DynamicOpInfo (loc e) (pipe e) (isAtomicMode e) false
  end.
Definition ErrorEvent_of (e : SanEvent) : Race.ErrorEvent := Race.ErrorEvent_Init (MemEvent_of e) 0.

Definition disp_of (c : SyncCheckType) (event : SanEvent) (i : SyncOpInfo) : SyncDispInfo :=
  mkSyncDisp (ErrorEvent_of event) (sync_srcPipe i) (sync_dstPipe i) (sync_eventId i) (sync_opType i) c.

(** The end of [DoMatchCheck]: the partner is removed, or this instruction kept. *)
Definition pair_up (selfSyncID peerSyncID : Z) (self : SyncDispInfo) (m : gmap Z (list SyncDispInfo))
    : gmap Z (list SyncDispInfo) :=
  match m !! peerSyncID with
  | Some l => if (1 <? length l)%nat then <[peerSyncID := removelast l]> m else delete peerSyncID m
  | None => <[selfSyncID := default [] (m !! selfSyncID) ++ [self] ]> m
  end.

Definition DoMatchCheck (event : SanEvent) (m : gmap Z (list SyncDispInfo)) : gmap Z (list SyncDispInfo) :=
  match eventInfo event with
  | SyncInfo i =>
      let self := disp_of MATCH_CHECK event i in
      match sync_opType i with
      | SET_FLAG => pair_up (CalcSetFlagSyncID event i) (CalcWaitFlagSyncID event i) self m
      | WAIT_FLAG => pair_up (CalcWaitFlagSyncID event i) (CalcSetFlagSyncID event i) self m
      | _ => m
      end
  | _ => m
  end.

Definition getPipeTypeFromSanEvent (event : SanEvent) : PipeType :=
  match eventInfo event with
  | MemInfo _ | TimeInfo _ => pipe event
  | SyncInfo i =>
      match sync_opType i with
      | RLS_BUF => PIPE_SIZE
      | WAIT_FLAG => sync_dstPipe i
      | _ => sync_srcPipe i
      end
  | FftsInfo i => ffts_dstPipe i
  | SoftInfo _ => PIPE_S
  | CrossInfo i => mstx_pipe i
  | _ => PIPE_SIZE
  end.

Definition getSyncDispInfoFromEvent : SanEvent → SyncOpInfo → SyncDispInfo := disp_of REDUMTAMCY_CHECK.

(** [DoRedundancyCheck], on the last instruction of each pipe and the results. *)
Definition DoRedundancyCheck (event : SanEvent) (st : gmap Z SyncDispInfo * list SyncDispInfo)
    : gmap Z SyncDispInfo * list SyncDispInfo :=
  let '(last, out) := st in
  let p := getPipeTypeFromSanEvent event in
  let pipe := PipeType_code p in
  if bool_decide (p = PIPE_SIZE) then st
  else
    match eventInfo event with
    | SyncInfo i =>
        if sync_isGenerated i then st
        else
          let self := getSyncDispInfoFromEvent event i in
          let prev := default zero_SyncDispInfo (last !! pipe) in
          match sync_opType i with
          | PIPE_BARRIER => st
          | SET_FLAG | WAIT_FLAG =>
              (<[pipe := self]> last, if SyncDispInfo_eqb self prev then out ++ [prev; self] else out)
          | _ => (<[pipe := self]> last, out)
          end
    | _ => (delete pipe last, out)
    end.

(** The callback of [Init]. *)
Definition stuck_callback (c : Replay.ReplayerCallbackType * SanEvent) : SyncStuckDspInfo :=
  match c.1 with
  | Replay.ALL_DEVICE_STUCK =>
      match eventInfo c.2 with
      | SyncInfo i => if sync_isGenerated i then [] else [(ErrorEvent_of c.2, FillStuckInstructName c.2)]
      | _ => [(ErrorEvent_of c.2, FillStuckInstructName c.2)]
      end
  | Replay.MEMORY_EVENT => []
  end.

Definition DoStuckCheck (event : SanEvent) (s : SyncSanitizer) : option SyncSanitizer :=
  let r := pipelineReplayer_ s in
  r' ← Replay.Do (fuel_of r.1) event r;
  let calls := drop (length (Replay.called r.2)) (Replay.called r'.2) in
  let s := upd_stuck r' (stuckEvents_ s ++ (calls ≫= stuck_callback)) s in
  if Replay.IsFinished r' then
    if bool_decide (length (stuckEvents_ s) = 0%nat) then Some s
    else notify [(LV_ERROR, MStuck (stuckEvents_ s))] s
  else Some s.

(** *** Reports *)

Definition key_le (a b : Z * list SyncDispInfo) : Prop := a.1 <= b.1.
#[local] Instance key_le_dec : RelDecision key_le := λ a b, decide_rel Z.le a.1 b.1.

(** The pending [set_flag]s, in the order of the keys. *)
Definition unpaired (m : gmap Z (list SyncDispInfo)) : list SyncDispInfo :=
  each ← merge_sort key_le (map_to_list m); if Z.land each.1 0xF =? 0 then each.2 else [].

Definition ReportUnpairedInfo (s : SyncSanitizer) : option SyncSanitizer :=
  notify ((λ i, (LV_WARN, MUnpaired i)) <$> unpaired (syncEvents_ s)) s.
Definition ReportRedundancyInfo (s : SyncSanitizer) : option SyncSanitizer :=
  notify ((λ i, (LV_WARN, MRedundant i)) <$> redundancyInfo_ s) s.
Definition ReportSyncThreadsInfo (s : SyncSanitizer) : option SyncSanitizer :=
  notify ((λ e, (LV_ERROR, MThreads e)) <$> syncThreadsInfo_ s) s.

(** The loop of [DoEvents]. *)
Fixpoint do_events (events : list SanEvent) (s : SyncSanitizer) : option SyncSanitizer :=
  match events with
  | [] => Some s
  | event :: events =>
      s ← DoStuckCheck event s;
      if Replay.is_finish event then Some (upd_finished true s)
      else if negb (IsTargetBlockId (checkBlockId_ s) (coreId (loc event))) then do_events events s
      else
        let s := upd_match (DoMatchCheck event (syncEvents_ s)) s in
        let '(p, l) := DoRedundancyCheck event (pipeRedundancyEvents_ s, redundancyInfo_ s) in
        do_events events (upd_redundancy p l s)
  end.

Definition DoEvents (record : SanitizerRecord) (events : list SanEvent) (s : SyncSanitizer)
    : option SyncSanitizer :=
  if IsMstxRecordWithTensor record then Some s
  else if bool_decide (length events = 0%nat) then Some s
  else
    s ← do_events events s;
    if isFinished_ s then
      s ← ReportUnpairedInfo s;
      s ← ReportRedundancyInfo s;
      ReportSyncThreadsInfo s
    else Some s.
End checks.

(** *** Errors found on the device

    The warning about lost records goes to the standard output. *)

Definition KE_THREADS_ASYNC_IN_BLOCK : Z := 7.
Definition KE_SYNC_THREADS_RECORD_LOSS : Z := 8.

Record KernelSyncErrorDesc := mkSyncErr {
  se_errorType : Z; se_location : Location; se_syncLocation : Location; se_syncThreadLoc : SimtThreadLocation;
}.

(** [SetDeviceIdKernelIdx] on an event that is zero before. *)
Definition kernel_index (km : KernelManager) (device : Z) : Z :=
  match GetKernelCount device km with Some n => if 0 <? n then u32 (n - 1) else 0 | None => 0 end.

Definition online_error (km : KernelManager) (device : Z) (blockType : BlockType) (serialNo : Z) (s : SyncSanitizer)
    (d : KernelSyncErrorDesc) : SyncSanitizer :=
  if ASan.KE_MAX <=? se_errorType d then s
  else
    let s := if negb (hasWarnedSyncIndexOutOfBounds s) && (se_errorType d =? KE_SYNC_THREADS_RECORD_LOSS)
             then upd_threads (syncThreadsInfo_ s) true (sent s ++ [(LV_WARN, MRecordLoss)]) s else s in
    if se_errorType d =? KE_THREADS_ASYNC_IN_BLOCK then
      let event := Race.mkErr serialNo device (kernel_index km device) (u32 (loc_blockId (se_location d))) 0 0 0
                     (loc_pc (se_syncLocation d)) 0 0 0 blockType (se_syncThreadLoc d) true in
      upd_threads (syncThreadsInfo_ s ++ [event]) (hasWarnedSyncIndexOutOfBounds s) (sent s) s
    else s.

(** [None] stands for the null descriptor array. *)
Definition ParseOnlineError (km : KernelManager) (device : Z) (descs : option (list KernelSyncErrorDesc))
    (blockType : BlockType) (serialNo : Z) (s : SyncSanitizer) : SyncSanitizer :=
  match descs with
  | None => s
  | Some l => foldl (online_error km device blockType serialNo) s l
  end.
End Sync.
