(* ===== verification/SyncTheorems.v ===== *)
(** Theorems about the synchronisation check: which unpaired and which redundant
    flags it reports, and when it reports a kernel as stuck. *)
From stdpp Require Import base numbers option gmap sets strings sorting list.
From S2P Require Import Prelude.
From S2P Require Import RecordDefs.
From S2P Require Import Platform.
From S2P Require Import EventDef.
From S2P Require Import AddressSanitizer.
From S2P Require Import EventContainer.
From S2P Require Import PipeLineProofs.
From S2P Require Import PipelineReplayer.
From S2P Require Import ReplayerProofs.
From S2P Require Import MemEventChecker.
From S2P Require Import SyncSanitizer.
Import KernelManager Sync.

(** ** Flags and their keys *)

(** What names a flag: core, kind of core, the two pipes and the event. *)
Definition flag : Type := Z * BlockType * PipeType * PipeType * Z.
Definition flag_of (e : SanEvent) (i : SyncOpInfo) : flag :=
  (coreId (loc e), blockType (loc e), sync_srcPipe i, sync_dstPipe i, sync_eventId i).
Definition flag_of_disp (d : SyncDispInfo) : flag :=
  (Race.err_coreId (baseEvent d), Race.err_blockType (baseEvent d), srcPipe d, dstPipe d, eventId d).

(** Flags whose core and event fit the fields of the key. *)
Definition flag_fits (f : flag) : bool :=
  let '(c, _, _, _, n) := f in (0 <=? c) && (c <? 65536) && (0 <=? n) && (n <? 16).

Definition key (f : flag) : Z :=
  let '(c, b, s, d, n) := f in
  c * 2 ^ 20 + BlockType_code b * 2 ^ 16 + PipeType_code s * 2 ^ 12 + PipeType_code d * 2 ^ 8 + n * 2 ^ 4.

Arguments key : simpl never.

Lemma lor_add n a b : 0 <= n → 0 <= b < 2 ^ n → Z.lor (a * 2 ^ n) b = a * 2 ^ n + b.
Proof.
  intros Hn Hb. symmetry. apply Z.add_nocarry_lor, Z.bits_inj'. intros k Hk. rewrite Z.land_spec, Z.bits_0.
  destruct (Z.ltb_spec k n).
  - by rewrite Z.mul_pow2_bits_low.
  - rewrite (Z.testbit_eqb b) by lia. rewrite Z.div_small, andb_comm; [done|].
    split; [lia|]. apply (Z.lt_le_trans _ (2 ^ n)); [lia|]. by apply Z.pow_le_mono_r.
Qed.

Lemma block_code_range b : 0 <= BlockType_code b < 3.
Proof. destruct b; simpl; lia. Qed.
Lemma pipe_code_inj p q : PipeType_code p = PipeType_code q → p = q.
Proof. destruct p, q; simpl; intros; congruence. Qed.
Lemma block_code_inj p q : BlockType_code p = BlockType_code q → p = q.
Proof. destruct p, q; simpl; intros; congruence. Qed.

Lemma land_low x n : 0 <= n → 0 <= x < 2 ^ n → Z.land x (2 ^ n - 1) = x.
Proof. intros Hn Hx. rewrite Z.sub_1_r, <- Z.ones_equiv, Z.land_ones by lia. by apply Z.mod_small. Qed.

Lemma set_id_key e i : flag_fits (flag_of e i) = true → CalcSetFlagSyncID e i = key (flag_of e i).
Proof.
  unfold flag_fits, flag_of, key, CalcSetFlagSyncID. intros Hf. bool_prop.
  pose proof (pipe_code_range (sync_srcPipe i)). pose proof (pipe_code_range (sync_dstPipe i)).
  pose proof (block_code_range (blockType (loc e))).
  change 0xFFFF with (2 ^ 16 - 1). change 0xF with (2 ^ 4 - 1). rewrite !land_low by (u64_simpl; lia).
  rewrite (u64_small (sync_eventId i)) by (unfold is_u64; lia). rewrite !Z.shiftl_mul_pow2 by lia.
  set (c := coreId (loc e)) in *. set (b := BlockType_code _) in *. set (s := PipeType_code _) in *.
  set (d := PipeType_code (sync_dstPipe i)) in *. set (n := sync_eventId i) in *.
  rewrite (lor_add 20 c) by lia.
  replace (c * 2 ^ 20 + b * 2 ^ 16) with ((c * 2 ^ 4 + b) * 2 ^ 16) by lia. rewrite lor_add by lia.
  replace ((c * 2 ^ 4 + b) * 2 ^ 16 + s * 2 ^ 12) with ((c * 2 ^ 8 + b * 2 ^ 4 + s) * 2 ^ 12) by lia.
  rewrite lor_add by lia.
  replace ((c * 2 ^ 8 + b * 2 ^ 4 + s) * 2 ^ 12 + d * 2 ^ 8)
    with ((c * 2 ^ 12 + b * 2 ^ 8 + s * 2 ^ 4 + d) * 2 ^ 8) by lia.
  rewrite lor_add by lia. lia.
Qed.

Lemma key_range f : flag_fits f = true → 0 <= key f < 2 ^ 36 ∧ key f `mod` 16 = 0.
Proof.
  destruct f as [ [ [ [c b] s] d] n]. unfold flag_fits, key. intros Hf. bool_prop.
  pose proof (pipe_code_range s). pose proof (pipe_code_range d). pose proof (block_code_range b). split; [lia|].
  replace (_ + n * 2 ^ 4) with
    ((c * 2 ^ 16 + BlockType_code b * 2 ^ 12 + PipeType_code s * 2 ^ 8 + PipeType_code d * 2 ^ 4 + n) * 16) by lia.
  apply Z.mod_mul. lia.
Qed.

Lemma key_inj f g : flag_fits f = true → flag_fits g = true → key f = key g → f = g.
Proof.
  destruct f as [ [ [ [c b] s] d] n], g as [ [ [ [c' b'] s'] d'] n']. unfold flag_fits, key. intros Hf Hg. bool_prop.
  pose proof (pipe_code_range s). pose proof (pipe_code_range d). pose proof (block_code_range b).
  pose proof (pipe_code_range s'). pose proof (pipe_code_range d'). pose proof (block_code_range b'). intros E.
  assert (c = c') as -> by lia. assert (BlockType_code b = BlockType_code b') as ->%block_code_inj by lia.
  assert (PipeType_code s = PipeType_code s') as ->%pipe_code_inj by lia.
  assert (PipeType_code d = PipeType_code d') as ->%pipe_code_inj by lia.
  assert (n = n') as -> by lia. done.
Qed.

Lemma wait_id_key e i : flag_fits (flag_of e i) = true → CalcWaitFlagSyncID e i = key (flag_of e i) + 1.
Proof.
  intros Hf. unfold CalcWaitFlagSyncID. rewrite set_id_key by done. apply u64_small.
  pose proof (key_range _ Hf). unfold is_u64. lia.
Qed.

(** ** Pairing *)

Definition is_flag (t : SyncType) (f : flag) (e : SanEvent) : bool :=
  match eventInfo e with
  | SyncInfo i => bool_decide (sync_opType i = t) && bool_decide (flag_of e i = f)
  | _ => false
  end.
(** How often the events set or wait for flag [f]. *)
Definition count (t : SyncType) (f : flag) (evs : list SanEvent) : Z :=
  Z.of_nat (length (filter (λ e, is_flag t f e = true) evs)).

Definition event_fits (e : SanEvent) : bool :=
  match eventInfo e with
  | SyncInfo i => match sync_opType i with SET_FLAG | WAIT_FLAG => flag_fits (flag_of e i) | _ => true end
  | _ => true
  end.

Lemma count_snoc t f evs e : count t f (evs ++ [e]) = count t f evs + if is_flag t f e then 1 else 0.
Proof.
  unfold count. rewrite filter_app, length_app. rewrite (filter_cons _ e). case_decide as H.
  - rewrite H. simpl. lia.
  - destruct (is_flag t f e); [done|]. simpl. lia.
Qed.

Definition pending (m : gmap Z (list SyncDispInfo)) (k : Z) : Z := Z.of_nat (length (default [] (m !! k))).
Definition no_empty (m : gmap Z (list SyncDispInfo)) : Prop := ∀ k l, m !! k = Some l → l ≠ [].

Lemma pending_insert m k l j : pending (<[k := l]> m) j = if j =? k then Z.of_nat (length l) else pending m j.
Proof.
  unfold pending. destruct (Z.eqb_spec j k) as [->|]; [by rewrite lookup_insert_eq|by rewrite lookup_insert_ne by congruence].
Qed.
Lemma pending_delete m k j : pending (delete k m) j = if j =? k then 0 else pending m j.
Proof.
  unfold pending. destruct (Z.eqb_spec j k) as [->|]; [by rewrite lookup_delete_eq|by rewrite lookup_delete_ne by congruence].
Qed.

Lemma pair_up_pending self peer d m k :
  no_empty m →
  pending (pair_up self peer d m) k =
  if 0 <? pending m peer then (if k =? peer then pending m k - 1 else pending m k)
  else (if k =? self then pending m k + 1 else pending m k).
Proof.
  intros Hne. unfold pair_up. unfold pending at 2. destruct (m !! peer) as [l|] eqn:E.
  - destruct (exists_last (Hne _ _ E)) as (l' & x & ->). cbn [default].
    assert (Hp : pending m peer = Z.of_nat (length l') + 1) by (unfold pending; rewrite E; simpl; rewrite length_app; simpl; lia).
    rewrite removelast_last. unfold id. rewrite !length_app. rewrite (proj2 (Z.ltb_lt 0 _)) by (simpl; lia). simpl (length [x]).
    destruct (Nat.ltb_spec 1 (length l' + 1)).
    + rewrite pending_insert. destruct (Z.eqb_spec k peer) as [->|]; lia.
    + rewrite pending_delete. destruct (Z.eqb_spec k peer) as [->|]; lia.
  - cbn [default length]. rewrite Z.ltb_irrefl. rewrite pending_insert.
    destruct (Z.eqb_spec k self) as [->|]; [|done]. rewrite length_app. unfold pending. simpl. lia.
Qed.

Lemma pair_up_no_empty self peer d m : no_empty m → no_empty (pair_up self peer d m).
Proof.
  intros Hne k l. unfold pair_up. destruct (m !! peer) as [l0|] eqn:E.
  - destruct (exists_last (Hne _ _ E)) as (l' & x & ->). rewrite removelast_last. case_match eqn:Hl.
    + apply Nat.ltb_lt in Hl. rewrite length_app in Hl. simpl in Hl.
      intros [ [<- <-]|[? ?] ]%lookup_insert_Some; [intros ->; simpl in Hl; lia|by eapply Hne].
    + intros [_ ?]%lookup_delete_Some. by eapply Hne.
  - intros [ [<- <-]|[? ?] ]%lookup_insert_Some; [|by eapply Hne]. by destruct (default [] (m !! self)).
Qed.

(** What [pair_up] stores under a key is the new instruction or was there. *)
Lemma pair_up_from self peer d m k l x :
  pair_up self peer d m !! k = Some l → x ∈ l → (x = d ∧ k = self) ∨ ∃ l', m !! k = Some l' ∧ x ∈ l'.
Proof.
  unfold pair_up. destruct (m !! peer) as [l0|] eqn:E.
  - case_match.
    + intros [ [<- <-]|[_ ?] ]%lookup_insert_Some Hx; [|by right; eexists]. right. exists l0. split; [done|].
      destruct l0 as [|y l0] using rev_ind; [done|]. rewrite removelast_last in Hx. set_solver.
    + intros [_ ?]%lookup_delete_Some Hx. right. by eexists.
  - intros [ [<- <-]|[_ ?] ]%lookup_insert_Some Hx; [|by right; eexists].
    apply elem_of_app in Hx as [Hx| ->%list_elem_of_singleton]; [|by left]. right.
    destruct (m !! self) as [l'|]; [by eexists|by apply not_elem_of_nil in Hx].
Qed.

Section pairing.
Context (bytes : SanEvent → MemOpInfo).

(** The state of the match check after events [evs]. *)
Record matched (evs : list SanEvent) (m : gmap Z (list SyncDispInfo)) : Prop := {
  m_no_empty : no_empty m;
  m_set f : flag_fits f = true → pending m (key f) = Z.max 0 (count SET_FLAG f evs - count WAIT_FLAG f evs);
  m_wait f : flag_fits f = true → pending m (key f + 1) = Z.max 0 (count WAIT_FLAG f evs - count SET_FLAG f evs);
  m_from k l d : m !! k = Some l → k `mod` 16 = 0 → d ∈ l →
    ∃ e i, e ∈ evs ∧ eventInfo e = SyncInfo i ∧ sync_opType i = SET_FLAG ∧ flag_fits (flag_of e i) = true ∧
      k = key (flag_of e i) ∧ d = disp_of bytes MATCH_CHECK e i;
}.

Lemma key_succ f g : flag_fits f = true → flag_fits g = true → key f ≠ key g + 1.
Proof. intros Hf Hg E. pose proof (key_range _ Hf) as [_ H1]. pose proof (key_range _ Hg) as [_ H2]. zdiv. Qed.

Lemma key_eqb f g : flag_fits f = true → flag_fits g = true → (key f =? key g) = bool_decide (g = f).
Proof.
  intros Hf Hg. case_bool_decide as E; [subst; apply Z.eqb_refl|]. apply Z.eqb_neq. intros E'. apply E.
  symmetry. by apply key_inj.
Qed.

(** Both cases of the match check. *)
Lemma matched_pair t t' self peer evs m e i :
  matched evs m → eventInfo e = SyncInfo i → sync_opType i = t → flag_fits (flag_of e i) = true →
  (t = SET_FLAG ∧ t' = WAIT_FLAG ∧ self = key (flag_of e i) ∧ peer = key (flag_of e i) + 1) ∨
  (t = WAIT_FLAG ∧ t' = SET_FLAG ∧ self = key (flag_of e i) + 1 ∧ peer = key (flag_of e i)) →
  matched (evs ++ [e]) (pair_up self peer (disp_of bytes MATCH_CHECK e i) m).
Proof.
  intros [M1 M2 M3 M4] He Ht Hf Hcase.
  assert (Hfl : ∀ t f, is_flag t f e = bool_decide (sync_opType i = t) && bool_decide (flag_of e i = f)).
  { intros. unfold is_flag. by rewrite He. }
  pose proof (M2 _ Hf) as P1. pose proof (M3 _ Hf) as P2. split.
  - by apply pair_up_no_empty.
  - intros f Hff. rewrite pair_up_pending by done. rewrite !count_snoc, !Hfl, Ht.
    pose proof (key_eqb f (flag_of e i) Hff Hf) as Hk. pose proof (key_succ f (flag_of e i) Hff Hf) as Hs.
    apply Z.eqb_neq in Hs. pose proof (M2 _ Hff) as P3.
    destruct Hcase as [(-> & -> & -> & ->)|(-> & -> & -> & ->)]; rewrite ?Hk, ?Hs; simpl;
      case_bool_decide as E; try subst f; case_cmp; lia.
  - intros f Hff. rewrite pair_up_pending by done. rewrite !count_snoc, !Hfl, Ht.
    pose proof (key_eqb f (flag_of e i) Hff Hf) as Hk. pose proof (key_succ (flag_of e i) f Hf Hff) as Hs.
    assert (Hs' : (key f + 1 =? key (flag_of e i)) = false) by (apply Z.eqb_neq; congruence).
    assert (Hk' : (key f + 1 =? key (flag_of e i) + 1) = (key f =? key (flag_of e i))) by (do 2 case_cmp; lia).
    pose proof (M3 _ Hff) as P3.
    destruct Hcase as [(-> & -> & -> & ->)|(-> & -> & -> & ->)]; rewrite ?Hk', ?Hk, ?Hs'; simpl;
      case_bool_decide as E; try subst f; case_cmp; lia.
  - intros k l d Hl Hk Hd. destruct (pair_up_from _ _ _ _ _ _ _ Hl Hd) as [ [-> ->]|(l' & Hl' & Hd')].
    + exists e, i. destruct Hcase as [(-> & -> & -> & ->)|(-> & -> & -> & ->)].
      * split_and!; try done. set_solver.
      * exfalso. pose proof (key_range _ Hf) as [_ H2]. zdiv.
    + destruct (M4 k l' d Hl' Hk Hd') as (e' & i' & Hin & Hrest). exists e', i'. split; [set_solver|done].
Qed.

Lemma matched_step evs m e : matched evs m → event_fits e = true → matched (evs ++ [e]) (DoMatchCheck bytes e m).
Proof.
  intros Hm Hf. unfold DoMatchCheck, event_fits in *.
  assert (Hquiet : (∀ f, is_flag SET_FLAG f e = false ∧ is_flag WAIT_FLAG f e = false) → matched (evs ++ [e]) m).
  { intros Hq. destruct Hm as [M1 M2 M3 M4]. split; [done|..].
    - intros f Hff. rewrite !count_snoc. destruct (Hq f) as [-> ->]. rewrite M2 by done. lia.
    - intros f Hff. rewrite !count_snoc. destruct (Hq f) as [-> ->]. rewrite M3 by done. lia.
    - intros k l d H1 H2 H3. destruct (M4 k l d H1 H2 H3) as (e' & i' & ? & ?). exists e', i'. split; [set_solver|done]. }
  destruct (eventInfo e) as [|i| | | | | | | | | | | | |] eqn:He; try (apply Hquiet; intros; unfold is_flag; rewrite He; done).
  destruct (sync_opType i) eqn:Ht; try (apply Hquiet; intros; unfold is_flag; rewrite He, Ht; done).
  - rewrite set_id_key, wait_id_key by done. eapply matched_pair; [done..|]. left. done.
  - rewrite set_id_key, wait_id_key by done. eapply matched_pair; [done..|]. right. done.
Qed.
End pairing.

(** ** The reported unpaired flags *)

Lemma flag_of_disp_of bytes c e i :
  eventInfo e = SyncInfo i → flag_of_disp (disp_of bytes c e i) = flag_of e i.
Proof.
  intros He. unfold flag_of_disp, disp_of, ErrorEvent_of, MemEvent_of, flag_of. rewrite He. done.
Qed.

Definition set_entries (each : Z * list SyncDispInfo) : list SyncDispInfo :=
  if Z.land each.1 0xF =? 0 then each.2 else [].

Lemma land_mod16 k : Z.land k 0xF = k `mod` 16.
Proof. change 0xF with (Z.ones 4). by rewrite Z.land_ones. Qed.

Lemma filter_all {A} (P : A → Prop) `{!∀ x, Decision (P x)} l : Forall P l → filter P l = l.
Proof. induction 1 as [|x l Hx _ IH]; [done|]. rewrite filter_cons_True by done. by rewrite IH. Qed.
Lemma filter_none {A} (P : A → Prop) `{!∀ x, Decision (P x)} l : Forall (λ x, ¬ P x) l → filter P l = [].
Proof. induction 1 as [|x l Hx _ IH]; [done|]. by rewrite filter_cons_False. Qed.

Lemma entries_count f (L : list (Z * list SyncDispInfo)) :
  flag_fits f = true → NoDup L.*1 →
  (∀ k l d, (k, l) ∈ L → k `mod` 16 = 0 → d ∈ l → flag_fits (flag_of_disp d) = true ∧ k = key (flag_of_disp d)) →
  length (filter (λ d, flag_of_disp d = f) (L ≫= set_entries)) =
  length (default [] ((list_to_map L : gmap Z _) !! key f)).
Proof.
  intros Hf. induction L as [|[k l] L IH]; intros Hnd Hok; [done|].
  apply NoDup_cons in Hnd as [Hk Hnd]. change (((k, l) :: L) ≫= set_entries) with (set_entries (k, l) ++ (L ≫= set_entries)).
  rewrite filter_app, length_app, IH; [|done|intros; eapply Hok; [by right|done..] ]. unfold set_entries. cbn [fst snd].
  rewrite land_mod16. simpl. pose proof (key_range f Hf) as [_ Hm]. destruct (Z.eqb_spec (k `mod` 16) 0) as [Hk0|Hk0].
  - assert (Hl : ∀ d, d ∈ l → flag_fits (flag_of_disp d) = true ∧ k = key (flag_of_disp d)).
    { intros d Hd. eapply Hok; [by left|done..]. }
    destruct (decide (k = key f)) as [->|Hne].
    + rewrite lookup_insert_eq, not_elem_of_list_to_map_1 by done. rewrite filter_all; [simpl; lia|].
      apply Forall_forall. intros d Hd. destruct (Hl d Hd) as [H1 H2]. symmetry. by apply key_inj.
    + rewrite lookup_insert_ne by done. rewrite filter_none; [done|]. apply Forall_forall. intros d Hd <-.
      by destruct (Hl d Hd).
  - rewrite lookup_insert_ne by congruence. done.
Qed.

Lemma unpaired_count bytes evs m f :
  matched bytes evs m → flag_fits f = true →
  Z.of_nat (length (filter (λ d, flag_of_disp d = f) (unpaired m))) =
  Z.max 0 (count SET_FLAG f evs - count WAIT_FLAG f evs).
Proof.
  intros Hm Hf. rewrite <- (m_set _ _ _ Hm f Hf). unfold pending.
  change (unpaired m) with (merge_sort key_le (map_to_list m) ≫= set_entries).
  rewrite (merge_sort_Permutation key_le (map_to_list m)).
  rewrite entries_count; [by rewrite list_to_map_to_list|done|apply NoDup_fst_map_to_list|].
  intros k l d Hin%elem_of_map_to_list Hk Hd. destruct (m_from _ _ _ Hm k l d Hin Hk Hd) as (e & i & _ & He & _ & ? & -> & ->).
  by rewrite flag_of_disp_of.
Qed.

Lemma unpaired_from bytes evs m d :
  matched bytes evs m → d ∈ unpaired m →
  ∃ e i, e ∈ evs ∧ eventInfo e = SyncInfo i ∧ sync_opType i = SET_FLAG ∧ d = disp_of bytes MATCH_CHECK e i.
Proof.
  intros Hm Hd. change (unpaired m) with (merge_sort key_le (map_to_list m) ≫= set_entries) in Hd.
  apply list_elem_of_bind in Hd as ([k l] & Hd & Hin). rewrite merge_sort_Permutation in Hin.
  apply elem_of_map_to_list in Hin. unfold set_entries in Hd. cbn [fst snd] in Hd. rewrite land_mod16 in Hd.
  destruct (Z.eqb_spec (k `mod` 16) 0) as [Hk|]; [|by apply not_elem_of_nil in Hd].
  destruct (m_from _ _ _ Hm k l d Hin Hk Hd) as (e & i & ? & ? & ? & _ & _ & ?). by exists e, i.
Qed.

(** ** Redundant instructions *)

(** The pipe an instruction belongs to: a static memory access and a time event
    to its own, a [wait_flag] to the waiting pipe, other flags to the setting
    one, synchronisation between cores to the pipe it names, soft synchronisation
    to [PIPE_S]. Accesses of SIMT code, buffer synchronisation and the rest belong
    to none. *)
Definition instruction_pipe (e : SanEvent) : option PipeType :=
  match eventInfo e with
  | MemInfo _ | TimeInfo _ => Some (pipe e)
  | SyncInfo i =>
      if bool_decide (sync_opType i = RLS_BUF) then None
      else Some (if bool_decide (sync_opType i = WAIT_FLAG) then sync_dstPipe i else sync_srcPipe i)
  | FftsInfo i => Some (ffts_dstPipe i)
  | SoftInfo _ => Some PIPE_S
  | CrossInfo i => Some (mstx_pipe i)
  | DynamicInfo _ | BufInfo _ | ControlInfo _ | HSyncInfo _ | RegInfo _ | SignalSetInfo _ | SignalWaitInfo _
  | CoreBarrierInfo _ | NpuBarrierInfo _ => None
  end.

(** Barriers and inserted synchronisation are looked through. *)
Definition looked_through (e : SanEvent) : Prop :=
  ∃ i, eventInfo e = SyncInfo i ∧ (sync_isGenerated i = true ∨ sync_opType i = PIPE_BARRIER).
#[export] Instance looked_through_dec e : Decision (looked_through e).
Proof.
  unfold looked_through. destruct (eventInfo e) as [|i| | | | | | | | | | | | |]; try (right; naive_solver).
  destruct (decide (sync_isGenerated i = true ∨ sync_opType i = PIPE_BARRIER)); [left; by exists i|right; naive_solver].
Defined.

(** The instructions of a pipe. *)
Definition instructions (p : PipeType) (evs : list SanEvent) : list SanEvent :=
  filter (λ e, instruction_pipe e = Some p ∧ ¬ looked_through e) evs.

Section redundancy.
Context (bytes : SanEvent → MemOpInfo).

(** The same as the check selects them. *)
Definition relevant (p : PipeType) (e : SanEvent) : bool :=
  bool_decide (getPipeTypeFromSanEvent e = p) &&
  match eventInfo e with
  | SyncInfo i => negb (sync_isGenerated i) && negb (bool_decide (sync_opType i = PIPE_BARRIER))
  | _ => true
  end.
Definition stream (p : PipeType) (evs : list SanEvent) : list SanEvent := filter (λ e, relevant p e = true) evs.

Lemma instructions_stream p evs : p ≠ PIPE_SIZE → instructions p evs = stream p evs.
Proof.
  intros Hp. apply list_filter_iff. intros e. unfold relevant, instruction_pipe, looked_through, getPipeTypeFromSanEvent.
  rewrite andb_true_iff, bool_decide_eq_true. destruct (eventInfo e) as [|i| | | | | | | | | | | | |]; try naive_solver.
  assert ((∃ j, SyncInfo i = SyncInfo j ∧ (sync_isGenerated j = true ∨ sync_opType j = PIPE_BARRIER)) ↔
          sync_isGenerated i = true ∨ sync_opType i = PIPE_BARRIER) as ->.
  { split; [by intros (j & [= <-] & Hj)|]. intros Hi. by exists i. }
  rewrite andb_true_iff, !negb_true_iff, bool_decide_eq_false.
  destruct (sync_isGenerated i), (sync_opType i); repeat (case_bool_decide; try done);
    split; intros [? ?]; split; try congruence; intuition congruence.
Qed.

(** The second instruction sets or waits for the flag the first one did. *)
Definition redundant (e e' : SanEvent) : bool :=
  match eventInfo e, eventInfo e' with
  | SyncInfo i, SyncInfo i' =>
      (bool_decide (sync_opType i' = SET_FLAG) || bool_decide (sync_opType i' = WAIT_FLAG)) &&
      bool_decide (sync_opType i = sync_opType i') && bool_decide (flag_of e i = flag_of e' i')
  | _, _ => false
  end.
Definition info (e : SanEvent) : option SyncDispInfo :=
  match eventInfo e with SyncInfo i => Some (getSyncDispInfoFromEvent bytes e i) | _ => None end.
Definition report_pair (x y : SanEvent) : list SyncDispInfo :=
  if redundant x y then option_list (info x) ++ option_list (info y) else [].

(** The neighbours of a stream that are redundant. *)
Fixpoint doubles (l : list SanEvent) : list SyncDispInfo :=
  match l with
  | x :: ((y :: _) as l') => report_pair x y ++ doubles l'
  | _ => []
  end.

Lemma doubles_snoc l e :
  doubles (l ++ [e]) = doubles l ++ match last l with Some x => report_pair x e | None => [] end.
Proof.
  induction l as [|x l IH]; [done|]. destruct l as [|y l]; [simpl; by rewrite app_nil_r|].
  change (doubles ((x :: y :: l) ++ [e])) with (report_pair x y ++ doubles ((y :: l) ++ [e])).
  rewrite IH. change (doubles (x :: y :: l)) with (report_pair x y ++ doubles (y :: l)). by rewrite <- app_assoc.
Qed.

(** The pipe of a reported instruction. *)
Definition disp_pipe (d : SyncDispInfo) : PipeType :=
  if bool_decide (opType d = WAIT_FLAG) then dstPipe d else srcPipe d.

Lemma eqb_redundant e i e' i' :
  eventInfo e = SyncInfo i → eventInfo e' = SyncInfo i' →
  SyncDispInfo_eqb (getSyncDispInfoFromEvent bytes e' i') (getSyncDispInfoFromEvent bytes e i) =
  bool_decide (sync_opType i = sync_opType i') && bool_decide (flag_of e i = flag_of e' i').
Proof.
  intros He He'. pose proof (flag_of_disp_of bytes REDUMTAMCY_CHECK e i He) as F.
  pose proof (flag_of_disp_of bytes REDUMTAMCY_CHECK e' i' He') as F'. rewrite <- F, <- F'.
  unfold SyncDispInfo_eqb, getSyncDispInfoFromEvent, flag_of_disp. cbn [opType checkType disp_of].
  set (a := disp_of bytes REDUMTAMCY_CHECK e i). set (b := disp_of bytes REDUMTAMCY_CHECK e' i').
  apply eq_true_iff_eq. rewrite !andb_true_iff, !bool_decide_eq_true, !Z.eqb_eq.
  split; [intros; destruct_and!; split; congruence|]. intros [? [= ? ? ? ? ?] ]. split_and!; simpl; congruence.
Qed.

Lemma eqb_pipe a b : SyncDispInfo_eqb a b = true → disp_pipe b = disp_pipe a.
Proof. unfold SyncDispInfo_eqb. intros Heq. bool_prop. unfold disp_pipe. do 2 case_bool_decide; congruence. Qed.

(** The value a fresh entry of the map has is no instruction of this check. *)
Lemma eqb_zero e i : SyncDispInfo_eqb (getSyncDispInfoFromEvent bytes e i) zero_SyncDispInfo = false.
Proof. unfold SyncDispInfo_eqb. apply andb_false_r. Qed.

(** The state of the redundancy check after events [evs]. *)
Definition redundancy_inv (evs : list SanEvent) (st : gmap Z SyncDispInfo * list SyncDispInfo) : Prop :=
  ∀ p, p ≠ PIPE_SIZE →
    st.1 !! PipeType_code p = (last (stream p evs) ≫= info) ∧
    filter (λ d, disp_pipe d = p) st.2 = doubles (stream p evs).

Lemma stream_snoc p evs e : stream p (evs ++ [e]) = stream p evs ++ if relevant p e then [e] else [].
Proof. unfold stream. rewrite filter_app. f_equal. rewrite filter_cons. case_decide as H; [by rewrite H|]. by destruct (relevant p e). Qed.

Lemma redundancy_other evs st p e :
  redundancy_inv evs st → p ≠ PIPE_SIZE → relevant p e = false →
  st.1 !! PipeType_code p = (last (stream p (evs ++ [e])) ≫= info) ∧
  filter (λ d, disp_pipe d = p) st.2 = doubles (stream p (evs ++ [e])).
Proof. intros H Hp He. rewrite stream_snoc, He, app_nil_r. by apply H. Qed.

Lemma filter_pair p (out : list SyncDispInfo) a b q :
  disp_pipe a = q → disp_pipe b = q →
  filter (λ d, disp_pipe d = p) (out ++ [a; b]) =
  filter (λ d, disp_pipe d = p) out ++ if bool_decide (q = p) then [a; b] else [].
Proof.
  intros Ha Hb. rewrite filter_app. f_equal. case_bool_decide.
  - apply filter_all. repeat constructor; congruence.
  - apply filter_none. repeat constructor; congruence.
Qed.

Lemma info_pipe e i d p :
  eventInfo e = SyncInfo i → sync_opType i = SET_FLAG ∨ sync_opType i = WAIT_FLAG →
  getPipeTypeFromSanEvent e = p → d = getSyncDispInfoFromEvent bytes e i → disp_pipe d = p.
Proof.
  intros He Hi <- ->. unfold disp_pipe, getPipeTypeFromSanEvent, getSyncDispInfoFromEvent. rewrite He. simpl.
  by destruct Hi as [-> | ->].
Qed.

(** A recorded instruction takes the place of the last one of its pipe. *)
Lemma redundancy_record evs last_ out e i q :
  redundancy_inv evs (last_, out) → eventInfo e = SyncInfo i → getPipeTypeFromSanEvent e = q → relevant q e = true →
  q ≠ PIPE_SIZE →
  let self := getSyncDispInfoFromEvent bytes e i in
  let prev := default zero_SyncDispInfo (last_ !! PipeType_code q) in
  let flagged := bool_decide (sync_opType i = SET_FLAG) || bool_decide (sync_opType i = WAIT_FLAG) in
  redundancy_inv (evs ++ [e])
    (<[PipeType_code q := self]> last_, if flagged && SyncDispInfo_eqb self prev then out ++ [prev; self] else out).
Proof.
  intros Hinv He Hq Hrel Hqs self prev flagged p Hp. destruct (Hinv p Hp) as [H1 H2]. destruct (Hinv q Hqs) as [Q1 _].
  cbn [fst snd] in *.
  assert (Hpair : match last (stream q evs) with Some x => report_pair x e | None => [] end =
                  if flagged && SyncDispInfo_eqb self prev then [prev; self] else []).
  { unfold prev. rewrite Q1. destruct (last (stream q evs)) as [x|]; simpl.
    - unfold report_pair, redundant, info, self. destruct (eventInfo x) as [|j| | | | | | | | | | | | |] eqn:Hx;
        rewrite ?He; simpl; try (by rewrite eqb_zero, andb_false_r).
      rewrite (eqb_redundant x j e i Hx He). fold flagged. rewrite <- andb_assoc.
      by destruct (flagged && _).
    - unfold self. by rewrite eqb_zero, andb_false_r. }
  assert (Hout : ∀ p, filter (λ d, disp_pipe d = p) (if flagged && SyncDispInfo_eqb self prev then out ++ [prev; self] else out)
     = filter (λ d, disp_pipe d = p) out ++ if bool_decide (q = p) && (flagged && SyncDispInfo_eqb self prev) then [prev; self] else []).
  { intros p'. destruct (flagged && SyncDispInfo_eqb self prev) eqn:Hfl; [|by rewrite andb_false_r, app_nil_r].
    rewrite andb_true_r. apply andb_true_iff in Hfl as [Hfl Heq]. unfold flagged in Hfl.
    assert (Hs : disp_pipe self = q).
    { eapply info_pipe; [done| |done|done]. apply orb_true_iff in Hfl as [?%bool_decide_eq_true|?%bool_decide_eq_true]; auto. }
    apply filter_pair; [|done]. rewrite <- Hs. by apply eqb_pipe. }
  rewrite Hout, H2, stream_snoc. destruct (decide (q = p)) as [->|Hne].
  - rewrite Hrel, last_snoc, lookup_insert_eq, doubles_snoc, Hpair, bool_decide_true by done. split; [|done].
    simpl. unfold info. by rewrite He.
  - assert (relevant p e = false) as -> by (unfold relevant; by rewrite bool_decide_false by congruence).
    rewrite lookup_insert_ne by (intros ?%pipe_code_inj; congruence). rewrite bool_decide_false by done.
    by rewrite !app_nil_r.
Qed.

Lemma redundancy_clear evs last_ out e q :
  redundancy_inv evs (last_, out) → (∀ i, eventInfo e ≠ SyncInfo i) → getPipeTypeFromSanEvent e = q → q ≠ PIPE_SIZE →
  redundancy_inv (evs ++ [e]) (delete (PipeType_code q) last_, out).
Proof.
  intros Hinv He Hq Hqs p Hp. destruct (Hinv p Hp) as [H1 H2]. cbn [fst snd] in *. rewrite stream_snoc.
  assert (Hrel : relevant p e = bool_decide (q = p)).
  { unfold relevant. rewrite Hq. destruct (eventInfo e); rewrite ?andb_true_r; try done. naive_solver. }
  rewrite Hrel. case_bool_decide as E; [subst p|].
  - rewrite last_snoc, lookup_delete_eq, doubles_snoc, H2. unfold info. simpl. split; [by destruct (eventInfo e); naive_solver|].
    destruct (last _) as [x|]; [|by rewrite app_nil_r]. unfold report_pair, redundant.
    destruct (eventInfo x), (eventInfo e); try (by rewrite app_nil_r). naive_solver.
  - rewrite lookup_delete_ne by (intros ?%pipe_code_inj; congruence). by rewrite app_nil_r.
Qed.

Lemma redundancy_step evs st e : redundancy_inv evs st → redundancy_inv (evs ++ [e]) (DoRedundancyCheck bytes e st).
Proof.
  intros Hinv. destruct st as [last_ out]. unfold DoRedundancyCheck. set (q := getPipeTypeFromSanEvent e).
  assert (Hskip : (∀ p, p ≠ PIPE_SIZE → relevant p e = false) → redundancy_inv (evs ++ [e]) (last_, out)).
  { intros Hs p Hp. apply redundancy_other; auto. }
  case_bool_decide as Hq.
  { apply Hskip. intros p Hp. unfold relevant. fold q. by rewrite bool_decide_false by congruence. }
  destruct (eventInfo e) as [|i| | | | | | | | | | | | |] eqn:He; try (apply redundancy_clear; [done|congruence|done|done]).
  destruct (sync_isGenerated i) eqn:Hg.
  { apply Hskip. intros p Hp. unfold relevant. rewrite He, Hg. apply andb_false_r. }
  pose proof (redundancy_record evs last_ out e i q Hinv He eq_refl) as Hrec. cbn zeta in Hrec.
  assert (Hrel : sync_opType i ≠ PIPE_BARRIER → relevant q e = true).
  { intros. unfold relevant. rewrite He, Hg. fold q. rewrite bool_decide_true by done. by rewrite bool_decide_false by done. }
  destruct (sync_opType i) eqn:Ht; try (apply Hrec; [by apply Hrel|done]).
  apply Hskip. intros p Hp. unfold relevant. rewrite He, Hg, Ht. apply andb_false_r.
Qed.
End redundancy.

(** ** A kernel *)

(** The calls of a kernel: [evs] and then [fin], split in any way. *)
Record kernel_run (k : KernelSummary) (s : SyncSanitizer) (calls : list (SanitizerRecord * list SanEvent))
    (evs : list SanEvent) (fin : SanEvent) : Prop := {
  k_accepted : (SetKernelInfo k s).2 = true;
  k_registered : registered s = true;
  k_records : Forall (λ c, IsMstxRecordWithTensor c.1 = false) calls;
  k_events : mjoin (snd <$> calls) = evs ++ [fin];
  k_finish : Replay.is_finish fin = true;
  k_ok : kernel_ok (kernelType k) (deviceType_ s) (blockDim k) evs = true;
  k_fits : Forall (λ e, event_fits e = true) evs;
}.

Section kernel.
Context (bytes : SanEvent → MemOpInfo).

Definition run_calls (calls : list (SanitizerRecord * list SanEvent)) (s : SyncSanitizer) : option SyncSanitizer :=
  foldl (λ o c, o ≫= DoEvents bytes c.1 c.2) (Some s) calls.

(** The events of the checked blocks. *)
Definition targets (checkBlockId : Z) (evs : list SanEvent) : list SanEvent :=
  filter (λ e, IsTargetBlockId checkBlockId (coreId (loc e)) = true) evs.

Lemma targets_snoc b evs e :
  targets b (evs ++ [e]) = targets b evs ++ if IsTargetBlockId b (coreId (loc e)) then [e] else [].
Proof. unfold targets. rewrite filter_app. f_equal. rewrite filter_cons. case_decide as H; [by rewrite H|]. by destruct (IsTargetBlockId _ _). Qed.

Context (kt : KernelType) (dt : DeviceType) (B : Z) (HB : 1 <= B) (HBmax : B * 12 < 4294967296).
Context (r0 : Replay.PipelineReplayer).

(** The state while a kernel that started in state [s0] runs. *)
Record running (s0 : SyncSanitizer) (evs : list SanEvent) (s : SyncSanitizer) : Prop := {
  n_recorded : recorded kt dt B evs (pipelineReplayer_ s).1 (pipelineReplayer_ s).2;
  n_replay : record_all evs r0 = Some (pipelineReplayer_ s);
  n_open : Replay.isFinished_ (pipelineReplayer_ s).2 = false;
  n_match : matched bytes (targets (checkBlockId_ s0) evs) (syncEvents_ s);
  n_redundant : redundancy_inv bytes (targets (checkBlockId_ s0) evs) (pipeRedundancyEvents_ s, redundancyInfo_ s);
  n_stuck : stuckEvents_ s = [];
  n_finished : isFinished_ s = false;
  n_block : checkBlockId_ s = checkBlockId_ s0;
  n_registered : registered s = registered s0;
  n_threads : syncThreadsInfo_ s = syncThreadsInfo_ s0;
  n_sent : sent s = sent s0;
}.

Lemma Do_open fuel e r r' : Replay.is_finish e = false → Replay.Do fuel e r = Some r' →
  Replay.isFinished_ r'.2 = Replay.isFinished_ r.2.
Proof.
  intros He. destruct r as [c m]. unfold Replay.Do. rewrite He. cbn [negb]. destruct (Cont.Push _ _ _ _ _) as [c'|]; [|done].
  cbn [mbind option_bind]. intros [= <-]. cbn [snd]. unfold Replay.CacheMstxCrossSet.
  destruct (Replay.is_mem_event e), (eventInfo e); try done; by case_bool_decide.
Qed.

Lemma record_all_snoc evs r e : record_all (evs ++ [e]) r = (record_all evs r ≫= Replay.Do 0 e).
Proof.
  revert r. induction evs as [|x evs IH]; intros r; cbn [record_all app mbind option_bind].
  - by destruct (Replay.Do 0 e r).
  - destruct (Replay.Do 0 x r); [apply IH|done].
Qed.

Lemma Do_fuel fuel e r : Replay.is_finish e = false → Replay.Do fuel e r = Replay.Do 0 e r.
Proof. intros He. destruct r. unfold Replay.Do. by rewrite He. Qed.

Lemma running_stuck_check s0 evs s e :
  running s0 evs s → replayable kt dt B e = true → Z.of_nat (4 * length evs) < 2147483648 →
  ∃ r, DoStuckCheck bytes e s = Some (upd_stuck r [] s) ∧ recorded kt dt B (evs ++ [e]) r.1 r.2 ∧
    record_all (evs ++ [e]) r0 = Some r ∧ Replay.isFinished_ r.2 = false.
Proof.
  intros Hr He Hlen. unfold replayable in He. bool_prop. unfold DoStuckCheck.
  destruct (pipelineReplayer_ s) as [c m] eqn:Hp. pose proof (n_recorded _ _ _ Hr) as Hrec. rewrite Hp in Hrec. cbn [fst snd] in Hrec.
  destruct (record_step kt dt B HB evs c m e (fuel_of c) Hrec) as (c' & m' & E & Hr'); [done..|].
  pose proof (n_open _ _ _ Hr) as Hop. rewrite Hp in Hop.
  pose proof (Do_open _ _ _ _ ltac:(done) E) as Hop'. rewrite Hop in Hop'. cbn [fst snd] in *. rewrite E. cbn [mbind option_bind].
  exists (c', m'). unfold Replay.IsFinished. cbn [snd]. rewrite Hop'. split.
  2: { split; [done|]. split; [|done]. rewrite record_all_snoc, (n_replay _ _ _ Hr), Hp. cbn [mbind option_bind].
       by rewrite <- (Do_fuel (fuel_of c)). }
  by rewrite (d_called _ _ _ _ _ _ Hrec), (d_called _ _ _ _ _ _ Hr'), (n_stuck _ _ _ Hr).
Qed.

Lemma running_step s0 evs s e :
  running s0 evs s → replayable kt dt B e = true → event_fits e = true → Z.of_nat (4 * length evs) < 2147483648 →
  ∃ s', running s0 (evs ++ [e]) s' ∧ ∀ rest, do_events bytes (e :: rest) s = do_events bytes rest s'.
Proof.
  intros Hr He Hf Hlen. destruct (running_stuck_check _ _ _ _ Hr He Hlen) as (r & Hs & Hrec & Hall & Hop).
  assert (Hnf : Replay.is_finish e = false) by (unfold replayable in He; by bool_prop).
  destruct (IsTargetBlockId (checkBlockId_ s0) (coreId (loc e))) eqn:Ht.
  - set (s1 := upd_stuck r [] s). set (m := DoMatchCheck bytes e (syncEvents_ s1)).
    set (st := DoRedundancyCheck bytes e (pipeRedundancyEvents_ s, redundancyInfo_ s)).
    exists (upd_redundancy st.1 st.2 (upd_match m s1)). destruct Hr. split.
    + split; try done; simpl; rewrite targets_snoc, Ht.
      * by apply matched_step.
      * rewrite <- surjective_pairing. by apply redundancy_step.
    + intros rest. cbn [do_events]. rewrite Hs. cbn [mbind option_bind]. rewrite Hnf. cbn [checkBlockId_ upd_stuck].
      rewrite n_block0, Ht. cbn [negb]. fold s1. fold m. change (pipeRedundancyEvents_ (upd_match m s1)) with (pipeRedundancyEvents_ s).
      change (redundancyInfo_ (upd_match m s1)) with (redundancyInfo_ s). fold st. by destruct st.
  - exists (upd_stuck r [] s). destruct Hr. split.
    + split; try done; simpl; by rewrite targets_snoc, Ht, app_nil_r.
    + intros rest. cbn [do_events]. rewrite Hs. cbn [mbind option_bind]. rewrite Hnf. cbn [checkBlockId_ upd_stuck].
      by rewrite n_block0, Ht.
Qed.

Lemma running_events s0 evs done s :
  running s0 done s → Forall (λ e, replayable kt dt B e = true) evs → Forall (λ e, event_fits e = true) evs →
  Z.of_nat (4 * length (done ++ evs)) < 2147483648 →
  ∃ s', running s0 (done ++ evs) s' ∧ ∀ rest, do_events bytes (evs ++ rest) s = do_events bytes rest s'.
Proof.
  revert done s. induction evs as [|e evs IH]; intros done s Hr Hrep Hfit Hlen.
  - exists s. rewrite app_nil_r. done.
  - apply Forall_cons in Hrep as [He Hrep]. apply Forall_cons in Hfit as [Hf Hfit].
    rewrite length_app in Hlen. simpl in Hlen.
    destruct (running_step s0 done s e Hr He Hf ltac:(lia)) as (s1 & H1 & E1).
    destruct (IH (done ++ [e]) s1 H1 Hrep Hfit) as (s2 & H2 & E2); [rewrite !length_app; simpl; lia|].
    exists s2. rewrite <- app_assoc in H2. split; [done|]. intros rest. simpl. rewrite <- E2. apply E1.
Qed.

(** What the callback of the replayer collects from the events left at the heads
    of the queues. *)
Definition stuck_info (heads : list SanEvent) : SyncStuckDspInfo :=
  heads ≫= λ e, stuck_callback bytes (Replay.ALL_DEVICE_STUCK, e).
Definition stuck_messages (heads : list SanEvent) : list (LogLv * message) :=
  match stuck_info heads with [] => [] | l => [(LV_ERROR, MStuck l)] end.

Definition report_messages (s : SyncSanitizer) : list (LogLv * message) :=
  ((λ i, (LV_WARN, MUnpaired i)) <$> unpaired (syncEvents_ s)) ++
  ((λ i, (LV_WARN, MRedundant i)) <$> redundancyInfo_ s) ++
  ((λ e, (LV_ERROR, MThreads e)) <$> syncThreadsInfo_ s).

Definition final_reports (s : SyncSanitizer) : option SyncSanitizer :=
  s ← ReportUnpairedInfo s; s ← ReportRedundancyInfo s; ReportSyncThreadsInfo s.

Lemma reports_sent s :
  registered s = true → ∃ s', final_reports s = Some s' ∧ sent s' = sent s ++ report_messages s.
Proof.
  intros Hreg. unfold final_reports, ReportUnpairedInfo, ReportRedundancyInfo, ReportSyncThreadsInfo, notify.
  rewrite Hreg. cbn [negb andb mbind option_bind registered upd_threads]. rewrite Hreg.
  cbn [negb andb mbind option_bind registered upd_threads]. rewrite Hreg. cbn [negb andb]. eexists. split; [done|].
  cbn [sent upd_threads]. unfold report_messages. cbn [redundancyInfo_ syncThreadsInfo_ upd_threads].
  by rewrite !app_assoc.
Qed.

Lemma running_finish s0 evs s fin :
  running s0 evs s → registered s0 = true → Replay.is_finish fin = true →
  Z.of_nat (4 * length evs) < 2147483648 →
  ∃ r s', replayed kt dt B evs r.1 r.2 ∧
    (∀ fuel, (fuel_of (pipelineReplayer_ s).1 <= fuel)%nat → Replay.Do fuel fin (pipelineReplayer_ s) = Some r) ∧
    (do_events bytes [fin] s ≫= final_reports) = Some s' ∧
    (∀ s1, do_events bytes [fin] s = Some s1 → isFinished_ s1 = true) ∧
    sent s' = sent s0 ++ stuck_messages (omap head (conts r.1)) ++ report_messages s.
Proof.
  intros Hr Hreg Hfin Hlen. destruct (pipelineReplayer_ s) as [c m] eqn:Hp.
  pose proof (n_recorded _ _ _ Hr) as Hd. rewrite Hp in Hd. cbn [fst snd] in Hd.
  destruct (run_replayed kt dt B HB HBmax evs c m fin Hd Hfin Hlen) as (c' & m' & Hrun & Hdone).
  exists (c', m'). cbn [fst snd]. set (heads := omap head (conts c')).
  assert (Hcalls : drop (length (Replay.called m)) (Replay.called m') ≫= stuck_callback bytes = stuck_info heads).
  { rewrite (d_called _ _ _ _ _ _ Hd). destruct (f_calls _ _ _ _ _ _ Hdone) as (l & -> & Hl). cbn [length]. rewrite drop_0, bind_app.
    assert (l ≫= stuck_callback bytes = []) as ->.
    { clear -Hl. induction Hl as [|[t e] l Ht _ IH]; [done|]. simpl in *. subst t. exact IH. }
    unfold stuck_info, heads. clear. cbn [app]. induction (omap head (conts c')) as [|e es IH]; [done|].
    rewrite fmap_cons. cbn [mbind list_bind]. f_equal. exact IH. }
  set (s1 := upd_finished true (upd_threads (syncThreadsInfo_ s) (hasWarnedSyncIndexOutOfBounds s)
               (sent s ++ stuck_messages heads) (upd_stuck (c', m') (stuck_info heads) s))).
  assert (H1 : do_events bytes [fin] s = Some s1).
  { cbn [do_events]. unfold DoStuckCheck. rewrite Hp. cbn [fst]. rewrite Hrun by done. cbn [mbind option_bind snd].
    rewrite Hcalls, (n_stuck _ _ _ Hr). cbn [app]. unfold Replay.IsFinished. cbn [snd].
    rewrite (f_finished _ _ _ _ _ _ Hdone). cbn [stuckEvents_ upd_stuck]. unfold s1, stuck_messages.
    destruct (stuck_info heads) as [|x l] eqn:Hst; cbn [length].
    - rewrite bool_decide_true by done. cbn [mbind option_bind]. rewrite Hfin. by rewrite app_nil_r; destruct s.
    - rewrite bool_decide_false by done. unfold notify. cbn [registered upd_stuck].
      rewrite (n_registered _ _ _ Hr), Hreg. cbn [negb andb mbind option_bind]. rewrite Hfin. done. }
  destruct (reports_sent s1) as (s2 & H2 & Hs2); [by rewrite <- Hreg, <- (n_registered _ _ _ Hr)|].
  exists s2. rewrite H1. cbn [mbind option_bind]. split_and!; [done|done|done|by intros ? [= <-]|]. rewrite Hs2.
  cbn [sent s1 upd_finished upd_threads]. rewrite (n_sent _ _ _ Hr). by rewrite <- app_assoc.
Qed.

Lemma calls_done (calls : list (SanitizerRecord * list SanEvent)) s :
  mjoin (snd <$> calls) = [] → run_calls calls s = Some s.
Proof.
  induction calls as [|[rec l] calls IH]; [done|]. intros H. simpl in H. apply app_nil in H as [-> H].
  unfold run_calls. cbn [foldl mbind option_bind fst snd]. unfold DoEvents at 2.
  replace (if IsMstxRecordWithTensor rec then Some s else _) with (Some s) by (by destruct (IsMstxRecordWithTensor rec)).
  by apply IH.
Qed.

Lemma DoEvents_open rec l s s' :
  IsMstxRecordWithTensor rec = false → do_events bytes l s = Some s' → isFinished_ s' = false →
  DoEvents bytes rec l s = Some s'.
Proof.
  intros Hrec Hd Hf. unfold DoEvents. rewrite Hrec. destruct l as [|e l].
  - simpl in *. done.
  - rewrite bool_decide_false by done. rewrite Hd. cbn [mbind option_bind]. by rewrite Hf.
Qed.

Lemma running_calls s0 fin : registered s0 = true → Replay.is_finish fin = true → ∀ calls done s evs,
  running s0 done s → Forall (λ c, IsMstxRecordWithTensor c.1 = false) calls →
  mjoin (snd <$> calls) = evs ++ [fin] →
  Forall (λ e, replayable kt dt B e = true) evs → Forall (λ e, event_fits e = true) evs →
  Z.of_nat (4 * length (done ++ evs)) < 2147483648 →
  ∃ r s1 s', running s0 (done ++ evs) s1 ∧ replayed kt dt B (done ++ evs) r.1 r.2 ∧
    (∀ fuel, (fuel_of (pipelineReplayer_ s1).1 <= fuel)%nat → Replay.Do fuel fin (pipelineReplayer_ s1) = Some r) ∧
    run_calls calls s = Some s' ∧
    sent s' = sent s0 ++ stuck_messages (omap head (conts r.1)) ++ report_messages s1.
Proof.
  intros Hreg Hfin. induction calls as [|[rec l] calls IH]; intros done s evs Hr Hrec Hj Hrep Hfit Hlen.
  { by destruct evs. }
  apply Forall_cons in Hrec as [Hrec1 Hrec]. cbn [fst] in Hrec1.
  change (l ++ mjoin (snd <$> calls) = evs ++ [fin]) in Hj.
  change (run_calls ((rec, l) :: calls) s) with (foldl (λ o c, o ≫= DoEvents bytes c.1 c.2) (DoEvents bytes rec l s) calls).
  assert (Hcut : (l = evs ++ [fin] ∧ mjoin (snd <$> calls) = []) ∨ ∃ k, evs = l ++ k ∧ mjoin (snd <$> calls) = k ++ [fin]).
  { apply app_eq_inv in Hj as [(k & -> & Hk)|(k & -> & Hj)]; [|right; by exists k].
    destruct k as [|x [|y k] ]; [right; exists []; by rewrite !app_nil_r|left; by injection Hk as -> <-|done]. }
  destruct Hcut as [ [-> Hnil]|(k & -> & Hj')].
  - destruct (running_events s0 evs done s Hr Hrep Hfit Hlen) as (s1 & H1 & E1).
    destruct (running_finish s0 _ s1 fin H1 Hreg Hfin Hlen) as (r & s' & Hd & Hrun & Hfin' & Hf & Hs).
    exists r, s1, s'. split_and!; try done. unfold DoEvents. rewrite Hrec1, bool_decide_false, E1 by (by destruct evs).
    destruct (do_events bytes [fin] s1) as [s2|] eqn:E2; [|done]. cbn [mbind option_bind] in *. rewrite (Hf s2 eq_refl).
    fold (final_reports s2). rewrite Hfin'. by apply calls_done.
  - apply Forall_app in Hrep as [Hrep1 Hrep2]. apply Forall_app in Hfit as [Hfit1 Hfit2].
    destruct (running_events s0 l done s Hr Hrep1 Hfit1) as (s1 & H1 & E1).
    { rewrite !length_app in *. lia. }
    rewrite (DoEvents_open rec l s s1); [|done|by rewrite <- (app_nil_r l), E1|apply H1].
    rewrite app_assoc. apply IH; try done. by rewrite <- app_assoc.
Qed.
End kernel.

Lemma start_running bytes k s :
  (SetKernelInfo k s).2 = true →
  let kt := kernelType k in let dt := deviceType_ s in let B := Replay.total_blocks kt dt (blockDim k) in
  1 <= B → B * 12 < 4294967296 →
  running bytes kt dt B (Replay.Init kt dt (blockDim k) true) (SetKernelInfo k s).1 [] (SetKernelInfo k s).1.
Proof.
  intros Hk kt dt B HB HBm. pose proof (init_recorded kt dt B ltac:(lia) ltac:(lia) (blockDim k) eq_refl) as Hi.
  unfold SetKernelInfo in *. case_bool_decide; [done|]. case_match; [done|]. clear Hk. by split.
Qed.

Lemma sync_kernel bytes k s calls evs fin :
  kernel_run k s calls evs fin →
  let kt := kernelType k in let dt := deviceType_ s in let B := Replay.total_blocks kt dt (blockDim k) in
  ∃ r s1 s', replayed kt dt B evs r.1 r.2 ∧
    (∀ fuel, enough kt dt (blockDim k) evs fuel → replay fuel kt dt (blockDim k) evs fin = Some r) ∧
    matched bytes (targets (checkBlockId_ s) evs) (syncEvents_ s1) ∧
    redundancy_inv bytes (targets (checkBlockId_ s) evs) (pipeRedundancyEvents_ s1, redundancyInfo_ s1) ∧
    syncThreadsInfo_ s1 = syncThreadsInfo_ s ∧
    run_calls bytes calls (SetKernelInfo k s).1 = Some s' ∧
    sent s' = sent s ++ stuck_messages bytes (omap head (conts r.1)) ++ report_messages s1.
Proof.
  intros [K1 K2 K3 K4 K5 K6 K7] kt dt B. destruct (kernel_ok_parts _ _ _ _ K6) as (HB & Hfit & Hall & Hlen).
  pose proof (start_running bytes k s K1 HB Hfit) as Hstart. cbn zeta in Hstart.
  assert (Hsame : checkBlockId_ (SetKernelInfo k s).1 = checkBlockId_ s ∧ registered (SetKernelInfo k s).1 = registered s ∧
    syncThreadsInfo_ (SetKernelInfo k s).1 = syncThreadsInfo_ s ∧ sent (SetKernelInfo k s).1 = sent s).
  { unfold SetKernelInfo. case_bool_decide; [done|]. by case_match. }
  destruct Hsame as (S1 & S2 & S3 & S4).
  destruct (running_calls bytes kt dt B HB Hfit _ (SetKernelInfo k s).1 fin ltac:(congruence) K5 calls [] _ evs Hstart K3 K4
              Hall K7 Hlen) as (r & s1 & s' & H1 & Hd & Hrun & Hcalls & Hsent).
  cbn [app] in *. exists r, s1, s'. rewrite <- S1, <- S3, <- S4. split_and!; try done; [|apply H1..].
  intros fuel Hf. unfold replay. pose proof (n_replay _ _ _ _ _ _ _ _ H1) as Hr. fold kt dt in Hr. rewrite Hr. cbn [mbind option_bind]. apply Hrun.
  etrans; [|exact Hf]. eapply fuel_enough, (n_recorded _ _ _ _ _ _ _ _ H1); done.
Qed.

(** ** Theorems *)

Definition is_unpaired (f : flag) (m : LogLv * message) : bool :=
  match m.2 with MUnpaired d => bool_decide (flag_of_disp d = f) | _ => false end.
Definition redundant_info (m : LogLv * message) : option SyncDispInfo :=
  match m.2 with MRedundant d => Some d | _ => None end.
Definition stuck_part (m : LogLv * message) : option SyncStuckDspInfo :=
  match m.2 with MStuck l => Some l | _ => None end.

Lemma stuck_messages_cases bytes heads (P : list (LogLv * message) → Prop) :
  P [] → (∀ l, P [(LV_ERROR, MStuck l)]) → P (stuck_messages bytes heads).
Proof. intros H0 H1. unfold stuck_messages. by destruct (stuck_info bytes heads). Qed.

Lemma omap_fmap_none {A B C} (f : A → B) (g : B → option C) (l : list A) : (∀ x, g (f x) = None) → omap g (f <$> l) = [].
Proof. intros H. induction l as [|x l IH]; [done|]. simpl. by rewrite H. Qed.
Lemma omap_fmap_some {A B} (f : A → B) (g : B → option A) (l : list A) : (∀ x, g (f x) = Some x) → omap g (f <$> l) = l.
Proof. intros H. induction l as [|x l IH]; [done|]. simpl. rewrite H. by f_equal. Qed.

(** C30: At the end of a kernel the synchronisation check reports, for every flag,
    exactly as many unpaired [set_flag]s as the checked blocks set the flag more
    often than they wait for it, whatever the order of the instructions and
    however the events are split into calls; each report is one of the
    [set_flag] instructions. *)
Theorem unpaired_exact bytes k s calls evs fin :
  kernel_run k s calls evs fin →
  ∃ s' out, run_calls bytes calls (SetKernelInfo k s).1 = Some s' ∧ sent s' = sent s ++ out ∧
    (∀ f, flag_fits f = true →
       Z.of_nat (length (filter (λ m, is_unpaired f m = true) out)) =
       Z.max 0 (count SET_FLAG f (targets (checkBlockId_ s) evs) - count WAIT_FLAG f (targets (checkBlockId_ s) evs))) ∧
    (∀ lv d, (lv, MUnpaired d) ∈ out → lv = LV_WARN ∧
       ∃ e i, e ∈ targets (checkBlockId_ s) evs ∧ eventInfo e = SyncInfo i ∧ sync_opType i = SET_FLAG ∧
         d = disp_of bytes MATCH_CHECK e i).
Proof.
  intros Hk. destruct (sync_kernel bytes _ _ _ _ _ Hk) as (r & s1 & s' & _ & _ & Hm & _ & _ & Hrun & Hs).
  exists s', (stuck_messages bytes (omap head (conts r.1)) ++ report_messages s1). split_and!; [done|done|..].
  - intros f Hf. rewrite <- (unpaired_count bytes _ _ f Hm Hf). f_equal. unfold report_messages. rewrite !filter_app, !length_app.
    rewrite (filter_none _ (stuck_messages _ _)) by (apply stuck_messages_cases; repeat constructor; done).
    rewrite (filter_none _ ((λ i, (LV_WARN, MRedundant i)) <$> _)) by (apply Forall_fmap, Forall_true; done).
    rewrite (filter_none _ ((λ e, (LV_ERROR, MThreads e)) <$> _)) by (apply Forall_fmap, Forall_true; done).
    cbn [length]. rewrite Nat.add_0_r, Nat.add_0_l. clear. induction (unpaired _) as [|d l IH]; [done|].
    rewrite fmap_cons, !filter_cons. destruct (decide (flag_of_disp d = f)) as [Hd|Hd].
    + rewrite decide_True by (unfold is_unpaired; simpl; by rewrite bool_decide_true). simpl. by f_equal.
    + rewrite decide_False by (unfold is_unpaired; simpl; by rewrite bool_decide_false). done.
  - intros lv d Hin. unfold report_messages in Hin. rewrite !elem_of_app in Hin.
    destruct Hin as [Hin|[Hin|[Hin|Hin] ] ].
    + revert Hin. apply stuck_messages_cases; [by intros ?%not_elem_of_nil|]. by intros l [=]%list_elem_of_singleton.
    + apply list_elem_of_fmap in Hin as (d' & [= -> ->] & Hd). split; [done|]. by eapply unpaired_from.
    + by apply list_elem_of_fmap in Hin as (? & ? & _).
    + by apply list_elem_of_fmap in Hin as (? & ? & _).
Qed.

(** C31: The instructions reported as redundant are, pipe by pipe and in order,
    the pairs of a [set_flag] or [wait_flag] and an identical one before it on
    the pipe, with no other instruction of the pipe between them: static memory
    accesses, time events and synchronisation of the pipe separate the two.
    Barriers, inserted synchronisation and the events that belong to no pipe of
    this check, accesses of SIMT code among them, do not. *)
Theorem redundancy_exact bytes k s calls evs fin :
  kernel_run k s calls evs fin →
  ∃ s' out, run_calls bytes calls (SetKernelInfo k s).1 = Some s' ∧ sent s' = sent s ++ out ∧
    ∀ p, p ≠ PIPE_SIZE →
      filter (λ d, disp_pipe d = p) (omap redundant_info out) =
      doubles bytes (instructions p (targets (checkBlockId_ s) evs)).
Proof.
  intros Hk. destruct (sync_kernel bytes _ _ _ _ _ Hk) as (r & s1 & s' & _ & _ & _ & Hred & _ & Hrun & Hs).
  exists s', (stuck_messages bytes (omap head (conts r.1)) ++ report_messages s1). split_and!; [done|done|].
  intros p Hp. rewrite instructions_stream by done. unfold report_messages. rewrite !omap_app.
  assert (omap redundant_info (stuck_messages bytes (omap head (conts r.1))) = []) as -> by (by apply stuck_messages_cases).
  rewrite (omap_fmap_some _ _ (redundancyInfo_ s1)), !omap_fmap_none by done. rewrite app_nil_r. apply (Hred p Hp).
Qed.

(** An event that the tool inserted. *)
Definition inserted (e : SanEvent) : Prop := ∃ i, eventInfo e = SyncInfo i ∧ sync_isGenerated i = true.
#[export] Instance inserted_dec e : Decision (inserted e).
Proof.
  unfold inserted. destruct (eventInfo e) as [|i| | | | | | | | | | | | |]; try (right; naive_solver).
  destruct (sync_isGenerated i) eqn:E; [left; by exists i|].
  right. intros (j & [= <-] & Hj). congruence.
Defined.

(** What a message about a stuck kernel says of the events left behind. *)
Definition stuck_list (bytes : SanEvent → MemOpInfo) (heads : list SanEvent) : SyncStuckDspInfo :=
  (λ e, (ErrorEvent_of bytes e, FillStuckInstructName e)) <$> filter (λ e, ¬ inserted e) heads.

Lemma stuck_info_exact bytes heads : stuck_info bytes heads = stuck_list bytes heads.
Proof.
  unfold stuck_info, stuck_list. induction heads as [|e heads IH]; [done|]. rewrite bind_cons, IH, filter_cons.
  unfold stuck_callback. cbn [fst snd]. case_decide as Hi.
  - destruct (eventInfo e) as [|i| | | | | | | | | | | | |] eqn:E; try done.
    destruct (sync_isGenerated i) eqn:Eg; [|done]. destruct Hi. by exists i.
  - destruct Hi as (i & -> & ->). done.
Qed.

(** A kernel is reported as stuck exactly when its replay ends with events left
    at the heads of the queues that were not inserted by the tool; the one
    message lists them and no others, and each would stall again. *)
Theorem stuck_kernel_reported bytes k s calls evs fin :
  kernel_run k s calls evs fin →
  ∃ s' out r, run_calls bytes calls (SetKernelInfo k s).1 = Some s' ∧ sent s' = sent s ++ out ∧
    (∀ fuel, enough (kernelType k) (deviceType_ s) (blockDim k) evs fuel →
       replay fuel (kernelType k) (deviceType_ s) (blockDim k) evs fin = Some r) ∧
    omap stuck_part out = (match stuck_list bytes (omap head (conts r.1)) with [] => [] | l => [l] end) ∧
    ∀ i e rest, conts r.1 !! i = Some (e :: rest) → ∃ m', Replay.dispatch (Z.of_nat i) e r.2 = Some (m', Pipe.PROCESS_STALLED).
Proof.
  intros Hk. destruct (sync_kernel bytes _ _ _ _ _ Hk) as (r & s1 & s' & Hd & Hrep & _ & _ & _ & Hrun & Hs).
  exists s', (stuck_messages bytes (omap head (conts r.1)) ++ report_messages s1), r. split_and!; [done|done|done|..].
  - unfold report_messages. rewrite !omap_app. rewrite !omap_fmap_none by done. rewrite !app_nil_r.
    rewrite <- stuck_info_exact. unfold stuck_messages. by destruct (stuck_info bytes _).
  - intros i e rest Hi. by destruct (f_blocked _ _ _ _ _ _ Hd i e rest Hi) as (_ & _ & _ & _ & _ & ?).
Qed.

(** The errors of threads found on the device are kept when the next kernel
    starts: its end reports them once more. *)
Theorem thread_errors_repeated bytes k s calls evs fin :
  kernel_run k s calls evs fin →
  ∃ s' out, run_calls bytes calls (SetKernelInfo k s).1 = Some s' ∧
    sent s' = sent s ++ out ++ ((λ e, (LV_ERROR, MThreads e)) <$> syncThreadsInfo_ s).
Proof.
  intros Hk. destruct (sync_kernel bytes _ _ _ _ _ Hk) as (r & s1 & s' & _ & _ & _ & _ & Ht & Hrun & Hs).
  exists s', (stuck_messages bytes (omap head (conts r.1)) ++ ((λ i, (LV_WARN, MUnpaired i)) <$> unpaired (syncEvents_ s1)) ++
    ((λ i, (LV_WARN, MRedundant i)) <$> redundancyInfo_ s1)).
  split; [done|]. rewrite Hs. unfold report_messages. rewrite Ht, <- !app_assoc. done.
Qed.

(** *** Witnesses: core 0 sets a flag twice and waits once, core 1 waits in vain *)

Definition ex_flag (core : Z) : flag := (core, AIVEC, PIPE_MTE2, PIPE_V, 3).
Definition ex_sync (core : Z) (p : PipeType) (t : SyncType) : SanEvent :=
  ReplayerProofs.ex_event core p
    (SyncInfo {| sync_opType := t; sync_srcPipe := PIPE_MTE2; sync_dstPipe := PIPE_V; sync_eventId := 3;
                 sync_memType := MemType.UB; sync_isRetrogress := false; sync_isGenerated := false |}).
Definition ex_bytes (_ : SanEvent) : MemOpInfo :=
  {| memType := MemType.GM; EventDef.opType := READ; vectorMask := {| mask0 := 0; mask1 := 0 |}; maskMode := 0;
     instrName := 0; dataBits := 0; addr := 0; blockNum := 0; blockSize := 0; blockStride := 0; repeatTimes := 0;
     repeatStride := 0; alignSize := 0; mem_ignoreIllegalCheck := false; isScalarAtomic := false; dcciDistance := 0;
     dstCoreId := 0; dstBlockType := AIVEC; instrClass := INSTR_UNKNOWN; matrixM := 0; matrixN := 0 |}.
Definition ex_events : list SanEvent :=
  [ex_sync 0 PIPE_MTE2 SET_FLAG; ex_sync 0 PIPE_MTE2 SET_FLAG; ex_sync 0 PIPE_V WAIT_FLAG; ex_sync 1 PIPE_V WAIT_FLAG].
Definition ex_record : SanitizerRecord := IPC_RECORD.
Definition ex_calls : list (SanitizerRecord * list SanEvent) :=
  [(ex_record, take 2 ex_events); (ex_record, drop 2 ex_events); (ex_record, [ReplayerProofs.ex_finish])].
Definition ex_summary : KernelSummary := mkSummary 0 2 KT_AIVEC false false "k".
Definition ex_state : SyncSanitizer :=
  mkSync KT_AIVEC ASCEND_910B1 (Replay.Init KT_AIVEC ASCEND_910B1 1 false) (-1) true ∅ ∅ [] [] [] false false [].

Lemma ex_kernel_run : kernel_run ex_summary ex_state ex_calls ex_events ReplayerProofs.ex_finish.
Proof.
  split; [reflexivity|reflexivity|repeat constructor|reflexivity|reflexivity|vm_compute; reflexivity|].
  unfold ex_events. repeat constructor.
Defined.

Lemma unpaired_exact_witness :
  ∃ s' out, run_calls ex_bytes ex_calls (SetKernelInfo ex_summary ex_state).1 = Some s' ∧ sent s' = out ∧
    length (filter (λ m, is_unpaired (ex_flag 0) m = true) out) = 1%nat ∧
    length (filter (λ m, is_unpaired (ex_flag 1) m = true) out) = 0%nat.
Proof.
  destruct (unpaired_exact ex_bytes ex_summary ex_state ex_calls ex_events ReplayerProofs.ex_finish ex_kernel_run)
    as (s' & out & Hrun & Hs & Hc & _).
  exists s', out. split; [exact Hrun|]. split; [exact Hs|]. split; apply Nat2Z.inj; rewrite Hc by reflexivity;
    vm_compute; reflexivity.
Defined.

Lemma redundancy_exact_witness :
  ∃ s' out, run_calls ex_bytes ex_calls (SetKernelInfo ex_summary ex_state).1 = Some s' ∧ sent s' = out ∧
    flag_of_disp <$> filter (λ d, disp_pipe d = PIPE_MTE2) (omap redundant_info out) = [ex_flag 0; ex_flag 0] ∧
    filter (λ d, disp_pipe d = PIPE_V) (omap redundant_info out) = [].
Proof.
  destruct (redundancy_exact ex_bytes ex_summary ex_state ex_calls ex_events ReplayerProofs.ex_finish ex_kernel_run)
    as (s' & out & Hrun & Hs & Hc).
  exists s', out. split; [exact Hrun|]. split; [exact Hs|].
  split; rewrite Hc by discriminate; vm_compute; reflexivity.
Defined.

(** A static access between two identical [set_flag]s separates them, an access of
    SIMT code does not, although the check means to forget the last instruction
    of a pipe at any event that is no synchronisation. *)
Definition ex_static : SanEvent := ReplayerProofs.ex_event 0 PIPE_MTE2 (MemInfo (ex_bytes (ex_sync 0 PIPE_MTE2 SET_FLAG))).
Definition ex_simt : SanEvent :=
  ReplayerProofs.ex_event 0 PIPE_MTE2
    (DynamicInfo {| dyn_minAddr := 0; dyn_maxAddr := 64; dyn_isSimtEntry := true; dyn_memType := MemType.UB; dyn_buffer := [] |}).

Theorem simt_access_overlooked :
  let set := ex_sync 0 PIPE_MTE2 SET_FLAG in
  let reports := λ l, length (foldl (λ st e, DoRedundancyCheck ex_bytes e st) (∅, []) l).2 in
  reports [set; ex_static; set] = 0%nat ∧ reports [set; ex_simt; set] = 2%nat.
Proof. split; vm_compute; reflexivity. Qed.
