(* ===== verification/KernelRecords.v ===== *)
(** Kernel records: the structs of [csrc/core/framework/record_defs.h] and
    [csrc/include/sanitizer_report.h] that device stubs write and the parser
    reads. One module per struct, with the source's field names; unsigned and
    signed integers of any width are [Z], a mask mode and an instruction name
    are the codes of their enumerations, an array is a list. The two unions
    ([MstxRecord::Interface], [KernelRecord::Payload]) have one constructor per
    member. *)
From stdpp Require Import base numbers list option strings.
From S2P Require Import Prelude.
From S2P Require Import RecordDefs.
From S2P Require Import Platform.
From S2P Require Import EventDef.

(** ** Enumerations *)

Definition MASK_NORM : Z := 0.
Definition MASK_COUNT : Z := 1.

Inductive ConvRelu :=
  | CRMODE_NONE | CRMODE_F32toF16_NONE | CRMODE_F32toF16_RELU | CRMODE_S32toF16_NONE
  | CRMODE_F16toF32_NONE | CRMODE_NONE_RELU | CRMODE_F16_MUL | CRMODE_S32toF16_DEQSCALE_SPR
  | CRMODE_DEQSCALE_VDEQ8 | CRMODE_DEQSCALE_DEQ8 | CRMODE_DEQSCALE_VDEQ16 | CRMODE_DEQSCALE_DEQ16
  | CRMODE_DEQSCALE_VDEQS16 | CRMODE_DEQSCALE_DEQS16.

Inductive ByteMode := BM_DISABLE | BM_ENABLE.

Module DetailedDataType.
Inductive DetailedDataType :=
  | Default | B4 | E1M2 | E2M1 | B8 | S8 | U8 | E4M3 | E5M2 | B16 | S16 | U16 | F16 | HALF | BF16 | B32
  | S32 | U32 | FLOAT | B64 | S64 | U64 | B128 | F16X2 | BF16X2 | F32.
End DetailedDataType.

Inductive AddrCalMode := ADDR_INC | ADDR_DEC.
Inductive TransposeMode := TRANSPOSE_DISABLE | TRANSPOSE_ENABLE.
Inductive PaddingMode := PADDING_NORMAL | PADDING_COMPACT.

Module MemDsbType.
Inductive MemDsbType := ALL | DDR | UB | SEQ.
End MemDsbType.

(** [EventID::VALID_EVENT_ID_SIZE] *)
Definition VALID_EVENT_ID_SIZE : Z := 8.

Inductive HcclFlagId := ALLREDUCE | ALLGATHER | REDUCESCATTER | ALLTOALL.
(** [static_cast<HcclFlagId>(flagId)], where it is one of the named values. *)
Definition HcclFlagId_of (z : Z) : option HcclFlagId :=
  if z =? 0 then Some ALLREDUCE else if z =? 1 then Some ALLGATHER
  else if z =? 2 then Some REDUCESCATTER else if z =? 3 then Some ALLTOALL else None.

Inductive InterfaceType :=
  | MSTX_SET_CROSS_SYNC | MSTX_WAIT_CROSS_SYNC | MSTX_HCCL | MSTX_HCCLV | IF_CROSS_CORE_BARRIER
  | MSTX_CROSS_CORE_SET_FLAG | MSTX_CROSS_CORE_WAIT_FLAG | MSTX_SIGNAL_SET | MSTX_SIGNAL_WAIT
  | IF_CROSS_NPU_BARRIER | MSTX_FUSE_SCOPE_START | MSTX_FUSE_SCOPE_END | MSTX_VEC_UNARY_OP
  | MSTX_VEC_BINARY_OP | MSTX_DATA_COPY | MSTX_DATA_COPY_PAD | MSTX_DATA_COPY_PAD_V2 | MSTX_WITH_TENSOR.
#[export] Instance InterfaceType_eq : EqDecision InterfaceType. Proof. solve_decision. Defined.

(** ** Structs *)

Module CompareMask.
Record t := mk {
  mask0 : Z; mask1 : Z
}.
End CompareMask.

Module VaRegister.
Record t := mk {
  l64 : Z; h64 : Z
}.
End VaRegister.

Module LoopInfo.
Record t := mk {
  loopSrcStride : Z; loopDstStride : Z; loopSize : Z; loopLpSize : Z; loopRpSize : Z
}.
End LoopInfo.

Module LoadStoreRecord.
Record t := mk {
  addr : Z; size : Z; location : Location; space : AddressSpace;
  dataType : DetailedDataType.DetailedDataType; alignSize : Z
}.
End LoadStoreRecord.

Module RedRecord.
Record t := mk {
  addr : Z; size : Z; location : Location; detailedDataType : DetailedDataType.DetailedDataType
}.
End RedRecord.

Module DmaMovRecord.
Record t := mk {
  dst : Z; src : Z; location : Location; nBurst : Z; lenBurst : Z; srcStride : Z; dstStride : Z;
  dstMemType : MemType.MemType; srcMemType : MemType.MemType; padMode : PadMode; byteMode : ByteMode
}.
End DmaMovRecord.

Module DmaMovConvReluRecord.
Record t := mk {
  dst : Z; src : Z; location : Location; nBurst : Z; lenBurst : Z; srcStride : Z; dstStride : Z;
  crMode : ConvRelu; dstMemType : MemType.MemType; srcMemType : MemType.MemType; srcDataType : DataType;
  dstDataType : DataType
}.
End DmaMovConvReluRecord.

Module DmaMovNd2nzRecord.
Record t := mk {
  dst : Z; src : Z; location : Location; ndNum : Z; nValue : Z; dValue : Z; srcNdMatrixStride : Z;
  srcDValue : Z; dstNzC0Stride : Z; dstNzNStride : Z; dstNzMatrixStride : Z; srcMemType : MemType.MemType;
  dstMemType : MemType.MemType; dataType : DataType
}.
End DmaMovNd2nzRecord.

Module DmaMovNd2nzDavRecord.
Record t := mk {
  dst : Z; src : Z; location : Location; loop4SrcStride : Z; loop1SrcStride : Z; dValue : Z; nValue : Z;
  ndNum : Z; loop2DstStride : Z; loop3DstStride : Z; loop4DstStride : Z; smallC0 : Z;
  srcMemType : MemType.MemType; dstMemType : MemType.MemType; dataType : DataType
}.
End DmaMovNd2nzDavRecord.

Module MovAlignRecord.
Record t := mk {
  dst : Z; src : Z; location : Location; srcGap : Z; dstGap : Z; lenBurst : Z; nBurst : Z;
  dstMemType : MemType.MemType; srcMemType : MemType.MemType; dataType : DataType; leftPaddingNum : Z;
  rightPaddingNum : Z
}.
End MovAlignRecord.

Module MovAlignRecordV2.
Record t := mk {
  dst : Z; src : Z; location : Location; loop1DstStride : Z; loop2DstStride : Z; dstStride : Z;
  srcStride : Z; loop1SrcStride : Z; loop2SrcStride : Z; nBurst : Z; lenBurst : Z; loop1Size : Z;
  loop2Size : Z; dstMemType : MemType.MemType; srcMemType : MemType.MemType; dataType : DataType;
  leftPaddingNum : Z; rightPaddingNum : Z
}.
End MovAlignRecordV2.

Module NdDMAOut2UbRecord.
Record t := mk {
  dst : Z; src : Z; location : Location; loop : list LoopInfo.t; dataType : DataType
}.
End NdDMAOut2UbRecord.

Module MovBtRecord.
Record t := mk {
  dst : Z; src : Z; location : Location; srcGap : Z; dstGap : Z; lenBurst : Z; nBurst : Z; convControl : Z;
  dstMemType : MemType.MemType; srcMemType : MemType.MemType
}.
End MovBtRecord.

Module MovFpRecord.
Record t := mk {
  dst : Z; src : Z; location : Location; dstStride : Z; dstNdStride : Z; srcStride : Z; nSize : Z;
  mSize : Z; dualDstMode : Z; subVecBlockId : Z; ndNum : Z; srcNdStride : Z; srcNzC0Stride : Z;
  quantPreBits : Z; enUnitFlag : bool; int8ChannelMerge : bool; int4ChannelMerge : bool;
  channelSplit : bool; enNZ2ND : bool; enNZ2DN : bool; isC310 : bool
}.
End MovFpRecord.

Module VecDupRecord.
Record t := mk {
  dst : Z; location : Location; vectorMask : VectorMask; dstBlockStride : Z; dstRepeatStride : Z;
  repeat : Z; dataBits : Z; maskMode : Z; instrName : Z
}.
End VecDupRecord.

Module UnaryOpRecord.
Record t := mk {
  dst : Z; src : Z; location : Location; vectorMask : VectorMask; dstBlockSize : Z; srcBlockSize : Z;
  dstBlockStride : Z; srcBlockStride : Z; dstRepeatStride : Z; srcRepeatStride : Z; repeat : Z;
  dstBlockNum : Z; srcBlockNum : Z; dstDataBits : Z; srcDataBits : Z; maskMode : Z; instrName : Z
}.
End UnaryOpRecord.

Module VgatherRecord.
Record t := mk {
  dst : Z; src : Z; location : Location; vectorMask : VectorMask; dstBlockSize : Z; srcBlockSize : Z;
  offsetAddr : Z; dstRepeatStride : Z; dstBlockNum : Z; srcBlockNum : Z; dstAlignSize : Z;
  dstBlockStride : Z; dstRepeat : Z; dstDataBits : Z; maskMode : Z; instrName : Z
}.
End VgatherRecord.

Module ElementRecord.
Record t := mk {
  location : Location; vectorMask : VectorMask; addr : Z; blockSize : Z; blockNum : Z; alignSize : Z;
  dataBits : Z; accessType : AccessType; maskMode : Z; instrName : Z
}.
End ElementRecord.

Module BinaryOpRecord.
Record t := mk {
  dst : Z; src0 : Z; src1 : Z; location : Location; vectorMask : VectorMask; dstBlockStride : Z;
  src0BlockStride : Z; src1BlockStride : Z; dstRepeatStride : Z; src0RepeatStride : Z;
  src1RepeatStride : Z; dstBlockSize : Z; src0BlockSize : Z; src1BlockSize : Z; repeat : Z;
  dstBlockNum : Z; src0BlockNum : Z; src1BlockNum : Z; dstDataBits : Z; src0DataBits : Z; src1DataBits : Z;
  maskMode : Z; instrName : Z
}.
End BinaryOpRecord.

Module MarixMulOpRecord.
Record t := mk {
  dst : Z; src0 : Z; src1 : Z; m : Z; k : Z; n : Z; location : Location; src0RepeatStride : Z;
  dstBlockSize : Z; src0BlockSize : Z; src1BlockSize : Z; src0Repeat : Z; dstBlockNum : Z;
  src0BlockNum : Z; src1BlockNum : Z; dstAlignSize : Z; src0AlignSize : Z; src1AlignSize : Z;
  cmatrixSource : bool; cmatrixInitVal : bool; enUnitFlag : bool
}.
End MarixMulOpRecord.

Module MmadA5Record.
Record t := mk {
  dst : Z; src0 : Z; src1 : Z; location : Location; m : Z; k : Z; n : Z; dstBlockNum : Z; src0BlockNum : Z;
  src1BlockNum : Z; src0AlignSize : Z; src1AlignSize : Z; src0Dtype : DetailedDataType.DetailedDataType;
  src1Dtype : DetailedDataType.DetailedDataType; cmatrixSource : bool; cmatrixInitVal : bool;
  enUnitFlag : bool
}.
End MmadA5Record.

Module VecRegPropCoordOpRecord.
Record t := mk {
  dst : Z; src : Z; location : Location; dataType : DataType; regionRange : Z; repeat : Z; isExtract : bool
}.
End VecRegPropCoordOpRecord.

Module ReduceOpRecord.
Record t := mk {
  dst : Z; src : Z; location : Location; vectorMask : VectorMask; srcBlockStride : Z; dstRepeatStride : Z;
  srcRepeatStride : Z; dstRepeatLength : Z; dstAlignSize : Z; repeat : Z; dstBlockNum : Z; srcBlockNum : Z;
  dstBlockSize : Z; srcBlockSize : Z; dstDataBits : Z; srcDataBits : Z; dstDataBitsFactor : Z;
  maskMode : Z; instrName : Z
}.
End ReduceOpRecord.

Module ReduceV2Record.
Record t := mk {
  dst : Z; src0 : Z; src1 : Z; location : Location; vectorMask : VectorMask; compareMask : CompareMask.t;
  repeat : Z; src0RepeatStride : Z; src1RepeatStride : Z; src0BlockStride : Z; dataBytes : Z;
  patternMode : Z; maskMode : Z; instrName : Z
}.
End ReduceV2Record.

Module SyncRecord.
Record t := mk {
  location : Location; src : PipeType; dst : PipeType; eventID : Z; isGenerated : bool
}.
End SyncRecord.

Module BufRecord.
Record t := mk {
  location : Location; pipe : PipeType; bufId : Z; mode : BufMode; isPreprocessed : bool
}.
End BufRecord.

Module HardSyncRecord.
Record t := mk {
  location : Location; src : PipeType; dst : PipeType; eventID : Z; memory : MemType.MemType; v : Z
}.
End HardSyncRecord.

Module SoftSyncRecord.
Record t := mk {
  location : Location; waitCoreID : Z; usedCores : Z; eventID : Z; isAIVOnly : bool
}.
End SoftSyncRecord.

Module PipeBarrierRecord.
Record t := mk {
  location : Location; pipe : PipeType
}.
End PipeBarrierRecord.

Module DsbRecord.
Record t := mk {
  location : Location; pipe : PipeType; memDomain : MemDsbType.MemDsbType
}.
End DsbRecord.

Module FftsSyncRecord.
Record t := mk {
  location : Location; dst : PipeType; mode : Z; flagID : Z; vecSubBlockDim : Z
}.
End FftsSyncRecord.

Module WaitFlagDevRecord.
Record t := mk {
  location : Location; flagID : Z
}.
End WaitFlagDevRecord.

Module WaitFlagDevPipeRecord.
Record t := mk {
  location : Location; flagID : Z; pipe : PipeType
}.
End WaitFlagDevPipeRecord.

Module IntraBlockSyncRecord.
Record t := mk {
  location : Location; pipe : PipeType; syncID : Z; vecSubBlockDim : Z
}.
End IntraBlockSyncRecord.

Module LoadAWinogradRecord.
Record t := mk {
  location : Location; dst : Z; src : Z; fmSizeW : Z; fmSizeH : Z; fmSizeCh : Z; extStepK : Z;
  extStepM : Z; dstStartPointK : Z; dstStartPointM : Z; innerDstGap : Z; dataType : DataType;
  dstMemType : MemType.MemType; srcMemType : MemType.MemType
}.
End LoadAWinogradRecord.

Module LoadBWinogradRecord.
Record t := mk {
  location : Location; dst : Z; src : Z; srcRptStride : Z; dstRptStride : Z; innerDstStride : Z;
  repeat : Z; dstMemType : MemType.MemType; srcMemType : MemType.MemType
}.
End LoadBWinogradRecord.

Module Load2DRecord.
Record t := mk {
  location : Location; dst : Z; src : Z; baseIdx : Z; srcStride : Z; dstStride : Z; blockSize : Z;
  repeat : Z; dstMemType : MemType.MemType; srcMemType : MemType.MemType; addrCalMode : AddrCalMode
}.
End Load2DRecord.

Module LoadL12DRecord.
Record t := mk {
  location : Location; dst : Z; src : Z; mStartPosition : Z; kStartPosition : Z; mStep : Z; kStep : Z;
  srcStride : Z; dstStride : Z; dstMemType : MemType.MemType; transposeMode : TransposeMode;
  detailedDataType : DetailedDataType.DetailedDataType
}.
End LoadL12DRecord.

Module LoadL12DTransposeRecord.
Record t := mk {
  location : Location; dst : Z; src : Z; repeat : Z; srcStride : Z; dstStride : Z; srcFracStride : Z;
  dstFracStride : Z; detailedDataType : DetailedDataType.DetailedDataType
}.
End LoadL12DTransposeRecord.

Module LoadL1Mx2DRecord.
Record t := mk {
  location : Location; dst : Z; src : Z; xStartPosition : Z; yStartPosition : Z; xStep : Z; yStep : Z;
  srcStride : Z; dstStride : Z; dstMemType : MemType.MemType
}.
End LoadL1Mx2DRecord.

Module Load2DSparseRecord.
Record t := mk {
  location : Location; dst : Z; src0 : Z; src1 : Z; startId : Z; repeat : Z; dstMemType : MemType.MemType;
  srcMemType : MemType.MemType
}.
End Load2DSparseRecord.

Module Load2DTransposeRecord.
Record t := mk {
  location : Location; dst : Z; src : Z; indexId : Z; srcStride : Z; dstStride : Z; dstFracStride : Z;
  repeat : Z; addrMode : bool; dataType : DataType; dstMemType : MemType.MemType;
  srcMemType : MemType.MemType
}.
End Load2DTransposeRecord.

Module DecompressHeaderRecord.
Record t := mk {
  location : Location; src : Z; nBlock : Z; srcMemType : MemType.MemType
}.
End DecompressHeaderRecord.

Module BroadcastRecord.
Record t := mk {
  location : Location; dst : Z; src : Z; nBurst : Z; lenBurst : Z; srcGap : Z; dstGap : Z;
  enableRepeat : bool; srcDataType : DataType; dstDataType : DataType; dstMemType : MemType.MemType;
  srcMemType : MemType.MemType
}.
End BroadcastRecord.

Module ScatterVnchwconvRecord.
Record t := mk {
  location : Location; dst0 : VaRegister.t; dst1 : VaRegister.t; src0 : VaRegister.t; src1 : VaRegister.t;
  dstStride : Z; srcStride : Z; repeat : Z; dstHighHalf : bool; srcHighHalf : bool; dataType : DataType
}.
End ScatterVnchwconvRecord.

Module Vbs32Record.
Record t := mk {
  dst : Z; src0 : Z; src1 : Z; location : Location; repeat : Z; dataType : DataType
}.
End Vbs32Record.

Module Vms4v2RecordA5.
Record t := mk {
  dst : Z; location : Location; src : list Z; elementNum : list Z; repeat : Z; validMask : Z;
  isAllStored : bool; detailedDataType : DetailedDataType.DetailedDataType
}.
End Vms4v2RecordA5.

Module DcPreloadRecord.
Record t := mk {
  location : Location; addr : Z; offset : Z; space : AddressSpace
}.
End DcPreloadRecord.

Module LoadB2Record.
Record t := mk {
  location : Location; dst : Z; src : Z; repeat : Z; dataType : DataType; dstMemType : MemType.MemType;
  srcMemType : MemType.MemType
}.
End LoadB2Record.

Module Load3DRecord.
Record t := mk {
  location : Location; dst : Z; src : Z; fMapW : Z; fMapH : Z; fMapC : Z; filterW : Z; filterH : Z;
  matrixRptStride : Z; filterWStride : Z; filterHStride : Z; matrixKPos : Z; matrixMPos : Z;
  matrixKStep : Z; matrixMStep : Z; matrixRptTimes : Z; dataType : DataType; dstMemType : MemType.MemType;
  srcMemType : MemType.MemType; fMapTopPad : Z; fMapBottomPad : Z; fMapLeftPad : Z; fMapRightPad : Z;
  filterWDilation : Z; filterHDilation : Z; matrixMode : Z; matrixRptMode : Z
}.
End Load3DRecord.

Module Load3DV2Record.
Record t := mk {
  location : Location; dst : Z; src : Z; dstStride : Z; fMapW : Z; fMapH : Z; fMapC : Z; filterW : Z;
  filterH : Z; matrixRptStride : Z; filterWStride : Z; filterHStride : Z; matrixKPos : Z; matrixMPos : Z;
  matrixKStep : Z; matrixMStep : Z; matrixRptTimes : Z; outputMPos : Z; dataType : DataType;
  dstMemType : MemType.MemType; srcMemType : MemType.MemType; fMapTopPad : Z; fMapBottomPad : Z;
  fMapLeftPad : Z; fMapRightPad : Z; filterWDilation : Z; filterHDilation : Z; matrixMode : Z;
  matrixRptMode : Z; transposeMode : bool
}.
End Load3DV2Record.

Module AtomicModeRecord.
Record t := mk {
  location : Location; mode : AtomicMode
}.
End AtomicModeRecord.

Module Set2DRecord.
Record t := mk {
  location : Location; dst : Z; dstBlockSize : Z; repeat : Z; dstBlockNum : Z; repeatGap : Z;
  dstMemType : MemType.MemType
}.
End Set2DRecord.

Module SetL12DRecord.
Record t := mk {
  location : Location; dst : Z; repeat : Z; dstBlockNum : Z; repeatGap : Z;
  detailedDataType : DetailedDataType.DetailedDataType
}.
End SetL12DRecord.

Module MovL1UBRecord.
Record t := mk {
  dst : Z; src : Z; location : Location; nBurst : Z; lenBurst : Z; srcGap : Z; dstGap : Z;
  dstMemType : MemType.MemType; srcMemType : MemType.MemType
}.
End MovL1UBRecord.

Module LoadImageRecord.
Record t := mk {
  location : Location; dst : Z; horSize : Z; verSize : Z; horStartP : Z; verStartP : Z; sHorRes : Z;
  lPadSize : Z; rPadSize : Z; dataType : DataType; dstMemType : MemType.MemType; topPadSize : Z;
  botPadSize : Z
}.
End LoadImageRecord.

Module LoadSmaskRecord.
Record t := mk {
  location : Location; src : Z; dst : Z; smaskSize : Z; srcMemType : MemType.MemType
}.
End LoadSmaskRecord.

Module CmpMaskRecord.
Record t := mk {
  location : Location; addr : Z; size : Z; accessType : AccessType
}.
End CmpMaskRecord.

Module MovL1BtRecord.
Record t := mk {
  location : Location; dst : Z; src : Z; nBurst : Z; lenBurst : Z; srcGap : Z; dstGap : Z;
  dataType : DetailedDataType.DetailedDataType; cvtEnable : Z
}.
End MovL1BtRecord.

Module MovL1FbRecord.
Record t := mk {
  location : Location; dst : Z; src : Z; nBurst : Z; lenBurst : Z; srcStride : Z; dstStride : Z;
  dstMemBlock : Z
}.
End MovL1FbRecord.

Module RegisterSetRecord.
Record t := mk {
  location : Location; regPayLoad : RegisterPayload
}.
End RegisterSetRecord.

(** ** mstx interfaces *)

Module MstxTensorDesc.
Record t := mk {
  space : AddressSpace; addr : Z; size : Z; dataBits : Z
}.
End MstxTensorDesc.

Module MstxVecWrapper.
Record t := mk {
  maskMode : Z; mask : VectorMask; reserveBufSize : Z; useMask : bool
}.
End MstxVecWrapper.

Module MstxVecUnaryDesc.
Record t := mk {
  dst : MstxTensorDesc.t; src : MstxTensorDesc.t; wrapper : MstxVecWrapper.t; blockNum : Z;
  dstBlockStride : Z; srcBlockStride : Z; repeatTimes : Z; dstRepeatStride : Z; srcRepeatStride : Z;
  name : string
}.
End MstxVecUnaryDesc.

Module MstxVecBinaryDesc.
Record t := mk {
  dst : MstxTensorDesc.t; src0 : MstxTensorDesc.t; src1 : MstxTensorDesc.t; wrapper : MstxVecWrapper.t;
  blockNum : Z; dstBlockStride : Z; src0BlockStride : Z; src1BlockStride : Z; repeatTimes : Z;
  dstRepeatStride : Z; src0RepeatStride : Z; src1RepeatStride : Z; name : string
}.
End MstxVecBinaryDesc.

Module MstxDataCopyDesc.
Record t := mk {
  dst : MstxTensorDesc.t; src : MstxTensorDesc.t; lenBurst : Z; nBurst : Z; srcGap : Z; dstGap : Z;
  name : string
}.
End MstxDataCopyDesc.

Module MstxDataCopyPadDesc.
Record t := mk {
  dst : MstxTensorDesc.t; src : MstxTensorDesc.t; lenBurst : Z; nBurst : Z; srcGap : Z; dstGap : Z;
  leftPad : Z; rightPad : Z; name : string
}.
End MstxDataCopyPadDesc.

Module MstxDataCopyPadV2Desc.
Record t := mk {
  dst : MstxTensorDesc.t; src : MstxTensorDesc.t; padMode : PaddingMode; lenBurst : Z; nBurst : Z;
  srcGap : Z; dstGap : Z; leftPad : Z; rightPad : Z; name : string
}.
End MstxDataCopyPadV2Desc.

Module MstxCrossCoreSetFlag.
Record t := mk {
  eventId : Z; peerCoreId : Z; pipeBarrierAll : bool
}.
End MstxCrossCoreSetFlag.

Module MstxCrossCoreWaitFlag.
Record t := mk {
  eventId : Z; peerCoreId : Z; pipeBarrierAll : bool
}.
End MstxCrossCoreWaitFlag.

Module MstxCrossRecord.
Record t := mk {
  addr : Z; flagId : Z; pipe : PipeType; isMore : bool; isMerge : bool
}.
End MstxCrossRecord.

Module MstxHcclRecord.
Record t := mk {
  src : Z; dst : Z; srcCount : Z; dstCount : Z; srcStride : Z; dstStride : Z; srcRepeatStride : Z;
  dstRepeatStride : Z; srcDataTypeSize : Z; dstDataTypeSize : Z; repeat : Z; rankDim : Z; flagId : Z
}.
End MstxHcclRecord.

Module MstxHcclCoreRecord.
Record t := mk {
  src : Z; dst : Z; srclenBurst : Z; dstlenBurst : Z; repeat : Z
}.
End MstxHcclCoreRecord.

Inductive Interface :=
  | mstxCrossRecord (i : MstxCrossRecord.t) | mstxHcclRecord (i : MstxHcclRecord.t)
  | mstxHcclCoreRecord (i : MstxHcclCoreRecord.t) | mstxVecUnaryDesc (i : MstxVecUnaryDesc.t)
  | mstxVecBinaryDesc (i : MstxVecBinaryDesc.t) | mstxDataCopyDesc (i : MstxDataCopyDesc.t)
  | mstxDataCopyPadDesc (i : MstxDataCopyPadDesc.t) | mstxDataCopyPadV2Desc (i : MstxDataCopyPadV2Desc.t)
  | mstxCrossCoreBarrier (i : MstxCrossCoreBarrier) | mstxCrossCoreSetFlag (i : MstxCrossCoreSetFlag.t)
  | mstxCrossCoreWaitFlag (i : MstxCrossCoreWaitFlag.t) | mstxSignalSet (i : MstxSignalSet)
  | mstxSignalWait (i : MstxSignalWait) | mstxCrossNpuBarrier (i : MstxCrossNpuBarrier).

Module MstxRecord.
Record t := mk {
  interfaceType : InterfaceType; bufferLens : Z; location : Location; error : bool; interface : Interface
}.
End MstxRecord.

(** [buffer] is [None] for a null pointer. *)
Module DynamicRecord.
Record t := mk { count : Z; dynamicType : RecordType.RecordType; buffer : option (list ShadowMemoryRecord) }.
End DynamicRecord.

(** The members no parse function reads (SIMT, online error, [dcci] and empty
    records) are [unparsedRecord]. *)
Inductive Payload :=
  | loadStoreRecord (p : LoadStoreRecord.t) | dmaMovRecord (p : DmaMovRecord.t)
  | dmaMovConvReluRecord (p : DmaMovConvReluRecord.t) | dmaMovNd2nzRecord (p : DmaMovNd2nzRecord.t)
  | movAlignRecord (p : MovAlignRecord.t) | movAlignRecordV2 (p : MovAlignRecordV2.t)
  | movBtRecord (p : MovBtRecord.t) | movFpRecord (p : MovFpRecord.t)
  | ndDMAOut2UbRecord (p : NdDMAOut2UbRecord.t) | vecDupRecord (p : VecDupRecord.t)
  | unaryOpRecord (p : UnaryOpRecord.t) | vgatherRecord (p : VgatherRecord.t)
  | elementRecord (p : ElementRecord.t) | binaryOpRecord (p : BinaryOpRecord.t)
  | reduceOpRecord (p : ReduceOpRecord.t) | reduceV2Record (p : ReduceV2Record.t)
  | matrixMulOpRecord (p : MarixMulOpRecord.t) | vecRegPropCoordOpRecord (p : VecRegPropCoordOpRecord.t)
  | syncRecord (p : SyncRecord.t) | bufRecord (p : BufRecord.t) | hardSyncRecord (p : HardSyncRecord.t)
  | softSyncRecord (p : SoftSyncRecord.t) | pipeBarrierRecord (p : PipeBarrierRecord.t)
  | dsbRecord (p : DsbRecord.t) | load2DRecord (p : Load2DRecord.t) | loadL12DRecord (p : LoadL12DRecord.t)
  | loadL1Mx2DRecord (p : LoadL1Mx2DRecord.t) | loadL12DTransposeRecord (p : LoadL12DTransposeRecord.t)
  | load2DSparseRecord (p : Load2DSparseRecord.t) | load2DTransposeRecord (p : Load2DTransposeRecord.t)
  | decompressHeaderRecord (p : DecompressHeaderRecord.t) | broadcastRecord (p : BroadcastRecord.t)
  | scatterVnchwconvRecord (p : ScatterVnchwconvRecord.t) | loadB2Record (p : LoadB2Record.t)
  | loadAWinogradRecord (p : LoadAWinogradRecord.t) | loadBWinogradRecord (p : LoadBWinogradRecord.t)
  | load3DRecord (p : Load3DRecord.t) | load3DV2Record (p : Load3DV2Record.t)
  | loadImageRecord (p : LoadImageRecord.t) | loadSmaskRecord (p : LoadSmaskRecord.t)
  | fftsSyncRecord (p : FftsSyncRecord.t) | mstxRecord (p : MstxRecord.t)
  | waitFlagDevRecord (p : WaitFlagDevRecord.t) | waitFlagDevPipeRecord (p : WaitFlagDevPipeRecord.t)
  | intraBlockSyncRecord (p : IntraBlockSyncRecord.t) | atomicModeRecord (p : AtomicModeRecord.t)
  | set2DRecord (p : Set2DRecord.t) | cmpMaskRecord (p : CmpMaskRecord.t)
  | dcPreloadRecord (p : DcPreloadRecord.t) | dmaMovNd2nzDavRecord (p : DmaMovNd2nzDavRecord.t)
  | redRecord (p : RedRecord.t) | setL12DRecord (p : SetL12DRecord.t) | movL1UbRecord (p : MovL1UBRecord.t)
  | mmadA5Record (p : MmadA5Record.t) | movL1BtRecord (p : MovL1BtRecord.t)
  | movL1FbRecord (p : MovL1FbRecord.t) | vbs32Record (p : Vbs32Record.t)
  | vms4V2RecordA5 (p : Vms4v2RecordA5.t) | dynamicRecord (p : DynamicRecord.t)
  | registerSetRecord (p : RegisterSetRecord.t)
  | unparsedRecord.

Record KernelRecord := mkKernelRecord {
  kr_recordType : RecordType.RecordType; kr_blockType : BlockType; kr_serialNo : Z; kr_payload : Payload;
}.
