(* ===== verification/ParseBase.v ===== *)
(** What all parse functions share: [csrc/core/framework/record_parse.h], the
    shared part of [record_parse.cpp], and the rounding helper of
    [record_parse_move.h].

    A parse function appends events to a vector and updates three shared
    objects: the alignment checker, the per-core atomic flags and the counters
    of released buffers. It is a computation in the monad [P]: [None] is
    undefined behaviour or a loop that does not end.

    Assignments to the fields of a [MemOpInfo] are the functions of [Mem]: the
    value is converted to the width of the field. [assign] runs a sequence of
    them. Arithmetic in [int] that overflows wraps around. *)
From stdpp Require Import base numbers option gmap strings list.
From S2P Require Import Prelude.
From S2P Require Import RecordDefs.
From S2P Require Import Platform.
From S2P Require Import EventDef.
From S2P Require Import ErrorBuffer.
From S2P Require Import AddressSanitizer.
From S2P Require Import KernelRecords.

(** ** Assignments *)

Module Mem.
Definition memType (v : MemType.MemType) (m : MemOpInfo) : MemOpInfo :=
  Build_MemOpInfo v (EventDef.opType m) (EventDef.vectorMask m) (EventDef.maskMode m) (EventDef.instrName m)
    (EventDef.dataBits m) (EventDef.addr m) (EventDef.blockNum m) (EventDef.blockSize m)
    (EventDef.blockStride m) (EventDef.repeatTimes m) (EventDef.repeatStride m) (EventDef.alignSize m)
    (EventDef.mem_ignoreIllegalCheck m) (EventDef.isScalarAtomic m) (EventDef.dcciDistance m)
    (EventDef.dstCoreId m) (EventDef.dstBlockType m) (EventDef.instrClass m) (EventDef.matrixM m)
    (EventDef.matrixN m).
Definition opType (v : AccessType) (m : MemOpInfo) : MemOpInfo :=
  Build_MemOpInfo (EventDef.memType m) v (EventDef.vectorMask m) (EventDef.maskMode m)
    (EventDef.instrName m) (EventDef.dataBits m) (EventDef.addr m) (EventDef.blockNum m)
    (EventDef.blockSize m) (EventDef.blockStride m) (EventDef.repeatTimes m) (EventDef.repeatStride m)
    (EventDef.alignSize m) (EventDef.mem_ignoreIllegalCheck m) (EventDef.isScalarAtomic m)
    (EventDef.dcciDistance m) (EventDef.dstCoreId m) (EventDef.dstBlockType m) (EventDef.instrClass m)
    (EventDef.matrixM m) (EventDef.matrixN m).
Definition vectorMask (v : VectorMask) (m : MemOpInfo) : MemOpInfo :=
  Build_MemOpInfo (EventDef.memType m) (EventDef.opType m)
    {| mask0 := u64 (mask0 v); mask1 := u64 (mask1 v) |} (EventDef.maskMode m) (EventDef.instrName m)
    (EventDef.dataBits m) (EventDef.addr m) (EventDef.blockNum m) (EventDef.blockSize m)
    (EventDef.blockStride m) (EventDef.repeatTimes m) (EventDef.repeatStride m) (EventDef.alignSize m)
    (EventDef.mem_ignoreIllegalCheck m) (EventDef.isScalarAtomic m) (EventDef.dcciDistance m)
    (EventDef.dstCoreId m) (EventDef.dstBlockType m) (EventDef.instrClass m) (EventDef.matrixM m)
    (EventDef.matrixN m).
Definition maskMode (v : Z) (m : MemOpInfo) : MemOpInfo :=
  Build_MemOpInfo (EventDef.memType m) (EventDef.opType m) (EventDef.vectorMask m) (u8 v)
    (EventDef.instrName m) (EventDef.dataBits m) (EventDef.addr m) (EventDef.blockNum m)
    (EventDef.blockSize m) (EventDef.blockStride m) (EventDef.repeatTimes m) (EventDef.repeatStride m)
    (EventDef.alignSize m) (EventDef.mem_ignoreIllegalCheck m) (EventDef.isScalarAtomic m)
    (EventDef.dcciDistance m) (EventDef.dstCoreId m) (EventDef.dstBlockType m) (EventDef.instrClass m)
    (EventDef.matrixM m) (EventDef.matrixN m).
Definition instrName (v : Z) (m : MemOpInfo) : MemOpInfo :=
  Build_MemOpInfo (EventDef.memType m) (EventDef.opType m) (EventDef.vectorMask m) (EventDef.maskMode m)
    (u8 v) (EventDef.dataBits m) (EventDef.addr m) (EventDef.blockNum m) (EventDef.blockSize m)
    (EventDef.blockStride m) (EventDef.repeatTimes m) (EventDef.repeatStride m) (EventDef.alignSize m)
    (EventDef.mem_ignoreIllegalCheck m) (EventDef.isScalarAtomic m) (EventDef.dcciDistance m)
    (EventDef.dstCoreId m) (EventDef.dstBlockType m) (EventDef.instrClass m) (EventDef.matrixM m)
    (EventDef.matrixN m).
Definition dataBits (v : Z) (m : MemOpInfo) : MemOpInfo :=
  Build_MemOpInfo (EventDef.memType m) (EventDef.opType m) (EventDef.vectorMask m) (EventDef.maskMode m)
    (EventDef.instrName m) (u8 v) (EventDef.addr m) (EventDef.blockNum m) (EventDef.blockSize m)
    (EventDef.blockStride m) (EventDef.repeatTimes m) (EventDef.repeatStride m) (EventDef.alignSize m)
    (EventDef.mem_ignoreIllegalCheck m) (EventDef.isScalarAtomic m) (EventDef.dcciDistance m)
    (EventDef.dstCoreId m) (EventDef.dstBlockType m) (EventDef.instrClass m) (EventDef.matrixM m)
    (EventDef.matrixN m).
Definition addr (v : Z) (m : MemOpInfo) : MemOpInfo :=
  Build_MemOpInfo (EventDef.memType m) (EventDef.opType m) (EventDef.vectorMask m) (EventDef.maskMode m)
    (EventDef.instrName m) (EventDef.dataBits m) (u64 v) (EventDef.blockNum m) (EventDef.blockSize m)
    (EventDef.blockStride m) (EventDef.repeatTimes m) (EventDef.repeatStride m) (EventDef.alignSize m)
    (EventDef.mem_ignoreIllegalCheck m) (EventDef.isScalarAtomic m) (EventDef.dcciDistance m)
    (EventDef.dstCoreId m) (EventDef.dstBlockType m) (EventDef.instrClass m) (EventDef.matrixM m)
    (EventDef.matrixN m).
Definition blockNum (v : Z) (m : MemOpInfo) : MemOpInfo :=
  Build_MemOpInfo (EventDef.memType m) (EventDef.opType m) (EventDef.vectorMask m) (EventDef.maskMode m)
    (EventDef.instrName m) (EventDef.dataBits m) (EventDef.addr m) (u32 v) (EventDef.blockSize m)
    (EventDef.blockStride m) (EventDef.repeatTimes m) (EventDef.repeatStride m) (EventDef.alignSize m)
    (EventDef.mem_ignoreIllegalCheck m) (EventDef.isScalarAtomic m) (EventDef.dcciDistance m)
    (EventDef.dstCoreId m) (EventDef.dstBlockType m) (EventDef.instrClass m) (EventDef.matrixM m)
    (EventDef.matrixN m).
Definition blockSize (v : Z) (m : MemOpInfo) : MemOpInfo :=
  Build_MemOpInfo (EventDef.memType m) (EventDef.opType m) (EventDef.vectorMask m) (EventDef.maskMode m)
    (EventDef.instrName m) (EventDef.dataBits m) (EventDef.addr m) (EventDef.blockNum m) (u32 v)
    (EventDef.blockStride m) (EventDef.repeatTimes m) (EventDef.repeatStride m) (EventDef.alignSize m)
    (EventDef.mem_ignoreIllegalCheck m) (EventDef.isScalarAtomic m) (EventDef.dcciDistance m)
    (EventDef.dstCoreId m) (EventDef.dstBlockType m) (EventDef.instrClass m) (EventDef.matrixM m)
    (EventDef.matrixN m).
Definition blockStride (v : Z) (m : MemOpInfo) : MemOpInfo :=
  Build_MemOpInfo (EventDef.memType m) (EventDef.opType m) (EventDef.vectorMask m) (EventDef.maskMode m)
    (EventDef.instrName m) (EventDef.dataBits m) (EventDef.addr m) (EventDef.blockNum m)
    (EventDef.blockSize m) (u32 v) (EventDef.repeatTimes m) (EventDef.repeatStride m) (EventDef.alignSize m)
    (EventDef.mem_ignoreIllegalCheck m) (EventDef.isScalarAtomic m) (EventDef.dcciDistance m)
    (EventDef.dstCoreId m) (EventDef.dstBlockType m) (EventDef.instrClass m) (EventDef.matrixM m)
    (EventDef.matrixN m).
Definition repeatTimes (v : Z) (m : MemOpInfo) : MemOpInfo :=
  Build_MemOpInfo (EventDef.memType m) (EventDef.opType m) (EventDef.vectorMask m) (EventDef.maskMode m)
    (EventDef.instrName m) (EventDef.dataBits m) (EventDef.addr m) (EventDef.blockNum m)
    (EventDef.blockSize m) (EventDef.blockStride m) (u32 v) (EventDef.repeatStride m) (EventDef.alignSize m)
    (EventDef.mem_ignoreIllegalCheck m) (EventDef.isScalarAtomic m) (EventDef.dcciDistance m)
    (EventDef.dstCoreId m) (EventDef.dstBlockType m) (EventDef.instrClass m) (EventDef.matrixM m)
    (EventDef.matrixN m).
Definition repeatStride (v : Z) (m : MemOpInfo) : MemOpInfo :=
  Build_MemOpInfo (EventDef.memType m) (EventDef.opType m) (EventDef.vectorMask m) (EventDef.maskMode m)
    (EventDef.instrName m) (EventDef.dataBits m) (EventDef.addr m) (EventDef.blockNum m)
    (EventDef.blockSize m) (EventDef.blockStride m) (EventDef.repeatTimes m) (u32 v) (EventDef.alignSize m)
    (EventDef.mem_ignoreIllegalCheck m) (EventDef.isScalarAtomic m) (EventDef.dcciDistance m)
    (EventDef.dstCoreId m) (EventDef.dstBlockType m) (EventDef.instrClass m) (EventDef.matrixM m)
    (EventDef.matrixN m).
Definition alignSize (v : Z) (m : MemOpInfo) : MemOpInfo :=
  Build_MemOpInfo (EventDef.memType m) (EventDef.opType m) (EventDef.vectorMask m) (EventDef.maskMode m)
    (EventDef.instrName m) (EventDef.dataBits m) (EventDef.addr m) (EventDef.blockNum m)
    (EventDef.blockSize m) (EventDef.blockStride m) (EventDef.repeatTimes m) (EventDef.repeatStride m)
    (u16 v) (EventDef.mem_ignoreIllegalCheck m) (EventDef.isScalarAtomic m) (EventDef.dcciDistance m)
    (EventDef.dstCoreId m) (EventDef.dstBlockType m) (EventDef.instrClass m) (EventDef.matrixM m)
    (EventDef.matrixN m).
Definition isScalarAtomic (v : bool) (m : MemOpInfo) : MemOpInfo :=
  Build_MemOpInfo (EventDef.memType m) (EventDef.opType m) (EventDef.vectorMask m) (EventDef.maskMode m)
    (EventDef.instrName m) (EventDef.dataBits m) (EventDef.addr m) (EventDef.blockNum m)
    (EventDef.blockSize m) (EventDef.blockStride m) (EventDef.repeatTimes m) (EventDef.repeatStride m)
    (EventDef.alignSize m) (EventDef.mem_ignoreIllegalCheck m) v (EventDef.dcciDistance m)
    (EventDef.dstCoreId m) (EventDef.dstBlockType m) (EventDef.instrClass m) (EventDef.matrixM m)
    (EventDef.matrixN m).
Definition dstCoreId (v : Z) (m : MemOpInfo) : MemOpInfo :=
  Build_MemOpInfo (EventDef.memType m) (EventDef.opType m) (EventDef.vectorMask m) (EventDef.maskMode m)
    (EventDef.instrName m) (EventDef.dataBits m) (EventDef.addr m) (EventDef.blockNum m)
    (EventDef.blockSize m) (EventDef.blockStride m) (EventDef.repeatTimes m) (EventDef.repeatStride m)
    (EventDef.alignSize m) (EventDef.mem_ignoreIllegalCheck m) (EventDef.isScalarAtomic m)
    (EventDef.dcciDistance m) (u32 v) (EventDef.dstBlockType m) (EventDef.instrClass m) (EventDef.matrixM m)
    (EventDef.matrixN m).
Definition dstBlockType (v : BlockType) (m : MemOpInfo) : MemOpInfo :=
  Build_MemOpInfo (EventDef.memType m) (EventDef.opType m) (EventDef.vectorMask m) (EventDef.maskMode m)
    (EventDef.instrName m) (EventDef.dataBits m) (EventDef.addr m) (EventDef.blockNum m)
    (EventDef.blockSize m) (EventDef.blockStride m) (EventDef.repeatTimes m) (EventDef.repeatStride m)
    (EventDef.alignSize m) (EventDef.mem_ignoreIllegalCheck m) (EventDef.isScalarAtomic m)
    (EventDef.dcciDistance m) (EventDef.dstCoreId m) v (EventDef.instrClass m) (EventDef.matrixM m)
    (EventDef.matrixN m).
Definition instrClass (v : InstrClass) (m : MemOpInfo) : MemOpInfo :=
  Build_MemOpInfo (EventDef.memType m) (EventDef.opType m) (EventDef.vectorMask m) (EventDef.maskMode m)
    (EventDef.instrName m) (EventDef.dataBits m) (EventDef.addr m) (EventDef.blockNum m)
    (EventDef.blockSize m) (EventDef.blockStride m) (EventDef.repeatTimes m) (EventDef.repeatStride m)
    (EventDef.alignSize m) (EventDef.mem_ignoreIllegalCheck m) (EventDef.isScalarAtomic m)
    (EventDef.dcciDistance m) (EventDef.dstCoreId m) (EventDef.dstBlockType m) v (EventDef.matrixM m)
    (EventDef.matrixN m).
Definition matrixM (v : Z) (m : MemOpInfo) : MemOpInfo :=
  Build_MemOpInfo (EventDef.memType m) (EventDef.opType m) (EventDef.vectorMask m) (EventDef.maskMode m)
    (EventDef.instrName m) (EventDef.dataBits m) (EventDef.addr m) (EventDef.blockNum m)
    (EventDef.blockSize m) (EventDef.blockStride m) (EventDef.repeatTimes m) (EventDef.repeatStride m)
    (EventDef.alignSize m) (EventDef.mem_ignoreIllegalCheck m) (EventDef.isScalarAtomic m)
    (EventDef.dcciDistance m) (EventDef.dstCoreId m) (EventDef.dstBlockType m) (EventDef.instrClass m)
    (u16 v) (EventDef.matrixN m).
Definition matrixN (v : Z) (m : MemOpInfo) : MemOpInfo :=
  Build_MemOpInfo (EventDef.memType m) (EventDef.opType m) (EventDef.vectorMask m) (EventDef.maskMode m)
    (EventDef.instrName m) (EventDef.dataBits m) (EventDef.addr m) (EventDef.blockNum m)
    (EventDef.blockSize m) (EventDef.blockStride m) (EventDef.repeatTimes m) (EventDef.repeatStride m)
    (EventDef.alignSize m) (EventDef.mem_ignoreIllegalCheck m) (EventDef.isScalarAtomic m)
    (EventDef.dcciDistance m) (EventDef.dstCoreId m) (EventDef.dstBlockType m) (EventDef.instrClass m)
    (EventDef.matrixM m) (u16 v).
End Mem.

Definition assign (l : list (MemOpInfo → MemOpInfo)) (m : MemOpInfo) : MemOpInfo := foldl (λ m f, f m) m l.

(** All the bits of a vector mask. *)
Definition full_mask : VectorMask := {| mask0 := UINT64_MAX; mask1 := UINT64_MAX |}.

(** The three assignments most parse functions start with. *)
Definition no_mask : list (MemOpInfo → MemOpInfo) :=
  [Mem.vectorMask full_mask; Mem.maskMode MASK_NORM; Mem.dataBits FormatConverter.BITS_EACH_BYTE].

(** [CeilByAlignSize], both overloads. *)
Definition CeilByAlignSize (alignSize v : Z) : Z :=
  if alignSize =? 0 then 0 else u32 (u32 (u32 v + alignSize - 1) / alignSize * alignSize).

Definition UB_ALIGN_SIZE : Z := 32.
Definition MOV_LOCAL_BLOCK_SIZE : Z := 32.
Definition MATRIX_FRACTAL_SIZE : Z := 512.
Definition MATRIX_FRACTAL_ROW_SIZE : Z := 32.

(** ** State and environment *)

(** What the storage of the union of a new event (and the data type of a record
    built on the stack) holds where a parse function does not assign. *)
Record RawUnion := {
  raw_mem : MemOpInfo; raw_sync : SyncOpInfo; raw_hsync : HSyncOpInfo; raw_ffts : FftsSyncInfo;
  raw_buf : BufSyncInfo; raw_soft : SoftSyncInfo; raw_dataType : DataType;
}.

(** The runtime context ([GetDeviceId], [kernelIdx_]), the number of kernels the
    kernel manager knows for the device, and the file-name table. *)
Class ParseEnv := {
  pe_deviceId : Z; pe_kernelIdx : Z; pe_kernelCount : Z; pe_fileName : Z → string; pe_raw : RawUnion;
}.

Record ParseState := mkPS {
  ps_align : AlignChecker.AlignChecker; mapAtomicMode : gmap Z bool; getRlsBufMap_ : gmap (Z * Z) Z;
}.

(** ** The monad *)

Definition P (A : Type) : Type := ParseState → option (A * ParseState * list SanEvent).

#[export] Instance P_ret : MRet P := λ _ a s, Some (a, s, []).
#[export] Instance P_bind : MBind P := λ _ _ k m s,
  match m s with
  | Some (a, s', es) =>
      match k a s' with Some (b, s'', es') => Some (b, s'', es ++ es') | None => None end
  | None => None
  end.

Definition emit (e : SanEvent) : P unit := λ s, Some ((), s, [e]).
Definition undefined {A} : P A := λ _, None.
Definition skip : P unit := mret ().

(** [for (i = from; i < from + n; ++i)] over the variables [a]. *)
Fixpoint loop {A} (n : nat) (i : Z) (body : Z → A → P A) (a : A) : P A :=
  match n with
  | O => mret a
  | S n' => a ← body i a; loop n' (i + 1) body a
  end.
Definition for_up {A} (n : Z) (body : Z → A → P A) (a : A) : P A := loop (Z.to_nat n) 0 body a.

(** [map[key]]: a missing entry is created. *)
Definition map_ref {K V} `{Countable K} (d : V) (k : K) (m : gmap K V) : V * gmap K V :=
  match m !! k with Some v => (v, m) | None => (d, <[k := d]> m) end.

(** ** Locations, alignment checks *)

Section shared.
Context `{ParseEnv}.

Definition zero_LocInfo : LocInfo :=
  {| fileNo := 0; lineNo := 0; pc := 0; deviceIdx := 0; kernelIdx := 0; deviceId := 0; coreId := 0;
     blockType := AIVEC |}.

Definition SetDeviceIdKernelIdx (l : LocInfo) : LocInfo :=
  {| fileNo := fileNo l; lineNo := lineNo l; pc := pc l; deviceIdx := deviceIdx l;
     kernelIdx := if 0 <? pe_kernelCount then u32 (pe_kernelCount - 1) else kernelIdx l;
     deviceId := u32 pe_deviceId; coreId := coreId l; blockType := blockType l |}.

(** A new event with everything but its pipe and union. *)
Definition new_event (serial : Z) (l : LocInfo) (atomic : bool) (p : PipeType) (i : EventInfo) : SanEvent :=
  {| serialNo := serial; pipe := p; eventInfo := i; loc := l; isAtomicMode := atomic;
     recordType := INVALID_RECORD_TYPE; closedRingStartSerialNo := 0 |}.

Definition SetLocationInfo (record : KernelRecord) (location : Location) : P (PipeType → EventInfo → SanEvent) :=
  λ s,
    let l := SetDeviceIdKernelIdx zero_LocInfo in
    let '(atomic, modes) := map_ref false (loc_blockId location) (mapAtomicMode s) in
    Some (new_event (kr_serialNo record)
            {| fileNo := loc_fileNo location; lineNo := loc_lineNo location; pc := loc_pc location;
               deviceIdx := deviceIdx l; kernelIdx := kernelIdx l; deviceId := deviceId l;
               coreId := loc_blockId location; blockType := kr_blockType record |} atomic,
          mkPS (ps_align s) modes (getRlsBufMap_ s), []).

Definition mem_of (e : SanEvent) (m : MemOpInfo) : MemOpInfo :=
  match eventInfo e with MemInfo m' => m' | _ => m end.

(** [AlignChecker::Instance().CheckAlign(event, recordType)] on the event
    [ev (MemInfo m)]: the updated operation. *)
Definition check_align (ev : EventInfo → SanEvent) (r : RecordType.RecordType) (m : MemOpInfo) : P MemOpInfo :=
  λ s,
    let '(c, e) := AlignChecker.CheckAlign pe_fileName (ps_align s) (ev (MemInfo m)) r in
    Some (mem_of e m, mkPS c (mapAtomicMode s) (getRlsBufMap_ s), []).

(** [AlignChecker::Instance().CheckAlign(event, alignSize)] *)
Definition check_align_size (ev : EventInfo → SanEvent) (align : Z) (m : MemOpInfo) : P MemOpInfo :=
  λ s,
    let '(c, e) := AlignChecker.CheckAlignSize pe_fileName (ps_align s) (ev (MemInfo m)) (u16 align) in
    Some (mem_of e m, mkPS c (mapAtomicMode s) (getRlsBufMap_ s), []).

(** [events.emplace_back(event)] *)
Definition emit_mem (ev : EventInfo → SanEvent) (m : MemOpInfo) : P unit := emit (ev (MemInfo m)).

(** The two usual endings: check, then append. *)
Definition check_emit (ev : EventInfo → SanEvent) (r : RecordType.RecordType) (m : MemOpInfo) : P MemOpInfo :=
  m ← check_align ev r m; emit_mem ev m;; mret m.
Definition check_emit_size (ev : EventInfo → SanEvent) (align : Z) (m : MemOpInfo) : P MemOpInfo :=
  m ← check_align_size ev align m; emit_mem ev m;; mret m.
End shared.
