(* ===== verification/ParseSync.v ===== *)
(** Parse functions of the synchronisation records: the first part of
    [csrc/core/framework/record_parse.cpp] and its functions from
    [ParseRecordSetFlag] to [ParseRecordSetAtomic], [ParseRecordKernelFinish],
    [ParseRecordFinish], [ParseRecordDynamic] and [ParseRecordRegister]. *)
From stdpp Require Import base numbers option gmap strings list.
From S2P Require Import Prelude.
From S2P Require Import RecordDefs.
From S2P Require Import EventDef.
From S2P Require Import KernelRecords.
From S2P Require Import ParseBase.

(** ** Generated events *)

Section create.
Context `{ParseEnv}.

Definition eventID11 : Z := 11.

Definition cross_pipe_info (syncType : SyncType) (pipeSrc pipeDst : PipeType) : SyncOpInfo :=
  {| sync_opType := syncType; sync_srcPipe := pipeSrc; sync_dstPipe := pipeDst; sync_eventId := eventID11;
     sync_memType := MemType.UNKNOWN; sync_isRetrogress := sync_isRetrogress (raw_sync pe_raw);
     sync_isGenerated := true |}.

Definition CreateCrossPipeSyncEvent (syncType : SyncType) (pipeSrc pipeDst : PipeType) (record : KernelRecord)
    (location : Location) : P SanEvent :=
  event ← SetLocationInfo record location;
  mret (event (if bool_decide (syncType = SET_FLAG) then pipeSrc else pipeDst)
          (SyncInfo (cross_pipe_info syncType pipeSrc pipeDst))).

Definition barrier_info (opType : SyncType) (memType : MemType.MemType) : SyncOpInfo :=
  {| sync_opType := opType; sync_srcPipe := sync_srcPipe (raw_sync pe_raw);
     sync_dstPipe := sync_dstPipe (raw_sync pe_raw); sync_eventId := sync_eventId (raw_sync pe_raw);
     sync_memType := memType; sync_isRetrogress := false; sync_isGenerated := true |}.

Definition CreateInnerPipeSyncEvent (record : KernelRecord) (pipeType : PipeType) (location : Location)
    : P SanEvent :=
  event ← SetLocationInfo record location;
  mret (event pipeType (SyncInfo (barrier_info PIPE_BARRIER MemType.UNKNOWN))).

(** The barrier in the pipe, and the pair that makes [PIPE_S] wait for it. *)
Definition pipe_sync_events (record : KernelRecord) (location : Location) (pipe : PipeType) : P unit :=
  barrierEvent ← CreateInnerPipeSyncEvent record pipe location;
  emit barrierEvent;;
  setEvent ← CreateCrossPipeSyncEvent SET_FLAG pipe PIPE_S record location;
  waitEvent ← CreateCrossPipeSyncEvent WAIT_FLAG pipe PIPE_S record location;
  emit setEvent;;
  emit waitEvent.

Fixpoint for_pipes (f : PipeType → P unit) (pipes : list PipeType) : P unit :=
  match pipes with [] => skip | p :: pipes => f p;; for_pipes f pipes end.

(** The pipes from [PIPE_V] up to [SIZE]. *)
Definition pipes_from_V : list PipeType :=
  [PIPE_V; PIPE_M; PIPE_MTE1; PIPE_MTE2; PIPE_MTE3; PIPE_ALL; PIPE_MTE4; PIPE_MTE5; PIPE_V2; PIPE_FIX;
   PIPE_S_CAL].

Definition CreatePipeAllSyncEvent (record : KernelRecord) (location : Location) : P unit :=
  for_pipes (pipe_sync_events record location) pipes_from_V.

Definition CreatePipeDdrSyncEvent (record : KernelRecord) (location : Location) : P unit :=
  for_pipes (pipe_sync_events record location) [PIPE_MTE2; PIPE_MTE3].

Definition CreateUnitFlagSyncEvent (record : KernelRecord) (location : Location) (isWriteMode : bool) : P unit :=
  let srcPipe := if isWriteMode then PIPE_M else PIPE_FIX in
  let dstPipe := if isWriteMode then PIPE_FIX else PIPE_M in
  setEvent ← CreateCrossPipeSyncEvent SET_FLAG srcPipe dstPipe record location;
  waitEvent ← CreateCrossPipeSyncEvent WAIT_FLAG srcPipe dstPipe record location;
  emit setEvent;;
  emit waitEvent.
End create.

(** ** Flags inside a core *)

Module Flag.
Import SyncRecord.
Section flag.
Context `{ParseEnv}.

Definition flag_info (opType : SyncType) (p : SyncRecord.t) : SyncOpInfo :=
  {| sync_opType := opType; sync_srcPipe := src p; sync_dstPipe := dst p;
     sync_eventId := Z.land (u32 (eventID p)) (VALID_EVENT_ID_SIZE - 1); sync_memType := MemType.UNKNOWN;
     sync_isRetrogress := false; sync_isGenerated := isGenerated p |}.

Definition ParseRecordSetFlag (record : KernelRecord) (p : SyncRecord.t) : P unit :=
  event ← SetLocationInfo record (location p); emit (event (src p) (SyncInfo (flag_info SET_FLAG p))).

Definition ParseRecordWaitFlag (record : KernelRecord) (p : SyncRecord.t) : P unit :=
  event ← SetLocationInfo record (location p); emit (event (dst p) (SyncInfo (flag_info WAIT_FLAG p))).
End flag.
End Flag.

Module Buf.
Import BufRecord.
Section buf.
Context `{ParseEnv}.

Definition buf_info (opType : SyncType) (rlsCount : Z) (p : BufRecord.t) : BufSyncInfo :=
  {| buf_opType := opType; buf_pipe := pipe p; buf_bufId := bufId p; buf_rlsCount := rlsCount;
     buf_mode := mode p |}.

(** [getRlsBufMap_[key]], and the new value of the entry. *)
Definition rls_count (p : BufRecord.t) (f : Z → Z) : P Z := λ s,
  let key := (loc_blockId (location p), bufId p) in
  let '(n, counts) := map_ref 0 key (getRlsBufMap_ s) in
  Some (n, mkPS (ps_align s) (mapAtomicMode s) (<[key := f n]> counts), []).

Definition ParseRecordGetBuf (record : KernelRecord) (p : BufRecord.t) : P unit :=
  event ← SetLocationInfo record (location p);
  rlsCount ← (if bool_decide (mode p = BLOCK_MODE) then rls_count p id
              else mret (buf_rlsCount (raw_buf pe_raw)));
  emit (event (pipe p) (BufInfo (buf_info GET_BUF rlsCount p))).

Definition ParseRecordRlsBuf (record : KernelRecord) (p : BufRecord.t) : P unit :=
  event ← SetLocationInfo record (location p);
  rls_count p (λ n, u64 (n + 1));;
  emit (event (pipe p) (BufInfo (buf_info RLS_BUF (buf_rlsCount (raw_buf pe_raw)) p))).
End buf.
End Buf.

(** ** Flags between cores *)

Section cross_core.
Context `{ParseEnv}.

Definition ParseFftsSyncRecord (record : KernelRecord) (p : FftsSyncRecord.t) : P unit :=
  event ← SetLocationInfo record (FftsSyncRecord.location p);
  emit (event (FftsSyncRecord.dst p)
          (FftsInfo {| ffts_opType := FFTS_SYNC; ffts_dstPipe := FftsSyncRecord.dst p;
                       ffts_flagId := FftsSyncRecord.flagID p; ffts_mode := FftsSyncRecord.mode p;
                       ffts_vecSubBlockDim := FftsSyncRecord.vecSubBlockDim p |}));;
  barrierEvent ← CreateInnerPipeSyncEvent record (FftsSyncRecord.dst p) (FftsSyncRecord.location p);
  emit barrierEvent.

(** A wait event: mode and sub-block dimension are not assigned. *)
Definition wait_info (opType : SyncType) (dstPipe : PipeType) (flagId : Z) : FftsSyncInfo :=
  {| ffts_opType := opType; ffts_dstPipe := dstPipe; ffts_flagId := u8 flagId;
     ffts_mode := ffts_mode (raw_ffts pe_raw); ffts_vecSubBlockDim := ffts_vecSubBlockDim (raw_ffts pe_raw) |}.

Definition ParseWaitDevRecord (record : KernelRecord) (p : WaitFlagDevRecord.t) : P unit :=
  event ← SetLocationInfo record (WaitFlagDevRecord.location p);
  emit (event PIPE_S (FftsInfo (wait_info WAIT_FLAG_DEV PIPE_S (WaitFlagDevRecord.flagID p)))).

Definition ParseWaitDevPipeRecord (record : KernelRecord) (p : WaitFlagDevPipeRecord.t) : P unit :=
  event ← SetLocationInfo record (WaitFlagDevPipeRecord.location p);
  emit (event (WaitFlagDevPipeRecord.pipe p)
          (FftsInfo (wait_info WAIT_FLAG_DEV (WaitFlagDevPipeRecord.pipe p) (WaitFlagDevPipeRecord.flagID p)))).

Definition ParseSetIntraBlockRecord (record : KernelRecord) (p : IntraBlockSyncRecord.t) : P unit :=
  event ← SetLocationInfo record (IntraBlockSyncRecord.location p);
  emit (event (IntraBlockSyncRecord.pipe p)
          (FftsInfo {| ffts_opType := FFTS_SYNC; ffts_dstPipe := IntraBlockSyncRecord.pipe p;
                       ffts_flagId := u8 (IntraBlockSyncRecord.syncID p); ffts_mode := 4;
                       ffts_vecSubBlockDim := IntraBlockSyncRecord.vecSubBlockDim p |})).

Definition ParseWaitIntraBlockRecord (record : KernelRecord) (p : IntraBlockSyncRecord.t) : P unit :=
  event ← SetLocationInfo record (IntraBlockSyncRecord.location p);
  emit (event (IntraBlockSyncRecord.pipe p)
          (FftsInfo (wait_info WAIT_INTRA_BLOCK (IntraBlockSyncRecord.pipe p) (IntraBlockSyncRecord.syncID p)))).

(** A software flag; [usedCores] is not assigned. *)
Definition soft_info (opType : SyncType) (eventID waitCoreID : Z) (isAIVOnly : bool) : SoftSyncInfo :=
  {| soft_opType := opType; soft_eventID := eventID; soft_waitCoreID := waitCoreID;
     soft_usedCores := soft_usedCores (raw_soft pe_raw); soft_isAIVOnly := isAIVOnly |}.

Definition ParseRecordIBSetStub (record : KernelRecord) (p : SoftSyncRecord.t) : P unit :=
  event ← SetLocationInfo record (SoftSyncRecord.location p);
  emit (event PIPE_S (SoftInfo (soft_info IB_SET (SoftSyncRecord.eventID p) (SoftSyncRecord.waitCoreID p)
                                  (SoftSyncRecord.isAIVOnly p)))).

Definition ParseRecordIBWaitStub (record : KernelRecord) (p : SoftSyncRecord.t) : P unit :=
  event ← SetLocationInfo record (SoftSyncRecord.location p);
  emit (event PIPE_S (SoftInfo (soft_info IB_WAIT (SoftSyncRecord.eventID p) (SoftSyncRecord.waitCoreID p)
                                  (SoftSyncRecord.isAIVOnly p)))).

Definition virtualFlagId : Z := 31.

Definition ParseRecordSyncAllStub (record : KernelRecord) (p : SoftSyncRecord.t) : P unit :=
  event ← SetLocationInfo record (SoftSyncRecord.location p);
  let info op := FftsInfo {| ffts_opType := op; ffts_dstPipe := PIPE_S; ffts_flagId := virtualFlagId;
                             ffts_mode := 0; ffts_vecSubBlockDim := 2 |} in
  emit (event PIPE_S (info FFTS_SYNC));;
  emit (event PIPE_S (info WAIT_FLAG_DEV)).
End cross_core.

(** ** Hardware flags *)

Module HardSync.
Import HardSyncRecord.
Section hard.
Context `{ParseEnv}.

Definition hard_pipe (p : PipeType) : bool := match p with PIPE_MTE1 | PIPE_M | PIPE_FIX => true | _ => false end.

Definition IsValidHardSyncRecord (record : KernelRecord) (p : HardSyncRecord.t) : bool :=
  negb (bool_decide (kr_blockType record = AIVEC)) && hard_pipe (src p) && hard_pipe (dst p) &&
  match memory p with MemType.GM | MemType.UB | MemType.UNKNOWN => false | _ => true end &&
  (v p <=? 1) && (eventID p <=? 3).

Definition hard_info (opType : SyncType) (p : HardSyncRecord.t) : HSyncOpInfo :=
  {| h_eventId := eventID p; h_srcPipe := src p; h_dstPipe := dst p; h_opType := opType; h_memType := memory p;
     h_v := v p; h_isReplaced := h_isReplaced (raw_hsync pe_raw) |}.

Definition ParseRecordHsetFlag (record : KernelRecord) (p : HardSyncRecord.t) : P unit :=
  if negb (IsValidHardSyncRecord record p) then skip
  else event ← SetLocationInfo record (location p); emit (event (src p) (HSyncInfo (hard_info HSET_FLAG p))).

Definition ParseRecordHwaitFlag (record : KernelRecord) (p : HardSyncRecord.t) : P unit :=
  if negb (IsValidHardSyncRecord record p) then skip
  else event ← SetLocationInfo record (location p); emit (event (dst p) (HSyncInfo (hard_info HWAIT_FLAG p))).
End hard.
End HardSync.

(** ** Barriers, atomic mode, control records *)

Section barriers.
Context `{ParseEnv}.

Definition ParseRecordPipeBarrier (record : KernelRecord) (p : PipeBarrierRecord.t) : P unit :=
  if bool_decide (PipeBarrierRecord.pipe p = PIPE_ALL)
  then CreatePipeAllSyncEvent record (PipeBarrierRecord.location p)
  else barrierEvent ← CreateInnerPipeSyncEvent record (PipeBarrierRecord.pipe p) (PipeBarrierRecord.location p);
       emit barrierEvent.

Definition DsbToMemType (memDomain : MemDsbType.MemDsbType) : MemType.MemType :=
  match memDomain with
  | MemDsbType.DDR => MemType.GM | MemDsbType.UB => MemType.UB
  | MemDsbType.ALL | MemDsbType.SEQ => MemType.UNKNOWN
  end.

Definition ParseRecordDsb (record : KernelRecord) (p : DsbRecord.t) : P unit :=
  match DsbRecord.memDomain p, bool_decide (kr_blockType record = AIVEC) with
  | MemDsbType.ALL, _ | MemDsbType.UB, true => CreatePipeAllSyncEvent record (DsbRecord.location p)
  | MemDsbType.DDR, true => CreatePipeDdrSyncEvent record (DsbRecord.location p)
  | domain, _ =>
      event ← SetLocationInfo record (DsbRecord.location p);
      emit (event (DsbRecord.pipe p) (SyncInfo (barrier_info DSB (DsbToMemType domain))))
  end.

Definition ParseRecordSetAtomic (record : KernelRecord) (p : AtomicModeRecord.t) : P unit :=
  match FormatConverter.GetAtomicFlag (kr_recordType record) (AtomicModeRecord.mode p) with
  | Some atomicEnabled => λ s,
      Some ((), mkPS (ps_align s)
                  (<[loc_blockId (AtomicModeRecord.location p) := atomicEnabled]> (mapAtomicMode s))
                  (getRlsBufMap_ s), [])
  | None => skip
  end.

Definition control_event (record : KernelRecord) (l : LocInfo) (type : SanitizerControlType) : SanEvent :=
  new_event (kr_serialNo record) l false PIPE_S (ControlInfo type).

Definition with_device (l : LocInfo) (kernel : Z) : LocInfo :=
  {| fileNo := fileNo l; lineNo := lineNo l; pc := pc l; deviceIdx := deviceIdx l; kernelIdx := kernel;
     deviceId := u32 pe_deviceId; coreId := coreId l; blockType := blockType l |}.

Definition ParseRecordKernelFinish (record : KernelRecord) : P unit :=
  emit (control_event record (with_device zero_LocInfo (u32 (pe_kernelIdx - 1))) CONTROL_KERNEL_FINISH).

Definition ParseRecordFinish (record : KernelRecord) : P unit :=
  emit (control_event record (with_device zero_LocInfo 0) CONTROL_FINISH).

Definition ParseRecordRegister (record : KernelRecord) (p : RegisterSetRecord.t)
    (regType : RegisterType.RegisterType) : P unit :=
  event ← SetLocationInfo record (RegisterSetRecord.location p);
  emit (event PIPE_S (RegInfo (mkRegOp regType (RegisterSetRecord.regPayLoad p)))).
End barriers.

(** ** Records of variable length *)

Module Dynamic.
Import DynamicRecord.
Section dynamic.
Context `{ParseEnv}.

(** The lowest address and the highest end over [count] records. *)
Definition CalShadowMemoryAddrInfo (records : list ShadowMemoryRecord) : Z * Z :=
  foldl (λ acc r, (Z.min acc.1 (smr_addr r), Z.max acc.2 (smr_addr r +u smr_size r))) (UINT64_MAX, 0) records.

Definition dynamic_event (record : KernelRecord) (p : DynamicRecord.t) (records : list ShadowMemoryRecord)
    (isEntry : bool) (memType : MemType.MemType) (core : Z) (bounds : Z * Z) (pipe : PipeType) : SanEvent :=
  let l := SetDeviceIdKernelIdx zero_LocInfo in
  new_event (kr_serialNo record)
    {| fileNo := fileNo l; lineNo := lineNo l; pc := pc l; deviceIdx := deviceIdx l; kernelIdx := kernelIdx l;
       deviceId := deviceId l; coreId := core; blockType := kr_blockType record |} false pipe
    (DynamicInfo {| dyn_minAddr := bounds.1; dyn_maxAddr := bounds.2; dyn_isSimtEntry := isEntry;
                    dyn_memType := memType; dyn_buffer := records |}).

(** The buffer holds at least [count] records, or reading it is undefined. *)
Definition ParseRecordDynamic (record : KernelRecord) (p : DynamicRecord.t) : P unit :=
  match buffer p with
  | Some buf =>
      if negb (0 <? count p) then skip
      else
        let records := take (Z.to_nat (count p)) buf in
        if RecordType.eqb (dynamicType p) RecordType.SIMT_ENTRY then
          if Z.of_nat (length buf) <? count p then undefined
          else
            match records with
            | first :: _ =>
                emit (dynamic_event record p records true (AddrSpaceToMemType (smr_space first))
                        (loc_blockId (smr_location first)) (CalShadowMemoryAddrInfo records) PIPE_V)
            | [] => undefined
            end
        else emit (dynamic_event record p records false MemType.L1 0 (0, 0) PIPE_S)
  | None => skip
  end.
End dynamic.
End Dynamic.
