(* ===== verification/ParseMove.v ===== *)
(** Parse functions of the move records, part one: scalar accesses, DMA moves and
    aligned moves ([csrc/core/framework/record_parse.cpp] from
    [ParseScalarOpRecord] to [ParseRecordMovBt], [record_parse_move.cpp],
    [record_parse_ctrl.cpp]). *)
From stdpp Require Import base numbers option gmap strings list.
From S2P Require Import Prelude.
From S2P Require Import RecordDefs.
From S2P Require Import EventDef.
From S2P Require Import KernelRecords.
From S2P Require Import ParseBase.
From S2P Require Import ParseSync.

(** ** Scalar accesses *)

Module Scalar.
Import LoadStoreRecord.
Section scalar.
Context `{ParseEnv}.

Definition is_load (r : RecordType.RecordType) : bool :=
  match r with
  | RecordType.LOAD | RecordType.LD | RecordType.LD_IO | RecordType.LDP | RecordType.LD_DEV => true
  | _ => false
  end.

Definition ParseScalarOpRecord (record : KernelRecord) (p : LoadStoreRecord.t) : P unit :=
  event ← SetLocationInfo record (location p);
  let ev := event PIPE_S_CAL in
  let m := assign
    [Mem.memType (AddrSpaceToMemType (space p));
     Mem.opType (if is_load (kr_recordType record) then READ else WRITE);
     Mem.vectorMask full_mask; Mem.maskMode MASK_NORM; Mem.dataBits FormatConverter.BITS_EACH_BYTE;
     Mem.addr (addr p); Mem.blockNum 1; Mem.blockSize (size p); Mem.blockStride 1; Mem.repeatTimes 1;
     Mem.repeatStride 1; Mem.alignSize (alignSize p)] (raw_mem pe_raw) in
  check_emit_size ev (alignSize p) m;; skip.

Definition ParseLdvaRecord (record : KernelRecord) (p : LoadStoreRecord.t) : P unit :=
  event ← SetLocationInfo record (location p);
  let ev := event PIPE_V in
  let m := assign
    [Mem.memType MemType.UB; Mem.opType READ; Mem.vectorMask full_mask; Mem.maskMode MASK_NORM;
     Mem.dataBits FormatConverter.BITS_EACH_BYTE; Mem.addr (addr p); Mem.blockNum 1; Mem.blockSize (size p);
     Mem.blockStride 0; Mem.repeatTimes 1; Mem.repeatStride 0; Mem.alignSize (alignSize p)] (raw_mem pe_raw) in
  check_emit_size ev (alignSize p) m;; skip.
End scalar.
End Scalar.

Section red.
Context `{ParseEnv}.

Definition ParseRedAndAtomRecord (record : KernelRecord) (p : RedRecord.t) : P unit :=
  event ← SetLocationInfo record (RedRecord.location p);
  let ev := event PIPE_S in
  let m := assign
    [Mem.memType MemType.GM; Mem.opType ACCESS_MEMCPY_BLOCKS; Mem.vectorMask full_mask; Mem.maskMode MASK_NORM;
     Mem.dataBits FormatConverter.BITS_EACH_BYTE; Mem.addr (RedRecord.addr p); Mem.blockNum 1;
     Mem.blockSize (RedRecord.size p); Mem.blockStride 1; Mem.repeatTimes 1; Mem.repeatStride 1;
     Mem.alignSize (RedRecord.size p); Mem.isScalarAtomic true] (raw_mem pe_raw) in
  check_emit_size ev (RedRecord.size p) m;; skip.

Definition ParseRecordCmpMask (record : KernelRecord) (p : CmpMaskRecord.t) : P unit :=
  event ← SetLocationInfo record (CmpMaskRecord.location p);
  let ev := event PIPE_V in
  let m := assign
    ([Mem.memType MemType.UB; Mem.opType (CmpMaskRecord.accessType p)] ++ no_mask ++
     [Mem.addr (CmpMaskRecord.addr p); Mem.blockNum 1; Mem.blockSize (CmpMaskRecord.size p); Mem.blockStride 1;
      Mem.repeatTimes 1; Mem.repeatStride 1]) (raw_mem pe_raw) in
  check_emit_size ev 16 m;; skip.
End red.

(** ** DMA moves *)

Module DmaMov.
Import DmaMovRecord.
Section dma.
Context `{ParseEnv}.

Definition ParseDmaMovWithByteMode (p : DmaMovRecord.t) (ev : EventInfo → SanEvent) (m : MemOpInfo) : P unit :=
  let m := assign [Mem.memType (srcMemType p); Mem.opType READ; Mem.addr (src p);
                   Mem.blockNum (CeilByAlignSize MOV_LOCAL_BLOCK_SIZE (lenBurst p)); Mem.blockSize 1;
                   Mem.blockStride 1; Mem.repeatTimes (nBurst p)] m in
  let m := Mem.repeatStride (EventDef.blockNum m + srcStride p * MOV_LOCAL_BLOCK_SIZE) m in
  m ← check_emit ev RecordType.DMA_MOV m;
  let m := assign [Mem.memType (dstMemType p); Mem.opType WRITE; Mem.addr (dst p); Mem.blockNum (lenBurst p);
                   Mem.blockSize 1; Mem.blockStride 1] m in
  let m := Mem.repeatStride (EventDef.blockNum m + dstStride p * MOV_LOCAL_BLOCK_SIZE) m in
  check_emit ev RecordType.DMA_MOV m;; skip.

Definition padded_size (p : DmaMovRecord.t) : Z :=
  nBurst p * MOV_LOCAL_BLOCK_SIZE / FormatConverter.GetPadModeScaleValue (padMode p).

(** Nothing for [PAD_NONE]. *)
Definition ParseDmaMovWithPadMode (p : DmaMovRecord.t) (ev : EventInfo → SanEvent) (m : MemOpInfo) : P unit :=
  match padMode p with
  | PAD_MODE1 | PAD_MODE2 | PAD_MODE3 | PAD_MODE4 | PAD_MODE5 =>
      let m := assign [Mem.memType (srcMemType p); Mem.opType READ; Mem.addr (src p); Mem.blockNum 1;
                       Mem.blockSize (padded_size p); Mem.blockStride 1; Mem.repeatTimes 1;
                       Mem.repeatStride 0] m in
      m ← check_emit ev RecordType.DMA_MOV m;
      let m := assign [Mem.memType (dstMemType p); Mem.opType WRITE; Mem.addr (dst p);
                       Mem.blockSize MOV_LOCAL_BLOCK_SIZE; Mem.repeatTimes (nBurst p)] m in
      let m := Mem.repeatStride (EventDef.blockNum m + dstStride p) m in
      check_emit ev RecordType.DMA_MOV m;; skip
  | PAD_MODE6 | PAD_MODE7 | PAD_MODE8 =>
      let m := assign [Mem.memType (srcMemType p); Mem.opType READ; Mem.addr (src p); Mem.blockNum 1;
                       Mem.blockSize MOV_LOCAL_BLOCK_SIZE; Mem.blockStride 1; Mem.repeatTimes (nBurst p)] m in
      let m := Mem.repeatStride (EventDef.blockNum m + srcStride p) m in
      m ← check_emit ev RecordType.DMA_MOV m;
      let m := assign [Mem.memType (dstMemType p); Mem.opType WRITE; Mem.addr (dst p);
                       Mem.blockSize (padded_size p); Mem.repeatTimes 1; Mem.repeatStride 0] m in
      check_emit ev RecordType.DMA_MOV m;; skip
  | PAD_NONE => skip
  end.

(** A check the caller may switch off. *)
Definition check_if (alignCheck : bool) (ev : EventInfo → SanEvent) (r : RecordType.RecordType) (m : MemOpInfo)
    : P MemOpInfo :=
  if alignCheck then check_align ev r m else mret m.

Definition ParseRecordDmaMovImpl (record : KernelRecord) (p : DmaMovRecord.t) (alignCheck : bool) : P unit :=
  let pipe := FormatConverter.QueryPipeType (srcMemType p) (dstMemType p) in
  if bool_decide (pipe = PIPE_SIZE) then skip
  else
    event ← SetLocationInfo record (location p);
    let ev := event pipe in
    let m := assign no_mask (raw_mem pe_raw) in
    match byteMode p, padMode p with
    | BM_ENABLE, _ => ParseDmaMovWithByteMode p ev m
    | BM_DISABLE, PAD_NONE =>
        let m := assign [Mem.memType (srcMemType p); Mem.opType READ; Mem.addr (src p);
                         Mem.blockNum (lenBurst p); Mem.blockSize MOV_LOCAL_BLOCK_SIZE; Mem.blockStride 1;
                         Mem.repeatTimes (nBurst p); Mem.repeatStride (lenBurst p + srcStride p)] m in
        m ← check_if alignCheck ev RecordType.DMA_MOV m;
        emit_mem ev m;;
        let m := assign [Mem.memType (dstMemType p); Mem.opType WRITE; Mem.addr (dst p);
                         Mem.repeatStride (lenBurst p + dstStride p)] m in
        m ← check_if alignCheck ev RecordType.DMA_MOV m;
        emit_mem ev m
    | BM_DISABLE, _ => ParseDmaMovWithPadMode p ev m
    end.

Definition ParseRecordDmaMov (record : KernelRecord) (p : DmaMovRecord.t) : P unit :=
  ParseRecordDmaMovImpl record p true.
End dma.
End DmaMov.

Module ConvRelu.
Import DmaMovConvReluRecord.
Section conv_relu.
Context `{ParseEnv}.

Definition IsSupportFor16 (p : DmaMovConvReluRecord.t) : bool :=
  match crMode p with CRMODE_NONE | CRMODE_NONE_RELU | CRMODE_F16_MUL => true | _ => false end.

Inductive SupportFor32 := NOT_SUPPORT32 | SUPPORT32TO32 | SUPPORT32TO16 | SUPPORT32TO8.

Definition IsSupportFor32 (p : DmaMovConvReluRecord.t) : SupportFor32 :=
  match crMode p with
  | CRMODE_NONE | CRMODE_NONE_RELU => SUPPORT32TO32
  | CRMODE_F32toF16_NONE | CRMODE_F32toF16_RELU | CRMODE_S32toF16_NONE | CRMODE_S32toF16_DEQSCALE_SPR
  | CRMODE_DEQSCALE_VDEQ16 | CRMODE_DEQSCALE_DEQ16 | CRMODE_DEQSCALE_VDEQS16 | CRMODE_DEQSCALE_DEQS16 =>
      SUPPORT32TO16
  | CRMODE_DEQSCALE_VDEQ8 | CRMODE_DEQSCALE_DEQ8 => SUPPORT32TO8
  | CRMODE_F16toF32_NONE | CRMODE_F16_MUL => NOT_SUPPORT32
  end.

Definition SetMemInfoWriteForUb (p : DmaMovConvReluRecord.t) (m : MemOpInfo) : MemOpInfo :=
  match srcDataType p with
  | DATA_B16 => if IsSupportFor16 p then Mem.repeatStride (lenBurst p + dstStride p) m else m
  | DATA_B32 =>
      match IsSupportFor32 p with
      | SUPPORT32TO32 =>
          assign [Mem.blockSize 32; Mem.repeatStride (lenBurst p * 2 + dstStride p);
                  Mem.blockNum (lenBurst p * 2)] m
      | SUPPORT32TO16 => assign [Mem.blockSize 32; Mem.repeatStride (lenBurst p + dstStride p)] m
      | SUPPORT32TO8 => assign [Mem.blockSize 16; Mem.repeatStride (lenBurst p + u32 (dstStride p * 48) / 16)] m
      | NOT_SUPPORT32 => m
      end
  | _ => m
  end.

Definition ParseRecordDmaMovConvRelu (record : KernelRecord) (p : DmaMovConvReluRecord.t) : P unit :=
  let pipe := FormatConverter.QueryPipeType (srcMemType p) (dstMemType p) in
  if bool_decide (pipe = PIPE_SIZE) then skip
  else
    event ← SetLocationInfo record (location p);
    let ev := event pipe in
    let m := assign (no_mask ++
      [Mem.memType (srcMemType p); Mem.opType READ; Mem.addr (src p); Mem.blockNum (lenBurst p);
       Mem.blockStride 1; Mem.repeatTimes (nBurst p); Mem.blockSize 32;
       Mem.repeatStride (lenBurst p + u32 (srcStride p * 512) / 32)]) (raw_mem pe_raw) in
    let m := match srcDataType p with
             | DATA_B32 => assign [Mem.blockSize 64;
                                   Mem.repeatStride (lenBurst p + u32 (srcStride p * 1024) / 64)] m
             | _ => m
             end in
    m ← check_emit ev RecordType.DMA_MOV_CONV_RELU m;
    let m := SetMemInfoWriteForUb p
               (assign [Mem.memType (dstMemType p); Mem.opType WRITE; Mem.addr (dst p)] m) in
    check_emit ev RecordType.DMA_MOV_CONV_RELU m;; skip.

(** [None] when the conversion does not match. *)
Definition ParseRecordDmaMovDepthWiseWrite (p : DmaMovConvReluRecord.t) (m : MemOpInfo) : option MemOpInfo :=
  match srcDataType p with
  | DATA_B16 => if IsSupportFor16 p then Some (Mem.blockSize (lenBurst p * 512 / 2) m) else None
  | DATA_B32 =>
      match crMode p with
      | CRMODE_NONE | CRMODE_NONE_RELU => Some (Mem.blockSize (lenBurst p * 1024 / 2) m)
      | CRMODE_F32toF16_NONE | CRMODE_F32toF16_RELU => Some (Mem.blockSize (lenBurst p * 512 / 2) m)
      | _ => None
      end
  | _ => Some m
  end.

Definition ParseRecordDmaMovDepthWise (record : KernelRecord) (p : DmaMovConvReluRecord.t) : P unit :=
  event ← SetLocationInfo record (location p);
  let ev := event (FormatConverter.QueryPipeType (srcMemType p) (dstMemType p)) in
  if negb (nBurst p =? 1) then skip
  else
    let m := assign (no_mask ++
      [Mem.memType (srcMemType p); Mem.opType READ; Mem.addr (src p); Mem.blockNum (lenBurst p);
       Mem.blockStride 1; Mem.repeatTimes (nBurst p); Mem.repeatStride 1;
       Mem.blockSize (match srcDataType p with DATA_B32 => 1024 | _ => 512 end)]) (raw_mem pe_raw) in
    m ← check_emit ev (kr_recordType record) m;
    let m := assign [Mem.memType (dstMemType p); Mem.opType WRITE; Mem.addr (dst p); Mem.blockNum 1] m in
    match ParseRecordDmaMovDepthWiseWrite p m with
    | None => skip
    | Some m =>
        m ← check_emit ev (kr_recordType record) m;
        emit_mem ev (Mem.addr (dst p + EventDef.blockSize m + dstStride p * 32) m)
    end.
End conv_relu.
End ConvRelu.

(** ** ND to NZ moves *)

Module Nd2nz.
Import DmaMovNd2nzRecord.
Section nd2nz.
Context `{ParseEnv}.

Definition c0Size : Z := 32.

Definition ParseRecordDmaMovNd2nz (record : KernelRecord) (p : DmaMovNd2nzRecord.t) : P unit :=
  let pipe := FormatConverter.QueryPipeType (srcMemType p) (dstMemType p) in
  if bool_decide (pipe = PIPE_SIZE) then skip
  else
    event ← SetLocationInfo record (location p);
    let ev := event pipe in
    let m := assign ([Mem.memType (srcMemType p); Mem.opType READ] ++ no_mask ++ [Mem.addr (src p)])
               (raw_mem pe_raw) in
    m ← check_align ev RecordType.DMA_MOV_ND2NZ m;
    let dTypeByteSize := FormatConverter.GetDataSizeByType (dataType p) in
    let columnNum := (dValue p * dTypeByteSize + c0Size - 1) / c0Size in
    m ← for_up (ndNum p) (λ nd m,
          let m := assign [Mem.addr (src p + srcNdMatrixStride p * dTypeByteSize * nd);
                           Mem.blockNum (dValue p); Mem.blockSize dTypeByteSize; Mem.blockStride 1;
                           Mem.repeatTimes (nValue p); Mem.repeatStride (srcDValue p)] m in
          emit_mem ev m;; mret m) m;
    let m := assign [Mem.memType (dstMemType p); Mem.opType WRITE; Mem.addr (dst p)] m in
    m ← check_align ev RecordType.DMA_MOV_ND2NZ m;
    for_up columnNum (λ c m,
      let m := assign [Mem.addr (dst p + c0Size * dstNzC0Stride p * c); Mem.blockSize c0Size;
                       Mem.blockNum (nValue p); Mem.blockStride (dstNzNStride p);
                       Mem.repeatStride (dstNzMatrixStride p * dTypeByteSize / c0Size);
                       Mem.repeatTimes (ndNum p)] m in
      emit_mem ev m;; mret m) m;;
    skip.
End nd2nz.
End Nd2nz.

Module Nd2nzDav.
Import DmaMovNd2nzDavRecord.
Section nd2nz_dav.
Context `{ParseEnv}.

(** The event and the operation, when the parameters are accepted. *)
Definition SetNdNzDevPubElement (record : KernelRecord) (p : DmaMovNd2nzDavRecord.t)
    : P (option ((EventInfo → SanEvent) * MemOpInfo)) :=
  let pipe := FormatConverter.QueryPipeType (srcMemType p) (dstMemType p) in
  if bool_decide (pipe = PIPE_SIZE) then mret None
  else if negb (loop1SrcStride p `mod` FormatConverter.GetDataSizeByType (dataType p) =? 0) then mret None
  else
    event ← SetLocationInfo record (location p);
    if negb (smallC0 p =? 0) && (4 <? dValue p) then mret None
    else mret (Some (event pipe, assign no_mask (raw_mem pe_raw))).

Definition C0_D_VALUE_NUM : Z := 4.
Definition C0_SIZE : Z := 32.

(** [memInfo.addr = a; events.emplace_back(event)] *)
Definition emit_at (ev : EventInfo → SanEvent) (a : Z) (m : MemOpInfo) : P MemOpInfo :=
  let m := Mem.addr a m in emit_mem ev m;; mret m.

(** The reads: one per row of every matrix. *)
Definition read_rows (srcIsTheNd : bool) (p : DmaMovNd2nzDavRecord.t) (ev : EventInfo → SanEvent)
    (m : MemOpInfo) : P MemOpInfo :=
  for_up (ndNum p) (λ h m,
    for_up (if srcIsTheNd then nValue p else dValue p) (λ i m,
      emit_at ev (src p + h * loop4SrcStride p + i * loop1SrcStride p) m) m) m.

Definition read_info (srcIsTheNd : bool) (p : DmaMovNd2nzDavRecord.t) (m : MemOpInfo) : MemOpInfo :=
  let dTypeByteSize := FormatConverter.GetDataSizeByType (dataType p) in
  assign [Mem.addr (src p); Mem.memType (srcMemType p); Mem.opType READ; Mem.blockNum 1;
          Mem.blockSize (if srcIsTheNd then dValue p * dTypeByteSize else nValue p * dTypeByteSize);
          Mem.repeatTimes 1] m.

Definition DmaMovNdorDn2nzDavSmallC0 (srcIsTheNd : bool) (p : DmaMovNd2nzDavRecord.t)
    (ev : EventInfo → SanEvent) (m : MemOpInfo) : P unit :=
  let dTypeByteSize := FormatConverter.GetDataSizeByType (dataType p) in
  let r := if srcIsTheNd then RecordType.DMA_MOV_ND2NZ_D else RecordType.DMA_MOV_DN2NZ_D in
  m ← check_align ev r (read_info srcIsTheNd p m);
  m ← read_rows srcIsTheNd p ev m;
  let m := assign [Mem.addr (dst p); Mem.memType (dstMemType p); Mem.opType WRITE;
                   Mem.blockSize (C0_D_VALUE_NUM * dTypeByteSize); Mem.repeatTimes 1] m in
  m ← check_align ev r m;
  let alignDivisor := C0_D_VALUE_NUM * dTypeByteSize in
  if alignDivisor =? 0 then skip
  else
    let m := assign [Mem.blockNum (CeilByAlignSize (C0_SIZE / alignDivisor) (nValue p)); Mem.blockStride 1] m in
    for_up (ndNum p) (λ h m, emit_at ev (EventDef.addr m + h * loop4DstStride p * C0_SIZE) m) m;;
    skip.

Definition DmaMovNdorDn2nzDavDefault (srcIsTheNd : bool) (p : DmaMovNd2nzDavRecord.t)
    (ev : EventInfo → SanEvent) (m : MemOpInfo) : P unit :=
  let dTypeByteSize := FormatConverter.GetDataSizeByType (dataType p) in
  m ← check_align ev RecordType.DMA_MOV_ND2NZ_D (read_info srcIsTheNd p m);
  m ← read_rows srcIsTheNd p ev m;
  let m := assign [Mem.addr (dst p); Mem.memType (dstMemType p); Mem.opType WRITE; Mem.blockNum 1;
                   Mem.blockSize C0_SIZE; Mem.repeatTimes 1] m in
  m ← check_align ev RecordType.DMA_MOV_ND2NZ_D m;
  let matrixNum := CeilByAlignSize C0_SIZE (dValue p * dTypeByteSize) / C0_SIZE in
  for_up matrixNum (λ i m,
    for_up (ndNum p) (λ h m,
      for_up (nValue p) (λ k m,
        emit_at ev (dst p + i * loop3DstStride p * C0_SIZE + h * loop4DstStride p * C0_SIZE +
                    k * loop2DstStride p * C0_SIZE) m) m) m) m;;
  skip.

Definition parse_dav (srcIsTheNd : bool) (record : KernelRecord) (p : DmaMovNd2nzDavRecord.t) : P unit :=
  o ← SetNdNzDevPubElement record p;
  match o with
  | None => skip
  | Some (ev, m) =>
      if negb (smallC0 p =? 0) then DmaMovNdorDn2nzDavSmallC0 srcIsTheNd p ev m
      else DmaMovNdorDn2nzDavDefault srcIsTheNd p ev m
  end.

Definition ParseRecordDmaMovNd2NzDav := parse_dav true.
Definition ParseRecordDmaMovDn2nzDav := parse_dav false.
End nd2nz_dav.
End Nd2nzDav.

(** ** Aligned moves *)

Module MovAlign.
Import MovAlignRecord.
Section mov_align.
Context `{ParseEnv}.

Definition ParseRecordMovAlignImpl (record : KernelRecord) (p : MovAlignRecord.t) (alignCheck compactMode : bool)
    : P unit :=
  let pipe := FormatConverter.QueryPipeType (srcMemType p) (dstMemType p) in
  if bool_decide (pipe = PIPE_SIZE) then skip
  else if lenBurst p =? 0 then skip
  else
    event ← SetLocationInfo record (location p);
    let ev := event pipe in
    let srcGM := bool_decide (srcMemType p = MemType.GM) in
    let dstGM := bool_decide (dstMemType p = MemType.GM) in
    let m := assign (no_mask ++
      [Mem.blockSize 1; Mem.blockStride 1; Mem.repeatTimes (nBurst p); Mem.memType (srcMemType p);
       Mem.opType READ; Mem.addr (src p); Mem.blockNum (lenBurst p);
       Mem.repeatStride (if srcGM then lenBurst p + srcGap p
                         else CeilByAlignSize UB_ALIGN_SIZE (lenBurst p) + srcGap p * UB_ALIGN_SIZE)])
      (raw_mem pe_raw) in
    m ← DmaMov.check_if alignCheck ev (kr_recordType record) m;
    emit_mem ev m;;
    let paddingSize := (leftPaddingNum p + rightPaddingNum p) * FormatConverter.GetDataSizeByType (dataType p) in
    let m := assign [Mem.memType (dstMemType p); Mem.opType WRITE; Mem.addr (dst p)] m in
    let m :=
      if compactMode then
        let compactSize := nBurst p * lenBurst p + paddingSize in
        assign [Mem.repeatTimes 1; Mem.repeatStride 0;
                Mem.blockNum (if dstGM then compactSize else CeilByAlignSize UB_ALIGN_SIZE compactSize)] m
      else
        let ubWriteSize := CeilByAlignSize UB_ALIGN_SIZE (lenBurst p + paddingSize) in
        assign [Mem.repeatTimes (nBurst p); Mem.blockNum (if dstGM then lenBurst p else ubWriteSize);
                Mem.repeatStride (if dstGM then lenBurst p + dstGap p
                                  else ubWriteSize + u32 (dstGap p * UB_ALIGN_SIZE))] m in
    m ← DmaMov.check_if alignCheck ev (kr_recordType record) m;
    emit_mem ev m.

Definition ParseRecordMovAlign (record : KernelRecord) (p : MovAlignRecord.t) : P unit :=
  ParseRecordMovAlignImpl record p true false.
End mov_align.
End MovAlign.

Module MovAlignV2.
Import MovAlignRecordV2.
Section mov_align_v2.
Context `{ParseEnv}.

Definition unaligned32 (x : Z) : bool := negb (Z.land x 31 =? 0).

(** Accepted parameters, with [isCompactModeAble]. *)
Definition CheckMovAlignV2Event (p : MovAlignRecordV2.t) : option bool :=
  if lenBurst p =? 0 then None
  else
    let isLoopMode := (0 <? loop1Size p) && (1 <? loop2Size p) in
    let fromGM := bool_decide (srcMemType p = MemType.GM) in
    let isLRPMode := (0 <? rightPaddingNum p) || (0 <? leftPaddingNum p) in
    let size := FormatConverter.GetDataSizeByType (dataType p) in
    if fromGM && isLoopMode && isLRPMode then None
    else if fromGM && isLRPMode && bool_decide (dataType p = DATA_B4) then None
    else if fromGM && isLRPMode && ((32 <? leftPaddingNum p * size) || (32 <? rightPaddingNum p * size)) then None
    else
      let isCompactModeAble := if fromGM then dstStride p =? lenBurst p else srcStride p =? lenBurst p in
      let isUbStrideNot32BAligned := unaligned32 (if fromGM then dstStride p else srcStride p) in
      let isLoopStrideNot32BAligned :=
        if fromGM then unaligned32 (loop1DstStride p) || unaligned32 (loop2DstStride p)
        else unaligned32 (loop1SrcStride p) || unaligned32 (loop2SrcStride p) in
      if negb isCompactModeAble && isUbStrideNot32BAligned then None
      else if isLoopMode && isLoopStrideNot32BAligned then None
      else Some isCompactModeAble.

Definition initSanEvent (p : MovAlignRecordV2.t) (m : MemOpInfo) : MemOpInfo :=
  assign [Mem.vectorMask full_mask; Mem.maskMode MASK_NORM; Mem.blockSize 1; Mem.blockStride 1;
          Mem.repeatTimes (nBurst p); Mem.blockNum (lenBurst p)] m.

(** The pipe, the read and the write. *)
Definition SetDumpParam (p : MovAlignRecordV2.t) (isCompactModeAble : bool)
    : option (PipeType * MemOpInfo * MemOpInfo) :=
  let pipe := FormatConverter.QueryPipeType (srcMemType p) (dstMemType p) in
  if bool_decide (pipe = PIPE_SIZE) then None
  else
    let m := initSanEvent p (raw_mem pe_raw) in
    let r := assign [Mem.repeatStride (srcStride p); Mem.memType (srcMemType p); Mem.opType READ;
                     Mem.addr (src p)] m in
    let w := assign [Mem.repeatStride (dstStride p); Mem.memType (dstMemType p); Mem.opType WRITE;
                     Mem.addr (dst p)] m in
    let padding := (leftPaddingNum p + rightPaddingNum p) * FormatConverter.GetDataSizeByType (dataType p) in
    let w :=
      if bool_decide (srcMemType p = MemType.GM) then
        if isCompactModeAble then
          assign [Mem.blockNum (CeilByAlignSize UB_ALIGN_SIZE ((padding + lenBurst p) * nBurst p));
                  Mem.repeatStride 1; Mem.repeatTimes 1] w
        else Mem.blockNum (CeilByAlignSize UB_ALIGN_SIZE (padding + lenBurst p)) w
      else w in
    Some (pipe, r, w).

(** The record with the fields of the mode that is off reset. *)
Definition normalize (p : MovAlignRecordV2.t) : MovAlignRecordV2.t :=
  if (1 <? loop1Size p) && (1 <? loop2Size p) then
    {| dst := dst p; src := src p; location := location p; loop1DstStride := loop1DstStride p;
       loop2DstStride := loop2DstStride p; dstStride := dstStride p; srcStride := srcStride p;
       loop1SrcStride := loop1SrcStride p; loop2SrcStride := loop2SrcStride p; nBurst := nBurst p;
       lenBurst := lenBurst p; loop1Size := loop1Size p; loop2Size := loop2Size p;
       dstMemType := dstMemType p; srcMemType := srcMemType p; dataType := dataType p;
       leftPaddingNum := 0; rightPaddingNum := 0 |}
  else
    {| dst := dst p; src := src p; location := location p; loop1DstStride := 0; loop2DstStride := 0;
       dstStride := dstStride p; srcStride := srcStride p; loop1SrcStride := 0; loop2SrcStride := 0;
       nBurst := nBurst p; lenBurst := lenBurst p; loop1Size := 1; loop2Size := 1;
       dstMemType := dstMemType p; srcMemType := srcMemType p; dataType := dataType p;
       leftPaddingNum := leftPaddingNum p; rightPaddingNum := rightPaddingNum p |}.

Definition ParseRecordMovAlignV2 (record : KernelRecord) (p : MovAlignRecordV2.t) : P unit :=
  match CheckMovAlignV2Event p with
  | None => skip
  | Some isCompactModeAble =>
      let p := normalize p in
      event ← SetLocationInfo record (location p);
      match SetDumpParam p isCompactModeAble with
      | None => skip
      | Some (pipe, r, w) =>
          let ev := event pipe in
          r ← check_align ev (kr_recordType record) r;
          w ← check_align ev (kr_recordType record) w;
          for_up (loop2Size p) (λ k rw,
            for_up (loop1Size p) (λ j rw,
              let r := Mem.addr (src p + k * loop2SrcStride p + j * loop1SrcStride p) rw.1 in
              emit_mem ev r;;
              let w := Mem.addr (dst p + k * loop2DstStride p + j * loop1DstStride p) rw.2 in
              emit_mem ev w;;
              mret (r, w)) rw) (r, w);;
          skip
      end
  end.
End mov_align_v2.
End MovAlignV2.
