(* ===== verification/ParseLoad.v ===== *)
(** Parse functions of the move records, part two: multi-dimensional DMA, fix
    pipe, and the loads of matrices and feature maps
    ([csrc/core/framework/record_parse.cpp] from [CheckNdDmaMovOut2UbConstraints]
    to [ParseRecordLoadSmask], and from [ParseRecordSetL12D] to
    [ParseRecordMovCbuf2Fb]). *)
From stdpp Require Import base numbers option gmap strings list.
From S2P Require Import Prelude.
From S2P Require Import RecordDefs.
From S2P Require Import EventDef.
From S2P Require Import SyncContainers.
From S2P Require Import KernelRecords.
From S2P Require Import ParseBase.
From S2P Require Import ParseSync.

Import FormatConverter.

(** Reinterpretation of a wrapped value as a signed 64-bit integer. *)
Definition i64 (x : Z) : Z := let y := u64 x in if y <? 2 ^ 63 then y else y - 2 ^ 64.

(** [memInfo.addr = a; events.emplace_back(event)] *)
Definition emit_at (ev : EventInfo → SanEvent) (a : Z) (m : MemOpInfo) : P MemOpInfo :=
  let m := Mem.addr a m in emit_mem ev m;; mret m.

(** ** Five nested loops *)

Module NdDma.
Import NdDMAOut2UbRecord.
Section nd_dma.
Context `{ParseEnv}.

(** Every destination stride is larger than the one before. *)
Fixpoint increasing_strides (loops : list LoopInfo.t) : bool :=
  match loops with
  | a :: ((b :: _) as rest) => (LoopInfo.loopDstStride a <? LoopInfo.loopDstStride b) && increasing_strides rest
  | _ => true
  end.

Definition ADDR_CONSTRAINT : Z := 2 ^ 40.

Fixpoint check_loops (flag : bool) (i cur stride : Z) (loops : list LoopInfo.t) : bool :=
  match loops with
  | [] => true
  | l :: loops =>
      let tmp := u64 (LoopInfo.loopLpSize l + LoopInfo.loopSize l + LoopInfo.loopRpSize l - 1) in
      let cur := cur +u tmp * (if i <? 2 then LoopInfo.loopSrcStride l else LoopInfo.loopDstStride l) in
      if ADDR_CONSTRAINT <=? cur then false
      else if flag && (LoopInfo.loopDstStride l <? stride) then false
      else check_loops flag (i + 1) cur (if flag then stride +u tmp * LoopInfo.loopDstStride l else stride) loops
  end.

Definition CheckNdDmaMovOut2UbConstraints (loops : list LoopInfo.t) : bool :=
  check_loops (increasing_strides loops) 0 0 1 loops.

(** The loops from the outermost to the innermost. *)
Fixpoint AppendNdDmaMovOut2UbLoopData (isRead : bool) (ev : EventInfo → SanEvent) (elementLen : Z)
    (loops : list LoopInfo.t) (offset : Z) (m : MemOpInfo) : P MemOpInfo :=
  match loops with
  | [] => mret m
  | l :: rest =>
      let n := if isRead then LoopInfo.loopSize l
               else LoopInfo.loopSize l + LoopInfo.loopLpSize l + LoopInfo.loopRpSize l in
      for_up n (λ idx m,
        let offset1 := offset +u idx * (if isRead then LoopInfo.loopSrcStride l else LoopInfo.loopDstStride l) *
                                 elementLen in
        match rest with
        | [] => emit_at ev offset1 m
        | _ => AppendNdDmaMovOut2UbLoopData isRead ev elementLen rest offset1 m
        end) m
  end.

Definition ParseRecordNdDmaMovOut2Ub (record : KernelRecord) (p : NdDMAOut2UbRecord.t) : P unit :=
  if bool_decide (dataType p = DATA_B4) then skip
  else
    match loop p with
    | [_; _; _; _; _] =>
        if negb (CheckNdDmaMovOut2UbConstraints (loop p)) then skip
        else
          let elementLen := GetDataSizeByType (dataType p) in
          event ← SetLocationInfo record (location p);
          let ev := event PIPE_MTE2 in
          let m := assign [Mem.blockSize elementLen; Mem.blockNum 1; Mem.blockStride 1; Mem.repeatTimes 1;
                           Mem.memType MemType.GM; Mem.opType READ; Mem.addr (src p)] (raw_mem pe_raw) in
          m ← check_align_size ev elementLen m;
          m ← AppendNdDmaMovOut2UbLoopData true ev elementLen (reverse (loop p)) (src p) m;
          let m := assign [Mem.memType MemType.UB; Mem.opType WRITE; Mem.addr (dst p)] m in
          m ← check_align_size ev 1 m;
          AppendNdDmaMovOut2UbLoopData false ev elementLen (reverse (loop p)) (dst p) m;;
          skip
    | _ => undefined
    end.
End nd_dma.
End NdDma.

(** ** Fix pipe *)

Module FixPipe.
Import MovFpRecord.
Section fix_pipe.
Context `{ParseEnv}.

Definition fractalNum : Z := 16.

(** [FixPipeReadFromL0C] and [FixPipeReadFromL0CA5] differ in the block size and
    in the unit of the matrix stride. *)
Definition read_L0C (c0Size ndStrideSize : Z) (p : MovFpRecord.t) (ev : EventInfo → SanEvent) (m : MemOpInfo)
    : P MemOpInfo :=
  let m := assign [Mem.addr (src p); Mem.memType MemType.L0C; Mem.opType READ; Mem.blockSize c0Size;
                   Mem.blockStride 1; Mem.repeatStride (srcStride p); Mem.blockNum (mSize p)] m in
  m ← check_align_size ev 64 m;
  if negb (enNZ2ND p) && negb (enNZ2DN p) then
    let m := Mem.repeatTimes ((nSize p + fractalNum - 1) / fractalNum) m in
    emit_mem ev m;; mret m
  else
    let fullColumn := nSize p / fractalNum in
    let m := assign [Mem.repeatTimes fullColumn; Mem.blockStride (if enNZ2DN p then srcNzC0Stride p else 1)] m in
    m ← for_up (ndNum p) (λ nd m, emit_at ev (src p + i32 (srcNdStride p * nd * ndStrideSize)) m) m;
    if nSize p `mod` fractalNum =? 0 then mret m
    else
      let m := assign [Mem.blockSize (GetDataSizeByType DATA_B32); Mem.blockStride 1;
                       Mem.blockNum (nSize p `mod` fractalNum); Mem.repeatTimes (mSize p);
                       Mem.repeatStride (if enNZ2DN p then srcNzC0Stride p * fractalNum else fractalNum)] m in
      for_up (ndNum p) (λ nd m,
        emit_at ev (src p + i32 (srcNdStride p * nd * ndStrideSize) + i32 (srcStride p * fullColumn * c0Size)) m) m.

Definition FixPipeReadFromL0C (p : MovFpRecord.t) := read_L0C 64 (if isC310 p then 64 else 1024) p.
Definition FixPipeReadFromL0CA5 (p : MovFpRecord.t) := read_L0C 32 32 p.

Definition halve_blocks (m : MemOpInfo) : MemOpInfo := Mem.blockNum (EventDef.blockNum m / 2) m.
Definition halve_repeats (m : MemOpInfo) : MemOpInfo := Mem.repeatTimes (EventDef.repeatTimes m / 2) m.

Definition ApplyDualDstMode (p : MovFpRecord.t) (m : MemOpInfo) (blockNumIsM : bool) : MemOpInfo :=
  if dualDstMode p =? 1 then if blockNumIsM then halve_blocks m else halve_repeats m
  else if dualDstMode p =? 2 then if blockNumIsM then halve_repeats m else halve_blocks m
  else m.

Definition apply_emit (p : MovFpRecord.t) (ev : EventInfo → SanEvent) (m : MemOpInfo) : P MemOpInfo :=
  let m := ApplyDualDstMode p m true in emit_mem ev m;; mret m.

Definition ParseFixPipeWriteByMultiMode (p : MovFpRecord.t) (ev : EventInfo → SanEvent) (m : MemOpInfo)
    : P MemOpInfo :=
  let nColumn := (nSize p + 15) / 16 in
  if channelSplit p then
    apply_emit p ev (assign [Mem.blockNum (if isC310 p then mSize p * 8 else mSize p);
                             Mem.repeatTimes ((nSize p + 7) / 8)] m)
  else if int4ChannelMerge p then
    apply_emit p ev
      (if isC310 p then assign [Mem.blockNum (mSize p * 32); Mem.repeatTimes ((nSize p + 63) / 64);
                                Mem.repeatStride (dstStride p / 2)] m
       else assign [Mem.blockNum (mSize p); Mem.repeatTimes (nColumn / 4)] m)
  else if int8ChannelMerge p then
    m ← apply_emit p ev (assign [Mem.blockNum (if isC310 p then mSize p * 32 else mSize p);
                                 Mem.repeatTimes (nColumn / 2)] m);
    if nColumn `mod` 2 =? 0 then mret m
    else
      let m := Mem.addr (dst p + u32 (EventDef.repeatStride m * EventDef.repeatTimes m * EventDef.blockSize m)) m in
      let m := if isC310 p then m else Mem.blockSize 16 m in
      apply_emit p ev (assign [Mem.blockNum (if isC310 p then mSize p * 16 else mSize p); Mem.repeatTimes 1;
                               Mem.repeatStride (dstStride p * 2)] m)
  else
    apply_emit p ev
      (assign [Mem.blockNum (if isC310 p then mSize p * 16
                             else u64 (i32 (mSize p * quantPreBits p)) / BITS_EACH_BYTE / 2);
               Mem.repeatTimes nColumn] m).

Definition element_size (p : MovFpRecord.t) : Z := if quantPreBits p =? 4 then 1 else quantPreBits p / BITS_EACH_BYTE.

(** The writes of the ND and DN layouts, one per matrix. *)
Definition nd_info (p : MovFpRecord.t) : list (MemOpInfo → MemOpInfo) :=
  let blockNum := if enNZ2DN p then mSize p else nSize p in
  [Mem.blockNum (if quantPreBits p =? 4 then blockNum / 2 else blockNum);
   Mem.repeatTimes (if enNZ2DN p then nSize p else mSize p);
   Mem.repeatStride (if quantPreBits p =? 4 then dstStride p / 2 else dstStride p)].
Definition nd_writes (p : MovFpRecord.t) (ev : EventInfo → SanEvent) (m : MemOpInfo) : P MemOpInfo :=
  for_up (ndNum p) (λ nd m, emit_at ev (dst p + u32 (dstNdStride p * nd * quantPreBits p) / BITS_EACH_BYTE) m) m.

Definition FixPipeWriteToOut (p : MovFpRecord.t) (ev : EventInfo → SanEvent) (m : MemOpInfo) : P MemOpInfo :=
  let m := assign [Mem.memType MemType.GM; Mem.opType WRITE; Mem.blockStride 1; Mem.addr (dst p)] m in
  m ← check_align_size ev 1 m;
  let m := Mem.blockSize (element_size p) m in
  if enNZ2ND p || enNZ2DN p then nd_writes p ev (assign (nd_info p) m)
  else
    let m := if isC310 p then m else Mem.blockSize 32 m in
    ParseFixPipeWriteByMultiMode p ev (assign [Mem.repeatStride (dstStride p); Mem.addr (dst p)] m).

Definition FixPipeWriteToL1OrUB (p : MovFpRecord.t) (dstType : MemType.MemType) (ev : EventInfo → SanEvent)
    (m : MemOpInfo) : P MemOpInfo :=
  let m := assign [Mem.memType dstType; Mem.opType WRITE; Mem.blockStride 1; Mem.addr (dst p)] m in
  m ← check_align_size ev 32 m;
  let m := Mem.blockSize (element_size p) m in
  if enNZ2ND p || enNZ2DN p then
    let m := assign (nd_info p) m in
    nd_writes p ev (if enNZ2ND p then ApplyDualDstMode p m false else m)
  else ParseFixPipeWriteByMultiMode p ev (assign [Mem.repeatStride (dstStride p); Mem.addr (dst p)] m).

(** The other conditions only log. *)
Definition CheckRecordMovFpValid (p : MovFpRecord.t) : bool :=
  negb ((mSize p =? 0) || (nSize p =? 0) || (enNZ2ND p && (ndNum p =? 0))).

Definition unit_flag (record : KernelRecord) (p : MovFpRecord.t) : P unit :=
  if enUnitFlag p then CreateUnitFlagSyncEvent record (location p) false else skip.

Definition ParseRecordMovFp (record : KernelRecord) (p : MovFpRecord.t) : P unit :=
  if negb (CheckRecordMovFpValid p) then skip
  else
    event ← SetLocationInfo record (location p);
    let ev := event PIPE_FIX in
    m ← FixPipeReadFromL0C p ev (assign no_mask (raw_mem pe_raw));
    FixPipeWriteToOut p ev m;;
    unit_flag record p.

Definition ParseRecordFixL0CToL1 (record : KernelRecord) (p : MovFpRecord.t) : P unit :=
  if negb (CheckRecordMovFpValid p) then skip
  else
    event ← SetLocationInfo record (location p);
    let ev := event PIPE_FIX in
    m ← FixPipeReadFromL0CA5 p ev (assign no_mask (raw_mem pe_raw));
    FixPipeWriteToL1OrUB p MemType.L1 ev m;;
    unit_flag record p.

(** The events of a computation, with their target core set. *)
Definition set_target (core : Z) (e : SanEvent) : SanEvent :=
  match eventInfo e with
  | MemInfo m => {| serialNo := serialNo e; pipe := pipe e;
                    eventInfo := MemInfo (assign [Mem.dstCoreId core; Mem.dstBlockType AIVEC] m); loc := loc e;
                    isAtomicMode := isAtomicMode e; recordType := recordType e;
                    closedRingStartSerialNo := closedRingStartSerialNo e |}
  | _ => e
  end.
Definition map_events {A} (f : SanEvent → SanEvent) (c : P A) : P A := λ s,
  match c s with Some (a, s', es) => Some (a, s', f <$> es) | None => None end.

Definition ParseRecordFixL0CToUB (record : KernelRecord) (p : MovFpRecord.t) : P unit :=
  if negb (CheckRecordMovFpValid p) then skip
  else
    event ← SetLocationInfo record (location p);
    let ev := event PIPE_FIX in
    m ← FixPipeReadFromL0CA5 p ev (assign no_mask (raw_mem pe_raw));
    let core := u32 (loc_blockId (location p) * C220_VEC_SUB_BLOCKDIM) in
    (if (dualDstMode p =? 1) || (dualDstMode p =? 2) then
       map_events (set_target core) (FixPipeWriteToL1OrUB p MemType.UB ev m);;
       map_events (set_target (core + 1)) (FixPipeWriteToL1OrUB p MemType.UB ev m);;
       skip
     else map_events (set_target (core + subVecBlockId p)) (FixPipeWriteToL1OrUB p MemType.UB ev m);; skip);;
    unit_flag record p.
End fix_pipe.
End FixPipe.

(** ** Matrix loads *)

Module Load2D.
Import Load2DRecord.
Section load_2d.
Context `{ParseEnv}.

(** The first address read; [None] when the descending walk starts too low. *)
Definition load_2d_addr (p : Load2DRecord.t) : option Z :=
  let base := src p +u baseIdx p * MATRIX_FRACTAL_SIZE in
  match addrCalMode p with
  | ADDR_INC => Some base
  | ADDR_DEC =>
      let offset := u64 (i32 ((repeat p - 1) * srcStride p * MATRIX_FRACTAL_SIZE)) in
      if base <? offset then None else Some (base -u offset)
  end.

Definition ParseRecordLoad2D (record : KernelRecord) (p : Load2DRecord.t) : P unit :=
  event ← SetLocationInfo record (location p);
  let ev := event (QueryPipeType (srcMemType p) (dstMemType p)) in
  let m := assign ([Mem.memType (srcMemType p); Mem.opType READ] ++ no_mask) (raw_mem pe_raw) in
  if repeat p =? 0 then skip
  else
    match load_2d_addr p with
    | None => skip
    | Some a =>
        let m := assign [Mem.addr a; Mem.blockNum 1; Mem.blockSize (blockSize p); Mem.blockStride 0;
                         Mem.repeatTimes (repeat p); Mem.repeatStride (srcStride p)] m in
        m ← check_emit ev (kr_recordType record) m;
        let m := assign [Mem.memType (dstMemType p); Mem.opType WRITE; Mem.addr (dst p);
                         Mem.repeatStride (dstStride p)] m in
        check_emit ev (kr_recordType record) m;; skip
    end.
End load_2d.
End Load2D.

Module Load2DSparse.
Import Load2DSparseRecord.
Section load_2d_sparse.
Context `{ParseEnv}.

Definition indexMatrixSize : Z := 128.

Definition ParseRecordLoad2DSparse (record : KernelRecord) (p : Load2DSparseRecord.t) : P unit :=
  event ← SetLocationInfo record (location p);
  let ev := event (QueryPipeType (srcMemType p) (dstMemType p)) in
  if repeat p =? 0 then skip
  else
    let m := assign ([Mem.memType (srcMemType p); Mem.opType READ] ++ no_mask ++
      [Mem.addr (u32 (src0 p + startId p * MATRIX_FRACTAL_SIZE)); Mem.blockNum 1;
       Mem.blockSize MATRIX_FRACTAL_SIZE; Mem.blockStride 1; Mem.repeatTimes (repeat p); Mem.repeatStride 1])
      (raw_mem pe_raw) in
    m ← check_emit ev (kr_recordType record) m;
    let m := assign [Mem.addr (src1 p + startId p * indexMatrixSize); Mem.blockSize indexMatrixSize] m in
    m ← check_emit ev (kr_recordType record) m;
    let m := assign [Mem.memType (dstMemType p); Mem.opType WRITE; Mem.addr (dst p);
                     Mem.blockSize MATRIX_FRACTAL_SIZE] m in
    check_emit ev (kr_recordType record) m;; skip.
End load_2d_sparse.
End Load2DSparse.

Module Load2DTranspose.
Import Load2DTransposeRecord.
Section load_2d_transpose.
Context `{ParseEnv}.

Definition g_fractalNumMap (d : DataType) : Z :=
  match d with DATA_B4 => 4 | DATA_B8 => 2 | DATA_B16 => 1 | DATA_B32 => 2 end.

Definition ParseRecordLoad2DTransposeWrite (record : KernelRecord) (p : Load2DTransposeRecord.t)
    (ev : EventInfo → SanEvent) (m : MemOpInfo) : P unit :=
  let m := assign [Mem.memType (dstMemType p); Mem.opType WRITE; Mem.repeatStride (dstStride p + 1);
                   Mem.blockStride (dstFracStride p + 1); Mem.addr (dst p)] m in
  check_emit ev (kr_recordType record) m;; skip.

Definition ParseRecordLoad2DTranspose (record : KernelRecord) (p : Load2DTransposeRecord.t) : P unit :=
  event ← SetLocationInfo record (location p);
  let ev := event (QueryPipeType (srcMemType p) (dstMemType p)) in
  if repeat p =? 0 then skip
  else
    let fractalNum := g_fractalNumMap (dataType p) in
    let m := assign ([Mem.memType (srcMemType p); Mem.opType READ] ++ no_mask ++
      [Mem.blockNum fractalNum; Mem.blockSize MATRIX_FRACTAL_SIZE; Mem.blockStride 1;
       Mem.repeatTimes (repeat p); Mem.repeatStride (fractalNum * srcStride p)]) (raw_mem pe_raw) in
    let memInfoAddr := src p +u indexId p * fractalNum * MATRIX_FRACTAL_SIZE in
    let offset := u32 (EventDef.repeatStride m * MATRIX_FRACTAL_SIZE * (repeat p - 1)) in
    let m := Mem.addr (if addrMode p then memInfoAddr - offset else memInfoAddr) m in
    if addrMode p && (indexId p <? u32 (srcStride p * (EventDef.repeatTimes m - 1))) then skip
    else
      m ← check_emit ev (kr_recordType record) m;
      ParseRecordLoad2DTransposeWrite record p ev m.
End load_2d_transpose.
End Load2DTranspose.

Module LoadL12D.
Import LoadL12DRecord.
Section load_l1_2d.
Context `{ParseEnv}.

Definition CheckTranspose (p : LoadL12DRecord.t) : bool :=
  match transposeMode p with
  | TRANSPOSE_DISABLE => true
  | TRANSPOSE_ENABLE =>
      match detailedDataType p with
      | DetailedDataType.B4 => mStep p `mod` 4 =? 0
      | DetailedDataType.B8 => mStep p `mod` 2 =? 0
      | DetailedDataType.B16 => true
      | DetailedDataType.B32 => kStep p `mod` 2 =? 0
      | _ => false
      end
  end.

Definition HandleTransposeCase (p : LoadL12DRecord.t) (m : MemOpInfo) : MemOpInfo :=
  let m := assign [Mem.blockNum (kStep p); Mem.repeatTimes (mStep p)] m in
  let scale f g := assign [Mem.blockNum (f (EventDef.blockNum m)); Mem.repeatTimes (g (EventDef.repeatTimes m))] m in
  match detailedDataType p with
  | DetailedDataType.B4 => scale (λ x, x * 4) (λ x, x / 4)
  | DetailedDataType.B8 => scale (λ x, x * 2) (λ x, x / 2)
  | DetailedDataType.B32 => scale (λ x, x / 2) (λ x, x * 2)
  | _ => m
  end.

(** The base address of a walk with a signed stride. *)
Definition RebaseReverseStride (addr repeatTimes blockSize stride : Z) : option Z :=
  if stride <? 0 then
    let rebased := i64 (i64 addr + stride * u32 (repeatTimes - 1) * blockSize) in
    if rebased <? 0 then None else Some rebased
  else Some addr.

Definition ParseRecordLoadL12D (record : KernelRecord) (p : LoadL12DRecord.t) : P unit :=
  event ← SetLocationInfo record (location p);
  let ev := event (QueryPipeType MemType.L1 (dstMemType p)) in
  if negb (CheckTranspose p) then skip
  else
    let baseOffset := (kStartPosition p * Z.abs (srcStride p) + mStartPosition p) * MATRIX_FRACTAL_SIZE in
    match RebaseReverseStride (src p +u baseOffset) (kStep p) MATRIX_FRACTAL_SIZE (srcStride p) with
    | None => skip
    | Some baseAddr =>
        let m := assign [Mem.memType MemType.L1; Mem.opType READ; Mem.addr baseAddr; Mem.blockNum (mStep p);
                         Mem.blockSize MATRIX_FRACTAL_SIZE; Mem.blockStride 1; Mem.repeatTimes (kStep p);
                         Mem.repeatStride (Z.abs (srcStride p))] (raw_mem pe_raw) in
        m ← check_emit ev (kr_recordType record) m;
        let m := assign [Mem.memType (dstMemType p); Mem.opType WRITE; Mem.addr (dst p); Mem.blockNum (mStep p);
                         Mem.blockSize MATRIX_FRACTAL_SIZE; Mem.blockStride 1; Mem.repeatTimes (kStep p)] m in
        let m := match transposeMode p with TRANSPOSE_ENABLE => HandleTransposeCase p m | _ => m end in
        let m := Mem.repeatStride (dstStride p) m in
        check_emit ev (kr_recordType record) m;; skip
    end.
End load_l1_2d.
End LoadL12D.

Section load_l1.
Context `{ParseEnv}.

Definition ParseRecordLoadL1Mx2D (record : KernelRecord) (p : LoadL1Mx2DRecord.t) : P unit :=
  event ← SetLocationInfo record (LoadL1Mx2DRecord.location p);
  let ev := event PIPE_MTE1 in
  let m := assign
    [Mem.memType MemType.L1; Mem.opType READ;
     Mem.addr (LoadL1Mx2DRecord.src p +
               i32 ((LoadL1Mx2DRecord.xStartPosition p * LoadL1Mx2DRecord.srcStride p +
                     LoadL1Mx2DRecord.yStartPosition p) * MATRIX_FRACTAL_ROW_SIZE));
     Mem.blockNum (LoadL1Mx2DRecord.yStep p); Mem.blockSize MATRIX_FRACTAL_ROW_SIZE; Mem.blockStride 1;
     Mem.repeatTimes (LoadL1Mx2DRecord.xStep p); Mem.repeatStride (LoadL1Mx2DRecord.srcStride p)]
    (raw_mem pe_raw) in
  check_emit ev (kr_recordType record) m;; skip.

Definition GetFracNum (d : DetailedDataType.DetailedDataType) : Z :=
  match d with
  | DetailedDataType.B4 => 4 | DetailedDataType.B8 => 2 | DetailedDataType.B16 => 1 | DetailedDataType.B32 => 2
  | _ => 0
  end.

Definition ParseRecordLoadL12DTranspose (record : KernelRecord) (p : LoadL12DTransposeRecord.t) : P unit :=
  event ← SetLocationInfo record (LoadL12DTransposeRecord.location p);
  let ev := event (QueryPipeType MemType.L1 MemType.L0B) in
  let m := assign
    [Mem.memType MemType.L1; Mem.opType READ; Mem.addr (LoadL12DTransposeRecord.src p);
     Mem.blockNum (GetFracNum (LoadL12DTransposeRecord.detailedDataType p)); Mem.blockSize MATRIX_FRACTAL_SIZE;
     Mem.blockStride (LoadL12DTransposeRecord.srcFracStride p);
     Mem.repeatTimes (LoadL12DTransposeRecord.repeat p);
     Mem.repeatStride (LoadL12DTransposeRecord.srcStride p)] (raw_mem pe_raw) in
  m ← check_emit ev (kr_recordType record) m;
  let m := assign [Mem.memType MemType.L0B; Mem.opType WRITE; Mem.addr (LoadL12DTransposeRecord.dst p);
                   Mem.blockStride (LoadL12DTransposeRecord.dstFracStride p);
                   Mem.repeatStride (LoadL12DTransposeRecord.dstStride p)] m in
  check_emit ev (kr_recordType record) m;; skip.

Definition ParseRecordDecompressHeader (record : KernelRecord) (p : DecompressHeaderRecord.t) : P unit :=
  event ← SetLocationInfo record (DecompressHeaderRecord.location p);
  let ev := event PIPE_MTE2 in
  if DecompressHeaderRecord.nBlock p =? 0 then skip
  else
    let m := assign ([Mem.memType (DecompressHeaderRecord.srcMemType p); Mem.opType READ] ++ no_mask ++
      [Mem.blockNum 1; Mem.blockSize (32 * DecompressHeaderRecord.nBlock p); Mem.blockStride 1;
       Mem.repeatTimes 1; Mem.repeatStride 1; Mem.addr (DecompressHeaderRecord.src p)]) (raw_mem pe_raw) in
    check_emit ev (kr_recordType record) m;; skip.

Definition ParseRecordDcPreload (record : KernelRecord) (p : DcPreloadRecord.t) : P unit :=
  event ← SetLocationInfo record (DcPreloadRecord.location p);
  let ev := event PIPE_S_CAL in
  let m := assign ([Mem.memType (AddrSpaceToMemType (DcPreloadRecord.space p)); Mem.opType READ] ++ no_mask ++
    [Mem.blockNum 1; Mem.blockSize 0; Mem.blockStride 1; Mem.repeatTimes 1; Mem.repeatStride 1; Mem.alignSize 1;
     Mem.addr (DcPreloadRecord.addr p + DcPreloadRecord.offset p)]) (raw_mem pe_raw) in
  check_emit ev (kr_recordType record) m;; skip.
End load_l1.

Module Broadcast.
Import BroadcastRecord.
Section broadcast.
Context `{ParseEnv}.

Definition ParseRecordBroadcast (record : KernelRecord) (p : BroadcastRecord.t) : P unit :=
  event ← SetLocationInfo record (location p);
  let ev := event PIPE_V in
  if (nBurst p =? 0) || (lenBurst p =? 0) then skip
  else
    let m := assign ([Mem.memType (srcMemType p); Mem.opType READ] ++ no_mask ++
      [Mem.blockSize 32; Mem.blockNum (if enableRepeat p then 1 else lenBurst p)]) (raw_mem pe_raw) in
    let m := match srcDataType p with DATA_B32 => Mem.blockNum (EventDef.blockNum m * 2) m | _ => m end in
    let m := assign [Mem.repeatStride (srcGap p + EventDef.blockNum m); Mem.blockStride 1;
                     Mem.repeatTimes (nBurst p); Mem.addr (src p)] m in
    m ← check_emit ev (kr_recordType record) m;
    let m := assign [Mem.memType (dstMemType p); Mem.opType WRITE;
                     Mem.blockSize (match dstDataType p with DATA_B32 => 1024 | _ => 512 end);
                     Mem.blockNum (lenBurst p)] m in
    let m := assign [Mem.repeatStride (dstGap p + EventDef.blockNum m); Mem.addr (dst p)] m in
    check_emit ev (kr_recordType record) m;; skip.
End broadcast.
End Broadcast.
