(* ===== verification/ParseLoad3D.v ===== *)
(** Parse functions of the move records, part three: feature map loads and the
    remaining local moves ([csrc/core/framework/record_parse.cpp],
    [ParseRecordMovBt], from [ParseRecordLoad3DFMap] to [ParseRecordLoadSmask],
    and from [ParseRecordSetL12D] to [ParseRecordMovCbuf2Fb]). *)
From stdpp Require Import base numbers option gmap strings list.
From S2P Require Import Prelude.
From S2P Require Import RecordDefs.
From S2P Require Import EventDef.
From S2P Require Import KernelRecords.
From S2P Require Import ParseBase.
From S2P Require Import ParseLoad.

Import FormatConverter.

(** [for (x = start; x < stop; x += stride)]: the values of [x]; [None] when the
    loop does not end. *)
Definition steps (start stop stride : Z) : option (list Z) :=
  if stop <=? start then Some []
  else if stride =? 0 then None
  else Some ((λ k, start + stride * k) <$> seqZ 0 ((stop - start + stride - 1) / stride)).

(** Two nested loops; the inner one is only entered when the outer one is. *)
Definition grid (hs ws : option (list Z)) : option (list (Z * Z)) :=
  match hs with
  | None => None
  | Some [] => Some []
  | Some hs => ws ← ws; Some (h ← hs; w ← ws; [(h, w)])
  end.

(** A loop over a list. *)
Fixpoint for_list {A B} (l : list A) (body : A → B → P B) (b : B) : P B :=
  match l with [] => mret b | a :: l => b ← body a b; for_list l body b end.

(** ** [LOAD_3D] *)

Module Load3D.
Import Load3DRecord.
Section load_3d.
Context `{ParseEnv}.

(** The positions of the feature map the filter is put on. *)
Definition fMapPos (p : Load3DRecord.t) (fMapC1 : Z) : option (list (Z * (Z * Z))) :=
  if fMapC1 =? 0 then Some []
  else
    hw ← grid (steps (- fMapTopPad p) (fMapH p + fMapBottomPad p) (filterHStride p))
              (steps (- fMapLeftPad p) (fMapW p + fMapRightPad p) (filterWStride p));
    Some (fMc ← seqZ 0 fMapC1; pos ← hw; [(fMc, pos)]).

Definition filterPos (p : Load3DRecord.t) : list (Z * Z) :=
  fw ← seqZ 0 (filterW p); fh ← seqZ 0 (filterH p); [(fw, fh)].

Definition loadSize : Z := 32.

Definition filter_event (p : Load3DRecord.t) (ev : EventInfo → SanEvent) (pos : Z * (Z * Z)) (filter : Z * Z)
    (m : MemOpInfo) : P MemOpInfo :=
  let '(fMc, (fMh, fMw)) := pos in
  let combinedW := fMw + filter.1 * filterWDilation p in
  let combinedH := fMh + filter.2 * filterHDilation p in
  if (combinedW <? 0) || (fMapW p <=? combinedW) || (combinedH <? 0) || (fMapH p <=? combinedH) then mret m
  else
    let fMapIdx := u32 (combinedW + combinedH * fMapW p + fMc * fMapW p * fMapH p) in
    let m := assign [Mem.addr (src p + u32 (fMapIdx * loadSize)); Mem.blockSize loadSize] m in
    emit_mem ev m;; mret m.

Definition ParseRecordLoad3DFMap (p : Load3DRecord.t) (ev : EventInfo → SanEvent) (bitSize : Z) (m : MemOpInfo)
    : P MemOpInfo :=
  let fMapC1 := (fMapC p * bitSize + 256 - 1) / 256 in
  let m := assign [Mem.memType (srcMemType p); Mem.opType READ; Mem.addr (src p)] m in
  m ← check_align ev RecordType.LOAD_3D m;
  match fMapPos p fMapC1 with
  | None => undefined
  | Some positions =>
      for_list positions (λ pos m, for_list (filterPos p) (λ f m, filter_event p ev pos f m) m) m
  end.

Definition byteUnit : Z := 8.

Definition ParseRecordLoad3DMatrix (p : Load3DRecord.t) (ev : EventInfo → SanEvent) (bitSize : Z)
    (m : MemOpInfo) : P unit :=
  let mRptLength := 16 * matrixRptStride p in
  let kRptLength := 32 * byteUnit / bitSize * matrixRptStride p in
  if (1 <? matrixRptTimes p) && (0 <? matrixRptMode p) && (kRptLength <? matrixKStep p) then skip
  else if (1 <? matrixRptTimes p) && (matrixRptMode p =? 0) && (mRptLength <? matrixMStep p) then skip
  else
    let m := assign [Mem.memType (dstMemType p); Mem.opType WRITE; Mem.addr (dst p);
                     Mem.blockSize (Z.quot (i32 (matrixKStep p * matrixMStep p * matrixRptTimes p * bitSize))
                                      byteUnit)] m in
    check_emit ev RecordType.LOAD_3D m;; skip.

Definition ParseRecordLoad3D (record : KernelRecord) (p : Load3DRecord.t) : P unit :=
  match GetDataBitSizeByType (dataType p) with
  | None => skip
  | Some bitSize =>
      if (filterWDilation p =? 0) || (filterHDilation p =? 0) then skip
      else if negb (CheckChannelSize (dataType p) (fMapC p)) then skip
      else
        event ← SetLocationInfo record (location p);
        let ev := event (QueryPipeType (srcMemType p) (dstMemType p)) in
        let m := assign (no_mask ++ [Mem.blockNum 1; Mem.blockStride 1; Mem.repeatTimes 1; Mem.repeatStride 1])
                   (raw_mem pe_raw) in
        m ← ParseRecordLoad3DFMap p ev bitSize m;
        ParseRecordLoad3DMatrix p ev bitSize m
  end.
End load_3d.
End Load3D.

(** ** [LOAD_3D_V2] *)

Module Load3DV2.
Import Load3DV2Record.
Section load_3d_v2.
Context `{ParseEnv}.

Definition CheckMDirection (p : Load3DV2Record.t) (combinedH : Z) : bool :=
  let mPos := matrixMPos p in
  let mStep := matrixMStep p in
  if matrixMode p =? 0 then (combinedH <? mPos) || (mPos + mStep <=? combinedH)
  else
    let mStride := matrixRptStride p * 16 in
    if (combinedH <? mPos) || (i32 (mPos + mStride * matrixRptTimes p) <=? combinedH) then false
    else Z.rem (combinedH - mPos) mStride <? mStep.

Definition CheckKDirection (p : Load3DV2Record.t) (combinedW bitSize : Z) : bool :=
  let kPos := matrixKPos p in
  let kStep := matrixKStep p in
  if matrixMode p =? 0 then (combinedW <? kPos) || (kPos + kStep <=? combinedW)
  else
    let kStride := matrixRptStride p * MATRIX_FRACTAL_ROW_SIZE * BITS_EACH_BYTE / bitSize in
    if (combinedW <? kPos) || (i32 (kPos + kStride * matrixRptTimes p) <=? combinedW) then false
    else Z.rem (combinedW - kPos) kStride <? kStep.

Definition CheckMKDirection (p : Load3DV2Record.t) (combinedH combinedW bitSize : Z) : bool :=
  negb (CheckMDirection p combinedH) || negb (CheckKDirection p combinedW bitSize).

Definition HandleLoad3DEvent (p : Load3DV2Record.t) (ev : EventInfo → SanEvent) (bitSize fMapID filterNum : Z)
    (m : MemOpInfo) : P MemOpInfo :=
  for_up filterNum (λ filterID m,
    let combinedH := i32 fMapID in
    for_up (fMapC p) (λ fMc m,
      let combinedW := i32 (i32 (filterID * fMapC p) + fMc) in
      if CheckMKDirection p combinedH combinedW bitSize then mret m
      else
        let fMapIdx := u64 (combinedW + combinedH * filterNum * fMapC p) in
        let m := assign [Mem.addr (src p + fMapIdx * bitSize); Mem.blockSize bitSize] m in
        emit_mem ev m;; mret m) m) m.

Definition ParseRecordLoad3DV2FMap (p : Load3DV2Record.t) (ev : EventInfo → SanEvent) (bitSize : Z)
    (m : MemOpInfo) : P MemOpInfo :=
  let m := assign [Mem.memType (srcMemType p); Mem.opType READ; Mem.addr (src p)] m in
  let alignSize := u16 (bitSize * fMapC p / BITS_EACH_BYTE) in
  m ← check_align_size ev (if alignSize <=? 32 then alignSize else 32) m;
  let fMhMax := fMapH p + fMapBottomPad p - filterH p * filterHDilation p + 1 in
  let fMwMax := fMapW p + fMapRightPad p - filterW p * filterWDilation p + 1 in
  match grid (steps (- fMapTopPad p) fMhMax (filterHStride p)) (steps (- fMapLeftPad p) fMwMax (filterWStride p)) with
  | None => undefined
  | Some fMapPos =>
      for_up (Z.of_nat (length fMapPos)) (λ fMapID m,
        HandleLoad3DEvent p ev bitSize fMapID (filterH p * filterW p) m) m
  end.

Definition ParseRecordLoad3DV2Matrix (p : Load3DV2Record.t) (ev : EventInfo → SanEvent) (bitSize : Z)
    (m : MemOpInfo) : P unit :=
  let elementNum := MATRIX_FRACTAL_ROW_SIZE * BITS_EACH_BYTE / bitSize in
  let '(mLen, kLen) := if transposeMode p then (matrixKStep p, matrixMStep p)
                       else (matrixMStep p, matrixKStep p) in
  let mStep := u16 ((mLen + 15) / 16) in
  let kStep := u16 ((kLen + elementNum - 1) / elementNum) in
  let m := assign [Mem.blockSize MATRIX_FRACTAL_SIZE; Mem.blockNum mStep; Mem.blockStride 1;
                   Mem.repeatTimes kStep; Mem.repeatStride (dstStride p); Mem.memType (dstMemType p);
                   Mem.opType WRITE; Mem.addr (dst p + outputMPos p * MATRIX_FRACTAL_SIZE)] m in
  check_emit ev RecordType.LOAD_3D_V2 m;; skip.

Definition ParseRecordLoad3DV2 (record : KernelRecord) (p : Load3DV2Record.t) : P unit :=
  match GetDataBitSizeByType (dataType p) with
  | None => skip
  | Some bitSize =>
      if (filterWDilation p =? 0) || (filterHDilation p =? 0) then skip
      else if negb (CheckChannelSize (dataType p) (fMapC p)) then skip
      else
        event ← SetLocationInfo record (location p);
        let ev := event (QueryPipeType (srcMemType p) (dstMemType p)) in
        let m := assign (no_mask ++ [Mem.blockNum 1; Mem.blockStride 1; Mem.repeatTimes 1; Mem.repeatStride 1])
                   (raw_mem pe_raw) in
        m ← ParseRecordLoad3DV2FMap p ev bitSize m;
        ParseRecordLoad3DV2Matrix p ev bitSize m
  end.
End load_3d_v2.
End Load3DV2.

(** ** Other loads *)

Section loads.
Context `{ParseEnv}.

Definition ParseRecordLoadB2 (record : KernelRecord) (p : LoadB2Record.t) : P unit :=
  event ← SetLocationInfo record (LoadB2Record.location p);
  let fractalMatrixSize := match LoadB2Record.dataType p with DATA_B8 => 128 | _ => 64 end in
  let nominalSize := LoadB2Record.repeat p * fractalMatrixSize in
  let ev := event (QueryPipeType (LoadB2Record.srcMemType p) (LoadB2Record.dstMemType p)) in
  let m := assign ([Mem.memType (LoadB2Record.srcMemType p); Mem.opType READ] ++ no_mask ++
    [Mem.addr (LoadB2Record.src p); Mem.blockNum 1; Mem.blockSize (CeilByAlignSize 512 nominalSize);
     Mem.blockStride 1; Mem.repeatTimes 1; Mem.repeatStride 0]) (raw_mem pe_raw) in
  m ← check_emit ev (kr_recordType record) m;
  let m := assign [Mem.memType (LoadB2Record.dstMemType p); Mem.opType WRITE; Mem.addr (LoadB2Record.dst p)] m in
  check_emit ev (kr_recordType record) m;; skip.

Definition ParseRecordSet2D (record : KernelRecord) (p : Set2DRecord.t) : P unit :=
  event ← SetLocationInfo record (Set2DRecord.location p);
  let ev := event (if bool_decide (Set2DRecord.dstMemType p = MemType.L1) then PIPE_MTE2 else PIPE_MTE1) in
  let m := assign ([Mem.memType (Set2DRecord.dstMemType p); Mem.opType WRITE] ++ no_mask ++
    [Mem.addr (Set2DRecord.dst p); Mem.blockNum (Set2DRecord.dstBlockNum p);
     Mem.blockSize (Set2DRecord.dstBlockSize p); Mem.blockStride 1; Mem.repeatTimes (Set2DRecord.repeat p);
     Mem.repeatStride (Set2DRecord.dstBlockNum p + Set2DRecord.repeatGap p)]) (raw_mem pe_raw) in
  check_emit ev (kr_recordType record) m;; skip.

Definition ParseRecordLoadSmask (record : KernelRecord) (p : LoadSmaskRecord.t) : P unit :=
  event ← SetLocationInfo record (LoadSmaskRecord.location p);
  let ev := event (if bool_decide (LoadSmaskRecord.srcMemType p = MemType.GM) then PIPE_MTE2 else PIPE_MTE3) in
  let m := assign ([Mem.memType (LoadSmaskRecord.srcMemType p); Mem.opType READ] ++ no_mask ++
    [Mem.addr (LoadSmaskRecord.src p); Mem.blockNum 1; Mem.blockSize (LoadSmaskRecord.smaskSize p);
     Mem.blockStride 0; Mem.repeatTimes 1; Mem.repeatStride 0]) (raw_mem pe_raw) in
  check_emit ev (kr_recordType record) m;; skip.

Definition ParseRecordMovBt (record : KernelRecord) (p : MovBtRecord.t) : P unit :=
  let pipe := QueryPipeType (MovBtRecord.srcMemType p) (MovBtRecord.dstMemType p) in
  if bool_decide (pipe = PIPE_SIZE) then skip
  else if MovBtRecord.lenBurst p =? 0 then skip
  else
    event ← SetLocationInfo record (MovBtRecord.location p);
    let ev := event pipe in
    let m := assign ([Mem.memType (MovBtRecord.srcMemType p); Mem.opType READ] ++ no_mask ++
      [Mem.addr (MovBtRecord.src p); Mem.blockNum (MovBtRecord.lenBurst p * 2); Mem.blockSize 32;
       Mem.blockStride 1; Mem.repeatTimes (MovBtRecord.nBurst p)]) (raw_mem pe_raw) in
    let m := Mem.repeatStride (EventDef.blockNum m + MovBtRecord.srcGap p) m in
    check_emit ev (kr_recordType record) m;; skip.

Definition ParseRecordSetL12D (record : KernelRecord) (p : SetL12DRecord.t) : P unit :=
  event ← SetLocationInfo record (SetL12DRecord.location p);
  let ev := event PIPE_MTE2 in
  let m := assign ([Mem.memType MemType.L1; Mem.opType WRITE] ++ no_mask ++ [Mem.addr (SetL12DRecord.dst p)])
             (raw_mem pe_raw) in
  m ← check_align_size ev 32 m;
  let m := assign [Mem.blockSize 32; Mem.blockNum (SetL12DRecord.dstBlockNum p); Mem.blockStride 1;
                   Mem.repeatStride (SetL12DRecord.repeatGap p); Mem.repeatTimes (SetL12DRecord.repeat p)] m in
  emit_mem ev m.
End loads.

Module Winograd.
Section winograd.
Context `{ParseEnv}.

Definition fractalMatrixSize : Z := 512.
Definition outputSubMatrixNum : Z := 4.
Definition fractalMatrixNumOnce : Z := 9.

Import LoadAWinogradRecord.

Definition ParseRecordLoadAWinograd (record : KernelRecord) (p : LoadAWinogradRecord.t) : P unit :=
  let sizeFactor := GetDataSizeByType (dataType p) in
  let memSize := u64 (i32 (fmSizeW p * fmSizeH p * fmSizeCh p * sizeFactor)) in
  event ← SetLocationInfo record (location p);
  let ev := event (QueryPipeType (srcMemType p) (dstMemType p)) in
  let m := assign ([Mem.memType (srcMemType p); Mem.opType READ] ++ no_mask ++
    [Mem.addr (src p); Mem.blockNum 1; Mem.blockSize memSize; Mem.blockStride 0; Mem.repeatTimes 1;
     Mem.repeatStride 0]) (raw_mem pe_raw) in
  m ← check_emit ev (kr_recordType record) m;
  let memSize := u64 (i32 (extStepK p * extStepM p)) *u sizeFactor in
  let m := assign [Mem.memType (dstMemType p); Mem.opType WRITE; Mem.addr (dst p);
                   Mem.blockNum (memSize / fractalMatrixSize)] m in
  if (EventDef.blockNum m =? 0) || negb (memSize `mod` fractalMatrixSize =? 0) then skip
  else
    let m := assign [Mem.blockSize fractalMatrixSize; Mem.blockStride 1; Mem.repeatTimes outputSubMatrixNum;
                     Mem.repeatStride (innerDstGap p + EventDef.blockNum m)] m in
    check_emit ev (kr_recordType record) m;; skip.

Import LoadBWinogradRecord.

Definition ParseRecordLoadBWinograd (record : KernelRecord) (p : LoadBWinogradRecord.t) : P unit :=
  event ← SetLocationInfo record (location p);
  let ev := event (QueryPipeType (srcMemType p) (dstMemType p)) in
  let m := assign ([Mem.memType (srcMemType p); Mem.opType READ] ++ no_mask ++
    [Mem.addr (src p); Mem.blockNum fractalMatrixNumOnce; Mem.blockSize fractalMatrixSize; Mem.blockStride 1;
     Mem.repeatTimes (repeat p); Mem.repeatStride (srcRptStride p)]) (raw_mem pe_raw) in
  m ← check_emit ev (kr_recordType record) m;
  let m := assign [Mem.memType (dstMemType p); Mem.opType WRITE; Mem.addr (dst p);
                   Mem.blockNum outputSubMatrixNum; Mem.blockStride (innerDstStride p);
                   Mem.repeatStride (dstRptStride p)] m in
  check_emit ev (kr_recordType record) m;; skip.
End winograd.
End Winograd.

Module LoadImage.
Import LoadImageRecord.
Section load_image.
Context `{ParseEnv}.

Definition ParseRecordLoadImage (record : KernelRecord) (p : LoadImageRecord.t) : P unit :=
  event ← SetLocationInfo record (location p);
  let ev := event PIPE_MTE2 in
  let m := assign ([Mem.memType (dstMemType p); Mem.opType WRITE] ++ no_mask ++
    [Mem.addr (dst p);
     Mem.blockNum ((horSize p + rPadSize p + lPadSize p) * (verSize p + topPadSize p + botPadSize p));
     Mem.blockSize 32; Mem.blockStride 1; Mem.repeatTimes 1; Mem.repeatStride 0]) (raw_mem pe_raw) in
  check_emit ev (kr_recordType record) m;; skip.
End load_image.
End LoadImage.

(** ** Moves between local memories *)

Module MovL1Ub.
Import MovL1UBRecord.
Section mov_l1_ub.
Context `{ParseEnv}.

Definition AddMemEventForMovL1Ub (recordMemType : RecordType.RecordType) (record : KernelRecord)
    (p : MovL1UBRecord.t) : P unit :=
  let pipe := QueryPipeType (srcMemType p) (dstMemType p) in
  if bool_decide (pipe = PIPE_SIZE) then skip
  else
    event ← SetLocationInfo record (location p);
    let ev := event pipe in
    if lenBurst p =? 0 then skip
    else
      let m := assign [Mem.memType (srcMemType p); Mem.opType READ; Mem.addr (src p); Mem.blockNum (lenBurst p);
                       Mem.blockSize MOV_LOCAL_BLOCK_SIZE; Mem.blockStride 1; Mem.repeatTimes (nBurst p);
                       Mem.repeatStride (lenBurst p + srcGap p)] (raw_mem pe_raw) in
      m ← check_emit ev recordMemType m;
      let m := assign [Mem.memType (dstMemType p); Mem.opType WRITE; Mem.addr (dst p);
                       Mem.repeatStride (lenBurst p + dstGap p)] m in
      check_emit ev recordMemType m;; skip.

Definition ParseRecordMovL2Ub := AddMemEventForMovL1Ub RecordType.MOV_L1_TO_UB.
Definition ParseRecordMovUb2L1 := AddMemEventForMovL1Ub RecordType.MOV_UB_TO_L1.
Definition ParseRecordMovUb2Ub := AddMemEventForMovL1Ub RecordType.MOV_UB_TO_UB.
End mov_l1_ub.
End MovL1Ub.

Module Cbuf2Bt.
Import MovL1BtRecord.
Section cbuf2bt.
Context `{ParseEnv}.

Definition CheckMovCbuf2BtParam (p : MovL1BtRecord.t) : bool :=
  match dataType p with
  | DetailedDataType.FLOAT | DetailedDataType.S32 => (lenBurst p `mod` 2 =? 0) && (cvtEnable p =? 0)
  | _ => true
  end && (dstGap p `mod` 2 =? 0).

Definition ParseRecordMovCbuf2Bt (record : KernelRecord) (p : MovL1BtRecord.t) : P unit :=
  if negb (CheckMovCbuf2BtParam p) then skip
  else
    event ← SetLocationInfo record (location p);
    let ev := event (QueryPipeType MemType.L1 MemType.BT) in
    let m := assign [Mem.memType MemType.L1; Mem.opType READ; Mem.addr (src p); Mem.blockNum (lenBurst p);
                     Mem.blockSize MOV_LOCAL_BLOCK_SIZE; Mem.blockStride 1; Mem.repeatTimes (nBurst p);
                     Mem.repeatStride (lenBurst p + srcGap p)] (raw_mem pe_raw) in
    m ← check_emit ev (kr_recordType record) m;
    let scale := match dataType p with DetailedDataType.F16 | DetailedDataType.B16 => 2 | _ => 1 end in
    let m := assign [Mem.blockNum (lenBurst p * scale); Mem.repeatStride (lenBurst p * scale + dstGap p);
                     Mem.memType MemType.BT; Mem.opType WRITE; Mem.addr (dst p)] m in
    check_emit_size ev 64 m;; skip.
End cbuf2bt.
End Cbuf2Bt.

Module Cbuf2Fb.
Import MovL1FbRecord.
Section cbuf2fb.
Context `{ParseEnv}.

Definition CheckMovCbuf2FbParam (p : MovL1FbRecord.t) : bool :=
  if dstMemBlock p =? 0 then (lenBurst p `mod` 2 =? 0) && (dstStride p `mod` 2 =? 0) else dstMemBlock p <? 2.

Definition lenBurstUnit : Z := 64.
Definition srcStrideUnit : Z := 32.

Definition ParseRecordMovCbuf2Fb (record : KernelRecord) (p : MovL1FbRecord.t) : P unit :=
  if negb (CheckMovCbuf2FbParam p) then skip
  else
    event ← SetLocationInfo record (location p);
    let ev := event (QueryPipeType MemType.L1 MemType.FB) in
    let m := assign [Mem.memType MemType.L1; Mem.opType READ; Mem.blockNum 1; Mem.repeatTimes 1;
                     Mem.addr (src p); Mem.blockSize (lenBurst p * lenBurstUnit)] (raw_mem pe_raw) in
    m ← check_align ev (kr_recordType record) m;
    m ← for_up (nBurst p) (λ i m, emit_at ev (src p + i * srcStrideUnit * srcStride p) m) m;
    let m := assign [Mem.memType MemType.FB; Mem.opType WRITE; Mem.addr (dst p); Mem.blockNum (lenBurst p);
                     Mem.blockSize lenBurstUnit; Mem.blockStride 1; Mem.repeatTimes (nBurst p);
                     Mem.repeatStride (dstStride p)] m in
    check_emit_size ev (if dstMemBlock p =? 0 then 128 else 64) m;; skip.
End cbuf2fb.
End Cbuf2Fb.
