(* ===== verification/ParseCalc.v ===== *)
(** Parse functions of the vector and matrix instructions: the mask processing
    and the functions from [ParseVecdupRecord] to [ParseMmadA5Record] of
    [csrc/core/framework/record_parse.cpp], [ParseVbs32A5], and
    [record_parse_calc.cpp]. *)
From stdpp Require Import base numbers option gmap strings list.
From S2P Require Import Prelude.
From S2P Require Import RecordDefs.
From S2P Require Import EventDef.
From S2P Require Import KernelRecords.
From S2P Require Import ParseBase.
From S2P Require Import ParseSync.
From S2P Require Import ParseLoad.

Import FormatConverter.

(** ** Masks *)

Module Mask.
Section mask.
Context `{ParseEnv}.

Definition MaskCountProcessContinuous (ev : EventInfo → SanEvent) (m : MemOpInfo) : P MemOpInfo :=
  let m := assign [Mem.blockSize (u64 (mask0 (vectorMask m) * dataBits m * repeatTimes m) / BITS_EACH_BYTE);
                   Mem.blockNum 1; Mem.repeatTimes 1] m in
  emit_mem ev m;; mret m.

(** [vectorMask0] elements of every repeat; division by a zero element size is
    undefined. *)
Definition MaskCountProcessByRepeat (ev : EventInfo → SanEvent) (vectorMask0 : Z) (m : MemOpInfo) : P MemOpInfo :=
  if dataBits m =? 0 then undefined
  else
    let elemEachBlock := blockSize m * BITS_EACH_BYTE / dataBits m in
    if elemEachBlock =? 0 then mret m
    else
      let nBlock := vectorMask0 / elemEachBlock in
      m ← (if 0 <? nBlock then let m := Mem.blockNum nBlock m in emit_mem ev m;; mret m else mret m);
      let elemLastBlock := vectorMask0 - nBlock * elemEachBlock in
      if 0 <? elemLastBlock then
        let newAddr := addr m +u nBlock * blockStride m * blockSize m in
        let oldRepeat := repeatTimes m in
        let oldBlockSize := blockSize m in
        let newBlockSize := elemLastBlock * dataBits m / BITS_EACH_BYTE in
        let m := assign [Mem.repeatTimes 1; Mem.blockNum 1; Mem.blockSize newBlockSize] m in
        m ← for_up oldRepeat (λ nRepeat m, emit_at ev (newAddr + nRepeat * repeatStride m * oldBlockSize) m) m;
        mret (Mem.repeatTimes oldRepeat m)
      else mret m.

(** The instructions whose count mask applies to every repeat. *)
Definition MaskCountProcess (ev : EventInfo → SanEvent) (r : RecordType.RecordType) (m : MemOpInfo) : P MemOpInfo :=
  let count := mask0 (vectorMask m) in
  if (count =? 0) || (dataBits m =? 0) then mret m
  else
    match r, opType m with
    | RecordType.VCOPY_OP, _ => MaskCountProcessByRepeat ev count m
    | (RecordType.VREDUCEV2_BINARY | RecordType.VREDUCEV2_UNARY), WRITE => MaskCountProcessContinuous ev m
    | (RecordType.VREDUCEV2_BINARY | RecordType.VREDUCEV2_UNARY), _ => MaskCountProcessByRepeat ev count m
    | _, _ =>
        let elemEachBlock := blockSize m * BITS_EACH_BYTE / dataBits m in
        let elemEachRepeat := u64 (blockNum m * elemEachBlock) in
        if elemEachBlock =? 0 then mret m
        else if elemEachRepeat =? 0 then undefined
        else
          let nRepeat := count / elemEachRepeat in
          m ← (if 0 <? nRepeat then let m := Mem.repeatTimes nRepeat m in emit_mem ev m;; mret m else mret m);
          let elemLastRepeat := count - nRepeat * elemEachRepeat in
          let lastBlkNum := elemLastRepeat / elemEachBlock in
          let initAddr := addr m in
          m ← (if 0 <? lastBlkNum then
                 let m := assign [Mem.addr (initAddr + nRepeat * repeatStride m * blockSize m);
                                  Mem.blockNum lastBlkNum; Mem.repeatTimes 1] m in
                 emit_mem ev m;; mret m
               else mret m);
          let elemLastBlock := elemLastRepeat - lastBlkNum * elemEachBlock in
          if 0 <? elemLastBlock then
            let m := assign [Mem.addr (initAddr + nRepeat * repeatStride m * blockSize m +
                                       lastBlkNum * blockStride m * blockSize m);
                             Mem.blockNum 1; Mem.blockSize (elemLastBlock * dataBits m / BITS_EACH_BYTE);
                             Mem.repeatTimes 1] m in
            emit_mem ev m;; mret m
          else mret m
    end.

(** The number of elements up to the last one selected. *)
Definition ParseVectorMaskCount (v : VectorMask) : Z :=
  if (mask0 v =? 0) && (mask1 v =? 0) then 0
  else if mask1 v =? 0 then Z.log2 (mask0 v) + 1 else Z.log2 (mask1 v) + 1 + 64.

Definition MaskNormalProcess (ev : EventInfo → SanEvent) (m : MemOpInfo) : P MemOpInfo :=
  let v := vectorMask m in
  if (mask0 v =? UINT64_MAX) && (mask1 v =? UINT64_MAX) then emit_mem ev m;; mret m
  else if negb (blockNum m =? 8) || negb (blockSize m =? UB_ALIGN_SIZE) || (dataBits m <? 16)
  then emit_mem ev m;; mret m
  else MaskCountProcessByRepeat ev (ParseVectorMaskCount v) m.

Definition MaskModeProcess (ev : EventInfo → SanEvent) (bt : BlockType) (r : RecordType.RecordType)
    (m : MemOpInfo) : P MemOpInfo :=
  if (blockNum m =? 0) || (blockSize m =? 0) then mret m
  else if bool_decide (bt = AICUBE) then mret m
  else if maskMode m =? MASK_NORM then
    if repeatTimes m =? 0 then mret m else MaskNormalProcess ev m
  else MaskCountProcess ev r m.

(** Alignment check, then mask processing with the default record type. *)
Definition check_mask (ev : EventInfo → SanEvent) (record : KernelRecord) (r : RecordType.RecordType)
    (m : MemOpInfo) : P MemOpInfo :=
  m ← check_align ev (kr_recordType record) m; MaskModeProcess ev (kr_blockType record) r m.
End mask.
End Mask.

(** ** Vector instructions *)

Module Unary.
Section unary.
Context `{ParseEnv}.

Definition ParseVecdupRecord (record : KernelRecord) (p : VecDupRecord.t) : P unit :=
  event ← SetLocationInfo record (VecDupRecord.location p);
  let ev := event PIPE_V in
  let m := assign
    [Mem.memType MemType.UB; Mem.opType WRITE; Mem.vectorMask (VecDupRecord.vectorMask p);
     Mem.maskMode (VecDupRecord.maskMode p); Mem.instrName (VecDupRecord.instrName p);
     Mem.dataBits (VecDupRecord.dataBits p); Mem.addr (VecDupRecord.dst p); Mem.blockNum 8; Mem.blockSize 32;
     Mem.blockStride (VecDupRecord.dstBlockStride p); Mem.repeatTimes (VecDupRecord.repeat p);
     Mem.repeatStride (VecDupRecord.dstRepeatStride p)] (raw_mem pe_raw) in
  Mask.check_mask ev record (kr_recordType record) m;; skip.

Import UnaryOpRecord.

Definition ParseRecordUnaryOp (record : KernelRecord) (p : UnaryOpRecord.t) : P unit :=
  event ← SetLocationInfo record (location p);
  let ev := event PIPE_V in
  let m := assign
    [Mem.memType MemType.UB; Mem.opType READ; Mem.vectorMask (vectorMask p); Mem.maskMode (maskMode p);
     Mem.instrName (instrName p); Mem.dataBits (srcDataBits p); Mem.addr (src p); Mem.blockNum (srcBlockNum p);
     Mem.blockSize (srcBlockSize p); Mem.blockStride (srcBlockStride p); Mem.repeatTimes (repeat p);
     Mem.repeatStride (srcRepeatStride p)] (raw_mem pe_raw) in
  m ← Mask.check_mask ev record (kr_recordType record) m;
  let m := assign
    [Mem.opType WRITE; Mem.dataBits (dstDataBits p); Mem.addr (dst p); Mem.blockNum (dstBlockNum p);
     Mem.blockSize (dstBlockSize p); Mem.blockStride (dstBlockStride p);
     Mem.repeatStride (dstRepeatStride p)] m in
  Mask.check_mask ev record (kr_recordType record) m;; skip.
End unary.
End Unary.

Module Vms4v2.
Import Vms4v2RecordA5.
Section vms4v2.
Context `{ParseEnv}.

(** The lists with their number of elements, and whether the mask selects them. *)
Definition inputs (p : Vms4v2RecordA5.t) : list (bool * (Z * Z)) :=
  imap (λ i x, (Z.testbit (validMask p) (Z.of_nat i), x)) (zip (src p) (elementNum p)).

Definition certain_input_empty (p : Vms4v2RecordA5.t) : bool :=
  existsb (λ x, x.1 && (x.2.2 =? 0)) (inputs p).

Definition same_counts (p : Vms4v2RecordA5.t) : bool :=
  match elementNum p with [] => true | n :: rest => forallb (Z.eqb n) rest end.

Definition CheckRecordVms4v2A5 (p : Vms4v2RecordA5.t) : bool :=
  if isAllStored p then negb (certain_input_empty p)
  else if repeat p =? 0 then false
  else if repeat p =? 1 then negb (certain_input_empty p)
  else (validMask p =? 15) && same_counts p && negb (default 0 (head (elementNum p)) =? 0).

(** Reads of the selected lists; the number of elements is accumulated. *)
Definition ParseRecordVms4v2A5Repeat1 (record : KernelRecord) (p : Vms4v2RecordA5.t) (ev : EventInfo → SanEvent)
    (m : MemOpInfo) : P unit :=
  let m := assign [Mem.blockSize 8; Mem.blockStride 1; Mem.repeatTimes 1; Mem.repeatStride 0] m in
  mn ← (fix go (l : list (bool * (Z * Z))) (mn : MemOpInfo * Z) : P (MemOpInfo * Z) :=
          match l with
          | [] => mret mn
          | (false, _) :: l => go l mn
          | (true, (a, n)) :: l =>
              let m := assign [Mem.addr a; Mem.blockNum n] mn.1 in
              emit_mem ev m;;
              m ← check_align ev (kr_recordType record) m;
              go l (m, u32 (mn.2 + n))
          end) (inputs p) (m, 0);
  let m := assign [Mem.opType WRITE; Mem.addr (dst p); Mem.blockNum mn.2] mn.1 in
  emit_mem ev m;;
  check_align ev (kr_recordType record) m;; skip.

Definition ParseRecordVms4v2A5 (record : KernelRecord) (p : Vms4v2RecordA5.t) : P unit :=
  match src p, elementNum p with
  | [a0; _; _; _], [n0; _; _; _] =>
      if negb (CheckRecordVms4v2A5 p) then skip
      else
        event ← SetLocationInfo record (location p);
        let ev := event PIPE_V in
        let m := assign ([Mem.memType MemType.UB; Mem.opType READ] ++ no_mask) (raw_mem pe_raw) in
        if (repeat p =? 1) || isAllStored p then ParseRecordVms4v2A5Repeat1 record p ev m
        else
          let m := assign [Mem.addr a0; Mem.blockNum 1; Mem.blockSize (n0 * 32); Mem.blockStride 1;
                           Mem.repeatTimes (repeat p); Mem.repeatStride 1] m in
          emit_mem ev m;;
          m ← check_align ev (kr_recordType record) m;
          let m := assign [Mem.opType WRITE; Mem.addr (dst p)] m in
          emit_mem ev m;;
          check_align ev (kr_recordType record) m;; skip
  | _, _ => undefined
  end.
End vms4v2.
End Vms4v2.

Module Gather.
Section gather.
Context `{ParseEnv}.
Import VgatherRecord.

Definition ParseRecordVgather (record : KernelRecord) (p : VgatherRecord.t) : P unit :=
  event ← SetLocationInfo record (location p);
  let ev := event PIPE_V in
  let m := assign
    [Mem.memType MemType.UB; Mem.vectorMask (vectorMask p); Mem.maskMode (maskMode p);
     Mem.instrName (instrName p); Mem.opType READ; Mem.dataBits 32; Mem.addr (src p);
     Mem.blockNum (srcBlockNum p); Mem.blockSize (srcBlockSize p); Mem.blockStride 1; Mem.repeatTimes 1;
     Mem.repeatStride 1] (raw_mem pe_raw) in
  m ← check_emit_size ev 32 m;
  let m := assign
    [Mem.opType WRITE; Mem.dataBits (dstDataBits p); Mem.addr (dst p); Mem.blockNum (dstBlockNum p);
     Mem.blockSize (dstBlockSize p); Mem.blockStride (dstBlockStride p); Mem.repeatTimes (dstRepeat p);
     Mem.repeatStride (dstRepeatStride p)] m in
  check_emit_size ev (dstAlignSize p) m;; skip.

Definition ParseRecordElement (record : KernelRecord) (p : ElementRecord.t) : P unit :=
  event ← SetLocationInfo record (ElementRecord.location p);
  let ev := event PIPE_V in
  let m := assign
    [Mem.memType MemType.UB; Mem.vectorMask (ElementRecord.vectorMask p);
     Mem.maskMode (ElementRecord.maskMode p); Mem.instrName (ElementRecord.instrName p);
     Mem.opType (ElementRecord.accessType p); Mem.dataBits (ElementRecord.dataBits p);
     Mem.addr (ElementRecord.addr p); Mem.blockNum (ElementRecord.blockNum p);
     Mem.blockSize (ElementRecord.blockSize p); Mem.blockStride 1; Mem.repeatTimes 1; Mem.repeatStride 1]
    (raw_mem pe_raw) in
  check_emit_size ev (ElementRecord.alignSize p) m;; skip.
End gather.
End Gather.

Module Binary.
Import BinaryOpRecord.
Section binary.
Context `{ParseEnv}.

Definition src0_info (p : BinaryOpRecord.t) : list (MemOpInfo → MemOpInfo) :=
  [Mem.memType MemType.UB; Mem.opType READ; Mem.vectorMask (vectorMask p); Mem.maskMode (maskMode p);
   Mem.instrName (instrName p); Mem.dataBits (src0DataBits p); Mem.addr (src0 p);
   Mem.blockNum (src0BlockNum p); Mem.blockSize (src0BlockSize p); Mem.blockStride (src0BlockStride p);
   Mem.repeatTimes (repeat p); Mem.repeatStride (src0RepeatStride p)].
Definition src1_info (p : BinaryOpRecord.t) : list (MemOpInfo → MemOpInfo) :=
  [Mem.dataBits (src1DataBits p); Mem.addr (src1 p); Mem.blockNum (src1BlockNum p);
   Mem.blockSize (src1BlockSize p); Mem.blockStride (src1BlockStride p);
   Mem.repeatStride (src1RepeatStride p)].
Definition dst_info (op : AccessType) (p : BinaryOpRecord.t) : list (MemOpInfo → MemOpInfo) :=
  [Mem.opType op; Mem.dataBits (dstDataBits p); Mem.addr (dst p); Mem.blockNum (dstBlockNum p);
   Mem.blockSize (dstBlockSize p); Mem.blockStride (dstBlockStride p); Mem.repeatStride (dstRepeatStride p)].

Definition ParseRecordBinaryOp (record : KernelRecord) (p : BinaryOpRecord.t) : P unit :=
  event ← SetLocationInfo record (location p);
  let ev := event PIPE_V in
  m ← Mask.check_mask ev record RecordType.LOAD (assign (src0_info p) (raw_mem pe_raw));
  m ← Mask.check_mask ev record RecordType.LOAD (assign (src1_info p) m);
  let op := if RecordType.eqb (kr_recordType record) RecordType.TERNARY_OP then ACCESS_MEMCPY_BLOCKS else WRITE in
  Mask.check_mask ev record RecordType.LOAD (assign (dst_info op p) m);; skip.

Definition ParseRecordVsel (record : KernelRecord) (p : BinaryOpRecord.t) : P unit :=
  event ← SetLocationInfo record (location p);
  let ev := event PIPE_V in
  m ← Mask.check_mask ev record RecordType.LOAD (assign (src0_info p) (raw_mem pe_raw));
  m ← check_align ev (kr_recordType record) (assign (src1_info p) m);
  m ← (if (EventDef.blockNum m =? 1) || (EventDef.repeatStride m =? 1) then emit_mem ev m;; mret m
       else Mask.MaskModeProcess ev (kr_blockType record) RecordType.LOAD m);
  Mask.check_mask ev record RecordType.LOAD (assign (dst_info WRITE p) m);; skip.
End binary.
End Binary.

Module Reduce.
Import ReduceOpRecord.
Section reduce.
Context `{ParseEnv}.

(** The ratio of source to destination elements; [None] for invalid records. *)
Definition reduce_ratio (p : ReduceOpRecord.t) : option Z :=
  if maskMode p =? MASK_COUNT then
    if (dstBlockSize p =? 0) || (dstBlockNum p =? 0) || (dstDataBitsFactor p =? 0) then None
    else
      let ratio := srcBlockNum p * srcBlockSize p / dstDataBitsFactor p / dstBlockNum p / dstBlockSize p in
      if ratio =? 0 then None else Some ratio
  else Some 1.

Definition ParseRecordReduceOp (record : KernelRecord) (p : ReduceOpRecord.t) : P unit :=
  event ← SetLocationInfo record (location p);
  match reduce_ratio p with
  | None => skip
  | Some reduceRatio =>
      let ev := event PIPE_V in
      let m := assign
        [Mem.memType MemType.UB; Mem.opType READ; Mem.vectorMask (vectorMask p); Mem.maskMode (maskMode p);
         Mem.instrName (instrName p); Mem.dataBits (srcDataBits p); Mem.addr (src p);
         Mem.blockNum (srcBlockNum p); Mem.blockSize (srcBlockSize p); Mem.blockStride (srcBlockStride p);
         Mem.repeatTimes (repeat p); Mem.repeatStride (srcRepeatStride p)] (raw_mem pe_raw) in
      m ← Mask.check_mask ev record RecordType.LOAD m;
      let v := EventDef.vectorMask m in
      let m := Mem.opType WRITE m in
      let m := if EventDef.maskMode m =? MASK_COUNT
               then Mem.vectorMask {| mask0 := u64 (mask0 v + reduceRatio - 1) / reduceRatio; mask1 := mask1 v |} m
               else m in
      let m := assign
        [Mem.dataBits (dstDataBits p); Mem.addr (dst p); Mem.blockNum (dstBlockNum p);
         Mem.blockSize (dstRepeatLength p); Mem.blockStride 1; Mem.repeatTimes (repeat p);
         Mem.repeatStride (dstRepeatStride p)] m in
      m ← check_align_size ev (dstAlignSize p) m;
      Mask.MaskModeProcess ev (kr_blockType record) RecordType.LOAD m;; skip
  end.
End reduce.
End Reduce.

Module ReduceV2.
Import ReduceV2Record.
Section reduce_v2.
Context `{ParseEnv}.

(** [__builtin_popcountl] *)
Fixpoint popcount_pos (x : positive) : Z :=
  match x with xI x => popcount_pos x + 1 | xO x => popcount_pos x | xH => 1 end.
Definition popcount (x : Z) : Z := match x with Zpos x => popcount_pos x | _ => 0 end.

(** The ones among the lowest [readCount] bits. *)
Definition CountElemByMask (mask readCount : Z) : Z := popcount (Z.land mask (2 ^ readCount - 1)).

Definition CountElemByPattern (pattern : Z * Z) (readCount : Z) : Z :=
  u64 (readCount / 64 * pattern.2 + CountElemByMask pattern.1 (readCount `mod` 64)).

Definition CountElemByCompareMask (mask : CompareMask.t) (dataBytes readCount : Z) : Z :=
  let mask0Bits := CountElemByMask (CompareMask.mask0 mask) 64 in
  let mask1Bits := CountElemByMask (CompareMask.mask1 mask) 64 in
  let loop := readCount / 64 in
  let remain := readCount `mod` 64 in
  if dataBytes =? 2 then
    let mask1Loop := loop / 2 in
    let mask0Loop := loop - mask1Loop in
    let remainCount := CountElemByMask (if mask0Loop =? mask1Loop then CompareMask.mask0 mask
                                        else CompareMask.mask1 mask) remain in
    u64 (mask0Loop * mask0Bits + mask1Loop * mask1Bits + remainCount)
  else u64 (loop * mask0Bits + CountElemByMask (CompareMask.mask0 mask) remain).

Definition maskMap : list (Z * Z) :=
  [(0x0, 0); (0x5555555555555555, 32); (0xAAAAAAAAAAAAAAAA, 32); (0x1111111111111111, 16);
   (0x2222222222222222, 16); (0x4444444444444444, 16); (0x8888888888888888, 16); (0xFFFFFFFFFFFFFFFF, 64)].

(** [None]: a data size of zero, or a pattern outside the table. *)
Definition ParseReduceV2WriteElemCount (p : ReduceV2Record.t) : option Z :=
  elemReadEachRepeat ← (if maskMode p =? MASK_NORM
                        then if dataBytes p =? 0 then None else Some (256 / dataBytes p)
                        else Some (mask0 (vectorMask p)));
  elemWriteEachRepeat ← (if patternMode p =? 0
                         then Some (CountElemByCompareMask (compareMask p) (dataBytes p) elemReadEachRepeat)
                         else pattern ← maskMap !! Z.to_nat (patternMode p);
                              Some (CountElemByPattern pattern elemReadEachRepeat));
  Some (u64 (elemWriteEachRepeat * repeat p)).

Definition ParseRecordReduceV2 (record : KernelRecord) (p : ReduceV2Record.t) : P unit :=
  event ← SetLocationInfo record (location p);
  let ev := event PIPE_V in
  let m := assign
    [Mem.memType MemType.UB; Mem.vectorMask (vectorMask p); Mem.maskMode (maskMode p);
     Mem.instrName (instrName p); Mem.dataBits (dataBytes p * BITS_EACH_BYTE); Mem.opType READ;
     Mem.addr (src0 p); Mem.blockNum 8; Mem.blockSize 32; Mem.blockStride (src0BlockStride p);
     Mem.repeatTimes (repeat p); Mem.repeatStride (src0RepeatStride p)] (raw_mem pe_raw) in
  m ← check_align_size ev UB_ALIGN_SIZE m;
  m ← (if maskMode p =? MASK_NORM then emit_mem ev m;; mret m
       else Mask.MaskCountProcessByRepeat ev (mask0 (EventDef.vectorMask m)) m);
  m ← (if patternMode p =? 0 then
         if dataBytes p =? 0 then undefined
         else
           let m := assign [Mem.opType READ; Mem.addr (src1 p);
                            Mem.blockNum (256 / dataBytes p / BITS_EACH_BYTE); Mem.blockSize 1; Mem.blockStride 1;
                            Mem.repeatTimes (repeat p); Mem.repeatStride (src1RepeatStride p * UB_ALIGN_SIZE)] m in
           check_emit_size ev UB_ALIGN_SIZE m
       else mret m);
  match ParseReduceV2WriteElemCount p with
  | None => undefined
  | Some n =>
      let m := assign [Mem.opType WRITE; Mem.addr (dst p); Mem.blockNum 1; Mem.blockSize (n * dataBytes p);
                       Mem.blockStride 1; Mem.repeatTimes 1; Mem.repeatStride 1] m in
      check_emit_size ev UB_ALIGN_SIZE m;; skip
  end.
End reduce_v2.
End ReduceV2.

(** ** Matrix multiplication *)

Module MatMul.
Section matmul.
Context `{ParseEnv}.

(** The accumulator is read as well when it is neither initialised nor taken
    from elsewhere. *)
Definition acc_op (initVal source : bool) : AccessType :=
  if negb initVal && negb source then ACCESS_MEMCPY_BLOCKS else WRITE.

Import MarixMulOpRecord.

Definition ParseMatrixMulOpRecord (record : KernelRecord) (p : MarixMulOpRecord.t) : P unit :=
  event ← SetLocationInfo record (location p);
  let ev := event PIPE_M in
  let m := assign
    ([Mem.instrClass CUBE_MATMUL; Mem.matrixM (MarixMulOpRecord.m p); Mem.matrixN (n p); Mem.memType MemType.L0A;
      Mem.opType READ] ++ no_mask ++
     [Mem.addr (src0 p); Mem.blockNum (src0BlockNum p); Mem.blockSize (src0BlockSize p); Mem.blockStride 1;
      Mem.repeatTimes (src0Repeat p); Mem.repeatStride (src0RepeatStride p)]) (raw_mem pe_raw) in
  m ← check_emit_size ev (src0AlignSize p) m;
  let m := assign [Mem.memType MemType.L0B; Mem.addr (src1 p); Mem.blockNum (src1BlockNum p);
                   Mem.blockSize (src1BlockSize p); Mem.repeatTimes 1; Mem.repeatStride 0] m in
  m ← check_emit_size ev (src1AlignSize p) m;
  let m := assign [Mem.opType (acc_op (cmatrixInitVal p) (cmatrixSource p)); Mem.memType MemType.L0C;
                   Mem.addr (dst p); Mem.blockNum (dstBlockNum p); Mem.blockSize (dstBlockSize p)] m in
  check_emit_size ev (dstAlignSize p) m;;
  if enUnitFlag p then CreateUnitFlagSyncEvent record (location p) true else skip.

Import MmadA5Record.

Definition ParseMmadA5Record (record : KernelRecord) (p : MmadA5Record.t) : P unit :=
  event ← SetLocationInfo record (location p);
  let ev := event PIPE_M in
  let m := assign
    (no_mask ++
     [Mem.blockStride 1; Mem.repeatTimes 1; Mem.repeatStride 0; Mem.instrClass CUBE_MATMUL;
      Mem.matrixM (MmadA5Record.m p); Mem.matrixN (n p); Mem.memType MemType.L0A; Mem.opType READ;
      Mem.addr (src0 p); Mem.blockNum (src0BlockNum p); Mem.blockSize 512]) (raw_mem pe_raw) in
  m ← check_emit_size ev (src0AlignSize p) m;
  let m := assign [Mem.memType MemType.L0B; Mem.addr (src1 p); Mem.blockNum (src1BlockNum p)] m in
  m ← check_emit_size ev (src1AlignSize p) m;
  let m := assign [Mem.opType (acc_op (cmatrixInitVal p) (cmatrixSource p)); Mem.memType MemType.L0C;
                   Mem.addr (dst p); Mem.blockNum (dstBlockNum p); Mem.blockSize 1024] m in
  check_emit_size ev 1024 m;;
  if enUnitFlag p then CreateUnitFlagSyncEvent record (location p) true else skip.
End matmul.
End MatMul.

(** ** Transposition, sorting, region proposals *)

Module Scatter.
Import ScatterVnchwconvRecord.
Section scatter.
Context `{ParseEnv}.

Definition ParseUbAddrFromVaRegister (va : VaRegister.t) (elemIdx : Z) : Z :=
  let reg := if 3 <? elemIdx then VaRegister.h64 va else VaRegister.l64 va in
  let maskShift := if 3 <? elemIdx then (elemIdx - 4) * 16 else elemIdx * 16 in
  Z.shiftl (Z.land (Z.shiftr reg maskShift) 0xFFFF) 5.

Definition ParseVaRegisterEvents (va : VaRegister.t) (highHalf : bool) (ev : EventInfo → SanEvent) (m : MemOpInfo)
    : P MemOpInfo :=
  for_up 8 (λ elemIdx m,
    emit_at ev (ParseUbAddrFromVaRegister va elemIdx + (if highHalf then 16 else 0)) m) m.

Definition ParseRecordScatterVnchwconv (record : KernelRecord) (p : ScatterVnchwconvRecord.t) : P unit :=
  event ← SetLocationInfo record (location p);
  let ev := event PIPE_V in
  let b8 := bool_decide (dataType p = DATA_B8) in
  let m := assign
    ([Mem.memType MemType.UB; Mem.opType READ] ++ no_mask ++
     [Mem.blockStride 1; Mem.blockNum 1; Mem.blockSize (if b8 then 16 else 32); Mem.repeatTimes (repeat p);
      Mem.repeatStride (if b8 then srcStride p * 2 else srcStride p)]) (raw_mem pe_raw) in
  m ← ParseVaRegisterEvents (src0 p) (b8 && srcHighHalf p) ev m;
  m ← ParseVaRegisterEvents (src1 p) (b8 && srcHighHalf p) ev m;
  let m := assign [Mem.memType MemType.UB; Mem.opType WRITE;
                   Mem.repeatStride (if b8 then dstStride p * 2 else dstStride p)] m in
  m ← ParseVaRegisterEvents (dst0 p) (b8 && dstHighHalf p) ev m;
  ParseVaRegisterEvents (dst1 p) (b8 && dstHighHalf p) ev m;; skip.
End scatter.
End Scatter.

Section others.
Context `{ParseEnv}.

Definition ParseVbs32A5 (record : KernelRecord) (p : Vbs32Record.t) : P unit :=
  if Vbs32Record.repeat p =? 0 then skip
  else
    event ← SetLocationInfo record (Vbs32Record.location p);
    let ev := event PIPE_V in
    let m := assign
      ([Mem.memType MemType.UB; Mem.opType READ] ++ no_mask ++
       [Mem.repeatTimes (Vbs32Record.repeat p); Mem.repeatStride 1; Mem.blockNum 1; Mem.blockStride 0;
        Mem.addr (Vbs32Record.src0 p); Mem.blockSize (GetDataSizeByType (Vbs32Record.dataType p) * 32)])
      (raw_mem pe_raw) in
    m ← check_emit ev (kr_recordType record) m;
    m ← check_emit ev (kr_recordType record) (assign [Mem.addr (Vbs32Record.src1 p); Mem.blockSize 128] m);
    check_emit ev (kr_recordType record)
      (assign [Mem.opType WRITE; Mem.addr (Vbs32Record.dst p); Mem.blockSize 256] m);; skip.

(** The second check is on the address without the offset of the region; it
    comes after the event is appended. *)
Definition ParseVRegPropCoorOPRecord (record : KernelRecord) (p : VecRegPropCoordOpRecord.t) : P unit :=
  match VecRegPropCoordOpRecord.dataType p with
  | DATA_B16 | DATA_B32 =>
      if 5 <? VecRegPropCoordOpRecord.regionRange p then skip
      else
        let elementSize := GetDataSizeByType (VecRegPropCoordOpRecord.dataType p) in
        let isExtract := VecRegPropCoordOpRecord.isExtract p in
        event ← SetLocationInfo record (VecRegPropCoordOpRecord.location p);
        let ev := event PIPE_V in
        let m := assign
          ([Mem.memType MemType.UB; Mem.opType (if isExtract then WRITE else READ)] ++ no_mask ++
           [Mem.addr (VecRegPropCoordOpRecord.src p); Mem.blockNum 1; Mem.blockSize (elementSize * 16);
            Mem.blockStride 0; Mem.repeatTimes (VecRegPropCoordOpRecord.repeat p); Mem.repeatStride 1])
          (raw_mem pe_raw) in
        emit_mem ev m;;
        m ← check_align ev (kr_recordType record) m;
        let m := assign
          [Mem.opType (if isExtract then READ else WRITE); Mem.blockNum 16; Mem.blockSize elementSize;
           Mem.blockStride 8; Mem.repeatStride (16 * 8);
           Mem.addr (VecRegPropCoordOpRecord.dst p + elementSize * VecRegPropCoordOpRecord.regionRange p)] m in
        emit_mem ev m;;
        check_align ev (kr_recordType record) (Mem.addr (VecRegPropCoordOpRecord.dst p) m);; skip
  | _ => skip
  end.
End others.
