(* ===== verification/ParseMstx.v ===== *)
(** Parse functions of the mstx records ([csrc/core/framework/record_parse.cpp]
    from [AsignRecordHcclRead] to [ParseRecordMstxStub]): collective
    communication, cross-core and cross-device synchronisation, and operations
    described by the caller. *)
From stdpp Require Import base numbers option gmap strings list.
From S2P Require Import Prelude.
From S2P Require Import RecordDefs.
From S2P Require Import EventDef.
From S2P Require Import KernelRecords.
From S2P Require Import ParseBase.
From S2P Require Import ParseSync.
From S2P Require Import ParseMove.
From S2P Require Import ParseLoad.
From S2P Require Import ParseCalc.

(** ** Collective communication *)

Module Hccl.
Import MstxHcclRecord.
Section hccl.
Context `{ParseEnv}.

Definition AsignRecordHcclRead (p : MstxHcclRecord.t) : list (MemOpInfo → MemOpInfo) :=
  [Mem.blockNum 1; Mem.blockSize (srcCount p * srcDataTypeSize p); Mem.blockStride 0; Mem.repeatTimes (repeat p);
   Mem.repeatStride (srcRepeatStride p); Mem.opType READ].
Definition AsignRecordHcclWrite (p : MstxHcclRecord.t) : list (MemOpInfo → MemOpInfo) :=
  [Mem.blockNum 1; Mem.blockSize (dstCount p * dstDataTypeSize p); Mem.blockStride 0; Mem.repeatTimes (repeat p);
   Mem.repeatStride (dstRepeatStride p); Mem.opType WRITE].

Definition HCCL_MAX_RANK_NUM : Z := 32.

Definition rank_num (p : MstxHcclRecord.t) : Z :=
  if (rankDim p <? 0) || (HCCL_MAX_RANK_NUM <? rankDim p) then HCCL_MAX_RANK_NUM else rankDim p.

Definition read_at (p : MstxHcclRecord.t) (ev : EventInfo → SanEvent) (a : Z) (m : MemOpInfo) : P MemOpInfo :=
  let m := assign (Mem.addr a :: AsignRecordHcclRead p) m in emit_mem ev m;; mret m.
Definition write_at (p : MstxHcclRecord.t) (ev : EventInfo → SanEvent) (a : Z) (m : MemOpInfo) : P MemOpInfo :=
  let m := assign (Mem.addr a :: AsignRecordHcclWrite p) m in emit_mem ev m;; mret m.
Definition read_ranks (p : MstxHcclRecord.t) (ev : EventInfo → SanEvent) (m : MemOpInfo) : P MemOpInfo :=
  for_up (rank_num p) (λ i m, read_at p ev (src p + i * srcStride p * srcDataTypeSize p) m) m.
Definition write_ranks (p : MstxHcclRecord.t) (ev : EventInfo → SanEvent) (m : MemOpInfo) : P MemOpInfo :=
  for_up (rank_num p) (λ i m, write_at p ev (dst p + i * dstStride p * dstDataTypeSize p) m) m.

Definition ParseRecordMstxHCCL (p : MstxHcclRecord.t) (ev : EventInfo → SanEvent) : P unit :=
  let m := Mem.memType MemType.GM (raw_mem pe_raw) in
  match HcclFlagId_of (flagId p) with
  | Some ALLREDUCE => m ← read_at p ev (src p) m; write_at p ev (dst p) m;; skip
  | Some ALLGATHER => m ← read_at p ev (src p) m; write_ranks p ev m;; skip
  | Some REDUCESCATTER => m ← read_ranks p ev m; write_at p ev (dst p) m;; skip
  | Some ALLTOALL => m ← read_ranks p ev m; write_ranks p ev m;; skip
  | None => skip
  end.

(** [MSTX_HCCLV] *)
Definition parse_hcclv (p : MstxHcclCoreRecord.t) (ev : EventInfo → SanEvent) : P unit :=
  let m := assign [Mem.memType MemType.GM; Mem.repeatTimes (MstxHcclCoreRecord.repeat p); Mem.blockNum 1;
                   Mem.blockStride 0; Mem.repeatStride 1; Mem.addr (MstxHcclCoreRecord.src p);
                   Mem.blockSize (MstxHcclCoreRecord.srclenBurst p); Mem.opType READ] (raw_mem pe_raw) in
  emit_mem ev m;;
  emit_mem ev (assign [Mem.addr (MstxHcclCoreRecord.dst p); Mem.blockSize (MstxHcclCoreRecord.dstlenBurst p);
                       Mem.opType WRITE] m).
End hccl.
End Hccl.

(** ** Synchronisation *)

Section mstx_sync.
Context `{ParseEnv}.

Definition barrier_all (b : bool) (record : KernelRecord) (location : Location) : P unit :=
  if b then CreatePipeAllSyncEvent record location else skip.

(** The optional barrier of all pipes, then one event. *)
Definition sync_event (b : bool) (record : KernelRecord) (location : Location) (pipe : PipeType) (i : EventInfo)
    : P unit :=
  barrier_all b record location;;
  event ← SetLocationInfo record location;
  emit (event pipe i).

Definition ParseMstxCrossCoreBarrier (record : KernelRecord) (l : Location) (i : MstxCrossCoreBarrier) : P unit :=
  sync_event (core_pipeBarrierAll i) record l PIPE_S (CoreBarrierInfo i).

Definition ParseMstxCrossCoreSetFlag (record : KernelRecord) (l : Location) (i : MstxCrossCoreSetFlag.t) : P unit :=
  sync_event (MstxCrossCoreSetFlag.pipeBarrierAll i) record l PIPE_S
    (SoftInfo (soft_info IB_SET (MstxCrossCoreSetFlag.eventId i) (MstxCrossCoreSetFlag.peerCoreId i) true)).

Definition ParseMstxCrossCoreWaitFlag (record : KernelRecord) (l : Location) (i : MstxCrossCoreWaitFlag.t) : P unit :=
  sync_event (MstxCrossCoreWaitFlag.pipeBarrierAll i) record l PIPE_S
    (SoftInfo (soft_info IB_WAIT (MstxCrossCoreWaitFlag.eventId i) (MstxCrossCoreWaitFlag.peerCoreId i) true)).

Definition ParseMstxSignalSet (record : KernelRecord) (l : Location) (i : MstxSignalSet) : P unit :=
  sync_event false record l PIPE_S_CAL (SignalSetInfo i).

Definition ParseMstxSignalWait (record : KernelRecord) (l : Location) (i : MstxSignalWait) : P unit :=
  sync_event false record l PIPE_S (SignalWaitInfo i).

Definition ParseMstxCrossNpuBarrier (record : KernelRecord) (l : Location) (i : MstxCrossNpuBarrier) : P unit :=
  sync_event (npu_pipeBarrierAll i) record l PIPE_S (NpuBarrierInfo i).

Definition cross_info (opType : SyncType) (i : MstxCrossRecord.t) : MstxCrossInfo :=
  {| mstx_addr := MstxCrossRecord.addr i; mstx_flagId := MstxCrossRecord.flagId i;
     mstx_pipe := MstxCrossRecord.pipe i; mstx_isMore := MstxCrossRecord.isMore i;
     mstx_isMerge := MstxCrossRecord.isMerge i; mstx_opType := opType |}.
End mstx_sync.

(** ** Described operations *)

Module MstxVec.
Section mstx_vec.
Context `{ParseEnv}.

(** One operand of a vector operation. *)
Definition operand (op : AccessType) (t : MstxTensorDesc.t) (blockNum blockStride repeatTimes repeatStride : Z)
    : list (MemOpInfo → MemOpInfo) :=
  [Mem.opType op; Mem.dataBits (MstxTensorDesc.dataBits t); Mem.addr (MstxTensorDesc.addr t);
   Mem.blockNum blockNum; Mem.blockSize 32; Mem.blockStride blockStride; Mem.repeatTimes repeatTimes;
   Mem.repeatStride repeatStride].

Definition wrapper_info (w : MstxVecWrapper.t) : list (MemOpInfo → MemOpInfo) :=
  [Mem.memType MemType.UB; Mem.vectorMask (MstxVecWrapper.mask w); Mem.maskMode (MstxVecWrapper.maskMode w)].

Import MstxVecUnaryDesc.

Definition ParseRecordMstxVecUnary (record : KernelRecord) (l : Location) (i : MstxVecUnaryDesc.t) : P unit :=
  event ← SetLocationInfo record l;
  let ev := event PIPE_V in
  let run := Mask.MaskModeProcess ev (kr_blockType record) RecordType.UNARY_OP in
  m ← run (assign (wrapper_info (wrapper i) ++
                   operand READ (src i) (blockNum i) (srcBlockStride i) (repeatTimes i) (srcRepeatStride i))
             (raw_mem pe_raw));
  run (assign (operand WRITE (dst i) (blockNum i) (dstBlockStride i) (repeatTimes i) (dstRepeatStride i)) m);;
  skip.

Import MstxVecBinaryDesc.

Definition ParseRecordMstxVecBinary (record : KernelRecord) (l : Location) (i : MstxVecBinaryDesc.t) : P unit :=
  event ← SetLocationInfo record l;
  let ev := event PIPE_V in
  let run := Mask.MaskModeProcess ev (kr_blockType record) RecordType.BINARY_OP in
  m ← run (assign (wrapper_info (wrapper i) ++
                   operand READ (src0 i) (blockNum i) (src0BlockStride i) (repeatTimes i) (src0RepeatStride i))
             (raw_mem pe_raw));
  m ← run (assign (operand READ (src1 i) (blockNum i) (src1BlockStride i) (repeatTimes i) (src1RepeatStride i)) m);
  run (assign (operand WRITE (dst i) (blockNum i) (dstBlockStride i) (repeatTimes i) (dstRepeatStride i)) m);;
  skip.
End mstx_vec.
End MstxVec.

Section mstx_copy.
Context `{ParseEnv}.

Definition equivalence (record : KernelRecord) (r : RecordType.RecordType) (p : Payload) : KernelRecord :=
  mkKernelRecord r (kr_blockType record) (kr_serialNo record) p.

(** The record of the equivalent instruction: its fields are 16 bits wide. *)
Definition copy_record (l : Location) (i : MstxDataCopyDesc.t) : DmaMovRecord.t :=
  {| DmaMovRecord.dst := MstxTensorDesc.addr (MstxDataCopyDesc.dst i);
     DmaMovRecord.src := MstxTensorDesc.addr (MstxDataCopyDesc.src i); DmaMovRecord.location := l;
     DmaMovRecord.nBurst := u16 (MstxDataCopyDesc.nBurst i);
     DmaMovRecord.lenBurst := u16 (MstxDataCopyDesc.lenBurst i);
     DmaMovRecord.srcStride := u16 (MstxDataCopyDesc.srcGap i);
     DmaMovRecord.dstStride := u16 (MstxDataCopyDesc.dstGap i);
     DmaMovRecord.dstMemType := AddrSpaceToMemType (MstxTensorDesc.space (MstxDataCopyDesc.dst i));
     DmaMovRecord.srcMemType := AddrSpaceToMemType (MstxTensorDesc.space (MstxDataCopyDesc.src i));
     DmaMovRecord.padMode := PAD_NONE; DmaMovRecord.byteMode := BM_DISABLE |}.

Definition ParseRecordMstxDataCopy (record : KernelRecord) (l : Location) (i : MstxDataCopyDesc.t) : P unit :=
  DmaMov.ParseRecordDmaMovImpl (equivalence record RecordType.DMA_MOV (dmaMovRecord (copy_record l i)))
    (copy_record l i) false.

Definition align_record (l : Location) (dst src : MstxTensorDesc.t)
    (lenBurst nBurst srcGap dstGap leftPad rightPad : Z) : MovAlignRecord.t :=
  {| MovAlignRecord.dst := MstxTensorDesc.addr dst; MovAlignRecord.src := MstxTensorDesc.addr src;
     MovAlignRecord.location := l; MovAlignRecord.srcGap := srcGap; MovAlignRecord.dstGap := dstGap;
     MovAlignRecord.lenBurst := lenBurst; MovAlignRecord.nBurst := u16 nBurst;
     MovAlignRecord.dstMemType := AddrSpaceToMemType (MstxTensorDesc.space dst);
     MovAlignRecord.srcMemType := AddrSpaceToMemType (MstxTensorDesc.space src);
     MovAlignRecord.dataType :=
       default (raw_dataType pe_raw) (FormatConverter.GetDataTypeByDataBits (MstxTensorDesc.dataBits dst));
     MovAlignRecord.leftPaddingNum := u8 leftPad; MovAlignRecord.rightPaddingNum := u8 rightPad |}.

Definition ParseRecordMstxDataCopyPad (record : KernelRecord) (l : Location) (i : MstxDataCopyPadDesc.t) : P unit :=
  let p := align_record l (MstxDataCopyPadDesc.dst i) (MstxDataCopyPadDesc.src i) (MstxDataCopyPadDesc.lenBurst i)
             (MstxDataCopyPadDesc.nBurst i) (MstxDataCopyPadDesc.srcGap i) (MstxDataCopyPadDesc.dstGap i)
             (MstxDataCopyPadDesc.leftPad i) (MstxDataCopyPadDesc.rightPad i) in
  MovAlign.ParseRecordMovAlignImpl (equivalence record RecordType.MOV_ALIGN (movAlignRecord p)) p false false.

Definition ParseRecordMstxDataCopyPadV2 (record : KernelRecord) (l : Location) (i : MstxDataCopyPadV2Desc.t)
    : P unit :=
  let p := align_record l (MstxDataCopyPadV2Desc.dst i) (MstxDataCopyPadV2Desc.src i)
             (MstxDataCopyPadV2Desc.lenBurst i) (MstxDataCopyPadV2Desc.nBurst i) (MstxDataCopyPadV2Desc.srcGap i)
             (MstxDataCopyPadV2Desc.dstGap i) (MstxDataCopyPadV2Desc.leftPad i)
             (MstxDataCopyPadV2Desc.rightPad i) in
  MovAlign.ParseRecordMovAlignImpl (equivalence record RecordType.MOV_ALIGN (movAlignRecord p)) p false
    (match MstxDataCopyPadV2Desc.padMode i with PADDING_COMPACT => true | PADDING_NORMAL => false end).

(** Reading a member of the interface other than the one of its type is
    undefined; interfaces without a parser produce nothing. *)
Definition ParseRecordMstxStub (record : KernelRecord) (p : MstxRecord.t) : P unit :=
  let l := MstxRecord.location p in
  event ← SetLocationInfo record l;
  let ev := event PIPE_S in
  if MstxRecord.error p then skip
  else
    match MstxRecord.interfaceType p, MstxRecord.interface p with
    | MSTX_HCCL, mstxHcclRecord i => Hccl.ParseRecordMstxHCCL i ev
    | MSTX_SET_CROSS_SYNC, mstxCrossRecord i =>
        emit (event (MstxCrossRecord.pipe i) (CrossInfo (cross_info MSTX_SET_CROSS i)))
    | MSTX_WAIT_CROSS_SYNC, mstxCrossRecord i =>
        emit (event (MstxCrossRecord.pipe i) (CrossInfo (cross_info MSTX_WAIT_CROSS i)))
    | MSTX_HCCLV, mstxHcclCoreRecord i => Hccl.parse_hcclv i ev
    | IF_CROSS_CORE_BARRIER, mstxCrossCoreBarrier i => ParseMstxCrossCoreBarrier record l i
    | MSTX_CROSS_CORE_SET_FLAG, mstxCrossCoreSetFlag i => ParseMstxCrossCoreSetFlag record l i
    | MSTX_CROSS_CORE_WAIT_FLAG, mstxCrossCoreWaitFlag i => ParseMstxCrossCoreWaitFlag record l i
    | MSTX_SIGNAL_SET, mstxSignalSet i => ParseMstxSignalSet record l i
    | MSTX_SIGNAL_WAIT, mstxSignalWait i => ParseMstxSignalWait record l i
    | IF_CROSS_NPU_BARRIER, mstxCrossNpuBarrier i => ParseMstxCrossNpuBarrier record l i
    | MSTX_VEC_UNARY_OP, mstxVecUnaryDesc i => MstxVec.ParseRecordMstxVecUnary record l i
    | MSTX_VEC_BINARY_OP, mstxVecBinaryDesc i => MstxVec.ParseRecordMstxVecBinary record l i
    | MSTX_DATA_COPY, mstxDataCopyDesc i => ParseRecordMstxDataCopy record l i
    | MSTX_DATA_COPY_PAD, mstxDataCopyPadDesc i => ParseRecordMstxDataCopyPad record l i
    | MSTX_DATA_COPY_PAD_V2, mstxDataCopyPadV2Desc i => ParseRecordMstxDataCopyPadV2 record l i
    | (MSTX_FUSE_SCOPE_START | MSTX_FUSE_SCOPE_END | MSTX_WITH_TENSOR), _ => skip
    | _, _ => undefined
    end.
End mstx_copy.
