(* ===== verification/RecordParse.v ===== *)
(** [RecordParse] ([csrc/core/framework/record_parse.cpp], [record_parse.h]): the
    table of parse functions, the derived synchronisation (hardware flags that
    become flags, barriers implied by a wait of [PIPE_S], the watermarks of
    closed rings), and [Parse].

    Pipes index arrays of [SIZE] entries by their codes; a hash set of pipes is
    the list of its elements in the order of their insertion; the maps from
    source, destination and event to start points are one map on triples.
    [None]: undefined behaviour. [events] is assumed to have room for the event
    [ProcessHsetWaitSync] appends while it iterates. *)
From stdpp Require Import base numbers option gmap strings sorting list.
From S2P Require Import Prelude.
From S2P Require Import RecordDefs.
From S2P Require Import EventDef.
From S2P Require Import EventContainer.
From S2P Require Import KernelRecords.
From S2P Require Import ParseBase.
From S2P Require Import ParseSync.
From S2P Require Import ParseMove.
From S2P Require Import ParseLoad.
From S2P Require Import ParseLoad3D.
From S2P Require Import ParseCalc.
From S2P Require Import ParseMstx.

(** ** The table of parse functions *)

Section table.
Context `{ParseEnv}.

Import RecordType.

(** The entry of a record type applied to the member of the union it reads:
    [None] when the type has no entry, [undefined] when the record holds
    another member. *)
Definition g_parseFuncs (r : KernelRecord) : option (P unit) :=
  match kr_recordType r with
  | LOAD | LD | LD_IO | STORE | ST | ST_IO | STI_IO | STP | STI | LDP | ST_ATOMIC | STI_ATOMIC | ST_DEV
  | LD_DEV => Some match kr_payload r with loadStoreRecord p => Scalar.ParseScalarOpRecord r p | _ => undefined end
  | DMA_MOV => Some match kr_payload r with dmaMovRecord p => DmaMov.ParseRecordDmaMov r p | _ => undefined end
  | DMA_MOV_CONV_RELU => Some match kr_payload r with
      dmaMovConvReluRecord p => ConvRelu.ParseRecordDmaMovConvRelu r p | _ => undefined end
  | DMA_MOV_DEPTH_WISE => Some match kr_payload r with
      dmaMovConvReluRecord p => ConvRelu.ParseRecordDmaMovDepthWise r p | _ => undefined end
  | DMA_MOV_ND2NZ => Some match kr_payload r with
      dmaMovNd2nzRecord p => Nd2nz.ParseRecordDmaMovNd2nz r p | _ => undefined end
  | DMA_MOV_ND2NZ_D => Some match kr_payload r with
      dmaMovNd2nzDavRecord p => Nd2nzDav.ParseRecordDmaMovNd2NzDav r p | _ => undefined end
  | DMA_MOV_DN2NZ_D => Some match kr_payload r with
      dmaMovNd2nzDavRecord p => Nd2nzDav.ParseRecordDmaMovDn2nzDav r p | _ => undefined end
  | MOV_ALIGN => Some match kr_payload r with movAlignRecord p => MovAlign.ParseRecordMovAlign r p | _ => undefined end
  | MOV_ALIGN_V2 => Some match kr_payload r with
      movAlignRecordV2 p => MovAlignV2.ParseRecordMovAlignV2 r p | _ => undefined end
  | MOV_BT => Some match kr_payload r with movBtRecord p => ParseRecordMovBt r p | _ => undefined end
  | MOV_FP => Some match kr_payload r with movFpRecord p => FixPipe.ParseRecordMovFp r p | _ => undefined end
  | FIX_L0C_TO_L1 => Some match kr_payload r with
      movFpRecord p => FixPipe.ParseRecordFixL0CToL1 r p | _ => undefined end
  | FIX_L0C_TO_UB => Some match kr_payload r with
      movFpRecord p => FixPipe.ParseRecordFixL0CToUB r p | _ => undefined end
  | MOV_L1_TO_UB => Some match kr_payload r with movL1UbRecord p => MovL1Ub.ParseRecordMovL2Ub r p | _ => undefined end
  | ND_DMA_OUT_TO_UB => Some match kr_payload r with
      ndDMAOut2UbRecord p => NdDma.ParseRecordNdDmaMovOut2Ub r p | _ => undefined end
  | VEC_DUP => Some match kr_payload r with vecDupRecord p => Unary.ParseVecdupRecord r p | _ => undefined end
  | LOAD_2D => Some match kr_payload r with load2DRecord p => Load2D.ParseRecordLoad2D r p | _ => undefined end
  | LOAD_L1_2D => Some match kr_payload r with loadL12DRecord p => LoadL12D.ParseRecordLoadL12D r p | _ => undefined end
  | LOAD_L1_MX_2D => Some match kr_payload r with loadL1Mx2DRecord p => ParseRecordLoadL1Mx2D r p | _ => undefined end
  | LOAD_L1_2D_TRANSPOSE => Some match kr_payload r with
      loadL12DTransposeRecord p => ParseRecordLoadL12DTranspose r p | _ => undefined end
  | LOAD_2D_SPARSE => Some match kr_payload r with
      load2DSparseRecord p => Load2DSparse.ParseRecordLoad2DSparse r p | _ => undefined end
  | LOAD_2D_TRANSPOSE => Some match kr_payload r with
      load2DTransposeRecord p => Load2DTranspose.ParseRecordLoad2DTranspose r p | _ => undefined end
  | DECOMPRESS_HEADER => Some match kr_payload r with
      decompressHeaderRecord p => ParseRecordDecompressHeader r p | _ => undefined end
  | BROADCAST => Some match kr_payload r with broadcastRecord p => Broadcast.ParseRecordBroadcast r p | _ => undefined end
  | DC_PRELOAD => Some match kr_payload r with dcPreloadRecord p => ParseRecordDcPreload r p | _ => undefined end
  | SCATTERVNCHWCONV | SCATTERVNCHWCONV_A5 => Some match kr_payload r with
      scatterVnchwconvRecord p => Scatter.ParseRecordScatterVnchwconv r p | _ => undefined end
  | LOAD_3D => Some match kr_payload r with load3DRecord p => Load3D.ParseRecordLoad3D r p | _ => undefined end
  | LOAD_3D_V2 => Some match kr_payload r with load3DV2Record p => Load3DV2.ParseRecordLoad3DV2 r p | _ => undefined end
  | LOAD_B2 => Some match kr_payload r with loadB2Record p => ParseRecordLoadB2 r p | _ => undefined end
  | LOAD_A_WINOGRAD => Some match kr_payload r with
      loadAWinogradRecord p => Winograd.ParseRecordLoadAWinograd r p | _ => undefined end
  | LOAD_B_WINOGRAD => Some match kr_payload r with
      loadBWinogradRecord p => Winograd.ParseRecordLoadBWinograd r p | _ => undefined end
  | SET_2D => Some match kr_payload r with set2DRecord p => ParseRecordSet2D r p | _ => undefined end
  | LOAD_IMAGE => Some match kr_payload r with
      loadImageRecord p => LoadImage.ParseRecordLoadImage r p | _ => undefined end
  | LOAD_SMASK => Some match kr_payload r with loadSmaskRecord p => ParseRecordLoadSmask r p | _ => undefined end
  | UNARY_OP | VCOPY_OP | VREDUCEV2_UNARY | VMRGSORT4_OP_C220 | VMRGSORT4_OP_M200 | VCONV_DST_S4_OP
  | VCONV_SRC_S4_OP => Some match kr_payload r with unaryOpRecord p => Unary.ParseRecordUnaryOp r p | _ => undefined end
  | VGATHER => Some match kr_payload r with vgatherRecord p => Gather.ParseRecordVgather r p | _ => undefined end
  | ELEMENT => Some match kr_payload r with elementRecord p => Gather.ParseRecordElement r p | _ => undefined end
  | VREDUCEV2_BINARY | BINARY_OP | TERNARY_OP => Some match kr_payload r with
      binaryOpRecord p => Binary.ParseRecordBinaryOp r p | _ => undefined end
  | VMRGSORT4_OP_C310 => Some match kr_payload r with
      vms4V2RecordA5 p => Vms4v2.ParseRecordVms4v2A5 r p | _ => undefined end
  | VBS32_A5 => Some match kr_payload r with vbs32Record p => ParseVbs32A5 r p | _ => undefined end
  | VSEL_OP => Some match kr_payload r with binaryOpRecord p => Binary.ParseRecordVsel r p | _ => undefined end
  | REDUCE_OP => Some match kr_payload r with reduceOpRecord p => Reduce.ParseRecordReduceOp r p | _ => undefined end
  | VREDUCEV2 => Some match kr_payload r with reduceV2Record p => ReduceV2.ParseRecordReduceV2 r p | _ => undefined end
  | CMPMASK_OP => Some match kr_payload r with cmpMaskRecord p => ParseRecordCmpMask r p | _ => undefined end
  | MATRIX_MUL_OP => Some match kr_payload r with
      matrixMulOpRecord p => MatMul.ParseMatrixMulOpRecord r p | _ => undefined end
  | MMAD_A5 => Some match kr_payload r with mmadA5Record p => MatMul.ParseMmadA5Record r p | _ => undefined end
  | VEC_REGPROPCOOR_OP => Some match kr_payload r with
      vecRegPropCoordOpRecord p => ParseVRegPropCoorOPRecord r p | _ => undefined end
  | SET_FLAG | SET_FLAGI | SET_FLAG_V | SET_FLAGI_V => Some match kr_payload r with
      syncRecord p => Flag.ParseRecordSetFlag r p | _ => undefined end
  | WAIT_FLAG | WAIT_FLAGI | WAIT_FLAG_V | WAIT_FLAGI_V => Some match kr_payload r with
      syncRecord p => Flag.ParseRecordWaitFlag r p | _ => undefined end
  | GET_BUF | GET_BUFI | GET_BUF_V | GET_BUFI_V => Some match kr_payload r with
      bufRecord p => Buf.ParseRecordGetBuf r p | _ => undefined end
  | RLS_BUF | RLS_BUFI | RLS_BUF_V | RLS_BUFI_V => Some match kr_payload r with
      bufRecord p => Buf.ParseRecordRlsBuf r p | _ => undefined end
  | FFTS_SYNC | FFTS_SYNC_V => Some match kr_payload r with
      fftsSyncRecord p => ParseFftsSyncRecord r p | _ => undefined end
  | WAIT_FLAG_DEV => Some match kr_payload r with waitFlagDevRecord p => ParseWaitDevRecord r p | _ => undefined end
  | WAIT_FLAG_DEV_PIPE | WAIT_FLAG_DEVI_PIPE | WAIT_FLAG_DEV_PIPE_V | WAIT_FLAG_DEVI_PIPE_V =>
      Some match kr_payload r with waitFlagDevPipeRecord p => ParseWaitDevPipeRecord r p | _ => undefined end
  | SET_INTRA_BLOCK | SET_INTRA_BLOCKI | SET_INTRA_BLOCK_V | SET_INTRA_BLOCKI_V => Some match kr_payload r with
      intraBlockSyncRecord p => ParseSetIntraBlockRecord r p | _ => undefined end
  | WAIT_INTRA_BLOCK | WAIT_INTRA_BLOCKI | WAIT_INTRA_BLOCK_V | WAIT_INTRA_BLOCKI_V => Some match kr_payload r with
      intraBlockSyncRecord p => ParseWaitIntraBlockRecord r p | _ => undefined end
  | IB_SET_STUB => Some match kr_payload r with softSyncRecord p => ParseRecordIBSetStub r p | _ => undefined end
  | IB_WAIT_STUB => Some match kr_payload r with softSyncRecord p => ParseRecordIBWaitStub r p | _ => undefined end
  | SYNC_ALL_STUB => Some match kr_payload r with softSyncRecord p => ParseRecordSyncAllStub r p | _ => undefined end
  | MSTX_STUB => Some match kr_payload r with mstxRecord p => ParseRecordMstxStub r p | _ => undefined end
  | HSET_FLAG | HSET_FLAGI => Some match kr_payload r with
      hardSyncRecord p => HardSync.ParseRecordHsetFlag r p | _ => undefined end
  | HWAIT_FLAG | HWAIT_FLAGI => Some match kr_payload r with
      hardSyncRecord p => HardSync.ParseRecordHwaitFlag r p | _ => undefined end
  | PIPE_BARRIER => Some match kr_payload r with
      pipeBarrierRecord p => ParseRecordPipeBarrier r p | _ => undefined end
  | DSB => Some match kr_payload r with dsbRecord p => ParseRecordDsb r p | _ => undefined end
  | SET_ATOMIC => Some match kr_payload r with atomicModeRecord p => ParseRecordSetAtomic r p | _ => undefined end
  | SCALAR_RED | SCALAR_ATOM => Some match kr_payload r with
      redRecord p => ParseRedAndAtomRecord r p | _ => undefined end
  | LDVA => Some match kr_payload r with loadStoreRecord p => Scalar.ParseLdvaRecord r p | _ => undefined end
  | KERNEL_FINISH => Some (ParseRecordKernelFinish r)
  | FINISH => Some (ParseRecordFinish r)
  | SET_L1_2D => Some match kr_payload r with setL12DRecord p => ParseRecordSetL12D r p | _ => undefined end
  | MOV_UB_TO_L1 => Some match kr_payload r with movL1UbRecord p => MovL1Ub.ParseRecordMovUb2L1 r p | _ => undefined end
  | MOV_UB_TO_UB => Some match kr_payload r with movL1UbRecord p => MovL1Ub.ParseRecordMovUb2Ub r p | _ => undefined end
  | MOV_CBUF_TO_BT => Some match kr_payload r with
      movL1BtRecord p => Cbuf2Bt.ParseRecordMovCbuf2Bt r p | _ => undefined end
  | MOV_CBUF_TO_FB => Some match kr_payload r with
      movL1FbRecord p => Cbuf2Fb.ParseRecordMovCbuf2Fb r p | _ => undefined end
  | DYNAMIC_OP => Some match kr_payload r with dynamicRecord p => Dynamic.ParseRecordDynamic r p | _ => undefined end
  | SET_VECTOR_MASK_0 => Some match kr_payload r with
      registerSetRecord p => ParseRecordRegister r p RegisterType.VECTOR_MASK_0 | _ => undefined end
  | SET_VECTOR_MASK_1 => Some match kr_payload r with
      registerSetRecord p => ParseRecordRegister r p RegisterType.VECTOR_MASK_1 | _ => undefined end
  | SET_CTRL => Some match kr_payload r with
      registerSetRecord p => ParseRecordRegister r p RegisterType.CTRL | _ => undefined end
  | SET_FFTS_BASE_ADDR => Some match kr_payload r with
      registerSetRecord p => ParseRecordRegister r p RegisterType.FFTS_BASE_ADDR | _ => undefined end
  | SET_FPC => Some match kr_payload r with
      registerSetRecord p => ParseRecordRegister r p RegisterType.FPC | _ => undefined end
  | SET_QUANT_PRE => Some match kr_payload r with
      registerSetRecord p => ParseRecordRegister r p RegisterType.QUANT_PRE | _ => undefined end
  | SET_QUANT_POST => Some match kr_payload r with
      registerSetRecord p => ParseRecordRegister r p RegisterType.QUANT_POST | _ => undefined end
  | SET_LRELU_ALPHA => Some match kr_payload r with
      registerSetRecord p => ParseRecordRegister r p RegisterType.LRELU_ALPHA | _ => undefined end
  | _ => None
  end.
End table.

(** ** State *)

Record HsetRecordState := mkHset { cacheMode0 : bool; cacheMode1 : bool; isTransSet : bool }.

(** The key of a hardware flag: the lexicographic order of its fields is the
    order of the codes. *)
Definition HsetRecordKey (srcPipe dstPipe : PipeType) (eventId : Z) (memType : MemType.MemType) : Z :=
  ((PipeType_code srcPipe * 16 + PipeType_code dstPipe) * 18446744073709551616 + eventId) * 16 +
  MemType_code memType.
Definition key_srcPipe (k : Z) : Z := k / 16 / 18446744073709551616 / 16.
Definition key_dstPipe (k : Z) : Z := k / 16 / 18446744073709551616 `mod` 16.
Definition key_eventId (k : Z) : Z := k / 16 `mod` 18446744073709551616.
Definition key_memType (k : Z) : Z := k `mod` 16.

Definition all_pipes : list PipeType :=
  [PIPE_S; PIPE_V; PIPE_M; PIPE_MTE1; PIPE_MTE2; PIPE_MTE3; PIPE_ALL; PIPE_MTE4; PIPE_MTE5; PIPE_V2; PIPE_FIX;
   PIPE_S_CAL].
Definition pipe_of_code (z : Z) : PipeType := default PIPE_SIZE (at_index all_pipes z).

(** [RingStartPoints]: per pipe, the largest start point, 0 for none. *)
Definition SIZE : Z := PipeType_code PIPE_SIZE.
Definition no_points : list Z := replicate (Z.to_nat SIZE) 0.

Record Rings := mkRings {
  edgeStartPoints_ : gmap (Z * Z * Z) (list Z); inheritedStartPoints_ : list (list Z);
  closedRingStartSerialNo_ : list Z;
}.

Record RecordParse := mkRP {
  rp_base : ParseState; dstSrcGraph_ : list (list PipeType); rings : Rings;
  hsetSyncMap_ : gmap Z HsetRecordState;
}.

Definition new_rings : Rings := mkRings ∅ (replicate (Z.to_nat SIZE) no_points) no_points.
Definition empty_graph : list (list PipeType) := replicate (Z.to_nat SIZE) [].

Definition ResetSyncInPipeInfo (rp : RecordParse) : RecordParse :=
  mkRP (rp_base rp) empty_graph new_rings (hsetSyncMap_ rp).

Definition ResetAll (rp : RecordParse) : RecordParse :=
  let b := rp_base rp in mkRP (mkPS (ps_align b) (mapAtomicMode b) ∅) empty_graph new_rings ∅.

(** ** The graph of waits *)

Definition set_insert (p : PipeType) (l : list PipeType) : list PipeType := if decide (p ∈ l) then l else l ++ [p].
Definition set_erase (p : PipeType) (l : list PipeType) : list PipeType := filter (λ q, q ≠ p) l.

(** Every recursive call marks a new pipe: [SIZE] + 1 levels are enough. *)
Fixpoint DfsSrcGraph (fuel : nat) (g : list (list PipeType)) (targetPipe : PipeType) (visited : list PipeType)
    : option (list PipeType) :=
  match fuel with
  | O => None
  | S fuel =>
      neighbors ← at_index g (PipeType_code targetPipe);
      (fix visit (l : list PipeType) (visited : list PipeType) : option (list PipeType) :=
         match l with
         | [] => Some visited
         | neighbor :: l =>
             if decide (neighbor ∈ visited) then visit l visited
             else visited ← DfsSrcGraph fuel g neighbor visited; visit l visited
         end) neighbors (set_insert targetPipe visited)
  end.

Definition dfs_fuel : nat := 13.

(** ** Rings *)

Definition max_points (a b : list Z) : list Z := zip_with Z.max a b.

(** [SET_FLAG(src, dst, event)]: what the source has inherited and this set leave
    with the flag. *)
Definition ring_set (srcPipe dstPipe eventId serial : Z) (r : Rings) : option Rings :=
  let edge := default no_points (edgeStartPoints_ r !! (srcPipe, dstPipe, eventId)) in
  inherited ← at_index (inheritedStartPoints_ r) srcPipe;
  let edge := max_points edge inherited in
  start ← at_index edge srcPipe;
  Some (mkRings (<[(srcPipe, dstPipe, eventId) := set_index edge srcPipe (Z.max start serial)]> (edgeStartPoints_ r))
          (inheritedStartPoints_ r) (closedRingStartSerialNo_ r)).

(** [WAIT_FLAG(src, dst, event)]: the destination inherits; a start point of its
    own closes a ring. *)
Definition ring_wait (srcPipe dstPipe eventId : Z) (r : Rings) : option Rings :=
  match edgeStartPoints_ r !! (srcPipe, dstPipe, eventId) with
  | None => Some r
  | Some edge =>
      inherited ← at_index (inheritedStartPoints_ r) dstPipe;
      own ← at_index edge dstPipe;
      closed ← at_index (closedRingStartSerialNo_ r) dstPipe;
      Some (mkRings (edgeStartPoints_ r) (set_index (inheritedStartPoints_ r) dstPipe (max_points inherited edge))
              (set_index (closedRingStartSerialNo_ r) dstPipe (Z.max closed own)))
  end.

(** ** [UpdateSyncInPipe] *)

Section update.
Context `{ParseEnv}.

Definition run {A} (c : P A) (rp : RecordParse) : option (A * RecordParse * list SanEvent) :=
  '(a, b, es) ← c (rp_base rp); Some (a, mkRP b (dstSrcGraph_ rp) (rings rp) (hsetSyncMap_ rp), es).

(** [record.payload.syncRecord.location]: the first member of the record. *)
Definition payload_location (p : Payload) : option Location :=
  match p with
  | syncRecord p => Some (SyncRecord.location p)
  | pipeBarrierRecord p => Some (PipeBarrierRecord.location p)
  | dsbRecord p => Some (DsbRecord.location p)
  | _ => None
  end.

Definition emit_barriers (record : KernelRecord) (l : Location) (pipes : list PipeType) : P unit :=
  for_pipes (λ p, e ← CreateInnerPipeSyncEvent record p l; emit e) pipes.

Definition with_graph (g : list (list PipeType)) (rp : RecordParse) : RecordParse :=
  mkRP (rp_base rp) g (rings rp) (hsetSyncMap_ rp).
Definition with_rings (r : Rings) (rp : RecordParse) : RecordParse :=
  mkRP (rp_base rp) (dstSrcGraph_ rp) r (hsetSyncMap_ rp).

Definition is_finish (r : RecordType.RecordType) : bool :=
  match r with RecordType.BLOCK_FINISH | RecordType.KERNEL_FINISH => true | _ => false end.

(** The flag number the hardware uses. *)
Definition latestEventId (i : SyncOpInfo) : Z := Z.land (sync_eventId i) (VALID_EVENT_ID_SIZE - 1).

(** The events appended. *)
Definition UpdateSyncInPipe (record : KernelRecord) (events : list SanEvent) (rp : RecordParse)
    : option (RecordParse * list SanEvent) :=
  if is_finish (kr_recordType record) then Some (ResetSyncInPipeInfo rp, [])
  else
    match last events with
    | None => Some (rp, [])
    | Some event =>
        match eventInfo event with
        | MemInfo _ => Some (with_graph (set_erase (pipe event) <$> dstSrcGraph_ rp) rp, [])
        | SyncInfo i =>
            let srcPipe := PipeType_code (sync_srcPipe i) in
            let dstPipe := PipeType_code (sync_dstPipe i) in
            if (SIZE <=? srcPipe) || (SIZE <=? dstPipe) then Some (rp, [])
            else if negb (sync_isGenerated i) && (VALID_EVENT_ID_SIZE <=? latestEventId i) then Some (rp, [])
            else
              match sync_opType i with
              | SET_FLAG =>
                  r ← ring_set srcPipe dstPipe (latestEventId i) (serialNo event) (rings rp);
                  Some (with_rings r rp, [])
              | WAIT_FLAG =>
                  srcs ← at_index (dstSrcGraph_ rp) dstPipe;
                  let rp := with_graph (set_index (dstSrcGraph_ rp) dstPipe (set_insert (sync_srcPipe i) srcs)) rp in
                  r ← ring_wait srcPipe dstPipe (latestEventId i) (rings rp);
                  let rp := with_rings r rp in
                  if bool_decide (sync_dstPipe i = PIPE_S) then
                    reachable ← DfsSrcGraph dfs_fuel (dstSrcGraph_ rp) (sync_srcPipe i) [];
                    l ← payload_location (kr_payload record);
                    '(_, rp, es) ← run (emit_barriers record l reachable) rp;
                    Some (rp, es)
                  else Some (rp, [])
              | _ => Some (rp, [])
              end
        | _ => Some (rp, [])
        end
    end.

(** ** Hardware flags *)

Definition hsetStartEventID : Z := 120.

Definition HsetWaitCreateSyncEvent (syncType : SyncType) (pipeSrc pipeDst : PipeType) (event : SanEvent)
    (eventId : Z) : SanEvent :=
  new_event (serialNo event) (loc event) false (if bool_decide (syncType = SET_FLAG) then pipeSrc else pipeDst)
    (SyncInfo {| sync_opType := syncType; sync_srcPipe := pipeSrc; sync_dstPipe := pipeDst;
                 sync_eventId := u32 (hsetStartEventID + eventId); sync_memType := MemType.UNKNOWN;
                 sync_isRetrogress := true; sync_isGenerated := true |}).

Definition set_info (i : EventInfo) (e : SanEvent) : SanEvent :=
  {| serialNo := serialNo e; pipe := pipe e; eventInfo := i; loc := loc e; isAtomicMode := isAtomicMode e;
     recordType := recordType e; closedRingStartSerialNo := closedRingStartSerialNo e |}.

Definition replaced (i : HSyncOpInfo) : HSyncOpInfo :=
  {| h_eventId := h_eventId i; h_srcPipe := h_srcPipe i; h_dstPipe := h_dstPipe i; h_opType := h_opType i;
     h_memType := h_memType i; h_v := h_v i; h_isReplaced := true |}.

Definition hset_key (i : HSyncOpInfo) : Z := HsetRecordKey (h_srcPipe i) (h_dstPipe i) (h_eventId i) (h_memType i).

Definition no_hset : HsetRecordState := mkHset false false false.

(** One event of the first loop: the event, the map, and whether a wait is
    appended. *)
Definition process_hset (event : SanEvent) (hs : gmap Z HsetRecordState)
    : SanEvent * gmap Z HsetRecordState * option HSyncOpInfo :=
  match eventInfo event with
  | HSyncInfo i =>
      let key := hset_key i in
      if h_isReplaced i then (event, hs, None)
      else
        match h_opType i with
        | HSET_FLAG =>
            let '(states, hs) := map_ref no_hset key hs in
            if isTransSet states then (event, hs, None)
            else
              let states := mkHset (cacheMode0 states || (h_v i =? 0)) (cacheMode1 states || (h_v i =? 1))
                              (isTransSet states) in
              (set_info (HSyncInfo (replaced i)) event, <[key := states]> hs, None)
        | HWAIT_FLAG =>
            let wait := match hs !! key with Some st => if isTransSet st then Some i else None | None => None end in
            (set_info (HSyncInfo (replaced i)) event, delete key hs, wait)
        | _ => (event, hs, None)
        end
  | _ => (event, hs, None)
  end.

(** The first loop over the events present at its start; [done] are the events
    already seen, [tail] those appended. *)
Fixpoint process_hsets (done todo tail : list SanEvent) (hs : gmap Z HsetRecordState)
    : option (list SanEvent * gmap Z HsetRecordState) :=
  match todo with
  | [] => Some (done ++ tail, hs)
  | event :: todo =>
      let '(event', hs, wait) := process_hset event hs in
      match wait with
      | None => process_hsets (done ++ [event']) todo tail hs
      | Some i =>
          back ← last (event :: todo ++ tail);
          let genEvent := HsetWaitCreateSyncEvent WAIT_FLAG (h_srcPipe i) (h_dstPipe i) back (h_eventId i) in
          process_hsets (done ++ [event']) todo (tail ++ [genEvent]) hs
      end
  end.

(** A memory event of the pipe and memory a cached [hset] waits for. *)
Definition matches_hset (key : Z) (event : SanEvent) : bool :=
  match eventInfo event with
  | MemInfo m => (PipeType_code (pipe event) =? key_srcPipe key) && (MemType_code (memType m) =? key_memType key)
  | _ => false
  end.

(** The first cached [hset], in the order of the keys, that turns into a set. *)
Definition hset_ready (events : list SanEvent) (kv : Z * HsetRecordState) : bool :=
  negb (isTransSet kv.2) && cacheMode0 kv.2 && existsb (matches_hset kv.1) events.

Definition ProcessHsetWaitSync (events : list SanEvent) (hs : gmap Z HsetRecordState)
    : option (list SanEvent * gmap Z HsetRecordState) :=
  '(events, hs) ← process_hsets [] events [] hs;
  match List.find (hset_ready events) (ordered hs) with
  | None => Some (events, hs)
  | Some (key, val) =>
      back ← last events;
      let genEvent := HsetWaitCreateSyncEvent SET_FLAG (pipe_of_code (key_srcPipe key))
                        (pipe_of_code (key_dstPipe key)) back (key_eventId key) in
      Some (events ++ [genEvent], <[key := mkHset (cacheMode0 val) (cacheMode1 val) true]> hs)
  end.

(** ** Pipe of scalar sets *)

Definition set_pipe_info (p : PipeType) (i : EventInfo) (e : SanEvent) : SanEvent :=
  {| serialNo := serialNo e; pipe := p; eventInfo := i; loc := loc e; isAtomicMode := isAtomicMode e;
     recordType := recordType e; closedRingStartSerialNo := closedRingStartSerialNo e |}.

Definition set_srcPipe (p : PipeType) (i : SyncOpInfo) : SyncOpInfo :=
  {| sync_opType := sync_opType i; sync_srcPipe := p; sync_dstPipe := sync_dstPipe i;
     sync_eventId := sync_eventId i; sync_memType := sync_memType i; sync_isRetrogress := sync_isRetrogress i;
     sync_isGenerated := sync_isGenerated i |}.

Definition ReplacePipeScalar (event : SanEvent) : SanEvent :=
  match eventInfo event with
  | SyncInfo i =>
      if bool_decide (sync_srcPipe i = PIPE_S) then
        match sync_opType i with
        | SET_FLAG => set_pipe_info PIPE_S_CAL (SyncInfo (set_srcPipe PIPE_S_CAL i)) event
        | WAIT_FLAG => set_info (SyncInfo (set_srcPipe PIPE_S_CAL i)) event
        | _ => event
        end
      else event
  | FftsInfo i =>
      if bool_decide (ffts_opType i = FFTS_SYNC) && bool_decide (ffts_dstPipe i = PIPE_S) then
        set_pipe_info PIPE_S_CAL
          (FftsInfo {| ffts_opType := ffts_opType i; ffts_dstPipe := PIPE_S_CAL; ffts_flagId := ffts_flagId i;
                       ffts_mode := ffts_mode i; ffts_vecSubBlockDim := ffts_vecSubBlockDim i |}) event
      else event
  | SoftInfo i =>
      if bool_decide (soft_opType i = IB_SET) && bool_decide (pipe event = PIPE_S)
      then set_pipe_info PIPE_S_CAL (SoftInfo i) event else event
  | CrossInfo i =>
      if bool_decide (mstx_opType i = MSTX_SET_CROSS) && bool_decide (mstx_pipe i = PIPE_S) then
        set_pipe_info PIPE_S_CAL
          (CrossInfo {| mstx_addr := mstx_addr i; mstx_flagId := mstx_flagId i; mstx_pipe := PIPE_S_CAL;
                        mstx_isMore := mstx_isMore i; mstx_isMerge := mstx_isMerge i;
                        mstx_opType := mstx_opType i |}) event
      else event
  | BufInfo i =>
      if bool_decide (buf_opType i = RLS_BUF) && bool_decide (buf_pipe i = PIPE_S) then
        set_pipe_info PIPE_S_CAL
          (BufInfo {| buf_opType := buf_opType i; buf_pipe := PIPE_S_CAL; buf_bufId := buf_bufId i;
                      buf_rlsCount := buf_rlsCount i; buf_mode := buf_mode i |}) event
      else event
  | _ => event
  end.

Definition ReplaceSetSyncPipeScalar (events : list SanEvent) : list SanEvent := ReplacePipeScalar <$> events.

(** ** [Parse] *)

Definition set_recordType (r : Z) (e : SanEvent) : SanEvent :=
  {| serialNo := serialNo e; pipe := pipe e; eventInfo := eventInfo e; loc := loc e;
     isAtomicMode := isAtomicMode e; recordType := r; closedRingStartSerialNo := closedRingStartSerialNo e |}.

(** The watermark of the pipe of an event. *)
Definition stamp (closed : list Z) (e : SanEvent) : SanEvent :=
  match at_index closed (PipeType_code (pipe e)) with
  | Some n => {| serialNo := serialNo e; pipe := pipe e; eventInfo := eventInfo e; loc := loc e;
                 isAtomicMode := isAtomicMode e; recordType := recordType e; closedRingStartSerialNo := n |}
  | None => e
  end.

Definition Parse (record : KernelRecord) (events : list SanEvent) (rp : RecordParse)
    : option (RecordParse * list SanEvent) :=
  let rp := if is_finish (kr_recordType record) then ResetAll rp else rp in
  match g_parseFuncs record with
  | None => Some (rp, events)
  | Some f =>
      '(_, rp, es) ← run f rp;
      if bool_decide (es = []) then Some (rp, events)
      else
        let parseBeginIdx := length events in
        let events := set_recordType (RecordType.code (kr_recordType record)) <$> (events ++ es) in
        '(events, hs) ← ProcessHsetWaitSync events (hsetSyncMap_ rp);
        let rp := mkRP (rp_base rp) (dstSrcGraph_ rp) (rings rp) hs in
        '(rp, barriers) ← UpdateSyncInPipe record events rp;
        let events := events ++ barriers in
        let closed := closedRingStartSerialNo_ (rings rp) in
        Some (rp, ReplaceSetSyncPipeScalar (take parseBeginIdx events ++
                                            (stamp closed <$> drop parseBeginIdx events)))
  end.
End update.
