(* ===== verification/RecordPreProcess.v ===== *)
(** [RecordPreProcess] ([csrc/core/framework/record_pre_process.cpp],
    [record_pre_process.h]): records inside a merged region are dropped, repeated
    waits of a polling loop are merged, and what remains is handed to the
    parser in batches.

    A record is its version and its payload read as a kernel record, which is
    what the code does for every version but [MEMORY_RECORD]. *)
From stdpp Require Import base numbers option gmap strings list.
From S2P Require Import Prelude.
From S2P Require Import RecordDefs.
From S2P Require Import EventDef.
From S2P Require Import KernelRecords.
From S2P Require Import ParseBase.
From S2P Require Import RecordParse.

Module Pre.

Inductive RecordVersion := MEMORY_RECORD | KERNEL_RECORD | IPC_RECORD | REGION_PERMISSION.
#[global] Instance RecordVersion_eq : EqDecision RecordVersion. Proof. solve_decision. Defined.

Record SanitizerRecord := mkSR { version : RecordVersion; kernelRecord : KernelRecord }.

#[global] Instance MstxCrossRecord_eq : EqDecision MstxCrossRecord.t. Proof. solve_decision. Defined.

Record MstxCrossWaitRecordInfo := mkWaitInfo { record : MstxCrossRecord.t; coreID : Z }.

Definition zero_wait : MstxCrossWaitRecordInfo :=
  mkWaitInfo (MstxCrossRecord.mk 0 0 PIPE_S false false) 0.

Record MstxCrossWaitMergeInfo := mkMerge {
  firstPreRecord : MstxCrossWaitRecordInfo; secondPreRecord : MstxCrossWaitRecordInfo;
  throughFirstWait : bool; throughSecondWait : bool; endTag : bool;
}.

Record RecordPreProcess := mkPre {
  recordBuffer_ : list SanitizerRecord; waitMergeInfo_ : MstxCrossWaitMergeInfo; mstxMergeTag_ : bool;
  isFirstSyncAllStub_ : bool;
}.

Definition new_RecordPreProcess : RecordPreProcess :=
  mkPre [] (mkMerge zero_wait zero_wait false false false) false false.

(** ** Classification *)

(** The interface type, the cross-core payload and the core of an mstx record. *)
Definition mstx_cross (k : KernelRecord) : option (InterfaceType * MstxCrossRecord.t * Z) :=
  match kr_recordType k, kr_payload k with
  | RecordType.MSTX_STUB, mstxRecord p =>
      match MstxRecord.interface p with
      | mstxCrossRecord i => Some (MstxRecord.interfaceType p, i, loc_blockId (MstxRecord.location p))
      | _ => None
      end
  | _, _ => None
  end.

Definition IgnoreSoftSyncRecord (k : KernelRecord) : bool :=
  match kr_recordType k with
  | RecordType.IB_SET_STUB | RecordType.IB_WAIT_STUB | RecordType.SYNC_ALL_STUB => true
  | _ => false
  end.

Definition IgnoreMstxCrossSetRecord (k : KernelRecord) : bool :=
  match mstx_cross k with
  | Some (MSTX_SET_CROSS_SYNC, i, _) => MstxCrossRecord.isMerge i
  | _ => false
  end.

Definition IgnoreRecord (k : KernelRecord) : bool := IgnoreSoftSyncRecord k || IgnoreMstxCrossSetRecord k.

Definition IsRealSyncType (type : RecordType.RecordType) : bool :=
  match type with
  | RecordType.SET_FLAG | RecordType.WAIT_FLAG | RecordType.HSET_FLAG | RecordType.HWAIT_FLAG
  | RecordType.PIPE_BARRIER | RecordType.DSB | RecordType.FFTS_SYNC | RecordType.WAIT_FLAG_DEV
  | RecordType.SET_ATOMIC => true
  | _ => false
  end.

(** [IsMstxWaitRecord], with the payload and the core of the wait. *)
Definition mstx_wait (k : KernelRecord) : option (MstxCrossRecord.t * Z) :=
  match mstx_cross k with
  | Some (MSTX_WAIT_CROSS_SYNC, i, core) => if MstxCrossRecord.isMore i then Some (i, core) else None
  | _ => None
  end.
Definition IsMstxWaitRecord (k : KernelRecord) : bool := bool_decide (is_Some (mstx_wait k)).

Definition CrossWaitRecordIsEqual (lhs : MstxCrossWaitRecordInfo) (rhs : MstxCrossRecord.t) (core : Z) : bool :=
  bool_decide (record lhs = rhs) && (coreID lhs =? core).

(** ** Operations *)

Definition UpdateMergeInfo (k : KernelRecord) (s : RecordPreProcess) : RecordPreProcess :=
  mkPre (recordBuffer_ s) (waitMergeInfo_ s) (if IgnoreRecord k then negb (mstxMergeTag_ s) else mstxMergeTag_ s)
    (isFirstSyncAllStub_ s).

Definition ResetWaitMergeInfo (w : MstxCrossWaitMergeInfo) : MstxCrossWaitMergeInfo :=
  mkMerge (firstPreRecord w) (secondPreRecord w) false false true.

(** Whether a wait repeats one of the two waits before it. *)
Definition repeats (w : MstxCrossWaitMergeInfo) (i : MstxCrossRecord.t) (core : Z) : bool :=
  (throughFirstWait w && CrossWaitRecordIsEqual (firstPreRecord w) i core) ||
  (throughSecondWait w && CrossWaitRecordIsEqual (secondPreRecord w) i core).

(** The end tag after a wait, and the two waits remembered. *)
Definition wait_end (w : MstxCrossWaitMergeInfo) (i : MstxCrossRecord.t) (core : Z) : bool :=
  if repeats w i core then false
  else if negb (throughFirstWait w) || negb (throughSecondWait w) then false else true.

Definition remember (w : MstxCrossWaitMergeInfo) (i : MstxCrossRecord.t) (core : Z) (tag : bool)
    : MstxCrossWaitMergeInfo :=
  if throughSecondWait w then
    mkMerge (secondPreRecord w) (mkWaitInfo i core) (throughFirstWait w) (throughSecondWait w) tag
  else if throughFirstWait w then mkMerge (firstPreRecord w) (mkWaitInfo i core) (throughFirstWait w) true tag
  else mkMerge (mkWaitInfo i core) (secondPreRecord w) true (throughSecondWait w) tag.

Definition ProcessMstxCrossWaitRecord (r : SanitizerRecord) (s : RecordPreProcess) : RecordPreProcess :=
  let w := waitMergeInfo_ s in
  let buffer := recordBuffer_ s ++ [r] in
  let w := mkMerge (firstPreRecord w) (secondPreRecord w) (throughFirstWait w) (throughSecondWait w)
             (negb (throughFirstWait w)) in
  if bool_decide (version r = KERNEL_RECORD) then
    match mstx_wait (kernelRecord r) with
    | Some (i, core) =>
        mkPre (if repeats w i core then recordBuffer_ s else buffer)
          (remember w i core (wait_end w i core)) (mstxMergeTag_ s) (isFirstSyncAllStub_ s)
    | None =>
        mkPre buffer (if is_finish (kr_recordType (kernelRecord r)) then ResetWaitMergeInfo w else w)
          (mstxMergeTag_ s) (isFirstSyncAllStub_ s)
    end
  else mkPre buffer w (mstxMergeTag_ s) (isFirstSyncAllStub_ s).

(** Both flags of the region are updated by the record itself before it is
    judged. *)
Definition enter (k : KernelRecord) (s : RecordPreProcess) : RecordPreProcess :=
  let s := if RecordType.eqb (kr_recordType k) RecordType.SYNC_ALL_STUB
           then mkPre (recordBuffer_ s) (waitMergeInfo_ s) (mstxMergeTag_ s) (negb (isFirstSyncAllStub_ s))
           else s in
  UpdateMergeInfo k s.

Definition dropped (k : KernelRecord) (s : RecordPreProcess) : bool :=
  mstxMergeTag_ s && negb (IsRealSyncType (kr_recordType k)) &&
  negb (RecordType.eqb (kr_recordType k) RecordType.SYNC_ALL_STUB && isFirstSyncAllStub_ s) &&
  negb (is_finish (kr_recordType k)).

Definition leave (k : KernelRecord) (s : RecordPreProcess) : RecordPreProcess :=
  if is_finish (kr_recordType k) then mkPre (recordBuffer_ s) (waitMergeInfo_ s) false false else s.

Definition ClearBuffer (s : RecordPreProcess) : RecordPreProcess :=
  mkPre [] (waitMergeInfo_ s) (mstxMergeTag_ s) (isFirstSyncAllStub_ s).

(** The records handed to the parser. *)
Definition process_records (r : SanitizerRecord) (s : RecordPreProcess) : RecordPreProcess * list SanitizerRecord :=
  if bool_decide (version r = MEMORY_RECORD) then (s, [])
  else
    let k := kernelRecord r in
    let s := enter k s in
    if dropped k s then (s, [])
    else
      let s := ProcessMstxCrossWaitRecord r (leave k s) in
      if negb (endTag (waitMergeInfo_ s)) then (s, []) else (ClearBuffer s, recordBuffer_ s).

Section process.
Context `{ParseEnv}.

Fixpoint parse_all (rs : list SanitizerRecord) (events : list SanEvent) (rp : RecordParse)
    : option (RecordParse * list SanEvent) :=
  match rs with
  | [] => Some (rp, events)
  | r :: rs => '(rp, events) ← Parse (kernelRecord r) events rp; parse_all rs events rp
  end.

Definition Process (r : SanitizerRecord) (events : list SanEvent) (s : RecordPreProcess * RecordParse)
    : option (RecordPreProcess * RecordParse * list SanEvent) :=
  let '(pre, batch) := process_records r s.1 in
  '(rp, events) ← parse_all batch events s.2;
  Some (pre, rp, events).
End process.
End Pre.
