(* ===== verification/ParseExamples.v ===== *)
(** A concrete environment for the examples of the parser: device 0, one kernel,
    unregistered alignment checker, zeroed storage. *)
From stdpp Require Import base numbers option gmap strings list.
From S2P Require Import Prelude.
From S2P Require Import RecordDefs.
From S2P Require Import Platform.
From S2P Require Import EventDef.
From S2P Require Import ErrorBuffer.
From S2P Require Import AddressSanitizer.
From S2P Require Import KernelRecords.
From S2P Require Import ParseBase.
From S2P Require Import RecordParse.

Module ParseEx.
Definition zero_mem : MemOpInfo :=
  Build_MemOpInfo MemType.UNKNOWN READ full_mask 0 0 0 0 0 0 0 0 0 0 false false 0 0 AIVEC INSTR_UNKNOWN 0 0.

Definition zero_raw : RawUnion := {|
  raw_mem := zero_mem;
  raw_sync := {| sync_opType := SET_FLAG; sync_srcPipe := PIPE_S; sync_dstPipe := PIPE_S; sync_eventId := 0;
                 sync_memType := MemType.UNKNOWN; sync_isRetrogress := false; sync_isGenerated := false |};
  raw_hsync := {| h_eventId := 0; h_srcPipe := PIPE_S; h_dstPipe := PIPE_S; h_opType := HSET_FLAG;
                  h_memType := MemType.UNKNOWN; h_v := 0; h_isReplaced := false |};
  raw_ffts := {| ffts_opType := FFTS_SYNC; ffts_dstPipe := PIPE_S; ffts_flagId := 0; ffts_mode := 0;
                 ffts_vecSubBlockDim := 0 |};
  raw_buf := {| buf_opType := GET_BUF; buf_pipe := PIPE_S; buf_bufId := 0; buf_rlsCount := 0;
                buf_mode := BLOCK_MODE |};
  raw_soft := {| soft_opType := SYNC_ALL; soft_eventID := 0; soft_waitCoreID := 0; soft_usedCores := 0;
                 soft_isAIVOnly := false |};
  raw_dataType := DATA_B8;
|}.

#[export] Instance env : ParseEnv :=
  {| pe_deviceId := 0; pe_kernelIdx := 0; pe_kernelCount := 1; pe_fileName := λ _, "kernel.cpp"; pe_raw := zero_raw |}.

Definition start : ParseState :=
  mkPS (AlignChecker.Build_AlignChecker false [] ASCEND_910B1) ∅ ∅.

Definition parser : RecordParse := mkRP start empty_graph new_rings ∅.

(** Flags of pipes on core 0. *)
Definition here (line : Z) : Location := Build_Location 1 line 0 0.
Definition flag (t : RecordType.RecordType) (src dst : PipeType) (event n : Z) : KernelRecord :=
  mkKernelRecord t AIVEC n (syncRecord (SyncRecord.mk (here n) src dst event false)).
Definition set_flag := flag RecordType.SET_FLAG.
Definition wait_flag := flag RecordType.WAIT_FLAG.
Definition barrier (p : PipeType) (n : Z) : KernelRecord :=
  mkKernelRecord RecordType.PIPE_BARRIER AIVEC n (pipeBarrierRecord (PipeBarrierRecord.mk (here n) p)).
End ParseEx.
