(* ===== verification/WaitGraphProofs.v ===== *)
(** The graph of waits and its search: [DfsSrcGraph] ends within its fuel and
    visits exactly the pipes that can be reached. *)
From stdpp Require Import base numbers option gmap strings sorting relations list.
From S2P Require Import Prelude.
From S2P Require Import EventDef.
From S2P Require Import EventContainer.
From S2P Require Import ParseSync.
From S2P Require Import RecordParse.

(** [q] is one of the sources pipe [p] has waited for. *)
Definition waits_for (g : list (list PipeType)) (p q : PipeType) : Prop :=
  ∃ l, at_index g (PipeType_code p) = Some l ∧ q ∈ l.

(** A row per pipe, of pipes that have a row. *)
Definition graph_ok (g : list (list PipeType)) : Prop :=
  length g = Z.to_nat SIZE ∧ Forall (λ l, Forall (λ p, p ≠ PIPE_SIZE) l) g.

(** The pipes a search has not seen. *)
Definition unseen (visited : list PipeType) : nat := length (filter (λ p, p ∉ visited) all_pipes).

(** The loop over the neighbours, with the recursive call as a parameter. *)
Section visit.
Context (dfs : PipeType → list PipeType → option (list PipeType)).

Fixpoint visit (l visited : list PipeType) : option (list PipeType) :=
  match l with
  | [] => Some visited
  | neighbor :: l =>
      if decide (neighbor ∈ visited) then visit l visited
      else visited ← dfs neighbor visited; visit l visited
  end.
End visit.

Lemma DfsSrcGraph_S fuel g t visited :
  DfsSrcGraph (S fuel) g t visited =
  (neighbors ← at_index g (PipeType_code t); visit (DfsSrcGraph fuel g) neighbors (set_insert t visited)).
Proof. reflexivity. Qed.

Lemma elem_of_set_insert p q l : q ∈ set_insert p l ↔ q = p ∨ q ∈ l.
Proof. unfold set_insert. case_decide; set_solver. Qed.

Lemma NoDup_set_insert p l : NoDup l → NoDup (set_insert p l).
Proof.
  intros. unfold set_insert. case_decide; [done|]. apply NoDup_app. split_and!; [done| |apply NoDup_singleton].
  set_solver.
Qed.

Lemma elem_of_all_pipes p : p ≠ PIPE_SIZE → p ∈ all_pipes.
Proof. intros. unfold all_pipes. rewrite !elem_of_cons. destruct p; naive_solver. Qed.

Lemma filter_length_lt {A} (P Q : A → Prop) `{∀ x, Decision (P x), ∀ x, Decision (Q x)} (l : list A) x :
  (∀ y, P y → Q y) → x ∈ l → Q x → ¬ P x → (length (filter P l) < length (filter Q l))%nat.
Proof.
  intros HPQ Hx HQ HP. induction l as [|y l IH]; [by apply elem_of_nil in Hx|].
  assert (length (filter P l) <= length (filter Q l))%nat as Hle.
  { clear -HPQ. induction l as [|z l IH]; [done|]. rewrite !filter_cons.
    repeat case_decide; cbn; try lia. naive_solver. }
  rewrite !filter_cons. apply elem_of_cons in Hx as [<-|Hx].
  - rewrite decide_False, decide_True by done. cbn. lia.
  - specialize (IH Hx). repeat case_decide; cbn; try lia. naive_solver.
Qed.

Lemma unseen_lt visited visited' p :
  visited ⊆ visited' → p ≠ PIPE_SIZE → p ∉ visited → p ∈ visited' → (unseen visited' < unseen visited)%nat.
Proof.
  intros Hsub Hp Hn Hin. unfold unseen.
  apply (filter_length_lt _ _ _ p); [set_solver|by apply elem_of_all_pipes|done|]. naive_solver.
Qed.

Lemma unseen_le visited visited' : visited ⊆ visited' → (unseen visited' <= unseen visited)%nat.
Proof.
  intros Hsub. unfold unseen. induction all_pipes as [|p l IH]; [done|].
  rewrite !filter_cons. repeat case_decide; cbn; try lia. set_solver.
Qed.

Lemma graph_row g p :
  graph_ok g → p ≠ PIPE_SIZE → ∃ l, at_index g (PipeType_code p) = Some l ∧ Forall (λ p, p ≠ PIPE_SIZE) l.
Proof.
  intros [Hlen Hg] Hp. unfold at_index. destruct (Z.leb_spec 0 (PipeType_code p)) as [_|]; [|by destruct p].
  destruct (lookup_lt_is_Some_2 g (Z.to_nat (PipeType_code p))) as [l Hl].
  { rewrite Hlen. destruct p; unfold SIZE; cbn; try lia. done. }
  exists l. split; [done|]. rewrite Forall_forall in Hg. apply Hg. by eapply list_elem_of_lookup_2.
Qed.

(** What a search started at the pipes [starts] adds to [visited]. *)
Record searched (g : list (list PipeType)) (starts visited visited' : list PipeType) : Prop := {
  srch_mono : visited ⊆ visited';
  srch_starts : starts ⊆ visited';
  srch_nodup : NoDup visited → NoDup visited';
  srch_sound : ∀ q, q ∈ visited' → q ∈ visited ∨ ∃ p, p ∈ starts ∧ rtc (waits_for g) p q;
  srch_closed : ∀ p q, p ∈ visited' → p ∉ visited → waits_for g p q → q ∈ visited';
}.

Lemma visit_searched g dfs l visited :
  (∀ p v, p ∈ l → p ∉ v → visited ⊆ v → ∃ v', dfs p v = Some v' ∧ searched g [p] v v') →
  ∃ visited', visit dfs l visited = Some visited' ∧ searched g l visited visited'.
Proof.
  revert visited. induction l as [|p l IH]; intros visited Hdfs; cbn.
  { exists visited. split; [done|]. split; [done|set_solver|done|by left|done]. }
  case_decide as Hp.
  - destruct (IH visited) as (v' & Hv & [Hm Hs Hn Hsound Hc]); [intros; apply Hdfs; [by right|done..]|].
    exists v'. split; [done|]. split; [done|set_solver|done| |done].
    intros q Hq. destruct (Hsound q Hq) as [?|(p' & ? & ?)]; [by left|right]. exists p'. split; [by right|done].
  - destruct (Hdfs p visited) as (v1 & Hv1 & [Hm1 Hs1 Hn1 Hsound1 Hc1]); [by left|done..|]. rewrite Hv1. cbn.
    destruct (IH v1) as (v' & Hv & [Hm Hs Hn Hsound Hc]).
    { intros p' v Hp' Hnv Hsub. apply Hdfs; [by right|done|]. by etrans. }
    exists v'. split; [done|]. split.
    + by etrans.
    + set_solver.
    + auto.
    + intros q Hq. destruct (Hsound q Hq) as [Hq1|(p' & ? & ?)]; [|right; exists p'; split; [by right|done] ].
      destruct (Hsound1 q Hq1) as [?|(p' & Hp'%list_elem_of_singleton & ?)]; [by left|right]. subst. exists p.
      split; [by left|done].
    + intros p' q Hp' Hnv Hw. destruct (decide (p' ∈ v1)) as [Hin|Hnin]; [|by eapply Hc]. apply Hm. by eapply Hc1.
Qed.

Lemma DfsSrcGraph_searched g fuel t visited :
  graph_ok g → t ≠ PIPE_SIZE → t ∉ visited → (unseen visited < fuel)%nat →
  ∃ visited', DfsSrcGraph fuel g t visited = Some visited' ∧ searched g [t] visited visited'.
Proof.
  intros Hg. revert t visited. induction fuel as [|fuel IH]; intros t visited Ht Hn Hf; [lia|].
  rewrite DfsSrcGraph_S. destruct (graph_row g t Hg Ht) as (l & Hl & Hok). rewrite Hl. cbn [mbind option_bind].
  destruct (visit_searched g (DfsSrcGraph fuel g) l (set_insert t visited)) as (v' & Hv & [Hm Hs Hd Hsound Hc]).
  { intros p v Hp Hpv Hsub. apply IH; [by rewrite Forall_forall in Hok; auto|done|].
    assert (unseen v < unseen visited)%nat; [|lia]. apply (unseen_lt _ _ t); [|done..|].
    - intros q Hq. apply Hsub, elem_of_set_insert. by right.
    - apply Hsub, elem_of_set_insert. by left. }
  exists v'. split; [done|]. split.
  - intros q Hq. apply Hm, elem_of_set_insert. by right.
  - intros q ->%list_elem_of_singleton. apply Hm, elem_of_set_insert. by left.
  - intros. by apply Hd, NoDup_set_insert.
  - intros q Hq. destruct (Hsound q Hq) as [ [->|?]%elem_of_set_insert|(p & Hp & Hr)]; [right|by left|right].
    + exists t. split; [by left|done].
    + exists t. split; [by left|]. eapply rtc_l; [|done]. by exists l.
  - intros p q Hp Hnp Hw. destruct (decide (p = t)) as [->|Hne].
    + destruct Hw as (l' & Hl' & Hq). rewrite Hl in Hl'. injection Hl' as <-. by apply Hs.
    + apply (Hc p); [done| |done]. rewrite elem_of_set_insert. naive_solver.
Qed.

Lemma dfs_exact g t :
  graph_ok g → t ≠ PIPE_SIZE →
  ∃ v, DfsSrcGraph dfs_fuel g t [] = Some v ∧ NoDup v ∧ ∀ q, q ∈ v ↔ rtc (waits_for g) t q.
Proof.
  intros Hg Ht. destruct (DfsSrcGraph_searched g dfs_fuel t []) as (v & Hv & [Hm Hs Hd Hsound Hc]);
    [done|done|set_solver|by vm_compute; lia|].
  exists v. split; [done|]. split; [apply Hd, NoDup_nil_2|]. intros q. split.
  - intros Hq. destruct (Hsound q Hq) as [?%elem_of_nil|(p & ->%list_elem_of_singleton & ?)]; done.
  - intros Hr. assert (t ∈ v) as Ht' by (apply Hs; by left). clear -Hr Ht' Hc.
    induction Hr as [|x y z Hxy Hr IH]; [done|]. apply IH. apply (Hc x); [done|set_solver|done].
Qed.
