(* ===== verification/RingTheorems.v ===== *)
(** What [UpdateSyncInPipe] computes: the watermark of a pipe is the last start of
    a ring of flags that is closed on the pipe, and a wait of [PIPE_S] yields a
    barrier for exactly the pipes it depends on. *)
From stdpp Require Import base numbers option gmap strings sorting relations list.
From S2P Require Import Prelude.
From S2P Require Import RecordDefs.
From S2P Require Import EventDef.
From S2P Require Import EventContainer.
From S2P Require Import KernelRecords.
From S2P Require Import ParseBase.
From S2P Require Import ParseSync.
From S2P Require Import RecordParse.
From S2P Require Import WaitGraphProofs.
From S2P Require Import ParseExamples.

(** ** Rings of flags *)

(** A set with its serial number, or a wait. *)
Inductive ring_op := RSet (src dst ev n : Z) | RWait (src dst ev : Z).

Definition ring_step (o : ring_op) (r : Rings) : option Rings :=
  match o with RSet s d e n => ring_set s d e n r | RWait s d e => ring_wait s d e r end.

Fixpoint ring_steps (h : list ring_op) (r : Rings) : option Rings :=
  match h with [] => Some r | o :: h => r ← ring_step o r; ring_steps h r end.

(** A relay from pipe [p] to pipe [q]: a set of [p] with serial number [n], the
    wait that receives it, a set of the receiver, its wait, and so on. *)
Inductive path (p n : Z) : Z → list ring_op → Prop :=
  | path_one q e : path p n q [RSet p q e n; RWait p q e]
  | path_more q ops q' e m : path p n q ops → path p n q' (ops ++ [RSet q q' e m; RWait q q' e]).

(** A relay among the operations of a history, in their order. *)
Definition carried (h : list ring_op) (p q n : Z) : Prop := ∃ ops, path p n q ops ∧ ops `sublist_of` h.

(** A ring of [p] that starts at [n] is closed. *)
Definition ring (h : list ring_op) (p n : Z) : Prop := carried h p p n.

(** The last start of a closed ring, 0 when there is none. *)
Definition last_of (S : Z → Prop) (v : Z) : Prop := 0 <= v ∧ (∀ n, S n → n <= v) ∧ (v = 0 ∨ S v).

(** What is under way on a flag. *)
Definition on_edge (h : list ring_op) (q q' e p n : Z) : Prop :=
  (p = q ∧ RSet q q' e n ∈ h) ∨ ∃ ops m, path p n q ops ∧ ops ++ [RSet q q' e m] `sublist_of` h.

Lemma path_last p n q ops : path p n q ops → ∃ ops' s e, ops = ops' ++ [RWait s q e].
Proof.
  destruct 1 as [q e|q ops q' e m Hp]; [by exists [RSet p q e n], p, e|].
  exists (ops ++ [RSet q q' e m]), q, e. by rewrite <- app_assoc.
Qed.

Lemma sublist_snoc (ops h : list ring_op) o :
  ops `sublist_of` h ++ [o] ↔ ops `sublist_of` h ∨ ∃ ops', ops = ops' ++ [o] ∧ ops' `sublist_of` h.
Proof.
  rewrite sublist_app_r. split.
  - intros (l1 & l2 & -> & H1 & H2). apply sublist_cons_r in H2 as [H2%sublist_nil_r|(l' & -> & H2%sublist_nil_r)];
      subst; rewrite ?app_nil_r; eauto.
  - intros [Hs|(ops' & -> & Hs)]; [exists ops, []|exists ops', [o] ]; rewrite ?app_nil_r; repeat split; auto.
    apply sublist_nil_l.
Qed.

Lemma snoc_neq (ops ops' : list ring_op) o o' : o ≠ o' → ops ++ [o] ≠ ops' ++ [o'].
Proof. intros Hn E. apply app_inj_2 in E as [_ E]; [|done]. congruence. Qed.

Lemma carried_set h p q n s d e m : carried (h ++ [RSet s d e m]) p q n ↔ carried h p q n.
Proof.
  split; intros (ops & Hp & Hs); exists ops; (split; [done|]); [|by apply sublist_snoc; left].
  apply sublist_snoc in Hs as [?|(ops' & -> & _)]; [done|].
  apply path_last in Hp as (? & ? & ? & E). by apply snoc_neq in E.
Qed.

Lemma carried_wait h p q n s d e :
  carried (h ++ [RWait s d e]) p q n ↔ carried h p q n ∨ (q = d ∧ on_edge h s d e p n).
Proof.
  split.
  - intros (ops & Hp & Hs). apply sublist_snoc in Hs as [?|(ops' & -> & Hs)]; [left; by exists ops|right].
    remember (ops' ++ [RWait s d e]) as l eqn:E. destruct Hp as [q e0|q0 ops0 q e0 m0 Hp0].
    + change [RSet p q e0 n; RWait p q e0] with ([RSet p q e0 n] ++ [RWait p q e0]) in E.
      apply app_inj_2 in E as [<- [= -> -> ->] ]; [|done]. split; [done|]. left. split; [done|].
      by apply singleton_sublist_l.
    + change [RSet q0 q e0 m0; RWait q0 q e0] with ([RSet q0 q e0 m0] ++ [RWait q0 q e0]) in E.
      rewrite app_assoc in E. apply app_inj_2 in E as [<- [= -> -> ->] ]; [|done]. split; [done|]. right. eauto.
  - intros [(ops & Hp & Hs)|[-> [ [-> Hin]|(ops & m & Hp & Hs)] ] ].
    + exists ops. split; [done|]. apply sublist_snoc. by left.
    + exists [RSet s d e n; RWait s d e]. split; [constructor|]. apply sublist_snoc. right.
      exists [RSet s d e n]. split; [done|]. by apply singleton_sublist_l.
    + exists (ops ++ [RSet s d e m; RWait s d e]). split; [by constructor|]. apply sublist_snoc. right.
      exists (ops ++ [RSet s d e m]). by rewrite <- app_assoc.
Qed.

Lemma on_edge_wait h s d e q q' f p n : on_edge (h ++ [RWait s d e]) q q' f p n ↔ on_edge h q q' f p n.
Proof.
  unfold on_edge. split.
  - intros [ [-> Hin]|(ops & m & Hp & Hs)].
    + left. split; [done|]. apply elem_of_app in Hin as [?|Hin%list_elem_of_singleton]; done.
    + right. exists ops, m. split; [done|]. apply sublist_snoc in Hs as [?|(ops' & E & _)]; [done|].
      by apply snoc_neq in E.
  - intros [ [-> Hin]|(ops & m & Hp & Hs)]; [left; split; [done|]; set_solver|].
    right. exists ops, m. split; [done|]. apply sublist_snoc. by left.
Qed.

Lemma on_edge_set h s d e m q q' f p n :
  on_edge (h ++ [RSet s d e m]) q q' f p n ↔
  on_edge h q q' f p n ∨ ((q, q', f) = (s, d, e) ∧ ((p = s ∧ n = m) ∨ carried h p s n)).
Proof.
  unfold on_edge. split.
  - intros [ [-> Hin]|(ops & m' & Hp & Hs)].
    + apply elem_of_app in Hin as [?|Hin%list_elem_of_singleton]; [by eauto|].
      right. injection Hin as -> -> -> ->. auto.
    + apply sublist_snoc in Hs as [?|(ops' & E & Hs)]; [left; right; eauto|].
      apply app_inj_2 in E as [<- [= -> -> -> ->] ]; [|done]. right. split; [done|]. right. by exists ops.
  - intros [ [ [-> Hin]|(ops & m' & Hp & Hs)]|[ [= -> -> ->] [ [-> ->]|(ops & Hp & Hs)] ] ].
    + left. set_solver.
    + right. exists ops, m'. split; [done|]. apply sublist_snoc. by left.
    + left. set_solver.
    + right. exists ops, m. split; [done|]. apply sublist_snoc. right. eauto.
Qed.

Lemma last_of_union S T v w : last_of S v → last_of T w → last_of (λ n, S n ∨ T n) (Z.max v w).
Proof.
  intros (Hv & HS & Hv') (Hw & HT & Hw'). split; [lia|]. split.
  - intros n [Hn%HS|Hn%HT]; lia.
  - destruct (Z.max_spec v w) as [ [? ->]|[? ->] ]; [destruct Hw'; auto|destruct Hv'; auto].
Qed.

Lemma last_of_iff S T v : (∀ n, S n ↔ T n) → last_of S v → last_of T v.
Proof. intros HST (H0 & H1 & H2). split; [done|]. split; [intros n Hn; apply H1, HST, Hn|]. naive_solver. Qed.

Lemma last_of_none (S : Z → Prop) : (∀ n, ¬ S n) → last_of S 0.
Proof. intros HS. split; [lia|]. split; [intros n []%HS|by left]. Qed.

Lemma last_of_singleton m : 0 <= m → last_of (λ n, n = m) m.
Proof. intros. split; [done|]. split; [intros n ->; lia|by right]. Qed.

(** ** The invariant *)

Definition pipe_index (p : Z) : Prop := 0 <= p < SIZE.

(** A row of start points, one per pipe. *)
Definition row_ok (S : Z → Z → Prop) (row : list Z) : Prop :=
  ∀ p, pipe_index p → ∃ v, at_index row p = Some v ∧ last_of (S p) v.

Record rings_ok (h : list ring_op) (r : Rings) : Prop := {
  ok_edges : ∀ q q' e, pipe_index q → pipe_index q' →
    match edgeStartPoints_ r !! (q, q', e) with
    | Some row => row_ok (on_edge h q q' e) row ∧ length row = Z.to_nat SIZE
    | None => ∀ p n, ¬ on_edge h q q' e p n
    end;
  ok_inherited : ∀ q, pipe_index q → ∃ row, at_index (inheritedStartPoints_ r) q = Some row ∧
    length row = Z.to_nat SIZE ∧ row_ok (λ p, carried h p q) row;
  ok_closed : row_ok (ring h) (closedRingStartSerialNo_ r);
}.

Definition op_ok (o : ring_op) : Prop :=
  match o with
  | RSet s d _ n => pipe_index s ∧ pipe_index d ∧ 0 <= n
  | RWait s d _ => pipe_index s ∧ pipe_index d
  end.

Lemma at_index_set {A} (l : list A) i j (x : A) v :
  0 <= i → at_index l i = Some v → 0 <= j → at_index (set_index l i x) j = if decide (i = j) then Some x else at_index l j.
Proof.
  unfold at_index, set_index. intros Hi Hl Hj. destruct (Z.leb_spec 0 i) as [_|]; [|lia].
  destruct (Z.leb_spec 0 j) as [_|]; [|lia].
  case_decide as E; [subst; apply list_lookup_insert_eq; by eapply lookup_lt_Some|].
  apply list_lookup_insert_ne. lia.
Qed.

Lemma row_ok_iff S T row : (∀ p n, S p n ↔ T p n) → row_ok S row → row_ok T row.
Proof. intros HST HS p Hp. destruct (HS p Hp) as (v & ? & ?). exists v. split; [done|]. eapply last_of_iff; [apply HST|done]. Qed.

Lemma row_ok_max S T a b :
  length a = length b → row_ok S a → row_ok T b → row_ok (λ p n, S p n ∨ T p n) (max_points a b).
Proof.
  intros Hl Ha Hb p Hp. destruct (Ha p Hp) as (v & Hv & ?), (Hb p Hp) as (w & Hw & ?).
  exists (Z.max v w). split; [|by apply last_of_union].
  unfold at_index, max_points in *. case_match; [|done]. rewrite lookup_zip_with, Hv. cbn. by rewrite Hw.
Qed.

Lemma row_ok_set S row q m v :
  pipe_index q → 0 <= m → at_index row q = Some v → row_ok S row →
  row_ok (λ p n, S p n ∨ (p = q ∧ n = m)) (set_index row q (Z.max v m)).
Proof.
  intros Hq Hm Hv Hr p Hp. destruct (Hr p Hp) as (w & Hw & Hlast).
  erewrite at_index_set; [|apply Hq|done|apply Hp]. case_decide as E.
  - subst p. assert (w = v) as -> by congruence. exists (Z.max v m). split; [done|].
    eapply last_of_iff; [|apply (last_of_union _ _ _ _ Hlast (last_of_singleton m Hm))]. naive_solver.
  - exists w. split; [done|]. eapply last_of_iff; [|done]. naive_solver.
Qed.

Lemma row_ok_none S : (∀ p n, ¬ S p n) → row_ok S no_points.
Proof.
  intros HS p [Hp1 Hp2]. exists 0. split; [|by apply last_of_none].
  unfold at_index, no_points. destruct (Z.leb_spec 0 p); [|lia]. apply lookup_replicate. split; [done|lia].
Qed.

Lemma length_max_points a b : length a = length b → length (max_points a b) = length a.
Proof. intros. unfold max_points. rewrite length_zip_with. lia. Qed.

Lemma length_set_index {A} (l : list A) i x : length (set_index l i x) = length l.
Proof. apply length_insert. Qed.

Lemma ring_set_ok h r s d e m :
  op_ok (RSet s d e m) → rings_ok h r → ∃ r', ring_set s d e m r = Some r' ∧ rings_ok (h ++ [RSet s d e m]) r'.
Proof.
  intros (Hs & Hd & Hm) [He Hi Hc]. destruct (Hi s Hs) as (inh & Hinh & Hlen & Hrow).
  unfold ring_set. set (edge := default no_points _).
  assert (row_ok (on_edge h s d e) edge ∧ length edge = Z.to_nat SIZE) as [Hedge Hlen'].
  { specialize (He s d e Hs Hd). unfold edge. case_match; [done|]. split; [by apply row_ok_none|].
    apply length_replicate. }
  pose proof (row_ok_max _ _ _ _ (eq_trans Hlen' (eq_sym Hlen)) Hedge Hrow) as Hmax.
  destruct (Hmax s Hs) as (v & Hv & Hlast). rewrite Hinh. cbn [mbind option_bind]. rewrite Hv. cbn [mbind option_bind].
  eexists. split; [done|]. split; cbn.
  - intros q q' f Hq Hq'. destruct (decide ((q, q', f) = (s, d, e))) as [E|E].
    + rewrite E, lookup_insert_eq. injection E as -> -> ->. split.
      * eapply row_ok_iff; [|exact (row_ok_set _ _ s m v Hs Hm Hv Hmax)]. intros p n. rewrite on_edge_set. naive_solver.
      * rewrite length_set_index, length_max_points; [exact Hlen'|by rewrite Hlen, Hlen'].
    + rewrite lookup_insert_ne by congruence. specialize (He q q' f Hq Hq'). case_match.
      * destruct He as [He ?]. split; [|done]. eapply row_ok_iff; [|done]. intros p n. rewrite on_edge_set. naive_solver.
      * intros p n. rewrite on_edge_set. naive_solver.
  - intros q Hq. destruct (Hi q Hq) as (row & ? & ? & ?). exists row. split_and!; [done..|].
    eapply row_ok_iff; [|done]. intros. by rewrite carried_set.
  - eapply row_ok_iff; [|done]. intros. unfold ring. by rewrite carried_set.
Qed.

Lemma ring_wait_ok h r s d e :
  op_ok (RWait s d e) → rings_ok h r → ∃ r', ring_wait s d e r = Some r' ∧ rings_ok (h ++ [RWait s d e]) r'.
Proof.
  intros (Hs & Hd) [He Hi Hc]. unfold ring_wait. pose proof (He s d e Hs Hd) as Hedge.
  destruct (edgeStartPoints_ r !! (s, d, e)) as [edge|].
  - destruct Hedge as [Hedge Hlen]. destruct (Hi d Hd) as (inh & Hinh & Hlen' & Hrow).
    destruct (Hedge d Hd) as (own & Hown & Hlast), (Hc d Hd) as (closed & Hclosed & Hlast').
    rewrite Hinh, Hown, Hclosed. cbn. eexists. split; [done|]. split; cbn.
    + intros q q' f Hq Hq'. specialize (He q q' f Hq Hq'). case_match.
      * destruct He. split; [|done]. eapply row_ok_iff; [|done]. intros. by rewrite on_edge_wait.
      * intros p n. by rewrite on_edge_wait.
    + intros q Hq. destruct (Hi q Hq) as (row & Hrow1 & Hrow2 & Hrow3).
      erewrite at_index_set; [|apply Hd|done|apply Hq]. case_decide as E.
      * subst q. exists (max_points inh edge). split; [done|]. rewrite length_max_points by congruence. split; [done|].
        eapply row_ok_iff; [|apply row_ok_max; [congruence|apply Hrow|apply Hedge] ].
        intros p n. rewrite carried_wait. naive_solver.
      * exists row. split_and!; [done..|]. eapply row_ok_iff; [|done]. intros p n. rewrite carried_wait. naive_solver.
    + intros p Hp. erewrite at_index_set; [|apply Hd|done|apply Hp]. case_decide as E.
      * subst p. eexists. split; [done|]. eapply last_of_iff; [|by apply last_of_union].
        intros n. unfold ring. rewrite carried_wait. naive_solver.
      * destruct (Hc p Hp) as (v & ? & ?). exists v. split; [done|]. eapply last_of_iff; [|done].
        intros n. unfold ring. rewrite carried_wait. naive_solver.
  - eexists. split; [done|]. split.
    + intros q q' f Hq Hq'. specialize (He q q' f Hq Hq'). case_match.
      * destruct He. split; [|done]. eapply row_ok_iff; [|done]. intros. by rewrite on_edge_wait.
      * intros p n. by rewrite on_edge_wait.
    + intros q Hq. destruct (Hi q Hq) as (row & ? & ? & ?). exists row. split_and!; [done..|].
      eapply row_ok_iff; [|done]. intros p n. rewrite carried_wait. naive_solver.
    + eapply row_ok_iff; [|done]. intros p n. unfold ring. rewrite carried_wait. naive_solver.
Qed.

Lemma ring_step_ok h r o : op_ok o → rings_ok h r → ∃ r', ring_step o r = Some r' ∧ rings_ok (h ++ [o]) r'.
Proof. destruct o; [apply ring_set_ok|apply ring_wait_ok]. Qed.

Lemma carried_nil p q n : ¬ carried [] p q n.
Proof. intros (ops & Hp & ->%sublist_nil_r). apply path_last in Hp as (? & ? & ? & E). by destruct x. Qed.

Lemma on_edge_nil q q' e p n : ¬ on_edge [] q q' e p n.
Proof.
  intros [ [_ ?%elem_of_nil]|(ops & m & _ & Hs%sublist_nil_r)]; [done|]. by destruct ops.
Qed.

Lemma new_rings_ok : rings_ok [] new_rings.
Proof.
  split; unfold new_rings; cbn [edgeStartPoints_ inheritedStartPoints_ closedRingStartSerialNo_].
  - intros. rewrite lookup_empty. intros. apply on_edge_nil.
  - intros q [Hq1 Hq2]. exists no_points. split_and!.
    + unfold at_index. destruct (Z.leb_spec 0 q); [|lia]. apply lookup_replicate. split; [done|lia].
    + apply length_replicate.
    + apply row_ok_none. intros. apply carried_nil.
  - apply row_ok_none. intros. apply carried_nil.
Qed.

(** ** Calls of [UpdateSyncInPipe] *)

(** What a call adds to the graph of waits: a wait of the second pipe for the
    first, or a memory access of a pipe. *)
Inductive graph_op := GWait (src dst : PipeType) | GMem (p : PipeType).

(** [p] has waited for [q], and [q] has accessed no memory since. *)
Definition waited (h : list graph_op) (p q : PipeType) : Prop :=
  ∃ h1 h2, h = h1 ++ GWait q p :: h2 ∧ GMem q ∉ h2.

Lemma waited_wait h s d p q : waited (h ++ [GWait s d]) p q ↔ waited h p q ∨ (p = d ∧ q = s).
Proof.
  split.
  - intros (h1 & h2 & E & Hn). destruct h2 as [|o h2' _] using rev_ind.
    + apply app_inj_2 in E as [_ [= -> ->] ]; [by right|done].
    + left. rewrite app_comm_cons, app_assoc in E. apply app_inj_2 in E as [-> _]; [|done].
      exists h1, h2'. split; [done|]. set_solver.
  - intros [(h1 & h2 & -> & Hn)|[-> ->] ].
    + exists h1, (h2 ++ [GWait s d]). rewrite <- app_assoc. split; [done|]. rewrite elem_of_app, list_elem_of_singleton.
      naive_solver.
    + exists h, []. split; [done|]. apply not_elem_of_nil.
Qed.

Lemma waited_mem h x p q : waited (h ++ [GMem x]) p q ↔ waited h p q ∧ q ≠ x.
Proof.
  split.
  - intros (h1 & h2 & E & Hn). destruct h2 as [|o h2' _] using rev_ind.
    + by apply app_inj_2 in E as [_ ?].
    + rewrite app_comm_cons, app_assoc in E. apply app_inj_2 in E as [-> [= <-] ]; [|done].
      split; [exists h1, h2'; split; [done|]; set_solver|]. intros ->. set_solver.
  - intros [(h1 & h2 & -> & Hn) Hne]. exists h1, (h2 ++ [GMem x]). rewrite <- app_assoc. split; [done|].
    rewrite elem_of_app, list_elem_of_singleton. naive_solver.
Qed.

Section calls.
Context `{ParseEnv}.

(** The synchronisation a call takes into account: the last event, when both its
    pipes have an index. *)
Definition call_sync (events : list SanEvent) : option (SanEvent * SyncOpInfo) :=
  match last events with
  | Some event =>
      match eventInfo event with
      | SyncInfo i =>
          if bool_decide (sync_srcPipe i = PIPE_SIZE) || bool_decide (sync_dstPipe i = PIPE_SIZE) then None
          else Some (event, i)
      | _ => None
      end
  | None => None
  end.

Definition ring_ops (events : list SanEvent) : list ring_op :=
  match call_sync events with
  | Some (event, i) =>
      let s := PipeType_code (sync_srcPipe i) in
      let d := PipeType_code (sync_dstPipe i) in
      match sync_opType i with
      | SET_FLAG => [RSet s d (latestEventId i) (serialNo event)]
      | WAIT_FLAG => [RWait s d (latestEventId i)]
      | _ => []
      end
  | None => []
  end.

Definition graph_ops (events : list SanEvent) : list graph_op :=
  match call_sync events with
  | Some (_, i) => match sync_opType i with WAIT_FLAG => [GWait (sync_srcPipe i) (sync_dstPipe i)] | _ => [] end
  | None =>
      match last events with
      | Some event => match eventInfo event with MemInfo _ => [GMem (pipe event)] | _ => [] end
      | None => []
      end
  end.

(** A call between two resets: serial numbers are not negative, and a wait of
    [PIPE_S] comes from a record that starts with its location. *)
Definition call_ok (c : KernelRecord * list SanEvent) : Prop :=
  is_finish (kr_recordType c.1) = false ∧
  Forall (λ e, 0 <= serialNo e) c.2 ∧
  (∀ s, GWait s PIPE_S ∈ graph_ops c.2 → is_Some (payload_location (kr_payload c.1))).

Fixpoint updates (calls : list (KernelRecord * list SanEvent)) (rp : RecordParse) : option RecordParse :=
  match calls with
  | [] => Some rp
  | c :: calls => '(rp, _) ← UpdateSyncInPipe c.1 c.2 rp; updates calls rp
  end.

Definition synced (rh : list ring_op) (gh : list graph_op) (rp : RecordParse) : Prop :=
  rings_ok rh (rings rp) ∧ graph_ok (dstSrcGraph_ rp) ∧ ∀ p q, waits_for (dstSrcGraph_ rp) p q ↔ waited gh p q.

Lemma waits_for_erase g x p q : waits_for (set_erase x <$> g) p q ↔ waits_for g p q ∧ q ≠ x.
Proof.
  unfold waits_for, at_index. destruct (0 <=? PipeType_code p); [|naive_solver].
  rewrite list_lookup_fmap. split.
  - intros (l & Hl & Hq). apply fmap_Some in Hl as (l' & Hl & ->). unfold set_erase in Hq.
    apply list_elem_of_filter in Hq as [Hne Hq]. eauto.
  - intros [(l & Hl & Hq) Hne]. exists (set_erase x l). rewrite Hl. split; [done|].
    unfold set_erase. by apply list_elem_of_filter.
Qed.

Lemma graph_ok_erase g x : graph_ok g → graph_ok (set_erase x <$> g).
Proof.
  intros [Hl Hf]. split; [by rewrite length_fmap|]. apply Forall_fmap. eapply Forall_impl; [done|].
  intros l Hl'. unfold compose, set_erase. apply Forall_forall. intros y Hy.
  apply list_elem_of_filter in Hy as [_ Hy]. rewrite Forall_forall in Hl'. auto.
Qed.

Lemma ring_PipeType_code_inj p q : PipeType_code p = PipeType_code q → p = q.
Proof. by destruct p, q. Qed.

Lemma PipeType_code_nonneg p : 0 <= PipeType_code p.
Proof. by destruct p. Qed.

Lemma pipe_index_code p : p ≠ PIPE_SIZE → pipe_index (PipeType_code p).
Proof. destruct p; try done; intros _; unfold pipe_index, SIZE; cbn; lia. Qed.

Lemma waits_for_insert g s d l p q :
  at_index g (PipeType_code d) = Some l →
  waits_for (set_index g (PipeType_code d) (set_insert s l)) p q ↔ waits_for g p q ∨ (p = d ∧ q = s).
Proof.
  intros Hl. unfold waits_for. rewrite (at_index_set g _ _ _ l); [|apply PipeType_code_nonneg|done|apply PipeType_code_nonneg].
  case_decide as E.
  - apply ring_PipeType_code_inj in E as <-. rewrite Hl. split.
    + intros (l' & [= <-] & [->|?]%elem_of_set_insert); [by right|left; eauto].
    + intros [(l' & [= <-] & ?)|[_ ->] ]; eexists; (split; [done|]); apply elem_of_set_insert; auto.
  - split; [by left|]. intros [?|[-> _] ]; done.
Qed.

Lemma graph_ok_insert g s d l :
  graph_ok g → s ≠ PIPE_SIZE → at_index g (PipeType_code d) = Some l →
  graph_ok (set_index g (PipeType_code d) (set_insert s l)).
Proof.
  intros [Hlen Hf] Hs Hl. split; [by rewrite length_set_index|]. unfold set_index. apply Forall_insert; [done|].
  unfold at_index in Hl. case_match; [|done]. eapply Forall_lookup_1 in Hl; [|done].
  apply Forall_forall. intros y [->|Hy]%elem_of_set_insert; [done|]. by rewrite Forall_forall in Hl; auto.
Qed.

(** Barriers for a list of pipes. *)
Definition is_barrier (record : KernelRecord) (e : SanEvent) : Prop :=
  eventInfo e = SyncInfo (barrier_info PIPE_BARRIER MemType.UNKNOWN) ∧ serialNo e = kr_serialNo record.

Lemma run_barriers record l pipes rp :
  ∃ rp' es, run (emit_barriers record l pipes) rp = Some ((), rp', es) ∧ pipe <$> es = pipes ∧
    Forall (is_barrier record) es ∧ rings rp' = rings rp ∧ dstSrcGraph_ rp' = dstSrcGraph_ rp.
Proof.
  unfold run. enough (∃ b es, emit_barriers record l pipes (rp_base rp) = Some ((), b, es) ∧ pipe <$> es = pipes ∧
    Forall (is_barrier record) es) as (b & es & E & ? & ?).
  { rewrite E. cbn. do 2 eexists. split_and!; done. }
  generalize (rp_base rp). clear rp. induction pipes as [|p pipes IH]; intros b.
  { exists b, []. split_and!; [done..|constructor]. }
  assert (∃ b1 e, (e ← CreateInnerPipeSyncEvent record p l; emit e) b = Some ((), b1, [e]) ∧ pipe e = p ∧
    is_barrier record e) as (b1 & e & E & Hp & Hb).
  { unfold CreateInnerPipeSyncEvent, SetLocationInfo, mbind, P_bind.
    destruct (map_ref false (loc_blockId l) (mapAtomicMode b)). cbn. do 2 eexists. split; done. }
  destruct (IH b1) as (b2 & es & E' & Hps & Hbs). exists b2, (e :: es). split.
  { change (emit_barriers record l (p :: pipes)) with
      ((e ← CreateInnerPipeSyncEvent record p l; emit e);; emit_barriers record l pipes).
    unfold mbind at 1, P_bind at 1. by rewrite E, E'. }
  split.
  - cbn. by f_equal.
  - by constructor.
Qed.

(** What a call appends: a barrier for each pipe a waiting [PIPE_S] depends on,
    nothing otherwise. *)
Definition barriers_ok (record : KernelRecord) (gh new : list graph_op) (es : list SanEvent) : Prop :=
  (∀ s, GWait s PIPE_S ∈ new → NoDup (pipe <$> es) ∧ Forall (is_barrier record) es ∧
        ∀ q, q ∈ pipe <$> es ↔ rtc (waited (gh ++ new)) s q) ∧
  ((∀ s, GWait s PIPE_S ∉ new) → es = []).

Lemma barriers_none record gh new : (∀ s, GWait s PIPE_S ∉ new) → barriers_ok record gh new [].
Proof. intros Hn. split; [|done]. intros s []%Hn. Qed.

Lemma latestEventId_valid i : (VALID_EVENT_ID_SIZE <=? latestEventId i) = false.
Proof.
  apply Z.leb_gt. unfold latestEventId. change (VALID_EVENT_ID_SIZE - 1) with (Z.ones 3).
  rewrite Z.land_ones by lia. by apply (Z.mod_pos_bound _ 8).
Qed.

Lemma PipeType_code_size p : (SIZE <=? PipeType_code p) = bool_decide (p = PIPE_SIZE).
Proof. by destruct p. Qed.

(** A wait, up to the barriers. *)
Lemma wait_synced rh gh rp s d e :
  s ≠ PIPE_SIZE → d ≠ PIPE_SIZE → synced rh gh rp →
  ∃ srcs r, at_index (dstSrcGraph_ rp) (PipeType_code d) = Some srcs ∧
    ring_wait (PipeType_code s) (PipeType_code d) e (rings rp) = Some r ∧
    synced (rh ++ [RWait (PipeType_code s) (PipeType_code d) e]) (gh ++ [GWait s d])
      (with_rings r (with_graph (set_index (dstSrcGraph_ rp) (PipeType_code d) (set_insert s srcs)) rp)).
Proof.
  intros Hs Hd (Hr & Hg & Hw). destruct (graph_row _ d Hg Hd) as (srcs & Hl & _).
  destruct (ring_wait_ok rh (rings rp) (PipeType_code s) (PipeType_code d) e) as (r & Hrw & Hr');
    [by split; apply pipe_index_code|done|].
  exists srcs, r. split_and!; [done..|]. split_and!; cbn; [done|by apply graph_ok_insert|].
  intros p q. rewrite waits_for_insert by done. by rewrite Hw, waited_wait.
Qed.

Lemma synced_eq rh gh rp rp' :
  rings rp' = rings rp → dstSrcGraph_ rp' = dstSrcGraph_ rp → synced rh gh rp → synced rh gh rp'.
Proof. unfold synced. by intros -> ->. Qed.

Lemma rtc_iff {A} (R S : relation A) : (∀ x y, R x y ↔ S x y) → ∀ x y, rtc R x y ↔ rtc S x y.
Proof. intros HRS x y. split; apply rtc_subrel; intros ??; apply HRS. Qed.

Lemma update_wait record rh gh rp s d e l :
  s ≠ PIPE_SIZE → d ≠ PIPE_SIZE → (d = PIPE_S → payload_location (kr_payload record) = Some l) → synced rh gh rp →
  ∃ rp' es,
    (srcs ← at_index (dstSrcGraph_ rp) (PipeType_code d);
     let rp := with_graph (set_index (dstSrcGraph_ rp) (PipeType_code d) (set_insert s srcs)) rp in
     r ← ring_wait (PipeType_code s) (PipeType_code d) e (rings rp);
     let rp := with_rings r rp in
     if bool_decide (d = PIPE_S) then
       reachable ← DfsSrcGraph dfs_fuel (dstSrcGraph_ rp) s [];
       l ← payload_location (kr_payload record);
       '(_, rp, es) ← run (emit_barriers record l reachable) rp;
       Some (rp, es)
     else Some (rp, [])) = Some (rp', es) ∧
    synced (rh ++ [RWait (PipeType_code s) (PipeType_code d) e]) (gh ++ [GWait s d]) rp' ∧
    barriers_ok record gh [GWait s d] es.
Proof.
  intros Hs Hd Hloc Hsync. destruct (wait_synced rh gh rp s d e Hs Hd Hsync) as (srcs & r & Hl & Hr & Hsync').
  rewrite Hl. cbn [mbind option_bind with_graph rings]. rewrite Hr. cbn [mbind option_bind].
  set (rp1 := with_rings r _) in *. case_bool_decide as E.
  - destruct Hsync' as (Hr' & Hg & Hw). destruct (dfs_exact _ s Hg Hs) as (v & Hv & Hnd & Hin). rewrite Hv.
    cbn [mbind option_bind]. rewrite (Hloc E). cbn [mbind option_bind].
    destruct (run_barriers record l v rp1) as (rp2 & es & Hrun & Hp & Hb & Hr2 & Hg2). rewrite Hrun. cbn [mbind option_bind].
    exists rp2, es. split; [done|]. split; [by eapply synced_eq|]. split.
    + intros s' Hs'%list_elem_of_singleton. injection Hs' as -> _. rewrite Hp. split_and!; [done..|].
      intros q. rewrite Hin. by apply rtc_iff.
    + intros Hn. destruct (Hn s). rewrite E. by left.
  - do 2 eexists. split; [done|]. split; [done|]. apply barriers_none. intros s' Hs'%list_elem_of_singleton.
    injection Hs'. congruence.
Qed.

Lemma update_step c rh gh rp :
  call_ok c → synced rh gh rp →
  ∃ rp' es, UpdateSyncInPipe c.1 c.2 rp = Some (rp', es) ∧
    synced (rh ++ ring_ops c.2) (gh ++ graph_ops c.2) rp' ∧ barriers_ok c.1 gh (graph_ops c.2) es.
Proof.
  destruct c as [record events]. intros (Hf & Hserial & Hloc) Hsync. cbn [fst snd] in *.
  unfold UpdateSyncInPipe, ring_ops, graph_ops, call_sync in *. rewrite Hf.
  assert (∀ gh', (∀ s, GWait s PIPE_S ∉ gh') → synced (rh ++ []) (gh ++ gh') rp →
    ∃ rp' es, Some (rp, []) = Some (rp', es) ∧ synced (rh ++ []) (gh ++ gh') rp' ∧ barriers_ok record gh gh' es) as Hskip.
  { intros gh' Hn Hs. exists rp, []. split_and!; [done..|]. by apply barriers_none. }
  destruct (last events) as [event|] eqn:Hlast; [|apply Hskip; [set_solver|by rewrite !app_nil_r] ].
  destruct (eventInfo event) as [|i|m| | | | | | | | | | | | ] eqn:Hinfo;
    try (apply Hskip; [set_solver|by rewrite !app_nil_r]).
  - rewrite !PipeType_code_size.
    destruct (bool_decide (sync_srcPipe i = PIPE_SIZE) || bool_decide (sync_dstPipe i = PIPE_SIZE)) eqn:Hsize;
      [apply Hskip; [set_solver|by rewrite !app_nil_r]|].
    apply orb_false_iff in Hsize as [Hs%bool_decide_eq_false Hd%bool_decide_eq_false].
    rewrite latestEventId_valid, andb_false_r.
    destruct (sync_opType i); try (apply Hskip; [set_solver|by rewrite !app_nil_r]).
    + destruct Hsync as (Hr & Hg & Hw).
      destruct (ring_set_ok rh (rings rp) (PipeType_code (sync_srcPipe i)) (PipeType_code (sync_dstPipe i))
        (latestEventId i) (serialNo event)) as (r & Hset & Hr'); [|done|].
      { split_and!; [by apply pipe_index_code..|]. apply last_Some_elem_of in Hlast.
        rewrite Forall_forall in Hserial. auto. }
      rewrite Hset. cbn [mbind option_bind]. do 2 eexists. split; [done|]. split; [|apply barriers_none; set_solver].
      rewrite app_nil_r. by split_and!.
    + destruct (decide (sync_dstPipe i = PIPE_S)) as [E|E].
      * destruct (Hloc (sync_srcPipe i)) as [l Hl]; [rewrite E; by left|]. apply (update_wait record _ _ _ _ _ _ l); done.
      * apply (update_wait record _ _ _ _ _ _ (Build_Location 0 0 0 0)); done.
  - do 2 eexists. split; [done|]. split; [|apply barriers_none; set_solver].
    destruct Hsync as (Hr & Hg & Hw). rewrite app_nil_r. split_and!; cbn; [done|by apply graph_ok_erase|].
    intros p q. by rewrite waits_for_erase, Hw, waited_mem.
Qed.

Lemma updates_synced calls rh gh rp :
  Forall call_ok calls → synced rh gh rp →
  ∃ rp', updates calls rp = Some rp' ∧
    synced (rh ++ (calls ≫= ring_ops ∘ snd)) (gh ++ (calls ≫= graph_ops ∘ snd)) rp'.
Proof.
  intros Hok. revert rh gh rp. induction Hok as [|c calls Hc Hok IH]; intros rh gh rp Hs.
  { exists rp. split; [done|]. cbn. by rewrite !app_nil_r. }
  destruct (update_step c rh gh rp Hc Hs) as (rp1 & es & Hu & Hs1 & _). cbn [updates]. rewrite Hu.
  destruct (IH _ _ _ Hs1) as (rp2 & Hu2 & Hs2). exists rp2. split; [done|]. cbn. by rewrite !app_assoc.
Qed.

Lemma reset_synced rp : synced [] [] (ResetSyncInPipeInfo rp).
Proof.
  split_and!; [apply new_rings_ok| |].
  - split; [done|]. by apply Forall_replicate.
  - intros p q. split.
    + intros (l & Hl & Hq). unfold at_index in Hl. case_match; [|done].
      apply lookup_replicate in Hl as [-> _]. by apply elem_of_nil in Hq.
    + by intros ([|] & ? & ? & _).
Qed.

(** ** Theorems *)

(** C13: Between two kernel or block ends the calls of [UpdateSyncInPipe] are
    defined, and the watermark of a pipe is exact: it is the largest serial
    number of a [SET_FLAG] of the pipe from which a relay of set and wait pairs
    has come back to the pipe, and 0 when there is none. *)
Theorem ring_watermark_exact calls rp p :
  Forall call_ok calls → p ≠ PIPE_SIZE →
  ∃ rp' v, updates calls (ResetSyncInPipeInfo rp) = Some rp' ∧
    at_index (closedRingStartSerialNo_ (rings rp')) (PipeType_code p) = Some v ∧
    last_of (ring (calls ≫= ring_ops ∘ snd) (PipeType_code p)) v.
Proof.
  intros Hok Hp. destruct (updates_synced calls [] [] _ Hok (reset_synced rp)) as (rp' & Hu & Hr & _).
  destruct (ok_closed _ _ Hr _ (pipe_index_code p Hp)) as (v & Hv & Hlast). by exists rp', v.
Qed.

(** C16: A call whose last event makes [PIPE_S] wait appends one barrier for each
    pipe [PIPE_S] now depends on, through any chain of waits that no later
    memory access of the awaited pipe has undone, and for no other pipe; every
    other call appends nothing. The depth-first search ends within its fuel. *)
Theorem scalar_wait_barriers_exact calls rp c :
  Forall call_ok (calls ++ [c]) →
  ∃ rp1 rp2 es, updates calls (ResetSyncInPipeInfo rp) = Some rp1 ∧ UpdateSyncInPipe c.1 c.2 rp1 = Some (rp2, es) ∧
    barriers_ok c.1 (calls ≫= graph_ops ∘ snd) (graph_ops c.2) es.
Proof.
  intros [Hok [Hc _]%Forall_cons_1]%Forall_app.
  destruct (updates_synced calls [] [] _ Hok (reset_synced rp)) as (rp1 & Hu & Hs).
  destruct (update_step c _ _ rp1 Hc Hs) as (rp2 & es & Hu2 & _ & Hb). by exists rp1, rp2, es.
Qed.
End calls.

(** ** Examples *)

Module RingExample.
Import ParseEx.

(** The calls made for flags given by type, pipes, event and serial number. *)
Definition call (op : SyncType) (s d : PipeType) (e n : Z) : KernelRecord * list SanEvent :=
  (flag (if bool_decide (op = SET_FLAG) then RecordType.SET_FLAG else RecordType.WAIT_FLAG) s d e n,
   [new_event n zero_LocInfo false (if bool_decide (op = SET_FLAG) then s else d)
      (SyncInfo {| sync_opType := op; sync_srcPipe := s; sync_dstPipe := d; sync_eventId := e;
                   sync_memType := MemType.UNKNOWN; sync_isRetrogress := false; sync_isGenerated := false |})]).

(** The usual double handshake of [MTE2] and [V], then [S] waits for [V]. *)
Definition handshake : list (KernelRecord * list SanEvent) :=
  [call SET_FLAG PIPE_MTE2 PIPE_V 0 5; call WAIT_FLAG PIPE_MTE2 PIPE_V 0 6;
   call SET_FLAG PIPE_V PIPE_MTE2 1 9; call WAIT_FLAG PIPE_V PIPE_MTE2 1 10;
   call SET_FLAG PIPE_V PIPE_S 2 11].
Definition scalar_wait := call WAIT_FLAG PIPE_V PIPE_S 2 12.

Lemma handshake_ok : Forall call_ok (handshake ++ [scalar_wait]).
Proof.
  repeat (apply Forall_cons; split; [split_and!; [done|by repeat constructor|intros; by eexists]|]). constructor.
Qed.
End RingExample.

Import ParseEx.

Lemma ring_watermark_exact_witness :
  Forall call_ok RingExample.handshake ∧
  ∃ rp' v, updates RingExample.handshake (ResetSyncInPipeInfo ParseEx.parser) = Some rp' ∧
    at_index (closedRingStartSerialNo_ (rings rp')) (PipeType_code PIPE_MTE2) = Some v ∧
    last_of (ring (RingExample.handshake ≫= ring_ops ∘ snd) (PipeType_code PIPE_MTE2)) v.
Proof.
  assert (Forall call_ok RingExample.handshake) as Hok
    by apply (proj1 (Forall_app _ _ _) RingExample.handshake_ok).
  split; [done|]. apply (ring_watermark_exact RingExample.handshake ParseEx.parser PIPE_MTE2); [done|discriminate].
Defined.

Lemma scalar_wait_barriers_exact_witness :
  Forall call_ok (RingExample.handshake ++ [RingExample.scalar_wait]) ∧
  ∃ rp1 rp2 es, updates RingExample.handshake (ResetSyncInPipeInfo ParseEx.parser) = Some rp1 ∧
    UpdateSyncInPipe RingExample.scalar_wait.1 RingExample.scalar_wait.2 rp1 = Some (rp2, es) ∧
    barriers_ok RingExample.scalar_wait.1 (RingExample.handshake ≫= graph_ops ∘ snd)
      (graph_ops RingExample.scalar_wait.2) es.
Proof.
  split; [apply RingExample.handshake_ok|].
  apply (scalar_wait_barriers_exact RingExample.handshake ParseEx.parser RingExample.scalar_wait).
  apply RingExample.handshake_ok.
Defined.

(** The ring from 5 is closed on [MTE2], the one from 9 is not yet closed on [V];
    [S] gets barriers of [V] and [MTE2]. *)
Lemma handshake_watermarks :
  match updates RingExample.handshake (ResetSyncInPipeInfo ParseEx.parser) with
  | Some rp =>
      match UpdateSyncInPipe RingExample.scalar_wait.1 RingExample.scalar_wait.2 rp with
      | Some (_, es) => Some (closedRingStartSerialNo_ (rings rp), map pipe es)
      | None => None
      end
  | None => None
  end =
  Some ([0; 0; 0; 0; 5; 0; 0; 0; 0; 0; 0; 0], [PIPE_V; PIPE_MTE2]).
Proof. vm_compute. reflexivity. Qed.
