(* ===== verification/PreProcessTheorems.v ===== *)
(** What [RecordPreProcess] hands to the parser: exactly the records outside the
    merged regions and the first of repeated waits, in their order, at the
    latest when the kernel or block ends. *)
From stdpp Require Import base numbers option gmap strings list.
From S2P Require Import Prelude.
From S2P Require Import RecordDefs.
From S2P Require Import EventDef.
From S2P Require Import KernelRecords.
From S2P Require Import ParseBase.
From S2P Require Import RecordParse.
From S2P Require Import RecordPreProcess.
From S2P Require Import ParseExamples.
Import Pre.

(** ** Specification *)

Definition odd_count (f : KernelRecord → bool) (b : list KernelRecord) : bool := Nat.odd (length (filter f b)).

Definition IsSyncAll (k : KernelRecord) : bool := RecordType.eqb (kr_recordType k) RecordType.SYNC_ALL_STUB.
Definition ends (k : KernelRecord) : bool := is_finish (kr_recordType k).

(** The kernel records since the last end of a kernel or block. *)
Definition extend (b : list KernelRecord) (r : SanitizerRecord) : list KernelRecord :=
  if bool_decide (version r = MEMORY_RECORD) then b
  else if ends (kernelRecord r) then [] else b ++ [kernelRecord r].
Definition block (h : list SanitizerRecord) : list KernelRecord := foldl extend [] h.

(** Merged regions lie between two records of the software synchronisation; in
    them only real synchronisation, every other [SyncAll] and the end remain. *)
Definition outside (b : list KernelRecord) (k : KernelRecord) : bool :=
  negb (odd_count IgnoreRecord (b ++ [k])) || IsRealSyncType (kr_recordType k) ||
  (IsSyncAll k && odd_count IsSyncAll (b ++ [k])) || ends k.

(** The mergeable waits of a block given from its last record back. *)
Fixpoint waits (rb : list KernelRecord) : list (MstxCrossRecord.t * Z) :=
  match rb with
  | [] => []
  | k :: rb =>
      if outside (reverse rb) k then match mstx_wait k with Some w => w :: waits rb | None => waits rb end
      else waits rb
  end.
Definition waits_of (b : list KernelRecord) : list (MstxCrossRecord.t * Z) := waits (reverse b).

(** A wait that equals one of the two waits before it. *)
Definition repeated (b : list KernelRecord) (k : KernelRecord) : bool :=
  match mstx_wait k with Some w => bool_decide (w ∈ take 2 (waits_of b)) | None => false end.

Definition keeps (b : list KernelRecord) (r : SanitizerRecord) : bool :=
  bool_decide (version r = KERNEL_RECORD) && outside b (kernelRecord r) && negb (repeated b (kernelRecord r)).

Fixpoint kept (b : list KernelRecord) (rs : list SanitizerRecord) : list SanitizerRecord :=
  match rs with
  | [] => []
  | r :: rs => (if keeps b r then [r] else []) ++ kept (extend b r) rs
  end.

(** The run: the state and everything handed over. *)
Fixpoint feed (rs : list SanitizerRecord) (s : RecordPreProcess) : RecordPreProcess * list SanitizerRecord :=
  match rs with
  | [] => (s, [])
  | r :: rs =>
      let '(s, out) := process_records r s in
      let '(s, out') := feed rs s in (s, out ++ out')
  end.

(** ** The invariant *)

Definition remembers (ws : list (MstxCrossRecord.t * Z)) (w : MstxCrossWaitMergeInfo) : Prop :=
  match ws with
  | [] => throughFirstWait w = false ∧ throughSecondWait w = false
  | [w1] => throughFirstWait w = true ∧ throughSecondWait w = false ∧
            firstPreRecord w = mkWaitInfo w1.1 w1.2
  | w2 :: w1 :: _ => throughFirstWait w = true ∧ throughSecondWait w = true ∧
                     firstPreRecord w = mkWaitInfo w1.1 w1.2 ∧ secondPreRecord w = mkWaitInfo w2.1 w2.2
  end.

Record follows (b : list KernelRecord) (s : RecordPreProcess) : Prop := {
  fol_merge : mstxMergeTag_ s = odd_count IgnoreRecord b;
  fol_sync : isFirstSyncAllStub_ s = odd_count IsSyncAll b;
  fol_waits : remembers (waits_of b) (waitMergeInfo_ s);
  fol_buffer : waits_of b = [] → recordBuffer_ s = [];
}.

Lemma odd_count_snoc f b k : odd_count f (b ++ [k]) = xorb (odd_count f b) (f k).
Proof.
  unfold odd_count. rewrite filter_app, length_app, Nat.odd_add. f_equal.
  rewrite filter_cons. by destruct (f k).
Qed.

Lemma waits_of_snoc b k :
  waits_of (b ++ [k]) =
  if outside b k then match mstx_wait k with Some w => w :: waits_of b | None => waits_of b end else waits_of b.
Proof. unfold waits_of. rewrite reverse_snoc. cbn. by rewrite reverse_involutive. Qed.

Lemma enter_tags b k s :
  mstxMergeTag_ s = odd_count IgnoreRecord b → isFirstSyncAllStub_ s = odd_count IsSyncAll b →
  mstxMergeTag_ (enter k s) = odd_count IgnoreRecord (b ++ [k]) ∧
  isFirstSyncAllStub_ (enter k s) = odd_count IsSyncAll (b ++ [k]).
Proof.
  intros H1 H2. rewrite !odd_count_snoc, <- H1, <- H2. unfold enter, UpdateMergeInfo, IsSyncAll.
  destruct (RecordType.eqb _ _), (IgnoreRecord k); cbn; by rewrite ?xorb_true_r, ?xorb_false_r.
Qed.

Lemma enter_rest k s : recordBuffer_ (enter k s) = recordBuffer_ s ∧ waitMergeInfo_ (enter k s) = waitMergeInfo_ s.
Proof. unfold enter. by case_match. Qed.

Lemma dropped_outside b k s :
  follows b s → dropped k (enter k s) = negb (outside b k).
Proof.
  intros [H1 H2 _ _]. destruct (enter_tags b k s H1 H2) as [E1 E2]. unfold dropped, outside. rewrite E1, E2.
  unfold IsSyncAll at 2, ends. by rewrite !negb_orb, negb_involutive.
Qed.

Lemma repeats_spec ws w i core tag :
  remembers ws w →
  repeats (mkMerge (firstPreRecord w) (secondPreRecord w) (throughFirstWait w) (throughSecondWait w) tag) i core =
  bool_decide ((i, core) ∈ take 2 ws).
Proof.
  assert (∀ p : MstxCrossRecord.t * Z, CrossWaitRecordIsEqual (mkWaitInfo p.1 p.2) i core = bool_decide ((i, core) = p)) as Heq.
  { intros [i' c']. unfold CrossWaitRecordIsEqual. cbn. rewrite <- Z.eqb_sym.
    repeat case_bool_decide; destruct (Z.eqb_spec core c'); naive_solver. }
  unfold repeats. destruct ws as [|w1 [|w2 ws] ]; cbn.
  - intros [-> ->]. cbn. rewrite bool_decide_eq_false_2; [done|]. apply not_elem_of_nil.
  - intros (-> & -> & ->). cbn. rewrite Heq, orb_false_r. apply bool_decide_ext. by rewrite list_elem_of_singleton.
  - intros (-> & -> & -> & ->). cbn. rewrite !Heq, <- bool_decide_or. apply bool_decide_ext.
    rewrite !elem_of_cons, elem_of_nil. naive_solver.
Qed.

Lemma remember_spec ws w i core tag tag' :
  remembers ws w →
  remembers ((i, core) :: ws)
    (remember (mkMerge (firstPreRecord w) (secondPreRecord w) (throughFirstWait w) (throughSecondWait w) tag) i core tag').
Proof.
  unfold remember. destruct ws as [|w1 [|w2 ws] ]; cbn.
  - by intros [-> ->].
  - by intros (-> & -> & ->).
  - by intros (-> & -> & _ & ->).
Qed.

Lemma remembers_tag ws w tag :
  remembers ws w →
  remembers ws (mkMerge (firstPreRecord w) (secondPreRecord w) (throughFirstWait w) (throughSecondWait w) tag).
Proof. by destruct ws as [|? [|] ]. Qed.

(** ** The run *)

(** The end of [Process]. *)
Definition hand_over (s : RecordPreProcess) : RecordPreProcess * list SanitizerRecord :=
  if negb (endTag (waitMergeInfo_ s)) then (s, []) else (ClearBuffer s, recordBuffer_ s).

Lemma hand_over_follows b s :
  mstxMergeTag_ s = odd_count IgnoreRecord b → isFirstSyncAllStub_ s = odd_count IsSyncAll b →
  remembers (waits_of b) (waitMergeInfo_ s) → (waits_of b = [] → endTag (waitMergeInfo_ s) = true) →
  follows b (hand_over s).1 ∧ (hand_over s).2 ++ recordBuffer_ (hand_over s).1 = recordBuffer_ s.
Proof.
  intros H1 H2 Hw Hend. unfold hand_over. destruct (endTag (waitMergeInfo_ s)) eqn:E; cbn.
  - split; [by split|]. by rewrite app_nil_r.
  - split; [|done]. split; [done..|]. intros Hn. by specialize (Hend Hn).
Qed.

Lemma mstx_wait_not_end k w : mstx_wait k = Some w → ends k = false.
Proof. unfold mstx_wait, mstx_cross, ends. by destruct (kr_recordType k). Qed.

Lemma wait_step b r s w :
  version r = KERNEL_RECORD → mstx_wait (kernelRecord r) = Some w → remembers (waits_of b) (waitMergeInfo_ s) →
  let s' := ProcessMstxCrossWaitRecord r s in
  remembers (w :: waits_of b) (waitMergeInfo_ s') ∧ mstxMergeTag_ s' = mstxMergeTag_ s ∧
  isFirstSyncAllStub_ s' = isFirstSyncAllStub_ s ∧
  recordBuffer_ s' = recordBuffer_ s ++ (if negb (repeated b (kernelRecord r)) then [r] else []).
Proof.
  intros Hv Hk Hw. unfold ProcessMstxCrossWaitRecord, repeated. rewrite bool_decide_eq_true_2 by done. rewrite Hk.
  destruct w as [i core]. cbn. split; [by apply remember_spec|]. rewrite (repeats_spec (waits_of b)) by done.
  case_match; cbn; rewrite ?app_nil_r; done.
Qed.

Lemma other_step b r s :
  version r = KERNEL_RECORD → mstx_wait (kernelRecord r) = None → remembers (waits_of b) (waitMergeInfo_ s) →
  let s' := ProcessMstxCrossWaitRecord r s in
  let b' := if ends (kernelRecord r) then [] else b in
  remembers (waits_of b') (waitMergeInfo_ s') ∧ mstxMergeTag_ s' = mstxMergeTag_ s ∧
  isFirstSyncAllStub_ s' = isFirstSyncAllStub_ s ∧ recordBuffer_ s' = recordBuffer_ s ++ [r] ∧
  (waits_of b' = [] → endTag (waitMergeInfo_ s') = true).
Proof.
  intros Hv Hk Hw. unfold ProcessMstxCrossWaitRecord, ends. rewrite bool_decide_eq_true_2 by done. rewrite Hk. cbn.
  destruct (is_finish _); [by split_and!|]. split_and!; [by apply remembers_tag|done..|].
  intros Hn. cbn. rewrite Hn in Hw. by destruct Hw as [-> _].
Qed.

Lemma leave_rest k s :
  recordBuffer_ (leave k s) = recordBuffer_ s ∧ waitMergeInfo_ (leave k s) = waitMergeInfo_ s ∧
  mstxMergeTag_ (leave k s) = (if ends k then false else mstxMergeTag_ s) ∧
  isFirstSyncAllStub_ (leave k s) = (if ends k then false else isFirstSyncAllStub_ s).
Proof. unfold leave, ends. by destruct (is_finish _). Qed.

Lemma extend_follows b r s :
  version r = KERNEL_RECORD → follows b s →
  follows (extend b r) (process_records r s).1 ∧
  (process_records r s).2 ++ recordBuffer_ (process_records r s).1 =
  recordBuffer_ s ++ (if keeps b r then [r] else []).
Proof.
  intros Hv Hf. pose proof (dropped_outside b (kernelRecord r) s Hf) as Hdrop.
  unfold process_records, keeps, extend. rewrite Hv. rewrite !bool_decide_eq_false_2 by done.
  rewrite bool_decide_eq_true_2 by done. cbn [negb andb]. set (k := kernelRecord r) in *.
  destruct Hf as [H1 H2 Hw Hb]. destruct (enter_tags b k s H1 H2) as [E1 E2], (enter_rest k s) as [E3 E4].
  destruct (leave_rest k (enter k s)) as (L1 & L2 & L3 & L4). rewrite E3 in L1. rewrite E4 in L2.
  rewrite E1 in L3. rewrite E2 in L4. rewrite Hdrop.
  destruct (outside b k) eqn:Hout; cbn [negb andb].
  - set (s1 := leave k (enter k s)) in *.
    fold (hand_over (ProcessMstxCrossWaitRecord r s1)). rewrite <- L1. rewrite <- L2 in Hw.
    destruct (mstx_wait k) as [w|] eqn:Hk.
    + destruct (wait_step b r s1 w Hv Hk Hw) as (W1 & W2 & W3 & W4). fold k in W4. rewrite <- W4.
      rewrite (mstx_wait_not_end k w Hk) in *.
      apply hand_over_follows; rewrite ?waits_of_snoc, ?Hout, ?Hk; congruence.
    + destruct (other_step b r s1 Hv Hk Hw) as (W1 & W2 & W3 & W4 & W5). fold k in W1, W5.
      assert (repeated b k = false) as -> by (unfold repeated; by rewrite Hk). cbn [negb]. rewrite <- W4.
      revert W1 W5 L3 L4. destruct (ends k); intros;
        apply hand_over_follows; rewrite ?waits_of_snoc, ?Hout, ?Hk; first [congruence|by rewrite ?W2, ?W3, ?L3, ?L4|done].
  - assert (ends k = false) as ->. { unfold outside in Hout. by apply orb_false_iff in Hout as [_ ?]. }
    cbn [fst snd]. split; [|by rewrite E3, app_nil_r]. split; [done|done| |].
    + by rewrite waits_of_snoc, Hout, E4.
    + by rewrite waits_of_snoc, Hout, E3.
Qed.

Lemma feed_kept rs b s :
  Forall (λ r, version r = MEMORY_RECORD ∨ version r = KERNEL_RECORD) rs → follows b s →
  follows (foldl extend b rs) (feed rs s).1 ∧
  (feed rs s).2 ++ recordBuffer_ (feed rs s).1 = recordBuffer_ s ++ kept b rs.
Proof.
  intros Hv. revert b s. induction Hv as [|r rs Hr Hv IH]; intros b s Hf; [by rewrite app_nil_r|].
  cbn [feed kept foldl]. destruct (process_records r s) as [s1 out] eqn:Hp.
  assert (follows (extend b r) s1 ∧ out ++ recordBuffer_ s1 = recordBuffer_ s ++ (if keeps b r then [r] else []))
    as [Hf1 Hout].
  { destruct Hr as [Hr|Hr].
    - unfold process_records in Hp. unfold extend, keeps. rewrite Hr in *. cbn in *. injection Hp as <- <-.
      by rewrite app_nil_r.
    - pose proof (extend_follows b r s Hr Hf) as He. by rewrite Hp in He. }
  destruct (IH _ _ Hf1) as [Hf2 Hout2]. destruct (feed rs s1) as [s2 out2]. cbn [fst snd] in *.
  split; [done|]. by rewrite <- app_assoc, Hout2, !app_assoc, Hout.
Qed.

Lemma follows_new : follows [] new_RecordPreProcess.
Proof. by split. Qed.

(** ** Theorems *)

(** C12: From a fresh state, what the pre-processor has handed to the parser
    followed by what it still holds is exactly the sequence of kernel records
    outside the merged regions that do not repeat one of the two waits before
    them: nothing is reordered, duplicated or invented. When the last record
    ends a kernel or block nothing is held back. *)
Theorem preprocess_exact rs :
  Forall (λ r, version r = MEMORY_RECORD ∨ version r = KERNEL_RECORD) rs →
  (feed rs new_RecordPreProcess).2 ++ recordBuffer_ (feed rs new_RecordPreProcess).1 = kept [] rs ∧
  ∀ r, last rs = Some r → version r = KERNEL_RECORD → ends (kernelRecord r) = true →
    (feed rs new_RecordPreProcess).2 = kept [] rs ∧
    mstxMergeTag_ (feed rs new_RecordPreProcess).1 = false ∧
    isFirstSyncAllStub_ (feed rs new_RecordPreProcess).1 = false.
Proof.
  intros Hv. destruct (feed_kept rs [] _ Hv follows_new) as [ [H1 H2 _ Hb] Hout]. split; [done|].
  intros r Hl Hr He. assert (foldl extend [] rs = []) as E.
  { apply last_Some in Hl as [rs' ->]. rewrite foldl_snoc. unfold extend at 1. rewrite Hr.
    by rewrite bool_decide_eq_false_2, He. }
  rewrite E in *. rewrite Hb, app_nil_r in Hout by done. done.
Qed.

Lemma kept_real b rs :
  filter (λ r, version r = KERNEL_RECORD ∧ (IsRealSyncType (kr_recordType (kernelRecord r)) || ends (kernelRecord r)))
    (kept b rs) =
  filter (λ r, version r = KERNEL_RECORD ∧ (IsRealSyncType (kr_recordType (kernelRecord r)) || ends (kernelRecord r))) rs.
Proof.
  revert b. induction rs as [|r rs IH]; intros b; [done|]. cbn [kept]. rewrite filter_app, IH, filter_cons.
  case_decide as E.
  - destruct E as [Hv Hr]. assert (keeps b r = true) as ->.
    { unfold keeps, outside, repeated. rewrite Hv. cbn. apply Is_true_true in Hr. apply orb_true_iff in Hr.
      assert (mstx_wait (kernelRecord r) = None) as ->.
      { unfold mstx_wait, mstx_cross, ends in *. destruct (kr_recordType (kernelRecord r)); try done.
        destruct Hr; done. }
      rewrite andb_true_r. destruct Hr as [->| ->]; by rewrite ?orb_true_r. }
    by rewrite filter_cons, decide_True.
  - destruct (keeps b r); [|done]. by rewrite filter_cons, decide_False.
Qed.

(** Real synchronisation and the ends of kernels and blocks are never
    dropped or reordered by the merging: restricted to these records, what is
    handed over and held is the input itself. *)
Theorem preprocess_keeps_sync rs :
  Forall (λ r, version r = MEMORY_RECORD ∨ version r = KERNEL_RECORD) rs →
  filter (λ r, version r = KERNEL_RECORD ∧ (IsRealSyncType (kr_recordType (kernelRecord r)) || ends (kernelRecord r)))
    ((feed rs new_RecordPreProcess).2 ++ recordBuffer_ (feed rs new_RecordPreProcess).1) =
  filter (λ r, version r = KERNEL_RECORD ∧ (IsRealSyncType (kr_recordType (kernelRecord r)) || ends (kernelRecord r))) rs.
Proof. intros Hv. destruct (feed_kept rs [] _ Hv follows_new) as [_ ->]. apply kept_real. Qed.

(** ** Example *)

Module PreExample.
Import ParseEx.

Definition kernel (k : KernelRecord) : SanitizerRecord := mkSR KERNEL_RECORD k.
Definition sync_all (n : Z) : KernelRecord :=
  mkKernelRecord RecordType.SYNC_ALL_STUB AIVEC n (softSyncRecord (SoftSyncRecord.mk (here n) 0 1 0 true)).
Definition cross_wait (flag n : Z) : KernelRecord :=
  mkKernelRecord RecordType.MSTX_STUB AIVEC n
    (mstxRecord (MstxRecord.mk MSTX_WAIT_CROSS_SYNC 0 (here n) false
                   (mstxCrossRecord (MstxCrossRecord.mk 4096 flag PIPE_S true false)))).
Definition scalar_store (n : Z) : KernelRecord := mkKernelRecord RecordType.DC_PRELOAD AIVEC n unparsedRecord.
Definition finish (n : Z) : KernelRecord := mkKernelRecord RecordType.KERNEL_FINISH AIVEC n unparsedRecord.

(** A [SyncAll] whose implementation (records 3 and 4) is merged, then a polling
    loop over two flags. *)
Definition stream : list SanitizerRecord :=
  [kernel (set_flag PIPE_MTE2 PIPE_V 0 1); kernel (sync_all 2); kernel (scalar_store 3);
   kernel (wait_flag PIPE_MTE2 PIPE_V 0 4); kernel (sync_all 5); mkSR MEMORY_RECORD (finish 0);
   kernel (cross_wait 7 6); kernel (cross_wait 8 7); kernel (cross_wait 7 8); kernel (cross_wait 8 9);
   kernel (scalar_store 10); kernel (finish 11)].

Lemma stream_versions : Forall (λ r, version r = MEMORY_RECORD ∨ version r = KERNEL_RECORD) stream.
Proof. repeat (apply Forall_cons; split; [auto|]). constructor. Qed.
End PreExample.

Lemma stream_delivered :
  map (λ r, kr_serialNo (kernelRecord r)) (feed PreExample.stream new_RecordPreProcess).2 = [1; 2; 4; 5; 6; 7; 10; 11].
Proof. vm_compute. reflexivity. Qed.

Lemma preprocess_exact_witness :
  (feed PreExample.stream new_RecordPreProcess).2 = kept [] PreExample.stream.
Proof.
  destruct (preprocess_exact PreExample.stream PreExample.stream_versions) as [_ H].
  apply (H (PreExample.kernel (PreExample.finish 11))); reflexivity.
Defined.

Lemma preprocess_keeps_sync_witness :
  filter (λ r, version r = KERNEL_RECORD ∧ (IsRealSyncType (kr_recordType (kernelRecord r)) || ends (kernelRecord r)))
    ((feed PreExample.stream new_RecordPreProcess).2 ++ recordBuffer_ (feed PreExample.stream new_RecordPreProcess).1) =
  filter (λ r, version r = KERNEL_RECORD ∧ (IsRealSyncType (kr_recordType (kernelRecord r)) || ends (kernelRecord r)))
    PreExample.stream.
Proof. apply (preprocess_keeps_sync PreExample.stream PreExample.stream_versions). Defined.
