(* ===== verification/ParseTyping.v ===== *)
(** A type discipline for the parse functions: every event carries the serial
    number of its record, and every memory operation fits the widths of the
    fields of [MemOpInfo]. [parses n c] is closed under the constructs of the
    monad; [solve_parses] follows the structure of a parse function. *)
From stdpp Require Import base numbers option gmap strings list.
From S2P Require Import Prelude.
From S2P Require Import RecordDefs.
From S2P Require Import Platform.
From S2P Require Import EventDef.
From S2P Require Import ErrorBuffer.
From S2P Require Import AddressSanitizer.
From S2P Require Import KernelRecords.
From S2P Require Import ParseBase.
From S2P Require Import ParseSync.
From S2P Require Import ParseMove.
From S2P Require Import ParseLoad.
From S2P Require Import ParseLoad3D.
From S2P Require Import ParseCalc.
From S2P Require Import ParseMstx.

(** ** Types *)

Definition is_u16 (x : Z) : Prop := 0 <= x < 65536.

Lemma u16_range x : is_u16 (u16 x).
Proof. unfold is_u16, u16. apply Z.mod_pos_bound. lia. Qed.

Record mem_typed (m : MemOpInfo) : Prop := {
  ty_mask0 : is_u64 (mask0 (vectorMask m)); ty_mask1 : is_u64 (mask1 (vectorMask m));
  ty_maskMode : is_u8 (maskMode m); ty_instrName : is_u8 (instrName m); ty_dataBits : is_u8 (dataBits m);
  ty_addr : is_u64 (addr m); ty_blockNum : is_u32 (blockNum m); ty_blockSize : is_u32 (blockSize m);
  ty_blockStride : is_u32 (blockStride m); ty_repeatTimes : is_u32 (repeatTimes m);
  ty_repeatStride : is_u32 (repeatStride m); ty_alignSize : is_u16 (alignSize m);
  ty_dcciDistance : is_u32 (dcciDistance m); ty_dstCoreId : is_u32 (dstCoreId m);
  ty_matrixM : is_u16 (matrixM m); ty_matrixN : is_u16 (matrixN m);
}.

Definition event_typed (n : Z) (e : SanEvent) : Prop :=
  serialNo e = n ∧ match eventInfo e with MemInfo m => mem_typed m | _ => True end.

(** What a computation may return. *)
Class Good (A : Type) := good : Z → A → Prop.

Definition ev_ok (n : Z) (f : EventInfo → SanEvent) : Prop := ∀ i, serialNo (f i) = n ∧ eventInfo (f i) = i.

#[export] Instance good_unit : Good unit := λ _ _, True.
#[export] Instance good_Z : Good Z := λ _ _, True.
#[export] Instance good_mem : Good MemOpInfo := λ _, mem_typed.
#[export] Instance good_event : Good SanEvent := event_typed.
#[export] Instance good_ev : Good (EventInfo → SanEvent) := ev_ok.
#[export] Instance good_ev2 : Good (PipeType → EventInfo → SanEvent) := λ n f, ∀ p, ev_ok n (f p).
#[export] Instance good_prod {A B} `{Good A, Good B} : Good (A * B) := λ n x, good n x.1 ∧ good n x.2.
#[export] Instance good_option {A} `{Good A} : Good (option A) := λ n x, match x with Some y => good n y | None => True end.

Definition parses {A} `{Good A} (n : Z) (c : P A) : Prop :=
  ∀ s a s' es, c s = Some (a, s', es) → good n a ∧ Forall (event_typed n) es.

(** ** Assignments *)

Ltac typed_setter :=
  let Hm := fresh in intros Hm; destruct Hm; split; cbn; try assumption;
  first [apply u64_range|apply u32_range|apply u16_range|apply u8_range].

Section setters.
Context (m : MemOpInfo).
Lemma memType_typed v : mem_typed m → mem_typed (Mem.memType v m). Proof. typed_setter. Qed.
Lemma opType_typed v : mem_typed m → mem_typed (Mem.opType v m). Proof. typed_setter. Qed.
Lemma vectorMask_typed v : mem_typed m → mem_typed (Mem.vectorMask v m). Proof. typed_setter. Qed.
Lemma maskMode_typed v : mem_typed m → mem_typed (Mem.maskMode v m). Proof. typed_setter. Qed.
Lemma instrName_typed v : mem_typed m → mem_typed (Mem.instrName v m). Proof. typed_setter. Qed.
Lemma dataBits_typed v : mem_typed m → mem_typed (Mem.dataBits v m). Proof. typed_setter. Qed.
Lemma addr_typed v : mem_typed m → mem_typed (Mem.addr v m). Proof. typed_setter. Qed.
Lemma blockNum_typed v : mem_typed m → mem_typed (Mem.blockNum v m). Proof. typed_setter. Qed.
Lemma blockSize_typed v : mem_typed m → mem_typed (Mem.blockSize v m). Proof. typed_setter. Qed.
Lemma blockStride_typed v : mem_typed m → mem_typed (Mem.blockStride v m). Proof. typed_setter. Qed.
Lemma repeatTimes_typed v : mem_typed m → mem_typed (Mem.repeatTimes v m). Proof. typed_setter. Qed.
Lemma repeatStride_typed v : mem_typed m → mem_typed (Mem.repeatStride v m). Proof. typed_setter. Qed.
Lemma alignSize_typed v : mem_typed m → mem_typed (Mem.alignSize v m). Proof. typed_setter. Qed.
Lemma isScalarAtomic_typed v : mem_typed m → mem_typed (Mem.isScalarAtomic v m). Proof. typed_setter. Qed.
Lemma dstCoreId_typed v : mem_typed m → mem_typed (Mem.dstCoreId v m). Proof. typed_setter. Qed.
Lemma dstBlockType_typed v : mem_typed m → mem_typed (Mem.dstBlockType v m). Proof. typed_setter. Qed.
Lemma instrClass_typed v : mem_typed m → mem_typed (Mem.instrClass v m). Proof. typed_setter. Qed.
Lemma matrixM_typed v : mem_typed m → mem_typed (Mem.matrixM v m). Proof. typed_setter. Qed.
Lemma matrixN_typed v : mem_typed m → mem_typed (Mem.matrixN v m). Proof. typed_setter. Qed.
End setters.

Create HintDb parses.

(** One assignment. *)
Ltac setter_step :=
  first [simple apply memType_typed|simple apply opType_typed|simple apply vectorMask_typed|simple apply maskMode_typed|simple apply instrName_typed|simple apply dataBits_typed
        |simple apply addr_typed|simple apply blockNum_typed|simple apply blockSize_typed|simple apply blockStride_typed
        |simple apply repeatTimes_typed|simple apply repeatStride_typed|simple apply alignSize_typed|simple apply isScalarAtomic_typed
        |simple apply dstCoreId_typed|simple apply dstBlockType_typed|simple apply instrClass_typed|simple apply matrixM_typed|simple apply matrixN_typed].

Lemma assign_typed l m : Forall (λ f, ∀ m, mem_typed m → mem_typed (f m)) l → mem_typed m → mem_typed (assign l m).
Proof. intros Hl. revert m. induction Hl as [|f l Hf Hl IH]; intros m Hm; [done|]. apply (IH (f m)). auto. Qed.

Lemma Forall_app_2 {A} (Q : A → Prop) l k : Forall Q l → Forall Q k → Forall Q (l ++ k).
Proof. intros. by apply Forall_app. Qed.

(** ** The monad *)

Section rules.
Context {A B} `{Good A, Good B} (n : Z).

Lemma parses_ret (a : A) : good n a → parses n (mret a).
Proof. intros Ha s a' s' es [= <- <- <-]. split; [done|constructor]. Qed.

Lemma parses_bind (c : P A) (k : A → P B) :
  parses n c → (∀ a, good n a → parses n (k a)) → parses n (c ≫= k).
Proof.
  intros Hc Hk s b s' es. unfold mbind, P_bind. destruct (c s) as [ [ [a s1] es1]|] eqn:E1; [|done].
  destruct (k a s1) as [ [ [b2 s2] es2]|] eqn:E2; [|done]. intros [= <- <- <-].
  destruct (Hc _ _ _ _ E1) as [Ha H1], (Hk a Ha _ _ _ _ E2) as [Hb H2]. split; [done|]. by apply Forall_app.
Qed.

Lemma parses_undefined : parses n (undefined (A := A)).
Proof. by intros ????. Qed.

Lemma parses_loop (body : Z → A → P A) k i a :
  good n a → (∀ j a, good n a → parses n (body j a)) → parses n (loop k i body a).
Proof.
  intros Ha Hb. revert i a Ha. induction k as [|k IH]; intros i a Ha; cbn; [by apply parses_ret|].
  intros s b s' es. unfold mbind, P_bind. destruct (body i a s) as [ [ [a1 s1] es1]|] eqn:E1; [|done].
  destruct (loop k (i + 1) body a1 s1) as [ [ [a2 s2] es2]|] eqn:E2; [|done]. intros [= <- <- <-].
  destruct (Hb i a Ha _ _ _ _ E1) as [Ha1 H1], (IH _ _ Ha1 _ _ _ _ E2) as [Ha2 H2]. split; [done|]. by apply Forall_app.
Qed.

Lemma parses_for_up (body : Z → A → P A) k a :
  good n a → (∀ j a, good n a → parses n (body j a)) → parses n (for_up k body a).
Proof. apply parses_loop. Qed.
End rules.

Lemma parses_for_list {A B} `{Good B} n (body : A → B → P B) l b :
  good n b → (∀ a b, good n b → parses n (body a b)) → parses n (for_list l body b).
Proof.
  intros Hb Hbody. revert b Hb. induction l as [|a l IH]; intros b Hb; cbn; [by apply parses_ret|].
  apply (parses_bind n); [by apply Hbody|]. intros. by apply IH.
Qed.

Lemma parses_for_pipes n (f : PipeType → P unit) l : (∀ p, parses n (f p)) → parses n (for_pipes f l).
Proof.
  intros Hf. induction l as [|p l IH]; cbn; [by apply parses_ret|]. apply (parses_bind n); [apply Hf|done].
Qed.

Lemma parses_emit n e : event_typed n e → parses n (emit e).
Proof. intros He s a s' es [= <- <- <-]. split; [done|]. by constructor. Qed.

Lemma parses_emit_mem n ev m : ev_ok n ev → mem_typed m → parses n (emit_mem ev m).
Proof. intros Hev Hm. apply parses_emit. destruct (Hev (MemInfo m)) as [H1 H2]. split; [done|]. by rewrite H2. Qed.

Lemma GetAlignSize_range m space r d : mem_typed m → is_u16 (FormatConverter.GetAlignSize m space r d).
Proof.
  intros Hm. pose proof (ty_dataBits m Hm) as Hd. pose proof (u16_range (blockSize m)) as Hu.
  unfold FormatConverter.GetAlignSize. unfold is_u8, is_u16 in *.
  destruct (FormatConverter.IsElementAlign (dataBits m) r d) as [k|] eqn:E1.
  - unfold FormatConverter.IsElementAlign in E1. case_match; simplify_eq. change FormatConverter.BITS_EACH_BYTE with 8.
    split; [apply Z.div_pos; lia|]. apply Z.div_lt_upper_bound; lia.
  - destruct (FormatConverter.IsSpecialAlign m r) as [k|] eqn:E2.
    + unfold FormatConverter.IsSpecialAlign in E2. destruct r; simplify_eq; repeat case_match; simplify_eq; lia.
    + by destruct space.
Qed.

Lemma set_alignSize_typed k m : is_u16 k → mem_typed m → mem_typed (AlignChecker.set_alignSize k m).
Proof. intros Hk []. by split. Qed.

Lemma CheckAlignSize_typed f c ev n m k c' e :
  ev_ok n ev → mem_typed m → is_u16 k → AlignChecker.CheckAlignSize f c (ev (MemInfo m)) k = (c', e) →
  mem_typed (mem_of e m).
Proof.
  intros Hev Hm Hk. destruct (Hev (MemInfo m)) as [_ Hi]. unfold AlignChecker.CheckAlignSize.
  case_match; [intros [= <- <-]; unfold mem_of; by rewrite Hi|]. rewrite Hi.
  repeat case_match; intros [= <- <-]; by apply set_alignSize_typed.
Qed.

Lemma parses_check_align `{ParseEnv} n ev r m : ev_ok n ev → mem_typed m → parses n (check_align ev r m).
Proof.
  intros Hev Hm s a s' es. unfold check_align. destruct (AlignChecker.CheckAlign _ _ _ _) as [c e] eqn:E.
  intros [= <- <- <-]. split; [|constructor]. destruct (Hev (MemInfo m)) as [_ Hi].
  unfold AlignChecker.CheckAlign in E. rewrite Hi in E. change (mem_typed (mem_of e m)).
  repeat case_match; [injection E as <- <-; unfold mem_of; by rewrite Hi..|].
  eapply CheckAlignSize_typed; [done|done| |done]. by apply GetAlignSize_range.
Qed.

Lemma parses_check_align_size `{ParseEnv} n ev k m : ev_ok n ev → mem_typed m → parses n (check_align_size ev k m).
Proof.
  intros Hev Hm s a s' es. unfold check_align_size. destruct (AlignChecker.CheckAlignSize _ _ _ _) as [c e] eqn:E.
  intros [= <- <- <-]. split; [|constructor]. eapply CheckAlignSize_typed; [done|done| |done]. apply u16_range.
Qed.

Lemma parses_SetLocationInfo `{ParseEnv} record l : parses (kr_serialNo record) (SetLocationInfo record l).
Proof.
  intros s a s' es. unfold SetLocationInfo. destruct (map_ref _ _ _). intros [= <- <- <-].
  split; [|constructor]. by intros p i.
Qed.

(** ** Automation *)

#[export] Hint Resolve parses_check_align parses_check_align_size parses_SetLocationInfo parses_emit_mem : parses.

(** Storage a parse function does not assign. *)
Class RawTyped `{ParseEnv} := raw_typed : mem_typed (raw_mem pe_raw).

Ltac mem_step :=
  match goal with
  | |- Forall _ (_ ++ _) => apply Forall_app_2
  | |- Forall _ (_ :: _) => apply Forall_cons_2
  | |- Forall _ [] => apply Forall_nil_2
  | |- Forall _ no_mask => unfold no_mask
  | |- Forall _ (match ?x with _ => _ end) => destruct x
  | |- ∀ m, mem_typed m → mem_typed _ => intros
  | |- mem_typed (raw_mem _) => apply raw_typed
  | |- mem_typed (assign _ _) => apply assign_typed
  | |- mem_typed (match ?x with _ => _ end) => destruct x
  | |- mem_typed (foldl _ _ _) => fail 1
  | |- mem_typed _ => first [assumption|setter_step|progress cbn [fst snd]]
  | |- event_typed _ (_ (MemInfo _)) => fail 1
  end.

#[export] Hint Extern 3 (mem_typed _) => solve [repeat mem_step] : parses.

Ltac parse_step :=
  cbv zeta;
  match goal with
  | |- parses _ (if ?x then _ else _) => destruct x
  | |- parses _ (match ?x with _ => _ end) => destruct x eqn:?
  | |- parses _ skip => apply parses_ret; exact I
  | |- parses _ undefined => apply parses_undefined
  | |- parses _ (mret _) => apply parses_ret
  | |- parses _ (for_up _ _ _) => apply parses_for_up; [|intros]
  | |- parses _ (for_list _ _ _) => apply parses_for_list; [|intros]
  | |- parses _ (for_pipes _ _) => apply parses_for_pipes; intros
  | |- parses _ (emit _) => apply parses_emit
  | |- parses _ (mbind _ _) => apply parses_bind; [|intros]
  | |- parses _ _ => solve [eauto with parses]
  end.

Lemma event_typed_ev n f i :
  ev_ok n f → match i with MemInfo m => mem_typed m | _ => True end → event_typed n (f i).
Proof. intros Hf Hi. destruct (Hf i) as [H1 H2]. split; [done|]. by rewrite H2. Qed.

Ltac good_clean :=
  repeat match goal with
  | H : good _ _ |- _ =>
      first [progress unfold good, good_mem, good_event, good_ev, good_ev2, good_unit, good_Z in H
            |unfold good, good_prod in H; destruct H]
  | H : good_prod _ _ |- _ => destruct H; cbn [fst snd] in *
  | H : good_option _ (Some _) |- _ => unfold good_option in H
  | H : good_option _ None |- _ => clear H
  | |- good_option _ _ => unfold good_option
  | |- good _ _ => unfold good, good_mem, good_event, good_ev, good_ev2, good_unit, good_Z
  | |- good_prod _ _ => split
  | |- ev_ok _ (fst _) => cbn [fst]
  | |- ev_ok _ (_ _) => solve [auto]
  | |- event_typed _ (_ _) => apply event_typed_ev; [solve [auto]|cbn]
  | |- event_typed _ _ => first [assumption|split; [reflexivity|exact I] ]
  | |- True => exact I
  end.

Ltac solve_parses := intros; cbv zeta; repeat (first [parse_step|mem_step|good_clean; []]; good_clean).

Section shared_parsers.
Context `{RawTyped}.

Lemma parses_check_emit n ev r m : ev_ok n ev → mem_typed m → parses n (check_emit ev r m).
Proof. unfold check_emit. solve_parses. Qed.

Lemma parses_check_emit_size n ev k m : ev_ok n ev → mem_typed m → parses n (check_emit_size ev k m).
Proof. unfold check_emit_size. solve_parses. Qed.
End shared_parsers.
