(* ===== verification/ParseTypes.v ===== *)
(** Every event of every parse function is typed: the helpers shared by many
    functions have a lemma of their own, the rest is unfolded. *)
From stdpp Require Import base numbers option gmap strings list.
From S2P Require Import Prelude.
From S2P Require Import RecordDefs.
From S2P Require Import EventDef.
From S2P Require Import KernelRecords.
From S2P Require Import ParseBase.
From S2P Require Import ParseSync.
From S2P Require Import ParseMove.
From S2P Require Import ParseLoad.
From S2P Require Import ParseLoad3D.
From S2P Require Import ParseCalc.
From S2P Require Import ParseMstx.
From S2P Require Import RecordParse.
From S2P Require Import ParseTyping.
From S2P Require Import ParseExamples.

Create HintDb parsers.
#[export] Hint Unfold CreateCrossPipeSyncEvent CreateInnerPipeSyncEvent pipe_sync_events
  CreatePipeAllSyncEvent CreatePipeDdrSyncEvent CreateUnitFlagSyncEvent Flag.ParseRecordSetFlag
  Flag.ParseRecordWaitFlag Buf.ParseRecordGetBuf Buf.ParseRecordRlsBuf ParseFftsSyncRecord ParseWaitDevRecord
  ParseWaitDevPipeRecord ParseSetIntraBlockRecord ParseWaitIntraBlockRecord ParseRecordIBSetStub
  ParseRecordIBWaitStub ParseRecordSyncAllStub HardSync.ParseRecordHsetFlag HardSync.ParseRecordHwaitFlag
  ParseRecordPipeBarrier ParseRecordDsb ParseRecordSetAtomic ParseRecordKernelFinish ParseRecordFinish
  ParseRecordRegister Dynamic.ParseRecordDynamic Scalar.ParseScalarOpRecord Scalar.ParseLdvaRecord
  ParseRedAndAtomRecord ParseRecordCmpMask DmaMov.ParseDmaMovWithByteMode DmaMov.ParseDmaMovWithPadMode
  DmaMov.check_if DmaMov.ParseRecordDmaMovImpl DmaMov.ParseRecordDmaMov ConvRelu.SetMemInfoWriteForUb
  ConvRelu.ParseRecordDmaMovConvRelu ConvRelu.ParseRecordDmaMovDepthWise Nd2nz.ParseRecordDmaMovNd2nz
  Nd2nzDav.SetNdNzDevPubElement Nd2nzDav.read_rows Nd2nzDav.read_info Nd2nzDav.DmaMovNdorDn2nzDavSmallC0
  Nd2nzDav.DmaMovNdorDn2nzDavDefault Nd2nzDav.parse_dav MovAlign.ParseRecordMovAlignImpl
  MovAlign.ParseRecordMovAlign MovAlignV2.initSanEvent MovAlignV2.ParseRecordMovAlignV2
  NdDma.ParseRecordNdDmaMovOut2Ub FixPipe.read_L0C FixPipe.halve_blocks FixPipe.halve_repeats
  FixPipe.ApplyDualDstMode FixPipe.apply_emit FixPipe.ParseFixPipeWriteByMultiMode FixPipe.nd_writes
  FixPipe.FixPipeWriteToOut FixPipe.FixPipeWriteToL1OrUB FixPipe.unit_flag FixPipe.ParseRecordMovFp
  FixPipe.ParseRecordFixL0CToL1 FixPipe.ParseRecordFixL0CToUB Load2D.ParseRecordLoad2D
  Load2DSparse.ParseRecordLoad2DSparse Load2DTranspose.ParseRecordLoad2DTransposeWrite
  Load2DTranspose.ParseRecordLoad2DTranspose LoadL12D.HandleTransposeCase LoadL12D.ParseRecordLoadL12D
  ParseRecordLoadL1Mx2D ParseRecordLoadL12DTranspose ParseRecordDecompressHeader ParseRecordDcPreload
  Broadcast.ParseRecordBroadcast Load3D.filter_event Load3D.ParseRecordLoad3DFMap
  Load3D.ParseRecordLoad3DMatrix Load3D.ParseRecordLoad3D Load3DV2.HandleLoad3DEvent
  Load3DV2.ParseRecordLoad3DV2FMap Load3DV2.ParseRecordLoad3DV2Matrix Load3DV2.ParseRecordLoad3DV2
  ParseRecordLoadB2 ParseRecordSet2D ParseRecordLoadSmask ParseRecordMovBt ParseRecordSetL12D
  Winograd.ParseRecordLoadAWinograd Winograd.ParseRecordLoadBWinograd LoadImage.ParseRecordLoadImage
  MovL1Ub.AddMemEventForMovL1Ub Cbuf2Bt.ParseRecordMovCbuf2Bt Cbuf2Fb.ParseRecordMovCbuf2Fb
  Mask.MaskCountProcessContinuous Mask.MaskNormalProcess Unary.ParseVecdupRecord Unary.ParseRecordUnaryOp
  Vms4v2.ParseRecordVms4v2A5 Gather.ParseRecordVgather Gather.ParseRecordElement Binary.ParseRecordBinaryOp
  Binary.ParseRecordVsel Reduce.ParseRecordReduceOp ReduceV2.ParseRecordReduceV2 MatMul.ParseMatrixMulOpRecord
  MatMul.ParseMmadA5Record Scatter.ParseVaRegisterEvents Scatter.ParseRecordScatterVnchwconv ParseVbs32A5
  ParseVRegPropCoorOPRecord Hccl.read_at Hccl.write_at Hccl.read_ranks Hccl.write_ranks
  Hccl.ParseRecordMstxHCCL Hccl.parse_hcclv barrier_all sync_event ParseMstxCrossCoreBarrier
  ParseMstxCrossCoreSetFlag ParseMstxCrossCoreWaitFlag ParseMstxSignalSet ParseMstxSignalWait
  ParseMstxCrossNpuBarrier MstxVec.ParseRecordMstxVecUnary MstxVec.ParseRecordMstxVecBinary
  ParseRecordMstxDataCopy ParseRecordMstxDataCopyPad ParseRecordMstxDataCopyPadV2 ParseRecordMstxStub FixPipe.FixPipeReadFromL0C
  FixPipe.FixPipeReadFromL0CA5 FixPipe.nd_info Nd2nzDav.ParseRecordDmaMovNd2NzDav
  Nd2nzDav.ParseRecordDmaMovDn2nzDav MovL1Ub.ParseRecordMovL2Ub MovL1Ub.ParseRecordMovUb2L1 MovL1Ub.ParseRecordMovUb2Ub
  Binary.src0_info Binary.src1_info Binary.dst_info Hccl.AsignRecordHcclRead Hccl.AsignRecordHcclWrite
  MstxVec.wrapper_info MstxVec.operand : parsers.

#[export] Hint Resolve parses_check_emit parses_check_emit_size : parses.


Section helpers.
Context `{RawTyped}.

Lemma parses_rls_count n p f : parses n (Buf.rls_count p f).
Proof. intros s a s' es. unfold Buf.rls_count. destruct (map_ref _ _ _). intros [= <- <- <-]. by split. Qed.

Lemma parses_SetLocationInfo_equivalence r t p l :
  parses (kr_serialNo r) (SetLocationInfo (equivalence r t p) l).
Proof. apply (parses_SetLocationInfo (equivalence r t p)). Qed.

Lemma parses_emit_at n ev a m : ev_ok n ev → mem_typed m → parses n (ParseLoad.emit_at ev a m).
Proof. unfold ParseLoad.emit_at. solve_parses. Qed.

Lemma parses_emit_at_dav n ev a m : ev_ok n ev → mem_typed m → parses n (Nd2nzDav.emit_at ev a m).
Proof. unfold Nd2nzDav.emit_at. solve_parses. Qed.
End helpers.

#[export] Hint Resolve parses_rls_count parses_SetLocationInfo_equivalence parses_emit_at parses_emit_at_dav : parses.

Section moves.
Context `{RawTyped}.

Lemma parses_AppendNdDma n isRead ev k loops offset m :
  ev_ok n ev → mem_typed m → parses n (NdDma.AppendNdDmaMovOut2UbLoopData isRead ev k loops offset m).
Proof.
  intros Hev. revert offset m. induction loops as [|l loops IH]; intros offset m Hm; cbn; [by apply parses_ret|].
  apply parses_for_up; [done|]. intros j a Ha. destruct loops; [by apply parses_emit_at|by apply IH].
Qed.

Lemma SetDumpParam_read p c q r w : MovAlignV2.SetDumpParam p c = Some (q, r, w) → mem_typed r.
Proof. unfold MovAlignV2.SetDumpParam, MovAlignV2.initSanEvent. case_match; [done|]. intros [= <- <- <-]. repeat mem_step. Qed.

Lemma SetDumpParam_write p c q r w : MovAlignV2.SetDumpParam p c = Some (q, r, w) → mem_typed w.
Proof. unfold MovAlignV2.SetDumpParam, MovAlignV2.initSanEvent. case_match; [done|]. intros [= <- <- <-]. repeat mem_step. Qed.

Lemma DepthWiseWrite_typed p m m' :
  ConvRelu.ParseRecordDmaMovDepthWiseWrite p m = Some m' → mem_typed m → mem_typed m'.
Proof.
  unfold ConvRelu.ParseRecordDmaMovDepthWiseWrite. intros E Hm. repeat case_match; simplify_eq; repeat mem_step.
Qed.

Lemma set_target_typed n core e : event_typed n e → event_typed n (FixPipe.set_target core e).
Proof.
  intros [Hs He]. unfold FixPipe.set_target, event_typed in *. destruct (eventInfo e) eqn:E; rewrite ?E; try done.
  cbn [serialNo eventInfo]. split; [done|]. repeat mem_step.
Qed.

Lemma parses_set_target n core (c : P MemOpInfo) : parses n c → parses n (FixPipe.map_events (FixPipe.set_target core) c).
Proof.
  intros Hc s a s' es. unfold FixPipe.map_events. destruct (c s) as [ [ [a' s1] es1]|] eqn:E; [|done].
  intros [= <- <- <-]. destruct (Hc _ _ _ _ E) as [Ha Hes]. split; [done|]. apply Forall_fmap.
  eapply Forall_impl; [done|]. intros e. apply set_target_typed.
Qed.
End moves.

#[export] Hint Extern 4 (mem_typed _) =>
  eapply DepthWiseWrite_typed; [eassumption|solve [repeat mem_step] ] : parses.
#[export] Hint Resolve parses_AppendNdDma SetDumpParam_read SetDumpParam_write : parses.

Ltac solve_parser := repeat (first [progress solve_parses|apply parses_set_target|progress autounfold with parsers]).

Section masks.
Context `{RawTyped}.

Lemma parses_ByRepeat n ev v m : ev_ok n ev → mem_typed m → parses n (Mask.MaskCountProcessByRepeat ev v m).
Proof. unfold Mask.MaskCountProcessByRepeat. solve_parses. Qed.

Lemma parses_MaskCountProcess n ev r m : ev_ok n ev → mem_typed m → parses n (Mask.MaskCountProcess ev r m).
Proof. pose proof parses_ByRepeat. unfold Mask.MaskCountProcess. solve_parser. Qed.

Lemma parses_MaskModeProcess n ev bt r m : ev_ok n ev → mem_typed m → parses n (Mask.MaskModeProcess ev bt r m).
Proof.
  pose proof parses_ByRepeat. pose proof parses_MaskCountProcess. unfold Mask.MaskModeProcess. solve_parser.
Qed.

Lemma parses_check_mask n ev record r m : ev_ok n ev → mem_typed m → parses n (Mask.check_mask ev record r m).
Proof. pose proof parses_MaskModeProcess. unfold Mask.check_mask. solve_parser. Qed.

Lemma parses_SetAtomic n record p : parses n (ParseRecordSetAtomic record p).
Proof.
  unfold ParseRecordSetAtomic. case_match; [|by apply parses_ret]. intros s a s' es [= <- <- <-]. by split.
Qed.

Lemma parses_Vms4v2Repeat1 n record p ev m :
  ev_ok n ev → mem_typed m → parses n (Vms4v2.ParseRecordVms4v2A5Repeat1 record p ev m).
Proof.
  intros Hev Hm. unfold Vms4v2.ParseRecordVms4v2A5Repeat1. cbv zeta. apply parses_bind.
  - match goal with |- parses _ (_ _ ?x) => assert (good n x) as Hx by (split; [change (mem_typed (fst x)); repeat mem_step|done]); revert Hx;
      generalize x end.
    induction (Vms4v2.inputs p) as [|[ [] [a k] ] l IH]; intros x Hx; [by apply parses_ret| |by apply IH].
    destruct Hx. apply parses_bind; [solve_parses|]. intros _ _. apply parses_bind; [solve_parses|].
    intros. apply IH. by split.
  - solve_parses.
Qed.
End masks.

#[export] Hint Resolve parses_Vms4v2Repeat1 : parses.


#[export] Hint Resolve parses_ByRepeat parses_MaskModeProcess parses_check_mask parses_SetAtomic : parses.
(** ** The table *)

Section table_typed.
Context `{RawTyped}.

Lemma table_typed r f : g_parseFuncs r = Some f → parses (kr_serialNo r) f.
Proof.
  unfold g_parseFuncs. destruct (kr_recordType r); try done; intros [= <-]; try (destruct (kr_payload r);
    try apply parses_undefined); solve_parser.
Qed.
End table_typed.
