(* ===== verification/ParseTheorems.v ===== *)
(** [Parse] as a whole: what it returns, and what it labels. *)
From stdpp Require Import base numbers option gmap strings sorting list.
From S2P Require Import Prelude.
From S2P Require Import RecordDefs.
From S2P Require Import EventDef.
From S2P Require Import EventContainer.
From S2P Require Import KernelRecords.
From S2P Require Import ParseBase.
From S2P Require Import ParseSync.
From S2P Require Import RecordParse.
From S2P Require Import ParseTyping.
From S2P Require Import ParseTypes.
From S2P Require Import WaitGraphProofs.
From S2P Require Import RingTheorems.
From S2P Require Import ParseExamples.

(** ** [Parse] *)


(** [PIPE_S] may have become [PIPE_S_CAL]. *)
Definition moved (p p' : PipeType) : Prop := p' = p ∨ p = PIPE_S ∧ p' = PIPE_S_CAL.

(** What an event keeps: a memory access its operation and its pipe, a
    synchronisation all that identifies it. *)
Definition same_info (e e' : SanEvent) : Prop :=
  match eventInfo e, eventInfo e' with
  | MemInfo m, MemInfo m' => m' = m ∧ pipe e' = pipe e
  | SyncInfo i, SyncInfo i' =>
      sync_opType i' = sync_opType i ∧ moved (sync_srcPipe i) (sync_srcPipe i') ∧
      sync_dstPipe i' = sync_dstPipe i ∧ sync_eventId i' = sync_eventId i
  | HSyncInfo i, HSyncInfo i' =>
      h_opType i' = h_opType i ∧ h_srcPipe i' = h_srcPipe i ∧ h_dstPipe i' = h_dstPipe i ∧
      h_eventId i' = h_eventId i ∧ h_memType i' = h_memType i ∧ h_v i' = h_v i
  | FftsInfo i, FftsInfo i' =>
      ffts_opType i' = ffts_opType i ∧ moved (ffts_dstPipe i) (ffts_dstPipe i') ∧ ffts_flagId i' = ffts_flagId i ∧
      ffts_mode i' = ffts_mode i
  | SoftInfo i, SoftInfo i' => i' = i ∧ moved (pipe e) (pipe e')
  | CrossInfo i, CrossInfo i' =>
      mstx_opType i' = mstx_opType i ∧ moved (mstx_pipe i) (mstx_pipe i') ∧ mstx_addr i' = mstx_addr i ∧
      mstx_flagId i' = mstx_flagId i
  | BufInfo i, BufInfo i' =>
      buf_opType i' = buf_opType i ∧ moved (buf_pipe i) (buf_pipe i') ∧ buf_bufId i' = buf_bufId i
  | i, i' => i' = i
  end.

Definition same_event (e e' : SanEvent) : Prop :=
  serialNo e' = serialNo e ∧ loc e' = loc e ∧ isAtomicMode e' = isAtomicMode e ∧ same_info e e'.

Definition settled (e e' : SanEvent) : Prop :=
  same_event e e' ∧ closedRingStartSerialNo e' = closedRingStartSerialNo e.




#[export] Instance moved_refl : Reflexive moved.
Proof. by left. Qed.

#[export] Instance moved_trans : Transitive moved.
Proof. intros p q r [->|[-> ->] ] [->|[? ->] ]; [by left|by right..]. Qed.

Lemma same_info_eq e e' : eventInfo e' = eventInfo e → pipe e' = pipe e → same_info e e'.
Proof. unfold same_info. intros -> ->. destruct (eventInfo e); repeat split; reflexivity. Qed.

#[export] Instance same_info_refl : Reflexive same_info.
Proof. intros e. by apply same_info_eq. Qed.


#[export] Instance same_event_refl : Reflexive same_event.
Proof. repeat split. reflexivity. Qed.


#[export] Instance settled_refl : Reflexive settled.
Proof. by split. Qed.












Section parse.
Context `{RawTyped}.














End parse.

(** ** Example *)

Import ParseEx.

#[export] Instance zero_typed : RawTyped (H := ParseEx.env).
Proof. unfold RawTyped, is_u64, is_u32, is_u16, is_u8. by split. Defined.


