(* ===== verification/MaskTheorems.v ===== *)
(** Vector instructions in counter mode: [MaskCountProcess] replaces an operation
    by events that touch exactly the bytes of the elements the mask counts. *)
From stdpp Require Import base numbers option gmap strings list.
From S2P Require Import Prelude.
From S2P Require Import RecordDefs.
From S2P Require Import EventDef.
From S2P Require Import ConvertProofs.
From S2P Require Import KernelRecords.
From S2P Require Import ParseBase.
From S2P Require Import ParseLoad.
From S2P Require Import ParseCalc.
From S2P Require Import ParseTyping.
From S2P Require Import ParseExamples.

(** The records whose count runs over all repeats. *)
Definition counts_all (r : RecordType.RecordType) : Prop :=
  match r with
  | RecordType.VCOPY_OP | RecordType.VREDUCEV2_BINARY | RecordType.VREDUCEV2_UNARY => False
  | _ => True
  end.

(** The layout of an operation: [w] bytes per element, [eb] elements per block. *)
Record layout (m : MemOpInfo) (w eb : Z) : Prop := {
  lay_w : 1 <= w; lay_eb : 1 <= eb;
  lay_bits : dataBits m = 8 * w;
  lay_size : blockSize m = w * eb;
  lay_num : 1 <= blockNum m;
}.

(** Element [k] of an operation lies in repeat [k / (blockNum * eb)], in block
    [k mod (blockNum * eb) / eb] of it. *)
Definition element_addr (m : MemOpInfo) (w eb k : Z) : Z :=
  block_base m (k / (blockNum m * eb)) (k `mod` (blockNum m * eb) / eb) + (k `mod` (blockNum m * eb)) `mod` eb * w.

Definition in_element (m : MemOpInfo) (w eb k x : Z) : Prop :=
  element_addr m w eb k <= x < element_addr m w eb k + w.

(** Element [k] of repeat [i], its blocks numbered on beyond [blockNum]. *)
Definition repeat_element (m : MemOpInfo) (w eb i k : Z) : Z := block_base m i (k / eb) + k `mod` eb * w.
Definition in_repeat_element (m : MemOpInfo) (w eb i k x : Z) : Prop :=
  repeat_element m w eb i k <= x < repeat_element m w eb i k + w.

(** What the count of an instruction means: a number of elements altogether, of
    every repeat, or of every repeat and written side by side. *)
Inductive count_mode := Overall | PerRepeat | SideBySide.

Definition mode_of (r : RecordType.RecordType) (m : MemOpInfo) : count_mode :=
  match r with
  | RecordType.VCOPY_OP => PerRepeat
  | RecordType.VREDUCEV2_BINARY | RecordType.VREDUCEV2_UNARY =>
      if bool_decide (opType m = WRITE) then SideBySide else PerRepeat
  | _ => Overall
  end.

Definition counted (r : RecordType.RecordType) (m : MemOpInfo) (w eb x : Z) : Prop :=
  let n := mask0 (vectorMask m) in
  match mode_of r m with
  | Overall => ∃ k, 0 <= k < n ∧ in_element m w eb k x
  | PerRepeat => ∃ i k, 0 <= i < repeatTimes m ∧ 0 <= k < n ∧ in_repeat_element m w eb i k x
  | SideBySide => addr m <= x < addr m + repeatTimes m * n * w
  end.

(** The three parts of the result: whole repeats, whole blocks of the last repeat,
    the rest of the last block. *)
Definition repeats_part (m : MemOpInfo) (q : Z) : MemOpInfo := Mem.repeatTimes q m.
Definition blocks_part (m : MemOpInfo) (q lb : Z) : MemOpInfo :=
  assign [Mem.addr (addr m + q * repeatStride m * blockSize m); Mem.blockNum lb; Mem.repeatTimes 1] m.
Definition rest_part (m : MemOpInfo) (q lb n : Z) : MemOpInfo :=
  assign [Mem.addr (addr m + q * repeatStride m * blockSize m + lb * blockStride m * blockSize m); Mem.blockNum 1;
          Mem.blockSize n; Mem.repeatTimes 1] m.

(** The rest of the last block of repeat [i]. *)
Definition rest_of_repeat (m : MemOpInfo) (nb n i : Z) : MemOpInfo :=
  Mem.addr (u64 (addr m + nb * blockStride m * blockSize m) + i * repeatStride m * blockSize m)
    (assign [Mem.repeatTimes 1; Mem.blockNum 1; Mem.blockSize n] m).

(** ** Elements by repeat, block and position *)

Section elements.
Context (m : MemOpInfo) (w eb : Z) (Hlay : layout m w eb).

Lemma element_split i j o :
  0 <= i → 0 <= j < blockNum m → 0 <= o < eb →
  element_addr m w eb (i * (blockNum m * eb) + j * eb + o) = block_base m i j + o * w.
Proof.
  intros Hi Hj Ho. destruct Hlay. unfold element_addr.
  assert (0 <= j * eb + o < blockNum m * eb) as Hr by nia.
  rewrite <- Z.add_assoc. rewrite (Z.add_comm (i * _)), Z.div_add, Z.mod_add by nia.
  rewrite (Z.div_small (j * eb + o)), (Z.mod_small (j * eb + o)) by done.
  rewrite (Z.add_comm (j * eb)), Z.div_add, Z.mod_add by lia.
  rewrite (Z.div_small o), (Z.mod_small o) by done. by rewrite !Z.add_0_l.
Qed.

(** A byte at offset [d] of a block lies in the element at position [d / w]. *)
Lemma block_byte i j x :
  0 <= i → 0 <= j < blockNum m → block_base m i j <= x < block_base m i j + blockSize m →
  let o := (x - block_base m i j) / w in
  0 <= o < eb ∧ in_element m w eb (i * (blockNum m * eb) + j * eb + o) x.
Proof.
  intros Hi Hj Hx o. destruct Hlay.
  assert (0 <= o < eb) as Ho. { split; [apply Z.div_pos; lia|]. apply Z.div_lt_upper_bound; lia. }
  split; [done|]. unfold in_element. rewrite element_split by done.
  pose proof (Z.div_mod (x - block_base m i j) w). pose proof (Z.mod_pos_bound (x - block_base m i j) w). unfold o. nia.
Qed.

Lemma element_decompose k :
  0 <= k → let i := k / (blockNum m * eb) in let j := k `mod` (blockNum m * eb) / eb in
  let o := (k `mod` (blockNum m * eb)) `mod` eb in
  0 <= i ∧ 0 <= j < blockNum m ∧ 0 <= o < eb ∧ k = i * (blockNum m * eb) + j * eb + o.
Proof.
  intros Hk. destruct Hlay. assert (0 < blockNum m * eb) as HB by nia. cbn.
  pose proof (Z.mod_pos_bound k _ HB). pose proof (Z.div_mod k (blockNum m * eb)).
  pose proof (Z.mod_pos_bound (k `mod` (blockNum m * eb)) eb). pose proof (Z.div_mod (k `mod` (blockNum m * eb)) eb).
  split; [by apply Z.div_pos|]. split; [|lia].
  split; [apply Z.div_pos; lia|]. apply Z.div_lt_upper_bound; nia.
Qed.

Definition in_block (i j x : Z) : Prop := block_base m i j <= x < block_base m i j + blockSize m.

(** The first [count] elements are the whole repeats, the whole blocks of the
    last repeat, and the beginning of a block. *)
Lemma counted_elements count x :
  0 <= count →
  let q := count / (blockNum m * eb) in let t := count - q * (blockNum m * eb) in
  let lb := t / eb in
  (∃ k, 0 <= k < count ∧ in_element m w eb k x) ↔
  (∃ i j, 0 <= i < q ∧ 0 <= j < blockNum m ∧ in_block i j x) ∨ (∃ j, 0 <= j < lb ∧ in_block q j x) ∨
  block_base m q lb <= x < block_base m q lb + (t - lb * eb) * w.
Proof.
  intros Hc q t lb. pose proof Hlay as [Hw He _ Hsz Hn]. assert (0 < blockNum m * eb) as HB by nia.
  pose proof (Z.div_mod count (blockNum m * eb)) as Hdm. pose proof (Z.mod_pos_bound count _ HB) as Hmb. fold q in Hdm.
  assert (0 <= t < blockNum m * eb) as Ht by (unfold t; lia).
  pose proof (Z.div_mod t eb) as Hdm2. pose proof (Z.mod_pos_bound t eb ltac:(lia)) as Hmb2. fold lb in Hdm2.
  assert (0 <= lb < blockNum m) as Hlb. { split; [apply Z.div_pos; lia|]. apply Z.div_lt_upper_bound; nia. }
  assert (0 <= q) as Hq by (apply Z.div_pos; lia). split.
  - intros (k & Hk & Hx). destruct (element_decompose k) as (Hi & Hj & Ho & Ek); [lia|].
    set (i := k / (blockNum m * eb)) in *. set (j := k `mod` (blockNum m * eb) / eb) in *.
    set (o := (k `mod` (blockNum m * eb)) `mod` eb) in *.
    unfold in_element in Hx. rewrite Ek, element_split in Hx by done.
    clearbody i j o. assert (0 <= o * w ∧ o * w + w <= blockSize m) as Hend by (rewrite Hsz; nia).
    destruct (decide (i < q)) as [|Hge]; [left; exists i, j; unfold in_block; lia|].
    assert (i = q) as -> by nia. right.
    destruct (decide (j < lb)) as [|Hge']; [left; exists j; unfold in_block; lia|].
    right. assert (o + j * eb < t) as Hlt by (unfold t; lia). assert (j = lb) as -> by nia.
    assert (o * w + w <= (t - lb * eb) * w) by nia. lia.
  - intros [(i & j & Hi & Hj & Hx)|[(j & Hj & Hx)|Hx] ].
    + destruct (block_byte i j x) as [Ho Hin]; [lia|done|done|]. eexists. split; [|done]. nia.
    + destruct (block_byte q j x) as [Ho Hin]; [lia|lia|done|]. eexists. split; [|done]. unfold t in *. nia.
    + destruct (block_byte q lb x) as [Ho Hin]; [lia|lia|nia|]. eexists. split; [|done].
      assert ((x - block_base m q lb) / w < t - lb * eb) by (apply Z.div_lt_upper_bound; lia). unfold t in *. nia.
Qed.
End elements.

(** ** The events *)

(** No address of the operation wraps around, and the whole repeats fit. *)
Record count_fits (m : MemOpInfo) (eb : Z) : Prop := {
  cf_typed : mem_typed m;
  cf_count : 1 <= mask0 (vectorMask m);
  cf_repeats : mask0 (vectorMask m) / (blockNum m * eb) < 2 ^ 32;
  cf_extent : addr m + mask0 (vectorMask m) / (blockNum m * eb) * repeatStride m * blockSize m +
              blockNum m * blockStride m * blockSize m < 2 ^ 64;
}.

Record repeat_fits (m : MemOpInfo) (eb c : Z) : Prop := {
  rf_typed : mem_typed m;
  rf_blocks : c / eb < 2 ^ 32;
  rf_extent : addr m + repeatTimes m * repeatStride m * blockSize m + c / eb * blockStride m * blockSize m < 2 ^ 64;
}.

(** The length of the writes is computed in bits and stored in 32 bits. *)
Record side_fits (m : MemOpInfo) (w : Z) : Prop := {
  sf_typed : mem_typed m;
  sf_bits : mask0 (vectorMask m) * (8 * w) * repeatTimes m < 2 ^ 64;
  sf_length : repeatTimes m * mask0 (vectorMask m) * w < 2 ^ 32;
}.

Definition mask_fits (r : RecordType.RecordType) (m : MemOpInfo) (w eb : Z) : Prop :=
  1 <= mask0 (vectorMask m) ∧
  match mode_of r m with
  | Overall => count_fits m eb
  | PerRepeat => repeat_fits m eb (mask0 (vectorMask m))
  | SideBySide => side_fits m w
  end.

Lemma touched_repeats m q x :
  0 <= q < 2 ^ 32 → touched (repeats_part m q) x ↔ ∃ i j, 0 <= i < q ∧ 0 <= j < blockNum m ∧ in_block m i j x.
Proof. intros Hq. unfold touched, repeats_part, in_block, block_base. cbn. by rewrite u32_small. Qed.

Lemma touched_blocks m q lb x :
  mem_typed m → 0 <= q → 0 <= lb <= blockNum m → addr m + q * repeatStride m * blockSize m < 2 ^ 64 →
  touched (blocks_part m q lb) x ↔ ∃ j, 0 <= j < lb ∧ in_block m q j x.
Proof.
  intros Hm Hq Hlb Ha. pose proof (ty_addr m Hm). pose proof (ty_blockNum m Hm). pose proof (ty_repeatStride m Hm).
  pose proof (ty_blockSize m Hm). unfold is_u64, is_u32 in *.
  unfold touched, blocks_part, in_block, block_base. cbn.
  rewrite (u64_small (addr m + _)) by (unfold is_u64; split; [|done]; apply Z.add_nonneg_nonneg; [lia|];
    repeat apply Z.mul_nonneg_nonneg; lia).
  rewrite (u32_small lb), (u32_small 1) by (unfold is_u32; lia). split.
  - intros (i & j & Hi & Hj & Hx). assert (i = 0) as -> by lia. exists j. split; [done|]. lia.
  - intros (j & Hj & Hx). exists 0, j. lia.
Qed.

Lemma touched_rest m q lb n x :
  mem_typed m → 0 <= q → 0 <= lb → 0 <= n < 2 ^ 32 →
  addr m + q * repeatStride m * blockSize m + lb * blockStride m * blockSize m < 2 ^ 64 →
  touched (rest_part m q lb n) x ↔ block_base m q lb <= x < block_base m q lb + n.
Proof.
  intros Hm Hq Hlb Hn Ha. pose proof (ty_addr m Hm). pose proof (ty_blockStride m Hm). pose proof (ty_repeatStride m Hm).
  pose proof (ty_blockSize m Hm). unfold is_u64, is_u32 in *.
  unfold touched, rest_part, block_base. cbn.
  rewrite (u64_small (addr m + _ + _)) by (unfold is_u64; split; [|done]; repeat apply Z.add_nonneg_nonneg;
    [lia|repeat apply Z.mul_nonneg_nonneg; lia..]).
  rewrite (u32_small n), (u32_small 1) by (unfold is_u32; lia). split.
  - intros (i & j & Hi & Hj & Hx). assert (i = 0) as -> by lia. assert (j = 0) as -> by lia. lia.
  - intros Hx. exists 0, 0. lia.
Qed.

Definition when (b : bool) (m : MemOpInfo) : list MemOpInfo := if b then [m] else [].

Lemma counts_all_same `{ParseEnv} ev r m :
  counts_all r → Mask.MaskCountProcess ev r m = Mask.MaskCountProcess ev RecordType.UNARY_OP m.
Proof. by destruct r. Qed.

Lemma elements_per_block m w eb : layout m w eb → blockSize m * FormatConverter.BITS_EACH_BYTE / dataBits m = eb.
Proof.
  intros [Hw He Hb Hs Hn]. unfold FormatConverter.BITS_EACH_BYTE. rewrite Hb, Hs.
  replace (w * eb * 8) with (eb * (8 * w)) by lia. apply Z.div_mul. lia.
Qed.

Lemma rest_bytes m w eb k : layout m w eb → k * dataBits m / FormatConverter.BITS_EACH_BYTE = k * w.
Proof.
  intros [Hw He Hb Hs Hn]. unfold FormatConverter.BITS_EACH_BYTE. rewrite Hb.
  replace (k * (8 * w)) with (k * w * 8) by lia. apply Z.div_mul. lia.
Qed.

Lemma elements_per_repeat m w eb : layout m w eb → mem_typed m → blockNum m *u eb = blockNum m * eb.
Proof.
  intros [Hw He Hb Hs Hn] Hm. pose proof (ty_blockNum m Hm). pose proof (ty_blockSize m Hm). unfold is_u32 in *.
  apply u64_small. unfold is_u64. nia.
Qed.

(** Some of a list of operations touches a byte. *)
Definition some_touch (l : list MemOpInfo) (x : Z) : Prop := ∃ op, op ∈ l ∧ touched op x.

Lemma touched_when b m x : (b = false → ¬ touched m x) → some_touch (when b m) x ↔ touched m x.
Proof.
  unfold some_touch. destruct b; cbn; intros Hb.
  - split; [by intros (op & ->%list_elem_of_singleton & ?)|]. intros. exists m. split; [by left|done].
  - split; [by intros (op & ?%elem_of_nil & ?)|]. by intros ?%Hb.
Qed.

Lemma touched_app l k x : some_touch (l ++ k) x ↔ some_touch l x ∨ some_touch k x.
Proof. unfold some_touch. setoid_rewrite elem_of_app. naive_solver. Qed.

Lemma emitted_touch (ev : EventInfo → SanEvent) l x :
  (∀ i, eventInfo (ev i) = i) →
  (∃ op, MemInfo op ∈ eventInfo <$> ((λ m, ev (MemInfo m)) <$> l) ∧ touched op x) ↔ some_touch l x.
Proof.
  intros Hev. unfold some_touch. rewrite <- list_fmap_compose. split; intros (op & Hop & Hx); exists op; (split; [|done]).
  - apply list_elem_of_fmap in Hop as (op' & E & ?). unfold compose in E. rewrite Hev in E. by injection E as ->.
  - apply list_elem_of_fmap. exists op. unfold compose. by rewrite Hev.
Qed.

Lemma count_bounds m w eb :
  layout m w eb → count_fits m eb →
  let q := mask0 (vectorMask m) / (blockNum m * eb) in
  let t := mask0 (vectorMask m) - q * (blockNum m * eb) in
  let lb := t / eb in
  0 <= q < 2 ^ 32 ∧ 0 <= lb <= blockNum m ∧ 0 <= t - lb * eb ∧ 0 <= (t - lb * eb) * w < 2 ^ 32 ∧
  addr m + q * repeatStride m * blockSize m < 2 ^ 64 ∧
  addr m + q * repeatStride m * blockSize m + lb * blockStride m * blockSize m < 2 ^ 64.
Proof.
  intros [Hw He Hb Hs Hn] [Hm Hc Hr Hx] q t lb. fold q in Hr, Hx.
  assert (0 < blockNum m * eb) as HB by nia. pose proof (Z.mod_pos_bound (mask0 (vectorMask m)) _ HB) as Hmb.
  pose proof (Z.div_mod (mask0 (vectorMask m)) (blockNum m * eb)) as Hdm. fold q in Hdm.
  assert (0 <= t < blockNum m * eb) as Ht by (unfold t; lia).
  pose proof (Z.mod_pos_bound t eb ltac:(lia)) as Hmb2. pose proof (Z.div_mod t eb) as Hdm2. fold lb in Hdm2.
  assert (0 <= lb < blockNum m) as Hlb. { split; [apply Z.div_pos; lia|]. apply Z.div_lt_upper_bound; lia. }
  assert (0 <= q) as Hq by (apply Z.div_pos; lia).
  pose proof (ty_blockSize m Hm). pose proof (ty_blockStride m Hm). unfold is_u32 in *.
  assert (0 <= blockStride m * blockSize m) by nia.
  assert (lb * (blockStride m * blockSize m) <= blockNum m * (blockStride m * blockSize m)) by nia.
  assert (0 <= lb * (blockStride m * blockSize m)) by nia.
  split_and!; try lia; nia.
Qed.

Section run.
Context `{ParseEnv}.

Lemma MaskCountProcess_run ev r m w eb s :
  layout m w eb → count_fits m eb → counts_all r →
  let q := mask0 (vectorMask m) / (blockNum m * eb) in
  let t := mask0 (vectorMask m) - q * (blockNum m * eb) in
  let lb := t / eb in
  ∃ m', Mask.MaskCountProcess ev r m s =
    Some (m', s, (λ m, ev (MemInfo m)) <$>
      (when (0 <? q) (repeats_part m q) ++ when (0 <? lb) (blocks_part m q lb) ++
       when (0 <? t - lb * eb) (rest_part m q lb ((t - lb * eb) * w)))).
Proof.
  intros Hl Hf Hr q t lb. rewrite counts_all_same by done. unfold Mask.MaskCountProcess. cbv zeta.
  rewrite (elements_per_block m w eb Hl), (elements_per_repeat m w eb Hl (cf_typed _ _ Hf)).
  pose proof Hl as [Hw He Hb Hs Hn]. pose proof (cf_count _ _ Hf) as Hc.
  destruct (Z.eqb_spec (mask0 (vectorMask m)) 0); [lia|]. destruct (Z.eqb_spec (dataBits m) 0); [lia|]. cbn [orb].
  destruct (Z.eqb_spec eb 0); [lia|]. destruct (Z.eqb_spec (blockNum m * eb) 0); [nia|].
  fold q. fold t. fold lb. rewrite <- (rest_bytes m w eb (t - lb * eb) Hl).
  destruct (0 <? q), (0 <? lb), (0 <? t - lb * eb); eexists; reflexivity.
Qed.

(** ** Operations whose count runs over all repeats *)

Lemma count_all_exact ev r m w eb s x :
  (∀ i, eventInfo (ev i) = i) → layout m w eb → count_fits m eb → counts_all r →
  ∃ m' es, Mask.MaskCountProcess ev r m s = Some (m', s, es) ∧
    ((∃ op, MemInfo op ∈ eventInfo <$> es ∧ touched op x) ↔
     ∃ k, 0 <= k < mask0 (vectorMask m) ∧ in_element m w eb k x).
Proof.
  intros Hev Hl Hf Hr. destruct (MaskCountProcess_run ev r m w eb s Hl Hf Hr) as (m' & Hrun).
  do 2 eexists. split; [exact Hrun|]. clear Hrun.
  pose proof (cf_count _ _ Hf) as Hc. rewrite (counted_elements m w eb Hl) by lia. cbv zeta.
  set (q := mask0 (vectorMask m) / (blockNum m * eb)). set (t := mask0 (vectorMask m) - q * (blockNum m * eb)).
  set (lb := t / eb). destruct (count_bounds m w eb Hl Hf) as (Hq & Hlb & Hrest & Hn & Ha & Ha'). fold q t lb in Hq, Hlb, Hrest, Hn, Ha, Ha'.
  pose proof (cf_typed _ _ Hf) as Hm.
  rewrite <- (touched_repeats m q x), <- (touched_blocks m q lb x) by (done || lia).
  rewrite <- (touched_rest m q lb ((t - lb * eb) * w) x) by (done || lia).
  rewrite (emitted_touch ev _ x Hev), !touched_app. rewrite !touched_when; [done|..].
  - intros E%Z.ltb_ge. rewrite touched_rest by (done || lia). assert (t - lb * eb = 0) as -> by lia. lia.
  - intros E%Z.ltb_ge. rewrite touched_blocks by (done || lia). intros (j & Hj & _). lia.
  - intros E%Z.ltb_ge. rewrite touched_repeats by lia. intros (i & j & Hi & _). lia.
Qed.

(** ** Operations whose count applies to every repeat *)

Lemma bind_run {A B} (c : P A) (k : A → P B) s a es b es' :
  c s = Some (a, s, es) → k a s = Some (b, s, es') → (c ≫= k) s = Some (b, s, es ++ es').
Proof. intros E1 E2. unfold mbind, P_bind. by rewrite E1, E2. Qed.

Lemma emit_at_run ev a m s : emit_at ev a m s = Some (Mem.addr a m, s, [ev (MemInfo (Mem.addr a m))]).
Proof. reflexivity. Qed.

Lemma emit_rest (ev : EventInfo → SanEvent) a bs n i m s :
  ∃ m', loop n i (λ j m, emit_at ev (a + j * repeatStride m * bs) m) m s =
    Some (m', s, (λ m, ev (MemInfo m)) <$> ((λ j, Mem.addr (a + j * repeatStride m * bs) m) <$> seqZ i (Z.of_nat n))).
Proof.
  revert i m. induction n as [|n IH]; intros i m; [by exists m|].
  destruct (IH (i + 1) (Mem.addr (a + i * repeatStride m * bs) m)) as (m' & E). exists m'.
  rewrite seqZ_cons by lia. cbn [loop]. unfold mbind, P_bind. rewrite emit_at_run. rewrite E. replace (Z.pred (Z.of_nat (S n))) with (Z.of_nat n) by lia. reflexivity.
Qed.

Lemma ByRepeat_run ev c m w eb s :
  layout m w eb → mem_typed m → let nb := c / eb in
  ∃ m', Mask.MaskCountProcessByRepeat ev c m s =
    Some (m', s, (λ m, ev (MemInfo m)) <$>
      (when (0 <? nb) (Mem.blockNum nb m) ++
       (if 0 <? c - nb * eb then rest_of_repeat m nb ((c - nb * eb) * w) <$> seqZ 0 (repeatTimes m) else []))).
Proof.
  intros Hl Hm nb. unfold Mask.MaskCountProcessByRepeat. cbv zeta. rewrite (elements_per_block m w eb Hl).
  pose proof Hl as [Hw He Hb Hs Hn]. pose proof (ty_repeatTimes m Hm). unfold is_u32 in *.
  destruct (Z.eqb_spec (dataBits m) 0); [lia|]. destruct (Z.eqb_spec eb 0); [lia|].
  fold nb. rewrite <- (rest_bytes m w eb (c - nb * eb) Hl).
  set (z := (c - nb * eb) * dataBits m / FormatConverter.BITS_EACH_BYTE).
  assert (∀ m0, (λ k, assign [Mem.repeatTimes 1; Mem.blockNum 1; Mem.blockSize z] k) m0 =
                 assign [Mem.repeatTimes 1; Mem.blockNum 1; Mem.blockSize z] m →
    ∃ m', for_up (repeatTimes m)
    (λ j k, emit_at ev (u64 (addr m + nb * blockStride m * blockSize m) + j * repeatStride k * blockSize m) k)
    (assign [Mem.repeatTimes 1; Mem.blockNum 1; Mem.blockSize z] m0) s =
    Some (m', s, (λ m, ev (MemInfo m)) <$> (rest_of_repeat m nb z <$> seqZ 0 (repeatTimes m)))) as Hrest.
  { intros m0 ->. unfold for_up. edestruct emit_rest as (m' & E). exists m'. rewrite E, Z2Nat.id by lia. reflexivity. }
  assert (∃ m0, (if 0 <? nb then let m := Mem.blockNum nb m in emit_mem ev m;; mret m else mret m : P MemOpInfo) s =
      Some (m0, s, (λ m, ev (MemInfo m)) <$> when (0 <? nb) (Mem.blockNum nb m)) ∧
      m0 = if 0 <? nb then Mem.blockNum nb m else m) as (m0 & E0 & Hm0).
  { exists (if 0 <? nb then Mem.blockNum nb m else m). destruct (0 <? nb); split; reflexivity. }
  setoid_rewrite fmap_app.
  assert (∃ m', (if 0 <? c - nb * eb then m1 ← for_up (repeatTimes m0)
      (λ j k, emit_at ev (u64 (addr m0 + nb * blockStride m0 * blockSize m0) + j * repeatStride k * blockSize m0) k)
      (assign [Mem.repeatTimes 1; Mem.blockNum 1; Mem.blockSize ((c - nb * eb) * dataBits m0 / FormatConverter.BITS_EACH_BYTE)] m0);
      mret (Mem.repeatTimes (repeatTimes m0) m1) else mret m0 : P MemOpInfo) s =
    Some (m', s, (λ m, ev (MemInfo m)) <$> (if 0 <? c - nb * eb then rest_of_repeat m nb z <$> seqZ 0 (repeatTimes m) else [])))
    as (m' & E').
  { destruct (0 <? c - nb * eb); [|by eexists].
    assert (∃ m1, for_up (repeatTimes m0)
      (λ j k, emit_at ev (u64 (addr m0 + nb * blockStride m0 * blockSize m0) + j * repeatStride k * blockSize m0) k)
      (assign [Mem.repeatTimes 1; Mem.blockNum 1; Mem.blockSize ((c - nb * eb) * dataBits m0 / FormatConverter.BITS_EACH_BYTE)] m0) s
      = Some (m1, s, (λ m, ev (MemInfo m)) <$> (rest_of_repeat m nb z <$> seqZ 0 (repeatTimes m)))) as (m1 & E1).
    { subst m0. destruct (0 <? nb); [apply (Hrest (Mem.blockNum nb m) eq_refl)|apply (Hrest m eq_refl)]. }
    eexists. rewrite <- (app_nil_r (_ <$> (rest_of_repeat _ _ _ <$> _))). by eapply bind_run. }
  exists m'. by eapply bind_run.
Qed.


(** A byte of block [j] of repeat [i] lies in one element of the block. *)
Lemma byte_element m w eb i j x :
  layout m w eb → in_block m i j x → ∃ o, 0 <= o < eb ∧ block_base m i j + o * w <= x < block_base m i j + o * w + w.
Proof.
  intros [Hw He _ Hs _] Hx. unfold in_block in Hx. exists ((x - block_base m i j) / w).
  split; [split; [apply Z.div_pos; lia|apply Z.div_lt_upper_bound; lia]|].
  pose proof (Z.div_mod (x - block_base m i j) w). pose proof (Z.mod_pos_bound (x - block_base m i j) w). nia.
Qed.

(** The first [c] elements of every repeat: whole blocks and the beginning of one. *)
Lemma repeat_elements m w eb c x :
  layout m w eb → 0 <= c → let nb := c / eb in
  (∃ i k, 0 <= i < repeatTimes m ∧ 0 <= k < c ∧ in_repeat_element m w eb i k x) ↔
  (∃ i j, 0 <= i < repeatTimes m ∧ 0 <= j < nb ∧ in_block m i j x) ∨
  ∃ i, 0 <= i < repeatTimes m ∧ block_base m i nb <= x < block_base m i nb + (c - nb * eb) * w.
Proof.
  intros Hl Hc nb. pose proof Hl as [Hw He _ Hs _]. pose proof (Z.div_mod c eb) as Hdm. fold nb in Hdm.
  pose proof (Z.mod_pos_bound c eb ltac:(lia)) as Hmb. assert (0 <= nb) by (apply Z.div_pos; lia).
  unfold in_repeat_element, repeat_element. split.
  - intros (i & k & Hi & Hk & Hx). pose proof (Z.div_mod k eb ltac:(lia)) as Hdk.
    pose proof (Z.mod_pos_bound k eb ltac:(lia)) as Hmk. assert (0 <= k / eb) by (apply Z.div_pos; lia).
    set (j := k / eb) in *. set (o := k `mod` eb) in *. clearbody j o.
    assert (0 <= o * w ∧ o * w + w <= blockSize m) as Hend by (rewrite Hs; nia).
    destruct (decide (j < nb)); [left; exists i, j; unfold in_block; lia|]. right. exists i. split; [done|].
    assert (j = nb) as -> by nia. assert (o + 1 <= c - nb * eb) by lia.
    assert (o * w + w <= (c - nb * eb) * w) by nia. lia.
  - intros [(i & j & Hi & Hj & Hx)|(i & Hi & Hx)].
    + destruct (byte_element m w eb i j x Hl Hx) as (o & Ho & Hox). exists i, (j * eb + o).
      split; [done|]. split; [nia|]. rewrite (Z.add_comm (j * eb)), Z.div_add, Z.mod_add by lia.
      by rewrite (Z.div_small o), (Z.mod_small o), Z.add_0_l by lia.
    + assert (in_block m i nb x) as Hb by (unfold in_block; nia).
      destruct (byte_element m w eb i nb x Hl Hb) as (o & Ho & Hox). exists i, (nb * eb + o).
      split; [done|]. split; [nia|]. rewrite (Z.add_comm (nb * eb)), Z.div_add, Z.mod_add by lia.
      by rewrite (Z.div_small o), (Z.mod_small o), Z.add_0_l by lia.
Qed.

Lemma touched_repeat_rest m nb n i x :
  mem_typed m → 0 <= nb → 0 <= i < repeatTimes m → 0 <= n < 2 ^ 32 →
  addr m + repeatTimes m * repeatStride m * blockSize m + nb * blockStride m * blockSize m < 2 ^ 64 →
  touched (rest_of_repeat m nb n i) x ↔ block_base m i nb <= x < block_base m i nb + n.
Proof.
  intros Hm Hnb Hi Hn Ha. pose proof (ty_addr m Hm). pose proof (ty_blockStride m Hm). pose proof (ty_repeatStride m Hm).
  pose proof (ty_blockSize m Hm). unfold is_u64, is_u32 in *.
  assert (0 <= repeatStride m * blockSize m) as HR by nia. assert (0 <= blockStride m * blockSize m) as HS by nia.
  assert (0 <= nb * (blockStride m * blockSize m)) as HB by nia.
  assert (0 <= i * (repeatStride m * blockSize m) <= repeatTimes m * (repeatStride m * blockSize m)) as HI by nia.
  unfold touched, rest_of_repeat, block_base. cbn.
  rewrite (u64_small (addr m + nb * _ * _)) by (unfold is_u64; lia). rewrite u64_small by (unfold is_u64; lia).
  rewrite (u32_small n), (u32_small 1) by (unfold is_u32; lia). split.
  - intros (a & b & Ha' & Hb & Hx). assert (a = 0) as -> by lia. assert (b = 0) as -> by lia. lia.
  - intros Hx. exists 0, 0. lia.
Qed.

Lemma ByRepeat_exact ev c m w eb s x :
  (∀ i, eventInfo (ev i) = i) → layout m w eb → 0 <= c → repeat_fits m eb c →
  ∃ m' es, Mask.MaskCountProcessByRepeat ev c m s = Some (m', s, es) ∧
    ((∃ op, MemInfo op ∈ eventInfo <$> es ∧ touched op x) ↔
     ∃ i k, 0 <= i < repeatTimes m ∧ 0 <= k < c ∧ in_repeat_element m w eb i k x).
Proof.
  intros Hev Hl Hc [Hm Hr Ha]. destruct (ByRepeat_run ev c m w eb s Hl Hm) as (m' & E). do 2 eexists. split; [exact E|].
  rewrite (emitted_touch ev _ x Hev), (repeat_elements m w eb c x Hl Hc), touched_app. clear E. cbv zeta.
  set (nb := c / eb) in *. pose proof Hl as [Hw He _ Hs _]. pose proof (Z.div_mod c eb ltac:(lia)) as Hdm. fold nb in Hdm.
  pose proof (Z.mod_pos_bound c eb ltac:(lia)) as Hmb. assert (0 <= nb) by (apply Z.div_pos; lia).
  pose proof (ty_blockSize m Hm). unfold is_u32 in *. assert (0 <= (c - nb * eb) * w < 2 ^ 32) as Hn by nia.
  assert (touched (Mem.blockNum nb m) x ↔ ∃ i j, 0 <= i < repeatTimes m ∧ 0 <= j < nb ∧ in_block m i j x) as Hb.
  { unfold touched, in_block, block_base. cbn. by rewrite u32_small. }
  rewrite touched_when, Hb by (intros E%Z.ltb_ge; rewrite Hb; intros (i & j & _ & Hj & _); lia).
  assert (some_touch (if 0 <? c - nb * eb then rest_of_repeat m nb ((c - nb * eb) * w) <$> seqZ 0 (repeatTimes m) else []) x ↔
    ∃ i, 0 <= i < repeatTimes m ∧ block_base m i nb <= x < block_base m i nb + (c - nb * eb) * w) as ->; [|done].
  destruct (Z.ltb_spec 0 (c - nb * eb)); split.
  - intros (op & (i & -> & Hi%elem_of_seqZ)%list_elem_of_fmap & Hx). rewrite touched_repeat_rest in Hx by (done || lia).
    by exists i.
  - intros (i & Hi & Hx). eexists. split; [|by rewrite touched_repeat_rest by (done || lia)].
    apply list_elem_of_fmap. exists i. split; [done|]. apply elem_of_seqZ. lia.
  - by intros (op & ?%elem_of_nil & _).
  - intros (i & _ & Hx). nia.
Qed.

(** *** Writes side by side *)

Lemma Continuous_exact ev m w eb s x :
  (∀ i, eventInfo (ev i) = i) → layout m w eb → side_fits m w →
  ∃ m' es, Mask.MaskCountProcessContinuous ev m s = Some (m', s, es) ∧
    ((∃ op, MemInfo op ∈ eventInfo <$> es ∧ touched op x) ↔
     addr m <= x < addr m + repeatTimes m * mask0 (vectorMask m) * w).
Proof.
  intros Hev [Hw He Hb Hs _] [Hm Hbits Hlen]. pose proof (ty_mask0 m Hm). pose proof (ty_repeatTimes m Hm).
  unfold is_u64, is_u32 in *. do 2 eexists. split; [reflexivity|].
  set (op := assign _ m). transitivity (some_touch [op] x).
  { by rewrite <- (emitted_touch ev [op] x Hev). }
  transitivity (touched op x).
  { split; [by intros (? & ->%list_elem_of_singleton & ?)|]. intros. exists op. split; [by left|done]. }
  unfold op, touched, block_base. cbn. unfold FormatConverter.BITS_EACH_BYTE. rewrite Hb.
  rewrite u64_small by (unfold is_u64; nia).
  replace (mask0 (vectorMask m) * (8 * w) * repeatTimes m) with (repeatTimes m * mask0 (vectorMask m) * w * 8) by lia.
  rewrite Z.div_mul, (u32_small (repeatTimes m * _ * _)), (u32_small 1) by (unfold is_u32; nia). split.
  - intros (a & b & Ha & Hb' & Hx). assert (a = 0) as -> by lia. assert (b = 0) as -> by lia. lia.
  - intros Hx. exists 0, 0. lia.
Qed.

Lemma mask_mode ev r m :
  1 <= mask0 (vectorMask m) → 1 <= dataBits m →
  match mode_of r m with
  | Overall => counts_all r
  | PerRepeat => Mask.MaskCountProcess ev r m = Mask.MaskCountProcessByRepeat ev (mask0 (vectorMask m)) m
  | SideBySide => Mask.MaskCountProcess ev r m = Mask.MaskCountProcessContinuous ev m
  end.
Proof.
  intros Hc Hb. unfold Mask.MaskCountProcess. destruct (Z.eqb_spec (mask0 (vectorMask m)) 0); [lia|].
  destruct (Z.eqb_spec (dataBits m) 0); [lia|]. unfold mode_of. destruct r; try done; by destruct (opType m).
Qed.

(** C15: In counter mode the events of a vector operation touch exactly the
    elements the mask counts, for a layout of [w] bytes per element and [eb]
    elements per block. For most instructions a byte is touched iff it belongs to
    one of the first [mask0] elements, numbered through blocks and repeats,
    whatever the repeat count says. For [VCOPY] and for what [VREDUCEV2] reads
    the count applies to every repeat: a byte is touched iff it belongs to one of
    the first [mask0] elements of one of the repeats. What [VREDUCEV2] writes is
    the [mask0] elements of all repeats side by side. *)
Theorem mask_count_exact ev r m w eb s x :
  (∀ i, eventInfo (ev i) = i) → layout m w eb → mask_fits r m w eb →
  ∃ m' es, Mask.MaskCountProcess ev r m s = Some (m', s, es) ∧
    ((∃ op, MemInfo op ∈ eventInfo <$> es ∧ touched op x) ↔ counted r m w eb x).
Proof.
  intros Hev Hl [Hc Hf]. pose proof Hl as [Hw _ Hb _ _]. pose proof (mask_mode ev r m Hc ltac:(lia)) as Hmode.
  unfold counted. destruct (mode_of r m).
  - by apply count_all_exact.
  - rewrite Hmode. by apply ByRepeat_exact; [..|lia|].
  - rewrite Hmode. by eapply Continuous_exact.
Qed.
End run.

(** ** Example: 300 elements of 16 bits, 16 in a block, 128 in a repeat *)

Import ParseEx.

Definition ex_vector : MemOpInfo :=
  assign [Mem.memType MemType.UB; Mem.opType READ; Mem.vectorMask {| mask0 := 300; mask1 := 0 |};
          Mem.maskMode MASK_COUNT; Mem.dataBits 16; Mem.addr 4096; Mem.blockNum 8; Mem.blockSize 32;
          Mem.blockStride 2; Mem.repeatTimes 1; Mem.repeatStride 16] zero_mem.
Definition ex_event : EventInfo → SanEvent := new_event 1 zero_LocInfo false PIPE_V.

(** A copy of 20 elements in each of three repeats. *)
Definition ex_copy : MemOpInfo :=
  assign [Mem.vectorMask {| mask0 := 20; mask1 := 0 |}; Mem.repeatTimes 3] ex_vector.

Lemma ex_layout : layout ex_vector 2 16.
Proof. split; vm_compute; congruence. Qed.

Lemma ex_fits : mask_fits RecordType.BINARY_OP ex_vector 2 16.
Proof. split; [by vm_compute|]. split; [split; by vm_compute|by vm_compute..]. Qed.

(** Byte 5271 lies in element 299: repeat 2, block 2, position 11. *)
Lemma mask_count_exact_witness :
  layout ex_vector 2 16 ∧ mask_fits RecordType.BINARY_OP ex_vector 2 16 ∧ element_addr ex_vector 2 16 299 = 5270 ∧
  (∃ m' es, Mask.MaskCountProcess ex_event RecordType.BINARY_OP ex_vector start = Some (m', start, es) ∧
    ((∃ op, MemInfo op ∈ eventInfo <$> es ∧ touched op 5271) ↔
     ∃ k, 0 <= k < mask0 (vectorMask ex_vector) ∧ in_element ex_vector 2 16 k 5271)) ∧
  ∃ m' es, Mask.MaskCountProcess ex_event RecordType.VCOPY_OP ex_copy start = Some (m', start, es) ∧
    length es = 4%nat ∧
    ((∃ op, MemInfo op ∈ eventInfo <$> es ∧ touched op 4700) ↔
     ∃ i k, 0 <= i < 3 ∧ 0 <= k < 20 ∧ in_repeat_element ex_copy 2 16 i k 4700).
Proof.
  split; [exact ex_layout|]. split; [exact ex_fits|]. split; [vm_compute; reflexivity|]. split.
  - apply (mask_count_exact ex_event RecordType.BINARY_OP ex_vector 2 16 start 5271 (λ _, eq_refl) ex_layout ex_fits).
  - destruct (mask_count_exact ex_event RecordType.VCOPY_OP ex_copy 2 16 start 4700 (λ _, eq_refl))
      as (m' & es & E & Hx); [split; vm_compute; congruence|split; [by vm_compute|split; [split; by vm_compute|by vm_compute..] ]|].
    exists m', es. split; [exact E|]. split; [|exact Hx]. vm_compute in E. by injection E as <- <-.
Defined.
