(* ===== verification/RaceAlg.v ===== *)
(** The race check of one kernel: [race_alg_base.cpp], [race_alg_impl.cpp],
    [single_pipe_race_alg_impl.cpp] and [cross_core_race_alg_impl.cpp] in
    [csrc/race_sanitizer/alg_framework].

    An algorithm collects the events of a kernel and, at its end, replays them
    on the pipes; every memory event gets the vector time of its pipe and goes
    to the checker. [SubmitStage2] runs the replay on another thread; its
    results are only read after [WaitFinished], so the model runs it in [Do].

    [None] is an access outside a container or a replay longer than the fuel. *)
From stdpp Require Import base numbers option gmap sets strings list.
From S2P Require Import Prelude.
From S2P Require Import RecordDefs.
From S2P Require Import Platform.
From S2P Require Import EventDef.
From S2P Require Import VectorTime.
From S2P Require Import EventContainer.
From S2P Require Import SyncContainers.
From S2P Require Import PipelineReplayer.
From S2P Require Import MemSeries.
From S2P Require Import MemEventChecker.
From S2P Require Import Scanline.
Import VT Cont Pipe.

(** ** [RaceAlgBase] *)
Module AlgBase.
(** The members other than the event container. *)
Record RaceAlgBase := mkBase {
  isFinished_ : bool;
  cross_ : Cross.CrossCoreSyncInfoContainer;
  mstxSetCrossMap_ : gmap (Z * Z) Z;
  getRlsBufMap_ : gmap (Z * Z) (list VectorTime);
  vc_ : list VectorTime;
  memChecker_ : Checker.MemEventChecker;
  timeInfoPool_ : TimeInfoPool;
  kernelType_ : KernelType; deviceType_ : DeviceType; blockDim_ : Z;
}.

Definition upd_finished (f : bool) (b : RaceAlgBase) : RaceAlgBase :=
  mkBase f (cross_ b) (mstxSetCrossMap_ b) (getRlsBufMap_ b) (vc_ b) (memChecker_ b) (timeInfoPool_ b)
    (kernelType_ b) (deviceType_ b) (blockDim_ b).
Definition upd_cross (c : Cross.CrossCoreSyncInfoContainer) (b : RaceAlgBase) : RaceAlgBase :=
  mkBase (isFinished_ b) c (mstxSetCrossMap_ b) (getRlsBufMap_ b) (vc_ b) (memChecker_ b) (timeInfoPool_ b)
    (kernelType_ b) (deviceType_ b) (blockDim_ b).
Definition upd_mstx (m : gmap (Z * Z) Z) (b : RaceAlgBase) : RaceAlgBase :=
  mkBase (isFinished_ b) (cross_ b) m (getRlsBufMap_ b) (vc_ b) (memChecker_ b) (timeInfoPool_ b)
    (kernelType_ b) (deviceType_ b) (blockDim_ b).
Definition upd_bufs (m : gmap (Z * Z) (list VectorTime)) (b : RaceAlgBase) : RaceAlgBase :=
  mkBase (isFinished_ b) (cross_ b) (mstxSetCrossMap_ b) m (vc_ b) (memChecker_ b) (timeInfoPool_ b)
    (kernelType_ b) (deviceType_ b) (blockDim_ b).
Definition upd_vc (v : list VectorTime) (b : RaceAlgBase) : RaceAlgBase :=
  mkBase (isFinished_ b) (cross_ b) (mstxSetCrossMap_ b) (getRlsBufMap_ b) v (memChecker_ b) (timeInfoPool_ b)
    (kernelType_ b) (deviceType_ b) (blockDim_ b).
Definition upd_checker (c : Checker.MemEventChecker) (b : RaceAlgBase) : RaceAlgBase :=
  mkBase (isFinished_ b) (cross_ b) (mstxSetCrossMap_ b) (getRlsBufMap_ b) (vc_ b) c (timeInfoPool_ b)
    (kernelType_ b) (deviceType_ b) (blockDim_ b).
Definition upd_pool (p : TimeInfoPool) (b : RaceAlgBase) : RaceAlgBase :=
  mkBase (isFinished_ b) (cross_ b) (mstxSetCrossMap_ b) (getRlsBufMap_ b) (vc_ b) (memChecker_ b) p
    (kernelType_ b) (deviceType_ b) (blockDim_ b).

(** A container that [Init] was not called on. *)
Definition new_Cross : Cross.CrossCoreSyncInfoContainer :=
  Cross.mkCross 0 KT_AICPU C220_VEC_SUB_BLOCKDIM [] [] ∅ SemCores.new_SemCores [].

Definition new_RaceAlgBase (kernelType : KernelType) (deviceType : DeviceType) (blockDim : Z) : RaceAlgBase :=
  mkBase false new_Cross ∅ ∅ [] Checker.new_MemEventChecker (mkPool [] []) kernelType deviceType blockDim.

(** [VectorClock::UpdateLogicTime(vc_[q], q)] *)
Definition tick (q : Z) (b : RaceAlgBase) : option RaceAlgBase :=
  t ← at_index (vc_ b) q;
  t ← VectorClock.UpdateLogicTime q t;
  Some (upd_vc (set_index (vc_ b) q t) b).

(** [VectorClock::UpdateVectorTime(vt, vc_[q])] *)
Definition join (q : Z) (vt : VectorTime) (b : RaceAlgBase) : option RaceAlgBase :=
  t ← at_index (vc_ b) q;
  t ← VectorClock.UpdateVectorTime vt t;
  Some (upd_vc (set_index (vc_ b) q t) b).

Fixpoint join_all (q : Z) (vts : list VectorTime) (b : RaceAlgBase) : option RaceAlgBase :=
  match vts with [] => Some b | vt :: vts => b ← join q vt b; join_all q vts b end.

Definition result : Type := RaceAlgBase * ReturnType.

(** The end of a wait: [vc_[q]] was updated in place. *)
Definition waited (q : Z) (r : Cross.CrossCoreSyncInfoContainer * option VectorTime) (b : RaceAlgBase) : result :=
  match r with
  | (c, Some t) => (upd_vc (set_index (vc_ b) q t) (upd_cross c b), PROCESS_OK)
  | (c, None) => (upd_cross c b, PROCESS_STALLED)
  end.

(** [q] is the index of the current queue. *)
Definition ProcessBlockSyncEvent (q : Z) (event : SanEvent) (i : FftsSyncInfo) (checkType : RaceCheckType)
    (b : RaceAlgBase) : option result :=
  let blockIndex := GetEventBlockIndex event (kernelType_ b) (deviceType_ b) checkType in
  match ffts_opType i with
  | FFTS_SYNC =>
      b ← tick q b;
      let b := upd_checker (Checker.SetVecSubBlockDim (ffts_vecSubBlockDim i) (memChecker_ b)) b in
      t ← at_index (vc_ b) q;
      c ← Cross.SetBlockSyncInfo (ffts_flagId i) (to_FftsSyncMode (ffts_mode i)) blockIndex t
            (ffts_vecSubBlockDim i) (loc event) (serialNo event) (cross_ b);
      Some (upd_cross c b, PROCESS_OK)
  | WAIT_FLAG_DEV =>
      t ← at_index (vc_ b) q;
      r ← Cross.GetBlockSyncInfo (ffts_flagId i) blockIndex t (cross_ b);
      Some (waited q r b)
  | WAIT_INTRA_BLOCK =>
      t ← at_index (vc_ b) q;
      r ← Cross.GetIntraBlockSyncInfo (ffts_flagId i) blockIndex t (cross_ b);
      Some (waited q r b)
  | _ => Some (b, PROCESS_STALLED)
  end.

Definition CacheMstxCrossSet (event : SanEvent) (b : RaceAlgBase) : RaceAlgBase :=
  match eventInfo event with
  | CrossInfo i =>
      if bool_decide (mstx_opType i = MSTX_SET_CROSS) then
        let key := (mstx_addr i, mstx_flagId i) in
        upd_mstx (<[key := match mstxSetCrossMap_ b !! key with Some n => u64 (n + 1) | None => 1 end]>
                    (mstxSetCrossMap_ b)) b
      else b
  | _ => b
  end.

Definition ProcessMstxCrossSyncEvent (q : Z) (i : MstxCrossInfo) (b : RaceAlgBase) : option result :=
  match mstx_opType i with
  | MSTX_SET_CROSS =>
      b ← tick q b;
      t ← at_index (vc_ b) q;
      Some (upd_cross (Cross.SetMstxCrossInfo i t (cross_ b)) b, PROCESS_OK)
  | MSTX_WAIT_CROSS =>
      let key := (mstx_addr i, mstx_flagId i) in
      let n := mstxSetCrossMap_ b !! key in
      if mstx_isMore i && (match n with None => true | Some n => n =? 0 end) then Some (b, PROCESS_OK)
      else
        t ← at_index (vc_ b) q;
        r ← Cross.GetMstxCrossInfo i t (cross_ b);
        match waited q r b with
        | (b, PROCESS_OK) =>
            Some (match n with Some n => upd_mstx (<[key := u64 (n - 1)]> (mstxSetCrossMap_ b)) b | None => b end,
                  PROCESS_OK)
        | r => Some r
        end
  | _ => Some (b, PROCESS_STALLED)
  end.

Definition ProcessGetRlsBufSyncEvent (q : Z) (event : SanEvent) (i : BufSyncInfo) (checkType : RaceCheckType)
    (b : RaceAlgBase) : option result :=
  let bufKey := (GetEventBlockIndex event (kernelType_ b) (deviceType_ b) checkType, buf_bufId i) in
  if bool_decide (buf_opType i = GET_BUF) && bool_decide (buf_mode i = BLOCK_MODE) then
    if buf_rlsCount i =? 0 then Some (b, PROCESS_OK)
    else
      match getRlsBufMap_ b !! bufKey with
      | None => Some (b, PROCESS_STALLED)
      | Some vts =>
          let n := Z.of_nat (length vts) in
          if n <? buf_rlsCount i then Some (b, PROCESS_STALLED)
          else if n =? buf_rlsCount i then b ← join_all q vts b; Some (b, PROCESS_OK)
          else Some (b, PROCESS_OK)
      end
  else if bool_decide (buf_opType i = RLS_BUF) then
    t ← at_index (vc_ b) q;
    Some (upd_bufs (<[bufKey := default [] (getRlsBufMap_ b !! bufKey) ++ [t]]> (getRlsBufMap_ b)) b, PROCESS_OK)
  else Some (b, PROCESS_OK).

(** The common handling of a memory event: the pipe ticks and the event gets its
    time. *)
Definition push_timed (junk : SanEvent → MemOpInfo) (q : Z) (event : SanEvent) (b : RaceAlgBase) : option result :=
  b ← tick q b;
  t ← at_index (vc_ b) q;
  let e := Race.of_SanEvent (junk event) event in
  let e := Race.mkMem (Race.serialNo e) (Race.barrierNo e) (Race.pipeSerialNo e) (Race.closedRingStartSerialNo e) t
             (Race.memInfo e) (Race.dynamicMemInfo e) (Race.loc e) (Race.pipe e) (Race.isAtomicMode e)
             (Race.isDynamic e) in
  Some (upd_checker (Checker.PushEvent e (memChecker_ b)) b, PROCESS_OK).

(** [ProcessTimeEvent] *)
Definition ProcessTimeEvent (q : Z) (ptr : option nat) (b : RaceAlgBase) : option result :=
  b ← (match ptr with
       | Some k =>
           t ← pool (timeInfoPool_ b) !! k;
           b ← join q t b;
           Some (upd_pool (Free (Some k) (timeInfoPool_ b)) b)
       | None => Some b
       end);
  b ← tick q b;
  Some (b, PROCESS_OK).

Definition GetFlagIdWarnInfo (b : RaceAlgBase) : list Cross.CrossCoreSyncWarnInfo := Cross.GetFlagIdWarnInfo (cross_ b).
Definition ClearFlagIdWarnInfo (b : RaceAlgBase) : RaceAlgBase := upd_cross (Cross.ClearFlagIdWarnInfo (cross_ b)) b.
Definition GetResult (b : RaceAlgBase) : list Race.RaceDispInfo := Checker.GetResult (memChecker_ b).
Definition GetRaceCount (b : RaceAlgBase) : Z := Checker.GetRaceCount (memChecker_ b).

(** The end of stage two. *)
Definition run_checker (kernels : KernelManager.KernelManager) (checkDcci : bool) (b : RaceAlgBase)
    : option RaceAlgBase :=
  c ← Scan.RunAlgorithm kernels checkDcci (memChecker_ b);
  Some (upd_finished true (upd_checker c b)).

(** The event a pipe receives before an event that PIPE_S issues to it. *)
Definition zero_loc : LocInfo := Build_LocInfo 0 0 0 0 0 0 0 AIVEC.
Definition time_event (serial : Z) (l : LocInfo) (p : PipeType) (ptr : nat) : SanEvent :=
  {| serialNo := serial; pipe := p; eventInfo := TimeInfo (Some ptr); loc := l; isAtomicMode := false;
     recordType := INVALID_RECORD_TYPE; closedRingStartSerialNo := 0 |}.
End AlgBase.

(** ** [RaceAlgImpl]: between the pipes of a core *)
Module Inner.
Import AlgBase.

(** The container, the members of the base class, and [syncDB_]. *)
Definition RaceAlgImpl : Type := EventContainer * (RaceAlgBase * SyncDb.SyncEventDataBase).

Definition total_blocks (kernelType : KernelType) (deviceType : DeviceType) (blockDim : Z) : Z :=
  if NeedExpandBlockDim kernelType deviceType then u32 (blockDim * C220_MIX_SUB_BLOCKDIM) else 1.

Definition new_RaceAlgImpl (kernelType : KernelType) (deviceType : DeviceType) (blockDim : Z) : RaceAlgImpl :=
  let totalBlockNum := total_blocks kernelType deviceType blockDim in
  let b := new_RaceAlgBase kernelType deviceType blockDim in
  let b := upd_vc (replicate (Z.to_nat (u32 (totalBlockNum * PIPE_NUM))) new_VectorTime) b in
  let b := upd_cross (Cross.Init totalBlockNum kernelType) b in
  let b := upd_checker (Checker.Init kernelType deviceType SINGLE_BLOCK_CHECK (memChecker_ b)) b in
  (Cont.Init totalBlockNum 1, (b, ∅)).

Definition block_of (event : SanEvent) (b : RaceAlgBase) : Z :=
  GetEventBlockIndex event (kernelType_ b) (deviceType_ b) SINGLE_BLOCK_CHECK.

Section process.
Context (junk : SanEvent → MemOpInfo).

Definition ProcessSyncEvent (q : Z) (i : SyncOpInfo) (x : RaceAlgBase * SyncDb.SyncEventDataBase)
    : option (RaceAlgBase * SyncDb.SyncEventDataBase * ReturnType) :=
  let '(b, db) := x in
  match sync_opType i with
  | SET_FLAG =>
      b ← tick q b;
      t ← at_index (vc_ b) q;
      Some (b, SyncDb.Set' (Replay.sync_key i) t db, PROCESS_OK)
  | WAIT_FLAG =>
      match SyncDb.Get (Replay.sync_key i) db with
      | (db, Some vt) => b ← join q vt b; b ← tick q b; Some (b, db, PROCESS_OK)
      | (db, None) => Some (b, db, PROCESS_STALLED)
      end
  | _ => Some (b, db, PROCESS_OK)
  end.

Definition lift (db : SyncDb.SyncEventDataBase) (r : option result)
    : option (RaceAlgBase * SyncDb.SyncEventDataBase * ReturnType) :=
  r ← r; let '(b, ret) := r in Some (b, db, ret).

(** The dispatch on the type of the event. *)
Definition dispatch (q : Z) (event : SanEvent) (x : RaceAlgBase * SyncDb.SyncEventDataBase)
    : option (RaceAlgBase * SyncDb.SyncEventDataBase * ReturnType) :=
  let '(b, db) := x in
  match eventInfo event with
  | SyncInfo i => ProcessSyncEvent q i x
  | MemInfo _ | DynamicInfo _ => lift db (push_timed junk q event b)
  | TimeInfo ptr => lift db (ProcessTimeEvent q ptr b)
  | FftsInfo i => lift db (ProcessBlockSyncEvent q event i SINGLE_BLOCK_CHECK b)
  | CrossInfo i => lift db (ProcessMstxCrossSyncEvent q i b)
  | BufInfo i => lift db (ProcessGetRlsBufSyncEvent q event i SINGLE_BLOCK_CHECK b)
  | _ => Some (x, PROCESS_OK)
  end.

(** An event that PIPE_S issues to another pipe. *)
Definition issue (event : SanEvent) (s : RaceAlgImpl) : option RaceAlgImpl :=
  let '(c, (b, db)) := s in
  let q := GetQueIndex c in
  b ← tick q b;
  t ← at_index (vc_ b) q;
  let '(p, ptr) := Alloc t (timeInfoPool_ b) in
  let b := upd_pool p b in
  let blockIndex := block_of event b in
  c ← Push (time_event 0 zero_loc (pipe event) ptr) (pipe event) blockIndex 0 c;
  c ← Push event (pipe event) blockIndex 0 c;
  Some (c, (b, db)).

Definition ProcessEvent (s : RaceAlgImpl) (event : SanEvent) : option (RaceAlgImpl * ReturnType) :=
  if negb (GetPipeIndex s.1 =? PipeType_code (pipe event)) then
    s ← issue event s; Some (s, PROCESS_OK)
  else
    r ← dispatch (GetQueIndex s.1) event s.2;
    let '(x, ret) := r in Some ((s.1, x), ret).

(** [Do]; [fuel] bounds the replay loop. *)
Definition Do (kernels : KernelManager.KernelManager) (checkDcci : bool) (fuel : nat) (event : SanEvent)
    (s : RaceAlgImpl) : option RaceAlgImpl :=
  let '(c, (b, db)) := s in
  if negb (Replay.is_finish event) then
    let b := CacheMstxCrossSet event b in
    c ← Push event PIPE_S (block_of event b) 0 c;
    Some (c, (b, db))
  else
    r ← Run (Some ProcessEvent) fuel (CHECK_ALL_DEVICE, s);
    let '(_, (c, (b, db))) := r in
    b ← run_checker kernels checkDcci b;
    Some (c, (b, db)).
End process.
End Inner.

(** ** [SinglePipeRaceAlgImpl]: within one pipe *)
Module SinglePipe.
Import AlgBase.

Definition MAX_PIPE_NUM_FOR_BARRIER : Z := PIPE_NUM - 1.

(** [pipeBarrierNo_] and [pipeSerialNo_]. *)
Record Counters := mkCounters { pipeBarrierNo_ : list Z; pipeSerialNo_ : list (Z * Z) }.

Definition SinglePipeRaceAlgImpl : Type := EventContainer * (RaceAlgBase * Counters).

(** The constructor initialises neither array: they hold what the storage held,
    [garbage]. *)
Definition new_SinglePipeRaceAlgImpl (garbage : Counters) (kernelType : KernelType) (deviceType : DeviceType)
    (blockDim : Z) : SinglePipeRaceAlgImpl :=
  let b := new_RaceAlgBase kernelType deviceType blockDim in
  (Cont.Init 1 1,
   (upd_checker (Checker.Init kernelType deviceType SINGLE_PIPE_CHECK (memChecker_ b)) b, garbage)).

Section process.
Context (junk : SanEvent → MemOpInfo).

Definition pipe_num (event : SanEvent) : Z := u8 (PipeType_code (pipe event) - 1).

Definition ProcessMemEvent (event : SanEvent) (x : RaceAlgBase * Counters)
    : option (RaceAlgBase * Counters * ReturnType) :=
  let '(b, k) := x in
  let pipeNum := pipe_num event in
  barrierNo ← at_index (pipeBarrierNo_ k) pipeNum;
  s ← at_index (pipeSerialNo_ k) pipeNum;
  let s := if negb (s.1 =? serialNo event) then (serialNo event, u64 (s.2 + 1)) else s in
  let e := Race.of_SanEvent (junk event) event in
  let e := Race.mkMem (Race.serialNo e) barrierNo s.2 (Race.closedRingStartSerialNo e) (Race.vt e)
             (Race.memInfo e) (Race.dynamicMemInfo e) (Race.loc e) (Race.pipe e) (Race.isAtomicMode e)
             (Race.isDynamic e) in
  Some (upd_checker (Checker.PushEvent e (memChecker_ b)) b,
        mkCounters (pipeBarrierNo_ k) (set_index (pipeSerialNo_ k) pipeNum s), PROCESS_OK).

(** [pipeBarrierNo_[pipe - 1]++] *)
Definition count_barrier (event : SanEvent) (x : RaceAlgBase * Counters)
    : option (RaceAlgBase * Counters * ReturnType) :=
  let '(b, k) := x in
  let i := PipeType_code (pipe event) - 1 in
  n ← at_index (pipeBarrierNo_ k) i;
  Some (b, mkCounters (set_index (pipeBarrierNo_ k) i (u32 (n + 1))) (pipeSerialNo_ k), PROCESS_OK).

Definition ProcessSyncEvent (event : SanEvent) (i : SyncOpInfo) (x : RaceAlgBase * Counters)
    : option (RaceAlgBase * Counters * ReturnType) :=
  if negb (bool_decide (sync_opType i = PIPE_BARRIER)) then Some (x, PROCESS_OK) else count_barrier event x.

Definition ProcessBufSyncEvent (event : SanEvent) (i : BufSyncInfo) (x : RaceAlgBase * Counters)
    : option (RaceAlgBase * Counters * ReturnType) :=
  if bool_decide (buf_opType i = GET_BUF) && bool_decide (buf_mode i = BLOCK_MODE) then
    if buf_rlsCount i =? 0 then Some (x, PROCESS_OK) else count_barrier event x
  else Some (x, PROCESS_OK).

Definition dispatch (event : SanEvent) (x : RaceAlgBase * Counters) : option (RaceAlgBase * Counters * ReturnType) :=
  match eventInfo event with
  | SyncInfo i => ProcessSyncEvent event i x
  | MemInfo _ =>
      if IsAscend95 (deviceType_ x.1) && bool_decide (pipe event = PIPE_V) then Some (x, PROCESS_OK)
      else if bool_decide (pipe event = PIPE_S) || bool_decide (pipe event = PIPE_S_CAL) then Some (x, PROCESS_OK)
      else ProcessMemEvent event x
  | BufInfo i => ProcessBufSyncEvent event i x
  | _ => Some (x, PROCESS_OK)
  end.

Definition ProcessEvent (s : SinglePipeRaceAlgImpl) (event : SanEvent) : option (SinglePipeRaceAlgImpl * ReturnType) :=
  r ← dispatch event s.2; let '(x, ret) := r in Some ((s.1, x), ret).

Definition Do (kernels : KernelManager.KernelManager) (checkDcci : bool) (fuel : nat) (event : SanEvent)
    (s : SinglePipeRaceAlgImpl) : option SinglePipeRaceAlgImpl :=
  let '(c, x) := s in
  if negb (Replay.is_finish event) then
    if (PipeType_code PIPE_S <? PipeType_code (pipe event)) && (PipeType_code (pipe event) <? PIPE_NUM)
    then c ← Push event (pipe event) 0 0 c; Some (c, x)
    else Some s
  else
    r ← Run (Some ProcessEvent) fuel (CHECK_ALL_DEVICE, s);
    let '(_, (c, (b, k))) := r in
    b ← run_checker kernels checkDcci b;
    Some (c, (b, k)).
End process.
End SinglePipe.

(** ** [CrossCoreRaceAlgImpl]: between the cores of a kernel *)
Module CrossCore.
Import AlgBase.

(** The members of the derived class. *)
Record Members := mkMembers {
  syncDB_ : list SyncDb.SyncEventDataBase;
  crossCoreBarrier_ : Barrier.BarrierDatabase;
  signalDatabase_ : Signal.SignalDatabase;
}.

Definition CrossCoreRaceAlgImpl : Type := EventContainer * (RaceAlgBase * Members).

Definition new_CrossCoreRaceAlgImpl (kernelType : KernelType) (deviceType : DeviceType) (blockDim : Z)
    : CrossCoreRaceAlgImpl :=
  let totalBlockNum := Replay.total_blocks kernelType deviceType blockDim in
  let b := new_RaceAlgBase kernelType deviceType blockDim in
  let b := upd_vc (replicate (Z.to_nat (u32 (totalBlockNum * PIPE_NUM))) new_VectorTime) b in
  let b := upd_cross (Cross.Init totalBlockNum kernelType) b in
  let b := upd_checker (Checker.Init kernelType deviceType CROSS_BLOCK_CHECK (memChecker_ b)) b in
  (Cont.Init totalBlockNum 1, (b, mkMembers (replicate (Z.to_nat totalBlockNum) ∅) ∅ ∅)).

Definition block_of (event : SanEvent) (b : RaceAlgBase) : Z :=
  GetEventBlockIndex event (kernelType_ b) (deviceType_ b) CROSS_BLOCK_CHECK.

Definition NeedCrossCoreMemCheck (deviceType : DeviceType) (memType : MemType.MemType) : bool :=
  bool_decide (memType = MemType.GM) || (IsAscend95 deviceType && bool_decide (memType = MemType.UB)).

Definition outcome : Type := RaceAlgBase * Members * ReturnType.

Section process.
Context (junk : SanEvent → MemOpInfo).

Definition ProcessBlockSoftSyncEvent (q : Z) (event : SanEvent) (i : SoftSyncInfo) (x : RaceAlgBase * Members)
    : option outcome :=
  let '(b, m) := x in
  let blockIndex := block_of event b in
  match soft_opType i with
  | SYNC_ALL =>
      t ← at_index (vc_ b) q;
      r ← Cross.SyncAll blockIndex (soft_usedCores i) q t (cross_ b);
      let '(c, t, ok) := r in
      let b := upd_vc (set_index (vc_ b) q t) (upd_cross c b) in
      if negb ok then Some (b, m, PROCESS_STALLED)
      else vec ← Cross.UpdateSyncAllVectorTime (vc_ b) (cross_ b); Some (upd_vc vec b, m, PROCESS_OK)
  | IB_SET =>
      b ← tick q b;
      t ← at_index (vc_ b) q;
      c ← Cross.SetBlockSoftSyncInfo (soft_eventID i) blockIndex t (cross_ b);
      Some (upd_cross c b, m, PROCESS_OK)
  | IB_WAIT =>
      t ← at_index (vc_ b) q;
      r ← Cross.GetBlockSoftSyncInfo (soft_eventID i) (soft_waitCoreID i) t (cross_ b);
      let '(b, ret) := waited q r b in Some (b, m, ret)
  | _ => Some (b, m, PROCESS_STALLED)
  end.

Definition ProcessMstxSignalSetEvent (q : Z) (i : MstxSignalSet) (x : RaceAlgBase * Members) : option outcome :=
  let '(b, m) := x in
  b ← tick q b;
  t ← at_index (vc_ b) q;
  d ← Signal.Accumulate i t (signalDatabase_ m);
  Some (b, mkMembers (syncDB_ m) (crossCoreBarrier_ m) d, PROCESS_OK).

Definition ProcessMstxSignalWaitEvent (q : Z) (i : MstxSignalWait) (x : RaceAlgBase * Members) : option outcome :=
  let '(b, m) := x in
  match Signal.Wait i (signalDatabase_ m) with
  | Some vt => b ← join q vt b; b ← tick q b; Some (b, m, PROCESS_OK)
  | None => Some (b, m, PROCESS_STALLED)
  end.

(** The clock of a set or wait is the one of the pipe of the event. *)
Definition ProcessSyncEvent (event : SanEvent) (i : SyncOpInfo) (x : RaceAlgBase * Members) : option outcome :=
  let '(b, m) := x in
  let blockIdx := block_of event b in
  let dstPipe := u32 (u32 (blockIdx * PIPE_NUM) + PipeType_code (pipe event)) in
  let with_db db := mkMembers (set_index (syncDB_ m) blockIdx db) (crossCoreBarrier_ m) (signalDatabase_ m) in
  match sync_opType i with
  | SET_FLAG =>
      b ← tick dstPipe b;
      t ← at_index (vc_ b) dstPipe;
      db ← at_index (syncDB_ m) blockIdx;
      Some (b, with_db (SyncDb.Set' (Replay.sync_key i) t db), PROCESS_OK)
  | WAIT_FLAG =>
      db ← at_index (syncDB_ m) blockIdx;
      match SyncDb.Get (Replay.sync_key i) db with
      | (db, Some vt) => b ← join dstPipe vt b; b ← tick dstPipe b; Some (b, with_db db, PROCESS_OK)
      | (db, None) => Some (b, with_db db, PROCESS_STALLED)
      end
  | _ => Some (b, m, PROCESS_OK)
  end.

Definition ProcessMstxCrossCoreBarrier (q : Z) (event : SanEvent) (i : MstxCrossCoreBarrier)
    (x : RaceAlgBase * Members) : option outcome :=
  let '(b, m) := x in
  let conf := Replay.barrier_conf i in
  t ← at_index (vc_ b) q;
  r ← Barrier.Wait (core_usedCoreNum i) (coreId (loc event)) t (Barrier.at_conf conf (crossCoreBarrier_ m));
  let '(bar, vt) := r in
  let m := mkMembers (syncDB_ m) (<[conf := bar]> (crossCoreBarrier_ m)) (signalDatabase_ m) in
  match vt with
  | Some vt => b ← join q vt b; b ← tick q b; Some (b, m, PROCESS_OK)
  | None => Some (b, m, PROCESS_STALLED)
  end.

(** The barrier between devices decays to the one between cores. *)
Definition ProcessMstxCrossNpuBarrier (q : Z) (event : SanEvent) (i : MstxCrossNpuBarrier)
    (x : RaceAlgBase * Members) : option outcome :=
  let core := {| core_usedCoreNum := npu_usedCoreNum i; core_usedCoreId := npu_usedCoreId i;
                 core_isAIVOnly := npu_isAIVOnly i; core_pipeBarrierAll := npu_pipeBarrierAll i |} in
  ProcessMstxCrossCoreBarrier q (set_eventInfo (CoreBarrierInfo core) event) core x.

Definition lift (m : Members) (r : option result) : option outcome :=
  r ← r; let '(b, ret) := r in Some (b, m, ret).

Definition dispatch (q : Z) (event : SanEvent) (x : RaceAlgBase * Members) : option outcome :=
  let '(b, m) := x in
  match eventInfo event with
  | SyncInfo i => ProcessSyncEvent event i x
  | MemInfo _ | DynamicInfo _ => lift m (push_timed junk q event b)
  | TimeInfo ptr => lift m (ProcessTimeEvent q ptr b)
  | FftsInfo i => lift m (ProcessBlockSyncEvent q event i CROSS_BLOCK_CHECK b)
  | SoftInfo i => ProcessBlockSoftSyncEvent q event i x
  | CrossInfo i => lift m (ProcessMstxCrossSyncEvent q i b)
  | SignalSetInfo i => ProcessMstxSignalSetEvent q i x
  | SignalWaitInfo i => ProcessMstxSignalWaitEvent q i x
  | CoreBarrierInfo i => ProcessMstxCrossCoreBarrier q event i x
  | NpuBarrierInfo i => ProcessMstxCrossNpuBarrier q event i x
  | BufInfo i => lift m (ProcessGetRlsBufSyncEvent q event i CROSS_BLOCK_CHECK b)
  | _ => Some (x, PROCESS_OK)
  end.

Definition issue (event : SanEvent) (s : CrossCoreRaceAlgImpl) : option CrossCoreRaceAlgImpl :=
  let '(c, (b, m)) := s in
  let q := GetQueIndex c in
  b ← tick q b;
  t ← at_index (vc_ b) q;
  let '(p, ptr) := Alloc t (timeInfoPool_ b) in
  let b := upd_pool p b in
  let blockIdx := block_of event b in
  let l := Build_LocInfo 0 0 0 0 0 0 (coreId (loc event)) (blockType (loc event)) in
  c ← Push (time_event (serialNo event) l (pipe event) ptr) (pipe event) blockIdx 0 c;
  c ← Push event (pipe event) blockIdx 0 c;
  Some (c, (b, m)).

Definition ProcessEvent (s : CrossCoreRaceAlgImpl) (event : SanEvent) : option (CrossCoreRaceAlgImpl * ReturnType) :=
  if negb (GetPipeIndex s.1 =? PipeType_code (pipe event)) then
    s ← issue event s; Some (s, PROCESS_OK)
  else
    r ← dispatch (GetQueIndex s.1) event s.2;
    let '(x, ret) := r in Some ((s.1, x), ret).

(** Accesses to memory private to a core are dropped at once. *)
Definition filtered (deviceType : DeviceType) (event : SanEvent) : bool :=
  match eventInfo event with
  | MemInfo m => negb (NeedCrossCoreMemCheck deviceType (memType m))
  | DynamicInfo d => negb (NeedCrossCoreMemCheck deviceType (dyn_memType d))
  | _ => false
  end.

Definition Do (kernels : KernelManager.KernelManager) (checkDcci : bool) (fuel : nat) (event : SanEvent)
    (s : CrossCoreRaceAlgImpl) : option CrossCoreRaceAlgImpl :=
  let '(c, (b, m)) := s in
  if negb (Replay.is_finish event) then
    if filtered (deviceType_ b) event then Some s
    else
      let b := CacheMstxCrossSet event b in
      c ← Push event PIPE_S (block_of event b) 0 c;
      Some (c, (b, m))
  else
    r ← Run (Some ProcessEvent) fuel (CHECK_ALL_DEVICE, s);
    let '(_, (c, (b, m))) := r in
    b ← run_checker kernels checkDcci b;
    Some (c, (b, m)).
End process.
End CrossCore.
