(* ===== verification/CrossNpuAlg.v ===== *)
(** The race check between devices: [csrc/core/framework/utility/spans.hpp],
    [csrc/core/framework/device_manager.cpp] and
    [csrc/race_sanitizer/alg_framework/cross_npu_race_alg_impl.cpp].

    The two managers are singletons and become parameters. [None] is an access
    outside a container, the use of a value that was never set, or a replay
    longer than the fuel. *)
From stdpp Require Import base numbers option gmap sets strings sorting list.
From S2P Require Import Prelude.
From S2P Require Import RecordDefs.
From S2P Require Import Platform.
From S2P Require Import EventDef.
From S2P Require Import AddressSanitizer.
From S2P Require Import VectorTime.
From S2P Require Import EventContainer.
From S2P Require Import SyncContainers.
From S2P Require Import PipelineReplayer.
From S2P Require Import MemSeries.
From S2P Require Import MemEventChecker.
From S2P Require Import Scanline.
From S2P Require Import RaceAlg.
Import VT Cont Pipe.

(** ** [Spans]: a set of numbers as a sorted vector of intervals *)
Module Spans.
(** [vmin] and [vmax], which is not part of the interval. *)
Definition Span : Type := Z * Z.
Definition Spans : Type := list Span.

(** [std::upper_bound]: the intervals before the first one that [p] accepts. *)
Fixpoint until (p : Span → bool) (l : Spans) : Spans :=
  match l with [] => [] | s :: l' => if p s then [] else s :: until p l' end.
Fixpoint from (p : Span → bool) (l : Spans) : Spans :=
  match l with [] => [] | s :: l' => if p s then l else from p l' end.

(** The loop of [Union]: the intervals that the one ending at [vmax] reaches are
    absorbed. *)
Fixpoint absorb (vmax : Z) (l : Spans) : Z * Spans :=
  match l with
  | [] => (vmax, [])
  | s :: l' => if vmax <? s.1 then (vmax, l) else absorb (Z.max vmax s.2) l'
  end.

Definition Union (span : Span) (l : Spans) : Spans :=
  let before := until (λ b, span.1 <? b.1) l in
  let after := from (λ b, span.1 <? b.1) l in
  let place before it :=
    let '(vmax, rest) := absorb it.2 after in before ++ (it.1, vmax) :: rest in
  match last before with
  | Some prev =>
      if span.1 <=? prev.2 then place (removelast before) (prev.1, Z.max prev.2 span.2) else place before span
  | None => place before span
  end.

Fixpoint intersects (span : Span) (l : Spans) : bool :=
  match l with
  | [] => false
  | s :: l' =>
      if (span.1 <? s.2) && (s.1 <? span.2) then true
      else if span.2 <=? s.1 then false
      else intersects span l'
  end.

Definition HasIntersection (span : Span) (l : Spans) : bool := intersects span (from (λ b, span.1 <? b.2) l).
End Spans.

(** ** [DeviceManager] *)
Module DeviceManager.
Record DeviceManager := mkManager { deviceMap_ : gmap Z ASan.DeviceInfoSummary; sharedMemSpans_ : gmap Z Spans.Spans }.

Definition Set' (deviceId : Z) (info : ASan.DeviceInfoSummary) (d : DeviceManager) : DeviceManager :=
  mkManager (<[deviceId := info]> (deviceMap_ d)) (sharedMemSpans_ d).
Definition Get (deviceId : Z) (d : DeviceManager) : option ASan.DeviceInfoSummary := deviceMap_ d !! deviceId.
Definition GetDeviceCount (d : DeviceManager) : Z := Z.of_nat (size (deviceMap_ d)).
Definition GetDeviceList (d : DeviceManager) : list Z := (ordered (deviceMap_ d)).*1.

(** [GetSharedMemorySpans] returns a reference; the two uses of it. *)
Definition GetSharedMemorySpans (deviceId : Z) (d : DeviceManager) : Spans.Spans :=
  default [] (sharedMemSpans_ d !! deviceId).
Definition UnionSharedMemory (deviceId : Z) (span : Spans.Span) (d : DeviceManager) : DeviceManager :=
  mkManager (deviceMap_ d) (<[deviceId := Spans.Union span (GetSharedMemorySpans deviceId d)]> (sharedMemSpans_ d)).
End DeviceManager.

(** ** [CrossNpuRaceAlgImpl] *)
Module CrossNpu.
Import AlgBase.

(** The members other than the event container. The clocks, the checker and the
    pool of times are those of the other algorithms and kept in their record;
    the two-dimensional tables are indexed by device and kernel. *)
Record Members := mkMembers {
  totalBlockNum_ : Z;
  signalDatabase_ : Signal.SignalDatabase;
  crossNpuBarrier_ : Barrier.BarrierDatabase;
  syncDB_ : list SyncDb.SyncEventDataBase;
  mstxSetCrossMap_ : list (list (gmap (Z * Z) Z));
  crossCoreSyncInfoContainer_ : list (list Cross.CrossCoreSyncInfoContainer);
  crossCoreBarrier_ : list (list Barrier.BarrierDatabase);
  kernelBarrier_ : list (list Barrier.BarrierEvent);
}.

Definition CrossNpuRaceAlgImpl : Type := EventContainer * (RaceAlgBase * Members).

Definition upd_signal (s : Signal.SignalDatabase) (m : Members) : Members :=
  mkMembers (totalBlockNum_ m) s (crossNpuBarrier_ m) (syncDB_ m) (mstxSetCrossMap_ m)
    (crossCoreSyncInfoContainer_ m) (crossCoreBarrier_ m) (kernelBarrier_ m).
Definition upd_npu (d : Barrier.BarrierDatabase) (m : Members) : Members :=
  mkMembers (totalBlockNum_ m) (signalDatabase_ m) d (syncDB_ m) (mstxSetCrossMap_ m)
    (crossCoreSyncInfoContainer_ m) (crossCoreBarrier_ m) (kernelBarrier_ m).
Definition upd_sync (l : list SyncDb.SyncEventDataBase) (m : Members) : Members :=
  mkMembers (totalBlockNum_ m) (signalDatabase_ m) (crossNpuBarrier_ m) l (mstxSetCrossMap_ m)
    (crossCoreSyncInfoContainer_ m) (crossCoreBarrier_ m) (kernelBarrier_ m).
Definition upd_mstx (l : list (list (gmap (Z * Z) Z))) (m : Members) : Members :=
  mkMembers (totalBlockNum_ m) (signalDatabase_ m) (crossNpuBarrier_ m) (syncDB_ m) l
    (crossCoreSyncInfoContainer_ m) (crossCoreBarrier_ m) (kernelBarrier_ m).
Definition upd_containers (l : list (list Cross.CrossCoreSyncInfoContainer)) (m : Members) : Members :=
  mkMembers (totalBlockNum_ m) (signalDatabase_ m) (crossNpuBarrier_ m) (syncDB_ m) (mstxSetCrossMap_ m)
    l (crossCoreBarrier_ m) (kernelBarrier_ m).
Definition upd_core (l : list (list Barrier.BarrierDatabase)) (m : Members) : Members :=
  mkMembers (totalBlockNum_ m) (signalDatabase_ m) (crossNpuBarrier_ m) (syncDB_ m) (mstxSetCrossMap_ m)
    (crossCoreSyncInfoContainer_ m) l (kernelBarrier_ m).
Definition upd_kernel (l : list (list Barrier.BarrierEvent)) (m : Members) : Members :=
  mkMembers (totalBlockNum_ m) (signalDatabase_ m) (crossNpuBarrier_ m) (syncDB_ m) (mstxSetCrossMap_ m)
    (crossCoreSyncInfoContainer_ m) (crossCoreBarrier_ m) l.

(** [v[deviceIdx][kernelIdx]], read and written. *)
Definition at2 {A} (v : list (list A)) (l : LocInfo) : option A := row ← at_index v (deviceIdx l); at_index row (kernelIdx l).
Definition set2 {A} (v : list (list A)) (l : LocInfo) (x : A) : list (list A) :=
  match at_index v (deviceIdx l) with
  | Some row => set_index v (deviceIdx l) (set_index row (kernelIdx l) x)
  | None => v
  end.

(** A worker that is a pair of 32-bit numbers. *)
Definition worker (a b : Z) : Z := a * 4294967296 + b.

(** The object before [Init]. *)
Definition new_CrossNpuRaceAlgImpl : CrossNpuRaceAlgImpl :=
  (Cont.mkCont [] 0 0 0 0 false false 0 0 0 0,
   (new_RaceAlgBase KT_AICPU ASCEND_910_PREMIUM_A 0, mkMembers 0 ∅ ∅ [] [] [] [] [])).

(** The containers of the kernels of a device, and the largest number of blocks. *)
Definition init_kernel (device : DeviceType) (k : KernelManager.KernelSummary) : Cross.CrossCoreSyncInfoContainer :=
  Cross.Init (Replay.total_blocks (KernelManager.kernelType k) device (KernelManager.blockDim k))
    (KernelManager.kernelType k).

Section managers.
Context (devices : DeviceManager.DeviceManager) (kernels : KernelManager.KernelManager).

Fixpoint init_devices (ids : list Z) (maxBlockDim : Z)
    : option (Z * list (list Cross.CrossCoreSyncInfoContainer)) :=
  match ids with
  | [] => Some (maxBlockDim, [])
  | deviceId :: ids =>
      info ← DeviceManager.Get deviceId devices;
      ks ← kernels !! deviceId;
      r ← init_devices ids (foldl (λ n k, Z.max n (KernelManager.blockDim k)) maxBlockDim ks);
      Some (r.1, (init_kernel (ASan.device info) <$> ks) :: r.2)
  end.

(** One entry per device and kernel. *)
Definition per_kernel {A} (x : A) (l : list (list Cross.CrossCoreSyncInfoContainer)) : list (list A) :=
  (λ row, replicate (length row) x) <$> l.

Definition Init (s : CrossNpuRaceAlgImpl) : option CrossNpuRaceAlgImpl :=
  let '(_, (b, m)) := s in
  let deviceNum := DeviceManager.GetDeviceCount devices in
  r ← init_devices (DeviceManager.GetDeviceList devices) 1;
  let '(maxBlockDim, containers) := r in
  let totalBlockNum := u32 (maxBlockDim * C220_MIX_SUB_BLOCKDIM) in
  let b := upd_vc (replicate (Z.to_nat (u64 (u64 (deviceNum * totalBlockNum) * PIPE_NUM))) new_VectorTime) b in
  let b := upd_checker (Checker.Init_npu totalBlockNum (memChecker_ b)) b in
  Some (Cont.Init totalBlockNum deviceNum,
        (b, mkMembers totalBlockNum (signalDatabase_ m) (crossNpuBarrier_ m)
              (replicate (Z.to_nat (u64 (deviceNum * totalBlockNum))) ∅)
              (per_kernel ∅ containers) containers (per_kernel ∅ containers)
              (per_kernel Barrier.new_BarrierEvent containers))).

Definition outcome : Type := RaceAlgBase * Members * ReturnType.

(** The end of a barrier or wait that hands over [vt]. *)
Definition take_time (q : Z) (vt : option VectorTime) (b : RaceAlgBase) (m : Members) : option outcome :=
  match vt with
  | Some vt => b ← join q vt b; b ← tick q b; Some (b, m, PROCESS_OK)
  | None => Some (b, m, PROCESS_STALLED)
  end.

Definition ProcessSanitizerControlEvent (q : Z) (event : SanEvent) (t : SanitizerControlType)
    (x : RaceAlgBase * Members) : option outcome :=
  let '(b, m) := x in
  match t with
  | CONTROL_KERNEL_FINISH =>
      bar ← at2 (kernelBarrier_ m) (loc event);
      self ← at_index (vc_ b) q;
      r ← Barrier.Wait (totalBlockNum_ m * PIPE_NUM)
            (worker (GetEventExpandBlockIndex event) (PipeType_code (pipe event))) self bar;
      let '(bar, vt) := r in
      take_time q vt b (upd_kernel (set2 (kernelBarrier_ m) (loc event) bar) m)
  | CONTROL_FINISH => Some (b, m, PROCESS_OK)
  end.

(** The range of an access, with the 32-bit products of the code. *)
Definition access_range (i : MemOpInfo) : Z :=
  u32 (u32 (u32 (u32 (u32 (repeatTimes i - 1) * repeatStride i) * blockSize i) +
            u32 (u32 (u32 (blockNum i - 1) * blockStride i) * blockSize i)) + blockSize i).

Definition ProcessMemEvent (junk : SanEvent → MemOpInfo) (q : Z) (event : SanEvent) (i : MemOpInfo)
    (x : RaceAlgBase * Members) : option outcome :=
  let '(b, m) := x in
  if negb (bool_decide (memType i = MemType.GM)) then Some (b, m, PROCESS_OK)
  else
    let shared := DeviceManager.GetSharedMemorySpans (deviceId (loc event)) devices in
    if negb (Spans.HasIntersection (addr i, u64 (addr i + access_range i)) shared) then Some (b, m, PROCESS_OK)
    else r ← push_timed junk q event b; let '(b, ret) := r in Some (b, m, ret).

Definition ProcessSyncEvent (c : EventContainer) (event : SanEvent) (i : SyncOpInfo) (x : RaceAlgBase * Members)
    : option outcome :=
  let '(b, m) := x in
  let blockIdx := GetEventExpandBlockIndex event in
  let dstPipe := FlattenPipeIdx c (PipeType_code (pipe event)) blockIdx (deviceIdx (loc event)) in
  let k := u32 (u32 (deviceIdx (loc event) * totalBlockNum_ m) + blockIdx) in
  match sync_opType i with
  | SET_FLAG =>
      b ← tick dstPipe b;
      t ← at_index (vc_ b) dstPipe;
      db ← at_index (syncDB_ m) k;
      Some (b, upd_sync (set_index (syncDB_ m) k (SyncDb.Set' (Replay.sync_key i) t db)) m, PROCESS_OK)
  | WAIT_FLAG =>
      db ← at_index (syncDB_ m) k;
      let '(db, vt) := SyncDb.Get (Replay.sync_key i) db in
      take_time dstPipe vt b (upd_sync (set_index (syncDB_ m) k db) m)
  | _ => Some (b, m, PROCESS_OK)
  end.

(** The block of an event and the container of its kernel, when both managers
    know them. *)
Definition kernel_block (event : SanEvent) : option Z :=
  info ← DeviceManager.Get (deviceId (loc event)) devices;
  k ← KernelManager.Get (deviceId (loc event)) (kernelIdx (loc event)) kernels;
  Some (GetEventBlockIndex event (KernelManager.kernelType k) (ASan.device info) CROSS_NPU_CHECK).

Definition with_container (event : SanEvent) (m : Members) (c : Cross.CrossCoreSyncInfoContainer) : Members :=
  upd_containers (set2 (crossCoreSyncInfoContainer_ m) (loc event) c) m.

(** A wait in the container of the kernel; [vc_[q]] was updated in place. *)
Definition waited (q : Z) (event : SanEvent) (r : Cross.CrossCoreSyncInfoContainer * option VectorTime)
    (x : RaceAlgBase * Members) : outcome :=
  let '(b, m) := x in
  match r with
  | (c, Some t) => (upd_vc (set_index (vc_ b) q t) b, with_container event m c, PROCESS_OK)
  | (c, None) => (b, with_container event m c, PROCESS_STALLED)
  end.

Definition ProcessBlockSoftSyncEvent (q : Z) (event : SanEvent) (i : SoftSyncInfo) (x : RaceAlgBase * Members)
    : option outcome :=
  let '(b, m) := x in
  match kernel_block event with
  | None => Some (b, m, PROCESS_OK)
  | Some blockIndex =>
      c ← at2 (crossCoreSyncInfoContainer_ m) (loc event);
      match soft_opType i with
      | SYNC_ALL =>
          t ← at_index (vc_ b) q;
          r ← Cross.SyncAll blockIndex (soft_usedCores i) q t c;
          let '(c, t, ok) := r in
          let b := upd_vc (set_index (vc_ b) q t) b in
          let m := with_container event m c in
          if negb ok then Some (b, m, PROCESS_STALLED)
          else vec ← Cross.UpdateSyncAllVectorTime (vc_ b) c; Some (upd_vc vec b, m, PROCESS_OK)
      | IB_SET =>
          b ← tick q b;
          t ← at_index (vc_ b) q;
          c ← Cross.SetBlockSoftSyncInfo (soft_eventID i) blockIndex t c;
          Some (b, with_container event m c, PROCESS_OK)
      | IB_WAIT =>
          t ← at_index (vc_ b) q;
          r ← Cross.GetBlockSoftSyncInfo (soft_eventID i) (soft_waitCoreID i) t c;
          Some (waited q event r x)
      | _ => Some (b, m, PROCESS_STALLED)
      end
  end.

Definition ProcessBlockSyncEvent (q : Z) (event : SanEvent) (i : FftsSyncInfo) (x : RaceAlgBase * Members)
    : option outcome :=
  let '(b, m) := x in
  match kernel_block event with
  | None => Some (b, m, PROCESS_OK)
  | Some blockIndex =>
      c ← at2 (crossCoreSyncInfoContainer_ m) (loc event);
      match ffts_opType i with
      | FFTS_SYNC =>
          b ← tick q b;
          t ← at_index (vc_ b) q;
          c ← Cross.SetBlockSyncInfo (ffts_flagId i) (to_FftsSyncMode (ffts_mode i)) blockIndex t
                (ffts_vecSubBlockDim i) (loc event) (serialNo event) c;
          Some (b, with_container event m c, PROCESS_OK)
      | WAIT_FLAG_DEV =>
          t ← at_index (vc_ b) q;
          r ← Cross.GetBlockSyncInfo (ffts_flagId i) blockIndex t c;
          Some (waited q event r x)
      | WAIT_INTRA_BLOCK =>
          t ← at_index (vc_ b) q;
          r ← Cross.GetIntraBlockSyncInfo (ffts_flagId i) blockIndex t c;
          Some (waited q event r x)
      | _ => Some (b, m, PROCESS_STALLED)
      end
  end.

Definition ProcessMstxCrossSyncEvent (q : Z) (event : SanEvent) (i : MstxCrossInfo) (x : RaceAlgBase * Members)
    : option outcome :=
  let '(b, m) := x in
  c ← at2 (crossCoreSyncInfoContainer_ m) (loc event);
  sets ← at2 (mstxSetCrossMap_ m) (loc event);
  match mstx_opType i with
  | MSTX_SET_CROSS =>
      b ← tick q b;
      t ← at_index (vc_ b) q;
      Some (b, with_container event m (Cross.SetMstxCrossInfo i t c), PROCESS_OK)
  | MSTX_WAIT_CROSS =>
      let key := (mstx_addr i, mstx_flagId i) in
      let n := sets !! key in
      if mstx_isMore i && (match n with None => true | Some n => n =? 0 end) then Some (b, m, PROCESS_OK)
      else
        t ← at_index (vc_ b) q;
        r ← Cross.GetMstxCrossInfo i t c;
        match waited q event r x with
        | (b, m, PROCESS_OK) =>
            Some (b, match n with
                     | Some n => upd_mstx (set2 (mstxSetCrossMap_ m) (loc event) (<[key := u64 (n - 1)]> sets)) m
                     | None => m
                     end, PROCESS_OK)
        | r => Some r
        end
  | _ => Some (b, m, PROCESS_STALLED)
  end.

(** Unlike in the check between cores, the pipe does not tick here. *)
Definition ProcessMstxSignalSetEvent (q : Z) (i : MstxSignalSet) (x : RaceAlgBase * Members) : option outcome :=
  let '(b, m) := x in
  t ← at_index (vc_ b) q;
  Some (b, upd_signal (Signal.Set' i t (signalDatabase_ m)) m, PROCESS_OK).

Definition ProcessMstxSignalWaitEvent (q : Z) (i : MstxSignalWait) (x : RaceAlgBase * Members) : option outcome :=
  let '(b, m) := x in take_time q (Signal.Wait i (signalDatabase_ m)) b m.

Definition ProcessMstxCrossCoreBarrier (q : Z) (event : SanEvent) (i : MstxCrossCoreBarrier)
    (x : RaceAlgBase * Members) : option outcome :=
  let '(b, m) := x in
  let conf := Replay.barrier_conf i in
  d ← at2 (crossCoreBarrier_ m) (loc event);
  t ← at_index (vc_ b) q;
  r ← Barrier.Wait (core_usedCoreNum i) (coreId (loc event)) t (Barrier.at_conf conf d);
  let '(bar, vt) := r in
  take_time q vt b (upd_core (set2 (crossCoreBarrier_ m) (loc event) (<[conf := bar]> d)) m).

Definition ProcessMstxCrossNpuBarrier (q : Z) (event : SanEvent) (i : MstxCrossNpuBarrier)
    (x : RaceAlgBase * Members) : option outcome :=
  let '(b, m) := x in
  let conf := (npu_isAIVOnly i, npu_usedDeviceNum i, npu_usedCoreNum i) in
  t ← at_index (vc_ b) q;
  r ← Barrier.Wait (u32 (npu_usedDeviceNum i * npu_usedCoreNum i))
        (worker (deviceId (loc event)) (coreId (loc event))) t (Barrier.at_conf conf (crossNpuBarrier_ m));
  let '(bar, vt) := r in
  take_time q vt b (upd_npu (<[conf := bar]> (crossNpuBarrier_ m)) m).

Definition dispatch (junk : SanEvent → MemOpInfo) (c : EventContainer) (event : SanEvent)
    (x : RaceAlgBase * Members) : option outcome :=
  let q := GetQueIndex c in
  match eventInfo event with
  | ControlInfo t => ProcessSanitizerControlEvent q event t x
  | SyncInfo i => ProcessSyncEvent c event i x
  | MemInfo i => ProcessMemEvent junk q event i x
  | TimeInfo ptr => r ← ProcessTimeEvent q ptr x.1; let '(b, ret) := r in Some (b, x.2, ret)
  | FftsInfo i => ProcessBlockSyncEvent q event i x
  | SoftInfo i => ProcessBlockSoftSyncEvent q event i x
  | CrossInfo i => ProcessMstxCrossSyncEvent q event i x
  | SignalSetInfo i => ProcessMstxSignalSetEvent q i x
  | SignalWaitInfo i => ProcessMstxSignalWaitEvent q i x
  | CoreBarrierInfo i => ProcessMstxCrossCoreBarrier q event i x
  | NpuBarrierInfo i => ProcessMstxCrossNpuBarrier q event i x
  | _ => Some (x, PROCESS_OK)
  end.

Definition issue (event : SanEvent) (s : CrossNpuRaceAlgImpl) : option CrossNpuRaceAlgImpl :=
  let '(c, (b, m)) := s in
  let q := GetQueIndex c in
  b ← tick q b;
  t ← at_index (vc_ b) q;
  let '(p, ptr) := Alloc t (timeInfoPool_ b) in
  let b := upd_pool p b in
  let blockIdx := GetEventExpandBlockIndex event in
  let l := Build_LocInfo 0 0 0 0 0 0 (coreId (loc event)) (blockType (loc event)) in
  c ← Push (time_event (serialNo event) l (pipe event) ptr) (pipe event) blockIdx (deviceIdx (loc event)) c;
  c ← Push event (pipe event) blockIdx (deviceIdx (loc event)) c;
  Some (c, (b, m)).

Definition ProcessEvent (junk : SanEvent → MemOpInfo) (s : CrossNpuRaceAlgImpl) (event : SanEvent)
    : option (CrossNpuRaceAlgImpl * ReturnType) :=
  if negb (GetPipeIndex s.1 =? PipeType_code (pipe event)) then
    s ← issue event s; Some (s, PROCESS_OK)
  else
    r ← dispatch junk s.1 event s.2;
    let '(x, ret) := r in Some ((s.1, x), ret).

Definition CacheMstxCrossSet (event : SanEvent) (m : Members) : option Members :=
  sets ← at2 (mstxSetCrossMap_ m) (loc event);
  match eventInfo event with
  | CrossInfo i =>
      if bool_decide (mstx_opType i = MSTX_SET_CROSS) then
        let key := (mstx_addr i, mstx_flagId i) in
        Some (upd_mstx (set2 (mstxSetCrossMap_ m) (loc event)
                (<[key := match sets !! key with Some n => u64 (n + 1) | None => 1 end]> sets)) m)
      else Some m
  | _ => Some m
  end.

(** The core that the block [blockIdx] of the expanded numbering is. *)
Definition barrier_event (event : SanEvent) (blockIdx : Z) (p : PipeType) : SanEvent :=
  let cube := blockIdx `mod` C220_MIX_SUB_BLOCKDIM =? 2 in
  let core := blockIdx / C220_MIX_SUB_BLOCKDIM * (if cube then 1 else C220_VEC_SUB_BLOCKDIM) +
              (if cube then 0 else blockIdx `mod` C220_MIX_SUB_BLOCKDIM) in
  let l := loc event in
  {| serialNo := serialNo event; pipe := p; eventInfo := eventInfo event;
     loc := Build_LocInfo (fileNo l) (lineNo l) (pc l) (deviceIdx l) (kernelIdx l) (deviceId l) core
              (if cube then AICUBE else AIVEC);
     isAtomicMode := isAtomicMode event; recordType := recordType event;
     closedRingStartSerialNo := closedRingStartSerialNo event |}.

(** The pipes in the order of [CreateKernelBarrier]: PIPE_S last. *)
Definition barrier_pipes : list PipeType :=
  [PIPE_V; PIPE_M; PIPE_MTE1; PIPE_MTE2; PIPE_MTE3; PIPE_ALL; PIPE_MTE4; PIPE_MTE5; PIPE_V2; PIPE_FIX; PIPE_S_CAL;
   PIPE_S].

Fixpoint push_events (l : list (SanEvent * Z)) (c : EventContainer) : option EventContainer :=
  match l with
  | [] => Some c
  | (e, blockIdx) :: l => c ← Push e PIPE_S blockIdx (deviceIdx (loc e)) c; push_events l c
  end.

Definition CreateKernelBarrier (event : SanEvent) (s : CrossNpuRaceAlgImpl) : option CrossNpuRaceAlgImpl :=
  let '(c, (b, m)) := s in
  c ← push_events (blockIdx ← seqZ 0 (totalBlockNum_ m); p ← barrier_pipes; [(barrier_event event blockIdx p, blockIdx)]) c;
  Some (c, (b, m)).

Definition Do (junk : SanEvent → MemOpInfo) (checkDcci : bool) (fuel : nat) (event : SanEvent)
    (s : CrossNpuRaceAlgImpl) : option CrossNpuRaceAlgImpl :=
  let '(c, (b, m)) := s in
  match eventInfo event with
  | ControlInfo CONTROL_KERNEL_FINISH => CreateKernelBarrier event s
  | ControlInfo CONTROL_FINISH =>
      r ← Run (Some (ProcessEvent junk)) fuel (CHECK_ALL_DEVICE, s);
      let '(_, (c, (b, m))) := r in
      b ← run_checker kernels checkDcci b;
      Some (c, (b, m))
  | _ =>
      m ← CacheMstxCrossSet event m;
      c ← Push event PIPE_S (GetEventExpandBlockIndex event) (deviceIdx (loc event)) c;
      Some (c, (b, m))
  end.
End managers.

Definition IsFinished (s : CrossNpuRaceAlgImpl) : bool := isFinished_ s.2.1.
Definition GetResult (s : CrossNpuRaceAlgImpl) : list Race.RaceDispInfo := Checker.GetResult (memChecker_ s.2.1).
Definition GetFlagIdWarnInfo (s : CrossNpuRaceAlgImpl) : list Cross.CrossCoreSyncWarnInfo :=
  row ← crossCoreSyncInfoContainer_ s.2.2; c ← row; Cross.GetFlagIdWarnInfo c.
Definition ClearFlagIdWarnInfo (s : CrossNpuRaceAlgImpl) : CrossNpuRaceAlgImpl :=
  let '(c, (b, m)) := s in
  (c, (b, upd_containers (map (map Cross.ClearFlagIdWarnInfo) (crossCoreSyncInfoContainer_ m)) m)).
End CrossNpu.
