(* ===== verification/RaceSanitizer.v ===== *)
(** The race sanitizer: [csrc/race_sanitizer/race_sanitizer.h],
    [race_sanitizer.cpp], [cross_npu_race_sanitizer.cpp],
    [alg_framework/race_alg_factory.cpp], and the reporting functions of
    [race_info_display.h].

    The object hands the events of a kernel to five algorithms and reports what
    they find at its end. With the check for cache maintenance on, records pass
    through a window of five in which each scalar access learns the distance to
    the nearest [dcci]. Messages are appended to a log without their text; the
    cache of call stacks is left out. [None] is the use of a null pointer, the
    call of an empty notification function or an access outside a container. *)
From stdpp Require Import base numbers option gmap sets strings sorting list.
From S2P Require Import Prelude.
From S2P Require Import RecordDefs.
From S2P Require Import Platform.
From S2P Require Import EventDef.
From S2P Require Import AddressSanitizer.
From S2P Require Import VectorTime.
From S2P Require Import EventContainer.
From S2P Require Import PipeLineProofs.
From S2P Require Import SyncContainers.
From S2P Require Import PipelineReplayer.
From S2P Require Import MemSeries.
From S2P Require Import MemEventChecker.
From S2P Require Import SyncSanitizer.
From S2P Require Import RaceAlg.
From S2P Require Import CrossNpuAlg.
Import Cont.

(** ** Fuel of the replay *)

(** The work left for an event in a queue of pipe [p]: an event that still has to
    be issued becomes a time event and itself. *)
Definition race_weight (p : Z) (e : SanEvent) : nat := if p =? PipeType_code (pipe e) then 1 else 3.

Definition race_fuel (c : EventContainer) : nat :=
  Z.to_nat (Z.of_nat (total race_weight (conts c)) * (200 * maxBlockNum_ c + 200) + 200 * maxBlockNum_ c + 200).

(** ** Records *)

Inductive DcciEntireType := SINGLE_CACHE_LINE | ENTIRE_DATA_CACHE.
#[export] Instance DcciEntireType_eq : EqDecision DcciEntireType. Proof. solve_decision. Defined.
Inductive DcciDstType := CACHE_LINE_ALL | CACHE_LINE_UB | CACHE_LINE_OUT | CACHE_LINE_ATOMIC.
#[export] Instance DcciDstType_eq : EqDecision DcciDstType. Proof. solve_decision. Defined.
Record DcciRecord := mkDcci { dcci_addr : Z; dcci_space : AddressSpace; dcci_entire : DcciEntireType; dcci_type : DcciDstType }.

(** What the race check reads of a kernel record, whatever the record is. *)
Record KernelRecord := mkKernel {
  kr_recordType : RecordType.RecordType; kr_serialNo : Z; kr_interfaceType : Z; kr_dcci : DcciRecord;
}.
Inductive RecordVersion := MEMORY_RECORD | KERNEL_RECORD | OTHER_RECORD.
#[export] Instance RecordVersion_eq : EqDecision RecordVersion. Proof. solve_decision. Defined.
Record SanitizerRecord := mkRecord { version : RecordVersion; kernelRecord : KernelRecord }.

Definition is_type (t : RecordType.RecordType) (k : KernelRecord) : bool := RecordType.eqb (kr_recordType k) t.

Definition IsMstxRecordWithTensor (r : SanitizerRecord) : bool :=
  bool_decide (version r = KERNEL_RECORD) && is_type RecordType.MSTX_STUB (kernelRecord r) &&
  (MSTX_VEC_UNARY_OP <=? kr_interfaceType (kernelRecord r)) && (kr_interfaceType (kernelRecord r) <? MSTX_WITH_TENSOR).

(** ** Races between threads, found on the device *)
Module Simt.
Import Race.

(** [SimtThreadLocation::operator<], as a total order. *)
Definition thread_le (a b : SimtThreadLocation) : Prop :=
  if bool_decide (mainScalarPc_ a = mainScalarPc_ b) then
    if bool_decide (idZ a = idZ b) then
      if bool_decide (idY a = idY b) then idX a <= idX b else idY a < idY b
    else idZ a < idZ b
  else mainScalarPc_ a < mainScalarPc_ b.
#[global] Instance thread_le_dec : RelDecision thread_le.
Proof. intros a b. unfold thread_le. repeat case_match; apply _. Defined.

(** [std::unique] *)
Fixpoint unique (l : list SimtThreadLocation) : list SimtThreadLocation :=
  match l with
  | a :: l' =>
      match unique l' with
      | b :: u => if bool_decide (a = b) then b :: u else a :: b :: u
      | [] => [a]
      end
  | [] => []
  end.

Definition with_thread (t : SimtThreadLocation) (e : ErrorEvent) : ErrorEvent :=
  mkErr (err_serialNo e) (err_deviceId e) (err_kernelIdx e) (err_coreId e) (err_addr e) (err_fileNo e)
    (err_lineNo e) (err_pc e) (err_accessType e) (err_memType e) (err_pipeType e) (err_blockType e) t (err_isSimt e).

(** [ErrorEvent::IsSameSimt] *)
Definition same_event (a b : ErrorEvent) : bool :=
  (err_coreId a =? err_coreId b) && (err_addr a =? err_addr b) && (err_fileNo a =? err_fileNo b) &&
  (err_lineNo a =? err_lineNo b) && (err_pc a =? err_pc b) && (err_accessType a =? err_accessType b) &&
  (err_memType a =? err_memType b) && (err_pipeType a =? err_pipeType b) &&
  bool_decide (err_blockType a = err_blockType b) && eqb (err_isSimt a) (err_isSimt b).

Definition IsSameSimt (a b : RaceDispInfo) : bool :=
  (same_event (p1 a) (p1 b) && same_event (p2 a) (p2 b)) || (same_event (p1 a) (p2 b) && same_event (p2 a) (p1 b)).

Definition UpdateMinThreadLoc (other self : RaceDispInfo) : RaceDispInfo :=
  match unique (merge_sort thread_le [err_threadLoc (p1 self); err_threadLoc (p2 self);
                                      err_threadLoc (p1 other); err_threadLoc (p2 other)]) with
  | a :: b :: _ => mkDisp (with_thread a (p1 self)) (with_thread b (p2 self)) (isMissDcci self) (isOnlineError self)
  | _ => self
  end.

(** One iteration of [MergeSimtErrors]. *)
Fixpoint merge_one (current : RaceDispInfo) (uniqueErrors : list RaceDispInfo) : list RaceDispInfo :=
  match uniqueErrors with
  | [] => [current]
  | kept :: l => if IsSameSimt current kept then UpdateMinThreadLoc current kept :: l else kept :: merge_one current l
  end.

Definition MergeSimtErrors (errors : list RaceDispInfo) : list RaceDispInfo :=
  foldl (λ u current, merge_one current u) [] errors.

Definition THREAD_RW_RACE : Z := 4.
Definition THREAD_WR_RACE : Z := 5.
Definition THREAD_WW_RACE : Z := 6.

Definition ThreadRaceToAccessType (errorType : Z) (isSecondEvent : bool) : Z :=
  if errorType =? THREAD_RW_RACE then AccessType_code (if isSecondEvent then READ else WRITE)
  else if errorType =? THREAD_WR_RACE then AccessType_code (if isSecondEvent then WRITE else READ)
  else if errorType =? THREAD_WW_RACE then AccessType_code WRITE
  else 0.

Record KernelErrorDesc := mkErrorDesc {
  ed_errorType : Z; ed_location : Location; ed_threadLoc : SimtThreadLocation; ed_space : AddressSpace;
  ed_conflictedLocation : Location; ed_conflictedThreadLoc : SimtThreadLocation; ed_addr : Z;
}.

(** One iteration of [ParseOnlineError]; [deviceId] is the device of the context. *)
Definition online_race (kernels : KernelManager.KernelManager) (deviceId : Z) (blockType : BlockType)
    (d : KernelErrorDesc) : list RaceDispInfo :=
  if ASan.KE_MAX <=? ed_errorType d then []
  else if (ed_errorType d =? THREAD_RW_RACE) || (ed_errorType d =? THREAD_WR_RACE) || (ed_errorType d =? THREAD_WW_RACE)
  then
    let event l t second :=
      mkErr 0 deviceId (Sync.kernel_index kernels deviceId) (u32 (loc_blockId (ed_location d))) (ed_addr d)
        (loc_fileNo l) (loc_lineNo l) (loc_pc l) (ThreadRaceToAccessType (ed_errorType d) second)
        (MemType_code (AddrSpaceToMemType (ed_space d))) 0 blockType t true in
    [mkDisp (event (ed_location d) (ed_threadLoc d) false)
            (event (ed_conflictedLocation d) (ed_conflictedThreadLoc d) true) false true]
  else [].
End Simt.

(** ** The window of records *)
Module Dcci.
Definition entry : Type := SanitizerRecord * list SanEvent.

(** [recordWindow_], [aheadDccis_] and [afterDccis_]. *)
Record Window := mkWindow { recordWindow_ : list entry; aheadDccis_ : list KernelRecord; afterDccis_ : list KernelRecord }.
Definition new_Window : Window := mkWindow [] [] [].
Definition MAX_WINDOW_SIZE : Z := 4.

Section window.
Context (deviceType : DeviceType).

Definition DoesDcciHaveEffect (i : MemOpInfo) (d : DcciRecord) : bool :=
  if bool_decide (dcci_type d = CACHE_LINE_UB) || negb (bool_decide (dcci_space d = GM)) then false
  else if negb (bool_decide (memType i = MemType.GM)) then false
  else if bool_decide (dcci_entire d = ENTIRE_DATA_CACHE) then true
  else if device_between ASCEND_910B_START deviceType ASCEND_910B_END then addr i / 256 =? dcci_addr d / 256
  else if device_between ASCEND_950_START deviceType ASCEND_950_END then addr i / 64 =? dcci_addr d / 64
  else false.

Definition effective (i : MemOpInfo) (k : KernelRecord) : bool := DoesDcciHaveEffect i (kr_dcci k).

Definition NearestDcciDistance (k : KernelRecord) (i : MemOpInfo) (ahead after : list KernelRecord) : Z :=
  match opType i with
  | READ =>
      match find (effective i) (reverse ahead) with
      | Some d => u32 (u64 (kr_serialNo k - kr_serialNo d))
      | None => 0
      end
  | WRITE =>
      match find (effective i) after with
      | Some d => u32 (u64 (kr_serialNo d - kr_serialNo k))
      | None => 0
      end
  | _ => 0
  end.

Definition set_distance (n : Z) (i : MemOpInfo) : MemOpInfo :=
  {| memType := memType i; opType := opType i; vectorMask := vectorMask i; maskMode := maskMode i;
     instrName := instrName i; dataBits := dataBits i; addr := addr i; blockNum := blockNum i;
     blockSize := blockSize i; blockStride := blockStride i; repeatTimes := repeatTimes i;
     repeatStride := repeatStride i; alignSize := alignSize i; mem_ignoreIllegalCheck := mem_ignoreIllegalCheck i;
     isScalarAtomic := isScalarAtomic i; dcciDistance := n; dstCoreId := dstCoreId i;
     dstBlockType := dstBlockType i; instrClass := instrClass i; matrixM := matrixM i; matrixN := matrixN i |}.

Definition update_event (k : KernelRecord) (ahead after : list KernelRecord) (event : SanEvent) : SanEvent :=
  match eventInfo event with
  | MemInfo i =>
      if bool_decide (pipe event = PIPE_S) || bool_decide (pipe event = PIPE_S_CAL)
      then set_eventInfo (MemInfo (set_distance (NearestDcciDistance k i ahead after) i)) event
      else event
  | _ => event
  end.

(** [PopWindowRecord]: the arguments of its call of [DoImpl]. *)
Definition PopWindowRecord (w : Window) : option (Window * entry) :=
  match recordWindow_ w with
  | [] => None
  | (r, events) :: window =>
      let k := kernelRecord r in
      let isDcci := is_type RecordType.DCCI k in
      let ahead := if isDcci then aheadDccis_ w ++ [k] else aheadDccis_ w in
      let events := if isDcci then events else update_event k ahead (afterDccis_ w) <$> events in
      let ahead := match ahead with
                   | d :: l => if u64 (kr_serialNo d + MAX_WINDOW_SIZE) <? kr_serialNo k then l else ahead
                   | [] => []
                   end in
      let after := match afterDccis_ w with
                   | d :: l => if kr_serialNo d =? kr_serialNo k then l else afterDccis_ w
                   | [] => []
                   end in
      Some (mkWindow window ahead after, (r, events))
  end.

Fixpoint pop_all (fuel : nat) (w : Window) : option (Window * list entry) :=
  match fuel with
  | O => Some (w, [])
  | S fuel =>
      r ← PopWindowRecord w;
      let '(w, e) := r in
      r ← pop_all fuel w;
      let '(w, l) := r in Some (w, e :: l)
  end.

Definition ends_window (k : KernelRecord) : bool :=
  is_type RecordType.BLOCK_FINISH k || is_type RecordType.KERNEL_FINISH k || is_type RecordType.FINISH k.

(** What [DoEvents] does with a record when [checkDcci] is set: the new window
    and the calls of [DoImpl], in order. *)
Definition push_record (r : SanitizerRecord) (events : list SanEvent) (w : Window) : option (Window * list entry) :=
  let k := kernelRecord r in
  let w := mkWindow (recordWindow_ w ++ [(r, events)]) (aheadDccis_ w) (afterDccis_ w) in
  if ends_window k then
    p ← pop_all (length (recordWindow_ w)) w;
    Some (mkWindow (recordWindow_ p.1) [] [], p.2)
  else
    let w := if is_type RecordType.DCCI k then mkWindow (recordWindow_ w) (aheadDccis_ w) (afterDccis_ w ++ [k]) else w in
    if MAX_WINDOW_SIZE <? Z.of_nat (length (recordWindow_ w))
    then p ← PopWindowRecord w; Some (p.1, [p.2])
    else Some (w, []).
End window.
End Dcci.

(** ** Reporting *)
Inductive race_message := MRace (i : Race.RaceDispInfo) | MFlagId (w : Cross.CrossCoreSyncWarnInfo).

(** [CrossCoreSyncWarnInfo::operator==] *)
Definition same_warning (a b : Cross.CrossCoreSyncWarnInfo) : bool :=
  (Cross.warn_flagId a =? Cross.warn_flagId b) && (Cross.warn_serialNo a =? Cross.warn_serialNo b) &&
  (Cross.warn_pc a =? Cross.warn_pc b) && (Cross.warn_coreId a =? Cross.warn_coreId b) &&
  (Cross.warn_deviceId a =? Cross.warn_deviceId b).

(** The warnings of [ReportFlagIdWarnInfos], without repetitions. *)
Definition unique_warnings (l : list Cross.CrossCoreSyncWarnInfo) : list Cross.CrossCoreSyncWarnInfo :=
  foldl (λ u w, if existsb (same_warning w) u then u else u ++ [w]) [] l.

Definition race_messages (l : list Race.RaceDispInfo) : list (LogLv * race_message) := (λ i, (LV_ERROR, MRace i)) <$> l.
Definition warn_messages (l : list Cross.CrossCoreSyncWarnInfo) : list (LogLv * race_message) :=
  (λ w, (LV_WARN, MFlagId w)) <$> unique_warnings l.

(** ** [RaceSanitizer] *)
Module RaceSan.
Import AlgBase.

(** The five algorithms of a kernel. *)
Record Algs := mkAlgs {
  aiv_check : Inner.RaceAlgImpl; aic_check : Inner.RaceAlgImpl;
  aiv_pipe_check : SinglePipe.SinglePipeRaceAlgImpl; aic_pipe_check : SinglePipe.SinglePipeRaceAlgImpl;
  all_block_check : CrossCore.CrossCoreRaceAlgImpl;
}.

Record RaceSanitizer := mkRaceSan {
  raceAlgs_ : option Algs; checkBlockId_ : Z; registered : bool; deviceType_ : DeviceType;
  simtErrors_ : option (list Race.RaceDispInfo); window_ : Dcci.Window; sent : list (LogLv * race_message);
}.

Definition upd_algs (a : Algs) (s : RaceSanitizer) : RaceSanitizer :=
  mkRaceSan (Some a) (checkBlockId_ s) (registered s) (deviceType_ s) (simtErrors_ s) (window_ s) (sent s).
Definition upd_simt (l : list Race.RaceDispInfo) (s : RaceSanitizer) : RaceSanitizer :=
  mkRaceSan (raceAlgs_ s) (checkBlockId_ s) (registered s) (deviceType_ s) (Some l) (window_ s) (sent s).
Definition upd_window (w : Dcci.Window) (s : RaceSanitizer) : RaceSanitizer :=
  mkRaceSan (raceAlgs_ s) (checkBlockId_ s) (registered s) (deviceType_ s) (simtErrors_ s) w (sent s).

Definition new_RaceSanitizer : RaceSanitizer :=
  mkRaceSan None Sync.CHECK_ALL_BLOCK false DEVICE_INVALID None Dcci.new_Window [].

(** Calls of [msgFunc_]. *)
Definition notify (l : list (LogLv * race_message)) (s : RaceSanitizer) : option RaceSanitizer :=
  if negb (registered s) && negb (bool_decide (length l = 0%nat)) then None
  else Some (mkRaceSan (raceAlgs_ s) (checkBlockId_ s) (registered s) (deviceType_ s) (simtErrors_ s) (window_ s)
               (sent s ++ l)).

Definition SetDeviceInfo (device : DeviceType) (config : Config) (s : RaceSanitizer) : RaceSanitizer * bool :=
  (mkRaceSan (raceAlgs_ s) (checkBlockId config) (registered s) device (Some []) (window_ s) (sent s), false).

(** [RaceAlgFactory::Create] for the entries of [RACE_ALG_MAP]; [g1] and [g2]
    are the uninitialised counters of the two single-pipe algorithms. *)
Definition create_algs (g1 g2 : SinglePipe.Counters) (kt : KernelType) (dt : DeviceType) (blockDim : Z) : Algs :=
  mkAlgs (Inner.new_RaceAlgImpl kt dt blockDim) (Inner.new_RaceAlgImpl kt dt blockDim)
    (SinglePipe.new_SinglePipeRaceAlgImpl g1 kt dt blockDim) (SinglePipe.new_SinglePipeRaceAlgImpl g2 kt dt blockDim)
    (CrossCore.new_CrossCoreRaceAlgImpl kt dt blockDim).

Definition SetKernelInfo (g1 g2 : SinglePipe.Counters) (k : KernelManager.KernelSummary) (s : RaceSanitizer)
    : RaceSanitizer * bool :=
  if bool_decide (KernelManager.kernelType k = KT_AICPU) then (s, false)
  else if Sync.MAX_BLOCKDIM_NUMS <=? KernelManager.blockDim k then (s, false)
  else (upd_algs (create_algs g1 g2 (KernelManager.kernelType k) (deviceType_ s) (KernelManager.blockDim k)) s, true).

Definition IsTargetBlockId (checkBlockId blockId : Z) : bool :=
  (blockId =? u32 checkBlockId) || ((blockId =? 0) && (checkBlockId =? Sync.CHECK_ALL_BLOCK)).

Definition is_control (event : SanEvent) : bool := match eventInfo event with ControlInfo _ => true | _ => false end.

Definition IsTargetEvent (checkBlockId : Z) (event : SanEvent) (targetBlockType : BlockType) : bool :=
  if is_control event then true
  else
    let targetBlockId := if checkBlockId =? Sync.CHECK_ALL_BLOCK then 0 else u32 checkBlockId in
    if (coreId (loc event) =? targetBlockId) && bool_decide (blockType (loc event) = targetBlockType) then true
    else
      match eventInfo event with
      | CrossInfo i => bool_decide (mstx_opType i = MSTX_SET_CROSS) || bool_decide (mstx_opType i = MSTX_WAIT_CROSS)
      | FftsInfo _ => true
      | _ => false
      end.

Section events.
Context (junk : SanEvent → MemOpInfo) (kernels : KernelManager.KernelManager) (checkDcci : bool).

Definition inner_do (event : SanEvent) (a : Inner.RaceAlgImpl) : option Inner.RaceAlgImpl :=
  Inner.Do junk kernels checkDcci (race_fuel a.1) event a.
Definition pipe_do (event : SanEvent) (a : SinglePipe.SinglePipeRaceAlgImpl) : option SinglePipe.SinglePipeRaceAlgImpl :=
  SinglePipe.Do junk kernels checkDcci (race_fuel a.1) event a.
Definition cross_do (event : SanEvent) (a : CrossCore.CrossCoreRaceAlgImpl) : option CrossCore.CrossCoreRaceAlgImpl :=
  CrossCore.Do junk kernels checkDcci (race_fuel a.1) event a.

Fixpoint do_all {A} (do : SanEvent → A → option A) (events : list SanEvent) (a : A) : option A :=
  match events with [] => Some a | e :: events => a ← do e a; do_all do events a end.

Definition SingleBlockRaceCheck (checkBlockId : Z) (events : list SanEvent) (a : Algs) : option Algs :=
  aiv ← do_all inner_do
          (filter (λ e, IsTargetEvent checkBlockId e AIVEC || IsTargetEvent checkBlockId e AICORE = true) events)
          (aiv_check a);
  aic ← do_all inner_do (filter (λ e, IsTargetEvent checkBlockId e AICUBE = true) events) (aic_check a);
  Some (mkAlgs aiv aic (aiv_pipe_check a) (aic_pipe_check a) (all_block_check a)).

Definition pipe_target (checkBlockId : Z) (types : list BlockType) (e : SanEvent) : bool :=
  (IsTargetBlockId checkBlockId (coreId (loc e)) && existsb (λ t, bool_decide (blockType (loc e) = t)) types) ||
  is_control e.

Definition SinglePipeRaceCheck (checkBlockId : Z) (events : list SanEvent) (a : Algs) : option Algs :=
  aiv ← do_all pipe_do (filter (λ e, pipe_target checkBlockId [AIVEC; AICORE] e = true) events) (aiv_pipe_check a);
  aic ← do_all pipe_do (filter (λ e, pipe_target checkBlockId [AICUBE] e = true) events) (aic_pipe_check a);
  Some (mkAlgs (aiv_check a) (aic_check a) aiv aic (all_block_check a)).

Definition AllBlockRaceCheck (checkBlockId : Z) (events : list SanEvent) (a : Algs) : option Algs :=
  if negb (checkBlockId =? Sync.CHECK_ALL_BLOCK) then Some a
  else
    c ← do_all cross_do events (all_block_check a);
    Some (mkAlgs (aiv_check a) (aic_check a) (aiv_pipe_check a) (aic_pipe_check a) c).

(** The base parts of the algorithms, in the order of the array. *)
Definition bases (a : Algs) : list RaceAlgBase :=
  [(aiv_check a).2.1; (aic_check a).2.1; (aiv_pipe_check a).2.1; (aic_pipe_check a).2.1; (all_block_check a).2.1].

Definition clear_if_finished (b : RaceAlgBase) : RaceAlgBase := if isFinished_ b then ClearFlagIdWarnInfo b else b.
Definition clear_warnings (a : Algs) : Algs :=
  let on {S} (x : EventContainer * (RaceAlgBase * S)) : EventContainer * (RaceAlgBase * S) :=
    (x.1, (clear_if_finished x.2.1, x.2.2)) in
  mkAlgs (on (aiv_check a)) (on (aic_check a)) (on (aiv_pipe_check a)) (on (aic_pipe_check a)) (on (all_block_check a)).

Definition finished (a : Algs) : list RaceAlgBase := filter (λ b, isFinished_ b = true) (bases a).

Definition DoImpl (r : SanitizerRecord) (events : list SanEvent) (s : RaceSanitizer) : option RaceSanitizer :=
  if IsMstxRecordWithTensor r then Some s
  else if bool_decide (length events = 0%nat) then Some s
  else
    a ← raceAlgs_ s;
    a ← SingleBlockRaceCheck (checkBlockId_ s) events a;
    a ← SinglePipeRaceCheck (checkBlockId_ s) events a;
    a ← AllBlockRaceCheck (checkBlockId_ s) events a;
    let s := upd_algs a s in
    s ← notify (race_messages (finished a ≫= GetResult)) s;
    s ← (if bool_decide (version r = KERNEL_RECORD) && is_type RecordType.KERNEL_FINISH (kernelRecord r) then
           errors ← simtErrors_ s;
           s ← notify (race_messages (Simt.MergeSimtErrors errors)) s;
           Some (upd_simt [] s)
         else Some s);
    let warnings := finished a ≫= GetFlagIdWarnInfo in
    notify (warn_messages warnings) (upd_algs (clear_warnings a) s).

Fixpoint do_entries (l : list Dcci.entry) (s : RaceSanitizer) : option RaceSanitizer :=
  match l with [] => Some s | (r, events) :: l => s ← DoImpl r events s; do_entries l s end.

Definition DoEvents (r : SanitizerRecord) (events : list SanEvent) (s : RaceSanitizer) : option RaceSanitizer :=
  if bool_decide (version r = MEMORY_RECORD) then Some s
  else if negb checkDcci then DoImpl r events s
  else
    p ← Dcci.push_record (deviceType_ s) r events (window_ s);
    do_entries p.2 (upd_window p.1 s).

Definition Do : SanitizerRecord → list SanEvent → RaceSanitizer → option RaceSanitizer := DoEvents.
End events.

Definition CheckRecordBeforeProcess (r : SanitizerRecord) : bool := bool_decide (version r = KERNEL_RECORD).

Definition ParseOnlineError (kernels : KernelManager.KernelManager) (deviceId : Z) (descs : list Simt.KernelErrorDesc)
    (blockType : BlockType) (s : RaceSanitizer) : RaceSanitizer :=
  match simtErrors_ s with
  | None => s
  | Some errors => upd_simt (errors ++ (descs ≫= Simt.online_race kernels deviceId blockType)) s
  end.

Definition RegisterNotifyFunc (s : RaceSanitizer) : RaceSanitizer :=
  mkRaceSan (raceAlgs_ s) (checkBlockId_ s) true (deviceType_ s) (simtErrors_ s) (window_ s) (sent s).
End RaceSan.

(** ** [CrossNpuRaceSanitizer] *)
Module NpuSan.
Record CrossNpuRaceSanitizer := mkNpuSan {
  registered : bool; raceAlg_ : CrossNpu.CrossNpuRaceAlgImpl; sent : list (LogLv * race_message);
}.

Definition new_CrossNpuRaceSanitizer : CrossNpuRaceSanitizer := mkNpuSan false CrossNpu.new_CrossNpuRaceAlgImpl [].

Definition notify (l : list (LogLv * race_message)) (s : CrossNpuRaceSanitizer) : option CrossNpuRaceSanitizer :=
  if negb (registered s) && negb (bool_decide (length l = 0%nat)) then None
  else Some (mkNpuSan (registered s) (raceAlg_ s) (sent s ++ l)).

Section managers.
Context (devices : DeviceManager.DeviceManager) (kernels : KernelManager.KernelManager).

Definition Init (s : CrossNpuRaceSanitizer) : option CrossNpuRaceSanitizer :=
  a ← CrossNpu.Init devices kernels (raceAlg_ s); Some (mkNpuSan (registered s) a (sent s)).
Definition RegisterNotifyFunc (s : CrossNpuRaceSanitizer) : CrossNpuRaceSanitizer :=
  mkNpuSan true (raceAlg_ s) (sent s).

(** The kernel that the first message names must be known. *)
Definition RaceSanitizerRecord (l : list Race.RaceDispInfo) (s : CrossNpuRaceSanitizer) : option CrossNpuRaceSanitizer :=
  match l with
  | [] => Some s
  | i :: _ =>
      match KernelManager.Get (Race.err_deviceId (Race.p1 i)) (Race.err_kernelIdx (Race.p1 i)) kernels with
      | None => Some s
      | Some _ => notify (race_messages l) s
      end
  end.

Definition ReportFlagIdWarnInfo (l : list Cross.CrossCoreSyncWarnInfo) (s : CrossNpuRaceSanitizer)
    : option CrossNpuRaceSanitizer :=
  match l with
  | [] => Some s
  | w :: _ =>
      match KernelManager.Get (Cross.warn_deviceId w) (Cross.warn_kernelIdx w) kernels with
      | None => Some s
      | Some _ => notify (warn_messages l) s
      end
  end.

Definition Do (junk : SanEvent → MemOpInfo) (checkDcci : bool) (fuel : nat) (r : SanitizerRecord)
    (events : list SanEvent) (s : CrossNpuRaceSanitizer) : option CrossNpuRaceSanitizer :=
  if IsMstxRecordWithTensor r then Some s
  else
    a ← RaceSan.do_all (CrossNpu.Do devices kernels junk checkDcci fuel) events (raceAlg_ s);
    let s := mkNpuSan (registered s) a (sent s) in
    if CrossNpu.IsFinished a then
      s ← RaceSanitizerRecord (CrossNpu.GetResult a) s;
      s ← ReportFlagIdWarnInfo (CrossNpu.GetFlagIdWarnInfo a) s;
      Some (mkNpuSan (registered s) (CrossNpu.ClearFlagIdWarnInfo (raceAlg_ s)) (sent s))
    else Some s.
End managers.
End NpuSan.
