(* ===== verification/Causality.v ===== *)
(** Vector clocks compute happens-before.

    A computation is a set of nodes, each on a clock, with the nodes it directly
    depends on. A log lists the nodes in an order in which they were processed.
    A clock that ticks at (some of) its nodes and takes over the vector times of
    the nodes it depends on represents, component by component, the latest tick
    it depends on; comparing two vector times then decides whether one node
    happens before the other. The algorithms instantiate nodes and dependencies;
    vector times are the sparse ones of the code. *)
From stdpp Require Import base numbers option relations list.
From S2P Require Import Prelude.
From S2P Require Import VectorTime.
From S2P Require Import VectorTimeProofs.
From S2P Require Import RaceProofs.
Import VT.

Section causality.
Context {N : Type} `{!EqDecision N} (preds : N → list N) (clk : N → Z) (ticks : N → bool).

(** [m] is [n], or [n] depends on it. *)
Definition hb : N → N → Prop := rtc (λ m n, m ∈ preds n).

Lemma hb_inv m n : hb m n ↔ m = n ∨ ∃ p, p ∈ preds n ∧ hb m p.
Proof.
  split.
  - intros [->|(p & Hh & Hp)]%rtc_inv_r; [by left|]. right. eauto.
  - intros [->|(p & Hp & Hh)]; [apply rtc_refl|]. by eapply rtc_r.
Qed.

Lemma hb_trans l m n : hb l m → hb m n → hb l n.
Proof. intros H1 H2. by etrans. Qed.

Lemma hb_pred p n : p ∈ preds n → hb p n.
Proof. intros Hp. by apply rtc_once. Qed.

(** Logs, the newest node first: a node is processed once, after the nodes it
    depends on, and depends on every earlier node of its clock. *)
Inductive log : list N → Prop :=
  | log_nil : log []
  | log_cons n l :
      log l → n ∉ l → (∀ p, p ∈ preds n → p ∈ l) → (∀ m, m ∈ l → clk m = clk n → hb m n) → log (n :: l).

Lemma log_closed l n p : log l → n ∈ l → p ∈ preds n → p ∈ l.
Proof.
  induction 1 as [|n' l Hl IH Hn Hp _]; [by intros ?%elem_of_nil|].
  intros [->|Hin]%elem_of_cons Hpn; apply elem_of_cons; right; auto.
Qed.

Lemma log_hb l m n : log l → n ∈ l → hb m n → m ∈ l.
Proof.
  intros Hl Hn Hh. induction Hh as [|m y n Hp Hh IH]; [done|]. eapply log_closed; [done|by apply IH|done].
Qed.

(** Ticks of clock [q], and the number of the tick of a node. *)
Fixpoint count (l : list N) (q : Z) : Z :=
  match l with [] => 0 | n :: l => (if ticks n && (clk n =? q) then 1 else 0) + count l q end.

Fixpoint rank (l : list N) (n : N) : Z :=
  match l with [] => 0 | m :: l' => if decide (m = n) then count l (clk n) else rank l' n end.

Lemma count_range l q : 0 <= count l q <= Z.of_nat (length l).
Proof. induction l as [|n l IH]; simpl; [lia|]. destruct (_ && _); lia. Qed.

Lemma rank_cons l m n : m ≠ n → rank (m :: l) n = rank l n.
Proof. intros H. simpl. by rewrite decide_False. Qed.

Lemma rank_head l n : ticks n = true → rank (n :: l) n = 1 + count l (clk n).
Proof. intros H. simpl. by rewrite decide_True, H, Z.eqb_refl. Qed.

Lemma rank_le l n : n ∈ l → 0 <= rank l n <= count l (clk n).
Proof.
  induction l as [|m l IH]; [by intros ?%elem_of_nil|]. intros Hin. simpl.
  destruct (decide (m = n)) as [->|Hne].
  - destruct (_ && _); pose proof (count_range l (clk n)); lia.
  - apply elem_of_cons in Hin as [|Hin]; [done|]. specialize (IH Hin). destruct (_ && _); lia.
Qed.

Lemma rank_pos l n : n ∈ l → ticks n = true → 1 <= rank l n.
Proof.
  induction l as [|m l IH]; [by intros ?%elem_of_nil|]. intros Hin Ht.
  destruct (decide (m = n)) as [->|Hne]; [rewrite rank_head by done; pose proof (count_range l (clk n)); lia|].
  rewrite rank_cons by done. apply elem_of_cons in Hin as [|Hin]; [done|]. auto.
Qed.

(** On one clock, happens-before is the order of the ranks. *)
Lemma rank_hb l m n :
  log l → m ∈ l → n ∈ l → clk m = clk n → ticks m = true → rank l m <= rank l n → hb m n.
Proof.
  induction 1 as [|x l Hl IH Hx Hp Hc]; [by intros ?%elem_of_nil|]. intros Hm Hn Hq Ht Hr.
  apply elem_of_cons in Hm as [->|Hm], Hn as [->|Hn]; [apply rtc_refl| |by apply Hc|].
  - rewrite rank_head, rank_cons in Hr by (done || (intros ->; done)). pose proof (rank_le l n Hn).
    rewrite Hq in Hr. lia.
  - rewrite !rank_cons in Hr by (intros ->; done). auto.
Qed.

Lemma hb_rank l m n : log l → n ∈ l → hb m n → clk m = clk n → rank l m <= rank l n.
Proof.
  intros Hlog. revert m n. induction Hlog as [|x l Hl IH Hx Hp Hc]; intros m n Hn Hh Hq; [by apply elem_of_nil in Hn|].
  apply elem_of_cons in Hn as [->|Hn].
  - apply hb_inv in Hh as [->|(p & Hpx & Hh)]; [lia|].
    assert (m ∈ l) as Hm by (eapply log_hb; [done|by apply Hp|done]).
    rewrite (rank_cons l x m) by (intros ->; done). simpl rank at 2. rewrite decide_True by done.
    pose proof (rank_le l m Hm). rewrite Hq in *. simpl. destruct (_ && _); lia.
  - assert (m ∈ l) as Hm by by eapply log_hb.
    rewrite !rank_cons by (intros ->; done). auto.
Qed.

(** No cycles among processed nodes. *)
Lemma hb_antisym l m n : log l → m ∈ l → n ∈ l → hb m n → hb n m → m = n.
Proof.
  intros Hlog. revert m n. induction Hlog as [|x l Hl IH Hx Hp Hc]; intros m n Hm Hn H1 H2; [by apply elem_of_nil in Hm|].
  assert (∀ y, hb x y → y ∈ l → False) as Hno by (intros y H Hy; apply Hx; by eapply log_hb).
  apply elem_of_cons in Hm as [->|Hm], Hn as [->|Hn]; [done|exfalso; eauto|exfalso; eauto|auto].
Qed.

(** ** Vector times that represent a set of nodes *)

Definition repr (l : list N) (t : VectorTime) (D : N → Prop) : Prop :=
  wf t ∧ ∀ q,
    (∀ m, m ∈ l → D m → ticks m = true → clk m = q → 1 + rank l m <= time t q) ∧
    (time t q = 1 ∨ ∃ m, m ∈ l ∧ D m ∧ ticks m = true ∧ clk m = q ∧ time t q = 1 + rank l m).

(** The time of a processed node, and of a clock. *)
Definition stored (l : list N) (t : VectorTime) (n : N) : Prop := n ∈ l ∧ repr l t (λ m, hb m n).
Definition current (l : list N) (t : VectorTime) (q : Z) : Prop := repr l t (λ m, ∃ n, n ∈ l ∧ clk n = q ∧ hb m n).

Lemma repr_ext l t (D D' : N → Prop) : (∀ m, m ∈ l → D m ↔ D' m) → repr l t D → repr l t D'.
Proof.
  intros HD [Hw H]. split; [done|]. intros q. destruct (H q) as [H1 H2]. split.
  - intros m Hm Hd. apply H1; [done|]. by apply HD.
  - destruct H2 as [|(m & Hm & Hd & Hr)]; [by left|right]. exists m. split; [done|]. split; [by apply HD|done].
Qed.

Lemma repr_cons l n t (D D' : N → Prop) :
  n ∉ l → ¬ D' n → (∀ m, m ∈ l → D m ↔ D' m) → repr l t D → repr (n :: l) t D'.
Proof.
  intros Hn Hd HD [Hw H]. split; [done|]. intros q. destruct (H q) as [H1 H2]. split.
  - intros m Hm Hdm Ht Hq. apply elem_of_cons in Hm as [->|Hm]; [done|].
    rewrite rank_cons by (intros ->; done). apply H1; try done. by apply HD.
  - destruct H2 as [|(m & Hm & Hdm & Ht & Hq & Hr)]; [by left|right]. exists m.
    rewrite rank_cons by (intros ->; done). split; [apply elem_of_cons; by right|].
    split; [by apply HD|done].
Qed.

Lemma stored_cons l n t x : log (n :: l) → stored l t x → stored (n :: l) t x.
Proof.
  intros Hlog [Hx Ht]. inversion Hlog as [|? ? Hl Hn Hp Hc]; subst. split; [apply elem_of_cons; by right|].
  eapply repr_cons; [done| | |exact Ht]; [|done]. intros Hh. apply Hn. by eapply log_hb.
Qed.

Lemma current_cons l n t q : log (n :: l) → clk n ≠ q → current l t q → current (n :: l) t q.
Proof.
  intros Hlog Hq Ht. inversion Hlog as [|? ? Hl Hn Hp Hc]; subst. eapply repr_cons; [done| | |exact Ht].
  - intros (x & [->|Hx]%elem_of_cons & Hqx & Hh); [done|]. apply Hn. by eapply log_hb.
  - intros m Hm. split; intros (x & Hx & Hqx & Hh); exists x.
    + split; [apply elem_of_cons; by right|done].
    + apply elem_of_cons in Hx as [->|Hx]; done.
Qed.

Lemma repr_new l (D : N → Prop) : (∀ m, m ∈ l → D m → ticks m = true → False) → repr l new_VectorTime D.
Proof.
  intros H. split; [apply new_wf|]. intros q. rewrite new_time. split; [|by left]. intros m Hm Hd Ht. exfalso. eauto.
Qed.

Lemma repr_join l t1 t2 t D1 D2 :
  repr l t1 D1 → repr l t2 D2 → joined t1 t2 t → repr l t (λ m, D1 m ∨ D2 m).
Proof.
  intros [_ H1] [_ H2] [Hw Ht]. split; [done|]. intros q. rewrite Ht. destruct (H1 q) as [A1 B1], (H2 q) as [A2 B2]. split.
  - intros m Hm [Hd|Hd] Htk Hq; [specialize (A1 m Hm Hd Htk Hq)|specialize (A2 m Hm Hd Htk Hq)]; lia.
  - destruct (Z.max_spec (time t1 q) (time t2 q)) as [ [_ ->]|[_ ->] ].
    + destruct B2 as [|(m & ? & ? & ?)]; [by left|right; exists m; naive_solver].
    + destruct B1 as [|(m & ? & ? & ?)]; [by left|right; exists m; naive_solver].
Qed.

(** Processing a node. [t] is the time of its clock after taking over the times
    of other nodes. *)
Lemma repr_silent l n t (D : N → Prop) :
  log (n :: l) → ticks n = false → repr l t D → (∀ m, m ∈ l → D m ↔ hb m n) →
  repr (n :: l) t (λ m, hb m n).
Proof.
  intros Hlog Hs [Hw H] HD. inversion Hlog as [|? ? Hl Hn Hp Hc]; subst. split; [done|]. intros q.
  destruct (H q) as [H1 H2]. split.
  - intros m [->|Hm]%elem_of_cons Hh Ht Hq; [congruence|]. rewrite rank_cons by (intros ->; done).
    apply H1; try done. by apply HD.
  - destruct H2 as [|(m & Hm & Hd & Ht & Hq & Hr)]; [by left|right]. exists m.
    rewrite rank_cons by (intros ->; done). split; [apply elem_of_cons; by right|]. split; [by apply HD|done].
Qed.

(** The clock of the next node counts its own ticks. *)
Lemma repr_own l n t (D : N → Prop) :
  log (n :: l) → repr l t D → (∀ m, m ∈ l → D m ↔ hb m n) → time t (clk n) = 1 + count l (clk n).
Proof.
  intros Hlog [Hw H] HD. inversion Hlog as [|? ? Hl Hn Hp Hc]; subst. destruct (H (clk n)) as [H1 H2].
  assert (count l (clk n) = 0 ∨ ∃ m, m ∈ l ∧ ticks m = true ∧ clk m = clk n ∧ rank l m = count l (clk n)) as Hcnt.
  { clear -Hl. induction Hl as [|x l Hl IH Hx _ _]; [by left|]. cbn [count]. destruct (ticks x) eqn:Ht; cbn [andb].
    - destruct (Z.eqb_spec (clk x) (clk n)) as [Hq|Hq]; cbn [Z.add].
      + right. exists x. split; [apply elem_of_cons; by left|]. split; [done|]. split; [done|].
        rewrite rank_head by done. by rewrite Hq.
      + destruct IH as [|(m & Hm & ? & ? & ?)]; [by left|right]. exists m. rewrite rank_cons by (intros ->; done).
        split; [apply elem_of_cons; by right|]. done.
    - destruct IH as [|(m & Hm & ? & ? & ?)]; [by left|right]. exists m. rewrite rank_cons by (intros ->; done).
      split; [apply elem_of_cons; by right|]. done. }
  pose proof (count_range l (clk n)) as Hr. destruct Hcnt as [H0|(m & Hm & Ht & Hq & Hrk)].
  - destruct H2 as [->|(m & Hm & _ & Ht & Hq & ->)]; [lia|]. pose proof (rank_le l m Hm). rewrite Hq in *. lia.
  - assert (1 + rank l m <= time t (clk n)) by (apply H1; try done; apply HD; [done|]; by apply Hc).
    destruct H2 as [E|(m' & Hm' & _ & Ht' & Hq' & E)]; [pose proof (rank_pos l m Hm Ht); lia|].
    pose proof (rank_le l m' Hm'). rewrite Hq' in *. lia.
Qed.

Lemma repr_tick l n t (D : N → Prop) :
  log (n :: l) → ticks n = true → is_u32 (clk n) → Z.of_nat (length l) < 4294967290 → repr l t D →
  (∀ m, m ∈ l → D m ↔ hb m n) →
  ∃ t', VectorClock.UpdateLogicTime (clk n) t = Some t' ∧ repr (n :: l) t' (λ m, hb m n).
Proof.
  intros Hlog Hs Hu Hlen Ht HD. pose proof (repr_own l n t D Hlog Ht HD) as Hown.
  inversion Hlog as [|? ? Hl Hn Hp Hc]; subst. pose proof Ht as [Hw H].
  destruct (UpdateLogicTime_spec t (clk n) Hw Hu) as (t' & -> & Hw' & Ht'). exists t'. split; [done|]. split; [done|].
  pose proof (count_range l (clk n)) as Hr. intros q. rewrite Ht'. destruct (H q) as [H1 H2].
  destruct (Z.eqb_spec q (clk n)) as [->|Hq]; cbn [andb].
  - rewrite (proj2 (Z.ltb_lt _ _)) by lia. rewrite Hown. split.
    + intros m [->|Hm]%elem_of_cons Hh Htm Hqm; [rewrite rank_head by done; lia|].
      rewrite rank_cons by (intros ->; done). pose proof (rank_le l m Hm). rewrite Hqm in *. lia.
    + right. exists n. rewrite rank_head by done. split; [apply elem_of_cons; by left|].
      split; [apply rtc_refl|]. split; [done|]. split; [done|]. lia.
  - split.
    + intros m [->|Hm]%elem_of_cons Hh Htm Hqm; [done|]. rewrite rank_cons by (intros ->; done).
      apply H1; try done. by apply HD.
    + destruct H2 as [|(m & Hm & Hd & Htm & Hqm & Hrm)]; [by left|right]. exists m.
      rewrite rank_cons by (intros ->; done). split; [apply elem_of_cons; by right|]. split; [by apply HD|done].
Qed.

(** The time after a node is the time of its clock. *)
Lemma repr_current l n t : log (n :: l) → repr (n :: l) t (λ m, hb m n) → current (n :: l) t (clk n).
Proof.
  intros Hlog. inversion Hlog as [|? ? Hl Hn Hp Hc]; subst. apply repr_ext. intros m Hm. split.
  - intros Hh. exists n. split; [apply elem_of_cons; by left|done].
  - intros (x & [->|Hx]%elem_of_cons & Hq & Hh); [done|]. apply (hb_trans m x n Hh). by apply Hc.
Qed.

(** What the clock of a node knows before it, when every node it depends on
    lies on its clock. *)
Lemma current_before l n t :
  log (n :: l) → (∀ p, p ∈ preds n → clk p = clk n) → current l t (clk n) →
  repr l t (λ m, ∃ x, x ∈ l ∧ clk x = clk n ∧ hb m x) ∧
  ∀ m, m ∈ l → (∃ x, x ∈ l ∧ clk x = clk n ∧ hb m x) ↔ hb m n.
Proof.
  intros Hlog Hown Ht. inversion Hlog as [|? ? Hl Hn Hp Hc]; subst. split; [done|]. intros m Hm. split.
  - intros (x & Hx & Hq & Hh). apply (hb_trans m x n Hh). by apply Hc.
  - intros [->|(p & Hpn & Hh)]%hb_inv; [done|]. exists p. eauto.
Qed.

(** And when it takes over the time of one other node. *)
Lemma join_before l n s t ts t' :
  log (n :: l) → (∀ p, p ∈ preds n → clk p = clk n ∨ p = s) → s ∈ preds n → current l t (clk n) → stored l ts s →
  joined t ts t' →
  repr l t' (λ m, (∃ x, x ∈ l ∧ clk x = clk n ∧ hb m x) ∨ hb m s) ∧
  ∀ m, m ∈ l → (∃ x, x ∈ l ∧ clk x = clk n ∧ hb m x) ∨ hb m s ↔ hb m n.
Proof.
  intros Hlog Hown Hs Ht [Hsl Hts] Hj. inversion Hlog as [|? ? Hl Hn Hp Hc]; subst.
  split; [by eapply repr_join|]. intros m Hm. split.
  - intros [(x & Hx & Hq & Hh)|Hh]; [apply (hb_trans m x n Hh); by apply Hc|].
    apply (hb_trans m s n Hh). by apply hb_pred.
  - intros [->|(p & Hpn & Hh)]%hb_inv; [done|]. destruct (Hown p Hpn) as [Hq| ->]; [left; exists p; eauto|by right].
Qed.

(** ** The comparison *)

Lemma stored_le l m n t :
  log l → m ∈ l → ticks m = true → stored l t n → hb m n ↔ 1 + rank l m <= time t (clk m).
Proof.
  intros Hl Hm Ht [Hn [_ H]]. destruct (H (clk m)) as [H1 H2]. split.
  - intros Hh. by apply H1.
  - intros Hle. pose proof (rank_pos l m Hm Ht). destruct H2 as [|(x & Hx & Hh & Htx & Hq & E)]; [lia|].
    apply (hb_trans m x n); [|done]. apply (rank_hb l); try done. lia.
Qed.

Lemma stored_own l n t : log l → ticks n = true → stored l t n → time t (clk n) = 1 + rank l n.
Proof.
  intros Hl Ht [Hn Hs]. pose proof (proj1 (stored_le l n n t Hl Hn Ht (conj Hn Hs)) (rtc_refl _ _)) as Hle.
  destruct Hs as [_ H]. destruct (H (clk n)) as [_ H2]. pose proof (rank_pos l n Hn Ht).
  destruct H2 as [|(x & Hx & Hh & Htx & Hq & E)]; [lia|]. pose proof (hb_rank l x n Hl Hn Hh Hq). lia.
Qed.

(** The comparison of the code decides whether two nodes are unordered. *)
Lemma concurrent_hb l n1 n2 t1 t2 :
  log l → ticks n1 = true → ticks n2 = true → n1 ≠ n2 → stored l t1 n1 → stored l t2 n2 →
  concurrent t1 (clk n1) t2 (clk n2) = true ↔ ¬ hb n1 n2 ∧ ¬ hb n2 n1.
Proof.
  intros Hl T1 T2 Hne S1 S2. pose proof (stored_own l n1 t1 Hl T1 S1) as O1.
  pose proof (stored_own l n2 t2 Hl T2 S2) as O2. pose proof (proj1 S1) as I1. pose proof (proj1 S2) as I2.
  pose proof (stored_le l n1 n2 t2 Hl I1 T1 S2) as H12. pose proof (stored_le l n2 n1 t1 Hl I2 T2 S1) as H21.
  assert (¬ (hb n1 n2 ∧ hb n2 n1)) as Hanti by (intros [? ?]; apply Hne; by eapply hb_antisym).
  rewrite H12, H21 in *. unfold concurrent, VectorClock.IsNotHappensBefore4. rewrite O1, O2.
  destruct (Z.eqb_spec (1 + rank l n1) (time t2 (clk n1))); [split; [done|lia]|].
  destruct (Z.ltb_spec (1 + rank l n1) (time t2 (clk n1))); rewrite Z.ltb_lt; lia.
Qed.
End causality.
