(* ===== verification/HappensBefore.v ===== *)
(** Happens-before between the events of a core, read off the program.

    PIPE_S issues the events of a program in order; each pipe executes its
    events in order; a [wait_flag] follows the [set_flag] it is paired with, the
    n-th wait of a flag with the n-th set. The replay of
    [csrc/race_sanitizer/alg_framework/race_alg_impl.cpp] has a finer set of
    nodes: the issue of an event on PIPE_S, the arrival of the time event on the
    pipe, and the execution. The two views agree on executions. *)
From stdpp Require Import base numbers option relations list.
From S2P Require Import Prelude.
From S2P Require Import EventDef.
From S2P Require Import SyncContainers.
From S2P Require Import PipelineReplayer.
From S2P Require Import Causality.

(** The flag an event sets ([true]) or waits for ([false]). *)
Definition flag_op (e : SanEvent) : option (bool * SyncDb.SyncEvent) :=
  match eventInfo e with
  | SyncInfo i =>
      match sync_opType i with
      | SET_FLAG => Some (true, Replay.sync_key i)
      | WAIT_FLAG => Some (false, Replay.sync_key i)
      | _ => None
      end
  | _ => None
  end.

Section program.
Context (prog : list SanEvent).

(** The pipe of an event. *)
Definition lane (i : nat) : PipeType := match prog !! i with Some e => pipe e | None => PIPE_S end.

Definition flag_at (set : bool) (k : SyncDb.SyncEvent) (i : nat) : Prop := prog !! i ≫= flag_op = Some (set, k).
#[global] Instance flag_at_dec set k i : Decision (flag_at set k i).
Proof. unfold flag_at. apply _. Defined.

(** The sets or waits of a flag before event [i]. *)
Definition before (set : bool) (k : SyncDb.SyncEvent) (i : nat) : nat := length (filter (flag_at set k) (seq 0 i)).

(** The set [i] and the wait [j] are paired. *)
Definition matched (i j : nat) : bool :=
  match prog !! i ≫= flag_op, prog !! j ≫= flag_op with
  | Some (true, k), Some (false, k') => bool_decide (k = k') && (before true k i =? before false k j)%nat
  | _, _ => false
  end.

Definition edge (i j : nat) : Prop := ((i < j)%nat ∧ (lane i = lane j ∨ lane i = PIPE_S)) ∨ matched i j = true.

(** Event [i] is complete before event [j] starts. *)
Definition happens_before : nat → nat → Prop := tc edge.

(** ** Nodes of the replay *)

Inductive node := Issue (i : nat) | Arrive (i : nat) | Exec (i : nat).
#[global] Instance node_eq : EqDecision node. Proof. solve_decision. Defined.

(** What PIPE_S does with event [i]. *)
Definition snode (i : nat) : node := if decide (lane i = PIPE_S) then Exec i else Issue i.

Definition preds (n : node) : list node :=
  match n with
  | Issue i => snode <$> seq 0 i
  | Arrive i => Issue i :: (Exec <$> filter (λ j, lane j = lane i) (seq 0 i))
  | Exec i =>
      (if decide (lane i = PIPE_S) then snode <$> seq 0 i else [Arrive i]) ++
      (Exec <$> filter (λ j, matched j i = true) (seq 0 (length prog)))
  end.

#[local] Abbreviation hb := (Causality.hb preds).

Lemma elem_snode n k : n ∈ snode <$> seq 0 k ↔ ∃ i, (i < k)%nat ∧ n = snode i.
Proof.
  rewrite list_elem_of_fmap. split.
  - intros (i & -> & Hi%elem_of_seq). exists i. split; [lia|done].
  - intros (i & Hi & ->). exists i. split; [done|]. apply elem_of_seq. lia.
Qed.

Lemma elem_earlier n i :
  n ∈ Exec <$> filter (λ j, lane j = lane i) (seq 0 i) ↔ ∃ j, (j < i)%nat ∧ lane j = lane i ∧ n = Exec j.
Proof.
  rewrite list_elem_of_fmap. setoid_rewrite list_elem_of_filter. setoid_rewrite elem_of_seq. split.
  - intros (j & -> & Hj & Hi). exists j. split; [lia|done].
  - intros (j & Hi & Hj & ->). exists j. split; [done|]. split; [done|]. lia.
Qed.

Lemma matched_lt i j : matched i j = true → (i < length prog)%nat ∧ (j < length prog)%nat.
Proof.
  unfold matched. intros H. split; apply lookup_lt_is_Some_1.
  - destruct (prog !! i); [by eexists|done].
  - destruct (prog !! i) as [e|]; [|done]. simpl in H. destruct (flag_op e) as [ [[] ?]|]; try done.
    destruct (prog !! j); [by eexists|done].
Qed.

Lemma elem_matched n i : n ∈ Exec <$> filter (λ j, matched j i = true) (seq 0 (length prog)) ↔ ∃ j, matched j i = true ∧ n = Exec j.
Proof.
  rewrite list_elem_of_fmap. setoid_rewrite list_elem_of_filter. setoid_rewrite elem_of_seq. split.
  - intros (j & -> & Hj & _). eauto.
  - intros (j & Hj & ->). exists j. split; [done|]. split; [done|]. apply matched_lt in Hj. lia.
Qed.

Lemma preds_exec n i :
  n ∈ preds (Exec i) ↔
    (if decide (lane i = PIPE_S) then ∃ j, (j < i)%nat ∧ n = snode j else n = Arrive i) ∨
    ∃ j, matched j i = true ∧ n = Exec j.
Proof.
  cbn [preds]. rewrite elem_of_app, elem_matched. destruct (decide (lane i = PIPE_S)).
  - by rewrite elem_snode.
  - by rewrite list_elem_of_singleton.
Qed.

Lemma preds_arrive n i :
  n ∈ preds (Arrive i) ↔ n = Issue i ∨ ∃ j, (j < i)%nat ∧ lane j = lane i ∧ n = Exec j.
Proof. cbn [preds]. by rewrite elem_of_cons, elem_earlier. Qed.

Lemma preds_issue n i : n ∈ preds (Issue i) ↔ ∃ j, (j < i)%nat ∧ n = snode j.
Proof. apply elem_snode. Qed.

(** The last execution on the way to a node. *)
Definition reaches (i : nat) (n : node) : Prop :=
  match n with
  | Exec j => rtc edge i j
  | Arrive j => ∃ k, rtc edge i k ∧ (k < j)%nat ∧ (lane k = lane j ∨ lane k = PIPE_S)
  | Issue j => ∃ k, rtc edge i k ∧ (k < j)%nat ∧ lane k = PIPE_S
  end.

Lemma reaches_snode i j j' :
  (j < j')%nat → reaches i (snode j) → ∃ k, rtc edge i k ∧ (k < j')%nat ∧ lane k = PIPE_S.
Proof.
  unfold snode. intros Hj. destruct (decide (lane j = PIPE_S)); cbn [reaches].
  - intros H. exists j. done.
  - intros (k & H1 & H2 & H3). exists k. split; [done|]. split; [lia|done].
Qed.

Lemma hb_reaches i n : hb (Exec i) n → reaches i n.
Proof.
  intros H. revert n H. apply (rtc_ind_r (reaches i)); [by apply rtc_refl|]. intros m n _ Hp IH.
  destruct n as [j|j|j].
  - apply preds_issue in Hp as (j' & Hj & ->). by eapply reaches_snode.
  - apply preds_arrive in Hp as [->|(j' & Hj & Hl & ->)].
    + destruct IH as (k & ? & ? & ?). exists k. auto.
    + exists j'. auto.
  - apply preds_exec in Hp as [Hp|(j' & Hm & ->)]; [|eapply rtc_r; [exact IH|by right]].
    cbn [reaches]. destruct (decide (lane j = PIPE_S)) as [Hs|Hs].
    + destruct Hp as (j' & Hj & ->). apply (reaches_snode i j' j Hj) in IH as (k & Hk & Hlt & Hl).
      eapply rtc_r; [exact Hk|]. left. auto.
    + subst m. destruct IH as (k & Hk & Hlt & Hl). eapply rtc_r; [exact Hk|]. by left.
Qed.

Lemma edge_hb i j : edge i j → hb (Exec i) (Exec j).
Proof.
  intros [(Hlt & Hl)|Hm]; [|apply hb_pred, preds_exec; right; eauto].
  destruct (decide (lane j = PIPE_S)) as [Hj|Hj].
  - apply hb_pred, preds_exec. left. rewrite decide_True by done. exists i. split; [done|].
    unfold snode. rewrite decide_True; [done|]. destruct Hl; congruence.
  - apply (hb_trans _ _ (Arrive j)); [|apply hb_pred, preds_exec; left; by rewrite decide_False].
    destruct (decide (lane i = PIPE_S)) as [Hi|Hi].
    + apply (hb_trans _ _ (Issue j)); [|apply hb_pred, preds_arrive; by left].
      apply hb_pred, preds_issue. exists i. split; [done|]. unfold snode. by rewrite decide_True.
    + destruct Hl as [Hl|]; [|done]. apply hb_pred, preds_arrive. right. eauto.
Qed.

(** The nodes of the replay order executions as the program does. *)
Lemma exec_hb i j : hb (Exec i) (Exec j) ↔ i = j ∨ happens_before i j.
Proof.
  split.
  - intros H%hb_reaches. cbn [reaches] in H. apply rtc_tc in H as [->|H]; [by left|by right].
  - intros [->|H]; [apply rtc_refl|]. induction H as [i j H|i k j H _ IH]; [by apply edge_hb|].
    eapply hb_trans; [by apply edge_hb|done].
Qed.

(** ** Clocks *)

Context (b : Z).

Definition clk (n : node) : Z :=
  match n with
  | Issue _ => b * 12
  | Arrive i | Exec i => b * 12 + PipeType_code (lane i)
  end.

(** Events that advance the clock of their pipe. *)
Definition advances (e : SanEvent) : bool :=
  match eventInfo e with
  | MemInfo _ | DynamicInfo _ => true
  | SyncInfo i => match sync_opType i with SET_FLAG | WAIT_FLAG => true | _ => false end
  | _ => false
  end.

Definition ticks (n : node) : bool :=
  match n with
  | Issue _ | Arrive _ => true
  | Exec i => match prog !! i with Some e => advances e | None => false end
  end.

Lemma code_inj p q : PipeType_code p = PipeType_code q → p = q.
Proof. destruct p, q; simpl; lia || done. Qed.

Lemma clk_snode i : clk (snode i) = b * 12.
Proof. unfold snode. destruct (decide (lane i = PIPE_S)) as [H|]; [|done]. cbn [clk]. rewrite H. simpl. lia. Qed.

(** The nodes of a pipe, in program order, for the first [s] events. *)
Definition nodes (p : PipeType) (s : nat) : list node :=
  seq 0 s ≫= λ i, if decide (lane i = p) then [Arrive i; Exec i] else [].

Lemma nodes_S p s : nodes p (S s) = nodes p s ++ if decide (lane s = p) then [Arrive s; Exec s] else [].
Proof. unfold nodes. rewrite seq_S, bind_app. simpl. by rewrite app_nil_r. Qed.

Lemma elem_nodes n p s :
  n ∈ nodes p s ↔ ∃ i, (i < s)%nat ∧ lane i = p ∧ (n = Arrive i ∨ n = Exec i).
Proof.
  unfold nodes. rewrite list_elem_of_bind. setoid_rewrite elem_of_seq. split.
  - intros (i & Hn & Hi). destruct (decide (lane i = p)) as [Hl|]; [|by apply elem_of_nil in Hn].
    exists i. split; [lia|]. split; [done|]. set_solver.
  - intros (i & Hi & Hl & Hn). exists i. rewrite decide_True by done. split; [set_solver|lia].
Qed.

Lemma nodes_NoDup p s : NoDup (nodes p s).
Proof.
  induction s as [|s IH]; [constructor|]. rewrite nodes_S. apply NoDup_app. split; [done|]. split.
  - intros n (i & Hi & _ & Hn)%elem_nodes. destruct (decide (lane s = p)); [|apply not_elem_of_nil].
    intros H. assert (n = Arrive s ∨ n = Exec s) as H' by set_solver. destruct Hn, H'; simplify_eq; lia.
  - destruct (decide (lane s = p)); [|constructor]. apply NoDup_cons. split; [set_solver|]. apply NoDup_singleton.
Qed.

(** Where the node at the front of the rest stands. *)
Lemma nodes_split p s done n rest :
  nodes p s = done ++ n :: rest →
  ∃ i, (i < s)%nat ∧ lane i = p ∧
    ((n = Arrive i ∧ done = nodes p i) ∨ (n = Exec i ∧ done = nodes p i ++ [Arrive i])).
Proof.
  revert done n rest. induction s as [|s IH]; intros done n rest; [by destruct done|]. rewrite nodes_S.
  destruct (decide (lane s = p)) as [Hs|]; [|rewrite app_nil_r; intros H; apply IH in H as (i & ? & H); exists i; split; [lia|done]].
  destruct rest as [|x rest _] using rev_ind.
  { intros H. rewrite (app_assoc _ [Arrive s] [Exec s]) in H. apply app_inj_tail in H as [<- <-]. exists s. naive_solver lia. }
  rewrite (app_assoc _ [Arrive s] [Exec s]), app_comm_cons, app_assoc. intros [H _]%app_inj_tail.
  destruct rest as [|y rest _] using rev_ind.
  { apply app_inj_tail in H as [<- <-]. exists s. naive_solver lia. }
  rewrite app_comm_cons, app_assoc in H. apply app_inj_tail in H as [H _].
  apply IH in H as (i & ? & H). exists i. split; [lia|done].
Qed.
End program.
