(* ===== verification/InnerProofs.v ===== *)
(** The replay of [RaceAlgImpl] computes happens-before: a simulation of the
    loop by a log of processed nodes. *)
From stdpp Require Import base numbers option gmap sets relations strings list.
From S2P Require Import Prelude.
From S2P Require Import RecordDefs.
From S2P Require Import Platform.
From S2P Require Import EventDef.
From S2P Require Import VectorTime.
From S2P Require Import VectorTimeProofs.
From S2P Require Import EventContainer.
From S2P Require Import PipeLineProofs.
From S2P Require Import SyncContainers.
From S2P Require Import PipelineReplayer.
From S2P Require Import ReplayerProofs.
From S2P Require Import MemEventChecker.
From S2P Require Import Scanline.
From S2P Require Import RaceAlg.
From S2P Require Import RaceSanitizer.
From S2P Require Import Causality.
From S2P Require Import HappensBefore.
Import VT Cont Pipe AlgBase Inner.

(** ** Lists *)

Lemma at_index_nat {A} (l : list A) (i : Z) : 0 <= i → at_index l i = l !! Z.to_nat i.
Proof. intros H. unfold at_index. by rewrite (proj2 (Z.leb_le _ _)). Qed.

Lemma set_index_at {A} (l : list A) (i j : Z) (x : A) :
  0 <= i < Z.of_nat (length l) → at_index (set_index l i x) j = if decide (j = i) then Some x else at_index l j.
Proof.
  intros Hi. unfold at_index, set_index. destruct (decide (j = i)) as [->|Hne].
  - rewrite (proj2 (Z.leb_le 0 i)) by lia. apply list_lookup_insert_eq. lia.
  - destruct (Z.leb_spec 0 j); [|done]. apply list_lookup_insert_ne. lia.
Qed.

Lemma filter_same {A} (P P' : A → Prop) `{!∀ i, Decision (P i), !∀ i, Decision (P' i)} (l : list A) :
  (∀ x, x ∈ l → P x ↔ P' x) → filter P l = filter P' l.
Proof.
  induction l as [|x l IH]; intros Hp; [done|]. rewrite !filter_cons, IH by (intros y Hy; apply Hp; by right).
  specialize (Hp x ltac:(by left)). destruct (decide (P x)), (decide (P' x)); tauto || done.
Qed.

Lemma Forall2_mono_in {A C} (P P' : A → C → Prop) l k :
  Forall2 P l k → (∀ x y, x ∈ l → P x y → P' x y) → Forall2 P' l k.
Proof.
  induction 1 as [|x y l k Hp _ IH]; intros HP; constructor; [apply HP; [by left|done]|].
  apply IH. intros x' y' Hx'. apply HP. by right.
Qed.

(** What comes before an element of a filtered sequence. *)
Lemma filter_split (P : nat → Prop) `{!∀ i, Decision (P i)} (n : nat) (l1 : list nat) (i : nat) (l2 : list nat) :
  filter P (seq 0 n) = l1 ++ i :: l2 → l1 = filter P (seq 0 i) ∧ P i ∧ (i < n)%nat.
Proof.
  revert l2. induction n as [|n IH]; intros l2; [by destruct l1|]. rewrite seq_S, filter_app, filter_cons. simpl.
  destruct (decide (P n)); [|rewrite app_nil_r; intros Hf; apply IH in Hf as (? & ? & ?); split_and!; (done || lia)].
  destruct l2 as [|y l2 _] using rev_ind.
  - intros [<- <-]%app_inj_tail. split_and!; (done || lia).
  - rewrite app_comm_cons, app_assoc. intros [Hf _]%app_inj_tail. apply IH in Hf as (? & ? & ?). split_and!; (done || lia).
Qed.

(** A filter gains the one element that starts to qualify. *)
Lemma filter_gain (P P' : nat → Prop) `{!∀ i, Decision (P i), !∀ i, Decision (P' i)} n i :
  (i < n)%nat → P' i → (∀ j, j ≠ i → P' j ↔ P j) → (∀ j, (i <= j)%nat → ¬ P j) →
  filter P' (seq 0 n) = filter P (seq 0 n) ++ [i].
Proof.
  intros Hi Hp Hsame Hlater. replace n with (i + S (n - S i))%nat by lia. rewrite seq_app, !filter_app. simpl.
  rewrite (filter_cons_True P'), (filter_cons_False P) by (done || by apply Hlater).
  assert (∀ k m, (i < k)%nat → filter P' (seq k m) = [] ∧ filter P (seq k m) = []) as Hno.
  { intros k m. revert k. induction m as [|m IH]; intros k Hk; [done|]. simpl.
    rewrite !filter_cons_False; [apply IH; lia|apply Hlater; lia|]. rewrite Hsame by lia. apply Hlater. lia. }
  destruct (Hno (S i) (n - S i)%nat ltac:(lia)) as [-> ->]. rewrite app_nil_r. f_equal.
  apply filter_same. intros j Hj%elem_of_seq. apply Hsame. lia.
Qed.

Lemma race_weight_pos p e : (1 <= race_weight p e)%nat.
Proof. unfold race_weight. destruct (_ =? _); lia. Qed.

(** ** The invariant *)

Section inner.
Context (junk : SanEvent → MemOpInfo) (kt : KernelType) (dt : DeviceType) (B b : Z) (prog : list SanEvent).

(** Events that take part in the order only through pipes and flags. *)
Definition plain (e : SanEvent) : bool :=
  match eventInfo e with
  | FftsInfo _ | CrossInfo _ | BufInfo _ | TimeInfo _ => false
  | _ => true
  end.

(** Flags are set on their source and awaited on their destination pipe. *)
Definition flag_home (e : SanEvent) : bool :=
  match eventInfo e with
  | SyncInfo i =>
      match sync_opType i with
      | SET_FLAG => bool_decide (pipe e = sync_srcPipe i)
      | WAIT_FLAG => bool_decide (pipe e = sync_dstPipe i)
      | _ => true
      end
  | _ => true
  end.

Record prog_event (e : SanEvent) : Prop := {
  pe_block : GetEventBlockIndex e kt dt SINGLE_BLOCK_CHECK = b;
  pe_pipe : pipe e ≠ PIPE_SIZE;
  pe_plain : plain e = true;
  pe_home : flag_home e = true;
  pe_single : split_copy e = [e];
}.

Context (HB : B * 12 < 4294967296) (Hb : 0 <= b < B) (Hprog : ∀ e, e ∈ prog → prog_event e)
  (Hsize : Z.of_nat (length prog) * 6 < 2147483648).

#[local] Abbreviation lane := (lane prog).
#[local] Abbreviation preds := (preds prog).
#[local] Abbreviation clk := (clk prog b).
#[local] Abbreviation ticks := (ticks prog).
#[local] Abbreviation hb := (Causality.hb preds).
#[local] Abbreviation log := (Causality.log preds clk).
#[local] Abbreviation stored := (Causality.stored preds clk ticks).
#[local] Abbreviation current := (Causality.current preds clk ticks).
#[local] Abbreviation flag_at := (flag_at prog).

Definition que (p : PipeType) : Z := b * 12 + PipeType_code p.

Definition is_mem (i : nat) : Prop := ∃ e, prog !! i = Some e ∧ Replay.is_mem_event e = true.

(** The event the checker receives. *)
Definition timed (e : SanEvent) (t : VectorTime) : Race.MemEvent :=
  let e := Race.of_SanEvent (junk e) e in
  Race.mkMem (Race.serialNo e) (Race.barrierNo e) (Race.pipeSerialNo e) (Race.closedRingStartSerialNo e) t
    (Race.memInfo e) (Race.dynamicMemInfo e) (Race.loc e) (Race.pipe e) (Race.isAtomicMode e) (Race.isDynamic e).

(** A time event for node [Arrive i] is on its way. *)
Definition outstanding (l : list node) (i : nat) : Prop := Issue i ∈ l ∧ Arrive i ∉ l.

Definition executed (l : list node) (set : bool) (k : SyncDb.SyncEvent) (i : nat) : Prop := flag_at set k i ∧ Exec i ∈ l.
#[global] Instance executed_dec l set k i : Decision (executed l set k i).
Proof. unfold executed. apply _. Defined.

Definition flags (l : list node) (set : bool) (k : SyncDb.SyncEvent) : list nat :=
  filter (executed l set k) (seq 0 (length prog)).

(** The clocks, the pool, the flags and the collected events represent the log. *)
Record clocks (l : list node) (v : list VectorTime) : Prop := {
  k_len : Z.of_nat (length v) = B * 12;
  k_vc p : p ≠ PIPE_SIZE → ∃ t, at_index v (que p) = Some t ∧ current l t (que p);
}.

Record pool_ok (l : list node) (ptr : nat → nat) (P : TimeInfoPool) : Prop := {
  k_free : NoDup (freeList P) ∧ ∀ k, k ∈ freeList P → (k < length (pool P))%nat;
  k_ptr i : outstanding l i → ∃ t, pool P !! ptr i = Some t ∧ stored l t (Issue i) ∧ ptr i ∉ freeList P;
  k_inj i j : outstanding l i → outstanding l j → ptr i = ptr j → i = j;
}.

Definition flag_queue (l : list node) (k : SyncDb.SyncEvent) (vts : list VectorTime) : Prop :=
  ∃ taken L, flags l true k = taken ++ L ∧ length taken = length (flags l false k) ∧
    Forall2 (λ j t, stored l t (Exec j)) L vts.

Definition db_ok (l : list node) (db : SyncDb.SyncEventDataBase) : Prop := ∀ k, flag_queue l k (default [] (db !! k)).

Definition collected (c0 : Checker.MemEventChecker) (l : list node) (c : Checker.MemEventChecker) : Prop :=
  ∃ mem es, c = foldl (λ c e, Checker.PushEvent e c) c0 es ∧ NoDup mem ∧ (∀ i, i ∈ mem ↔ Exec i ∈ l ∧ is_mem i) ∧
    Forall2 (λ i m, ∃ e t, prog !! i = Some e ∧ m = timed e t ∧ stored l t (Exec i)) mem es.

Record core (c0 : Checker.MemEventChecker) (l : list node) (ptr : nat → nat)
    (x : RaceAlgBase * SyncDb.SyncEventDataBase) : Prop := {
  o_kt : kernelType_ x.1 = kt;
  o_dt : deviceType_ x.1 = dt;
  o_clocks : clocks l (vc_ x.1);
  o_pool : pool_ok l ptr (timeInfoPool_ x.1);
  o_db : db_ok l x.2;
  o_checker : collected c0 l (memChecker_ x.1);
}.

(** *** Clocks *)

Lemma que_range p : p ≠ PIPE_SIZE → 0 <= que p < B * 12.
Proof. intros Hp. unfold que. pose proof (pipe_code_range p). destruct p; simpl; lia || done. Qed.

Lemma que_inj p p' : que p = que p' → p = p'.
Proof. unfold que. intros H. apply code_inj. lia. Qed.

Lemma lane_ok i : lane i ≠ PIPE_SIZE.
Proof.
  unfold HappensBefore.lane. destruct (prog !! i) as [e|] eqn:He; [|done].
  apply (pe_pipe e), Hprog. by eapply list_elem_of_lookup_2.
Qed.

(** The pipe of a node. *)
Definition node_lane (n : node) : PipeType := match n with Issue _ => PIPE_S | Arrive i | Exec i => lane i end.

Lemma clk_que n : clk n = que (node_lane n).
Proof. destruct n; cbn; unfold que; simpl; lia. Qed.

Lemma node_lane_ok n : node_lane n ≠ PIPE_SIZE.
Proof. destruct n; [done|apply lane_ok..]. Qed.

Lemma clocks_at l v n : clocks l v → ∃ t, at_index v (clk n) = Some t ∧ current l t (clk n) ∧ 0 <= clk n < B * 12.
Proof.
  intros [_ H]. rewrite clk_que. destruct (H (node_lane n) (node_lane_ok n)) as (t & ? & ?). exists t.
  split; [done|]. split; [done|]. apply que_range, node_lane_ok.
Qed.

(** After a node its clock holds its time, the others are unchanged. *)
Lemma clocks_set l v n t :
  log (n :: l) → clocks l v → current (n :: l) t (clk n) → clocks (n :: l) (set_index v (clk n) t).
Proof.
  intros Hl Hc Ht. pose proof (clocks_at l v n Hc) as (_ & _ & _ & Hr). destruct Hc as [Hlen Hv]. split.
  - unfold set_index. by rewrite length_insert.
  - intros p Hp. rewrite set_index_at by lia. destruct (decide (que p = clk n)) as [->|Hne]; [eauto|].
    destruct (Hv p Hp) as (t' & ? & ?). exists t'. split; [done|]. apply current_cons; [done|congruence|done].
Qed.

Lemma clocks_keep l v n t :
  log (n :: l) → clocks l v → at_index v (clk n) = Some t → current (n :: l) t (clk n) → clocks (n :: l) v.
Proof.
  intros Hl Hc Ha Ht. pose proof (clocks_set l v n t Hl Hc Ht) as H.
  enough (set_index v (clk n) t = v) as <- by done. pose proof (clocks_at l v n Hc) as (_ & _ & _ & Hr).
  unfold set_index. rewrite at_index_nat in Ha by lia. by apply list_insert_id.
Qed.
(** *** Nodes that can be processed *)

(** What the queues guarantee; the set of a wait is missing. *)
Definition own_preds (n : node) : list node :=
  match n with
  | Exec i => if decide (lane i = PIPE_S) then snode prog <$> seq 0 i else [Arrive i]
  | _ => preds n
  end.

Record ready (l : list node) (n : node) : Prop := {
  r_log : log l;
  r_new : n ∉ l;
  r_own p : p ∈ own_preds n → p ∈ l;
  r_clk m : m ∈ l → clk m = clk n → hb m n;
  r_len : Z.of_nat (length l) < 4294967290;
}.

Lemma preds_own n p : p ∈ preds n ↔ p ∈ own_preds n ∨ ∃ i j, n = Exec i ∧ matched prog j i = true ∧ p = Exec j.
Proof.
  destruct n as [i|i|i]; cbn [own_preds]; [naive_solver..|]. cbn [HappensBefore.preds]. rewrite elem_of_app, elem_matched.
  naive_solver.
Qed.

Lemma own_clk n p : p ∈ own_preds n → clk p = clk n ∨ ∃ i, n = Arrive i ∧ p = Issue i.
Proof.
  destruct n as [i|i|i]; cbn [own_preds].
  - intros (j & _ & ->)%preds_issue. left. apply clk_snode.
  - intros [->|(j & _ & Hl & ->)]%preds_arrive; [eauto|]. left. cbn. by rewrite Hl.
  - destruct (decide (lane i = PIPE_S)) as [Hs|]; [|by intros ->%list_elem_of_singleton; left].
    intros (j & _ & ->)%elem_snode. left. rewrite clk_snode. cbn. rewrite Hs. simpl. lia.
Qed.

Lemma ready_log l n :
  ready l n → (∀ i j, n = Exec i → matched prog j i = true → Exec j ∈ l) → log (n :: l).
Proof.
  intros [? ? Ho ? ?] Hm. constructor; try done. intros p [Hp|(i & j & -> & Hp & ->)]%preds_own; [auto|by eapply Hm].
Qed.

Lemma matched_spec j i :
  matched prog j i = true ↔ ∃ k, flag_at true k j ∧ flag_at false k i ∧ before prog true k j = before prog false k i.
Proof.
  unfold matched, HappensBefore.flag_at. split.
  - destruct (prog !! j ≫= flag_op) as [ [[] k]|], (prog !! i ≫= flag_op) as [ [[] k']|]; try done.
    intros [->%bool_decide_eq_true ?%Nat.eqb_eq]%andb_true_iff. eauto.
  - intros (k & -> & -> & Hbef). rewrite bool_decide_eq_true_2 by done. by apply Nat.eqb_eq.
Qed.

Lemma code_u8 p p' : u8 (PipeType_code p) = u8 (PipeType_code p') → p = p'.
Proof. destruct p, p'; vm_compute; done. Qed.

(** The events of a flag are on one pipe. *)
Lemma flag_lane set k i j : flag_at set k i → flag_at set k j → lane i = lane j.
Proof.
  assert (∀ i, flag_at set k i → u8 (PipeType_code (lane i)) = if set then SyncDb.srcPipe k else SyncDb.dstPipe k) as Hf.
  { clear i j. intros i. unfold HappensBefore.flag_at, HappensBefore.lane. destruct (prog !! i) as [e|] eqn:He; [|done].
    simpl. pose proof (pe_home e (Hprog e ltac:(by eapply list_elem_of_lookup_2))) as Hh. unfold flag_home, flag_op in *.
    destruct (eventInfo e) as [|o| | | | | | | | | | | | |]; try done; destruct (sync_opType o); try done;
      apply bool_decide_eq_true in Hh; rewrite Hh; by intros [= <- <-]. }
  intros Hi%Hf Hj%Hf. apply code_u8. congruence.
Qed.

(** Before a processed event of a flag, every earlier one has been processed. *)
Lemma flag_closed l set k i j :
  log l → flag_at set k i → flag_at set k j → (j <= i)%nat → Exec i ∈ l → Exec j ∈ l.
Proof.
  intros Hl Hi Hj Hji Hin. destruct (decide (j = i)) as [->|]; [done|]. eapply log_hb; [done|exact Hin|].
  apply edge_hb. left. split; [lia|]. left. by eapply flag_lane.
Qed.

Lemma before_lt set k i j : flag_at set k i → (i < j)%nat → (before prog set k i < before prog set k j)%nat.
Proof.
  intros Hi Hij. unfold before. replace j with (i + S (j - S i))%nat by lia.
  rewrite seq_app, filter_app, length_app. simpl. rewrite filter_cons_True by done. simpl. lia.
Qed.

Lemma before_inj set k i j : flag_at set k i → flag_at set k j → before prog set k i = before prog set k j → i = j.
Proof.
  intros Hi Hj Heq. destruct (lt_eq_lt_dec i j) as [ [H|]|H]; [|done|]; eapply before_lt in H; try done; lia.
Qed.
Lemma ready_earlier l i j : ready l (Exec i) → (j < i)%nat → lane j = lane i → Exec j ∈ l.
Proof.
  intros [Hl _ Ho _ _] Hji Hlane. cbn [own_preds] in Ho. destruct (decide (lane i = PIPE_S)) as [Hs|Hs].
  - apply Ho, elem_snode. exists j. split; [done|]. unfold snode. rewrite decide_True; congruence.
  - eapply log_closed; [done|apply Ho; by left|]. apply preds_arrive. right. eauto.
Qed.

Lemma flag_lt set k i : flag_at set k i → (i < length prog)%nat.
Proof.
  unfold HappensBefore.flag_at. intros Hf. apply lookup_lt_is_Some_1. destruct (prog !! i); [by eexists|done].
Qed.

Lemma flags_keep l n set k : (∀ i, n = Exec i → ¬ flag_at set k i) → flags (n :: l) set k = flags l set k.
Proof. intros Hn. apply filter_same. intros i _. unfold executed. rewrite elem_of_cons. naive_solver. Qed.

Lemma flags_gain l set k i : ready l (Exec i) → flag_at set k i → flags (Exec i :: l) set k = flags l set k ++ [i].
Proof.
  intros Hr Hf. apply filter_gain; [by eapply flag_lt|by split; [|left]| |].
  - intros j Hj. unfold executed. rewrite elem_of_cons. naive_solver.
  - intros j Hij [Hfj Hin]. apply (r_new _ _ Hr). apply (flag_closed l set k j i); try done. apply Hr.
Qed.

Lemma flags_split l set k taken j L :
  log l → flags l set k = taken ++ j :: L → taken = filter (flag_at set k) (seq 0 j) ∧ flag_at set k j ∧ Exec j ∈ l.
Proof.
  intros Hl (-> & [Hf Hin] & _)%filter_split. split; [|done]. apply filter_same. intros x Hx%elem_of_seq.
  unfold executed. split; [tauto|]. intros Hfx. split; [done|]. eapply (flag_closed l set k j x); try done. lia.
Qed.

(** When a wait can be processed, every earlier one has been. *)
Lemma flags_waited l set k i : ready l (Exec i) → flag_at set k i → length (flags l set k) = before prog set k i.
Proof.
  intros Hr Hf. pose proof (flags_gain l set k i Hr Hf) as Hg. symmetry in Hg.
  assert (flags (Exec i :: l) set k = flags l set k ++ i :: []) as Hs by done.
  apply filter_split in Hs as (-> & _ & _). unfold before. f_equal. apply filter_same. intros x Hx%elem_of_seq.
  unfold executed. split; [tauto|]. intros Hfx. split; [done|]. apply elem_of_cons. right.
  apply (ready_earlier l i x Hr); [lia|]. by eapply flag_lane.
Qed.

(** The first unused set of the flag is the one the wait is paired with. *)
Lemma wait_match l k i j taken L :
  ready l (Exec i) → flag_at false k i → flags l true k = taken ++ j :: L → length taken = length (flags l false k) →
  matched prog j i = true ∧ Exec j ∈ l ∧ ∀ j', matched prog j' i = true → j' = j.
Proof.
  intros Hr Hf Hs Hlen. apply flags_split in Hs as (-> & Hj & Hin); [|apply Hr].
  rewrite (flags_waited l false k i Hr Hf) in Hlen. split; [apply matched_spec; eauto|]. split; [done|].
  intros j' (k' & Hj' & Hf' & Hb')%matched_spec. assert (k' = k) as -> by (unfold HappensBefore.flag_at in *; congruence).
  apply (before_inj true k); try done. unfold before at 2. congruence.
Qed.

Lemma no_match (l : list node) i : (∀ k, ¬ flag_at false k i) → ∀ i' j, Exec i = Exec i' → matched prog j i' = true → Exec j ∈ l.
Proof. intros Hn i' j [= <-] (k & _ & Hf & _)%matched_spec. by destruct (Hn k). Qed.

(** *** Parts of the state that a node leaves alone *)

Lemma stored_mono l n t x : log (n :: l) → stored l t x → stored (n :: l) t x.
Proof. apply stored_cons. Qed.

Lemma queue_keep l n k vts :
  log (n :: l) → (∀ i set, n = Exec i → ¬ flag_at set k i) → flag_queue l k vts → flag_queue (n :: l) k vts.
Proof.
  intros Hl Hn (taken & L & H1 & H2 & H3). exists taken, L. rewrite !flags_keep by naive_solver. split_and!; try done.
  eapply Forall2_impl; [exact H3|]. intros j t. by apply stored_mono.
Qed.

Lemma db_keep l n db : log (n :: l) → (∀ i set k, n = Exec i → ¬ flag_at set k i) → db_ok l db → db_ok (n :: l) db.
Proof. intros Hl Hn Hd k. apply queue_keep; [done|naive_solver|done]. Qed.

Lemma collected_keep c0 l n c :
  log (n :: l) → (∀ i, n = Exec i → ¬ is_mem i) → collected c0 l c → collected c0 (n :: l) c.
Proof.
  intros Hl Hn (mem & es & H1 & H2 & H3 & H4). exists mem, es. split_and!; try done.
  - intros i. rewrite H3, elem_of_cons. naive_solver.
  - eapply Forall2_impl; [exact H4|]. intros i m (e & t & ? & ? & ?). exists e, t. split_and!; [done..|]. by apply stored_mono.
Qed.

Lemma pool_keep l n ptr P :
  log (n :: l) → (∀ i, n ≠ Issue i) → pool_ok l ptr P → pool_ok (n :: l) ptr P.
Proof.
  intros Hl Hn [Hf Hp Hi].
  assert (∀ i, outstanding (n :: l) i → outstanding l i) as Ho.
  { unfold outstanding. intros i. rewrite !elem_of_cons. specialize (Hn i). naive_solver. }
  split; [done| |].
  - intros i (t & ? & ? & ?)%Ho%Hp. exists t. split_and!; [done| |done]. by apply stored_mono.
  - intros i j ?%Ho ?%Ho. auto.
Qed.
(** *** The clock of a node *)

Lemma clk_u32 n : is_u32 (clk n).
Proof. rewrite clk_que. pose proof (que_range (node_lane n) (node_lane_ok n)). unfold is_u32. lia. Qed.

#[local] Abbreviation repr := (Causality.repr clk ticks).

Lemma tick_node l x n t (D : node → Prop) :
  log (n :: l) → ticks n = true → Z.of_nat (length l) < 4294967290 → at_index (vc_ x) (clk n) = Some t →
  repr l t D → (∀ m, m ∈ l → D m ↔ hb m n) →
  ∃ t', tick (clk n) x = Some (upd_vc (set_index (vc_ x) (clk n) t') x) ∧ repr (n :: l) t' (λ m, hb m n).
Proof.
  intros Hl Ht Hlen Ha Hr HD. unfold tick. rewrite Ha. cbn [mbind option_bind].
  destruct (repr_tick preds clk ticks l n t D Hl Ht (clk_u32 n) Hlen Hr HD) as (t' & -> & Hr'). simpl. eauto.
Qed.

Lemma clock_set v n (t : VectorTime) : Z.of_nat (length v) = B * 12 → at_index (set_index v (clk n) t) (clk n) = Some t.
Proof.
  intros Hlen. rewrite set_index_at; [by rewrite decide_True|]. rewrite Hlen, clk_que. apply que_range, node_lane_ok.
Qed.

Lemma set_set v n (t t' : VectorTime) : set_index (set_index v (clk n) t) (clk n) t' = set_index v (clk n) t'.
Proof. unfold set_index. apply list_insert_insert_eq. Qed.

(** A node all of whose dependencies are on its clock, and that ticks. *)
Lemma tick_own l x n :
  ready l n → log (n :: l) → ticks n = true → (∀ p, p ∈ preds n → clk p = clk n) → clocks l (vc_ x) →
  ∃ t, tick (clk n) x = Some (upd_vc (set_index (vc_ x) (clk n) t) x) ∧ stored (n :: l) t n ∧
    clocks (n :: l) (set_index (vc_ x) (clk n) t) ∧ at_index (set_index (vc_ x) (clk n) t) (clk n) = Some t.
Proof.
  intros Hr Hl Ht Hown Hc. destruct (clocks_at l _ n Hc) as (t & Ha & Hcur & _).
  destruct (current_before preds clk ticks l n t Hl Hown Hcur) as [Hrep HD].
  destruct (tick_node l x n t _ Hl Ht (r_len _ _ Hr) Ha Hrep HD) as (t' & E & Hrep'). exists t'. split; [done|].
  split; [split; [by left|done]|]. split; [|apply clock_set, Hc].
  apply clocks_set; [done..|]. by apply repr_current.
Qed.

(** A node that also takes over the time of another one. *)
Lemma join_tick l x n s ts :
  ready l n → log (n :: l) → ticks n = true → (∀ p, p ∈ preds n → clk p = clk n ∨ p = s) → s ∈ preds n →
  stored l ts s → clocks l (vc_ x) →
  ∃ x' t, join (clk n) ts x = Some x' ∧ (∃ v, x' = upd_vc v x) ∧
    (∀ y, vc_ y = vc_ x' → tick (clk n) y = Some (upd_vc (set_index (vc_ x) (clk n) t) y)) ∧
    clocks (n :: l) (set_index (vc_ x) (clk n) t).
Proof.
  intros Hr Hl Ht Hown Hs Hst Hc. destruct (clocks_at l _ n Hc) as (t & Ha & Hcur & _). unfold join. rewrite Ha.
  cbn [mbind option_bind]. destruct (UpdateVectorTime_joined ts t) as (t1 & -> & Hj); [apply Hst|apply Hcur|].
  cbn [mbind option_bind]. destruct (join_before preds clk ticks l n s t ts t1 Hl Hown Hs Hcur Hst Hj) as [Hrep HD].
  eexists. destruct (tick_node l (upd_vc (set_index (vc_ x) (clk n) t1) x) n t1 _ Hl Ht (r_len _ _ Hr)
    (clock_set _ n t1 (k_len _ _ Hc)) Hrep HD) as (t' & E & Hrep'). exists t'. split; [done|]. split; [eauto|]. split.
  - intros y Hy. revert E. unfold tick. rewrite Hy. simpl. rewrite clock_set by apply Hc. simpl.
    destruct (VectorClock.UpdateLogicTime (clk n) t1) as [t2|]; simpl; [|done]. rewrite !set_set. intros [= E]. by rewrite E.
  - apply clocks_set; [done..|]. by apply repr_current.
Qed.
Lemma db_insert k k' q (db : SyncDb.SyncEventDataBase) :
  default [] (<[k := q]> db !! k') = if decide (k' = k) then q else default [] (db !! k').
Proof.
  destruct (decide (k' = k)) as [->|].
  - exact (f_equal (default []) (lookup_insert_eq (M := gmap SyncDb.SyncEvent) db k q)).
  - apply (f_equal (default [])), (lookup_insert_ne (M := gmap SyncDb.SyncEvent) db k k' q). congruence.
Qed.

(** *** The pool *)

Definition ptr_upd (ptr : nat → nat) (i k : nat) : nat → nat := λ j, if decide (j = i) then k else ptr j.

Lemma Alloc_slot t P P' k :
  NoDup (freeList P) → (∀ k, k ∈ freeList P → (k < length (pool P))%nat) → Alloc t P = (P', k) →
  NoDup (freeList P') ∧ (∀ k, k ∈ freeList P' → (k < length (pool P'))%nat) ∧ pool P' !! k = Some t ∧ (k ∉ freeList P') ∧
  ∀ j t', pool P !! j = Some t' → j ∉ freeList P → j ≠ k ∧ pool P' !! j = Some t' ∧ j ∉ freeList P'.
Proof.
  intros Hnd Hlt. unfold Alloc. destruct (last (freeList P)) as [k'|] eqn:Hlast; intros [= <- <-]; simpl.
  - apply last_Some in Hlast as [f Hf]. rewrite Hf in *. rewrite removelast_last.
    apply NoDup_app in Hnd as (Hnd & Hdis & _). split_and!; [done| | | |].
    + intros k Hk. rewrite length_insert. apply Hlt, elem_of_app. by left.
    + apply list_lookup_insert_eq, Hlt, elem_of_app. right. by left.
    + intros Hin. apply (Hdis _ Hin). by left.
    + intros j t' Hj Hnin. rewrite not_elem_of_app, list_elem_of_singleton in Hnin. destruct Hnin.
      split; [done|]. by rewrite list_lookup_insert_ne.
  - apply last_None in Hlast. rewrite Hlast in *. split_and!; [done|by intros ? ?%elem_of_nil| |apply not_elem_of_nil|].
    + by rewrite lookup_app_r, Nat.sub_diag by lia.
    + intros j t' Hj Hnin. pose proof (lookup_lt_Some _ _ _ Hj). split; [lia|]. by rewrite lookup_app_l.
Qed.

Lemma pool_alloc l ptr P i t P' k :
  log (Issue i :: l) → pool_ok l ptr P → stored (Issue i :: l) t (Issue i) → Alloc t P = (P', k) →
  pool_ok (Issue i :: l) (ptr_upd ptr i k) P'.
Proof.
  intros Hl [[Hnd Hlt] Hp Hi] Hst Ha. destruct (Alloc_slot t P P' k Hnd Hlt Ha) as (A1 & A2 & A3 & A4 & A5).
  inversion Hl as [|? ? _ Hnew _ _]; subst.
  assert (∀ j, outstanding (Issue i :: l) j → j = i ∨ j ≠ i ∧ outstanding l j) as Ho.
  { unfold outstanding. intros j. rewrite !elem_of_cons. destruct (decide (j = i)); naive_solver. }
  split; [done| |].
  - intros j [->|[Hne Hj] ]%Ho; unfold ptr_upd; [rewrite decide_True by done; eauto|]. rewrite decide_False by done.
    destruct (Hp j Hj) as (t' & H1 & H2 & H3). destruct (A5 _ _ H1 H3) as (_ & ? & ?). exists t'.
    split_and!; [done| |done]. by apply stored_mono.
  - assert (∀ j, outstanding l j → ptr j ≠ k) as Hk.
    { intros j Hj. destruct (Hp j Hj) as (t' & H1 & _ & H3). by apply (A5 _ _ H1 H3). }
    intros j1 j2 [->|[Hne1 H1] ]%Ho [->|[Hne2 H2] ]%Ho; unfold ptr_upd; try done; repeat case_decide; try done;
      intros E; try (by destruct (Hk _ H1)); try (by destruct (Hk _ H2)); auto.
Qed.

Lemma pool_free l ptr P i :
  log (Arrive i :: l) → outstanding l i → pool_ok l ptr P → pool_ok (Arrive i :: l) ptr (Free (Some (ptr i)) P).
Proof.
  intros Hl Hi [[Hnd Hlt] Hp Hinj]. destruct (Hp i Hi) as (ti & Hti & _ & Hni).
  assert (∀ j, outstanding (Arrive i :: l) j → j ≠ i ∧ outstanding l j) as Ho.
  { unfold outstanding. intros j. rewrite !elem_of_cons. naive_solver. }
  split.
  - simpl. split.
    + apply NoDup_app. split_and!; [done| |apply NoDup_singleton]. intros k Hk ->%list_elem_of_singleton. done.
    + intros k [Hk|Hk]%elem_of_app; [auto|]. apply list_elem_of_singleton in Hk as ->. by eapply lookup_lt_Some.
  - intros j [Hne Hj]%Ho. destruct (Hp j Hj) as (t & H1 & H2 & H3). exists t. split_and!; [done|by apply stored_mono|].
    simpl. rewrite not_elem_of_app, list_elem_of_singleton. split; [done|]. intros E. apply Hne. by apply Hinj.
  - intros j1 j2 [_ ?]%Ho [_ ?]%Ho. auto.
Qed.
(** *** One node of the replay *)

Lemma issue_step c0 l ptr x db i :
  ready l (Issue i) → core c0 l ptr (x, db) →
  ∃ v t P k, tick (clk (Issue i)) x = Some (upd_vc v x) ∧ at_index v (clk (Issue i)) = Some t ∧
    Alloc t (timeInfoPool_ x) = (P, k) ∧ log (Issue i :: l) ∧
    core c0 (Issue i :: l) (ptr_upd ptr i k) (upd_pool P (upd_vc v x), db).
Proof.
  intros Hr [? ? Hc Hp Hd Hk]. assert (log (Issue i :: l)) as Hl by by apply ready_log.
  assert (∀ p, p ∈ preds (Issue i) → clk p = clk (Issue i)) as Hown.
  { intros p [Hp'|(? & ? & ? & _)]%preds_own; [|done]. apply own_clk in Hp' as [|(? & ? & _)]; done. }
  destruct (tick_own l x (Issue i) Hr Hl eq_refl Hown Hc) as (t & E & Hst & Hc' & Ha).
  destruct (Alloc t (timeInfoPool_ x)) as [P k] eqn:Hal. eexists _, t, P, k. split_and!; try done. split; try done; simpl in *.
  - by eapply pool_alloc.
  - by apply db_keep.
  - by apply collected_keep.
Qed.

Lemma arrive_step c0 l ptr x db i :
  ready l (Arrive i) → core c0 l ptr (x, db) →
  ∃ x', ProcessTimeEvent (clk (Arrive i)) (Some (ptr i)) x = Some (x', PROCESS_OK) ∧ log (Arrive i :: l) ∧
    core c0 (Arrive i :: l) ptr (x', db).
Proof.
  intros Hr [? ? Hc Hp Hd Hk]. assert (log (Arrive i :: l)) as Hl by by apply ready_log. cbn [fst snd] in *.
  assert (Issue i ∈ preds (Arrive i)) as Hi by (apply preds_arrive; by left).
  assert (outstanding l i) as Ho by (split; [by apply (r_own _ _ Hr)|apply (r_new _ _ Hr)]).
  assert (∀ p, p ∈ preds (Arrive i) → clk p = clk (Arrive i) ∨ p = Issue i) as Hown.
  { intros p [Hp'|(? & ? & ? & _)]%preds_own; [|done]. apply own_clk in Hp' as [|(? & ? & ->)]; naive_solver. }
  destruct (k_ptr _ _ _ Hp i Ho) as (ts & Hts & Hst & _).
  destruct (join_tick l x (Arrive i) (Issue i) ts Hr Hl eq_refl Hown Hi Hst Hc) as (x1 & t & E1 & (v & ->) & E2 & Hc').
  unfold ProcessTimeEvent. rewrite Hts. cbn [mbind option_bind]. rewrite E1. cbn [mbind option_bind].
  rewrite E2 by done. cbn [mbind option_bind]. eexists. split; [done|]. split; [done|]. split; try done; simpl.
  - by apply pool_free.
  - by apply db_keep.
  - by apply collected_keep.
Qed.

Lemma time_step c0 l ptr x i p :
  ready l (Arrive i) → core c0 l ptr x →
  ∃ y, dispatch junk (clk (Arrive i)) (time_event 0 zero_loc p (ptr i)) x = Some (y, PROCESS_OK) ∧ log (Arrive i :: l) ∧
    core c0 (Arrive i :: l) ptr y.
Proof.
  destruct x as [x db]. intros Hr Hx. destruct (arrive_step c0 l ptr x db i Hr Hx) as (x' & E & ? & ?). exists (x', db).
  split; [|done]. unfold dispatch. cbn [eventInfo time_event]. by rewrite E.
Qed.

Section exec.
Context (c0 : Checker.MemEventChecker) (l : list node) (ptr : nat → nat) (x : RaceAlgBase) (db : SyncDb.SyncEventDataBase)
  (i : nat) (e : SanEvent) (Hr : ready l (Exec i)) (Hcore : core c0 l ptr (x, db)) (He : prog !! i = Some e).

Lemma exec_ticks : ticks (Exec i) = advances e.
Proof. cbn. by rewrite He. Qed.

Lemma exec_flag set k : flag_at set k i ↔ flag_op e = Some (set, k).
Proof. unfold HappensBefore.flag_at. by rewrite He. Qed.

Lemma exec_mem : is_mem i ↔ Replay.is_mem_event e = true.
Proof. unfold is_mem. rewrite He. naive_solver. Qed.

(** An event that waits for nothing depends on its own pipe only. *)
Lemma exec_own :
  (∀ k, flag_op e ≠ Some (false, k)) →
  log (Exec i :: l) ∧ ∀ p, p ∈ preds (Exec i) → clk p = clk (Exec i).
Proof.
  intros Hn. assert (∀ k, ¬ flag_at false k i) as Hn' by (intros k; rewrite exec_flag; apply Hn). split.
  - apply ready_log; [done|]. by apply no_match.
  - intros p [Hp|(i' & j & [= <-] & (k & _ & Hf & _)%matched_spec & _)]%preds_own; [|by destruct (Hn' k)].
    apply own_clk in Hp as [|(? & ? & _)]; done.
Qed.

Lemma exec_silent :
  advances e = false → log (Exec i :: l) ∧ core c0 (Exec i :: l) ptr (x, db).
Proof.
  intros Ha. assert (flag_op e = None ∧ Replay.is_mem_event e = false) as [Hf Hm].
  { unfold advances, flag_op, Replay.is_mem_event in *. destruct (eventInfo e); try done. by destruct (sync_opType i0). }
  destruct exec_own as [Hl Hown]; [by rewrite Hf|]. split; [done|]. destruct Hcore as [? ? Hc Hp Hd Hk]. simpl in *.
  split; try done; simpl.
  - destruct (clocks_at l _ (Exec i) Hc) as (t & Hat & Hcur & _).
    destruct (current_before preds clk ticks l (Exec i) t Hl Hown Hcur) as [Hrep HD].
    eapply clocks_keep; [done|done|exact Hat|]. apply repr_current; [done|].
    eapply repr_silent; [done| |done..]. by rewrite exec_ticks.
  - by apply pool_keep.
  - apply db_keep; [done| |done]. intros i' set k [= <-]. rewrite exec_flag, Hf. done.
  - apply collected_keep; [done| |done]. intros i' [= <-]. rewrite exec_mem, Hm. done.
Qed.

Lemma exec_push :
  Replay.is_mem_event e = true →
  ∃ x', push_timed junk (clk (Exec i)) e x = Some (x', PROCESS_OK) ∧ log (Exec i :: l) ∧ core c0 (Exec i :: l) ptr (x', db).
Proof.
  intros Hm. assert (flag_op e = None ∧ advances e = true) as [Hf Ha].
  { unfold advances, flag_op, Replay.is_mem_event in *. by destruct (eventInfo e). }
  destruct exec_own as [Hl Hown]; [by rewrite Hf|]. destruct Hcore as [? ? Hc Hp Hd Hk]. cbn [fst snd] in *.
  assert (ticks (Exec i) = true) as Ht by by rewrite exec_ticks.
  destruct (tick_own l x (Exec i) Hr Hl Ht Hown Hc) as (t & E & Hst & Hc' & Hat).
  unfold push_timed. rewrite E. cbn [mbind option_bind]. change (vc_ (upd_vc ?v x)) with v. rewrite Hat. cbn [mbind option_bind].
  eexists. split; [done|]. split; [done|]. split; try done; cbn [fst snd].
  - by apply pool_keep.
  - apply db_keep; [done| |done]. intros i' set k [= <-]. rewrite exec_flag, Hf. done.
  - destruct Hk as (mem & es & Hck & Hnd & Hin & Hes). exists (mem ++ [i]), (es ++ [timed e t]). split_and!.
    + rewrite foldl_app. by rewrite <- Hck.
    + apply NoDup_app. split_and!; [done| |apply NoDup_singleton]. intros j Hj ->%list_elem_of_singleton.
      apply Hin in Hj as [Hj _]. by apply (r_new _ _ Hr).
    + intros j. rewrite elem_of_app, list_elem_of_singleton, Hin, elem_of_cons. pose proof exec_mem as Hmem. naive_solver.
    + apply Forall2_app.
      * eapply Forall2_impl; [exact Hes|]. intros j m (e' & t' & ? & ? & ?). exists e', t'. split_and!; [done..|].
        by apply stored_mono.
      * constructor; [|constructor]. eauto 10.
Qed.

Context (o : SyncOpInfo) (Hsync : eventInfo e = SyncInfo o).

Lemma no_mem (l' : list node) c : log (Exec i :: l) → collected c0 l c → collected c0 (Exec i :: l) c.
Proof.
  intros Hl. apply collected_keep; [done|]. intros i' [= <-]. rewrite exec_mem. unfold Replay.is_mem_event.
  by rewrite Hsync.
Qed.

Lemma exec_set :
  sync_opType o = SET_FLAG →
  ∃ y, Inner.ProcessSyncEvent (clk (Exec i)) o (x, db) = Some (y, PROCESS_OK) ∧ log (Exec i :: l) ∧ core c0 (Exec i :: l) ptr y.
Proof.
  intros Ho. assert (flag_op e = Some (true, Replay.sync_key o)) as Hf by (unfold flag_op; by rewrite Hsync, Ho).
  assert (advances e = true) as Ha by (unfold advances; by rewrite Hsync, Ho).
  destruct exec_own as [Hl Hown]; [by rewrite Hf|]. destruct Hcore as [? ? Hc Hp Hd Hk]. cbn [fst snd] in *.
  destruct (tick_own l x (Exec i) Hr Hl ltac:(by rewrite exec_ticks) Hown Hc) as (t & E & Hst & Hc' & Hat).
  unfold Inner.ProcessSyncEvent. rewrite Ho, E. cbn [mbind option_bind]. change (vc_ (upd_vc ?v x)) with v. rewrite Hat.
  cbn [mbind option_bind]. eexists. split; [done|]. split; [done|]. split; try done; cbn [fst snd].
  - by apply pool_keep.
  - intros k. unfold SyncDb.Set'. rewrite db_insert. case_decide as E'.
    + subst k. specialize (Hd (Replay.sync_key o)) as (taken & L & H1 & H2 & H3). exists taken, (L ++ [i]).
      rewrite (flags_gain l true _ i Hr) by by apply exec_flag. rewrite H1, app_assoc. split; [done|].
      rewrite flags_keep by (intros i' [= <-]; rewrite exec_flag, Hf; naive_solver). split; [done|].
      apply Forall2_app; [|by constructor; [|constructor] ]. eapply Forall2_impl; [exact H3|]. intros j t'. by apply stored_mono.
    + apply queue_keep; [done| |apply Hd]. intros i' set [= <-]. rewrite exec_flag, Hf. congruence.
  - by apply no_mem.
Qed.

Lemma exec_wait :
  sync_opType o = WAIT_FLAG →
  (Inner.ProcessSyncEvent (clk (Exec i)) o (x, db) = Some ((x, db), PROCESS_STALLED) ∧ default [] (db !! Replay.sync_key o) = []) ∨
  ∃ y, Inner.ProcessSyncEvent (clk (Exec i)) o (x, db) = Some (y, PROCESS_OK) ∧ log (Exec i :: l) ∧ core c0 (Exec i :: l) ptr y.
Proof.
  intros Ho. set (k := Replay.sync_key o). assert (flag_op e = Some (false, k)) as Hf by (unfold flag_op; by rewrite Hsync, Ho).
  assert (advances e = true) as Ha by (unfold advances; by rewrite Hsync, Ho).
  unfold Inner.ProcessSyncEvent. rewrite Ho. unfold SyncDb.Get. fold k.
  destruct (db !! k) as [ [|vt q]|] eqn:Hk; [left; auto| |left; auto]. right.
  destruct Hcore as [? ? Hc Hp Hd Hck]. cbn [fst snd] in *. pose proof (Hd k) as (taken & L & H1 & H2 & H3).
  rewrite Hk in H3. simpl in H3. apply Forall2_cons_inv_r in H3 as (j & L' & Hst & H3 & ->).
  destruct (wait_match l k i j taken L' Hr ltac:(by apply exec_flag) H1 H2) as (Hm & Hj & Huniq).
  assert (log (Exec i :: l)) as Hl.
  { apply ready_log; [done|]. intros i' j' [= <-] Hm'. by rewrite (Huniq j' Hm'). }
  assert (∀ p, p ∈ preds (Exec i) → clk p = clk (Exec i) ∨ p = Exec j) as Hown.
  { intros p [Hp'|(i' & j' & [= <-] & Hm' & ->)]%preds_own; [|right; by rewrite (Huniq j' Hm')].
    apply own_clk in Hp' as [|(? & ? & _)]; [by left|done]. }
  assert (Exec j ∈ preds (Exec i)) as Hs by (apply preds_own; right; eauto).
  destruct (join_tick l x (Exec i) (Exec j) vt Hr Hl ltac:(by rewrite exec_ticks) Hown Hs Hst Hc)
    as (x1 & t & E1 & (v & ->) & E2 & Hc').
  rewrite E1. cbn [mbind option_bind]. rewrite E2 by done. cbn [mbind option_bind].
  eexists. split; [done|]. split; [done|]. split; try done; cbn [fst snd].
  - by apply pool_keep.
  - intros k'. rewrite db_insert. case_decide as E'.
    + subst k'. exists (taken ++ [j]), L'. rewrite <- app_assoc.
      rewrite flags_keep by (intros i' [= <-]; rewrite exec_flag, Hf; naive_solver). split; [done|].
      rewrite (flags_gain l false k i Hr) by by apply exec_flag. rewrite !length_app, H2. split; [done|].
      eapply Forall2_impl; [exact H3|]. intros j' t'. by apply stored_mono.
    + apply queue_keep; [done| |apply Hd]. intros i' set [= <-]. rewrite exec_flag, Hf. congruence.
  - by apply no_mem.
Qed.
End exec.

(** An event waits for a flag that has no time to hand out. *)
Definition starved (db : SyncDb.SyncEventDataBase) (e : SanEvent) : Prop :=
  ∃ k, flag_op e = Some (false, k) ∧ default [] (db !! k) = [].

Lemma exec_step c0 l ptr x i e :
  ready l (Exec i) → core c0 l ptr x → prog !! i = Some e →
  (dispatch junk (clk (Exec i)) e x = Some (x, PROCESS_STALLED) ∧ starved x.2 e) ∨
  ∃ y, dispatch junk (clk (Exec i)) e x = Some (y, PROCESS_OK) ∧ log (Exec i :: l) ∧ core c0 (Exec i :: l) ptr y.
Proof.
  intros Hr Hcore He. destruct x as [x db].
  assert (advances e = false → dispatch junk (clk (Exec i)) e (x, db) = Some ((x, db), PROCESS_OK) →
    ∃ y, dispatch junk (clk (Exec i)) e (x, db) = Some (y, PROCESS_OK) ∧ log (Exec i :: l) ∧ core c0 (Exec i :: l) ptr y) as Hsil.
  { intros Ha Hd. destruct (exec_silent c0 l ptr x db i e Hr Hcore He Ha). eauto. }
  assert (Replay.is_mem_event e = true → ∃ y, lift db (push_timed junk (clk (Exec i)) e x) = Some (y, PROCESS_OK) ∧
    log (Exec i :: l) ∧ core c0 (Exec i :: l) ptr y) as Hmem.
  { intros Hm. destruct (exec_push c0 l ptr x db i e Hr Hcore He Hm) as (x' & -> & ? & ?). simpl. eauto. }
  pose proof (pe_plain e (Hprog e ltac:(by eapply list_elem_of_lookup_2))) as Hpl.
  unfold dispatch, plain, advances, Replay.is_mem_event, starved, flag_op in *.
  destruct (eventInfo e) as [|o| | | | | | | | | | | | |] eqn:Hi; try done; auto.
  destruct (sync_opType o) eqn:Ho; try (right; apply Hsil; [done|]; unfold Inner.ProcessSyncEvent; by rewrite Ho).
  - right. by eapply exec_set.
  - destruct (exec_wait c0 l ptr x db i e Hr Hcore He o Hi Ho) as [ [-> Hq]|H]; [|by right]. left. eauto.
Qed.

(** ** The queues *)

(** What stands in the queue of a pipe for a node. *)
Definition queued (ptr : nat → nat) (n : node) (e : SanEvent) : Prop :=
  match n with
  | Issue _ => False
  | Arrive i => e = time_event 0 zero_loc (lane i) (ptr i)
  | Exec i => prog !! i = Some e
  end.

Definition nodes := nodes prog.

(** PIPE_S has issued the first [s] events; each pipe has processed a prefix of
    its nodes. *)
Record queues (s : nat) (l : list node) (ptr : nat → nat) (Q : list (list SanEvent)) : Prop := {
  u_len : Z.of_nat (length Q) = B * 12;
  u_main : Q !! Z.to_nat (que PIPE_S) = Some (drop s prog);
  u_pipe p : p ≠ PIPE_S → p ≠ PIPE_SIZE →
    ∃ fin pend q, Q !! Z.to_nat (que p) = Some q ∧ nodes p s = fin ++ pend ∧ Forall2 (queued ptr) pend q ∧
      ∀ n, n ∈ nodes p s → n ∈ l ↔ n ∈ fin;
  u_snode i : (i < s)%nat → snode prog i ∈ l;
  u_log n : n ∈ l → (∃ i, (i < s)%nat ∧ n = snode prog i) ∨ ∃ p, p ≠ PIPE_S ∧ p ≠ PIPE_SIZE ∧ n ∈ nodes p s;
  u_other j q : Q !! j = Some q → (∀ p, p ≠ PIPE_SIZE → j ≠ Z.to_nat (que p)) → q = [];
  u_issued : (s <= length prog)%nat;
}.

Lemma log_NoDup l : log l → NoDup l.
Proof. induction 1; constructor; auto. Qed.

Lemma nodes_clk p s n : n ∈ nodes p s → clk n = que p.
Proof. intros (i & _ & <- & [-> | ->])%elem_nodes; done. Qed.

Lemma queues_len s l ptr Q : log l → queues s l ptr Q → Z.of_nat (length l) < 4294967290.
Proof.
  intros Hl Hq. set (all := (Issue <$> seq 0 s) ++ (Arrive <$> seq 0 s) ++ (Exec <$> seq 0 s)).
  assert (l ⊆+ all) as Hsub%submseteq_length.
  { apply NoDup_submseteq; [by apply log_NoDup|]. intros n Hn. unfold all. rewrite !elem_of_app, !list_elem_of_fmap.
    setoid_rewrite elem_of_seq. apply (u_log _ _ _ _ Hq) in Hn as [(i & Hi & ->)|(p & _ & _ & (i & Hi & _ & [-> | ->])%elem_nodes)].
    - unfold snode. destruct (decide _); [right; right|left]; exists i; (split; [done|lia]).
    - right; left. exists i. split; [done|lia].
    - right; right. exists i. split; [done|lia]. }
  unfold all in Hsub. rewrite !length_app, !length_fmap, !length_seq in Hsub. pose proof (u_issued _ _ _ _ Hq). lia.
Qed.

Lemma snode_lt s i n : (i < s)%nat → n = snode prog i → n ≠ Issue s ∧ n ≠ Exec s ∧ n ≠ Arrive s.
Proof. intros Hi ->. unfold snode. destruct (decide _); split_and!; intros [=]; lia. Qed.

Lemma node_lt p s n : n ∈ nodes p s → n ≠ Issue s ∧ n ≠ Exec s ∧ n ≠ Arrive s.
Proof. intros (i & Hi & _ & [-> | ->])%elem_nodes; split_and!; intros [=]; lia. Qed.

(** The next event of PIPE_S. *)
Lemma ready_main s l ptr Q : log l → queues s l ptr Q → (s < length prog)%nat → ready l (snode prog s).
Proof.
  intros Hl Hq Hs. assert (snode prog s = Issue s ∨ snode prog s = Exec s) as Hcase.
  { unfold snode. destruct (decide _); auto. }
  assert (∀ p, p ∈ own_preds (snode prog s) ↔ ∃ j, (j < s)%nat ∧ p = snode prog j) as Hown.
  { intros p. unfold snode. destruct (decide (lane s = PIPE_S)) as [E|E]; cbn [own_preds].
    - rewrite decide_True by done. apply elem_snode.
    - apply preds_issue. }
  split; [done| | | |by eapply queues_len].
  - intros Hin. apply (u_log _ _ _ _ Hq) in Hin as [(i & Hi & E)|(p & _ & _ & Hin)].
    + apply (snode_lt _ _ _ Hi) in E. naive_solver.
    + apply node_lt in Hin. naive_solver.
  - intros p (j & Hj & ->)%Hown. by apply (u_snode _ _ _ _ Hq).
  - intros m Hm Hc. rewrite clk_snode in Hc. apply (u_log _ _ _ _ Hq) in Hm as [(i & Hi & ->)|(p & Hp & Hps & Hm)].
    + apply hb_pred, preds_own. left. apply Hown. eauto.
    + rewrite (nodes_clk _ _ _ Hm) in Hc. destruct Hp. apply que_inj. rewrite Hc. unfold que. simpl. lia.
Qed.

(** The next node of another pipe. *)
Lemma ready_pipe s l ptr Q p fin n pend :
  log l → queues s l ptr Q → p ≠ PIPE_S → nodes p s = fin ++ n :: pend → (∀ n, n ∈ nodes p s → n ∈ l ↔ n ∈ fin) → ready l n.
Proof.
  intros Hl Hq Hp Hn Hfin. pose proof (nodes_NoDup prog p s) as Hnd. fold nodes in Hnd. rewrite Hn in Hnd.
  assert (n ∈ nodes p s) as Hin by (rewrite Hn; apply elem_of_app; right; by left).
  assert (n ∉ fin) as Hnew. { apply NoDup_app in Hnd as (_ & Hd & _). intros Hf. apply (Hd _ Hf). by left. }
  assert (∀ m, m ∈ fin → m ∈ l) as Hl'. { intros m Hm. apply Hfin; [|done]. rewrite Hn. apply elem_of_app. by left. }
  assert (∀ m, m ∈ l → clk m = que p → m ∈ fin) as Hclk.
  { intros m Hm Hc. apply (u_log _ _ _ _ Hq) in Hm as Hm'. destruct Hm' as [(i & Hi & ->)|(p' & Hp' & Hps' & Hm')].
    - rewrite clk_snode in Hc. destruct Hp. symmetry. apply que_inj. rewrite <- Hc. unfold que. simpl. lia.
    - rewrite (nodes_clk _ _ _ Hm') in Hc. apply que_inj in Hc as ->. by apply Hfin. }
  assert (∀ m i, lane i = p → m ∈ nodes p i → hb m (Arrive i)) as Hprev.
  { intros m i Hlane (j & Hj & Hlj & Hm)%elem_nodes. apply (hb_trans _ _ (Exec j)).
    - destruct Hm as [-> | ->]; [|apply rtc_refl]. apply hb_pred, preds_exec. left. rewrite decide_False; congruence.
    - apply hb_pred, preds_arrive. right. exists j. split; [done|]. split; [congruence|done]. }
  pose proof (nodes_clk _ _ _ Hin) as Hcn.
  pose proof (nodes_split prog p s fin n pend Hn) as (i & Hi & Hlane & [ [-> ->]|[-> ->] ]).
  - split; [done|by rewrite Hfin| | |by eapply queues_len].
    + cbn [own_preds]. intros m [->|(j & Hj & Hlj & ->)]%preds_arrive.
      * pose proof (u_snode _ _ _ _ Hq i Hi) as Hsn. unfold snode in Hsn. rewrite decide_False in Hsn; [done|congruence].
      * apply Hl', elem_nodes. exists j. split_and!; [done|congruence|by right].
    + intros m Hm Hc. apply Hprev; [done|]. apply Hclk; [done|]. by rewrite Hc.
  - split; [done|by rewrite Hfin| | |by eapply queues_len].
    + cbn [own_preds]. rewrite decide_False by congruence. intros m ->%list_elem_of_singleton.
      apply Hl', elem_of_app. right. by left.
    + intros m Hm Hc. apply (hb_trans _ _ (Arrive i)).
      * rewrite Hcn in Hc. apply Hclk in Hc; [|done]. apply elem_of_app in Hc as [Hc|Hc]; [by apply Hprev|].
        apply list_elem_of_singleton in Hc as ->. apply rtc_refl.
      * apply hb_pred, preds_exec. left. rewrite decide_False; congruence.
Qed.

Lemma que_nat p p' : Z.to_nat (que p) = Z.to_nat (que p') → p = p'.
Proof. intros E. apply que_inj. revert E. unfold que. pose proof (pipe_code_range p). pose proof (pipe_code_range p'). lia. Qed.

Lemma que_lookup p p' q (Q : list (list SanEvent)) :
  Z.of_nat (length Q) = B * 12 → p ≠ PIPE_SIZE →
  <[Z.to_nat (que p) := q]> Q !! Z.to_nat (que p') = if decide (p' = p) then Some q else Q !! Z.to_nat (que p').
Proof.
  intros Hlen Hp. destruct (decide (p' = p)) as [->|Hne].
  - apply list_lookup_insert_eq. pose proof (que_range p Hp). lia.
  - apply list_lookup_insert_ne. intros ?%que_nat. congruence.
Qed.

Lemma que_other p q j r (Q : list (list SanEvent)) :
  (∀ p, p ≠ PIPE_SIZE → j ≠ Z.to_nat (que p)) → p ≠ PIPE_SIZE → <[Z.to_nat (que p) := q]> Q !! j = Some r → Q !! j = Some r.
Proof. intros Hj Hp. rewrite list_lookup_insert_ne; [done|]. intros E. by apply (Hj p). Qed.

(** The front of the queue of a pipe is processed. *)
Lemma queues_pop s l ptr Q p fin n pend q :
  queues s l ptr Q → p ≠ PIPE_S → p ≠ PIPE_SIZE → nodes p s = fin ++ n :: pend → Forall2 (queued ptr) pend q →
  (∀ m, m ∈ nodes p s → m ∈ l ↔ m ∈ fin) → queues s (n :: l) ptr (<[Z.to_nat (que p) := q]> Q).
Proof.
  intros [U1 U2 U3 U4 U5 U6 U7] Hp Hps Hn Hpend Hfin.
  assert (n ∈ nodes p s) as Hin by (rewrite Hn; apply elem_of_app; right; by left). split; try done.
  - by rewrite length_insert.
  - rewrite que_lookup, decide_False by congruence. done.
  - intros p' Hp' Hps'. rewrite que_lookup by done. destruct (decide (p' = p)) as [->|Hne].
    + exists (fin ++ [n]), pend, q. split_and!; [done|by rewrite Hn, <- app_assoc|done|]. intros m Hm.
      rewrite elem_of_cons, elem_of_app, list_elem_of_singleton, (Hfin m Hm). tauto.
    + destruct (U3 p' Hp' Hps') as (fin' & pend' & q' & H1 & H2 & H3 & H4). exists fin', pend', q'. split_and!; try done.
      intros m Hm. rewrite elem_of_cons, <- (H4 m Hm). split; [|by right]. intros [->|]; [|done]. destruct Hne.
      apply que_inj. by rewrite <- (nodes_clk _ _ _ Hm), <- (nodes_clk _ _ _ Hin).
  - intros i Hi. apply elem_of_cons. right. auto.
  - intros m [->|Hm]%elem_of_cons; [right; eauto|auto].
  - intros j r Hj Hno. apply (U6 j); [|done]. by eapply que_other.
Qed.

(** PIPE_S is done with an event. *)
Lemma queues_next s l ptr ptr' Q e :
  queues s l ptr Q → prog !! s = Some e → (∀ i, (i < s)%nat → ptr' i = ptr i) →
  (∀ p, p ≠ PIPE_S → p ≠ PIPE_SIZE → ∃ q, Q !! Z.to_nat (que p) = Some q) ∧
  ∀ Q', Z.of_nat (length Q') = B * 12 → Q' !! Z.to_nat (que PIPE_S) = Some (drop (S s) prog) →
    (∀ p, p ≠ PIPE_S → p ≠ PIPE_SIZE → ∀ q, Q !! Z.to_nat (que p) = Some q →
       Q' !! Z.to_nat (que p) = Some (q ++ if decide (lane s = p) then [time_event 0 zero_loc (lane s) (ptr' s); e] else [])) →
    (∀ j q, Q' !! j = Some q → (∀ p, p ≠ PIPE_SIZE → j ≠ Z.to_nat (que p)) → Q !! j = Some q) →
    queues (S s) (snode prog s :: l) ptr' Q'.
Proof.
  intros [U1 U2 U3 U4 U5 U6 U7] He Hptr. split.
  { intros p Hp Hps. destruct (U3 p Hp Hps) as (_ & _ & q & H & _). eauto. }
  intros Q' V1 V2 V3 V4. assert (∀ p, p ≠ PIPE_S → ∀ m, m ∈ nodes p s → m ≠ snode prog s) as Hne.
  { intros p _ m Hm. apply node_lt in Hm. unfold snode. destruct (decide _); naive_solver. }
  split; try done.
  - intros p Hp Hps. destruct (U3 p Hp Hps) as (fin & pend & q & H1 & H2 & H3 & H4).
    assert (Forall2 (queued ptr') pend q) as H3'.
    { eapply Forall2_mono_in; [exact H3|]. intros n e' Hn. assert (n ∈ nodes p s) as (i & Hi & _ & [-> | ->])%elem_nodes.
      { rewrite H2. apply elem_of_app. by right. } { simpl. by rewrite Hptr. } { done. } }
    exists fin, (pend ++ if decide (lane s = p) then [Arrive s; Exec s] else []), (q ++ if decide (lane s = p) then [time_event 0 zero_loc (lane s) (ptr' s); e] else []).
    split; [by apply V3|]. split; [unfold nodes in *; by rewrite nodes_S, H2, app_assoc|]. split.
    + apply Forall2_app; [done|]. destruct (decide (lane s = p)); [|constructor]. by repeat constructor.
    + intros n Hn. unfold nodes in *. rewrite nodes_S in Hn. apply elem_of_app in Hn as [Hn|Hn].
      * rewrite elem_of_cons, <- (H4 n Hn). specialize (Hne p Hp n Hn). naive_solver.
      * destruct (decide (lane s = p)) as [Hl|]; [|by apply elem_of_nil in Hn].
        assert (n = Arrive s ∨ n = Exec s) as Hn' by set_solver. split; intros Hin; exfalso.
        -- apply elem_of_cons in Hin as [->|Hin].
           { unfold snode in Hn'. rewrite decide_False in Hn' by congruence. naive_solver. }
           apply U5 in Hin as [(i & Hi & ->)|(p' & _ & _ & Hin)].
           { pose proof (snode_lt s i _ Hi eq_refl). naive_solver. }
           { apply node_lt in Hin. naive_solver. }
        -- assert (n ∈ nodes p s) as Hin'%node_lt; [|naive_solver]. unfold nodes. rewrite H2. apply elem_of_app. by left.
  - intros i Hi. apply elem_of_cons. destruct (decide (i = s)) as [->|]; [by left|]. right. apply U4. lia.
  - intros n [->|Hn]%elem_of_cons; [left; exists s; split; [lia|done]|]. apply U5 in Hn as [(i & Hi & ->)|(p & Hp & Hps & Hn)].
    + left. exists i. split; [lia|done].
    + right. exists p. split_and!; try done. unfold nodes in *. rewrite nodes_S. apply elem_of_app. by left.
  - intros j q Hj Hno. apply (U6 j); [|done]. by eapply V4.
  - by eapply lookup_lt_Some.
Qed.

(** ** The replay loop *)

Lemma code_pipe d : 0 <= d < 12 → ∃ p, p ≠ PIPE_SIZE ∧ PipeType_code p = d.
Proof.
  intros Hd. exists (default PIPE_S ([PIPE_S; PIPE_V; PIPE_M; PIPE_MTE1; PIPE_MTE2; PIPE_MTE3; PIPE_ALL; PIPE_MTE4;
    PIPE_MTE5; PIPE_V2; PIPE_FIX; PIPE_S_CAL] !! Z.to_nat d)).
  assert (d = 0 ∨ d = 1 ∨ d = 2 ∨ d = 3 ∨ d = 4 ∨ d = 5 ∨ d = 6 ∨ d = 7 ∨ d = 8 ∨ d = 9 ∨ d = 10 ∨ d = 11) as Hc by lia.
  repeat destruct Hc as [->|Hc]; [..|subst d]; done.
Qed.

Lemma que_dec j : (∃ p, p ≠ PIPE_SIZE ∧ j = Z.to_nat (que p)) ∨ ∀ p, p ≠ PIPE_SIZE → j ≠ Z.to_nat (que p).
Proof.
  destruct (decide (0 <= Z.of_nat j - b * 12 < 12)) as [Hd|Hd].
  - left. destruct (code_pipe _ Hd) as (p & Hp & Hc). exists p. split; [done|]. unfold que. lia.
  - right. intros p Hp ->. apply Hd. pose proof (que_range p Hp). pose proof (pipe_code_range p).
    rewrite Z2Nat.id by lia. unfold que. destruct p; simpl; lia || done.
Qed.

Lemma pipe_of_que p : p ≠ PIPE_SIZE → pipe_of (Z.to_nat (que p)) = PipeType_code p.
Proof.
  intros Hp. pose proof (que_range p Hp). unfold pipe_of. rewrite Z2Nat.id by lia. unfold que.
  destruct p; simpl; zdiv || done.
Qed.

Section loop.
Context (c0 : Checker.MemEventChecker).

Definition inner_inv (Q : list (list SanEvent)) (x : RaceAlgBase * SyncDb.SyncEventDataBase) : Prop :=
  ∃ s l ptr, log l ∧ core c0 l ptr x ∧ queues s l ptr Q.

Definition inner_blocked (x : RaceAlgBase * SyncDb.SyncEventDataBase) (i : nat) (e : SanEvent) : Prop :=
  starved x.2 e ∧ pipe_of i = PipeType_code (pipe e).

Section step.
Context (c : EventContainer) (x : RaceAlgBase * SyncDb.SyncEventDataBase) (s : nat) (l : list node) (ptr : nat → nat)
  (e : SanEvent) (rest : list SanEvent) (p : PipeType).
Context (Hc : cont_ok c) (Hd : deviceNum_ c = 1) (Hl : log l) (Hx : core c0 l ptr x) (Hq : queues s l ptr (conts c))
  (Ht : Z.of_nat (total race_weight (conts c)) < 2147483648)
  (Hp : p ≠ PIPE_SIZE) (Hcur : cur c = Z.to_nat (que p)) (Hfront : conts c !! cur c = Some (e :: rest)).

Lemma cur_pipe : GetPipeIndex c = PipeType_code p ∧ GetQueIndex c = que p.
Proof.
  destruct (cur_facts (λ _, []) c Hc Hd) as (Hpi & Hqi & _). rewrite Hcur in Hpi, Hqi. rewrite pipe_of_que in Hpi by done.
  pose proof (que_range p Hp). rewrite Z2Nat.id in Hqi by lia. done.
Qed.

(** What the step has to show when the event is processed in place. *)
Definition in_place (x' : RaceAlgBase * SyncDb.SyncEventDataBase) : Prop :=
  inner_inv (<[cur c := rest]> (conts c)) x' ∧
  (total race_weight (<[cur c := rest]> (conts c)) < total race_weight (conts c))%nat.

Lemma pop_weight : (total race_weight (<[cur c := rest]> (conts c)) < total race_weight (conts c))%nat.
Proof.
  pose proof (total_insert race_weight _ _ _ rest Hfront) as E. rewrite qweight_cons in E.
  pose proof (race_weight_pos (pipe_of (cur c)) e). lia.
Qed.

(** The event is processed on its own pipe. *)
Definition executes : Prop :=
  (dispatch junk (que p) e x = Some (x, PROCESS_STALLED) ∧ starved x.2 e) ∨
  ∃ y, dispatch junk (que p) e x = Some (y, PROCESS_OK) ∧ in_place y.

Lemma step_other : p ≠ PIPE_S → pipe e = p ∧ executes.
Proof.
  intros Hs. destruct (u_pipe _ _ _ _ Hq p Hs Hp) as (fin & pend & q & H1 & H2 & H3 & H4).
  rewrite <- Hcur, Hfront in H1. injection H1 as <-. apply Forall2_cons_inv_r in H3 as (n & pend' & Hn & H3 & ->).
  pose proof (ready_pipe s l ptr _ p fin n pend' Hl Hq Hs H2 H4) as Hr.
  assert (queues s (n :: l) ptr (<[cur c := rest]> (conts c))) as Hq' by (rewrite Hcur; by eapply queues_pop).
  assert (n ∈ nodes p s) as Hin by (rewrite H2; apply elem_of_app; right; by left).
  pose proof (nodes_clk _ _ _ Hin) as Hclk. apply elem_nodes in Hin as (i & Hi & Hlane & [-> | ->]).
  - cbn [queued] in Hn. split; [by rewrite Hn|]. right. rewrite Hn.
    destruct (time_step c0 l ptr x i (lane i) Hr Hx) as (y & E & Hl' & Hx'). rewrite Hclk in E. exists y. split; [done|].
    split; [|apply pop_weight]. exists s, (Arrive i :: l), ptr. done.
  - cbn [queued] in Hn. split; [unfold HappensBefore.lane in Hlane; by rewrite Hn in Hlane|].
    destruct (exec_step c0 l ptr x i e Hr Hx Hn) as [H|(y & E & Hl' & Hx')]; rewrite Hclk in *; [by left|right].
    exists y. split; [done|]. split; [|apply pop_weight]. exists s, (Exec i :: l), ptr. done.
Qed.

Lemma main_front : p = PIPE_S → prog !! s = Some e ∧ rest = drop (S s) prog ∧ lane s = pipe e ∧ pipe e ≠ PIPE_SIZE.
Proof.
  intros ->. pose proof (u_main _ _ _ _ Hq) as Hm. rewrite <- Hcur, Hfront in Hm. injection Hm as Hm.
  assert (prog !! s = Some e) as He.
  { pose proof (lookup_drop prog s 0) as E. rewrite <- Hm, Nat.add_0_r in E. done. }
  rewrite (drop_S _ _ _ He) in Hm. injection Hm as Hm. split_and!; try done.
  - unfold HappensBefore.lane. by rewrite He.
  - apply (pe_pipe e), Hprog. by eapply list_elem_of_lookup_2.
Qed.

Lemma step_main : p = PIPE_S → pipe e = PIPE_S → executes.
Proof.
  intros Ep Hpe. destruct (main_front Ep) as (He & Hrest & Hlane & _). rewrite Hpe in Hlane.
  pose proof (ready_main s l ptr _ Hl Hq ltac:(by eapply lookup_lt_Some)) as Hr.
  assert (snode prog s = Exec s) as Hsn by (unfold snode; by rewrite decide_True).
  assert (clk (Exec s) = que p) as Hclk by (rewrite clk_que, Ep; cbn [node_lane]; by rewrite Hlane).
  destruct (queues_next s l ptr ptr _ e Hq He ltac:(done)) as [_ Hnext]. rewrite Hsn in *.
  destruct (exec_step c0 l ptr x s e Hr Hx He) as [H|(y & E & Hl' & Hx')]; rewrite Hclk in *; [by left|right].
  exists y. split; [done|]. split; [|apply pop_weight]. exists (S s), (Exec s :: l), ptr. split; [done|]. split; [done|].
  rewrite Hcur, Ep. pose proof (u_len _ _ _ _ Hq) as Hlen. apply Hnext.
  - by rewrite length_insert.
  - rewrite que_lookup, decide_True by done. by rewrite Hrest.
  - intros p' Hp' Hps' q Hq'. rewrite que_lookup, decide_False by done. rewrite decide_False by congruence.
    by rewrite app_nil_r.
  - intros j q Hj Hno. by apply (que_other PIPE_S rest j q (conts c) Hno).
Qed.

(** Two pushes to the queue of a pipe. *)
Lemma push_two (te : SanEvent) p' q :
  p' ≠ PIPE_SIZE → split_copy te = [te] → split_copy e = [e] → conts c !! Z.to_nat (que p') = Some q →
  ∃ c1 c', Push te p' b 0 c = Some c1 ∧ Push e p' b 0 c1 = Some c' ∧ cont_ok c' ∧ same_pos c c' ∧
    conts c' = <[Z.to_nat (que p') := q ++ [te; e]]> (conts c).
Proof.
  intros Hp' Hte Hse Hq'. assert (0 <= PipeType_code p' < 12) as Hcode by (destruct p'; simpl; lia || done).
  pose proof (u_len _ _ _ _ Hq) as Hlen. rewrite length_conts, (c_len _ Hc), Hd in Hlen.
  pose proof (total_queue_length race_weight race_weight_pos _ _ _ Hq') as Hll. pose proof (lookup_lt_Some _ _ _ Hq').
  destruct (Push_cont te p' b c q Hc Hcode ltac:(lia) Hd Hq' ltac:(lia)) as (c1 & E1 & Hc1 & Hs1 & Hq1).
  fold (que p') in Hq1. rewrite Hte in Hq1.
  assert (deviceNum_ c1 = deviceNum_ c ∧ maxBlockNum_ c1 = maxBlockNum_ c) as [Hd1 Hm1] by (rewrite Hs1; done).
  destruct (Push_cont e p' b c1 (q ++ [te]) Hc1 Hcode ltac:(lia) ltac:(congruence)) as (c' & E2 & Hc' & Hs2 & Hq2).
  { fold (que p'). rewrite Hq1. by apply list_lookup_insert_eq. }
  { rewrite length_app. simpl. lia. }
  fold (que p') in Hq2. rewrite Hse, Hq1, list_insert_insert_eq, <- app_assoc in Hq2.
  exists c1, c'. split_and!; try done. by eapply same_pos_trans.
Qed.

Lemma issue_weight p' te q :
  p = PIPE_S → pipe e = p' → pipe te = p' → p' ≠ PIPE_S → p' ≠ PIPE_SIZE → conts c !! Z.to_nat (que p') = Some q →
  (total race_weight (<[cur c := rest]> (<[Z.to_nat (que p') := q ++ [te; e]]> (conts c))) < total race_weight (conts c))%nat.
Proof.
  intros Ep He Hte Hs Hps Hq'. pose proof (u_len _ _ _ _ Hq) as Hlen.
  assert (<[Z.to_nat (que p') := q ++ [te; e]]> (conts c) !! cur c = Some (e :: rest)) as Hf'.
  { rewrite Hcur, que_lookup, decide_False by congruence. by rewrite <- Hcur. }
  pose proof (total_insert race_weight _ _ _ rest Hf') as E1.
  pose proof (total_insert race_weight _ _ _ (q ++ [te; e]) Hq') as E2.
  rewrite qweight_app, !qweight_cons in E2. rewrite qweight_cons in E1.
  rewrite Hcur, Ep, pipe_of_que in E1 by done. rewrite pipe_of_que in E2 by done.
  assert (∀ e', pipe e' = p' → race_weight (PipeType_code p') e' = 1%nat) as W1.
  { intros e' <-. unfold race_weight. by rewrite Z.eqb_refl. }
  assert (race_weight (PipeType_code PIPE_S) e = 3%nat) as W3.
  { unfold race_weight. rewrite He. by destruct (Z.eqb_spec (PipeType_code PIPE_S) (PipeType_code p')) as [Ec%code_inj|]. }
  rewrite !W1 in E2 by done. rewrite W3 in E1. rewrite Hcur, Ep. change (qweight race_weight (Z.to_nat (que p')) []) with 0%nat in E2. lia.
Qed.

Lemma step_issue :
  p = PIPE_S → pipe e ≠ PIPE_S →
  ∃ c' y, issue e (c, x) = Some (c', y) ∧ cont_ok c' ∧ same_pos c c' ∧ conts c' !! cur c = Some (e :: rest) ∧
    inner_inv (<[cur c := rest]> (conts c')) y ∧
    (total race_weight (<[cur c := rest]> (conts c')) < total race_weight (conts c))%nat.
Proof.
  intros Ep Hpe. destruct (main_front Ep) as (He & Hrest & Hlane & Hsz).
  pose proof (Hprog e ltac:(by eapply list_elem_of_lookup_2)) as [Hblk _ _ _ Hsplit].
  pose proof (ready_main s l ptr _ Hl Hq ltac:(by eapply lookup_lt_Some)) as Hr.
  assert (snode prog s = Issue s) as Hsn by (unfold snode; rewrite decide_False; congruence). rewrite Hsn in Hr.
  pose proof (o_kt _ _ _ _ Hx) as Hkt. pose proof (o_dt _ _ _ _ Hx) as Hdt.
  assert (core c0 l ptr (x.1, x.2)) as Hx' by (clear -Hx; by destruct x).
  destruct (issue_step c0 l ptr x.1 x.2 s Hr Hx') as (v & t & P & k & E1 & E2 & E3 & Hl1 & Hx1).
  assert (clk (Issue s) = que p) as Hclk by (rewrite Ep; cbn; unfold que; simpl; lia). rewrite Hclk in E1, E2.
  destruct (queues_next s l ptr (ptr_upd ptr s k) _ e Hq He) as [Hqs Hnext].
  { intros i Hi. unfold ptr_upd. rewrite decide_False by lia. done. }
  destruct (Hqs (pipe e) Hpe Hsz) as [q Hq'].
  destruct (push_two (time_event 0 zero_loc (pipe e) k) (pipe e) q Hsz eq_refl Hsplit Hq')
    as (c1 & c' & P1 & P2 & Hc' & Hs' & Hconts).
  pose proof (u_len _ _ _ _ Hq) as Hlen. exists c', (upd_pool P (upd_vc v x.1), x.2). split_and!; try done.
  - unfold issue. rewrite (surjective_pairing x) at 1. rewrite (proj2 cur_pipe), E1. cbn [mbind option_bind].
    change (vc_ (upd_vc v x.1)) with v. rewrite E2. cbn [mbind option_bind].
    change (timeInfoPool_ (upd_vc v x.1)) with (timeInfoPool_ x.1). rewrite E3. cbn [mbind option_bind].
    assert (block_of e (upd_pool P (upd_vc v x.1)) = b) as -> by (unfold block_of; simpl; by rewrite Hkt, Hdt).
    rewrite P1. cbn [mbind option_bind]. by rewrite P2.
  - rewrite Hconts, Hcur, que_lookup, decide_False by congruence. by rewrite <- Hcur.
  - rewrite Hsn in Hnext. exists (S s), (Issue s :: l), (ptr_upd ptr s k). split; [done|]. split; [done|].
    rewrite Hconts, Hcur, Ep. apply Hnext.
    + by rewrite !length_insert.
    + rewrite que_lookup, decide_True by (done || by rewrite length_insert). by rewrite Hrest.
    + intros p' Hp' Hps' q0 Hq0. rewrite que_lookup, decide_False by (done || by rewrite length_insert).
      rewrite que_lookup by done. rewrite Hlane. unfold ptr_upd. rewrite (decide_True (P := s = s)) by done.
      repeat case_decide; try congruence. by rewrite app_nil_r.
    + intros j r Hj Hno. eapply (que_other (pipe e)), (que_other PIPE_S), Hj; done.
  - rewrite Hconts. by apply issue_weight.
Qed.
End step.

Lemma inner_step c x e rest :
  cont_ok c → deviceNum_ c = 1 → inner_inv (conts c) x → Z.of_nat (total race_weight (conts c)) < 2147483648 →
  conts c !! cur c = Some (e :: rest) →
  ∃ c' x' r, ProcessEvent junk (c, x) e = Some (c', x', r) ∧
    match r with
    | PROCESS_OK =>
        cont_ok c' ∧ same_pos c c' ∧ ∃ rest', conts c' !! cur c = Some (e :: rest') ∧
          inner_inv (<[cur c := rest']> (conts c')) x' ∧
          (total race_weight (<[cur c := rest']> (conts c')) < total race_weight (conts c))%nat
    | PROCESS_STALLED =>
        c' = c ∧ inner_inv (conts c) x' ∧ inner_blocked x' (cur c) e ∧
        ∀ i e', inner_blocked x i e' → inner_blocked x' i e'
    end.
Proof.
  intros Hc Hd (s & l & ptr & Hl & Hx & Hq) Ht Hf.
  destruct (que_dec (cur c)) as [(p & Hp & Hcur)|Hno]; [|by apply (u_other _ _ _ _ Hq _ _ Hf) in Hno].
  pose proof (cur_pipe c p Hc Hd Hp Hcur) as [Hpi Hqi].
  assert (pipe e = p → executes c x e rest p → ∃ c' x' r, ProcessEvent junk (c, x) e = Some (c', x', r) ∧
    match r with
    | PROCESS_OK =>
        cont_ok c' ∧ same_pos c c' ∧ ∃ rest', conts c' !! cur c = Some (e :: rest') ∧
          inner_inv (<[cur c := rest']> (conts c')) x' ∧
          (total race_weight (<[cur c := rest']> (conts c')) < total race_weight (conts c))%nat
    | PROCESS_STALLED =>
        c' = c ∧ inner_inv (conts c) x' ∧ inner_blocked x' (cur c) e ∧
        ∀ i e', inner_blocked x i e' → inner_blocked x' i e'
    end) as Hex.
  { intros Hpe He. unfold ProcessEvent. cbn [fst snd]. rewrite Hpi, Hqi, Hpe, Z.eqb_refl. cbn [negb].
    destruct He as [ [-> Hst]|(y & -> & Hy & Hw)]; cbn [mbind option_bind].
    - exists c, x, PROCESS_STALLED. split; [done|]. split; [done|].
      split; [by exists s, l, ptr|]. split; [|done]. split; [done|]. by rewrite Hcur, pipe_of_que, Hpe.
    - exists c, y, PROCESS_OK. split; [done|]. split; [done|]. split; [apply same_pos_refl|]. exists rest. done. }
  destruct (decide (p = PIPE_S)) as [Es|Es].
  - destruct (decide (pipe e = PIPE_S)) as [Ee|Ee].
    + apply Hex; [congruence|]. by eapply (step_main c x s l ptr).
    + destruct (step_issue c x s l ptr e rest p Hc Hd Hl Hx Hq Ht Hp Hcur Hf Es Ee) as (c' & y & E & H1 & H2 & H3 & H4 & H5).
      exists c', y, PROCESS_OK. unfold ProcessEvent. cbn [fst snd]. rewrite Hpi, Es.
      destruct (Z.eqb_spec (PipeType_code PIPE_S) (PipeType_code (pipe e))) as [Ec%code_inj|]; [congruence|].
      cbn [negb]. rewrite E. split; [done|]. split; [done|]. split; [done|]. exists rest. done.
  - destruct (step_other c x s l ptr e rest p Hl Hx Hq Hp Hcur Hf Es). by apply Hex.
Qed.

Lemma inner_stall c x e rest :
  cont_ok c → deviceNum_ c = 1 → inner_inv (conts c) x → conts c !! cur c = Some (e :: rest) → inner_blocked x (cur c) e →
  ∃ x', ProcessEvent junk (c, x) e = Some (c, x', PROCESS_STALLED).
Proof.
  intros Hc Hd _ _ [(k & Hk & Hdb) Hp]. destruct (cur_facts (λ _, []) c Hc Hd) as (Hpi & _ & _). exists x.
  unfold ProcessEvent. cbn [fst snd]. rewrite Hpi, Hp, Z.eqb_refl. cbn [negb]. destruct x as [x db]. unfold dispatch, flag_op in *.
  destruct (eventInfo e) as [|o| | | | | | | | | | | | |]; try done. unfold Inner.ProcessSyncEvent.
  destruct (sync_opType o); try done. injection Hk as ->. unfold SyncDb.Get. cbn [snd] in Hdb.
  by destruct (db !! k) as [ [|? ?]|].
Qed.

#[global] Instance inner_handler : Handler (ProcessEvent junk) :=
  {| weight := race_weight; HInv := inner_inv; Blocked := inner_blocked; weight_pos := race_weight_pos;
     h_step := inner_step; h_blocked := inner_stall |}.

(** Before the replay. *)
Lemma inner_start Q x :
  Z.of_nat (length Q) = B * 12 → Q !! Z.to_nat (que PIPE_S) = Some prog →
  (∀ j q, Q !! j = Some q → j ≠ Z.to_nat (que PIPE_S) → q = []) →
  kernelType_ x = kt → deviceType_ x = dt → vc_ x = replicate (Z.to_nat (B * 12)) new_VectorTime →
  timeInfoPool_ x = mkPool [] [] → memChecker_ x = c0 → inner_inv Q (x, ∅).
Proof.
  intros Hlen Hmain Hother Hkt Hdt Hvc Hpool Hck. exists 0%nat, [], (λ _, 0%nat). split; [constructor|]. split.
  - split; try done; cbn [fst snd].
    + split; [rewrite Hvc, length_replicate; lia|]. intros p Hp. pose proof (que_range p Hp). exists new_VectorTime.
      rewrite at_index_nat, Hvc by lia. split; [apply lookup_replicate_2; lia|]. apply repr_new. by intros m ?%elem_of_nil.
    + rewrite Hpool. split.
      * split; [apply NoDup_nil_2|by intros ? ?%elem_of_nil].
      * by intros i [?%elem_of_nil _].
      * by intros i j [?%elem_of_nil _].
    + intros k. exists [], []. assert (∀ set, flags [] set k = []) as Hnil.
      { intros set. unfold flags. rewrite (filter_same _ (λ _, False)); [by induction (seq _ _)|].
        intros i _. unfold executed. rewrite elem_of_nil. tauto. }
      by rewrite !Hnil.
    + exists [], []. split_and!; [done|constructor| |constructor]. intros i. rewrite elem_of_nil. split; [done|].
      by intros [?%elem_of_nil _].
  - split; try done.
    + intros p Hp Hps. exists [], []. destruct (lookup_lt_is_Some_2 Q (Z.to_nat (que p))) as [q Hq].
      { pose proof (que_range p Hps). lia. }
      exists q. assert (q = []) as ->. { apply (Hother _ _ Hq). by intros ?%que_nat. }
      done.
    + intros i Hi. lia.
    + by intros n ?%elem_of_nil.
    + intros j q Hq Hno. apply (Hother _ _ Hq). by apply Hno.
    + lia.
Qed.
End loop.
End inner.
