(* ===== verification/InnerTheorems.v ===== *)
(** The race check within a core, from the events to the messages: the vector
    times that the replay of [RaceAlgImpl] attaches to the memory events decide
    happens-before, and the races it reports are the conflicting accesses that
    happens-before leaves unordered. *)
From stdpp Require Import base numbers option gmap sets relations strings list.
From S2P Require Import Prelude.
From S2P Require Import RecordDefs.
From S2P Require Import Platform.
From S2P Require Import EventDef.
From S2P Require Import ConvertProofs.
From S2P Require Import VectorTime.
From S2P Require Import VectorTimeProofs.
From S2P Require Import EventContainer.
From S2P Require Import PipeLineProofs.
From S2P Require Import SyncContainers.
From S2P Require Import PipelineReplayer.
From S2P Require Import ReplayerProofs.
From S2P Require Import MemSeries.
From S2P Require Import MemSeriesProofs.
From S2P Require Import MemEventChecker.
From S2P Require Import Scanline.
From S2P Require Import ScanProofs.
From S2P Require Import RaceProofs.
From S2P Require Import RaceTheorems.
From S2P Require Import RaceAlg.
From S2P Require Import RaceSanitizer.
From S2P Require Import Causality.
From S2P Require Import HappensBefore.
From S2P Require Import InnerProofs.
Import VT Cont Pipe AlgBase Inner.

(** ** The messages of a run *)

(** The message for two static events. *)
Definition pair_message (e1 e2 : Race.MemEvent) : Race.RaceDispInfo := Race.FillRaceDispInfo false e1 e2 0 0.

Lemma static_message e1 e2 d1 d2 :
  Race.isDynamic e1 = false → Race.isDynamic e2 = false → Race.FillRaceDispInfo false e1 e2 d1 d2 = pair_message e1 e2.
Proof. unfold pair_message, Race.FillRaceDispInfo, Race.ErrorEvent_Init. by intros -> ->. Qed.

Lemma same_race_swap e1 e2 y : Race.same_race (pair_message e1 e2) y = Race.same_race (pair_message e2 e1) y.
Proof. unfold Race.same_race. simpl. rewrite orb_comm, (andb_comm (Race.ErrorEvent_eqb _ _) (Race.ErrorEvent_eqb _ (Race.p1 y))). f_equal. f_equal. apply andb_comm. Qed.

(** A run of the checker stores a message for each racing pair and nothing else. *)
Lemma static_run_reports c kernels :
  static_run c → Checker.raceSet_ c = [] → Checker.result_ c = [] → Checker.raceCnt_ c = 0 →
  ∃ c', Scan.RunAlgorithm kernels false c = Some c' ∧
    (∀ y, y ∈ Checker.GetResult c' → ∃ i j e1 e2, i ≠ j ∧ at_index (Checker.events_ c) i = Some e1 ∧
       at_index (Checker.events_ c) j = Some e2 ∧ races_with c kernels e1 e2 ∧ y = pair_message e1 e2) ∧
    (∀ i j e1 e2, i ≠ j → at_index (Checker.events_ c) i = Some e1 → at_index (Checker.events_ c) j = Some e2 →
       races_with c kernels e1 e2 → ∃ y, y ∈ Checker.GetResult c' ∧ Race.same_race (pair_message e1 e2) y = true).
Proof.
  intros Hc H1 H2 H3. pose proof (static_scannable c Hc) as Hs.
  destruct (scanline_spec c kernels false Hs) as (r & d & E & Hd & HF). simpl in Hd, HF. subst d.
  assert (∀ p, p ∈ r → is_Some (Checker.event_at c p.1) ∧ is_Some (Checker.event_at c p.2)) as Hv.
  { intros p Hp. eapply (scanline_valid c kernels false); [done|exact E|]. apply elem_of_app. by left. }
  destruct (add_results_spec 0 false r c) as (c1 & E1 & _ & V1 & _ & A1 & O1); [|done|].
  { split; [congruence|by rewrite H2, H3|]. intros i j x y Hi. by rewrite H2, lookup_nil in Hi. }
  exists c1. unfold Scan.RunAlgorithm. rewrite E. cbn [mbind option_bind fst snd]. rewrite E1. split; [done|].
  assert (∀ i e, at_index (Checker.events_ c) i = Some e → Race.isDynamic e = false) as Hst.
  { intros i e He. by destruct (static_at c i e Hc He) as [ [? _ _ _] _]. }
  split.
  - intros y Hy. apply O1 in Hy as [Hy|([i1 i2] & Hp & e1 & e2 & He1 & He2 & ->)]; [rewrite H2 in Hy; by apply elem_of_nil in Hy|].
    unfold Checker.event_at in *. simpl in *. exists (Overlap.eventIdx i1), (Overlap.eventIdx i2), e1, e2.
    assert ((Overlap.eventIdx i1, Overlap.eventIdx i2) ∈ reported r) as Hr%HF.
    { apply list_elem_of_fmap. by exists (i1, i2). }
    rewrite (static_pair c kernels _ _ e1 e2) in Hr by done. destruct Hr as [Hb Hr]. split_and!; try done.
    + intros E'. rewrite E' in Hb. unfold starts_before in Hb. lia.
    + apply static_message; by eapply Hst.
  - assert (∀ i j e1 e2, at_index (Checker.events_ c) i = Some e1 → at_index (Checker.events_ c) j = Some e2 →
      (i, j) ∈ reported r → ∃ y, y ∈ Checker.GetResult c1 ∧ Race.same_race (pair_message e1 e2) y = true) as Hone.
    { intros i j e1 e2 Hi Hj ([i1 i2] & [= -> ->] & Hp)%list_elem_of_fmap.
      destruct (A1 (i1, i2) (pair_message e1 e2) Hp) as (y & Hy & Hsame); [|by exists y].
      exists e1, e2. split_and!; try done. symmetry. apply static_message; by eapply Hst. }
    intros i j e1 e2 Hne Hi Hj Hr. destruct (decide (starts_before (first_byte (Checker.events_ c)) j i)) as [Hb|Hb].
    + apply (Hone i j); try done. apply HF. by apply (static_pair c kernels i j e1 e2).
    + destruct (Hone j i e2 e1 Hj Hi) as (y & Hy & Hsame).
      * apply HF. apply (static_pair c kernels j i e2 e1); try done. split; [unfold starts_before in *; lia|by apply races_with_sym].
      * exists y. by rewrite same_race_swap.
Qed.

Lemma init_start B : 1 <= B → B * 12 < 4294967296 → start (Cont.Init B 1).
Proof.
  intros HB Hf. split; [|done]. split; simpl; try lia.
  - rewrite length_replicate. change PIPE_NUM with 12. rewrite (u32_small (1 * B)) by (unfold is_u32; lia).
    rewrite u32_small by (unfold is_u32; lia). lia.
  - apply Forall_replicate, Que.new_ok.
Qed.

Section run.
Context (junk : SanEvent → MemOpInfo) (kernels : KernelManager.KernelManager) (kt : KernelType) (dt : DeviceType)
  (blockDim b : Z) (evs : list SanEvent).

(** The events in the order PIPE_S sees them: a copy is a read and a write. *)
Definition program : list SanEvent := evs ≫= split_copy.

(** An event of core [b] that takes part in the order through pipes and flags. *)
Record core_event (e : SanEvent) : Prop := {
  ce_open : Replay.is_finish e = false;
  ce_block : GetEventBlockIndex e kt dt SINGLE_BLOCK_CHECK = b;
  ce_pipe : pipe e ≠ PIPE_SIZE;
  ce_plain : plain e = true;
  ce_home : flag_home e = true;
}.

Record core_run : Prop := {
  cr_block : 0 <= b < total_blocks kt dt blockDim;
  cr_blocks : total_blocks kt dt blockDim * 12 < 4294967296;
  cr_events : Forall core_event evs;
  cr_count : Z.of_nat (length evs) * 12 < 2147483648;
}.

Context (Hrun : core_run).

Lemma split_event e e' : core_event e → e' ∈ split_copy e → prog_event kt dt b e'.
Proof.
  intros [? Hb Hp Hpl Hh] He'. unfold split_copy in He'. destruct (eventInfo e) as [| |m| | | | | | | | | | | |] eqn:Hi.
  all: try (apply list_elem_of_singleton in He' as ->; split; try done; unfold split_copy; by rewrite Hi).
  case_bool_decide as Ho; [|apply list_elem_of_singleton in He' as ->; split; try done; unfold split_copy; rewrite Hi;
    by rewrite bool_decide_eq_false_2].
  apply elem_of_cons in He' as [->|He']; [by split|]. apply list_elem_of_singleton in He' as ->. by split.
Qed.

Lemma program_ok e : e ∈ program → prog_event kt dt b e.
Proof.
  intros (e0 & He & He0)%list_elem_of_bind. eapply split_event; [|exact He].
  by apply (proj1 (Forall_forall _ _) (cr_events Hrun)).
Qed.

Lemma program_length l : (length (l ≫= split_copy) <= 2 * length l)%nat.
Proof. induction l as [|e l IH]; [done|]. rewrite bind_cons, length_app. pose proof (split_copy_length e). simpl. lia. Qed.

(** *** Collecting the events *)

Definition empty_queues : list (list SanEvent) := replicate (Z.to_nat (total_blocks kt dt blockDim * 12)) [].

Definition fed (l : list SanEvent) (s : RaceAlgImpl) : Prop :=
  start s.1 ∧ maxBlockNum_ s.1 = total_blocks kt dt blockDim ∧
  conts s.1 = <[Z.to_nat (b * 12) := l ≫= split_copy]> empty_queues ∧ s.2 = (new_RaceAlgImpl kt dt blockDim).2.

Lemma empty_at : empty_queues !! Z.to_nat (b * 12) = Some [].
Proof. pose proof (cr_block Hrun). apply lookup_replicate_2. lia. Qed.

Lemma fed_new : fed [] (new_RaceAlgImpl kt dt blockDim).
Proof.
  pose proof (cr_block Hrun) as Hb. pose proof (cr_blocks Hrun) as HB. set (B := total_blocks kt dt blockDim) in *.
  assert (conts (Cont.Init B 1) = empty_queues) as Hc by (apply conts_init; lia).
  split; [|split; [done|split; [|done] ] ].
  - apply init_start; lia.
  - simpl. fold B. rewrite Hc. symmetry. apply list_insert_id, empty_at.
Qed.

Lemma queue_lookup (q : list SanEvent) : <[Z.to_nat (b * 12) := q]> empty_queues !! Z.to_nat (b * 12) = Some q.
Proof. apply list_lookup_insert_eq. eapply lookup_lt_Some, empty_at. Qed.

(** [Do] appends an event to the queue of PIPE_S. *)
Lemma fed_step dc fuel e l s :
  fed l s → core_event e → Z.of_nat (length l) * 2 + 4 < 4294967296 →
  ∃ s', Inner.Do junk kernels dc fuel e s = Some s' ∧ fed (l ++ [e]) s'.
Proof.
  intros (Hst & Hm & Hq & Hx) [Ho Hblk _ Hpl _] Hn. destruct s as [c [x db] ]. cbn [fst snd] in *. injection Hx as -> ->.
  unfold Inner.Do. rewrite Ho. cbn [negb].
  assert (∀ x, CacheMstxCrossSet e x = x) as Hc.
  { intros x. unfold CacheMstxCrossSet, plain in *. by destruct (eventInfo e). }
  rewrite Hc. unfold block_of. simpl kernelType_. simpl deviceType_. rewrite Hblk.
  pose proof (program_length l) as Hl. pose proof (cr_block Hrun) as Hb. destruct Hst as (Hok & Hd & Hrest).
  destruct (Push_cont e PIPE_S b c (l ≫= split_copy) Hok) as (c' & -> & Hok' & Hs & Hq'); [simpl; lia|lia|done| |lia|].
  { simpl. rewrite Z.add_0_r, Hq. apply queue_lookup. }
  cbn [mbind option_bind]. eexists. split; [done|]. simpl in Hq'. rewrite Z.add_0_r, Hq, list_insert_insert_eq in Hq'.
  split; [|split; [|split; [|done] ] ]; cbn [fst].
  - rewrite Hs. split; [by rewrite <- Hs|]. done.
  - by rewrite Hs.
  - rewrite Hq', bind_app, bind_cons. simpl. by rewrite app_nil_r.
Qed.

Lemma fed_all dc es l s :
  fed l s → Forall core_event es → Z.of_nat (length l + length es) * 2 + 4 < 4294967296 →
  ∃ s', RaceSan.do_all (RaceSan.inner_do junk kernels dc) es s = Some s' ∧ fed (l ++ es) s'.
Proof.
  revert l s. induction es as [|e es IH]; intros l s Hf He Hn; simpl in Hn.
  - exists s. by rewrite app_nil_r.
  - apply Forall_cons in He as [He Hes]. cbn [RaceSan.do_all]. change (RaceSan.inner_do junk kernels dc e s) with (Inner.Do junk kernels dc (race_fuel s.1) e s).
    destruct (fed_step dc (race_fuel s.1) e l s Hf He) as (s1 & -> & Hf1); [lia|]. cbn [mbind option_bind].
    destruct (IH (l ++ [e]) s1 Hf1 Hes) as (s' & -> & Hf'); [rewrite length_app; simpl; lia|].
    exists s'. by rewrite <- app_assoc in Hf'.
Qed.

(** *** The replay *)

Definition checker0 : Checker.MemEventChecker := memChecker_ (new_RaceAlgImpl kt dt blockDim).2.1.

#[local] Abbreviation B := (total_blocks kt dt blockDim).

Lemma size_ok : Z.of_nat (length program) * 6 < 2147483648.
Proof. pose proof (program_length evs). pose proof (cr_count Hrun). unfold program. lia. Qed.

Lemma fed_inv s : fed evs s → inner_inv junk kt dt B b program checker0 (conts s.1) s.2.
Proof.
  intros (_ & _ & Hq & ->). pose proof (cr_block Hrun) as Hb. pose proof (cr_blocks Hrun) as HB. rewrite Hq.
  apply inner_start; try done; unfold que; simpl PipeType_code; rewrite ?Z.add_0_r.
  - unfold empty_queues. rewrite length_insert, length_replicate. lia.
  - apply queue_lookup.
  - intros j q Hj Hne. rewrite list_lookup_insert_ne in Hj by done. by apply lookup_replicate in Hj as [-> _].
  - simpl. change PIPE_NUM with 12. rewrite u32_small by (unfold is_u32; lia). done.
Qed.

Lemma sum_weight p l : (sum_list (race_weight p <$> l) <= 3 * length l)%nat.
Proof. induction l as [|e l IH]; [done|]. 
  assert (race_weight p e <= 3)%nat by (unfold race_weight; destruct (_ =? _); lia). rewrite fmap_cons. simpl. lia.
Qed.

Lemma fed_weight s : fed evs s → Z.of_nat (total race_weight (conts s.1)) < 2147483648.
Proof.
  intros (_ & _ & -> & _). pose proof (total_insert race_weight _ _ _ (evs ≫= split_copy) empty_at) as E.
  assert (total race_weight empty_queues = 0%nat) as E0.
  { apply total_empty; [apply race_weight_pos|]. by apply Forall_replicate. }
  rewrite E0 in E. pose proof (sum_weight (pipe_of (Z.to_nat (b * 12))) (evs ≫= split_copy)) as Hs.
  fold (qweight race_weight (Z.to_nat (b * 12)) (evs ≫= split_copy)) in Hs. pose proof size_ok. unfold program in *. lia.
Qed.

(** Memory events with times that decide happens-before; [mem] says which events
    of the program they are. *)
Record ordered_times (mem : list nat) (es : list Race.MemEvent) : Prop := {
  ot_nodup : NoDup mem;
  ot_events : Forall2 (λ i m, ∃ e t, program !! i = Some e ∧ Replay.is_mem_event e = true ∧ m = timed junk e t ∧ wf t) mem es;
  ot_order a a' i i' m m' :
    mem !! a = Some i → mem !! a' = Some i' → es !! a = Some m → es !! a' = Some m' → a ≠ a' →
    concurrent (Race.vt m) (Checker.GetPipeIdxByMemEvent SINGLE_BLOCK_CHECK m kt dt)
      (Race.vt m') (Checker.GetPipeIdxByMemEvent SINGLE_BLOCK_CHECK m' kt dt) = true ↔
    ¬ happens_before program i i' ∧ ¬ happens_before program i' i;
}.

Lemma timed_que i e t :
  program !! i = Some e → Checker.GetPipeIdxByMemEvent SINGLE_BLOCK_CHECK (timed junk e t) kt dt = clk program b (Exec i).
Proof.
  intros He. pose proof (program_ok e ltac:(by eapply list_elem_of_lookup_2)) as [Hb Hp _ _ _].
  cbn [clk]. unfold lane. rewrite He. unfold Checker.GetPipeIdxByMemEvent. change PIPE_NUM with 12.
  change (Race.loc (timed junk e t)) with (loc e). change (Race.pipe (timed junk e t)) with (pipe e).
  change (GetEventBlockIndexByLoc (loc e) kt dt SINGLE_BLOCK_CHECK) with (GetEventBlockIndex e kt dt SINGLE_BLOCK_CHECK).
  rewrite Hb. pose proof (cr_block Hrun). pose proof (cr_blocks Hrun).
  assert (0 <= PipeType_code (pipe e) < 12) by (destruct (pipe e); simpl; lia || done).
  rewrite (u32_small (b * 12)), u32_small by (unfold is_u32; lia). done.
Qed.

Lemma collected_order l c :
  log (preds program) (clk program b) l → collected junk b program checker0 l c →
  ∃ mem es, c = foldl (λ c e, Checker.PushEvent e c) checker0 es ∧ ordered_times mem es ∧
    ∀ i, i ∈ mem ↔ Exec i ∈ l ∧ is_mem program i.
Proof.
  intros Hl (mem & es & Hc & Hnd & Hin & Hes). exists mem, es. split; [done|]. split; [|done].
  assert (∀ i, i ∈ mem → ticks program (Exec i) = true) as Ht.
  { intros i (_ & e & He & Hm)%Hin. cbn [ticks]. rewrite He. unfold advances, Replay.is_mem_event in *. by destruct (eventInfo e). }
  split; [done| |].
  - eapply Forall2_mono_in; [exact Hes|]. intros i m (_ & e' & He' & Hm)%Hin (e & t & He & -> & Hst). exists e, t.
    assert (e' = e) as -> by congruence. split_and!; try done. apply Hst.
  - intros a a' i i' m m' Hi Hi' Hm Hm' Hne.
    assert (i ≠ i') as Hii by (intros ->; apply Hne; by eapply NoDup_lookup).
    destruct (Forall2_lookup_lr _ _ _ _ _ _ Hes Hi Hm) as (e & t & He & -> & Hst).
    destruct (Forall2_lookup_lr _ _ _ _ _ _ Hes Hi' Hm') as (e' & t' & He' & -> & Hst').
    rewrite (timed_que i e t He), (timed_que i' e' t' He').
    change (Race.vt (timed junk e t)) with t. change (Race.vt (timed junk e' t')) with t'.
    rewrite (concurrent_hb (preds program) (clk program b) (ticks program) l (Exec i) (Exec i')); try done.
    + rewrite !exec_hb. naive_solver.
    + apply Ht. by eapply list_elem_of_lookup_2.
    + apply Ht. by eapply list_elem_of_lookup_2.
    + congruence.
Qed.

(** Once the queues are empty every event has been executed. *)
Lemma all_executed s l ptr Q i e :
  queues B b program s l ptr Q → Forall (λ q, q = []) Q → program !! i = Some e → Exec i ∈ l.
Proof.
  intros Hq Hempty He. rewrite Forall_forall in Hempty.
  assert (∀ j q, Q !! j = Some q → q = []) as He' by (intros j q Hj; apply Hempty; by eapply list_elem_of_lookup_2).
  pose proof (He' _ _ (u_main _ _ _ _ _ _ _ Hq)) as Hs. apply (f_equal length) in Hs. rewrite length_drop in Hs. simpl in Hs.
  pose proof (lookup_lt_Some _ _ _ He) as Hi. assert (i < s)%nat as His by lia.
  destruct (decide (lane program i = PIPE_S)) as [Hl|Hl].
  - pose proof (u_snode _ _ _ _ _ _ _ Hq i His) as Hsn. unfold snode in Hsn. by rewrite decide_True in Hsn.
  - assert (lane program i ≠ PIPE_SIZE) as Hsz.
    { unfold lane. rewrite He. apply (pe_pipe kt dt b e), program_ok. by eapply list_elem_of_lookup_2. }
    destruct (u_pipe _ _ _ _ _ _ _ Hq _ Hl Hsz) as (fin & pend & q & H1 & H2 & H3 & H4).
    rewrite (He' _ _ H1) in H3. apply Forall2_nil_inv_r in H3 as ->. rewrite app_nil_r in H2.
    assert (Exec i ∈ nodes program (lane program i) s) as Hin by (apply elem_nodes; eauto).
    apply H4; [done|]. by rewrite <- H2.
Qed.

(** The replay ends; its outcome. *)
Lemma inner_replay s :
  fed evs s →
  ∃ st c x db mem es, Run (Some (ProcessEvent junk)) (race_fuel s.1) (CHECK_ALL_DEVICE, s) = Some (st, (c, (x, db))) ∧
    cont_ok c ∧ memChecker_ x = foldl (λ c e, Checker.PushEvent e c) checker0 es ∧ ordered_times mem es ∧
    ((st = EXIT ∧ Forall (λ q, q = []) (conts c) ∧ ∀ i e, program !! i = Some e → Replay.is_mem_event e = true → i ∈ mem) ∨
     (st = EXCEPTION ∧ ¬ Forall (λ q, q = []) (conts c) ∧ ∀ k e rest, conts c !! k = Some (e :: rest) → starved db e)).
Proof.
  intros Hf. pose proof (fed_inv s Hf) as Hinv. pose proof (fed_weight s Hf) as Hw.
  pose proof (cr_block Hrun) as Hb. pose proof (cr_blocks Hrun) as HB.
  pose (Hh := inner_handler junk kt dt B b program HB Hb program_ok size_ok checker0).
  destruct s as [c0 x0]. destruct (pipeline_run (ProcessEvent junk) (Handler0 := Hh) c0 x0) as (st & c & [x db] & Hr & Hc & Hi & Hend);
    [apply Hf|done|done|].
  destruct Hi as (s & l & ptr & Hl & Hx & Hq).
  destruct (collected_order l _ Hl (o_checker _ _ _ _ _ _ _ _ _ _ Hx)) as (mem & es & Hck & Hot & Hmem).
  exists st, c, x, db, mem, es. split; [by apply Hr|]. split; [done|]. split; [done|]. split; [done|].
  destruct Hend as [ [-> He]|(-> & Hne & Hbl)]; [left|right].
  - split; [done|]. split; [done|]. intros i e Hi Hm. apply Hmem. split; [by eapply all_executed|]. by exists e.
  - split; [done|]. split; [done|]. intros k e rest Hk. by apply (Hbl k e rest Hk).
Qed.

(** *** The checker after the replay *)

Lemma pushed es c :
  let c' := foldl (λ c e, Checker.PushEvent e c) c es in
  Checker.events_ c' = Checker.events_ c ++ es ∧ Checker.raceSet_ c' = Checker.raceSet_ c ∧
  Checker.result_ c' = Checker.result_ c ∧ Checker.raceCnt_ c' = Checker.raceCnt_ c ∧
  Checker.checkType_ c' = Checker.checkType_ c ∧ Checker.checkTypeMap_ c' = Checker.checkTypeMap_ c ∧
  Checker.kernelType_ c' = Checker.kernelType_ c ∧ Checker.deviceType_ c' = Checker.deviceType_ c.
Proof.
  revert c. induction es as [|e es IH]; intros c; simpl; [by rewrite app_nil_r|].
  destruct (IH (Checker.PushEvent e c)) as (E & ?). simpl in *. rewrite E, <- app_assoc. done.
Qed.

Definition access (e : SanEvent) : Race.MemEvent := Race.of_SanEvent (junk e) e.

(** Memory events whose footprint is known and below 4 GiB. *)
Definition static_program : Prop := Forall (λ e, Replay.is_mem_event e = true → static_fits (access e)) program.

Lemma static_timed e t : static_fits (access e) → static_fits (timed junk e t).
Proof. intros [? ? ? ?]. by split. Qed.

Lemma replay_static mem es :
  static_program → ordered_times mem es → static_run (foldl (λ c e, Checker.PushEvent e c) checker0 es).
Proof.
  intros Hst [Hnd Hes _]. destruct (pushed es checker0) as (E & _ & _ & _ & E1 & E2 & _ & _). split.
  - rewrite E1, E2. by left.
  - rewrite E. simpl. rewrite <- (Forall2_length _ _ _ Hes).
    assert (mem ⊆+ seq 0 (length program)) as Hsub%submseteq_length.
    { apply NoDup_submseteq; [done|]. intros i Hi. apply elem_of_seq.
      apply list_elem_of_lookup_1 in Hi as [a Ha]. destruct (Forall2_lookup_l _ _ _ _ _ Hes Ha) as (m & _ & e & t & He & _).
      apply lookup_lt_Some in He. lia. }
    rewrite length_seq in Hsub. pose proof size_ok. lia.
  - rewrite E. simpl. apply Forall_lookup. intros a m Hm.
    destruct (Forall2_lookup_r _ _ _ _ _ Hes Hm) as (i & _ & e & t & He & Hmem & -> & Hw).
    assert (e ∈ program) as Hin by by eapply list_elem_of_lookup_2.
    split; [apply static_timed; by apply (proj1 (Forall_forall _ _) Hst)|]. split; [done|].
    split; [|simpl; lia]. apply (program_ok e Hin).
Qed.

(** Two accesses of the core that may run at the same time and conflict. *)
Definition program_race (i j : nat) (e1 e2 : SanEvent) : Prop :=
  program !! i = Some e1 ∧ program !! j = Some e2 ∧
  ¬ happens_before program i j ∧ ¬ happens_before program j i ∧
  pipe e1 ≠ pipe e2 ∧ Checker.IsAtomicAgainst (access e1) (access e2) = false ∧
  ∃ m1 m2, eventInfo e1 = MemInfo m1 ∧ eventInfo e2 = MemInfo m2 ∧ memType m1 = memType m2 ∧
    (opType m1 = WRITE ∨ opType m2 = WRITE) ∧ ∃ x, touched m1 x ∧ touched m2 x.

Lemma static_mem e : Replay.is_mem_event e = true → static_fits (access e) → ∃ m, eventInfo e = MemInfo m ∧ Race.memInfo (access e) = m.
Proof.
  intros Hm [Hd _ _ _]. unfold access, Race.of_SanEvent, Replay.is_mem_event in *. simpl in *.
  destruct (eventInfo e) as [| |m| | | | | | | | | | | |]; try done. eauto.
Qed.

Lemma races_program mem es a a' i i' m m' e e' :
  static_program → ordered_times mem es → mem !! a = Some i → mem !! a' = Some i' → es !! a = Some m → es !! a' = Some m' →
  a ≠ a' → program !! i = Some e → program !! i' = Some e' → Replay.is_mem_event e = true → Replay.is_mem_event e' = true →
  races_with (foldl (λ c e, Checker.PushEvent e c) checker0 es) kernels m m' ↔ program_race i i' e e'.
Proof.
  intros Hst Hot Hi Hi' Hm Hm' Hne He He' Hmem Hmem'. pose proof (ot_order _ _ Hot a a' i i' m m' Hi Hi' Hm Hm' Hne) as Hord.
  destruct (Forall2_lookup_lr _ _ _ _ _ _ (ot_events _ _ Hot) Hi Hm) as (e1 & t & He1 & _ & -> & _).
  destruct (Forall2_lookup_lr _ _ _ _ _ _ (ot_events _ _ Hot) Hi' Hm') as (e2 & t' & He2 & _ & -> & _).
  assert (e = e1) as -> by congruence. assert (e' = e2) as -> by congruence.
  assert (∀ e, e ∈ program → Replay.is_mem_event e = true → ∃ m, eventInfo e = MemInfo m ∧ Race.memInfo (access e) = m) as Hinfo.
  { intros x Hx Hxm. apply static_mem; [done|]. by apply (proj1 (Forall_forall _ _) Hst). }
  destruct (Hinfo e1) as (m1 & Hm1 & Em1); [by eapply list_elem_of_lookup_2|done|].
  destruct (Hinfo e2) as (m2 & Hm2 & Em2); [by eapply list_elem_of_lookup_2|done|].
  destruct (pushed es checker0) as (_ & _ & _ & _ & E1 & _ & E2 & E3).
  unfold races_with, program_race. rewrite E1.
  change (Checker.checkType_ checker0) with SINGLE_BLOCK_CHECK. cbn [unordered].
  unfold block_pipe. rewrite E2, E3.
  change (Checker.kernelType_ checker0) with kt. change (Checker.deviceType_ checker0) with dt.
  change (Race.memInfo (timed junk e1 t)) with (Race.memInfo (access e1)).
  change (Race.memInfo (timed junk e2 t')) with (Race.memInfo (access e2)).
  change (Checker.IsAtomicAgainst (timed junk e1 t) (timed junk e2 t')) with (Checker.IsAtomicAgainst (access e1) (access e2)).
  change (Race.pipe (timed junk e1 t)) with (pipe e1). change (Race.pipe (timed junk e2 t')) with (pipe e2).
  rewrite Em1, Em2, Hm1, Hm2, !andb_true_iff, !negb_true_iff, bool_decide_eq_false, Hord. naive_solver.
Qed.

Section pairs.
Context (mem : list nat) (es : list Race.MemEvent) (Hst : static_program) (Hot : ordered_times mem es).
#[local] Abbreviation chk := (foldl (λ c e, Checker.PushEvent e c) checker0 es).

Lemma stamped a m :
  at_index es a = Some m →
  ∃ i e t, 0 <= a ∧ mem !! Z.to_nat a = Some i ∧ es !! Z.to_nat a = Some m ∧ program !! i = Some e ∧
    Replay.is_mem_event e = true ∧ m = timed junk e t.
Proof.
  unfold at_index. destruct (Z.leb_spec 0 a); [|done]. intros Hm.
  destruct (Forall2_lookup_r _ _ _ _ _ (ot_events _ _ Hot) Hm) as (i & Hi & e & t & He & Hmem & -> & _).
  exists i, e, t. done.
Qed.

Lemma pair_sound a a' m m' :
  a ≠ a' → at_index es a = Some m → at_index es a' = Some m' → races_with chk kernels m m' →
  ∃ i j e1 e2, program_race i j e1 e2 ∧ pair_message m m' = pair_message (access e1) (access e2).
Proof.
  intros Hne Ha Ha' Hr. destruct (stamped a m Ha) as (i & e & t & P & Hi & Hm & He & Hmem & ->).
  destruct (stamped a' m' Ha') as (i' & e' & t' & P' & Hi' & Hm' & He' & Hmem' & ->). exists i, i', e, e'. split; [|done].
  eapply (races_program mem es (Z.to_nat a) (Z.to_nat a')); try done. lia.
Qed.

Lemma pair_complete (R : list Race.RaceDispInfo) i j e1 e2 :
  (∀ i e, program !! i = Some e → Replay.is_mem_event e = true → i ∈ mem) →
  (∀ a a' m m', a ≠ a' → at_index es a = Some m → at_index es a' = Some m' → races_with chk kernels m m' →
     ∃ y, y ∈ R ∧ Race.same_race (pair_message m m') y = true) →
  program_race i j e1 e2 → ∃ y, y ∈ R ∧ Race.same_race (pair_message (access e1) (access e2)) y = true.
Proof.
  intros Hall HR Hr. pose proof Hr as (He1 & He2 & _ & _ & Hp & _ & m1 & m2 & Hm1 & Hm2 & _).
  assert (Replay.is_mem_event e1 = true ∧ Replay.is_mem_event e2 = true) as [M1 M2].
  { unfold Replay.is_mem_event. by rewrite Hm1, Hm2. }
  destruct (list_elem_of_lookup_1 _ _ (Hall i e1 He1 M1)) as [a Ha].
  destruct (list_elem_of_lookup_1 _ _ (Hall j e2 He2 M2)) as [a' Ha'].
  destruct (Forall2_lookup_l _ _ _ _ _ (ot_events _ _ Hot) Ha) as (m & Hm & e & t & He & _ & -> & _).
  destruct (Forall2_lookup_l _ _ _ _ _ (ot_events _ _ Hot) Ha') as (m' & Hm' & e' & t' & He' & _ & -> & _).
  assert (e = e1) as -> by congruence. assert (e' = e2) as -> by congruence.
  assert (a ≠ a') as Hne by (intros ->; congruence).
  apply (HR (Z.of_nat a) (Z.of_nat a') (timed junk e1 t) (timed junk e2 t')); [lia|..].
  - rewrite at_index_nat by lia. by rewrite Nat2Z.id.
  - rewrite at_index_nat by lia. by rewrite Nat2Z.id.
  - by eapply (races_program mem es a a').
Qed.
End pairs.
End run.

Lemma do_all_app {A} (f : SanEvent → A → option A) l1 l2 a :
  RaceSan.do_all f (l1 ++ l2) a = RaceSan.do_all f l1 a ≫= RaceSan.do_all f l2.
Proof. revert a. induction l1 as [|e l1 IH]; intros a; simpl; [done|]. destruct (f e a); simpl; [apply IH|done]. Qed.

(** C2: the replay of the events of a core ends within its bound; the memory
    events it hands to the checker are those of the program, each once, and
    comparing their vector times tells exactly whether happens-before orders
    them. It leaves events behind only at waits for flags that nobody sets. *)
Theorem inner_happens_before junk kernels dc kt dt blockDim b evs :
  core_run kt dt blockDim b evs →
  ∃ s st c x db mem,
    RaceSan.do_all (RaceSan.inner_do junk kernels dc) evs (new_RaceAlgImpl kt dt blockDim) = Some s ∧
    Run (Some (ProcessEvent junk)) (race_fuel s.1) (CHECK_ALL_DEVICE, s) = Some (st, (c, (x, db))) ∧
    ordered_times junk kt dt evs mem (Checker.events_ (memChecker_ x)) ∧
    ((st = EXIT ∧ ∀ i e, program evs !! i = Some e → Replay.is_mem_event e = true → i ∈ mem) ∨
     (st = EXCEPTION ∧ ¬ Forall (λ q, q = []) (conts c) ∧ ∀ k e rest, conts c !! k = Some (e :: rest) → starved db e)).
Proof.
  intros Hrun. destruct (fed_all junk kernels kt dt blockDim b evs Hrun dc evs [] _ (fed_new kt dt blockDim b evs Hrun))
    as (s & E & Hf); [apply Hrun|pose proof (cr_count _ _ _ _ _ Hrun); simpl; lia|].
  destruct (inner_replay junk kt dt blockDim b evs Hrun s Hf) as (st & c & x & db & mem & es & Hr & _ & Hck & Hot & Hend).
  exists s, st, c, x, db, mem. split; [done|]. split; [done|]. split.
  - rewrite Hck. destruct (pushed es (checker0 kt dt blockDim)) as (-> & _). done.
  - destruct Hend as [(-> & _ & H)|H]; [by left|by right].
Qed.

(** C1: the race check within a core, from its events to its messages: it always
    finishes, every message is a pair of conflicting accesses that
    happens-before leaves unordered, every such pair is reported unless the
    replay got stuck, and a stuck replay waits for flags that nobody sets. *)
Theorem inner_races_exact junk kernels kt dt blockDim b evs fin :
  core_run kt dt blockDim b evs → static_program junk evs → Replay.is_finish fin = true →
  ∃ s, RaceSan.do_all (RaceSan.inner_do junk kernels false) (evs ++ [fin]) (new_RaceAlgImpl kt dt blockDim) = Some s ∧
    isFinished_ s.2.1 = true ∧
    (∀ y, y ∈ GetResult s.2.1 → ∃ i j e1 e2, program_race junk evs i j e1 e2 ∧ y = pair_message (access junk e1) (access junk e2)) ∧
    (IsEmpty s.1 = true → ∀ i j e1 e2, program_race junk evs i j e1 e2 →
       ∃ y, y ∈ GetResult s.2.1 ∧ Race.same_race (pair_message (access junk e1) (access junk e2)) y = true) ∧
    (∀ k e rest, conts s.1 !! k = Some (e :: rest) → starved s.2.2 e).
Proof.
  intros Hrun Hst Hfin. destruct (fed_all junk kernels kt dt blockDim b evs Hrun false evs [] _ (fed_new kt dt blockDim b evs Hrun))
    as (s & E & Hf); [apply Hrun|pose proof (cr_count _ _ _ _ _ Hrun); simpl; lia|].
  destruct (inner_replay junk kt dt blockDim b evs Hrun s Hf) as (st & c & x & db & mem & es & Hr & Hc & Hck & Hot & Hend).
  destruct (pushed es (checker0 kt dt blockDim)) as (V & V1 & V2 & V3 & _).
  destruct (static_run_reports _ kernels (replay_static junk kt dt blockDim b evs Hrun mem es Hst Hot) V1 V2 V3)
    as (c' & Erun & Hsound & Hcomplete). rewrite V in Hsound, Hcomplete. simpl app in Hsound, Hcomplete.
  exists (c, (upd_finished true (upd_checker c' x), db)). split; [|split; [done|split; [|split] ] ].
  - rewrite do_all_app, E. cbn [mbind option_bind RaceSan.do_all]. unfold RaceSan.inner_do, Inner.Do. destruct s as [c0 [x0 db0] ].
    rewrite Hfin. cbn [negb]. rewrite Hr. cbn [mbind option_bind]. unfold run_checker. by rewrite Hck, Erun.
  - intros y Hy. destruct (Hsound y Hy) as (a & a' & m & m' & Hne & Ha & Ha' & Hrace & ->).
    exact (pair_sound junk kernels kt dt blockDim evs mem es Hst Hot a a' m m' Hne Ha Ha' Hrace).
  - intros Hemp i j e1 e2 Hrace. destruct Hend as [(_ & _ & Hall)|(_ & Hne & _)].
    + by apply (pair_complete junk kernels kt dt blockDim evs mem es Hst Hot _ i j e1 e2 Hall Hcomplete).
    + destruct Hne. by apply IsEmpty_spec.
  - intros k e rest Hk. destruct Hend as [(_ & Hall & _)|(_ & _ & Hall)]; [|by apply (Hall k e rest)].
    rewrite Forall_lookup in Hall. by apply Hall in Hk.
Qed.

(** *** An example: a write on the vector pipe, read after a flag, and a load that
    overlaps both without synchronisation. *)

Definition core_demo (p : PipeType) (i : EventInfo) : SanEvent :=
  {| serialNo := 0; pipe := p; eventInfo := i; loc := zero_loc; isAtomicMode := false;
     recordType := INVALID_RECORD_TYPE; closedRingStartSerialNo := 0 |}.

Definition demo_flag (t : SyncType) : EventInfo :=
  SyncInfo {| sync_opType := t; sync_srcPipe := PIPE_V; sync_dstPipe := PIPE_MTE3; sync_eventId := 0;
              sync_memType := MemType.UB; sync_isRetrogress := false; sync_isGenerated := false |}.

Definition demo_core : list SanEvent :=
  [core_demo PIPE_V (MemInfo (demo_op WRITE 0 1 1)); core_demo PIPE_V (demo_flag SET_FLAG);
   core_demo PIPE_MTE3 (demo_flag WAIT_FLAG); core_demo PIPE_MTE3 (MemInfo (demo_op READ 0 1 1));
   core_demo PIPE_MTE2 (MemInfo (demo_op WRITE 16 1 1))].

Definition demo_junk (_ : SanEvent) : MemOpInfo := demo_op READ 0 1 1.
Definition demo_finish : SanEvent := core_demo PIPE_S (ControlInfo CONTROL_KERNEL_FINISH).

(** The two races of the load; the read after the flag is ordered. *)
Example demo_core_races :
  (λ s : RaceAlgImpl, (λ y : Race.RaceDispInfo, (Race.err_pipeType (Race.p1 y), Race.err_pipeType (Race.p2 y))) <$> GetResult s.2.1) <$>
    RaceSan.do_all (RaceSan.inner_do demo_junk ∅ false) (demo_core ++ [demo_finish]) (new_RaceAlgImpl KT_AIVEC ASCEND_910_PREMIUM_A 1) =
  Some [(PipeType_code PIPE_MTE2, PipeType_code PIPE_V); (PipeType_code PIPE_MTE2, PipeType_code PIPE_MTE3)].
Proof. vm_compute. reflexivity. Qed.

Lemma demo_core_run : core_run KT_AIVEC ASCEND_910_PREMIUM_A 1 0 demo_core.
Proof.
  split; [vm_compute; split; done|vm_compute; done| |vm_compute; done].
  repeat (apply Forall_cons; split; [by split|]). constructor.
Qed.

Lemma demo_core_static : static_program demo_junk demo_core.
Proof.
  unfold static_program. change (program demo_core) with demo_core.
  assert (∀ p t a, 0 <= a < 100 → static_fits (access demo_junk (core_demo p (MemInfo (demo_op t a 1 1))))) as H.
  { intros p t a Ha. split; simpl; try done.
    - split; simpl; unfold block_base; simpl; lia.
    - by intros [? _].
    - unfold block_base. simpl. lia. }
  repeat (apply Forall_cons; split; [first [done|intros _; apply H; lia]|]). constructor.
Qed.

Lemma inner_happens_before_witness :
  ∃ s st c x db mem,
    RaceSan.do_all (RaceSan.inner_do demo_junk ∅ false) demo_core (new_RaceAlgImpl KT_AIVEC ASCEND_910_PREMIUM_A 1) = Some s ∧
    Run (Some (ProcessEvent demo_junk)) (race_fuel s.1) (CHECK_ALL_DEVICE, s) = Some (st, (c, (x, db))) ∧
    ordered_times demo_junk KT_AIVEC ASCEND_910_PREMIUM_A demo_core mem (Checker.events_ (memChecker_ x)).
Proof.
  destruct (inner_happens_before demo_junk ∅ false _ _ _ _ _ demo_core_run) as (s & st & c & x & db & mem & H1 & H2 & H3 & _).
  exists s, st, c, x, db, mem. exact (conj H1 (conj H2 H3)).
Defined.

Lemma inner_races_exact_witness :
  ∃ s, RaceSan.do_all (RaceSan.inner_do demo_junk ∅ false) (demo_core ++ [demo_finish])
         (new_RaceAlgImpl KT_AIVEC ASCEND_910_PREMIUM_A 1) = Some s ∧
    ∀ y, y ∈ GetResult s.2.1 → ∃ i j e1 e2, program_race demo_junk demo_core i j e1 e2 ∧
      y = pair_message (access demo_junk e1) (access demo_junk e2).
Proof.
  destruct (inner_races_exact demo_junk ∅ _ _ _ _ _ demo_finish demo_core_run demo_core_static eq_refl) as (s & H1 & _ & H2 & _).
  exists s. exact (conj H1 H2).
Defined.
