(* ===== verification/SpanTheorems.v ===== *)
(** The shared memory of the devices: the sorted vector of [Spans] is exactly the
    union of the ranges that were added. *)
From stdpp Require Import base numbers option gmap sets sorting strings list.
From S2P Require Import Prelude.
From S2P Require Import CrossNpuAlg.
Import Spans DeviceManager.

(** The numbers of an interval and of a vector of intervals. *)
Definition within (s : Span) (x : Z) : Prop := s.1 <= x < s.2.
Definition covers (l : Spans) (x : Z) : Prop := ∃ s, s ∈ l ∧ within s x.

Lemma covers_nil x : covers [] x ↔ False.
Proof. split; [|done]. by intros (s & ?%elem_of_nil & _). Qed.

Lemma covers_cons s l x : covers (s :: l) x ↔ within s x ∨ covers l x.
Proof. unfold covers. setoid_rewrite elem_of_cons. naive_solver. Qed.

Lemma covers_app l1 l2 x : covers (l1 ++ l2) x ↔ covers l1 x ∨ covers l2 x.
Proof. unfold covers. setoid_rewrite elem_of_app. naive_solver. Qed.

(** Non-empty intervals in increasing order with gaps between them. *)
Record spans_ok (l : Spans) : Prop := {
  s_sorted : StronglySorted (λ a b : Span, a.2 < b.1) l;
  s_size : Forall (λ s : Span, s.1 < s.2) l;
}.

Lemma spans_ok_app l1 l2 :
  spans_ok (l1 ++ l2) ↔ spans_ok l1 ∧ spans_ok l2 ∧ ∀ s1 s2, s1 ∈ l1 → s2 ∈ l2 → s1.2 < s2.1.
Proof.
  split.
  - intros [(H1 & H2 & H3)%StronglySorted_app [H4 H5]%Forall_app]. split_and!; [by split..|done].
  - intros ([] & [] & H). split; [by apply StronglySorted_app|by apply Forall_app].
Qed.

Lemma spans_ok_cons s l : spans_ok (s :: l) ↔ s.1 < s.2 ∧ spans_ok l ∧ ∀ s', s' ∈ l → s.2 < s'.1.
Proof.
  split.
  - intros [ [Hs Hf]%StronglySorted_inv [Hn Hl]%Forall_cons]. rewrite Forall_forall in Hf. by split_and!.
  - intros (Hn & [Hs Hl] & Hf). split; [constructor; [done|by apply Forall_forall]|by constructor].
Qed.

Lemma spans_nil : spans_ok [].
Proof. split; constructor. Qed.

(** [std::upper_bound] splits the vector. *)
Lemma until_from p l : until p l ++ from p l = l.
Proof. induction l as [|s l IH]; [done|]. simpl. destruct (p s); simpl; [done|by rewrite IH]. Qed.

Lemma until_spec p l s : s ∈ until p l → p s = false.
Proof.
  induction l as [|s' l IH]; simpl; [by intros ?%elem_of_nil|]. destruct (p s') eqn:E; [by intros ?%elem_of_nil|].
  intros [->|?]%elem_of_cons; auto.
Qed.

Lemma from_spec p l :
  (∀ a b l1 l2 l3, l = l1 ++ a :: l2 ++ b :: l3 → p a = true → p b = true) → ∀ s, s ∈ from p l → p s = true.
Proof.
  induction l as [|s' l IH]; intros Hm s; simpl; [by intros ?%elem_of_nil|]. destruct (p s') eqn:E.
  - intros [->|Hs]%elem_of_cons; [done|]. apply list_elem_of_split in Hs as (l2 & l3 & ->).
    by apply (Hm s' s [] l2 l3).
  - apply IH. intros a b l1 l2 l3 ->. by apply (Hm a b (s' :: l1) l2 l3).
Qed.

Lemma spans_order l a b l1 l2 l3 : spans_ok l → l = l1 ++ a :: l2 ++ b :: l3 → a.2 < b.1 ∧ a.1 < a.2 ∧ b.1 < b.2.
Proof.
  intros Hl ->. apply spans_ok_app in Hl as (_ & Hl & _). apply spans_ok_cons in Hl as (Ha & Hl & Hab).
  apply spans_ok_app in Hl as (_ & Hl & _). apply spans_ok_cons in Hl as (Hb & _ & _).
  split_and!; try done. apply Hab. apply elem_of_app. right. by left.
Qed.

(** The loop of [Union]. *)
Lemma absorb_spec lo v l :
  spans_ok l → lo <= v → (∀ s, s ∈ l → lo <= s.1) →
  let r := absorb v l in
  spans_ok r.2 ∧ v <= r.1 ∧ (∀ s, s ∈ r.2 → r.1 < s.1) ∧
  ∀ x, lo <= x → (x < r.1 ∨ covers r.2 x) ↔ (x < v ∨ covers l x).
Proof.
  revert v. induction l as [|s l IH]; intros v Hl Hv Hlo; simpl.
  - split_and!; [done|lia|by intros ? ?%elem_of_nil|]. intros x Hx. rewrite covers_nil. tauto.
  - pose proof Hl as (Hs & Hl' & Hsl)%spans_ok_cons. destruct (Z.ltb_spec v s.1); simpl.
    + split_and!; [done|lia| |done]. intros s' [->|Hs']%elem_of_cons; [done|]. specialize (Hsl _ Hs'). lia.
    + destruct (IH (Z.max v s.2) Hl') as (H1 & H2 & H3 & H4); [lia|intros; apply Hlo; by right|].
      split_and!; [done|lia|done|]. intros x Hx. rewrite (H4 x Hx), covers_cons. unfold within.
      split.
      * intros [?|?]; [|tauto]. destruct (decide (x < v)); [tauto|right; left; lia].
      * intros [?|[?|?] ]; [left; lia|left; lia|tauto].
Qed.

Lemma place_spec (before : Spans) (it : Span) v (after : Spans) :
  spans_ok before → spans_ok after → it.1 < v → (∀ s, s ∈ before → s.2 < it.1) → (∀ s, s ∈ after → it.1 <= s.1) →
  let r := absorb v after in
  spans_ok (before ++ (it.1, r.1) :: r.2) ∧
  ∀ x, covers (before ++ (it.1, r.1) :: r.2) x ↔ covers before x ∨ within (it.1, v) x ∨ covers after x.
Proof.
  intros Hb Ha Hv Hbi Hai r. destruct (absorb_spec it.1 v after Ha) as (H1 & H2 & H3 & H4); [lia|done|]. fold r in H1, H2, H3, H4.
  split.
  - apply spans_ok_app. split; [done|]. split.
    + apply spans_ok_cons. split_and!; [simpl; lia|done|]. intros s Hs. simpl. by apply H3.
    + intros s1 s2 Hs1 [->|Hs2]%elem_of_cons; [by apply Hbi|]. specialize (Hbi _ Hs1). specialize (H3 _ Hs2). lia.
  - intros x. rewrite covers_app, covers_cons. unfold within at 1 2. simpl.
    destruct (decide (it.1 <= x)) as [Hx|Hx].
    + specialize (H4 x Hx). destruct (decide (x < r.1)), (decide (x < v)); naive_solver lia.
    + assert (¬ covers after x) by (intros (s & Hs & ?); specialize (Hai s Hs); unfold within in *; lia).
      assert (¬ covers r.2 x) by (intros (s & Hs & ?); specialize (H3 s Hs); unfold within in *; lia).
      split; [intros [?|[?|?] ]; [tauto|lia|tauto]|intros [?|[?|?] ]; [tauto|lia|tauto] ].
Qed.

Lemma until_last p l prev : last (until p l) = Some prev → until p l = removelast (until p l) ++ [prev].
Proof. intros [l' ->]%last_Some. by rewrite removelast_last. Qed.

(** [Union] adds the numbers of an interval and keeps the order. *)
Lemma Union_spec (s : Span) (l : Spans) :
  spans_ok l → s.1 < s.2 → spans_ok (Union s l) ∧ ∀ x, covers (Union s l) x ↔ within s x ∨ covers l x.
Proof.
  intros Hl Hs. unfold Union. set (p := λ b : Span, s.1 <? b.1).
  assert (∀ b, b ∈ from p l → s.1 < b.1) as Haft.
  { intros b Hb. apply Z.ltb_lt. apply (from_spec p l); [|done]. intros a c l1 l2 l3 E Ha. unfold p in *.
    pose proof (spans_order l a c l1 l2 l3 Hl E). lia. }
  assert (∀ b, b ∈ until p l → b.1 <= s.1) as Hbef.
  { intros b Hb%until_spec. unfold p in Hb. lia. }
  pose proof (until_from p l) as Hsplit. rewrite <- Hsplit in Hl. apply spans_ok_app in Hl as (Hb & Ha & Hba).
  assert (∀ x, covers l x ↔ covers (until p l) x ∨ covers (from p l) x) as Hcov by (intros x; by rewrite <- covers_app, Hsplit).
  assert ((∀ b, b ∈ until p l → b.2 < s.1) → let r := absorb s.2 (from p l) in
    spans_ok (until p l ++ (s.1, r.1) :: r.2) ∧
    ∀ x, covers (until p l ++ (s.1, r.1) :: r.2) x ↔ within s x ∨ covers l x) as Hins.
  { intros Hgap. destruct (place_spec (until p l) s s.2 (from p l)) as [H1 H2]; try done; [intros b Hb'%Haft; lia|].
    split; [done|]. intros x. rewrite H2, Hcov. destruct s. tauto. }
  destruct (last (until p l)) as [prev|] eqn:Hlast.
  - pose proof (until_last p l prev Hlast) as E. set (init := removelast (until p l)) in *.
    assert (prev ∈ until p l) as Hprev by (rewrite E; apply elem_of_app; right; by left).
    assert (spans_ok init ∧ prev.1 < prev.2 ∧ ∀ b, b ∈ init → b.2 < prev.1) as (Hi & Hp & Hip).
    { rewrite E in Hb. apply spans_ok_app in Hb as (Hi & Hp & Hip). apply spans_ok_cons in Hp as (Hp & _ & _).
      split_and!; try done. intros b Hb. apply Hip; [done|by left]. }
    destruct (Z.leb_spec s.1 prev.2).
    + pose proof (Hbef _ Hprev). destruct (place_spec init prev (Z.max prev.2 s.2) (from p l)) as [H1 H2]; try done; [lia|intros b Hb'%Haft; lia|].
      cbn [fst snd]. destruct (absorb (Z.max prev.2 s.2) (from p l)) as [m rest]. cbn [fst snd] in H1, H2. split; [done|]. intros x.
      rewrite H2, Hcov, E, covers_app, covers_cons, covers_nil. unfold within. simpl.
      assert (prev.1 <= x < Z.max prev.2 s.2 ↔ (prev.1 <= x < prev.2 ∨ s.1 <= x < s.2)) as -> by lia. tauto.
    + destruct (absorb s.2 (from p l)) as [m rest]. apply Hins. intros b Hb'. rewrite E in Hb'.
      apply elem_of_app in Hb' as [Hb'|Hb']; [specialize (Hip _ Hb'); lia|]. by apply list_elem_of_singleton in Hb' as ->.
  - apply last_None in Hlast. destruct (absorb s.2 (from p l)) as [m rest]. apply Hins. rewrite Hlast. by intros b ?%elem_of_nil.
Qed.

Lemma intersects_spec (s : Span) (l : Spans) :
  spans_ok l → s.1 < s.2 → intersects s l = true ↔ ∃ x, within s x ∧ covers l x.
Proof.
  intros Hl Hs. induction l as [|b l IH]; simpl.
  - split; [done|]. intros (x & _ & []%covers_nil).
  - apply spans_ok_cons in Hl as (Hb & Hl & Hbl). destruct (Z.ltb_spec s.1 b.2), (Z.ltb_spec b.1 s.2); simpl.
    + split; [|done]. intros _. exists (Z.max s.1 b.1). unfold within. rewrite covers_cons. unfold within. split; [lia|left; lia].
    + destruct (Z.leb_spec s.2 b.1); [|lia]. split; [done|]. intros (x & Hx & [Hbx|(b' & Hb' & Hx')]%covers_cons).
      * unfold within in *. lia.
      * specialize (Hbl _ Hb'). unfold within in *. lia.
    + destruct (Z.leb_spec s.2 b.1); [lia|]. rewrite (IH Hl). split.
      * intros (x & Hx & Hc). exists x. split; [done|]. apply covers_cons. by right.
      * intros (x & Hx & [Hbx|Hc]%covers_cons); [unfold within in *; lia|eauto].
    + lia.
Qed.

Lemma HasIntersection_spec (s : Span) (l : Spans) :
  spans_ok l → s.1 < s.2 → HasIntersection s l = true ↔ ∃ x, within s x ∧ covers l x.
Proof.
  intros Hl Hs. unfold HasIntersection. set (p := λ b : Span, s.1 <? b.2). pose proof (until_from p l) as Hsplit.
  rewrite <- Hsplit in Hl. apply spans_ok_app in Hl as (_ & Ha & _). rewrite intersects_spec by done.
  assert (∀ x, covers l x ↔ covers (until p l) x ∨ covers (from p l) x) as Hcov by (intros x; by rewrite <- covers_app, Hsplit).
  setoid_rewrite Hcov. split; [naive_solver|].
  intros (x & Hx & [(b & Hb%until_spec & Hbx)|H]); [|eauto]. unfold p, within in *. lia.
Qed.

(** ** Sharing memory *)

(** The ranges that were shared, device by device. *)
Definition share (d : DeviceManager) (l : list (Z * Span)) : DeviceManager :=
  foldl (λ d r, UnionSharedMemory r.1 r.2 d) d l.

Definition no_devices : DeviceManager := mkManager ∅ ∅.

Lemma shared_after_union id id' s d :
  GetSharedMemorySpans id' (UnionSharedMemory id s d) =
  if decide (id' = id) then Union s (GetSharedMemorySpans id d) else GetSharedMemorySpans id' d.
Proof.
  unfold GetSharedMemorySpans, UnionSharedMemory. simpl. rewrite lookup_insert.
  destruct (decide (id' = id)) as [->|]; [by rewrite decide_True|by rewrite decide_False].
Qed.

Lemma share_spec l id :
  Forall (λ r : Z * Span, r.2.1 < r.2.2) l →
  let t := GetSharedMemorySpans id (share no_devices l) in
  spans_ok t ∧ ∀ x, covers t x ↔ ∃ s, (id, s) ∈ l ∧ within s x.
Proof.
  intros Hl. induction l as [|[id' s] l IH] using rev_ind.
  - simpl. split; [apply spans_nil|]. intros x. split; [by intros []%covers_nil|]. by intros (s & ?%elem_of_nil & _).
  - apply Forall_app in Hl as [Hl [Hs _]%Forall_cons]. destruct (IH Hl) as [H1 H2]. unfold share in *. rewrite foldl_app. simpl.
    rewrite shared_after_union. setoid_rewrite elem_of_app. setoid_rewrite list_elem_of_singleton.
    destruct (decide (id = id')) as [->|Hne].
    + destruct (Union_spec s _ H1 Hs) as [H3 H4]. split; [done|]. intros x. rewrite H4, H2. naive_solver.
    + split; [done|]. intros x. rewrite H2. naive_solver.
Qed.

(** C26: whatever ranges were shared, in any order and overlapping or not, the
    vector of a device stays sorted with gaps, and an access is found to meet
    shared memory exactly when a byte of it was shared for that device. *)
Theorem shared_memory_exact l id (s : Span) :
  Forall (λ r : Z * Span, r.2.1 < r.2.2) l → s.1 < s.2 →
  spans_ok (GetSharedMemorySpans id (share no_devices l)) ∧
  (HasIntersection s (GetSharedMemorySpans id (share no_devices l)) = true ↔
   ∃ x s', within s x ∧ (id, s') ∈ l ∧ within s' x).
Proof.
  intros Hl Hs. destruct (share_spec l id Hl) as [H1 H2]. split; [done|]. rewrite HasIntersection_spec by done.
  setoid_rewrite H2. naive_solver.
Qed.

Lemma shared_memory_exact_witness :
  let l := [(0, (10, 20)); (1, (0, 100)); (0, (30, 40)); (0, (15, 30))] in
  GetSharedMemorySpans 0 (share no_devices l) = [(10, 40)] ∧
  (HasIntersection (39, 50) (GetSharedMemorySpans 0 (share no_devices l)) = true ↔
   ∃ x s', within (39, 50) x ∧ (0, s') ∈ l ∧ within s' x).
Proof.
  intros l. split; [vm_compute; reflexivity|].
  refine (proj2 (shared_memory_exact l 0 (39, 50) _ _)); [|simpl; lia].
  repeat (apply Forall_cons; split; [simpl; lia|]). constructor.
Defined.
