(* ===== verification/DcciTheorems.v ===== *)
(** The window of records of the cache-maintenance check
    ([csrc/race_sanitizer/race_sanitizer.cpp], [DoEvents] and [PopWindowRecord]):
    the records come out in order, each with the maintenance instructions among
    the five records before it and the four records after it. *)
From stdpp Require Import base numbers option gmap sets strings list.
From S2P Require Import Prelude.
From S2P Require Import RecordDefs.
From S2P Require Import Platform.
From S2P Require Import EventDef.
From S2P Require Import EventContainer.
From S2P Require Import KernelRecords.
From S2P Require Import RaceSanitizer.
Import Dcci.

Section window.
Context (deviceType : DeviceType).







Context (all : list entry) (n0 : Z).
Context (Hserial : ∀ i (r : entry), all !! i = Some r → kr_serialNo (kernelRecord r.1) = n0 + Z.of_nat i)
  (Hrange : 0 <= n0 ∧ n0 + Z.of_nat (length all) + 5 < 18446744073709551616).











End window.

(** ** The nearest effective maintenance *)











Section nearest.
Context (deviceType : DeviceType) (m : MemOpInfo).


End nearest.

Section annotate.
Context (deviceType : DeviceType) (all : list entry) (n0 : Z).
Context (Hserial : ∀ i (r : entry), all !! i = Some r → kr_serialNo (kernelRecord r.1) = n0 + Z.of_nat i).





End annotate.




