(* ===== verification/Wire.v ===== *)
(** The byte stream between the hooked process and the tool.

    [csrc/core/framework/protocol.cpp] and [protocol.h] (packet headers, the
    extractor and [MemCheckProtocol]), [utility/serializer.h],
    [utility/recv_fd.h], [binary_buffer.h], the sending side
    [HookReport::WriteOrdered] of [csrc/hooks/hook_report.cpp], and the receive
    loop of [Command::Exec] ([command.cpp]). *)
From stdpp Require Import base numbers option list list_numbers.
From S2P Require Import Prelude.

Definition bytes : Type := list Z.

(** [std::string::size] *)
Definition size (s : bytes) : Z := Z.of_nat (length s).

(** ** Packet types and heads *)

Inductive PacketType :=
  | DEVICE_SUMMARY | KERNEL_SUMMARY | KERNEL_BINARY | LOG_STRING
  | MEMORY_RECORD | KERNEL_RECORD | IPC_RECORD | MEM_REGION_PERMISSION | SANITIZER_RECORD
  | GM_ADDR_OUT_OF_BOUND_RECORD | PEER_ACCESS_RECORD
  | IPC_RESPONSE | KERNEL_RECORD_RESPONSE | INVALID
  | OTHER_TYPE (code : Z).  (** any other value of the 32-bit enumeration *)
#[export] Instance PacketType_eq : EqDecision PacketType. Proof. solve_decision. Defined.

Definition PacketType_code (t : PacketType) : Z :=
  match t with
  | DEVICE_SUMMARY => 0 | KERNEL_SUMMARY => 1 | KERNEL_BINARY => 2 | LOG_STRING => 3
  | MEMORY_RECORD => 1000 | KERNEL_RECORD => 1001 | IPC_RECORD => 1002 | MEM_REGION_PERMISSION => 1003
  | SANITIZER_RECORD => 1004 | GM_ADDR_OUT_OF_BOUND_RECORD => 1005 | PEER_ACCESS_RECORD => 1006
  | IPC_RESPONSE => 3000 | KERNEL_RECORD_RESPONSE => 3001 | INVALID => 4294967295
  | OTHER_TYPE code => code
  end.

Definition named_types : list PacketType :=
  [DEVICE_SUMMARY; KERNEL_SUMMARY; KERNEL_BINARY; LOG_STRING; MEMORY_RECORD; KERNEL_RECORD; IPC_RECORD;
   MEM_REGION_PERMISSION; SANITIZER_RECORD; GM_ADDR_OUT_OF_BOUND_RECORD; PEER_ACCESS_RECORD; IPC_RESPONSE;
   KERNEL_RECORD_RESPONSE; INVALID].

(** The value of the enumeration with a given code. *)
Definition PacketType_of (code : Z) : PacketType :=
  match find (λ t, PacketType_code t =? code) named_types with Some t => t | None => OTHER_TYPE code end.

Definition IsKnownPacketType (t : PacketType) : bool :=
  match t with
  | DEVICE_SUMMARY | KERNEL_SUMMARY | KERNEL_BINARY | LOG_STRING | MEMORY_RECORD | KERNEL_RECORD | IPC_RECORD
  | MEM_REGION_PERMISSION | SANITIZER_RECORD | GM_ADDR_OUT_OF_BOUND_RECORD | PEER_ACCESS_RECORD
  | IPC_RESPONSE | KERNEL_RECORD_RESPONSE => true
  | INVALID | OTHER_TYPE _ => false
  end.

Definition IsBinaryPacket (t : PacketType) : bool :=
  match t with KERNEL_BINARY | LOG_STRING | KERNEL_RECORD => true | _ => false end.

Record PacketHead := mkHead { type : PacketType; reserved : Z; orderId : Z }.

(** [Serialize] and [Deserialize] of the integers of a head: their bytes in
    memory, little endian. *)
Definition Serialize_u32 (x : Z) : bytes := Z_to_little_endian 4 8 x.
Definition Serialize_u64 (x : Z) : bytes := Z_to_little_endian 8 8 x.
Definition Deserialize (s : bytes) : Z := little_endian_to_Z 8 s.

Definition HEAD_SIZE : Z := 16.  (** [sizeof(PacketHead)] *)
Definition Serialize_head (h : PacketHead) : bytes :=
  Serialize_u32 (PacketType_code (type h)) ++ Serialize_u32 (reserved h) ++ Serialize_u64 (orderId h).
Definition Deserialize_head (s : bytes) : PacketHead :=
  mkHead (PacketType_of (Deserialize (take 4 s))) (Deserialize (take 4 (drop 4 s))) (Deserialize (take 8 (drop 8 s))).

(** A packet: the payload is the object representation of the structure, or the
    bytes of a binary; a binary received as a file is [binaryBuffer_]. *)
Record Packet := mkPacket { type_ : PacketType; orderId_ : Z; payload_ : bytes; binaryBuffer_ : option bytes }.
Definition no_packet : Packet := mkPacket INVALID 0 [] None.
Definition SetOrderId (n : Z) (p : Packet) : Packet := mkPacket (type_ p) n (payload_ p) (binaryBuffer_ p).

(** ** The buffer of received bytes *)
Module Extractor.
Record Extractor := mkExtractor { bytes_ : bytes; offset_ : Z }.
Definition new_Extractor : Extractor := mkExtractor [] 0.

Definition BYTES_DROP_THRESHOLD : Z := 1024.
Definition MAX_STREAM_LEN : Z := 107374182400.

Definition Size (e : Extractor) : Z := size (bytes_ e) -u offset_ e.

(** [std::string::substr], which throws when [pos] is past the end. *)
Definition substr (pos : Z) (n : Z) (s : bytes) : option bytes :=
  if size s <? pos then None else Some (take (Z.to_nat n) (drop (Z.to_nat pos) s)).

Definition DropUsedBytes (e : Extractor) : option Extractor :=
  let offset := Z.min (offset_ e) (size (bytes_ e)) in
  s ← substr offset (size (bytes_ e)) (bytes_ e); Some (mkExtractor s 0).

(** The result is the bytes read, if there are enough; [None] is an exception. *)
Definition Read (n : Z) (e : Extractor) : option (Extractor * option bytes) :=
  if size (bytes_ e) <? offset_ e +u n then Some (e, None)
  else if (offset_ e =? 0) && (n =? size (bytes_ e)) then Some (mkExtractor [] 0, Some (bytes_ e))
  else
    buffer ← substr (offset_ e) n (bytes_ e);
    let e := mkExtractor (bytes_ e) (offset_ e +u n) in
    e ← (if BYTES_DROP_THRESHOLD <? offset_ e then DropUsedBytes e else Some e);
    Some (e, Some buffer).

Definition Feed (msg : bytes) (e : Extractor) : Extractor :=
  if size (bytes_ e) +u size msg <? MAX_STREAM_LEN then mkExtractor (bytes_ e ++ msg) (offset_ e) else e.
End Extractor.
Import Extractor.

(** ** [MemCheckProtocol]

    Each receiving thread has one protocol; [head] and [size] of [GetPacket] and
    [GetBinaryData] and the queue of received files are variables of the thread. *)
Module Protocol.
Record MemCheckProtocol := mkProtocol {
  extractor_ : Extractor; pendingBinaryFd_ : Z;
  head : PacketHead; binary_size : Z; RecvFdQueue : list Z;
}.
Definition new_MemCheckProtocol : MemCheckProtocol := mkProtocol new_Extractor (-1) (mkHead INVALID 0 0) 0 [].

Definition upd_extractor (e : Extractor) (p : MemCheckProtocol) : MemCheckProtocol :=
  mkProtocol e (pendingBinaryFd_ p) (head p) (binary_size p) (RecvFdQueue p).
Definition upd_fd (fd : Z) (q : list Z) (p : MemCheckProtocol) : MemCheckProtocol :=
  mkProtocol (extractor_ p) fd (head p) (binary_size p) q.
Definition upd_head (h : PacketHead) (p : MemCheckProtocol) : MemCheckProtocol :=
  mkProtocol (extractor_ p) (pendingBinaryFd_ p) h (binary_size p) (RecvFdQueue p).
Definition upd_size (n : Z) (p : MemCheckProtocol) : MemCheckProtocol :=
  mkProtocol (extractor_ p) (pendingBinaryFd_ p) (head p) n (RecvFdQueue p).

Definition MAX_LEGAL_ELF_SEGMENT_SIZE : Z := 17179869184.

Definition PushRecvFd (fd : Z) (p : MemCheckProtocol) : MemCheckProtocol :=
  upd_fd (pendingBinaryFd_ p) (RecvFdQueue p ++ [fd]) p.
Definition PopRecvFd (q : list Z) : list Z * Z := match q with [] => ([], -1) | fd :: q => (q, fd) end.

Section protocol.
(** The sizes of the structures, which the compiler lays out, and [mmap], which
    gives the contents of a file or fails. *)
Context (sizeof : PacketType → Z) (mmap : Z → Z → option bytes).

Definition FromMappedFd (fd len : Z) : option bytes := if (fd <? 0) || (len =? 0) then None else mmap fd len.

Definition read (n : Z) (p : MemCheckProtocol) : option (MemCheckProtocol * option bytes) :=
  r ← Read n (extractor_ p); let '(e, s) := r in Some (upd_extractor e p, s).

Definition GetPacketHead (p : MemCheckProtocol) : option (MemCheckProtocol * bool) :=
  r ← read HEAD_SIZE p;
  let '(p, s) := r in
  match s with
  | None => Some (p, false)
  | Some s =>
      let h := Deserialize_head s in
      let h := if IsKnownPacketType (type h) then h else mkHead INVALID (reserved h) (orderId h) in
      Some (upd_head h p, true)
  end.

Definition GetTriviallyCopyable (t : PacketType) (p : MemCheckProtocol) : option (MemCheckProtocol * Packet) :=
  r ← read (sizeof t) p;
  let '(p, s) := r in
  Some (p, match s with Some s => mkPacket t 0 s None | None => no_packet end).

Definition GetBinaryData (p : MemCheckProtocol) : option (MemCheckProtocol * option bytes) :=
  r ← (if binary_size p =? 0 then
         r ← read 8 p;
         let '(p, s) := r in
         match s with
         | None => Some (p, false)
         | Some s =>
             let n := Deserialize s in
             if MAX_LEGAL_ELF_SEGMENT_SIZE <? n then Some (upd_size 0 p, false) else Some (upd_size n p, true)
         end
       else Some (p, true));
  let '(p, ok) := r in
  if negb ok then Some (p, None)
  else if Size (extractor_ p) <? binary_size p then Some (p, None)
  else
    r ← read (binary_size p) p;
    let '(p, s) := r in
    match s with Some s => Some (upd_size 0 p, Some s) | None => Some (p, None) end.

Definition GetBinaryDataPacket (t : PacketType) (p : MemCheckProtocol) : option (MemCheckProtocol * Packet) :=
  r ← GetBinaryData p;
  let '(p, s) := r in
  Some (p, match s with Some s => mkPacket t 0 s None | None => no_packet end).

Definition GetKernelBinaryPacket (p : MemCheckProtocol) : option (MemCheckProtocol * Packet) :=
  let p := if pendingBinaryFd_ p <? 0
           then let '(q, fd) := PopRecvFd (RecvFdQueue p) in upd_fd fd q p else p in
  if pendingBinaryFd_ p <? 0 then GetBinaryDataPacket KERNEL_BINARY p
  else
    r ← read 8 p;
    let '(p, s) := r in
    match s with
    | None => Some (p, no_packet)
    | Some s =>
        let buffer := FromMappedFd (pendingBinaryFd_ p) (Deserialize s) in
        let p := upd_fd (-1) (RecvFdQueue p) p in
        Some (p, match buffer with
                 | None => no_packet
                 | Some b => mkPacket KERNEL_BINARY 0 [] (Some b)
                 end)
    end.

Definition GetPayLoad (h : PacketHead) (p : MemCheckProtocol) : option (MemCheckProtocol * Packet) :=
  match type h with
  | DEVICE_SUMMARY => GetTriviallyCopyable DEVICE_SUMMARY p
  | KERNEL_SUMMARY => GetTriviallyCopyable KERNEL_SUMMARY p
  | MEMORY_RECORD => GetTriviallyCopyable MEMORY_RECORD p
  | KERNEL_RECORD => GetBinaryDataPacket KERNEL_RECORD p
  | IPC_RECORD => GetTriviallyCopyable IPC_RECORD p
  | PEER_ACCESS_RECORD => GetTriviallyCopyable PEER_ACCESS_RECORD p
  | SANITIZER_RECORD => GetTriviallyCopyable SANITIZER_RECORD p
  | MEM_REGION_PERMISSION => GetTriviallyCopyable MEM_REGION_PERMISSION p
  | KERNEL_BINARY => GetKernelBinaryPacket p
  | LOG_STRING => GetBinaryDataPacket LOG_STRING p
  | GM_ADDR_OUT_OF_BOUND_RECORD => GetTriviallyCopyable GM_ADDR_OUT_OF_BOUND_RECORD p
  | INVALID | IPC_RESPONSE | KERNEL_RECORD_RESPONSE | OTHER_TYPE _ => Some (p, no_packet)
  end.

Definition Feed (msg : bytes) (p : MemCheckProtocol) : MemCheckProtocol :=
  if negb (size msg =? 0) then upd_extractor (Extractor.Feed msg (extractor_ p)) p else p.

Definition GetPacket (p : MemCheckProtocol) : option (MemCheckProtocol * Packet) :=
  r ← (if bool_decide (type (head p) = INVALID) then GetPacketHead p else Some (p, true));
  let '(p, ok) := r in
  if negb ok then Some (p, no_packet)
  else
    r ← GetPayLoad (head p) p;
    let '(p, packet) := r in
    if bool_decide (type_ packet = INVALID) then Some (p, packet)
    else Some (upd_head (mkHead INVALID (reserved (head p)) (orderId (head p))) p, SetOrderId (orderId (head p)) packet).

(** The loop of [msgSplitFunc]: the packets it submits, in order. *)
Fixpoint packets (fuel : nat) (p : MemCheckProtocol) : option (MemCheckProtocol * list Packet) :=
  match fuel with
  | O => None
  | S fuel =>
      r ← GetPacket p;
      let '(p, packet) := r in
      if bool_decide (type_ packet = INVALID) then Some (p, [])
      else r ← packets fuel p; let '(p, l) := r in Some (p, packet :: l)
  end.

(** [msgSplitFunc] for one message. Every packet takes a head of 16 bytes. *)
Definition msgSplit (msg : bytes) (p : MemCheckProtocol) : option (MemCheckProtocol * list Packet) :=
  let p := Feed msg p in packets (S (S (length (bytes_ (extractor_ p))))) p.

Fixpoint receive (msgs : list bytes) (p : MemCheckProtocol) : option (MemCheckProtocol * list Packet) :=
  match msgs with
  | [] => Some (p, [])
  | msg :: msgs =>
      r ← msgSplit msg p;
      let '(p, l) := r in
      r ← receive msgs p;
      let '(p, l') := r in Some (p, l ++ l')
  end.
End protocol.
End Protocol.

(** ** The sending side *)
Module Report.
(** [client_], whether it exists; [write] is the outcome of the write. *)
Record HookReport := mkReport { client_ : bool; nextOrderId_ : Z; sendFailed_ : bool }.

(** The result is the message handed to the socket and whether it was sent. *)
Definition WriteOrdered (write : bytes → bool) (message : bytes) (r : HookReport) : HookReport * option bytes * bool :=
  if negb (client_ r) || sendFailed_ r || (size message <? HEAD_SIZE) then (r, None, false)
  else
    let h := Deserialize_head (take 16 message) in
    let h := mkHead (type h) (reserved h) (nextOrderId_ r) in
    let message := Serialize_head h ++ drop 16 message in
    let r := mkReport (client_ r) (nextOrderId_ r +u 1) (sendFailed_ r) in
    if write message then (r, Some message, true)
    else (mkReport (client_ r) (nextOrderId_ r) true, Some message, false).

(** The messages of the reporting functions, before they are numbered. *)
Definition report_message (t : PacketType) (payload : bytes) : bytes :=
  if IsBinaryPacket t then Serialize_head (mkHead t 0 0) ++ Serialize_u64 (size payload) ++ payload
  else Serialize_head (mkHead t 0 0) ++ payload.
End Report.
