(* ===== verification/WireTheorems.v ===== *)
(** The byte stream of [Wire.v]: however the stream of a sender is cut into
    messages, the receiver gets the packets that were sent, in order, each as
    soon as its last byte has arrived. *)
From stdpp Require Import base numbers option list list_numbers.
From S2P Require Import Prelude.
From S2P Require Import Wire.
Import Extractor Protocol.

(** ** Heads *)

Lemma size_app (s t : bytes) : size (s ++ t) = size s + size t.
Proof. unfold size. rewrite length_app. lia. Qed.
Lemma size_nil : size [] = 0. Proof. done. Qed.
Lemma size_nonneg (s : bytes) : 0 <= size s. Proof. unfold size. lia. Qed.

Lemma size_u32 x : size (Serialize_u32 x) = 4.
Proof. unfold size, Serialize_u32. by rewrite length_Z_to_little_endian. Qed.
Lemma size_u64 x : size (Serialize_u64 x) = 8.
Proof. unfold size, Serialize_u64. by rewrite length_Z_to_little_endian. Qed.
Lemma size_head h : size (Serialize_head h) = 16.
Proof. unfold Serialize_head. by rewrite !size_app, !size_u32, size_u64. Qed.

Lemma Deserialize_u32 x : 0 <= x < 4294967296 → Deserialize (Serialize_u32 x) = x.
Proof.
  intros. unfold Deserialize, Serialize_u32. rewrite little_endian_to_Z_to_little_endian by lia.
  change (2 ^ (4 * 8)) with 4294967296. by apply Z.mod_small.
Qed.
Lemma Deserialize_u64 x : is_u64 x → Deserialize (Serialize_u64 x) = x.
Proof.
  intros. unfold Deserialize, Serialize_u64. rewrite little_endian_to_Z_to_little_endian by lia.
  change (2 ^ (8 * 8)) with 18446744073709551616. by apply Z.mod_small.
Qed.

Lemma take_size (s t : bytes) n : size s = Z.of_nat n → take n (s ++ t) = s.
Proof. unfold size. intros. rewrite take_app_length' by lia. done. Qed.
Lemma drop_size (s t : bytes) n : size s = Z.of_nat n → drop n (s ++ t) = t.
Proof. unfold size. intros. rewrite drop_app_length' by lia. done. Qed.

Lemma PacketType_of_code t : IsKnownPacketType t = true → PacketType_of (PacketType_code t) = t.
Proof. by destruct t. Qed.
Lemma PacketType_code_u32 t : IsKnownPacketType t = true → 0 <= PacketType_code t < 4294967296.
Proof. destruct t; simpl; intros; first [lia|done]. Qed.

Lemma Deserialize_Serialize_head h :
  IsKnownPacketType (type h) = true → 0 <= reserved h < 4294967296 → is_u64 (orderId h) →
  Deserialize_head (Serialize_head h) = h.
Proof.
  intros Ht Hr Ho. unfold Deserialize_head, Serialize_head. destruct h as [t r o]. cbn [type reserved orderId] in *.
  rewrite (take_size _ _ 4) by apply size_u32. rewrite (drop_size _ _ 4) by apply size_u32.
  rewrite (take_size _ _ 4) by apply size_u32.
  rewrite app_assoc, (drop_size _ _ 8) by (rewrite size_app, !size_u32; done).
  rewrite <- (app_nil_r (Serialize_u64 o)), (take_size _ _ 8) by apply size_u64.
  rewrite !Deserialize_u32, Deserialize_u64, PacketType_of_code by eauto using PacketType_code_u32. done.
Qed.

(** ** The extractor *)

Definition unread (e : Extractor) : bytes := drop (Z.to_nat (offset_ e)) (bytes_ e).

(** At most [B] bytes are stored, and the offset is among them. *)
Definition ok_ext (B : Z) (e : Extractor) : Prop :=
  0 <= offset_ e <= size (bytes_ e) ∧ size (bytes_ e) <= B ∧ B < MAX_STREAM_LEN.

Lemma size_unread B e : ok_ext B e → size (unread e) = size (bytes_ e) - offset_ e.
Proof. unfold ok_ext, unread, size. intros. rewrite length_drop. lia. Qed.

Lemma Read_spec B n e :
  ok_ext B e → 0 <= n <= MAX_STREAM_LEN →
  if size (unread e) <? n then Read n e = Some (e, None)
  else ∃ e', Read n e = Some (e', Some (take (Z.to_nat n) (unread e))) ∧ ok_ext B e' ∧
             unread e' = drop (Z.to_nat n) (unread e).
Proof.
  intros He Hn. pose proof (size_unread B e He) as Hu. destruct He as (Ho & Hs & HB). unfold MAX_STREAM_LEN in *.
  unfold Read. rewrite u64_small by (unfold is_u64; lia).
  destruct (Z.ltb_spec (size (unread e)) n); destruct (Z.ltb_spec (size (bytes_ e)) (offset_ e + n)); try lia; [done|].
  destruct (Z.eqb_spec (offset_ e) 0) as [E0|E0]; destruct (Z.eqb_spec n (size (bytes_ e))) as [E1|E1]; cbn [andb].
  { exists (mkExtractor [] 0). unfold ok_ext, unread, MAX_STREAM_LEN, size in *. rewrite E0. cbn. repeat split; cbn; try lia.
    - rewrite drop_0, take_ge by lia. done.
    - symmetry. change (Z.to_nat 0) with 0%nat. rewrite drop_0. apply drop_ge. lia. }
  all: unfold substr; rewrite (proj2 (Z.ltb_ge (size (bytes_ e)) (offset_ e))) by lia; cbn [mbind option_bind]; fold (unread e);
    destruct (Z.ltb_spec BYTES_DROP_THRESHOLD (offset_ (mkExtractor (bytes_ e) (offset_ e + n)))); cbn [offset_] in *;
    unfold DropUsedBytes, substr; cbn [offset_ bytes_ mbind option_bind];
    rewrite ?Z.min_l, ?(proj2 (Z.ltb_ge (size (bytes_ e)) (offset_ e + n))) by lia; cbn [mbind option_bind];
    (eexists; split; [done|]); unfold ok_ext, unread, MAX_STREAM_LEN, size in *; cbn [offset_ bytes_];
    rewrite ?length_take, ?length_drop, ?take_ge, ?drop_drop by (rewrite ?length_drop; lia);
    (split; [cbn; lia|]); rewrite ?drop_0; f_equal; lia.
Qed.

Lemma ext_feed_spec B msg e :
  ok_ext B e → B + size msg < MAX_STREAM_LEN →
  ok_ext (B + size msg) (Extractor.Feed msg e) ∧ unread (Extractor.Feed msg e) = unread e ++ msg.
Proof.
  unfold ok_ext. intros (Ho & Hs & HB) Hm. pose proof (size_nonneg msg). unfold Extractor.Feed, MAX_STREAM_LEN in *.
  rewrite u64_small by (unfold is_u64; lia). destruct (Z.ltb_spec (size (bytes_ e) + size msg) 107374182400); [|lia].
  unfold unread. cbn [bytes_ offset_]. rewrite size_app. split; [lia|]. rewrite drop_app_le; [done|]. unfold size in *. lia.
Qed.

(** ** The protocol *)

Section stream.
Context (sizeof : PacketType → Z) (mmap : Z → Z → option bytes).
Context (Hsizeof : ∀ t, 0 <= sizeof t < 4294967296).

(** The packets a sender may send: no responses, structures of their size,
    binaries that are not too long. *)
Definition sendable (t : PacketType) : bool :=
  match t with IPC_RESPONSE | KERNEL_RECORD_RESPONSE | INVALID | OTHER_TYPE _ => false | _ => true end.
Definition good (p : Packet) : Prop :=
  sendable (type_ p) = true ∧ is_u64 (orderId_ p) ∧ binaryBuffer_ p = None ∧
  (if IsBinaryPacket (type_ p) then size (payload_ p) <= MAX_LEGAL_ELF_SEGMENT_SIZE
   else size (payload_ p) = sizeof (type_ p)).

Definition head_of (p : Packet) : bytes := Serialize_head (mkHead (type_ p) 0 (orderId_ p)).
Definition body (p : Packet) : bytes :=
  if IsBinaryPacket (type_ p) then Serialize_u64 (size (payload_ p)) ++ payload_ p else payload_ p.
Definition wire (p : Packet) : bytes := head_of p ++ body p.
Definition wires (ps : list Packet) : bytes := mjoin (wire <$> ps).

Lemma wires_app l1 l2 : wires (l1 ++ l2) = wires l1 ++ wires l2.
Proof.
  induction l1 as [|p l1 IH]; [done|]. cbn [app]. change (wires (p :: l1 ++ l2)) with (wire p ++ wires (l1 ++ l2)).
  change (wires (p :: l1)) with (wire p ++ wires l1). by rewrite IH, app_assoc.
Qed.

(** What has been read of the packet the protocol is in. *)
Inductive phase := AtHead | AtBody | AtData.
Definition done_of (k : phase) (p : Packet) : bytes :=
  match k with AtHead => [] | AtBody => head_of p | AtData => head_of p ++ Serialize_u64 (size (payload_ p)) end.

Definition in_phase (k : phase) (p : Packet) (st : MemCheckProtocol) : Prop :=
  match k with
  | AtHead => type (head st) = INVALID ∧ binary_size st = 0
  | AtBody => type (head st) = type_ p ∧ orderId (head st) = orderId_ p ∧ binary_size st = 0
  | AtData => type (head st) = type_ p ∧ orderId (head st) = orderId_ p ∧ binary_size st = size (payload_ p) ∧
              0 < size (payload_ p) ∧ IsBinaryPacket (type_ p) = true
  end.

(** The state between packets and inside of one: [u] is what is not yet read. *)
Definition At (B : Z) (k : phase) (p : Packet) (u : bytes) (st : MemCheckProtocol) : Prop :=
  ok_ext B (extractor_ st) ∧ unread (extractor_ st) = u ∧ pendingBinaryFd_ st = -1 ∧ RecvFdQueue st = [] ∧
  in_phase k p st.

Lemma read_spec B k p u st n :
  At B k p u st → 0 <= n <= MAX_STREAM_LEN →
  if size u <? n then read n st = Some (upd_extractor (extractor_ st) st, None)
  else ∃ st', read n st = Some (st', Some (take (Z.to_nat n) u)) ∧ At B k p (drop (Z.to_nat n) u) st'.
Proof.
  intros (He & Hu & Hfd & Hq & Hk) Hn. pose proof (Read_spec B n (extractor_ st) He Hn) as H. unfold read. rewrite Hu in H.
  destruct (size u <? n).
  - by rewrite H.
  - destruct H as (e' & -> & He' & Hu'). eexists. split; [done|]. split; [done|]. split; [done|]. split; [done|].
    split; [done|]. by destruct k.
Qed.

Lemma upd_same st : upd_extractor (extractor_ st) st = st.
Proof. by destruct st. Qed.

(** Reading as many bytes as a known prefix of the stream has. *)
Lemma read_prefix B k p u st (s fut rest : bytes) n :
  At B k p u st → u ++ fut = s ++ rest → size s = n → n <= MAX_STREAM_LEN →
  (size u < n ∧ read n st = Some (st, None)) ∨
  (∃ st' u', u = s ++ u' ∧ u' ++ fut = rest ∧ read n st = Some (st', Some s) ∧ At B k p u' st').
Proof.
  intros Hat E Hs Hn. pose proof (size_nonneg s). pose proof (read_spec B k p u st n Hat ltac:(lia)) as H1.
  destruct (Z.ltb_spec (size u) n).
  - left. split; [done|]. by rewrite H1, upd_same.
  - right. destruct H1 as (st' & H1 & H2). unfold size in *.
    assert (u = s ++ drop (Z.to_nat n) u) as Eu.
    { pose proof (f_equal (take (length s)) E) as E1. rewrite take_app_le, take_app_length in E1 by lia.
      rewrite <- E1 at 1. replace (Z.to_nat n) with (length s) by lia. by rewrite take_drop. }
    exists st', (drop (Z.to_nat n) u). split; [done|]. split.
    { rewrite Eu, <- app_assoc in E. by apply app_inv_head in E. }
    split; [|done]. rewrite H1. do 3 f_equal. rewrite Eu at 1. rewrite take_app_length' by lia. done.
Qed.

(** What the part of a packet that is still to come decides. *)
Definition waits (B : Z) (k : phase) (p : Packet) (u : bytes) (st' : MemCheckProtocol) : Prop :=
  ∃ k' u', At B k' p u' st' ∧ done_of k' p ++ u' = done_of k p ++ u ∧ size (done_of k p ++ u) < size (wire p).

Lemma size_wire p : size (wire p) = 16 + size (body p).
Proof. unfold wire, head_of. by rewrite size_app, size_head. Qed.

Lemma GetTriviallyCopyable_spec B p u st fut rest :
  good p → IsBinaryPacket (type_ p) = false → At B AtBody p u st → u ++ fut = body p ++ rest →
  (∃ st' u', GetTriviallyCopyable sizeof (type_ p) st = Some (st', mkPacket (type_ p) 0 (payload_ p) None) ∧
     At B AtBody p u' st' ∧ u = body p ++ u') ∨
  (∃ st', GetTriviallyCopyable sizeof (type_ p) st = Some (st', no_packet) ∧ waits B AtBody p u st').
Proof.
  intros (_ & _ & _ & Hs) Hb Hat E. pose proof (Hsizeof (type_ p)) as Hz. unfold body in *. rewrite Hb in *.
  unfold GetTriviallyCopyable.
  destruct (read_prefix B AtBody p u st (payload_ p) fut rest (sizeof (type_ p)) Hat E Hs) as [[Hlt ->]|(st' & u' & -> & _ & -> & Hat')].
  { unfold MAX_STREAM_LEN. lia. }
  - right. exists st. split; [done|]. exists AtBody, u. split_and!; [done|done|]. cbn [done_of]. rewrite size_wire.
    unfold body. rewrite Hb, size_app. unfold head_of. rewrite size_head. lia.
  - left. by exists st', u'.
Qed.

(** The data of a binary, once its length is known. *)
Lemma data_spec B p u st fut rest :
  size (payload_ p) <= MAX_LEGAL_ELF_SEGMENT_SIZE → IsBinaryPacket (type_ p) = true →
  At B AtBody p u (upd_size 0 st) → binary_size st = size (payload_ p) → u ++ fut = payload_ p ++ rest →
  let r := (if Size (extractor_ st) <? binary_size st then Some (st, None)
            else
              r ← read (binary_size st) st;
              let '(st, s) := r in
              match s with Some s => Some (upd_size 0 st, Some s) | None => Some (st, None) end) in
  (∃ st' u', r = Some (st', Some (payload_ p)) ∧ At B AtBody p u' st' ∧ u = payload_ p ++ u') ∨
  (r = Some (st, None) ∧ size u < size (payload_ p)).
Proof.
  intros Hmax Hb Hat Hn E r. unfold r. clear r. pose proof (size_nonneg (payload_ p)) as H0. unfold MAX_LEGAL_ELF_SEGMENT_SIZE in Hmax.
  assert (Size (extractor_ st) = size u) as HS.
  { destruct Hat as (He & Hu & _). pose proof (size_unread _ _ He) as Hl. cbn [extractor_ upd_size] in *. rewrite Hu in Hl.
    unfold Size. rewrite u64_small; [lia|]. unfold ok_ext, MAX_STREAM_LEN, is_u64 in *. pose proof (size_nonneg u). lia. }
  rewrite HS, Hn. destruct (Z.ltb_spec (size u) (size (payload_ p))); [by right|]. left.
  destruct (read_prefix B AtBody p u (upd_size 0 st) (payload_ p) fut rest _ Hat E eq_refl) as [[? _]|(st' & u' & -> & _ & Hr & Hat')].
  { unfold MAX_STREAM_LEN. lia. }
  { lia. }
  unfold read in *. cbn [extractor_ upd_size] in Hr. destruct (Read (size (payload_ p)) (extractor_ st)) as [[e s]|]; [|done].
  cbn [mbind option_bind] in *. injection Hr as <- ->. eexists _, u'. split; [done|]. split; [|done].
  by destruct Hat' as (? & ? & ? & ? & ? & ? & ?).
Qed.

Lemma GetBinaryData_spec B k p u st fut rest :
  good p → IsBinaryPacket (type_ p) = true → k ≠ AtHead → At B k p u st → done_of k p ++ u ++ fut = wire p ++ rest →
  (∃ st' u', GetBinaryData st = Some (st', Some (payload_ p)) ∧ At B AtBody p u' st' ∧ done_of k p ++ u = wire p ++ u') ∨
  (∃ st', GetBinaryData st = Some (st', None) ∧ waits B k p u st').
Proof.
  intros (_ & _ & _ & Hs) Hb Hk Hat E. rewrite Hb in Hs. pose proof (size_nonneg (payload_ p)) as H0.
  pose proof Hs as Hs'. unfold MAX_LEGAL_ELF_SEGMENT_SIZE in Hs'. unfold wire, body in E. rewrite Hb in E.
  unfold GetBinaryData. destruct k; [done| |]; cbn [done_of] in E.
  - rewrite <- !app_assoc in E. apply app_inv_head in E. destruct (Hat) as (_ & _ & _ & _ & _ & _ & ->). cbn [Z.eqb].
    destruct (read_prefix B AtBody p u st _ fut (payload_ p ++ rest) 8 Hat E (size_u64 _)) as [[Hlt ->]|(st1 & u1 & -> & E1 & -> & Hat1)].
    { unfold MAX_STREAM_LEN. lia. }
    + right. exists st. split; [done|]. exists AtBody, u. split_and!; [done|done|]. cbn [done_of]. rewrite size_wire.
      unfold body. rewrite Hb, !size_app. unfold head_of. rewrite size_head, size_u64. lia.
    + cbn [mbind option_bind]. rewrite Deserialize_u64 by (unfold is_u64; lia).
      rewrite (proj2 (Z.ltb_ge _ _)) by done. cbn [negb mbind option_bind].
      destruct (data_spec B p u1 (upd_size (size (payload_ p)) st1) fut rest) as [(st' & u' & -> & Hat' & ->)|[-> Hlt]]; try done.
      * destruct Hat1 as (? & ? & ? & ? & ? & ? & ?). done.
      * left. exists st', u'. split_and!; [done..|]. cbn [done_of]. unfold wire, body. rewrite Hb. by rewrite <- !app_assoc.
      * right. eexists. split; [done|]. exists AtData, u1. cbn [done_of]. rewrite <- !app_assoc. split_and!; [|done|].
        -- destruct Hat1 as (? & ? & ? & ? & ? & ? & ?). pose proof (size_nonneg u1). unfold At, in_phase. cbn. split_and!; first [done|lia].
        -- rewrite size_wire. unfold body. rewrite Hb, !size_app. unfold head_of. rewrite size_head. lia.
  - destruct (Hat) as (H1 & H2 & H3 & H4 & H5 & H6 & H7 & H8 & _). rewrite H7.
    rewrite (proj2 (Z.eqb_neq _ _)) by lia. cbn [mbind option_bind negb].
    rewrite <- !app_assoc in E. apply app_inv_head, app_inv_head in E.
    destruct (data_spec B p u st fut rest) as [(st' & u' & Hr & Hat' & ->)|[Hr Hlt]]; try done.
    + rewrite Hr. left. exists st', u'. split_and!; [done..|]. cbn [done_of]. unfold wire, body. rewrite Hb. by rewrite <- !app_assoc.
    + rewrite Hr. right. exists st. split; [done|]. exists AtData, u. split_and!; [done..|]. cbn [done_of].
      rewrite size_wire. unfold body. rewrite Hb, !size_app. unfold head_of. rewrite size_head. lia.
Qed.

Definition bare (p : Packet) : Packet := mkPacket (type_ p) 0 (payload_ p) None.

Lemma GetBinaryDataPacket_spec B k p u st fut rest :
  good p → IsBinaryPacket (type_ p) = true → k ≠ AtHead → At B k p u st → done_of k p ++ u ++ fut = wire p ++ rest →
  (∃ st' u', GetBinaryDataPacket (type_ p) st = Some (st', bare p) ∧ At B AtBody p u' st' ∧ done_of k p ++ u = wire p ++ u') ∨
  (∃ st', GetBinaryDataPacket (type_ p) st = Some (st', no_packet) ∧ waits B k p u st').
Proof.
  intros Hg Hb Hk Hat E. unfold GetBinaryDataPacket.
  destruct (GetBinaryData_spec B k p u st fut rest Hg Hb Hk Hat E) as [(st' & u' & -> & H)|(st' & -> & H)]; eauto.
Qed.

Lemma GetPayLoad_spec B k p u st fut rest :
  good p → k ≠ AtHead → At B k p u st → done_of k p ++ u ++ fut = wire p ++ rest →
  (∃ st' u', GetPayLoad sizeof mmap (head st) st = Some (st', bare p) ∧ At B AtBody p u' st' ∧ done_of k p ++ u = wire p ++ u') ∨
  (∃ st', GetPayLoad sizeof mmap (head st) st = Some (st', no_packet) ∧ waits B k p u st').
Proof.
  intros Hg Hk Hat E. assert (type (head st) = type_ p) as Ht by (destruct k; [done|apply Hat|apply Hat]).
  destruct (IsBinaryPacket (type_ p)) eqn:Hb.
  - pose proof (GetBinaryDataPacket_spec B k p u st fut rest Hg Hb Hk Hat E) as H. unfold GetPayLoad. rewrite Ht.
    destruct (type_ p); try done. unfold GetKernelBinaryPacket.
    destruct (Hat) as (_ & _ & Hfd & Hq & _). rewrite Hfd, Hq. cbn [Z.ltb Z.compare PopRecvFd].
    replace (upd_fd (-1) [] st) with st by (destruct st; simpl in *; by subst). rewrite Hfd. done.
  - assert (k = AtBody) as ->. { destruct k; [done|done|]. destruct Hat as (_ & _ & _ & _ & _ & _ & _ & _ & ?). congruence. }
    unfold wire in E. cbn [done_of] in E. rewrite <- app_assoc in E. apply app_inv_head in E.
    assert (GetPayLoad sizeof mmap (head st) st = GetTriviallyCopyable sizeof (type_ p) st) as ->.
    { unfold GetPayLoad. rewrite Ht. destruct Hg as (Hs & _). by destruct (type_ p). }
    destruct (GetTriviallyCopyable_spec B p u st fut rest Hg Hb Hat E) as [(st' & u' & Hr & Ha & ->)|H]; [left|by right].
    exists st', u'. split_and!; [done..|]. cbn [done_of]. unfold wire. by rewrite <- app_assoc.
Qed.

(** One call of [GetPacket] inside of the stream. *)
Lemma GetPacket_spec B k p u st fut rest :
  good p → At B k p u st → done_of k p ++ u ++ fut = wire p ++ rest →
  (∃ st' u', GetPacket sizeof mmap st = Some (st', p) ∧ At B AtHead p u' st' ∧ done_of k p ++ u = wire p ++ u') ∨
  (∃ st', GetPacket sizeof mmap st = Some (st', no_packet) ∧ waits B k p u st').
Proof.
  intros Hg Hat E.
  assert (∀ k u st, k ≠ AtHead → At B k p u st → done_of k p ++ u ++ fut = wire p ++ rest →
    let r := (r ← GetPayLoad sizeof mmap (head st) st;
              let '(st, packet) := r in
              if bool_decide (type_ packet = INVALID) then Some (st, packet)
              else Some (upd_head (mkHead INVALID (reserved (head st)) (orderId (head st))) st, SetOrderId (orderId (head st)) packet)) in
    (∃ st' u', r = Some (st', p) ∧ At B AtHead p u' st' ∧ done_of k p ++ u = wire p ++ u') ∨
    (∃ st', r = Some (st', no_packet) ∧ waits B k p u st')) as Hpay.
  { clear k u st Hat E. intros k u st Hk Hat E r. unfold r. clear r.
    destruct (GetPayLoad_spec B k p u st fut rest Hg Hk Hat E) as [(st' & u' & -> & Ha & Eu)|(st' & -> & Hw)]; cbn [mbind option_bind].
    - left. destruct Ha as (H1 & H2 & H3 & H4 & H5 & H6 & H7). destruct Hg as (Hs & _ & Hb & _).
      rewrite bool_decide_false by (simpl; intros He; by rewrite He in Hs).
      eexists _, u'. split; [|split; [|done] ].
      { f_equal. f_equal. rewrite H6. destruct p. simpl in *. by subst. }
      unfold At, in_phase. by split_and!.
    - right. by exists st'. }
  unfold GetPacket. destruct k.
  - destruct (Hat) as (H1 & H2 & H3 & H4 & H5 & H6). rewrite bool_decide_true by done. unfold GetPacketHead, HEAD_SIZE. cbn [done_of app] in *.
    pose proof E as E'. unfold wire in E'. rewrite <- app_assoc in E'.
    destruct (read_prefix B AtHead p u st _ fut _ 16 Hat E' (size_head _)) as [[Hlt ->]|(st1 & u1 & Eu & E1 & -> & Hat1)].
    { unfold MAX_STREAM_LEN. lia. }
    + right. exists st. split; [done|]. exists AtHead, u. split_and!; [done..|]. cbn [done_of app]. rewrite size_wire.
      pose proof (size_nonneg (body p)). lia.
    + cbn [mbind option_bind]. destruct (Hg) as (Hs & Ho & _).
      assert (IsKnownPacketType (type_ p) = true) as Hkn by (by destruct (type_ p)).
      unfold head_of. rewrite Deserialize_Serialize_head by (simpl; first [done|lia]). cbn [type reserved orderId]. rewrite Hkn. cbn [negb].
      cbn [negb]. destruct (Hpay AtBody u1 (upd_head (mkHead (type_ p) 0 (orderId_ p)) st1)) as [(st' & u' & -> & Ha & E2)|(st' & -> & Hw)].
      * done.
      * destruct Hat1 as (? & ? & ? & ? & ? & ?). by split_and!.
      * cbn [done_of]. rewrite <- E, Eu. unfold head_of. by rewrite <- !app_assoc.
      * left. exists st', u'. split_and!; [done..|]. rewrite Eu. done.
      * right. exists st'. split; [done|]. destruct Hw as (k' & u' & Ha & E2 & Hlt). exists k', u'. cbn [done_of app] in *. unfold head_of in *.
        by rewrite Eu.
  - destruct (Hat) as (_ & _ & _ & _ & Ht & _). destruct (Hg) as (Hs & _).
    rewrite bool_decide_false by (rewrite Ht; intros He; by rewrite He in Hs). apply (Hpay AtBody u st); done.
  - destruct (Hat) as (_ & _ & _ & _ & Ht & _). destruct (Hg) as (Hs & _).
    rewrite bool_decide_false by (rewrite Ht; intros He; by rewrite He in Hs). apply (Hpay AtData u st); done.
Qed.

(** The state when the packets [ps] are still to be delivered. *)
Definition Before (B : Z) (k : phase) (ps : list Packet) (u : bytes) (st : MemCheckProtocol) : Prop :=
  match ps with [] => k = AtHead ∧ At B AtHead no_packet u st | p :: _ => At B k p u st end.
Definition done_in (k : phase) (ps : list Packet) : bytes := match ps with [] => [] | p :: _ => done_of k p end.

(** The next packet is not complete. *)
Definition partial (k : phase) (ps : list Packet) (u : bytes) : Prop :=
  match ps with [] => u = [] | p :: _ => size (done_of k p ++ u) < size (wire p) end.

Lemma At_head B p q u st : At B AtHead p u st → At B AtHead q u st.
Proof. done. Qed.

Lemma Before_head B p ps u st : At B AtHead p u st → Before B AtHead ps u st.
Proof. by destruct ps. Qed.

Definition weight (k : phase) (u : bytes) : nat := (length u + match k with AtHead => 1 | _ => 2 end)%nat.

Lemma packets_spec ps : ∀ fuel B k u st fut,
  Forall good ps → Before B k ps u st → done_in k ps ++ u ++ fut = wires ps → (weight k u <= fuel)%nat →
  ∃ st' out rest k' u', packets sizeof mmap fuel st = Some (st', out) ∧ ps = out ++ rest ∧ Before B k' rest u' st' ∧
    done_in k ps ++ u = wires out ++ done_in k' rest ++ u' ∧ partial k' rest u'.
Proof.
  induction ps as [|p ps IH]; intros fuel B k u st fut Hg Hb E Hf; destruct fuel as [|fuel]; try (unfold weight in Hf; destruct k; lia).
  - destruct Hb as [-> Hat]. cbn in E. apply app_eq_nil in E as [-> ->].
    pose proof (read_spec B AtHead no_packet [] st 16 Hat) as Hr. cbn [size] in Hr.
    exists st, [], [], AtHead, []. split_and!; try done. cbn [packets]. unfold GetPacket.
    destruct (Hat) as (_ & _ & _ & _ & Ht & _). rewrite bool_decide_true by done. unfold GetPacketHead, HEAD_SIZE.
    rewrite Hr by (unfold MAX_STREAM_LEN; lia). by rewrite upd_same.
  - apply Forall_cons in Hg as [Hp Hg]. cbn [Before done_in] in *.
    assert (wires (p :: ps) = wire p ++ wires ps) as Hw by done. rewrite Hw in E.
    destruct (GetPacket_spec B k p u st fut (wires ps) Hp Hb E) as [(st1 & u1 & Hr & Ha & Eu)|(st1 & Hr & k' & u' & Ha & Eu & Hlt)];
      cbn [packets]; rewrite Hr; cbn [mbind option_bind].
    + rewrite bool_decide_false by (intros He; destruct Hp as [Hp _]; by rewrite He in Hp).
      destruct (IH fuel B AtHead u1 st1 fut) as (st' & out & rest & k' & u' & -> & -> & Hb' & E' & Hpa).
      * done.
      * by eapply Before_head.
      * rewrite app_assoc, Eu, <- app_assoc in E. apply app_inv_head in E. by destruct ps.
      * assert (k = AtData → IsBinaryPacket (type_ p) = true) as Hdata by (intros ->; apply Hb).
        apply (f_equal size) in Eu. rewrite !size_app, size_wire in Eu. unfold weight in *. pose proof (size_nonneg (body p)).
        unfold body in Eu. destruct k; cbn [done_of] in Eu; rewrite ?size_app, ?size_u64 in Eu; unfold head_of in Eu; rewrite ?size_head, ?size_nil in Eu;
          destruct (IsBinaryPacket (type_ p)) eqn:Hbin; try (discriminate (Hdata eq_refl)); rewrite ?size_app, ?size_u64 in Eu; unfold size in *; lia.
      * exists st', (p :: out), rest, k', u'. split_and!; [done..| |done]. rewrite Eu.
        assert (wires (p :: out) = wire p ++ wires out) as -> by done. rewrite <- app_assoc. f_equal.
        by destruct (out ++ rest).
    + exists st1, [], (p :: ps), k', u'. split_and!; [done..| |].
      * by rewrite <- Eu.
      * cbn [partial]. by rewrite Eu.
Qed.

Lemma Feed_spec B k ps u st msg :
  Before B k ps u st → B + size msg < MAX_STREAM_LEN → Before (B + size msg) k ps (u ++ msg) (Feed msg st).
Proof.
  intros Hb HB. unfold Feed. destruct (Z.eqb_spec (size msg) 0) as [H0|H0]; cbn [negb].
  - assert (msg = []) as -> by (destruct msg; [done|unfold size in H0; simpl in H0; lia]). by rewrite size_nil, Z.add_0_r, app_nil_r.
  - assert (∀ k p, At B k p u st → At (B + size msg) k p (u ++ msg) (upd_extractor (Extractor.Feed msg (extractor_ st)) st)) as H.
    { intros k' p (He & Hu & ? & ? & ?). destruct (ext_feed_spec B msg (extractor_ st) He HB) as [F1 F2].
      unfold At. cbn [extractor_ upd_extractor]. rewrite F2, Hu. by split_and!. }
    destruct ps; cbn [Before] in *; [destruct Hb; auto|auto].
Qed.

Lemma Before_unread B k ps u st : Before B k ps u st → unread (extractor_ st) = u.
Proof. destruct ps; [intros [_ H]|intros H]; apply H. Qed.

Lemma receive_spec msgs : ∀ B k ps u st fut,
  Forall good ps → Before B k ps u st → B + size (mjoin msgs) < MAX_STREAM_LEN → partial k ps u →
  done_in k ps ++ u ++ mjoin msgs ++ fut = wires ps →
  ∃ st' out rest k' u', receive sizeof mmap msgs st = Some (st', out) ∧ ps = out ++ rest ∧
    Before (B + size (mjoin msgs)) k' rest u' st' ∧
    done_in k ps ++ u ++ mjoin msgs = wires out ++ done_in k' rest ++ u' ∧ partial k' rest u'.
Proof.
  induction msgs as [|msg msgs IH]; intros B k ps u st fut Hg Hb HB Hpa E.
  - exists st, [], ps, k, u. change (mjoin []) with ([] : bytes). rewrite size_nil, Z.add_0_r, app_nil_r. split_and!; done.
  - change (mjoin (msg :: msgs)) with (msg ++ mjoin msgs) in *. rewrite size_app in HB. pose proof (size_nonneg (mjoin msgs)).
    pose proof (Feed_spec B k ps u st msg Hb ltac:(lia)) as Hb1. cbn [receive]. unfold msgSplit.
    destruct (packets_spec ps (S (S (length (bytes_ (extractor_ (Feed msg st)))))) _ k (u ++ msg) (Feed msg st) (mjoin msgs ++ fut) Hg Hb1)
      as (st1 & out & rest & k1 & u1 & -> & -> & Hb2 & E1 & Hpa1).
    + by rewrite <- !app_assoc in *.
    + pose proof (Before_unread _ _ _ _ _ Hb1) as Hu. unfold unread in Hu. apply (f_equal length) in Hu. rewrite length_drop in Hu.
      unfold weight. destruct k; lia.
    + cbn [mbind option_bind]. destruct (IH (B + size msg) k1 rest u1 st1 fut) as (st' & out2 & rest2 & k2 & u2 & -> & -> & Hb3 & E3 & Hpa2).
      * by apply Forall_app in Hg as [_ Hg].
      * done.
      * lia.
      * done.
      * assert (done_in k (out ++ rest) ++ u ++ (msg ++ mjoin msgs) ++ fut =
                (done_in k (out ++ rest) ++ u ++ msg) ++ mjoin msgs ++ fut) as R by (by rewrite <- !app_assoc).
        rewrite R, E1, wires_app, <- !app_assoc in E. by apply app_inv_head in E.
      * exists st', (out ++ out2), rest2, k2, u2. split_and!.
        -- done.
        -- by rewrite app_assoc.
        -- rewrite size_app, Z.add_assoc. done.
        -- rewrite wires_app, <- app_assoc, <- E3, !app_assoc. f_equal. rewrite <- !app_assoc. rewrite <- E1. by rewrite <- ?app_assoc.
        -- done.
Qed.
End stream.

(** ** Sender and receiver *)

Import Report.

(** The packets of reports that are numbered from [n] on. *)
Definition numbered (n : Z) (items : list (PacketType * bytes)) : list Packet :=
  imap (λ i x, mkPacket x.1 (n + Z.of_nat i) x.2 None) items.

(** The bytes handed to the socket when the reports are sent one after the
    other. *)
Fixpoint sent (write : bytes → bool) (items : list (PacketType * bytes)) (r : HookReport) : HookReport * bytes :=
  match items with
  | [] => (r, [])
  | (t, payload) :: items =>
      let '(r, message, _) := WriteOrdered write (report_message t payload) r in
      let '(r, s) := sent write items r in (r, default [] message ++ s)
  end.

Lemma WriteOrdered_spec write t payload n :
  IsKnownPacketType t = true → is_u64 (n + 1) → (∀ m, write m = true) → 0 <= n →
  WriteOrdered write (report_message t payload) (mkReport true n false) =
    (mkReport true (n + 1) false, Some (wire (mkPacket t n payload None)), true).
Proof.
  intros Ht Hn Hw H0. unfold WriteOrdered, HEAD_SIZE.
  assert (∃ m, report_message t payload = Serialize_head (mkHead t 0 0) ++ m ∧
               wire (mkPacket t n payload None) = Serialize_head (mkHead t 0 n) ++ m) as (m & -> & ->).
  { unfold report_message, wire, head_of, body. cbn. destruct (IsBinaryPacket t); eauto. }
  pose proof (size_nonneg m). cbn [client_ sendFailed_ nextOrderId_ negb orb].
  rewrite size_app, size_head. destruct (Z.ltb_spec (16 + size m) 16); [lia|].
  rewrite (take_size _ _ 16), (drop_size _ _ 16) by apply size_head.
  rewrite Deserialize_Serialize_head by (simpl; first [done|unfold is_u64; lia]). cbn [type reserved orderId].
  rewrite Hw. by rewrite u64_small.
Qed.

Lemma sent_spec write items : ∀ n,
  (∀ m, write m = true) → 0 <= n → is_u64 (n + Z.of_nat (length items)) → Forall (λ x, IsKnownPacketType x.1 = true) items →
  (sent write items (mkReport true n false)).2 = wires (numbered n items).
Proof.
  induction items as [|[t payload] items IH]; intros n Hw H0 Hn Hi; [done|].
  apply Forall_cons in Hi as [Ht Hi]. cbn [length] in Hn. cbn [sent].
  rewrite WriteOrdered_spec by (first [done|unfold is_u64 in *; lia]). specialize (IH (n + 1) Hw).
  destruct (sent write items (mkReport true (n + 1) false)) as [r s]. cbn [default snd] in *. rewrite IH by (first [done|unfold is_u64 in *; lia]).
  unfold numbered at 2. rewrite imap_cons. cbn [fst snd]. rewrite Z.add_0_r.
  change (wires (?p :: ?l)) with (wire p ++ wires l). f_equal. f_equal. unfold numbered. apply imap_ext.
  intros i x _. simpl. f_equal. lia.
Qed.

Definition item_ok (sizeof : PacketType → Z) (x : PacketType * bytes) : Prop :=
  sendable x.1 = true ∧
  (if IsBinaryPacket x.1 then size x.2 <= MAX_LEGAL_ELF_SEGMENT_SIZE else size x.2 = sizeof x.1).

Lemma numbered_good sizeof items : ∀ n,
  0 <= n → is_u64 (n + Z.of_nat (length items)) → Forall (item_ok sizeof) items → Forall (good sizeof) (numbered n items).
Proof.
  intros n H0 Hn Hi. apply Forall_lookup. intros i p Hp. unfold numbered in Hp. rewrite list_lookup_imap in Hp.
  destruct (items !! i) as [x|] eqn:Hx; [|done]. simplify_eq/=. pose proof (lookup_lt_Some _ _ _ Hx).
  destruct (Forall_lookup_1 _ _ _ _ Hi Hx) as [H1 H2]. split_and!; [done| |done|done]. simpl. unfold is_u64 in *. lia.
Qed.

(** C25: the packets of one process get the numbers 1, 2, ... in the order they are
    sent, and however the stream is cut into messages, the receiving thread
    hands over exactly the packets sent, with number, type and payload, in order,
    each as soon as its last byte has arrived; nothing is lost and the loop ends. *)
Theorem reports_delivered sizeof mmap write items (msgs : list bytes) fut :
  (∀ t, 0 <= sizeof t < 4294967296) → (∀ m, write m = true) → Forall (item_ok sizeof) items →
  Z.of_nat (length items) < 18446744073709551615 → size (mjoin msgs) < MAX_STREAM_LEN →
  mjoin msgs ++ fut = (sent write items (mkReport true 1 false)).2 →
  ∃ st out rest, receive sizeof mmap msgs new_MemCheckProtocol = Some (st, out) ∧
    numbered 1 items = out ++ rest ∧ wires out `prefix_of` mjoin msgs ∧
    (∀ p, rest !! 0%nat = Some p → ¬ wires (out ++ [p]) `prefix_of` mjoin msgs).
Proof.
  intros Hs Hw Hi Hl Hm E.
  assert (Forall (λ x : PacketType * bytes, IsKnownPacketType x.1 = true) items) as Hk.
  { eapply Forall_impl; [exact Hi|]. intros [t s] [H _]. by destruct t. }
  rewrite sent_spec in E by (first [done|unfold is_u64; lia]).
  destruct (receive_spec sizeof mmap Hs msgs 0 AtHead (numbered 1 items) [] new_MemCheckProtocol fut)
    as (st & out & rest & k & u & Hr & Ho & Hb & E' & Hp).
  - apply numbered_good; [lia|unfold is_u64; lia|done].
  - apply (Before_head _ no_packet). unfold At, ok_ext, MAX_STREAM_LEN. cbn. split_and!; first [done|lia].
  - lia.
  - destruct (numbered 1 items) as [|p l] eqn:En; [done|]. cbn. rewrite size_wire. pose proof (size_nonneg (body p)). unfold size. simpl. lia.
  - destruct (numbered 1 items) as [|p l]; cbn; exact E.
  - exists st, out, rest. split_and!; [done|done| |].
    + assert (mjoin msgs = wires out ++ done_in k rest ++ u) as ->; [|by eexists].
      rewrite <- E'. by destruct (numbered 1 items).
    + intros p Hrest [v Hv]. destruct rest as [|p' rest]; [done|]. injection Hrest as ->.
      assert (mjoin msgs = wires out ++ done_in k (p :: rest) ++ u) as Hj by (rewrite <- E'; by destruct (numbered 1 items)).
      rewrite Hj, wires_app, <- app_assoc in Hv. apply app_inv_head in Hv. cbn [done_in partial] in *.
      change (wires [p]) with (wire p ++ []) in Hv. rewrite app_nil_r in Hv. rewrite Hv, size_app in Hp. pose proof (size_nonneg v). lia.
Qed.

Definition demo_items : list (PacketType * bytes) :=
  [(LOG_STRING, [72; 105]); (PEER_ACCESS_RECORD, [0; 0; 0; 0; 1; 0; 0; 0; 0; 0; 0; 0]); (LOG_STRING, [])].
Definition demo_sizeof (_ : PacketType) : Z := 12.
Definition demo_stream : bytes := (sent (λ _, true) demo_items (mkReport true 1 false)).2.

(** Two messages; the last four bytes have not arrived. *)
Lemma reports_delivered_witness :
  let msgs := [take 20 demo_stream; drop 20 (take 74 demo_stream)] in
  (∃ st out rest, receive demo_sizeof (λ _ _, None) msgs new_MemCheckProtocol = Some (st, out) ∧
    numbered 1 demo_items = out ++ rest ∧ wires out `prefix_of` mjoin msgs ∧
    (∀ p, rest !! 0%nat = Some p → ¬ wires (out ++ [p]) `prefix_of` mjoin msgs)) ∧
  (snd <$> receive demo_sizeof (λ _ _, None) msgs new_MemCheckProtocol) = Some (take 2 (numbered 1 demo_items)).
Proof.
  intros msgs. split; [|vm_compute; reflexivity].
  apply (reports_delivered demo_sizeof (λ _ _, None) (λ _, true) demo_items msgs (drop 74 demo_stream)).
  - intros t. unfold demo_sizeof. lia.
  - done.
  - repeat (apply Forall_cons; split; [split; [reflexivity|vm_compute; first [reflexivity|discriminate] ]|]). constructor.
  - vm_compute. reflexivity.
  - vm_compute. reflexivity.
  - vm_compute. reflexivity.
Defined.

(** A head of one of the two response types is accepted, but no payload is ever
    read for it: from then on the thread delivers nothing, whatever arrives. *)
Theorem response_blocks_stream sizeof mmap st (msgs : list bytes) :
  type (head st) = IPC_RESPONSE ∨ type (head st) = KERNEL_RECORD_RESPONSE →
  ∃ st', receive sizeof mmap msgs st = Some (st', []) ∧ head st' = head st.
Proof.
  revert st. induction msgs as [|msg msgs IH]; intros st Ht; [by exists st|]. cbn [receive]. unfold msgSplit.
  assert (head (Feed msg st) = head st) as Hf by (unfold Feed; by destruct (negb _)).
  assert (GetPacket sizeof mmap (Feed msg st) = Some (Feed msg st, no_packet)) as Hg.
  { unfold GetPacket. rewrite bool_decide_false by (rewrite Hf; intros He; rewrite He in Ht; by destruct Ht).
    cbn [mbind option_bind negb]. unfold GetPayLoad. rewrite Hf. by destruct Ht as [-> | ->]. }
  cbn [packets]. rewrite Hg. cbn [mbind option_bind]. rewrite bool_decide_true by done. cbn [mbind option_bind]. destruct (IH (Feed msg st)) as (st' & Hr & Hh); [by rewrite Hf|].
  rewrite Hr. exists st'. split; [done|]. by rewrite Hh, Hf.
Qed.

Definition blocked_state : option MemCheckProtocol :=
  fst <$> receive demo_sizeof (λ _ _, None) [Serialize_head (mkHead IPC_RESPONSE 0 1)] new_MemCheckProtocol.

Lemma response_blocks_stream_witness :
  ∃ st st', blocked_state = Some st ∧
    receive demo_sizeof (λ _ _, None) [take 18 demo_stream; drop 18 demo_stream] st = Some (st', []) ∧ head st' = head st.
Proof.
  exists (mkProtocol (mkExtractor [] 0) (-1) (mkHead IPC_RESPONSE 0 1) 0 []).
  destruct (response_blocks_stream demo_sizeof (λ _ _, None) (mkProtocol (mkExtractor [] 0) (-1) (mkHead IPC_RESPONSE 0 1) 0 [])
    [take 18 demo_stream; drop 18 demo_stream] (or_introl eq_refl)) as (st' & H). exists st'. split; [vm_compute; reflexivity|exact H].
Defined.

(** A length above the limit is reported as a dropped packet, but only the length
    is dropped: the head stays and the bytes of the packet are read as a length. *)
Example oversized_packet_kept :
  (λ r, (type (head r.1), binary_size r.1, r.2)) <$>
    receive demo_sizeof (λ _ _, None)
      [Serialize_head (mkHead LOG_STRING 0 1) ++ Serialize_u64 17179869185; Serialize_u64 1 ++ [65]] new_MemCheckProtocol =
  Some (INVALID, 0, [mkPacket LOG_STRING 1 [65] None]).
Proof. vm_compute. reflexivity. Qed.
