(* ===== verification/Scheduler.v ===== *)
(** The packet scheduler of the tool: [csrc/core/framework/ordered_packet_scheduler.cpp].

    Receiving threads submit packets, one thread per host process dispatches
    them in the order of their numbers and makes a packet wait for earlier checks
    of other devices it depends on. The threads are the labels of a transition
    function: a receiving thread submits or closes, the dispatching thread takes
    a packet, waits for one completion or dispatches, and the memory check of a
    connection consumes one item of its queue
    ([Checker::CaptureMemcheckCompletion] and [ConsumeRecordThread] of
    [checker.cpp]). *)
From stdpp Require Import base numbers option list gmap sets sorting.
From S2P Require Import Prelude.
From S2P Require Import RecordDefs.
From S2P Require Import EventDef.

(** ** Packets and jobs *)

Inductive IPCOperationType := SET_INFO | DESTROY_INFO | MAP_INFO | UNMAP_INFO.
#[export] Instance IPCOperationType_eq : EqDecision IPCOperationType. Proof. solve_decision. Defined.
Inductive PeerAccessOp := ENABLE | DISABLE | RESET | OTHER_OP (code : Z).
#[export] Instance PeerAccessOp_eq : EqDecision PeerAccessOp. Proof. solve_decision. Defined.
Record PeerAccessRecord := mkPeer { deviceId : Z; peerDeviceId : Z; operation : PeerAccessOp }.
Inductive SanitizerRecord :=
  | VERSION_MEMORY (type : MemOpType) (infoSrc : MemInfoSrc)
  | VERSION_KERNEL (recordType : RecordType.RecordType)
  | VERSION_IPC | VERSION_REGION_PERMISSION.

(** The packets, with the fields the scheduler reads. *)
Inductive Payload :=
  | DEVICE_SUMMARY (deviceId : Z) | KERNEL_SUMMARY | KERNEL_BINARY | LOG_STRING
  | MEMORY_RECORD (type : MemOpType) (infoSrc : MemInfoSrc) | KERNEL_RECORD
  | IPC_RECORD (type : IPCOperationType) | MEM_REGION_PERMISSION
  | SANITIZER_RECORD (r : SanitizerRecord) | GM_ADDR_OUT_OF_BOUND_RECORD
  | PEER_ACCESS_RECORD (r : PeerAccessRecord).

(** [connection] is the receiving thread, [checker] the address of its checker. *)
Record Job := mkJob { pid : Z; connection : Z; checker : Z; orderId : Z; payload : Payload }.

Definition ClassifyMemory (type : MemOpType) (source : MemInfoSrc) : bool * bool :=
  let access := match type with LOAD | STORE | MEMCPY_BLOCKS => true | _ => false end in
  let update := match type with MALLOC | FREE => true | _ => false end ||
                (access && match source with BYPASS => false | _ => true end) in
  (access, update).

(** Whether a packet may query other devices, and whether it changes what other
    devices may query. *)
Definition Classify (p : Payload) : bool * bool :=
  match p with
  | MEMORY_RECORD type infoSrc => ClassifyMemory type infoSrc
  | KERNEL_RECORD => (true, false)
  | SANITIZER_RECORD (VERSION_MEMORY type infoSrc) => ClassifyMemory type infoSrc
  | SANITIZER_RECORD (VERSION_KERNEL t) =>
      (negb (RecordType.eqb t RecordType.ONLINE_ERROR) && negb (RecordType.eqb t RecordType.BLOCK_FINISH) &&
       negb (RecordType.eqb t RecordType.KERNEL_FINISH), false)
  | SANITIZER_RECORD VERSION_IPC => (false, false)
  | SANITIZER_RECORD VERSION_REGION_PERMISSION => (false, true)
  | MEM_REGION_PERMISSION => (false, true)
  | IPC_RECORD MAP_INFO | IPC_RECORD UNMAP_INFO => (false, true)
  | _ => (false, false)
  end.

(** What [Fail] is called with. *)
Inductive Reason := INVALID_OR_DUPLICATE | INVALID_DEVICE | INVALID_PEER_RECORD | EXCEPTION | MISSING_OR_UNCONSUMED.

(** ** The memory checks

    The queue of the memory check of each checker: work of a packet and
    completion marks, in the order they were handed over. *)
Module Work.
Inductive Item := Job' (orderId : Z) | Mark (future : Z).
#[export] Instance Item_eq : EqDecision Item. Proof. solve_decision. Defined.

Record World (R : Type) := mkWorld {
  fifo : gmap Z (list Item); nextFuture : Z; finished : gset Z; rest : R;
}.
Arguments mkWorld {R}. Arguments fifo {R}. Arguments nextFuture {R}. Arguments finished {R}. Arguments rest {R}.

Definition queue {R} (w : World R) (c : Z) : list Item := default [] (fifo w !! c).
Definition push {R} (c : Z) (i : Item) (w : World R) : World R :=
  mkWorld (<[c := queue w c ++ [i]]> (fifo w)) (nextFuture w) (finished w) (rest w).

(** [CaptureMemcheckCompletion]; without a memory check the future is ready. *)
Definition CaptureMemcheckCompletion {R} (memcheck : bool) (c : Z) (w : World R) : World R * Z :=
  let f := nextFuture w in
  let w := mkWorld (fifo w) (f + 1) (finished w) (rest w) in
  if memcheck then (push c (Mark f) w, f)
  else (mkWorld (fifo w) (nextFuture w) ({[ f ]} ∪ finished w) (rest w), f).

(** One item of the queue is consumed. *)
Definition Consume {R} (c : Z) (w : World R) : option (World R) :=
  match queue w c with
  | [] => None
  | Job' _ :: l => Some (mkWorld (<[c := l]> (fifo w)) (nextFuture w) (finished w) (rest w))
  | Mark f :: l => Some (mkWorld (<[c := l]> (fifo w)) (nextFuture w) ({[ f ]} ∪ finished w) (rest w))
  end.
End Work.
Import Work.

(** ** [ProcessQueue] *)
Module Sched.

(** A shared future, if it is valid. *)
Definition Future : Type := option Z.

Record DeviceWorkCheckPoints := mkPoints {
  points_checker : option Z; points_connection : Z;
  lastAccess : Future; lastUpdate : Future; lastWork : Future;
}.
Definition no_points : DeviceWorkCheckPoints := mkPoints None 0 None None None.

Section scheduler.
(** The other members of [RuntimeContext] and the state of the business logic. *)
Context {C R : Type}.

Record RuntimeContext := mkContext { ctx_deviceId : Z; pid_ : Z; rootTid_ : Z; others : C }.

Record ProcessQueue := mkQueue {
  queue_pid : Z; pendingJobMap_ : gmap Z Job; nextOrderId_ : Z; closing_ : bool;
  rtContexts_ : gmap Z RuntimeContext; devices_ : gmap Z DeviceWorkCheckPoints; relations_ : gmap Z (gset Z);
}.

(** The callbacks. [dispatch] gives the new context and state, the checkers that
    receive work and whether it returned without an exception. *)
Record Callbacks := mkCallbacks {
  dispatch : Job → RuntimeContext → R → RuntimeContext * R * list Z * bool;
  ipcUpdates : option (Job → R → list Z);
  memcheck : bool; (** the memory check is enabled *)
  new_others : C;
}.
Context (cb : Callbacks).

Definition new_ProcessQueue (pid : Z) : ProcessQueue := mkQueue pid ∅ 1 false ∅ ∅ ∅.
Definition new_context : RuntimeContext := mkContext 0 (-1) 0 (new_others cb).

Definition upd_pending (m : gmap Z Job) (n : Z) (q : ProcessQueue) : ProcessQueue :=
  mkQueue (queue_pid q) m n (closing_ q) (rtContexts_ q) (devices_ q) (relations_ q).
Definition upd_closing (b : bool) (q : ProcessQueue) : ProcessQueue :=
  mkQueue (queue_pid q) (pendingJobMap_ q) (nextOrderId_ q) b (rtContexts_ q) (devices_ q) (relations_ q).
Definition upd_contexts (m : gmap Z RuntimeContext) (q : ProcessQueue) : ProcessQueue :=
  mkQueue (queue_pid q) (pendingJobMap_ q) (nextOrderId_ q) (closing_ q) m (devices_ q) (relations_ q).
Definition upd_devices (m : gmap Z DeviceWorkCheckPoints) (q : ProcessQueue) : ProcessQueue :=
  mkQueue (queue_pid q) (pendingJobMap_ q) (nextOrderId_ q) (closing_ q) (rtContexts_ q) m (relations_ q).
Definition upd_relations (m : gmap Z (gset Z)) (q : ProcessQueue) : ProcessQueue :=
  mkQueue (queue_pid q) (pendingJobMap_ q) (nextOrderId_ q) (closing_ q) (rtContexts_ q) (devices_ q) m.

(** [ProcessQueue::Submit] *)
Definition Submit (job : Job) (q : ProcessQueue) : ProcessQueue * list Reason :=
  let id := orderId job in
  if (id =? 0) || (id <? nextOrderId_ q) || bool_decide (is_Some (pendingJobMap_ q !! id))
  then (q, [INVALID_OR_DUPLICATE])
  else (upd_pending (<[id := job]> (pendingJobMap_ q)) (nextOrderId_ q) q, []).

(** [operator[]] creates an absent entry. *)
Definition points (q : ProcessQueue) (d : Z) : DeviceWorkCheckPoints := default no_points (devices_ q !! d).
Definition relation (q : ProcessQueue) (d : Z) : gset Z := default ∅ (relations_ q !! d).
Definition touch_device (d : Z) (q : ProcessQueue) : ProcessQueue := upd_devices (<[d := points q d]> (devices_ q)) q.
Definition touch_relation (d : Z) (q : ProcessQueue) : ProcessQueue := upd_relations (<[d := relation q d]> (relations_ q)) q.

Definition sorted (s : gset Z) : list Z := merge_sort Z.le (elements s).

(** [WaitForReaders]: the sources that may access [device], whose accesses are
    awaited. *)
Definition readers (device : Z) (q : ProcessQueue) : list Z :=
  omap (λ x : Z * gset Z, if bool_decide (device ∈ x.2) then Some x.1 else None) (ordered (relations_ q)).
Definition WaitForReaders (device : Z) (q : ProcessQueue) : ProcessQueue * list Future :=
  (foldl (λ q d, touch_device d q) q (readers device q), (λ d, lastAccess (points q d)) <$> readers device q).

(** What remains to be done when the futures are ready. *)
Inductive Plan :=
  | PlanLog
  | PlanWork (device : Z) (access update : bool) (ipcTargets : list Z).

Definition ipc_targets (job : Job) (r : R) (q : ProcessQueue) : list Z :=
  match payload job, ipcUpdates cb with
  | IPC_RECORD DESTROY_INFO, Some f =>
      (filter (λ x : Z * DeviceWorkCheckPoints, match points_checker x.2 with Some c => bool_decide (c ∈ f job r) | None => false end = true)
        (ordered (devices_ q))).*1
  | _, _ => []
  end.

Definition invalid_peer (device : Z) (r : PeerAccessRecord) : bool :=
  negb (deviceId r =? device) ||
  match operation r with
  | ENABLE | DISABLE => (peerDeviceId r <? 0) || (peerDeviceId r =? device)
  | RESET => negb (peerDeviceId r =? -1)
  | OTHER_OP _ => true
  end.

(** The waits of a peer access record. *)
Definition peer_waits (device : Z) (r : PeerAccessRecord) (q : ProcessQueue) : ProcessQueue * list Future :=
  let own := lastAccess (points q device) in
  match operation r with
  | RESET =>
      let fs := if bool_decide (relation q device = ∅) then [] else [own] in
      let q := touch_relation device q in
      let '(q, gs) := WaitForReaders device q in (q, fs ++ gs)
  | o =>
      let enabled := bool_decide (peerDeviceId r ∈ relation q device) in
      let q := touch_relation device q in
      (q, if match o with ENABLE => negb enabled | _ => enabled end then [own] else [])
  end.

Definition wait_targets (targets : list Z) (q : ProcessQueue) : ProcessQueue * list Future :=
  foldl (λ '(q, fs) t, let '(q, gs) := WaitForReaders t q in (q, fs ++ gs)) (q, []) targets.

(** The waits of the other packets. *)
Definition work_waits (device : Z) (access update : bool) (targets : list Z) (q : ProcessQueue) : ProcessQueue * list Future :=
  let '(q, fs) :=
    if access then
      let ts := sorted (relation q device) in
      let q := touch_relation device q in
      (foldl (λ q t, touch_device t q) q ts, (λ t, lastUpdate (points q t)) <$> ts)
    else (q, []) in
  let '(q, gs) := if update then WaitForReaders device q else (q, []) in
  let '(q, hs) := wait_targets targets q in (q, fs ++ gs ++ hs).

(** The context of a connection, restored. *)
Definition restored (job : Job) (q : ProcessQueue) : RuntimeContext :=
  let ctx := default new_context (rtContexts_ q !! connection job) in
  mkContext (ctx_deviceId ctx) (queue_pid q) (connection job) (others ctx).

(** The device of a packet, if the packet takes part in the dependencies. *)
Definition device_of (job : Job) (q : ProcessQueue) : option Z :=
  match payload job with
  | LOG_STRING => None
  | DEVICE_SUMMARY d => Some d
  | _ => Some (ctx_deviceId (restored job q))
  end.

(** [Execute] up to its waits: the context is restored, the packet classified. *)
Definition Execute_begin (job : Job) (r : R) (q : ProcessQueue) : ProcessQueue * (Reason + Plan * list Future) :=
  let dev := device_of job q in
  let q := upd_contexts (<[connection job := restored job q]> (rtContexts_ q)) q in
  match dev with
  | None => (q, inr (PlanLog, []))
  | Some device =>
      if device <? 0 then (q, inl INVALID_DEVICE)
      else
        let p := points q device in
        let q := upd_devices (<[device := mkPoints (Some (checker job)) (connection job) (lastAccess p) (lastUpdate p) (lastWork p)]>
                                (devices_ q)) q in
        let '(access, update) := Classify (payload job) in
        let targets := ipc_targets job r q in
        match payload job with
        | PEER_ACCESS_RECORD p =>
            if invalid_peer device p then (q, inl INVALID_PEER_RECORD)
            else let '(q, fs) := peer_waits device p q in (q, inr (PlanWork device access update targets, fs))
        | _ => let '(q, fs) := work_waits device access update targets q in (q, inr (PlanWork device access update targets, fs))
        end
  end.

(** The relations after a peer access record. *)
Definition update_relations (device : Z) (p : Payload) (q : ProcessQueue) : ProcessQueue :=
  match p with
  | PEER_ACCESS_RECORD r =>
      match operation r with
      | ENABLE => upd_relations (<[device := {[ peerDeviceId r ]} ∪ relation q device]> (relations_ q)) q
      | DISABLE => upd_relations (<[device := relation q device ∖ {[ peerDeviceId r ]}]> (relations_ q)) q
      | RESET => upd_relations ((λ s : gset Z, s ∖ {[ device ]}) <$> delete device (relations_ q)) q
      | OTHER_OP _ => q
      end
  | _ => q
  end.

Definition set_points (access update : bool) (done : Future) (p : DeviceWorkCheckPoints) : DeviceWorkCheckPoints :=
  mkPoints (points_checker p) (points_connection p) (if access then done else lastAccess p)
    (if update then done else lastUpdate p) done.

(** The completion of one target of an IPC destroy. *)
Definition capture_target (device : Z) (done : Z) (x : ProcessQueue * World R) (t : Z) : ProcessQueue * World R :=
  let '(q, w) := x in
  let p := points q t in
  let '(w, f) := if t =? device then (w, done)
                 else CaptureMemcheckCompletion (memcheck cb) (default 0 (points_checker p)) w in
  (upd_devices (<[t := mkPoints (points_checker p) (points_connection p) (lastAccess p) (Some f) (Some f)]> (devices_ q)) q, w).

(** [Execute] from the call of [dispatch_] on; the flag is false after an
    exception. *)
Definition Execute_end (job : Job) (plan : Plan) (q : ProcessQueue) (w : World R) : ProcessQueue * World R * bool :=
  let ctx := default new_context (rtContexts_ q !! connection job) in
  let '(ctx, r, cs, ok) := dispatch cb job ctx (rest w) in
  let w := foldl (λ w c, push c (Job' (orderId job)) w) (mkWorld (fifo w) (nextFuture w) (finished w) r) cs in
  if negb ok then (q, w, false)
  else
    let q := upd_contexts (<[connection job := ctx]> (rtContexts_ q)) q in
    match plan with
    | PlanLog => (q, w, true)
    | PlanWork device access update targets =>
        let q := update_relations device (payload job) q in
        let '(w, done) := CaptureMemcheckCompletion (memcheck cb) (checker job) w in
        let q := upd_devices (<[device := set_points access update (Some done) (points q device)]> (devices_ q)) q in
        (foldl (capture_target device done) (q, w) targets, true)
    end.

(** ** The threads

    Completion marks are always set: a queue is destroyed only after the
    scheduler has finished, so that no future carries an exception. *)

(** Where the dispatching thread is: in the wait of its loop, in [Execute] with
    futures it still waits for, in the waits at the end of [Run], or finished. *)
Inductive Worker :=
  | Idle | Executing (job : Job) (plan : Plan) (fs : list Future) | Closing (fs : list Future) | Exited.

Record System := mkSystem { queue_ : ProcessQueue; worker_ : Worker; world : World R }.

(** What the threads do: a job is taken, its checker recorded for a device, it is
    dispatched or ends with an exception, a failure is reported. *)
Inductive Event :=
  | Taken (job : Job) | Connected (device checker : Z) | Dispatched (job : Job) (plan : Plan) | Aborted (job : Job)
  | Failed (r : Reason).

(** A step of the dispatching thread; [None] while it is blocked. *)
Definition worker_step (s : System) : option (System * list Event) :=
  let '(mkSystem q k w) := s in
  match k with
  | Idle =>
      match pendingJobMap_ q !! nextOrderId_ q with
      | Some job =>
          let q := upd_pending (delete (nextOrderId_ q) (pendingJobMap_ q)) (nextOrderId_ q +u 1) q in
          let es := Taken job :: match device_of job q with
                                 | Some d => if d <? 0 then [] else [Connected d (checker job)]
                                 | None => []
                                 end in
          match Execute_begin job (rest w) q with
          | (q, inl reason) => Some (mkSystem q Idle w, es ++ [Failed reason])
          | (q, inr (plan, fs)) => Some (mkSystem q (Executing job plan fs) w, es)
          end
      | None =>
          if closing_ q then Some (mkSystem q (Closing ((λ x, lastWork x.2) <$> ordered (devices_ q))) w, []) else None
      end
  | Executing job plan (f :: fs) =>
      if match f with Some f => bool_decide (f ∈ finished w) | None => true end
      then Some (mkSystem q (Executing job plan fs) w, []) else None
  | Executing job plan [] =>
      let '(q, w, ok) := Execute_end job plan q w in
      Some (mkSystem q Idle w, if ok then [Dispatched job plan] else [Aborted job; Failed EXCEPTION])
  | Closing (f :: fs) =>
      if match f with Some f => bool_decide (f ∈ finished w) | None => true end
      then Some (mkSystem q (Closing fs) w, []) else None
  | Closing [] =>
      Some (mkSystem q Exited w, if bool_decide (pendingJobMap_ q = ∅) then [] else [Failed MISSING_OR_UNCONSUMED])
  | Exited => None
  end.

Inductive Label := LSubmit (job : Job) | LFinish | LWorker | LConsume (c : Z).

Definition step (l : Label) (s : System) : option (System * list Event) :=
  match l with
  | LSubmit job =>
      (* after [Finish] the scheduler refuses packets *)
      if closing_ (queue_ s) then Some (s, [])
      else
      let '(q, fs) := Submit job (queue_ s) in Some (mkSystem q (worker_ s) (world s), Failed <$> fs)
  | LFinish => Some (mkSystem (upd_closing true (queue_ s)) (worker_ s) (world s), [])
  | LWorker => worker_step s
  | LConsume c => w ← Consume c (world s); Some (mkSystem (queue_ s) (worker_ s) w, [])
  end.

Fixpoint run (ls : list Label) (s : System) : option (System * list Event) :=
  match ls with
  | [] => Some (s, [])
  | l :: ls => r ← step l s; let '(s, es) := r in r ← run ls s; let '(s, es') := r in Some (s, es ++ es')
  end.

Definition init (pid : Z) (r : R) : System := mkSystem (new_ProcessQueue pid) Idle (mkWorld ∅ 0 ∅ r).
End scheduler.
Arguments RuntimeContext : clear implicits.
Arguments ProcessQueue : clear implicits.
Arguments System : clear implicits.
Arguments Callbacks : clear implicits.
End Sched.

(** ** [OrderedPacketScheduler] *)
Module Scheduler.
Section top.
Context {C : Type}.

(** The queues by process; a process that is new gets a queue. *)
Record OrderedPacketScheduler := mkScheduler { processesQueueMap_ : gmap Z (Sched.ProcessQueue C); closed_ : bool }.

Definition Submit (job : Job) (s : OrderedPacketScheduler) : OrderedPacketScheduler * list Reason :=
  if closed_ s then (s, [])
  else
    let q := default (Sched.new_ProcessQueue (pid job)) (processesQueueMap_ s !! pid job) in
    let '(q, fs) := Sched.Submit job q in
    (mkScheduler (<[pid job := q]> (processesQueueMap_ s)) (closed_ s), fs).

Definition Finish (s : OrderedPacketScheduler) : OrderedPacketScheduler :=
  if closed_ s then s else mkScheduler (Sched.upd_closing true <$> processesQueueMap_ s) true.
End top.
End Scheduler.
