(* ===== verification/SchedulerTheorems.v ===== *)
(** What the packet scheduler promises: packets are taken in the order of their
    numbers whatever order they arrive in, a packet is dispatched only when the
    earlier checks it depends on have ended, and the scheduler can always finish. *)
From stdpp Require Import base numbers option list gmap sets sorting.
From S2P Require Import Prelude.
From S2P Require Import RecordDefs.
From S2P Require Import EventDef.
From S2P Require Import Scheduler.
Import Work Sched.

Section theorems.
Context {C R : Type} (cb : Callbacks C R).
Implicit Types (q : ProcessQueue C) (s : System C R) (w : World R) (es : list Event) (ls : list Label) (job : Job).

(** ** What the steps of [Execute] leave alone *)

(** The members that the receiving threads share with the dispatching thread. *)
Definition shared q : gmap Z Job * Z * bool := (pendingJobMap_ q, nextOrderId_ q, closing_ q).

Lemma shared_touch ds q : shared (foldl (λ q d, touch_device d q) q ds) = shared q.
Proof. revert q. induction ds as [|d ds IH]; intros q; [done|]. simpl. by rewrite IH. Qed.

Lemma shared_readers d q : shared (WaitForReaders d q).1 = shared q.
Proof. apply shared_touch. Qed.

Lemma shared_targets ts q fs : shared (foldl (λ '(q, fs) t, let '(q, gs) := WaitForReaders t q in (q, fs ++ gs)) (q, fs) ts).1 = shared q.
Proof.
  revert q fs. induction ts as [|t ts IH]; intros q fs; [done|]. cbn [foldl]. pose proof (shared_readers t q) as H.
  destruct (WaitForReaders t q) as [q' gs]. rewrite IH. done.
Qed.

Lemma shared_peer_waits d p q : shared (peer_waits d p q).1 = shared q.
Proof.
  unfold peer_waits. destruct (operation p); try done. pose proof (shared_readers d (touch_relation d q)) as H.
  destruct (WaitForReaders d (touch_relation d q)) as [q' gs]. done.
Qed.

Lemma shared_work_waits d a u ts q : shared (work_waits d a u ts q).1 = shared q.
Proof.
  unfold work_waits.
  assert (∃ q1 fs, (if a then (foldl (λ q t, touch_device t q) (touch_relation d q) (Sched.sorted (relation q d)),
                     (λ t, lastUpdate (points (touch_relation d q) t)) <$> Sched.sorted (relation q d)) else (q, [])) = (q1, fs) ∧
                   shared q1 = shared q) as (q1 & fs & Hq & H1).
  { destruct a; [|by eexists _, _]. eexists _, _. split; [done|]. by rewrite shared_touch. }
  cbv zeta. cbv zeta in Hq. rewrite Hq. clear Hq.
  assert (∃ q2 gs, (if u then WaitForReaders d q1 else (q1, [])) = (q2, gs) ∧ shared q2 = shared q) as (q2 & gs & -> & H2).
  { destruct u; [|by eexists _, _]. eexists _, _. split; [apply surjective_pairing|]. by rewrite shared_readers. }
  pose proof (shared_targets ts q2 []) as H3. unfold wait_targets. destruct (foldl _ _ _) as [q3 hs]. cbn [fst] in *. by rewrite H3.
Qed.

Lemma shared_begin job r q : shared (Execute_begin cb job r q).1 = shared q.
Proof.
  unfold Execute_begin. destruct (device_of cb job q) as [d|]; [|done]. destruct (d <? 0); [done|].
  destruct (Classify (payload job)) as [a u].
  set (q1 := upd_devices _ _). assert (shared q1 = shared q) as <- by done. clearbody q1.
  destruct (payload job); lazymatch goal with
    | |- context [work_waits ?d ?a ?u ?ts ?q] => pose proof (shared_work_waits d a u ts q) as H; destruct (work_waits d a u ts q); exact H
    | |- context [invalid_peer ?d ?r] => destruct (invalid_peer d r); [done|];
        pose proof (shared_peer_waits d r q1) as H; destruct (peer_waits d r q1); exact H
    end.
Qed.

Lemma shared_relations d p q : shared (update_relations d p q) = shared q.
Proof. destruct p; try done. by destruct r as [? ? []]. Qed.

Lemma shared_capture d f ts x : shared (foldl (capture_target cb d f) x ts).1 = shared x.1.
Proof.
  revert x. induction ts as [|t ts IH]; intros [q w]; [done|]. cbn [foldl]. rewrite IH. unfold capture_target.
  by destruct (if t =? d then _ else _).
Qed.

Lemma shared_end job plan q w : shared (Execute_end cb job plan q w).1.1 = shared q.
Proof.
  unfold Execute_end. destruct (dispatch cb job _ _) as [[[ctx r] cs] ok]. destruct ok; [|done]. cbn [negb].
  destruct plan as [|d a u ts]; [done|]. destruct (CaptureMemcheckCompletion _ _ _) as [w' f].
  destruct (foldl (capture_target cb d f) _ ts) as [q' w''] eqn:E. cbn [fst]. apply (f_equal (λ x, shared x.1)) in E.
  rewrite shared_capture in E. cbn [fst] in E. rewrite <- E. change (shared (upd_devices ?m ?x)) with (shared x). by rewrite shared_relations.
Qed.

(** ** The order of packets *)

Definition taken es : list Job := omap (λ e, match e with Taken job => Some job | _ => None end) es.
Definition dispatched es : list Job := omap (λ e, match e with Dispatched job _ => Some job | _ => None end) es.

(** The jobs that were submitted before the end. *)
Fixpoint submitted ls : list Job :=
  match ls with
  | [] => [] | LSubmit job :: ls => job :: submitted ls | LFinish :: _ => [] | _ :: ls => submitted ls
  end.

Definition closed ls : bool := existsb (λ l, match l with LFinish => true | _ => false end) ls.

Lemma submitted_snoc ls l :
  submitted (ls ++ [l]) =
    submitted ls ++ (if closed ls then [] else match l with LSubmit job => [job] | _ => [] end).
Proof. induction ls as [|l' ls IH]; [by destruct l|]. cbn [app]. destruct l'; cbn; by rewrite ?IH. Qed.

Lemma closed_snoc ls l : closed (ls ++ [l]) = closed ls || match l with LFinish => true | _ => false end.
Proof. unfold closed. rewrite existsb_app. simpl. by rewrite orb_false_r. Qed.

Lemma taken_app es es' : taken (es ++ es') = taken es ++ taken es'.
Proof. apply omap_app. Qed.
Lemma dispatched_app es es' : dispatched (es ++ es') = dispatched es ++ dispatched es'.
Proof. apply omap_app. Qed.

Lemma run_snoc ls l s s' es :
  run cb (ls ++ [l]) s = Some (s', es) ↔ ∃ s1 es1 es2, run cb ls s = Some (s1, es1) ∧ step cb l s1 = Some (s', es2) ∧ es = es1 ++ es2.
Proof.
  revert s s' es. induction ls as [|l' ls IH]; intros s s' es.
  - cbn [app run]. destruct (step cb l s) as [[s2 es2]|] eqn:E; cbn [mbind option_bind].
    + split.
      * intros H. simplify_eq. rewrite app_nil_r. by eexists _, [], _.
      * intros (s1 & es1 & es3 & H1 & H2 & ->). simplify_eq. by rewrite app_nil_r.
    + split; [done|]. intros (s1 & es1 & es3 & H1 & H2 & ->). by simplify_eq.
  - cbn [app run]. destruct (step cb l' s) as [[s2 es2]|]; cbn [mbind option_bind]; [|naive_solver].
    destruct (run cb (ls ++ [l]) s2) as [[s3 es3]|] eqn:E; cbn [mbind option_bind].
    + apply IH in E as (s4 & es4 & es5 & -> & H5 & ->). cbn. split.
      * intros H. simplify_eq. eexists _, _, _. split; [done|]. split; [done|]. by rewrite app_assoc.
      * intros (s1 & es1 & es6 & H1 & H2 & ->). simplify_eq. by rewrite app_assoc.
    + split; [done|]. intros (s4 & es4 & es5 & H4 & H5 & ->). exfalso.
      destruct (run cb ls s2) as [[s6 es6]|] eqn:E6; cbn in H4; [|done]. simplify_eq.
      assert (∃ x, run cb (ls ++ [l]) s2 = Some x) as [x Hx]; [|congruence].
      exists (s', es6 ++ es5). apply IH. by eexists _, _, _.
Qed.

(** Invariants of all reachable states. *)
Lemma run_ind pid r (P : list Label → System C R → list Event → Prop) :
  P [] (init pid r) [] →
  (∀ ls s es l s' es', run cb ls (init pid r) = Some (s, es) → P ls s es → step cb l s = Some (s', es') → P (ls ++ [l]) s' (es ++ es')) →
  ∀ ls s es, run cb ls (init pid r) = Some (s, es) → P ls s es.
Proof.
  intros H0 Hs ls. induction ls as [|l ls IH] using rev_ind; intros s es H.
  - by injection H as <- <-.
  - apply run_snoc in H as (s1 & es1 & es2 & H1 & H2 & ->). eauto.
Qed.

(** Taken and dispatched so far, the job in progress apart. *)
Definition progress (k : Worker) es : Prop :=
  match k with
  | Executing job _ _ => ∃ l, taken es = l ++ [job] ∧ dispatched es `sublist_of` l
  | _ => dispatched es `sublist_of` taken es
  end.

Record Order ls s es : Prop := {
  o_next : nextOrderId_ (queue_ s) = 1 + Z.of_nat (length (taken es));
  o_ids : orderId <$> taken es = seqZ 1 (Z.of_nat (length (taken es)));
  o_pending : ∀ id job, pendingJobMap_ (queue_ s) !! id = Some job →
    orderId job = id ∧ nextOrderId_ (queue_ s) <= id ∧ job ∈ submitted ls;
  o_taken : ∀ job, job ∈ taken es → job ∈ submitted ls;
  o_closing : closing_ (queue_ s) = closed ls;
  o_progress : progress (worker_ s) es;
  o_rest : NoDup (orderId <$> submitted ls) → Forall (λ job, 1 <= orderId job) (submitted ls) →
    ∀ job, job ∈ submitted ls → job ∈ taken es ∨ pendingJobMap_ (queue_ s) !! orderId job = Some job;
}.

Lemma taken_id ls s es id : Order ls s es → 1 <= id < nextOrderId_ (queue_ s) → ∃ job, job ∈ taken es ∧ orderId job = id.
Proof.
  intros H Hid. rewrite (o_next _ _ _ H) in Hid. assert (id ∈ orderId <$> taken es) as Hin.
  { rewrite (o_ids _ _ _ H). apply elem_of_seqZ. lia. }
  apply list_elem_of_fmap in Hin as (job & -> & Hj). eauto.
Qed.

Lemma taken_length ls s es : Order ls s es → (length (taken es) <= length (submitted ls))%nat.
Proof.
  intros Ho. apply submseteq_length, NoDup_submseteq; [|apply Ho].
  apply (NoDup_fmap_1 orderId). rewrite (o_ids _ _ _ Ho). apply NoDup_seqZ.
Qed.

Lemma submitted_length ls l : (length (submitted ls) <= length (submitted (ls ++ [l])))%nat.
Proof. rewrite submitted_snoc, length_app. lia. Qed.

(** A step that takes nothing and leaves the shared members alone. *)
Lemma order_quiet ls s es l s' es' :
  Order ls s es → shared (queue_ s') = shared (queue_ s) → taken es' = [] → progress (worker_ s') (es ++ es') →
  (∀ job, l ≠ LSubmit job) → l ≠ LFinish → Order (ls ++ [l]) s' (es ++ es').
Proof.
  intros [Ho1 Ho3 Ho4 Ho5 Ho6 Ho7 Ho8] Hs He Hp Hl Hl'. unfold shared in Hs. injection Hs as E1 E2 E3.
  assert (submitted (ls ++ [l]) = submitted ls) as Hsub.
  { rewrite submitted_snoc. destruct (closed ls); [by rewrite app_nil_r|]. destruct l; [by destruct (Hl job)| | |]; by rewrite app_nil_r. }
  assert (taken (es ++ es') = taken es) as Ht by (by rewrite taken_app, He, app_nil_r).
  split; rewrite ?Ht, ?Hsub, ?E1, ?E2, ?E3; try done.
  - rewrite closed_snoc, Ho6. destruct l; try done; by rewrite orb_false_r.
Qed.

Lemma submit_order ls s es job s' es' :
  Order ls s es → step cb (LSubmit job) s = Some (s', es') → Order (ls ++ [LSubmit job]) s' (es ++ es').
Proof.
  intros Ho Hstep. pose proof (taken_id _ _ _ (orderId job) Ho) as Hold. destruct Ho as [Ho1 Ho3 Ho4 Ho5 Ho6 Ho7 Ho8].
  unfold step in Hstep. pose proof (submitted_snoc ls (LSubmit job)) as Hsub. rewrite <- Ho6 in Hsub.
  pose proof (closed_snoc ls (LSubmit job)) as Hcl. rewrite orb_false_r in Hcl.
  destruct (closing_ (queue_ s)) eqn:Hc.
  { simplify_eq. rewrite app_nil_r in *. split; rewrite ?Hsub, ?Hcl; try done; congruence. }
  unfold Submit in Hstep.
  destruct ((orderId job =? 0) || (orderId job <? nextOrderId_ (queue_ s)) || bool_decide (is_Some (pendingJobMap_ (queue_ s) !! orderId job))) eqn:Hbad;
    injection Hstep as <- <-.
  - assert (taken (es ++ [Failed INVALID_OR_DUPLICATE]) = taken es) as Ht by (rewrite taken_app; by rewrite app_nil_r).
    assert (dispatched (es ++ [Failed INVALID_OR_DUPLICATE]) = dispatched es) as Hd by (rewrite dispatched_app; by rewrite app_nil_r).
    split; cbn [queue_ worker_]; rewrite ?Ht, ?Hcl, ?Hsub; try done.
    + intros id job' Hj. destruct (Ho4 id job' Hj) as (? & ? & ?). rewrite elem_of_app. auto.
    + intros job' Hj. rewrite elem_of_app. auto.
    + congruence.
    + unfold progress. by rewrite Ht, Hd.
    + rewrite fmap_app, Forall_app. intros [Hnd [Hno _]]%NoDup_app [Hpos Hp]. apply Forall_cons in Hp as [Hp _].
      assert (orderId job ∉ orderId <$> submitted ls) as Hnew by (intros Hin; apply (Hno _ Hin); by left).
      intros job' [Hj|Hj%list_elem_of_singleton]%elem_of_app; [auto|]. exfalso. subst job'.
      apply orb_true_iff in Hbad as [Hbad|Hbad%bool_decide_eq_true]; [apply orb_true_iff in Hbad as [Hbad|Hbad]|].
      * apply Z.eqb_eq in Hbad. lia.
      * destruct Hold as (job' & Hj & Hid); [apply Z.ltb_lt in Hbad; lia|]. apply Hnew. rewrite <- Hid. apply list_elem_of_fmap_2. auto.
      * destruct Hbad as [job' Hj]. destruct (Ho4 _ _ Hj) as (Hid & _ & Hin). apply Hnew. rewrite <- Hid. by apply list_elem_of_fmap_2.
  - apply orb_false_iff in Hbad as [[Hb1 Hb2]%orb_false_iff Hb3%bool_decide_eq_false].
    rewrite app_nil_r. split; cbn [queue_ worker_ pendingJobMap_ nextOrderId_ closing_ upd_pending]; rewrite ?Hcl, ?Hsub; try done.
    + intros id job' [[<- <-]|[Hne Hj]]%lookup_insert_Some.
      * split; [done|]. split; [lia|]. rewrite elem_of_app. right. by left.
      * destruct (Ho4 id job' Hj) as (? & ? & ?). rewrite elem_of_app. auto.
    + intros job' Hj. rewrite elem_of_app. auto.
    + congruence.
    + rewrite fmap_app, Forall_app. intros [Hnd [Hno _]]%NoDup_app [Hpos Hp]. 
      assert (orderId job ∉ orderId <$> submitted ls) as Hnew by (intros Hin; apply (Hno _ Hin); by left).
      intros job' [Hj|Hj%list_elem_of_singleton]%elem_of_app.
      * destruct (Ho8 Hnd Hpos job' Hj) as [?|Hp']; [by left|right]. rewrite lookup_insert_ne; [done|].
        intros He. apply Hnew. rewrite He. by apply list_elem_of_fmap_2.
      * subst job'. right. by rewrite lookup_insert_eq.
Qed.

Lemma finish_order ls s es s' es' :
  Order ls s es → step cb LFinish s = Some (s', es') → Order (ls ++ [LFinish]) s' (es ++ es').
Proof.
  intros [Ho1 Ho3 Ho4 Ho5 Ho6 Ho7 Ho8] Hstep. cbn in Hstep. injection Hstep as <- <-. rewrite app_nil_r.
  assert (submitted (ls ++ [LFinish]) = submitted ls) as Hsub by (rewrite submitted_snoc; destruct (closed ls); by rewrite app_nil_r).
  split; cbn; rewrite ?Hsub; try done.
  - by rewrite closed_snoc, orb_true_r.
Qed.

Lemma take_order ls s es job k es' q' :
  Order ls s es → worker_ s = Idle → Z.of_nat (length (submitted ls)) < 18446744073709551614 →
  pendingJobMap_ (queue_ s) !! nextOrderId_ (queue_ s) = Some job →
  shared q' = (delete (nextOrderId_ (queue_ s)) (pendingJobMap_ (queue_ s)), nextOrderId_ (queue_ s) +u 1, closing_ (queue_ s)) →
  taken es' = [job] → dispatched es' = [] → (k = Idle ∨ ∃ plan fs, k = Executing job plan fs) →
  Order (ls ++ [LWorker]) (mkSystem q' k (world s)) (es ++ es').
Proof.
  intros Ho Hk Hl Hj Hs Ht Hd Hk'. pose proof Ho as [Ho1 Ho3 Ho4 Ho5 Ho6 Ho7 Ho8]. unfold shared in Hs. injection Hs as E1 E2 E3.
  destruct (Ho4 _ _ Hj) as (Hid & _ & Hin).
  assert (submitted (ls ++ [LWorker]) = submitted ls) as Hsub by (rewrite submitted_snoc; destruct (closed ls); by rewrite app_nil_r).
  assert (taken (es ++ es') = taken es ++ [job]) as Ht' by (by rewrite taken_app, Ht).
  assert (length (taken es ++ [job]) = S (length (taken es))) as Hlen by (rewrite length_app; simpl; lia).
  pose proof (taken_length _ _ _ Ho) as Htl. rewrite u64_small in E2 by (unfold is_u64; lia).
  split; cbn [queue_ worker_]; rewrite ?Ht', ?Hsub, ?E1, ?E2, ?E3, ?Hlen; try done.
  - lia.
  - rewrite fmap_app, Ho3. cbn [fmap list_fmap]. rewrite Hid, Ho1.
    replace (Z.of_nat (S (length (taken es)))) with (Z.of_nat (length (taken es)) + 1) by lia.
    rewrite seqZ_app by lia. done.
  - intros id job' [Hne Hj']%lookup_delete_Some. destruct (Ho4 _ _ Hj') as (? & ? & ?). split; [done|]. split; [lia|done].
  - intros job' [?|Hin'%list_elem_of_singleton]%elem_of_app; [auto|]. by subst.
  - rewrite closed_snoc, Ho6. by rewrite orb_false_r.
  - rewrite Hk in Ho7. cbn [progress] in Ho7. destruct Hk' as [->|(plan & fs & ->)]; cbn [progress]; rewrite Ht', dispatched_app, Hd, app_nil_r.
    + by apply sublist_inserts_r.
    + by exists (taken es).
  - intros Hnd Hpos job' Hj'. rewrite elem_of_app. destruct (Ho8 Hnd Hpos job' Hj') as [?|Hp]; [by left; left|].
    destruct (decide (orderId job' = nextOrderId_ (queue_ s))) as [He|He].
    + left. right. rewrite He in Hp. rewrite Hj in Hp. injection Hp as ->. by left.
    + right. by rewrite lookup_delete_ne.
Qed.

Lemma worker_order ls s es s' es' :
  Order ls s es → Z.of_nat (length (submitted ls)) < 18446744073709551614 →
  worker_step cb s = Some (s', es') → Order (ls ++ [LWorker]) s' (es ++ es').
Proof.
  intros Ho Hl Hstep. destruct s as [q k w]. cbn [worker_step] in Hstep.
  assert (Hquiet : ∀ q' k' w' es', shared q' = shared q → taken es' = [] → progress k' (es ++ es') →
    Order (ls ++ [LWorker]) (mkSystem q' k' w') (es ++ es')) by (intros; by apply (order_quiet ls (mkSystem q k w))).
  pose proof (o_progress _ _ _ Ho) as Hp. cbn [worker_] in Hp.
  destruct k as [|job plan [|f fs]|[|f fs]|].
  - destruct (pendingJobMap_ q !! nextOrderId_ q) as [job|] eqn:Hj.
    + set (q1 := upd_pending _ _ q) in *. pose proof (shared_begin job (rest w) q1) as Hsh.
      assert (∀ es'', taken (Taken job :: (match device_of cb job q1 with Some d => if d <? 0 then [] else [Connected d (checker job)] | None => [] end) ++ es'') = job :: taken es'' ∧
              dispatched (Taken job :: (match device_of cb job q1 with Some d => if d <? 0 then [] else [Connected d (checker job)] | None => [] end) ++ es'') = dispatched es'') as Hes.
      { intros es''. unfold taken, dispatched. cbn [omap list_omap]. rewrite !omap_app. destruct (device_of cb job q1) as [d|]; [destruct (d <? 0)|]; done. }
      destruct (Execute_begin cb job (rest w) q1) as [q2 [reason|[plan fs] ] ]; injection Hstep as <- <-.
      * eapply (take_order ls (mkSystem q Idle w) es job); try done; [apply (Hes [Failed reason])|apply (Hes [Failed reason])|by left].
      * eapply (take_order ls (mkSystem q Idle w) es job); try done.
        -- destruct (Hes []) as [H1 _]. by rewrite app_nil_r in H1.
        -- destruct (Hes []) as [_ H1]. by rewrite app_nil_r in H1.
        -- right. by eexists _, _.
    + destruct (closing_ q); [|done]. injection Hstep as <- <-. apply Hquiet; [done|done|]. rewrite app_nil_r. exact Hp.
  - pose proof (shared_end job plan q w) as Hsh. destruct (Execute_end cb job plan q w) as [[q' w'] ok]. injection Hstep as <- <-.
    destruct Hp as (l & Hl1 & Hl2). apply Hquiet; [done|by destruct ok|]. cbn [progress]. rewrite taken_app, dispatched_app, Hl1.
    destruct ok; cbn; rewrite !app_nil_r; [by apply sublist_app|by apply sublist_inserts_r].
  - destruct (match f with Some f => _ | None => _ end); [|done]. injection Hstep as <- <-. apply Hquiet; [done|done|]. by rewrite app_nil_r.
  - injection Hstep as <- <-. apply Hquiet; [done|by destruct (bool_decide _)|]. cbn [progress] in *. rewrite taken_app, dispatched_app.
    destruct (bool_decide _); cbn; by rewrite !app_nil_r.
  - destruct (match f with Some f => _ | None => _ end); [|done]. injection Hstep as <- <-. apply Hquiet; [done|done|]. by rewrite app_nil_r.
  - done.
Qed.

Lemma run_order pid r ls s es :
  run cb ls (init pid r) = Some (s, es) → Z.of_nat (length (submitted ls)) < 18446744073709551614 → Order ls s es.
Proof.
  revert ls s es. apply (run_ind pid r (λ ls s es, Z.of_nat (length (submitted ls)) < 18446744073709551614 → Order ls s es)).
  - intros _. split; try done; cbn; set_solver.
  - intros ls s es l s' es' _ IH Hstep Hl. pose proof (submitted_length ls l) as Hle. assert (Order ls s es) as Ho by (apply IH; lia).
    destruct l; [by eapply submit_order|by eapply finish_order|eapply worker_order; [done|lia|done]|].
    cbn in Hstep. destruct (Consume c (world s)) as [w|]; [|done]. cbn in Hstep. injection Hstep as <- <-.
    apply (order_quiet ls s); try done. rewrite app_nil_r. apply Ho.
Qed.

(** ** Completion points and relations *)

(** [operator[]] may create entries; the completion points and relations as
    functions are the same. *)
Definition same q' q : Prop := (∀ d, points q' d = points q d) ∧ (∀ d, relation q' d = relation q d).

Lemma same_refl q : same q q. Proof. done. Qed.
Lemma same_trans q1 q2 q3 : same q3 q2 → same q2 q1 → same q3 q1.
Proof. intros [H1 H2] [H3 H4]. split; intros d; [by rewrite H1|by rewrite H2]. Qed.

Lemma same_touch d q : same (touch_device d q) q.
Proof.
  split; intros d'; [|done]. unfold points at 1, touch_device. cbn [devices_ upd_devices].
  destruct (decide (d = d')) as [->|Hne]; [by rewrite lookup_insert_eq|by rewrite lookup_insert_ne].
Qed.
Lemma same_touch_relation d q : same (touch_relation d q) q.
Proof.
  split; intros d'; [done|]. unfold relation at 1, touch_relation. cbn [relations_ upd_relations].
  destruct (decide (d = d')) as [->|Hne]; [by rewrite lookup_insert_eq|by rewrite lookup_insert_ne].
Qed.
Lemma same_touches ds q : same (foldl (λ q d, touch_device d q) q ds) q.
Proof.
  revert q. induction ds as [|d ds IH]; intros q; [apply same_refl|]. cbn [foldl].
  eapply same_trans; [apply IH|apply same_touch].
Qed.

Lemma elem_of_readers d q a : a ∈ readers d q ↔ d ∈ relation q a.
Proof.
  unfold readers. rewrite list_elem_of_omap. split.
  - intros ([a' s] & Ha & Hs). apply elem_of_ordered in Ha. cbn [fst snd] in Hs. case_bool_decide; [|done].
    injection Hs as <-. unfold relation. by rewrite Ha.
  - unfold relation. destruct (relations_ q !! a) as [s|] eqn:E; cbn [default]; [|set_solver]. intros Hd.
    exists (a, s). split; [by apply elem_of_ordered|]. cbn [fst snd]. by rewrite bool_decide_true.
Qed.

Lemma readers_spec d q :
  let r := WaitForReaders d q in same r.1 q ∧ ∀ f, f ∈ r.2 ↔ ∃ a, d ∈ relation q a ∧ f = lastAccess (points q a).
Proof.
  unfold WaitForReaders. cbn [fst snd]. split; [apply same_touches|]. intros f. rewrite list_elem_of_fmap.
  setoid_rewrite elem_of_readers. naive_solver.
Qed.

Lemma targets_spec ts q fs :
  let r := foldl (λ '(q, fs) t, let '(q, gs) := WaitForReaders t q in (q, fs ++ gs)) (q, fs) ts in
  same r.1 q ∧ ∀ f, f ∈ r.2 ↔ f ∈ fs ∨ ∃ t a, t ∈ ts ∧ t ∈ relation q a ∧ f = lastAccess (points q a).
Proof.
  revert q fs. induction ts as [|t ts IH]; intros q fs; cbn [foldl].
  - split; [apply same_refl|]. intros f. set_solver.
  - destruct (readers_spec t q) as [H1 H2]. destruct (WaitForReaders t q) as [q' gs]. cbn [fst snd] in *.
    destruct (IH q' (fs ++ gs)) as [H3 H4]. split; [by eapply same_trans|]. intros f. rewrite H4, elem_of_app, H2.
    destruct H1 as [P1 P2]. setoid_rewrite P1. setoid_rewrite P2. split.
    + intros [[Hf|(a & Ha & ->)]|(t' & a & Ht & Ha & ->)]; [by left| |]; right; eexists _, _; (split; [|done]); set_solver.
    + intros [Hf|(t' & a & Ht & Ha & ->)]; [by left; left|]. apply elem_of_cons in Ht as [->|Ht]; [left; right|right]; naive_solver.
Qed.

Lemma elem_of_sorted (X : gset Z) x : x ∈ Sched.sorted X ↔ x ∈ X.
Proof. unfold Sched.sorted. rewrite merge_sort_Permutation. apply elem_of_elements. Qed.

(** The futures that a packet waits for. *)
Lemma work_waits_spec d a u ts q :
  let r := work_waits d a u ts q in
  same r.1 q ∧ ∀ f, f ∈ r.2 ↔
    (a = true ∧ ∃ t, t ∈ relation q d ∧ f = lastUpdate (points q t)) ∨
    (u = true ∧ ∃ b, d ∈ relation q b ∧ f = lastAccess (points q b)) ∨
    (∃ t b, t ∈ ts ∧ t ∈ relation q b ∧ f = lastAccess (points q b)).
Proof.
  unfold work_waits.
  assert (∃ q1 fs, (if a then (foldl (λ q t, touch_device t q) (touch_relation d q) (Sched.sorted (relation q d)),
                     (λ t, lastUpdate (points (touch_relation d q) t)) <$> Sched.sorted (relation q d)) else (q, [])) = (q1, fs) ∧
                   same q1 q ∧ ∀ f, f ∈ fs ↔ a = true ∧ ∃ t, t ∈ relation q d ∧ f = lastUpdate (points q t)) as (q1 & fs & Hq & H1 & H2).
  { destruct a; [|eexists _, _; split; [done|]; split; [apply same_refl|]; set_solver]. eexists _, _. split; [done|]. split.
    - eapply same_trans; [apply same_touches|apply same_touch_relation].
    - intros f. rewrite list_elem_of_fmap. setoid_rewrite elem_of_sorted. destruct (same_touch_relation d q) as [P _]. setoid_rewrite P. naive_solver. }
  cbv zeta. cbv zeta in Hq. rewrite Hq. clear Hq.
  assert (∃ q2 gs, (if u then WaitForReaders d q1 else (q1, [])) = (q2, gs) ∧ same q2 q ∧
    ∀ f, f ∈ gs ↔ u = true ∧ ∃ b, d ∈ relation q b ∧ f = lastAccess (points q b)) as (q2 & gs & -> & H3 & H4).
  { destruct u; [|eexists _, _; split; [done|]; split; [done|]; set_solver]. eexists _, _. split; [apply surjective_pairing|].
    destruct (readers_spec d q1) as [P1 P2]. split; [by eapply same_trans|]. intros f. rewrite P2. destruct H1 as [Q1 Q2].
    setoid_rewrite Q1. setoid_rewrite Q2. naive_solver. }
  destruct (targets_spec ts q2 []) as [H5 H6]. unfold wait_targets. destruct (foldl _ _ _) as [q3 hs]. cbn [fst snd] in *.
  split; [by eapply same_trans|]. intros f. rewrite !elem_of_app, H2, H4, H6. destruct H3 as [Q1 Q2]. setoid_rewrite Q1. setoid_rewrite Q2.
  rewrite elem_of_nil. tauto.
Qed.

(** Whether a peer access record changes the relation. *)
Definition changes_relation (d : Z) (p : PeerAccessRecord) q : bool :=
  match operation p with
  | ENABLE => negb (bool_decide (peerDeviceId p ∈ relation q d))
  | RESET => negb (bool_decide (relation q d = ∅))
  | _ => bool_decide (peerDeviceId p ∈ relation q d)
  end.

Lemma peer_waits_spec d p q :
  let r := peer_waits d p q in
  same r.1 q ∧ ∀ f, f ∈ r.2 ↔
    (changes_relation d p q = true ∧ f = lastAccess (points q d)) ∨
    (operation p = RESET ∧ ∃ b, d ∈ relation q b ∧ f = lastAccess (points q b)).
Proof.
  unfold peer_waits, changes_relation. destruct (operation p) eqn:Ho.
  3: { destruct (readers_spec d (touch_relation d q)) as [P1 P2]. destruct (WaitForReaders d (touch_relation d q)) as [q' gs].
       cbn [fst snd] in *. destruct (same_touch_relation d q) as [Q1 Q2]. split; [by eapply same_trans; [|apply same_touch_relation]|].
       intros f. rewrite elem_of_app, P2. setoid_rewrite Q1. setoid_rewrite Q2. case_bool_decide; set_solver. }
  all: split; [apply same_touch_relation|]; intros f; cbn [snd]; case_bool_decide; set_solver.
Qed.

(** What a packet has to wait for: an access for the updates of the devices it may
    access, an update for the accesses to the device, a change of the relation
    for the accesses of its source, a reset for the accesses to the device. *)
Inductive needs job (d : Z) (a u : bool) (ts : list Z) q : Future → Prop :=
  | needs_update t : a = true → t ∈ relation q d → needs job d a u ts q (lastUpdate (points q t))
  | needs_access b : u = true → d ∈ relation q b → needs job d a u ts q (lastAccess (points q b))
  | needs_target t b : t ∈ ts → t ∈ relation q b → needs job d a u ts q (lastAccess (points q b))
  | needs_relation p : payload job = PEER_ACCESS_RECORD p → changes_relation d p q = true →
      needs job d a u ts q (lastAccess (points q d))
  | needs_reset p b : payload job = PEER_ACCESS_RECORD p → operation p = RESET → d ∈ relation q b →
      needs job d a u ts q (lastAccess (points q b)).

Lemma changes_same d p q q' : same q' q → changes_relation d p q' = changes_relation d p q.
Proof. intros [_ H]. unfold changes_relation. by rewrite H. Qed.

Lemma same_sym q q' : same q' q → same q q'.
Proof. intros [H1 H2]. split; intros d; [by rewrite H1|by rewrite H2]. Qed.

Lemma needs_mono job d a u ts q q' f : same q' q → needs job d a u ts q' f → needs job d a u ts q f.
Proof.
  intros Hs [t Ha Ht|b Hu Hb|t b Ht Hb|p Hp Hc|p b Hp Hr Hb]; pose proof Hs as [H1 H2]; rewrite H1.
  - rewrite H2 in Ht. by eapply needs_update.
  - rewrite H2 in Hb. by eapply needs_access.
  - rewrite H2 in Hb. by eapply needs_target.
  - rewrite (changes_same _ _ _ _ Hs) in Hc. by eapply needs_relation.
  - rewrite H2 in Hb. by eapply needs_reset.
Qed.

Lemma needs_same job d a u ts q q' f : same q' q → needs job d a u ts q' f ↔ needs job d a u ts q f.
Proof. intros Hs. split; apply needs_mono; [done|by apply same_sym]. Qed.

Definition futures (p : DeviceWorkCheckPoints) : Future * Future * Future := (lastAccess p, lastUpdate p, lastWork p).

Lemma points_insert d p q d' : points (upd_devices (<[d := p]> (devices_ q)) q) d' = if decide (d = d') then p else points q d'.
Proof.
  unfold points at 1. cbn [devices_ upd_devices].
  destruct (decide (d = d')) as [->|Hne]; [by rewrite lookup_insert_eq|by rewrite lookup_insert_ne].
Qed.

Lemma ipc_targets_spec job r q t : t ∈ ipc_targets cb job r q → (∃ c, points_checker (points q t) = Some c) ∧ ∀ p, payload job ≠ PEER_ACCESS_RECORD p.
Proof.
  unfold ipc_targets. intros Ht. split.
  - destruct (payload job); try (by apply elem_of_nil in Ht). destruct type; try (by apply elem_of_nil in Ht).
    destruct (ipcUpdates cb) as [f|]; [|by apply elem_of_nil in Ht].
    apply list_elem_of_fmap in Ht as ([t' p] & -> & [Hp Hin]%list_elem_of_filter). apply elem_of_ordered in Hin. cbn [fst snd] in *.
    unfold points. rewrite Hin. cbn. destruct (points_checker p); [eauto|done].
  - intros p Hp. rewrite Hp in Ht. by apply elem_of_nil in Ht.
Qed.

Lemma begin_spec job r q q' res :
  Execute_begin cb job r q = (q', res) →
  (∀ d, relation q' d = relation q d) ∧ (∀ d, futures (points q' d) = futures (points q d)) ∧
  (∀ d c, points_checker (points q' d) = Some c →
     points_checker (points q d) = Some c ∨ (device_of cb job q = Some d ∧ 0 <= d ∧ c = checker job)) ∧
  match res with
  | inl _ => True
  | inr (PlanLog, fs) => fs = []
  | inr (PlanWork d a u ts, fs) =>
      device_of cb job q = Some d ∧ 0 <= d ∧ Classify (payload job) = (a, u) ∧ points_checker (points q' d) = Some (checker job) ∧
      (∀ t, t ∈ ts → ∃ c, points_checker (points q' t) = Some c) ∧ (∀ f, f ∈ fs ↔ needs job d a u ts q' f)
  end.
Proof.
  unfold Execute_begin. destruct (device_of cb job q) as [d|] eqn:Hd; [|intros H; injection H as <- <-; split_and!; auto].
  destruct (Z.ltb_spec d 0); [intros H'; injection H' as <- <-; split_and!; auto|].
  destruct (Classify (payload job)) as [a u] eqn:Hc. cbv zeta.
  set (q0 := upd_contexts _ q). set (q1 := upd_devices _ q0).
  assert (∀ d', points q1 d' = if decide (d = d') then mkPoints (Some (checker job)) (connection job) (lastAccess (points q d)) (lastUpdate (points q d)) (lastWork (points q d)) else points q d') as Hp1.
  { intros d'. unfold q1. rewrite points_insert. done. }
  assert (∀ q2, same q2 q1 → (∀ d, relation q2 d = relation q d) ∧ (∀ d, futures (points q2 d) = futures (points q d)) ∧
    (∀ d' c, points_checker (points q2 d') = Some c →
       points_checker (points q d') = Some c ∨ (Some d = Some d' ∧ 0 <= d' ∧ c = checker job)) ∧
    points_checker (points q2 d) = Some (checker job)) as Hq2.
  { intros q2 [P1 P2]. split_and!.
    - intros d'. by rewrite P2.
    - intros d'. rewrite P1, Hp1. by destruct (decide (d = d')) as [->|].
    - intros d' c. rewrite P1, Hp1. destruct (decide (d = d')) as [->|]; [|by left]. intros [= <-]. by right.
    - rewrite P1, Hp1. by rewrite decide_True. }
  assert (∀ q2 t, same q2 q1 → t ∈ ipc_targets cb job r q1 → ∃ c, points_checker (points q2 t) = Some c) as Hts.
  { intros q2 t [P1 _] Ht. rewrite P1. by apply (ipc_targets_spec job r). }
  destruct (payload job) as [| | | | | | | | | |p] eqn:Hpay.
  all: try (destruct (work_waits_spec d a u (ipc_targets cb job r q1) q1) as [P1 P2]; destruct (work_waits d a u (ipc_targets cb job r q1) q1) as [q2 fs];
    intros H'; injection H' as <- <-; cbn [fst snd] in *; destruct (Hq2 q2 P1) as (R1 & R2 & R3 & R4);
    split; [exact R1|]; split; [exact R2|]; split; [exact R3|]; split; [reflexivity|]; split; [assumption|]; split; [reflexivity|];
    split; [exact R4|]; split; [intros t Ht; exact (Hts q2 t P1 Ht)|];
    intros f; rewrite (needs_same _ _ _ _ _ _ _ _ P1), P2; split;
    [intros [(-> & t & Ht & ->)|[(-> & b & Hb & ->)|(t & b & Ht & Hb & ->)] ]; [by eapply needs_update|by eapply needs_access|by eapply needs_target]
    |intros [t' Ha Ht|b Hu Hb|t' b Ht Hb|p Hp|p b Hp]; [left|right; left|right; right|exfalso; congruence|exfalso; congruence]; eauto 10]).
  destruct (invalid_peer d p); [intros H'; injection H' as <- <-; destruct (Hq2 q1 (same_refl q1)) as (R1 & R2 & R3 & R4); split_and!; assumption || exact I|].
  destruct (peer_waits_spec d p q1) as [P1 P2]. destruct (peer_waits d p q1) as [q2 fs].
  intros H'; injection H' as <- <-; cbn [fst snd] in *; destruct (Hq2 q2 P1) as (R1 & R2 & R3 & R4).
  injection Hc as <- <-. split; [exact R1|]; split; [exact R2|]; split; [exact R3|]; split; [reflexivity|]; split; [assumption|]; split; [reflexivity|];
    split; [exact R4|]; split; [intros t Ht; exact (Hts q2 t P1 Ht)|]. intros f. rewrite (needs_same _ _ _ _ _ _ _ _ P1), P2. split.
  - intros [[Hch ->]|(Hr & b & Hb & ->)]; [by eapply needs_relation|by eapply needs_reset].
  - intros Hn. destruct Hn as [| |t b Ht|p'|p'].
    + done.
    + done.
    + apply ipc_targets_spec in Ht as [_ Ht]. by destruct (Ht p).
    + assert (p' = p) as -> by congruence. by left.
    + assert (p' = p) as -> by congruence. right. eauto.
Qed.

(** ** The queues of the memory checks *)

(** In a queue, all work of packet [n] comes before the mark of [f]. *)
Definition covers (f n : Z) (l : list Item) : Prop :=
  Job' n ∈ l → ∃ l1 l2, l = l1 ++ Mark f :: l2 ∧ Job' n ∉ l2.

Lemma covers_snoc f n l i : covers f n l → i ≠ Job' n → covers f n (l ++ [i]).
Proof.
  intros Hc Hi [Hn|Hn%list_elem_of_singleton]%elem_of_app; [|done]. destruct (Hc Hn) as (l1 & l2 & -> & Hl).
  exists l1, (l2 ++ [i]). split; [by rewrite <- app_assoc|]. set_solver.
Qed.

Lemma covers_mark f n l : covers f n (l ++ [Mark f]).
Proof. intros _. exists l, []. set_solver. Qed.

Lemma covers_tail f n i l : covers f n (i :: l) → covers f n l.
Proof.
  intros Hc Hn. destruct Hc as (l1 & l2 & E & Hl); [by right|]. destruct l1 as [|j l1]; simplify_eq/=; [done|]. by exists l1, l2.
Qed.

Lemma covers_done f n l : covers f n l → Mark f ∉ l → Job' n ∉ l.
Proof. intros Hc Hf Hn. destruct (Hc Hn) as (l1 & l2 & -> & _). apply Hf. set_solver. Qed.

Lemma queue_push w c i c' : queue (push c i w) c' = if decide (c = c') then queue w c ++ [i] else queue w c'.
Proof.
  unfold queue at 1, push. cbn [fifo]. destruct (decide (c = c')) as [->|]; [by rewrite lookup_insert_eq|by rewrite lookup_insert_ne].
Qed.

Record Marks w : Prop := {
  m_fresh : ∀ c f, Mark f ∈ queue w c → f < nextFuture w ∧ f ∉ finished w;
  m_finished : ∀ f, f ∈ finished w → f < nextFuture w;
  m_unique : ∀ c c' f, Mark f ∈ queue w c → Mark f ∈ queue w c' → c = c';
  m_once : ∀ c f l1 l2, queue w c = l1 ++ Mark f :: l2 → Mark f ∉ l2;
}.

Lemma marks_job c n w : Marks w → Marks (push c (Job' n) w).
Proof.
  intros [H1 H2 H3 H4].
  assert (∀ c' f, Mark f ∈ queue (push c (Job' n) w) c' ↔ Mark f ∈ queue w c') as Hq.
  { intros c' f. rewrite queue_push. destruct (decide (c = c')) as [->|]; set_solver. }
  split.
  - intros c' f. rewrite Hq. apply H1.
  - apply H2.
  - intros c1 c2 f. rewrite !Hq. apply H3.
  - intros c' f l1 l2. rewrite queue_push. destruct (decide (c = c')) as [->|]; [|apply H4].
    destruct l2 as [|i l2 _] using rev_ind; [set_solver|]. rewrite app_comm_cons, app_assoc. intros [E <-]%app_inj_tail.
    apply H4 in E. set_solver.
Qed.

Lemma marks_capture b c w w' f : Marks w → CaptureMemcheckCompletion b c w = (w', f) →
  Marks w' ∧ f = nextFuture w ∧ nextFuture w' = f + 1 ∧ (f ∈ finished w' ∨ ∃ c, Mark f ∈ queue w' c) ∧
  (∀ g, g ∈ finished w → g ∈ finished w') ∧ (∀ c' g, Mark g ∈ queue w c' → Mark g ∈ queue w' c') ∧
  (∀ c' i, i ∈ queue w' c' → i ∈ queue w c' ∨ i = Mark f) ∧
  (b = true → w' = push c (Mark f) (mkWorld (fifo w) (f + 1) (finished w) (rest w))).
Proof.
  intros [H1 H2 H3 H4] E. unfold CaptureMemcheckCompletion in E. destruct b; injection E as <- <-.
  - assert (∀ c' i, i ∈ queue (push c (Mark (nextFuture w)) (mkWorld (fifo w) (nextFuture w + 1) (finished w) (rest w))) c' ↔
              i ∈ queue w c' ∨ (c = c' ∧ i = Mark (nextFuture w))) as Hq.
    { intros c' i. rewrite queue_push. destruct (decide (c = c')) as [->|]; [|naive_solver].
      rewrite elem_of_app, list_elem_of_singleton. unfold queue. cbn [fifo]. naive_solver. }
    split_and!; try done.
    + split.
      * intros c' f [Hf|[_ [= ->]]]%Hq; cbn [nextFuture finished push].
        -- destruct (H1 _ _ Hf). split; [lia|done].
        -- split; [lia|]. intros Hf. apply H2 in Hf. lia.
      * cbn. intros f Hf. apply H2 in Hf. lia.
      * intros c1 c2 f [Hf|[-> [= ->]]]%Hq [Hg|[-> Hg]]%Hq; [eauto| | |done].
        -- injection Hg as ->. apply H1 in Hf as [? _]. lia.
        -- apply H1 in Hg as [? _]. lia.
      * intros c' f l1 l2. rewrite queue_push. unfold queue at 1 2. cbn [fifo]. fold (queue w c) (queue w c').
        destruct (decide (c = c')) as [->|]; [|apply H4].
        destruct l2 as [|i l2 _] using rev_ind; [set_solver|]. rewrite app_comm_cons, app_assoc. intros [E <-]%app_inj_tail.
        pose proof (H4 _ _ _ _ E). rewrite elem_of_app, list_elem_of_singleton. intros [?|[= ->]]; [done|].
        assert (Mark (nextFuture w) ∈ queue w c') as Hm by (rewrite E; set_solver). apply H1 in Hm as [? _]. lia.
    + right. exists c. apply Hq. by right.
    + intros c' g Hg. apply Hq. by left.
    + intros c' i [Hi|[_ Hi]]%Hq; auto.
  - split_and!; try done.
    + split; cbn [fifo nextFuture finished]; unfold queue in *; cbn [fifo].
      * intros c' f Hf. destruct (H1 _ _ Hf). split; [lia|]. rewrite elem_of_union, elem_of_singleton. intros [->|?]; [lia|done].
      * intros f [->%elem_of_singleton|Hf%H2]%elem_of_union; lia.
      * apply H3.
      * apply H4.
    + left. cbn. set_solver.
    + cbn. set_solver.
    + intros c' i Hi. by left.
Qed.

Lemma marks_consume c w w' : Marks w → Consume c w = Some w' →
  Marks w' ∧ nextFuture w' = nextFuture w ∧ (∀ g, g ∈ finished w → g ∈ finished w') ∧
  (∀ c' g, Mark g ∈ queue w c' → Mark g ∈ queue w' c' ∨ g ∈ finished w') ∧
  (∀ c' f n, covers f n (queue w c') → covers f n (queue w' c')).
Proof.
  intros [H1 H2 H3 H4] E. unfold Consume in E. destruct (queue w c) as [|i l] eqn:Hq; [done|].
  assert (∃ F, w' = mkWorld (<[c := l]> (fifo w)) (nextFuture w) F (rest w) ∧ (∀ g, g ∈ F ↔ g ∈ finished w ∨ i = Mark g)) as (F & -> & HF).
  { destruct i as [n|f]; injection E as <-; eexists; (split; [done|]); set_solver. }
  assert (∀ c', queue (mkWorld (<[c := l]> (fifo w)) (nextFuture w) F (rest w)) c' = if decide (c = c') then l else queue w c') as Hq'.
  { intros c'. unfold queue at 1. cbn [fifo]. destruct (decide (c = c')) as [->|]; [by rewrite lookup_insert_eq|by rewrite lookup_insert_ne]. }
  assert (∀ c' j, j ∈ (if decide (c = c') then l else queue w c') → j ∈ queue w c') as Hsub.
  { intros c' j. destruct (decide (c = c')) as [<-|]; [|done]. rewrite Hq. by right. }
  split_and!.
  - split.
    + intros c' f. rewrite Hq'. cbn [nextFuture finished]. intros Hf. pose proof (Hsub _ _ Hf) as Hf'. destruct (H1 _ _ Hf') as [? Hn]. split; [done|].
      rewrite HF. intros [?| ->]; [done|]. assert (c = c') as <- by (apply (H3 _ _ f); [rewrite Hq; by left|done]).
      rewrite decide_True in Hf by done. by apply (H4 c f [] l Hq).
    + cbn. intros f [Hf| ->]%HF; [auto|]. apply (H1 c). rewrite Hq. by left.
    + intros c1 c2 f. rewrite !Hq'. eauto.
    + intros c' f l1 l2. rewrite Hq'. destruct (decide (c = c')) as [<-|]; [|apply H4]. intros ->. by apply (H4 c f (i :: l1) l2).
  - done.
  - cbn. intros g Hg. apply HF. by left.
  - intros c' g Hg. rewrite Hq'. cbn [finished]. rewrite HF. destruct (decide (c = c')) as [<-|]; [|by left]. rewrite Hq in Hg.
    apply elem_of_cons in Hg as [->|Hg]; [by right; right|by left].
  - intros c' f n Hc. rewrite Hq'. destruct (decide (c = c')) as [<-|]; [|done]. rewrite Hq in Hc. by apply covers_tail in Hc.
Qed.

(** ** Completion points cover the work they stand for *)

(** A device has one checker. *)
Context (chk : Z → Z).
Implicit Types (A U : Z → Z → Prop).

(** [A n d]: packet [n] was an access of device [d]; [U n d]: an update of [d]. The
    last completion points of [d] come after the work of [n] in the queue. *)
Definition Cov A U q w : Prop :=
  (∀ n d, A n d → ∃ f, lastAccess (points q d) = Some f ∧ covers f n (queue w (chk d))) ∧
  (∀ n d, U n d → ∃ f, lastUpdate (points q d) = Some f ∧ covers f n (queue w (chk d))).

(** Completion points of [q] are marked in a queue or done. *)
Definition live w (f : Z) : Prop := f ∈ finished w ∨ ∃ c, Mark f ∈ queue w c.
Definition Held q w : Prop :=
  ∀ d f, lastAccess (points q d) = Some f ∨ lastUpdate (points q d) = Some f ∨ lastWork (points q d) = Some f → live w f.

Lemma covers_push f n c i w c' : covers f n (queue w c') → i ≠ Job' n → covers f n (queue (push c i w) c').
Proof. intros Hc Hi. rewrite queue_push. destruct (decide (c = c')) as [->|]; [by apply covers_snoc|done]. Qed.

Lemma live_push f c i w : live w f → live (push c i w) f.
Proof.
  intros [Hf|[c' Hc]]; [by left|right]. exists c'. rewrite queue_push. destruct (decide (c = c')) as [->|]; [|done]. set_solver.
Qed.

Lemma cov_futures A U q q' w : (∀ d, futures (points q' d) = futures (points q d)) → Cov A U q w → Cov A U q' w.
Proof.
  intros Hp [H1 H2]. split; intros n d Hn; specialize (Hp d); unfold futures in Hp; injection Hp as E1 E2 _.
  - rewrite E1. auto.
  - rewrite E2. auto.
Qed.

Lemma held_futures q q' w : (∀ d, futures (points q' d) = futures (points q d)) → Held q w → Held q' w.
Proof.
  intros Hp H d f. specialize (Hp d). unfold futures in Hp. injection Hp as -> -> ->. apply H.
Qed.

(** Work of a new packet is added. *)
Lemma cov_jobs A U q n cs w :
  (∀ d, ¬ A n d) → (∀ d, ¬ U n d) → Marks w → Held q w → Cov A U q w →
  let w' := foldl (λ w c, push c (Job' n) w) w cs in
  Marks w' ∧ Held q w' ∧ Cov A U q w' ∧ finished w' = finished w.
Proof.
  intros HA HU. revert w. induction cs as [|c cs IH]; intros w Hm Hh Hc; [done|]. cbn [foldl]. apply (IH (push c (Job' n) w)).
  - by apply marks_job.
  - intros d f Hf. apply live_push. by apply (Hh d).
  - destruct Hc as [H1 H2]. split; intros n' d Hn.
    + destruct (H1 n' d Hn) as (f & Hf & Hcov). exists f. split; [done|]. apply covers_push; [done|]. intros [= ->]. by apply (HA d).
    + destruct (H2 n' d Hn) as (f & Hf & Hcov). exists f. split; [done|]. apply covers_push; [done|]. intros [= ->]. by apply (HU d).
Qed.

Lemma held_capture b c q w w' f : Marks w → CaptureMemcheckCompletion b c w = (w', f) → Held q w → Held q w'.
Proof.
  intros Hm E Hh d g Hg. destruct (marks_capture _ _ _ _ _ Hm E) as (_ & _ & _ & _ & H1 & H2 & _).
  destruct (Hh d g Hg) as [?|[c' ?]]; [left; auto|right; eauto].
Qed.

Lemma cov_capture A U c q w w' f :
  Marks w → CaptureMemcheckCompletion true c w = (w', f) → Cov A U q w →
  Cov A U q w' ∧ (∀ n, covers f n (queue w' c)) ∧ ∀ g n c', covers g n (queue w c') → covers g n (queue w' c').
Proof.
  intros Hm E [H1 H2]. destruct (marks_capture _ _ _ _ _ Hm E) as (_ & _ & _ & _ & _ & _ & _ & Hw). specialize (Hw eq_refl).
  assert (∀ g n c', covers g n (queue w c') → covers g n (queue w' c')) as Hmono.
  { intros g n c' Hg. rewrite Hw. by apply covers_push. }
  split_and!; [|intros n; rewrite Hw, queue_push, decide_True by done; apply covers_mark|done].
  split; intros n d Hn; [destruct (H1 n d Hn) as (g & Hg & Hc)|destruct (H2 n d Hn) as (g & Hg & Hc)]; exists g; auto.
Qed.

(** New completion points of [d] that cover all its work. *)
Lemma cov_set A U q w (d : Z) (p : DeviceWorkCheckPoints) (f n : Z) (a u : bool) :
  Cov A U q w → (∀ n, covers f n (queue w (chk d))) →
  lastAccess p = (if a then Some f else lastAccess (points q d)) → lastUpdate p = (if u then Some f else lastUpdate (points q d)) →
  Cov (λ m e : Z, A m e ∨ (a = true ∧ m = n ∧ e = d)) (λ m e : Z, U m e ∨ (u = true ∧ m = n ∧ e = d))
    (upd_devices (<[d := p]> (devices_ q)) q) w.
Proof.
  intros [H1 H2] Hf Hp1 Hp2. split; intros m e Hm; rewrite points_insert; destruct (decide (d = e)) as [<-|Hne].
  - rewrite Hp1. destruct a; [eauto|]. destruct Hm as [Hm|[? _]]; [auto|done].
  - destruct Hm as [Hm|(_ & _ & ->)]; [auto|done].
  - rewrite Hp2. destruct u; [eauto|]. destruct Hm as [Hm|[? _]]; [auto|done].
  - destruct Hm as [Hm|(_ & _ & ->)]; [auto|done].
Qed.

Lemma held_set q w d p :
  Held q w → (∀ g, Some g ∈ [lastAccess p; lastUpdate p; lastWork p] → (∃ e, Some g ∈ [lastAccess (points q e); lastUpdate (points q e); lastWork (points q e)]) ∨ live w g) →
  Held (upd_devices (<[d := p]> (devices_ q)) q) w.
Proof.
  intros Hh Hp e g. rewrite points_insert. destruct (decide (d = e)) as [->|]; [|apply Hh]. intros Hg.
  destruct (Hp g) as [[e' He]|?]; [|apply (Hh e')|done].
  - destruct Hg as [->|[->| ->]]; set_solver.
  - rewrite !elem_of_cons, elem_of_nil in He. naive_solver.
Qed.

(** The completion points of the targets of an IPC destroy. *)
Lemma capture_targets_spec (G : Prop) A U n d f ts : ∀ q w,
  Marks w → Held q w → live w f → (G → memcheck cb = true) → (G → Cov A U q w ∧ ∀ m, covers f m (queue w (chk d))) →
  (∀ t, t ∈ ts → ∃ c, points_checker (points q t) = Some c) →
  (G → ∀ t c, points_checker (points q t) = Some c → c = chk t) →
  let x := foldl (capture_target cb d f) (q, w) ts in
  Marks x.2 ∧ Held x.1 x.2 ∧ (∀ g, g ∈ finished w → g ∈ finished x.2) ∧
  (∀ e, points_checker (points x.1 e) = points_checker (points q e)) ∧
  (G → Cov A (λ m e : Z, U m e ∨ (m = n ∧ e ∈ ts)) x.1 x.2).
Proof.
  intros q w. revert U q w. induction ts as [|t ts IH]; intros U q w Hm Hh Hl HG Hc Hts Hchk; cbn [foldl].
  { split_and!; try done. intros Hb. destruct (Hc Hb) as [[H1 H2] _]. split; [done|]. intros m e [?|[_ ?%elem_of_nil]]; [auto|done]. }
  destruct (Hts t) as [c Ht]; [by left|].
  assert (∃ w' g, (if t =? d then (w, f) else CaptureMemcheckCompletion (memcheck cb) c w) = (w', g) ∧
    Marks w' ∧ Held q w' ∧ live w' f ∧ live w' g ∧ (∀ h, h ∈ finished w → h ∈ finished w') ∧
    (G → Cov A U q w' ∧ (∀ m, covers f m (queue w' (chk d))) ∧ ∀ m, covers g m (queue w' (chk t)))) as (w' & g & E & P1 & P2 & P3 & P4 & P5 & P6).
  { destruct (Z.eqb_spec t d) as [->|Hne].
    - exists w, f. split_and!; try done. intros Hb. destruct (Hc Hb). split_and!; done.
    - destruct (CaptureMemcheckCompletion (memcheck cb) c w) as [w' g] eqn:E. exists w', g. split; [done|].
      destruct (marks_capture _ _ _ _ _ Hm E) as (Q1 & Q2 & Q3 & Q4 & Q5 & Q6 & _). split_and!; try done.
      + eapply held_capture; [exact Hm|exact E|exact Hh].
      + destruct Hl as [?|[c' ?]]; [left; auto|right; eauto].
      + intros Hb. rewrite (HG Hb) in E. rewrite (Hchk Hb _ _ Ht) in E. destruct (Hc Hb) as [Hcov Hf].
        destruct (cov_capture A U _ _ _ _ _ Hm E Hcov) as (R1 & R2 & R3). split_and!; auto. }
  set (p := mkPoints (points_checker (points q t)) (points_connection (points q t)) (lastAccess (points q t)) (Some g) (Some g)).
  set (q' := upd_devices (<[t := p]> (devices_ q)) q).
  assert (capture_target cb d f (q, w) t = (q', w')) as ->
    by (unfold capture_target; rewrite Ht; change (default 0 (Some c)) with c; rewrite E; unfold q', p; by rewrite Ht).
  assert (∀ e, points_checker (points q' e) = points_checker (points q e)) as Hck.
  { intros e. unfold q'. rewrite points_insert. by destruct (decide (t = e)) as [<-|]. }
  destruct (IH (λ m e : Z, U m e ∨ (m = n ∧ e = t)) q' w') as (R1 & R2 & R3 & R4 & R5); try done.
  - apply held_set; [done|]. intros h Hh'. unfold p in Hh'. cbn in Hh'. rewrite !elem_of_cons, elem_of_nil in Hh'.
    destruct Hh' as [Hh'|[[= ->]|[[= ->]|[]]]]; [left; exists t; rewrite Hh'; by left|by right|by right].
  - intros Hb. destruct (P6 Hb) as (S1 & S2 & S3). split; [|done].
    pose proof (cov_set A U q w' t p g n false true S1 S3 eq_refl eq_refl) as Hs.
    destruct Hs as [Hs1 Hs2]. split; intros m e Hme; [apply Hs1; by left|apply Hs2; naive_solver].
  - intros t' Ht'. rewrite Hck. apply Hts. by right.
  - intros Hb t' c'. rewrite Hck. by apply Hchk.
  - split_and!; try done; [auto|intros e; by rewrite R4|]. intros Hb. destruct (R5 Hb) as [T1 T2]. split; [done|].
    intros m e Hme. apply T2. rewrite elem_of_cons in Hme. naive_solver.
Qed.

(** ** The invariant of the dispatching thread *)

(** The accesses and updates that were dispatched. *)
Definition accessed es (n d : Z) : Prop := ∃ job u ts, Dispatched job (PlanWork d true u ts) ∈ es ∧ orderId job = n.
Definition updated es (n d : Z) : Prop :=
  ∃ job d' a u ts, Dispatched job (PlanWork d' a u ts) ∈ es ∧ orderId job = n ∧ ((u = true ∧ d = d') ∨ d ∈ ts).

(** Devices keep their checker, and the memory check is on. *)
Definition stable es : Prop := memcheck cb = true ∧ ∀ d c, Connected d c ∈ es → c = chk d.

Definition waiting s : Prop :=
  let q := queue_ s in let w := world s in
  match worker_ s with
  | Executing job plan fs =>
      (∀ g, Some g ∈ fs → ∃ d, Some g ∈ [lastAccess (points q d); lastUpdate (points q d); lastWork (points q d)]) ∧
      match plan with
      | PlanLog => True
      | PlanWork d a u ts =>
          points_checker (points q d) = Some (checker job) ∧ (∀ t, t ∈ ts → ∃ c, points_checker (points q t) = Some c) ∧
          Classify (payload job) = (a, u) ∧
          (∀ f, needs job d a u ts q f → f ∈ fs ∨ f = None ∨ ∃ g, f = Some g ∧ g ∈ finished w)
      end
  | Closing fs => ∀ g, Some g ∈ fs → ∃ d, Some g ∈ [lastAccess (points q d); lastUpdate (points q d); lastWork (points q d)]
  | _ => True
  end.

Record Deps s es : Prop := {
  d_marks : Marks (world s);
  d_held : Held (queue_ s) (world s);
  d_checker : ∀ d c, points_checker (points (queue_ s) d) = Some c → Connected d c ∈ es;
  d_waiting : waiting s;
  d_cov : stable es → Cov (accessed es) (updated es) (queue_ s) (world s);
}.

Definition quiet es : Prop := ∀ job d a u ts, Dispatched job (PlanWork d a u ts) ∉ es.

Lemma stable_mono es es' : stable (es ++ es') → stable es.
Proof. intros [H1 H2]. split; [done|]. intros d c Hd. apply H2. set_solver. Qed.

Lemma cov_weaken A U A' U' q w : (∀ n d, A' n d → A n d) → (∀ n d, U' n d → U n d) → Cov A U q w → Cov A' U' q w.
Proof. intros HA HU [H1 H2]. split; auto. Qed.

Lemma cov_quiet es es' q w : quiet es' → Cov (accessed es) (updated es) q w → Cov (accessed (es ++ es')) (updated (es ++ es')) q w.
Proof.
  intros Hq. apply cov_weaken.
  - intros n d (job & u & ts & [Hj|Hj]%elem_of_app & Hn); [by exists job, u, ts|by destruct (Hq _ _ _ _ _ Hj)].
  - intros n d (job & d' & a & u & ts & [Hj|Hj]%elem_of_app & Hn); [by exists job, d', a, u, ts|by destruct (Hq _ _ _ _ _ Hj)].
Qed.

(** A step of another thread, which leaves the completion points alone. *)
Lemma deps_other s es q' es' :
  Deps s es → (∀ d, points q' d = points (queue_ s) d) → (∀ d, relation q' d = relation (queue_ s) d) → quiet es' →
  Deps (mkSystem q' (worker_ s) (world s)) (es ++ es').
Proof.
  intros [H1 H2 H3 H4 H5] Hp Hr Hq. split; cbn [queue_ worker_ world].
  - done.
  - apply (held_futures (queue_ s)); [|done]. intros d. by rewrite Hp.
  - intros d c. rewrite Hp. intros Hc. apply H3 in Hc. set_solver.
  - unfold waiting in *. cbn [queue_ worker_ world]. destruct (worker_ s) as [|job [|d a u ts] fs|fs|]; try done.
    + destruct H4 as [H4 _]. split; [|done]. intros g Hg. destruct (H4 g Hg) as [d Hd]. exists d. by rewrite Hp.
    + destruct H4 as (H4 & H6 & H7 & H8 & H9). split_and!; [|by rewrite Hp| |done|].
      * intros g Hg. destruct (H4 g Hg) as [e He]. exists e. by rewrite Hp.
      * intros t Ht. rewrite Hp. auto.
      * intros f Hf. apply H9. eapply needs_mono; [|exact Hf]. done.
    + intros g Hg. destruct (H4 g Hg) as [e He]. exists e. by rewrite Hp.
  - intros Hs. apply cov_quiet; [done|]. apply (cov_futures _ _ (queue_ s)); [intros d; by rewrite Hp|]. eauto using stable_mono.
Qed.

Lemma deps_consume s es c w : Deps s es → Consume c (world s) = Some w → Deps (mkSystem (queue_ s) (worker_ s) w) es.
Proof.
  intros [H1 H2 H3 H4 H5] E. destruct (marks_consume _ _ _ H1 E) as (M1 & _ & M3 & M4 & M5). split; cbn [queue_ worker_ world].
  - done.
  - intros d f Hf. destruct (H2 d f Hf) as [?|[c' Hc]]; [left; auto|]. destruct (M4 _ _ Hc); [right; eauto|by left].
  - done.
  - unfold waiting in *. cbn [queue_ worker_ world]. destruct (worker_ s) as [|job [|d a u ts] fs|fs|]; try done.
    destruct H4 as (H4 & H6 & H7 & H8 & H9). split_and!; try done. intros f Hf. destruct (H9 f Hf) as [?|[?|(g & ? & ?)]]; eauto 10.
  - intros Hs. destruct (H5 Hs) as [C1 C2]. split; intros n d Hn; [destruct (C1 n d Hn) as (f & ? & ?)|destruct (C2 n d Hn) as (f & ? & ?)]; eauto.
Qed.

Lemma deps_take q w es job q' res es' :
  Deps (mkSystem q Idle w) es → Execute_begin cb job (rest w) q = (q', res) → quiet es' →
  (∀ d, device_of cb job q = Some d → 0 <= d → Connected d (checker job) ∈ es') →
  Deps (mkSystem q' (match res with inl _ => Idle | inr (plan, fs) => Executing job plan fs end) w) (es ++ es').
Proof.
  intros [H1 H2 H3 H4 H5] E Hq Hcon. destruct (begin_spec _ _ _ _ _ E) as (B1 & B2 & B3 & B4). cbn [queue_ worker_ world] in *. split; cbn [queue_ worker_ world].
  - done.
  - by apply (held_futures q).
  - intros d c Hc. rewrite elem_of_app. destruct (B3 d c Hc) as [?|(Hd & H0 & ->)]; [left; auto|right; auto].
  - unfold waiting. cbn [queue_ worker_ world]. destruct res as [|[[|d a u ts] fs] ]; [done| |].
    + subst fs. split; [|done]. intros g Hg. by apply elem_of_nil in Hg.
    + destruct B4 as (D1 & D2 & D3 & D4 & D5 & D6). split_and!; try done.
      * intros g Hg. apply D6 in Hg. inversion Hg; subst; eexists; rewrite !elem_of_cons; eauto.
      * intros f Hf. left. by apply D6.
  - intros Hs. apply cov_quiet; [done|]. apply (cov_futures _ _ q); [done|]. eauto using stable_mono.
Qed.

Lemma points_relations d p q e : points (update_relations d p q) e = points q e.
Proof. destruct p; try done. by destruct r as [? ? []]. Qed.

Lemma deps_dispatch q w es job plan q' w' ok :
  Deps (mkSystem q (Executing job plan []) w) es → (∀ job', job' ∈ dispatched es → orderId job' ≠ orderId job) →
  Execute_end cb job plan q w = (q', w', ok) →
  Deps (mkSystem q' Idle w') (es ++ if ok then [Dispatched job plan] else [Aborted job; Failed EXCEPTION]).
Proof.
  intros [H1 H2 H3 H4 H5] Hfresh E. cbn [queue_ worker_ world] in *. unfold Execute_end in E.
  destruct (dispatch cb job _ _) as [[[ctx r] cs] ok'].
  assert (∀ es d, (∀ job', job' ∈ dispatched es → orderId job' ≠ orderId job) → ¬ accessed es (orderId job) d ∧ ¬ updated es (orderId job) d) as Hno.
  { clear. intros es d Hf. assert (∀ job' plan, Dispatched job' plan ∈ es → job' ∈ dispatched es) as Hd.
    { intros job' plan Hj. apply list_elem_of_omap. by exists (Dispatched job' plan). }
    split; [intros (j & u & ts & Hj & Hn)|intros (j & d' & a & u & ts & Hj & Hn & _)]; apply Hd, Hf in Hj; done. }
  set (w0 := mkWorld (fifo w) (nextFuture w) (finished w) r) in *.
  assert (Marks w0) as Hm0 by (destruct H1; by split). assert (Held q w0) as Hh0 by done.
  set (w1 := foldl (λ w c, push c (Job' (orderId job)) w) w0 cs) in *.
  assert (Marks w1 ∧ Held q w1 ∧ (stable es → Cov (accessed es) (updated es) q w1)) as (Hm1 & Hh1 & Hc1).
  { destruct (cov_jobs (λ _ _, False) (λ _ _, False) q (orderId job) cs w0) as (M1 & M2 & _ & M3);
      [by intros ? []|by intros ? []|done|done|split; intros ? ? []|].
    split_and!; [done..|]. intros Hs. apply (cov_jobs (accessed es) (updated es) q (orderId job) cs w0); try done; [intros d; by apply Hno|intros d; by apply Hno|].
    exact (H5 Hs). }
  destruct ok'; cbn [negb] in E.
  2: { injection E as <- <- <-. split; cbn [queue_ worker_ world]; try done.
       - intros d c Hc. apply H3 in Hc. set_solver.
       - intros Hs. apply cov_quiet; [intros job' d a u ts; set_solver|]. eauto using stable_mono. }
  destruct plan as [|d a u ts].
  { injection E as <- <- <-. split; cbn [queue_ worker_ world]; try done.
    - intros d c Hc. apply H3 in Hc. set_solver.
    - intros Hs. apply cov_quiet; [intros job' d a u ts; set_solver|]. apply Hc1. eauto using stable_mono. }
  destruct H4 as (_ & D1 & D2 & D3 & _). cbn [queue_ worker_ world] in *.
  destruct (CaptureMemcheckCompletion (memcheck cb) (checker job) w1) as [w2 f] eqn:Ecap.
  set (q1 := update_relations d (payload job) (upd_contexts (<[connection job := ctx]> (rtContexts_ q)) q)) in *.
  assert (∀ e, points q1 e = points q e) as Hp1 by (intros e; unfold q1; by rewrite points_relations).
  destruct (marks_capture _ _ _ _ _ Hm1 Ecap) as (M1 & _ & _ & M4 & M5 & M6 & _).
  set (q2 := upd_devices (<[d := set_points a u (Some f) (points q1 d)]> (devices_ q1)) q1) in *.
  set (S := stable (es ++ [Dispatched job (PlanWork d a u ts)])).
  assert (S → stable es ∧ checker job = chk d) as HS.
  { intros Hs. split; [eauto using stable_mono|]. apply Hs. apply H3 in D1. set_solver. }
  destruct (capture_targets_spec S (λ m e : Z, accessed es m e ∨ (a = true ∧ m = orderId job ∧ e = d))
    (λ m e : Z, updated es m e ∨ (u = true ∧ m = orderId job ∧ e = d)) (orderId job) d f ts q2 w2) as (T1 & T2 & _ & T4 & T5).
  - done.
  - apply held_set.
    + eapply held_capture; [exact Hm1|exact Ecap|]. apply (held_futures q); [intros e; by rewrite Hp1|done].
    + intros g Hg. unfold set_points in Hg. cbn in Hg. rewrite !elem_of_cons, elem_of_nil in Hg.
      destruct a, u; destruct Hg as [Hg|[Hg|[Hg|[]]]]; (right; injection Hg as ->; exact M4) || (left; exists d; rewrite Hg; set_solver).
  - done.
  - intros Hs. apply Hs.
  - intros Hs. destruct (HS Hs) as [Hse Hck]. rewrite Hck in Ecap. destruct Hs as [Hmc _]. rewrite Hmc in Ecap.
    destruct (cov_capture (accessed es) (updated es) (chk d) q w1 w2 f Hm1 Ecap (Hc1 Hse)) as (C1 & C2 & _).
    split; [|exact C2]. apply (cov_set _ _ _ _ _ _ f); [|done|unfold set_points; by destruct a|unfold set_points; by destruct u].
    apply (cov_futures _ _ q); [intros e; by rewrite Hp1|done].
  - intros t Ht. unfold q2. rewrite points_insert. destruct (decide (d = t)) as [<-|]; rewrite Hp1; [|auto]. cbn. rewrite D1. eauto.
  - intros Hs t c. unfold q2. rewrite points_insert. destruct (decide (d = t)) as [<-|]; rewrite Hp1; cbn [set_points points_checker];
      intros Hc; apply H3 in Hc; apply Hs; set_solver.
  - destruct (foldl (capture_target cb d f) (q2, w2) ts) as [q3 w3]. cbn [fst snd] in *. injection E as <- <- <-.
    split; cbn [queue_ worker_ world]; try done.
    + intros e c. rewrite T4. unfold q2. rewrite points_insert. destruct (decide (d = e)) as [<-|]; rewrite Hp1; cbn [set_points points_checker];
        intros Hc; apply H3 in Hc; set_solver.
    + intros Hs. eapply cov_weaken; [| |exact (T5 Hs)].
      * intros n e (j & u' & ts' & [Hj|Hj%list_elem_of_singleton]%elem_of_app & Hn); [left; by exists j, u', ts'|]. simplify_eq. by right.
      * intros n e (j & d' & a' & u' & ts' & [Hj|Hj%list_elem_of_singleton]%elem_of_app & Hn & Hde).
        -- left. left. by exists j, d', a', u', ts'.
        -- simplify_eq. destruct Hde as [[-> ->]|Ht]; [left; right; done|right; done].
Qed.

Definition is_ready w (f : Future) : bool := match f with Some f => bool_decide (f ∈ finished w) | None => true end.

Lemma deps_next s k es : Deps s es → waiting (mkSystem (queue_ s) k (world s)) → Deps (mkSystem (queue_ s) k (world s)) es.
Proof. intros [H1 H2 H3 H4 H5] Hw. by split. Qed.

(** The job in progress has a number of its own. *)
Lemma executing_fresh ls s es job plan fs :
  Order ls s es → worker_ s = Executing job plan fs → ∀ job', job' ∈ dispatched es → orderId job' ≠ orderId job.
Proof.
  intros Ho Hw job' Hj. pose proof (o_progress _ _ _ Ho) as Hp. rewrite Hw in Hp. destruct Hp as (l & Ht & Hs).
  pose proof (o_ids _ _ _ Ho) as Hids. rewrite Ht, fmap_app in Hids. assert (NoDup ((orderId <$> l) ++ (orderId <$> [job]))) as Hnd.
  { rewrite Hids. apply NoDup_seqZ. }
  apply NoDup_app in Hnd as (_ & Hnd & _). intros He. apply (Hnd (orderId job')).
  - apply list_elem_of_fmap_2. eapply elem_of_submseteq; [exact Hj|]. by apply sublist_submseteq.
  - rewrite He. by left.
Qed.

Lemma worker_deps ls s es s' es' : Order ls s es → Deps s es → worker_step cb s = Some (s', es') → Deps s' (es ++ es').
Proof.
  intros Ho Hd Hstep. pose proof (executing_fresh ls s es) as Hfresh. pose proof (d_waiting _ _ Hd) as Hw. destruct s as [q k w].
  cbn [worker_step] in Hstep. unfold waiting in Hw. cbn [queue_ worker_ world] in *.
  destruct k as [|job plan [|f fs]|[|f fs]|].
  - destruct (pendingJobMap_ q !! nextOrderId_ q) as [job|].
    + set (q1 := upd_pending _ _ q) in *.
      assert (Deps (mkSystem q1 Idle w) es) as Hd1.
      { pose proof (deps_other _ _ q1 [] Hd) as H. rewrite app_nil_r in H. apply H; try done. intros job' d a u ts Hin. by apply elem_of_nil in Hin. }
      set (es0 := Taken job :: _) in *.
      assert (quiet es0 ∧ ∀ d, device_of cb job q1 = Some d → 0 <= d → Connected d (checker job) ∈ es0) as [Hq0 Hc0].
      { unfold es0. split.
        - intros job' d a u ts [?|Hin]%elem_of_cons; [done|]. destruct (device_of cb job q1) as [e|]; [destruct (e <? 0)|]; set_solver.
        - intros d -> H0. rewrite (proj2 (Z.ltb_ge _ _)) by done. set_solver. }
      destruct (Execute_begin cb job (rest w) q1) as [q2 res] eqn:E. destruct res as [reason|[plan fs] ]; injection Hstep as <- <-.
      * match goal with |- Deps _ (es ++ ?x) => change x with (es0 ++ [Failed reason]) end.
        apply (deps_take q1 w es job q2 (inl reason)); try done.
        -- intros job' d a u ts [Hin|Hin]%elem_of_app; [by apply (Hq0 job' d a u ts)|set_solver].
        -- intros d He H0. rewrite elem_of_app. left. auto.
      * by apply (deps_take q1 w es job q2 (inr (plan, fs))).
    + destruct (closing_ q); [|done]. injection Hstep as <- <-. rewrite app_nil_r. apply (deps_next (mkSystem q Idle w)); [done|].
      cbn. intros g Hg. apply list_elem_of_fmap in Hg as ([d p] & Hg & Hin%elem_of_ordered). exists d.
      unfold points. rewrite Hin. cbn [default] in *. rewrite !elem_of_cons. cbn in *. naive_solver.
  - destruct (Execute_end cb job plan q w) as [[q' w'] ok] eqn:E. injection Hstep as <- <-.
    eapply deps_dispatch; [done| |done]. by apply (Hfresh job plan []).
  - fold (is_ready w f) in Hstep. destruct (is_ready w f) eqn:Hr; [|done]. injection Hstep as <- <-. rewrite app_nil_r.
    apply (deps_next (mkSystem q (Executing job plan (f :: fs)) w)); [done|]. unfold waiting. cbn [queue_ worker_ world]. destruct Hw as [Hw1 Hw2]. split; [intros g Hg; apply Hw1; by right|].
    destruct plan as [|d a u ts]; [done|]. destruct Hw2 as (W1 & W2 & W3 & W4). split_and!; try done.
    intros g Hg. destruct (W4 g Hg) as [[->|?]%elem_of_cons|[?|?]]; auto. destruct f as [f|]; [|auto]. cbn in Hr. apply bool_decide_eq_true in Hr. eauto.
  - injection Hstep as <- <-. pose proof (deps_other (mkSystem q Exited w) es q (if bool_decide (pendingJobMap_ q = ∅) then [] else [Failed MISSING_OR_UNCONSUMED])) as H.
    cbn [queue_ worker_ world] in H. apply H; try done.
    + by apply (deps_next (mkSystem q (Closing []) w)).
    + intros job d a u ts. destruct (bool_decide _); set_solver.
  - fold (is_ready w f) in Hstep. destruct (is_ready w f); [|done]. injection Hstep as <- <-. rewrite app_nil_r.
    apply (deps_next (mkSystem q (Closing (f :: fs)) w)); [done|]. cbn. intros g Hg. apply Hw. by right.
  - done.
Qed.

Lemma run_deps pid r ls s es :
  run cb ls (init pid r) = Some (s, es) → Z.of_nat (length (submitted ls)) < 18446744073709551614 → Deps s es.
Proof.
  revert ls s es. apply (run_ind pid r (λ ls s es, Z.of_nat (length (submitted ls)) < 18446744073709551614 → Deps s es)).
  - intros _. split; cbn.
    + split; unfold queue; cbn; try set_solver. intros c f l1 l2 H. by destruct l1.
    + intros d f. unfold points. cbn. naive_solver.
    + done.
    + done.
    + intros _. split; [intros n d (job & u & ts & Hin & _)|intros n d (job & d' & a & u & ts & Hin & _)]; by apply elem_of_nil in Hin.
  - intros ls s es l s' es' Hrun IH Hstep Hl. pose proof (submitted_length ls l) as Hle.
    assert (Deps s es) as Hd by (apply IH; lia). assert (Order ls s es) as Ho by (eapply run_order; [done|lia]).
    destruct l as [job| | |c]; cbn [step] in Hstep.
    + destruct (closing_ (queue_ s)); [injection Hstep as <- <-; by rewrite app_nil_r|]. unfold Submit in Hstep.
      destruct (_ || _ || _); injection Hstep as <- <-; apply deps_other; try done; intros job' d a u ts; set_solver.
    + injection Hstep as <- <-. apply deps_other; try done. intros job' d a u ts; set_solver.
    + by eapply worker_deps.
    + destruct (Consume c (world s)) as [w|] eqn:E; [|done]. cbn in Hstep. injection Hstep as <- <-. rewrite app_nil_r. by eapply deps_consume.
Qed.

(** ** The end *)

Definition Ended s es : Prop :=
  (match worker_ s with
   | Closing _ | Exited => closing_ (queue_ s) = true ∧ pendingJobMap_ (queue_ s) !! nextOrderId_ (queue_ s) = None
   | _ => True
   end) ∧
  (Failed MISSING_OR_UNCONSUMED ∈ es ↔ worker_ s = Exited ∧ pendingJobMap_ (queue_ s) ≠ ∅).

Lemma begin_reason job r q q' reason : Execute_begin cb job r q = (q', inl reason) → reason ≠ MISSING_OR_UNCONSUMED.
Proof.
  unfold Execute_begin. destruct (device_of cb job q) as [d|]; [|done]. destruct (d <? 0); [by intros [= _ <-]|].
  destruct (Classify (payload job)) as [a u]. cbv zeta.
  destruct (payload job); try (destruct (work_waits _ _ _ _ _); done). destruct (invalid_peer _ _); [by intros [= _ <-]|]. by destruct (peer_waits _ _ _).
Qed.

Lemma worker_ended s es s' es' : Ended s es → worker_step cb s = Some (s', es') → Ended s' (es ++ es').
Proof.
  intros [H1 H2] Hstep. destruct s as [q k w]. unfold Ended in *. cbn [worker_step queue_ worker_] in *. rewrite elem_of_app, H2.
  destruct k as [|job plan [|f fs]|[|f fs]|].
  - destruct (pendingJobMap_ q !! nextOrderId_ q) as [job|] eqn:Hj.
    + set (q1 := upd_pending _ _ q) in *. set (es0 := Taken job :: _) in *.
      assert (Failed MISSING_OR_UNCONSUMED ∉ es0) as Hn.
      { unfold es0. destruct (device_of cb job q1) as [d|]; [destruct (d <? 0)|]; set_solver. }
      destruct (Execute_begin cb job (rest w) q1) as [q2 [reason|[plan fs] ] ] eqn:E.
      * pose proof (begin_reason _ _ _ _ _ E) as Hne. injection Hstep as <- Hes.
        assert (es' = es0 ++ [Failed reason]) as -> by done. clearbody es0. cbn. split; [done|]. rewrite elem_of_app, list_elem_of_singleton. naive_solver.
      * injection Hstep as <- <-. cbn. naive_solver.
    + destruct (closing_ q) eqn:Hc; [|done]. injection Hstep as <- <-. cbn. split; [done|]. set_solver.
  - pose proof (shared_end job plan q w) as Hsh. destruct (Execute_end cb job plan q w) as [[q' w'] ok]. injection Hstep as <- <-. cbn.
    split; [done|]. destruct ok; set_solver.
  - destruct (match f with Some f => _ | None => _ end); [|done]. injection Hstep as <- <-. cbn. split; [done|]. set_solver.
  - injection Hstep as <- <-. cbn. split; [done|]. case_bool_decide as Hp; cbn.
    + split; [intros [[? _]|Hin]; [done|by apply elem_of_nil in Hin]|intros [_ ?]; done].
    + split; [done|]. intros _. right. by left.
  - destruct (match f with Some f => _ | None => _ end); [|done]. injection Hstep as <- <-. cbn. split; [done|]. set_solver.
  - done.
Qed.

Lemma run_ended pid r ls s es : run cb ls (init pid r) = Some (s, es) → Ended s es.
Proof.
  revert ls s es. apply run_ind.
  - split; [done|]. cbn. set_solver.
  - intros ls s es l s' es' _ He Hstep. destruct l as [job| | |c]; cbn [step] in Hstep.
    + destruct (closing_ (queue_ s)) eqn:Hc; [injection Hstep as <- <-; by rewrite app_nil_r|].
      destruct He as [H1 H2]. assert (worker_ s ≠ Exited) as Hne by (intros E; rewrite E in H1; destruct H1; congruence).
      assert (∀ q', match worker_ s with Closing _ | Exited => closing_ q' = true ∧ pendingJobMap_ q' !! nextOrderId_ q' = None | _ => True end) as Hm
        by (intros q'; destruct (worker_ s); try done; destruct H1; congruence).
      unfold Submit in Hstep. destruct (_ || _ || _); injection Hstep as <- <-; (split; [apply Hm|]);
        rewrite elem_of_app, H2; cbn [worker_ queue_]; set_solver.
    + injection Hstep as <- <-. rewrite app_nil_r. destruct He as [H1 H2]. split; [|done]. cbn. destruct (worker_ s); try done; by destruct H1.
    + by eapply worker_ended.
    + destruct (Consume c (world s)) as [w|]; [|done]. cbn in Hstep. injection Hstep as <- <-. by rewrite app_nil_r.
Qed.

(** ** The threads can always finish *)

Lemma run_app ls1 ls2 s s1 es1 s2 es2 :
  run cb ls1 s = Some (s1, es1) → run cb ls2 s1 = Some (s2, es2) → run cb (ls1 ++ ls2) s = Some (s2, es1 ++ es2).
Proof.
  revert s es1. induction ls1 as [|l ls1 IH]; intros s es1 H1 H2; [by injection H1 as -> <-|].
  cbn [run app] in *. destruct (step cb l s) as [[s' es']|]; cbn [mbind option_bind] in *; [|done].
  destruct (run cb ls1 s') as [[s3 es3]|] eqn:E; cbn [mbind option_bind] in *; [|done]. injection H1 as <- <-.
  rewrite (IH s' es3 E H2). cbn. by rewrite app_assoc.
Qed.

(** Only steps of the dispatching thread and of the memory checks. *)
Definition inner_label (l : Label) : Prop := match l with LWorker | LConsume _ => True | _ => False end.
Definition reaches s (P : System C R → Prop) : Prop :=
  ∃ ls s' es, Forall inner_label ls ∧ run cb ls s = Some (s', es) ∧ P s'.

Lemma reaches_now s (P : System C R → Prop) : P s → reaches s P.
Proof. intros HP. by exists [], s, []. Qed.

Lemma reaches_step l s s' es P : inner_label l → step cb l s = Some (s', es) → reaches s' P → reaches s P.
Proof.
  intros Hl Hs (ls & s2 & es2 & H1 & H2 & H3). exists (l :: ls), s2, (es ++ es2). split_and!; [by constructor| |done].
  cbn [run]. rewrite Hs. cbn [mbind option_bind]. by rewrite H2.
Qed.

Lemma reaches_trans s P Q : reaches s P → (∀ s', P s' → reaches s' Q) → reaches s Q.
Proof.
  intros (ls & s1 & es & H1 & H2 & H3) HQ. destruct (HQ s1 H3) as (ls2 & s2 & es2 & H4 & H5 & H6).
  exists (ls ++ ls2), s2, (es ++ es2). split_and!; [by apply Forall_app|by eapply run_app|done].
Qed.

(** The memory checks set a mark that is queued. *)
Lemma reaches_mark q k c f : ∀ n w, length (queue w c) = n → Mark f ∈ queue w c →
  reaches (mkSystem q k w) (λ s', queue_ s' = q ∧ worker_ s' = k ∧ f ∈ finished (world s') ∧
    (∀ g, live w g → live (world s') g)).
Proof.
  induction n as [|n IH]; intros w Hn Hf; [by destruct (queue w c); [apply elem_of_nil in Hf|]|].
  destruct (queue w c) as [|i l] eqn:Hq; [done|]. injection Hn as Hn.
  assert (∃ F, Consume c w = Some (mkWorld (<[c := l]> (fifo w)) (nextFuture w) F (rest w)) ∧ ∀ g, g ∈ F ↔ g ∈ finished w ∨ i = Mark g) as (F & E & HF).
  { unfold Consume. rewrite Hq. destruct i as [m|g]; eexists; (split; [done|]); set_solver. }
  set (w' := mkWorld _ _ F _) in *.
  assert (∀ c', queue w' c' = if decide (c = c') then l else queue w c') as Hq'.
  { intros c'. unfold queue at 1, w'. cbn [fifo]. destruct (decide (c = c')) as [->|]; [by rewrite lookup_insert_eq|by rewrite lookup_insert_ne]. }
  assert (∀ g, live w g → live w' g) as Hlive.
  { intros g [Hg|[c' Hg]]; [left; apply HF; by left|]. destruct (decide (c = c')) as [<-|Hne].
    - rewrite Hq in Hg. apply elem_of_cons in Hg as [<-|Hg]; [left; apply HF; by right|right]. exists c. rewrite Hq'. by rewrite decide_True.
    - right. exists c'. rewrite Hq'. by rewrite decide_False. }
  eapply (reaches_step (LConsume c)); [done| |].
  { cbn. rewrite E. cbn. done. }
  apply elem_of_cons in Hf as [<-|Hf].
  - apply reaches_now. cbn. split_and!; try done. apply HF. by right.
  - eapply reaches_trans; [apply (IH w')|].
    + rewrite Hq'. by rewrite decide_True.
    + rewrite Hq'. by rewrite decide_True.
    + intros s' (S1 & S2 & S3 & S4). apply reaches_now. split_and!; auto.
Qed.

Lemma reaches_ready q k w (f : Future) :
  (∀ g, f = Some g → live w g) →
  reaches (mkSystem q k w) (λ s', queue_ s' = q ∧ worker_ s' = k ∧ is_ready (world s') f = true ∧ ∀ g, live w g → live (world s') g).
Proof.
  intros Hl. destruct f as [f|]; [|by apply reaches_now]. destruct (Hl f eq_refl) as [Hf|[c Hc]].
  - apply reaches_now. cbn. by rewrite bool_decide_true.
  - eapply reaches_trans; [by eapply reaches_mark|]. intros s' (S1 & S2 & S3 & S4). apply reaches_now. split_and!; try done.
    cbn. by rewrite bool_decide_true.
Qed.

(** The waits of the dispatching thread end. *)
Lemma reaches_waits q job plan fs : ∀ w, (∀ g, Some g ∈ fs → live w g) →
  reaches (mkSystem q (Executing job plan fs) w) (λ s', queue_ s' = q ∧ worker_ s' = Executing job plan []).
Proof.
  induction fs as [|f fs IH]; intros w Hl; [by apply reaches_now|].
  eapply reaches_trans; [apply (reaches_ready q (Executing job plan (f :: fs)) w f)|].
  { intros g ->. apply Hl. by left. }
  intros [q' k' w'] (S1 & S2 & S3 & S4). cbn [queue_ worker_ world] in *. subst q' k'.
  eapply (reaches_step LWorker); [done| |apply (IH w')].
  - cbn [step worker_step]. fold (is_ready w' f). by rewrite S3.
  - intros g Hg. apply S4, Hl. by right.
Qed.

Lemma reaches_close q fs : ∀ w, (∀ g, Some g ∈ fs → live w g) →
  reaches (mkSystem q (Closing fs) w) (λ s', worker_ s' = Exited).
Proof.
  induction fs as [|f fs IH]; intros w Hl.
  { eapply (reaches_step LWorker); [done|done|]. by apply reaches_now. }
  eapply reaches_trans; [apply (reaches_ready q (Closing (f :: fs)) w f)|].
  { intros g ->. apply Hl. by left. }
  intros [q' k' w'] (S1 & S2 & S3 & S4). cbn [queue_ worker_ world] in *. subst q' k'.
  eapply (reaches_step LWorker); [done| |apply (IH w')].
  - cbn [step worker_step]. fold (is_ready w' f). by rewrite S3.
  - intros g Hg. apply S4, Hl. by right.
Qed.

Section reachable.
Context (pid : Z) (r : R).

Definition Reach s : Prop :=
  ∃ ls es, run cb ls (init pid r) = Some (s, es) ∧ Z.of_nat (length (submitted ls)) < 18446744073709551614.

Lemma submitted_inner ls ls' : Forall inner_label ls' → submitted (ls ++ ls') = submitted ls.
Proof.
  intros H. induction ls as [|l ls IH]; cbn [app].
  - induction ls' as [|l ls' IH]; [done|]. apply Forall_cons in H as [Hl H]. destruct l; try done; cbn; auto.
  - destruct l; cbn; by rewrite ?IH.
Qed.

Lemma reach_inner s P : Reach s → reaches s P → reaches s (λ s', P s' ∧ Reach s').
Proof.
  intros (ls & es & Hr & Hb) (ls' & s' & es' & Hi & Hr' & HP). exists ls', s', es'. split_and!; try done.
  exists (ls ++ ls'), (es ++ es'). split; [by eapply run_app|]. by rewrite submitted_inner.
Qed.

Lemma reach_deps s : Reach s → ∃ es, Deps s es.
Proof. intros (ls & es & Hr & Hb). exists es. by eapply run_deps. Qed.

Lemma reach_step l s s' es : inner_label l → step cb l s = Some (s', es) → Reach s → Reach s'.
Proof.
  intros Hl Hs Hr. destruct Hr as (ls & es0 & Hr & Hb). exists (ls ++ [l]), (es0 ++ es). split.
  - apply run_snoc. by exists s, es0, es.
  - rewrite submitted_inner; [done|]. by constructor.
Qed.

(** The job in progress is dispatched. *)
Lemma reaches_idle s job plan fs : Reach s → worker_ s = Executing job plan fs →
  reaches s (λ s', (worker_ s' = Idle ∧ shared (queue_ s') = shared (queue_ s)) ∧ Reach s').
Proof.
  intros Hr Hw. apply reach_inner; [done|]. destruct (reach_deps s Hr) as [es Hd]. destruct s as [q k w]. cbn in Hw. subst k.
  pose proof (d_waiting _ _ Hd) as [Hw _]. cbn in Hw. pose proof (d_held _ _ Hd) as Hh. cbn in Hh.
  eapply reaches_trans; [apply reaches_waits|].
  - intros g Hg. destruct (Hw g Hg) as [d Hin]. apply (Hh d). rewrite !elem_of_cons, elem_of_nil in Hin. naive_solver.
  - intros [q' k' w'] [S1 S2]. cbn in S1, S2. subst q' k'. pose proof (shared_end job plan q w') as Hsh.
    destruct (Execute_end cb job plan q w') as [[q2 w2] ok] eqn:E.
    eapply (reaches_step LWorker); [done|cbn [step worker_step]; by rewrite E|]. apply reaches_now. done.
Qed.

Lemma reaches_exit n : ∀ s, Reach s → worker_ s = Idle → closing_ (queue_ s) = true → size (pendingJobMap_ (queue_ s)) = n →
  reaches s (λ s', worker_ s' = Exited).
Proof.
  induction n as [n IH] using lt_wf_ind. intros s Hr Hw Hc Hn. destruct s as [q k w]. cbn in Hw, Hc, Hn. subst k.
  destruct (pendingJobMap_ q !! nextOrderId_ q) as [job|] eqn:Hj.
  - set (q1 := upd_pending (delete (nextOrderId_ q) (pendingJobMap_ q)) (nextOrderId_ q +u 1) q).
    pose proof (shared_begin job (rest w) q1) as Hsh. destruct (Execute_begin cb job (rest w) q1) as [q2 res] eqn:E. cbn [fst] in Hsh.
    unfold shared in Hsh. injection Hsh as E1 E2 E3. cbn in E1, E2, E3.
    assert (∃ es, step cb LWorker (mkSystem q Idle w) = Some (mkSystem q2 (match res with inl _ => Idle | inr (plan, fs) => Executing job plan fs end) w, es)) as [es Hs].
    { cbn [step worker_step]. rewrite Hj. fold q1. rewrite E. destruct res as [|[plan fs] ]; eauto. }
    eapply reaches_step; [|exact Hs|]; [done|]. pose proof (reach_step LWorker _ _ _ I Hs Hr) as Hr2.
    assert (size (pendingJobMap_ q2) < n)%nat as Hlt.
    { rewrite E1. rewrite map_size_delete_Some by eauto. pose proof (map_size_ne_0_lookup_2 (pendingJobMap_ q) (nextOrderId_ q) (mk_is_Some _ _ Hj)). lia. }
    destruct res as [reason|[plan fs] ].
    + eapply (IH _ Hlt); try done. cbn. by rewrite E3.
    + eapply reaches_trans; [by eapply reaches_idle|]. intros s' [[S1 S2] S3]. cbn [queue_] in S2. unfold shared in S2. injection S2 as F1 F2 F3.
      eapply (IH _ Hlt); try done; [by rewrite F3, E3|by rewrite F1].
  - destruct (reach_deps _ Hr) as [es Hd]. pose proof (d_held _ _ Hd) as Hh. cbn in Hh.
    eapply (reaches_step LWorker); [done|cbn [step worker_step]; by rewrite Hj, Hc|]. apply reaches_close.
    intros g Hg. apply list_elem_of_fmap in Hg as ([d p] & Hg & Hin%elem_of_ordered). apply (Hh d). unfold points. rewrite Hin. cbn in *. auto.
Qed.

Lemma reaches_end s : Reach s → closing_ (queue_ s) = true → reaches s (λ s', worker_ s' = Exited).
Proof.
  intros Hr Hc. destruct (worker_ s) as [|job plan fs|fs|] eqn:Hw.
  - by eapply reaches_exit.
  - eapply reaches_trans; [by eapply reaches_idle|]. intros s' [[S1 S2] S3]. unfold shared in S2. injection S2 as F1 F2 F3.
    eapply reaches_exit; [done|done|by rewrite F3|done].
  - destruct (reach_deps s Hr) as [es Hd]. destruct s as [q k w]. cbn in Hw. subst k. pose proof (d_waiting _ _ Hd) as Hwt. cbn in Hwt.
    pose proof (d_held _ _ Hd) as Hh. cbn in Hh. apply reaches_close. intros g Hg. destruct (Hwt g Hg) as [d Hin]. apply (Hh d).
    rewrite !elem_of_cons, elem_of_nil in Hin. naive_solver.
  - by apply reaches_now.
Qed.
End reachable.
End theorems.

(** C24: however the packets arrive and the threads interleave, the dispatching
    thread takes the packets numbered 1, 2, 3, ... in this order, each once and
    as it was submitted, and dispatches them in this order; with distinct
    numbers, when it has ended, it stopped at the first missing number, and the
    failure "missing or unconsumed" is reported exactly when a submitted packet
    was not taken. After [Finish] it cannot get stuck: from every state it can
    reach, steps of the dispatching thread and of the memory checks lead to the
    end of the dispatching thread. *)
Theorem packets_in_order {C R} (cb : Callbacks C R) pid r ls s es :
  run cb ls (init pid r) = Some (s, es) → Z.of_nat (length (submitted ls)) < 18446744073709551614 →
  orderId <$> taken es = seqZ 1 (Z.of_nat (length (taken es))) ∧
  (∀ job, job ∈ taken es → job ∈ submitted ls) ∧ dispatched es `sublist_of` taken es ∧
  (NoDup (orderId <$> submitted ls) → Forall (λ job, 1 <= orderId job) (submitted ls) → worker_ s = Exited →
   (∀ job, job ∈ submitted ls → orderId job ≠ 1 + Z.of_nat (length (taken es))) ∧
   (Failed MISSING_OR_UNCONSUMED ∈ es ↔ ∃ job, job ∈ submitted ls ∧ job ∉ taken es)) ∧
  (closing_ (queue_ s) = true → reaches cb s (λ s', worker_ s' = Exited)).
Proof.
  intros Hr Hb. pose proof (run_order cb pid r ls s es Hr Hb) as Ho. destruct (run_ended cb (λ _, 0) pid r ls s es Hr) as [He1 He2].
  split_and!; [apply Ho|apply Ho| | |].
  - pose proof (o_progress _ _ _ Ho) as Hp. destruct (worker_ s); try done. destruct Hp as (l & -> & Hs). by apply sublist_inserts_r.
  - intros Hnd Hpos Hx. rewrite Hx in He1. destruct He1 as [Hc Hnone].
    assert (∀ job, job ∈ submitted ls → orderId job ≠ nextOrderId_ (queue_ s)) as Hmiss.
    { intros job Hj Hid. destruct (o_rest _ _ _ Ho Hnd Hpos job Hj) as [Ht|Hp]; [|congruence].
      apply (list_elem_of_fmap_2 orderId) in Ht. rewrite (o_ids _ _ _ Ho) in Ht. apply elem_of_seqZ in Ht. rewrite (o_next _ _ _ Ho) in Hid. lia. }
    split; [intros job Hj; rewrite <- (o_next _ _ _ Ho); auto|]. rewrite He2. split.
    + intros [_ Hp]. apply map_choose in Hp as (id & job & Hj). destruct (o_pending _ _ _ Ho id job Hj) as (Hid & Hle & Hin). exists job. split; [done|].
      intros Ht. apply (list_elem_of_fmap_2 orderId) in Ht. rewrite (o_ids _ _ _ Ho) in Ht. apply elem_of_seqZ in Ht. rewrite (o_next _ _ _ Ho) in Hle. lia.
    + intros (job & Hj & Hn). split; [done|]. destruct (o_rest _ _ _ Ho Hnd Hpos job Hj) as [?|Hp]; [done|]. intros Hem. by rewrite Hem in Hp.
  - intros Hc. apply (reaches_end cb (λ _, 0) pid r); [|done]. by exists ls, es.
Qed.

(** When a packet is dispatched, the earlier checks it depends on have ended:
    an access finds the updates of every device it may access checked, an update
    (or an IPC destroy, for the devices it frees on) the accesses of every device
    that may access it, a change of the relation the accesses of its source, and
    a reset also the accesses to the device. *)
Theorem dependencies_respected {C R} (cb : Callbacks C R) (chk : Z → Z) pid r ls s es job d a u ts :
  run cb ls (init pid r) = Some (s, es) → Z.of_nat (length (submitted ls)) < 18446744073709551614 →
  stable cb chk es → worker_ s = Executing job (PlanWork d a u ts) [] →
  (∀ n t, a = true → t ∈ relation (queue_ s) d → updated es n t → Job' n ∉ queue (world s) (chk t)) ∧
  (∀ n b t, (u = true ∧ t = d) ∨ t ∈ ts → t ∈ relation (queue_ s) b → accessed es n b → Job' n ∉ queue (world s) (chk b)) ∧
  (∀ n p, payload job = PEER_ACCESS_RECORD p → changes_relation d p (queue_ s) = true → accessed es n d →
     Job' n ∉ queue (world s) (chk d)) ∧
  (∀ n p b, payload job = PEER_ACCESS_RECORD p → operation p = RESET → d ∈ relation (queue_ s) b → accessed es n b →
     Job' n ∉ queue (world s) (chk b)).
Proof.
  intros Hr Hb Hs Hw. pose proof (run_deps cb chk pid r ls s es Hr Hb) as Hd. destruct (d_cov _ _ _ _ Hd Hs) as [C1 C2].
  pose proof (d_waiting _ _ _ _ Hd) as Hwt. unfold waiting in Hwt. rewrite Hw in Hwt. destruct Hwt as (_ & _ & _ & _ & Hn).
  assert (∀ f g n c, needs job d a u ts (queue_ s) f → f = Some g → covers g n (queue (world s) c) → Job' n ∉ queue (world s) c) as H.
  { intros f g n c Hf -> Hc. destruct (Hn _ Hf) as [Hin|[?|(h & [= <-] & Hfin)]]; [by apply elem_of_nil in Hin|done|].
    apply (covers_done g); [done|]. intros Hm. by apply (m_fresh _ (d_marks _ _ _ _ Hd)) in Hm as [_ Hm]. }
  split_and!.
  - intros n t Ha Ht Hu. destruct (C2 n t Hu) as (f & Hf & Hc). eapply H; [by eapply needs_update|done|done].
  - intros n b t Hut Ht Hac. destruct (C1 n b Hac) as (f & Hf & Hc). eapply H; [|done|done].
    destruct Hut as [[Hu ->]|Hin]; [by eapply needs_access|by eapply needs_target].
  - intros n p Hp Hch Hac. destruct (C1 n d Hac) as (f & Hf & Hc). eapply H; [by eapply needs_relation|done|done].
  - intros n p b Hp Hre Hdb Hac. destruct (C1 n b Hac) as (f & Hf & Hc). eapply H; [by eapply needs_reset|done|done].
Qed.

(** *** An example: device 0 may access device 1; packet 5, a kernel of device 0,
    arrives before packet 4, an allocation of device 1, and waits for it. *)

Definition demo_cb : Callbacks () () :=
  mkCallbacks
    (λ job ctx r, (mkContext (match payload job with DEVICE_SUMMARY d => d | _ => ctx_deviceId ctx end) (pid_ ctx) (rootTid_ ctx) (),
                   r, [checker job], true)) None true ().

Definition demo_job (n connection : Z) (p : Payload) : Job := mkJob 7 connection (connection * 10) n p.
Definition demo_jobs : list Job :=
  [demo_job 2 20 (DEVICE_SUMMARY 1); demo_job 1 10 (DEVICE_SUMMARY 0); demo_job 3 10 (PEER_ACCESS_RECORD (mkPeer 0 1 ENABLE));
   demo_job 5 10 KERNEL_RECORD; demo_job 4 20 (MEMORY_RECORD MALLOC RT)].
(** The packets arrive; the dispatching thread handles four of them and takes the
    fifth; the check of device 1 consumes its queue, and the wait is over. *)
Definition demo_labels : list Label :=
  (LSubmit <$> demo_jobs) ++ replicate 11 LWorker ++ replicate 4 (LConsume 200) ++ [LWorker].

Definition demo_run (ls : list Label) : System () () * list Event := default (init 7 (), []) (run demo_cb ls (init 7 ())).
Definition demo_chk (d : Z) : Z := if d =? 0 then 100 else 200.

Lemma demo_run_ok : run demo_cb demo_labels (init 7 ()) = Some (demo_run demo_labels).
Proof. vm_compute. reflexivity. Qed.

(** Before the check of device 1 has consumed its queue, the thread is blocked. *)
Example demo_blocked :
  worker_step demo_cb (demo_run ((LSubmit <$> demo_jobs) ++ replicate 11 LWorker)).1 = None.
Proof. vm_compute. reflexivity. Qed.

(** The same with [Finish] after the eleventh step of the dispatching thread. *)
Definition demo_closing : list Label := (LSubmit <$> demo_jobs) ++ replicate 11 LWorker ++ [LFinish].

Lemma packets_in_order_witness :
  orderId <$> taken (demo_run demo_labels).2 = [1; 2; 3; 4; 5] ∧
  (∀ job, job ∈ taken (demo_run demo_labels).2 → job ∈ submitted demo_labels) ∧
  dispatched (demo_run demo_labels).2 `sublist_of` taken (demo_run demo_labels).2 ∧
  reaches demo_cb (demo_run demo_closing).1 (λ s', worker_ s' = Exited).
Proof.
  split; [vm_compute; reflexivity|].
  destruct (packets_in_order demo_cb 7 () demo_labels (demo_run demo_labels).1 (demo_run demo_labels).2) as (_ & H1 & H2 & _).
  - rewrite demo_run_ok. by rewrite <- surjective_pairing.
  - vm_compute. reflexivity.
  - split; [done|]. split; [done|].
    apply (packets_in_order demo_cb 7 () demo_closing _ (demo_run demo_closing).2); vm_compute; reflexivity.
Defined.

Lemma demo_stable : stable demo_cb demo_chk (demo_run demo_labels).2.
Proof.
  split; [done|]. assert (Forall (λ e, match e with Connected d c => c = demo_chk d | _ => True end) (demo_run demo_labels).2) as H.
  { vm_compute. repeat constructor. }
  intros d c Hc. rewrite Forall_forall in H. exact (H _ Hc).
Qed.

Lemma dependencies_respected_witness :
  updated (demo_run demo_labels).2 4 1 ∧ Job' 4 ∉ queue (world (demo_run demo_labels).1) (demo_chk 1).
Proof.
  assert (updated (demo_run demo_labels).2 4 1) as Hu.
  { exists (demo_job 4 20 (MEMORY_RECORD MALLOC RT)), 1, false, true, []. split; [|by split; [|left]].
    apply list_elem_of_In. vm_compute. tauto. }
  split; [done|].
  refine (proj1 (dependencies_respected demo_cb demo_chk 7 () demo_labels (demo_run demo_labels).1 (demo_run demo_labels).2
    (demo_job 5 10 KERNEL_RECORD) 0 true false [] _ _ demo_stable _) 4 1 eq_refl _ Hu).
  - rewrite demo_run_ok. by rewrite <- surjective_pairing.
  - vm_compute. reflexivity.
  - vm_compute. reflexivity.
  - vm_compute. reflexivity.
Defined.
