(* ===== verification/ParsePipeline.v ===== *)
(** The parse pipeline: [csrc/core/framework/parse_pipeline.cpp].

    Worker threads parse tasks in parallel, one committer thread hands the
    results over in the order the tasks were submitted. A task that was submitted
    is numbered; its number identifies the job and its future. The threads are
    the labels of a transition function. *)
From stdpp Require Import base numbers option list gmap.
From S2P Require Import Prelude.

Module Pipeline.
Section pipeline.
(** [parse_] and [commit_] with the exceptions they may throw. *)
Context {Task Out Error : Type} (parse : Task → Error + Out) (commit : Out → option Error).

Inductive Worker := WorkerIdle | WorkerBusy (n : nat) (task : Task) | WorkerExited.
Inductive Committer := CommitterIdle | CommitterWaits (n : nat) | CommitterExited.

(** [futures] holds the results of the jobs that have run. *)
Record OrderedParsePipeline := mkPipeline {
  inflightCap_ : nat; jobs_ : list (nat * Task); ordered_ : list nat; submitted_ : nat; committed_ : nat; stop_ : bool;
  firstError_ : option Error; futures : gmap nat (Error + Out); workers_ : list Worker; committer_ : Committer;
}.

Definition new_Pipeline (workers inflightCap : nat) : OrderedParsePipeline :=
  mkPipeline (if Nat.eqb inflightCap 0 then 1%nat else inflightCap) [] [] 0 0 false None ∅ (replicate workers WorkerIdle) CommitterIdle.

(** [None] while the caller is blocked. *)
Definition Submit (task : Task) (p : OrderedParsePipeline) : option OrderedParsePipeline :=
  if stop_ p then Some p
  else if (length (ordered_ p) <? inflightCap_ p)%nat then
    Some (mkPipeline (inflightCap_ p) (jobs_ p ++ [(submitted_ p, task)]) (ordered_ p ++ [submitted_ p]) (S (submitted_ p)) (committed_ p)
            (stop_ p) (firstError_ p) (futures p) (workers_ p) (committer_ p))
  else None.

(** [Drain] returns with the first error when every task is committed. *)
Definition Drain (p : OrderedParsePipeline) : option (option Error) :=
  if (committed_ p =? submitted_ p)%nat then Some (firstError_ p) else None.

Definition Stop (p : OrderedParsePipeline) : OrderedParsePipeline :=
  mkPipeline (inflightCap_ p) (jobs_ p) (ordered_ p) (submitted_ p) (committed_ p) true (firstError_ p) (futures p) (workers_ p) (committer_ p).

(** A step of worker [i] in [WorkerLoop]. *)
Definition WorkerLoop (i : nat) (p : OrderedParsePipeline) : option OrderedParsePipeline :=
  k ← workers_ p !! i;
  match k with
  | WorkerIdle =>
      match jobs_ p with
      | [] => if stop_ p then Some (mkPipeline (inflightCap_ p) [] (ordered_ p) (submitted_ p) (committed_ p) (stop_ p)
                                      (firstError_ p) (futures p) (<[i := WorkerExited]> (workers_ p)) (committer_ p))
              else None
      | (n, task) :: jobs => Some (mkPipeline (inflightCap_ p) jobs (ordered_ p) (submitted_ p) (committed_ p) (stop_ p)
                                      (firstError_ p) (futures p) (<[i := WorkerBusy n task]> (workers_ p)) (committer_ p))
      end
  | WorkerBusy n task => Some (mkPipeline (inflightCap_ p) (jobs_ p) (ordered_ p) (submitted_ p) (committed_ p) (stop_ p)
                                 (firstError_ p) (<[n := parse task]> (futures p)) (<[i := WorkerIdle]> (workers_ p)) (committer_ p))
  | WorkerExited => None
  end.

(** What the committer does with a result: the output is handed over, or an
    exception of [parse_] or of [commit_] is kept. *)
Inductive Event := Committed (out : Out) | Threw (e : Error).
Definition outcome (r : Error + Out) : list Event :=
  match r with
  | inl e => [Threw e]
  | inr out => Committed out :: match commit out with Some e => [Threw e] | None => [] end
  end.
Definition error_of (es : list Event) : option Error :=
  match omap (λ x, match x with Threw e => Some e | _ => None end) es with [] => None | e :: _ => Some e end.

Definition CommitLoop (p : OrderedParsePipeline) : option (OrderedParsePipeline * list Event) :=
  match committer_ p with
  | CommitterIdle =>
      match ordered_ p with
      | [] => if stop_ p then Some (mkPipeline (inflightCap_ p) (jobs_ p) [] (submitted_ p) (committed_ p) (stop_ p)
                                      (firstError_ p) (futures p) (workers_ p) CommitterExited, [])
              else None
      | n :: ordered => Some (mkPipeline (inflightCap_ p) (jobs_ p) ordered (submitted_ p) (committed_ p) (stop_ p)
                                (firstError_ p) (futures p) (workers_ p) (CommitterWaits n), [])
      end
  | CommitterWaits n =>
      r ← futures p !! n;
      let es := outcome r in
      let error := match firstError_ p with Some e => Some e | None => error_of es end in
      Some (mkPipeline (inflightCap_ p) (jobs_ p) (ordered_ p) (submitted_ p) (S (committed_ p)) (stop_ p)
              error (futures p) (workers_ p) CommitterIdle, es)
  | CommitterExited => None
  end.

Inductive Label := LSubmit (task : Task) | LStop | LWorker (i : nat) | LCommit.

Definition step (l : Label) (p : OrderedParsePipeline) : option (OrderedParsePipeline * list Event) :=
  match l with
  | LSubmit task => p ← Submit task p; Some (p, [])
  | LStop => Some (Stop p, [])
  | LWorker i => p ← WorkerLoop i p; Some (p, [])
  | LCommit => CommitLoop p
  end.

Fixpoint run (ls : list Label) (p : OrderedParsePipeline) : option (OrderedParsePipeline * list Event) :=
  match ls with
  | [] => Some (p, [])
  | l :: ls => r ← step l p; let '(p, es) := r in r ← run ls p; let '(p, es') := r in Some (p, es ++ es')
  end.
End pipeline.
Arguments OrderedParsePipeline : clear implicits.
Arguments Worker : clear implicits.
Arguments Label : clear implicits.
Arguments Event : clear implicits.
End Pipeline.

(** ** Order *)

Module PipelineOrder.
Import Pipeline.
Section order.
Context {Task Out Error : Type} (parse : Task → Error + Out) (commit : Out → option Error).
#[local] Abbreviation pipeline := (OrderedParsePipeline Task Out Error).

(** The tasks submitted before the pipeline is stopped. *)
Fixpoint accepted (stopped : bool) (ls : list (Label Task)) : list Task :=
  match ls with
  | [] => []
  | LSubmit task :: ls => (if stopped then [] else [task]) ++ accepted stopped ls
  | LStop :: ls => accepted true ls
  | _ :: ls => accepted stopped ls
  end.

(** What committing tasks one after the other does. *)
Definition outcomes (ts : list Task) : list (Event Out Error) := mjoin ((λ t, outcome commit (parse t)) <$> ts).

Record inv (ts : list Task) (es : list (Event Out Error)) (p : pipeline) : Prop := {
  i_submitted : submitted_ p = length ts;
  i_committed : (committed_ p <= length ts)%nat;
  i_ordered : match committer_ p with
              | CommitterWaits n => n = committed_ p ∧ (n < length ts)%nat ∧ ordered_ p = seq (S n) (length ts - S n)
              | _ => ordered_ p = seq (committed_ p) (length ts - committed_ p)
              end;
  i_jobs : ∀ n t, (n, t) ∈ jobs_ p → ts !! n = Some t;
  i_busy : ∀ i n t, workers_ p !! i = Some (WorkerBusy n t) → ts !! n = Some t;
  i_futures : ∀ n r, futures p !! n = Some r → ∃ t, ts !! n = Some t ∧ r = parse t;
  i_events : es = outcomes (take (committed_ p) ts);
  i_error : firstError_ p = error_of es;
}.

Lemma inv_init n cap : inv [] [] (new_Pipeline n cap).
Proof.
  split; cbn; try done; [..|].
  - by intros ? ? ?%elem_of_nil.
  - intros i m t [Hi _]%lookup_replicate. done.
Qed.

Lemma error_app (es es' : list (Event Out Error)) :
  error_of (es ++ es') = match error_of es with Some e => Some e | None => error_of es' end.
Proof. unfold error_of. rewrite omap_app. by destruct (omap _ es). Qed.

Lemma inv_submit ts es p p' task :
  inv ts es p → stop_ p = false → Submit task p = Some p' → inv (ts ++ [task]) es p' ∧ stop_ p' = stop_ p.
Proof.
  intros [H1 H2 H3 H4 H5 H6 H7 H8] Hs. unfold Submit. rewrite Hs. destruct (_ <? _)%nat; [|done].
  intros [= <-]. split; [|done].
  split; cbn; rewrite ?length_app; cbn.
  - lia.
  - lia.
  - destruct (committer_ p).
    + rewrite H3, H1. replace (length ts + 1 - committed_ p)%nat with (S (length ts - committed_ p)) by lia.
      rewrite seq_S. f_equal. f_equal. lia.
    + destruct H3 as (-> & Hlt & ->). split; [done|]. split; [lia|]. rewrite H1.
      replace (length ts + 1 - S (committed_ p))%nat with (S (length ts - S (committed_ p))) by lia. rewrite seq_S. f_equal. f_equal. lia.
    + rewrite H3, H1. replace (length ts + 1 - committed_ p)%nat with (S (length ts - committed_ p)) by lia.
      rewrite seq_S. f_equal. f_equal. lia.
  - intros n t [Hin|[= -> ->]%list_elem_of_singleton]%elem_of_app; [by apply lookup_app_l_Some; auto|].
    rewrite H1. by apply list_lookup_middle.
  - intros i n t Hb. apply lookup_app_l_Some. eauto.
  - intros n r Hf. destruct (H6 n r Hf) as (t & Ht & ->). exists t. split; [by apply lookup_app_l_Some|done].
  - by rewrite take_app_le by lia.
  - done.
Qed.

Lemma inv_worker ts es p p' i : inv ts es p → WorkerLoop parse i p = Some p' → inv ts es p' ∧ stop_ p' = stop_ p.
Proof.
  intros [H1 H2 H3 H4 H5 H6 H7 H8]. unfold WorkerLoop. destruct (workers_ p !! i) as [k|] eqn:Hk; [|done]. cbn.
  assert (∀ w, (∀ n t, w = WorkerBusy n t → ts !! n = Some t) →
    ∀ j n t, <[i:=w]> (workers_ p) !! j = Some (WorkerBusy n t) → ts !! n = Some t) as Hw.
  { intros w Hb j n t [(-> & -> & _)|[_ Hj] ]%list_lookup_insert_Some; eauto. }
  destruct k as [|n task|]; [|intros [= <-]|done].
  - destruct (jobs_ p) as [|[n task] jobs] eqn:Hj.
    + destruct (stop_ p) eqn:Hst; [|intros E; discriminate E]. intros [= <-]. split; [|done]. split; cbn; try done. by apply Hw.
    + intros [= <-]. split; [|done]. split; cbn; try done.
      * intros m t Hin. apply H4. by right.
      * apply Hw. intros m t [= <- <-]. apply H4. by left.
  - split; [|done]. split; cbn; try done; [by apply Hw|].
    intros m r [(<- & <-)|[_ Hf] ]%lookup_insert_Some; [|eauto]. exists task. split; [by eapply H5|done].
Qed.

Lemma inv_commit ts es p p' es' :
  inv ts es p → CommitLoop commit p = Some (p', es') → inv ts (es ++ es') p' ∧ stop_ p' = stop_ p.
Proof.
  intros [H1 H2 H3 H4 H5 H6 H7 H8]. unfold CommitLoop. destruct (committer_ p) as [|n|] eqn:Hc; [|intros E|done].
  - destruct (ordered_ p) as [|n ordered] eqn:Ho.
    + destruct (stop_ p) eqn:Hst; [|intros E; discriminate E]. intros [= <- <-]. rewrite app_nil_r. split; [|done]. by split.
    + intros [= <- <-]. rewrite app_nil_r. split; [|done].
      destruct (length ts - committed_ p)%nat as [|k] eqn:Hk; [done|]. cbn in H3. injection H3 as -> ->.
      split; cbn; try done. split; [done|]. split; [lia|]. f_equal. lia.
  - destruct H3 as (-> & Hlt & Ho). apply bind_Some in E as (r & Hr & [= <- <-]). split; [|done].
    destruct (H6 _ _ Hr) as (t & Ht & ->). split; cbn; try done.
    + rewrite (take_S_r _ _ _ Ht). unfold outcomes in *. rewrite fmap_app, join_app. cbn. by rewrite app_nil_r, <- H7.
    + by rewrite error_app, H8.
Qed.

Lemma inv_run ls ts es p p' es' :
  inv ts es p → run parse commit ls p = Some (p', es') → inv (ts ++ accepted (stop_ p) ls) (es ++ es') p'.
Proof.
  revert ts es p es'. induction ls as [|l ls IH]; intros ts es p es' Hi; cbn [run].
  { intros [= <- <-]. cbn. by rewrite !app_nil_r. }
  intros ([p1 es1] & Hs & E)%bind_Some. apply bind_Some in E as ([p2 es2] & Hr & [= <- <-]).
  rewrite app_assoc. destruct l as [task| |i|]; cbn [step accepted] in *.
  - apply bind_Some in Hs as (q & Hq & [= <- <-]). rewrite app_nil_r. destruct (stop_ p) eqn:Hst.
    + unfold Submit in Hq. rewrite Hst in Hq. injection Hq as <-. rewrite <- Hst. by apply IH.
    + destruct (inv_submit ts es p q task Hi Hst Hq) as [Hi' Hst']. rewrite app_assoc, <- Hst, <- Hst'. by apply IH.
  - injection Hs as <- <-. rewrite app_nil_r. apply (IH _ _ (Stop p)); [|done]. by destruct Hi.
  - apply bind_Some in Hs as (q & Hq & [= <- <-]). rewrite app_nil_r.
    destruct (inv_worker ts es p q i Hi Hq) as [Hi' <-]. by apply IH.
  - destruct (inv_commit ts es p p1 es1 Hi Hs) as [Hi' <-]. by apply IH.
Qed.

(** Whatever the workers do, results are committed in the order the tasks were
    submitted, each once, and an exception stops nothing: the events are the
    outcomes of the tasks committed so far. The error kept is the first one, and
    [Drain] returns, with it, exactly when all the tasks accepted are committed. *)
Theorem commits_in_order n cap ls p es :
  run parse commit ls (new_Pipeline n cap) = Some (p, es) →
  let ts := accepted false ls in
  es = outcomes (take (committed_ p) ts) ∧ firstError_ p = error_of es ∧
  ∀ e, Drain p = Some e ↔ committed_ p = length ts ∧ e = error_of (outcomes ts).
Proof.
  intros Hr ts. destruct (inv_run ls [] [] _ p es (inv_init n cap) Hr) as [H1 H2 _ _ _ _ H7 H8]. cbn in *. fold ts in H1, H2, H7.
  split; [done|]. split; [done|]. intros e. unfold Drain. rewrite H1. destruct (Nat.eqb_spec (committed_ p) (length ts)) as [E|E].
  - rewrite H8, H7, E, firstn_all. naive_solver.
  - naive_solver.
Qed.
End order.
End PipelineOrder.

(** Three tasks, the second of which throws; the results come out of order. *)
Example pipeline_demo :
  (λ x, (Pipeline.Drain x.1, x.2)) <$>
  Pipeline.run (λ t : Z, if t =? 2 then inl t else inr (t * 10)) (λ _, None)
    [Pipeline.LSubmit 1; Pipeline.LSubmit 2; Pipeline.LSubmit 3; Pipeline.LWorker 0; Pipeline.LWorker 1; Pipeline.LWorker 1;
     Pipeline.LWorker 1; Pipeline.LWorker 1; Pipeline.LWorker 0; Pipeline.LCommit; Pipeline.LCommit; Pipeline.LCommit;
     Pipeline.LCommit; Pipeline.LCommit; Pipeline.LCommit] (Pipeline.new_Pipeline 2 4) =
  Some (Some (Some 2), [Pipeline.Committed 10; Pipeline.Threw 2; Pipeline.Committed 30]).
Proof. vm_compute. reflexivity. Qed.
